(* ===== verification/_CoqProject ===== *)
-Q . S2P
Prelude.v
Bytes.v
Pmm.v
PmmFacts.v
PmmInit.v
KString.v
Heap.v
HeapFacts.v
HeapProofs.v
Memory.v
Paging.v
PagingFacts.v
PagingProofs.v
Vm.v
VmMap.v
VmFacts.v
VmInv.v
VmFault.v
VmFork.v
VmDemo.v
Sched.v
Waitq.v
Task.v
SchedInv.v
SchedFair.v
SchedWait.v
SchedKernel.v
SchedSwitch.v
SchedLife.v
SchedSteps.v
SchedDemo.v
Ipc.v
IpcInv.v
IpcSend.v
IpcSteps.v
IpcDemo.v
PathSpec.v
Vfs.v
VfsFile.v
UnixPath.v
VfsFacts.v
VfsTree.v
VfsOps.v
VfsNames.v
VfsMount.v
VfsSteps.v
VfsSpec.v
VfsDemo.v
UnixPipe.v
UnixFd.v
UnixIo.v
UnixRes.v
UnixFdInv.v
UnixCalls.v
UnixProc.v
UnixFutex.v
UnixProcInv.v
UnixForkSpec.v
Posix.v
UnixSteps.v
UnixSpec.v
UnixDemo.v
BlockDev.v
Ext2.v
Ext2Io.v
Ext2Alloc.v
Ext2Write.v
Ext2Spec.v
Ext2Mount.v
Ext2Demo.v
Loader.v
LoaderProofs.v
LoaderMap.v
Exec.v
ExecProofs.v
ExecDemo.v
