(* ===== verification/Prelude.v ===== *)
(** * RodNIX kernel: a Rocq verification library

    RodNIX is a small Unix-like kernel for x86_64, written in C.  This library
    translates the parts of it that manage memory, threads, messages, files and
    processes into Rocq functions over explicit states, and proves what those
    parts promise.  Names are those of the source; paths below are under src/.

    ** Parts of the kernel and their files

    - Physical memory (kernel/arch/x86_64/pmm.c): [Pmm] has the operations on the
      bitmap and the free-range caches of the zones, [PmmFacts] the invariant
      and the theorems on allocation and release, [PmmInit] the initialisation
      and a concrete machine.
    - Strings (kernel/common/string.c): [KString].
    - Heap (kernel/common/heap.c): [Heap] is the pointer-level code over a page
      source (a type class), [HeapFacts] and [HeapProofs] show that it keeps
      disjoint live blocks; [Memory] (kernel/arch/x86_64/memory.c) implements
      the page source with the physical memory manager.
    - Page tables (kernel/arch/x86_64/paging.c): [Paging], [PagingFacts],
      [PagingProofs].  Tables are words of physical memory.
    - Virtual memory (kernel/vm): [Vm] and [VmMap] model objects, page
      references, maps, faults and fork; [VmFacts], [VmProofs], [VmInv],
      [VmTasks], [VmFault], [VmFork] are the proofs, [VmDemo] runs.
    - Scheduler, wait queues, tasks, reaper (kernel/common/scheduler,
      waitq.c, task.c, kernel/core/task.h): [Sched], [Waitq], [Task]; the
      invariant is built in [SchedFacts] to [SchedSteps], the promises are in
      [SchedSpec] and [SchedFair], runs in [SchedDemo].
    - Ports and messages (kernel/common/ipc.c, idl_runtime.c): [Ipc] and the
      files [IpcFacts] to [IpcDemo], on top of the scheduler.
    - Virtual file system (kernel/fs/vfs.c, devfs.c): [PathSpec] is the
      specification of path names, [Vfs] and [VfsFile] the code, [Devfs] the
      device file system; [VfsFacts] to [VfsSteps] build the invariant,
      [VfsBoot] the boot, [VfsSpec] states the promises, [VfsDemo] has runs.
      A file system driver promises [FsDriver] (a type class of [VfsMount]),
      which [Devfs] discharges.
    - Unix layer (kernel/unix): [UnixPath] (user pointers and path names),
      [UnixPipe] (pipes), [UnixFd] and [UnixIo] (descriptors and the calls on
      them), [UnixProc] (signals, exit, waitpid, identity), [UnixFutex],
      [UnixFork].  [UnixRes] to [UnixCalls] and [UnixProcInv] build the
      invariant of the descriptor tables; [UnixSpec], [UnixIoSpec],
      [UnixProcSpec] and [UnixForkSpec] state the promises, [UnixDemo] has runs.
    - System calls (kernel/posix, kernel/common/syscall.c,
      kernel/arch/x86_64/syscall_fast.c): [Posix] is the table, the dispatch and
      the entry; [UnixSteps] is the transition system of all calls.
    - ext2 (kernel/fs/ext2.c) on the block service
      (kernel/fabric/service/block_service.c): [Bytes] has fields and stores of
      byte strings, [BlockDev] the service, [Ext2] the code in an error and
      state monad.  [Ext2Io] to [Ext2Write] prove it against a layout of the
      disk, [Ext2Spec], [Ext2Load] and [Ext2Mount] state the promises, [Ext2Demo]
      has a disk.  The driver of the disk is a record of operations whose laws
      are those of a disk.
    - Programs (kernel/common/loader.c, elf.h, kernel/unix/exec/unix_exec.c):
      [Loader] maps segments, stack and arguments, [Exec] replaces or starts a
      program; [PagingRoot] (new page tables), [LoaderProofs], [LoaderMap],
      [LoaderElf] and [ExecProofs] are the theorems, [LoaderDemo] and [ExecDemo]
      run a small program.
    ** How the models read

    A struct is a record, with [r <| f := v |>] for [r.f = v].  Integers are in
    [Z], with [u8], [u16], [u32], [u64], [s32] and [s64] where the code wraps or
    converts.  Structures that are shared by pointer live in finite maps from
    addresses, 0 being NULL.  State is passed explicitly; a panic is the outcome
    [Panic]; a system call returns, waits, ends its thread, or leaves what is
    modelled ([sysres]).  What [kmalloc] returns is an argument, with the old
    content of the block where the code does not clear it.  The processor is
    one, and what runs with interrupts disabled is one step; a function that
    waits is split where it gives the processor away, so that step relations
    ([kstep], [istep], [vstep], [pstep], [fstep], [ustep]) interleave the parts.

    ** What the theorems show

    - Invariants of all reachable states: scheduler ([scheduler_invariant]),
      messages ([ipc_invariant]), file system ([vfs_invariant]), descriptors and
      pipes ([unix_fd_invariant]), futexes ([futex_invariant]); of the memory
      managers for each operation ([pmm_inv], [heap_inv], [vm_inv]).
    - Functional correctness on all branches, errors included: the [*_correct]
      theorems of allocation, mapping, faults, switching, sending, path lookup,
      renaming, fork, exit, waitpid, signals, duplication of descriptors, the
      memory and the arguments of a new program, and exec.
    - Refinement of abstract objects: maps are partial functions ([view]), the
      reap ring and pipes are queues ([reap_ring_refines], [pipe_fifo]), names
      are a namespace ([namespace]), queues of messages are lists, an ext2 file
      is its bytes ([ext2_writeback_file_correct]).
    - Equivalence with reference definitions: [strstr_correct],
      [vfs_lookup_correct] (a walk along the components),
      [unix_path_normalize_correct], [unix_poll_pipe_correct] (poll against read
      and write).
    - Liveness and termination: [queued_thread_dispatched], [timed_wait_expires],
      [futex_wake_correct], and the loops of the reaper, of teardown, of file
      growth, of waking and of fork.
    - Round trips: allocation and release, writing and reading a file, writing to
      an ext2 file and loading it again, entering and leaving a signal handler.
    - Behaviour that callers do not expect is stated on concrete runs, in the
      files [*Demo] and in [HeapProofs]; the manifest lists it as findings.

    ** Bounds and fuel

    A loop over a linked list takes as fuel the number of structures that exist,
    and the invariants show that the list is shorter.  [destroy_loop] takes the
    number of map entries ([vm_task_destroy_terminates]); [stack_acquire_loop]
    the length of the stack cache ([fork_total]); [grow_cap] has 64 doublings,
    which is all there are in 64 bits ([vfs_grow_file_terminates]);
    [range_mapped_loop] one more than the number of entries of the map
    ([range_mapped_spec]).  The transfers of ext2 take the number of bytes, a
    directory the number of blocks that an inode can name, the tree the levels
    the code allows ([ext2_mount_terminates]); the stack and the file of a new
    program take the number of bytes.  The counters that the code does not protect against
    wrapping are bounded by hypotheses that say so ([room], [few]).

    ** Not modelled

    Assembly and processor instructions (boot, interrupt stubs, TLB, MSRs);
    drivers and interrupt controllers, which are device registers; the console,
    logs and traces, which print; the shell; the stubs of other architectures.
    Of the C code without device registers these are left out: the network
    stack behind the socket descriptors, the registry of buses and drivers of
    kernel/fabric, the Linux system call table, kernel modules, keyboard input
    and the terminal, and the POSIX calls that only report information.  The
    models that use sockets, the console and disks take them as arguments.
    The disk of ext2 is a function from addresses to bytes; its theorems use
    functional extensionality.  The manifest lists each part with its status. *)

From stdpp Require Import base gmap list numbers fin_maps.
#[global] Open Scope Z_scope.

(** ** Notation scope of the development *)
Declare Scope kernel_scope.
Delimit Scope kernel_scope with kernel.
#[global] Open Scope kernel_scope.

(** ** Field update of C structs

    [r <| f := v |>] is the struct [r] after [r.f = v], and
    [r <| f ::= g |>] the struct after [r.f = g(r.f)].  A record type declares
    its eta expansion once ([EtaRecord]); the update functions of its fields
    are derived from it. *)
Class EtaRecord (R : Type) := eta_record : R → R.

Class FieldUpdate {R E : Type} (proj : R → E) := field_update : (E → E) → R → R.
Arguments field_update {R E} proj {_} f r.

Ltac solve_field_update :=
  match goal with
  | |- @FieldUpdate ?R ?E ?proj =>
      let inst := constr:(_ : EtaRecord R) in
      let e := eval hnf in inst in
      lazymatch eval pattern proj in e with
      | ?body _ =>
          let upd := eval cbv beta in
            (fun f : E → E => body (fun r => f (proj r))) in
          exact upd
      end
  end.

#[export] Hint Extern 1 (FieldUpdate _) => solve_field_update : typeclass_instances.

Notation "x <| proj := v |>" := (field_update proj (λ _, v) x)
  (at level 1, left associativity, proj at level 7, v at level 99,
   format "x <| proj  :=  v |>") : kernel_scope.
Notation "x <| proj ::= f |>" := (field_update proj f x)
  (at level 1, left associativity, proj at level 7, f at level 99,
   format "x <| proj  ::=  f |>") : kernel_scope.

(** ** Machine integers

    A [uintN_t] is a [Z] between 0 and [2^N - 1]; every C operation that can
    leave that interval is followed by the reduction of its width. *)
Definition u8 (z : Z) : Z := z mod 256.
Definition u16 (z : Z) : Z := z mod 65536.
Definition u32 (z : Z) : Z := z mod 4294967296.
Definition u64 (z : Z) : Z := z mod 18446744073709551616.

(** [(int)z] and [(int64_t)z]. *)
Definition s32 (z : Z) : Z := if u32 z <? 2147483648 then u32 z else u32 z - 4294967296.
Definition s64 (z : Z) : Z :=
  if u64 z <? 9223372036854775808 then u64 z else u64 z - 18446744073709551616.

Abbreviation in_u8 z := (0 ≤ z < 256).
Abbreviation in_u32 z := (0 ≤ z < 4294967296).
Abbreviation in_u64 z := (0 ≤ z < 18446744073709551616).

Notation "a +₆₄ b" := (u64 (a + b)) (at level 50, left associativity) : kernel_scope.
Notation "a -₆₄ b" := (u64 (a - b)) (at level 50, left associativity) : kernel_scope.
Notation "a *₆₄ b" := (u64 (a * b)) (at level 40, left associativity) : kernel_scope.
Notation "a +₃₂ b" := (u32 (a + b)) (at level 50, left associativity) : kernel_scope.
Notation "a -₃₂ b" := (u32 (a - b)) (at level 50, left associativity) : kernel_scope.
Notation "a *₃₂ b" := (u32 (a * b)) (at level 40, left associativity) : kernel_scope.

(** [~x] and [x & y] on [uint64_t]. *)
Definition not64 (z : Z) : Z := u64 (Z.lnot z).

(** [(flags & bit) != 0] *)
Definition has_flag (flags bit : Z) : bool := negb (Z.land flags bit =? 0).

(** ** Error codes of include/error.h *)
Definition RDNX_OK : Z := 0.
Definition RDNX_E_GENERIC : Z := -1.
Definition RDNX_E_INVALID : Z := -2.
Definition RDNX_E_NOMEM : Z := -3.
Definition RDNX_E_NOTFOUND : Z := -4.
Definition RDNX_E_BUSY : Z := -5.
Definition RDNX_E_DENIED : Z := -6.
Definition RDNX_E_UNSUPPORTED : Z := -7.
Definition RDNX_E_TIMEOUT : Z := -8.

(** ** Outcomes

    A kernel function that can reach [PANIC] or [BUG_ON] does not return:
    its model returns an [outcome]. *)
Inductive outcome (A : Type) : Type :=
| Done (a : A)
| Panic.
Arguments Done {A} a.
Arguments Panic {A}.

Definition outcome_bind {A B} (m : outcome A) (k : A → outcome B) : outcome B :=
  match m with
  | Done a => k a
  | Panic => Panic
  end.

Notation "'let!' p := m 'in' k" :=
  (outcome_bind m (λ x, match x with p => k end))
  (at level 10, p strict pattern, m at level 100, k at level 200) : kernel_scope.

Definition outcome_ok {A} (P : A → Prop) (m : outcome A) : Prop :=
  match m with
  | Done a => P a
  | Panic => False
  end.

Definition returns {A} (m : outcome A) : bool :=
  match m with
  | Done _ => true
  | Panic => false
  end.

(** ** Page constants *)
Definition PAGE_SIZE : Z := 4096.

Definition align_down (v : Z) : Z := Z.land v (not64 (PAGE_SIZE - 1)).
Definition align_up (v : Z) : Z := Z.land (v +₆₄ (PAGE_SIZE - 1)) (not64 (PAGE_SIZE - 1)).

(** The addresses visited by
    [for (a = start; a < stop; a += PAGE_SIZE)]. *)
Definition page_addrs (start stop : Z) : list Z :=
  (λ k, start + PAGE_SIZE * k) <$> seqZ 0 ((stop - start + (PAGE_SIZE - 1)) / PAGE_SIZE).

(** ** Physical memory

    The content of the page frames, by frame address, one [Z] per byte. *)
Abbreviation physmem := (gmap Z (list Z)).

Definition zero_page : list Z := replicate 4096 0.

(** Memory that was never written reads as 0. *)
#[export] Instance zero_inhabited : Inhabited Z | 0 := populate 0.

(** ** Tactics *)

(** Case analysis on the boolean tests of the code; comparisons on [Z] are
    turned into the propositions they decide. *)
Ltac bool_hyps :=
  repeat match goal with
  | H : (_ && _)%bool = true |- _ => apply andb_true_iff in H as [? ?]
  | H : (_ || _)%bool = false |- _ => apply orb_false_iff in H as [? ?]
  | H : negb _ = true |- _ => apply negb_true_iff in H
  | H : negb _ = false |- _ => apply negb_false_iff in H
  | H : (_ =? _) = true |- _ => apply Z.eqb_eq in H
  | H : (_ =? _) = false |- _ => apply Z.eqb_neq in H
  | H : (_ <? _) = true |- _ => apply Z.ltb_lt in H
  | H : (_ <? _) = false |- _ => apply Z.ltb_ge in H
  | H : (_ <=? _) = true |- _ => apply Z.leb_le in H
  | H : (_ <=? _) = false |- _ => apply Z.leb_gt in H
  | H : bool_decide _ = true |- _ => apply bool_decide_eq_true_1 in H
  | H : bool_decide _ = false |- _ => apply bool_decide_eq_false_1 in H
  end.

Ltac case_if :=
  match goal with
  | |- context [if ?b then _ else _] =>
      lazymatch b with
      | context [if _ then _ else _] => fail
      | _ => let E := fresh "Eif" in destruct b eqn:E
      end
  | H : context [if ?b then _ else _] |- _ =>
      lazymatch b with
      | context [if _ then _ else _] => fail
      | _ => let E := fresh "Eif" in destruct b eqn:E
      end
  end.

Ltac split_ifs := repeat (case_if; bool_hyps; simplify_eq/=; try lia).

(** ** Word lemmas *)
Lemma s64_range z : -9223372036854775808 ≤ s64 z < 9223372036854775808.
Proof.
  unfold s64. pose proof (Z.mod_pos_bound z 18446744073709551616). unfold u64.
  destruct (Z.ltb_spec (z mod 18446744073709551616) 9223372036854775808); lia.
Qed.
Lemma u64_small z : in_u64 z → u64 z = z.
Proof. apply Z.mod_small. Qed.
Lemma u32_small z : in_u32 z → u32 z = z.
Proof. apply Z.mod_small. Qed.
Lemma u8_small z : in_u8 z → u8 z = z.
Proof. apply Z.mod_small. Qed.
Lemma u64_range z : in_u64 (u64 z).
Proof. apply Z.mod_pos_bound. lia. Qed.
Lemma u32_range z : in_u32 (u32 z).
Proof. apply Z.mod_pos_bound. lia. Qed.
Lemma u8_range z : in_u8 (u8 z).
Proof. apply Z.mod_pos_bound. lia. Qed.

(** Ranges of words, and reductions that have no effect. *)
Create HintDb words.
#[export] Hint Resolve u8_range u32_range u64_range s64_range : words.
#[export] Hint Rewrite u8_small u32_small u64_small using lia : words.

(** Drop the reductions whose argument is in range. *)
Ltac word_simp :=
  repeat match goal with
  | |- context [u64 ?z] => rewrite (u64_small z) by lia
  | |- context [u32 ?z] => rewrite (u32_small z) by lia
  | |- context [u8 ?z] => rewrite (u8_small z) by lia
  end.
Tactic Notation "word_simp" "in" hyp(H) :=
  repeat match type of H with
  | context [u64 ?z] => rewrite (u64_small z) in H by lia
  | context [u32 ?z] => rewrite (u32_small z) in H by lia
  | context [u8 ?z] => rewrite (u8_small z) in H by lia
  end.

Lemma land_u64_r a b : in_u64 a → Z.land a (u64 b) = Z.land a b.
Proof.
  intros Ha. unfold u64.
  change 18446744073709551616 with (2 ^ 64).
  rewrite <- Z.land_ones by lia.
  rewrite (Z.land_comm b), Z.land_assoc, (Z.land_ones a) by lia.
  by rewrite Z.mod_small.
Qed.

Lemma land_not_ones v n :
  0 ≤ n → Z.land v (Z.lnot (2 ^ n - 1)) = v - v mod 2 ^ n.
Proof.
  intros Hn.
  replace (2 ^ n - 1) with (Z.ones n) by (rewrite Z.ones_equiv; lia).
  rewrite <- Z.ldiff_land, Z.ldiff_ones_r by lia.
  rewrite Z.shiftl_mul_pow2, Z.shiftr_div_pow2 by lia.
  pose proof (Z.div_mod v (2 ^ n)). nia.
Qed.

Lemma align_down_eq v : in_u64 v → align_down v = v - v mod 4096.
Proof.
  intros Hv. unfold align_down, not64. rewrite land_u64_r by done.
  apply (land_not_ones v 12). lia.
Qed.

Lemma align_up_eq v :
  0 ≤ v ≤ 18446744073709551616 - 4096 →
  align_up v = (v + 4095) - (v + 4095) mod 4096.
Proof.
  intros Hv. unfold align_up, PAGE_SIZE. word_simp.
  unfold not64. rewrite land_u64_r by lia.
  apply (land_not_ones _ 12). lia.
Qed.

(** ** List lemmas *)

(** Membership in a list given by its parts. *)
Ltac solve_in := rewrite ?elem_of_app, ?elem_of_cons; tauto.

Lemma list_filter_ext_in {A} (P Q : A → Prop)
    `{!∀ x, Decision (P x), !∀ x, Decision (Q x)} (l : list A) :
  (∀ x, x ∈ l → P x ↔ Q x) → filter P l = filter Q l.
Proof.
  induction l as [|x l IH]; intros Hpq; [done|].
  rewrite !filter_cons, IH by (intros; apply Hpq; by right).
  pose proof (Hpq x ltac:(by left)). do 2 case_decide; tauto.
Qed.

Lemma list_filter_all {A} (P : A → Prop) `{!∀ x, Decision (P x)} (l : list A) :
  (∀ x, x ∈ l → P x) → filter P l = l.
Proof.
  induction l as [|x l IH]; intros Hp; [done|].
  rewrite filter_cons, decide_True, IH; try done; [intros; apply Hp; by right|].
  apply Hp. by left.
Qed.

Lemma list_filter_none {A} (P : A → Prop) `{!∀ x, Decision (P x)} (l : list A) :
  (∀ x, x ∈ l → ¬ P x) → filter P l = [].
Proof.
  induction l as [|x l IH]; intros Hp; [done|].
  rewrite filter_cons, decide_False, IH; try done; [intros; apply Hp; by right|].
  apply Hp. by left.
Qed.

(** Deciding membership in a list built by [cons]. *)
Lemma decide_elem_cons {B} (j i : Z) (l : list Z) (a b : B) :
  (if decide (j ∈ i :: l) then a else b)
    = if decide (i = j) then a else if decide (j ∈ l) then a else b.
Proof.
  destruct (decide (j ∈ i :: l)) as [H|H]; rewrite elem_of_cons in H;
    repeat case_decide; intuition congruence.
Qed.
