(* ===== verification/Bytes.v ===== *)
(** * Byte areas

    Buffers and packed structures are lists of bytes; a field is read and
    written at its offset, least significant byte first.  A disk is a function
    from byte addresses to bytes. *)

From stdpp Require Import base gmap list numbers fin_maps.
From S2P Require Import Prelude.

(** ** Little-endian words *)
Fixpoint le_bytes (n : nat) (z : Z) : list Z :=
  match n with
  | O => []
  | S n => z mod 256 :: le_bytes n (z / 256)
  end.
Definition le_value (l : list Z) : Z := foldr (λ b z, b + 256 * z) 0 l.

(** The [n] bytes of [l] from [off] on. *)
Definition bslice (off n : Z) (l : list Z) : list Z := take (Z.to_nat n) (drop (Z.to_nat off) l).

(** [memcpy (&l[off], d, length d);] *)
Definition bput (off : Z) (d l : list Z) : list Z := list_inserts (Z.to_nat off) d l.

Definition get16 (off : Z) (l : list Z) : Z := le_value (bslice off 2 l).
Definition get32 (off : Z) (l : list Z) : Z := le_value (bslice off 4 l).
Definition put16 (off v : Z) (l : list Z) : list Z := bput off (le_bytes 2 v) l.
Definition put32 (off v : Z) (l : list Z) : list Z := bput off (le_bytes 4 v) l.

Definition zeros (n : Z) : list Z := replicate (Z.to_nat n) 0.

(** ** Areas of a disk *)
Definition area (f : Z → Z) (a n : Z) : list Z := (λ k, f (a + k)) <$> seqZ 0 n.
Definition store_at (a : Z) (l : list Z) (f : Z → Z) : Z → Z :=
  λ x, if decide (a ≤ x < a + Z.of_nat (length l)) then l !!! Z.to_nat (x - a) else f x.
Definition word32 (f : Z → Z) (a : Z) : Z := le_value (area f a 4).

(** ** Lemmas *)
Lemma length_le_bytes n z : length (le_bytes n z) = n.
Proof. revert z. induction n; intros; simpl; [done|]. by rewrite IHn. Qed.

Lemma le_value_bytes n z : 0 ≤ z < 256 ^ Z.of_nat n → le_value (le_bytes n z) = z.
Proof.
  revert z. induction n as [|n IH]; intros z Hz; [simpl in *; lia|].
  simpl. rewrite IH; [pose proof (Z.div_mod z 256); lia|].
  rewrite Nat2Z.inj_succ, Z.pow_succ_r in Hz by lia. split; [apply Z.div_pos; lia|].
  apply Z.div_lt_upper_bound; lia.
Qed.

Lemma le_bytes_range n z : Forall (λ b, 0 ≤ b < 256) (le_bytes n z).
Proof. revert z. induction n; intros; simpl; constructor; [|done]. apply Z.mod_pos_bound. lia. Qed.

Lemma le_value_range l : Forall (λ b, 0 ≤ b < 256) l → 0 ≤ le_value l < 256 ^ Z.of_nat (length l).
Proof.
  induction 1 as [|b l Hb _ IH]; [simpl; lia|]. simpl. rewrite Nat2Z.inj_succ, Z.pow_succ_r by lia. lia.
Qed.

Lemma length_bput off d l : length (bput off d l) = length l.
Proof. apply length_inserts. Qed.

Lemma bslice_lookup off n l k :
  0 ≤ off → (k < Z.to_nat n)%nat → bslice off n l !! k = l !! (Z.to_nat off + k)%nat.
Proof. intros. unfold bslice. rewrite lookup_take_lt by done. by rewrite lookup_drop. Qed.

Lemma length_bslice off n l :
  0 ≤ off → 0 ≤ n → off + n ≤ Z.of_nat (length l) → length (bslice off n l) = Z.to_nat n.
Proof. intros. unfold bslice. rewrite length_take, length_drop. lia. Qed.

Lemma bslice_put_same off d l :
  0 ≤ off → off + Z.of_nat (length d) ≤ Z.of_nat (length l) → bslice off (Z.of_nat (length d)) (bput off d l) = d.
Proof.
  intros Ho Hl. apply list_eq. intros k. destruct (decide (k < length d)%nat) as [Hk|Hk].
  - rewrite bslice_lookup by lia. unfold bput. rewrite list_lookup_inserts by lia. f_equal. lia.
  - rewrite !lookup_ge_None_2; [done|lia|]. rewrite length_bslice; rewrite ?length_bput; lia.
Qed.

Lemma bslice_put_other off d l off' n :
  0 ≤ off → 0 ≤ off' → off' + n ≤ off ∨ off + Z.of_nat (length d) ≤ off' →
  bslice off' n (bput off d l) = bslice off' n l.
Proof.
  intros Ho Ho' Hd. apply list_eq. intros k. destruct (decide (k < Z.to_nat n)%nat) as [Hk|Hk].
  - rewrite !bslice_lookup by lia. unfold bput. destruct Hd; [apply list_lookup_inserts_lt|apply list_lookup_inserts_ge]; lia.
  - rewrite !lookup_ge_None_2; [done|unfold bslice; rewrite length_take; lia..].
Qed.

Lemma get32_put32 off v l :
  0 ≤ off → off + 4 ≤ Z.of_nat (length l) → in_u32 v → get32 off (put32 off v l) = v.
Proof.
  intros Ho Hl Hv. unfold get32, put32. pose proof (bslice_put_same off (le_bytes 4 v) l) as E.
  rewrite length_le_bytes in E. change (Z.of_nat 4) with 4 in E. rewrite E by lia. apply le_value_bytes. simpl. lia.
Qed.

Lemma get32_put32_other off off' v l :
  0 ≤ off → 0 ≤ off' → off' + 4 ≤ off ∨ off + 4 ≤ off' → get32 off' (put32 off v l) = get32 off' l.
Proof.
  intros. unfold get32, put32. rewrite bslice_put_other; [done|done|done|]. rewrite length_le_bytes. simpl. lia.
Qed.

Lemma get16_put32_other off off' v l :
  0 ≤ off → 0 ≤ off' → off' + 2 ≤ off ∨ off + 4 ≤ off' → get16 off' (put32 off v l) = get16 off' l.
Proof.
  intros. unfold get16, put32. rewrite bslice_put_other; [done|done|done|]. rewrite length_le_bytes. simpl. lia.
Qed.

(** *** Areas *)
Lemma length_area f a n : length (area f a n) = Z.to_nat n.
Proof. unfold area. by rewrite length_fmap, length_seqZ. Qed.

Lemma area_lookup f a n k : (k < Z.to_nat n)%nat → area f a n !! k = Some (f (a + Z.of_nat k)).
Proof.
  intros Hk. unfold area. rewrite list_lookup_fmap, lookup_seqZ_lt by lia. simpl. do 2 f_equal; lia.
Qed.

Lemma area_ext f g a n : (∀ k, 0 ≤ k < n → f (a + k) = g (a + k)) → area f a n = area g a n.
Proof. intros H. unfold area. apply list_fmap_ext. intros i x Hx%lookup_seqZ. apply H. lia. Qed.

Lemma area_bslice f a n off k :
  0 ≤ off → 0 ≤ k → off + k ≤ n → bslice off k (area f a n) = area f (a + off) k.
Proof.
  intros Ho Hk Hn. apply list_eq. intros i. destruct (decide (i < Z.to_nat k)%nat) as [Hi|Hi].
  - rewrite bslice_lookup, !area_lookup by lia. do 2 f_equal. lia.
  - rewrite !lookup_ge_None_2; [done|rewrite length_area; lia|]. unfold bslice. rewrite length_take. lia.
Qed.

Lemma area_app f a n m : 0 ≤ n → 0 ≤ m → area f a n ++ area f (a + n) m = area f a (n + m).
Proof.
  intros Hn Hm. unfold area. rewrite seqZ_app by lia. rewrite fmap_app. f_equal. apply list_eq. intros i.
  rewrite !list_lookup_fmap. destruct (decide (i < Z.to_nat m)%nat).
  - rewrite !lookup_seqZ_lt by lia. simpl. do 2 f_equal. lia.
  - rewrite !lookup_seqZ_ge by lia. done.
Qed.

Lemma store_at_in a l f x :
  a ≤ x < a + Z.of_nat (length l) → store_at a l f x = l !!! Z.to_nat (x - a).
Proof. intros H. unfold store_at. by rewrite decide_True. Qed.

Lemma store_at_out a l f x : ¬ (a ≤ x < a + Z.of_nat (length l)) → store_at a l f x = f x.
Proof. intros H. unfold store_at. by rewrite decide_False. Qed.

Lemma area_store_same a l f : area (store_at a l f) a (Z.of_nat (length l)) = l.
Proof.
  apply list_eq. intros k. destruct (decide (k < length l)%nat) as [Hk|Hk].
  - rewrite area_lookup, store_at_in by lia. rewrite Z.add_simpl_l, Nat2Z.id. by rewrite list_lookup_lookup_total_lt.
  - rewrite !lookup_ge_None_2; [done|lia|rewrite length_area; lia].
Qed.

Lemma area_store_other a l f b n :
  b + n ≤ a ∨ a + Z.of_nat (length l) ≤ b → area (store_at a l f) b n = area f b n.
Proof. intros H. apply area_ext. intros k Hk. apply store_at_out. lia. Qed.

Lemma store_at_app_at a l1 l2 f x :
  store_at (a + Z.of_nat (length l1)) l2 (store_at a l1 f) x = store_at a (l1 ++ l2) f x.
Proof.
  unfold store_at. rewrite length_app, Nat2Z.inj_add.
  destruct (decide (a ≤ x < a + Z.of_nat (length l1))) as [H1|H1].
  - rewrite decide_False by lia. rewrite decide_True by lia. by rewrite lookup_total_app_l by lia.
  - case_decide.
    + rewrite decide_True by lia. rewrite lookup_total_app_r by lia. f_equal. lia.
    + by rewrite decide_False by lia.
Qed.

(** A store inside an area is a [memcpy] into the buffer of the area. *)
Lemma area_store_inside a l f b n :
  0 ≤ n → b ≤ a → a + Z.of_nat (length l) ≤ b + n →
  area (store_at a l f) b n = bput (a - b) l (area f b n).
Proof.
  intros Hn Ha Hl. apply list_eq. intros k. destruct (decide (k < Z.to_nat n)%nat) as [Hk|Hk].
  - rewrite area_lookup by done. unfold bput. destruct (decide (a - b ≤ Z.of_nat k < a - b + Z.of_nat (length l))) as [Hi|Hi].
    + rewrite list_lookup_inserts by (rewrite ?length_area; lia).
      rewrite store_at_in by lia. rewrite list_lookup_lookup_total_lt by lia. do 2 f_equal. lia.
    + rewrite store_at_out by lia. destruct (decide (Z.of_nat k < a - b)).
      * rewrite list_lookup_inserts_lt by lia. by rewrite area_lookup.
      * rewrite list_lookup_inserts_ge by lia. by rewrite area_lookup.
  - rewrite !lookup_ge_None_2; [done|rewrite length_bput, length_area; lia|rewrite length_area; lia].
Qed.

Lemma get32_area f a n off : 0 ≤ off → off + 4 ≤ n → get32 off (area f a n) = word32 f (a + off).
Proof. intros. unfold get32, word32. by rewrite area_bslice by lia. Qed.
