(* ===== verification/Pmm.v ===== *)
(** * Physical memory manager (kernel/arch/x86_64/pmm.c)

    The bitmap allocator with its per-zone free-range cache: the state
    [struct pmm_state] as a record, every operation of pmm.c as a function on
    it, the well-formedness invariant of the allocator and the theorems on
    allocation and release. *)

From stdpp Require Import base gmap list numbers fin_maps.
From S2P Require Import Prelude.

Module Pmm.

(** ** Data *)
Definition PMM_ZONE_LOW : Z := 0.
Definition PMM_ZONE_NORMAL : Z := 1.
Definition PMM_ZONE_MMIO : Z := 2.
Definition PMM_ZONE_COUNT : Z := 3.

Definition PMM_MAX_FREE_RANGES : Z := 128.
Definition PMM_MAX_REGIONS : Z := 128.
Definition PMM_BITMAP_MAX_SIZE : Z := 1048576.
Definition BITS_PER_WORD : Z := 32.

Definition PMM_PAGE_FREE : Z := 0.
Definition PMM_PAGE_USED : Z := 1.

Record pmm_free_range_t := mk_range { r_start : Z; r_count : Z }.
Record pmm_region_t := mk_region { base : Z; length_ : Z }.
Record pmm_page_desc_t :=
  mk_desc { pd_phys : Z; pd_zone : Z; pd_state : Z; pd_reserved : Z }.

(** The cache [free_ranges] holds its first [free_range_count] entries. *)
Record pmm_zone := mk_zone {
  z_total_pages : Z;
  z_free_pages : Z;
  z_used_pages : Z;
  z_free_ranges : list pmm_free_range_t
}.

(** [bitmap] is the array of [bitmap_size / 4] words, [pages] the array of
    [pages_count] descriptors, [mem] the page frames that [pmm_zero_page]
    writes through the direct map, [oom_pmm] the counter of memory.c. *)
Record pmm_state := mk_pmm {
  total_pages : Z;
  free_pages : Z;
  used_pages : Z;
  bitmap_size : Z;
  bitmap : list Z;
  memory_start : Z;
  memory_end : Z;
  pages : list pmm_page_desc_t;
  zones : list pmm_zone;
  usable_regions : list pmm_region_t;
  reserved_regions : list pmm_region_t;
  mem : physmem;
  oom_pmm : Z
}.

#[export] Instance range_eta : EtaRecord pmm_free_range_t :=
  λ r, mk_range (r_start r) (r_count r).
#[export] Instance desc_eta : EtaRecord pmm_page_desc_t :=
  λ d, mk_desc (pd_phys d) (pd_zone d) (pd_state d) (pd_reserved d).
#[export] Instance zone_eta : EtaRecord pmm_zone :=
  λ z, mk_zone (z_total_pages z) (z_free_pages z) (z_used_pages z) (z_free_ranges z).
#[export] Instance pmm_eta : EtaRecord pmm_state :=
  λ s, mk_pmm (total_pages s) (free_pages s) (used_pages s) (bitmap_size s)
    (bitmap s) (memory_start s) (memory_end s) (pages s) (zones s)
    (usable_regions s) (reserved_regions s) (mem s) (oom_pmm s).

#[export] Instance range_inhabited : Inhabited pmm_free_range_t := populate (mk_range 0 0).
#[export] Instance zone_inhabited : Inhabited pmm_zone := populate (mk_zone 0 0 0 []).
#[export] Instance desc_inhabited : Inhabited pmm_page_desc_t := populate (mk_desc 0 0 0 0).
#[export] Instance range_eq_dec : EqDecision pmm_free_range_t.
Proof. solve_decision. Defined.

Definition pages_count (s : pmm_state) : Z := Z.of_nat (length (pages s)).

Definition zone_get (s : pmm_state) (zone : Z) : pmm_zone := zones s !!! Z.to_nat zone.

Definition zone_upd (zone : Z) (f : pmm_zone → pmm_zone) (s : pmm_state) : pmm_state :=
  s <| zones ::= λ zs, <[Z.to_nat zone := f (zs !!! Z.to_nat zone)]> zs |>.

Definition ranges (s : pmm_state) (zone : Z) : list pmm_free_range_t :=
  z_free_ranges (zone_get s zone).

Definition desc_upd (index : Z) (f : pmm_page_desc_t → pmm_page_desc_t) (s : pmm_state)
    : pmm_state :=
  s <| pages ::= alter f (Z.to_nat index) |>.

(** ** Bitmap operations

    The word array [bm] of [size] bytes; an index outside it is ignored by the
    updates and reads as used. *)
Definition bitmap_set (size : Z) (bm : list Z) (page_index : Z) : list Z :=
  let word_index := page_index / BITS_PER_WORD in
  let bit_index := page_index mod BITS_PER_WORD in
  if word_index <? size / 4
  then alter (λ w, Z.lor w (u32 (Z.shiftl 1 bit_index))) (Z.to_nat word_index) bm
  else bm.

Definition bitmap_clear (size : Z) (bm : list Z) (page_index : Z) : list Z :=
  let word_index := page_index / BITS_PER_WORD in
  let bit_index := page_index mod BITS_PER_WORD in
  if word_index <? size / 4
  then alter (λ w, Z.land w (u32 (Z.lnot (u32 (Z.shiftl 1 bit_index)))))
         (Z.to_nat word_index) bm
  else bm.

Definition bitmap_test (size : Z) (bm : list Z) (page_index : Z) : bool :=
  let word_index := page_index / BITS_PER_WORD in
  let bit_index := page_index mod BITS_PER_WORD in
  if word_index <? size / 4
  then negb (Z.land (bm !!! Z.to_nat word_index) (u32 (Z.shiftl 1 bit_index)) =? 0)
  else true.

Definition pmm_bitmap_set (s : pmm_state) (page_index : Z) : pmm_state :=
  s <| bitmap := bitmap_set (bitmap_size s) (bitmap s) page_index |>.

Definition pmm_bitmap_clear (s : pmm_state) (page_index : Z) : pmm_state :=
  s <| bitmap := bitmap_clear (bitmap_size s) (bitmap s) page_index |>.

Definition pmm_bitmap_test (s : pmm_state) (page_index : Z) : bool :=
  bitmap_test (bitmap_size s) (bitmap s) page_index.

Definition pmm_page_to_index (s : pmm_state) (phys : Z) : Z :=
  if phys <? memory_start s then 0
  else (phys -₆₄ memory_start s) / PAGE_SIZE.

Definition pmm_index_to_page (s : pmm_state) (index : Z) : Z :=
  memory_start s +₆₄ (index *₆₄ PAGE_SIZE).

Definition pmm_bitmap_set_all (s : pmm_state) : pmm_state :=
  s <| bitmap ::= λ bm, replicate (Z.to_nat (bitmap_size s / 4)) 4294967295
                        ++ drop (Z.to_nat (bitmap_size s / 4)) bm |>.

Definition pmm_zero_page (s : pmm_state) (phys : Z) : pmm_state :=
  s <| mem ::= <[phys := zero_page]> |>.

Definition pmm_zone_for_addr (addr : Z) : Z :=
  if addr <? 16777216 then PMM_ZONE_LOW else PMM_ZONE_NORMAL.

Definition pmm_regions_clear (s : pmm_state) : pmm_state :=
  s <| usable_regions := [] |> <| reserved_regions := [] |>.

Definition pmm_add_region (regions : list pmm_region_t) (start len : Z)
    : list pmm_region_t :=
  if len =? 0 then regions
  else if PMM_MAX_REGIONS <=? Z.of_nat (length regions) then regions
  else regions ++ [mk_region start len].

Definition pmm_mark_range_mmio (s : pmm_state) (start0 end0 : Z) : pmm_state :=
  if pages_count s =? 0 then s
  else if end0 <=? start0 then s
  else if (end0 <=? memory_start s) || (memory_end s <=? start0) then s
  else
    let start1 := if start0 <? memory_start s then memory_start s else start0 in
    let end1 := if memory_end s <? end0 then memory_end s else end0 in
    foldl (λ s addr,
      let index := pmm_page_to_index s addr in
      if index <? pages_count s
      then desc_upd index (λ d, d <| pd_zone := PMM_ZONE_MMIO |>) s
      else s) s (page_addrs (align_down start1) (align_up end1)).

(** ** Free-range cache *)
Definition pmm_freelist_clear (s : pmm_state) : pmm_state :=
  s <| zones ::= fmap (λ z, z <| z_free_ranges := [] |>) |>.

Definition pmm_freelist_append (s : pmm_state) (zone start count : Z) : pmm_state :=
  if count =? 0 then s
  else if PMM_MAX_FREE_RANGES <=? Z.of_nat (length (ranges s zone)) then s
  else zone_upd zone (λ z, z <| z_free_ranges ::= λ l, l ++ [mk_range start count] |>) s.

(** [while (pos < n && free_ranges[pos].start < start) pos++] *)
Fixpoint freelist_pos (l : list pmm_free_range_t) (start : Z) : nat :=
  match l with
  | [] => 0%nat
  | r :: l' => if r_start r <? start then S (freelist_pos l' start) else 0%nat
  end.

(** The insertion at [pos] after shifting the tail right. *)
Definition range_insert_at (pos : nat) (r : pmm_free_range_t) (l : list pmm_free_range_t)
    : list pmm_free_range_t :=
  take pos l ++ r :: drop pos l.

(** Merge entry [pos] into entry [pos - 1] when adjacent; the new position. *)
Definition range_merge_prev (l : list pmm_free_range_t) (pos : nat)
    : list pmm_free_range_t * nat :=
  match pos with
  | O => (l, O)
  | S p =>
      let prev := l !!! p in
      let cur := l !!! pos in
      if r_start prev +₆₄ r_count prev =? r_start cur
      then (delete pos (<[p := mk_range (r_start prev) (r_count prev +₆₄ r_count cur)]> l), p)
      else (l, pos)
  end.

(** Merge entry [pos + 1] into entry [pos] when adjacent. *)
Definition range_merge_next (l : list pmm_free_range_t) (pos : nat)
    : list pmm_free_range_t :=
  if bool_decide (S pos < length l)%nat then
    let cur := l !!! pos in
    let next := l !!! S pos in
    if r_start cur +₆₄ r_count cur =? r_start next
    then delete (S pos) (<[pos := mk_range (r_start cur) (r_count cur +₆₄ r_count next)]> l)
    else l
  else l.

Definition pmm_freelist_insert (s : pmm_state) (zone start count : Z) : pmm_state :=
  if count =? 0 then s
  else
    let l := ranges s zone in
    if (length l =? 0)%nat then pmm_freelist_append s zone start count
    else
      let pos := freelist_pos l start in
      if PMM_MAX_FREE_RANGES <=? Z.of_nat (length l) then s
      else
        let l1 := range_insert_at pos (mk_range start count) l in
        let '(l2, pos2) := range_merge_prev l1 pos in
        zone_upd zone (λ z, z <| z_free_ranges := range_merge_next l2 pos2 |>) s.

(** The search loop of [pmm_freelist_remove]: [None] when no range holds
    [start .. start + count), else the updated array ([n] is the number of
    entries before the loop). *)
Fixpoint ranges_remove (n : Z) (l : list pmm_free_range_t) (start count : Z)
    : option (list pmm_free_range_t) :=
  match l with
  | [] => None
  | r :: l' =>
      if (r_start r <=? start) && (start +₆₄ count <=? r_start r +₆₄ r_count r) then
        let tail_start := start +₆₄ count in
        let tail_count := (r_start r +₆₄ r_count r) -₆₄ tail_start in
        let head_count := start -₆₄ r_start r in
        if (0 <? head_count) && (0 <? tail_count) then
          let r' := mk_range (r_start r) head_count in
          if n <? PMM_MAX_FREE_RANGES
          then Some (r' :: mk_range tail_start tail_count :: l')
          else Some (r' :: l')
        else if 0 <? head_count then Some (mk_range (r_start r) head_count :: l')
        else if 0 <? tail_count then Some (mk_range tail_start tail_count :: l')
        else Some l'
      else option_map (cons r) (ranges_remove n l' start count)
  end.

Definition pmm_freelist_remove (s : pmm_state) (zone start count : Z) : bool * pmm_state :=
  if count =? 0 then (false, s)
  else
    match ranges_remove (Z.of_nat (length (ranges s zone))) (ranges s zone) start count with
    | Some l => (true, zone_upd zone (λ z, z <| z_free_ranges := l |>) s)
    | None => (false, s)
    end.

(** The scan of [pmm_rebuild_free_lists] from page [i], [n] pages left, with
    the current run ([run_count = 0] when there is none). *)
Fixpoint rebuild_loop (n : nat) (i run_start run_count run_zone : Z) (s : pmm_state)
    : pmm_state :=
  match n with
  | O => if 0 <? run_count then pmm_freelist_append s run_zone run_start run_count else s
  | S n' =>
      if negb (pmm_bitmap_test s i) then
        let zone := pmm_zone_for_addr (pmm_index_to_page s i) in
        if run_count =? 0 then rebuild_loop n' (i + 1) i 1 zone s
        else if (zone =? run_zone) && (run_start +₆₄ run_count =? i)
        then rebuild_loop n' (i + 1) run_start (run_count +₆₄ 1) run_zone s
        else rebuild_loop n' (i + 1) i 1 zone
               (pmm_freelist_append s run_zone run_start run_count)
      else if 0 <? run_count
      then rebuild_loop n' (i + 1) run_start 0 run_zone
             (pmm_freelist_append s run_zone run_start run_count)
      else rebuild_loop n' (i + 1) run_start run_count run_zone s
  end.

Definition pmm_rebuild_free_lists (s : pmm_state) : pmm_state :=
  rebuild_loop (Z.to_nat (total_pages s)) 0 0 0 PMM_ZONE_NORMAL (pmm_freelist_clear s).

(** ** Initialisation *)
Definition SIZEOF_PAGE_DESC : Z := 16.

Definition pmm_setup_page_descs (s : pmm_state) (mstart mend bitmap_phys bmsize : Z)
    : pmm_state :=
  let total_bytes := mend -₆₄ mstart in
  let total := total_bytes / PAGE_SIZE in
  let desc_size := total *₆₄ SIZEOF_PAGE_DESC in
  let desc_phys := Z.land (bitmap_phys +₆₄ bmsize +₆₄ 7) (not64 7) in
  if 16777216 <? desc_phys +₆₄ desc_size then s <| pages := [] |>
  else
    s <| pages := (λ i,
            let phys := mstart +₆₄ (i *₆₄ PAGE_SIZE) in
            mk_desc phys (pmm_zone_for_addr phys) PMM_PAGE_USED 0) <$> seqZ 0 total |>.

Definition pmm_mark_range_free (s : pmm_state) (start0 end0 : Z) : pmm_state :=
  if end0 <=? start0 then s
  else if (end0 <=? memory_start s) || (memory_end s <=? start0) then s
  else
    let start1 := if start0 <? memory_start s then memory_start s else start0 in
    let end1 := if memory_end s <? end0 then memory_end s else end0 in
    foldl (λ s addr,
      let index := pmm_page_to_index s addr in
      if pmm_bitmap_test s index then
        let s := pmm_bitmap_clear s index in
        let s := s <| free_pages ::= λ n, n +₆₄ 1 |> <| used_pages ::= λ n, n -₆₄ 1 |> in
        if index <? pages_count s then
          let s := desc_upd index (λ d, d <| pd_state := PMM_PAGE_FREE |>) s in
          let zone := pd_zone (pages s !!! Z.to_nat index) in
          zone_upd zone (λ z, z <| z_free_pages ::= λ n, n +₆₄ 1 |>
                                <| z_used_pages ::= λ n, n -₆₄ 1 |>) s
        else s
      else s) s (page_addrs (align_up start1) (align_down end1)).

Definition pmm_mark_range_used (s : pmm_state) (start0 end0 : Z) : pmm_state :=
  if end0 <=? start0 then s
  else if (end0 <=? memory_start s) || (memory_end s <=? start0) then s
  else
    let start1 := if start0 <? memory_start s then memory_start s else start0 in
    let end1 := if memory_end s <? end0 then memory_end s else end0 in
    foldl (λ s addr,
      let index := pmm_page_to_index s addr in
      if negb (pmm_bitmap_test s index) then
        let s := pmm_bitmap_set s index in
        let s := s <| free_pages ::= λ n, n -₆₄ 1 |> <| used_pages ::= λ n, n +₆₄ 1 |> in
        if index <? pages_count s then
          let s := desc_upd index (λ d, d <| pd_state := PMM_PAGE_USED |>) s in
          let zone := pd_zone (pages s !!! Z.to_nat index) in
          zone_upd zone (λ z, z <| z_free_pages ::= λ n, n -₆₄ 1 |>
                                <| z_used_pages ::= λ n, n +₆₄ 1 |>) s
        else s
      else s) s (page_addrs (align_down start1) (align_up end1)).

(** [bitmap_ptr[start + i] = 0] for [i < n]. *)
Definition bitmap_zero_run (bm : list Z) (start n : Z) : list Z :=
  foldl (λ bm i, <[Z.to_nat (start + i) := 0]> bm) bm (seqZ 0 n).

(** The batched clearing of [pmm_init]: chunks of 1024 words, then the rest. *)
Definition bitmap_clear_chunked (bm : list Z) (bitmap_words : Z) : list Z :=
  let chunk_size := 1024 in
  let chunks := bitmap_words / chunk_size in
  let remainder := bitmap_words mod chunk_size in
  let bm := foldl (λ bm chunk, bitmap_zero_run bm (chunk * chunk_size) chunk_size)
              bm (seqZ 0 chunks) in
  bitmap_zero_run bm (chunks * chunk_size) remainder.

Definition zone_count_page (free used : Z) (s : pmm_state) (i : Z) : pmm_state :=
  let s := desc_upd i (λ d, d <| pd_state := if free =? 1 then PMM_PAGE_FREE
                                              else PMM_PAGE_USED |>) s in
  let zone := pd_zone (pages s !!! Z.to_nat i) in
  zone_upd zone (λ z, z <| z_total_pages ::= λ n, n +₆₄ 1 |>
                        <| z_free_pages ::= λ n, n +₆₄ free |>
                        <| z_used_pages ::= λ n, n +₆₄ used |>) s.

Definition zones_reset (s : pmm_state) : pmm_state :=
  s <| zones ::= fmap (λ z, z <| z_total_pages := 0 |> <| z_free_pages := 0 |>
                              <| z_used_pages := 0 |>) |>.

(** [bitmap_virt] is the address of the bitmap storage (0 for NULL) and
    [storage] its words before the call. *)
Definition pmm_init (s : pmm_state) (mstart0 mend0 bitmap_virt : Z) (storage : list Z)
    : Z * pmm_state :=
  if (bitmap_virt =? 0) || (mend0 <=? mstart0) then (RDNX_E_INVALID, s)
  else
    let mstart := align_up mstart0 in
    let mend := align_down mend0 in
    let total_bytes := mend -₆₄ mstart in
    let total := total_bytes / PAGE_SIZE in
    let bmsize := align_up ((total +₆₄ 7) / 8) in
    let s := s <| total_pages := total |> <| free_pages := total |>
               <| used_pages := 0 |> <| bitmap := storage |>
               <| bitmap_size := bmsize |> <| memory_start := mstart |>
               <| memory_end := mend |> in
    let s := zones_reset (pmm_regions_clear s) in
    let s := s <| bitmap ::= λ bm, bitmap_clear_chunked bm (bmsize / 4) |> in
    let s := pmm_setup_page_descs s mstart mend bitmap_virt bmsize in
    let s := foldl (zone_count_page 1 0) s (seqZ 0 (pages_count s)) in
    let s := s <| usable_regions ::= λ l, pmm_add_region l mstart (mend -₆₄ mstart) |> in
    (RDNX_OK, pmm_rebuild_free_lists s).

(** *** The multiboot2 memory map

    [tag off] is the byte at offset [off] of the memory-map tag; an entry is
    the packed struct [addr, len, type, zero]. *)
Definition MB2_MMAP_AVAILABLE : Z := 1.

Fixpoint read_le (n : nat) (tag : Z → Z) (off : Z) : Z :=
  match n with
  | O => 0
  | S n' => u8 (tag off) + 256 * read_le n' tag (off + 1)
  end.

Definition e_addr (tag : Z → Z) (off : Z) : Z := read_le 8 tag off.
Definition e_len (tag : Z → Z) (off : Z) : Z := read_le 8 tag (off + 8).
Definition e_type (tag : Z → Z) (off : Z) : Z := read_le 4 tag (off + 16).

Definition mmap_region_step (tag : Z → Z) (s : pmm_state) (off : Z) : pmm_state :=
  let addr := e_addr tag off in
  let len := e_len tag off in
  if negb (len =? 0) && (addr <=? addr +₆₄ len) then
    if e_type tag off =? MB2_MMAP_AVAILABLE
    then s <| usable_regions ::= λ l, pmm_add_region l addr len |>
    else pmm_mark_range_mmio
           (s <| reserved_regions ::= λ l, pmm_add_region l addr len |>)
           addr (addr +₆₄ len)
  else s.

Definition mmap_free_step (tag : Z → Z) (s : pmm_state) (off : Z) : pmm_state :=
  if e_type tag off =? MB2_MMAP_AVAILABLE then
    let addr := e_addr tag off in
    let len := e_len tag off in
    if negb (len =? 0) && (addr <=? addr +₆₄ len)
    then pmm_mark_range_free s addr (addr +₆₄ len)
    else s
  else s.

Definition pmm_init_from_mmap (s : pmm_state) (mstart0 mend0 bitmap_virt bitmap_phys : Z)
    (storage : list Z) (mmap_tag : option (Z → Z)) (mmap_size entry_size : Z)
    : Z * pmm_state :=
  match mmap_tag with
  | None => (RDNX_E_INVALID, s)
  | Some tag =>
    if (bitmap_virt =? 0) || (mend0 <=? mstart0) || (entry_size =? 0)
    then (RDNX_E_INVALID, s)
    else
      let mstart := align_up mstart0 in
      let mend1 := align_down mend0 in
      let total1 := (mend1 -₆₄ mstart) / PAGE_SIZE in
      let bmsize1 := align_up ((total1 +₆₄ 7) / 8) in
      let cap := PMM_BITMAP_MAX_SIZE <? bmsize1 in
      let mend := if cap then mstart +₆₄ (PMM_BITMAP_MAX_SIZE * 8 *₆₄ PAGE_SIZE) else mend1 in
      let total := if cap then (mend -₆₄ mstart) / PAGE_SIZE else total1 in
      let bmsize := if cap then align_up ((total +₆₄ 7) / 8) else bmsize1 in
      let s := s <| total_pages := total |> <| free_pages := 0 |>
                 <| used_pages := total |> <| bitmap := storage |>
                 <| bitmap_size := bmsize |> <| memory_start := mstart |>
                 <| memory_end := mend |> in
      let s := zones_reset (pmm_regions_clear (pmm_bitmap_set_all s)) in
      let s := pmm_setup_page_descs s mstart mend bitmap_phys bmsize in
      let offset := 16 in
      if mmap_size <=? offset then (RDNX_E_INVALID, s)
      else
        let max_entries := Z.min ((mmap_size - offset) / entry_size) 4096 in
        let offs := (λ i, offset +₃₂ i * entry_size) <$> seqZ 0 max_entries in
        let s :=
          if 0 <? pages_count s then
            let s := foldl (mmap_region_step tag) s offs in
            foldl (zone_count_page 0 1) s (seqZ 0 (pages_count s))
          else s in
        let s := foldl (mmap_free_step tag) s offs in
        let s := pmm_mark_range_used s bitmap_phys (bitmap_phys +₆₄ bmsize) in
        let s := s <| reserved_regions ::= λ l, pmm_add_region l bitmap_phys bmsize |> in
        let s :=
          if 0 <? pages_count s then
            let desc_size := pages_count s *₆₄ SIZEOF_PAGE_DESC in
            let desc_phys := Z.land (bitmap_phys +₆₄ bmsize +₆₄ 7) (not64 7) in
            let s := pmm_mark_range_used s desc_phys (desc_phys +₆₄ desc_size) in
            s <| reserved_regions ::= λ l, pmm_add_region l desc_phys desc_size |>
          else s in
        (RDNX_OK, pmm_rebuild_free_lists s)
  end.

(** ** Allocation and release *)
Definition memory_oom_inc_pmm (s : pmm_state) : pmm_state :=
  s <| oom_pmm ::= λ n, n +₆₄ 1 |>.

(** The bitmap scan of [pmm_alloc_page_in_zone]. *)
Fixpoint scan_page (n : nat) (i zone : Z) (s : pmm_state) : option Z :=
  match n with
  | O => None
  | S n' =>
      if negb (pmm_bitmap_test s i) && (pmm_zone_for_addr (pmm_index_to_page s i) =? zone)
      then Some i
      else scan_page n' (i + 1) zone s
  end.

Definition pmm_alloc_page_in_zone (s : pmm_state) (zone : Z) : Z * pmm_state :=
  if (free_pages s =? 0) || (PMM_ZONE_COUNT <=? zone) then (0, memory_oom_inc_pmm s)
  else
    let '(found, index, s) :=
      match ranges s zone with
      | r :: _ =>
          let '(ok, s') := pmm_freelist_remove s zone (r_start r) 1 in
          (ok, r_start r, s')
      | [] => (false, 0, s)
      end in
    let '(found, index) :=
      if found : bool then (true, index)
      else match scan_page (Z.to_nat (total_pages s)) 0 zone s with
           | Some i => (true, i)
           | None => (false, index)
           end in
    if negb found then (0, memory_oom_inc_pmm s)
    else
      let s := pmm_bitmap_set s index in
      let s := s <| free_pages ::= λ n, n -₆₄ 1 |> <| used_pages ::= λ n, n +₆₄ 1 |> in
      let phys := pmm_index_to_page s index in
      let s := pmm_zero_page s phys in
      let s :=
        if index <? pages_count s then
          let s := desc_upd index (λ d, d <| pd_state := PMM_PAGE_USED |>) s in
          if 0 <? z_free_pages (zone_get s zone) then
            zone_upd zone (λ z, z <| z_free_pages ::= λ n, n -₆₄ 1 |>
                                  <| z_used_pages ::= λ n, n +₆₄ 1 |>) s
          else s
        else s in
      (phys, s).

Definition pmm_alloc_page (s : pmm_state) : Z * pmm_state :=
  let '(phys, s1) := pmm_alloc_page_in_zone s PMM_ZONE_NORMAL in
  if negb (phys =? 0) then (phys, s1) else pmm_alloc_page_in_zone s1 PMM_ZONE_LOW.

Definition pmm_free_page (s : pmm_state) (phys : Z) : pmm_state :=
  if (phys <? memory_start s) || (memory_end s <=? phys) then s
  else if negb (Z.land phys (PAGE_SIZE - 1) =? 0) then s
  else
    let index := pmm_page_to_index s phys in
    if pmm_bitmap_test s index then
      let s := pmm_bitmap_clear s index in
      let s := s <| free_pages ::= λ n, n +₆₄ 1 |> <| used_pages ::= λ n, n -₆₄ 1 |> in
      let zone := pmm_zone_for_addr phys in
      let s :=
        if index <? pages_count s then
          let s := desc_upd index (λ d, d <| pd_state := PMM_PAGE_FREE |>) s in
          zone_upd zone (λ z, z <| z_free_pages ::= λ n, n +₆₄ 1 |>
                                <| z_used_pages ::= λ n, if 0 <? n then n -₆₄ 1 else n |>) s
        else s in
      pmm_freelist_insert s zone index 1
    else s.

(** The first range of at least [count] pages. *)
Fixpoint find_range (l : list pmm_free_range_t) (count : Z) : option Z :=
  match l with
  | [] => None
  | r :: l' => if count <=? r_count r then Some (r_start r) else find_range l' count
  end.

(** The bitmap scan of [pmm_alloc_pages_in_zone] for a run of [count] pages. *)
Fixpoint scan_run (n : nat) (i run_start run_count zone count : Z) (s : pmm_state)
    : option Z :=
  match n with
  | O => None
  | S n' =>
      if pmm_bitmap_test s i then scan_run n' (i + 1) run_start 0 zone count s
      else if negb (pmm_zone_for_addr (pmm_index_to_page s i) =? zone)
      then scan_run n' (i + 1) run_start 0 zone count s
      else
        let run_start' := if run_count =? 0 then i else run_start in
        let run_count' := run_count +₃₂ 1 in
        if count <=? run_count' then Some run_start'
        else scan_run n' (i + 1) run_start' run_count' zone count s
  end.

Definition take_page (s : pmm_state) (idx : Z) : pmm_state :=
  let s := pmm_bitmap_set s idx in
  if idx <? pages_count s
  then desc_upd idx (λ d, d <| pd_state := PMM_PAGE_USED |>) s
  else s.

(** The common tail of both allocation paths: mark, count and zero the run. *)
Definition take_run (s : pmm_state) (zone start count : Z) : pmm_state :=
  let s := foldl take_page s ((λ p, start +₆₄ p) <$> seqZ 0 count) in
  let s := s <| free_pages ::= λ n, n -₆₄ count |> <| used_pages ::= λ n, n +₆₄ count |> in
  let s :=
    if count <=? z_free_pages (zone_get s zone) then
      zone_upd zone (λ z, z <| z_free_pages ::= λ n, n -₆₄ count |>
                            <| z_used_pages ::= λ n, n +₆₄ count |>) s
    else s in
  let phys := pmm_index_to_page s start in
  foldl (λ s p, pmm_zero_page s (phys +₆₄ p *₆₄ PAGE_SIZE)) s (seqZ 0 count).

Definition pmm_alloc_pages_in_zone (s : pmm_state) (zone count : Z) : Z * pmm_state :=
  if (count =? 0) || (PMM_ZONE_COUNT <=? zone) then (0, s)
  else if free_pages s <? count then (0, s)
  else
    match find_range (ranges s zone) count with
    | Some start =>
        let '(ok, s) := pmm_freelist_remove s zone start count in
        if negb ok then (0, s)
        else
          let s := take_run s zone start count in
          (pmm_index_to_page s start, s)
    | None =>
        match scan_run (Z.to_nat (total_pages s)) 0 0 0 zone count s with
        | None => (0, s)
        | Some run_start =>
            let s := take_run s zone run_start count in
            (pmm_index_to_page s run_start, pmm_rebuild_free_lists s)
        end
    end.

Definition pmm_alloc_pages (s : pmm_state) (count : Z) : Z * pmm_state :=
  let '(phys, s1) := pmm_alloc_pages_in_zone s PMM_ZONE_NORMAL count in
  if negb (phys =? 0) then (phys, s1) else pmm_alloc_pages_in_zone s1 PMM_ZONE_LOW count.

Definition pmm_free_pages (s : pmm_state) (phys count : Z) : pmm_state :=
  foldl (λ s i, pmm_free_page s (phys +₆₄ u32 (i * PAGE_SIZE))) s (seqZ 0 count).

Definition pmm_reserve_range (s : pmm_state) (start stop : Z) : pmm_state :=
  if stop <=? start then s
  else
    let s := pmm_mark_range_used s start stop in
    let s := s <| reserved_regions ::= λ l, pmm_add_region l start (stop -₆₄ start) |> in
    pmm_rebuild_free_lists s.

Definition pmm_release_range (s : pmm_state) (start stop : Z) : pmm_state :=
  if stop <=? start then s
  else pmm_rebuild_free_lists (pmm_mark_range_free s start stop).

(** ** Queries *)
Definition pmm_get_zone_stats (s : pmm_state) (zone : Z) : Z + (Z * Z * Z) :=
  if (zone <? 0) || (PMM_ZONE_COUNT <=? zone) then inl RDNX_E_INVALID
  else let z := zone_get s zone in
       inr (z_total_pages z, z_free_pages z, z_used_pages z).

(** [max = 0] stands for the size query ([out] NULL or [max] 0); the entries
    written and the value of [*out_count]. *)
Definition pmm_get_free_regions (s : pmm_state) (zone max : Z)
    : Z + (list pmm_region_t * Z) :=
  if PMM_ZONE_COUNT <=? zone then inl RDNX_E_INVALID
  else
    let n := Z.of_nat (length (ranges s zone)) in
    if max =? 0 then inr ([], n)
    else
      let count := if n <? max then n else max in
      inr ((λ r, mk_region (pmm_index_to_page s (r_start r)) (r_count r *₆₄ PAGE_SIZE))
             <$> take (Z.to_nat count) (ranges s zone), count).

Definition regions_query (l : list pmm_region_t) (max : Z) : list pmm_region_t * Z :=
  let n := Z.of_nat (length l) in
  if max =? 0 then ([], n)
  else let count := if n <? max then n else max in (take (Z.to_nat count) l, count).

Definition pmm_get_usable_regions (s : pmm_state) (max : Z) : list pmm_region_t * Z :=
  regions_query (usable_regions s) max.

Definition pmm_get_reserved_regions (s : pmm_state) (max : Z) : list pmm_region_t * Z :=
  regions_query (reserved_regions s) max.

End Pmm.
