(* ===== verification/PmmFacts.v ===== *)
(** * Physical memory manager: invariant and theorems *)

From stdpp Require Import base gmap list numbers fin_maps.
From S2P Require Import Prelude Pmm.
Import Pmm.

Module PmmFacts.

(** ** Bitmap words *)
Lemma u32_bit b : 0 ≤ b < 32 → u32 (Z.shiftl 1 b) = 2 ^ b.
Proof.
  intros Hb. rewrite Z.shiftl_1_l. apply u32_small. split; [lia|].
  change 4294967296 with (2 ^ 32). apply Z.pow_lt_mono_r; lia.
Qed.

Lemma land_bit_testbit w b :
  0 ≤ b < 32 → negb (Z.land w (u32 (Z.shiftl 1 b)) =? 0) = Z.testbit w b.
Proof.
  intros Hb. rewrite u32_bit by done.
  destruct (Z.testbit w b) eqn:E.
  - apply negb_true_iff, Z.eqb_neq. intros H0.
    assert (Z.testbit (Z.land w (2 ^ b)) b = true) as H1.
    { rewrite Z.land_spec, E, Z.pow2_bits_true by lia. done. }
    rewrite H0, Z.bits_0 in H1. done.
  - apply negb_false_iff, Z.eqb_eq, Z.bits_inj'. intros n Hn.
    rewrite Z.land_spec, Z.bits_0.
    destruct (decide (n = b)) as [->|]; [by rewrite E|].
    rewrite Z.pow2_bits_false by done. by rewrite andb_false_r.
Qed.

Lemma testbit_set w b c :
  0 ≤ b < 32 → 0 ≤ c → Z.testbit (Z.lor w (u32 (Z.shiftl 1 b))) c
    = if decide (b = c) then true else Z.testbit w c.
Proof.
  intros Hb Hc. rewrite u32_bit, Z.lor_spec by done. case_decide; subst.
  - rewrite Z.pow2_bits_true by lia. apply orb_true_r.
  - rewrite Z.pow2_bits_false by done. apply orb_false_r.
Qed.

Lemma u32_land_r a b : in_u32 a → Z.land a (u32 b) = Z.land a b.
Proof.
  intros Ha. unfold u32. change 4294967296 with (2 ^ 32).
  rewrite <- Z.land_ones by lia.
  rewrite (Z.land_comm b), Z.land_assoc, (Z.land_ones a) by lia.
  by rewrite Z.mod_small.
Qed.

Lemma testbit_clear w b c :
  in_u32 w → 0 ≤ b < 32 → 0 ≤ c →
  Z.testbit (Z.land w (u32 (Z.lnot (u32 (Z.shiftl 1 b))))) c
    = if decide (b = c) then false else Z.testbit w c.
Proof.
  intros Hw Hb Hc. rewrite u32_land_r, u32_bit, Z.land_spec, Z.lnot_spec by done.
  case_decide; subst.
  - rewrite Z.pow2_bits_true by lia. apply andb_false_r.
  - rewrite Z.pow2_bits_false by done. apply andb_true_r.
Qed.

(** ** The bitmap as a set of used pages *)
Record bitmap_wf (size : Z) (bm : list Z) : Prop := {
  bw_len : Z.of_nat (length bm) = size / 4;
  bw_words : Forall (λ w, in_u32 w) bm
}.

Lemma bitmap_lookup size bm i :
  bitmap_wf size bm → 0 ≤ i → i / 32 < size / 4 →
  ∃ w, bm !! Z.to_nat (i / 32) = Some w ∧ in_u32 w.
Proof.
  intros [Hlen Hw] Hi Hlt.
  destruct (lookup_lt_is_Some_2 bm (Z.to_nat (i / 32))) as [w Hl].
  { pose proof (Z.div_pos i 32). lia. }
  exists w. split; [done|]. by eapply Forall_lookup_1 in Hw.
Qed.

Lemma bitmap_test_testbit size bm i :
  0 ≤ i → bitmap_test size bm i
    = if i / 32 <? size / 4 then Z.testbit (bm !!! Z.to_nat (i / 32)) (i mod 32) else true.
Proof.
  intros Hi. unfold bitmap_test, BITS_PER_WORD. case_if; [|done].
  apply land_bit_testbit, Z.mod_pos_bound. lia.
Qed.

Lemma bitmap_index_neq i j : i / 32 = j / 32 → i mod 32 = j mod 32 → i = j.
Proof. intros H1 H2. rewrite (Z.div_mod i 32), (Z.div_mod j 32) by lia. lia. Qed.

Lemma alter_word (f : Z → Z) (bm : list Z) n w :
  bm !! n = Some w → alter f n bm !!! n = f w.
Proof.
  intros Hw. apply list_lookup_total_correct. rewrite list_lookup_alter, Hw.
  by case_decide.
Qed.

(** The common part of the two updates: bit [i mod 32] of word [i / 32]
    becomes [v], the others stay. *)
Lemma bitmap_test_alter size bm (f : Z → Z) (v : bool) i j :
  bitmap_wf size bm → 0 ≤ i → 0 ≤ j → i / 32 < size / 4 →
  (∀ w c, in_u32 w → 0 ≤ c →
     Z.testbit (f w) c = if decide (i mod 32 = c) then v else Z.testbit w c) →
  bitmap_test size (alter f (Z.to_nat (i / 32)) bm) j
    = if decide (i = j) then v else bitmap_test size bm j.
Proof.
  intros Hwf Hi Hj Hlt Hf. rewrite !bitmap_test_testbit by done.
  destruct (bitmap_lookup size bm i) as (w & Hw & Hr); [done..|].
  pose proof (Z.div_pos i 32 Hi). pose proof (Z.div_pos j 32 Hj).
  pose proof (Z.mod_pos_bound j 32).
  case_if; bool_hyps; [|case_decide; subst; [lia|done]].
  destruct (decide (i / 32 = j / 32)) as [Heq|Hne].
  - rewrite <- Heq, (alter_word _ _ _ w), (list_lookup_total_correct _ _ _ Hw) by done.
    rewrite Hf by (done || lia).
    case_decide as Hm; case_decide as Hij; subst; try done.
    by destruct Hij; apply bitmap_index_neq.
  - rewrite list_lookup_total_alter_ne by lia. case_decide; [subst; lia|done].
Qed.

(** [bitmap_set] marks exactly its page, [bitmap_clear] releases exactly it. *)
Lemma bitmap_test_set size bm i j :
  bitmap_wf size bm → 0 ≤ i → 0 ≤ j → i / 32 < size / 4 →
  bitmap_test size (bitmap_set size bm i) j
    = if decide (i = j) then true else bitmap_test size bm j.
Proof.
  intros Hwf Hi Hj Hlt. unfold bitmap_set, BITS_PER_WORD.
  rewrite (proj2 (Z.ltb_lt (i / 32) (size / 4))) by done.
  apply bitmap_test_alter; try done. intros w c _ Hc.
  apply testbit_set; [apply Z.mod_pos_bound; lia|done].
Qed.

Lemma bitmap_test_clear size bm i j :
  bitmap_wf size bm → 0 ≤ i → 0 ≤ j → i / 32 < size / 4 →
  bitmap_test size (bitmap_clear size bm i) j
    = if decide (i = j) then false else bitmap_test size bm j.
Proof.
  intros Hwf Hi Hj Hlt. unfold bitmap_clear, BITS_PER_WORD.
  rewrite (proj2 (Z.ltb_lt (i / 32) (size / 4))) by done.
  apply bitmap_test_alter; try done. intros w c Hw Hc.
  apply testbit_clear; [done|apply Z.mod_pos_bound; lia|done].
Qed.

Lemma in_u32_lor a b : in_u32 a → in_u32 b → in_u32 (Z.lor a b).
Proof.
  intros Ha Hb. split; [apply Z.lor_nonneg; lia|].
  change 4294967296 with (2 ^ 32) in *.
  destruct (decide (Z.lor a b = 0)) as [->|Hne]; [lia|].
  apply Z.log2_lt_pow2.
  { pose proof (Z.lor_nonneg a b). lia. }
  rewrite Z.log2_lor by lia. apply Z.max_lub_lt.
  - destruct (decide (a = 0)) as [->|]; [done|]. apply Z.log2_lt_pow2; lia.
  - destruct (decide (b = 0)) as [->|]; [done|]. apply Z.log2_lt_pow2; lia.
Qed.

Lemma in_u32_land a b : in_u32 a → 0 ≤ b → in_u32 (Z.land a b).
Proof.
  intros Ha Hb. change 4294967296 with (2 ^ 32) in *.
  replace (Z.land a b) with (Z.land a b mod 2 ^ 32); [apply Z.mod_pos_bound; lia|].
  rewrite <- Z.land_ones, <- Z.land_assoc, (Z.land_comm b), Z.land_assoc by lia.
  by rewrite Z.land_ones, Z.mod_small by lia.
Qed.

Lemma bitmap_set_wf size bm i : bitmap_wf size bm → bitmap_wf size (bitmap_set size bm i).
Proof.
  intros [Hl Hw]. unfold bitmap_set. case_if; [|done]. split.
  - by rewrite length_alter.
  - apply Forall_alter; [done|]. intros w ? Hr.
    apply in_u32_lor; [done|apply u32_range].
Qed.

Lemma bitmap_clear_wf size bm i : bitmap_wf size bm → bitmap_wf size (bitmap_clear size bm i).
Proof.
  intros [Hl Hw]. unfold bitmap_clear. case_if; [|done]. split.
  - by rewrite length_alter.
  - apply Forall_alter; [done|]. intros w ? Hr.
    apply in_u32_land; [done|apply u32_range].
Qed.

(** ** Free-range lists

    [ranges_wf lo total l]: the ranges of [l] are non-empty, in increasing
    order, disjoint, and lie between page [lo] and page [total]. *)
Fixpoint ranges_wf (lo total : Z) (l : list pmm_free_range_t) : Prop :=
  match l with
  | [] => True
  | r :: l' => lo ≤ r_start r ∧ 0 < r_count r ∧ r_start r + r_count r ≤ total
               ∧ ranges_wf (r_start r + r_count r) total l'
  end.

Definition in_range (i : Z) (r : pmm_free_range_t) : Prop :=
  r_start r ≤ i < r_start r + r_count r.
Definition in_ranges (l : list pmm_free_range_t) (i : Z) : Prop := Exists (in_range i) l.

Fixpoint ranges_end (lo : Z) (l : list pmm_free_range_t) : Z :=
  match l with
  | [] => lo
  | r :: l' => ranges_end (r_start r + r_count r) l'
  end.

Lemma in_ranges_cons r l i : in_ranges (r :: l) i ↔ in_range i r ∨ in_ranges l i.
Proof. apply Exists_cons. Qed.
Lemma in_ranges_app l1 l2 i : in_ranges (l1 ++ l2) i ↔ in_ranges l1 i ∨ in_ranges l2 i.
Proof. apply Exists_app. Qed.
Lemma in_ranges_nil i : in_ranges [] i ↔ False.
Proof. apply Exists_nil. Qed.

Lemma ranges_wf_mono lo lo' total l : lo' ≤ lo → ranges_wf lo total l → ranges_wf lo' total l.
Proof. destruct l; simpl; intuition lia. Qed.

Lemma ranges_wf_bounds lo total l i : ranges_wf lo total l → in_ranges l i → lo ≤ i < total.
Proof.
  revert lo. induction l as [|r l IH]; intros lo; simpl.
  - by rewrite in_ranges_nil.
  - intros (? & ? & ? & Hl) [Hr|Hr]%in_ranges_cons.
    + unfold in_range in Hr. lia.
    + apply (IH _ Hl) in Hr. lia.
Qed.

Lemma ranges_wf_app lo total l1 l2 :
  ranges_wf lo total (l1 ++ l2)
    ↔ ranges_wf lo total l1 ∧ ranges_wf (ranges_end lo l1) total l2.
Proof. revert lo. induction l1; intros lo; simpl; [tauto|]. rewrite IHl1. tauto. Qed.

Lemma ranges_end_le lo total l : ranges_wf lo total l → lo ≤ ranges_end lo l.
Proof.
  revert lo. induction l as [|r l IH]; intros lo; simpl; [lia|].
  intros (? & ? & ? & Hl). apply IH in Hl. lia.
Qed.

(** Removing a sub-range: exactly the pages asked for leave the list (more
    may leave it when the array is full and a tail is dropped). *)
Lemma ranges_remove_spec n lo total l start count l' :
  0 ≤ lo → total < 2 ^ 52 → ranges_wf lo total l → 0 < count →
  ranges_remove n l start count = Some l' → 0 ≤ start < 2 ^ 52 → count < 2 ^ 52 →
  ranges_wf lo total l'
  ∧ (∀ i, start ≤ i < start + count → in_ranges l i)
  ∧ (∀ i, in_ranges l' i → in_ranges l i ∧ ¬ (start ≤ i < start + count)).
Proof.
  intros Hlo Htot. revert lo l' Hlo.
  induction l as [|r l IH]; intros lo l' Hlo; simpl; [done|].
  intros (Hr1 & Hr2 & Hr3 & Hl) Hc Hrem Hs Hcb. revert Hrem.
  assert (2 ^ 52 = 4503599627370496) as E52 by done. rewrite E52 in *.
  word_simp. destruct (_ && _) eqn:E.
  - bool_hyps. word_simp. intros Hrem.
    assert (∀ i, start ≤ i < start + count → in_range i r) as Hin.
    { intros i. unfold in_range. lia. }
    assert (∀ i, in_ranges l i → r_start r + r_count r ≤ i) as Hrest.
    { intros i Hi. eapply ranges_wf_bounds in Hi; [|done]. lia. }
    split; [|split].
    + split_ifs; split_and?; try lia.
      all: simplify_eq; eapply ranges_wf_mono; [|exact Hl]; lia.
    + intros i Hi. apply in_ranges_cons. left. auto.
    + intros i Hi.
      assert (in_ranges l i ∨ (in_range i r ∧ ¬ (start ≤ i < start + count))) as Hcase.
      { unfold in_range. split_ifs; rewrite ?in_ranges_cons in Hi;
          unfold in_range in Hi; simpl in Hi; destruct_or?; auto; right; lia. }
      rewrite in_ranges_cons. destruct Hcase as [Hx|[Hx ?]]; [|auto].
      split; [by right|]. apply Hrest in Hx. lia.
  - intros Hrem. destruct (ranges_remove n l start count) as [l1|] eqn:E1; [|done].
    simplify_eq/=. destruct (IH (r_start r + r_count r) l1) as (Hw & Hi1 & Hi2); try done; [lia|].
    split_and!; try done.
    + intros i Hi. apply in_ranges_cons. right. auto.
    + intros i [Hi|Hi]%in_ranges_cons; rewrite in_ranges_cons.
      * split; [by left|]. intros Hc'.
        assert (in_ranges l i) as Hil by auto.
        eapply ranges_wf_bounds in Hil; [|done]. unfold in_range in Hi. lia.
      * destruct (Hi2 i Hi). auto.
Qed.

Lemma ranges_remove_length n l start count l' :
  Z.of_nat (length l) ≤ n → n ≤ 128 → ranges_remove n l start count = Some l' →
  Z.of_nat (length l') ≤ 128.
Proof.
  intros Hlen Hn Hr.
  assert ((length l' ≤ S (length l))%nat ∧ (128 ≤ n → (length l' ≤ length l)%nat)) as [H1 H2].
  { clear Hlen Hn. revert l' Hr. induction l as [|r l IH]; intros l'; simpl; [done|].
    unfold PMM_MAX_FREE_RANGES. intros Hr. split_ifs; try (simpl; lia).
    destruct (ranges_remove n l start count) as [l1|]; simplify_eq/=.
    destruct (IH l1) as [? ?]; [done|]. split; intros; simpl; lia. }
  destruct (decide (n = 128)); lia.
Qed.

(** The head range is always found. *)
Lemma ranges_remove_head n lo total r l :
  0 ≤ lo → total < 2 ^ 52 → ranges_wf lo total (r :: l) →
  is_Some (ranges_remove n (r :: l) (r_start r) 1).
Proof.
  simpl. intros Hlo Htot (? & ? & ? & ?).
  assert (2 ^ 52 = 4503599627370496) as E52 by done. rewrite E52 in *.
  word_simp. rewrite Z.leb_refl, (proj2 (Z.leb_le (r_start r + 1) _)) by lia. simpl.
  repeat case_if; eauto.
Qed.

Lemma freelist_pos_le l start : (freelist_pos l start ≤ length l)%nat.
Proof. induction l as [|r l IH]; simpl; [lia|]. case_if; simpl; lia. Qed.

Lemma range_insert_wf lo total l start count :
  ranges_wf lo total l → lo ≤ start → 0 < count → start + count ≤ total →
  (∀ i, in_ranges l i → ¬ (start ≤ i < start + count)) →
  ranges_wf lo total (range_insert_at (freelist_pos l start) (mk_range start count) l).
Proof.
  unfold range_insert_at. revert lo.
  induction l as [|r l IH]; intros lo Hwf Hlo Hc Ht Hdis; simpl; [simpl; lia|].
  destruct Hwf as (Hr1 & Hr2 & Hr3 & Hl).
  assert (¬ (start ≤ r_start r < start + count)) as Hd1.
  { apply Hdis, in_ranges_cons. left. unfold in_range. lia. }
  case_if; bool_hyps; simpl.
  - assert (r_start r + r_count r ≤ start) as Hle.
    { destruct (decide (r_start r + r_count r ≤ start)); [done|].
      exfalso. apply (Hdis start); [|lia].
      apply in_ranges_cons. left. unfold in_range. lia. }
    split_and!; try done. apply IH; try done.
    intros i Hi. apply Hdis, in_ranges_cons. by right.
  - split_and!; try done; lia.
Qed.

Lemma range_insert_in pos r l i :
  in_ranges (range_insert_at pos r l) i ↔ in_range i r ∨ in_ranges l i.
Proof.
  unfold range_insert_at. rewrite in_ranges_app, in_ranges_cons.
  rewrite <- (take_drop pos l) at 3. rewrite in_ranges_app. tauto.
Qed.

(** Joining two adjacent entries keeps the set of pages. *)
Lemma range_join lo total m p :
  ranges_wf lo total m → (S p < length m)%nat →
  r_start (m !!! p) + r_count (m !!! p) = r_start (m !!! S p) →
  let q := mk_range (r_start (m !!! p)) (r_count (m !!! p) + r_count (m !!! S p)) in
  let m' := delete (S p) (<[p := q]> m) in
  ranges_wf lo total m' ∧ (∀ i, in_ranges m' i ↔ in_ranges m i)
  ∧ S (length m') = length m.
Proof.
  revert lo m. induction p as [|p IH]; intros lo [|a m]; simpl; try lia.
  - destruct m as [|b m]; simpl; [lia|]. intros (? & ? & ? & ? & ? & ? & Hm) _ Hadj.
    split_and!; try lia.
    + eapply ranges_wf_mono; [|exact Hm]. lia.
    + intros i. rewrite !in_ranges_cons. unfold in_range; simpl.
      split; intros Hi; destruct_or?; try tauto; try lia.
  - intros (? & ? & ? & Hm) Hlen Hadj.
    destruct (IH _ m Hm) as (Hw & Hin & Hl); [lia|done|].
    split_and!; try done; [|simpl in *; lia].
    intros i. rewrite !in_ranges_cons. rewrite Hin. done.
Qed.

Lemma ranges_wf_lookup lo total l p r :
  ranges_wf lo total l → l !! p = Some r →
  lo ≤ r_start r ∧ 0 < r_count r ∧ r_start r + r_count r ≤ total.
Proof.
  revert lo p. induction l as [|a l IH]; intros lo p; simpl; [done|].
  intros (? & ? & ? & Hl). destruct p as [|p]; simpl; intros Hp; simplify_eq; [lia|].
  destruct (IH _ _ Hl Hp). lia.
Qed.

Lemma ranges_wf_total lo total l p :
  ranges_wf lo total l → (p < length l)%nat →
  lo ≤ r_start (l !!! p) ∧ 0 < r_count (l !!! p)
  ∧ r_start (l !!! p) + r_count (l !!! p) ≤ total.
Proof.
  intros Hwf [r Hr]%lookup_lt_is_Some_2.
  rewrite (list_lookup_total_correct _ _ _ Hr). by eapply ranges_wf_lookup.
Qed.

Lemma range_merge_prev_spec lo total m pos :
  0 ≤ lo → total < 2 ^ 52 → ranges_wf lo total m → (pos < length m)%nat →
  let '(m', pos') := range_merge_prev m pos in
  ranges_wf lo total m' ∧ (∀ i, in_ranges m' i ↔ in_ranges m i)
  ∧ (pos' < length m')%nat ∧ (length m' ≤ length m)%nat.
Proof.
  intros Hlo Ht Hwf Hpos. destruct pos as [|p]; [split_and!; done || lia|]. simpl.
  assert (2 ^ 52 = 4503599627370496) as E52 by done. rewrite E52 in *.
  pose proof (ranges_wf_total _ _ _ p Hwf) as Hp.
  pose proof (ranges_wf_total _ _ _ (S p) Hwf) as Hq.
  destruct Hp as (? & ? & ?); [lia|]. destruct Hq as (? & ? & ?); [lia|].
  word_simp. case_if; [|split_and!; done || lia]. bool_hyps.
  word_simp. destruct (range_join lo total m p) as (Hw & Hin & Hl); try done.
  split_and!; try done; lia.
Qed.

Lemma range_merge_next_spec lo total m pos :
  0 ≤ lo → total < 2 ^ 52 → ranges_wf lo total m →
  ranges_wf lo total (range_merge_next m pos)
  ∧ (∀ i, in_ranges (range_merge_next m pos) i ↔ in_ranges m i)
  ∧ (length (range_merge_next m pos) ≤ length m)%nat.
Proof.
  intros Hlo Ht Hwf. unfold range_merge_next. case_bool_decide; [|split_and!; done || lia].
  assert (2 ^ 52 = 4503599627370496) as E52 by done. rewrite E52 in *.
  pose proof (ranges_wf_total _ _ _ pos Hwf) as Hp.
  pose proof (ranges_wf_total _ _ _ (S pos) Hwf) as Hq.
  destruct Hp as (? & ? & ?); [lia|]. destruct Hq as (? & ? & ?); [lia|].
  word_simp. case_if; [|split_and!; done || lia]. bool_hyps.
  word_simp. destruct (range_join lo total m pos) as (Hw & Hin & Hl); try done.
  split_and!; try done; lia.
Qed.

(** ** The allocator invariant *)
Definition all_ranges (s : pmm_state) : list (list pmm_free_range_t) :=
  z_free_ranges <$> zones s.

Definition page_zone (s : pmm_state) (i : Z) : Z :=
  pmm_zone_for_addr (pmm_index_to_page s i).

(** The pages of the managed range that the bitmap reports free. *)
Definition free_list (s : pmm_state) : list Z :=
  filter (λ i, pmm_bitmap_test s i = false) (seqZ 0 (total_pages s)).

(** The cached ranges [l] of [zone] hold only free pages of that zone. *)
Definition cache_ok (s : pmm_state) (zone : Z) (l : list pmm_free_range_t) : Prop :=
  ranges_wf 0 (total_pages s) l ∧ Z.of_nat (length l) ≤ PMM_MAX_FREE_RANGES
  ∧ ∀ i, in_ranges l i → pmm_bitmap_test s i = false ∧ page_zone s i = zone.

Record pmm_inv (s : pmm_state) : Prop := {
  inv_total : 0 ≤ total_pages s < 2 ^ 52;
  inv_start : 0 < memory_start s ∧ memory_start s mod 4096 = 0;
  inv_end : memory_end s = memory_start s + 4096 * total_pages s;
  inv_end64 : memory_end s < 2 ^ 64;
  inv_bitmap : bitmap_wf (bitmap_size s) (bitmap s);
  inv_cover : total_pages s ≤ 32 * (bitmap_size s / 4);
  inv_zones : length (zones s) = 3%nat;
  inv_cache : ∀ zone l, all_ranges s !! Z.to_nat zone = Some l → 0 ≤ zone → cache_ok s zone l;
  inv_free : free_pages s = Z.of_nat (length (free_list s));
  inv_used : used_pages s = total_pages s - free_pages s
}.

Lemma ranges_all s zone :
  length (zones s) = 3%nat → 0 ≤ zone < 3 →
  all_ranges s !! Z.to_nat zone = Some (ranges s zone).
Proof.
  intros Hl Hz. unfold all_ranges, ranges, zone_get.
  rewrite list_lookup_fmap.
  destruct (lookup_lt_is_Some_2 (zones s) (Z.to_nat zone)) as [z Hzz]; [lia|].
  by rewrite Hzz, (list_lookup_total_correct _ _ _ Hzz).
Qed.

Lemma inv_cache_zone s zone : pmm_inv s → 0 ≤ zone < 3 → cache_ok s zone (ranges s zone).
Proof.
  intros Hinv Hz. eapply inv_cache; [done|apply ranges_all; [apply Hinv|done]|lia].
Qed.

Lemma zone_upd_all_ranges zone l s :
  length (zones s) = 3%nat → 0 ≤ zone < 3 →
  all_ranges (zone_upd zone (λ z, z <| z_free_ranges := l |>) s)
    = <[Z.to_nat zone := l]> (all_ranges s).
Proof. intros _ _. unfold all_ranges, zone_upd. simpl. by rewrite list_fmap_insert. Qed.

Lemma zone_upd_counters_all_ranges zone f s :
  (∀ z, z_free_ranges (f z) = z_free_ranges z) →
  all_ranges (zone_upd zone f s) = all_ranges s.
Proof.
  intros Hf. unfold all_ranges, zone_upd. simpl.
  rewrite list_fmap_insert, Hf.
  destruct (zones s !! Z.to_nat zone) as [z|] eqn:E.
  - rewrite (list_lookup_total_correct _ _ _ E). apply list_insert_id.
    by rewrite list_lookup_fmap, E.
  - apply list_insert_ge. rewrite length_fmap. by apply lookup_ge_None.
Qed.

(** The invariant only depends on these fields. *)
Lemma pmm_inv_frame s s' :
  pmm_inv s →
  total_pages s' = total_pages s → memory_start s' = memory_start s →
  memory_end s' = memory_end s → bitmap_size s' = bitmap_size s →
  bitmap s' = bitmap s → all_ranges s' = all_ranges s → length (zones s') = length (zones s) →
  free_pages s' = free_pages s → used_pages s' = used_pages s →
  pmm_inv s'.
Proof.
  intros [] E1 E2 E3 E4 E5 E6 E7 E8 E9.
  assert (∀ i, pmm_bitmap_test s' i = pmm_bitmap_test s i) as Et.
  { intros i. unfold pmm_bitmap_test. by rewrite E4, E5. }
  assert (∀ i, page_zone s' i = page_zone s i) as Ez.
  { intros i. unfold page_zone, pmm_index_to_page. by rewrite E2. }
  split; rewrite ?E1, ?E2, ?E3, ?E4, ?E5, ?E7, ?E8, ?E9; try done.
  - intros zone l. rewrite E6. intros Hl Hz.
    destruct (inv_cache0 zone l Hl Hz) as (? & ? & Hi).
    split_and!; rewrite ?E1; try done. intros i. rewrite Et, Ez. apply Hi.
  - rewrite inv_free0. unfold free_list. rewrite E1. do 2 f_equal.
    apply list_filter_iff. intros i. by rewrite Et.
Qed.

Lemma index_to_page_eq s i :
  pmm_inv s → 0 ≤ i < total_pages s → pmm_index_to_page s i = memory_start s + 4096 * i.
Proof.
  intros [] Hi. unfold pmm_index_to_page, PAGE_SIZE.
  change (2 ^ 64) with 18446744073709551616 in *.
  word_simp. lia.
Qed.

Lemma page_to_index_eq s i :
  pmm_inv s → 0 ≤ i < total_pages s →
  pmm_page_to_index s (memory_start s + 4096 * i) = i.
Proof.
  intros [] Hi. unfold pmm_page_to_index, PAGE_SIZE.
  change (2 ^ 64) with 18446744073709551616 in *.
  rewrite (proj2 (Z.ltb_ge _ _)) by lia. word_simp.
  replace (memory_start s + 4096 * i - memory_start s) with (i * 4096) by lia.
  by rewrite Z.div_mul.
Qed.

Lemma index_in_bitmap s i : pmm_inv s → 0 ≤ i < total_pages s → i / 32 < bitmap_size s / 4.
Proof. intros [] Hi. apply Z.div_lt_upper_bound; lia. Qed.

(** Counting the elements that satisfy a predicate changed at one point. *)
Lemma filter_toggle_length (P Q : Z → Prop) `{!∀ x, Decision (P x), !∀ x, Decision (Q x)} l i :
  NoDup l → i ∈ l → P i → ¬ Q i → (∀ j, j ∈ l → j ≠ i → P j ↔ Q j) →
  length (filter P l) = S (length (filter Q l)).
Proof.
  intros Hnd Hi HP HQ Heq. induction l as [|x l IH]; [by apply not_elem_of_nil in Hi|].
  apply NoDup_cons in Hnd as [Hx Hnd]. rewrite !filter_cons.
  destruct (decide (x = i)) as [->|Hne].
  - rewrite (decide_True (P := P i)), (decide_False (P := Q i)) by done. simpl. do 2 f_equal.
    apply list_filter_ext_in. intros j Hj.
    apply Heq; [by right|]. intros ->. done.
  - apply elem_of_cons in Hi as [->|Hi]; [done|].
    assert (length (filter P l) = S (length (filter Q l))) as IH'.
    { apply IH; try done. intros j Hj. apply Heq. by right. }
    assert (P x ↔ Q x) as Hpq by (apply Heq; [by left|done]).
    do 2 case_decide; try tauto; simpl; lia.
Qed.

Lemma free_list_elem s i :
  i ∈ free_list s ↔ 0 ≤ i < total_pages s ∧ pmm_bitmap_test s i = false.
Proof.
  unfold free_list. rewrite list_elem_of_filter, elem_of_seqZ. intuition lia.
Qed.

Definition mark_used (s : pmm_state) (i : Z) : pmm_state :=
  (pmm_bitmap_set s i) <| free_pages ::= λ n, n -₆₄ 1 |> <| used_pages ::= λ n, n +₆₄ 1 |>.
Definition mark_free (s : pmm_state) (i : Z) : pmm_state :=
  (pmm_bitmap_clear s i) <| free_pages ::= λ n, n +₆₄ 1 |> <| used_pages ::= λ n, n -₆₄ 1 |>.

Lemma test_mark_used s i j :
  pmm_inv s → 0 ≤ i < total_pages s → 0 ≤ j →
  pmm_bitmap_test (mark_used s i) j
    = if decide (i = j) then true else pmm_bitmap_test s j.
Proof.
  intros Hinv Hi Hj. unfold pmm_bitmap_test. simpl.
  apply bitmap_test_set; [apply Hinv|lia|lia|by eapply index_in_bitmap].
Qed.

Lemma test_mark_free s i j :
  pmm_inv s → 0 ≤ i < total_pages s → 0 ≤ j →
  pmm_bitmap_test (mark_free s i) j
    = if decide (i = j) then false else pmm_bitmap_test s j.
Proof.
  intros Hinv Hi Hj. unfold pmm_bitmap_test. simpl.
  apply bitmap_test_clear; [apply Hinv|lia|lia|by eapply index_in_bitmap].
Qed.

Lemma free_list_length_bound s : 0 ≤ total_pages s → Z.of_nat (length (free_list s)) ≤ total_pages s.
Proof.
  intros Ht. unfold free_list.
  pose proof (length_filter (λ i, pmm_bitmap_test s i = false) (seqZ 0 (total_pages s))) as H.
  rewrite length_seqZ in H. lia.
Qed.

Lemma pmm_inv_mark_used s i :
  pmm_inv s → 0 ≤ i < total_pages s → pmm_bitmap_test s i = false →
  (∀ zone l, all_ranges s !! Z.to_nat zone = Some l → 0 ≤ zone → ¬ in_ranges l i) →
  pmm_inv (mark_used s i).
Proof.
  intros Hinv Hi Ht Hno.
  assert (∀ j, 0 ≤ j → _) as Htest by (intros j; apply (test_mark_used s i j Hinv Hi)).
  assert (length (free_list s) = S (length (free_list (mark_used s i)))) as Hlen.
  { apply (filter_toggle_length _ _ _ i).
    - apply NoDup_seqZ.
    - apply elem_of_seqZ. lia.
    - done.
    - rewrite Htest by lia. by rewrite decide_True.
    - intros j Hj%elem_of_seqZ Hne. rewrite Htest by lia. by rewrite decide_False. }
  pose proof (free_list_length_bound s) as Hb.
  destruct Hinv. assert (2 ^ 52 = 4503599627370496) as E52 by done. rewrite E52 in *.
  split; simpl; try done.
  - by apply bitmap_set_wf.
  - intros zone l Hl Hz. destruct (inv_cache0 zone l Hl Hz) as (Hw & ? & Hin).
    split_and!; try done. intros j Hj.
    rewrite Htest by (eapply ranges_wf_bounds in Hj; [|done]; lia).
    case_decide; [subst; by edestruct Hno|]. apply (Hin j Hj).
  - word_simp. lia.
  - word_simp. lia.
Qed.

Lemma pmm_inv_mark_free s i :
  pmm_inv s → 0 ≤ i < total_pages s → pmm_bitmap_test s i = true →
  pmm_inv (mark_free s i).
Proof.
  intros Hinv Hi Ht.
  assert (∀ j, 0 ≤ j → _) as Htest by (intros j; apply (test_mark_free s i j Hinv Hi)).
  assert (length (free_list (mark_free s i)) = S (length (free_list s))) as Hlen.
  { apply (filter_toggle_length _ _ _ i).
    - apply NoDup_seqZ.
    - apply elem_of_seqZ. simpl. lia.
    - rewrite Htest by lia. by rewrite decide_True.
    - by rewrite Ht.
    - intros j Hj%elem_of_seqZ Hne. rewrite Htest by lia. by rewrite decide_False. }
  pose proof (free_list_length_bound s) as Hb.
  pose proof (free_list_length_bound (mark_free s i)) as Hb'.
  destruct Hinv. assert (2 ^ 52 = 4503599627370496) as E52 by done. rewrite E52 in *.
  split; simpl; try done.
  - by apply bitmap_clear_wf.
  - intros zone l Hl Hz. destruct (inv_cache0 zone l Hl Hz) as (Hw & ? & Hin).
    split_and!; try done. intros j Hj.
    rewrite Htest by (eapply ranges_wf_bounds in Hj; [|done]; lia).
    case_decide; [subst; split; [done|]|]; apply (Hin j Hj).
  - word_simp. lia.
  - simpl in Hb'. word_simp. lia.
Qed.

(** Replacing the cache of one zone. *)
Lemma pmm_inv_set_ranges s zone l :
  pmm_inv s → 0 ≤ zone < 3 → cache_ok s zone l →
  pmm_inv (zone_upd zone (λ z, z <| z_free_ranges := l |>) s).
Proof.
  intros Hinv Hz Hl. pose proof (inv_zones s Hinv) as Hz3. split; try apply Hinv.
  - simpl. rewrite length_insert. apply Hinv.
  - intros zone' l'. rewrite zone_upd_all_ranges by done. intros Hl' Hz'.
    destruct (decide (zone' = zone)) as [->|Hne].
    + rewrite list_lookup_insert_eq in Hl'; [by simplify_eq|].
      unfold all_ranges. rewrite length_fmap. lia.
    + rewrite list_lookup_insert_ne in Hl' by lia. by apply (inv_cache s Hinv).
Qed.

(** ** Single-page allocation *)
Lemma scan_page_Some n i zone s k :
  scan_page n i zone s = Some k →
  i ≤ k < i + Z.of_nat n ∧ pmm_bitmap_test s k = false ∧ page_zone s k = zone.
Proof.
  revert i. induction n as [|n IH]; intros i; simpl; [done|].
  destruct (_ && _) eqn:E.
  - intros [= ->]. bool_hyps. split_and!; try done; lia.
  - intros Hk%IH. intuition lia.
Qed.

Lemma scan_page_None n i zone s :
  scan_page n i zone s = None →
  ∀ k, i ≤ k < i + Z.of_nat n → page_zone s k = zone → pmm_bitmap_test s k = true.
Proof.
  revert i. induction n as [|n IH]; intros i; simpl; [lia|].
  destruct (_ && _) eqn:E; [done|].
  intros Hn k Hk Hz. destruct (decide (k = i)) as [->|].
  - unfold page_zone in Hz. rewrite Hz, Z.eqb_refl, andb_true_r in E. by bool_hyps.
  - apply (IH (i + 1)); [done|lia|done].
Qed.

(** Page [i] was free in [s] and is the only page whose state changed. *)
Definition page_taken (s s' : pmm_state) (i : Z) : Prop :=
  0 ≤ i < total_pages s ∧ pmm_bitmap_test s i = false
  ∧ (∀ j, 0 ≤ j → pmm_bitmap_test s' j
                    = if decide (i = j) then true else pmm_bitmap_test s j)
  ∧ mem s' = <[pmm_index_to_page s i := zero_page]> (mem s).

(** What the code after the search does, once page [index] is chosen. *)
Definition alloc_commit (s : pmm_state) (zone index : Z) : Z * pmm_state :=
  let s := pmm_bitmap_set s index in
  let s := s <| free_pages ::= λ n, n -₆₄ 1 |> <| used_pages ::= λ n, n +₆₄ 1 |> in
  let phys := pmm_index_to_page s index in
  let s := pmm_zero_page s phys in
  let s :=
    if index <? pages_count s then
      let s := desc_upd index (λ d, d <| pd_state := PMM_PAGE_USED |>) s in
      if 0 <? z_free_pages (zone_get s zone) then
        zone_upd zone (λ z, z <| z_free_pages ::= λ n, n -₆₄ 1 |>
                              <| z_used_pages ::= λ n, n +₆₄ 1 |>) s
      else s
    else s in
  (phys, s).

Lemma alloc_commit_spec s zone i phys s' :
  pmm_inv s → 0 ≤ i < total_pages s → pmm_bitmap_test s i = false →
  (∀ zone l, all_ranges s !! Z.to_nat zone = Some l → 0 ≤ zone → ¬ in_ranges l i) →
  alloc_commit s zone i = (phys, s') →
  pmm_inv s' ∧ phys = pmm_index_to_page s i ∧ page_taken s s' i.
Proof.
  intros Hinv Hi Ht Hno Hc.
  pose proof (pmm_inv_mark_used s i Hinv Hi Ht Hno) as Hinv1.
  pose proof (λ j, test_mark_used s i j Hinv Hi) as Htest.
  assert (phys = pmm_index_to_page s i) as -> by (unfold alloc_commit in Hc; by simplify_eq).
  unfold alloc_commit in Hc.
  repeat case_if; simplify_eq; (split; [|split]; try done).
  all: try (eapply (pmm_inv_frame (mark_used s i)); try done; simpl;
            rewrite ?zone_upd_counters_all_ranges, ?length_insert by done; done).
  all: split_and!; try done; intros j Hj; by rewrite <- Htest.
Qed.

Lemma pmm_alloc_page_unfold s zone :
  pmm_alloc_page_in_zone s zone =
  if (free_pages s =? 0) || (PMM_ZONE_COUNT <=? zone) then (0, memory_oom_inc_pmm s)
  else
    match ranges s zone with
    | r :: _ =>
        match pmm_freelist_remove s zone (r_start r) 1 with
        | (true, s1) => alloc_commit s1 zone (r_start r)
        | (false, s1) =>
            match scan_page (Z.to_nat (total_pages s1)) 0 zone s1 with
            | Some i => alloc_commit s1 zone i
            | None => (0, memory_oom_inc_pmm s1)
            end
        end
    | [] =>
        match scan_page (Z.to_nat (total_pages s)) 0 zone s with
        | Some i => alloc_commit s zone i
        | None => (0, memory_oom_inc_pmm s)
        end
    end.
Proof.
  unfold pmm_alloc_page_in_zone. case_if; [done|].
  destruct (ranges s zone) as [|r l]; simpl.
  - by destruct (scan_page _ _ _ _).
  - destruct (pmm_freelist_remove _ _ _ _) as [[] s1]; [done|].
    by destruct (scan_page _ _ _ _).
Qed.

Lemma page_zone_range s i : 0 ≤ page_zone s i < 3.
Proof. unfold page_zone, pmm_zone_for_addr, PMM_ZONE_LOW, PMM_ZONE_NORMAL. case_if; lia. Qed.

(** A page outside the cache of its own zone is outside every cache. *)
Lemma not_cached_elsewhere s zone i :
  pmm_inv s → 0 ≤ zone < 3 → page_zone s i = zone → ¬ in_ranges (ranges s zone) i →
  ∀ zone' l, all_ranges s !! Z.to_nat zone' = Some l → 0 ≤ zone' → ¬ in_ranges l i.
Proof.
  intros Hinv Hz Hi Hno zone' l Hl Hz' Hin.
  destruct (inv_cache s Hinv zone' l Hl Hz') as (_ & _ & Hok).
  destruct (Hok i Hin) as [_ Hzi]. rewrite Hi in Hzi. subst zone'.
  rewrite (ranges_all s zone) in Hl by (done || apply Hinv). by simplify_eq.
Qed.

(** Taking a run of pages out of the cache of its zone. *)
Lemma freelist_remove_spec s zone start count ok s1 :
  pmm_inv s → 0 ≤ zone < 3 → 0 < count < 2 ^ 52 → 0 ≤ start < 2 ^ 52 →
  pmm_freelist_remove s zone start count = (ok, s1) →
  if ok then
    (∃ l', s1 = zone_upd zone (λ z, z <| z_free_ranges := l' |>) s)
    ∧ pmm_inv s1 ∧ (∀ i, start ≤ i < start + count →
         0 ≤ i < total_pages s ∧ pmm_bitmap_test s i = false ∧ page_zone s i = zone
         ∧ ¬ in_ranges (ranges s1 zone) i)
  else s1 = s.
Proof.
  intros Hinv Hz Hc Hs. unfold pmm_freelist_remove.
  case_if; bool_hyps; [lia|].
  destruct (inv_cache_zone s zone Hinv Hz) as (Hwf & Hlen & Hok).
  destruct (ranges_remove _ _ _ _) as [l'|] eqn:E; intros [= <- <-]; [|done].
  destruct (ranges_remove_spec (Z.of_nat (length (ranges s zone))) 0 (total_pages s)
              (ranges s zone) start count l') as (Hw & Hi1 & Hi2);
    try done; try lia; [apply Hinv|].
  split; [by eexists|]. split.
  - apply pmm_inv_set_ranges; try done. split_and!; try done.
    + eapply ranges_remove_length; [..|exact E]; [lia|done].
    + intros i Hi. apply Hok. by apply Hi2.
  - intros i Hi. specialize (Hi1 i Hi). destruct (Hok i Hi1) as [? ?].
    pose proof (ranges_wf_bounds _ _ _ _ Hwf Hi1). split_and!; try done; try lia.
    intros Hin. unfold ranges, zone_get, zone_upd in Hin. simpl in Hin.
    rewrite list_lookup_total_insert_eq in Hin by (rewrite (inv_zones s Hinv); lia).
    simpl in Hin. destruct (Hi2 i Hin). done.
Qed.

Lemma index_to_page_pos s i :
  pmm_inv s → 0 ≤ i < total_pages s → 0 < pmm_index_to_page s i.
Proof. intros Hinv Hi. rewrite index_to_page_eq by done. destruct Hinv. lia. Qed.

Lemma no_free_pages s :
  pmm_inv s → free_pages s = 0 → ∀ i, 0 ≤ i < total_pages s → pmm_bitmap_test s i = true.
Proof.
  intros Hinv H0 i Hi. destruct (pmm_bitmap_test s i) eqn:E; [done|].
  assert (i ∈ free_list s) as Hin by (by apply free_list_elem).
  rewrite (inv_free s Hinv) in H0. destruct (free_list s); [|simpl in H0; lia].
  by apply not_elem_of_nil in Hin.
Qed.

Lemma pmm_inv_oom s : pmm_inv s → pmm_inv (memory_oom_inc_pmm s).
Proof. intros H. by eapply pmm_inv_frame. Qed.

(** The outcome of an allocation attempt for one page of [zone]. *)
Definition alloc_page_result (s : pmm_state) (zone phys : Z) (s' : pmm_state) : Prop :=
  pmm_inv s' ∧
  ((phys = 0 ∧ bitmap s' = bitmap s ∧ mem s' = mem s
    ∧ ∀ i, 0 ≤ i < total_pages s → page_zone s i = zone → pmm_bitmap_test s i = true)
   ∨ (∃ i, phys = pmm_index_to_page s i ∧ phys ≠ 0 ∧ page_zone s i = zone
           ∧ page_taken s s' i)).

Lemma alloc_scan_result s zone :
  pmm_inv s → 0 ≤ zone < 3 → ranges s zone = [] →
  let '(phys, s') :=
    match scan_page (Z.to_nat (total_pages s)) 0 zone s with
    | Some i => alloc_commit s zone i
    | None => (0, memory_oom_inc_pmm s)
    end in
  alloc_page_result s zone phys s'.
Proof.
  intros Hinv Hz Hr. pose proof (inv_total s Hinv) as Ht.
  destruct (scan_page _ _ _ _) as [i|] eqn:E.
  - apply scan_page_Some in E as (Hi & Hfree & Hzi). rewrite Z2Nat.id in Hi by lia.
    destruct (alloc_commit s zone i) as [phys s'] eqn:Ec.
    destruct (alloc_commit_spec s zone i phys s') as (Hinv' & -> & Htk);
      try done; try lia.
    { apply (not_cached_elsewhere s zone); try done. rewrite Hr. by intros ?%in_ranges_nil. }
    split; [done|]. right. exists i. split_and!; try done.
    pose proof (index_to_page_pos s i Hinv). lia.
  - split; [by apply pmm_inv_oom|]. left. split_and!; try done.
    intros i Hi. apply (scan_page_None _ _ _ _ E). lia.
Qed.

Lemma pmm_alloc_page_result s zone :
  pmm_inv s → 0 ≤ zone < 3 →
  let '(phys, s') := pmm_alloc_page_in_zone s zone in alloc_page_result s zone phys s'.
Proof.
  intros Hinv Hz. rewrite pmm_alloc_page_unfold. case_if.
  { apply orb_true_iff in Eif as [E|E]; bool_hyps;
      [|unfold PMM_ZONE_COUNT in E; lia].
    split; [by apply pmm_inv_oom|]. left. split_and!; try done.
    intros i Hi _. by apply no_free_pages. }
  destruct (ranges s zone) as [|r l] eqn:Er; [by apply alloc_scan_result|].
  destruct (pmm_freelist_remove s zone (r_start r) 1) as [ok s1] eqn:Erem.
  pose proof (inv_total s Hinv) as Htot.
  destruct (inv_cache_zone s zone Hinv Hz) as (Hwf & Hlen & Hok). rewrite Er in Hwf.
  assert (0 ≤ r_start r < 2 ^ 52) as Hr by (simpl in Hwf; lia).
  pose proof (freelist_remove_spec s zone (r_start r) 1 ok s1 Hinv Hz ltac:(lia) Hr Erem) as Hspec.
  destruct ok.
  - destruct Hspec as ((l' & Hs1) & Hinv1 & Hi).
    destruct (Hi (r_start r) ltac:(lia)) as (Hb & Hf & Hzi & Hno).
    destruct (alloc_commit s1 zone (r_start r)) as [phys s'] eqn:Ec.
    assert (∀ j, pmm_bitmap_test s1 j = pmm_bitmap_test s j) as Ht1 by (by subst s1).
    assert (∀ j, page_zone s1 j = page_zone s j) as Hz1 by (by subst s1).
    destruct (alloc_commit_spec s1 zone (r_start r) phys s') as (Hinv' & -> & Htk); try done.
    { by subst s1. }
    { by rewrite Ht1. }
    { apply (not_cached_elsewhere s1 zone); try done. by rewrite Hz1. }
    split; [done|]. right. exists (r_start r).
    destruct Htk as (H1 & H2 & H3 & H4).
    split_and!; try (by subst s1).
    pose proof (index_to_page_pos s1 (r_start r) Hinv1 H1). lia.
  - exfalso. unfold pmm_freelist_remove in Erem. simpl in Erem.
    destruct (ranges_remove_head (Z.of_nat (length (ranges s zone))) 0
                (total_pages s) r l) as [l' Hl']; try done; [lia|].
    rewrite Er in Erem, Hl'. rewrite Hl' in Erem. done.
Qed.

(** C26. [pmm_alloc_page_in_zone] on a well-formed allocator and a valid zone:
    the state stays well formed, and either it returns 0, changes no page
    and no page of the zone is free, or it returns the address of a page of
    that zone which was free, that page is the only one whose state changes,
    and its frame is zeroed. *)
Theorem pmm_alloc_page_in_zone_correct s zone :
  pmm_inv s → 0 ≤ zone < PMM_ZONE_COUNT →
  let '(phys, s') := pmm_alloc_page_in_zone s zone in
  pmm_inv s' ∧
  ((phys = 0 ∧ bitmap s' = bitmap s ∧ mem s' = mem s
    ∧ ∀ i, 0 ≤ i < total_pages s → page_zone s i = zone → pmm_bitmap_test s i = true)
   ∨ (∃ i, phys = pmm_index_to_page s i ∧ phys ≠ 0 ∧ page_zone s i = zone
           ∧ page_taken s s' i)).
Proof. apply pmm_alloc_page_result. Qed.

(** ** Release of a page *)
Lemma ranges_eq s s' zone :
  length (zones s) = 3%nat → length (zones s') = length (zones s) →
  all_ranges s' = all_ranges s → 0 ≤ zone < 3 → ranges s' zone = ranges s zone.
Proof.
  intros Hl Hl' Ha Hz. pose proof (ranges_all s zone Hl Hz) as H1.
  pose proof (ranges_all s' zone ltac:(congruence) Hz) as H2. congruence.
Qed.

Lemma zone_upd_ext zone f g s :
  f (zone_get s zone) = g (zone_get s zone) → zone_upd zone f s = zone_upd zone g s.
Proof. unfold zone_upd, zone_get, field_update. intros ->. done. Qed.

Lemma zone_append_empty z l :
  z_free_ranges z = [] → z <| z_free_ranges ::= λ l0, l0 ++ l |> = z <| z_free_ranges := l |>.
Proof. intros E. unfold field_update. by rewrite E. Qed.

Lemma freelist_insert_ranges s zone i :
  pmm_inv s → 0 ≤ zone < 3 → 0 ≤ i < total_pages s →
  pmm_bitmap_test s i = false → page_zone s i = zone → ¬ in_ranges (ranges s zone) i →
  pmm_freelist_insert s zone i 1 = s
  ∨ ∃ l, pmm_freelist_insert s zone i 1 = zone_upd zone (λ z, z <| z_free_ranges := l |>) s
         ∧ cache_ok s zone l ∧ ∀ j, in_ranges l j ↔ j = i ∨ in_ranges (ranges s zone) j.
Proof.
  intros Hinv Hz Hi Hfree Hzi Hno.
  destruct (inv_cache_zone s zone Hinv Hz) as (Hwf & Hlen & Hok).
  pose proof (inv_total s Hinv) as Htot.
  unfold pmm_freelist_insert. simpl.
  destruct (length (ranges s zone) =? 0)%nat eqn:E0.
  - apply Nat.eqb_eq, nil_length_inv in E0. right. exists [mk_range i 1].
    unfold pmm_freelist_append. simpl. rewrite E0. simpl. split_and!.
    + apply zone_upd_ext. unfold ranges in E0. by rewrite (zone_append_empty _ _ E0).
    + split_and!; simpl; try done; try lia. intros j [Hj|[]%in_ranges_nil]%in_ranges_cons.
      unfold in_range in Hj; simpl in Hj. by assert (j = i) as -> by lia.
    + intros j. rewrite in_ranges_cons, !in_ranges_nil. unfold in_range; simpl. lia.
  - case_if; [by left|]. right. bool_hyps.
    assert (∀ j, in_ranges (ranges s zone) j → ¬ (i ≤ j < i + 1)) as Hdis.
    { intros j Hj Hji. assert (j = i) as -> by lia. done. }
    pose proof (range_insert_wf 0 (total_pages s) _ i 1 Hwf ltac:(lia) ltac:(lia) ltac:(lia) Hdis) as Hw1.
    assert (length (range_insert_at (freelist_pos (ranges s zone) i) (mk_range i 1) (ranges s zone))
            = S (length (ranges s zone))) as Hlen1.
    { unfold range_insert_at. rewrite length_app, length_take, length_cons, length_drop.
      pose proof (freelist_pos_le (ranges s zone) i). lia. }
    pose proof (range_merge_prev_spec 0 (total_pages s) _ (freelist_pos (ranges s zone) i)
                  ltac:(lia) ltac:(lia) Hw1) as Hp.
    destruct (range_merge_prev _ _) as [l2 p2].
    destruct Hp as (Hw2 & Hin2 & _ & Hlen2).
    { rewrite Hlen1. pose proof (freelist_pos_le (ranges s zone) i). lia. }
    destruct (range_merge_next_spec 0 (total_pages s) l2 p2 ltac:(lia) ltac:(lia) Hw2)
      as (Hw3 & Hin3 & Hlen3).
    assert (∀ j, in_ranges (range_merge_next l2 p2) j ↔ j = i ∨ in_ranges (ranges s zone) j) as Hin.
    { intros j. rewrite Hin3, Hin2, range_insert_in. unfold in_range; simpl.
      assert (i ≤ j < i + 1 ↔ j = i) as -> by lia. done. }
    eexists. split; [done|]. split; [|done]. split_and!; try done; [lia|].
    intros j [->|Hj]%Hin; [done|]. by apply Hok.
Qed.

(** The tail of [pmm_free_page]: descriptor, zone counters and cache. *)
Lemma free_finish_inv s zone i :
  pmm_inv s → 0 ≤ zone < 3 → 0 ≤ i < total_pages s →
  pmm_bitmap_test s i = false → page_zone s i = zone → ¬ in_ranges (ranges s zone) i →
  pmm_inv (pmm_freelist_insert s zone i 1)
  ∧ bitmap (pmm_freelist_insert s zone i 1) = bitmap s
  ∧ bitmap_size (pmm_freelist_insert s zone i 1) = bitmap_size s.
Proof.
  intros Hinv Hz Hi Hf Hzi Hno.
  destruct (freelist_insert_ranges s zone i) as [->|(l & -> & Hok & _)]; try done.
  split; [|done]. by apply pmm_inv_set_ranges.
Qed.

Lemma page_aligned_index s phys :
  pmm_inv s → memory_start s ≤ phys < memory_end s → Z.land phys (PAGE_SIZE - 1) = 0 →
  ∃ i, 0 ≤ i < total_pages s ∧ phys = memory_start s + 4096 * i.
Proof.
  intros Hinv Hp Hl. change (PAGE_SIZE - 1) with (Z.ones 12) in Hl.
  rewrite Z.land_ones in Hl by lia. change (2 ^ 12) with 4096 in Hl.
  destruct Hinv. exists ((phys - memory_start s) / 4096).
  pose proof (Z.div_mod phys 4096) as D1. pose proof (Z.div_mod (memory_start s) 4096) as D2.
  assert (phys - memory_start s = (phys / 4096 - memory_start s / 4096) * 4096) as -> by lia.
  rewrite Z.div_mul by lia. lia.
Qed.

Lemma land_page_mask i s :
  pmm_inv s → 0 ≤ i → Z.land (memory_start s + 4096 * i) (PAGE_SIZE - 1) = 0.
Proof.
  intros [] Hi. change (PAGE_SIZE - 1) with (Z.ones 12).
  rewrite Z.land_ones by lia. change (2 ^ 12) with 4096.
  rewrite Z.mul_comm, Z.mod_add by lia. tauto.
Qed.

Lemma pmm_free_page_result s phys :
  pmm_inv s →
  pmm_inv (pmm_free_page s phys) ∧
  ((∃ i, 0 ≤ i < total_pages s ∧ phys = pmm_index_to_page s i
         ∧ pmm_bitmap_test s i = true
         ∧ ∀ j, 0 ≤ j → pmm_bitmap_test (pmm_free_page s phys) j
                          = if decide (i = j) then false else pmm_bitmap_test s j)
   ∨ (pmm_free_page s phys = s
      ∧ ∀ i, 0 ≤ i < total_pages s → phys = pmm_index_to_page s i →
             pmm_bitmap_test s i = false)).
Proof.
  intros Hinv. unfold pmm_free_page.
  destruct ((phys <? memory_start s) || (memory_end s <=? phys)) eqn:Er.
  { split; [done|]. right. split; [done|]. intros i Hi ->.
    rewrite index_to_page_eq in Er by done. destruct Hinv.
    apply orb_true_iff in Er as [E|E]; bool_hyps; lia. }
  bool_hyps. destruct (Z.land phys (PAGE_SIZE - 1) =? 0) eqn:El; simpl.
  2: { split; [done|]. right. split; [done|]. intros i Hi ->. bool_hyps.
       rewrite index_to_page_eq, land_page_mask in El by (done || lia). done. }
  bool_hyps. destruct (page_aligned_index s phys) as (i & Hi & ->); try done.
  rewrite page_to_index_eq by done. rewrite <- (index_to_page_eq s i) by done.
  destruct (pmm_bitmap_test s i) eqn:Et.
  2: { split; [done|]. right. split; [done|]. intros j Hj.
       rewrite !index_to_page_eq by done. intros. by assert (j = i) as -> by lia. }
  pose proof (pmm_inv_mark_free s i Hinv Hi Et) as Hinv1.
  pose proof (λ j, test_mark_free s i j Hinv Hi) as Htest.
  assert (¬ in_ranges (ranges s (page_zone s i)) i) as Hno.
  { intros Hin. pose proof (page_zone_range s i) as Hzr.
    destruct (inv_cache_zone s _ Hinv Hzr) as (_ & _ & Hok).
    destruct (Hok i Hin). congruence. }
  set (s2 := if i <? pages_count _ then _ else _).
  assert (all_ranges s2 = all_ranges s ∧ length (zones s2) = length (zones s)
          ∧ bitmap s2 = bitmap (mark_free s i)
          ∧ bitmap_size s2 = bitmap_size s ∧ total_pages s2 = total_pages s
          ∧ memory_start s2 = memory_start s ∧ memory_end s2 = memory_end s
          ∧ free_pages s2 = free_pages (mark_free s i)
          ∧ used_pages s2 = used_pages (mark_free s i))
    as (Har & Hzl & Hb & Hbs & Htt & Hm & He & Hf & Hu).
  { unfold s2. case_if; split_and!; try done.
    - by rewrite zone_upd_counters_all_ranges.
    - unfold zone_upd. simpl. by rewrite length_insert. }
  assert (pmm_inv s2) as Hinv2 by (by eapply (pmm_inv_frame (mark_free s i))).
  assert (∀ j, pmm_bitmap_test s2 j = pmm_bitmap_test (mark_free s i) j) as Ht2.
  { intros j. unfold pmm_bitmap_test. by rewrite Hb, Hbs. }
  assert (page_zone s2 i = page_zone s i) as Hz2.
  { unfold page_zone, pmm_index_to_page. by rewrite Hm. }
  destruct (free_finish_inv s2 (page_zone s i) i) as (Hinv3 & Hb3 & Hbs3);
    try done; [apply page_zone_range|by rewrite Htt| | |].
  { rewrite Ht2, Htest by lia. by rewrite decide_True. }
  { by rewrite (ranges_eq s s2) by (done || apply Hinv || apply page_zone_range). }
  split; [done|]. left. exists i. split_and!; try done; try lia.
  intros j Hj. rewrite <- Htest by done. unfold pmm_bitmap_test.
  unfold page_zone in Hb3, Hbs3. by rewrite Hb3, Hbs3, Hb, Hbs.
Qed.

(** C40. [pmm_free_page] keeps the allocator well formed; a used page of the
    managed range becomes free and no other page changes; any other address
    (out of range, not page-aligned, or a page already free) leaves the whole
    state unchanged, so a double free has no effect. *)
Theorem pmm_free_page_correct s phys :
  pmm_inv s →
  pmm_inv (pmm_free_page s phys) ∧
  ((∃ i, 0 ≤ i < total_pages s ∧ phys = pmm_index_to_page s i
         ∧ pmm_bitmap_test s i = true
         ∧ ∀ j, 0 ≤ j → pmm_bitmap_test (pmm_free_page s phys) j
                          = if decide (i = j) then false else pmm_bitmap_test s j)
   ∨ (pmm_free_page s phys = s
      ∧ ∀ i, 0 ≤ i < total_pages s → phys = pmm_index_to_page s i →
             pmm_bitmap_test s i = false)).
Proof. apply pmm_free_page_result. Qed.

(** ** Runs of pages *)

(** Page [j] can serve a request for [zone]. *)
Definition page_ok (s : pmm_state) (zone j : Z) : Prop :=
  pmm_bitmap_test s j = false ∧ page_zone s j = zone.

Lemma scan_run_Some n s zone count i rs rc k :
  0 ≤ rc < count → count < 2 ^ 32 → 0 ≤ i - rc →
  (0 < rc → rs = i - rc) → (∀ j, i - rc ≤ j < i → page_ok s zone j) →
  scan_run n i rs rc zone count s = Some k →
  i - rc ≤ k ∧ k + count ≤ i + Z.of_nat n ∧ ∀ j, k ≤ j < k + count → page_ok s zone j.
Proof.
  intros Hrc Hc. assert (2 ^ 32 = 4294967296) as E32 by done. rewrite E32 in *. revert i rs rc Hrc.
  induction n as [|n IH]; intros i rs rc Hrc Hi Hrs Hok; simpl; [done|].
  destruct (pmm_bitmap_test s i) eqn:Et.
  { intros Hk%IH; try lia. destruct Hk as (? & ? & ?). split_and!; done || lia. }
  case_if; bool_hyps.
  { intros Hk%IH; try lia. destruct Hk as (? & ? & ?). split_and!; done || lia. }
  word_simp.
  assert (∀ j, i - rc ≤ j < i + 1 → page_ok s zone j) as Hok'.
  { intros j Hj. destruct (decide (j = i)) as [->|]; [done|]. apply Hok. lia. }
  assert ((if rc =? 0 then i else rs) = i - rc) as -> by (case_if; bool_hyps; lia).
  case_if; bool_hyps.
  - intros [= <-]. split_and!; try lia. intros j Hj. apply Hok'. lia.
  - intros Hk%IH; try lia; [|intros j Hj; apply Hok'; lia].
    destruct Hk as (? & ? & ?). split_and!; done || lia.
Qed.

Lemma scan_run_None n s zone count i rs rc :
  0 ≤ rc < count → count < 2 ^ 32 → 0 ≤ i - rc →
  (i - rc = 0 ∨ ¬ page_ok s zone (i - rc - 1)) →
  scan_run n i rs rc zone count s = None →
  ∀ st, 0 ≤ st → i < st + count ≤ i + Z.of_nat n →
        ¬ ∀ j, st ≤ j < st + count → page_ok s zone j.
Proof.
  intros Hrc Hc. assert (2 ^ 32 = 4294967296) as E32 by done. rewrite E32 in *. revert i rs rc Hrc.
  induction n as [|n IH]; intros i rs rc Hrc Hi Hmax; simpl; [lia|].
  assert (¬ page_ok s zone i → scan_run n (i + 1) rs 0 zone count s = None →
          ∀ st, 0 ≤ st → i < st + count ≤ i + Z.of_nat (S n) →
                ¬ ∀ j, st ≤ j < st + count → page_ok s zone j) as Hskip.
  { intros Hno Hn st Hst Hend Hall.
    destruct (decide (st ≤ i)); [apply Hno, Hall; lia|].
    eapply (IH (i + 1) rs 0); try done; try lia. right.
    by replace (i + 1 - 0 - 1) with i by lia. }
  destruct (pmm_bitmap_test s i) eqn:Et.
  { apply Hskip. intros [? _]. congruence. }
  case_if; bool_hyps.
  { apply Hskip. by intros [_ ?]. }
  word_simp. case_if; bool_hyps; [done|].
  intros Hn st Hst Hend Hall.
  destruct (decide (st + count = i + 1)) as [He|].
  - destruct Hmax as [|Hmax]; [lia|]. apply Hmax, Hall. lia.
  - eapply (IH (i + 1) _ (rc + 1)); try done; try lia.
    replace (i + 1 - (rc + 1)) with (i - rc) by lia. done.
Qed.

(** Marking a whole run. *)
Lemma mark_run_spec s l :
  pmm_inv s → NoDup l →
  (∀ i, i ∈ l → 0 ≤ i < total_pages s ∧ pmm_bitmap_test s i = false) →
  (∀ i zone r, i ∈ l → all_ranges s !! Z.to_nat zone = Some r → 0 ≤ zone → ¬ in_ranges r i) →
  let s' := foldl mark_used s l in
  pmm_inv s' ∧ free_pages s' = free_pages s - Z.of_nat (length l)
  ∧ used_pages s' = used_pages s + Z.of_nat (length l)
  ∧ (∀ j, 0 ≤ j → pmm_bitmap_test s' j = if decide (j ∈ l) then true else pmm_bitmap_test s j)
  ∧ ∃ f u, s' = s <| bitmap := foldl (bitmap_set (bitmap_size s)) (bitmap s) l |>
                  <| free_pages := f |> <| used_pages := u |>.
Proof.
  revert s. induction l as [|i l IH]; intros s Hinv Hnd Hl Hno; simpl.
  { split_and!; try done; try lia. by exists (free_pages s), (used_pages s); destruct s. }
  apply NoDup_cons in Hnd as [Hil Hnd].
  destruct (Hl i) as [Hi Hf]; [by left|].
  assert (pmm_inv (mark_used s i)) as Hinv1.
  { apply pmm_inv_mark_used; try done. intros zone r. apply Hno. by left. }
  pose proof (λ j, test_mark_used s i j Hinv Hi) as Ht.
  destruct (IH (mark_used s i)) as (Hinv' & Hfp & Hup & Ht' & f & u & Heq); try done.
  { intros j Hj. destruct (Hl j) as [? ?]; [by right|]. split; [done|].
    rewrite Ht by lia. rewrite decide_False; [done|]. by intros ->. }
  { intros j zone r Hj. apply Hno. by right. }
  assert (0 < free_pages s ≤ total_pages s) as Hpos.
  { rewrite (inv_free s Hinv). assert (i ∈ free_list s) as Hin by (by apply free_list_elem).
    pose proof (free_list_length_bound s) as Hb.
    destruct (free_list s) eqn:E; [by apply not_elem_of_nil in Hin|].
    destruct Hinv. simpl in *. lia. }
  pose proof (inv_total s Hinv). pose proof (inv_used s Hinv).
  assert (2 ^ 52 = 4503599627370496) as E52 by done. rewrite E52 in *.
  simpl in Hfp, Hup. rewrite u64_small in Hfp, Hup by lia.
  split_and!; try done; try lia.
  - intros j Hj. rewrite Ht', Ht by done.
    rewrite decide_elem_cons. by repeat case_decide.
  - exists f, u. rewrite Heq. done.
Qed.

Lemma take_pages_frame s l :
  ∃ ps, foldl take_page s l
    = s <| bitmap := foldl (bitmap_set (bitmap_size s)) (bitmap s) l |> <| pages := ps |>.
Proof.
  revert s. induction l as [|i l IH]; intros s; simpl.
  - exists (pages s). by destruct s.
  - destruct (IH (take_page s i)) as [ps ->]. exists ps.
    unfold take_page. case_if; done.
Qed.

Lemma zero_pages_frame s (f : Z → Z) l :
  foldl (λ s p, pmm_zero_page s (f p)) s l
    = s <| mem := foldl (λ m p, <[f p := zero_page]> m) (mem s) l |>.
Proof.
  revert s. induction l as [|p l IH]; intros s; simpl; [by destruct s|].
  by rewrite IH.
Qed.

Lemma seqZ_shift start count :
  0 ≤ start → 0 ≤ count → start + count < 2 ^ 64 →
  (λ p, start +₆₄ p) <$> seqZ 0 count = seqZ start count.
Proof.
  intros Hs Hc Hb. change (2 ^ 64) with 18446744073709551616 in Hb.
  replace (seqZ start count) with ((λ p, start + p) <$> seqZ 0 count).
  - apply list_fmap_ext. intros i x Hx.
    apply list_elem_of_lookup_2, elem_of_seqZ in Hx. apply u64_small. lia.
  - by rewrite fmap_add_seqZ, Z.add_0_r.
Qed.

Lemma take_run_fields s zone start count :
  0 ≤ start → 0 ≤ count → start + count < 2 ^ 64 →
  let s' := take_run s zone start count in
  bitmap s' = foldl (bitmap_set (bitmap_size s)) (bitmap s) (seqZ start count)
  ∧ free_pages s' = free_pages s -₆₄ count ∧ used_pages s' = used_pages s +₆₄ count
  ∧ all_ranges s' = all_ranges s ∧ length (zones s') = length (zones s)
  ∧ total_pages s' = total_pages s ∧ memory_start s' = memory_start s
  ∧ memory_end s' = memory_end s ∧ bitmap_size s' = bitmap_size s
  ∧ mem s' = foldl (λ m p, <[pmm_index_to_page s start +₆₄ p *₆₄ PAGE_SIZE := zero_page]> m)
               (mem s) (seqZ 0 count).
Proof.
  intros Hs Hc Hb. unfold take_run. rewrite seqZ_shift by done.
  destruct (take_pages_frame s (seqZ start count)) as [ps ->].
  rewrite zero_pages_frame. case_if; simpl; split_and!; try done.
  - by apply (zone_upd_counters_all_ranges zone
      (λ z, z <| z_free_pages ::= λ n, n -₆₄ count |> <| z_used_pages ::= λ n, n +₆₄ count |>) s).
  - by rewrite length_insert.
Qed.

Lemma take_run_inv s zone start count :
  pmm_inv s → 0 ≤ start → 0 < count → start + count ≤ total_pages s →
  (∀ i, start ≤ i < start + count → pmm_bitmap_test s i = false) →
  (∀ i z r, start ≤ i < start + count → all_ranges s !! Z.to_nat z = Some r → 0 ≤ z →
            ¬ in_ranges r i) →
  pmm_inv (take_run s zone start count)
  ∧ ∀ j, 0 ≤ j → pmm_bitmap_test (take_run s zone start count) j
                  = if decide (start ≤ j < start + count) then true else pmm_bitmap_test s j.
Proof.
  intros Hinv Hs Hc Ht Hf Hno.
  pose proof (inv_total s Hinv) as Htot. pose proof (inv_used s Hinv) as Hused.
  assert (2 ^ 52 = 4503599627370496) as E52 by done. rewrite E52 in *.
  destruct (take_run_fields s zone start count)
    as (Hb & Hfp & Hup & Har & Hzl & Htt & Hms & Hme & Hbs & Hm);
    [done|lia|change (2 ^ 64) with 18446744073709551616; lia|].
  destruct (mark_run_spec s (seqZ start count)) as (Hinv' & Hfp' & Hup' & Ht' & f & u & Heq); try done.
  - apply NoDup_seqZ.
  - intros i Hi%elem_of_seqZ. split; [lia|]. apply Hf. lia.
  - intros i z r Hi%elem_of_seqZ. apply Hno. lia.
  - rewrite length_seqZ in *. rewrite Z2Nat.id in * by lia.
    assert (0 ≤ free_pages s - count ∧ free_pages s ≤ total_pages s) as [Hp1 Hp2].
    { split; [rewrite <- Hfp', (inv_free _ Hinv'); lia|].
      rewrite (inv_free s Hinv). apply free_list_length_bound. lia. }
    rewrite u64_small in Hfp, Hup by lia.
    split.
    + eapply pmm_inv_frame; [exact Hinv'|..]; rewrite ?Htt, ?Hms, ?Hme, ?Hbs, ?Hb, ?Har, ?Hzl, ?Hfp, ?Hup, ?Hfp', ?Hup', ?Heq; done.
    + intros j Hj. transitivity (pmm_bitmap_test (foldl mark_used s (seqZ start count)) j).
      { unfold pmm_bitmap_test. rewrite Hb, Hbs, Heq. done. }
      rewrite Ht' by done.
      destruct (decide (j ∈ _)) as [E|E]; rewrite elem_of_seqZ in E;
        destruct (decide (start ≤ j < start + count)); done || lia.
Qed.

(** ** Rebuilding the cache *)
Lemma ranges_end_ub lo total l : lo ≤ total → ranges_wf lo total l → ranges_end lo l ≤ total.
Proof.
  revert lo. induction l as [|r l IH]; intros lo Hlo; simpl; [done|].
  intros (? & ? & ? & Hl). apply IH; done.
Qed.

Lemma ranges_wf_ub lo total total' l : total ≤ total' → ranges_wf lo total l → ranges_wf lo total' l.
Proof.
  intros Ht. revert lo. induction l as [|r l IH]; intros lo; simpl; [done|].
  intros (? & ? & ? & Hl). split_and!; try lia. by apply IH.
Qed.

(** Every cached range ends at or before page [lim]. *)
Definition cached_below (s : pmm_state) (lim : Z) : Prop :=
  ∀ zone l, all_ranges s !! Z.to_nat zone = Some l → 0 ≤ zone → ranges_wf 0 lim l.

Lemma cached_below_mono s lim lim' : lim ≤ lim' → cached_below s lim → cached_below s lim'.
Proof. intros Hl Hc zone l H1 H2. eapply ranges_wf_ub; [exact Hl|]. exact (Hc zone l H1 H2). Qed.

Lemma freelist_append_spec s zone start count :
  pmm_inv s → 0 ≤ zone < 3 → 0 ≤ start → 0 < count → start + count ≤ total_pages s →
  (∀ j, start ≤ j < start + count → page_ok s zone j) → cached_below s start →
  let s' := pmm_freelist_append s zone start count in
  pmm_inv s' ∧ cached_below s' (start + count) ∧ s' = s <| zones := zones s' |>.
Proof.
  intros Hinv Hz Hs Hc Ht Hok Hbelow. unfold pmm_freelist_append.
  rewrite (proj2 (Z.eqb_neq count 0)) by lia. case_if; bool_hyps.
  { split_and!; [done|eapply cached_below_mono; [|done]; lia|by destruct s]. }
  pose proof (inv_zones s Hinv) as Hz3.
  pose proof (ranges_all s zone Hz3 Hz) as Har.
  rewrite (zone_upd_ext zone _ (λ z, z <| z_free_ranges := ranges s zone ++ [mk_range start count] |>))
    by done.
  pose proof (Hbelow zone _ Har ltac:(lia)) as Hwf.
  assert (ranges_wf 0 (start + count) (ranges s zone ++ [mk_range start count])) as Hwf'.
  { apply ranges_wf_app. split; [eapply ranges_wf_ub; [|exact Hwf]; lia|].
    simpl. split_and!; try lia. apply ranges_end_ub; done. }
  split_and!.
  - apply pmm_inv_set_ranges; try done. split_and!.
    + eapply ranges_wf_ub; [|exact Hwf']. lia.
    + rewrite length_app. simpl. unfold PMM_MAX_FREE_RANGES in *. lia.
    + intros i [Hi|[Hi|[]%in_ranges_nil]%in_ranges_cons]%in_ranges_app.
      * by apply (inv_cache_zone s zone Hinv Hz).
      * apply Hok. unfold in_range in Hi. simpl in Hi. lia.
  - intros zone' l'. rewrite zone_upd_all_ranges by done.
    intros Hl' Hz'. destruct (decide (zone' = zone)) as [->|Hne].
    + rewrite list_lookup_insert_eq in Hl'; [by simplify_eq|].
      unfold all_ranges. rewrite length_fmap. lia.
    + rewrite list_lookup_insert_ne in Hl' by lia.
      eapply ranges_wf_ub; [|by apply (Hbelow zone')]. lia.
  - by destruct s.
Qed.

Lemma rebuild_loop_spec n s i rs rc rz :
  pmm_inv s → 0 ≤ i → i + Z.of_nat n = total_pages s → 0 ≤ rc → 0 ≤ rz < 3 →
  (0 < rc → 0 ≤ rs ∧ rs + rc = i ∧ cached_below s rs ∧ ∀ j, rs ≤ j < i → page_ok s rz j) →
  cached_below s i →
  let s' := rebuild_loop n i rs rc rz s in
  pmm_inv s' ∧ s' = s <| zones := zones s' |>.
Proof.
  revert s i rs rc rz. induction n as [|n IH]; intros s i rs rc rz Hinv Hi Hn Hrc Hrz Hrun Hbelow; simpl.
  { case_if; bool_hyps; [|by destruct s].
    destruct Hrun as (? & ? & ? & ?); [done|].
    destruct (freelist_append_spec s rz rs rc) as (? & _ & ?); try done; try lia.
    intros j Hj. apply (H2 j). lia. }
  pose proof (inv_total s Hinv) as Htot.
  assert (2 ^ 52 = 4503599627370496) as E52 by done. rewrite E52 in *.
  (* closing the current run *)
  assert (0 < rc → let s1 := pmm_freelist_append s rz rs rc in
          pmm_inv s1 ∧ cached_below s1 i ∧ s1 = s <| zones := zones s1 |>) as Hclose.
  { intros Hpos. destruct (Hrun Hpos) as (? & <- & ? & Hok).
    apply freelist_append_spec; try done; try lia. }
  assert (∀ zs j z, page_ok (s <| zones := zs |>) z j ↔ page_ok s z j) as Hpz by done.
  assert (∀ rs0 rc0 rz0 s1, s1 = s <| zones := zones s1 |> → 
            let s' := rebuild_loop n (i + 1) rs0 rc0 rz0 s1 in
            s' = s1 <| zones := zones s' |> → s' = s <| zones := zones s' |>) as Hchain.
  { intros rs0 rc0 rz0 s1 Hs1 s' Hs'. rewrite Hs' at 1. rewrite Hs1. done. }
  destruct (pmm_bitmap_test s i) eqn:Et; simpl.
  - case_if; bool_hyps.
    + destruct (Hclose Eif) as (Hinv1 & Hb1 & Hs1).
      assert (total_pages (pmm_freelist_append s rz rs rc) = total_pages s) as Ht1 by (by rewrite Hs1).
      destruct (IH (pmm_freelist_append s rz rs rc) (i + 1) rs 0 rz) as (Hi' & He'); try done; try lia.
      { eapply cached_below_mono; [|exact Hb1]. lia. }
      split; [done|]. by apply Hchain.
    + apply IH; try done; try lia. eapply cached_below_mono; [|exact Hbelow]. lia.
  - fold (page_zone s i). pose proof (page_zone_range s i) as Hzr.
    case_if; bool_hyps; [|case_if; bool_hyps].
    + apply IH; try done; try lia.
      * intros _. split_and!; try done; try lia. intros j Hj. by assert (j = i) as -> by lia.
      * eapply cached_below_mono; [|exact Hbelow]. lia.
    + destruct Hrun as (Hrs & Hri & Hrb & Hrok); [lia|].
      rewrite u64_small by lia. apply IH; try done; try lia.
      * intros _. split_and!; try done; try lia. intros j Hj.
        destruct (decide (j = i)) as [->|]; [done|]. apply Hrok. lia.
      * eapply cached_below_mono; [|exact Hbelow]. lia.
    + destruct (Hclose ltac:(lia)) as (Hinv1 & Hb1 & Hs1).
      assert (total_pages (pmm_freelist_append s rz rs rc) = total_pages s) as Ht1 by (by rewrite Hs1).
      destruct (IH (pmm_freelist_append s rz rs rc) (i + 1) i 1 (page_zone s i)) as (Hi' & He');
        try done; try lia.
      { intros _. split_and!; try done; try lia. intros j Hj. rewrite Hs1.
        by assert (j = i) as -> by lia. }
      { eapply cached_below_mono; [|exact Hb1]. lia. }
      split; [done|]. by apply Hchain.
Qed.

(** A state that is well formed up to its cache is well formed once the cache
    is rebuilt, and only the cache changes. *)
Lemma rebuild_inv s :
  pmm_inv (pmm_freelist_clear s) →
  pmm_inv (pmm_rebuild_free_lists s)
  ∧ pmm_rebuild_free_lists s = s <| zones := zones (pmm_rebuild_free_lists s) |>.
Proof.
  intros Hinv. unfold pmm_rebuild_free_lists.
  pose proof (inv_total _ Hinv) as Htot. simpl in Htot.
  destruct (rebuild_loop_spec (Z.to_nat (total_pages s)) (pmm_freelist_clear s) 0 0 0 PMM_ZONE_NORMAL)
    as [H1 H2]; try done; try (simpl; unfold PMM_ZONE_NORMAL; lia).
  intros zone l Hl Hz. unfold all_ranges in Hl. simpl in Hl.
  rewrite <- list_fmap_compose, list_lookup_fmap in Hl.
  destruct (zones s !! Z.to_nat zone); simplify_eq/=. done.
Qed.

(** ** Contiguous allocation *)
Lemma clear_all_ranges s zone l :
  all_ranges (pmm_freelist_clear s) !! zone = Some l → l = [].
Proof.
  unfold all_ranges. simpl. rewrite <- list_fmap_compose, list_lookup_fmap.
  destruct (zones s !! zone); intros; by simplify_eq/=.
Qed.

Lemma pmm_inv_clear s : pmm_inv s → pmm_inv (pmm_freelist_clear s).
Proof.
  intros Hinv. pose proof (inv_total s Hinv). split; try apply Hinv.
  - simpl. rewrite length_fmap. apply Hinv.
  - intros zone l Hl%clear_all_ranges Hz. subst. split_and!; try done.
    intros i []%in_ranges_nil.
Qed.

Lemma find_range_spec n lo total l count start :
  0 ≤ lo → total < 2 ^ 52 → ranges_wf lo total l → 0 < count →
  find_range l count = Some start →
  lo ≤ start ∧ start + count ≤ total ∧ is_Some (ranges_remove n l start count).
Proof.
  intros Hlo Ht. assert (2 ^ 52 = 4503599627370496) as E52 by done. rewrite E52 in *.
  revert lo Hlo. induction l as [|r l IH]; intros lo Hlo; simpl; [done|].
  intros (? & ? & ? & Hl) Hc. case_if; bool_hyps.
  - intros [= <-]. split_and!; try lia. word_simp.
    rewrite Z.leb_refl, (proj2 (Z.leb_le (r_start r + count) _)) by lia. simpl.
    repeat case_if; eauto.
  - intros Hf. destruct (IH (r_start r + r_count r) ltac:(lia) Hl Hc Hf) as (? & ? & [l' ->]).
    split_and!; try lia. repeat case_if; eauto.
Qed.

(** A memory in which the frames [f p], [p ∈ l], were zeroed. *)
Lemma lookup_zeroed (f : Z → Z) l (m : physmem) a :
  (a ∈ f <$> l → foldl (λ m p, <[f p := zero_page]> m) m l !! a = Some zero_page)
  ∧ (a ∉ f <$> l → foldl (λ m p, <[f p := zero_page]> m) m l !! a = m !! a).
Proof.
  revert m. induction l as [|p l IH]; intros m; cbn [foldl]; [by split; [intros ?%not_elem_of_nil|]|].
  rewrite fmap_cons, not_elem_of_cons, elem_of_cons.
  destruct (IH (<[f p := zero_page]> m)) as [IH1 IH2].
  split; [intros Hin|intros [Hne Hnin]].
  - destruct (decide (a ∈ f <$> l)) as [H|H]; [by apply IH1|].
    rewrite IH2 by done. destruct Hin as [->|]; [|done]. apply lookup_insert_eq.
  - rewrite IH2 by done. by apply lookup_insert_ne.
Qed.

(** The pages [st .. st + count) were free pages of [zone], they are the only
    pages whose state changed, and exactly their frames were zeroed. *)
Definition run_taken (s s' : pmm_state) (zone st count : Z) : Prop :=
  0 ≤ st ∧ st + count ≤ total_pages s
  ∧ (∀ j, st ≤ j < st + count → page_ok s zone j)
  ∧ (∀ j, 0 ≤ j → pmm_bitmap_test s' j
        = if decide (st ≤ j < st + count) then true else pmm_bitmap_test s j)
  ∧ (∀ j, st ≤ j < st + count → mem s' !! pmm_index_to_page s j = Some zero_page)
  ∧ (∀ a, (∀ j, st ≤ j < st + count → a ≠ pmm_index_to_page s j) → mem s' !! a = mem s !! a).

Lemma take_run_mem s zone st count :
  pmm_inv s → 0 ≤ st → 0 < count → st + count ≤ total_pages s →
  let s' := take_run s zone st count in
  (∀ j, st ≤ j < st + count → mem s' !! pmm_index_to_page s j = Some zero_page)
  ∧ (∀ a, (∀ j, st ≤ j < st + count → a ≠ pmm_index_to_page s j) → mem s' !! a = mem s !! a).
Proof.
  intros Hinv Hs Hc Ht. pose proof (inv_total s Hinv) as Htot.
  pose proof (inv_end s Hinv) as Hend. pose proof (inv_end64 s Hinv) as Hend64.
  pose proof (inv_start s Hinv) as Hst.
  assert (2 ^ 52 = 4503599627370496) as E52 by done. rewrite E52 in *.
  change (2 ^ 64) with 18446744073709551616 in *.
  destruct (take_run_fields s zone st count) as (_ & _ & _ & _ & _ & _ & _ & _ & _ & Hm);
    [done|lia|change (2 ^ 64) with 18446744073709551616; lia|].
  simpl. rewrite Hm.
  assert (∀ j, 0 ≤ j < count → pmm_index_to_page s st +₆₄ j *₆₄ PAGE_SIZE
                                = pmm_index_to_page s (st + j)) as Hidx.
  { intros j Hj. rewrite !index_to_page_eq by (done || lia). unfold PAGE_SIZE. word_simp. lia. }
  assert (∀ a, a ∈ ((λ p, pmm_index_to_page s st +₆₄ p *₆₄ PAGE_SIZE) <$> seqZ 0 count)
               ↔ ∃ j, st ≤ j < st + count ∧ a = pmm_index_to_page s j) as Hel.
  { intros a. rewrite list_elem_of_fmap. split.
    - intros (p & -> & Hp%elem_of_seqZ). exists (st + p). split; [lia|]. apply Hidx. lia.
    - intros (j & Hj & ->). exists (j - st). split; [|apply elem_of_seqZ; lia].
      rewrite Hidx by lia. f_equal. lia. }
  split.
  - intros j Hj. apply lookup_zeroed, Hel. eauto.
  - intros a Ha. apply lookup_zeroed. rewrite Hel. intros (j & Hj & ->). by apply (Ha j).
Qed.

Lemma no_run_when_short s zone count st :
  pmm_inv s → free_pages s < count → 0 ≤ st → st + count ≤ total_pages s →
  ¬ ∀ j, st ≤ j < st + count → page_ok s zone j.
Proof.
  intros Hinv Hf Hs Ht Hall.
  assert (seqZ st count ⊆+ free_list s) as Hsub.
  { apply NoDup_submseteq; [apply NoDup_seqZ|]. intros j Hj%elem_of_seqZ.
    apply free_list_elem. split; [lia|]. apply Hall. lia. }
  apply submseteq_length in Hsub. rewrite length_seqZ in Hsub.
  rewrite (inv_free s Hinv) in Hf. lia.
Qed.

Definition no_run (s : pmm_state) (zone count : Z) : Prop :=
  ∀ st, 0 ≤ st → st + count ≤ total_pages s → ¬ ∀ j, st ≤ j < st + count → page_ok s zone j.

(** The path through the cache. *)
Lemma alloc_run_cached s zone count start :
  pmm_inv s → 0 ≤ zone < 3 → 0 < count < 2 ^ 32 →
  find_range (ranges s zone) count = Some start →
  ∃ s1, pmm_freelist_remove s zone start count = (true, s1)
  ∧ let s' := take_run s1 zone start count in
    pmm_inv s' ∧ pmm_index_to_page s' start = pmm_index_to_page s start
    ∧ run_taken s s' zone start count.
Proof.
  intros Hinv Hz Hc Hfind. assert (2 ^ 32 = 4294967296) as E32 by done. rewrite E32 in *.
  pose proof (inv_total s Hinv) as Htot.
  destruct (inv_cache_zone s zone Hinv Hz) as (Hwf & _ & _).
  destruct (find_range_spec (Z.of_nat (length (ranges s zone))) 0 (total_pages s)
              (ranges s zone) count start) as (Hs0 & Hst & l' & Hl'); try done; try lia.
  destruct (pmm_freelist_remove s zone start count) as [ok s1] eqn:Erem.
  assert (ok = true) as ->.
  { unfold pmm_freelist_remove in Erem. rewrite (proj2 (Z.eqb_neq count 0)) in Erem by lia.
    rewrite Hl' in Erem. by simplify_eq. }
  exists s1. split; [done|]. simpl.
  destruct (freelist_remove_spec s zone start count true s1) as ((l1 & Hs1) & Hinv1 & Hi);
    try done; try lia.
  assert (total_pages s1 = total_pages s ∧ mem s1 = mem s) as [Ht1 Hm1] by (by subst s1).
  assert (∀ j, pmm_bitmap_test s1 j = pmm_bitmap_test s j) as Hb1 by (by subst s1).
  assert (∀ j, pmm_index_to_page s1 j = pmm_index_to_page s j) as Hp1 by (by subst s1).
  destruct (take_run_inv s1 zone start count) as [Hinv' Htest]; try done; try lia.
  { intros i Hri. rewrite Hb1. by apply Hi. }
  { intros i z r Hri. apply (not_cached_elsewhere s1 zone); try done.
    - unfold page_zone. rewrite Hp1. by apply Hi.
    - by apply Hi. }
  destruct (take_run_mem s1 zone start count Hinv1) as [Hm Hm']; try lia.
  destruct (take_run_fields s1 zone start count) as (_ & _ & _ & _ & _ & _ & Hms & _);
    [lia|lia|change (2 ^ 64) with 18446744073709551616; lia|].
  unfold run_taken. split_and!; try done; try lia.
  - unfold pmm_index_to_page. rewrite Hms. apply (Hp1 start).
  - intros j Hj. split; by apply Hi.
  - intros j Hj. by rewrite Htest, Hb1.
  - intros j Hj. rewrite <- Hp1. by apply Hm.
  - intros a Ha. rewrite Hm', Hm1; [done|]. intros j Hj. rewrite Hp1. by apply Ha.
Qed.

(** The fallback path through the bitmap, which rebuilds the cache. *)
Lemma alloc_run_scanned s zone count start :
  pmm_inv s → 0 ≤ start → 0 < count → start + count ≤ total_pages s →
  (∀ j, start ≤ j < start + count → page_ok s zone j) →
  let s1 := take_run s zone start count in
  let s' := pmm_rebuild_free_lists s1 in
  pmm_inv s' ∧ pmm_index_to_page s1 start = pmm_index_to_page s start
  ∧ run_taken s s' zone start count.
Proof.
  intros Hinv Hs Hc Ht Hok. pose proof (inv_total s Hinv) as Htot.
  assert (2 ^ 52 = 4503599627370496) as E52 by done. rewrite E52 in *.
  pose proof (pmm_inv_clear s Hinv) as Hinvc.
  destruct (take_run_inv (pmm_freelist_clear s) zone start count) as [Hinv1 Htest]; try done.
  { intros i Hi. by apply Hok. }
  { intros i z r Hi Hr%clear_all_ranges Hz. subst. by intros ?%in_ranges_nil. }
  destruct (take_run_fields s zone start count)
    as (Hb & Hfp & Hup & Har & Hzl & Htt & Hms & Hme & Hbs & Hm);
    [lia|lia|change (2 ^ 64) with 18446744073709551616; lia|].
  destruct (take_run_fields (pmm_freelist_clear s) zone start count)
    as (Cb & Cfp & Cup & Car & Czl & Ctt & Cms & Cme & Cbs & Cm);
    [lia|lia|change (2 ^ 64) with 18446744073709551616; lia|].
  simpl in *.
  assert (pmm_inv (pmm_freelist_clear (take_run s zone start count))) as Hinvc1.
  { eapply (pmm_inv_frame (take_run (pmm_freelist_clear s) zone start count)); try done; simpl; try congruence.
    - rewrite Car. unfold all_ranges in *. simpl. rewrite <- !list_fmap_compose.
      apply list_eq_same_length with (n := length (zones s)); [by rewrite length_fmap..|].
      intros i x y _. rewrite !list_lookup_fmap.
      destruct (zones _ !! i), (zones s !! i); intros; by simplify_eq/=.
    - rewrite length_fmap in Czl. rewrite length_fmap. congruence. }
  destruct (rebuild_inv (take_run s zone start count) Hinvc1) as [Hinv' Heq].
  destruct (take_run_mem s zone start count Hinv) as [Hm1 Hm2]; try lia.
  unfold run_taken. split_and!; try done.
  - unfold pmm_index_to_page. by rewrite Hms.
  - intros j Hj. rewrite Heq. unfold pmm_bitmap_test in *. simpl.
    specialize (Htest j Hj). rewrite Cb, Cbs in Htest. by rewrite Hb, Hbs.
  - intros j Hj. rewrite Heq. by apply Hm1.
  - intros a Ha. rewrite Heq. by apply Hm2.
Qed.

Lemma alloc_pages_result s zone count :
  pmm_inv s → 0 ≤ zone < 3 → 0 < count < 2 ^ 32 →
  let '(phys, s') := pmm_alloc_pages_in_zone s zone count in
  pmm_inv s' ∧
  ((phys = 0 ∧ s' = s ∧ no_run s zone count)
   ∨ (∃ st, phys = pmm_index_to_page s st ∧ phys ≠ 0 ∧ run_taken s s' zone st count)).
Proof.
  intros Hinv Hz Hc. unfold pmm_alloc_pages_in_zone.
  rewrite (proj2 (Z.eqb_neq count 0)), (proj2 (Z.leb_gt PMM_ZONE_COUNT zone))
    by (unfold PMM_ZONE_COUNT; lia). simpl.
  destruct (free_pages s <? count) eqn:Ef; bool_hyps.
  { split; [done|]. left. split_and!; try done. intros st H1 H2.
    by apply (no_run_when_short s zone count st). }
  destruct (find_range (ranges s zone) count) as [start|] eqn:Efr.
  - destruct (alloc_run_cached s zone count start) as (s1 & -> & Hinv' & Hp & Hrun); try done.
    simpl. split; [done|]. right. exists start. split_and!; try done.
    rewrite Hp. pose proof (index_to_page_pos s start Hinv). destruct Hrun as (? & ? & _). lia.
  - pose proof (inv_total s Hinv) as Htot.
    destruct (scan_run _ _ _ _ _ _ _) as [start|] eqn:Es.
    + apply scan_run_Some in Es as (H1 & H2 & H3); try done; try lia.
      rewrite Z2Nat.id in H2 by lia.
      destruct (alloc_run_scanned s zone count start) as (Hinv' & Hp & Hrun); try done; try lia.
      split; [done|]. right. exists start. split_and!; try done.
      rewrite Hp. pose proof (index_to_page_pos s start Hinv). lia.
    + split; [done|]. left. split_and!; try done. intros st Hst He.
      eapply scan_run_None; try done; try lia.
Qed.

(** [pmm_alloc_pages_in_zone] for [count] pages: the allocator stays well
    formed; it returns 0, with the state unchanged, only when the zone has no
    run of [count] consecutive free pages; otherwise it returns the address of
    the first page of such a run, exactly the pages of the run become used,
    and exactly their frames are zeroed.  Both the cached and the bitmap-scan
    path satisfy this. *)
Theorem pmm_alloc_pages_in_zone_correct s zone count :
  pmm_inv s → 0 ≤ zone < PMM_ZONE_COUNT → 0 < count < 2 ^ 32 →
  let '(phys, s') := pmm_alloc_pages_in_zone s zone count in
  pmm_inv s' ∧
  ((phys = 0 ∧ s' = s ∧ no_run s zone count)
   ∨ (∃ st, phys = pmm_index_to_page s st ∧ phys ≠ 0 ∧ run_taken s s' zone st count)).
Proof. apply alloc_pages_result. Qed.

(** ** Reserved and released ranges *)
Lemma page_addrs_index m a b :
  page_addrs (m + 4096 * a) (m + 4096 * b) = (λ i, m + 4096 * i) <$> seqZ a (b - a).
Proof.
  unfold page_addrs, PAGE_SIZE.
  replace (m + 4096 * b - (m + 4096 * a) + (4096 - 1)) with ((b - a) * 4096 + 4095) by lia.
  rewrite Z.div_add_l, (Z.div_small 4095), Z.add_0_r by lia.
  rewrite <- (Z.add_0_r a) at 2. rewrite <- fmap_add_seqZ, <- list_fmap_compose.
  apply list_fmap_ext. intros i x _. unfold compose. lia.
Qed.

Lemma align_down_rel m v i :
  m mod 4096 = 0 → m ≤ v → in_u64 v → i = (v - m) / 4096 → align_down v = m + 4096 * i.
Proof.
  intros Hm Hv Hu ->. rewrite align_down_eq by done.
  pose proof (Z.div_mod v 4096) as D1. pose proof (Z.div_mod m 4096) as D2.
  assert (v - m = (v / 4096 - m / 4096) * 4096 + v mod 4096) as E by lia.
  rewrite E, Z.div_add_l, (Z.div_small (v mod 4096)) by (try apply Z.mod_pos_bound; lia). lia.
Qed.

Lemma align_up_rel m v i :
  m mod 4096 = 0 → m ≤ v → 0 ≤ v ≤ 18446744073709551616 - 4096 → 
  i = (v - m + 4095) / 4096 → align_up v = m + 4096 * i.
Proof.
  intros Hm Hv Hu ->. rewrite align_up_eq by done.
  rewrite <- align_down_eq by lia. apply align_down_rel; try done; try lia.
  f_equal. lia.
Qed.

(** The bodies of the loops of [pmm_mark_range_used] and [pmm_mark_range_free]. *)
Definition used_step (s : pmm_state) (addr : Z) : pmm_state :=
  let index := pmm_page_to_index s addr in
  if negb (pmm_bitmap_test s index) then
    let s := mark_used s index in
    if index <? pages_count s then
      let s := desc_upd index (λ d, d <| pd_state := PMM_PAGE_USED |>) s in
      let zone := pd_zone (pages s !!! Z.to_nat index) in
      zone_upd zone (λ z, z <| z_free_pages ::= λ n, n -₆₄ 1 |>
                            <| z_used_pages ::= λ n, n +₆₄ 1 |>) s
    else s
  else s.

Definition free_step (s : pmm_state) (addr : Z) : pmm_state :=
  let index := pmm_page_to_index s addr in
  if pmm_bitmap_test s index then
    let s := mark_free s index in
    if index <? pages_count s then
      let s := desc_upd index (λ d, d <| pd_state := PMM_PAGE_FREE |>) s in
      let zone := pd_zone (pages s !!! Z.to_nat index) in
      zone_upd zone (λ z, z <| z_free_pages ::= λ n, n +₆₄ 1 |>
                            <| z_used_pages ::= λ n, n -₆₄ 1 |>) s
    else s
  else s.

(** [s'] is [s] but for page states, descriptors and zone counters. *)
Definition same_layout (s s' : pmm_state) : Prop :=
  total_pages s' = total_pages s ∧ memory_start s' = memory_start s
  ∧ memory_end s' = memory_end s ∧ bitmap_size s' = bitmap_size s ∧ mem s' = mem s.

Lemma same_layout_trans s1 s2 s3 : same_layout s1 s2 → same_layout s2 s3 → same_layout s1 s3.
Proof. unfold same_layout. intuition congruence. Qed.

Definition no_cache (s : pmm_state) : Prop := ∀ zone l, all_ranges s !! zone = Some l → l = [].

Lemma used_step_spec s i :
  pmm_inv s → no_cache s → 0 ≤ i < total_pages s →
  let s' := used_step s (memory_start s + 4096 * i) in
  pmm_inv s' ∧ no_cache s' ∧ same_layout s s'
  ∧ ∀ j, 0 ≤ j → pmm_bitmap_test s' j = if decide (i = j) then true else pmm_bitmap_test s j.
Proof.
  intros Hinv Hnc Hi. unfold used_step. rewrite page_to_index_eq by done.
  destruct (pmm_bitmap_test s i) eqn:Et; simpl.
  { split_and!; try done. intros j Hj. case_decide; [by subst|done]. }
  assert (pmm_inv (mark_used s i)) as Hinv1.
  { apply pmm_inv_mark_used; try done. intros zone l Hl%Hnc _. subst. by intros ?%in_ranges_nil. }
  pose proof (λ j, test_mark_used s i j Hinv Hi) as Htest.
  case_if; [|by split_and!].
  split_and!; try done.
  - eapply (pmm_inv_frame (mark_used s i)); try done; simpl; rewrite ?length_insert; try done.
    by rewrite zone_upd_counters_all_ranges.
  - intros zone l. rewrite zone_upd_counters_all_ranges by done. apply Hnc.
Qed.

Lemma free_step_spec s i :
  pmm_inv s → no_cache s → 0 ≤ i < total_pages s →
  let s' := free_step s (memory_start s + 4096 * i) in
  pmm_inv s' ∧ no_cache s' ∧ same_layout s s'
  ∧ ∀ j, 0 ≤ j → pmm_bitmap_test s' j = if decide (i = j) then false else pmm_bitmap_test s j.
Proof.
  intros Hinv Hnc Hi. unfold free_step. rewrite page_to_index_eq by done.
  destruct (pmm_bitmap_test s i) eqn:Et; simpl.
  2: { split_and!; try done. intros j Hj. case_decide; [by subst|done]. }
  pose proof (pmm_inv_mark_free s i Hinv Hi Et) as Hinv1.
  pose proof (λ j, test_mark_free s i j Hinv Hi) as Htest.
  case_if; [|by split_and!].
  split_and!; try done.
  - eapply (pmm_inv_frame (mark_free s i)); try done; simpl; rewrite ?length_insert; try done.
    by rewrite zone_upd_counters_all_ranges.
  - intros zone l. rewrite zone_upd_counters_all_ranges by done. apply Hnc.
Qed.

(** Either loop sets the state of exactly the pages it visits. *)
Lemma mark_loop_spec (step : pmm_state → Z → pmm_state) (v : bool) s l :
  (∀ s i, pmm_inv s → no_cache s → 0 ≤ i < total_pages s →
     let s' := step s (memory_start s + 4096 * i) in
     pmm_inv s' ∧ no_cache s' ∧ same_layout s s'
     ∧ ∀ j, 0 ≤ j → pmm_bitmap_test s' j = if decide (i = j) then v else pmm_bitmap_test s j) →
  pmm_inv s → no_cache s → (∀ i, i ∈ l → 0 ≤ i < total_pages s) →
  let s' := foldl step s ((λ i, memory_start s + 4096 * i) <$> l) in
  pmm_inv s' ∧ no_cache s' ∧ same_layout s s'
  ∧ ∀ j, 0 ≤ j → pmm_bitmap_test s' j = if decide (j ∈ l) then v else pmm_bitmap_test s j.
Proof.
  intros Hstep. revert s. induction l as [|i l IH]; intros s Hinv Hnc Hl; cbn [foldl fmap list_fmap].
  { split_and!; try done. }
  destruct (Hstep s i Hinv Hnc) as (Hi1 & Hn1 & (Ht & Hm & Hsl) & Htest); [apply Hl; by left|].
  destruct (IH (step s (memory_start s + 4096 * i)) Hi1 Hn1) as (Hi2 & Hn2 & Hl2 & Ht2).
  { intros j Hj. rewrite Ht. apply Hl. by right. }
  rewrite Hm in Hi2, Hn2, Hl2, Ht2. split_and!; try done.
  - eapply same_layout_trans; [|exact Hl2]. unfold same_layout. tauto.
  - intros j Hj. rewrite Ht2, Htest by done.
    rewrite decide_elem_cons. by repeat case_decide.
Qed.

Lemma mark_used_unfold s start0 end0 :
  pmm_mark_range_used s start0 end0 =
  if end0 <=? start0 then s
  else if (end0 <=? memory_start s) || (memory_end s <=? start0) then s
  else foldl used_step s
         (page_addrs (align_down (Z.max (memory_start s) start0))
                     (align_up (Z.min (memory_end s) end0))).
Proof.
  unfold pmm_mark_range_used. do 2 (case_if; [done|]). do 2 f_equal; f_equal.
  - case_if; bool_hyps; lia.
  - case_if; bool_hyps; lia.
Qed.

Lemma mark_free_unfold s start0 end0 :
  pmm_mark_range_free s start0 end0 =
  if end0 <=? start0 then s
  else if (end0 <=? memory_start s) || (memory_end s <=? start0) then s
  else foldl free_step s
         (page_addrs (align_up (Z.max (memory_start s) start0))
                     (align_down (Z.min (memory_end s) end0))).
Proof.
  unfold pmm_mark_range_free. do 2 (case_if; [done|]). do 2 f_equal; f_equal.
  - case_if; bool_hyps; lia.
  - case_if; bool_hyps; lia.
Qed.

(** Page [j] has a byte in [start, stop). *)
Definition page_touches (s : pmm_state) (start stop j : Z) : Prop :=
  start < memory_start s + 4096 * j + 4096 ∧ memory_start s + 4096 * j < stop ∧ start < stop.
(** Page [j] lies inside [start, stop). *)
Definition page_inside (s : pmm_state) (start stop j : Z) : Prop :=
  start ≤ memory_start s + 4096 * j ∧ memory_start s + 4096 * j + 4096 ≤ stop.

#[export] Instance page_touches_dec s a b j : Decision (page_touches s a b j).
Proof. unfold page_touches. apply _. Defined.
#[export] Instance page_inside_dec s a b j : Decision (page_inside s a b j).
Proof. unfold page_inside. apply _. Defined.

Lemma mark_range_used_spec s start stop :
  pmm_inv s → no_cache s → in_u64 start → in_u64 stop →
  let s' := pmm_mark_range_used s start stop in
  pmm_inv s' ∧ no_cache s' ∧ same_layout s s'
  ∧ ∀ j, 0 ≤ j < total_pages s →
      pmm_bitmap_test s' j
        = if decide (page_touches s start stop j) then true else pmm_bitmap_test s j.
Proof.
  intros Hinv Hnc Hs He. rewrite mark_used_unfold.
  pose proof (inv_end s Hinv) as Hend. pose proof (inv_end64 s Hinv) as Hend64.
  pose proof (inv_start s Hinv) as [Hst Hal]. pose proof (inv_total s Hinv) as Htot.
  change (2 ^ 64) with 18446744073709551616 in *.
  assert (memory_end s mod 4096 = 0) as Hal2.
  { rewrite Hend, (Z.mul_comm 4096), Z.mod_add by lia. done. }
  case_if; [|case_if]; bool_hyps.
  1: { split_and!; try done. intros j Hj. rewrite decide_False; [done|]. unfold page_touches. lia. }
  1: { split_and!; try done. intros j Hj. rewrite decide_False; [done|]. unfold page_touches.
       apply orb_true_iff in Eif0 as [E|E]; bool_hyps; lia. }
  set (a := Z.max (memory_start s) start). set (b := Z.min (memory_end s) stop).
  assert (memory_end s ≤ 18446744073709551616 - 4096) as Hm4.
  { pose proof (Z.div_mod (memory_end s) 4096). lia. }
  rewrite (align_down_rel (memory_start s) a ((a - memory_start s) / 4096)) by (done || lia).
  rewrite (align_up_rel (memory_start s) b ((b - memory_start s + 4095) / 4096)) by (done || lia).
  rewrite page_addrs_index.
  set (ia := (a - memory_start s) / 4096). set (ib := (b - memory_start s + 4095) / 4096).
  assert (∀ j, j ∈ seqZ ia (ib - ia) ↔ ia ≤ j < ib) as Hel.
  { intros j. rewrite elem_of_seqZ. lia. }
  assert (0 ≤ ia) as Hia by (apply Z.div_pos; lia).
  assert (ib ≤ total_pages s) as Hib.
  { apply Z.lt_succ_r, Z.div_lt_upper_bound; lia. }
  destruct (mark_loop_spec used_step true s (seqZ ia (ib - ia))) as (H1 & H2 & H3 & H4); try done.
  { apply used_step_spec. }
  { intros i Hi%Hel. lia. }
  split_and!; try done. intros j Hj. rewrite H4 by lia.
  assert (j ∈ seqZ ia (ib - ia) ↔ page_touches s start stop j) as Hiff.
  { rewrite Hel. unfold page_touches. unfold ia, ib.
    pose proof (Z.div_mod (a - memory_start s) 4096) as D1.
    pose proof (Z.mod_pos_bound (a - memory_start s) 4096) as D2.
    pose proof (Z.div_mod (b - memory_start s + 4095) 4096) as D3.
    pose proof (Z.mod_pos_bound (b - memory_start s + 4095) 4096) as D4. lia. }
  destruct (decide (j ∈ _)) as [E|E]; rewrite Hiff in E;
    destruct (decide (page_touches s start stop j)); tauto.
Qed.

Lemma mark_range_free_spec s start stop :
  pmm_inv s → no_cache s → in_u64 start → in_u64 stop →
  let s' := pmm_mark_range_free s start stop in
  pmm_inv s' ∧ no_cache s' ∧ same_layout s s'
  ∧ ∀ j, 0 ≤ j < total_pages s →
      pmm_bitmap_test s' j
        = if decide (page_inside s start stop j) then false else pmm_bitmap_test s j.
Proof.
  intros Hinv Hnc Hs He. rewrite mark_free_unfold.
  pose proof (inv_end s Hinv) as Hend. pose proof (inv_end64 s Hinv) as Hend64.
  pose proof (inv_start s Hinv) as [Hst Hal]. pose proof (inv_total s Hinv) as Htot.
  change (2 ^ 64) with 18446744073709551616 in *.
  assert (memory_end s mod 4096 = 0) as Hal2.
  { rewrite Hend, (Z.mul_comm 4096), Z.mod_add by lia. done. }
  case_if; [|case_if]; bool_hyps.
  1: { split_and!; try done. intros j Hj. rewrite decide_False; [done|]. unfold page_inside. lia. }
  1: { split_and!; try done. intros j Hj. rewrite decide_False; [done|]. unfold page_inside.
       apply orb_true_iff in Eif0 as [E|E]; bool_hyps; lia. }
  set (a := Z.max (memory_start s) start). set (b := Z.min (memory_end s) stop).
  assert (memory_end s ≤ 18446744073709551616 - 4096) as Hm4.
  { pose proof (Z.div_mod (memory_end s) 4096). lia. }
  rewrite (align_up_rel (memory_start s) a ((a - memory_start s + 4095) / 4096)) by (done || lia).
  rewrite (align_down_rel (memory_start s) b ((b - memory_start s) / 4096)) by (done || lia).
  rewrite page_addrs_index.
  set (ia := (a - memory_start s + 4095) / 4096). set (ib := (b - memory_start s) / 4096).
  assert (∀ j, j ∈ seqZ ia (ib - ia) ↔ ia ≤ j < ib) as Hel.
  { intros j. rewrite elem_of_seqZ. lia. }
  assert (0 ≤ ia) as Hia by (apply Z.div_pos; lia).
  assert (ib ≤ total_pages s) as Hib.
  { apply Z.lt_succ_r, Z.div_lt_upper_bound; lia. }
  destruct (mark_loop_spec free_step false s (seqZ ia (ib - ia))) as (H1 & H2 & H3 & H4); try done.
  { apply free_step_spec. }
  { intros i Hi%Hel. lia. }
  split_and!; try done. intros j Hj. rewrite H4 by lia.
  assert (j ∈ seqZ ia (ib - ia) ↔ page_inside s start stop j) as Hiff.
  { rewrite Hel. unfold page_inside. unfold ia, ib.
    pose proof (Z.div_mod (a - memory_start s + 4095) 4096) as D1.
    pose proof (Z.mod_pos_bound (a - memory_start s + 4095) 4096) as D2.
    pose proof (Z.div_mod (b - memory_start s) 4096) as D3.
    pose proof (Z.mod_pos_bound (b - memory_start s) 4096) as D4. lia. }
  destruct (decide (j ∈ _)) as [E|E]; rewrite Hiff in E;
    destruct (decide (page_inside s start stop j)); tauto.
Qed.

(** The loops do not look at the cache. *)
Lemma clear_zone_upd zone f s :
  (∀ z, f (z <| z_free_ranges := [] |>) = (f z) <| z_free_ranges := [] |>) →
  pmm_freelist_clear (zone_upd zone f s) = zone_upd zone f (pmm_freelist_clear s).
Proof.
  intros Hf. unfold pmm_freelist_clear, zone_upd. unfold field_update. simpl. f_equal.
  rewrite list_fmap_insert.
  destruct (zones s !! Z.to_nat zone) as [z|] eqn:E.
  - rewrite (list_lookup_total_correct _ _ _ E).
    rewrite (list_lookup_total_correct _ _ (z <| z_free_ranges := [] |>)).
    + f_equal. symmetry. apply (Hf z).
    + by rewrite list_lookup_fmap, E.
  - rewrite !list_insert_ge; try done; rewrite length_fmap; by apply lookup_ge_None.
Qed.

Lemma clear_used_step s a : pmm_freelist_clear (used_step s a) = used_step (pmm_freelist_clear s) a.
Proof.
  unfold used_step.
  change (pmm_page_to_index (pmm_freelist_clear s) a) with (pmm_page_to_index s a).
  change (pmm_bitmap_test (pmm_freelist_clear s) ?i) with (pmm_bitmap_test s i).
  case_if; [|done].
  change (pages_count (mark_used (pmm_freelist_clear s) ?i)) with (pages_count (mark_used s i)).
  case_if; [|done]. by rewrite clear_zone_upd.
Qed.

Lemma clear_free_step s a : pmm_freelist_clear (free_step s a) = free_step (pmm_freelist_clear s) a.
Proof.
  unfold free_step.
  change (pmm_page_to_index (pmm_freelist_clear s) a) with (pmm_page_to_index s a).
  change (pmm_bitmap_test (pmm_freelist_clear s) ?i) with (pmm_bitmap_test s i).
  case_if; [|done].
  change (pages_count (mark_free (pmm_freelist_clear s) ?i)) with (pages_count (mark_free s i)).
  case_if; [|done]. by rewrite clear_zone_upd.
Qed.

Lemma clear_foldl (step : pmm_state → Z → pmm_state) s l :
  (∀ s a, pmm_freelist_clear (step s a) = step (pmm_freelist_clear s) a) →
  pmm_freelist_clear (foldl step s l) = foldl step (pmm_freelist_clear s) l.
Proof. intros Hc. revert s. induction l as [|a l IH]; intros s; simpl; [done|]. by rewrite IH, Hc. Qed.

Lemma clear_mark_used s a b :
  pmm_freelist_clear (pmm_mark_range_used s a b) = pmm_mark_range_used (pmm_freelist_clear s) a b.
Proof.
  rewrite !mark_used_unfold. simpl. repeat case_if; try done.
  apply clear_foldl, clear_used_step.
Qed.

Lemma clear_mark_free s a b :
  pmm_freelist_clear (pmm_mark_range_free s a b) = pmm_mark_range_free (pmm_freelist_clear s) a b.
Proof.
  rewrite !mark_free_unfold. simpl. repeat case_if; try done.
  apply clear_foldl, clear_free_step.
Qed.

Lemma pmm_reserve_range_result s start stop :
  pmm_inv s → in_u64 start → in_u64 stop →
  pmm_inv (pmm_reserve_range s start stop)
  ∧ ∀ j, 0 ≤ j < total_pages s →
      pmm_bitmap_test (pmm_reserve_range s start stop) j
        = if decide (page_touches s start stop j) then true else pmm_bitmap_test s j.
Proof.
  intros Hinv Hs He. unfold pmm_reserve_range. case_if; bool_hyps.
  { split; [done|]. intros j Hj. rewrite decide_False; [done|]. unfold page_touches. lia. }
  destruct (mark_range_used_spec (pmm_freelist_clear s) start stop) as (H1 & H2 & H3 & H4);
    [by apply pmm_inv_clear|intros ??; apply clear_all_ranges|done..|].
  rewrite <- clear_mark_used in H1, H4.
  set (s1 := _ <| reserved_regions ::= _ |>).
  destruct (rebuild_inv s1) as [Hi Heq]; [by eapply pmm_inv_frame; [exact H1|..]|].
  split; [done|]. intros j Hj. rewrite Heq. apply (H4 j Hj).
Qed.

(** [pmm_reserve_range] keeps the allocator well formed, marks used every
    managed page with a byte in [start, stop) and changes no other page, so a
    reserved address is never handed out later. *)
Theorem pmm_reserve_range_correct s start stop :
  pmm_inv s → in_u64 start → in_u64 stop →
  pmm_inv (pmm_reserve_range s start stop)
  ∧ ∀ j, 0 ≤ j < total_pages s →
      pmm_bitmap_test (pmm_reserve_range s start stop) j
        = if decide (page_touches s start stop j) then true else pmm_bitmap_test s j.
Proof. apply pmm_reserve_range_result. Qed.

(** [pmm_release_range] keeps the allocator well formed, frees every
    managed page that lies inside [start, stop) and changes no other page. *)
Theorem pmm_release_range_correct s start stop :
  pmm_inv s → in_u64 start → in_u64 stop →
  pmm_inv (pmm_release_range s start stop)
  ∧ ∀ j, 0 ≤ j < total_pages s →
      pmm_bitmap_test (pmm_release_range s start stop) j
        = if decide (page_inside s start stop j) then false else pmm_bitmap_test s j.
Proof.
  intros Hinv Hs He. unfold pmm_release_range. case_if; bool_hyps.
  { split; [done|]. intros j Hj. rewrite decide_False; [done|]. unfold page_inside. lia. }
  destruct (mark_range_free_spec (pmm_freelist_clear s) start stop) as (H1 & H2 & H3 & H4);
    [by apply pmm_inv_clear|intros ??; apply clear_all_ranges|done..|].
  rewrite <- clear_mark_free in H1, H4.
  destruct (rebuild_inv (pmm_mark_range_free s start stop)) as [Hi Heq]; [done|].
  split; [done|]. intros j Hj. rewrite Heq. apply (H4 j Hj).
Qed.

End PmmFacts.
