(* ===== verification/PmmInit.v ===== *)
(** * Initialisation of the physical memory manager

    [pmm_init] establishes the invariant of [PmmFacts] with every page free,
    and the concrete machine on which the theorems of that file are
    instantiated. *)

From stdpp Require Import base gmap list numbers fin_maps.
From S2P Require Import Prelude Pmm PmmFacts.

Module PmmInit.
Import Pmm PmmFacts.
Local Open Scope Z_scope.

(** ** Initialisation *)
Lemma zero_run_lookup bm start n (k : nat) :
  0 ≤ start →
  bitmap_zero_run bm start n !! k
    = if decide (start ≤ Z.of_nat k < start + n) then (λ _, 0) <$> bm !! k else bm !! k.
Proof.
  intros Hs. unfold bitmap_zero_run.
  assert (∀ (l bm : list Z), (∀ i, i ∈ l → 0 ≤ i) →
    foldl (λ bm i, <[Z.to_nat (start + i) := 0]> bm) bm l !! k
      = if decide (Z.of_nat k - start ∈ l) then (λ _, 0) <$> bm !! k else bm !! k) as Hgen.
  { clear n bm. induction l as [|i l IH]; intros bm Hl; cbn [foldl].
    - by destruct (decide _) as [H|]; [apply not_elem_of_nil in H|].
    - pose proof (Hl i ltac:(by left)) as Hi.
      rewrite IH by (intros; apply Hl; by right).
      destruct (decide (Z.of_nat k - start = i)) as [E|E].
      + rewrite (decide_True (P := Z.of_nat k - start ∈ i :: l)) by (rewrite E; by left).
        assert (k = Z.to_nat (start + i)) as -> by lia.
        destruct (bm !! Z.to_nat (start + i)) eqn:El.
        * rewrite list_lookup_insert_eq by (by eapply lookup_lt_Some). by case_decide.
        * rewrite list_insert_ge by (by apply lookup_ge_None). rewrite El. by case_decide.
      + rewrite list_lookup_insert_ne by lia.
        destruct (decide (Z.of_nat k - start ∈ l)) as [H1|H1],
          (decide (Z.of_nat k - start ∈ i :: l)) as [H2|H2]; try done;
          rewrite elem_of_cons in H2; tauto. }
  rewrite Hgen by (intros i Hi%elem_of_seqZ; lia).
  destruct (decide (_ ∈ _)) as [H|H]; rewrite elem_of_seqZ in H;
    destruct (decide (start ≤ Z.of_nat k < start + n)); done || lia.
Qed.

Lemma chunks_lookup bm (c : nat) (k : nat) :
  foldl (λ bm chunk, bitmap_zero_run bm (chunk * 1024) 1024) bm (seqZ 0 (Z.of_nat c)) !! k
    = if decide (Z.of_nat k < Z.of_nat c * 1024) then (λ _, 0) <$> bm !! k else bm !! k.
Proof.
  induction c as [|c IH]; [by rewrite decide_False by lia|].
  rewrite Nat2Z.inj_succ, <- Z.add_1_r, seqZ_app, foldl_app by lia. cbn [foldl seqZ].
  change (seqZ (0 + Z.of_nat c) 1) with [0 + Z.of_nat c]. cbn [foldl].
  rewrite zero_run_lookup, IH by lia.
  repeat case_decide; try lia; destruct (bm !! k); done.
Qed.

(** The batched clearing zeroes exactly the words of the bitmap. *)
Lemma clear_chunked_eq bm words :
  0 ≤ words → Z.of_nat (length bm) = words →
  bitmap_clear_chunked bm words = replicate (Z.to_nat words) 0.
Proof.
  intros Hw Hlen. unfold bitmap_clear_chunked. apply list_eq. intros k.
  pose proof (Z.div_pos words 1024). pose proof (Z.div_mod words 1024).
  pose proof (Z.mod_pos_bound words 1024).
  rewrite zero_run_lookup by lia.
  rewrite <- (Z2Nat.id (words / 1024)) by lia. rewrite chunks_lookup, Z2Nat.id by lia.
  destruct (decide (k < length bm)%nat) as [Hk|Hk].
  - rewrite lookup_replicate_2 by lia.
    destruct (lookup_lt_is_Some_2 bm k Hk) as [x ->]. simpl.
    repeat case_decide; done || lia.
  - rewrite (lookup_ge_None_2 bm k), (lookup_ge_None_2 (replicate _ _)) by (rewrite ?length_replicate; lia).
    by repeat case_decide.
Qed.

Lemma zone_count_frame free used s l :
  let s' := foldl (zone_count_page free used) s l in
  ∃ ps zs, s' = s <| pages := ps |> <| zones := zs |>
  ∧ z_free_ranges <$> zs = all_ranges s ∧ length zs = length (zones s).
Proof.
  revert s. induction l as [|i l IH]; intros s; simpl.
  { exists (pages s), (zones s). split_and!; try done. by destruct s. }
  destruct (IH (zone_count_page free used s i)) as (ps & zs & -> & Hr & Hl).
  exists ps, zs. split_and!; try done.
  - rewrite Hr. unfold zone_count_page. by rewrite zone_upd_counters_all_ranges.
  - rewrite Hl. unfold zone_count_page, zone_upd. simpl. by rewrite length_insert.
Qed.

Lemma zero_bitmap_test size (n : nat) i :
  0 ≤ i → i / 32 < size / 4 → Z.of_nat n = size / 4 → bitmap_test size (replicate n 0) i = false.
Proof.
  intros Hi Hlt Hn. rewrite bitmap_test_testbit by done.
  rewrite (proj2 (Z.ltb_lt _ _)) by done.
  rewrite (list_lookup_total_correct _ _ 0); [apply Z.bits_0|].
  apply lookup_replicate_2. pose proof (Z.div_pos i 32). lia.
Qed.

(** A state whose bitmap is all zeroes and whose counters say so is well
    formed up to its cache. *)
Lemma fresh_inv s :
  0 ≤ total_pages s < 2 ^ 52 → 0 < memory_start s → memory_start s mod 4096 = 0 →
  memory_end s = memory_start s + 4096 * total_pages s → memory_end s < 2 ^ 64 →
  0 ≤ bitmap_size s → bitmap s = replicate (Z.to_nat (bitmap_size s / 4)) 0 →
  total_pages s ≤ 32 * (bitmap_size s / 4) → length (zones s) = 3%nat →
  free_pages s = total_pages s → used_pages s = 0 → no_cache s →
  pmm_inv s ∧ ∀ i, 0 ≤ i < total_pages s → pmm_bitmap_test s i = false.
Proof.
  intros H1 H2 H3 H4 H5 H6 H7 H8 H9 H10 H11 H12.
  assert (0 ≤ bitmap_size s / 4) as Hb by (apply Z.div_pos; lia).
  assert (∀ i, 0 ≤ i < total_pages s → pmm_bitmap_test s i = false) as Ht.
  { intros i Hi. unfold pmm_bitmap_test. rewrite H7. apply zero_bitmap_test; [lia| |lia].
    apply Z.div_lt_upper_bound; lia. }
  split; [|done]. split; try done.
  - split; [rewrite H7, length_replicate; lia|]. rewrite H7. by apply Forall_replicate.
  - intros zone l Hl%H12 Hz. subst. split_and!; try done. intros i []%in_ranges_nil.
  - rewrite H10. unfold free_list.
    assert (filter (λ i, pmm_bitmap_test s i = false) (seqZ 0 (total_pages s))
            = seqZ 0 (total_pages s)) as ->.
    { apply list_filter_all. intros i Hi%elem_of_seqZ. apply Ht. lia. }
    rewrite length_seqZ. lia.
  - lia.
Qed.

(** The state of [pmm_init] just before the free lists are built. *)
Lemma rebuild_all_free s :
  let s0 := pmm_freelist_clear s in
  pmm_inv s0 → (∀ i, 0 ≤ i < total_pages s → pmm_bitmap_test s0 i = false) →
  let s' := pmm_rebuild_free_lists s in
  pmm_inv s' ∧ (∀ i, 0 ≤ i < total_pages s → pmm_bitmap_test s' i = false)
  ∧ total_pages s' = total_pages s ∧ memory_start s' = memory_start s
  ∧ free_pages s' = free_pages s ∧ memory_end s' = memory_end s.
Proof.
  intros s0 Hinv Ht. destruct (rebuild_inv s Hinv) as [H1 H2].
  simpl. rewrite H2. split_and!; try done. rewrite <- H2. done.
Qed.

Lemma freelist_clear_no_cache s : no_cache (pmm_freelist_clear s).
Proof.
  intros zone l Hl. unfold all_ranges in Hl. simpl in Hl.
  rewrite <- list_fmap_compose, list_lookup_fmap in Hl.
  destruct (zones s !! zone); by simplify_eq/=.
Qed.

(** The window arithmetic of the initialisation does not wrap. *)
Lemma init_window mstart0 mend0 :
  0 < mstart0 ≤ 2 ^ 64 - 4096 → mstart0 < mend0 < 2 ^ 64 →
  align_up mstart0 ≤ align_down mend0 →
  let mstart := align_up mstart0 in let mend := align_down mend0 in
  let total := (mend - mstart) / 4096 in
  0 < mstart ∧ mstart mod 4096 = 0 ∧ (0 ≤ total < 2 ^ 52 ∧ mend = mstart + 4096 * total
  ∧ mend < 2 ^ 64) ∧ (mend -₆₄ mstart) / 4096 = total
  ∧ align_up ((total +₆₄ 7) / 8) = align_up ((total + 7) / 8)
  ∧ total ≤ 32 * (align_up ((total + 7) / 8) / 4) ∧ 0 ≤ align_up ((total + 7) / 8).
Proof.
  intros H1 H2 H3. change (2 ^ 64) with 18446744073709551616 in *.
  change (2 ^ 52) with 4503599627370496.
  cbv zeta. rewrite (align_up_eq mstart0), (align_down_eq mend0) in * by lia.
  set (a := mstart0 + 4095 - _) in *. set (b := mend0 - _) in *.
  assert (0 < a ∧ a mod 4096 = 0) as [Ha Ha'] by (split; subst a; Z.to_euclidean_division_equations; lia).
  assert (b < 18446744073709551616 ∧ b mod 4096 = 0) as [Hb Hb']
    by (split; subst b; Z.to_euclidean_division_equations; lia).
  assert (0 ≤ (b - a) / 4096 < 4503599627370496 ∧ b = a + 4096 * ((b - a) / 4096)) as [Ht Hbt]
    by (Z.to_euclidean_division_equations; lia).
  set (t := (b - a) / 4096) in *. clearbody t a b.
  rewrite (u64_small (t + 7)), (u64_small (b - a)) by lia.
  rewrite (align_up_eq ((t + 7) / 8)) by (Z.to_euclidean_division_equations; lia).
  split_and!; try done; try lia; Z.to_euclidean_division_equations; lia.
Qed.

Lemma setup_page_descs_frame s mstart mend bitmap_phys bmsize :
  ∃ ps, pmm_setup_page_descs s mstart mend bitmap_phys bmsize = s <| pages := ps |>.
Proof. unfold pmm_setup_page_descs. case_if; by eexists. Qed.

Lemma pmm_init_result s mstart0 mend0 bitmap_virt storage :
  0 < mstart0 ≤ 2 ^ 64 - 4096 → mstart0 < mend0 < 2 ^ 64 →
  align_up mstart0 ≤ align_down mend0 → 0 < bitmap_virt → length (zones s) = 3%nat →
  let total := (align_down mend0 - align_up mstart0) / 4096 in
  Z.of_nat (length storage) = align_up ((total + 7) / 8) / 4 →
  let '(rc, s') := pmm_init s mstart0 mend0 bitmap_virt storage in
  rc = RDNX_OK ∧ pmm_inv s'
  ∧ memory_start s' = align_up mstart0 ∧ memory_end s' = align_down mend0
  ∧ total_pages s' = total ∧ free_pages s' = total
  ∧ ∀ i, 0 ≤ i < total → pmm_bitmap_test s' i = false.
Proof.
  intros H1 H2 H3 H4 H6 total Hst. unfold pmm_init.
  destruct (init_window mstart0 mend0 H1 H2 H3) as (W1 & W2 & (W3 & W4 & W5) & W6 & W7 & W8 & W9).
  rewrite (proj2 (Z.eqb_neq bitmap_virt 0)), (proj2 (Z.leb_gt mend0 mstart0)) by lia. cbn [orb].
  fold total in W3, W4, W5, W6, W7, W8, W9. unfold PAGE_SIZE. rewrite W6, W7.
  set (bm := align_up ((total + 7) / 8)) in *.
  match goal with |- context [pmm_setup_page_descs ?x _ _ _ _] => set (sA := x) end.
  destruct (setup_page_descs_frame sA (align_up mstart0) (align_down mend0) bitmap_virt bm) as [ps ->].
  destruct (zone_count_frame 1 0 (sA <| pages := ps |>) (seqZ 0 (pages_count (sA <| pages := ps |>))))
    as (ps' & zs & -> & _ & Hl).
  match goal with |- context [pmm_rebuild_free_lists ?x] => set (sB := x) end.
  destruct (fresh_inv (pmm_freelist_clear sB)) as [Hi Ht];
    try apply freelist_clear_no_cache; try done.
  { simpl. rewrite clear_chunked_eq; [done|apply Z.div_pos; lia|done]. }
  { simpl. rewrite length_fmap, Hl. simpl. by rewrite length_fmap. }
  destruct (rebuild_all_free sB Hi Ht) as (R1 & R2 & R3 & R4 & R5 & R6).
  by rewrite R3, R4, R5, R6.
Qed.

(** On a page-aligned or unaligned physical window whose interior is not
    empty, [pmm_init] succeeds and establishes the allocator's invariant: the
    window is rounded inwards, and every page of it is free. *)
Theorem pmm_init_correct s mstart0 mend0 bitmap_virt storage :
  0 < mstart0 ≤ 2 ^ 64 - 4096 → mstart0 < mend0 < 2 ^ 64 →
  align_up mstart0 ≤ align_down mend0 → 0 < bitmap_virt → length (zones s) = 3%nat →
  let total := (align_down mend0 - align_up mstart0) / 4096 in
  Z.of_nat (length storage) = align_up ((total + 7) / 8) / 4 →
  let '(rc, s') := pmm_init s mstart0 mend0 bitmap_virt storage in
  rc = RDNX_OK ∧ pmm_inv s'
  ∧ memory_start s' = align_up mstart0 ∧ memory_end s' = align_down mend0
  ∧ total_pages s' = total ∧ free_pages s' = total
  ∧ ∀ i, 0 ≤ i < total → pmm_bitmap_test s' i = false.
Proof. apply pmm_init_result. Qed.

(** ** Release of a run *)
Lemma freelist_insert_same_layout s zone start count :
  same_layout s (pmm_freelist_insert s zone start count).
Proof.
  unfold pmm_freelist_insert, pmm_freelist_append. repeat case_if; try done.
  by destruct (range_merge_prev _ _).
Qed.

Lemma free_page_same_layout s phys : same_layout s (pmm_free_page s phys).
Proof.
  unfold pmm_free_page. do 2 (case_if; [done|]). cbv zeta. case_if; [|done].
  eapply same_layout_trans; [|apply freelist_insert_same_layout]. by repeat case_if.
Qed.

Lemma free_page_index s i :
  pmm_inv s → 0 ≤ i < total_pages s →
  let s' := pmm_free_page s (pmm_index_to_page s i) in
  pmm_inv s' ∧ same_layout s s'
  ∧ ∀ j, 0 ≤ j → pmm_bitmap_test s' j = if decide (i = j) then false else pmm_bitmap_test s j.
Proof.
  intros Hinv Hi. destruct (pmm_free_page_result s (pmm_index_to_page s i) Hinv)
    as [Hinv' [(i' & Hi' & Heq & Hu & Ht)|[Hsame Hfree]]].
  - rewrite !index_to_page_eq in Heq by done. assert (i' = i) as -> by lia.
    split_and!; try done. apply free_page_same_layout.
  - simpl. rewrite Hsame. split_and!; try done. intros j Hj.
    case_decide; [|done]. subst. by apply Hfree.
Qed.

Lemma free_run s st (n : nat) addr :
  pmm_inv s → 0 ≤ st → st + Z.of_nat n ≤ total_pages s →
  (∀ i, 0 ≤ i < Z.of_nat n → addr i = memory_start s + 4096 * (st + i)) →
  let s' := foldl (λ s i, pmm_free_page s (addr i)) s (seqZ 0 (Z.of_nat n)) in
  pmm_inv s' ∧ same_layout s s'
  ∧ ∀ j, 0 ≤ j → pmm_bitmap_test s' j
                   = if decide (st ≤ j < st + Z.of_nat n) then false else pmm_bitmap_test s j.
Proof.
  intros Hinv Hst. induction n as [|n IH]; intros Hn Ha.
  { split_and!; try done. intros. by rewrite decide_False by lia. }
  rewrite Nat2Z.inj_succ, <- Z.add_1_r in *. rewrite seqZ_app, foldl_app by lia.
  destruct IH as (I1 & I2 & I3); [lia|intros; apply Ha; lia|]. set (s1 := foldl _ s _) in *.
  change (seqZ (0 + Z.of_nat n) 1) with [Z.of_nat n]. cbn [foldl].
  destruct (free_page_index s1 (st + Z.of_nat n) I1) as (J1 & J2 & J3).
  { destruct I2 as [-> _]. lia. }
  rewrite index_to_page_eq, (proj1 (proj2 I2)) in J1, J2, J3 by (done || destruct I2 as [-> _]; lia).
  rewrite Ha by lia. split_and!; [done|by eapply same_layout_trans|].
  intros j Hj. rewrite J3, I3 by done. repeat case_decide; done || lia.
Qed.

Lemma free_pages_result s st count :
  pmm_inv s → 0 ≤ st → 0 ≤ count ≤ 2 ^ 20 → st + count ≤ total_pages s →
  let s' := pmm_free_pages s (memory_start s + 4096 * st) count in
  pmm_inv s' ∧ same_layout s s'
  ∧ ∀ j, 0 ≤ j → pmm_bitmap_test s' j
                   = if decide (st ≤ j < st + count) then false else pmm_bitmap_test s j.
Proof.
  intros Hinv Hst Hc Hn. change (2 ^ 20) with 1048576 in Hc.
  destruct (free_run s st (Z.to_nat count) (λ i, (memory_start s + 4096 * st) +₆₄ u32 (i * PAGE_SIZE)))
    as (H1 & H2 & H3); try done; rewrite ?Z2Nat.id in * by lia; try done.
  intros i Hi. unfold PAGE_SIZE. rewrite (u32_small (i * 4096)) by lia.
  destruct Hinv. change (2 ^ 64) with 18446744073709551616 in *. rewrite u64_small; lia.
Qed.

Lemma free_pages_of_test s s' :
  pmm_inv s → pmm_inv s' → total_pages s' = total_pages s →
  (∀ j, 0 ≤ j → pmm_bitmap_test s' j = pmm_bitmap_test s j) → free_pages s' = free_pages s.
Proof.
  intros H1 H2 Ht Hj. rewrite (inv_free s' H2), (inv_free s H1). unfold free_list.
  rewrite Ht. do 2 f_equal. apply list_filter_ext_in. intros x Hx%elem_of_seqZ.
  by rewrite Hj by lia.
Qed.

Definition same_geometry (s s' : pmm_state) : Prop :=
  total_pages s' = total_pages s ∧ memory_start s' = memory_start s
  ∧ bitmap_size s' = bitmap_size s.

Lemma same_geometry_trans s1 s2 s3 :
  same_geometry s1 s2 → same_geometry s2 s3 → same_geometry s1 s3.
Proof. unfold same_geometry. intuition congruence. Qed.

Lemma freelist_append_geometry s zone start count :
  same_geometry s (pmm_freelist_append s zone start count).
Proof. unfold pmm_freelist_append. by repeat case_if. Qed.

Lemma rebuild_loop_geometry n i rs rl rz s : same_geometry s (rebuild_loop n i rs rl rz s).
Proof.
  revert i rs rl rz s. induction n as [|n IH]; intros i rs rl rz s; cbn [rebuild_loop]; cbv zeta;
    repeat case_if; try done; try apply freelist_append_geometry;
    try (eapply same_geometry_trans; [apply freelist_append_geometry|]); apply IH.
Qed.

Lemma rebuild_geometry s : same_geometry s (pmm_rebuild_free_lists s).
Proof. apply (rebuild_loop_geometry _ _ _ _ _ (pmm_freelist_clear s)). Qed.

Lemma take_run_geometry s zone st count : same_geometry s (take_run s zone st count).
Proof.
  unfold take_run. destruct (take_pages_frame s ((λ p, st +₆₄ p) <$> seqZ 0 count)) as [ps ->].
  cbv zeta. rewrite zero_pages_frame. by case_if.
Qed.

Lemma alloc_pages_geometry s zone count :
  same_geometry s (pmm_alloc_pages_in_zone s zone count).2.
Proof.
  unfold pmm_alloc_pages_in_zone. case_if; [done|]. case_if; [done|].
  destruct (find_range _ _) as [st|].
  - destruct (pmm_freelist_remove s zone st count) as [ok s1] eqn:E. assert (same_geometry s s1) as Hg.
    { unfold pmm_freelist_remove in E. case_if; [by simplify_eq|].
      destruct (ranges_remove _ _ _ _); by simplify_eq. }
    destruct ok; [|done]. eapply same_geometry_trans; [exact Hg|apply take_run_geometry].
  - destruct (scan_run _ _ _ _ _ _ _); [|done].
    eapply same_geometry_trans; [apply take_run_geometry|apply rebuild_geometry].
Qed.

(** [pmm_free_pages] on a run of at most 2^20 managed pages frees exactly
    the pages of the run, whatever their state was. *)
Theorem pmm_free_pages_correct s st count :
  pmm_inv s → 0 ≤ st → 0 ≤ count ≤ 2 ^ 20 → st + count ≤ total_pages s →
  let s' := pmm_free_pages s (pmm_index_to_page s st) count in
  pmm_inv s'
  ∧ ∀ j, 0 ≤ j → pmm_bitmap_test s' j
                   = if decide (st ≤ j < st + count) then false else pmm_bitmap_test s j.
Proof.
  intros Hinv Hst Hc Hn. destruct (decide (count = 0)) as [->|].
  { split; [done|]. intros. by rewrite decide_False by lia. }
  rewrite index_to_page_eq by (done || lia).
  destruct (free_pages_result s st count) as (H1 & _ & H3); done.
Qed.

(** Allocating a run of at most 2^20 pages and freeing it again restores
    the state of every page, and the number of free pages. *)
Theorem pmm_alloc_free_roundtrip s zone count :
  pmm_inv s → 0 ≤ zone < PMM_ZONE_COUNT → 0 < count ≤ 2 ^ 20 →
  let '(phys, s1) := pmm_alloc_pages_in_zone s zone count in
  phys ≠ 0 →
  let s2 := pmm_free_pages s1 phys count in
  pmm_inv s2 ∧ free_pages s2 = free_pages s
  ∧ ∀ j, 0 ≤ j → pmm_bitmap_test s2 j = pmm_bitmap_test s j.
Proof.
  intros Hinv Hz Hc. change (2 ^ 20) with 1048576 in Hc.
  pose proof (alloc_pages_result s zone count Hinv Hz ltac:(lia)) as Hr.
  pose proof (alloc_pages_geometry s zone count) as Hg.
  destruct (pmm_alloc_pages_in_zone s zone count) as [phys s1]. simpl in Hg.
  destruct Hg as (Ht & Hm & _). intros Hp.
  destruct Hr as (Hinv1 & [[-> _]|(st & -> & _ & (R1 & R2 & R3 & R4 & _))]); [done|].
  rewrite index_to_page_eq, <- Hm by (done || lia).
  destruct (free_pages_result s1 st count) as (F1 & (F2 & _) & F4); try done; try lia.
  assert (∀ j, 0 ≤ j → pmm_bitmap_test (pmm_free_pages s1 (memory_start s1 + 4096 * st) count) j
    = pmm_bitmap_test s j) as Hj.
  { intros j Hj. rewrite F4, R4 by done. case_decide as Hd; [|done]. by destruct (R3 j Hd). }
  split_and!; try done. apply free_pages_of_test; try done. congruence.
Qed.

(** The product [i * PAGE_SIZE] of [pmm_free_pages] is computed in 32 bits:
    the iteration after the first 2^20 frees the first page of the run again
    instead of the next one. *)
Theorem pmm_free_pages_wraps s phys :
  0 ≤ phys < 2 ^ 64 →
  pmm_free_pages s phys (2 ^ 20 + 1) = pmm_free_page (pmm_free_pages s phys (2 ^ 20)) phys.
Proof.
  intros Hp. unfold pmm_free_pages. rewrite seqZ_app, foldl_app by done.
  change (seqZ (0 + 2 ^ 20) 1) with [2 ^ 20]. cbn [foldl].
  change (u32 (2 ^ 20 * PAGE_SIZE)) with 0. rewrite Z.add_0_r.
  unfold u64. by rewrite Z.mod_small.
Qed.

(** ** A concrete machine

    A machine of 16 page frames at 1 MiB, initialised from the static
    (zeroed) state with a bitmap buffer that holds garbage. *)
Definition bss_pmm : pmm_state :=
  mk_pmm 0 0 0 0 [] 0 0 [] (replicate 3 (mk_zone 0 0 0 [])) [] [] ∅ 0.

Definition demo_pmm : pmm_state :=
  (pmm_init bss_pmm 1048577 1118208 2097152 (replicate 1024 57005)).2.

Lemma demo_inv : pmm_inv demo_pmm.
Proof.
  pose proof (pmm_init_result bss_pmm 1048577 1118208 2097152 (replicate 1024 57005)) as H.
  unfold demo_pmm. destruct (pmm_init _ _ _ _ _) as [rc s'].
  by apply H.
Qed.

Lemma pmm_alloc_page_in_zone_correct_witness :
  let r := pmm_alloc_page_in_zone demo_pmm PMM_ZONE_LOW in
  r.1 = 1052672 ∧ pmm_inv r.2.
Proof.
  pose proof (pmm_alloc_page_in_zone_correct demo_pmm PMM_ZONE_LOW demo_inv ltac:(done)) as H.
  split; [by vm_compute|]. destruct (pmm_alloc_page_in_zone _ _). exact (proj1 H).
Defined.

Lemma pmm_free_page_correct_witness :
  pmm_inv (pmm_free_page (pmm_reserve_range demo_pmm 1056768 1060864) 1056768).
Proof.
  refine (proj1 (pmm_free_page_correct _ 1056768 _)).
  by apply pmm_reserve_range_result; [apply demo_inv|..].
Defined.

Lemma pmm_alloc_pages_in_zone_correct_witness :
  let r := pmm_alloc_pages_in_zone demo_pmm PMM_ZONE_LOW 5 in
  r.1 = 1052672 ∧ pmm_inv r.2.
Proof.
  pose proof (pmm_alloc_pages_in_zone_correct demo_pmm PMM_ZONE_LOW 5 demo_inv
    ltac:(done) ltac:(done)) as H.
  split; [by vm_compute|]. destruct (pmm_alloc_pages_in_zone _ _ _). exact (proj1 H).
Defined.

Lemma pmm_reserve_range_correct_witness :
  pmm_inv (pmm_reserve_range demo_pmm 1056769 1065000).
Proof. refine (proj1 (pmm_reserve_range_correct demo_pmm 1056769 1065000 demo_inv _ _)); done. Defined.

Lemma pmm_release_range_correct_witness :
  pmm_inv (pmm_release_range demo_pmm 1056769 1065000).
Proof. refine (proj1 (pmm_release_range_correct demo_pmm 1056769 1065000 demo_inv _ _)); done. Defined.

Lemma pmm_init_correct_witness :
  pmm_inv (pmm_init bss_pmm 1048576 1114112 2097152 (replicate 1024 1)).2.
Proof.
  pose proof (pmm_init_correct bss_pmm 1048576 1114112 2097152 (replicate 1024 1)) as H.
  destruct (pmm_init _ _ _ _ _) as [rc s']. by apply H.
Defined.

Lemma pmm_free_pages_correct_witness :
  pmm_inv (pmm_free_pages demo_pmm (pmm_index_to_page demo_pmm 3) 4).
Proof. refine (proj1 (pmm_free_pages_correct demo_pmm 3 4 demo_inv _ _ _)); by vm_compute. Defined.

Lemma pmm_alloc_free_roundtrip_witness :
  let r := pmm_alloc_pages_in_zone demo_pmm PMM_ZONE_LOW 5 in
  free_pages (pmm_free_pages r.2 r.1 5) = 16.
Proof.
  pose proof (pmm_alloc_free_roundtrip demo_pmm PMM_ZONE_LOW 5 demo_inv
    ltac:(done) ltac:(done)) as H.
  assert ((pmm_alloc_pages_in_zone demo_pmm PMM_ZONE_LOW 5).1 = 1052672) as Hp by (by vm_compute).
  destruct (pmm_alloc_pages_in_zone _ _ _) as [p s1]. cbn [fst snd] in *.
  assert (p ≠ 0) as Hne by lia. rewrite (proj1 (proj2 (H Hne))). by vm_compute.
Defined.

Lemma pmm_free_pages_wraps_witness :
  pmm_free_pages demo_pmm 1048576 (2 ^ 20 + 1)
    = pmm_free_page (pmm_free_pages demo_pmm 1048576 (2 ^ 20)) 1048576.
Proof. apply (pmm_free_pages_wraps demo_pmm 1048576). done. Defined.

End PmmInit.
