(* ===== verification/KString.v ===== *)
(** * String and memory routines (kernel/common/string.c)

    Memory is a byte store [bytes]; a pointer is an address.  A routine whose
    loop is bounded by a byte count folds over the offsets.  A routine whose
    loop stops at a terminator takes fuel and returns [None] when the fuel
    runs out; the theorems show that the length of the string is enough. *)

From stdpp Require Import base gmap list numbers fin_maps.
From S2P Require Import Prelude.

Module KString.

Abbreviation bytes := (gmap Z Z).

(** ** Definitions *)

(** [while (str[len] != 0) len++;] *)
Fixpoint strlen_loop (fuel : nat) (m : bytes) (str len : Z) : option Z :=
  match fuel with
  | O => None
  | S fuel => if m !!! (str + len) =? 0 then Some len
              else strlen_loop fuel m str (len + 1)
  end.

Definition strlen (fuel : nat) (m : bytes) (str : Z) : option Z :=
  strlen_loop fuel m str 0.

Fixpoint strcpy (fuel : nat) (m : bytes) (d src : Z) : option bytes :=
  match fuel with
  | O => None
  | S fuel => if m !!! src =? 0 then Some (<[d := 0]> m)
              else strcpy fuel (<[d := m !!! src]> m) (d + 1) (src + 1)
  end.

(** The copying loop of [strncpy] runs [n] times at most; [n] is the number
    of bytes left, and the padding loop writes what remains. *)
Fixpoint strncpy_pad (n : nat) (m : bytes) (d : Z) : bytes :=
  match n with
  | O => m
  | S n => strncpy_pad n (<[d := 0]> m) (d + 1)
  end.

Fixpoint strncpy (n : nat) (m : bytes) (d src : Z) : bytes :=
  match n with
  | O => m
  | S n' => if m !!! src =? 0 then strncpy_pad n m d
            else strncpy n' (<[d := m !!! src]> m) (d + 1) (src + 1)
  end.

(** The pointers at which [while ( *s1 && *s2 && *s1 == *s2)] stops. *)
Fixpoint cmp_loop (fuel : nat) (m : bytes) (s1 s2 : Z) : option (Z * Z) :=
  match fuel with
  | O => None
  | S fuel =>
      if negb (m !!! s1 =? 0) && negb (m !!! s2 =? 0) && (m !!! s1 =? m !!! s2)
      then cmp_loop fuel m (s1 + 1) (s2 + 1)
      else Some (s1, s2)
  end.

Definition strcmp (fuel : nat) (m : bytes) (s1 s2 : Z) : option Z :=
  match cmp_loop fuel m s1 s2 with
  | Some (s1, s2) => Some (m !!! s1 - m !!! s2)
  | None => None
  end.

Fixpoint strncmp (n : nat) (m : bytes) (s1 s2 : Z) : Z :=
  match n with
  | O => 0
  | S n =>
      if negb (m !!! s1 =? 0) && negb (m !!! s2 =? 0) && (m !!! s1 =? m !!! s2)
      then strncmp n m (s1 + 1) (s2 + 1)
      else m !!! s1 - m !!! s2
  end.

(** A returned pointer, or [None] for [NULL]; the outer option is the fuel. *)
Fixpoint strchr (fuel : nat) (m : bytes) (str c : Z) : option (option Z) :=
  match fuel with
  | O => None
  | S fuel =>
      if m !!! str =? 0 then Some (if c =? 0 then Some str else None)
      else if m !!! str =? u8 c then Some (Some str)
      else strchr fuel m (str + 1) c
  end.

Fixpoint strstr_loop (fuel : nat) (m : bytes) (haystack needle : Z) : option (option Z) :=
  match fuel with
  | O => None
  | S fuel' =>
      if m !!! haystack =? 0 then Some None
      else
        match cmp_loop fuel m haystack needle with
        | None => None
        | Some (h, n) =>
            if m !!! n =? 0 then Some (Some haystack)
            else strstr_loop fuel' m (haystack + 1) needle
        end
  end.

Definition strstr (fuel : nat) (m : bytes) (haystack needle : Z) : option (option Z) :=
  if m !!! needle =? 0 then Some (Some haystack) else strstr_loop fuel m haystack needle.

Definition memset (m : bytes) (ptr value size : Z) : bytes :=
  foldl (λ m i, <[ptr + i := u8 value]> m) m (seqZ 0 size).

Definition copy_byte (dest src : Z) (m : bytes) (i : Z) : bytes :=
  <[dest + i := m !!! (src + i)]> m.

Definition memcpy (m : bytes) (dest src size : Z) : bytes :=
  foldl (copy_byte dest src) m (seqZ 0 size).

Definition memmove (m : bytes) (dest src size : Z) : bytes :=
  if dest <? src then foldl (copy_byte dest src) m (seqZ 0 size)
  else if src <? dest then foldl (copy_byte dest src) m (reverse (seqZ 0 size))
  else m.

Fixpoint memcmp (n : nat) (m : bytes) (p1 p2 : Z) : Z :=
  match n with
  | O => 0
  | S n => if m !!! p1 =? m !!! p2 then memcmp n m (p1 + 1) (p2 + 1)
           else m !!! p1 - m !!! p2
  end.

(** ** Specification

    [cstr m p s]: the bytes [s], none of them zero, and a terminator lie at
    [p].  [str_compare] is the order of C strings on lists of bytes. *)
Fixpoint cstr (m : bytes) (p : Z) (s : list Z) : Prop :=
  match s with
  | [] => m !!! p = 0
  | c :: s => m !!! p = c ∧ 0 < c < 256 ∧ cstr m (p + 1) s
  end.

Fixpoint str_compare (s1 s2 : list Z) : Z :=
  match s1, s2 with
  | [], [] => 0
  | [], c :: _ => - c
  | c :: _, [] => c
  | c :: s1, d :: s2 => if c =? d then str_compare s1 s2 else c - d
  end.

Definition arr (m : bytes) (p n : Z) : list Z := (λ i, m !!! (p + i)) <$> seqZ 0 n.

(** ** Memory routines *)
Lemma lookup_total_insert_Z (m : bytes) i j x :
  <[i := x]> m !!! j = if decide (i = j) then x else m !!! j.
Proof.
  destruct (decide (i = j)) as [->|].
  - apply lookup_total_insert_eq.
  - by apply lookup_total_insert_ne.
Qed.

Lemma memset_at m ptr v n a :
  0 ≤ n → memset m ptr v n !!! a = if decide (ptr ≤ a < ptr + n) then u8 v else m !!! a.
Proof.
  intros Hn. unfold memset. rewrite <- (Z2Nat.id n) by done.
  induction (Z.to_nat n) as [|k IH]; [simpl; by rewrite decide_False by lia|].
  rewrite Nat2Z.inj_succ, <- Z.add_1_r, seqZ_app, foldl_app by lia.
  change (seqZ (0 + Z.of_nat k) 1) with [Z.of_nat k]. cbn [foldl].
  rewrite lookup_total_insert_Z, IH. repeat case_decide; done || lia.
Qed.

(** An ascending copy reads a byte before it overwrites it as long as the
    destination is not above the source or does not reach into it. *)
Lemma copy_up m dest src n a :
  0 ≤ n → dest < src ∨ src + n ≤ dest →
  foldl (copy_byte dest src) m (seqZ 0 n) !!! a
    = if decide (dest ≤ a < dest + n) then m !!! (src + (a - dest)) else m !!! a.
Proof.
  intros Hn. rewrite <- (Z2Nat.id n) by done. revert a.
  induction (Z.to_nat n) as [|k IH]; intros a Hd; [simpl; by rewrite decide_False by lia|].
  rewrite Nat2Z.inj_succ, <- Z.add_1_r in *. rewrite seqZ_app, foldl_app by lia.
  change (seqZ (0 + Z.of_nat k) 1) with [Z.of_nat k]. cbn [foldl]. unfold copy_byte at 1.
  rewrite lookup_total_insert_Z, !IH by lia. rewrite (decide_False (P := dest ≤ src + _ < _)) by lia.
  repeat case_decide; subst; try lia; try done. f_equal. lia.
Qed.

Lemma copy_down m dest src j (n : nat) a :
  src < dest →
  foldl (copy_byte dest src) m (reverse (seqZ j (Z.of_nat n))) !!! a
    = if decide (dest + j ≤ a < dest + j + Z.of_nat n) then m !!! (src + (a - dest)) else m !!! a.
Proof.
  intros Hd. revert j a. induction n as [|n IH]; intros j a; [simpl; by rewrite decide_False by lia|].
  rewrite seqZ_cons by lia. replace (Z.pred (Z.of_nat (S n))) with (Z.of_nat n) by lia.
  rewrite reverse_cons, foldl_app. cbn [foldl]. unfold copy_byte at 1.
  rewrite lookup_total_insert_Z, !IH. rewrite (decide_False (P := dest + _ ≤ src + j < _)) by lia.
  repeat case_decide; subst; try lia; try done. f_equal. lia.
Qed.

(** [memmove] copies the [size] source bytes as they were before the call,
    also when the two areas overlap, and changes nothing else. *)
Theorem memmove_correct m dest src size a :
  0 ≤ size →
  memmove m dest src size !!! a
    = if decide (dest ≤ a < dest + size) then m !!! (src + (a - dest)) else m !!! a.
Proof.
  intros Hs. unfold memmove. case_if; [bool_hyps; apply copy_up; lia|].
  case_if; bool_hyps.
  - rewrite <- (Z2Nat.id size) at 1 by done. rewrite copy_down by lia.
    rewrite Z2Nat.id by done. by rewrite Z.add_0_r.
  - assert (dest = src) as -> by lia. case_decide; [|done]. f_equal. lia.
Qed.

Lemma memcpy_at m dest src size a :
  0 ≤ size → dest + size ≤ src ∨ src + size ≤ dest →
  memcpy m dest src size !!! a
    = if decide (dest ≤ a < dest + size) then m !!! (src + (a - dest)) else m !!! a.
Proof.
  intros Hs Hd. destruct (decide (size = 0)) as [->|]; [by rewrite decide_False by lia|].
  apply copy_up; lia.
Qed.

(** ** String routines *)
Lemma cstr_frame m m' p s :
  (∀ a, p ≤ a ≤ p + Z.of_nat (length s) → m' !!! a = m !!! a) → cstr m p s → cstr m' p s.
Proof.
  revert p. induction s as [|c s IH]; intros p Hm; cbn [cstr length] in *.
  - intros <-. apply Hm. lia.
  - intros (<- & Hc & Hs). split; [apply Hm; lia|]. split; [done|]. apply IH; [|done].
    intros a Ha. apply Hm. lia.
Qed.

Lemma strlen_loop_spec fuel m p len s :
  cstr m (p + len) s → (length s < fuel)%nat →
  strlen_loop fuel m p len = Some (len + Z.of_nat (length s)).
Proof.
  revert len s. induction fuel as [|fuel IH]; intros len s Hs Hf; [lia|].
  destruct s as [|c s]; cbn [cstr strlen_loop length] in *.
  - rewrite Hs. simpl. f_equal. lia.
  - destruct Hs as (Hc & Hc' & Hs). rewrite (proj2 (Z.eqb_neq _ _)) by lia.
    rewrite (IH (len + 1) s); [f_equal; lia| |lia]. by rewrite Z.add_assoc.
Qed.

(** [strlen] returns the number of bytes before the terminator. *)
Theorem strlen_correct fuel m p s :
  cstr m p s → (length s < fuel)%nat → strlen fuel m p = Some (Z.of_nat (length s)).
Proof.
  intros Hs Hf. unfold strlen. rewrite (strlen_loop_spec _ _ _ _ s); [f_equal; lia| |done].
  by rewrite Z.add_0_r.
Qed.

Lemma strcmp_spec fuel m p1 p2 s1 s2 :
  cstr m p1 s1 → cstr m p2 s2 → (length s1 < fuel)%nat →
  strcmp fuel m p1 p2 = Some (str_compare s1 s2).
Proof.
  unfold strcmp. revert p1 p2 s1 s2. induction fuel as [|fuel IH]; intros p1 p2 s1 s2 H1 H2 Hf; [lia|].
  destruct s1 as [|c s1], s2 as [|d s2]; cbn [cstr cmp_loop length str_compare] in *;
    repeat match goal with H : _ ∧ _ |- _ => destruct H end; subst.
  - rewrite H1, H2. simpl. by rewrite H1, H2.
  - rewrite H1. simpl. by rewrite H1.
  - rewrite H2. rewrite (proj2 (Z.eqb_neq _ 0)) by lia. simpl. rewrite H2. f_equal. lia.
  - rewrite !(proj2 (Z.eqb_neq _ 0)) by lia. cbn [negb andb]. case_if; [|done].
    apply IH; done || lia.
Qed.

Lemma str_compare_zero s1 s2 :
  Forall (λ c, 0 < c < 256) s1 → Forall (λ c, 0 < c < 256) s2 →
  str_compare s1 s2 = 0 ↔ s1 = s2.
Proof.
  revert s2. induction s1 as [|c s1 IH]; intros [|d s2] H1 H2; cbn [str_compare]; try done.
  - inversion H2; subst. split; [lia|done].
  - inversion H1; subst. split; [lia|done].
  - inversion H1; inversion H2; subst. case_if; bool_hyps.
    + subst. rewrite IH by done. split; [congruence|by intros [=]].
    + split; [lia|by intros [=]].
Qed.

Lemma cstr_bytes m p s : cstr m p s → Forall (λ c, 0 < c < 256) s.
Proof. revert p. induction s as [|c s IH]; intros p; [done|]. intros (_ & ? & Hs). by eauto. Qed.

(** [strcmp] returns the difference of the first bytes in which the strings
    differ, read as unsigned; it is zero exactly on equal strings. *)
Theorem strcmp_correct fuel m p1 p2 s1 s2 :
  cstr m p1 s1 → cstr m p2 s2 → (length s1 < fuel)%nat →
  strcmp fuel m p1 p2 = Some (str_compare s1 s2) ∧ (strcmp fuel m p1 p2 = Some 0 ↔ s1 = s2).
Proof.
  intros H1 H2 Hf. rewrite (strcmp_spec _ _ _ _ s1 s2) by done. split; [done|].
  rewrite <- str_compare_zero by (by eapply cstr_bytes). split; [by intros [=]|by intros ->].
Qed.

(** [strcpy] into a buffer that does not overlap the source makes the
    destination the same string and writes nothing outside it. *)
Lemma strcpy_spec fuel m d src s :
  cstr m src s → (length s < fuel)%nat →
  d + Z.of_nat (length s) < src ∨ src + Z.of_nat (length s) < d →
  ∃ m', strcpy fuel m d src = Some m' ∧ cstr m' d s
        ∧ ∀ a, ¬ (d ≤ a ≤ d + Z.of_nat (length s)) → m' !!! a = m !!! a.
Proof.
  revert fuel m d src. induction s as [|c s IH]; intros [|fuel] m d src Hs Hf Hd;
    cbn [cstr strcpy length] in *; try lia.
  - rewrite Hs. eexists. split; [done|]. split; [by rewrite lookup_total_insert_Z, decide_True|].
    intros a Ha. rewrite lookup_total_insert_Z, decide_False by lia. done.
  - destruct Hs as (Hc & Hc' & Hs). rewrite (proj2 (Z.eqb_neq _ 0)) by lia.
    destruct (IH fuel (<[d := m !!! src]> m) (d + 1) (src + 1)) as (m' & -> & Hd' & Hfr); try lia.
    { eapply cstr_frame; [|exact Hs]. intros a Ha.
      by rewrite lookup_total_insert_Z, decide_False by lia. }
    exists m'. split; [done|]. split.
    + rewrite Hfr, lookup_total_insert_Z, decide_True by lia. done.
    + intros a Ha. by rewrite Hfr, lookup_total_insert_Z, decide_False by lia.
Qed.

(** The reference for [strstr]: the first position at which the needle is a
    prefix of the rest of the haystack. *)
Fixpoint is_prefix (n h : list Z) : bool :=
  match n, h with
  | [], _ => true
  | _, [] => false
  | c :: n, d :: h => (c =? d) && is_prefix n h
  end.

Fixpoint find_sub (n h : list Z) : option Z :=
  if is_prefix n h then Some 0
  else match h with
       | [] => None
       | _ :: h => Z.succ <$> find_sub n h
       end.

Lemma is_prefix_spec n h : is_prefix n h = true ↔ n `prefix_of` h.
Proof.
  revert h. induction n as [|c n IH]; intros [|d h]; cbn [is_prefix].
  - split; [by exists []|done].
  - split; [by eexists|done].
  - split; [done|]. by intros [? [=]].
  - rewrite andb_true_iff, Z.eqb_eq, IH. split.
    + intros [-> ?]. by apply prefix_cons.
    + intros Hp. split; [by apply prefix_cons_inv_1 in Hp|by apply prefix_cons_inv_2 in Hp].
Qed.

Lemma cmp_loop_spec fuel m p1 p2 h n :
  cstr m p1 h → cstr m p2 n → (length h < fuel)%nat →
  ∃ q1 q2, cmp_loop fuel m p1 p2 = Some (q1, q2) ∧ (m !!! q2 =? 0) = is_prefix n h.
Proof.
  revert p1 p2 h n. induction fuel as [|fuel IH]; intros p1 p2 h n H1 H2 Hf; [lia|].
  destruct h as [|c h], n as [|d n]; cbn [cstr cmp_loop length is_prefix] in *;
    repeat match goal with H : _ ∧ _ |- _ => destruct H end; subst.
  - rewrite H1. cbn. do 2 eexists. split; [done|]. by rewrite H2.
  - rewrite H1. cbn. do 2 eexists. split; [done|]. apply Z.eqb_neq. lia.
  - rewrite H2. rewrite andb_false_r. cbn. do 2 eexists. split; [done|]. by rewrite H2.
  - rewrite !(proj2 (Z.eqb_neq _ 0)) by lia. cbn [negb andb]. rewrite (Z.eqb_sym (m !!! p1)).
    destruct (m !!! p2 =? m !!! p1); cbn [andb].
    + apply IH; done || lia.
    + do 2 eexists. split; [done|]. apply Z.eqb_neq. lia.
Qed.

(** [strstr] returns the first occurrence of the needle, or [NULL] when the
    needle does not occur. *)
Theorem strstr_correct fuel m p1 p2 h n :
  cstr m p1 h → cstr m p2 n → (length h < fuel)%nat →
  strstr fuel m p1 p2 = Some (Z.add p1 <$> find_sub n h).
Proof.
  intros H1 H2 Hf. unfold strstr. destruct n as [|c n].
  { cbn [cstr] in H2. rewrite H2. destruct h; cbn; by rewrite Z.add_0_r. }
  rewrite (proj2 (Z.eqb_neq _ 0)) by (cbn [cstr] in H2; lia).
  revert p1 h H1 Hf. induction fuel as [|fuel IH]; intros p1 h H1 Hf; [lia|].
  destruct (cmp_loop_spec (S fuel) m p1 p2 h (c :: n)) as (q1 & q2 & Hq & Hp); try done.
  cbn [strstr_loop]. rewrite Hq, Hp. destruct h as [|d h]; cbn [cstr] in H1.
  - by rewrite H1.
  - rewrite (proj2 (Z.eqb_neq _ 0)) by lia. destruct H1 as (_ & _ & H1).
    change (find_sub (c :: n) (d :: h)) with
      (if is_prefix (c :: n) (d :: h) then Some 0 else Z.succ <$> find_sub (c :: n) h).
    destruct (is_prefix (c :: n) (d :: h)); [cbn; by rewrite Z.add_0_r|].
    rewrite (IH (p1 + 1) h) by (done || cbn in Hf; lia).
    destruct (find_sub (c :: n) h); cbn; [|done]. do 2 f_equal. lia.
Qed.

(** ** Instances: the strings "abc" at 16 and "bc" at 32 *)
Definition demo_bytes : bytes :=
  list_to_map [(16, 97); (17, 98); (18, 99); (19, 0); (32, 98); (33, 99); (34, 0)].

Lemma memmove_correct_witness :
  memmove demo_bytes 17 16 3 !!! 19 = 99 ∧ memmove demo_bytes 17 16 3 !!! 17 = 97.
Proof.
  split; (etrans; [apply (memmove_correct demo_bytes 17 16 3); lia|by vm_compute]).
Defined.

Lemma strlen_correct_witness : strlen 4 demo_bytes 16 = Some 3.
Proof. apply (strlen_correct 4 demo_bytes 16 [97; 98; 99]); [by vm_compute|cbn; lia]. Defined.

Lemma strcmp_correct_witness : strcmp 4 demo_bytes 16 32 = Some (-1).
Proof.
  apply (strcmp_correct 4 demo_bytes 16 32 [97; 98; 99] [98; 99]); [by vm_compute..|cbn; lia].
Defined.

Lemma strstr_correct_witness : strstr 4 demo_bytes 16 32 = Some (Some 17).
Proof.
  apply (strstr_correct 4 demo_bytes 16 32 [97; 98; 99] [98; 99]); [by vm_compute..|cbn; lia].
Defined.

End KString.
