(* ===== verification/Heap.v ===== *)
(** * Kernel heap (kernel/common/heap.c)

    The heap is modelled at pointer level: [blocks] maps the address of a
    block header to the header, with [next] and [prev] addresses and 0 for
    [NULL], and [hbytes] is the byte store behind the payloads.  The pages
    come from a page source, the interface [PageOps]; [vmm_alloc_pages]
    implements it in [Memory].

    The interrupt level raised around each operation makes it atomic on the
    single CPU of the system, and is left out.  A header is read with a
    default where the address holds none: the theorems speak of addresses of
    the list.  A list walk gets as fuel one more than the number of headers
    ever written; running out of it, a walk on a cyclic list that never
    ends, is reported as [Panic]. *)

From stdpp Require Import base gmap list numbers fin_maps.
From S2P Require Import Prelude KString.

(** ** The page source a heap draws from

    [page_alloc p count] is the address of [count] fresh contiguous pages, 0
    when there are none.  The laws are in [HeapFacts]. *)
Class PageOps (P : Type) := page_alloc : P → Z → Z * P.

Module Heap.
Import KString.

(** [sizeof(heap_block_t)] on x86_64: 8 + 1 (padded to 8) + 8 + 8. *)
Definition SIZEOF_BLOCK : Z := 32.

Record heap_block_t := mk_block {
  b_size : Z;
  b_free : bool;
  b_next : Z;
  b_prev : Z
}.

#[export] Instance block_eta : EtaRecord heap_block_t :=
  λ b, mk_block (b_size b) (b_free b) (b_next b) (b_prev b).
#[export] Instance block_inhabited : Inhabited heap_block_t := populate (mk_block 0 false 0 0).

Section heap.
Context {P : Type} `{PageOps P}.

Record heap_state := mk_heap {
  blocks : gmap Z heap_block_t;
  heap_head : Z;
  heap_tail : Z;
  hbytes : bytes;
  source : P
}.

#[export] Instance heap_eta : EtaRecord heap_state :=
  λ h, mk_heap (blocks h) (heap_head h) (heap_tail h) (hbytes h) (source h).

Definition blk (h : heap_state) (a : Z) : heap_block_t := blocks h !!! a.

(** Assignment to fields of the header at [a]. *)
Definition blk_upd (a : Z) (f : heap_block_t → heap_block_t) (h : heap_state) : heap_state :=
  h <| blocks ::= λ bm, <[a := f (bm !!! a)]> bm |>.

Definition walk_fuel (h : heap_state) : nat := S (size (blocks h)).

Fixpoint in_list_loop (fuel : nat) (bm : gmap Z heap_block_t) (needle cur guard : Z)
    : outcome bool :=
  match fuel with
  | O => Panic
  | S fuel =>
      if cur =? 0 then Done false
      else if cur =? needle then Done true
      else
        let guard := guard +₃₂ 1 in
        if 1000000 <? guard then Done false
        else in_list_loop fuel bm needle (b_next (bm !!! cur)) guard
  end.

Definition heap_block_in_list (h : heap_state) (needle : Z) : outcome bool :=
  if needle =? 0 then Done false
  else in_list_loop (walk_fuel h) (blocks h) needle (heap_head h) 0.

Definition heap_align (size : Z) : Z := Z.land (size +₆₄ 16 -₆₄ 1) (not64 15).

Definition heap_insert_block (h : heap_state) (block : Z) : heap_state :=
  let h := blk_upd block (λ b, b <| b_next := 0 |>) h in
  let h := blk_upd block (λ b, b <| b_prev := heap_tail h |>) h in
  let h :=
    if negb (heap_tail h =? 0)
    then blk_upd (heap_tail h) (λ b, b <| b_next := block |>) h
    else h <| heap_head := block |> in
  h <| heap_tail := block |>.

Definition heap_merge_next (h : heap_state) (block : Z) : heap_state :=
  let nx := b_next (blk h block) in
  if negb (nx =? 0) && b_free (blk h nx)
     && (block +₆₄ SIZEOF_BLOCK +₆₄ b_size (blk h block) =? nx)
  then
    let h := blk_upd block (λ b, b <| b_size ::= λ s, s +₆₄ (SIZEOF_BLOCK +₆₄ b_size (blk h nx)) |>) h in
    let h := blk_upd block (λ b, b <| b_next := b_next (blk h nx) |>) h in
    if negb (b_next (blk h nx) =? 0)
    then blk_upd (b_next (blk h nx)) (λ b, b <| b_prev := block |>) h
    else h <| heap_tail := block |>
  else h.

Definition heap_merge_prev (h : heap_state) (block : Z) : heap_state :=
  let pv := b_prev (blk h block) in
  if negb (pv =? 0) && b_free (blk h pv)
     && (pv +₆₄ SIZEOF_BLOCK +₆₄ b_size (blk h pv) =? block)
  then
    let h := blk_upd pv (λ b, b <| b_size ::= λ s, s +₆₄ (SIZEOF_BLOCK +₆₄ b_size (blk h block)) |>) h in
    let h := blk_upd pv (λ b, b <| b_next := b_next (blk h block) |>) h in
    if negb (b_next (blk h block) =? 0)
    then blk_upd (b_next (blk h block)) (λ b, b <| b_prev := pv |>) h
    else h <| heap_tail := pv |>
  else h.

Definition heap_merge_if_possible (h : heap_state) (block : Z) : heap_state :=
  if block =? 0 then h else heap_merge_prev (heap_merge_next h block) block.

Fixpoint find_fit_loop (fuel : nat) (bm : gmap Z heap_block_t) (cur size : Z) : outcome Z :=
  match fuel with
  | O => Panic
  | S fuel =>
      if cur =? 0 then Done 0
      else if b_free (bm !!! cur) && (size <=? b_size (bm !!! cur)) then Done cur
      else find_fit_loop fuel bm (b_next (bm !!! cur)) size
  end.

Definition heap_find_fit (h : heap_state) (size : Z) : outcome Z :=
  find_fit_loop (walk_fuel h) (blocks h) (heap_head h) size.

Definition heap_split_block (h : heap_state) (block size : Z) : heap_state :=
  let aligned := heap_align size in
  if b_size (blk h block) <=? aligned +₆₄ SIZEOF_BLOCK +₆₄ 16 then h
  else
    let next := block +₆₄ SIZEOF_BLOCK +₆₄ aligned in
    let b := blk h block in
    let h := h <| blocks ::= <[next := mk_block (b_size b -₆₄ aligned -₆₄ SIZEOF_BLOCK)
                                         true (b_next b) block]> |> in
    let h :=
      if negb (b_next (blk h block) =? 0)
      then blk_upd (b_next (blk h block)) (λ b, b <| b_prev := next |>) h
      else h <| heap_tail := next |> in
    let h := blk_upd block (λ b, b <| b_next := next |>) h in
    blk_upd block (λ b, b <| b_size := aligned |>) h.

Definition heap_grow (h : heap_state) (min_size : Z) : outcome (Z * heap_state) :=
  let total := heap_align min_size +₆₄ SIZEOF_BLOCK in
  let pages := align_up total / PAGE_SIZE in
  let pages := if pages =? 0 then 1 else pages in
  let '(mem, p') := page_alloc (source h) (u32 pages) in
  let h := h <| source := p' |> in
  if mem =? 0 then Panic
  else
    let h := h <| blocks ::= <[mem := mk_block (pages *₆₄ PAGE_SIZE -₆₄ SIZEOF_BLOCK) true 0 0]> |> in
    let h := heap_insert_block h mem in
    let pv := b_prev (blk h mem) in
    if negb (pv =? 0) && b_free (blk h pv)
       && (pv +₆₄ SIZEOF_BLOCK +₆₄ b_size (blk h pv) =? mem)
    then let h := heap_merge_if_possible h pv in Done (b_prev (blk h mem), h)
    else Done (mem, h).

Definition heap_init (h : heap_state) (initial_pages : Z) : outcome (Z * heap_state) :=
  if negb (heap_head h =? 0) then Done (RDNX_OK, h)
  else
    let initial_pages := if initial_pages =? 0 then 16 else initial_pages in
    let '(mem, p') := page_alloc (source h) (u32 initial_pages) in
    let h := h <| source := p' |> in
    if mem =? 0 then Panic
    else
      let h := h <| blocks ::= <[mem := mk_block (initial_pages *₆₄ PAGE_SIZE -₆₄ SIZEOF_BLOCK)
                                          true 0 0]> |> in
      Done (RDNX_OK, h <| heap_head := mem |> <| heap_tail := mem |>).

Definition kmalloc (h : heap_state) (size : Z) : outcome (Z * heap_state) :=
  if size =? 0 then Done (0, h)
  else
    let aligned := heap_align size in
    let! block := heap_find_fit h aligned in
    let! (block, h) := if block =? 0 then heap_grow h aligned else Done (block, h) in
    if block =? 0 then Done (0, h)
    else
      let h := heap_split_block h block aligned in
      let h := blk_upd block (λ b, b <| b_free := false |>) h in
      Done (block +₆₄ SIZEOF_BLOCK, h).

Definition kfree (h : heap_state) (ptr : Z) : outcome heap_state :=
  if ptr =? 0 then Done h
  else
    let block := ptr -₆₄ SIZEOF_BLOCK in
    let! ok := heap_block_in_list h block in
    if negb ok then Panic
    else if b_free (blk h block) then Panic
    else
      let h := blk_upd block (λ b, b <| b_free := true |>) h in
      Done (heap_merge_if_possible h block).

Definition kcalloc (h : heap_state) (count size : Z) : outcome (Z * heap_state) :=
  if (count =? 0) || (size =? 0) then Done (0, h)
  else
    let total := count *₆₄ size in
    if negb (total / size =? count) then Done (0, h)
    else
      let! (mem, h) := kmalloc h total in
      if mem =? 0 then Done (0, h)
      else Done (mem, h <| hbytes ::= λ m, memset m mem 0 total |>).

Definition krealloc (h : heap_state) (ptr new_size : Z) : outcome (Z * heap_state) :=
  if ptr =? 0 then kmalloc h new_size
  else if new_size =? 0 then let! h := kfree h ptr in Done (0, h)
  else
    let block := ptr -₆₄ SIZEOF_BLOCK in
    if new_size <=? b_size (blk h block) then Done (ptr, heap_split_block h block new_size)
    else
      let! (new_mem, h) := kmalloc h new_size in
      if new_mem =? 0 then Done (0, h)
      else
        let h := h <| hbytes ::= λ m, memcpy m new_mem ptr (b_size (blk h block)) |> in
        let! h := kfree h ptr in
        Done (new_mem, h).

End heap.
Arguments heap_state P : clear implicits.
Arguments mk_heap {P}.
End Heap.
