(* ===== verification/HeapFacts.v ===== *)
(** * Kernel heap: representation, invariant and theorems

    The pointer structure of [Heap] represents a list of abstract blocks in
    list order.  Each pointer operation is shown to implement an operation on
    that list, and the theorems speak of the live blocks: [kmalloc] adds one,
    [kfree] removes one, and no byte belongs to two blocks. *)

From stdpp Require Import base gmap list numbers fin_maps.
From S2P Require Import Prelude KString Heap.

(** ** Laws of a page source

    [owned p x]: the byte at address [x] has been handed out. *)
Class PageSource (P : Type) `{PageOps P} := {
  source_ok : P → Prop;
  owned : P → Z → Prop;
  page_alloc_fresh p count v p' :
    source_ok p → 0 < count < 2 ^ 32 → page_alloc p count = (v, p') → v ≠ 0 →
    source_ok p' ∧ 0 < v ∧ v mod 4096 = 0 ∧ v + 4096 * count < 2 ^ 64
    ∧ (∀ x, v ≤ x < v + 4096 * count → ¬ owned p x ∧ owned p' x)
    ∧ (∀ x, owned p x → owned p' x)
}.

Module HeapFacts.
Import KString Heap.

(** ** Abstract blocks *)
Record ablock := AB { a_addr : Z; a_size : Z; a_free : bool }.

#[export] Instance ablock_eta : EtaRecord ablock := λ b, AB (a_addr b) (a_size b) (a_free b).

Definition hd_addr (n : Z) (A : list ablock) : Z :=
  match A with [] => n | b :: _ => a_addr b end.

Fixpoint last_addr (p : Z) (A : list ablock) : Z :=
  match A with [] => p | b :: A => last_addr (a_addr b) A end.

(** [seg bm p A n]: the headers of [A] are linked in order, the first one back
    to [p] and the last one on to [n]. *)
Fixpoint seg (bm : gmap Z heap_block_t) (p : Z) (A : list ablock) (n : Z) : Prop :=
  match A with
  | [] => True
  | b :: A =>
      bm !! a_addr b = Some (mk_block (a_size b) (a_free b) (hd_addr n A) p)
      ∧ seg bm (a_addr b) A n
  end.

Definition addrs (A : list ablock) : list Z := a_addr <$> A.

Lemma hd_addr_app n A1 A2 : hd_addr n (A1 ++ A2) = hd_addr (hd_addr n A2) A1.
Proof. by destruct A1. Qed.

Lemma last_addr_app p A1 A2 : last_addr p (A1 ++ A2) = last_addr (last_addr p A1) A2.
Proof. revert p. induction A1; simpl; auto. Qed.

Lemma seg_app bm p A1 A2 n :
  seg bm p (A1 ++ A2) n ↔ seg bm p A1 (hd_addr n A2) ∧ seg bm (last_addr p A1) A2 n.
Proof.
  revert p. induction A1 as [|b A1 IH]; intros p; simpl; [tauto|].
  rewrite IH, hd_addr_app. tauto.
Qed.

Lemma seg_ext bm bm' p A n :
  (∀ a, a ∈ addrs A → bm' !! a = bm !! a) → seg bm p A n → seg bm' p A n.
Proof.
  revert p. induction A as [|b A IH]; intros p Hext; simpl; [done|]. intros [Hb HA].
  split; [rewrite Hext; [done|by left]|]. apply IH; [|done]. intros a Ha. apply Hext. by right.
Qed.

Lemma seg_insert_ne bm x v p A n :
  x ∉ addrs A → seg bm p A n → seg (<[x := v]> bm) p A n.
Proof. intros Hx. apply seg_ext. intros a Ha. rewrite lookup_insert_ne; [done|by intros ->]. Qed.

(** Redirecting the first header of a segment back to [q]. *)
Lemma seg_set_prev bm p q b A n :
  NoDup (addrs (b :: A)) → seg bm p (b :: A) n →
  seg (<[a_addr b := (bm !!! a_addr b) <| b_prev := q |>]> bm) q (b :: A) n.
Proof.
  cbn. intros [Hb _]%NoDup_cons [Hl HA]. split.
  - rewrite lookup_insert_eq, (lookup_total_correct _ _ _ Hl). done.
  - by apply seg_insert_ne.
Qed.

(** ** Footprints

    The number of blocks that contain the byte [x], header included.  That it
    is at most one everywhere says that blocks are disjoint; splitting and
    merging keep it unchanged, so no byte is lost or duplicated. *)
Definition covers (b : ablock) (x : Z) : Z :=
  if decide (a_addr b ≤ x < a_addr b + 32 + a_size b) then 1 else 0.

Fixpoint cover (A : list ablock) (x : Z) : Z :=
  match A with [] => 0 | b :: A => covers b x + cover A x end.

Definition block_ok (b : ablock) : Prop :=
  0 < a_addr b ∧ a_addr b mod 16 = 0 ∧ 0 ≤ a_size b ∧ a_size b mod 16 = 0
  ∧ a_addr b + 32 + a_size b < 18446744073709551616.

(** The bounds of every well-formed block in the context. *)
Ltac ok_facts :=
  repeat match goal with Hok : block_ok _ |- _ => destruct Hok as (? & ? & ? & ? & ?) end.

Record awf (A : list ablock) : Prop := {
  awf_ok : Forall block_ok A;
  awf_disj : ∀ x, cover A x ≤ 1
}.

Lemma covers_range b x : 0 ≤ covers b x ≤ 1.
Proof. unfold covers. case_decide; lia. Qed.

Lemma cover_nonneg A x : 0 ≤ cover A x.
Proof. induction A as [|b A IH]; simpl; [done|]. pose proof (covers_range b x). lia. Qed.

Lemma cover_app A1 A2 x : cover (A1 ++ A2) x = cover A1 x + cover A2 x.
Proof. induction A1 as [|b A1 IH]; simpl; [done|]. lia. Qed.

Lemma cover_perm A1 A2 x : A1 ≡ₚ A2 → cover A1 x = cover A2 x.
Proof. induction 1; simpl; lia. Qed.

Lemma cover_elem b A x :
  b ∈ A → a_addr b ≤ x < a_addr b + 32 + a_size b → 1 ≤ cover A x.
Proof.
  intros (A1 & A2 & ->)%list_elem_of_split Hx. rewrite cover_app. simpl.
  pose proof (cover_nonneg A1 x). pose proof (cover_nonneg A2 x).
  unfold covers. rewrite decide_True by done. lia.
Qed.

Lemma awf_addrs_nodup A : awf A → NoDup (addrs A).
Proof.
  intros [Hok Hd]. induction A as [|b A IH]; [constructor|].
  inversion_clear Hok as [|? ? Hb HA]. cbn. constructor.
  - intros (c & Hc & Hin)%list_elem_of_fmap. specialize (Hd (a_addr b)). simpl in Hd.
    assert (block_ok c) as Hc' by (by eapply Forall_forall). destruct Hb, Hc'.
    pose proof (cover_elem c A (a_addr b) Hin ltac:(lia)).
    unfold covers in Hd. rewrite decide_True in Hd by lia. lia.
  - apply IH; [done|]. intros x. specialize (Hd x). simpl in Hd.
    pose proof (covers_range b x). lia.
Qed.

Lemma awf_block A b : awf A → b ∈ A → block_ok b.
Proof. intros [Hok _] Hin. by eapply Forall_forall. Qed.

(** Two blocks of a well-formed heap that share a byte are the same block. *)
Lemma awf_disjoint A b c x :
  awf A → b ∈ A → c ∈ A → a_addr b ≤ x < a_addr b + 32 + a_size b →
  a_addr c ≤ x < a_addr c + 32 + a_size c → b = c.
Proof.
  intros [_ Hd] (A1 & A2 & ->)%list_elem_of_split Hc Hb Hcx.
  specialize (Hd x). rewrite cover_app in Hd. simpl in Hd.
  unfold covers in Hd at 1. rewrite decide_True in Hd by done.
  apply elem_of_app in Hc as [Hc|[Hc|Hc]%elem_of_cons]; [|done|].
  - pose proof (cover_elem c A1 x Hc Hcx). pose proof (cover_nonneg A2 x). lia.
  - pose proof (cover_elem c A2 x Hc Hcx). pose proof (cover_nonneg A1 x). lia.
Qed.

(** An address strictly inside a block is no header of the list. *)
Lemma awf_inside A b x :
  awf A → b ∈ A → a_addr b < x < a_addr b + 32 + a_size b → x ∉ addrs A.
Proof.
  intros Hwf Hb Hx (c & -> & Hc)%list_elem_of_fmap.
  pose proof (awf_block _ c Hwf Hc) as Hcok. ok_facts.
  assert (b = c) as -> by (apply (awf_disjoint A b c (a_addr c)); done || lia). lia.
Qed.

(** ** Representation *)
Section rep.
Context {P : Type} `{PageOps P}.
Implicit Types h : heap_state P.

Definition heap_rep h (A : list ablock) : Prop :=
  seg (blocks h) 0 A 0 ∧ heap_head h = hd_addr 0 A ∧ heap_tail h = last_addr 0 A.

Lemma rep_split h A1 b A2 :
  heap_rep h (A1 ++ b :: A2) →
  seg (blocks h) 0 A1 (a_addr b)
  ∧ blocks h !! a_addr b = Some (mk_block (a_size b) (a_free b) (hd_addr 0 A2) (last_addr 0 A1))
  ∧ seg (blocks h) (a_addr b) A2 0.
Proof. intros [Hs _]. apply seg_app in Hs. simpl in Hs. tauto. Qed.

Lemma rep_blk h A1 b A2 :
  heap_rep h (A1 ++ b :: A2) →
  blk h (a_addr b) = mk_block (a_size b) (a_free b) (hd_addr 0 A2) (last_addr 0 A1).
Proof. intros (_ & Hb & _)%rep_split. unfold blk. by apply lookup_total_correct. Qed.

(** Replacing the blocks [M] by [M'] with the same first address. *)
Lemma rep_replace h h' A1 M M' A2 :
  heap_rep h (A1 ++ M ++ A2) →
  (∀ n, hd_addr n M' = hd_addr n M) →
  (∀ a, a ∈ addrs A1 → blocks h' !! a = blocks h !! a) →
  seg (blocks h') (last_addr 0 A1) M' (hd_addr 0 A2) →
  seg (blocks h') (last_addr 0 (A1 ++ M')) A2 0 →
  heap_head h' = heap_head h → heap_tail h' = last_addr 0 (A1 ++ M' ++ A2) →
  heap_rep h' (A1 ++ M' ++ A2).
Proof.
  intros (Hs & Hh & _) Hhd Hext HM HA2 Hh' Ht. split; [|split; [rewrite Hh', Hh|done]].
  - apply seg_app in Hs as [HA1 _]. rewrite !seg_app, !hd_addr_app in *.
    rewrite Hhd. split; [by eapply seg_ext|]. rewrite <- last_addr_app. done.
  - rewrite !hd_addr_app. by rewrite Hhd.
Qed.

(** The two ways the code closes the list behind a block: redirect the next
    block back, or move the tail. *)
Definition set_back (nx q : Z) h : heap_state P :=
  if negb (nx =? 0) then blk_upd nx (λ b, b <| b_prev := q |>) h else h <| heap_tail := q |>.

Lemma set_back_spec h A2 p q :
  NoDup (addrs A2) → (∀ b, b ∈ A2 → 0 < a_addr b) →
  seg (blocks h) p A2 0 →
  let h' := set_back (hd_addr 0 A2) q h in
  seg (blocks h') q A2 0
  ∧ (∀ a, a ∉ addrs A2 → blocks h' !! a = blocks h !! a)
  ∧ heap_head h' = heap_head h ∧ hbytes h' = hbytes h ∧ source h' = source h
  ∧ heap_tail h' = if decide (A2 = []) then q else heap_tail h.
Proof.
  intros Hnd Hpos Hs. destruct A2 as [|b A2]; [done|]. unfold set_back. cbn [hd_addr].
  pose proof (Hpos b ltac:(by left)). rewrite (proj2 (Z.eqb_neq _ 0)) by lia. cbn [negb].
  split; [by eapply (seg_set_prev _ _ _ b)|]. split_and!; try done.
  intros a Ha. cbn. rewrite lookup_insert_ne; [done|]. intros E. apply Ha. rewrite <- E. by left.
Qed.

Lemma last_addr_tail p A1 A2 M :
  A2 ≠ [] → last_addr p (A1 ++ M ++ A2) = last_addr p (A1 ++ A2).
Proof. intros Hne. rewrite !last_addr_app. by destruct A2. Qed.

Lemma awf_middle A1 M A2 :
  awf (A1 ++ M ++ A2) → NoDup (addrs A2) ∧ (∀ b, b ∈ A2 → 0 < a_addr b)
  ∧ (∀ a, a ∈ addrs M → a ∉ addrs A1 ∧ a ∉ addrs A2) ∧ (∀ a, a ∈ addrs A2 → a ∉ addrs A1)
  ∧ NoDup (addrs M).
Proof.
  intros Hwf. pose proof (awf_addrs_nodup _ Hwf) as Hnd. unfold addrs in *.
  rewrite !fmap_app in Hnd. apply NoDup_app in Hnd as (_ & H1 & (H2 & H3 & H4)%NoDup_app).
  split_and!; try done.
  - intros b Hb. destruct (awf_block _ b Hwf); [|done]. set_solver.
  - set_solver.
  - set_solver.
Qed.

(** ** Merging *)

(** What [heap_merge_if_possible] does to the block [b] and the rest [A2]. *)
Definition joinable (b c : ablock) : bool := a_addr b + 32 + a_size b =? a_addr c.

Definition amerge (b : ablock) (A2 : list ablock) : list ablock :=
  match A2 with
  | c :: A3 => if a_free c && joinable b c
               then b <| a_size ::= λ s, s + 32 + a_size c |> :: A3 else b :: A2
  | [] => [b]
  end.

Lemma blk_upd_eq h a f b :
  blocks h !! a = Some b → blocks (blk_upd a f h) = <[a := f b]> (blocks h).
Proof. intros Hb. cbn. by rewrite (lookup_total_correct _ _ _ Hb). Qed.

Lemma block_end_eq b : block_ok b → (a_addr b +₆₄ 32 +₆₄ a_size b) = a_addr b + 32 + a_size b.
Proof. intros (? & ? & ? & ? & ?). word_simp. done. Qed.

Lemma merge_next_spec h A1 b A2 :
  awf (A1 ++ b :: A2) → heap_rep h (A1 ++ b :: A2) →
  let h' := heap_merge_next h (a_addr b) in
  heap_rep h' (A1 ++ amerge b A2) ∧ hbytes h' = hbytes h ∧ source h' = source h.
Proof.
  intros Hwf Hrep. pose proof (rep_blk h A1 b A2 Hrep) as Hb.
  unfold heap_merge_next. rewrite Hb. cbn [b_next b_size].
  destruct A2 as [|c A3]; [done|]. cbn [hd_addr amerge].
  assert (block_ok b) as Hbok by (eapply awf_block; [done|set_solver]).
  assert (block_ok c) as Hcok by (eapply awf_block; [done|set_solver]).
  assert (heap_rep h ((A1 ++ [b]) ++ c :: A3)) as Hrep2 by (by rewrite <- app_assoc).
  pose proof (rep_blk h (A1 ++ [b]) c A3 Hrep2) as Hc. rewrite Hc. cbn [b_free b_size].
  unfold SIZEOF_BLOCK, joinable. rewrite block_end_eq by done.
  rewrite (proj2 (Z.eqb_neq (a_addr c) 0)) by (destruct Hcok; lia). cbn [negb andb].
  case_if; [|done]. bool_hyps. match goal with Hj : _ = a_addr c |- _ => rename Hj into Hj end.
  destruct (awf_middle A1 [b; c] A3 Hwf) as (Hn3 & Hp3 & Hm & H13 & Hbc).
  destruct (Hm (a_addr b)) as [Hb1 Hb3]; [by left|]. destruct (Hm (a_addr c)) as [Hc1 Hc3]; [by right; left|].
  assert (a_addr b ≠ a_addr c) as Hne by (destruct Hbok; lia).
  destruct (rep_split _ _ _ _ Hrep) as (_ & Lb & _).
  destruct (rep_split _ _ _ _ Hrep2) as (_ & Lc & S3).
  set (h1 := blk_upd (a_addr b) _ h). set (h2 := blk_upd (a_addr b) _ h1).
  assert (blocks h2 = <[a_addr b := mk_block (a_size b + 32 + a_size c) (a_free b) (hd_addr 0 A3)
            (last_addr 0 A1)]> (blocks h)) as E2.
  { unfold h2. rewrite (blk_upd_eq h1 _ _ (mk_block (a_size b + 32 + a_size c) (a_free b)
      (a_addr c) (last_addr 0 A1))); unfold h1; rewrite (blk_upd_eq h _ _ _ Lb).
    - rewrite insert_insert_eq. cbn. unfold blk. cbn.
      rewrite (lookup_total_correct _ _ _ Lb).
      by rewrite lookup_total_insert_ne, (lookup_total_correct _ _ _ Lc).
    - rewrite lookup_insert_eq. cbn. ok_facts. unfold field_update. cbn. do 2 f_equal. word_simp. lia. }
  assert (blk h2 (a_addr c) = blk h (a_addr c)) as Ec.
  { unfold blk. by rewrite E2, lookup_total_insert_ne. }
  rewrite Ec, Hc. cbn [b_next]. fold (set_back (hd_addr 0 A3) (a_addr b) h2).
  destruct (set_back_spec h2 A3 (a_addr c) (a_addr b)) as (Q1 & Q2 & Q3 & Q4 & Q5 & Q6); try done.
  { rewrite E2. by apply seg_insert_ne. }
  split; [|done]. apply (rep_replace h _ A1 [b; c] [_] A3 Hrep); try done.
  - intros a Ha. rewrite Q2 by naive_solver. rewrite E2, lookup_insert_ne; [done|by intros <-].
  - split; [|done]. cbn. rewrite Q2, E2, lookup_insert_eq by done. done.
  - rewrite last_addr_app. done.
  - rewrite Q6. destruct Hrep as (_ & _ & Ht). case_decide; subst; rewrite ?last_addr_app in *; [done|].
    change (heap_tail h2) with (heap_tail h). rewrite Ht. by destruct A3.
Qed.

(** The two halves of [heap_merge_if_possible] do the same to a block and the
    block after it. *)
Definition absorb h (a nx : Z) : heap_state P :=
  let h := blk_upd a (λ b, b <| b_size ::= λ s, s +₆₄ (SIZEOF_BLOCK +₆₄ b_size (blk h nx)) |>) h in
  let h := blk_upd a (λ b, b <| b_next := b_next (blk h nx) |>) h in
  set_back (b_next (blk h nx)) a h.

Definition adjacent h (a nx : Z) : bool := a +₆₄ SIZEOF_BLOCK +₆₄ b_size (blk h a) =? nx.

Lemma merge_next_absorb h a :
  heap_merge_next h a =
    let nx := b_next (blk h a) in
    if negb (nx =? 0) && b_free (blk h nx) && adjacent h a nx then absorb h a nx else h.
Proof. done. Qed.

Lemma merge_prev_absorb h a :
  heap_merge_prev h a =
    let pv := b_prev (blk h a) in
    if negb (pv =? 0) && b_free (blk h pv) && adjacent h pv a then absorb h pv a else h.
Proof. done. Qed.

(** On a free block, absorbing into the previous block is the previous block
    absorbing its next one. *)
Lemma merge_prev_next h A1 p b A2 :
  awf (A1 ++ p :: b :: A2) → heap_rep h (A1 ++ p :: b :: A2) → a_free b = true →
  heap_merge_prev h (a_addr b) = if a_free p then heap_merge_next h (a_addr p) else h.
Proof.
  intros Hwf Hrep Hf. pose proof (rep_blk h A1 p (b :: A2) Hrep) as Hp.
  assert (heap_rep h ((A1 ++ [p]) ++ b :: A2)) as Hrep2 by (by rewrite <- app_assoc).
  pose proof (rep_blk h (A1 ++ [p]) b A2 Hrep2) as Hb.
  assert (block_ok p) as Hpok by (eapply awf_block; [done|set_solver]).
  assert (block_ok b) as Hbok by (eapply awf_block; [done|set_solver]).
  rewrite merge_prev_absorb, merge_next_absorb, Hb, last_addr_app. cbn [b_prev last_addr].
  rewrite Hp. cbn [b_free b_next hd_addr]. cbv zeta. rewrite Hb. cbn [b_free].
  rewrite Hf, !(proj2 (Z.eqb_neq _ 0)) by (ok_facts; lia).
  destruct (a_free p); done.
Qed.

Lemma merge_prev_first h b A2 :
  heap_rep h (b :: A2) → heap_merge_prev h (a_addr b) = h.
Proof.
  intros Hrep. pose proof (rep_blk h [] b A2 Hrep) as Hb.
  unfold heap_merge_prev. rewrite Hb. done.
Qed.

(** The list operation of [heap_merge_if_possible] on a free block. *)
Definition acoalesce (A1 : list ablock) (b : ablock) (A2 : list ablock) : list ablock :=
  match reverse A1 with
  | p :: A0 => if a_free p then reverse A0 ++ amerge p (amerge b A2) else A1 ++ amerge b A2
  | [] => amerge b A2
  end.

Lemma amerge_head b A2 : ∃ b' A3, amerge b A2 = b' :: A3 ∧ a_addr b' = a_addr b ∧ a_free b' = a_free b.
Proof.
  destruct A2 as [|c A3]; [by exists b, []|]. cbn. case_if; [|by exists b, (c :: A3)].
  by eexists _, A3.
Qed.

Lemma amerge_cover b A2 x :
  block_ok b → Forall block_ok A2 → cover (amerge b A2) x = covers b x + cover A2 x.
Proof.
  intros Hb HA. destruct A2 as [|c A3]; [done|]. cbn [amerge]. case_if; [|done].
  bool_hyps. unfold joinable in *. bool_hyps. inversion_clear HA as [|? ? Hc ?]. ok_facts.
  cbn [cover]. unfold covers. cbn. repeat case_decide; lia.
Qed.

Lemma amerge_ok b A2 : block_ok b → Forall block_ok A2 → Forall block_ok (amerge b A2).
Proof.
  intros Hb HA. destruct A2 as [|c A3]; [by constructor|]. cbn [amerge]. case_if; [|by constructor].
  bool_hyps. unfold joinable in *. bool_hyps. inversion_clear HA as [|? ? Hc ?].
  constructor; [|done]. ok_facts. unfold block_ok. cbn. split_and!; try lia.
  rewrite <- Z.add_assoc, Z.add_mod, (Z.add_mod 32) by lia.
  replace (a_size b mod 16) with 0 by lia. replace (a_size c mod 16) with 0 by lia. done.
Qed.

Lemma amerge_awf A1 b A2 : awf (A1 ++ b :: A2) → awf (A1 ++ amerge b A2)
  ∧ ∀ x, cover (A1 ++ amerge b A2) x = cover (A1 ++ b :: A2) x.
Proof.
  intros [Hok Hd]. apply Forall_app in Hok as [Hok1 Hok2]. inversion_clear Hok2 as [|? ? Hb HA].
  assert (∀ x, cover (A1 ++ amerge b A2) x = cover (A1 ++ b :: A2) x) as Hc.
  { intros x. rewrite !cover_app, amerge_cover by done. done. }
  split; [|done]. split; [apply Forall_app; split; [done|by apply amerge_ok]|].
  intros x. rewrite Hc. apply Hd.
Qed.

Lemma merge_spec h A1 b A2 :
  awf (A1 ++ b :: A2) → heap_rep h (A1 ++ b :: A2) → a_free b = true →
  let h' := heap_merge_if_possible h (a_addr b) in
  heap_rep h' (acoalesce A1 b A2) ∧ awf (acoalesce A1 b A2)
  ∧ (∀ x, cover (acoalesce A1 b A2) x = cover (A1 ++ b :: A2) x)
  ∧ hbytes h' = hbytes h ∧ source h' = source h.
Proof.
  intros Hwf Hrep Hf. unfold heap_merge_if_possible, acoalesce.
  assert (block_ok b) as Hbok by (eapply awf_block; [done|set_solver]).
  rewrite (proj2 (Z.eqb_neq _ 0)) by (ok_facts; lia).
  destruct (merge_next_spec h A1 b A2 Hwf Hrep) as (R1 & B1 & S1).
  destruct (amerge_awf A1 b A2 Hwf) as [W1 C1].
  destruct (amerge_head b A2) as (b' & A3 & Eb & Ea & Ef). rewrite Eb in *.
  set (h1 := heap_merge_next h (a_addr b)) in *. rewrite <- Ea.
  destruct (reverse A1) as [|p A0] eqn:E1.
  { apply (f_equal reverse) in E1. rewrite reverse_involutive in E1. cbn in E1. subst A1.
    rewrite (merge_prev_first h1 b' A3) by done. done. }
  apply (f_equal reverse) in E1. rewrite reverse_involutive, reverse_cons in E1. subst A1.
  rewrite <- !app_assoc in *. cbn [app] in *.
  rewrite (merge_prev_next h1 (reverse A0) p b' A3) by (done || congruence).
  destruct (a_free p); [|done].
  destruct (merge_next_spec h1 (reverse A0) p (b' :: A3) W1 R1) as (R2 & B2 & S2).
  destruct (amerge_awf (reverse A0) p (b' :: A3) W1) as [W2 C2].
  split_and!; try done; first [congruence|intros x; by rewrite C2].
Qed.

(** ** Splitting *)
Lemma heap_align_eq n :
  0 ≤ n ≤ 18446744073709551600 → heap_align n = (n + 15) - (n + 15) mod 16.
Proof.
  intros Hn. unfold heap_align. replace (n +₆₄ 16 -₆₄ 1) with (n + 15).
  - unfold not64. rewrite land_u64_r by lia. apply (land_not_ones _ 4). lia.
  - unfold u64. rewrite <- Zminus_mod_idemp_l, Zmod_mod, Zminus_mod_idemp_l.
    rewrite Z.mod_small; lia.
Qed.

Lemma heap_align_bounds n :
  0 ≤ n ≤ 18446744073709551600 → n ≤ heap_align n ≤ n + 15 ∧ heap_align n mod 16 = 0.
Proof. intros Hn. rewrite heap_align_eq by done. Z.to_euclidean_division_equations; lia. Qed.

Lemma heap_align_idem n :
  0 ≤ n ≤ 18446744073709551600 → n mod 16 = 0 → heap_align n = n.
Proof. intros Hn. rewrite heap_align_eq by done. Z.to_euclidean_division_equations; lia. Qed.

Lemma heap_align_le n s :
  0 ≤ n ≤ s → s ≤ 18446744073709551600 → s mod 16 = 0 → heap_align n ≤ s.
Proof. intros Hn Hs. rewrite heap_align_eq by lia. Z.to_euclidean_division_equations; lia. Qed.

(** The list operation of [heap_split_block]. *)
Definition asplit (b : ablock) (aligned : Z) : list ablock :=
  if a_size b <=? aligned + 32 + 16 then [b]
  else [b <| a_size := aligned |>; AB (a_addr b + 32 + aligned) (a_size b - aligned - 32) true].

Lemma asplit_props b n :
  block_ok b → 0 ≤ n → n mod 16 = 0 →
  Forall block_ok (asplit b n) ∧ (∀ x, cover (asplit b n) x = covers b x)
  ∧ (∀ d, hd_addr d (asplit b n) = a_addr b).
Proof.
  intros Hb Hn Hm. unfold asplit. case_if; bool_hyps.
  { split_and!; [by constructor| |done]. intros x. cbn. lia. }
  ok_facts. split_and!; [|intros x|done].
  - repeat constructor; cbn; try done; try lia; Z.to_euclidean_division_equations; lia.
  - cbn. unfold covers. cbn. repeat case_decide; lia.
Qed.

Lemma asplit_awf A1 b A2 n :
  awf (A1 ++ b :: A2) → 0 ≤ n → n mod 16 = 0 →
  awf (A1 ++ asplit b n ++ A2)
  ∧ ∀ x, cover (A1 ++ asplit b n ++ A2) x = cover (A1 ++ b :: A2) x.
Proof.
  intros [Hok Hd] Hn Hm. apply Forall_app in Hok as [Hok1 Hok2]. inversion_clear Hok2 as [|? ? Hb HA].
  destruct (asplit_props b n Hb Hn Hm) as (H1 & H2 & _).
  assert (∀ x, cover (A1 ++ asplit b n ++ A2) x = cover (A1 ++ b :: A2) x) as Hc.
  { intros x. rewrite !cover_app, H2. done. }
  split; [|done]. split; [by rewrite !Forall_app|]. intros x. rewrite Hc. apply Hd.
Qed.

Lemma split_spec h A1 b A2 n :
  awf (A1 ++ b :: A2) → heap_rep h (A1 ++ b :: A2) → 0 ≤ n ≤ a_size b →
  let h' := heap_split_block h (a_addr b) n in
  heap_rep h' (A1 ++ asplit b (heap_align n) ++ A2)
  ∧ hbytes h' = hbytes h ∧ source h' = source h.
Proof.
  intros Hwf Hrep Hn. pose proof (rep_blk h A1 b A2 Hrep) as Hb.
  assert (block_ok b) as Hbok by (eapply awf_block; [done|set_solver]).
  unfold heap_split_block, asplit. rewrite Hb. cbn [b_size b_next]. unfold SIZEOF_BLOCK.
  destruct (heap_align_bounds n) as [Ha Hm]; [ok_facts; lia|].
  assert (heap_align n ≤ a_size b) as Hle by (ok_facts; apply heap_align_le; lia).
  assert (16 ≤ a_addr b) as H16 by (ok_facts; Z.to_euclidean_division_equations; lia).
  set (al := heap_align n) in *.
  replace (al +₆₄ 32 +₆₄ 16) with (al + 32 + 16) by (ok_facts; word_simp; done).
  case_if; [done|]. bool_hyps.
  replace (a_addr b +₆₄ 32 +₆₄ al) with (a_addr b + 32 + al) by (ok_facts; word_simp; done).
  replace (a_size b -₆₄ al -₆₄ 32) with (a_size b - al - 32) by (ok_facts; word_simp; done).
  set (nx := a_addr b + 32 + al). set (h1 := h <| blocks ::= _ |>).
  destruct (awf_middle A1 [b] A2 Hwf) as (Hn2 & Hp2 & Hm2 & H12 & _).
  destruct (Hm2 (a_addr b)) as [Hb1 Hb2]; [by left|].
  assert (nx ∉ addrs (A1 ++ b :: A2)) as Hnx.
  { apply (awf_inside _ b); [done|set_solver|]. ok_facts. unfold nx. lia. }
  unfold addrs in Hnx. rewrite fmap_app, fmap_cons in Hnx.
  assert (nx ≠ a_addr b) as Hne by (ok_facts; lia).
  destruct (rep_split _ _ _ _ Hrep) as (_ & Lb & S2).
  assert (blk h1 (a_addr b) = blk h (a_addr b)) as Eb.
  { unfold blk. cbn. by rewrite lookup_total_insert_ne. }
  rewrite Eb, Hb. cbn [b_next]. fold (set_back (hd_addr 0 A2) nx h1).
  destruct (set_back_spec h1 A2 (a_addr b) nx) as (Q1 & Q2 & Q3 & Q4 & Q5 & Q6); try done.
  { apply seg_insert_ne; [set_solver|done]. }
  set (h2 := set_back _ nx h1) in *. set (h3 := blk_upd (a_addr b) _ h2).
  assert (blocks (blk_upd (a_addr b) (λ b, b <| b_size := al |>) h3)
    = <[a_addr b := mk_block al (a_free b) nx (last_addr 0 A1)]> (blocks h2)) as E3.
  { assert (blocks h2 !! a_addr b = blocks h !! a_addr b) as Eh2.
    { rewrite Q2 by done. cbn. by rewrite lookup_insert_ne. }
    rewrite Lb in Eh2. rewrite (blk_upd_eq h3 _ _ (mk_block (a_size b) (a_free b) nx (last_addr 0 A1)));
      unfold h3; rewrite (blk_upd_eq h2 _ _ _ Eh2); [by rewrite insert_insert_eq|].
    by rewrite lookup_insert_eq. }
  split; [|done].
  apply (rep_replace h _ A1 [b] _ A2 Hrep); try done; rewrite ?E3.
  - intros a Ha1. rewrite lookup_insert_ne by (by intros <-). rewrite Q2 by naive_solver.
    cbn. rewrite lookup_insert_ne; [done|]. intros <-. apply Hnx. apply elem_of_app. by left.
  - cbn. rewrite lookup_insert_eq. split; [done|]. split; [|done].
    rewrite lookup_insert_ne, Q2 by set_solver. cbn. by rewrite lookup_insert_eq.
  - rewrite last_addr_app. cbn. by apply seg_insert_ne.
  - cbn. rewrite Q6. destruct Hrep as (_ & _ & Ht). case_decide; subst; rewrite ?last_addr_app in *; [done|].
    change (heap_tail h1) with (heap_tail h). rewrite Ht. by destruct A2.
Qed.

(** ** List walks *)
Lemma seg_dom bm p A n a : seg bm p A n → a ∈ addrs A → is_Some (bm !! a).
Proof.
  revert p. induction A as [|b A IH]; intros p Hs Ha; [by apply not_elem_of_nil in Ha|].
  destruct Hs as [Hb HA]. apply elem_of_cons in Ha as [->|Ha]; [by eexists|by eapply IH].
Qed.

(** The fuel of a walk exceeds the length of the list. *)
Lemma walk_fuel_enough h A : awf A → heap_rep h A → (length A < walk_fuel h)%nat.
Proof.
  intros Hwf (Hs & _). unfold walk_fuel. apply Nat.lt_succ_r.
  rewrite <- (length_fmap a_addr A). change (a_addr <$> A) with (addrs A).
  rewrite <- (size_list_to_set (C := gset Z) (addrs A))
    by (by apply awf_addrs_nodup).
  rewrite <- size_dom. apply subseteq_size. intros a Ha%elem_of_list_to_set.
  apply elem_of_dom. by eapply seg_dom.
Qed.

Definition fits (n : Z) (b : ablock) : bool := a_free b && (n <=? a_size b).

Lemma find_fit_loop_spec fuel bm p A n :
  seg bm p A 0 → Forall block_ok A → (length A < fuel)%nat →
  (find_fit_loop fuel bm (hd_addr 0 A) n = Done 0 ∧ Forall (λ b, fits n b = false) A)
  ∨ ∃ A1 b A2, A = A1 ++ b :: A2 ∧ find_fit_loop fuel bm (hd_addr 0 A) n = Done (a_addr b)
      ∧ fits n b = true ∧ Forall (λ b, fits n b = false) A1.
Proof.
  revert fuel p. induction A as [|b A IH]; intros [|fuel] p Hs Hok Hf; cbn [length] in Hf; try lia.
  { by left. }
  destruct Hs as [Hb HA]. inversion_clear Hok as [|? ? Hbok Hok'].
  cbn [find_fit_loop hd_addr]. rewrite (lookup_total_correct _ _ _ Hb). cbn [b_free b_size b_next].
  rewrite (proj2 (Z.eqb_neq _ 0)) by (ok_facts; lia). fold (fits n b).
  destruct (fits n b) eqn:Efit; [right; by exists [], b, A|].
  destruct (IH fuel (a_addr b) HA Hok' ltac:(lia)) as [[-> Hno]|(A1 & c & A2 & -> & -> & Hc & Hno)].
  - left. split; [done|by constructor].
  - right. exists (b :: A1), c, A2. split_and!; try done. by constructor.
Qed.

Lemma in_list_loop_spec fuel bm p A x g :
  seg bm p A 0 → Forall block_ok A → (length A < fuel)%nat →
  0 ≤ g → g + Z.of_nat (length A) ≤ 1000000 →
  in_list_loop fuel bm x (hd_addr 0 A) g = Done (bool_decide (x ∈ addrs A)).
Proof.
  revert fuel p g. induction A as [|b A IH]; intros [|fuel] p g Hs Hok Hf Hg Hl; cbn [length] in *; try lia.
  { cbn. by rewrite bool_decide_false by apply not_elem_of_nil. }
  destruct Hs as [Hb HA]. inversion_clear Hok as [|? ? Hbok Hok'].
  cbn [in_list_loop hd_addr]. rewrite (lookup_total_correct _ _ _ Hb). cbn [b_next].
  rewrite (proj2 (Z.eqb_neq _ 0)) by (ok_facts; lia). case_if; bool_hyps.
  { rewrite bool_decide_true; [done|]. subst. by left. }
  rewrite u32_small by lia. rewrite (proj2 (Z.ltb_ge _ _)) by lia.
  rewrite (IH fuel (a_addr b)) by (done || lia). f_equal.
  apply bool_decide_ext. cbn. rewrite elem_of_cons. naive_solver.
Qed.

Lemma find_fit_spec h A n :
  awf A → heap_rep h A →
  (heap_find_fit h n = Done 0 ∧ Forall (λ b, fits n b = false) A)
  ∨ ∃ A1 b A2, A = A1 ++ b :: A2 ∧ heap_find_fit h n = Done (a_addr b)
      ∧ fits n b = true ∧ Forall (λ b, fits n b = false) A1.
Proof.
  intros Hwf Hrep. unfold heap_find_fit. rewrite (proj1 (proj2 Hrep)).
  eapply find_fit_loop_spec; [apply Hrep|apply Hwf|by apply walk_fuel_enough].
Qed.

Lemma in_list_spec h A x :
  awf A → heap_rep h A → Z.of_nat (length A) ≤ 1000000 → x ≠ 0 →
  heap_block_in_list h x = Done (bool_decide (x ∈ addrs A)).
Proof.
  intros Hwf Hrep Hl Hx. unfold heap_block_in_list. rewrite (proj2 (Z.eqb_neq _ 0)) by done.
  rewrite (proj1 (proj2 Hrep)).
  eapply in_list_loop_spec; [apply Hrep|apply Hwf|by apply walk_fuel_enough|done|lia].
Qed.

(** ** Appending a block *)
Lemma insert_spec h A b :
  awf A → heap_rep h A → a_addr b ∉ addrs A → 0 < a_addr b →
  blocks h !! a_addr b = Some (mk_block (a_size b) (a_free b) 0 0) →
  let h' := heap_insert_block h (a_addr b) in
  heap_rep h' (A ++ [b]) ∧ hbytes h' = hbytes h ∧ source h' = source h.
Proof.
  intros Hwf Hrep Hb Hp Lb. unfold heap_insert_block.
  set (h1 := blk_upd (a_addr b) _ h). set (h2 := blk_upd (a_addr b) _ h1).
  assert (blocks h2 = <[a_addr b := mk_block (a_size b) (a_free b) 0 (last_addr 0 A)]> (blocks h)) as E2.
  { unfold h2. rewrite (blk_upd_eq h1 _ _ (mk_block (a_size b) (a_free b) 0 0));
      unfold h1; rewrite (blk_upd_eq h _ _ _ Lb); [|by rewrite lookup_insert_eq].
    rewrite insert_insert_eq. cbn. by rewrite (proj2 (proj2 Hrep)). }
  change (heap_tail h2) with (heap_tail h). rewrite (proj2 (proj2 Hrep)).
  destruct A as [|c A0 _] using rev_ind.
  { split; [|done]. split; [|done]. cbn [seg app]. split; [|done].
    change (blocks h2 !! a_addr b = Some (mk_block (a_size b) (a_free b) 0 0)).
    by rewrite E2, lookup_insert_eq. }
  rewrite last_addr_app in *. cbn [last_addr] in *.
  assert (block_ok c) as Hcok by (eapply awf_block; [done|set_solver]).
  rewrite (proj2 (Z.eqb_neq _ 0)) by (ok_facts; lia). cbn [negb]. split; [|done].
  destruct (rep_split _ _ _ _ Hrep) as (_ & Lc & _).
  assert (a_addr c ≠ a_addr b) as Hne by (intros E; apply Hb; rewrite <- E; set_solver).
  assert (blocks h2 !! a_addr c = blocks h !! a_addr c) as Lc2 by (by rewrite E2, lookup_insert_ne).
  rewrite Lc in Lc2. rewrite <- app_assoc. rewrite <- (app_nil_r ([c] ++ [b])).
  rewrite <- (app_nil_r (A0 ++ [c])), <- app_assoc in Hrep.
  set (h4 := _ <| heap_tail := a_addr b |>).
  assert (blocks h4 = <[a_addr c := mk_block (a_size c) (a_free c) (a_addr b) (last_addr 0 A0)]>
    (blocks h2)) as E4 by (exact (blk_upd_eq h2 _ _ _ Lc2)).
  apply (rep_replace h _ A0 [c] [c; b] [] Hrep); try done.
  - intros a Ha. rewrite E4, lookup_insert_ne, E2, lookup_insert_ne; [done| |].
    + intros <-. apply Hb. set_solver.
    + intros <-. destruct (awf_middle A0 [c] [] Hwf) as (_ & _ & Hm & _).
      by destruct (Hm (a_addr c)); [left|].
  - rewrite E4. cbn [seg hd_addr]. rewrite lookup_insert_eq. split; [done|]. split; [|done].
    rewrite lookup_insert_ne, E2, lookup_insert_eq by done. done.
  - by rewrite last_addr_app.
Qed.

(** ** Marking a block used or free *)
Lemma set_free_spec h A1 b A2 v :
  awf (A1 ++ b :: A2) → heap_rep h (A1 ++ b :: A2) →
  let h' := blk_upd (a_addr b) (λ k, k <| b_free := v |>) h in
  heap_rep h' (A1 ++ b <| a_free := v |> :: A2).
Proof.
  intros Hwf Hrep. destruct (rep_split _ _ _ _ Hrep) as (_ & Lb & S2).
  destruct (awf_middle A1 [b] A2 Hwf) as (Hn2 & Hp2 & Hm2 & _).
  destruct (Hm2 (a_addr b)) as [Hb1 Hb2]; [by left|].
  set (h' := blk_upd _ _ h).
  assert (blocks h' = <[a_addr b := mk_block (a_size b) v (hd_addr 0 A2) (last_addr 0 A1)]> (blocks h))
    as E by (exact (blk_upd_eq h _ _ _ Lb)).
  apply (rep_replace h h' A1 [b] [_] A2 Hrep); try done; rewrite ?E.
  - intros a Ha. rewrite lookup_insert_ne; [done|by intros <-].
  - cbn [seg]. split; [|done]. by rewrite lookup_insert_eq.
  - rewrite last_addr_app. by apply seg_insert_ne.
  - cbn. rewrite (proj2 (proj2 Hrep)). rewrite !last_addr_app. done.
Qed.

Lemma set_free_awf A1 b A2 v :
  awf (A1 ++ b :: A2) → awf (A1 ++ b <| a_free := v |> :: A2)
  ∧ ∀ x, cover (A1 ++ b <| a_free := v |> :: A2) x = cover (A1 ++ b :: A2) x.
Proof.
  intros [Hok Hd].
  assert (∀ x, cover (A1 ++ b <| a_free := v |> :: A2) x = cover (A1 ++ b :: A2) x) as Hc.
  { intros x. by rewrite !cover_app. }
  split; [|done]. split; [|intros x; rewrite Hc; apply Hd].
  rewrite Forall_app, Forall_cons in *. done.
Qed.

End rep.

(** ** Coalescing

    No free block is followed by a free block that starts where it ends. *)
Definition linkable (b c : ablock) : bool := a_free b && a_free c && joinable b c.

Fixpoint coalesced (A : list ablock) : Prop :=
  match A with
  | [] => True
  | b :: A => match A with [] => True | c :: _ => linkable b c = false end ∧ coalesced A
  end.

Lemma coalesced_app A1 b A2 :
  coalesced (A1 ++ b :: A2) ↔ coalesced (A1 ++ [b]) ∧ coalesced (b :: A2).
Proof.
  induction A1 as [|c A1 IH]; [simpl; tauto|].
  destruct A1 as [|d A1]; simpl in *; tauto.
Qed.

(** Only the address and the free flag of the last block matter. *)
Lemma coalesced_last A1 b b' :
  a_addr b' = a_addr b → (a_free b' = true → a_free b = true) →
  coalesced (A1 ++ [b]) → coalesced (A1 ++ [b']).
Proof.
  intros Ha Hf. induction A1 as [|c A1 IH]; [done|].
  assert (∀ b, linkable c b = a_free c && a_free b && (a_addr c + 32 + a_size c =? a_addr b)) as Hl by done.
  destruct A1 as [|d A1]; simpl in *; [|tauto].
  rewrite !Hl, Ha. destruct (a_free b'), (a_free b); try tauto.
  - by specialize (Hf eq_refl).
  - by rewrite andb_false_r.
Qed.

(** Only the end and the free flag of the first block matter. *)
Lemma coalesced_first b b' A2 :
  a_addr b' + a_size b' = a_addr b + a_size b → (a_free b' = true → a_free b = true) →
  coalesced (b :: A2) → coalesced (b' :: A2).
Proof.
  intros He Hf. destruct A2 as [|c A2]; [done|]. cbn. intros [Hl HA]. split; [|done].
  unfold linkable, joinable in *.
  replace (a_addr b' + 32 + a_size b') with (a_addr b + 32 + a_size b) by lia.
  destruct (a_free b'); [|done]. rewrite Hf in Hl; done.
Qed.

Lemma amerge_coalesced b A2 : coalesced A2 → coalesced (amerge b A2).
Proof.
  destruct A2 as [|c A3]; [done|]. cbn [amerge]. case_if.
  - bool_hyps. unfold joinable in *. bool_hyps. apply (coalesced_first c); cbn; [lia|done].
  - intros Hc. split; [|done]. unfold linkable. destruct (a_free b); [|done]. done.
Qed.

Lemma acoalesce_coalesced A1 b A2 :
  coalesced (A1 ++ b :: A2) → coalesced (acoalesce A1 (b <| a_free := true |>) A2).
Proof.
  set (b1 := b <| a_free := true |>). intros [H1 [_ H2]]%coalesced_app. unfold acoalesce.
  pose proof (amerge_coalesced b1 A2 H2) as Hm.
  destruct (reverse A1) as [|p A0] eqn:E1; [done|].
  apply (f_equal reverse) in E1. rewrite reverse_involutive, reverse_cons in E1. subst A1.
  rewrite <- app_assoc in H1. apply coalesced_app in H1 as [H1 _].
  destruct (amerge_head b1 A2) as (b2 & A3 & E2 & Ea & Ef). destruct (a_free p) eqn:Ep.
  - pose proof (amerge_coalesced p _ Hm) as Hmp.
    destruct (amerge_head p (amerge b1 A2)) as (p' & A4 & Ep4 & Eap & Efp). rewrite Ep4 in *.
    apply coalesced_app. split; [|done]. apply (coalesced_last _ p); done || congruence.
  - rewrite <- app_assoc. apply coalesced_app. split; [done|]. rewrite E2 in *. split; [|done].
    unfold linkable. by rewrite Ep.
Qed.

(** ** Live blocks *)
Definition live (A : list ablock) : list ablock := filter (λ b, a_free b = false) A.

Lemma live_app A1 A2 : live (A1 ++ A2) = live A1 ++ live A2.
Proof. apply filter_app. Qed.

Lemma live_free b A : a_free b = true → live (b :: A) = live A.
Proof. intros Hf. unfold live. rewrite filter_cons_False; [done|by rewrite Hf]. Qed.

Lemma live_used b A : a_free b = false → live (b :: A) = b :: live A.
Proof. intros Hf. unfold live. by rewrite filter_cons_True. Qed.

Lemma amerge_live b A2 : a_free b = true → live (amerge b A2) = live A2.
Proof.
  intros Hf. destruct A2 as [|c A3]; [by apply live_free|]. cbn [amerge]. case_if.
  - bool_hyps. by rewrite !live_free.
  - by rewrite (live_free b).
Qed.

Lemma acoalesce_live A1 b A2 : a_free b = true → live (acoalesce A1 b A2) = live (A1 ++ A2).
Proof.
  intros Hf. unfold acoalesce. destruct (reverse A1) as [|p A0] eqn:E1;
    apply (f_equal reverse) in E1; rewrite reverse_involutive in E1; subst A1.
  - by apply amerge_live.
  - rewrite reverse_cons, <- !app_assoc, !live_app. destruct (a_free p) eqn:Ep.
    + by rewrite !live_app, (live_free p), !amerge_live by done.
    + rewrite !live_app, !amerge_live by done. by rewrite app_assoc.
Qed.

(** What [kmalloc] makes of the free block it chose. *)
Definition ause (b : ablock) (n : Z) : list ablock :=
  match asplit b n with
  | b' :: r => b' <| a_free := false |> :: r
  | [] => []
  end.

Definition taken (b : ablock) (n : Z) : ablock :=
  (if a_size b <=? n + 32 + 16 then b else b <| a_size := n |>) <| a_free := false |>.

Lemma ause_live A1 b A2 n :
  a_free b = true → live (A1 ++ ause b n ++ A2) ≡ₚ taken b n :: live (A1 ++ b :: A2).
Proof.
  intros Hf. rewrite !live_app, (live_free b) by done. unfold ause, asplit, taken.
  case_if; rewrite ?live_app; rewrite live_used by done; rewrite ?live_free by done.
  all: symmetry; apply Permutation_middle.
Qed.

Lemma ause_coalesced A1 b A2 n :
  a_free b = true → coalesced (A1 ++ b :: A2) → coalesced (A1 ++ ause b n ++ A2).
Proof.
  intros Hf [H1 H2]%coalesced_app. unfold ause, asplit. case_if; cbn [app]; apply coalesced_app.
  - split; [by apply (coalesced_last _ b)|by apply (coalesced_first b)].
  - split; [by apply (coalesced_last _ b)|]. cbn [coalesced]. split; [done|].
    apply (coalesced_first b); cbn; [lia|done|done].
Qed.

Lemma ause_awf A1 b A2 n :
  awf (A1 ++ b :: A2) → 0 ≤ n → n mod 16 = 0 →
  awf (A1 ++ ause b n ++ A2) ∧ ∀ x, cover (A1 ++ ause b n ++ A2) x = cover (A1 ++ b :: A2) x.
Proof.
  intros Hwf Hn Hm. destruct (asplit_awf A1 b A2 n Hwf Hn Hm) as [Hw Hc]. unfold ause.
  destruct (asplit b n) as [|b' r] eqn:E; [by unfold asplit in E; case_if|].
  cbn [app] in *. destruct (set_free_awf A1 b' (r ++ A2) false Hw) as [Hw' Hc'].
  split; [done|]. intros x. by rewrite Hc'.
Qed.

End HeapFacts.
