(* ===== verification/HeapProofs.v ===== *)
(** * Kernel heap: correctness of kmalloc, kfree, kcalloc and krealloc *)

From stdpp Require Import base gmap list numbers fin_maps.
From S2P Require Import Prelude KString Heap HeapFacts.

Module HeapProofs.
Import KString Heap HeapFacts.

Section proofs.
Context {P : Type} `{PageSource P}.
Implicit Types h : heap_state P.

(** The heap invariant: the pointers represent [A], the blocks are aligned
    and disjoint, they lie in pages drawn from the source, and free
    neighbours are coalesced. *)
Record heap_inv h (A : list ablock) : Prop := {
  hi_rep : heap_rep h A;
  hi_wf : awf A;
  hi_owned : ∀ x, 0 < cover A x → owned (source h) x;
  hi_source : source_ok (source h);
  hi_coalesced : coalesced A
}.

(** ** Allocation *)
Lemma use_spec h A1 b A2 n :
  awf (A1 ++ b :: A2) → heap_rep h (A1 ++ b :: A2) → 0 ≤ n ≤ a_size b → n mod 16 = 0 →
  let h' := blk_upd (a_addr b) (λ k, k <| b_free := false |>) (heap_split_block h (a_addr b) n) in
  heap_rep h' (A1 ++ ause b n ++ A2) ∧ hbytes h' = hbytes h ∧ source h' = source h.
Proof.
  intros Hwf Hrep Hn Hm. destruct (split_spec h A1 b A2 n Hwf Hrep Hn) as (R & B & S).
  pose proof (awf_block _ b Hwf ltac:(set_solver)) as Hok. ok_facts.
  rewrite heap_align_idem in R by lia.
  destruct (asplit_awf A1 b A2 n Hwf ltac:(lia) Hm) as [Hw _]. split; [|done].
  unfold ause. assert (∃ b' r, asplit b n = b' :: r ∧ a_addr b' = a_addr b) as (b' & r & E & Ea).
  { unfold asplit. case_if; by eexists _, _. }
  rewrite E in *. cbn [app] in *. rewrite <- Ea in *. by apply set_free_spec.
Qed.

(** Turning the free block [b] of a well-formed heap into an allocation. *)
Lemma use_inv h A1 b A2 n :
  heap_inv h (A1 ++ b :: A2) → a_free b = true → 0 ≤ n ≤ a_size b → n mod 16 = 0 →
  let h' := blk_upd (a_addr b) (λ k, k <| b_free := false |>) (heap_split_block h (a_addr b) n) in
  heap_inv h' (A1 ++ ause b n ++ A2) ∧ hbytes h' = hbytes h
  ∧ ∀ x, cover (A1 ++ ause b n ++ A2) x = cover (A1 ++ b :: A2) x.
Proof.
  intros [Hr Hw Ho Hs Hc] Hf Hn Hm.
  destruct (use_spec h A1 b A2 n) as (R & B & S); try done.
  destruct (ause_awf A1 b A2 n) as [W C]; [done|lia|done|].
  split; [|done]. split; try done; rewrite ?S; try done.
  - intros x. rewrite C. apply Ho.
  - by apply ause_coalesced.
Qed.

Lemma taken_props b n :
  0 ≤ n ≤ a_size b → a_addr (taken b n) = a_addr b ∧ n ≤ a_size (taken b n) ≤ a_size b.
Proof. intros Hn. unfold taken. case_if; cbn; lia. Qed.

(** The number of pages [heap_grow] asks for. *)
Definition grow_pages (n : Z) : Z := align_up (heap_align n +₆₄ SIZEOF_BLOCK) / PAGE_SIZE.

Lemma grow_pages_bounds n :
  0 ≤ n ≤ 2 ^ 43 → n mod 16 = 0 →
  0 < grow_pages n < 2 ^ 32 ∧ n + 32 ≤ 4096 * grow_pages n.
Proof.
  intros Hn Hm. change (2 ^ 43) with 8796093022208 in Hn. change (2 ^ 32) with 4294967296.
  unfold grow_pages, SIZEOF_BLOCK, PAGE_SIZE. rewrite heap_align_idem by lia. word_simp.
  rewrite align_up_eq by lia. Z.to_euclidean_division_equations; lia.
Qed.

Lemma awf_snoc A b :
  awf A → block_ok b → (∀ x, a_addr b ≤ x < a_addr b + 32 + a_size b → cover A x = 0) →
  awf (A ++ [b]).
Proof.
  intros [Hok Hd] Hb Hx. split; [by rewrite Forall_app, Forall_singleton|].
  intros x. rewrite cover_app. cbn. unfold covers. case_decide.
  - rewrite Hx by done. lia.
  - specialize (Hd x). lia.
Qed.

(** The heap after a fresh block has been appended. *)
Lemma grow_append h A n mem p' :
  heap_inv h A → 0 < n < 2 ^ 32 → page_alloc (source h) n = (mem, p') → mem ≠ 0 →
  let b := AB mem (n *₆₄ PAGE_SIZE -₆₄ SIZEOF_BLOCK) true in
  let h1 := h <| source := p' |>
              <| blocks ::= <[mem := mk_block (n *₆₄ PAGE_SIZE -₆₄ SIZEOF_BLOCK) true 0 0]> |> in
  let h2 := heap_insert_block h1 mem in
  a_size b = 4096 * n - 32 ∧ heap_rep h2 (A ++ [b]) ∧ awf (A ++ [b])
  ∧ (∀ x, 0 < cover (A ++ [b]) x → owned (source h2) x) ∧ source_ok (source h2)
  ∧ hbytes h2 = hbytes h ∧ mem ∉ addrs A.
Proof.
  intros [Hr Hw Ho Hs Hc] Hn Hal Hne. cbv zeta.
  destruct (page_alloc_fresh _ _ _ _ Hs Hn Hal Hne) as (Hs' & Hp & Hm & He & Hf & Hmono).
  change (2 ^ 64) with 18446744073709551616 in He. change (2 ^ 32) with 4294967296 in Hn.
  assert (n *₆₄ PAGE_SIZE -₆₄ SIZEOF_BLOCK = 4096 * n - 32) as ->.
  { unfold PAGE_SIZE, SIZEOF_BLOCK. word_simp. lia. }
  set (b := AB mem (4096 * n - 32) true).
  assert (block_ok b) as Hb.
  { unfold block_ok. cbn. Z.to_euclidean_division_equations; lia. }
  assert (∀ x, mem ≤ x < mem + 4096 * n → cover A x = 0) as Hx.
  { intros x Hx. pose proof (cover_nonneg A x). destruct (decide (cover A x = 0)); [done|].
    destruct (Hf x Hx) as [Hno _]. destruct Hno. apply Ho. lia. }
  assert (mem ∉ addrs A) as Hmem.
  { intros (c & Ec & Hin)%list_elem_of_fmap. pose proof (awf_block _ c Hw Hin) as Hcok. ok_facts.
    pose proof (cover_elem c A mem Hin ltac:(lia)) as Hcov. rewrite Hx in Hcov by lia. done. }
  set (h1 := h <| source := p' |> <| blocks ::= _ |>).
  assert (heap_rep h1 A) as Hr1.
  { split; [|apply Hr]. by apply seg_insert_ne, Hr. }
  destruct (insert_spec h1 A b) as (R2 & B2 & S2); try done.
  { apply lookup_insert_eq. }
  change (a_addr b) with mem in *. rewrite S2. split_and!; try done.
  - apply awf_snoc; try done. intros x Hx'. apply Hx. cbn in Hx'. lia.
  - intros x. rewrite cover_app. cbn. unfold covers. case_decide as Hd; intros Hpos.
    + cbn in Hd. apply Hf. lia.
    + apply Hmono, Ho. lia.
Qed.

Lemma merge_next_miss h A1 b c A2 :
  awf (A1 ++ b :: c :: A2) → heap_rep h (A1 ++ b :: c :: A2) → a_free c && joinable b c = false →
  heap_merge_next h (a_addr b) = h.
Proof.
  intros Hwf Hrep Hj. rewrite merge_next_absorb, (rep_blk h A1 b (c :: A2) Hrep). cbn [b_next hd_addr].
  assert (heap_rep h ((A1 ++ [b]) ++ c :: A2)) as Hrep2 by (by rewrite <- app_assoc).
  cbv zeta. rewrite (rep_blk h (A1 ++ [b]) c A2 Hrep2). cbn [b_free].
  unfold adjacent. rewrite (rep_blk h A1 b (c :: A2) Hrep). cbn [b_size]. unfold SIZEOF_BLOCK.
  rewrite block_end_eq by (eapply awf_block; [done|set_solver]).
  rewrite <- andb_assoc. fold (joinable b c). by rewrite Hj, andb_false_r.
Qed.

(** Absorbing the last block leaves its stale header in place. *)
Lemma merge_next_last_frame h a x :
  a ≠ x → b_next (blk h a) = x → b_next (blk h x) = 0 → blk (heap_merge_next h a) x = blk h x.
Proof.
  intros Hne Ha Hx. rewrite merge_next_absorb, Ha. cbv zeta. case_if; [|done].
  unfold absorb, set_back. set (h1 := blk_upd a _ (blk_upd a _ h)).
  assert (blk h1 x = blk h x) as E.
  { unfold h1, blk, blk_upd. cbn. by rewrite !lookup_total_insert_ne. }
  rewrite E, Hx. done.
Qed.

(** Growing into the free last block [l] of a coalesced heap: [l] absorbs the
    fresh block and nothing else moves. *)
Lemma grow_absorb h A0 l b :
  awf (A0 ++ [l; b]) → heap_rep h (A0 ++ [l; b]) → coalesced (A0 ++ [l]) →
  a_free l = true → a_free b = true → joinable l b = true →
  let h' := heap_merge_if_possible h (a_addr l) in
  let l' := l <| a_size ::= λ s, s + 32 + a_size b |> in
  acoalesce A0 l [b] = A0 ++ [l'] ∧ b_prev (blk h' (a_addr b)) = a_addr l.
Proof.
  intros Hwf Hrep Hco Hl Hb Hj h' l'.
  assert (amerge l [b] = [l']) as Eam by (cbn; by rewrite Hb, Hj).
  destruct (merge_next_spec h A0 l [b] Hwf Hrep) as (R1 & _). rewrite Eam in R1.
  destruct (amerge_awf A0 l [b] Hwf) as [W1 _]. rewrite Eam in W1.
  assert (heap_rep h ((A0 ++ [l]) ++ [b])) as Hrep2 by (by rewrite <- app_assoc).
  pose proof (rep_blk h (A0 ++ [l]) b [] Hrep2) as Bb. rewrite last_addr_app in Bb. cbn in Bb.
  assert (block_ok l) as Hlok by (eapply awf_block; [exact Hwf|solve_in]).
  assert (block_ok b) as Hbok by (eapply awf_block; [exact Hwf|solve_in]).
  assert (blk (heap_merge_next h (a_addr l)) (a_addr b) = blk h (a_addr b)) as B1.
  { apply merge_next_last_frame; [|by rewrite (rep_blk h A0 l [b] Hrep)|by rewrite Bb].
    unfold joinable in Hj. bool_hyps. ok_facts. lia. }
  assert (heap_merge_prev (heap_merge_next h (a_addr l)) (a_addr l) = heap_merge_next h (a_addr l)
          ∧ acoalesce A0 l [b] = A0 ++ [l']) as [E1 E2].
  { unfold acoalesce. rewrite Eam.
    destruct (reverse A0) as [|p A00] eqn:Er; apply (f_equal reverse) in Er;
      rewrite reverse_involutive in Er; subst A0; [split; [exact (merge_prev_first _ l' [] R1)|done]|].
    rewrite reverse_cons, <- ?app_assoc in *. cbn [app] in *.
    rewrite (merge_prev_next _ (reverse A00) p l' [] W1 R1 Hl : heap_merge_prev _ (a_addr l) = _).
    destruct (a_free p) eqn:Ep; [|done].
    assert (a_free l' && joinable p l' = false) as Hmiss.
    { apply coalesced_app in Hco as [_ [Hco _]]. unfold linkable in Hco. by rewrite Ep in Hco. }
    split; [exact (merge_next_miss _ _ _ l' [] W1 R1 Hmiss)|]. cbn [amerge]. by rewrite Hmiss. }
  split; [done|]. unfold h', heap_merge_if_possible.
  rewrite (proj2 (Z.eqb_neq _ 0)) by (ok_facts; lia). by rewrite E1, B1, Bb.
Qed.

(** [heap_grow] on a coalesced heap: a fresh block is appended, or absorbed
    into the free last block; either way the returned block is the free last
    block of the new list and large enough. *)
Lemma grow_spec h A n :
  heap_inv h A → 0 ≤ n ≤ 2 ^ 43 → n mod 16 = 0 →
  match heap_grow h n with
  | Panic => (page_alloc (source h) (grow_pages n)).1 = 0
  | Done (a, h') =>
      ∃ A1 b, heap_inv h' (A1 ++ [b]) ∧ a = a_addr b ∧ a_free b = true ∧ n ≤ a_size b
              ∧ live (A1 ++ [b]) = live A ∧ hbytes h' = hbytes h
              ∧ (length (A1 ++ [b]) ≤ length A + 1)%nat ∧ ∀ x, cover A x ≤ cover (A1 ++ [b]) x
  end.
Proof.
  intros Hinv Hn Hm. unfold heap_grow. fold (grow_pages n).
  destruct (grow_pages_bounds n Hn Hm) as [Hg Hg'].
  rewrite (proj2 (Z.eqb_neq (grow_pages n) 0)) by lia.
  rewrite u32_small by (change 4294967296 with (2 ^ 32); lia).
  destruct (page_alloc (source h) (grow_pages n)) as [mem p'] eqn:Hal. cbn [fst].
  destruct (mem =? 0) eqn:E0; bool_hyps; [done|].
  destruct (grow_append h A _ mem p' Hinv Hg Hal E0) as (Hsz & R & W & O & S & B & Hmem).
  set (b := AB mem (grow_pages n *₆₄ PAGE_SIZE -₆₄ SIZEOF_BLOCK) true) in *.
  set (h2 := heap_insert_block _ mem) in *.
  destruct A as [|l A0 _] using rev_ind.
  - rewrite (rep_blk h2 [] b [] R : blk h2 mem = _). cbn [b_prev last_addr Z.eqb negb andb].
    exists [], b. split_and!; try done; try lia.
    intros x. cbn. pose proof (covers_range b x). lia.
  - rewrite <- app_assoc in *. cbn [app] in *.
    assert (heap_rep h2 ((A0 ++ [l]) ++ b :: [])) as R' by (by rewrite <- app_assoc).
    pose proof (rep_blk h2 (A0 ++ [l]) b [] R' : blk h2 mem = _) as Bm.
    pose proof (rep_blk h2 A0 l [b] R) as Bl. rewrite Bm, last_addr_app. cbn [b_prev last_addr].
    assert (block_ok l) as Hlok by (eapply awf_block; [exact W|set_solver]).
    rewrite Bl. cbn [b_free b_size]. unfold SIZEOF_BLOCK. rewrite block_end_eq by done.
    rewrite (proj2 (Z.eqb_neq (a_addr l) 0)) by (ok_facts; lia). cbn [negb andb].
    change mem with (a_addr b). fold (joinable l b). pose proof (hi_coalesced _ _ Hinv) as Hcoal.
    destruct (a_free l && joinable l b) eqn:Ej; bool_hyps.
    + destruct (merge_spec h2 A0 l [b]) as (R3 & W3 & C3 & B3 & S3); try done.
      destruct (grow_absorb h2 A0 l b) as [Ea Ep]; try done. rewrite Ep, Ea in *.
      exists A0, (l <| a_size ::= λ s, s + 32 + a_size b |>). split_and!; try done.
      * split; try done; rewrite ?S3; [intros x; rewrite C3; apply O|done|].
        by apply (coalesced_last _ l).
      * change (n ≤ a_size l + 32 + a_size b). ok_facts. lia.
      * rewrite !live_app. by rewrite !live_free.
      * congruence.
      * rewrite !length_app. cbn. lia.
      * intros x. rewrite C3, !cover_app. cbn. pose proof (covers_range b x). lia.
    + exists (A0 ++ [l]), b. rewrite <- app_assoc. split_and!; try done; try lia.
      * split; try done. apply coalesced_app. split; [done|]. cbn. split; [|done].
        unfold linkable. by rewrite <- andb_assoc, (andb_comm (a_free b)), andb_assoc, Ej.
      * by rewrite app_assoc, live_app, live_free, app_nil_r.
      * rewrite !length_app. cbn. lia.
      * intros x. rewrite !cover_app. cbn. pose proof (covers_range b x). lia.
Qed.

(** What a successful [kmalloc] of [n] bytes returns. *)
Definition allocated h (A : list ablock) (n ptr : Z) h' (A' : list ablock) (b : ablock) : Prop :=
  heap_inv h' A' ∧ live A' ≡ₚ b :: live A ∧ ptr = a_addr b + 32 ∧ n ≤ a_size b
  ∧ hbytes h' = hbytes h ∧ (length A' ≤ length A + 2)%nat ∧ ∀ x, cover A x ≤ cover A' x.

Lemma ause_length b n : (length (ause b n) ≤ 2)%nat.
Proof. unfold ause, asplit. case_if; cbn; lia. Qed.

Lemma kmalloc_finish h h1 A A1 b A2 n aligned :
  heap_inv h1 (A1 ++ b :: A2) → a_free b = true → n ≤ aligned → 0 ≤ aligned ≤ a_size b →
  aligned mod 16 = 0 → live (A1 ++ b :: A2) = live A → hbytes h1 = hbytes h →
  (length (A1 ++ b :: A2) ≤ length A + 1)%nat → (∀ x, cover A x ≤ cover (A1 ++ b :: A2) x) →
  let h' := blk_upd (a_addr b) (λ k, k <| b_free := false |>)
              (heap_split_block h1 (a_addr b) aligned) in
  ∃ A' b', allocated h A n (a_addr b +₆₄ SIZEOF_BLOCK) h' A' b'.
Proof.
  intros Hinv Hf Hn Ha Hm Hl Hb Hlen Hc h'.
  destruct (use_inv h1 A1 b A2 aligned Hinv Hf Ha Hm) as (I & B & C).
  destruct (taken_props b aligned Ha) as [Ta Tn].
  exists (A1 ++ ause b aligned ++ A2), (taken b aligned). split_and!; try done.
  - rewrite <- Hl. by apply ause_live.
  - rewrite Ta. pose proof (awf_block _ b (hi_wf _ _ Hinv) ltac:(solve_in)) as Hok. ok_facts.
    unfold SIZEOF_BLOCK. word_simp. done.
  - lia.
  - by rewrite <- Hb.
  - pose proof (ause_length b aligned). rewrite !length_app in *. cbn [length] in Hlen. lia.
  - intros x. rewrite C. apply Hc.
Qed.

Lemma kmalloc_result h A n :
  heap_inv h A → 0 < n ≤ 2 ^ 43 - 16 →
  match kmalloc h n with
  | Done (ptr, h') => ∃ A' b, allocated h A n ptr h' A' b
  | Panic => Forall (λ b, fits (heap_align n) b = false) A
             ∧ (page_alloc (source h) (grow_pages (heap_align n))).1 = 0
  end.
Proof.
  intros Hinv Hn. change (2 ^ 43) with 8796093022208 in Hn. unfold kmalloc.
  rewrite (proj2 (Z.eqb_neq n 0)) by lia.
  destruct (heap_align_bounds n ltac:(lia)) as [Ha Hm].
  destruct (find_fit_spec h A (heap_align n) (hi_wf _ _ Hinv) (hi_rep _ _ Hinv))
    as [[-> Hno]|(A1 & b & A2 & -> & -> & Hfit & _)]; cbn [outcome_bind].
  - pose proof (grow_spec h A (heap_align n) Hinv ltac:(change (2 ^ 43) with 8796093022208; lia) Hm) as Hg.
    cbn [Z.eqb]. destruct (heap_grow h (heap_align n)) as [[a h1]|]; [|done].
    destruct Hg as (A1 & b & I & -> & Hf & Hs & Hl & Hb & Hlen & Hc). cbn [outcome_bind].
    pose proof (awf_block _ b (hi_wf _ _ I) ltac:(solve_in)) as Hok.
    rewrite (proj2 (Z.eqb_neq _ 0)) by (ok_facts; lia).
    eapply kmalloc_finish; try done; lia.
  - unfold fits in Hfit. bool_hyps.
    pose proof (awf_block _ b (hi_wf _ _ Hinv) ltac:(solve_in)) as Hok.
    rewrite (proj2 (Z.eqb_neq _ 0)) by (ok_facts; lia). cbn [outcome_bind].
    rewrite (proj2 (Z.eqb_neq _ 0)) by (ok_facts; lia).
    eapply kmalloc_finish; try done; lia.
Qed.


(** ** Release *)
Lemma kfree_result h A b :
  heap_inv h A → Z.of_nat (length A) ≤ 1000000 → b ∈ live A →
  ∃ h' A', kfree h (a_addr b + 32) = Done h' ∧ heap_inv h' A'
    ∧ b :: live A' ≡ₚ live A ∧ hbytes h' = hbytes h ∧ ∀ x, cover A' x = cover A x.
Proof.
  intros Hinv Hl Hb. unfold live in Hb. apply list_elem_of_filter in Hb as [Hf Hb].
  pose proof (awf_block _ b (hi_wf _ _ Hinv) Hb) as Hok.
  unfold kfree, SIZEOF_BLOCK. rewrite (proj2 (Z.eqb_neq _ 0)) by (ok_facts; lia).
  replace (a_addr b + 32 -₆₄ 32) with (a_addr b) by (ok_facts; word_simp; lia).
  rewrite (in_list_spec h A) by (apply Hinv || done || ok_facts; lia).
  rewrite bool_decide_true by (by apply list_elem_of_fmap_2). cbn [outcome_bind negb].
  apply list_elem_of_split in Hb as (A1 & A2 & ->). destruct Hinv as [Hr Hw Ho Hs Hc].
  rewrite (rep_blk h A1 b A2 Hr). cbn [b_free]. rewrite Hf.
  pose proof (set_free_spec h A1 b A2 true Hw Hr) as R1.
  destruct (set_free_awf A1 b A2 true Hw) as [W1 C1].
  destruct (merge_spec _ A1 (b <| a_free := true |>) A2 W1 R1 eq_refl) as (R2 & W2 & C2 & B2 & S2).
  change (a_addr (b <| a_free := true |>)) with (a_addr b) in *.
  eexists _, _. split_and!; [done|split; rewrite ?S2; try done| |done|].
  - intros x. rewrite C2, C1. apply Ho.
  - by apply acoalesce_coalesced.
  - rewrite acoalesce_live by done. rewrite !live_app, (live_used b) by done. apply Permutation_middle.
  - intros x. by rewrite C2, C1.
Qed.


(** [kfree] of an address that is no payload of a block of the heap, and of
    the payload of a block that is already free, panics. *)
Theorem kfree_rejects h A ptr :
  heap_inv h A → Z.of_nat (length A) ≤ 1000000 → 32 < ptr < 2 ^ 64 →
  (∀ b, b ∈ live A → ptr ≠ a_addr b + 32) → kfree h ptr = Panic.
Proof.
  intros Hinv Hl Hp Hno. unfold kfree, SIZEOF_BLOCK. change (2 ^ 64) with 18446744073709551616 in Hp.
  rewrite (proj2 (Z.eqb_neq _ 0)) by lia. word_simp.
  rewrite (in_list_spec h A) by (apply Hinv || done || lia). cbn [outcome_bind].
  case_bool_decide as Hin; [|done]. apply list_elem_of_fmap in Hin as (b & Eb & Hb). cbn [negb].
  pose proof Hb as Hb'. apply list_elem_of_split in Hb' as (A1 & A2 & ->). rewrite Eb.
  rewrite (rep_blk h A1 b A2 (hi_rep _ _ Hinv)). cbn [b_free].
  destruct (a_free b) eqn:Ef; [done|]. destruct (Hno b); [|lia].
  apply list_elem_of_filter. done.
Qed.

(** ** kcalloc *)
Lemma heap_inv_bytes h A m : heap_inv h A → heap_inv (h <| hbytes := m |>) A.
Proof. intros []. by split. Qed.

(** [kcalloc] behaves as [kmalloc] of the product, with the whole payload
    zeroed and no other byte changed. *)
Theorem kcalloc_correct h A count size :
  heap_inv h A → 0 < count → 0 < size → count * size ≤ 2 ^ 43 - 16 →
  match kcalloc h count size with
  | Done (ptr, h') => ∃ A' b, heap_inv h' A' ∧ live A' ≡ₚ b :: live A ∧ ptr = a_addr b + 32
      ∧ count * size ≤ a_size b
      ∧ ∀ x, hbytes h' !!! x = if decide (ptr ≤ x < ptr + count * size) then 0 else hbytes h !!! x
  | Panic => (page_alloc (source h) (grow_pages (heap_align (count * size)))).1 = 0
  end.
Proof.
  intros Hinv Hc Hs Ht. unfold kcalloc. rewrite !(proj2 (Z.eqb_neq _ 0)) by lia. cbn [orb].
  pose proof (kmalloc_result h A (count * size) Hinv ltac:(nia)) as Hk.
  change (2 ^ 43) with 8796093022208 in Ht. rewrite (u64_small (count * size)) by nia.
  rewrite Z.div_mul by lia. rewrite Z.eqb_refl. cbn [negb].
  destruct (kmalloc h (count * size)) as [[ptr h1]|]; cbn [outcome_bind]; [|apply Hk].
  destruct Hk as (A' & b & I & L & -> & Hn & Hb & _).
  assert (b ∈ A') as Hin.
  { assert (b ∈ live A') as Hl by (rewrite L; by left). by apply list_elem_of_filter in Hl as [_ ?]. }
  pose proof (awf_block _ b (hi_wf _ _ I) Hin) as Hok.
  rewrite (proj2 (Z.eqb_neq _ 0)) by (ok_facts; lia).
  exists A', b. split_and!; try done; [exact (heap_inv_bytes h1 A' _ I)|].
  intros x. cbn. rewrite memset_at by nia. by rewrite Hb.
Qed.

(** [kcalloc] detects every product that does not fit in 64 bits. *)
Theorem kcalloc_overflow h count size :
  0 ≤ count < 2 ^ 64 → 0 ≤ size < 2 ^ 64 → 2 ^ 64 ≤ count * size →
  kcalloc h count size = Done (0, h).
Proof.
  intros Hc Hs Ho. unfold kcalloc. change (2 ^ 64) with 18446744073709551616 in *.
  rewrite !(proj2 (Z.eqb_neq _ 0)) by nia. cbn [orb].
  pose proof (u64_range (count * size)) as Hr.
  destruct (_ / size =? count) eqn:E; [|done]. bool_hyps.
  pose proof (Z.mul_div_le (count *₆₄ size) size ltac:(nia)). nia.
Qed.

(** ** krealloc *)
Lemma live_blk h A b :
  heap_inv h A → b ∈ live A → b_size (blk h (a_addr b)) = a_size b.
Proof.
  intros Hinv [_ (A1 & A2 & ->)%list_elem_of_split]%list_elem_of_filter.
  by rewrite (rep_blk h A1 b A2 (hi_rep _ _ Hinv)).
Qed.

Lemma live_ok A b : awf A → b ∈ live A → block_ok b.
Proof. intros Hw [_ Hb]%list_elem_of_filter. by eapply awf_block. Qed.

(** Two live blocks do not overlap. *)
Lemma live_apart A b c :
  awf A → b ∈ live A → c ∈ live A → b ≠ c →
  a_addr b + 32 + a_size b ≤ a_addr c ∨ a_addr c + 32 + a_size c ≤ a_addr b.
Proof.
  intros Hw Hb Hc Hne. pose proof (live_ok A b Hw Hb). pose proof (live_ok A c Hw Hc). ok_facts.
  apply list_elem_of_filter in Hb as [_ Hb]. apply list_elem_of_filter in Hc as [_ Hc].
  destruct (decide (a_addr b + 32 + a_size b ≤ a_addr c)); [by left|right].
  destruct (decide (a_addr c + 32 + a_size c ≤ a_addr b)); [done|].
  destruct Hne. apply (awf_disjoint A b c (Z.max (a_addr b) (a_addr c))); done || lia.
Qed.

Lemma awf_nodup A : awf A → NoDup A.
Proof. intros Hw%awf_addrs_nodup. by eapply NoDup_fmap_1. Qed.

(** The block a list of live blocks gained is none of the old ones. *)
Lemma live_fresh A A' b b' :
  awf A' → live A' ≡ₚ b' :: live A → b ∈ live A → b ≠ b'.
Proof.
  intros Hw Hl Hb ->. assert (NoDup (live A')) as Hnd by (apply NoDup_filter; by apply awf_nodup).
  rewrite Hl in Hnd. by apply NoDup_cons in Hnd as [? _].
Qed.

(** Growing a live block [b]: a new live block replaces it, the old payload
    is copied and the payload of every other live block is unchanged. *)
Theorem krealloc_grow_correct h A b n :
  heap_inv h A → Z.of_nat (length A) ≤ 999998 → b ∈ live A → a_size b < n ≤ 2 ^ 43 - 16 →
  match krealloc h (a_addr b + 32) n with
  | Done (ptr, h') => ∃ A' b', heap_inv h' A' ∧ b :: live A' ≡ₚ b' :: live A
      ∧ ptr = a_addr b' + 32 ∧ n ≤ a_size b'
      ∧ (∀ i, 0 ≤ i < a_size b → hbytes h' !!! (ptr + i) = hbytes h !!! (a_addr b + 32 + i))
      ∧ ∀ c x, c ∈ live A → a_addr c ≤ x < a_addr c + 32 + a_size c → hbytes h' !!! x = hbytes h !!! x
  | Panic => (page_alloc (source h) (grow_pages (heap_align n))).1 = 0
  end.
Proof.
  intros Hinv Hl Hb Hn. pose proof Hb as [Hbf Hbin]%list_elem_of_filter.
  pose proof (awf_block _ b (hi_wf _ _ Hinv) Hbin) as Hok.
  unfold krealloc. rewrite !(proj2 (Z.eqb_neq _ 0)) by (ok_facts; lia).
  unfold SIZEOF_BLOCK. replace (a_addr b + 32 -₆₄ 32) with (a_addr b) by (ok_facts; word_simp; lia).
  rewrite (live_blk h A b) by done. rewrite (proj2 (Z.leb_gt _ _)) by lia.
  pose proof (kmalloc_result h A n Hinv ltac:(ok_facts; lia)) as Hk.
  destruct (kmalloc h n) as [[ptr h1]|]; cbn [outcome_bind]; [|apply Hk].
  destruct Hk as (A1 & b' & I & L & -> & Hn' & Hby & Hlen & _).
  assert (b' ∈ live A1) as Hb1 by (rewrite L; by left).
  assert (b ∈ live A1) as Hb2 by (rewrite L; by right).
  assert (b ≠ b') as Hne by (by apply (live_fresh A A1); [apply I|..]).
  pose proof (live_apart A1 b b' (hi_wf _ _ I) Hb2 Hb1 Hne) as Hap.
  pose proof (live_ok A1 b' (hi_wf _ _ I) Hb1) as Hok'.
  rewrite (proj2 (Z.eqb_neq _ 0)) by (ok_facts; lia).
  rewrite (live_blk h1 A1 b) by done.
  set (h2 := h1 <| hbytes ::= _ |>).
  destruct (kfree_result h2 A1 b) as (h3 & A3 & -> & I3 & L3 & B3 & _); [by apply heap_inv_bytes|lia|done|].
  cbn [outcome_bind]. exists A3, b'. rewrite L3, L. split_and!; try done.
  - intros i Hi. rewrite B3. cbn. rewrite memcpy_at, decide_True by (ok_facts; lia).
    rewrite Hby. f_equal. lia.
  - intros c x Hc Hx. assert (c ∈ live A1) as Hc1 by (rewrite L; by right).
    pose proof (live_apart A1 c b' (hi_wf _ _ I) Hc1 Hb1 ltac:(by apply (live_fresh A A1); [apply I|..])).
    rewrite B3. cbn. rewrite memcpy_at by (ok_facts; lia). by rewrite decide_False, Hby by (ok_facts; lia).
Qed.

Lemma asplit_live A1 b A2 n :
  a_free b = false → n ≤ a_size b →
  ∃ b', b :: live (A1 ++ asplit b n ++ A2) ≡ₚ b' :: live (A1 ++ b :: A2)
        ∧ a_addr b' = a_addr b ∧ n ≤ a_size b' ≤ a_size b.
Proof.
  intros Hf Hn. unfold asplit. case_if; bool_hyps; [by exists b|].
  exists (b <| a_size := n |>). split; [|cbn; lia].
  rewrite !live_app, (live_used b A2) by done. rewrite (live_used (b <| a_size := n |>)) by done.
  rewrite live_free by done. cbn [live filter list_filter app]. rewrite <- !Permutation_middle.
  apply perm_swap.
Qed.

(** Shrinking a live block in place: the block keeps its address and at least
    [n] bytes, the rest becomes a free block, nothing else changes.  The new
    free block is not coalesced with the one after it. *)
Theorem krealloc_shrink_correct h A b n :
  heap_inv h A → b ∈ live A → 0 < n ≤ a_size b →
  ∃ h' A' b', krealloc h (a_addr b + 32) n = Done (a_addr b + 32, h')
    ∧ heap_rep h' A' ∧ awf A' ∧ (∀ x, cover A' x = cover A x)
    ∧ hbytes h' = hbytes h ∧ source h' = source h
    ∧ b :: live A' ≡ₚ b' :: live A ∧ a_addr b' = a_addr b ∧ n ≤ a_size b' ≤ a_size b.
Proof.
  intros Hinv Hb Hn. pose proof (live_ok A b (hi_wf _ _ Hinv) Hb) as Hok.
  unfold krealloc. rewrite !(proj2 (Z.eqb_neq _ 0)) by (ok_facts; lia).
  unfold SIZEOF_BLOCK. replace (a_addr b + 32 -₆₄ 32) with (a_addr b) by (ok_facts; word_simp; lia).
  rewrite (live_blk h A b) by done. rewrite (proj2 (Z.leb_le _ _)) by lia.
  apply list_elem_of_filter in Hb as [Hf (A1 & A2 & ->)%list_elem_of_split].
  destruct Hinv as [Hr Hw Ho Hs Hc].
  destruct (split_spec h A1 b A2 n Hw Hr ltac:(lia)) as (R & B & S).
  destruct (heap_align_bounds n) as [Ha Hm]; [ok_facts; lia|].
  assert (heap_align n ≤ a_size b) as Hle by (ok_facts; apply heap_align_le; lia).
  destruct (asplit_awf A1 b A2 (heap_align n) Hw ltac:(lia) Hm) as [W C].
  destruct (asplit_live A1 b A2 (heap_align n) Hf Hle) as (b' & L & Ea & Es).
  eexists _, _, b'. split_and!; try done; lia.
Qed.

(** ** Initialisation *)

(** [heap_init] on an empty heap makes a heap of one free block. *)
Theorem heap_init_correct h n :
  heap_head h = 0 → source_ok (source h) → 0 ≤ n < 2 ^ 32 →
  let pages := if n =? 0 then 16 else n in
  match heap_init h n with
  | Done (rc, h') => rc = RDNX_OK ∧ ∃ b, heap_inv h' [b] ∧ a_free b = true
                     ∧ a_size b = 4096 * pages - 32
  | Panic => (page_alloc (source h) pages).1 = 0
  end.
Proof.
  intros Hh Hs Hn pages. unfold heap_init. rewrite Hh. cbn [Z.eqb negb]. fold pages.
  assert (0 < pages < 2 ^ 32) as Hp by (unfold pages; case_if; bool_hyps; lia).
  change (2 ^ 32) with 4294967296 in *. rewrite u32_small by lia.
  destruct (page_alloc (source h) pages) as [mem p'] eqn:Hal. cbn [fst].
  destruct (mem =? 0) eqn:E0; bool_hyps; [done|]. split; [done|].
  destruct (page_alloc_fresh _ _ _ _ Hs Hp Hal E0) as (Hs' & Hpos & Hm & He & Hf & _).
  change (2 ^ 64) with 18446744073709551616 in He.
  assert (pages *₆₄ PAGE_SIZE -₆₄ SIZEOF_BLOCK = 4096 * pages - 32) as ->.
  { unfold PAGE_SIZE, SIZEOF_BLOCK. word_simp. lia. }
  exists (AB mem (4096 * pages - 32) true). split_and!; try done. split; try done.
  - split; [|done]. split; [|done]. apply lookup_insert_eq.
  - split.
    + constructor; [|done]. unfold block_ok. cbn. Z.to_euclidean_division_equations; lia.
    + intros x. cbn. pose proof (covers_range (AB mem (4096 * pages - 32) true) x). lia.
  - intros x. cbn. unfold covers. cbn. case_decide; [|done]. intros _. apply Hf. lia.
Qed.

End proofs.

(** ** A concrete page source

    Pages are handed out in ascending order from 2 MiB, up to 2^40. *)
Module Bump.

#[export] Instance bump_ops : PageOps Z :=
  λ p n, if p + 4096 * n <=? 2 ^ 40 then (p, p + 4096 * n) else (0, p).

#[export] Program Instance bump_source : PageSource Z := {
  source_ok p := 2097152 ≤ p ∧ p mod 4096 = 0;
  owned p x := 2097152 ≤ x < p
}.
Next Obligation.
  intros p count v p' [Hp Hm] Hc Hal Hv. unfold page_alloc, bump_ops in Hal.
  change (2 ^ 40) with 1099511627776 in Hal. change (2 ^ 64) with 18446744073709551616.
  case_if; simplify_eq; bool_hyps. split_and!; try lia.
  rewrite Z.mul_comm, Z.mod_add by lia. done.
Qed.

Definition empty_heap : heap_state Z := mk_heap ∅ 0 0 ∅ 2097152.

(** One page, of which 1000 bytes are allocated. *)
Definition demo_heap : outcome (heap_state Z) :=
  let! (_, h) := heap_init empty_heap 1 in
  let! (_, h) := kmalloc h 1000 in
  Done h.

Definition demo_state : heap_state Z :=
  match demo_heap with Done h => h | Panic => empty_heap end.

Definition demo_live : ablock := AB 2097152 1008 false.
Definition demo_blocks : list ablock := [demo_live; AB 2098192 3024 true].

Lemma demo_heap_inv : heap_inv demo_state demo_blocks.
Proof.
  split.
  - by vm_compute.
  - split; [by repeat constructor|]. intros x. cbn. unfold covers. cbn. repeat case_decide; lia.
  - intros x. cbn. unfold covers. cbn. change (source demo_state) with 2101248.
    repeat case_decide; try lia; intros _; cbn; lia.
  - by vm_compute.
  - done.
Qed.

Lemma demo_in_live : demo_live ∈ live demo_blocks.
Proof. cbn. by left. Qed.



Lemma kfree_rejects_witness : kfree demo_state 2098224 = Panic.
Proof.
  apply (kfree_rejects demo_state demo_blocks 2098224 demo_heap_inv); [done|done|].
  intros b Hb. cbn in Hb. apply list_elem_of_singleton in Hb as ->. cbn. lia.
Defined.

Lemma kcalloc_correct_witness :
  match kcalloc demo_state 10 20 with
  | Done (ptr, h') => ∃ A' b, heap_inv h' A' ∧ live A' ≡ₚ b :: live demo_blocks
      ∧ ptr = a_addr b + 32 ∧ 10 * 20 ≤ a_size b
      ∧ ∀ x, hbytes h' !!! x = if decide (ptr ≤ x < ptr + 10 * 20) then 0 else hbytes demo_state !!! x
  | Panic => False
  end.
Proof.
  pose proof (kcalloc_correct demo_state demo_blocks 10 20 demo_heap_inv
    ltac:(done) ltac:(done) ltac:(done)) as Hk.
  assert (returns (kcalloc demo_state 10 20) = true) as E by (by vm_compute).
  destruct (kcalloc demo_state 10 20) as [[ptr h']|]; [exact Hk|discriminate E].
Defined.

Lemma kcalloc_overflow_witness : kcalloc demo_state (2 ^ 33) (2 ^ 32) = Done (0, demo_state).
Proof. apply (kcalloc_overflow demo_state (2 ^ 33) (2 ^ 32)); done. Defined.

Lemma krealloc_grow_correct_witness :
  match krealloc demo_state (2097152 + 32) 2000 with
  | Done (ptr, h') => ∃ A', heap_inv h' A'
  | Panic => False
  end.
Proof.
  pose proof (krealloc_grow_correct demo_state demo_blocks demo_live 2000 demo_heap_inv
    ltac:(done) demo_in_live ltac:(done)) as Hk.
  change (a_addr demo_live + 32) with (2097152 + 32) in Hk.
  assert (returns (krealloc demo_state (2097152 + 32) 2000) = true) as E by (by vm_compute).
  destruct (krealloc demo_state (2097152 + 32) 2000) as [[ptr h']|].
  - destruct Hk as (A' & b' & Hi & _). exists A'. exact Hi.
  - discriminate E.
Defined.

Lemma krealloc_shrink_correct_witness :
  ∃ h' A', krealloc demo_state (2097152 + 32) 100 = Done (2097152 + 32, h')
    ∧ heap_rep h' A' ∧ awf A'.
Proof.
  destruct (krealloc_shrink_correct demo_state demo_blocks demo_live 100 demo_heap_inv
    demo_in_live ltac:(done)) as (h' & A' & b' & Hk & Hr & Hw & _).
  exists h', A'. split; [exact Hk|]. split; [exact Hr|exact Hw].
Defined.

Lemma heap_init_correct_witness :
  match heap_init empty_heap 1 with
  | Done (rc, h') => rc = RDNX_OK ∧ ∃ b, heap_inv h' [b] ∧ a_free b = true ∧ a_size b = 4096 * 1 - 32
  | Panic => False
  end.
Proof.
  pose proof (heap_init_correct empty_heap 1 ltac:(done) ltac:(done) ltac:(done)) as Hk.
  assert (returns (heap_init empty_heap 1) = true) as E by (by vm_compute).
  destruct (heap_init empty_heap 1) as [[rc h']|]; [exact Hk|discriminate E].
Defined.

(** ** Behaviour outside the invariant *)

(** A heap on which [krealloc] shrank a block and [kmalloc] then had to grow. *)
Definition shrink_then_grow : outcome (Z * heap_state Z) :=
  let! (_, h) := heap_init empty_heap 1 in
  let! (a, h) := kmalloc h 1000 in
  let! (_, h) := krealloc h a 100 in
  kmalloc h 8000.

(** After [krealloc] has shrunk a block, two adjacent free blocks stay
    uncoalesced.  When [kmalloc] next grows the heap with contiguous pages,
    [heap_merge_if_possible] folds the last block into the one before it, but
    [heap_grow] returns the folded block: the allocation lies inside a free
    block of the list.  The next allocation overlaps it, and freeing it
    panics. *)
Theorem krealloc_shrink_grow_overlap :
  match shrink_then_grow with
  | Done (p1, h) =>
      kfree h p1 = Panic
      ∧ match kmalloc h 10000 with
        | Done (p2, _) => p2 < p1 ∧ p1 + 8000 ≤ p2 + 10000
        | Panic => False
        end
  | Panic => False
  end.
Proof. vm_compute. split; [done|]. split; [done|]. discriminate. Qed.

(** The size arithmetic of [kmalloc] is not checked.  A request within 15
    bytes of 2^64 is rounded to 0 and served by a block with an empty payload;
    a request of 2^44 bytes asks for 2^32 + 1 pages, of which the cast to 32
    bits leaves one, and is served by a block of which one page exists. *)
Theorem kmalloc_unchecked_size :
  match kmalloc demo_state (2 ^ 64 - 1) with
  | Done (ptr, h) => ptr = 2098224 ∧ b_size (blk h (ptr - 32)) = 0 ∧ b_free (blk h (ptr - 32)) = false
  | Panic => False
  end
  ∧ match kmalloc demo_state (2 ^ 44) with
    | Done (ptr, h) => b_size (blk h (ptr - 32)) = 2 ^ 44 ∧ source h = source demo_state + 4096
    | Panic => False
    end.
Proof. by vm_compute. Qed.

End Bump.
End HeapProofs.
