(* ===== verification/Memory.v ===== *)
(** * Memory subsystem glue (kernel/arch/x86_64/memory.c)

    The kernel's virtual pages are direct-map addresses of physical pages, so
    [vmm_alloc_pages] is [pmm_alloc_pages] plus the base of the direct map.
    The file shows that this is a page source for the heap while physical
    memory fits the 2 GiB window of the direct map, and models how
    [memory_init] chooses the managed window and sets up the physical
    memory manager. *)

From stdpp Require Import base gmap list numbers fin_maps.
From S2P Require Import Prelude Pmm PmmFacts PmmInit KString Heap HeapFacts.

Module Memory.
Import Pmm PmmFacts PmmInit.

Definition X86_64_KERNEL_VIRT_BASE : Z := 18446744071562067968.
Definition PMM_MEMORY_START : Z := 1048576.
Definition PMM_MEMORY_FALLBACK_END : Z := 67108864.

Definition PHYS_TO_VIRT (a : Z) : Z := a +₆₄ X86_64_KERNEL_VIRT_BASE.
Definition VIRT_TO_PHYS (a : Z) : Z := a -₆₄ X86_64_KERNEL_VIRT_BASE.

Record memory_state := mk_memory {
  m_pmm : pmm_state;
  memory_oom_vmm : Z
}.

#[export] Instance memory_eta : EtaRecord memory_state :=
  λ m, mk_memory (m_pmm m) (memory_oom_vmm m).

Definition memory_oom_inc_vmm (m : memory_state) : memory_state :=
  m <| memory_oom_vmm ::= λ n, n +₆₄ 1 |>.

Definition vmm_alloc_page (m : memory_state) (flags : Z) : Z * memory_state :=
  let '(phys, s) := pmm_alloc_page (m_pmm m) in
  let m := m <| m_pmm := s |> in
  if phys =? 0 then (0, m) else (PHYS_TO_VIRT phys, m).

Definition vmm_free_page (m : memory_state) (virt : Z) : memory_state :=
  if virt =? 0 then m
  else m <| m_pmm ::= λ s, pmm_free_page s (VIRT_TO_PHYS virt) |>.

Definition vmm_alloc_pages (m : memory_state) (count flags : Z) : Z * memory_state :=
  let '(phys, s) := pmm_alloc_pages (m_pmm m) count in
  let m := m <| m_pmm := s |> in
  if phys =? 0 then (0, memory_oom_inc_vmm m) else (PHYS_TO_VIRT phys, m).

Definition vmm_free_pages (m : memory_state) (virt count : Z) : memory_state :=
  if (virt =? 0) || (count =? 0) then m
  else m <| m_pmm ::= λ s, pmm_free_pages s (VIRT_TO_PHYS virt) count |>.

Definition page_get_virtual (phys : Z) : Z :=
  if phys <? 4194304 then phys else phys +₆₄ X86_64_KERNEL_VIRT_BASE.

Record memory_info_t := mk_info {
  total_physical : Z; free_physical : Z; used_physical : Z;
  total_virtual : Z; free_virtual : Z; used_virtual : Z;
  info_oom_pmm : Z; info_oom_vmm : Z
}.

Definition memory_get_info (m : memory_state) : memory_info_t :=
  mk_info (total_pages (m_pmm m) *₆₄ PAGE_SIZE) (free_pages (m_pmm m) *₆₄ PAGE_SIZE)
    (used_pages (m_pmm m) *₆₄ PAGE_SIZE) 0 0 0 (oom_pmm (m_pmm m)) (memory_oom_vmm m).

(** ** The choice of the managed window in [memory_init]

    [mmap] is the memory map of the boot loader: the bytes of the tag, its
    size and the size of an entry. *)
Record boot_info_t := mk_boot {
  mem_upper : Z;
  initrd_start : Z;
  initrd_size : Z;
  mmap_addr : option (Z → Z);
  mmap_size : Z;
  mmap_entry_size : Z
}.

Definition has_mmap (bi : option boot_info_t) : bool :=
  match bi with
  | Some b => bool_decide (is_Some (mmap_addr b)) && negb (mmap_size b =? 0)
              && negb (mmap_entry_size b =? 0)
  | None => false
  end.

Definition has_initrd (bi : option boot_info_t) : bool :=
  match bi with
  | Some b => negb (initrd_start b =? 0) && negb (initrd_size b =? 0)
  | None => false
  end.

Definition initrd_end (bi : option boot_info_t) : Z :=
  match bi with
  | Some b => initrd_start b +₆₄ initrd_size b
  | None => 0
  end.

Definition choose_mem_end (bi : option boot_info_t) : Z :=
  let mem_end := match bi with
                 | Some b => if PMM_MEMORY_START <? mem_upper b then mem_upper b
                             else PMM_MEMORY_FALLBACK_END
                 | None => PMM_MEMORY_FALLBACK_END
                 end in
  let max_pages := PMM_BITMAP_MAX_SIZE * 8 in
  let max_mem_end := PMM_MEMORY_START + max_pages * PAGE_SIZE in
  let mem_end := if max_mem_end <? mem_end then max_mem_end else mem_end in
  if negb (has_mmap bi) then
    if PMM_MEMORY_FALLBACK_END <? mem_end then PMM_MEMORY_FALLBACK_END else mem_end
  else mem_end.

Definition choose_bitmap_phys (bi : option boot_info_t) (kernel_end_phys : Z) : Z :=
  let bitmap_phys := align_up kernel_end_phys in
  if has_initrd bi then
    if bitmap_phys <? initrd_end bi then align_up (initrd_end bi) else bitmap_phys
  else bitmap_phys.

(** [memory_init] up to the reservation of the kernel image and the initial
    RAM disk: [storage] is the memory behind the bitmap address. *)
Definition memory_init_pmm (s : pmm_state) (bi : option boot_info_t) (kernel_end_phys : Z)
    (storage : list Z) : Z * pmm_state :=
  let mem_end := choose_mem_end bi in
  let bitmap_phys := choose_bitmap_phys bi kernel_end_phys in
  let bitmap_virt := PHYS_TO_VIRT bitmap_phys in
  let '(rc, s) :=
    match bi with
    | Some b =>
        if has_mmap bi
        then pmm_init_from_mmap s PMM_MEMORY_START mem_end bitmap_virt bitmap_phys storage
               (mmap_addr b) (mmap_size b) (mmap_entry_size b)
        else pmm_init s PMM_MEMORY_START mem_end bitmap_virt storage
    | None => pmm_init s PMM_MEMORY_START mem_end bitmap_virt storage
    end in
  if negb (rc =? 0) then (-1, s)
  else
    let s := pmm_reserve_range s 1048576 kernel_end_phys in
    match bi with
    | Some b =>
        if has_initrd bi && (initrd_start b <? initrd_end bi)
        then (0, pmm_reserve_range s (initrd_start b) (initrd_end bi))
        else (0, s)
    | None => (0, s)
    end.

(** ** The heap's page source *)
Definition PAGE_FLAG_WRITABLE : Z := 2.

#[export] Instance vmm_ops : PageOps memory_state :=
  λ m n, vmm_alloc_pages m n PAGE_FLAG_WRITABLE.

Definition direct_mapped (m : memory_state) : Prop :=
  pmm_inv (m_pmm m) ∧ memory_end (m_pmm m) < 2 ^ 31.

Definition page_owned (m : memory_state) (x : Z) : Prop :=
  ∃ i, 0 ≤ i < total_pages (m_pmm m) ∧ pmm_bitmap_test (m_pmm m) i = true
       ∧ PHYS_TO_VIRT (pmm_index_to_page (m_pmm m) i) ≤ x
         < PHYS_TO_VIRT (pmm_index_to_page (m_pmm m) i) + 4096.

(** ** Contiguous allocation from any zone *)
Lemma alloc_pages_any s count :
  pmm_inv s → 0 < count < 2 ^ 32 →
  let '(phys, s') := pmm_alloc_pages s count in
  pmm_inv s' ∧ same_geometry s s' ∧
  ((phys = 0 ∧ s' = s)
   ∨ ∃ st zone, phys = pmm_index_to_page s st ∧ phys ≠ 0 ∧ run_taken s s' zone st count).
Proof.
  intros Hinv Hc. unfold pmm_alloc_pages.
  pose proof (alloc_pages_result s PMM_ZONE_NORMAL count Hinv ltac:(done) Hc) as R1.
  pose proof (alloc_pages_geometry s PMM_ZONE_NORMAL count) as G1.
  destruct (pmm_alloc_pages_in_zone s PMM_ZONE_NORMAL count) as [p1 s1]. cbn [snd] in G1.
  destruct R1 as (I1 & [(-> & -> & _)|(st & E & Hp & T)]).
  - cbn [Z.eqb negb].
    pose proof (alloc_pages_result s PMM_ZONE_LOW count Hinv ltac:(done) Hc) as R2.
    pose proof (alloc_pages_geometry s PMM_ZONE_LOW count) as G2.
    destruct (pmm_alloc_pages_in_zone s PMM_ZONE_LOW count) as [p2 s2]. cbn [snd] in G2.
    destruct R2 as (I2 & [(-> & -> & _)|(st & E & Hp & T)]); split_and!; try done; [by left|].
    right. by exists st, PMM_ZONE_LOW.
  - rewrite (proj2 (Z.eqb_neq p1 0)) by done. cbn [negb]. split_and!; try done.
    right. by exists st, PMM_ZONE_NORMAL.
Qed.

Lemma phys_to_virt_eq a : 0 ≤ a < 2 ^ 31 → PHYS_TO_VIRT a = a + X86_64_KERNEL_VIRT_BASE.
Proof.
  intros Ha. change (2 ^ 31) with 2147483648 in Ha. unfold PHYS_TO_VIRT, X86_64_KERNEL_VIRT_BASE.
  by rewrite u64_small by lia.
Qed.

(** The virtual page of a managed page. *)
Lemma page_virt m i :
  direct_mapped m → 0 ≤ i < total_pages (m_pmm m) →
  PHYS_TO_VIRT (pmm_index_to_page (m_pmm m) i)
    = X86_64_KERNEL_VIRT_BASE + memory_start (m_pmm m) + 4096 * i.
Proof.
  intros [Hinv He] Hi. rewrite index_to_page_eq by done. destruct Hinv.
  rewrite phys_to_virt_eq by lia. lia.
Qed.

Lemma vmm_alloc_fresh m count v m' :
  direct_mapped m → 0 < count < 2 ^ 32 → vmm_alloc_pages m count PAGE_FLAG_WRITABLE = (v, m') →
  v ≠ 0 →
  direct_mapped m' ∧ 0 < v ∧ v mod 4096 = 0 ∧ v + 4096 * count < 2 ^ 64
  ∧ (∀ x, v ≤ x < v + 4096 * count → ¬ page_owned m x ∧ page_owned m' x)
  ∧ (∀ x, page_owned m x → page_owned m' x).
Proof.
  intros Hdm Hc Hal Hv. pose proof Hdm as [Hinv He]. unfold vmm_alloc_pages in Hal.
  pose proof (alloc_pages_any (m_pmm m) count Hinv Hc) as Ha.
  destruct (pmm_alloc_pages (m_pmm m) count) as [phys s'].
  destruct Ha as (I & (Gt & Gm & _) & [[-> ->]|(st & zone & Hphys & Hp & T1 & T2 & T3 & T4 & _)]).
  { by simplify_eq/=. }
  rewrite (proj2 (Z.eqb_neq phys 0)) in Hal by done. simplify_eq.
  assert (direct_mapped (m <| m_pmm := s' |>)) as Hdm'.
  { split; [done|]. cbn. rewrite (inv_end _ I), Gt, Gm. by rewrite <- (inv_end _ Hinv). }
  rewrite (page_virt m st Hdm) by lia. split; [done|].
  pose proof (inv_start _ Hinv) as [Hs Hs']. pose proof (inv_end _ Hinv) as Hend.
  set (base := X86_64_KERNEL_VIRT_BASE + memory_start (m_pmm m)).
  assert (0 < base ∧ base mod 4096 = 0 ∧ base + 4096 * total_pages (m_pmm m) < 2 ^ 64) as (B1 & B2 & B3).
  { unfold base, X86_64_KERNEL_VIRT_BASE. change (2 ^ 64) with 18446744073709551616.
    change (2 ^ 31) with 2147483648 in He. Z.to_euclidean_division_equations; lia. }
  assert (∀ i, 0 ≤ i < total_pages (m_pmm m) →
    PHYS_TO_VIRT (pmm_index_to_page s' i) = base + 4096 * i) as V'.
  { intros i Hi. unfold base. rewrite <- Gm. apply (page_virt (m <| m_pmm := s' |>) i Hdm').
    cbn. by rewrite Gt. }
  split_and!; try lia.
  - rewrite Z.mul_comm, Z.mod_add by lia. done.
  - intros x Hx. split.
    + intros (i & Hi & Ht & Hxi). rewrite (page_virt m i Hdm Hi) in Hxi. fold base in Hxi.
      destruct (T3 i) as [Hf _]; [lia|]. congruence.
    + set (i := (x - base) / 4096). assert (st ≤ i < st + count) as Hi
        by (unfold i; Z.to_euclidean_division_equations; lia).
      exists i. cbn. rewrite Gt, T4, decide_True, V' by lia. split_and!; try done; try lia;
        unfold i; Z.to_euclidean_division_equations; lia.
  - intros x (i & Hi & Ht & Hxi). exists i. cbn. rewrite Gt, T4, V' by lia.
    rewrite (page_virt m i Hdm Hi) in Hxi. fold base in Hxi.
    split_and!; try lia. by case_decide.
Qed.

#[export] Instance vmm_source : PageSource memory_state := {
  source_ok := direct_mapped;
  owned := page_owned;
  page_alloc_fresh := vmm_alloc_fresh
}.

(** While physical memory ends below 2 GiB, [vmm_alloc_pages] hands out
    page-aligned, contiguous virtual pages none of which it had handed out
    before: it is a page source for the heap. *)
Theorem vmm_alloc_pages_fresh m count v m' :
  direct_mapped m → 0 < count < 2 ^ 32 → vmm_alloc_pages m count PAGE_FLAG_WRITABLE = (v, m') →
  v ≠ 0 →
  direct_mapped m' ∧ 0 < v ∧ v mod 4096 = 0 ∧ v + 4096 * count < 2 ^ 64
  ∧ (∀ x, v ≤ x < v + 4096 * count → ¬ page_owned m x ∧ page_owned m' x)
  ∧ (∀ x, page_owned m x → page_owned m' x).
Proof. apply vmm_alloc_fresh. Qed.

(** Above 2 GiB the direct-map address wraps around: the frame at 2 GiB maps
    to the null pointer and higher frames to user addresses. *)
Theorem phys_to_virt_wraps phys :
  2 ^ 31 ≤ phys < 2 ^ 64 → PHYS_TO_VIRT phys = phys - 2 ^ 31.
Proof.
  intros Hp. change (2 ^ 31) with 2147483648 in *. change (2 ^ 64) with 18446744073709551616 in Hp.
  unfold PHYS_TO_VIRT, X86_64_KERNEL_VIRT_BASE, u64.
  replace (phys + 18446744071562067968) with (phys - 2147483648 + 1 * 18446744073709551616) by lia.
  rewrite Z.mod_add by lia. apply Z.mod_small. lia.
Qed.

(** ** memory_init *)

(** The window [memory_init] chooses starts at 1 MiB and never needs more
    than the 1 MiB of bitmap the code provides for. *)
Theorem choose_mem_end_bounds bi :
  (∀ b, bi = Some b → 0 ≤ mem_upper b < 2 ^ 64) →
  PMM_MEMORY_START < choose_mem_end bi
  ∧ choose_mem_end bi - PMM_MEMORY_START ≤ PMM_BITMAP_MAX_SIZE * 8 * PAGE_SIZE
  ∧ (has_mmap bi = false → choose_mem_end bi ≤ PMM_MEMORY_FALLBACK_END).
Proof.
  intros Hb. unfold choose_mem_end, PMM_MEMORY_START, PMM_MEMORY_FALLBACK_END,
    PMM_BITMAP_MAX_SIZE, PAGE_SIZE.
  destruct bi as [b|]; repeat case_if; bool_hyps; split_and!; try lia; intros; congruence || lia.
Qed.

Lemma foldl_geometry (f : pmm_state → Z → pmm_state) s l :
  (∀ s a, same_geometry s (f s a)) → same_geometry s (foldl f s l).
Proof.
  intros Hf. revert s. induction l as [|a l IH]; intros s; [done|].
  eapply same_geometry_trans; [apply Hf|apply IH].
Qed.

Lemma mark_used_geometry s start stop : same_geometry s (pmm_mark_range_used s start stop).
Proof.
  unfold pmm_mark_range_used. case_if; [done|]. case_if; [done|].
  apply foldl_geometry. intros s1 a. cbv zeta. case_if; [|done]. by case_if.
Qed.

Lemma reserve_geometry s start stop : same_geometry s (pmm_reserve_range s start stop).
Proof.
  unfold pmm_reserve_range. case_if; [done|].
  eapply same_geometry_trans; [|apply rebuild_geometry].
  exact (mark_used_geometry s start stop).
Qed.

(** Without boot information [memory_init] manages 1 MiB to 64 MiB, and when
    the physical memory manager is set up exactly the pages of the kernel
    image are in use: the pages that hold the bitmap itself, placed right
    behind the image, are free for allocation. *)
Theorem memory_init_fallback s kernel_end_phys storage :
  length (zones s) = 3%nat → length storage = 1024%nat →
  PMM_MEMORY_START < kernel_end_phys ≤ PMM_MEMORY_FALLBACK_END - 8192 →
  let '(rc, s') := memory_init_pmm s None kernel_end_phys storage in
  rc = 0 ∧ pmm_inv s' ∧ total_pages s' = 16128 ∧ memory_start s' = PMM_MEMORY_START
  ∧ (∀ i, 0 ≤ i < 16128 →
      pmm_bitmap_test s' i = bool_decide (PMM_MEMORY_START + 4096 * i < kernel_end_phys))
  ∧ pmm_bitmap_test s' (pmm_page_to_index s' (choose_bitmap_phys None kernel_end_phys)) = false.
Proof.
  intros Hz Hst Hk. unfold memory_init_pmm, PMM_MEMORY_START, PMM_MEMORY_FALLBACK_END in *.
  change (choose_mem_end None) with 67108864.
  set (bp := choose_bitmap_phys None kernel_end_phys).
  assert (kernel_end_phys ≤ bp < 67108864 - 4096 ∧ bp mod 4096 = 0) as [Hbp Hbm].
  { unfold bp, choose_bitmap_phys. cbn [has_initrd]. rewrite align_up_eq by lia.
    Z.to_euclidean_division_equations; lia. }
  assert (0 < PHYS_TO_VIRT bp) as Hv.
  { rewrite phys_to_virt_eq by (change (2 ^ 31) with 2147483648; lia). unfold X86_64_KERNEL_VIRT_BASE. lia. }
  pose proof (pmm_init_result s 1048576 67108864 (PHYS_TO_VIRT bp) storage) as Hi. cbv zeta in Hi.
  change ((align_down 67108864 - align_up 1048576) / 4096) with 16128 in Hi.
  destruct (pmm_init s 1048576 67108864 (PHYS_TO_VIRT bp) storage) as [rc s1].
  destruct Hi as (-> & I & Hms & Hme & Ht & Hf & Hfree); try done; [by rewrite Hst|].
  change (align_up 1048576) with 1048576 in Hms.
  destruct (pmm_reserve_range_result s1 1048576 kernel_end_phys I ltac:(lia) ltac:(lia)) as [I2 T2].
  destruct (reserve_geometry s1 1048576 kernel_end_phys) as (Gt & Gm & _).
  assert (∀ i, 0 ≤ i < 16128 → pmm_bitmap_test (pmm_reserve_range s1 1048576 kernel_end_phys) i
      = bool_decide (1048576 + 4096 * i < kernel_end_phys)) as T3.
  { intros i Hi. rewrite T2, Hfree by lia.
    case_decide as Htc; unfold page_touches in Htc; rewrite Hms in Htc; case_bool_decide; done || lia. }
  cbn [Z.eqb negb RDNX_OK]. split_and!; try done; try congruence.
  unfold pmm_page_to_index. rewrite Gm, Hms, (proj2 (Z.ltb_ge _ _)) by lia.
  unfold PAGE_SIZE. rewrite u64_small by lia.
  rewrite T3 by (Z.to_euclidean_division_equations; lia).
  apply bool_decide_false. Z.to_euclidean_division_equations; lia.
Qed.

(** ** Concrete instances *)
Definition demo_memory : memory_state := mk_memory demo_pmm 0.

Lemma demo_direct_mapped : direct_mapped demo_memory.
Proof. split; [exact demo_inv|by vm_compute]. Qed.

Lemma vmm_alloc_pages_fresh_witness :
  let r := vmm_alloc_pages demo_memory 3 PAGE_FLAG_WRITABLE in
  r.1 = 18446744071563120640 ∧ direct_mapped r.2.
Proof.
  assert ((vmm_alloc_pages demo_memory 3 PAGE_FLAG_WRITABLE).1 = 18446744071563120640) as E
    by (by vm_compute).
  split; [exact E|].
  destruct (vmm_alloc_pages demo_memory 3 PAGE_FLAG_WRITABLE) as [v m'] eqn:Ev. cbn [fst snd] in *.
  refine (proj1 (vmm_alloc_pages_fresh demo_memory 3 v m' demo_direct_mapped _ Ev _)); [clear; lia|].
  intros Hv. rewrite Hv in E. discriminate E.
Defined.

Lemma phys_to_virt_wraps_witness : PHYS_TO_VIRT (2 ^ 31) = 2 ^ 31 - 2 ^ 31.
Proof. apply (phys_to_virt_wraps (2 ^ 31)). done. Defined.

Lemma choose_mem_end_bounds_witness :
  PMM_MEMORY_START < choose_mem_end (Some (mk_boot (2 ^ 40) 0 0 None 0 0)).
Proof.
  refine (proj1 (choose_mem_end_bounds (Some (mk_boot (2 ^ 40) 0 0 None 0 0)) _)).
  intros b [= <-]. done.
Defined.

Lemma memory_init_fallback_witness :
  pmm_inv (memory_init_pmm bss_pmm None 2097152 (replicate 1024 0)).2.
Proof.
  pose proof (memory_init_fallback bss_pmm 2097152 (replicate 1024 0) ltac:(done)
    ltac:(done) ltac:(done)) as Hm.
  destruct (memory_init_pmm bss_pmm None 2097152 (replicate 1024 0)) as [rc s'].
  exact (proj1 (proj2 Hm)).
Defined.

End Memory.
