(* ===== verification/Paging.v ===== *)
(** * x86_64 paging (kernel/arch/x86_64/paging.c)

    The page tables live in physical memory: [words] maps the physical
    address of a table entry to the 8-byte entry, and tables are allocated
    from the physical memory manager [pg_pmm].  The kernel reaches a table
    through the direct map or, early in boot, through the identity map; both
    name the same physical word, so a table is named by its frame address.
    Flushing the translation buffer and loading CR3 have no other effect on
    this state than [current_pml4_phys]. *)

From stdpp Require Import base gmap list numbers fin_maps.
From S2P Require Import Prelude Pmm.

Module Paging.
Import Pmm.

Definition PTE_PRESENT : Z := 1.
Definition PTE_RW : Z := 2.
Definition PTE_USER : Z := 4.
Definition PTE_SIZE_2MB : Z := 128.
Definition PTE_NX : Z := 9223372036854775808.
Definition PTE_ADDR_MASK_4KB : Z := 4503599627366400.
Definition PTE_ADDR_MASK_2MB : Z := 4503599625273344.
Definition PAGE_OFFSET_MASK : Z := 4095.
Definition TWO_MB_MASK : Z := 2097151.

Record paging_state := mk_paging {
  pg_pmm : pmm_state;
  words : gmap Z Z;
  current_pml4_phys : Z;
  physmap_ready : bool
}.

#[export] Instance paging_eta : EtaRecord paging_state :=
  λ s, mk_paging (pg_pmm s) (words s) (current_pml4_phys s) (physmap_ready s).

(** Entry [idx] of the table at [table]. *)
Definition slot (table idx : Z) : Z := table + 8 * idx.
Definition entry (s : paging_state) (table idx : Z) : Z := words s !!! slot table idx.
Definition set_entry (table idx v : Z) (s : paging_state) : paging_state :=
  s <| words ::= <[slot table idx := v]> |>.

Definition paging_get_pml4_index (virt : Z) : Z := Z.land (Z.shiftr virt 39) 511.
Definition paging_get_pdpt_index (virt : Z) : Z := Z.land (Z.shiftr virt 30) 511.
Definition paging_get_pd_index (virt : Z) : Z := Z.land (Z.shiftr virt 21) 511.
Definition paging_get_pt_index (virt : Z) : Z := Z.land (Z.shiftr virt 12) 511.

Definition zero_table (table : Z) (s : paging_state) : paging_state :=
  s <| words ::= λ w, foldl (λ w i, <[slot table i := 0]> w) w (seqZ 0 512) |>.

(** A freshly zeroed table from the given allocator of the physical memory
    manager; 0 when it has no page. *)
Definition alloc_table (alloc : pmm_state → Z * pmm_state) (s : paging_state)
    : Z * paging_state :=
  let '(phys, p) := alloc (pg_pmm s) in
  let s := s <| pg_pmm := p |> in
  if phys =? 0 then (0, s) else (phys, zero_table phys s).

Definition paging_alloc_page_table : paging_state → Z * paging_state := alloc_table pmm_alloc_page.
Definition paging_alloc_page_table_low : paging_state → Z * paging_state :=
  alloc_table (λ p, pmm_alloc_page_in_zone p PMM_ZONE_LOW).
Definition paging_alloc_page_table_identity : paging_state → Z * paging_state :=
  alloc_table (λ p, pmm_alloc_page_in_zone p PMM_ZONE_LOW).

(** [NULL], that is 0, before [paging_init]. *)
Definition paging_get_pml4 (s : paging_state) : Z := current_pml4_phys s.

Definition paging_create_user_pml4 (s : paging_state) : Z * paging_state :=
  let '(phys, s) := paging_alloc_page_table_low s in
  if phys =? 0 then (0, s)
  else
    let s := zero_table phys s in
    let cur := paging_get_pml4 s in
    if cur =? 0 then (0, s)
    else (phys, foldl (λ s i, set_entry phys i (Z.land (entry s cur i) (not64 PTE_USER)) s)
                  s (seqZ 256 256)).

(** The table an entry points to. *)
Definition table_of (e : Z) : Z := Z.land e (not64 4095).

Definition paging_get_pdpt (pml4_entry : Z) : option Z :=
  if negb (has_flag pml4_entry PTE_PRESENT) then None else Some (table_of pml4_entry).
Definition paging_get_pd (pdpt_entry : Z) : option Z :=
  if negb (has_flag pdpt_entry PTE_PRESENT) then None else Some (table_of pdpt_entry).
Definition paging_get_pt (pd_entry : Z) : option Z :=
  if negb (has_flag pd_entry PTE_PRESENT) then None
  else if has_flag pd_entry PTE_SIZE_2MB then None else Some (table_of pd_entry).

(** The table below entry [idx] of [table]: allocated and linked with the
    [extra] flags when the entry is not present.  [None] when no page is
    left. *)
Definition get_or_create (alloc : paging_state → Z * paging_state) (extra : Z)
    (s : paging_state) (table idx : Z) : option Z * paging_state :=
  let e := entry s table idx in
  if negb (has_flag e PTE_PRESENT) then
    let '(phys, s) := alloc s in
    if phys =? 0 then (None, s)
    else (Some phys, set_entry table idx (Z.lor (Z.lor (Z.lor phys PTE_PRESENT) PTE_RW) extra) s)
  else (Some (table_of e), s).

Definition paging_map_page_4kb_pml4 (s : paging_state) (pml4_phys virt phys flags : Z)
    : Z * paging_state :=
  if negb (Z.land virt PAGE_OFFSET_MASK =? 0) || negb (Z.land phys PAGE_OFFSET_MASK =? 0)
  then (RDNX_E_GENERIC, s)
  else if pml4_phys =? 0 then (RDNX_E_GENERIC, s)
  else
    let step := get_or_create paging_alloc_page_table_low (Z.land flags PTE_USER) in
    match step s pml4_phys (paging_get_pml4_index virt) with
    | (None, s) => (RDNX_E_GENERIC, s)
    | (Some pdpt, s) =>
        match step s pdpt (paging_get_pdpt_index virt) with
        | (None, s) => (RDNX_E_GENERIC, s)
        | (Some pd, s) =>
            match step s pd (paging_get_pd_index virt) with
            | (None, s) => (RDNX_E_GENERIC, s)
            | (Some pt, s) =>
                let mask := Z.lor (Z.lor (Z.lor PTE_PRESENT PTE_RW) PTE_USER) PTE_NX in
                (0, set_entry pt (paging_get_pt_index virt) (Z.lor phys (Z.land flags mask)) s)
            end
        end
    end.

Definition paging_switch_pml4 (s : paging_state) (pml4_phys : Z) : paging_state :=
  if pml4_phys =? 0 then s else s <| current_pml4_phys := pml4_phys |>.

(** [cr3] is the content of the register when the kernel starts. *)
Definition paging_init (s : paging_state) (cr3 : Z) : Z * paging_state :=
  let s := s <| current_pml4_phys := cr3 |> in
  if cr3 =? 0 then (RDNX_E_GENERIC, s) else (0, s).

(** The walk shared by the mapping functions of the current address space:
    the page directory, with tables created on the way. *)
Definition walk_to_pd (alloc : paging_state → Z * paging_state) (s : paging_state)
    (pml4 virt : Z) : option Z * paging_state :=
  match get_or_create alloc 0 s pml4 (paging_get_pml4_index virt) with
  | (None, s) => (None, s)
  | (Some pdpt, s) => get_or_create alloc 0 s pdpt (paging_get_pdpt_index virt)
  end.

(** Map a 4 KiB page below the page directory [pd]; a 2 MiB page is in the
    way of a 4 KiB one. *)
Definition map_in_pd (alloc : paging_state → Z * paging_state) (s : paging_state)
    (pd virt phys flags : Z) : Z * paging_state :=
  let idx := paging_get_pd_index virt in
  let e := entry s pd idx in
  if has_flag e PTE_PRESENT && has_flag e PTE_SIZE_2MB then (RDNX_E_GENERIC, s)
  else
    match get_or_create alloc 0 s pd idx with
    | (None, s) => (RDNX_E_GENERIC, s)
    | (Some pt, s) =>
        (0, set_entry pt (paging_get_pt_index virt) (Z.lor (Z.lor phys flags) PTE_PRESENT) s)
    end.

Definition paging_map_page_4kb (s : paging_state) (virt phys flags : Z) : Z * paging_state :=
  if negb (Z.land virt PAGE_OFFSET_MASK =? 0) || negb (Z.land phys PAGE_OFFSET_MASK =? 0)
  then (RDNX_E_GENERIC, s)
  else
    let pml4 := paging_get_pml4 s in
    if pml4 =? 0 then (RDNX_E_GENERIC, s)
    else
      match walk_to_pd paging_alloc_page_table s pml4 virt with
      | (None, s) => (RDNX_E_GENERIC, s)
      | (Some pd, s) => map_in_pd paging_alloc_page_table s pd virt phys flags
      end.

(** The page table of [virt], when every level of it exists. *)
Definition find_pt (s : paging_state) (pml4 virt : Z) : option Z :=
  match paging_get_pdpt (entry s pml4 (paging_get_pml4_index virt)) with
  | None => None
  | Some pdpt =>
      match paging_get_pd (entry s pdpt (paging_get_pdpt_index virt)) with
      | None => None
      | Some pd => paging_get_pt (entry s pd (paging_get_pd_index virt))
      end
  end.

Definition paging_map_page_4kb_noalloc (s : paging_state) (virt phys flags : Z)
    : Z * paging_state :=
  if negb (Z.land virt PAGE_OFFSET_MASK =? 0) || negb (Z.land phys PAGE_OFFSET_MASK =? 0)
  then (RDNX_E_GENERIC, s)
  else
    let pml4 := paging_get_pml4 s in
    if pml4 =? 0 then (RDNX_E_GENERIC, s)
    else
      match find_pt s pml4 virt with
      | None => (RDNX_E_GENERIC, s)
      | Some pt =>
          (0, set_entry pt (paging_get_pt_index virt) (Z.lor (Z.lor phys flags) PTE_PRESENT) s)
      end.

Definition paging_map_page_4kb_noalloc_identity (s : paging_state) (virt phys flags : Z)
    : Z * paging_state :=
  paging_map_page_4kb_noalloc s virt phys flags.

Definition paging_map_page_4kb_identity_alloc (s : paging_state) (virt phys flags : Z)
    : Z * paging_state :=
  if negb (Z.land virt PAGE_OFFSET_MASK =? 0) || negb (Z.land phys PAGE_OFFSET_MASK =? 0)
  then (RDNX_E_GENERIC, s)
  else if current_pml4_phys s =? 0 then (RDNX_E_GENERIC, s)
  else
    match walk_to_pd paging_alloc_page_table_identity s (current_pml4_phys s) virt with
    | (None, s) => (RDNX_E_GENERIC, s)
    | (Some pd, s) => map_in_pd paging_alloc_page_table_identity s pd virt phys flags
    end.

Definition set_large (s : paging_state) (pd virt phys flags : Z) : paging_state :=
  set_entry pd (paging_get_pd_index virt)
    (Z.lor (Z.lor (Z.lor phys flags) PTE_PRESENT) PTE_SIZE_2MB) s.

Definition paging_map_page_2mb_identity_alloc (s : paging_state) (virt phys flags : Z)
    : Z * paging_state :=
  if negb (Z.land virt TWO_MB_MASK =? 0) || negb (Z.land phys TWO_MB_MASK =? 0)
  then (RDNX_E_GENERIC, s)
  else if current_pml4_phys s =? 0 then (RDNX_E_GENERIC, s)
  else
    match walk_to_pd paging_alloc_page_table_identity s (current_pml4_phys s) virt with
    | (None, s) => (RDNX_E_GENERIC, s)
    | (Some pd, s) => (0, set_large s pd virt phys flags)
    end.

Definition paging_map_page_2mb (s : paging_state) (virt phys flags : Z) : Z * paging_state :=
  if negb (Z.land virt TWO_MB_MASK =? 0) || negb (Z.land phys TWO_MB_MASK =? 0)
  then (RDNX_E_GENERIC, s)
  else
    let pml4 := paging_get_pml4 s in
    if pml4 =? 0 then (RDNX_E_GENERIC, s)
    else
      match walk_to_pd paging_alloc_page_table s pml4 virt with
      | (None, s) => (RDNX_E_GENERIC, s)
      | (Some pd, s) => (0, set_large s pd virt phys flags)
      end.

Fixpoint physmap_loop (n : nat) (phys : Z) (s : paging_state) : Z * paging_state :=
  match n with
  | O => (0, s <| physmap_ready := true |>)
  | S n =>
      let virt := 18446744071562067968 +₆₄ phys in
      let '(rc, s) := paging_map_page_2mb_identity_alloc s virt phys PTE_RW in
      if negb (rc =? 0) then (RDNX_E_GENERIC, s) else physmap_loop n (phys +₆₄ 2097152) s
  end.

(** The loop [for (phys = 0; phys < max_phys; phys += 2 MiB)] runs
    [max_phys / 2 MiB] times, [max_phys] being a multiple of 2 MiB. *)
Definition paging_bootstrap_physmap (s : paging_state) (max_phys : Z) : Z * paging_state :=
  if max_phys =? 0 then (0, s)
  else
    let max_phys := Z.land max_phys (not64 TWO_MB_MASK) in
    physmap_loop (Z.to_nat (max_phys / 2097152)) 0 s.

Definition paging_disable_identity_map (s : paging_state) : outcome paging_state :=
  let pml4 := paging_get_pml4 s in
  if pml4 =? 0 then Done s
  else if negb (physmap_ready s) then Panic
  else Done (set_entry pml4 0 0 s).

(** The page directory of [virt], when it exists. *)
Definition find_pd (s : paging_state) (pml4 virt : Z) : option Z :=
  match paging_get_pdpt (entry s pml4 (paging_get_pml4_index virt)) with
  | None => None
  | Some pdpt => paging_get_pd (entry s pdpt (paging_get_pdpt_index virt))
  end.

(** The common body of [paging_unmap_page] and [paging_unmap_page_pml4]. *)
Definition unmap_in (s : paging_state) (pml4 virt : Z) : Z * paging_state :=
  match find_pd s pml4 virt with
  | None => (RDNX_E_GENERIC, s)
  | Some pd =>
      let e := entry s pd (paging_get_pd_index virt) in
      if negb (has_flag e PTE_PRESENT) then (RDNX_E_GENERIC, s)
      else if has_flag e PTE_SIZE_2MB then (0, set_entry pd (paging_get_pd_index virt) 0 s)
      else (0, set_entry (table_of e) (paging_get_pt_index virt) 0 s)
  end.

Definition paging_unmap_page (s : paging_state) (virt : Z) : Z * paging_state :=
  let pml4 := paging_get_pml4 s in
  if pml4 =? 0 then (RDNX_E_GENERIC, s) else unmap_in s pml4 virt.

Definition paging_unmap_page_pml4 (s : paging_state) (pml4_phys virt : Z) : Z * paging_state :=
  if pml4_phys =? 0 then (RDNX_E_GENERIC, s) else unmap_in s pml4_phys virt.

(** The common body of [paging_get_physical] and [paging_get_physical_pml4]. *)
Definition translate (s : paging_state) (pml4 virt : Z) : Z :=
  match find_pd s pml4 virt with
  | None => 0
  | Some pd =>
      let e := entry s pd (paging_get_pd_index virt) in
      if negb (has_flag e PTE_PRESENT) then 0
      else if has_flag e PTE_SIZE_2MB
      then Z.lor (Z.land e PTE_ADDR_MASK_2MB) (Z.land virt TWO_MB_MASK)
      else
        let pte := entry s (table_of e) (paging_get_pt_index virt) in
        if negb (has_flag pte PTE_PRESENT) then 0
        else Z.lor (Z.land pte PTE_ADDR_MASK_4KB) (Z.land virt PAGE_OFFSET_MASK)
  end.

Definition paging_get_physical (s : paging_state) (virt : Z) : Z :=
  let pml4 := paging_get_pml4 s in
  if pml4 =? 0 then 0 else translate s pml4 virt.

Definition paging_get_physical_pml4 (s : paging_state) (pml4_phys virt : Z) : Z :=
  if pml4_phys =? 0 then 0 else translate s pml4_phys virt.

(** The leaf entry of a 4 KiB mapping, as the processor reads it. *)
Definition leaf (s : paging_state) (pml4 virt : Z) : option Z :=
  match find_pt s pml4 virt with
  | None => None
  | Some pt =>
      let pte := entry s pt (paging_get_pt_index virt) in
      if has_flag pte PTE_PRESENT then Some pte else None
  end.

End Paging.
