(* ===== verification/PagingFacts.v ===== *)
(** * Paging: page-table invariant and translation laws

    Every table frame is owned by one node of one address space: [own] maps
    the frame to its node, given by the root and the indices on the way down;
    the upper half of all address spaces is shared and has root 0.  Because a
    frame has one node, a store to a table entry affects only the addresses
    whose walk visits that node at that index. *)

From stdpp Require Import base gmap list numbers fin_maps.
From S2P Require Import Prelude Pmm PmmFacts PmmInit Paging.

Module PagingFacts.
Import Pmm PmmFacts PmmInit Paging.

(** ** Bits of table entries *)
Lemma lor_page phys k : 0 ≤ k < 4096 → phys mod 4096 = 0 → Z.lor phys k = phys + k.
Proof.
  intros Hk Hp. enough (Z.land phys k = 0) as Hl by (pose proof (Z.add_lor_land phys k); lia).
  apply Z.bits_inj'. intros n Hn.
  rewrite Z.land_spec, Z.bits_0. destruct (decide (n < 12)) as [Hlt|Hge].
  - assert (Z.testbit phys n = false) as ->; [|done].
    rewrite <- (Z.mod_pow2_bits_low phys 12 n) by lia. change (2 ^ 12) with 4096. rewrite Hp.
    apply Z.bits_0.
  - rewrite andb_comm. rewrite Z.bits_above_log2; [done|lia|].
    destruct (decide (k = 0)) as [->|]; [simpl; lia|]. apply Z.log2_lt_pow2; [lia|].
    eapply Z.lt_le_trans; [apply Hk|]. change 4096 with (2 ^ 12). apply Z.pow_le_mono_r; lia.
Qed.

Lemma table_of_page phys k :
  0 ≤ phys < 18446744073709551616 - 4096 → 0 ≤ k < 4096 → phys mod 4096 = 0 → table_of (phys + k) = phys.
Proof.
  intros Hr Hk Hp. unfold table_of, not64. rewrite land_u64_r by lia.
  change 4095 with (2 ^ 12 - 1). rewrite (land_not_ones _ 12) by lia. change (2 ^ 12) with 4096. Z.to_euclidean_division_equations; lia.
Qed.

Lemma has_flag_page phys k m :
  0 ≤ k < 4096 → 0 ≤ m < 4096 → phys mod 4096 = 0 → has_flag (phys + k) m = has_flag k m.
Proof.
  intros Hk Hm Hp. unfold has_flag. do 2 f_equal. apply Z.bits_inj'. intros n Hn.
  rewrite !Z.land_spec. destruct (decide (n < 12)) as [Hlt|Hge].
  - f_equal. rewrite <- (Z.mod_pow2_bits_low (phys + k) 12 n), <- (Z.mod_pow2_bits_low k 12 n) by lia.
    change (2 ^ 12) with 4096. rewrite <- Z.add_mod_idemp_l, Hp by lia. done.
  - rewrite (Z.bits_above_log2 m); [by rewrite !andb_false_r|lia|].
    destruct (decide (m = 0)) as [->|]; [simpl; lia|]. apply Z.log2_lt_pow2; [lia|].
    eapply Z.lt_le_trans; [apply Hm|]. change 4096 with (2 ^ 12). apply Z.pow_le_mono_r; lia.
Qed.

Lemma index_range z n : 0 ≤ Z.land (Z.shiftr z n) 511 < 512.
Proof. change 511 with (Z.ones 9). rewrite Z.land_ones by lia. apply Z.mod_pos_bound. lia. Qed.

(** ** Walks

    The entry at which the walk down the indices ends, with [true] for a 2 MiB
    page; [None] when a level is not present. *)
Fixpoint resolve (s : paging_state) (f : Z) (idxs : list Z) : option (bool * Z) :=
  match idxs with
  | [] => None
  | i :: rest =>
      let e := entry s f i in
      if negb (has_flag e PTE_PRESENT) then None
      else
        match rest with
        | [] => Some (false, e)
        | _ => if bool_decide (length rest = 1%nat) && has_flag e PTE_SIZE_2MB
               then Some (true, e)
               else resolve s (table_of e) rest
        end
  end.

Definition indices (virt : Z) : list Z :=
  [paging_get_pml4_index virt; paging_get_pdpt_index virt; paging_get_pd_index virt;
   paging_get_pt_index virt].

Definition phys_of (o : option (bool * Z)) (virt : Z) : Z :=
  match o with
  | None => 0
  | Some (false, e) => Z.lor (Z.land e PTE_ADDR_MASK_4KB) (Z.land virt PAGE_OFFSET_MASK)
  | Some (true, e) => Z.lor (Z.land e PTE_ADDR_MASK_2MB) (Z.land virt TWO_MB_MASK)
  end.

Definition small_of (o : option (bool * Z)) : option Z :=
  match o with
  | Some (false, e) => Some e
  | _ => None
  end.

Lemma translate_resolve s pml4 virt :
  translate s pml4 virt = phys_of (resolve s pml4 (indices virt)) virt.
Proof.
  unfold translate, find_pd, paging_get_pdpt, paging_get_pd, indices. cbn -[has_flag].
  repeat (destruct (has_flag _ _); cbn -[has_flag]; try done).
Qed.

Lemma leaf_resolve_eq s pml4 virt : leaf s pml4 virt = small_of (resolve s pml4 (indices virt)).
Proof.
  unfold leaf, find_pt, paging_get_pdpt, paging_get_pd, paging_get_pt, indices. cbn -[has_flag].
  repeat (destruct (has_flag _ _); cbn -[has_flag]; try done).
Qed.

(** The two states agree on the translation and the permissions of [va]. *)
Definition same_page (s s' : paging_state) (r va : Z) : Prop :=
  translate s' r va = translate s r va ∧ leaf s' r va = leaf s r va.

Lemma same_page_resolve s s' r va :
  resolve s' r (indices va) = resolve s r (indices va) → same_page s s' r va.
Proof. intros E. unfold same_page. by rewrite !translate_resolve, !leaf_resolve_eq, E. Qed.

Lemma same_page_refl s r va : same_page s s r va.
Proof. done. Qed.
Lemma same_page_trans s1 s2 s3 r va : same_page s1 s2 r va → same_page s2 s3 r va → same_page s1 s3 r va.
Proof. intros [? ?] [? ?]. split; congruence. Qed.

(** ** Ownership of table frames *)
Record node := Node { n_root : Z; n_path : list Z }.

Definition child (n : node) (i : Z) : node :=
  match n_path n with
  | [] => if 256 <=? i then Node 0 [i] else Node (n_root n) [i]
  | p => Node (n_root n) (p ++ [i])
  end.

Definition level (n : node) : nat := length (n_path n).

Lemma child_level n i : level (child n i) = S (level n).
Proof.
  unfold child, level. destruct (n_path n) as [|x p]; [by case_if|].
  cbn. rewrite length_app. cbn. lia.
Qed.

Record pt_inv (s : paging_state) (own : gmap Z node) : Prop := {
  pi_pmm : pmm_inv (pg_pmm s);
  pi_frame : ∀ f n, own !! f = Some n → f mod 4096 = 0;
  pi_used : ∀ f n i, own !! f = Some n → 0 ≤ i < total_pages (pg_pmm s) →
    f = pmm_index_to_page (pg_pmm s) i → pmm_bitmap_test (pg_pmm s) i = true;
  pi_link : ∀ f n i, own !! f = Some n → (level n < 3)%nat → 0 ≤ i < 512 →
    has_flag (entry s f i) PTE_PRESENT = true →
    (level n = 2%nat → has_flag (entry s f i) PTE_SIZE_2MB = false) →
    own !! table_of (entry s f i) = Some (child n i);
  pi_small : ∀ f n i, own !! f = Some n → level n = 2%nat → n_root n ≠ 0 → 0 ≤ i < 512 →
    has_flag (entry s f i) PTE_PRESENT = true → has_flag (entry s f i) PTE_SIZE_2MB = false
}.

Lemma slot_inj f i g j :
  f mod 4096 = 0 → g mod 4096 = 0 → 0 ≤ i < 512 → 0 ≤ j < 512 → slot f i = slot g j → f = g ∧ i = j.
Proof. unfold slot. intros. Z.to_euclidean_division_equations; lia. Qed.

Lemma entry_set_other s f i g j v :
  f mod 4096 = 0 → g mod 4096 = 0 → 0 ≤ i < 512 → 0 ≤ j < 512 → (f = g → i ≠ j) →
  entry (set_entry g j v s) f i = entry s f i.
Proof.
  intros Hf Hg Hi Hj Hne. unfold entry, set_entry. cbn.
  rewrite lookup_total_insert_ne; [done|]. intros Es.
  destruct (slot_inj g j f i) as [-> ->]; try done. by apply Hne.
Qed.

Lemma entry_set_same s f i v : entry (set_entry f i v s) f i = v.
Proof. unfold entry, set_entry. cbn. apply lookup_total_insert_eq. Qed.

(** A walk only reads entries of owned frames. *)
Lemma resolve_ext s s' own f n idxs :
  pt_inv s own → own !! f = Some n → (level n + length idxs = 4)%nat →
  Forall (λ i, 0 ≤ i < 512) idxs →
  (∀ g m i, own !! g = Some m → 0 ≤ i < 512 → entry s' g i = entry s g i) →
  resolve s' f idxs = resolve s f idxs.
Proof.
  intros Hinv. revert f n. induction idxs as [|i rest IH]; intros f n Hf Hl Hi Hext; [done|].
  inversion_clear Hi as [|? ? Hi0 Hrest]. cbn [resolve]. rewrite (Hext f n i) by done.
  destruct (has_flag (entry s f i) PTE_PRESENT) eqn:Ep; [cbn [negb]|done].
  destruct rest as [|i' rest]; [done|]. cbn [length] in Hl.
  destruct (bool_decide _ && has_flag (entry s f i) PTE_SIZE_2MB) eqn:E2; [done|].
  apply (IH _ (child n i)); try done; [|rewrite child_level; cbn [length]; lia].
  apply (pi_link s own Hinv f n i); try done; [cbn [length] in *; lia|].
  intros Hl2. assert (length (i' :: rest) = 1%nat) as E1 by (cbn [length] in *; lia).
  rewrite bool_decide_true in E2 by done. done.
Qed.

(** ** Fresh tables *)
Lemma freelist_remove_geometry s zone start count :
  same_geometry s (pmm_freelist_remove s zone start count).2.
Proof. unfold pmm_freelist_remove. case_if; [done|]. by destruct (ranges_remove _ _ _ _). Qed.

Lemma alloc_page_geometry s zone : same_geometry s (pmm_alloc_page_in_zone s zone).2.
Proof.
  unfold pmm_alloc_page_in_zone. case_if; [done|].
  assert (∀ s1 (found : bool) index, same_geometry s s1 →
    same_geometry s (if negb found then (0, memory_oom_inc_pmm s1)
                     else alloc_commit s1 zone index).2) as Hc.
  { intros s1 [] index Hg; [|done]. unfold alloc_commit. cbv zeta. by repeat case_if. }
  destruct (ranges s zone) as [|r l].
  - destruct (scan_page _ _ _ s); [by apply (Hc s true)|by apply (Hc s false 0)].
  - pose proof (freelist_remove_geometry s zone (r_start r) 1) as Hg.
    destruct (pmm_freelist_remove s zone (r_start r) 1) as [[] s1]; [by apply (Hc s1 true)|].
    destruct (scan_page _ _ _ s1); [by apply (Hc s1 true)|by apply (Hc s1 false 0)].
Qed.

Definition frame_used (p : pmm_state) (f : Z) : Prop :=
  ∃ i, 0 ≤ i < total_pages p ∧ f = pmm_index_to_page p i ∧ pmm_bitmap_test p i = true.

Lemma frame_used_geometry p p' f :
  same_geometry p p' →
  (∀ i, 0 ≤ i → pmm_bitmap_test p i = true → f = pmm_index_to_page p i → pmm_bitmap_test p' i = true) →
  frame_used p f → frame_used p' f.
Proof.
  intros (Gt & Gm & _) Hb (i & Hi & -> & Ht). exists i. unfold pmm_index_to_page. rewrite Gt, Gm.
  split; [done|]. split; [done|]. apply Hb; [lia|done..].
Qed.

(** ** Growth of the used frames *)

(** Used frames stay used and keep their content. *)
Definition pmm_grow (p p' : pmm_state) : Prop :=
  pmm_inv p' ∧ same_geometry p p'
  ∧ ∀ f, frame_used p f → frame_used p' f ∧ mem p' !! f = mem p !! f.

Lemma pmm_grow_refl p : pmm_inv p → pmm_grow p p.
Proof. done. Qed.

Lemma pmm_grow_trans p1 p2 p3 : pmm_grow p1 p2 → pmm_grow p2 p3 → pmm_grow p1 p3.
Proof.
  intros (_ & G1 & F1) (I2 & G2 & F2). split_and!; [done|by eapply same_geometry_trans|].
  intros f Hf. destruct (F1 f Hf) as [U1 E1]. destruct (F2 f U1) as [U2 E2]. split; [done|]. congruence.
Qed.

(** One page: fresh, zeroed, and nothing else changes. *)
Lemma alloc_grow p zone :
  pmm_inv p → 0 ≤ zone < 3 →
  let '(f, p') := pmm_alloc_page_in_zone p zone in
  pmm_grow p p' ∧ (f ≠ 0 → frame_used p' f ∧ ¬ frame_used p f ∧ mem p' !! f = Some zero_page).
Proof.
  intros Hp Hz. pose proof (pmm_alloc_page_result p zone Hp Hz) as Hr.
  pose proof (alloc_page_geometry p zone) as Hg.
  destruct (pmm_alloc_page_in_zone p zone) as [f p']. cbn [snd] in Hg. destruct Hr as [Hp' Hc].
  destruct Hc as [(-> & Hb & Hm & _)|(i & -> & Hf0 & _ & Hi & Hfree & Ht & Hm)].
  - split; [|done]. split_and!; try done. intros f Hu. rewrite Hm. split; [|done].
    eapply frame_used_geometry; [done| |exact Hu]. intros j _ Hj _. unfold pmm_bitmap_test in *.
    by rewrite Hb, (proj2 (proj2 Hg)).
  - assert (¬ frame_used p (pmm_index_to_page p i)) as Hn.
    { intros (j & Hj & E & Hb). rewrite !index_to_page_eq in E by done.
      assert (j = i) as -> by lia. congruence. }
    split.
    + split_and!; try done. intros f Hu. split.
      * eapply frame_used_geometry; [done| |exact Hu]. intros j Hj Hb _. rewrite Ht by done. by case_decide.
      * rewrite Hm. apply lookup_insert_ne. intros <-. done.
    + intros _. split_and!; [|done|rewrite Hm; apply lookup_insert_eq].
      exists i. destruct Hg as (Gt & Gm & _). unfold pmm_index_to_page. rewrite Gt, Gm, Ht by lia.
      split_and!; try done; try lia. by rewrite decide_True.
Qed.

Lemma zero_table_entry s t f i :
  t mod 4096 = 0 → f mod 4096 = 0 → 0 ≤ i < 512 →
  entry (zero_table t s) f i = if decide (f = t) then 0 else entry s f i.
Proof.
  intros Ht Hf Hi. unfold entry, zero_table. cbn [words field_update].
  assert (∀ l (w : gmap Z Z), (∀ j, j ∈ l → 0 ≤ j < 512) →
    foldl (λ w j, <[slot t j := 0]> w) w l !!! slot f i
      = if decide (f = t ∧ i ∈ l) then 0 else w !!! slot f i) as Hgen.
  { induction l as [|j l IH]; intros w Hl; cbn [foldl].
    - rewrite decide_False; [done|]. intros [_ Hn]. by apply not_elem_of_nil in Hn.
    - pose proof (Hl j ltac:(by left)) as Hj. rewrite IH by (intros; apply Hl; by right).
      destruct (decide (f = t ∧ i = j)) as [[-> ->]|Hne].
      + rewrite lookup_total_insert_eq, (decide_True (P := t = t ∧ j ∈ j :: l)) by (split; [done|by left]).
        by case_decide.
      + rewrite lookup_total_insert_ne by (intros E; destruct (slot_inj t j f i) as [-> ->]; tauto).
        destruct (decide (f = t ∧ i ∈ l)) as [Hd|Hd];
          [rewrite decide_True|rewrite decide_False]; try done; rewrite elem_of_cons; tauto. }
  etrans; [apply Hgen; intros j Hj%elem_of_seqZ; lia|].
  destruct (decide (f = t)) as [->|]; [rewrite decide_True|rewrite decide_False]; try done;
    [split; [done|apply elem_of_seqZ; lia]|tauto].
Qed.

Lemma zero_table_pmm s t : pg_pmm (zero_table t s) = pg_pmm s.
Proof. done. Qed.

(** Changing words only of frames that nobody owns keeps the invariant. *)
Lemma pt_inv_ext s s' own :
  pt_inv s own → pmm_inv (pg_pmm s') → same_geometry (pg_pmm s) (pg_pmm s') →
  (∀ i, 0 ≤ i → pmm_bitmap_test (pg_pmm s) i = true → pmm_bitmap_test (pg_pmm s') i = true) →
  (∀ g m i, own !! g = Some m → 0 ≤ i < 512 → entry s' g i = entry s g i) → pt_inv s' own.
Proof.
  intros [Hp Hf Hu Hl Hs] Hp' (Gt & Gm & _) Hmono Hext. split; try done.
  - intros f n i Ho Hi E. rewrite Gt in Hi. apply Hmono; [lia|]. apply (Hu f n i); try done.
    rewrite E. unfold pmm_index_to_page. by rewrite Gm.
  - intros f n i Ho Hlv Hi. rewrite (Hext f n i) by done. by apply Hl.
  - intros f n i Ho Hlv Hr Hi. rewrite (Hext f n i) by done. by eapply Hs.
Qed.

Lemma alloc_low_spec s own phys s' :
  pt_inv s own → paging_alloc_page_table_low s = (phys, s') →
  pt_inv s' own ∧ (∀ g m i, own !! g = Some m → 0 ≤ i < 512 → entry s' g i = entry s g i)
  ∧ (phys ≠ 0 → own !! phys = None ∧ phys mod 4096 = 0 ∧ 0 < phys < 2 ^ 64 - 4096
     ∧ (∀ i, 0 ≤ i < 512 → entry s' phys i = 0)
     ∧ ∀ i, 0 ≤ i < total_pages (pg_pmm s') → phys = pmm_index_to_page (pg_pmm s') i →
            pmm_bitmap_test (pg_pmm s') i = true).
Proof.
  intros Hinv Hal. unfold paging_alloc_page_table_low, alloc_table in Hal.
  pose proof (pmm_alloc_page_result (pg_pmm s) PMM_ZONE_LOW (pi_pmm _ _ Hinv) ltac:(done)) as Hr.
  pose proof (alloc_page_geometry (pg_pmm s) PMM_ZONE_LOW) as Hg.
  destruct (pmm_alloc_page_in_zone (pg_pmm s) PMM_ZONE_LOW) as [f p]. cbn [snd] in Hg.
  destruct Hr as [Hp [(-> & Hb & _)|(i & Ef & Hf0 & _ & Hi & Hfree & Ht & _)]].
  { cbn [Z.eqb] in Hal. simplify_eq. split_and!; try done.
    apply (pt_inv_ext s); try done. intros i Hi. unfold pmm_bitmap_test. cbn.
    by rewrite Hb, (proj2 (proj2 Hg)). }
  rewrite (proj2 (Z.eqb_neq f 0)) in Hal by done. injection Hal as <- <-.
  pose proof (pi_pmm _ _ Hinv) as Hpi. pose proof (index_to_page_eq _ i Hpi Hi) as Efe.
  assert (f mod 4096 = 0 ∧ 0 < f < 2 ^ 64 - 4096) as [Hm Hrange].
  { rewrite Ef, Efe. destruct Hpi as [_ [? ?] He He64 _ _ _ _ _ _]. rewrite He in He64. split; [|lia].
    rewrite Z.mul_comm, Z.mod_add by lia. done. }
  assert (own !! f = None) as Hno.
  { destruct (own !! f) as [n|] eqn:En; [|done].
    rewrite (pi_used _ _ Hinv f n i En Hi Ef) in Hfree. done. }
  assert (∀ g m j, own !! g = Some m → 0 ≤ j < 512 →
    entry (zero_table f (s <| pg_pmm := p |>)) g j = entry s g j) as Hext.
  { intros g m j Hgo Hj. rewrite zero_table_entry by (try done; by eapply pi_frame).
    rewrite decide_False; [done|]. intros ->. congruence. }
  split_and!; try done.
  - apply (pt_inv_ext s); try done; rewrite ?zero_table_pmm; try done.
    intros j Hj Htj. cbn. rewrite Ht by done. by case_decide.
  - intros _. split_and!; try done; try lia.
    + intros j Hj. rewrite zero_table_entry, decide_True by done. done.
    + rewrite !zero_table_pmm. cbn. intros j Hj Ej. destruct Hg as (Gt & Gm & _).
      assert (pmm_index_to_page p j = pmm_index_to_page (pg_pmm s) j) as E
        by (unfold pmm_index_to_page; by rewrite Gm).
      rewrite Gt in Hj. rewrite E, Ef, !index_to_page_eq in Ej by done.
      rewrite Ht by lia. rewrite decide_True by lia. done.
Qed.

Lemma alloc_low_fresh s t s' :
  pmm_inv (pg_pmm s) → paging_alloc_page_table_low s = (t, s') → t ≠ 0 → ¬ frame_used (pg_pmm s) t.
Proof.
  intros Hp Ha Ht. unfold paging_alloc_page_table_low, alloc_table in Ha.
  pose proof (alloc_grow (pg_pmm s) PMM_ZONE_LOW Hp ltac:(done)) as Hg.
  destruct (pmm_alloc_page_in_zone (pg_pmm s) PMM_ZONE_LOW) as [f p]. destruct Hg as [_ Hf].
  assert (f = t) as -> by (by destruct (f =? 0) eqn:E; bool_hyps; simplify_eq). by apply Hf.
Qed.

(** ** Linking a fresh table *)
Lemma resolve_zero s t idxs :
  (∀ i, 0 ≤ i < 512 → entry s t i = 0) → Forall (λ i, 0 ≤ i < 512) idxs → resolve s t idxs = None.
Proof.
  intros Hz Hi. destruct idxs as [|i rest]; [done|]. inversion_clear Hi. cbn [resolve].
  by rewrite Hz.
Qed.

Definition fresh_table (s : paging_state) (own : gmap Z node) (t : Z) : Prop :=
  own !! t = None ∧ t mod 4096 = 0 ∧ (∀ i, 0 ≤ i < 512 → entry s t i = 0)
  ∧ ∀ i, 0 ≤ i < total_pages (pg_pmm s) → t = pmm_index_to_page (pg_pmm s) i →
         pmm_bitmap_test (pg_pmm s) i = true.

Lemma entry_set_eq s f i g j v :
  f mod 4096 = 0 → g mod 4096 = 0 → 0 ≤ i < 512 → 0 ≤ j < 512 →
  entry (set_entry g j v s) f i = if decide (f = g ∧ i = j) then v else entry s f i.
Proof.
  intros Hf Hg Hi Hj. case_decide as Hd; [destruct Hd as [-> ->]; apply entry_set_same|].
  apply entry_set_other; try done. tauto.
Qed.

Section link.
Context (s : paging_state) (own : gmap Z node) (f i t v : Z) (n : node).
Hypothesis Hinv : pt_inv s own.
Hypothesis Hf : own !! f = Some n.
Hypothesis Hlv : (level n < 3)%nat.
Hypothesis Hi : 0 ≤ i < 512.
Hypothesis Hnp : has_flag (entry s f i) PTE_PRESENT = false.
Hypothesis Ht : fresh_table s own t.
Hypothesis Hvp : has_flag v PTE_PRESENT = true.
Hypothesis Hvs : has_flag v PTE_SIZE_2MB = false.
Hypothesis Hvt : table_of v = t.

Lemma link_entry g m j :
  own !! g = Some m → 0 ≤ j < 512 →
  entry (set_entry f i v s) g j = if decide (g = f ∧ j = i) then v else entry s g j.
Proof. intros Hg Hj. apply entry_set_eq; try done; by eapply pi_frame. Qed.

Lemma link_fresh_entry j : 0 ≤ j < 512 → entry (set_entry f i v s) t j = 0.
Proof.
  intros Hj. destruct Ht as (Hn & Hm & Hz & _).
  rewrite entry_set_other; [by apply Hz|done|by eapply pi_frame|done|done|].
  intros Et. rewrite Et in Hn. congruence.
Qed.

Lemma link_inv : pt_inv (set_entry f i v s) (<[t := child n i]> own).
Proof.
  destruct Ht as (Hno & Hm & _ & Hu). split.
  - apply (pi_pmm _ _ Hinv).
  - intros g m [[-> _]|[_ Hg]]%lookup_insert_Some; [done|by eapply pi_frame].
  - intros g m j [[<- _]|[_ Hg]]%lookup_insert_Some Hj E; [by apply Hu|].
    by apply (pi_used _ _ Hinv g m j).
  - intros g m j [[<- <-]|[Hne Hg]]%lookup_insert_Some Hl Hj Hp H2.
    { by rewrite link_fresh_entry in Hp. }
    rewrite (link_entry g m j Hg Hj) in *. destruct (decide (g = f ∧ j = i)) as [[-> ->]|Hd].
    + rewrite Hvt, lookup_insert_eq. congruence.
    + pose proof (pi_link _ _ Hinv g m j Hg Hl Hj Hp H2) as Hc.
      rewrite lookup_insert_ne; [done|]. intros Et. rewrite <- Et in Hc. congruence.
  - intros g m j [[<- <-]|[Hne Hg]]%lookup_insert_Some Hl Hr Hj Hp.
    { by rewrite link_fresh_entry in Hp. }
    rewrite (link_entry g m j Hg Hj) in *. case_decide; [done|]. by eapply pi_small.
Qed.

Lemma link_resolve g m idxs :
  own !! g = Some m → (level m + length idxs = 4)%nat → Forall (λ j, 0 ≤ j < 512) idxs →
  resolve (set_entry f i v s) g idxs = resolve s g idxs.
Proof.
  revert g m. induction idxs as [|j rest IH]; intros g m Hg Hl Hj; [done|].
  inversion_clear Hj as [|? ? Hj0 Hrest]. cbn [resolve]. rewrite (link_entry g m j Hg Hj0).
  destruct (decide (g = f ∧ j = i)) as [[-> ->]|Hd].
  - rewrite Hvp, Hnp. cbn [negb]. assert (m = n) as -> by congruence.
    destruct rest as [|j' rest]; [cbn [length] in Hl; lia|]. rewrite Hvs, andb_false_r, Hvt.
    apply resolve_zero; [apply link_fresh_entry|done].
  - destruct (has_flag (entry s g j) PTE_PRESENT) eqn:Ep; [cbn [negb]|done].
    destruct rest as [|j' rest]; [done|]. cbn [length] in Hl.
    destruct (bool_decide _ && has_flag (entry s g j) PTE_SIZE_2MB) eqn:E2; [done|].
    apply (IH _ (child m j)); [|rewrite child_level; cbn [length]; lia|done].
    apply (pi_link _ _ Hinv g m j); try done; [cbn [length] in *; lia|].
    intros Hl2. rewrite bool_decide_true in E2 by (cbn [length] in *; lia). done.
Qed.

End link.

(** ** One step down, with creation *)
Lemma goc_grow s t i extra :
  pmm_inv (pg_pmm s) →
  pmm_grow (pg_pmm s) (pg_pmm (get_or_create paging_alloc_page_table_low extra s t i).2)
  ∧ current_pml4_phys (get_or_create paging_alloc_page_table_low extra s t i).2 = current_pml4_phys s.
Proof.
  intros Hp. unfold get_or_create. case_if; [|done].
  unfold paging_alloc_page_table_low, alloc_table.
  pose proof (alloc_grow (pg_pmm s) PMM_ZONE_LOW Hp ltac:(done)) as Ha.
  destruct (pmm_alloc_page_in_zone (pg_pmm s) PMM_ZONE_LOW) as [f p']. destruct Ha as [Ha _].
  destruct (f =? 0) eqn:Ef; [done|]. rewrite Ef. unfold set_entry. cbn.
  done.
Qed.

Lemma goc_spec s own f n i extra r s' :
  pt_inv s own → own !! f = Some n → (level n < 3)%nat → 0 ≤ i < 512 →
  extra = 0 ∨ extra = PTE_USER →
  (level n = 2%nat → has_flag (entry s f i) PTE_PRESENT = true →
     has_flag (entry s f i) PTE_SIZE_2MB = false) →
  get_or_create paging_alloc_page_table_low extra s f i = (r, s') →
  ∃ own', own ⊆ own' ∧ pt_inv s' own' ∧ (∀ g, frame_used (pg_pmm s) g → own' !! g = own !! g)
    ∧ (∀ g m idxs, own !! g = Some m → (level m + length idxs = 4)%nat →
        Forall (λ j, 0 ≤ j < 512) idxs → resolve s' g idxs = resolve s g idxs)
    ∧ (∀ g m j, own !! g = Some m → 0 ≤ j < 512 → has_flag (entry s g j) PTE_PRESENT = true →
        entry s' g j = entry s g j)
    ∧ (∀ t, r = Some t → own' !! t = Some (child n i)
        ∧ has_flag (entry s' f i) PTE_PRESENT = true ∧ table_of (entry s' f i) = t
        ∧ (level n = 2%nat → has_flag (entry s' f i) PTE_SIZE_2MB = false)).
Proof.
  intros Hinv Hf Hlv Hi Hx H2 Hg. unfold get_or_create in Hg.
  destruct (has_flag (entry s f i) PTE_PRESENT) eqn:Ep; cbn [negb] in Hg.
  { injection Hg as <- <-. exists own. split_and!; try done. intros t [= <-]. split_and!; try done.
    - apply (pi_link _ _ Hinv); try done. intros. by apply H2.
    - intros. by apply H2. }
  destruct (paging_alloc_page_table_low s) as [t s1] eqn:Ea.
  destruct (alloc_low_spec s own t s1 Hinv Ea) as (I1 & X1 & F1).
  assert (∀ g m idxs, own !! g = Some m → (level m + length idxs = 4)%nat →
    Forall (λ j, 0 ≤ j < 512) idxs → resolve s1 g idxs = resolve s g idxs) as R1.
  { intros g m idxs Hgo Hl Hj. by apply (resolve_ext s s1 own g m). }
  destruct (t =? 0) eqn:E0; bool_hyps; injection Hg as <- <-.
  { exists own. split_and!; try done. intros g m j Hgo Hj _. by apply (X1 g m). }
  destruct (F1 E0) as (Hno & Hm & Hr & Hz & Hu). change (2 ^ 64) with 18446744073709551616 in Hr.
  set (v := Z.lor (Z.lor (Z.lor t PTE_PRESENT) PTE_RW) extra).
  assert (∃ k, (k = 3 ∨ k = 7) ∧ v = t + k) as (k & Hk & Ev).
  { unfold v, PTE_PRESENT, PTE_RW. rewrite <- !Z.lor_assoc.
    destruct Hx as [-> | ->]; [exists 3|exists 7]; (split; [tauto|]).
    - change (Z.lor 1 (Z.lor 2 0)) with 3. by apply lor_page.
    - change (Z.lor 1 (Z.lor 2 PTE_USER)) with 7. by apply lor_page. }
  assert (has_flag v PTE_PRESENT = true ∧ has_flag v PTE_SIZE_2MB = false ∧ table_of v = t) as (V1 & V2 & V3).
  { rewrite Ev. rewrite !has_flag_page, table_of_page by (unfold PTE_PRESENT, PTE_SIZE_2MB; done || lia).
    destruct Hk as [-> | ->]; done. }
  assert (fresh_table s1 own t) as Hfr by (by split_and!).
  rewrite <- (X1 f n i) in Ep by done.
  exists (<[t := child n i]> own). split_and!.
  - by apply insert_subseteq.
  - by apply link_inv.
  - intros g Hgu. apply lookup_insert_ne. intros <-. revert Hgu. apply (alloc_low_fresh s t s1); [apply Hinv|done..].
  - intros g m idxs Hgo Hl Hj. rewrite <- (R1 g m) by done. by eapply link_resolve.
  - intros g m j Hgo Hj Hpj. rewrite (link_entry s1 own f i v n I1 Hf Hi g m j Hgo Hj), (X1 g m j) by done.
    case_decide as Hd; [|done]. destruct Hd as [-> ->]. rewrite (X1 f n i) in Ep by done. congruence.
  - intros t' [= <-]. rewrite entry_set_same, lookup_insert_eq. done.
Qed.

End PagingFacts.
