(* ===== verification/PagingProofs.v ===== *)
(** * Paging: mapping, unmapping and translating user pages *)

From stdpp Require Import base gmap list numbers fin_maps.
From S2P Require Import Prelude Pmm PmmFacts PmmInit Paging PagingFacts.

Module PagingProofs.
Import Pmm PmmFacts PmmInit Paging PagingFacts.

(** ** Leaf entries *)
Definition descend (m : node) (l : list Z) : node := foldl child m l.

Section leaf_store.
Context (s : paging_state) (own : gmap Z node) (f i v : Z) (n : node).
Hypothesis Hinv : pt_inv s own.
Hypothesis Hf : own !! f = Some n.
Hypothesis Hlv : level n = 3%nat.
Hypothesis Hi : 0 ≤ i < 512.

Lemma leaf_entry g m j :
  own !! g = Some m → 0 ≤ j < 512 →
  entry (set_entry f i v s) g j = if decide (g = f ∧ j = i) then v else entry s g j.
Proof. intros Hg Hj. apply entry_set_eq; try done; by eapply pi_frame. Qed.

Lemma leaf_entry_upper g m j :
  own !! g = Some m → (level m < 3)%nat → 0 ≤ j < 512 →
  entry (set_entry f i v s) g j = entry s g j.
Proof.
  intros Hg Hl Hj. rewrite (leaf_entry g m j Hg Hj). case_decide as Hd; [|done].
  destruct Hd as [-> _]. assert (m = n) by congruence. subst. lia.
Qed.

Lemma leaf_inv : pt_inv (set_entry f i v s) own.
Proof.
  split; try apply Hinv.
  - intros g m j Hg Hl Hj. rewrite (leaf_entry_upper g m j) by done. by apply (pi_link _ _ Hinv).
  - intros g m j Hg Hl Hr Hj. rewrite (leaf_entry_upper g m j) by (done || lia).
    by eapply (pi_small _ _ Hinv).
Qed.

(** A walk that does not end in this entry is not affected. *)
Lemma leaf_resolve g m l j :
  own !! g = Some m → (level m + length l = 3)%nat → Forall (λ j, 0 ≤ j < 512) l → 0 ≤ j < 512 →
  (descend m l = n → j ≠ i) →
  resolve (set_entry f i v s) g (l ++ [j]) = resolve s g (l ++ [j]).
Proof.
  intros Hg Hl HFl Hj Hne. revert g m Hg Hl Hne.
  induction l as [|k l IH]; intros g m Hg Hl Hne; cbn [app resolve].
  - rewrite (leaf_entry g m j Hg Hj). rewrite decide_False; [done|]. intros [-> ->].
    assert (m = n) as -> by congruence. by apply Hne.
  - inversion_clear HFl as [|? ? Hk HFl']. cbn [length] in Hl.
    rewrite (leaf_entry_upper g m k) by (done || lia).
    destruct (has_flag (entry s g k) PTE_PRESENT) eqn:Ep; [cbn [negb]|done].
    destruct (l ++ [j]) as [|x rest] eqn:Erest; [by destruct l|]. rewrite <- Erest in *.
    destruct (bool_decide _ && has_flag (entry s g k) PTE_SIZE_2MB) eqn:E2; [done|].
    apply (IH HFl' _ (child m k)); [|rewrite child_level; lia|done].
    apply (pi_link _ _ Hinv g m k); try done; [lia|].
    intros Hl2. rewrite bool_decide_true in E2; [done|]. rewrite length_app. cbn. lia.
Qed.

End leaf_store.

Lemma child_root r i j :
  r ≠ 0 → i < 256 → n_root (child (child (Node r []) i) j) ≠ 0.
Proof. intros Hr Hi. cbn. by rewrite (proj2 (Z.leb_gt _ _)) by lia. Qed.

(** ** Addresses *)
Lemma indices_range virt : Forall (λ j, 0 ≤ j < 512) (indices virt).
Proof. repeat constructor; apply index_range. Qed.

Lemma index_div z n : 0 ≤ n → 0 ≤ z → Z.land (Z.shiftr z n) 511 = (z / 2 ^ n) mod 512.
Proof. intros Hn Hz. change 511 with (Z.ones 9). by rewrite Z.land_ones, Z.shiftr_div_pow2. Qed.

(** Two addresses below 2^48 with the same indices are in the same page. *)
Lemma indices_inj a b :
  0 ≤ a < 2 ^ 48 → 0 ≤ b < 2 ^ 48 → indices a = indices b → a / 4096 = b / 4096.
Proof.
  intros Ha Hb Hi. unfold indices, paging_get_pml4_index, paging_get_pdpt_index,
    paging_get_pd_index, paging_get_pt_index in Hi. injection Hi as H1 H2 H3 H4.
  rewrite !index_div in * by lia.
  change (2 ^ 39) with (4096 * 134217728) in *. change (2 ^ 30) with (4096 * 262144) in *.
  change (2 ^ 21) with (4096 * 512) in *. change (2 ^ 12) with 4096 in *.
  rewrite <- !Z.div_div in * by lia.
  assert (0 ≤ a / 4096 < 68719476736) as Ha' by (change (2 ^ 48) with 281474976710656 in Ha; Z.to_euclidean_division_equations; lia).
  assert (0 ≤ b / 4096 < 68719476736) as Hb' by (change (2 ^ 48) with 281474976710656 in Hb; Z.to_euclidean_division_equations; lia).
  generalize dependent (a / 4096). generalize dependent (b / 4096). clear.
  intros p H1 H2 H3 H4 Hp q. intros.
  Z.to_euclidean_division_equations; lia.
Qed.

Lemma user_pml4_index virt : 0 ≤ virt < 2 ^ 47 → paging_get_pml4_index virt < 256.
Proof.
  intros Hv. unfold paging_get_pml4_index. rewrite index_div by lia.
  change (2 ^ 47) with 140737488355328 in Hv. change (2 ^ 39) with 549755813888.
  Z.to_euclidean_division_equations; lia.
Qed.

(** The node of the page table of [virt]. *)
Definition pt_node (r virt : Z) : node :=
  descend (Node r []) [paging_get_pml4_index virt; paging_get_pdpt_index virt; paging_get_pd_index virt].

Lemma pt_node_user r virt :
  paging_get_pml4_index virt < 256 →
  pt_node r virt
    = Node r [paging_get_pml4_index virt; paging_get_pdpt_index virt; paging_get_pd_index virt].
Proof.
  intros Hu. unfold pt_node, descend. cbn [foldl]. unfold child at 3. cbn [n_path].
  rewrite (proj2 (Z.leb_gt _ _)) by lia. done.
Qed.

Lemma pt_node_eq r r' virt va :
  r ≠ 0 → paging_get_pml4_index virt < 256 → pt_node r' va = pt_node r virt →
  r' = r ∧ paging_get_pml4_index va = paging_get_pml4_index virt
  ∧ paging_get_pdpt_index va = paging_get_pdpt_index virt
  ∧ paging_get_pd_index va = paging_get_pd_index virt.
Proof.
  intros Hr Hu Hn. rewrite (pt_node_user r virt Hu) in Hn.
  destruct (decide (paging_get_pml4_index va < 256)) as [Hlt|Hge].
  - rewrite pt_node_user in Hn by done. by injection Hn as -> -> -> ->.
  - unfold pt_node, descend in Hn. cbn [foldl] in Hn. unfold child at 3 in Hn. cbn [n_path] in Hn.
    rewrite (proj2 (Z.leb_le _ _)) in Hn by lia. cbn in Hn. by injection Hn as <-.
Qed.

(** ** Page-table entries of user pages *)
Definition PTE_MASK : Z := Z.lor (Z.lor (Z.lor PTE_PRESENT PTE_RW) PTE_USER) PTE_NX.

Lemma leaf_addr phys flags :
  0 ≤ phys < 2 ^ 52 → phys mod 4096 = 0 →
  Z.land (Z.lor phys (Z.land flags PTE_MASK)) PTE_ADDR_MASK_4KB = phys.
Proof.
  intros Hp Hm. rewrite Z.land_lor_distr_l, <- Z.land_assoc.
  change (Z.land PTE_MASK PTE_ADDR_MASK_4KB) with 0. rewrite Z.land_0_r, Z.lor_0_r.
  change PTE_ADDR_MASK_4KB with (Z.land (Z.ones 52) (Z.lnot (2 ^ 12 - 1))).
  rewrite Z.land_assoc, Z.land_ones, Z.mod_small by (done || lia).
  rewrite land_not_ones by lia. change (2 ^ 12) with 4096. lia.
Qed.

Lemma leaf_present phys flags :
  has_flag flags PTE_PRESENT = true →
  has_flag (Z.lor phys (Z.land flags PTE_MASK)) PTE_PRESENT = true.
Proof.
  unfold has_flag. rewrite !negb_true_iff, !Z.eqb_neq. intros Hf Hz. apply Hf.
  rewrite Z.land_lor_distr_l, <- Z.land_assoc in Hz.
  change (Z.land PTE_MASK PTE_PRESENT) with PTE_PRESENT in Hz.
  by apply Z.lor_eq_0_iff in Hz as [_ ?].
Qed.

(** An address space of the kernel. *)
Definition is_root (own : gmap Z node) (r : Z) : Prop := own !! r = Some (Node r []) ∧ r ≠ 0.

Definition user_page (virt : Z) : Prop := 0 ≤ virt < 2 ^ 47 ∧ virt mod 4096 = 0.

(** What a successful mapping of [virt] does to the translations. *)
Definition mapped_only (s s' : paging_state) (own : gmap Z node) (r virt phys flags : Z) : Prop :=
  translate s' r virt = phys ∧ leaf s' r virt = Some (Z.lor phys (Z.land flags PTE_MASK))
  ∧ ∀ r' va, is_root own r' → r' ≠ r ∨ indices va ≠ indices virt →
      same_page s s' r' va.

(** ** The chain of tables of a user page *)
Definition chain (s : paging_state) (own : gmap Z node) (r virt pt : Z) : Prop :=
  ∃ pdpt pd,
    has_flag (entry s r (paging_get_pml4_index virt)) PTE_PRESENT = true
    ∧ table_of (entry s r (paging_get_pml4_index virt)) = pdpt
    ∧ has_flag (entry s pdpt (paging_get_pdpt_index virt)) PTE_PRESENT = true
    ∧ table_of (entry s pdpt (paging_get_pdpt_index virt)) = pd
    ∧ has_flag (entry s pd (paging_get_pd_index virt)) PTE_PRESENT = true
    ∧ has_flag (entry s pd (paging_get_pd_index virt)) PTE_SIZE_2MB = false
    ∧ table_of (entry s pd (paging_get_pd_index virt)) = pt
    ∧ own !! pdpt = Some (child (Node r []) (paging_get_pml4_index virt))
    ∧ own !! pd = Some (descend (Node r []) [paging_get_pml4_index virt; paging_get_pdpt_index virt])
    ∧ own !! pt = Some (pt_node r virt).

Lemma chain_translate s own r virt pt :
  chain s own r virt pt →
  let pte := entry s pt (paging_get_pt_index virt) in
  translate s r virt
    = (if has_flag pte PTE_PRESENT
       then Z.lor (Z.land pte PTE_ADDR_MASK_4KB) (Z.land virt PAGE_OFFSET_MASK) else 0)
  ∧ leaf s r virt = if has_flag pte PTE_PRESENT then Some pte else None.
Proof.
  intros (pdpt & pd & P1 & T1 & P2 & T2 & P3 & S3 & T3 & _).
  unfold translate, leaf, find_pt, find_pd, paging_get_pdpt, paging_get_pd, paging_get_pt.
  rewrite P1, T1. cbn [negb]. rewrite P2, T2. cbn [negb]. rewrite P3, S3, T3. cbn [negb].
  split; [|done]. by destruct (has_flag (entry s pt _) PTE_PRESENT).
Qed.

Lemma level_descend m l : level (descend m l) = (level m + length l)%nat.
Proof.
  revert m. induction l as [|i l IH]; intros m; cbn; [lia|].
  change (foldl child (child m i) l) with (descend (child m i) l). rewrite IH, child_level. lia.
Qed.

(** Storing the leaf entry of a chain. *)
Lemma chain_store s own r virt pt v :
  pt_inv s own → is_root own r → user_page virt → chain s own r virt pt →
  let s' := set_entry pt (paging_get_pt_index virt) v s in
  pt_inv s' own ∧ chain s' own r virt pt
  ∧ entry s' pt (paging_get_pt_index virt) = v
  ∧ ∀ r' va, is_root own r' → r' ≠ r ∨ indices va ≠ indices virt →
      same_page s s' r' va.
Proof.
  intros Hinv [Hr Hr0] [Hv Hvm] Hch. pose proof Hch as (pdpt & pd & C).
  destruct C as (P1 & T1 & P2 & T2 & P3 & S3 & T3 & O1 & O2 & O3).
  assert (level (pt_node r virt) = 3%nat) as Hl3 by (unfold pt_node; by rewrite level_descend).
  pose proof (index_range virt 12 : 0 ≤ paging_get_pt_index virt < 512) as I1.
  pose proof (index_range virt 21 : 0 ≤ paging_get_pd_index virt < 512) as I2.
  pose proof (index_range virt 30 : 0 ≤ paging_get_pdpt_index virt < 512) as I3.
  pose proof (index_range virt 39 : 0 ≤ paging_get_pml4_index virt < 512) as I4.
  set (s' := set_entry _ _ v s). split; [by eapply leaf_inv|]. split; [|split; [apply entry_set_same|]].
  - assert (∀ g m j, own !! g = Some m → (level m < 3)%nat → 0 ≤ j < 512 → entry s' g j = entry s g j) as U.
    { intros g m j Hg Hl Hj. by eapply leaf_entry_upper. }
    exists pdpt, pd. rewrite (U r (Node r [])) by (done || cbn; lia).
    rewrite (U pdpt _ _ O1) by (done || rewrite child_level; cbn; lia).
    rewrite (U pd _ _ O2) by (done || rewrite level_descend; cbn; lia). by split_and!.
  - intros r' va [Hr' _] Hne. apply same_page_resolve.
    change (indices va) with ([paging_get_pml4_index va; paging_get_pdpt_index va; paging_get_pd_index va]
      ++ [paging_get_pt_index va]).
    apply (leaf_resolve s own pt (paging_get_pt_index virt) v (pt_node r virt) Hinv O3 Hl3 I1 r' (Node r' []));
      try done; [repeat constructor; apply index_range|apply index_range|].
    intros Hd Ei. destruct (pt_node_eq r r' virt va Hr0 (user_pml4_index virt Hv) Hd) as (-> & E4 & E3 & E2).
    destruct Hne as [?|Hne]; [done|]. apply Hne. unfold indices. congruence.
Qed.

(** ** Mapping *)
Lemma root_mono own own' r : own ⊆ own' → is_root own r → is_root own' r.
Proof. intros Hsub [Hr Hr0]. split; [by eapply lookup_weaken|done]. Qed.

(** State [s] has more tables than [s0] and the same translations. *)
Definition grown (s0 : paging_state) (own0 : gmap Z node) (s : paging_state) (own : gmap Z node) : Prop :=
  own0 ⊆ own ∧ pt_inv s own ∧ pmm_grow (pg_pmm s0) (pg_pmm s)
  ∧ current_pml4_phys s = current_pml4_phys s0
  ∧ (∀ g, frame_used (pg_pmm s0) g → own !! g = own0 !! g)
  ∧ ∀ r va, is_root own0 r → same_page s0 s r va.

Lemma goc_grown s0 own0 s own f n i extra r s' :
  grown s0 own0 s own → own !! f = Some n → (level n < 3)%nat → 0 ≤ i < 512 →
  extra = 0 ∨ extra = PTE_USER → (level n = 2%nat → n_root n ≠ 0) →
  get_or_create paging_alloc_page_table_low extra s f i = (r, s') →
  ∃ own', grown s0 own0 s' own' ∧ own ⊆ own'
    ∧ (∀ g m j, own !! g = Some m → 0 ≤ j < 512 → has_flag (entry s g j) PTE_PRESENT = true →
        entry s' g j = entry s g j)
    ∧ (∀ t, r = Some t → own' !! t = Some (child n i)
        ∧ has_flag (entry s' f i) PTE_PRESENT = true ∧ table_of (entry s' f i) = t
        ∧ (level n = 2%nat → has_flag (entry s' f i) PTE_SIZE_2MB = false)).
Proof.
  intros (Hsub & Hinv & Hgr & Hcu & Hne & Htr) Hf Hl Hi Hx Hroot Hg.
  destruct (goc_spec s own f n i extra r s') as (own' & Sub & J & N & R & E & T); try done.
  { intros Hl2 Hp. by apply (pi_small _ _ Hinv f n i); auto. }
  pose proof (goc_grow s f i extra (pi_pmm _ _ Hinv)) as [Hg2 Hc2]. rewrite Hg in Hg2, Hc2. cbn [snd] in *.
  exists own'. split_and!; try done.
  split_and!; [by etrans|done|by eapply pmm_grow_trans|congruence| |].
  { intros g Hu. rewrite N by (by apply Hgr). by apply Hne. }
  intros r' va Hr'. eapply same_page_trans; [by apply Htr|]. apply same_page_resolve.
  apply (R r' (Node r' [])); [by destruct (root_mono _ _ _ Hsub Hr')|done|apply indices_range].
Qed.

Lemma extra_flags flags : Z.land flags PTE_USER = 0 ∨ Z.land flags PTE_USER = PTE_USER.
Proof.
  unfold PTE_USER. destruct (Z.testbit flags 2) eqn:E; [right|left]; apply Z.bits_inj';
    intros n Hn; rewrite Z.land_spec; change 4 with (2 ^ 2); rewrite ?Z.bits_0;
    (destruct (decide (n = 2)) as [->|Hne];
      [rewrite E, Z.pow2_bits_true by lia; done|rewrite Z.pow2_bits_false by done; by rewrite andb_false_r]).
Qed.

(** What a mapping keeps besides the translations: used frames, their
    content and their owners. *)
Definition map_frame (s : paging_state) (own : gmap Z node) (s' : paging_state) (own' : gmap Z node) : Prop :=
  pmm_grow (pg_pmm s) (pg_pmm s') ∧ current_pml4_phys s' = current_pml4_phys s
  ∧ ∀ g, frame_used (pg_pmm s) g → own' !! g = own !! g.

Lemma grown_failed s own s' own' r virt phys flags :
  grown s own s' own' →
  own ⊆ own' ∧ pt_inv s' own' ∧ map_frame s own s' own'
  ∧ ((RDNX_E_GENERIC = 0 ∧ mapped_only s s' own r virt phys flags)
     ∨ (RDNX_E_GENERIC = RDNX_E_GENERIC
        ∧ ∀ r' va, is_root own r' → same_page s s' r' va)).
Proof. intros (H1 & H2 & H3 & H4 & H5 & H6). split_and!; try done. by right. Qed.

(** The final store of a mapping, once all tables exist. *)
Lemma map_commit s own s3 own3 r virt pt phys flags :
  grown s own s3 own3 → is_root own r → user_page virt → phys mod 4096 = 0 → 0 ≤ phys < 2 ^ 52 →
  has_flag flags PTE_PRESENT = true → chain s3 own3 r virt pt →
  let s' := set_entry pt (paging_get_pt_index virt) (Z.lor phys (Z.land flags PTE_MASK)) s3 in
  own ⊆ own3 ∧ pt_inv s' own3 ∧ map_frame s own s' own3
  ∧ ((0 = 0 ∧ mapped_only s s' own r virt phys flags)
     ∨ (0 = RDNX_E_GENERIC ∧ ∀ r' va, is_root own r' → same_page s s' r' va)).
Proof.
  intros (Hsub & Hinv & Hgr & Hcu & Hne & Htr) Hr Hv Hpm Hpr Hfl Hch.
  destruct (chain_store s3 own3 r virt pt (Z.lor phys (Z.land flags PTE_MASK)) Hinv
    (root_mono _ _ _ Hsub Hr) Hv Hch) as (I & C & E & Q).
  do 3 (split; [done|]). left. split; [done|].
  destruct (chain_translate _ _ _ _ _ C) as [Ct Cl]. rewrite E, leaf_present in Ct, Cl by done.
  split_and!; [|done|].
  - rewrite Ct, leaf_addr by done. unfold PAGE_OFFSET_MASK. change 4095 with (Z.ones 12).
    rewrite Z.land_ones by lia. destruct Hv as [_ Hvm]. change (2 ^ 12) with 4096.
    by rewrite Hvm, Z.lor_0_r.
  - intros r' va Hr' Hd. eapply same_page_trans; [by apply Htr|]. apply Q; [by eapply root_mono|done].
Qed.

Lemma map_result s own r virt phys flags :
  pt_inv s own → is_root own r → user_page virt → phys mod 4096 = 0 → 0 ≤ phys < 2 ^ 52 →
  has_flag flags PTE_PRESENT = true →
  let '(rc, s') := paging_map_page_4kb_pml4 s r virt phys flags in
  ∃ own', own ⊆ own' ∧ pt_inv s' own' ∧ map_frame s own s' own'
    ∧ ((rc = 0 ∧ mapped_only s s' own r virt phys flags)
       ∨ (rc = RDNX_E_GENERIC ∧ ∀ r' va, is_root own r' → same_page s s' r' va)).
Proof.
  intros Hinv Hr Hv Hpm Hpr Hfl. pose proof Hr as [Hro Hr0]. pose proof Hv as [Hvr Hvm].
  unfold paging_map_page_4kb_pml4, PAGE_OFFSET_MASK.
  assert (∀ a, a mod 4096 = 0 → Z.land a 4095 = 0) as Hmask.
  { intros a Ha. change 4095 with (Z.ones 12). by rewrite Z.land_ones. }
  rewrite !Hmask by done. rewrite (proj2 (Z.eqb_neq r 0)) by done. cbn [Z.eqb negb orb]. fold PTE_MASK.
  pose proof (index_range virt 21 : 0 ≤ paging_get_pd_index virt < 512) as I2.
  pose proof (index_range virt 30 : 0 ≤ paging_get_pdpt_index virt < 512) as I3.
  pose proof (index_range virt 39 : 0 ≤ paging_get_pml4_index virt < 512) as I4.
  pose proof (extra_flags flags) as Hex.
  assert (grown s own s own) as G0 by (split_and!; try done; apply pmm_grow_refl, Hinv).
  destruct (get_or_create _ _ s r _) as [o1 s1] eqn:C1.
  destruct (goc_grown _ _ _ _ _ _ _ _ _ _ G0 Hro ltac:(cbn; lia) I4 Hex ltac:(done) C1)
    as (own1 & G1 & Sub1 & E1 & T1).
  destruct o1 as [pdpt|]; [|by exists own1; apply grown_failed].
  destruct (T1 pdpt eq_refl) as (O1 & P1 & Tb1 & _).
  destruct (get_or_create _ _ s1 pdpt _) as [o2 s2] eqn:C2.
  destruct (goc_grown _ _ _ _ _ _ _ _ _ _ G1 O1 ltac:(rewrite child_level; cbn; lia) I3 Hex
    ltac:(by rewrite child_level) C2) as (own2 & G2 & Sub2 & E2 & T2).
  destruct o2 as [pd|]; [|by exists own2; apply grown_failed].
  destruct (T2 pd eq_refl) as (O2 & P2 & Tb2 & _).
  destruct (get_or_create _ _ s2 pd _) as [o3 s3] eqn:C3.
  destruct (goc_grown _ _ _ _ _ _ _ _ _ _ G2 O2 ltac:(rewrite !child_level; cbn; lia) I2 Hex
    ltac:(intros _; apply child_root; [done|by apply user_pml4_index]) C3) as (own3 & G3 & Sub3 & E3 & T3).
  destruct o3 as [pt|]; [|by exists own3; apply grown_failed].
  destruct (T3 pt eq_refl) as (O3 & P3 & Tb3 & L3).
  exists own3. apply (map_commit s own s3 own3 r virt pt); try done.
  pose proof (lookup_weaken _ _ _ _ Hro Sub1) as Hro1.
  pose proof (E2 r _ _ Hro1 I4 P1) as X2. rewrite <- X2 in P1, Tb1.
  pose proof (E3 r _ _ (lookup_weaken _ _ _ _ Hro1 Sub2) I4 P1) as X3. rewrite <- X3 in P1, Tb1.
  pose proof (E3 pdpt _ _ (lookup_weaken _ _ _ _ O1 Sub2) I3 P2) as X4. rewrite <- X4 in P2, Tb2.
  exists pdpt, pd. split_and!; try done; [apply L3; by rewrite !child_level|..].
  - exact (lookup_weaken _ _ _ _ (lookup_weaken _ _ _ _ O1 Sub2) Sub3).
  - exact (lookup_weaken _ _ _ _ O2 Sub3).
Qed.

(** C24. Mapping a user page in an address space either succeeds, the page then
    translates to the given frame with exactly the requested permissions and
    no other page of any address space changes, or fails for lack of
    page-table memory and changes no translation.  The page-table invariant
    is kept, and no used frame changes content or becomes a table. *)
Theorem paging_map_page_4kb_pml4_correct s own r virt phys flags :
  pt_inv s own → is_root own r → user_page virt → phys mod 4096 = 0 → 0 ≤ phys < 2 ^ 52 →
  has_flag flags PTE_PRESENT = true →
  let '(rc, s') := paging_map_page_4kb_pml4 s r virt phys flags in
  ∃ own', own ⊆ own' ∧ pt_inv s' own' ∧ map_frame s own s' own'
    ∧ ((rc = 0 ∧ mapped_only s s' own r virt phys flags)
       ∨ (rc = RDNX_E_GENERIC ∧ ∀ r' va, is_root own r' → same_page s s' r' va)).
Proof. apply map_result. Qed.

(** ** Unmapping *)
Lemma unmap_result s own r virt :
  pt_inv s own → is_root own r → user_page virt →
  let '(rc, s') := paging_unmap_page_pml4 s r virt in
  pt_inv s' own ∧ translate s' r virt = 0
  ∧ ∀ r' va, is_root own r' → r' ≠ r ∨ indices va ≠ indices virt →
      same_page s s' r' va.
Proof.
  intros Hinv Hr Hv. pose proof Hr as [Hro Hr0]. pose proof Hv as [Hvr Hvm].
  unfold paging_unmap_page_pml4, unmap_in. rewrite (proj2 (Z.eqb_neq r 0)) by done.
  pose proof (index_range virt 21 : 0 ≤ paging_get_pd_index virt < 512) as I2.
  pose proof (index_range virt 30 : 0 ≤ paging_get_pdpt_index virt < 512) as I3.
  pose proof (index_range virt 39 : 0 ≤ paging_get_pml4_index virt < 512) as I4.
  destruct (find_pd s r virt) as [pd|] eqn:Epd.
  2: { split_and!; try done. unfold translate. by rewrite Epd. }
  destruct (has_flag (entry s pd (paging_get_pd_index virt)) PTE_PRESENT) eqn:P3; cbn [negb].
  2: { split_and!; try done. unfold translate. by rewrite Epd, P3. }
  pose proof Epd as Efind. unfold find_pd, paging_get_pdpt, paging_get_pd in Efind.
  destruct (has_flag (entry s r (paging_get_pml4_index virt)) PTE_PRESENT) eqn:P1; [cbn [negb] in Efind|done].
  pose proof (pi_link _ _ Hinv r _ _ Hro ltac:(cbn; lia) I4 P1 ltac:(done)) as O1.
  destruct (has_flag (entry s _ (paging_get_pdpt_index virt)) PTE_PRESENT) eqn:P2; [|done].
  injection Efind as T2.
  pose proof (pi_link _ _ Hinv _ _ _ O1 ltac:(rewrite child_level; cbn; lia) I3 P2
    ltac:(by rewrite child_level)) as O2. rewrite T2 in O2.
  assert (has_flag (entry s pd (paging_get_pd_index virt)) PTE_SIZE_2MB = false) as S3.
  { eapply pi_small; try done; [by rewrite !child_level|].
    apply child_root; [done|by apply user_pml4_index]. }
  pose proof (pi_link _ _ Hinv _ _ _ O2 ltac:(rewrite !child_level; cbn; lia) I2 P3 ltac:(done)) as O3.
  rewrite S3. assert (chain s own r virt (table_of (entry s pd (paging_get_pd_index virt)))) as Hch.
  { eexists _, pd. by split_and!. }
  destruct (chain_store s own r virt _ 0 Hinv Hr Hv Hch) as (I & C & E & Q).
  split_and!; try done. destruct (chain_translate _ _ _ _ _ C) as [Ct _]. rewrite Ct, E. done.
Qed.

(** Unmapping a user page keeps the invariant, leaves the page without a
    translation and changes no other page of any address space. *)
Theorem paging_unmap_page_pml4_correct s own r virt :
  pt_inv s own → is_root own r → user_page virt →
  let '(rc, s') := paging_unmap_page_pml4 s r virt in
  pt_inv s' own ∧ translate s' r virt = 0
  ∧ ∀ r' va, is_root own r' → r' ≠ r ∨ indices va ≠ indices virt →
      same_page s s' r' va.
Proof. apply unmap_result. Qed.

(** ** An instance: an empty address space at 36864 over the demonstration
    page allocator *)
Definition demo_paging : paging_state := mk_paging demo_pmm ∅ 36864 true.
Definition demo_own : gmap Z node := {[36864 := Node 36864 []]}.

Lemma demo_entry f i : entry demo_paging f i = 0.
Proof. unfold entry, demo_paging. cbn [words]. by rewrite lookup_total_empty. Qed.

Lemma below_window p f i :
  pmm_inv p → 0 ≤ i < total_pages p → f < memory_start p → f ≠ pmm_index_to_page p i.
Proof. intros Hp Hi Hf. rewrite index_to_page_eq by done. lia. Qed.

Lemma demo_pt_inv : pt_inv demo_paging demo_own.
Proof.
  assert (∀ f n, demo_own !! f = Some n → f = 36864) as Hf.
  { intros f n Ho. unfold demo_own in Ho. by apply lookup_singleton_Some in Ho as [<- _]. }
  split.
  - apply demo_inv.
  - intros f n Ho. by rewrite (Hf f n Ho).
  - intros f n i Ho Hi E. exfalso. rewrite (Hf f n Ho) in E. revert E.
    apply below_window; [apply demo_inv|done|].
    assert (memory_start demo_pmm = 1052672) as Hm by (by vm_compute).
    cbn [pg_pmm demo_paging]. rewrite Hm. clear. lia.
  - intros f n i _ _ _ Hp. rewrite demo_entry in Hp. discriminate Hp.
  - intros f n i _ _ _ _ Hp. rewrite demo_entry in Hp. discriminate Hp.
Qed.

Lemma demo_root : is_root demo_own 36864.
Proof. by split. Qed.

Lemma paging_map_page_4kb_pml4_correct_witness :
  (paging_map_page_4kb_pml4 demo_paging 36864 4194304 1052672 7).1 = 0
  ∧ ∃ own', demo_own ⊆ own'
      ∧ pt_inv (paging_map_page_4kb_pml4 demo_paging 36864 4194304 1052672 7).2 own'.
Proof.
  pose proof (paging_map_page_4kb_pml4_correct demo_paging demo_own 36864 4194304 1052672 7
    demo_pt_inv demo_root ltac:(by split) ltac:(done) ltac:(done) ltac:(done)) as H.
  assert ((paging_map_page_4kb_pml4 demo_paging 36864 4194304 1052672 7).1 = 0) as Hrc by (by vm_compute).
  destruct (paging_map_page_4kb_pml4 demo_paging 36864 4194304 1052672 7) as [rc s].
  cbn [fst snd] in *. split; [done|]. destruct H as (own' & ? & ? & _). by exists own'.
Defined.

Lemma paging_unmap_page_pml4_correct_witness :
  translate (paging_unmap_page_pml4 demo_paging 36864 4194304).2 36864 4194304 = 0.
Proof.
  pose proof (paging_unmap_page_pml4_correct demo_paging demo_own 36864 4194304
    demo_pt_inv demo_root ltac:(by split)) as H.
  destruct (paging_unmap_page_pml4 demo_paging 36864 4194304) as [rc s].
  cbn [snd] in *. exact (proj1 (proj2 H)).
Defined.

End PagingProofs.

(** * A new address space ([paging_create_user_pml4])

    The new top table shares the kernel half of the current one and has no
    user page.  No page of another address space changes. *)
Module PagingRoot.
Import Pmm PmmFacts Paging PagingFacts PagingProofs.

(** The entry of the kernel half as it is copied. *)
Definition shared (e : Z) : Z := Z.land e (not64 PTE_USER).

Lemma shared_present e : has_flag (shared e) PTE_PRESENT = has_flag e PTE_PRESENT.
Proof. unfold has_flag, shared. by rewrite <- Z.land_assoc. Qed.

Lemma shared_table e : table_of (shared e) = table_of e.
Proof. unfold table_of, shared. by rewrite <- Z.land_assoc. Qed.

(** The copy of the kernel half. *)
Definition copy_half (phys cur : Z) (s : paging_state) : paging_state :=
  foldl (λ s i, set_entry phys i (Z.land (entry s cur i) (not64 PTE_USER)) s) s (seqZ 256 256).

Lemma copy_fold_entry phys cur l s g j :
  phys mod 4096 = 0 → cur mod 4096 = 0 → phys ≠ cur → g mod 4096 = 0 → 0 ≤ j < 512 → (∀ i, i ∈ l → 0 ≤ i < 512) →
  let s' := foldl (λ s i, set_entry phys i (Z.land (entry s cur i) (not64 PTE_USER)) s) s l in
  entry s' g j = (if decide (g = phys ∧ j ∈ l) then shared (entry s cur j) else entry s g j)
  ∧ pg_pmm s' = pg_pmm s ∧ current_pml4_phys s' = current_pml4_phys s.
Proof.
  intros Hp Hc Hne Hg Hj. revert s. induction l as [|i l IH]; intros s Hl; cbn [foldl].
  { rewrite decide_False; [done|]. intros [_ Hn]. by apply not_elem_of_nil in Hn. }
  pose proof (Hl i ltac:(by left)) as Hi.
  destruct (IH (set_entry phys i (Z.land (entry s cur i) (not64 PTE_USER)) s) ltac:(intros; apply Hl; by right)) as (E & E1 & E2).
  split; [|done]. cbn zeta in E. rewrite E. rewrite (entry_set_other s cur j phys i) by (done || congruence).
  destruct (decide (g = phys ∧ j ∈ i :: l)) as [[-> Hin]|Hd].
  - destruct (decide (phys = phys ∧ j ∈ l)) as [_|Hn]; [done|].
    apply elem_of_cons in Hin as [->|]; [|tauto]. by rewrite entry_set_same.
  - rewrite decide_False by (rewrite elem_of_cons in Hd; tauto). apply entry_set_other; try done.
    intros -> ->. apply Hd. split; [done|by left].
Qed.

Lemma copy_half_spec phys cur s g j :
  phys mod 4096 = 0 → cur mod 4096 = 0 → phys ≠ cur → g mod 4096 = 0 → 0 ≤ j < 512 →
  entry (copy_half phys cur s) g j = (if decide (g = phys ∧ 256 ≤ j) then shared (entry s cur j) else entry s g j)
  ∧ pg_pmm (copy_half phys cur s) = pg_pmm s ∧ current_pml4_phys (copy_half phys cur s) = current_pml4_phys s.
Proof.
  intros ?????. destruct (copy_fold_entry phys cur (seqZ 256 256) s g j) as (E & P & C);
    [done..|intros i Hi%elem_of_seqZ; lia|]. split; [|exact (conj P C)]. refine (eq_trans E _).
  destruct (decide (g = phys ∧ 256 ≤ j)) as [[-> Hj]|Hn]; [rewrite decide_True|rewrite decide_False]; [done| |done|].
  - split; [done|]. apply elem_of_seqZ. lia.
  - intros [-> Hj%elem_of_seqZ]. apply Hn. split; [done|lia].
Qed.

Lemma create_unfold s :
  paging_create_user_pml4 s =
  let '(phys, s) := paging_alloc_page_table_low s in
  if phys =? 0 then (0, s)
  else
    let s := zero_table phys s in
    let cur := paging_get_pml4 s in
    if cur =? 0 then (0, s) else (phys, copy_half phys cur s).
Proof. unfold paging_create_user_pml4, copy_half. reflexivity. Qed.

#[local] Opaque copy_half.

(** The new table as a root beside the others. *)
Lemma new_root_inv s own phys cur s' :
  pt_inv s own → own !! cur = Some (Node cur []) → fresh_table s own phys → phys ≠ 0 →
  pg_pmm s' = pg_pmm s →
  (∀ g j, g mod 4096 = 0 → 0 ≤ j < 512 →
     entry s' g j = if decide (g = phys ∧ 256 ≤ j) then shared (entry s cur j) else entry s g j) →
  pt_inv s' (<[phys := Node phys []]> own).
Proof.
  intros Hinv Hcur (Hno & Hm & Hz & Hb) H0 Hpm He.
  assert (∀ g n j, own !! g = Some n → 0 ≤ j < 512 → entry s' g j = entry s g j) as Hold.
  { intros g n j Hg Hj. rewrite He by (done || by eapply pi_frame). rewrite decide_False; [done|]. intros [-> _]. congruence. }
  split.
  - rewrite Hpm. apply Hinv.
  - intros f n [[<- _]|[_ Hf]]%lookup_insert_Some; [done|]. by eapply pi_frame.
  - rewrite Hpm. intros f n i [[<- _]|[_ Hf]]%lookup_insert_Some; [by apply Hb|]. by eapply pi_used.
  - intros f n i [[<- <-]|[Hne Hf]]%lookup_insert_Some Hlv Hi Hp Hs.
    + rewrite He in Hp |- * by done. destruct (decide (phys = phys ∧ 256 ≤ i)) as [[_ Hk]|Hk].
      * rewrite shared_present in Hp. rewrite shared_table.
        pose proof (pi_link _ _ Hinv cur _ i Hcur Hlv Hi Hp ltac:(done)) as Hc.
        rewrite lookup_insert_ne by congruence. rewrite Hc. unfold child. cbn. by rewrite (proj2 (Z.leb_le _ _)) by lia.
      * rewrite Hz in Hp by done. done.
    + rewrite (Hold f n) in Hp, Hs |- * by done. pose proof (pi_link _ _ Hinv f n i Hf Hlv Hi Hp Hs) as Hc.
      rewrite lookup_insert_ne by congruence. done.
  - intros f n i [[<- <-]|[Hne Hf]]%lookup_insert_Some Hlv Hr Hi; [done|]. rewrite (Hold f n) by done. by eapply pi_small.
Qed.

Lemma alloc_low_grow s :
  pmm_inv (pg_pmm s) →
  pmm_grow (pg_pmm s) (pg_pmm (paging_alloc_page_table_low s).2)
  ∧ current_pml4_phys (paging_alloc_page_table_low s).2 = current_pml4_phys s.
Proof.
  intros Hp. unfold paging_alloc_page_table_low, alloc_table.
  pose proof (alloc_grow (pg_pmm s) PMM_ZONE_LOW Hp ltac:(done)) as Ha.
  destruct (pmm_alloc_page_in_zone (pg_pmm s) PMM_ZONE_LOW) as [f p']. destruct Ha as [Ha _]. by destruct (f =? 0).
Qed.

(** Owned tables that keep their entries keep the pages. *)
Lemma same_pages_ext s s' own r va :
  pt_inv s own → is_root own r → (∀ g m i, own !! g = Some m → 0 ≤ i < 512 → entry s' g i = entry s g i) →
  same_page s s' r va.
Proof.
  intros Hinv [Hr _] He. apply same_page_resolve.
  apply (resolve_ext s s' own r (Node r [])); try done. apply indices_range.
Qed.

Lemma create_result s own :
  pt_inv s own → is_root own (current_pml4_phys s) →
  let '(r, s') := paging_create_user_pml4 s in
  ∃ own', grown s own s' own'
    ∧ (r ≠ 0 → is_root own' r ∧ own !! r = None ∧ ¬ frame_used (pg_pmm s) r ∧ ∀ va, user_page va → translate s' r va = 0).
Proof.
  intros Hinv [Hcur Hc0]. rewrite create_unfold.
  destruct (alloc_low_grow s (pi_pmm _ _ Hinv)) as [Hg Hcs].
  destruct (paging_alloc_page_table_low s) as [phys s1] eqn:Ha. cbn [snd] in *.
  destruct (alloc_low_spec s own phys s1 Hinv Ha) as (I1 & E1 & Hf).
  destruct (phys =? 0) eqn:E0; bool_hyps.
  { exists own. split; [|done]. split_and!; try done. intros r va Hr. by eapply same_pages_ext. }
  destruct (Hf E0) as (Hno & Hm & Hr & Hz & Hb). pose proof (alloc_low_fresh s phys s1 (pi_pmm _ _ Hinv) Ha E0) as Hfr.
  unfold paging_get_pml4. change (current_pml4_phys (zero_table phys s1)) with (current_pml4_phys s1).
  rewrite Hcs, (proj2 (Z.eqb_neq _ 0)) by done. set (cur := current_pml4_phys s) in *.
  assert (cur mod 4096 = 0) as Hcm by (by eapply pi_frame).
  assert (phys ≠ cur) as Hne by congruence.
  assert (∀ g j, g mod 4096 = 0 → 0 ≤ j < 512 → entry (zero_table phys s1) g j = entry s1 g j) as Hz1.
  { intros g j Hgm Hj. rewrite zero_table_entry by done. case_decide; [|done]. subst g. by rewrite Hz. }
  assert (∀ g j, g mod 4096 = 0 → 0 ≤ j < 512 →
    entry (copy_half phys cur (zero_table phys s1)) g j
      = (if decide (g = phys ∧ 256 ≤ j) then shared (entry s1 cur j) else entry s1 g j)
    ∧ pg_pmm (copy_half phys cur (zero_table phys s1)) = pg_pmm s1
    ∧ current_pml4_phys (copy_half phys cur (zero_table phys s1)) = current_pml4_phys s1) as Hs2.
  { intros g j Hgm Hj. rewrite <- (Hz1 g j), <- (Hz1 cur j) by done.
    destruct (copy_half_spec phys cur (zero_table phys s1) g j) as (E & P & C); [done..|]. split_and!; [exact E|exact P|exact C]. }
  set (s2 := copy_half _ _ _) in *. clearbody s2.
  destruct (Hs2 cur 0 Hcm ltac:(lia)) as (_ & P2 & C2). exists (<[phys := Node phys []]> own).
  assert (∀ g m i, own !! g = Some m → 0 ≤ i < 512 → entry s2 g i = entry s g i) as Hold.
  { intros g m i Ho Hi. rewrite (proj1 (Hs2 g i ltac:(by eapply pi_frame) Hi)), decide_False by (intros [-> _]; congruence).
    by eapply E1. }
  split.
  - split_and!; [by apply insert_subseteq| |by rewrite P2|by rewrite C2| |].
    + apply (new_root_inv s1 own phys cur); try done. intros g j ??. by apply Hs2.
    + intros g Hug. apply lookup_insert_ne. intros <-. done.
    + intros r va Hroot. by eapply same_pages_ext.
  - intros _. split_and!; [split; [apply lookup_insert_eq|done]|done|done|]. intros va [Hva Hvm].
    unfold translate, find_pd, paging_get_pdpt. pose proof (user_pml4_index va Hva) as Hi.
    pose proof (index_range va 39 : 0 ≤ paging_get_pml4_index va < 512) as Hir.
    rewrite (proj1 (Hs2 phys _ Hm Hir)), decide_False by lia. by rewrite Hz.
Qed.

(** A new user address space is empty: none of its user pages is mapped.  The
    frames and the pages of the others stay as they are, also when there is no
    frame for it. *)
Theorem paging_create_user_pml4_correct s own :
  pt_inv s own → is_root own (current_pml4_phys s) →
  let '(r, s') := paging_create_user_pml4 s in
  ∃ own', grown s own s' own'
    ∧ (r ≠ 0 → is_root own' r ∧ own !! r = None ∧ ¬ frame_used (pg_pmm s) r ∧ ∀ va, user_page va → translate s' r va = 0).
Proof. apply create_result. Qed.

End PagingRoot.
