(* ===== verification/Vm.v ===== *)
(** * Virtual memory of tasks (kernel/vm)

    Page reference counts (vm_page_ref.c), memory objects (vm_object.c), the
    zero-fill pager (vm_pager.c), the map of a task's address space
    (vm_map.c) and the page-fault handler (vm_fault.c), on top of [Paging]
    and [Pmm].

    Objects live in a store indexed by object address, 0 being [NULL], so
    that map entries of several tasks can share one.  The content of page
    frames is the [mem] of the physical memory manager; file data that a
    mapping reads and writes back is the byte store [fbytes].  A [kmalloc] of
    a nonzero size either returns a block or stops the kernel
    ([HeapProofs.kmalloc_correct]), so the paths that handle a null result of
    it are never taken and are left out. *)

From stdpp Require Import base gmap list numbers fin_maps.
From S2P Require Import Prelude Pmm Paging.

Module Vm.
Import Pmm Paging.

Definition VM_PAGE_SIZE : Z := 4096.
Definition VM_MAP_MAX_ENTRIES : Z := 128.
Definition VM_PROT_NONE : Z := 0.
Definition VM_PROT_READ : Z := 1.
Definition VM_PROT_WRITE : Z := 2.
Definition VM_PROT_EXEC : Z := 4.
Definition VM_MAP_F_ANON : Z := 1.
Definition VM_MAP_F_PRIVATE : Z := 2.
Definition VM_MAP_F_FIXED : Z := 4.
Definition VM_MAP_F_LAZY : Z := 8.
Definition VM_MAP_F_STACK : Z := 16.
Definition VM_MAP_F_COW : Z := 32.
Definition VM_USER_MIN : Z := 4096.
Definition VM_USER_MAX : Z := 2147483648.
Definition VM_DEFAULT_MMAP : Z := 1610612736.
Definition ARCH_KERNEL_VIRT_BASE : Z := 18446744071562067968.

(** ** Data *)
Inductive vm_object_type_t := VM_OBJECT_ANON | VM_OBJECT_FILE.

#[export] Instance vm_object_type_eq_dec : EqDecision vm_object_type_t.
Proof. solve_decision. Defined.

Record vm_file_backing_t := mk_backing {
  fb_data : Z;
  fb_size : Z;
  fb_file_offset : Z
}.

(** The array [resident_pages] has [page_count] elements. *)
Record vm_object_t := mk_object {
  o_type : vm_object_type_t;
  ref_count : Z;
  o_size : Z;
  page_count : Z;
  resident_pages : list Z;
  pager_private : option vm_file_backing_t
}.

Record vm_map_entry_t := mk_entry {
  e_start : Z;
  e_end : Z;
  e_prot : Z;
  e_flags : Z;
  e_object : Z;
  e_offset : Z
}.

(** The array [entries] up to [entry_count]. *)
Record vm_map_t := mk_map {
  pml4_phys : Z;
  entries : list vm_map_entry_t
}.

(** The fields of [task_t] that the virtual memory code uses. *)
Record vm_task := mk_task {
  t_map : option vm_map_t;
  address_space : Z;
  vm_brk_base : Z;
  vm_brk_end : Z;
  vm_mmap_base : Z;
  vm_mmap_hint : Z
}.

Record vm_state := mk_vm {
  paging : paging_state;
  page_refs : list (Z * Z);
  objects : gmap Z vm_object_t;
  next_object : Z;
  fbytes : gmap Z Z
}.

#[export] Instance object_eta : EtaRecord vm_object_t :=
  λ o, mk_object (o_type o) (ref_count o) (o_size o) (page_count o) (resident_pages o) (pager_private o).
#[export] Instance entry_eta : EtaRecord vm_map_entry_t :=
  λ e, mk_entry (e_start e) (e_end e) (e_prot e) (e_flags e) (e_object e) (e_offset e).
#[export] Instance map_eta : EtaRecord vm_map_t := λ m, mk_map (pml4_phys m) (entries m).
#[export] Instance task_eta : EtaRecord vm_task :=
  λ t, mk_task (t_map t) (address_space t) (vm_brk_base t) (vm_brk_end t) (vm_mmap_base t) (vm_mmap_hint t).
#[export] Instance vm_eta : EtaRecord vm_state :=
  λ s, mk_vm (paging s) (page_refs s) (objects s) (next_object s) (fbytes s).
#[export] Instance object_inhabited : Inhabited vm_object_t :=
  populate (mk_object VM_OBJECT_ANON 0 0 0 [] None).

(** ** Access to the layers below *)
Definition with_pmm (f : pmm_state → pmm_state) (s : vm_state) : vm_state :=
  s <| paging ::= λ p, p <| pg_pmm ::= f |> |>.

Definition frame (s : vm_state) (phys : Z) : list Z :=
  default zero_page (mem (pg_pmm (paging s)) !! phys).

Definition set_frame (phys : Z) (content : list Z) : vm_state → vm_state :=
  with_pmm (λ p, p <| mem ::= <[phys := content]> |>).

Definition page_mask (a : Z) : Z := Z.land a (not64 (VM_PAGE_SIZE - 1)).

(** ** vm_page_ref.c *)
Fixpoint vm_page_ref_find (l : list (Z * Z)) (phys : Z) : option Z :=
  match l with
  | [] => None
  | (p, r) :: l => if p =? phys then Some r else vm_page_ref_find l phys
  end.

(** The list after [node->refs++] on the first node of [phys]. *)
Fixpoint ref_inc (l : list (Z * Z)) (phys : Z) : list (Z * Z) :=
  match l with
  | [] => []
  | (p, r) :: l => if p =? phys then (p, r +₃₂ 1) :: l else (p, r) :: ref_inc l phys
  end.

Definition vm_page_ref_add_new (s : vm_state) (phys : Z) : Z * vm_state :=
  if phys =? 0 then (RDNX_E_INVALID, s)
  else
    match vm_page_ref_find (page_refs s) phys with
    | Some _ => (RDNX_OK, s <| page_refs ::= λ l, ref_inc l phys |>)
    | None => (RDNX_OK, s <| page_refs ::= cons (phys, 1) |>)
    end.

Definition vm_page_ref_retain (s : vm_state) (phys : Z) : Z * vm_state :=
  vm_page_ref_add_new s phys.

(** The walk of [vm_page_ref_release]: the new list and, when a node was
    found, whether its count reached zero. *)
Fixpoint ref_dec (l : list (Z * Z)) (phys : Z) : list (Z * Z) * option bool :=
  match l with
  | [] => ([], None)
  | (p, r) :: l =>
      if p =? phys then
        let r := if 0 <? r then r - 1 else r in
        if r =? 0 then (l, Some true) else ((p, r) :: l, Some false)
      else
        let '(l', o) := ref_dec l phys in ((p, r) :: l', o)
  end.

Definition vm_page_ref_release (s : vm_state) (phys : Z) : Z * vm_state :=
  if phys =? 0 then (RDNX_E_INVALID, s)
  else
    match ref_dec (page_refs s) phys with
    | (_, None) => (RDNX_E_NOTFOUND, s)
    | (l, Some last) =>
        let s := s <| page_refs := l |> in
        (RDNX_OK, if last then with_pmm (λ p, pmm_free_page p phys) s else s)
    end.

(** ** vm_object.c *)
Definition vm_object_align_up (value : Z) : Z := align_up value.

(** The object gets a fresh address.  A size that wraps to no page asks
    [kmalloc] for 0 bytes, which returns [NULL]. *)
Definition vm_object_create (s : vm_state) (type : vm_object_type_t) (size : Z) : Z * vm_state :=
  let aligned := vm_object_align_up (if size =? 0 then VM_PAGE_SIZE else size) in
  let n := aligned / VM_PAGE_SIZE in
  if n =? 0 then (0, s)
  else
  let o := next_object s in
  (o, s <| objects ::= <[o := mk_object type 1 size n (replicate (Z.to_nat n) 0) None]> |>
        <| next_object := o + 1 |>).

Definition obj (s : vm_state) (o : Z) : vm_object_t := objects s !!! o.
Definition obj_upd (o : Z) (f : vm_object_t → vm_object_t) (s : vm_state) : vm_state :=
  s <| objects ::= λ m, <[o := f (m !!! o)]> m |>.

Definition vm_object_ref (s : vm_state) (o : Z) : vm_state :=
  if o =? 0 then s else obj_upd o (λ x, x <| ref_count ::= λ n, n +₃₂ 1 |>) s.

(** [memcpy(dst + off, frame of phys, n)] into file data. *)
Definition copy_to_file (s : vm_state) (dst phys n : Z) : vm_state :=
  s <| fbytes ::= λ m, foldl (λ m i, <[dst + i := frame s phys !!! Z.to_nat i]> m) m (seqZ 0 n) |>.

(** Write one resident page back to the file at offset [off]. *)
Definition write_back_page (fb : vm_file_backing_t) (off phys : Z) (s : vm_state) : vm_state :=
  let avail := fb_size fb -₆₄ off in
  let copy := if VM_PAGE_SIZE <? avail then VM_PAGE_SIZE else avail in
  copy_to_file s (fb_data fb + off) phys copy.

Definition unref_write_back (s : vm_state) (x : vm_object_t) : vm_state :=
  match pager_private x with
  | Some fb =>
      if bool_decide (o_type x = VM_OBJECT_FILE) && negb (fb_data fb =? 0) && (0 <? fb_size fb) then
        foldl (λ s i,
          let phys := resident_pages x !!! Z.to_nat i in
          if phys =? 0 then s
          else
            let off := fb_file_offset fb +₆₄ i *₆₄ VM_PAGE_SIZE in
            if fb_size fb <=? off then s else write_back_page fb off phys s)
          s (seqZ 0 (page_count x))
      else s
  | None => s
  end.

Definition vm_object_unref (s : vm_state) (o : Z) : vm_state :=
  if o =? 0 then s
  else
    let s := obj_upd o (λ x, if 0 <? ref_count x then x <| ref_count ::= λ n, n - 1 |> else x) s in
    let x := obj s o in
    if ref_count x =? 0 then
      let s := unref_write_back s x in
      let s := foldl (λ s i,
                 let phys := resident_pages x !!! Z.to_nat i in
                 if phys =? 0 then s else (vm_page_ref_release s phys).2)
                 s (seqZ 0 (page_count x)) in
      s <| objects ::= delete o |>
    else s.

Definition vm_object_get_resident_page (s : vm_state) (o page_index : Z) : Z :=
  if (o =? 0) || (page_count (obj s o) <=? page_index) then 0
  else resident_pages (obj s o) !!! Z.to_nat page_index.

Definition vm_object_set_resident_page (s : vm_state) (o page_index phys : Z) : Z * vm_state :=
  if (o =? 0) || (page_count (obj s o) <=? page_index) || (phys =? 0) then (RDNX_E_INVALID, s)
  else
    let old := resident_pages (obj s o) !!! Z.to_nat page_index in
    if old =? phys then (RDNX_OK, s)
    else
      let s := if negb (old =? 0) then (vm_page_ref_release s old).2 else s in
      let s := (vm_page_ref_retain s phys).2 in
      (RDNX_OK, obj_upd o (λ x, x <| resident_pages ::= <[Z.to_nat page_index := phys]> |>) s).

(** ** vm_pager.c *)
Definition vm_pager_alloc_zero_page (s : vm_state) : Z * vm_state :=
  let '(phys, p) := pmm_alloc_page_in_zone (pg_pmm (paging s)) PMM_ZONE_NORMAL in
  let s := with_pmm (λ _, p) s in
  if phys =? 0 then (0, s)
  else (phys, (vm_page_ref_add_new (set_frame phys zero_page s) phys).2).

End Vm.
