(* ===== verification/VmMap.v ===== *)
(** * Address-space maps and page faults (kernel/vm/vm_map.c, vm_fault.c)

    A task argument of the code is an argument and a result of the model.
    Loops over pages of a range fold over [page_addrs]; the removal loop over
    the entry array is a recursion over the entries that are left. *)

From stdpp Require Import base gmap list numbers fin_maps.
From S2P Require Import Prelude Pmm Paging Vm.

Module VmMap.
Import Pmm Paging Vm.

Definition vm_align_down (v : Z) : Z := align_down v.
Definition vm_align_up (v : Z) : Z := align_up v.

Definition vm_map_create (pml4 : Z) : vm_map_t := mk_map pml4 [].

Definition vm_map_destroy (s : vm_state) (m : vm_map_t) : vm_state :=
  foldl (λ s e, if negb (e_object e =? 0) then vm_object_unref s (e_object e) else s) s (entries m).

Definition vm_range_valid (start stop : Z) : bool :=
  if (start <? VM_USER_MIN) || (stop <=? start) || (VM_USER_MAX <? stop) then false
  else if (ARCH_KERNEL_VIRT_BASE <=? start) || (ARCH_KERNEL_VIRT_BASE <=? stop) then false
  else true.

Fixpoint vm_map_overlap (l : list vm_map_entry_t) (start stop : Z) : bool :=
  match l with
  | [] => false
  | e :: l => if (stop <=? e_start e) || (e_end e <=? start) then vm_map_overlap l start stop else true
  end.

Definition vm_pte_flags_from_prot (prot : Z) : Z :=
  let flags := Z.lor PTE_PRESENT PTE_USER in
  let flags := if has_flag prot VM_PROT_WRITE then Z.lor flags PTE_RW else flags in
  if negb (has_flag prot VM_PROT_EXEC) then Z.lor flags PTE_NX else flags.

Definition vm_map_add (s : vm_state) (m : vm_map_t) (start len prot flags object object_offset : Z)
    : Z * vm_map_t * vm_state :=
  let lo := vm_align_down start in
  let hi := vm_align_up (start +₆₄ len) in
  if (len =? 0) || negb (vm_range_valid lo hi) then (RDNX_E_INVALID, m, s)
  else if VM_MAP_MAX_ENTRIES <=? Z.of_nat (length (entries m)) then (RDNX_E_BUSY, m, s)
  else if vm_map_overlap (entries m) lo hi then (RDNX_E_BUSY, m, s)
  else
    (RDNX_OK, m <| entries ::= λ l, l ++ [mk_entry lo hi prot flags object object_offset] |>,
     if negb (object =? 0) then vm_object_ref s object else s).

(** Unmap the pages of [rs, re) and drop their mapping references. *)
Definition unmap_range (s : vm_state) (pml4 rs re : Z) : vm_state :=
  foldl (λ s va,
    let phys := page_mask (paging_get_physical_pml4 (paging s) pml4 va) in
    if negb (phys =? 0) then
      let s := s <| paging ::= λ p, (paging_unmap_page_pml4 p pml4 va).2 |> in
      (vm_page_ref_release s phys).2
    else s) s (page_addrs rs re).

(** The loop of [vm_map_remove]: [pre] are the entries before index [i],
    [rest] the ones from [i] on. *)
Fixpoint remove_loop (s : vm_state) (lo hi pml4 map_pml4 : Z) (removed : bool)
    (pre rest : list vm_map_entry_t) : Z * list vm_map_entry_t * vm_state :=
  match rest with
  | [] => (if removed then RDNX_OK else RDNX_E_NOTFOUND, pre, s)
  | cur :: rest' =>
      let rs := if e_start cur <? lo then lo else e_start cur in
      let re := if hi <? e_end cur then hi else e_end cur in
      if re <=? rs then remove_loop s lo hi pml4 map_pml4 removed (pre ++ [cur]) rest'
      else
        let s := if pml4 =? map_pml4 then unmap_range s pml4 rs re else s in
        if (rs =? e_start cur) && (re =? e_end cur) then
          let s := if negb (e_object cur =? 0) then vm_object_unref s (e_object cur) else s in
          remove_loop s lo hi pml4 map_pml4 true pre rest'
        else if rs =? e_start cur then
          remove_loop s lo hi pml4 map_pml4 true
            (pre ++ [cur <| e_start := re |> <| e_offset ::= λ o, o +₆₄ (re -₆₄ rs) |>]) rest'
        else if re =? e_end cur then
          remove_loop s lo hi pml4 map_pml4 true (pre ++ [cur <| e_end := rs |>]) rest'
        else if VM_MAP_MAX_ENTRIES <=? Z.of_nat (length (pre ++ rest)) then
          (RDNX_E_BUSY, pre ++ rest, s)
        else
          let tail := cur <| e_start := re |> <| e_offset ::= λ o, o +₆₄ (re -₆₄ e_start cur) |> in
          let s := if negb (e_object tail =? 0) then vm_object_ref s (e_object tail) else s in
          remove_loop s lo hi pml4 map_pml4 true (pre ++ [cur <| e_end := rs |>; tail]) rest'
  end.

Definition vm_map_remove (s : vm_state) (m : vm_map_t) (start len pml4 : Z)
    : Z * vm_map_t * vm_state :=
  let lo := vm_align_down start in
  let hi := vm_align_up (start +₆₄ len) in
  if (len =? 0) || (hi <=? lo) then (RDNX_E_INVALID, m, s)
  else
    let '(rc, l, s) := remove_loop s lo hi pml4 (pml4_phys m) false [] (entries m) in
    (rc, m <| entries := l |>, s).

Fixpoint vm_map_lookup (l : list vm_map_entry_t) (addr : Z) : option vm_map_entry_t :=
  match l with
  | [] => None
  | e :: l => if (e_start e <=? addr) && (addr <? e_end e) then Some e else vm_map_lookup l addr
  end.

(** [while (e < VM_USER_MAX)]: each round moves the window up by a page. *)
Fixpoint find_gap_loop (fuel : nat) (l : list vm_map_entry_t) (lo hi : Z) : Z :=
  match fuel with
  | O => 0
  | S fuel =>
      if hi <? VM_USER_MAX then
        if negb (vm_map_overlap l lo hi) then lo
        else find_gap_loop fuel l (lo +₆₄ VM_PAGE_SIZE) (hi +₆₄ VM_PAGE_SIZE)
      else 0
  end.

(** The fuel covers every round: the window cannot start below [hi]. *)
Definition gap_fuel (hi : Z) : nat := S (Z.to_nat ((VM_USER_MAX - hi + 4095) / VM_PAGE_SIZE)).

Definition vm_find_gap (m : vm_map_t) (hint len : Z) : Z :=
  let lo := vm_align_up hint in
  let hi := vm_align_up (hint +₆₄ len) in
  if hi <=? lo then 0
  else
    let '(lo, hi) :=
      if lo <? VM_DEFAULT_MMAP then (VM_DEFAULT_MMAP, VM_DEFAULT_MMAP +₆₄ vm_align_up len)
      else (lo, hi) in
    find_gap_loop (gap_fuel hi) (entries m) lo hi.

(** ** Operations on tasks *)
Definition vm_task_prepare_exec (s : vm_state) (t : vm_task) (user_pml4_phys : Z)
    : Z * vm_task * vm_state :=
  if user_pml4_phys =? 0 then (RDNX_E_INVALID, t, s)
  else
    let s := match t_map t with Some m => vm_map_destroy s m | None => s end in
    (RDNX_OK, t <| t_map := Some (vm_map_create user_pml4_phys) |> <| vm_brk_base := 0 |>
                <| vm_brk_end := 0 |> <| vm_mmap_base := VM_DEFAULT_MMAP |>
                <| vm_mmap_hint := VM_DEFAULT_MMAP |>, s).

Definition vm_task_map_fixed (s : vm_state) (t : vm_task) (start len prot flags : Z)
    : Z * vm_task * vm_state :=
  match t_map t with
  | None => (RDNX_E_INVALID, t, s)
  | Some m =>
      let '(rc, m, s) := vm_map_add s m start len prot (Z.lor flags VM_MAP_F_FIXED) 0 0 in
      (rc, t <| t_map := Some m |>, s)
  end.

Definition vm_task_set_brk_base (t : vm_task) (brk_base : Z) : Z * vm_task :=
  let b := vm_align_up brk_base in
  (RDNX_OK, t <| vm_brk_base := b |> <| vm_brk_end := b |>).

(** The choice of the address common to the three forms of [mmap]. *)
Definition mmap_address (s : vm_state) (t : vm_task) (m : vm_map_t) (addr_hint alen flags : Z)
    : Z * vm_map_t * vm_state :=
  if has_flag flags VM_MAP_F_FIXED then
    let addr := vm_align_down addr_hint in
    let '(_, m, s) := vm_map_remove s m addr alen (address_space t) in
    (addr, m, s)
  else
    let hint := if negb (addr_hint =? 0) then addr_hint else vm_mmap_hint t in
    (vm_find_gap m hint alen, m, s).

Definition vm_task_mmap (s : vm_state) (t : vm_task) (addr_hint len prot flags : Z)
    : Z * vm_task * vm_state :=
  match t_map t with
  | None => (RDNX_E_INVALID, t, s)
  | Some m =>
      if len =? 0 then (RDNX_E_INVALID, t, s)
      else
        let alen := vm_align_up len in
        let '(addr, m, s) := mmap_address s t m addr_hint alen flags in
        let t := t <| t_map := Some m |> in
        if addr =? 0 then (RDNX_E_NOMEM, t, s)
        else
          let '(o, s) := vm_object_create s VM_OBJECT_ANON alen in
          if o =? 0 then (RDNX_E_NOMEM, t, s) else
          let '(rc, m, s) := vm_map_add s m addr alen prot
                               (Z.lor (Z.lor flags VM_MAP_F_LAZY) VM_MAP_F_ANON) o 0 in
          let s := vm_object_unref s o in
          let t := t <| t_map := Some m |> in
          if negb (rc =? RDNX_OK) then (rc, t, s)
          else (addr, t <| vm_mmap_hint := addr +₆₄ alen |>, s)
  end.

Definition vm_task_mmap_object (s : vm_state) (t : vm_task)
    (addr_hint len prot flags o object_offset : Z) : Z * vm_task * vm_state :=
  match t_map t with
  | None => (RDNX_E_INVALID, t, s)
  | Some m =>
      if (len =? 0) || (o =? 0) then (RDNX_E_INVALID, t, s)
      else
        let alen := vm_align_up len in
        let '(addr, m, s) := mmap_address s t m addr_hint alen flags in
        let t := t <| t_map := Some m |> in
        if addr =? 0 then (RDNX_E_NOMEM, t, s)
        else
          let '(rc, m, s) := vm_map_add s m addr alen prot (Z.lor flags VM_MAP_F_LAZY) o object_offset in
          let t := t <| t_map := Some m |> in
          if negb (rc =? RDNX_OK) then (rc, t, s)
          else (addr, t <| vm_mmap_hint := addr +₆₄ alen |>, s)
  end.

Definition vm_task_mmap_file (s : vm_state) (t : vm_task)
    (addr_hint len prot flags data data_size file_offset : Z) : Z * vm_task * vm_state :=
  match t_map t with
  | None => (RDNX_E_INVALID, t, s)
  | Some m =>
      if (len =? 0) || (data =? 0) then (RDNX_E_INVALID, t, s)
      else
        let alen := vm_align_up len in
        let '(addr, m, s) := mmap_address s t m addr_hint alen flags in
        let t := t <| t_map := Some m |> in
        if addr =? 0 then (RDNX_E_NOMEM, t, s)
        else
          let '(o, s) := vm_object_create s VM_OBJECT_FILE alen in
          if o =? 0 then (RDNX_E_NOMEM, t, s) else
          let s := obj_upd o (λ x, x <| pager_private := Some (mk_backing data data_size 0) |>) s in
          let '(rc, m, s) := vm_map_add s m addr alen prot (Z.lor flags VM_MAP_F_LAZY) o file_offset in
          let s := vm_object_unref s o in
          let t := t <| t_map := Some m |> in
          if negb (rc =? RDNX_OK) then (rc, t, s)
          else (addr, t <| vm_mmap_hint := addr +₆₄ alen |>, s)
  end.

Definition vm_task_munmap (s : vm_state) (t : vm_task) (addr len : Z) : Z * vm_task * vm_state :=
  match t_map t with
  | None => (RDNX_E_INVALID, t, s)
  | Some m =>
      if address_space t =? 0 then (RDNX_E_INVALID, t, s)
      else
        let '(rc, m, s) := vm_map_remove s m addr len (address_space t) in
        (rc, t <| t_map := Some m |>, s)
  end.

Definition vm_task_brk (s : vm_state) (t : vm_task) (new_break : Z) : Z * vm_task * vm_state :=
  match t_map t with
  | None => (RDNX_E_INVALID, t, s)
  | Some m =>
      if new_break =? 0 then (vm_brk_end t, t, s)
      else if vm_brk_base t =? 0 then (RDNX_E_INVALID, t, s)
      else
        let new_end := vm_align_up new_break in
        if new_end <? vm_brk_base t then (RDNX_E_INVALID, t, s)
        else if vm_brk_end t <? new_end then
          let len := new_end - vm_brk_end t in
          let '(o, s) := vm_object_create s VM_OBJECT_ANON len in
          if o =? 0 then (RDNX_E_NOMEM, t, s) else
          let '(rc, m, s) := vm_map_add s m (vm_brk_end t) len (Z.lor VM_PROT_READ VM_PROT_WRITE)
                               (Z.lor (Z.lor VM_MAP_F_ANON VM_MAP_F_PRIVATE) VM_MAP_F_LAZY) o 0 in
          let s := vm_object_unref s o in
          let t := t <| t_map := Some m |> in
          if negb (rc =? RDNX_OK) then (rc, t, s)
          else (new_end, t <| vm_brk_end := new_end |>, s)
        else if new_end <? vm_brk_end t then
          let '(_, m, s) := vm_map_remove s m new_end (vm_brk_end t - new_end) (address_space t) in
          (new_end, t <| t_map := Some m |> <| vm_brk_end := new_end |>, s)
        else (new_end, t <| vm_brk_end := new_end |>, s)
  end.

Definition vm_entry_is_cow_candidate (e : vm_map_entry_t) : bool :=
  if negb (has_flag (e_prot e) VM_PROT_WRITE) then false
  else if negb (has_flag (e_flags e) VM_MAP_F_PRIVATE) then false
  else true.

(** Copy the present pages of one entry to the child; [false] when a page
    table could not be allocated. *)
Fixpoint fork_pages (s : vm_state) (child_pml4 parent_as prot : Z) (cow : bool) (vas : list Z)
    : bool * vm_state :=
  match vas with
  | [] => (true, s)
  | va :: vas =>
      let phys := page_mask (paging_get_physical (paging s) va) in
      if phys =? 0 then fork_pages s child_pml4 parent_as prot cow vas
      else
        let eff_prot := if cow then Z.land prot (Z.lnot VM_PROT_WRITE) else prot in
        let flags := vm_pte_flags_from_prot eff_prot in
        let '(rc, p) := paging_map_page_4kb_pml4 (paging s) child_pml4 va phys flags in
        let s := s <| paging := p |> in
        if negb (rc =? RDNX_OK) then (false, s)
        else
          let s := (vm_page_ref_retain s phys).2 in
          let s := if cow then s <| paging ::= λ p,
                     (paging_map_page_4kb_pml4 p parent_as va phys flags).2 |> else s in
          fork_pages s child_pml4 parent_as prot cow vas
  end.

(** The loop over the parent's entries; [done] are the parent's entries
    already visited and [child] the child's entries. *)
Fixpoint fork_loop (s : vm_state) (child_pml4 parent_as : Z)
    (done rest child : list vm_map_entry_t)
    : Z * list vm_map_entry_t * list vm_map_entry_t * vm_state :=
  match rest with
  | [] => (RDNX_OK, done, child, s)
  | pe :: rest' =>
      if VM_MAP_MAX_ENTRIES <=? Z.of_nat (length child) then
        (RDNX_E_BUSY, done ++ rest, child, vm_map_destroy s (mk_map child_pml4 child))
      else
        let s := if negb (e_object pe =? 0) then vm_object_ref s (e_object pe) else s in
        let cow := vm_entry_is_cow_candidate pe in
        let pe' := if cow then pe <| e_flags ::= λ f, Z.lor f VM_MAP_F_COW |> else pe in
        let child := child ++ [pe'] in
        let '(ok, s) := fork_pages s child_pml4 parent_as (e_prot pe) cow
                          (page_addrs (e_start pe) (e_end pe)) in
        if negb ok then
          (RDNX_E_GENERIC, done ++ pe' :: rest', child, vm_map_destroy s (mk_map child_pml4 child))
        else fork_loop s child_pml4 parent_as (done ++ [pe']) rest' child
  end.

Definition vm_task_fork_clone (s : vm_state) (parent child : vm_task) (child_pml4 : Z)
    : Z * vm_task * vm_task * vm_state :=
  match t_map parent with
  | None => (RDNX_E_INVALID, parent, child, s)
  | Some pm =>
      if (address_space parent =? 0) || (child_pml4 =? 0) then (RDNX_E_INVALID, parent, child, s)
      else
        let '(rc, pl, cl, s) := fork_loop s child_pml4 (address_space parent) [] (entries pm) [] in
        let parent := parent <| t_map := Some (pm <| entries := pl |>) |> in
        if negb (rc =? RDNX_OK) then (rc, parent, child, s)
        else
          (RDNX_OK, parent,
           child <| t_map := Some (mk_map child_pml4 cl) |> <| vm_brk_base := vm_brk_base parent |>
                 <| vm_brk_end := vm_brk_end parent |> <| vm_mmap_base := vm_mmap_base parent |>
                 <| vm_mmap_hint := vm_mmap_hint parent |>, s)
  end.

(** [while (map->entry_count > 0)]; [None] when the fuel runs out. *)
Fixpoint destroy_loop (fuel : nat) (s : vm_state) (m : vm_map_t) (pml4 : Z)
    : option (vm_map_t * vm_state) :=
  match entries m with
  | [] => Some (m, s)
  | e :: _ =>
      match fuel with
      | O => None
      | S fuel =>
          let '(_, m, s) := vm_map_remove s m (e_start e) (e_end e -₆₄ e_start e) pml4 in
          destroy_loop fuel s m pml4
      end
  end.

Definition vm_task_destroy (fuel : nat) (s : vm_state) (t : vm_task) : option (vm_task * vm_state) :=
  let reset t := t <| vm_brk_base := 0 |> <| vm_brk_end := 0 |> <| vm_mmap_base := 0 |>
                   <| vm_mmap_hint := 0 |> in
  match t_map t with
  | None => Some (reset t, s)
  | Some m =>
      match destroy_loop fuel s m (address_space t) with
      | None => None
      | Some (m, s) => Some (reset (t <| t_map := None |>), vm_map_destroy s m)
      end
  end.

(** Write back the resident pages of one entry within [rs, re). *)
Definition msync_entry (s : vm_state) (did : bool) (me : vm_map_entry_t) (fb : vm_file_backing_t)
    (rs re : Z) : bool * vm_state :=
  foldl (λ '(did, s) va,
    let page_idx := (e_offset me +₆₄ (va -₆₄ e_start me)) / VM_PAGE_SIZE in
    let phys := vm_object_get_resident_page s (e_object me) page_idx in
    if phys =? 0 then (did, s)
    else
      let off := fb_file_offset fb +₆₄ e_offset me +₆₄ (va -₆₄ e_start me) in
      if fb_size fb <=? off then (did, s) else (true, write_back_page fb off phys s))
    (did, s) (page_addrs rs re).

Definition vm_task_msync (s : vm_state) (t : vm_task) (addr len flags : Z) : Z * vm_state :=
  match t_map t with
  | None => (RDNX_E_INVALID, s)
  | Some m =>
      let lo := vm_align_down addr in
      let hi := vm_align_up (addr +₆₄ len) in
      if (len =? 0) || (hi <=? lo) then (RDNX_E_INVALID, s)
      else
        let '(did, s) := foldl (λ '(did, s) me,
          let rs := if e_start me <? lo then lo else e_start me in
          let re := if hi <? e_end me then hi else e_end me in
          if re <=? rs then (did, s)
          else if (e_object me =? 0) || negb (bool_decide (o_type (obj s (e_object me)) = VM_OBJECT_FILE))
          then (did, s)
          else if has_flag (e_flags me) VM_MAP_F_PRIVATE then (did, s)
          else
            match pager_private (obj s (e_object me)) with
            | Some fb => if (fb_data fb =? 0) || (fb_size fb =? 0) then (did, s)
                         else msync_entry s did me fb rs re
            | None => (did, s)
            end) (false, s) (entries m) in
        (if did then RDNX_OK else RDNX_E_NOTFOUND, s)
  end.

(** Remap the present pages of [rs, re) with new permissions. *)
Definition protect_pages (s : vm_state) (pml4 rs re pte_flags : Z) : vm_state :=
  foldl (λ s va,
    let phys := page_mask (paging_get_physical_pml4 (paging s) pml4 va) in
    if phys =? 0 then s
    else s <| paging ::= λ p, (paging_map_page_4kb_pml4 p pml4 va phys pte_flags).2 |>)
    s (page_addrs rs re).

Fixpoint protect_loop (s : vm_state) (lo hi pml4 prot : Z) (changed : bool)
    (pre rest : list vm_map_entry_t) : Z * list vm_map_entry_t * vm_state :=
  match rest with
  | [] => (if changed then RDNX_OK else RDNX_E_NOTFOUND, pre, s)
  | me :: rest' =>
      let rs := if e_start me <? lo then lo else e_start me in
      let re := if hi <? e_end me then hi else e_end me in
      if re <=? rs then protect_loop s lo hi pml4 prot changed (pre ++ [me]) rest'
      else if negb (rs =? e_start me) || negb (re =? e_end me) then
        (RDNX_E_UNSUPPORTED, pre ++ rest, s)
      else
        let s := protect_pages s pml4 rs re (vm_pte_flags_from_prot prot) in
        protect_loop s lo hi pml4 prot true (pre ++ [me <| e_prot := prot |>]) rest'
  end.

Definition vm_task_mprotect (s : vm_state) (t : vm_task) (addr len prot : Z)
    : Z * vm_task * vm_state :=
  match t_map t with
  | None => (RDNX_E_INVALID, t, s)
  | Some m =>
      if (address_space t =? 0) || (len =? 0) then (RDNX_E_INVALID, t, s)
      else if prot =? VM_PROT_NONE then (RDNX_E_INVALID, t, s)
      else
        let lo := vm_align_down addr in
        let hi := vm_align_up (addr +₆₄ len) in
        if hi <=? lo then (RDNX_E_INVALID, t, s)
        else
          let '(rc, l, s) := protect_loop s lo hi (address_space t) prot false [] (entries m) in
          (rc, t <| t_map := Some (m <| entries := l |>) |>, s)
  end.

(** ** vm_fault.c *)

(** Fill a fresh page from the file behind a mapping. *)
Definition fault_fill (s : vm_state) (e : vm_map_entry_t) (va phys : Z) : vm_state :=
  if e_object e =? 0 then s
  else
    let x := obj s (e_object e) in
    match pager_private x with
    | Some fb =>
        if bool_decide (o_type x = VM_OBJECT_FILE) && negb (fb_data fb =? 0) && (0 <? fb_size fb) then
          let off := fb_file_offset fb +₆₄ e_offset e +₆₄ (va -₆₄ e_start e) in
          if off <? fb_size fb then
            let avail := fb_size fb - off in
            let copy := if VM_PAGE_SIZE <? avail then VM_PAGE_SIZE else avail in
            set_frame phys (((λ i, fbytes s !!! (fb_data fb + off + i)) <$> seqZ 0 copy)
                            ++ drop (Z.to_nat copy) (frame s phys)) s
          else s
        else s
    | None => s
    end.

(** A fault on a page that has no frame. *)
Definition fault_missing (s : vm_state) (t : vm_task) (e : vm_map_entry_t) (va : Z)
    : Z * vm_state :=
  let idx := (e_offset e +₆₄ (va -₆₄ e_start e)) / VM_PAGE_SIZE in
  let resident := if negb (e_object e =? 0) then vm_object_get_resident_page s (e_object e) idx else 0 in
  let '(phys, s) :=
    if negb (resident =? 0) then (resident, (vm_page_ref_retain s resident).2)
    else
      let '(phys, s) := vm_pager_alloc_zero_page s in
      if phys =? 0 then (0, s)
      else
        let s := fault_fill s e va phys in
        (phys, if negb (e_object e =? 0)
               then (vm_object_set_resident_page s (e_object e) idx phys).2 else s) in
  if phys =? 0 then (RDNX_E_NOMEM, s)
  else
    let '(rc, p) := paging_map_page_4kb_pml4 (paging s) (address_space t) va phys
                      (vm_pte_flags_from_prot (e_prot e)) in
    (rc, s <| paging := p |>).

(** A write fault on a copy-on-write page whose frame is [current]. *)
Definition fault_cow (s : vm_state) (t : vm_task) (e : vm_map_entry_t) (va current : Z)
    : Z * vm_state :=
  let '(new_phys, s) := vm_pager_alloc_zero_page s in
  if new_phys =? 0 then (RDNX_E_NOMEM, s)
  else
    let s := set_frame new_phys (frame s current) s in
    let s := s <| paging ::= λ p,
               (paging_map_page_4kb_pml4 p (address_space t) va new_phys
                  (vm_pte_flags_from_prot (e_prot e))).2 |> in
    (RDNX_OK, (vm_page_ref_release s current).2).

Definition vm_fault_handle (s : vm_state) (t : vm_task) (fault_addr err_code : Z) : Z * vm_state :=
  match t_map t with
  | None => (RDNX_E_NOTFOUND, s)
  | Some m =>
      if address_space t =? 0 then (RDNX_E_NOTFOUND, s)
      else if Z.land err_code 4 =? 0 then (RDNX_E_DENIED, s)
      else if (fault_addr <? 4096) || (ARCH_KERNEL_VIRT_BASE <=? fault_addr) then (RDNX_E_DENIED, s)
      else
        let va := page_mask fault_addr in
        match vm_map_lookup (entries m) va with
        | None => (RDNX_E_NOTFOUND, s)
        | Some e =>
            let is_write := has_flag err_code 2 in
            let is_exec := has_flag err_code 16 in
            if is_exec && negb (has_flag (e_prot e) VM_PROT_EXEC) then (RDNX_E_DENIED, s)
            else if is_write && negb (has_flag (e_prot e) VM_PROT_WRITE) then (RDNX_E_DENIED, s)
            else if negb is_write && negb is_exec && negb (has_flag (e_prot e) VM_PROT_READ)
                    && negb (has_flag (e_prot e) VM_PROT_WRITE) then (RDNX_E_DENIED, s)
            else
              let current := page_mask (paging_get_physical (paging s) va) in
              if negb (current =? 0) && is_write && has_flag (e_flags e) VM_MAP_F_COW
              then fault_cow s t e va current
              else if current =? 0 then fault_missing s t e va
              else (RDNX_E_DENIED, s)
        end
  end.

End VmMap.
