(* ===== verification/VmFacts.v ===== *)
(** * Address-space maps refine partial functions

    A map stands for the partial function [view] from addresses to
    protection, flags, object and offset in the object.  The operations on
    the entry array are proved against that function: [vm_map_add] extends it
    on an interval, [vm_map_remove] restricts it to the complement of an
    interval, whatever entries it deletes, trims or splits.  [map_ok] is the
    invariant of the entry array. *)

From stdpp Require Import base gmap list numbers fin_maps.
From S2P Require Import Prelude Pmm Paging Vm VmMap.

Module VmFacts.
Import Pmm Paging Vm VmMap.

(** ** Entries and the invariant of the array *)
Definition page_bounds (lo hi : Z) : Prop :=
  VM_USER_MIN ≤ lo ∧ lo < hi ∧ hi ≤ VM_USER_MAX ∧ lo mod 4096 = 0 ∧ hi mod 4096 = 0.

Definition entry_ok (e : vm_map_entry_t) : Prop :=
  page_bounds (e_start e) (e_end e) ∧ in_u64 (e_offset e).

Definition apart (e f : vm_map_entry_t) : Prop := e_end e ≤ e_start f ∨ e_end f ≤ e_start e.

Fixpoint disjoint_entries (l : list vm_map_entry_t) : Prop :=
  match l with
  | [] => True
  | e :: l => Forall (apart e) l ∧ disjoint_entries l
  end.

Definition map_ok (l : list vm_map_entry_t) : Prop :=
  Forall entry_ok l ∧ disjoint_entries l ∧ Z.of_nat (length l) ≤ VM_MAP_MAX_ENTRIES.

Lemma apart_sym e f : apart e f → apart f e.
Proof. unfold apart. tauto. Qed.

Lemma disjoint_app l k :
  disjoint_entries (l ++ k)
    ↔ disjoint_entries l ∧ disjoint_entries k ∧ Forall (λ e, Forall (apart e) k) l.
Proof.
  induction l as [|e l IH]; cbn; [rewrite Forall_nil; tauto|].
  rewrite IH, Forall_app, Forall_cons. tauto.
Qed.

(** ** The partial function *)
Definition attrs (e : vm_map_entry_t) (a : Z) : Z * Z * Z * Z :=
  (e_prot e, e_flags e, e_object e, e_offset e +₆₄ (a -₆₄ e_start e)).

Definition view (l : list vm_map_entry_t) (a : Z) : option (Z * Z * Z * Z) :=
  (λ e, attrs e a) <$> vm_map_lookup l a.

Definition holds_addr (e : vm_map_entry_t) (a : Z) : Prop := e_start e ≤ a < e_end e.

Lemma view_cons e l a :
  view (e :: l) a = if decide (holds_addr e a) then Some (attrs e a) else view l a.
Proof.
  unfold view, holds_addr. cbn. case_decide.
  - by rewrite (proj2 (Z.leb_le _ _)), (proj2 (Z.ltb_lt _ _)) by lia.
  - case_if; [|done]. bool_hyps. lia.
Qed.

Lemma view_app l k a : view (l ++ k) a = view l a ∪ view k a.
Proof.
  induction l as [|e l IH]; [cbn [app]; unfold view at 2; cbn; by destruct (view k a)|].
  cbn [app]. rewrite !view_cons, IH. case_decide; [|done]. by destruct (view k a).
Qed.

Lemma lookup_some l a e : vm_map_lookup l a = Some e → e ∈ l ∧ holds_addr e a.
Proof.
  induction l as [|f l IH]; [done|]. cbn. case_if; bool_hyps; intros Hl.
  - injection Hl as <-. split; [solve_in|]. unfold holds_addr. lia.
  - destruct (IH Hl). split; [solve_in|done].
Qed.

Lemma view_none l a : view l a = None ↔ ∀ e, e ∈ l → ¬ holds_addr e a.
Proof.
  induction l as [|e l IH]; [split; [intros _ e He; by apply elem_of_nil in He|done]|].
  rewrite view_cons. case_decide as Hin.
  - split; [done|]. intros Hn. exfalso. apply (Hn e); [solve_in|done].
  - rewrite IH. split.
    + intros Hn f [->|Hf]%elem_of_cons; [done|by apply Hn].
    + intros Hn f Hf. apply Hn. solve_in.
Qed.

(** The entry that holds an address is unique, so the function determines
    the result of a lookup. *)
Lemma lookup_unique l a e :
  disjoint_entries l → e ∈ l → holds_addr e a → vm_map_lookup l a = Some e.
Proof.
  induction l as [|f l IH]; intros Hd He Ha; [by apply elem_of_nil in He|].
  cbn. destruct Hd as [Hf Hd]. rewrite Forall_forall in Hf. unfold holds_addr in Ha.
  apply elem_of_cons in He as [<-|He].
  - by rewrite (proj2 (Z.leb_le _ _)), (proj2 (Z.ltb_lt _ _)) by lia.
  - specialize (Hf e He). unfold apart in Hf. case_if; bool_hyps; [lia|by apply IH].
Qed.

Lemma overlap_spec l lo hi :
  Forall entry_ok l → lo < hi →
  vm_map_overlap l lo hi = true ↔ ∃ e, e ∈ l ∧ e_start e < hi ∧ lo < e_end e.
Proof.
  intros Hok Hlt. induction Hok as [|e l He Hok IH]; cbn.
  - split; [done|]. intros (e & He & _). by apply elem_of_nil in He.
  - setoid_rewrite elem_of_cons. case_if; bool_hyps.
    + rewrite IH. apply orb_true_iff in Eif. rewrite !Z.leb_le in Eif.
      split; [naive_solver|]. intros (f & [->|Hf] & ?); [lia|naive_solver].
    + split; [|done]. intros _. exists e. split; [by left|lia].
Qed.

Lemma overlap_view l lo hi :
  Forall entry_ok l → lo < hi →
  vm_map_overlap l lo hi = false ↔ ∀ a, lo ≤ a < hi → view l a = None.
Proof.
  intros Hok Hlt. rewrite <- not_true_iff_false, overlap_spec by done.
  setoid_rewrite view_none. unfold holds_addr. split.
  - intros Hn a Ha e He Hin. apply Hn. exists e. split; [done|lia].
  - intros Hn (e & He & ? & ?). pose proof (proj1 (Forall_forall _ _) Hok e He) as [[? [? ?]] _].
    apply (Hn (Z.max lo (e_start e)) ltac:(lia) e He). lia.
Qed.

Lemma overlap_hit l lo hi :
  Forall entry_ok l → lo < hi →
  vm_map_overlap l lo hi = true → ∃ a, lo ≤ a < hi ∧ view l a ≠ None.
Proof.
  intros Hok Hlt (e & He & ? & ?)%overlap_spec; [|done..].
  pose proof (proj1 (Forall_forall _ _) Hok e He) as [(? & ? & ?) _].
  exists (Z.max lo (e_start e)). split; [lia|]. rewrite view_none. intros Hn. apply (Hn e He).
  unfold holds_addr. lia.
Qed.

(** ** Removal *)

(** What is left of an entry outside [lo, hi). *)
Definition trim (lo hi : Z) (e : vm_map_entry_t) : list vm_map_entry_t :=
  if (e_end e <=? lo) || (hi <=? e_start e) then [e]
  else
    (if e_start e <? lo then [e <| e_end := lo |>] else [])
    ++ (if hi <? e_end e
        then [e <| e_start := hi |> <| e_offset ::= λ o, o +₆₄ (hi -₆₄ e_start e) |>] else []).

Definition straddles (lo hi : Z) (e : vm_map_entry_t) : Prop := e_start e < lo ∧ hi < e_end e.

Lemma remove_loop_spec lo hi pml4 mp s removed pre rest :
  lo < hi → Forall entry_ok rest → disjoint_entries rest →
  let r := remove_loop s lo hi pml4 mp removed pre rest in
  (r.1 = (if removed || vm_map_overlap rest lo hi then RDNX_OK else RDNX_E_NOTFOUND,
          pre ++ (rest ≫= trim lo hi))
   ∧ ((∃ e, e ∈ rest ∧ straddles lo hi e) → Z.of_nat (length (pre ++ rest)) < VM_MAP_MAX_ENTRIES))
  ∨ (r.1 = (RDNX_E_BUSY, pre ++ rest) ∧ VM_MAP_MAX_ENTRIES ≤ Z.of_nat (length (pre ++ rest))
     ∧ ∃ e, e ∈ rest ∧ straddles lo hi e).
Proof.
  intros Hlt. revert s removed pre.
  induction rest as [|e rest IH]; intros s removed pre Hok Hd; cbn -[VM_MAP_MAX_ENTRIES].
  { left. rewrite app_nil_r, orb_false_r. split; [done|]. intros (e & He & _). by apply elem_of_nil in He. }
  apply Forall_cons in Hok as [[(? & ? & ? & ? & ?) _] Hok]. destruct Hd as [Hap Hd].
  rewrite Forall_forall in Hap.
  (* an entry that meets the interval excludes another that straddles it *)
  assert (e_start e < hi → lo < e_end e → ¬ ∃ f, f ∈ rest ∧ straddles lo hi f) as Hex.
  { intros ? ? (f & Hf & ? & ?). specialize (Hap f Hf). unfold apart in Hap. lia. }
  assert (∀ s pre', e_start e < hi → lo < e_end e →
    (remove_loop s lo hi pml4 mp true pre' rest).1 = (RDNX_OK, pre' ++ (rest ≫= trim lo hi))) as Hgo.
  { intros s' pre' ? ?. destruct (IH s' true pre' Hok Hd) as [[E _]|(_ & _ & E)]; [done|].
    exfalso. by apply Hex in E. }
  unfold trim at 1.
  assert (vm_map_overlap (e :: rest) lo hi
    = if (e_end e <=? lo) || (hi <=? e_start e) then vm_map_overlap rest lo hi else true) as Hov.
  { cbn. by rewrite (orb_comm (hi <=? _)). }
  cbn in Hov. rewrite Hov. clear Hov.
  destruct ((e_end e <=? lo) || (hi <=? e_start e)) eqn:Eout.
  { apply orb_true_iff in Eout. rewrite !Z.leb_le in Eout.
    replace (_ <=? _) with true by (symmetry; apply Z.leb_le; repeat case_if; bool_hyps; lia).
    destruct (IH s removed (pre ++ [e]) Hok Hd) as [[E Hn]|(E & Hn & f & Hf & Hs)];
      rewrite <- !(assoc_L app) in *.
    - left. split; [done|]. intros (f & [->|Hf]%elem_of_cons & Hs); [unfold straddles in Hs; lia|].
      apply Hn. by exists f.
    - right. split_and!; [done|done|]. exists f. split; [solve_in|done]. }
  bool_hyps. replace (_ <=? _) with false by (symmetry; apply Z.leb_gt; repeat case_if; bool_hyps; lia).
  rewrite orb_true_r.
  assert ((e_start e <? lo) && (hi <? e_end e) = false → ¬ ∃ f, f ∈ e :: rest ∧ straddles lo hi f) as Hne.
  { intros Hb (f & [->|Hf]%elem_of_cons & Hs).
    - destruct Hs. apply andb_false_iff in Hb. rewrite !Z.ltb_ge in Hb. lia.
    - apply Hex; [lia|lia|by exists f]. }
  destruct (e_start e <? lo) eqn:E1, (hi <? e_end e) eqn:E2; bool_hyps;
    repeat rewrite ?Z.eqb_refl, ?(proj2 (Z.eqb_neq lo (e_start e))), ?(proj2 (Z.eqb_neq hi (e_end e)))
      by lia; cbn -[remove_loop VM_MAP_MAX_ENTRIES]; rewrite ?Hgo by lia; rewrite <- ?(assoc_L app);
    try (left; split; [done|]; intros Hs; by destruct (Hne eq_refl)).
  case_if; bool_hyps.
  - right. split_and!; [done|done|]. exists e. split; [solve_in|]. done.
  - left. by rewrite Hgo, <- (assoc_L app) by lia.
Qed.

(** ** Properties of the pieces *)
Section trim.
  Context (lo hi : Z).
  Hypothesis (Hlt : 0 ≤ lo < hi) (Hlo : lo mod 4096 = 0) (Hhi : hi mod 4096 = 0).

Lemma trim_within e f : f ∈ trim lo hi e → e_start e ≤ e_start f ∧ e_end f ≤ e_end e.
Proof.
  unfold trim. split_ifs; rewrite ?elem_of_cons, ?elem_of_nil;
    intros; destruct_or?; simplify_eq/=; unfold field_update in *; cbn in *; try done; lia.
Qed.

Lemma trim_entry_ok e : entry_ok e → Forall entry_ok (trim lo hi e).
Proof.
  intros [(? & ? & ? & ? & ?) ?]. unfold trim.
  split_ifs; repeat apply Forall_cons_2; try apply Forall_nil_2; (split; [|cbn; try apply u64_range; done]);
    unfold page_bounds; cbn; split_and!; try done; lia.
Qed.

Lemma trim_disjoint e : disjoint_entries (trim lo hi e).
Proof.
  unfold trim. split_ifs; rewrite ?Forall_cons, ?Forall_nil; split_and!; try done.
  left. cbn. lia.
Qed.

Lemma trim_view e a :
  entry_ok e → view (trim lo hi e) a = if decide (lo ≤ a < hi) then None else view [e] a.
Proof.
  intros [(? & ? & ? & ? & ?) ?]. change VM_USER_MIN with 4096 in *. change VM_USER_MAX with 2147483648 in *.
  assert (∀ o, hi < e_end e → hi ≤ a < e_end e →
    (o +₆₄ (hi -₆₄ e_start e)) +₆₄ (a -₆₄ hi) = o +₆₄ (a -₆₄ e_start e)) as Hoff.
  { intros o ? ?. unfold u64. Z.to_euclidean_division_equations; lia. }
  unfold trim. split_ifs; rewrite ?view_cons; unfold view, holds_addr, attrs; cbn;
    repeat case_decide; try done; try lia; rewrite ?Hoff by lia; done.
Qed.

Lemma trim_length e : (length (trim lo hi e) ≤ if decide (straddles lo hi e) then 2 else 1)%nat.
Proof. unfold trim, straddles. split_ifs; case_decide; cbn; lia. Qed.

Lemma bind_trim_in l f : f ∈ l ≫= trim lo hi → ∃ e, e ∈ l ∧ f ∈ trim lo hi e.
Proof. intros (e & He & Hf)%list_elem_of_bind. by exists e. Qed.

Lemma bind_trim_ok l :
  Forall entry_ok l → disjoint_entries l →
  Forall entry_ok (l ≫= trim lo hi) ∧ disjoint_entries (l ≫= trim lo hi).
Proof.
  intros Hok. induction Hok as [|e l He Hok IH]; intros Hd; [done|].
  destruct Hd as [Hap Hd]. destruct (IH Hd) as [H1 H2]. csimpl. split.
  - apply Forall_app. split; [by apply trim_entry_ok|done].
  - apply disjoint_app. split_and!; [apply trim_disjoint|done|].
    apply Forall_forall. intros f Hf%trim_within. apply Forall_forall. intros g Hg.
    apply bind_trim_in in Hg as (g' & Hg' & Hg%trim_within).
    pose proof (proj1 (Forall_forall _ _) Hap g' Hg') as [?|?]; [left|right]; lia.
Qed.

Lemma bind_trim_view l a :
  Forall entry_ok l →
  view (l ≫= trim lo hi) a = if decide (lo ≤ a < hi) then None else view l a.
Proof.
  induction 1 as [|e l He Hok IH]; [by case_decide|].
  csimpl. rewrite view_app, IH, trim_view by done. case_decide; [done|].
  rewrite (view_app [e] l). done.
Qed.

Lemma bind_trim_length l :
  Forall entry_ok l → disjoint_entries l →
  Z.of_nat (length (l ≫= trim lo hi)) ≤ Z.of_nat (length l) + 1
  ∧ ((¬ ∃ e, e ∈ l ∧ straddles lo hi e) → Z.of_nat (length (l ≫= trim lo hi)) ≤ Z.of_nat (length l)).
Proof.
  induction 1 as [|e l He Hok IH]; intros Hd; [cbn; lia|].
  destruct Hd as [Hap Hd]. destruct (IH Hd) as [H1 H2]. csimpl. rewrite length_app.
  pose proof (trim_length e) as Hl. case_decide as Hs.
  - split; [|intros Hn; exfalso; apply Hn; exists e; split; [solve_in|done]].
    ospecialize (H2 _); [|cbn; lia]. intros (f & Hf & Hsf).
    pose proof (proj1 (Forall_forall _ _) Hap f Hf) as Ha. unfold apart, straddles in *. lia.
  - split; [cbn; lia|]. intros Hn. ospecialize (H2 _); [|cbn; lia].
    intros (f & Hf & Hsf). apply Hn. exists f. split; [solve_in|done].
Qed.
End trim.

(** ** Rounding *)
Lemma page_round_mod x : in_u64 x → Z.land x (not64 4095) mod 4096 = 0 ∧ in_u64 (Z.land x (not64 4095)).
Proof.
  intros Hx. change (Z.land x (not64 4095)) with (align_down x). rewrite align_down_eq by done.
  split; Z.to_euclidean_division_equations; lia.
Qed.

Lemma align_up_mod v : align_up v mod 4096 = 0 ∧ in_u64 (align_up v).
Proof. apply page_round_mod, u64_range. Qed.

Lemma align_down_mod v : in_u64 v → align_down v mod 4096 = 0 ∧ in_u64 (align_down v).
Proof. apply page_round_mod. Qed.

Lemma range_valid_spec lo hi :
  vm_range_valid lo hi = true ↔ VM_USER_MIN ≤ lo ∧ lo < hi ∧ hi ≤ VM_USER_MAX.
Proof.
  unfold vm_range_valid, ARCH_KERNEL_VIRT_BASE, VM_USER_MIN, VM_USER_MAX.
  repeat case_if; bool_hyps; rewrite ?orb_true_iff, ?Z.ltb_lt, ?Z.leb_le in *; split; intros; try done; lia.
Qed.

(** ** vm_map_add and vm_map_remove *)
Definition map_lo (start : Z) : Z := vm_align_down start.
Definition map_hi (start len : Z) : Z := vm_align_up (start +₆₄ len).

Definition added (l l' : list vm_map_entry_t) (lo hi prot flags o off : Z) : Prop :=
  (∀ a, lo ≤ a < hi → view l a = None)
  ∧ ∀ a, view l' a = if decide (lo ≤ a < hi) then Some (prot, flags, o, off +₆₄ (a -₆₄ lo)) else view l a.

Definition removed_from (l l' : list vm_map_entry_t) (lo hi : Z) : Prop :=
  ∀ a, view l' a = if decide (lo ≤ a < hi) then None else view l a.

Lemma vm_map_add_result s m start len prot flags o off :
  map_ok (entries m) → in_u64 start → in_u64 off →
  let lo := map_lo start in let hi := map_hi start len in
  let '(rc, m', s') := vm_map_add s m start len prot flags o off in
  map_ok (entries m') ∧ pml4_phys m' = pml4_phys m ∧
  ((rc = RDNX_E_INVALID ∧ (len = 0 ∨ ¬ page_bounds lo hi) ∧ m' = m ∧ s' = s)
   ∨ (rc = RDNX_E_BUSY ∧ (Z.of_nat (length (entries m)) = VM_MAP_MAX_ENTRIES
                           ∨ ∃ a, lo ≤ a < hi ∧ view (entries m) a ≠ None) ∧ m' = m ∧ s' = s)
   ∨ (rc = RDNX_OK ∧ page_bounds lo hi ∧ added (entries m) (entries m') lo hi prot flags o off
      ∧ s' = vm_object_ref s o)).
Proof.
  intros (Hok & Hd & Hl) Hs Ho lo hi. unfold vm_map_add. fold (map_lo start) (map_hi start len).
  fold lo hi. pose proof (align_down_mod start Hs : lo mod 4096 = 0 ∧ in_u64 lo) as [Lm _].
  pose proof (align_up_mod (start +₆₄ len) : hi mod 4096 = 0 ∧ in_u64 hi) as [Hm _].
  destruct ((len =? 0) || negb (vm_range_valid lo hi)) eqn:E1.
  { split_and!; try done. left. split_and!; try done.
    apply orb_true_iff in E1 as [E1|E1]; bool_hyps; [by left|right].
    intros (? & ? & ? & _). assert (vm_range_valid lo hi = true); [by apply range_valid_spec|congruence]. }
  bool_hyps. match goal with H : vm_range_valid _ _ = true |- _ => apply range_valid_spec in H as (? & ? & ?) end.
  assert (page_bounds lo hi) as Hb by done.
  destruct (VM_MAP_MAX_ENTRIES <=? _) eqn:E2; bool_hyps.
  { split_and!; try done. right; left. split_and!; try done. left. lia. }
  destruct (vm_map_overlap _ _ _) eqn:E3.
  { split_and!; try done. right; left. split_and!; try done. right.
    by apply overlap_hit. }
  pose proof (proj1 (overlap_view _ lo hi Hok ltac:(lia)) E3) as Hfree. unfold map_ok.
  split_and!; try done.
  - cbn. apply Forall_app. split; [done|]. apply Forall_singleton. by split.
  - cbn. apply disjoint_app. split_and!; try done. apply Forall_forall. intros e He.
    apply Forall_singleton. unfold apart. cbn.
    destruct (decide (e_end e ≤ lo)), (decide (hi ≤ e_start e)); try lia. exfalso.
    assert (vm_map_overlap (entries m) lo hi = true); [|congruence].
    apply overlap_spec; [done|lia|]. exists e. split; [done|lia].
  - cbn. rewrite length_app. cbn. lia.
  - right; right. split_and!; try done.
    + split; [done|]. intros a. etrans; [apply (view_app (entries m) [_])|]. rewrite view_cons. unfold holds_addr, attrs. cbn.
      case_decide; [by rewrite Hfree|by destruct (view (entries m) a)].
    + unfold vm_object_ref. by destruct (o =? 0).
Qed.

Lemma vm_map_remove_result s m start len pml4 :
  map_ok (entries m) → in_u64 start →
  let lo := map_lo start in let hi := map_hi start len in
  let '(rc, m', s') := vm_map_remove s m start len pml4 in
  map_ok (entries m') ∧ pml4_phys m' = pml4_phys m ∧
  ((rc = RDNX_E_INVALID ∧ (len = 0 ∨ hi ≤ lo) ∧ m' = m ∧ s' = s)
   ∨ (rc = RDNX_E_BUSY ∧ Z.of_nat (length (entries m)) = VM_MAP_MAX_ENTRIES
      ∧ (∃ e, e ∈ entries m ∧ straddles lo hi e) ∧ m' = m)
   ∨ (lo < hi ∧ removed_from (entries m) (entries m') lo hi
      ∧ ((rc = RDNX_OK ∧ ∃ a, lo ≤ a < hi ∧ view (entries m) a ≠ None)
         ∨ (rc = RDNX_E_NOTFOUND ∧ ∀ a, lo ≤ a < hi → view (entries m) a = None)))).
Proof.
  intros (Hok & Hd & Hl) Hs lo hi. unfold vm_map_remove. fold (map_lo start) (map_hi start len). fold lo hi.
  pose proof (align_down_mod start Hs : lo mod 4096 = 0 ∧ in_u64 lo) as [Lm Lr].
  pose proof (align_up_mod (start +₆₄ len) : hi mod 4096 = 0 ∧ in_u64 hi) as [Hm _].
  destruct ((len =? 0) || (hi <=? lo)) eqn:E1.
  { split_and!; try done. left. split_and!; try done. apply orb_true_iff in E1 as [E1|E1]; bool_hyps; tauto. }
  bool_hyps. destruct (remove_loop _ _ _ _ _ _ _ _) as [[rc l] s'] eqn:Er.
  destruct (remove_loop_spec lo hi pml4 (pml4_phys m) s false [] (entries m)) as [[E Hn]|(E & Hn & He)];
    try done; rewrite Er in E; cbn -[VM_MAP_MAX_ENTRIES] in E, Hn; simplify_eq; cbn [entries pml4_phys].
  - destruct (bind_trim_ok lo hi ltac:(lia) Lm Hm _ Hok Hd) as [Hok' Hd'].
    destruct (bind_trim_length lo hi ltac:(lia) _ Hok Hd) as [Hl1 Hl2].
    unfold map_ok. split_and!; try done.
    + cbn. destruct (decide (Z.of_nat (length (entries m)) < VM_MAP_MAX_ENTRIES)); [lia|].
      ospecialize (Hl2 _); [|lia]. intros Hex. apply Hn in Hex. lia.
    + right; right. split_and!; [lia|intros a; by apply bind_trim_view; [lia|..]|].
      destruct (vm_map_overlap _ _ _) eqn:Ov; [left|right]; (split; [done|]).
      * by apply overlap_hit.
      * apply overlap_view; [done|lia|done].
  - unfold map_ok. split_and!; try done. right; left. split_and!; [done|lia|done|]. by destruct m.
Qed.

End VmFacts.

(** * Correctness of the operations on task address spaces

    The system-call level operations of vm_map.c, stated on the partial
    function [view] that a map stands for: where [mmap] places a mapping,
    what [munmap], [brk], [mprotect] and [fork] do to the function, and that
    tearing a map down ends. *)
Module VmProofs.
Import Pmm Paging Vm VmMap VmFacts.

Definition occupied (l : list vm_map_entry_t) (g n : Z) : Prop := ∃ a, g ≤ a < g + n ∧ view l a ≠ None.
Definition vacant (l : list vm_map_entry_t) (g n : Z) : Prop := ∀ a, g ≤ a < g + n → view l a = None.

(** ** The search for a gap *)

(** [g] is the first page-aligned place for [n] bytes from [first] on, below
    the limit of user addresses; 0 when there is none. *)
Definition first_gap (l : list vm_map_entry_t) (first n g : Z) : Prop :=
  (first ≤ g ∧ g mod 4096 = 0 ∧ g + n < VM_USER_MAX ∧ vacant l g n
   ∧ ∀ g', first ≤ g' < g → g' mod 4096 = 0 → occupied l g' n)
  ∨ (g = 0 ∧ ∀ g', first ≤ g' → g' mod 4096 = 0 → g' + n < VM_USER_MAX → occupied l g' n).

Lemma gap_loop_spec fuel l lo hi :
  Forall entry_ok l → 0 < lo < hi → lo mod 4096 = 0 → VM_USER_MAX - hi < 4096 * (Z.of_nat fuel - 1) + 1 →
  first_gap l lo (hi - lo) (find_gap_loop fuel l lo hi).
Proof.
  intros Hok. revert lo hi. induction fuel as [|fuel IH]; intros lo hi Hlt Hm Hf; unfold VM_USER_MAX in *.
  { right. split; [done|]. unfold VM_USER_MAX. lia. }
  cbn. unfold VM_USER_MAX. case_if; bool_hyps.
  2: { right. split; [done|]. unfold VM_USER_MAX. lia. }
  destruct (vm_map_overlap l lo hi) eqn:Eo; cbn.
  - pose proof (overlap_hit l lo hi Hok ltac:(lia) Eo) as Hhit. unfold VM_PAGE_SIZE. word_simp.
    assert (∀ g', lo ≤ g' → g' mod 4096 = 0 → g' = lo ∨ lo + 4096 ≤ g') as Hstep.
    { intros g' ? ?. Z.to_euclidean_division_equations; lia. }
    assert (occupied l lo (hi - lo)) as Hocc.
    { destruct Hhit as (a & ? & ?). exists a. split; [lia|done]. }
    pose proof (IH (lo + 4096) (hi + 4096) ltac:(lia) ltac:(Z.to_euclidean_division_equations; lia)
      ltac:(unfold VM_USER_MAX; lia)) as Hr.
    replace (hi + 4096 - (lo + 4096)) with (hi - lo) in Hr by lia.
    destruct Hr as [(? & ? & ? & ? & Hfirst)|[-> Hnone]]; [left|right]; split_and!; try done; try lia.
    + intros g' ? ?. destruct (Hstep g') as [->|]; [lia|done|done|]. apply Hfirst; [lia|done].
    + intros g' ? ? ?. destruct (Hstep g') as [->|]; [lia|done|done|]. by apply Hnone.
  - left. unfold VM_USER_MAX. split_and!; try done; try lia.
    intros a ?. apply (proj1 (overlap_view l lo hi Hok ltac:(lia)) Eo). lia.
Qed.

Lemma align_up_add v n : 0 ≤ v → 0 ≤ n → n mod 4096 = 0 → v + n ≤ 18446744073709551616 - 4096 →
  align_up (v + n) = align_up v + n.
Proof. intros. rewrite !align_up_eq by lia. Z.to_euclidean_division_equations; lia. Qed.

Definition gap_base (hint : Z) : Z := Z.max (vm_align_up hint) VM_DEFAULT_MMAP.

Lemma vm_find_gap_result m hint n :
  Forall entry_ok (entries m) → 0 ≤ hint → 0 < n → n mod 4096 = 0 → hint + n ≤ 2 ^ 63 →
  first_gap (entries m) (gap_base hint) n (vm_find_gap m hint n).
Proof.
  intros Hok Hh Hn Hm Hs. change (2 ^ 63) with 9223372036854775808 in Hs. unfold vm_find_gap.
  assert (vm_align_up (hint +₆₄ n) = vm_align_up hint + n) as ->.
  { unfold vm_align_up. word_simp. apply align_up_add; lia. }
  assert (0 ≤ vm_align_up hint ≤ hint + 4095 ∧ vm_align_up hint mod 4096 = 0) as [? ?].
  { unfold vm_align_up. rewrite align_up_eq by lia. Z.to_euclidean_division_equations; lia. }
  assert (vm_align_up n = n) as ->.
  { unfold vm_align_up. rewrite align_up_eq by lia. Z.to_euclidean_division_equations; lia. }
  rewrite (proj2 (Z.leb_gt _ _)) by lia.
  assert (∀ lo, 0 < lo → lo mod 4096 = 0 →
    first_gap (entries m) lo n (find_gap_loop (gap_fuel (lo + n)) (entries m) lo (lo + n))) as Hgo.
  { intros lo ? ?. rewrite <- (Z.add_simpl_l lo n) at 1. apply gap_loop_spec; try done; [lia|].
    unfold gap_fuel, VM_USER_MAX, VM_PAGE_SIZE. rewrite Nat2Z.inj_succ.
    destruct (decide (0 ≤ 2147483648 - (lo + n))).
    - rewrite Z2Nat.id by (apply Z.div_pos; lia). Z.to_euclidean_division_equations; lia.
    - lia. }
  unfold gap_base, VM_DEFAULT_MMAP in *. case_if; bool_hyps.
  - word_simp. rewrite Z.max_r by lia. by apply Hgo.
  - rewrite Z.max_l by lia. apply Hgo; [lia|done].
Qed.

(** ** Objects around a mapping *)
Definition objects_ok (s : vm_state) : Prop :=
  0 < next_object s ∧ ∀ o, next_object s ≤ o → objects s !! o = None.

Definition fresh_object (type : vm_object_type_t) (n : Z) : vm_object_t :=
  mk_object type 1 n (n / 4096) (replicate (Z.to_nat (n / 4096)) 0) None.

Lemma object_create_eq s type n :
  0 < n → n mod 4096 = 0 → n ≤ 2 ^ 63 →
  vm_object_create s type n
    = (next_object s, s <| objects ::= <[next_object s := fresh_object type n]> |>
                        <| next_object := next_object s + 1 |>).
Proof.
  intros ? ? ?. change (2 ^ 63) with 9223372036854775808 in *. unfold vm_object_create, vm_object_align_up.
  rewrite (proj2 (Z.eqb_neq n 0)) by lia.
  assert (align_up n = n) as -> by (rewrite align_up_eq by lia; Z.to_euclidean_division_equations; lia).
  unfold VM_PAGE_SIZE. rewrite (proj2 (Z.eqb_neq (n / 4096) 0)) by (Z.to_euclidean_division_equations; lia).
  done.
Qed.

(** Taking and dropping a reference leaves the object as it was. *)
Lemma object_ref_unref s o x :
  o ≠ 0 → objects s !! o = Some x → 0 < ref_count x < 2 ^ 32 - 1 →
  vm_object_unref (vm_object_ref s o) o = s.
Proof.
  intros Ho Hx Hr. change (2 ^ 32) with 4294967296 in Hr. unfold vm_object_unref, vm_object_ref.
  rewrite (proj2 (Z.eqb_neq o 0)) by done.
  unfold obj, obj_upd, field_update. cbn. rewrite !lookup_total_insert_eq, (lookup_total_correct _ _ _ Hx). cbn.
  rewrite (u32_small (ref_count x + 1)), (proj2 (Z.ltb_lt 0 (ref_count x + 1))) by lia. cbn.
  rewrite (proj2 (Z.eqb_neq (ref_count x + 1 - 1) 0)) by lia. destruct s. cbn in *.
  f_equal. rewrite insert_insert_eq. apply insert_id. rewrite Hx. destruct x. cbn. do 2 f_equal. lia.
Qed.

Lemma foldl_id {A B} (f : A → B → A) (l : list B) a :
  (∀ b, b ∈ l → f a b = a) → foldl f a l = a.
Proof.
  induction l as [|b l IH]; intros Hf; [done|]. cbn. rewrite Hf by solve_in. apply IH.
  intros. apply Hf. solve_in.
Qed.

(** Dropping the only reference of an object that has no page deletes it. *)
Lemma object_unref_fresh s o type n :
  o ≠ 0 → objects s !! o = Some (fresh_object type n) → vm_object_unref s o = s <| objects ::= delete o |>.
Proof.
  intros Ho Hx. unfold vm_object_unref. rewrite (proj2 (Z.eqb_neq o 0)) by done.
  unfold obj, obj_upd. cbn -[replicate seqZ]. rewrite !lookup_total_insert_eq, (lookup_total_correct _ _ _ Hx).
  cbn -[replicate seqZ]. unfold unref_write_back. cbn -[replicate seqZ]. rewrite foldl_id.
  - destruct s. unfold field_update. cbn. by rewrite delete_insert_eq.
  - intros i _. rewrite list_lookup_total_alt.
    destruct (replicate _ 0 !! Z.to_nat i) as [v|] eqn:E; [|done].
    apply lookup_replicate in E as [-> _]. done.
Qed.

(** ** mmap *)
Definition mmap_hint (t : vm_task) (addr_hint : Z) : Z :=
  if addr_hint =? 0 then vm_mmap_hint t else addr_hint.

Definition ANON_FLAGS (flags : Z) : Z := Z.lor (Z.lor flags VM_MAP_F_LAZY) VM_MAP_F_ANON.

(** An anonymous mapping without a fixed address is placed at the first
    page-aligned gap from the hint that holds it, extends the map there and
    nowhere else with a fresh zero-filled object, and advances the hint; it
    fails without changing anything when no gap is left, and returns BUSY with the
    object released again when the entry table is full. *)
Theorem vm_task_mmap_correct s t m addr_hint len prot flags :
  t_map t = Some m → map_ok (entries m) → objects_ok s →
  0 < len ≤ 2 ^ 61 → 0 ≤ mmap_hint t addr_hint ≤ 2 ^ 62 → has_flag flags VM_MAP_F_FIXED = false →
  let n := vm_align_up len in
  let base := gap_base (mmap_hint t addr_hint) in
  let o := next_object s in
  let '(r, t', s') := vm_task_mmap s t addr_hint len prot flags in
  (∃ m', VM_DEFAULT_MMAP ≤ r ∧ first_gap (entries m) base n r
     ∧ map_ok (entries m') ∧ added (entries m) (entries m') r (r + n) prot (ANON_FLAGS flags) o 0
     ∧ t' = t <| t_map := Some m' |> <| vm_mmap_hint := r + n |>
     ∧ s' = s <| objects ::= <[o := fresh_object VM_OBJECT_ANON n]> |> <| next_object := o + 1 |>)
  ∨ (r = RDNX_E_NOMEM ∧ first_gap (entries m) base n 0 ∧ t' = t ∧ s' = s)
  ∨ (r = RDNX_E_BUSY ∧ Z.of_nat (length (entries m)) = VM_MAP_MAX_ENTRIES ∧ t' = t
     ∧ s' = s <| next_object := o + 1 |>).
Proof.
  intros Ht Hok [Ho1 Ho2] Hlen Hhint Hfix n base o.
  change (2 ^ 62) with 4611686018427387904 in *. change (2 ^ 61) with 2305843009213693952 in *.
  assert (len ≤ n < len + 4096 ∧ n mod 4096 = 0) as [? ?].
  { unfold n, vm_align_up. rewrite align_up_eq by lia. Z.to_euclidean_division_equations; lia. }
  unfold vm_task_mmap, mmap_address. rewrite Ht, Hfix, (proj2 (Z.eqb_neq len 0)) by lia. fold n.
  replace (if negb (addr_hint =? 0) then addr_hint else vm_mmap_hint t) with (mmap_hint t addr_hint)
    by (unfold mmap_hint; by destruct (addr_hint =? 0)).
  pose proof (vm_find_gap_result m (mmap_hint t addr_hint) n (proj1 Hok) ltac:(lia) ltac:(lia) ltac:(done)
    ltac:(change (2 ^ 63) with 9223372036854775808; lia)) as Hg.
  fold base in Hg. set (g := vm_find_gap m (mmap_hint t addr_hint) n) in *.
  assert (t <| t_map := Some m |> = t) as Etm by (destruct t; cbn in *; by rewrite Ht).
  destruct (g =? 0) eqn:Eg; bool_hyps.
  { right; left. rewrite Eg in Hg. done. }
  rewrite object_create_eq by (try change (2 ^ 63) with 9223372036854775808; lia). fold o.
  rewrite (proj2 (Z.eqb_neq o 0)) by (unfold o; lia).
  set (s1 := s <| objects ::= _ |> <| next_object := _ |>).
  assert (objects s1 !! o = Some (fresh_object VM_OBJECT_ANON n)) as Hs1 by apply lookup_insert_eq.
  destruct Hg as [(Hge & Hgm & Hgn & Hv & Hfst)|[? _]]; [|lia].
  assert (VM_DEFAULT_MMAP ≤ g) as Hgd by (unfold base, gap_base in Hge; lia).
  unfold VM_DEFAULT_MMAP, VM_USER_MAX in *.
  assert (map_lo g = g) as El by (unfold map_lo, vm_align_down; rewrite align_down_eq by lia; lia).
  assert (map_hi g n = g + n) as Eh.
  { unfold map_hi, vm_align_up. word_simp. rewrite align_up_eq by lia. Z.to_euclidean_division_equations; lia. }
  pose proof (vm_map_add_result s1 m g n prot (ANON_FLAGS flags) o 0 Hok ltac:(lia) ltac:(lia)) as Ha.
  cbv zeta in Ha. rewrite El, Eh in Ha. fold (ANON_FLAGS flags).
  destruct (vm_map_add s1 m g n prot (ANON_FLAGS flags) o 0) as [[rc m'] s2].
  assert (o ≠ 0) as Ho0 by (unfold o; lia).
  destruct Ha as (Hok' & _ & [(-> & [?|Hb] & _)|[(-> & Hb & -> & ->)|(-> & _ & Hadd & ->)]]).
  - lia.
  - exfalso. apply Hb. unfold page_bounds, VM_USER_MIN, VM_USER_MAX. Z.to_euclidean_division_equations; lia.
  - right; right. cbn [Z.eqb negb]. rewrite (object_unref_fresh s1 o _ _ Ho0 Hs1), Etm. split_and!; try done.
    + destruct Hb as [?|(a & ? & Hb)]; [done|]. by rewrite Hv in Hb.
    + unfold s1. destruct s. unfold field_update. cbn in *. f_equal. apply delete_insert_id. apply Ho2. unfold o. cbn. lia.
  - left. exists m'. cbn [Z.eqb negb]. rewrite (object_ref_unref s1 o _ Ho0 Hs1) by done.
    split_and!; try done; [left; split_and!; done|]. destruct t. unfold field_update. cbn. f_equal.
    word_simp. done.
Qed.

End VmProofs.
