(* ===== verification/VmInv.v ===== *)
(** * Frames behind address spaces

    The invariant [vm_inv] ties the reference counts of page frames to the
    physical memory manager and to the page tables: a counted frame is
    allocated and is not a page table, so that dropping a reference can never
    free a table of any address space.  On it the theorems about [munmap],
    [exit] and page faults speak of translations of addresses. *)

From stdpp Require Import base gmap list numbers fin_maps.
From S2P Require Import Prelude Pmm PmmFacts PmmInit Paging PagingFacts PagingProofs Vm VmMap VmFacts.

Module VmInv.
Import Pmm PmmFacts PmmInit Paging PagingFacts PagingProofs Vm VmMap VmFacts VmProofs.

Record vm_inv (s : vm_state) (own : gmap Z node) : Prop := {
  vi_pt : pt_inv (paging s) own;
  vi_keys : NoDup (page_refs s).*1;
  vi_ref : ∀ f r, (f, r) ∈ page_refs s →
    f ≠ 0 ∧ 0 < r < 4294967296 ∧ own !! f = None ∧ frame_used (pg_pmm (paging s)) f
}.

(** The step from [s] to [s'] changes no page table. *)
Definition same_tables (s s' : vm_state) : Prop :=
  words (paging s') = words (paging s)
  ∧ current_pml4_phys (paging s') = current_pml4_phys (paging s).

Lemma translate_ext p p' r va : words p' = words p → translate p' r va = translate p r va.
Proof. intros E. unfold translate, find_pd, entry. by rewrite E. Qed.

Lemma freelist_insert_geometry p zone start count : same_geometry p (pmm_freelist_insert p zone start count).
Proof.
  unfold pmm_freelist_insert, pmm_freelist_append. cbv zeta. repeat case_if; try done.
  by destruct (range_merge_prev _ _).
Qed.

Lemma free_page_geometry p phys : same_geometry p (pmm_free_page p phys).
Proof.
  unfold pmm_free_page. cbv zeta. do 3 (case_if; try done).
  eapply same_geometry_trans; [|apply freelist_insert_geometry]. by case_if.
Qed.

(** Page content is not part of the invariants. *)
Lemma pmm_inv_mem p f : pmm_inv p → pmm_inv (p <| mem ::= f |>).
Proof. intros []. by split. Qed.

Lemma translate_same s s' r va :
  same_tables s s' → translate (paging s') r va = translate (paging s) r va.
Proof. intros [E _]. by apply translate_ext. Qed.

Lemma same_tables_page s s' r va : same_tables s s' → same_page (paging s) (paging s') r va.
Proof. intros [E _]. split; [by apply translate_ext|]. unfold leaf, find_pt, entry. by rewrite E. Qed.

Lemma same_tables_refl s : same_tables s s.
Proof. done. Qed.
Lemma same_tables_trans s1 s2 s3 : same_tables s1 s2 → same_tables s2 s3 → same_tables s1 s3.
Proof. intros [? ?] [? ?]. split; congruence. Qed.

(** ** Reference counts *)
Definition refs (s : vm_state) (f : Z) : Z := default 0 (vm_page_ref_find (page_refs s) f).

Lemma ref_find_in l f r : vm_page_ref_find l f = Some r → (f, r) ∈ l.
Proof.
  induction l as [|[p q] l IH]; [done|]. cbn. case_if; bool_hyps; intros Hf; simplify_eq; [solve_in|].
  apply elem_of_cons. right. by apply IH.
Qed.

Lemma ref_find_none l f : vm_page_ref_find l f = None ↔ f ∉ l.*1.
Proof.
  induction l as [|[p q] l IH]; cbn; [split; [intros _ Hf; by apply elem_of_nil in Hf|done]|].
  rewrite not_elem_of_cons. case_if; bool_hyps; [naive_solver|rewrite IH; naive_solver].
Qed.

Lemma ref_dec_spec l f :
  NoDup l.*1 →
  match ref_dec l f with
  | (l', None) => l' = l ∧ f ∉ l.*1
  | (l', Some true) => f ∈ l.*1 ∧ default 0 (vm_page_ref_find l f) ≤ 1 ∧ f ∉ l'.*1 ∧ NoDup l'.*1
      ∧ (∀ g r, (g, r) ∈ l' → (g, r) ∈ l)
      ∧ ∀ g, g ≠ f → vm_page_ref_find l' g = vm_page_ref_find l g
  | (l', Some false) => l'.*1 = l.*1
      ∧ (∃ r, vm_page_ref_find l f = Some r ∧ r - 1 ≠ 0 ∧ r ≠ 0
          ∧ vm_page_ref_find l' f = Some (if 0 <? r then r - 1 else r))
      ∧ (∀ g r, (g, r) ∈ l' → (g, r) ∈ l ∨ (r ≠ 0 ∧ (g, r + 1) ∈ l))
      ∧ ∀ g, g ≠ f → vm_page_ref_find l' g = vm_page_ref_find l g
  end.
Proof.
  induction l as [|[p q] l IH]; intros Hnd; [split; [done|]; intros Hf; by apply elem_of_nil in Hf|].
  cbn in Hnd. apply NoDup_cons in Hnd as [Hp Hnd]. cbn [ref_dec].
  destruct (p =? f) eqn:Epf; bool_hyps; [subst p|].
  - destruct ((if 0 <? q then q - 1 else q) =? 0) eqn:Eq; bool_hyps; cbn; rewrite Z.eqb_refl; cbn.
    + split_and!; try done; [solve_in|by case_if; bool_hyps; lia| |].
      * intros g r Hg. solve_in.
      * intros g Hg. by rewrite (proj2 (Z.eqb_neq f g)) by done.
    + split_and!; try done.
      * exists q. case_if; bool_hyps; split_and!; try done; lia.
      * intros g r [Hg|Hg]%elem_of_cons; [|left; solve_in]. simplify_eq.
        case_if; [right|left; solve_in]. split; [done|]. rewrite Z.sub_add. solve_in.
      * intros g Hg. by rewrite (proj2 (Z.eqb_neq f g)) by done.
  - specialize (IH Hnd). destruct (ref_dec l f) as [l' [[]|]]; cbn; rewrite ?(proj2 (Z.eqb_neq p f)) by done.
    + destruct IH as (? & ? & Hn & Hd & Hsub & Hoth). split_and!; try done.
      * solve_in.
      * rewrite not_elem_of_cons. split; [congruence|done].
      * apply NoDup_cons. split; [|done]. intros Hin. apply Hp.
        apply list_elem_of_fmap in Hin as ([g r] & -> & Hin). apply list_elem_of_fmap. exists (g, r).
        split; [done|by apply Hsub].
      * intros g r [Hg|Hg]%elem_of_cons; [rewrite Hg; solve_in|]. apply Hsub in Hg. solve_in.
      * intros g Hg. case_if; [done|by apply Hoth].
    + destruct IH as (Hk & Hr & Hsub & Hoth). split_and!; try done; [by rewrite Hk| |].
      * intros g r [Hg|Hg]%elem_of_cons; [left; rewrite Hg; solve_in|].
        destruct (Hsub g r Hg) as [?|[? ?]]; [left; solve_in|right]. split; [done|solve_in].
      * intros g Hg. case_if; [done|by apply Hoth].
    + destruct IH as [-> Hn]. split; [done|]. rewrite not_elem_of_cons. split; [congruence|done].
Qed.

Lemma refs_nonneg s own f : vm_inv s own → 0 ≤ refs s f < 4294967296.
Proof.
  intros Hinv. unfold refs. destruct (vm_page_ref_find _ _) as [r|] eqn:E; [|cbn; lia].
  apply ref_find_in, (vi_ref _ _ Hinv) in E. cbn. lia.
Qed.

(** What an operation on references may change besides them. *)
Definition refs_step (s s' : vm_state) : Prop :=
  same_tables s s' ∧ objects s' = objects s ∧ next_object s' = next_object s ∧ fbytes s' = fbytes s
  ∧ same_geometry (pg_pmm (paging s)) (pg_pmm (paging s')).

(** Freeing a frame that is not a table keeps the page tables. *)
Lemma free_keeps_tables p own f :
  pt_inv p own → own !! f = None → pt_inv (p <| pg_pmm ::= λ q, pmm_free_page q f |>) own.
Proof.
  intros Hinv Hno. pose proof (pmm_free_page_result (pg_pmm p) f (pi_pmm _ _ Hinv)) as [Hp Hcase].
  pose proof (free_page_geometry (pg_pmm p) f) as Hg.
  destruct Hinv as [Hpm Hf Hu Hl Hs]. split; try done. cbn. intros g n i Ho Hi Eg.
  destruct Hg as (Gt & Gm & _). unfold pmm_index_to_page in Eg. rewrite Gt in Hi. rewrite Gm in Eg.
  assert (pmm_bitmap_test (pg_pmm p) i = true) as Ht by (by apply (Hu g n)).
  destruct Hcase as [(k & Hk & -> & _ & Hb)|[-> _]]; [|done].
  rewrite Hb by lia. rewrite decide_False; [done|]. intros ->.
  assert (g = pmm_index_to_page (pg_pmm p) i) as Eg' by done. congruence.
Qed.

(** Freeing a used frame clears its bit and no other. *)
Lemma free_used_bits p f i :
  pmm_inv p → frame_used p f → 0 ≤ i →
  pmm_bitmap_test (pmm_free_page p f) i
    = if decide (i < total_pages p ∧ f = pmm_index_to_page p i) then false else pmm_bitmap_test p i.
Proof.
  intros Hp (k & Hk & Ef & Hbk) Hi.
  pose proof (pmm_free_page_result p f Hp) as [_ [(j & Hj & Ej & _ & Hb)|[_ Hb]]]; [|by rewrite Hb in Hbk].
  rewrite Hb by done. rewrite Ej, index_to_page_eq by done.
  destruct (decide (i < total_pages p)).
  - rewrite index_to_page_eq by done. do 2 case_decide; try done; lia.
  - do 2 case_decide; try done; lia.
Qed.

Definition release_spec (s s' : vm_state) (own : gmap Z node) (f : Z) : Prop :=
  vm_inv s' own ∧ refs_step s s'
  ∧ (∀ g, refs s' g = if decide (g = f) then Z.max 0 (refs s g - 1) else refs s g)
  ∧ ∀ i, 0 ≤ i < total_pages (pg_pmm (paging s)) →
       pmm_bitmap_test (pg_pmm (paging s')) i
         = if decide (f = pmm_index_to_page (pg_pmm (paging s)) i ∧ refs s f = 1) then false
           else pmm_bitmap_test (pg_pmm (paging s)) i.

Lemma refs_pos s own f : vm_inv s own → f ∈ (page_refs s).*1 → 0 < refs s f.
Proof.
  intros Hinv Hin. unfold refs. destruct (vm_page_ref_find _ f) as [r|] eqn:E.
  - apply ref_find_in, (vi_ref _ _ Hinv) in E. cbn. lia.
  - by apply ref_find_none in E.
Qed.

Lemma refs_none s own f : vm_inv s own → f = 0 ∨ f ∉ (page_refs s).*1 → refs s f = 0.
Proof.
  intros Hinv Hf. unfold refs. destruct (vm_page_ref_find _ f) as [r|] eqn:E; [|done]. exfalso.
  apply ref_find_in in E. pose proof (vi_ref _ _ Hinv _ _ E) as [? _].
  destruct Hf as [?|Hf]; [done|]. apply Hf, list_elem_of_fmap. by exists (f, r).
Qed.

(** A release that finds no reference does nothing. *)
Lemma release_spec_none s own f : vm_inv s own → refs s f = 0 → release_spec s s own f.
Proof.
  intros Hinv R0. split_and!; try done.
  - intros g. case_decide; [subst; by rewrite R0|done].
  - intros i Hi. rewrite R0. rewrite decide_False; [done|]. intros [_ ?]. lia.
Qed.

(** The last reference: the node goes and the frame is freed. *)
Lemma release_spec_last s own f l :
  vm_inv s own → ref_dec (page_refs s) f = (l, Some true) →
  refs s f = 1 ∧ release_spec s (with_pmm (λ p, pmm_free_page p f) (s <| page_refs := l |>)) own f.
Proof.
  intros Hinv Hdec. pose proof (ref_dec_spec (page_refs s) f (vi_keys _ _ Hinv)) as Hd. rewrite Hdec in Hd.
  destruct Hd as (Hin & Hle & Hnin & Hnd & Hsub & Hoth). pose proof (refs_pos s own f Hinv Hin) as Hpos.
  assert (refs s f = 1) as R1 by (unfold refs in *; lia). split; [done|].
  apply list_elem_of_fmap in Hin as ([f' r] & Ef & Hin). cbn in Ef. subst f'.
  pose proof (vi_ref _ _ Hinv f r Hin) as (_ & Hr & Hno & Hu). pose proof (pi_pmm _ _ (vi_pt _ _ Hinv)) as Hp.
  split_and!.
  - split; [by apply free_keeps_tables; [apply Hinv|]|done|]. cbn. intros g q Hg.
    destruct (vi_ref _ _ Hinv g q (Hsub g q Hg)) as (? & ? & ? & Hug). do 3 (split; [done|]).
    eapply frame_used_geometry; [apply free_page_geometry| |exact Hug]. intros i Hi Ht Eg.
    rewrite free_used_bits by done. rewrite decide_False; [done|]. intros [_ Efi]. apply Hnin.
    apply list_elem_of_fmap. exists (g, q). split; [cbn; congruence|done].
  - split_and!; try done. apply free_page_geometry.
  - intros g. unfold refs in *. cbn. case_decide; [subst g|by rewrite Hoth].
    rewrite R1. by rewrite (proj2 (ref_find_none l f)) by done.
  - intros i Hi. cbn. rewrite free_used_bits by (done || lia). do 2 case_decide; try done; exfalso; intuition.
Qed.

Lemma release_spec_more s own f l :
  vm_inv s own → ref_dec (page_refs s) f = (l, Some false) →
  1 < refs s f ∧ release_spec s (s <| page_refs := l |>) own f.
Proof.
  intros Hinv Hdec. pose proof (ref_dec_spec (page_refs s) f (vi_keys _ _ Hinv)) as Hd. rewrite Hdec in Hd.
  destruct Hd as (Hk & (r & Hf & Hr1 & Hr0 & Hf') & Hsub & Hoth).
  assert (0 < r) as Hrp by (apply ref_find_in, (vi_ref _ _ Hinv) in Hf; lia).
  assert (refs s f = r) as R1 by (unfold refs; by rewrite Hf). split; [lia|]. split_and!; try done.
  - split; cbn; [apply Hinv|rewrite Hk; apply Hinv|]. intros g q Hg.
    destruct (Hsub g q Hg) as [Hq|[? Hq]]; destruct (vi_ref _ _ Hinv _ _ Hq) as (? & ? & ? & ?);
      split_and!; try done; lia.
  - intros g. unfold refs in *. cbn. case_decide; [subst g|by rewrite Hoth].
    rewrite Hf', Hf. rewrite (proj2 (Z.ltb_lt 0 r)) by lia. cbn. lia.
  - intros i Hi. rewrite decide_False; [done|]. intros [_ ?]. lia.
Qed.

Lemma release_result s own f :
  vm_inv s own →
  let '(rc, s') := vm_page_ref_release s f in
  release_spec s s' own f
  ∧ rc = (if f =? 0 then RDNX_E_INVALID else if refs s f =? 0 then RDNX_E_NOTFOUND else RDNX_OK).
Proof.
  intros Hinv. unfold vm_page_ref_release. destruct (f =? 0) eqn:E0; bool_hyps.
  { split; [|done]. apply release_spec_none; [done|]. apply (refs_none s own); [done|by left]. }
  pose proof (ref_dec_spec (page_refs s) f (vi_keys _ _ Hinv)) as Hd.
  destruct (ref_dec (page_refs s) f) as [l [[]|]] eqn:Ed.
  - destruct (release_spec_last s own f l Hinv Ed) as [R ?]. by rewrite R.
  - destruct (release_spec_more s own f l Hinv Ed) as [R ?]. by rewrite (proj2 (Z.eqb_neq _ 0)) by lia.
  - destruct Hd as [_ Hn]. assert (refs s f = 0) as R0 by (apply (refs_none s own); [done|by right]).
    rewrite R0. split; [|done]. by apply release_spec_none.
Qed.

(** Dropping a reference to a page decrements its count and frees the frame
    exactly when the count was 1, so that no frame with references left, and
    no page table, is ever freed; a page that is not counted is reported and
    nothing changes. *)
Theorem vm_page_ref_release_correct s own f :
  vm_inv s own →
  let '(rc, s') := vm_page_ref_release s f in
  release_spec s s' own f
  ∧ rc = (if f =? 0 then RDNX_E_INVALID else if refs s f =? 0 then RDNX_E_NOTFOUND else RDNX_OK).
Proof. apply release_result. Qed.

Lemma ref_inc_spec l f :
  NoDup l.*1 → f ∈ l.*1 →
  (ref_inc l f).*1 = l.*1
  ∧ (∀ g r, (g, r) ∈ ref_inc l f → (g, r) ∈ l ∨ g = f ∧ ∃ q, vm_page_ref_find l f = Some q ∧ r = q +₃₂ 1)
  ∧ ∀ g, vm_page_ref_find (ref_inc l f) g
       = if decide (g = f) then (λ q, q +₃₂ 1) <$> vm_page_ref_find l f else vm_page_ref_find l g.
Proof.
  induction l as [|[p q] l IH]; intros Hnd Hin; [by apply elem_of_nil in Hin|].
  cbn in Hnd, Hin |- *. apply NoDup_cons in Hnd as [Hp Hnd]. destruct (p =? f) eqn:Epf; bool_hyps.
  - subst p. cbn. split_and!; [done| |].
    + intros g r [Hg|Hg]%elem_of_cons; [right|left; solve_in]. simplify_eq. split; [done|].
      exists q. done.
    + intros g. case_decide; [subst; by rewrite Z.eqb_refl|]. by rewrite (proj2 (Z.eqb_neq f g)) by done.
  - apply elem_of_cons in Hin as [->|Hin]; [done|]. destruct (IH Hnd Hin) as (H1 & H2 & H3).
    cbn. split_and!; [by rewrite H1| |].
    + intros g r [Hg|Hg]%elem_of_cons; [left; rewrite Hg; solve_in|].
      destruct (H2 g r Hg) as [?|(-> & q' & ? & ?)]; [left; solve_in|right].
      split; [done|]. by exists q'.
    + intros g. rewrite H3. repeat case_if; bool_hyps; repeat case_decide; subst; done.
Qed.

(** Taking a reference to a used frame that is not a table. *)
Lemma retain_result s own f :
  vm_inv s own → f ≠ 0 → own !! f = None → frame_used (pg_pmm (paging s)) f →
  refs s f < 4294967295 →
  let '(rc, s') := vm_page_ref_add_new s f in
  rc = RDNX_OK ∧ vm_inv s' own ∧ refs_step s s' ∧ pg_pmm (paging s') = pg_pmm (paging s)
  ∧ ∀ g, refs s' g = if decide (g = f) then refs s g + 1 else refs s g.
Proof.
  intros Hinv Hf Hno Hu Hmax. unfold vm_page_ref_add_new. rewrite (proj2 (Z.eqb_neq f 0)) by done.
  destruct (vm_page_ref_find (page_refs s) f) as [r|] eqn:Er.
  - pose proof (ref_find_in _ _ _ Er) as Hin. assert (refs s f = r) as R by (unfold refs; by rewrite Er).
    assert (f ∈ (page_refs s).*1) as Hk by (apply list_elem_of_fmap; by exists (f, r)).
    destruct (ref_inc_spec (page_refs s) f (vi_keys _ _ Hinv) Hk) as (H1 & H2 & H3).
    split_and!; try done.
    + split; cbn; [apply Hinv|rewrite H1; apply Hinv|]. intros g q Hg.
      destruct (H2 g q Hg) as [?|(-> & q' & Hq & ->)]; [by apply Hinv|].
      assert (q' = r) as -> by congruence. destruct (vi_ref _ _ Hinv _ _ Hin) as (? & ? & ? & ?).
      rewrite u32_small by lia. split_and!; try done; lia.
    + intros g. unfold refs. cbn. rewrite H3. case_decide; [subst g|done]. rewrite Er. cbn.
      rewrite u32_small; [done|]. pose proof (vi_ref _ _ Hinv _ _ Hin). lia.
  - split_and!; try done.
    + apply ref_find_none in Er. split; cbn; [apply Hinv|apply NoDup_cons; split; [done|apply Hinv]|].
      intros g q [Hg|Hg]%elem_of_cons; [simplify_eq; split_and!; done || lia|by apply Hinv].
    + intros g. unfold refs. cbn. rewrite Z.eqb_sym. case_decide as Hd; [subst g|].
      * rewrite Z.eqb_refl, Er. done.
      * by rewrite (proj2 (Z.eqb_neq g f)) by done.
Qed.

(** ** Steps that leave the page tables alone *)
Definition quiet (own : gmap Z node) (s s' : vm_state) : Prop := vm_inv s' own ∧ same_tables s s'.

Lemma quiet_refl own s : vm_inv s own → quiet own s s.
Proof. done. Qed.

Lemma quiet_trans own s1 s2 s3 : quiet own s1 s2 → quiet own s2 s3 → quiet own s1 s3.
Proof. intros [_ T1] [H2 T2]. split; [done|]. by eapply same_tables_trans. Qed.

(** A step on objects and file data only. *)
Lemma quiet_objects own s s' :
  vm_inv s own → paging s' = paging s → page_refs s' = page_refs s → quiet own s s'.
Proof.
  intros [Hp Hk Hr] Ep Er. split; [|by split; rewrite Ep]. split; rewrite ?Er, ?Ep; done.
Qed.

Lemma quiet_release own s f : vm_inv s own → quiet own s (vm_page_ref_release s f).2.
Proof.
  intros Hinv. pose proof (release_result s own f Hinv) as Hr.
  destruct (vm_page_ref_release s f) as [rc s']. by destruct Hr as [(? & [? _] & _) _].
Qed.

Lemma quiet_foldl {B} own (g : vm_state → B → vm_state) (l : list B) s :
  vm_inv s own → (∀ s b, vm_inv s own → b ∈ l → quiet own s (g s b)) → quiet own s (foldl g s l).
Proof.
  revert s. induction l as [|b l IH]; intros s Hinv Hg; [by apply quiet_refl|]. cbn.
  pose proof (Hg s b Hinv ltac:(solve_in)) as H1. eapply quiet_trans; [exact H1|].
  apply IH; [apply H1|]. intros s' b' ? ?. apply Hg; [done|solve_in].
Qed.

Lemma quiet_unref own s o : vm_inv s own → quiet own s (vm_object_unref s o).
Proof.
  intros Hinv. unfold vm_object_unref. case_if; [by apply quiet_refl|]. set (s1 := obj_upd o _ s).
  assert (quiet own s s1) as H1 by (by apply quiet_objects). destruct (ref_count (obj s1 o) =? 0); [|done].
  set (s2 := unref_write_back s1 (obj s1 o)). assert (quiet own s1 s2) as H2.
  { unfold s2, unref_write_back. destruct (pager_private _) as [fb|]; [|by apply quiet_refl, H1].
    case_if; [|by apply quiet_refl, H1]. apply quiet_foldl; [apply H1|]. intros s' i Hs' _.
    cbv zeta. case_if; [by apply quiet_refl|]. case_if; [by apply quiet_refl|]. by apply quiet_objects. }
  eapply quiet_trans; [exact H1|]. eapply quiet_trans; [exact H2|].
  assert (∀ s', quiet own s2 s' → quiet own s2 (s' <| objects ::= delete o |>)) as Hdel.
  { intros s' H'. eapply quiet_trans; [exact H'|]. apply quiet_objects; [apply H'|done..]. }
  apply Hdel. apply quiet_foldl; [apply H2|]. intros s' i Hs' _. case_if; [by apply quiet_refl|].
  by apply quiet_release.
Qed.

Lemma quiet_ref own s o : vm_inv s own → quiet own s (vm_object_ref s o).
Proof. intros Hinv. unfold vm_object_ref. case_if; [by apply quiet_refl|by apply quiet_objects]. Qed.

(** ** Unmapping a range *)

(** The code takes a page for present when its frame address is not 0. *)
Definition frame_of (s : vm_state) (r va : Z) : Z := page_mask (translate (paging s) r va).

Lemma frame_same own s s' r va : quiet own s s' → frame_of s' r va = frame_of s r va.
Proof. intros [_ T]. unfold frame_of. by rewrite (translate_same s s'). Qed.

(** [s'] differs from [s] in the pages [P] of address space [r], which it
    does not map. *)
Definition unmapped (own : gmap Z node) (r : Z) (P : Z → Prop) (s s' : vm_state) : Prop :=
  vm_inv s' own ∧ current_pml4_phys (paging s') = current_pml4_phys (paging s)
  ∧ (∀ va, user_page va → P va → frame_of s' r va = 0)
  ∧ ∀ r' va, is_root own r' → user_page va → r' ≠ r ∨ ¬ P va →
      same_page (paging s) (paging s') r' va.

Lemma unmapped_quiet own r P s1 s2 s3 :
  unmapped own r P s1 s2 → quiet own s2 s3 → unmapped own r P s1 s3.
Proof.
  intros (? & Hc & Hz & Hk) Hq. split_and!; [apply Hq|by rewrite (proj2 (proj2 Hq))| |].
  - intros va Hu Hp. rewrite (frame_same own s2 s3) by done. by apply Hz.
  - intros r' va ? ? ?. eapply same_page_trans; [by apply Hk|]. by apply same_tables_page, Hq.
Qed.

Lemma quiet_unmapped own r (P : Z → Prop) s1 s2 s3 :
  quiet own s1 s2 → unmapped own r P s2 s3 → unmapped own r P s1 s3.
Proof.
  intros Hq (? & Hc & Hz & Hk). split_and!; [done|by rewrite Hc, (proj2 (proj2 Hq))|done|].
  intros r' va ? ? ?. eapply same_page_trans; [|by apply Hk]. by apply same_tables_page, Hq.
Qed.

Lemma unmapped_refl own r (P : Z → Prop) s : vm_inv s own → (∀ va, ¬ P va) → unmapped own r P s s.
Proof. intros ? Hn. split_and!; try done. intros va _ Hp. by apply Hn in Hp. Qed.

Lemma unmapped_trans own r (P Q : Z → Prop) s1 s2 s3 :
  is_root own r → (∀ va, Decision (Q va)) →
  unmapped own r P s1 s2 → unmapped own r Q s2 s3 → unmapped own r (λ va, P va ∨ Q va) s1 s3.
Proof.
  intros Hr Hdec (_ & C1 & Z1 & K1) (I2 & C2 & Z2 & K2). split_and!; [done|congruence| |].
  - intros va Hu Hpq. destruct (decide (Q va)) as [Hq|Hq]; [by apply Z2|].
    unfold frame_of. rewrite (proj1 (K2 r va Hr Hu (or_intror Hq))). apply Z1; [done|]. tauto.
  - intros r' va Hr' Hu Hn. eapply same_page_trans; [apply K1|apply K2]; done || tauto.
Qed.

Lemma unmapped_ext own r (P Q : Z → Prop) s s' :
  (∀ va, user_page va → P va ↔ Q va) → unmapped own r P s s' → unmapped own r Q s s'.
Proof.
  intros He (I & C & Z1 & K). split_and!; [done|done| |].
  - intros va Hu Hq. apply Z1; [done|]. by apply He.
  - intros r' va Hr Hu Hn. apply K; [done|done|]. rewrite He by done. done.
Qed.

Lemma user_indices a b : user_page a → user_page b → indices a = indices b → a = b.
Proof.
  intros [Ha Ma] [Hb Mb] Hi. change (2 ^ 47) with 140737488355328 in *.
  assert (a / 4096 = b / 4096) by (apply indices_inj; change (2 ^ 48) with 281474976710656; done || lia).
  Z.to_euclidean_division_equations; lia.
Qed.

Lemma unmap_keeps_pmm p r va :
  pg_pmm (paging_unmap_page_pml4 p r va).2 = pg_pmm p
  ∧ current_pml4_phys (paging_unmap_page_pml4 p r va).2 = current_pml4_phys p.
Proof. unfold paging_unmap_page_pml4, unmap_in. by repeat (case_if || case_match). Qed.

(** One round of the unmapping loop. *)
Lemma unmap_one own s r va :
  vm_inv s own → is_root own r → user_page va →
  unmapped own r (λ a, a = va) s
    (let phys := page_mask (paging_get_physical_pml4 (paging s) r va) in
     if negb (phys =? 0) then
       let s := s <| paging ::= λ p, (paging_unmap_page_pml4 p r va).2 |> in
       (vm_page_ref_release s phys).2
     else s).
Proof.
  intros Hinv Hr Hu. unfold paging_get_physical_pml4. rewrite (proj2 (Z.eqb_neq r 0)) by apply Hr.
  cbv zeta. case_if; bool_hyps.
  2: { split_and!; try done. by intros a _ ->. }
  pose proof (unmap_result (paging s) own r va (vi_pt _ _ Hinv) Hr Hu) as Hun.
  pose proof (unmap_keeps_pmm (paging s) r va) as [Hpm Hcu].
  set (s1 := s <| paging ::= _ |>). assert (paging s1 = (paging_unmap_page_pml4 (paging s) r va).2) as E1 by done.
  destruct (paging_unmap_page_pml4 (paging s) r va) as [rc p]. cbn [snd] in *. destruct Hun as (Hp & Hz & Hk).
  assert (vm_inv s1 own) as I1.
  { split; [by rewrite E1|apply Hinv|]. rewrite E1, Hpm. apply Hinv. }
  eapply unmapped_quiet; [|by apply quiet_release]. split_and!; [done|by rewrite E1| |].
  - intros a _ ->. unfold frame_of. by rewrite E1, Hz.
  - intros r' a Hr' Ha Hn. rewrite E1. apply Hk; [done|]. destruct Hn as [?|Hn]; [by left|right].
    intros Hi. by apply Hn, user_indices.
Qed.

Lemma unmap_range_result own s r rs re :
  vm_inv s own → is_root own r → Forall user_page (page_addrs rs re) →
  unmapped own r (λ va, va ∈ page_addrs rs re) s (unmap_range s r rs re).
Proof.
  unfold unmap_range. intros Hinv Hr. revert s Hinv.
  induction (page_addrs rs re) as [|va l IH]; intros s Hinv Hu.
  { apply unmapped_refl; [done|]. intros va Hva. by apply elem_of_nil in Hva. }
  apply Forall_cons in Hu as [Hu Hl]. cbn [foldl].
  pose proof (unmap_one own s r va Hinv Hr Hu) as H1.
  eapply unmapped_ext; [|eapply (unmapped_trans own r (λ a, a = va) (λ a, a ∈ l)); [done|..|exact H1|]].
  - intros a _. cbn. by rewrite elem_of_cons.
  - apply _.
  - apply IH; [apply H1|done].
Qed.

(** ** Removal of a range of the map *)
Lemma page_addrs_in rs re va :
  rs mod 4096 = 0 → va ∈ page_addrs rs re ↔ rs ≤ va < re ∧ va mod 4096 = 0.
Proof.
  intros Hm. unfold page_addrs, PAGE_SIZE. rewrite list_elem_of_fmap. setoid_rewrite elem_of_seqZ. split.
  - intros (k & -> & Hk). Z.to_euclidean_division_equations; lia.
  - intros [Hva Hm']. exists ((va - rs) / 4096). Z.to_euclidean_division_equations; lia.
Qed.

Lemma user_page_range va : VM_USER_MIN ≤ va < VM_USER_MAX → va mod 4096 = 0 → user_page va.
Proof.
  unfold VM_USER_MIN, VM_USER_MAX. intros ? ?. split; [|done]. change (2 ^ 47) with 140737488355328. lia.
Qed.

Lemma remove_loop_state own s r lo hi removed pre rest :
  vm_inv s own → is_root own r → lo < hi → lo mod 4096 = 0 → hi mod 4096 = 0 →
  Forall entry_ok rest → disjoint_entries rest →
  unmapped own r (λ va, lo ≤ va < hi ∧ ∃ e, e ∈ rest ∧ holds_addr e va) s
    (remove_loop s lo hi r r removed pre rest).2.
Proof.
  intros Hinv Hr Hlt Hlo Hhi. revert s Hinv removed pre.
  induction rest as [|e rest IH]; intros s Hinv removed pre Hok Hd; cbn -[VM_MAP_MAX_ENTRIES].
  { apply unmapped_refl; [done|]. intros va (_ & e & He & _). by apply elem_of_nil in He. }
  apply Forall_cons in Hok as [[(B1 & B2 & B3 & B4 & B5) _] Hok]. destruct Hd as [Hap Hd].
  rewrite Forall_forall in Hap.
  set (rs := if e_start e <? lo then lo else e_start e). set (re := if hi <? e_end e then hi else e_end e).
  assert (rs = Z.max lo (e_start e) ∧ re = Z.min hi (e_end e)) as [Ers Ere]
    by (unfold rs, re; split; case_if; bool_hyps; lia).
  assert (rs mod 4096 = 0) as Hrm by (unfold rs; by case_if).
  destruct (re <=? rs) eqn:Ecmp; bool_hyps.
  { eapply unmapped_ext; [|by apply IH]. intros va _. unfold holds_addr. cbn. split.
    - intros (? & f & ? & ?). split; [done|]. exists f. split; [solve_in|done].
    - intros (? & f & [->|Hf]%elem_of_cons & ?); [lia|]. split; [done|]. by exists f. }
  rewrite Z.eqb_refl. set (s1 := unmap_range s r rs re).
  assert (unmapped own r (λ va, lo ≤ va < hi ∧ holds_addr e va) s s1) as H1.
  { eapply unmapped_ext; [|apply unmap_range_result; [done|done|]].
    - intros va [_ Hm]. rewrite page_addrs_in by done. unfold holds_addr. cbn. lia.
    - apply Forall_forall. intros va [Hva Hm]%page_addrs_in; [|done]. apply user_page_range; [lia|done]. }
  assert (∀ s2 pre', quiet own s1 s2 →
    unmapped own r (λ va, lo ≤ va < hi ∧ ∃ f, f ∈ e :: rest ∧ holds_addr f va) s
      (remove_loop s2 lo hi r r true pre' rest).2) as Hgo.
  { intros s2 pre' Hq. pose proof (IH s2 ltac:(apply Hq) true pre' Hok Hd) as H2.
    eapply unmapped_ext; [|eapply unmapped_trans; [done| |exact (unmapped_quiet _ _ _ _ _ _ H1 Hq)|exact H2]].
    - intros va _. cbn. setoid_rewrite elem_of_cons. naive_solver.
    - intros va. apply and_dec; [apply _|].
      refine (cast_if (decide (Exists (λ f, e_start f ≤ va < e_end f) rest)));
        setoid_rewrite <- (Exists_exists (λ f, holds_addr f va)); done. }
  case_if; [apply Hgo; case_if; [by apply quiet_unref, H1|by apply quiet_refl, H1]|].
  case_if; [by apply Hgo, quiet_refl, H1|].
  case_if; [by apply Hgo, quiet_refl, H1|].
  case_if; [|apply Hgo; case_if; [by apply quiet_ref, H1|by apply quiet_refl, H1]].
  eapply unmapped_ext; [|exact H1]. intros va _. cbn. setoid_rewrite elem_of_cons. split; [naive_solver|].
  intros (? & f & [->|Hf] & Ha); [done|]. exfalso. specialize (Hap f Hf). bool_hyps.
  unfold apart, holds_addr in *. lia.
Qed.

End VmInv.

(** * munmap, exit and brk on translations

    The operations that take mappings away, on the invariant [vm_inv]: the
    map of the task and the translations of every address space change
    together, and tearing a task down ends with nothing mapped. *)
Module VmTasks.
Import Pmm PmmFacts PmmInit Paging PagingFacts PagingProofs Vm VmMap VmFacts VmProofs VmInv.

(** The addresses of [lo, hi) that the map describes. *)
Definition mapped_in (l : list vm_map_entry_t) (lo hi va : Z) : Prop := lo ≤ va < hi ∧ view l va ≠ None.

Lemma view_some l va : view l va ≠ None ↔ ∃ e, e ∈ l ∧ holds_addr e va.
Proof.
  split.
  - unfold view. destruct (vm_map_lookup l va) as [e|] eqn:E; [|done]. intros _. exists e.
    by apply lookup_some.
  - intros (e & He & Ha) Hn. by apply (proj1 (view_none l va) Hn e He).
Qed.

Lemma vm_map_remove_state own s m start len :
  vm_inv s own → map_ok (entries m) → is_root own (pml4_phys m) → in_u64 start →
  unmapped own (pml4_phys m) (mapped_in (entries m) (map_lo start) (map_hi start len)) s
    (vm_map_remove s m start len (pml4_phys m)).2
  ∨ vm_map_remove s m start len (pml4_phys m) = (RDNX_E_INVALID, m, s).
Proof.
  intros Hinv (Hok & Hd & _) Hr Hs. unfold vm_map_remove. fold (map_lo start) (map_hi start len).
  case_if; [by right|left]. bool_hyps.
  pose proof (align_down_mod start Hs : map_lo start mod 4096 = 0 ∧ _) as [Lm _].
  pose proof (align_up_mod (start +₆₄ len) : map_hi start len mod 4096 = 0 ∧ _) as [Hm _].
  pose proof (remove_loop_state own s (pml4_phys m) (map_lo start) (map_hi start len) false [] (entries m)
    Hinv Hr ltac:(lia) Lm Hm Hok Hd) as Hrm.
  destruct (remove_loop _ _ _ _ _ _ _ _) as [[rc l] s']. cbn [snd] in *.
  eapply unmapped_ext; [|exact Hrm]. intros va _. cbn. unfold mapped_in. by rewrite view_some.
Qed.

(** C23. [munmap] takes the interval, rounded to pages, out of the map and out of
    the address space, and changes no other translation in any address
    space.  It fails on an empty interval; when it would have to split an
    entry of a full map it returns [RDNX_E_BUSY] with the map unchanged but
    with the pages already unmapped. *)
Theorem vm_task_munmap_correct own s t m addr len :
  vm_inv s own → t_map t = Some m → map_ok (entries m) → pml4_phys m = address_space t →
  is_root own (address_space t) → in_u64 addr →
  let lo := map_lo addr in let hi := map_hi addr len in
  let '(rc, t', s') := vm_task_munmap s t addr len in
  (rc = RDNX_E_INVALID ∧ (len = 0 ∨ hi ≤ lo) ∧ t' = t ∧ s' = s)
  ∨ ∃ m', t' = t <| t_map := Some m' |> ∧ map_ok (entries m') ∧ pml4_phys m' = pml4_phys m
      ∧ unmapped own (address_space t) (mapped_in (entries m) lo hi) s s'
      ∧ ((rc = RDNX_E_BUSY ∧ Z.of_nat (length (entries m)) = VM_MAP_MAX_ENTRIES ∧ m' = m)
         ∨ (removed_from (entries m) (entries m') lo hi
            ∧ ((rc = RDNX_OK ∧ ∃ a, mapped_in (entries m) lo hi a)
               ∨ (rc = RDNX_E_NOTFOUND ∧ ∀ a, lo ≤ a < hi → view (entries m) a = None)))).
Proof.
  intros Hinv Ht Hok Hp Hr Ha lo hi. unfold vm_task_munmap. rewrite Ht.
  rewrite (proj2 (Z.eqb_neq (address_space t) 0)) by apply Hr. rewrite <- Hp in *.
  pose proof (vm_map_remove_state own s m addr len Hinv Hok Hr Ha) as Hst.
  pose proof (vm_map_remove_result s m addr len (pml4_phys m) Hok Ha) as Hres. cbv zeta in Hres.
  fold lo hi in Hst, Hres.
  destruct (vm_map_remove s m addr len (pml4_phys m)) as [[rc m'] s']. cbn [snd] in Hst.
  assert (t <| t_map := Some m |> = t) as Et by (destruct t; cbn in *; by rewrite Ht).
  destruct Hres as (Hok' & Hp' & Hc). destruct Hst as [Hst|Hst].
  - destruct Hc as [(-> & ? & -> & ->)|[(-> & ? & _ & ->)|(_ & Hrem & Hc)]]; [left; by rewrite Et|right|right].
    + exists m. split_and!; try done. by left.
    + exists m'. split_and!; try done. right. split; [done|]. destruct Hc as [[? ?]|?]; [left|right]; done.
  - injection Hst as -> -> ->. left. rewrite Et.
    destruct Hc as [(_ & ? & _)|[(? & _)|(_ & _ & [[? _]|[? _]])]]; done.
Qed.

(** ** Tearing a task down *)
Lemma trim_apart lo hi f : e_end f ≤ lo ∨ hi ≤ e_start f → trim lo hi f = [f].
Proof.
  intros H. unfold trim.
  replace ((e_end f <=? lo) || (hi <=? e_start f)) with true; [done|].
  symmetry. apply orb_true_iff. rewrite !Z.leb_le. lia.
Qed.

Lemma trim_bind_apart e l : Forall (apart e) l → l ≫= trim (e_start e) (e_end e) = l.
Proof.
  induction 1 as [|f l Hf _ IH]; [done|]. csimpl. rewrite IH, trim_apart; [done|].
  destruct Hf; [right|left]; lia.
Qed.

Lemma entry_bounds e :
  entry_ok e → map_lo (e_start e) = e_start e
  ∧ map_hi (e_start e) (e_end e -₆₄ e_start e) = e_end e ∧ e_end e -₆₄ e_start e ≠ 0 ∧ in_u64 (e_start e).
Proof.
  intros [(B1 & B2 & B3 & B4 & B5) _]. unfold VM_USER_MIN, VM_USER_MAX in *.
  unfold map_lo, map_hi, vm_align_down, vm_align_up. word_simp. rewrite Zplus_minus. word_simp.
  rewrite align_down_eq, align_up_eq by lia. split_and!; try lia. Z.to_euclidean_division_equations; lia.
Qed.

(** Removing the interval of the first entry removes that entry. *)
Lemma remove_first s m e l pml4 :
  map_ok (entries m) → entries m = e :: l →
  (vm_map_remove s m (e_start e) (e_end e -₆₄ e_start e) pml4).1 = (RDNX_OK, m <| entries := l |>).
Proof.
  intros (Hok & Hd & _) El. rewrite El in *. pose proof Hok as [He Hl]%Forall_cons.
  destruct (entry_bounds e He) as (Elo & Ehi & Hn & _). destruct He as [(B1 & B2 & _) _].
  unfold vm_map_remove. fold (map_lo (e_start e)) (map_hi (e_start e) (e_end e -₆₄ e_start e)).
  rewrite Elo, Ehi, (proj2 (Z.eqb_neq _ 0)), (proj2 (Z.leb_gt _ _)) by (done || lia). cbn [orb]. rewrite El.
  assert (vm_map_overlap (e :: l) (e_start e) (e_end e) = true) as Hov.
  { apply overlap_spec; [done|lia|]. exists e. split; [solve_in|lia]. }
  destruct (remove_loop_spec (e_start e) (e_end e) pml4 (pml4_phys m) s false [] (e :: l) B2 Hok Hd)
    as [[E _]|(_ & _ & f & Hf & Hs)].
  - rewrite Hov in E. destruct (remove_loop _ _ _ _ _ _ _ _) as [[rc l'] s']. cbn [fst] in *.
    injection E as -> ->. cbn [orb app]. csimpl. rewrite trim_bind_apart by apply Hd.
    unfold trim. rewrite !(proj2 (Z.leb_gt _ _)), !Z.ltb_irrefl by lia. done.
  - exfalso. destruct Hs. apply elem_of_cons in Hf as [->|Hf]; [lia|].
    pose proof (proj1 (Forall_forall _ _) (proj1 Hd) f Hf) as Ha. unfold apart in Ha. lia.
Qed.

Lemma destroy_loop_result own fuel s m :
  vm_inv s own → map_ok (entries m) → is_root own (pml4_phys m) → (length (entries m) ≤ fuel)%nat →
  ∃ m' s', destroy_loop fuel s m (pml4_phys m) = Some (m', s') ∧ entries m' = []
    ∧ unmapped own (pml4_phys m) (λ va, view (entries m) va ≠ None) s s'.
Proof.
  revert s m. induction fuel as [|fuel IH]; intros s m Hinv Hok Hr Hf.
  { destruct (entries m) eqn:E; [|cbn in Hf; lia]. exists m, s. cbn. rewrite E. split_and!; try done. }
  cbn. destruct (entries m) as [|e l] eqn:E.
  { exists m, s. split_and!; try done. }
  pose proof (remove_first s m e l (pml4_phys m) ltac:(by rewrite E) E) as H1.
  destruct (entry_bounds e (proj1 (proj1 (Forall_cons _ _ _) (proj1 Hok)))) as (Elo & Ehi & Hn & Hu).
  pose proof (vm_map_remove_state own s m (e_start e) (e_end e -₆₄ e_start e) Hinv
    ltac:(by rewrite E) Hr Hu) as H2.
  rewrite Elo, Ehi in H2. destruct (vm_map_remove _ _ _ _ _) as [[rc m1] s1]. cbn [fst snd] in *.
  injection H1 as -> ->. destruct H2 as [H2|H2]; [|done].
  destruct (IH s1 (m <| entries := l |>)) as (m' & s' & Hd & He & Hun); try done.
  - apply H2.
  - destruct Hok as (? & [? ?] & Hlen). split_and!; [by eapply Forall_cons|done|cbn in *; lia].
  - cbn in *. lia.
  - exists m', s'. split_and!; [done|done|].
    eapply unmapped_ext; [|eapply (unmapped_trans _ _ _ (λ va, view l va ≠ None)); [done|apply _|exact H2|exact Hun]].
    intros va _. cbv beta. unfold mapped_in. rewrite E, view_cons. destruct Hok as (Hk & _ & _).
    apply Forall_cons in Hk as [[(? & ? & _) _] _]. unfold holds_addr. case_decide; intuition congruence.
Qed.

(** [vm_task_destroy] ends after at most as many rounds as the map has
    entries, leaves the task without a map and no address the map described
    translated; no other address space is affected. *)
Theorem vm_task_destroy_terminates own s t m fuel :
  vm_inv s own → t_map t = Some m → map_ok (entries m) → pml4_phys m = address_space t →
  is_root own (address_space t) → (length (entries m) ≤ fuel)%nat →
  ∃ s', vm_task_destroy fuel s t = Some (mk_task None (address_space t) 0 0 0 0, s')
    ∧ unmapped own (address_space t) (λ va, view (entries m) va ≠ None) s s'.
Proof.
  intros Hinv Ht Hok Hp Hr Hf. unfold vm_task_destroy. rewrite Ht. rewrite <- Hp in *.
  destruct (destroy_loop_result own fuel s m Hinv Hok Hr Hf) as (m' & s' & -> & He & Hun).
  exists s'. split; [|done]. unfold vm_map_destroy. rewrite He. cbn. unfold field_update. cbn. by rewrite Hp.
Qed.

End VmTasks.
