(* ===== verification/VmFault.v ===== *)
(** * The page-fault handler (kernel/vm/vm_fault.c)

    A fault that the handler accepts ends with the page mapped with the
    permissions of its map entry, on a frame that is either new, zeroed and
    filled from the file, or the page that the memory object already has, or
    a copy of the shared page; a fault that it rejects changes no
    translation. *)

From stdpp Require Import base gmap list numbers fin_maps.
From S2P Require Import Prelude Pmm PmmFacts PmmInit Paging PagingFacts PagingProofs Vm VmMap VmFacts VmInv.

Module VmFault.
Import Pmm PmmFacts PmmInit Paging PagingFacts PagingProofs Vm VmMap VmFacts VmProofs VmInv VmTasks.

(** ** Frames *)
Definition limit_ok (s : vm_state) : Prop := memory_end (pg_pmm (paging s)) ≤ 2 ^ 52.

Lemma limit_geometry s s' :
  vm_inv s ∅ ∨ pmm_inv (pg_pmm (paging s)) → pmm_inv (pg_pmm (paging s')) →
  same_geometry (pg_pmm (paging s)) (pg_pmm (paging s')) → limit_ok s → limit_ok s'.
Proof.
  intros Hi Hi' (Gt & Gm & _) Hl. assert (pmm_inv (pg_pmm (paging s))) as Hp by (destruct Hi as [[[]]|]; done).
  unfold limit_ok in *. rewrite (inv_end _ Hi'), Gt, Gm, <- (inv_end _ Hp). done.
Qed.

Lemma frame_used_facts s f :
  pmm_inv (pg_pmm (paging s)) → limit_ok s → frame_used (pg_pmm (paging s)) f →
  f mod 4096 = 0 ∧ 0 < f < 2 ^ 52.
Proof.
  intros Hp Hl (i & Hi & -> & _). unfold limit_ok in Hl. rewrite index_to_page_eq by done.
  destruct (inv_start _ Hp) as [? ?]. rewrite (inv_end _ Hp) in Hl.
  split; [rewrite Z.mul_comm, Z.mod_add by lia; done|lia].
Qed.

(** ** Mapping a used frame *)
Lemma vm_map_step own s r va f flags :
  vm_inv s own → is_root own r → user_page va → frame_used (pg_pmm (paging s)) f → limit_ok s →
  has_flag flags PTE_PRESENT = true →
  let '(rc, p) := paging_map_page_4kb_pml4 (paging s) r va f flags in
  ∃ own', own ⊆ own' ∧ vm_inv (s <| paging := p |>) own' ∧ map_frame (paging s) own p own'
    ∧ ((rc = 0 ∧ mapped_only (paging s) p own r va f flags)
       ∨ (rc = RDNX_E_GENERIC ∧ ∀ r' a, is_root own r' → same_page (paging s) p r' a)).
Proof.
  intros Hinv Hr Hu Hf Hl Hfl. pose proof (pi_pmm _ _ (vi_pt _ _ Hinv)) as Hp.
  destruct (frame_used_facts s f Hp Hl Hf) as [Hm Hb].
  pose proof (map_result (paging s) own r va f flags (vi_pt _ _ Hinv) Hr Hu Hm ltac:(lia) Hfl) as Hmap.
  destruct (paging_map_page_4kb_pml4 (paging s) r va f flags) as [rc p].
  destruct Hmap as (own' & Hsub & Hpt & Hfr & Hc). exists own'. split_and!; try done.
  split; [done|apply Hinv|]. intros g q Hg. destruct (vi_ref _ _ Hinv g q Hg) as (? & ? & Hno & Hug).
  destruct Hfr as ((_ & _ & Hgr) & _ & Hown). do 2 (split; [done|]). split; [by rewrite Hown|by apply Hgr].
Qed.

(** Where all tables of a page exist, a mapping cannot fail and allocates
    nothing. *)
Lemma map_present p r va f flags :
  r ≠ 0 → translate p r va ≠ 0 → va mod 4096 = 0 → f mod 4096 = 0 →
  let '(rc, p') := paging_map_page_4kb_pml4 p r va f flags in rc = 0 ∧ pg_pmm p' = pg_pmm p.
Proof.
  intros Hr Ht Hva Hf. unfold paging_map_page_4kb_pml4, PAGE_OFFSET_MASK.
  assert (∀ a, a mod 4096 = 0 → Z.land a 4095 = 0) as Hmask.
  { intros a Ha. change 4095 with (Z.ones 12). by rewrite Z.land_ones. }
  rewrite !Hmask by done. rewrite (proj2 (Z.eqb_neq r 0)) by done. cbn [Z.eqb negb orb].
  unfold translate, find_pd, paging_get_pdpt, paging_get_pd in Ht. unfold get_or_create.
  destruct (has_flag (entry p r _) PTE_PRESENT); cbn [negb] in *; [|done].
  destruct (has_flag (entry p _ (paging_get_pdpt_index va)) PTE_PRESENT); cbn [negb] in *; [|done].
  destruct (has_flag (entry p _ (paging_get_pd_index va)) PTE_PRESENT); cbn [negb] in *; done.
Qed.

(** ** The zero-fill pager *)
Lemma set_frame_step own s f c :
  vm_inv s own →
  quiet own s (set_frame f c s) ∧ (∀ g, refs (set_frame f c s) g = refs s g)
  ∧ (∀ g, frame_used (pg_pmm (paging (set_frame f c s))) g ↔ frame_used (pg_pmm (paging s)) g)
  ∧ frame (set_frame f c s) f = c ∧ limit_ok (set_frame f c s) = limit_ok s.
Proof.
  intros Hinv. split_and!; try done.
  - split; [|done]. destruct Hinv as [[Hp Hf Hu Hl Hs] Hk Hr]. split; try done.
    split; try done. by apply pmm_inv_mem.
  - unfold frame, set_frame, with_pmm. cbn. by rewrite lookup_insert_eq.
Qed.

Definition pager_spec (own : gmap Z node) (s s' : vm_state) (f : Z) : Prop :=
  quiet own s s' ∧ objects s' = objects s ∧ fbytes s' = fbytes s ∧ (limit_ok s → limit_ok s')
  ∧ (∀ g, g ≠ f → refs s' g = refs s g)
  ∧ (∀ g, frame_used (pg_pmm (paging s)) g → frame_used (pg_pmm (paging s')) g ∧ frame s' g = frame s g)
  ∧ (f ≠ 0 → frame_used (pg_pmm (paging s')) f ∧ ¬ frame_used (pg_pmm (paging s)) f ∧ own !! f = None
             ∧ refs s' f = 1 ∧ frame s' f = zero_page).

Lemma with_alloc own s p :
  vm_inv s own → pmm_grow (pg_pmm (paging s)) p → quiet own s (with_pmm (λ _, p) s).
Proof.
  intros Hinv (Hp & Hg & Hu). split; [|done]. split; [|apply Hinv|].
  - destruct Hinv as [Hpt _ _]. destruct Hpt as [Hpm Hf Hus Hl Hs]. split; try done.
    cbn. intros f n i Ho Hi E. destruct Hg as (Gt & Gm & _). unfold pmm_index_to_page in E.
    rewrite Gm in E. rewrite Gt in Hi. destruct (Hu f) as [(j & Hj & Ej & Hb) _].
    { exists i. split_and!; try done; try lia. by apply (Hus f n i). }
    rewrite Gt in Hj. rewrite index_to_page_eq in Ej by (done || by rewrite Gt).
    assert (f = pmm_index_to_page (pg_pmm (paging s)) i) as E' by done.
    rewrite index_to_page_eq in E' by done. rewrite Gm in Ej. by assert (i = j) as -> by lia.
  - cbn. intros f r Hf. destruct (vi_ref _ _ Hinv f r Hf) as (? & ? & ? & Hfu). do 3 (split; [done|]).
    by apply Hu.
Qed.

Lemma pager_result own s :
  vm_inv s own → let '(f, s') := vm_pager_alloc_zero_page s in pager_spec own s s' f.
Proof.
  intros Hinv. unfold vm_pager_alloc_zero_page. pose proof (pi_pmm _ _ (vi_pt _ _ Hinv)) as Hpm.
  pose proof (alloc_grow (pg_pmm (paging s)) PMM_ZONE_NORMAL Hpm ltac:(done)) as Ha.
  destruct (pmm_alloc_page_in_zone (pg_pmm (paging s)) PMM_ZONE_NORMAL) as [f p]. destruct Ha as [Hg Hf].
  pose proof (with_alloc own s p Hinv Hg) as Hq. set (s1 := with_pmm (λ _, p) s) in *.
  assert (limit_ok s → limit_ok s1) as Hl1.
  { apply limit_geometry; [by right|apply Hg|apply Hg]. }
  destruct (f =? 0) eqn:E0; bool_hyps.
  { split_and!; try done. intros g Hu. unfold frame. cbn. destruct (proj2 (proj2 Hg) g Hu) as [? ->]. done. }
  destruct (Hf E0) as (Hu & Hnu & Hm). destruct (set_frame_step own s1 f zero_page (proj1 Hq)) as (Q2 & R2 & U2 & F2 & L2).
  set (s2 := set_frame f zero_page s1) in *.
  assert (refs s f = 0) as R0.
  { apply (refs_none s own f Hinv). right. intros Hin. apply list_elem_of_fmap in Hin as ([f' r] & -> & Hin).
    by apply (vi_ref _ _ Hinv) in Hin as (_ & _ & _ & ?). }
  assert (own !! f = None) as Hno.
  { destruct (own !! f) as [n|] eqn:En; [|done]. exfalso. apply Hnu. destruct Hu as (i & Hi & Ei & _).
    destruct Hg as (_ & (Gt & Gm & _) & _). rewrite Gt in Hi.
    assert (f = pmm_index_to_page (pg_pmm (paging s)) i) as E' by (rewrite Ei; unfold pmm_index_to_page; by rewrite Gm).
    exists i. do 2 (split; [done|]). by apply (pi_used _ _ (vi_pt _ _ Hinv) f n i). }
  assert (refs s2 f = 0) as R0' by (rewrite R2; exact R0).
  pose proof (retain_result s2 own f (proj1 Q2) E0 Hno ltac:(by apply U2) ltac:(lia)) as Hret.
  destruct (vm_page_ref_add_new s2 f) as [rc s3]. cbn [snd].
  destruct Hret as (_ & I3 & (T3 & O3 & _ & B3 & _) & P3 & R3).
  split_and!; [|by rewrite O3|by rewrite B3| | | |].
  - eapply quiet_trans; [exact Hq|]. eapply quiet_trans; [exact Q2|done].
  - unfold limit_ok. rewrite P3. exact Hl1.
  - intros g Hgf. rewrite R3, decide_False by done. by rewrite R2.
  - intros g Hug. rewrite P3. split; [by apply U2, Hg|]. unfold frame. rewrite P3. unfold s2, set_frame, with_pmm. cbn.
    rewrite lookup_insert_ne by (intros <-; done). by destruct (proj2 (proj2 Hg) g Hug) as [_ ->].
  - intros _. rewrite P3. split_and!; [by apply U2|done|done|rewrite R3, decide_True by done; lia|].
    unfold frame. by rewrite P3.
Qed.

(** ** A page that has no frame *)

(** What the page of [va] holds when it is first read. *)
Definition page_source (s : vm_state) (e : vm_map_entry_t) (va : Z) : list Z :=
  let x := obj s (e_object e) in
  match (if e_object e =? 0 then None else pager_private x) with
  | Some fb =>
      let off := fb_file_offset fb +₆₄ e_offset e +₆₄ (va -₆₄ e_start e) in
      if bool_decide (o_type x = VM_OBJECT_FILE) && negb (fb_data fb =? 0) && (0 <? fb_size fb)
         && (off <? fb_size fb) then
        let n := Z.min VM_PAGE_SIZE (fb_size fb - off) in
        ((λ i, fbytes s !!! (fb_data fb + off + i)) <$> seqZ 0 n) ++ replicate (4096 - Z.to_nat n) 0
      else zero_page
  | None => zero_page
  end.

Lemma fill_step own s e va f :
  vm_inv s own → frame s f = zero_page →
  let s' := fault_fill s e va f in
  quiet own s s' ∧ (∀ g, refs s' g = refs s g) ∧ objects s' = objects s
  ∧ (∀ g, frame_used (pg_pmm (paging s')) g ↔ frame_used (pg_pmm (paging s)) g)
  ∧ (limit_ok s → limit_ok s') ∧ frame s' f = page_source s e va.
Proof.
  intros Hinv Hz. unfold fault_fill, page_source. destruct (e_object e =? 0); [done|].
  destruct (pager_private _) as [fb|]; [|done].
  destruct (bool_decide _ && _ && _); [|done]. cbn [andb]. cbv zeta.
  set (off := _ +₆₄ _ +₆₄ _). destruct (off <? fb_size fb) eqn:Eo; [|done]. bool_hyps.
  assert ((if VM_PAGE_SIZE <? fb_size fb - off then VM_PAGE_SIZE else fb_size fb - off)
    = Z.min VM_PAGE_SIZE (fb_size fb - off)) as -> by (case_if; bool_hyps; lia).
  match goal with |- context [set_frame f ?c s] => destruct (set_frame_step own s f c Hinv) as (Q & R & U & F & L) end.
  split_and!; try done. rewrite F, Hz. f_equal. unfold zero_page. apply drop_replicate.
Qed.

Lemma set_resident_step own s o idx f :
  vm_inv s own → f ≠ 0 → own !! f = None → frame_used (pg_pmm (paging s)) f → refs s f < 4294967295 →
  vm_object_get_resident_page s o idx = 0 →
  let s' := (vm_object_set_resident_page s o idx f).2 in
  quiet own s s' ∧ pg_pmm (paging s') = pg_pmm (paging s).
Proof.
  intros Hinv Hf Hno Hu Hmax Hget. unfold vm_object_get_resident_page, vm_object_set_resident_page in *.
  rewrite (proj2 (Z.eqb_neq f 0)), orb_false_r by done.
  destruct ((o =? 0) || _); [done|]. rewrite Hget, (proj2 (Z.eqb_neq 0 f)) by done. cbn [Z.eqb negb].
  pose proof (retain_result s own f Hinv Hf Hno Hu Hmax) as Hret. unfold vm_page_ref_retain.
  destruct (vm_page_ref_add_new s f) as [rc s1]. destruct Hret as (_ & I1 & [T1 _] & P1 & _). cbn [snd].
  split; [|by rewrite <- P1]. eapply quiet_trans; [split; [exact I1|exact T1]|]. by apply quiet_objects.
Qed.

(** The page of the memory object behind [va], 0 when it has none. *)
Definition resident_of (s : vm_state) (e : vm_map_entry_t) (va : Z) : Z :=
  if e_object e =? 0 then 0
  else vm_object_get_resident_page s (e_object e) ((e_offset e +₆₄ (va -₆₄ e_start e)) / VM_PAGE_SIZE).

Definition mapped_result (own : gmap Z node) (s s' : vm_state) (r va f flags rc : Z) : Prop :=
  ∃ own', own ⊆ own' ∧ vm_inv s' own'
    ∧ ((rc = RDNX_OK ∧ mapped_only (paging s) (paging s') own r va f flags)
       ∨ (rc ≠ RDNX_OK ∧ ∀ r' a, is_root own r' → same_page (paging s) (paging s') r' a)).

(** The mapping at the end of the handler, on a state whose tables are those
    of [s]. *)
Lemma map_after own s s1 r va f flags :
  quiet own s s1 → is_root own r → user_page va → frame_used (pg_pmm (paging s1)) f → limit_ok s1 →
  has_flag flags PTE_PRESENT = true →
  let '(rc, p) := paging_map_page_4kb_pml4 (paging s1) r va f flags in
  mapped_result own s (s1 <| paging := p |>) r va f flags rc
  ∧ frame (s1 <| paging := p |>) f = frame s1 f.
Proof.
  intros [Hinv Ht] Hr Hu Hf Hl Hfl. pose proof (vm_map_step own s1 r va f flags Hinv Hr Hu Hf Hl Hfl) as Hm.
  destruct (paging_map_page_4kb_pml4 (paging s1) r va f flags) as [rc p].
  destruct Hm as (own' & Hsub & I & ((_ & _ & Hg) & _) & Hc). split.
  - exists own'. split_and!; try done. destruct Hc as [(-> & M1 & M2 & M3)|[-> Hk]]; [left|right]; (split; [done|]).
    + split_and!; try done. intros r' a ? ?. eapply same_page_trans; [|by apply M3]. by apply same_tables_page.
    + intros r' a ?. eapply same_page_trans; [|by apply Hk]. by apply same_tables_page.
  - unfold frame. cbn. by destruct (Hg f Hf) as [_ ->].
Qed.

Definition countable (own : gmap Z node) (s : vm_state) (f : Z) : Prop :=
  frame_used (pg_pmm (paging s)) f ∧ own !! f = None ∧ refs s f < 4294967295.

Lemma pte_present prot : has_flag (vm_pte_flags_from_prot prot) PTE_PRESENT = true.
Proof. unfold vm_pte_flags_from_prot. by repeat case_if. Qed.

(** A new page: filled and entered in the memory object. *)
Lemma fresh_step own s s1 e va f :
  pager_spec own s s1 f → f ≠ 0 → limit_ok s → resident_of s e va = 0 →
  let s2 := fault_fill s1 e va f in
  let s3 := if negb (e_object e =? 0)
            then (vm_object_set_resident_page s2 (e_object e)
                    ((e_offset e +₆₄ (va -₆₄ e_start e)) / VM_PAGE_SIZE) f).2
            else s2 in
  quiet own s s3 ∧ frame_used (pg_pmm (paging s3)) f ∧ limit_ok s3 ∧ frame s3 f = page_source s e va.
Proof.
  intros (Q1 & O1 & B1 & L1 & R1 & U1 & F1) Ef Hl E0 s2 s3. destruct (F1 Ef) as (Fu & Fn & Fo & Fr & Fz).
  destruct (fill_step own s1 e va f (proj1 Q1) Fz) as (Q2 & R2 & O2 & U2 & L2 & C2). fold s2 in Q2, R2, O2, U2, L2, C2.
  assert (page_source s1 e va = page_source s e va) as Eps by (unfold page_source, obj; by rewrite O1, B1).
  assert (quiet own s2 s3 ∧ pg_pmm (paging s3) = pg_pmm (paging s2)) as [Q3 P3].
  { unfold s3. destruct (e_object e =? 0) eqn:Eo; [by split; [apply quiet_refl, Q2|]|]. cbn [negb].
    apply set_resident_step; try done.
    - apply Q2.
    - by apply U2.
    - rewrite R2, Fr. lia.
    - unfold vm_object_get_resident_page, obj. rewrite O2, O1. unfold resident_of in E0. by rewrite Eo in E0. }
  split_and!.
  - eapply quiet_trans; [exact Q1|]. by eapply quiet_trans.
  - rewrite P3. by apply U2.
  - unfold limit_ok. rewrite P3. by apply L2, L1.
  - rewrite <- Eps, <- C2. unfold frame. by rewrite P3.
Qed.

Lemma fault_missing_result own s t e va :
  vm_inv s own → is_root own (address_space t) → user_page va → limit_ok s →
  (resident_of s e va ≠ 0 → countable own s (resident_of s e va)) →
  let '(rc, s') := fault_missing s t e va in
  ∃ f, mapped_result own s s' (address_space t) va f (vm_pte_flags_from_prot (e_prot e)) rc
    ∧ (rc = RDNX_OK → if decide (resident_of s e va = 0)
                      then ¬ frame_used (pg_pmm (paging s)) f ∧ frame s' f = page_source s e va
                      else f = resident_of s e va).
Proof.
  intros Hinv Hr Hu Hl Hres. unfold fault_missing.
  replace (if negb (e_object e =? 0) then _ else 0) with (resident_of s e va)
    by (unfold resident_of; by destruct (e_object e =? 0)).
  set (rp := resident_of s e va) in *. destruct (decide (rp = 0)) as [E0|E0].
  - rewrite E0. cbn [Z.eqb negb]. pose proof (pager_result own s Hinv) as Hp.
    destruct (vm_pager_alloc_zero_page s) as [f s1]. destruct Hp as (Q1 & O1 & B1 & L1 & R1 & U1 & F1).
    destruct (f =? 0) eqn:Ef; bool_hyps.
    { cbn [Z.eqb]. exists 0. split; [|done]. exists own. split_and!; [done|apply Q1|]. right. split; [done|].
      intros. by apply same_tables_page, Q1. }
    destruct (F1 Ef) as (_ & Fn & _). cbv zeta. rewrite (proj2 (Z.eqb_neq f 0)) by done.
    destruct (fresh_step own s s1 e va f ltac:(done) Ef Hl E0) as (Q & Fu & L3 & C3).
    match goal with |- context [paging_map_page_4kb_pml4 (paging ?s3)] => set (s3' := s3) in * end.
    pose proof (map_after own s s3' (address_space t) va f (vm_pte_flags_from_prot (e_prot e))
      Q Hr Hu Fu L3 (pte_present _)) as Hm.
    destruct (paging_map_page_4kb_pml4 _ _ _ _ _) as [rc p]. destruct Hm as [Hm Hc].
    exists f. split; [done|]. intros _. split; [done|]. by rewrite Hc.
  - destruct (Hres E0) as (Fu & Fo & Fr). rewrite (proj2 (Z.eqb_neq rp 0)) by done. cbn [negb].
    pose proof (retain_result s own rp Hinv E0 Fo Fu Fr) as Hret. unfold vm_page_ref_retain.
    destruct (vm_page_ref_add_new s rp) as [rc1 s1]. destruct Hret as (_ & I1 & [T1 _] & P1 & _). cbn [snd].
    rewrite (proj2 (Z.eqb_neq rp 0)) by done.
    pose proof (map_after own s s1 (address_space t) va rp (vm_pte_flags_from_prot (e_prot e))
      ltac:(done) Hr Hu ltac:(by rewrite P1) ltac:(unfold limit_ok; by rewrite P1) (pte_present _)) as Hm.
    destruct (paging_map_page_4kb_pml4 _ _ _ _ _) as [rc p]. destruct Hm as [Hm _]. by exists rp.
Qed.

(** ** Copy on write *)
Lemma free_page_mem p f : mem (pmm_free_page p f) = mem p.
Proof.
  unfold pmm_free_page. cbv zeta. do 3 (case_if; try done).
  assert (∀ q z a b, mem (pmm_freelist_insert q z a b) = mem q) as Hi.
  { intros q z a b. unfold pmm_freelist_insert, pmm_freelist_append. cbv zeta.
    repeat case_if; try done. by destruct (range_merge_prev _ _). }
  rewrite Hi. by case_if.
Qed.

Lemma release_frame s f g : frame (vm_page_ref_release s f).2 g = frame s g.
Proof.
  unfold vm_page_ref_release. case_if; [done|]. destruct (ref_dec _ _) as [l [[]|]]; try done.
  unfold frame. cbn. by rewrite free_page_mem.
Qed.

Lemma fault_cow_result own s t e va :
  vm_inv s own → is_root own (address_space t) → user_page va → limit_ok s →
  let old := frame_of s (address_space t) va in
  old ≠ 0 → frame_used (pg_pmm (paging s)) old →
  let '(rc, s') := fault_cow s t e va old in
  ∃ f, mapped_result own s s' (address_space t) va f (vm_pte_flags_from_prot (e_prot e)) rc
    ∧ (rc = RDNX_OK → ¬ frame_used (pg_pmm (paging s)) f ∧ frame s' f = frame s old
                      ∧ refs s' old = Z.max 0 (refs s old - 1)).
Proof.
  intros Hinv Hr Hu Hl old Hold Hou. unfold fault_cow. pose proof (pager_result own s Hinv) as Hp.
  destruct (vm_pager_alloc_zero_page s) as [f s1]. destruct Hp as (Q1 & O1 & B1 & L1 & R1 & U1 & F1).
  destruct (f =? 0) eqn:Ef; bool_hyps.
  { exists 0. split; [|done]. exists own. split_and!; [done|apply Q1|]. right. split; [done|].
    intros. by apply same_tables_page, Q1. }
  destruct (F1 Ef) as (Fu & Fn & Fo & Fr & _).
  destruct (set_frame_step own s1 f (frame s1 old) (proj1 Q1)) as (Q2 & R2 & U2 & C2 & L2).
  set (s2 := set_frame f (frame s1 old) s1) in *.
  assert (quiet own s s2) as Q by (by eapply quiet_trans).
  assert (f ≠ old) as Hne by (by intros ->).
  pose proof (map_after own s s2 (address_space t) va f (vm_pte_flags_from_prot (e_prot e)) Q Hr Hu
    ltac:(by apply U2) ltac:(rewrite L2; by apply L1) (pte_present _)) as Hm.
  pose proof (map_present (paging s2) (address_space t) va f (vm_pte_flags_from_prot (e_prot e))
    (proj2 Hr)) as Hok.
  destruct (paging_map_page_4kb_pml4 (paging s2) _ _ _ _) as [rc p] eqn:Emap.
  cbv zeta. assert (p = (paging_map_page_4kb_pml4 (paging s2) (address_space t) va f
    (vm_pte_flags_from_prot (e_prot e))).2) as Ep by (by rewrite Emap).
  assert (s2 <| paging ::= λ p0, (paging_map_page_4kb_pml4 p0 (address_space t) va f
    (vm_pte_flags_from_prot (e_prot e))).2 |> = s2 <| paging := p |>) as ->
    by (by rewrite Ep).
  destruct Hok as [-> _].
  { rewrite (translate_same s s2) by apply Q. intros Hz. apply Hold. unfold old, frame_of. by rewrite Hz. }
  { apply Hu. }
  { apply (frame_used_facts s1 f); [apply Q1|by apply L1|done]. }
  destruct Hm as [(own' & Hsub & I3 & [[_ Hmap]|[? _]]) Hc]; [|done]. set (s3 := s2 <| paging := p |>) in *.
  pose proof (release_result s3 own' old I3) as Hrel. pose proof (release_frame s3 old f) as Hrf.
  destruct (vm_page_ref_release s3 old) as [rc4 s4]. cbn [snd] in *.
  destruct Hrel as [(I4 & (T4 & _) & R4 & _) _]. exists f. split.
  - exists own'. split_and!; try done. left. split; [done|]. destruct Hmap as (M1 & M2 & M3).
    split_and!.
    + by rewrite (translate_same s3 s4).
    + unfold leaf, find_pt, entry. by rewrite (proj1 T4).
    + intros r' a ? ?. eapply same_page_trans; [by apply M3|]. by apply same_tables_page.
  - intros _. split; [done|]. rewrite Hrf, Hc, C2. split; [by apply U1|].
    rewrite R4, decide_True by done. f_equal. f_equal. change (refs s3 old) with (refs s2 old). rewrite R2. by apply R1.
Qed.

(** ** The handler *)
Definition access_allowed (e : vm_map_entry_t) (err : Z) : Prop :=
  (has_flag err 16 = true → has_flag (e_prot e) VM_PROT_EXEC = true)
  ∧ (has_flag err 2 = true → has_flag (e_prot e) VM_PROT_WRITE = true)
  ∧ (has_flag err 2 = false → has_flag err 16 = false →
     has_flag (e_prot e) VM_PROT_READ = true ∨ has_flag (e_prot e) VM_PROT_WRITE = true).

(** How the page of [va] gets its frame [f]. *)
Definition frame_origin (s s' : vm_state) (r : Z) (e : vm_map_entry_t) (va err f : Z) : Prop :=
  if decide (frame_of s r va = 0) then
    if decide (resident_of s e va = 0)
    then ¬ frame_used (pg_pmm (paging s)) f ∧ frame s' f = page_source s e va
    else f = resident_of s e va
  else has_flag err 2 = true ∧ has_flag (e_flags e) VM_MAP_F_COW = true
       ∧ ¬ frame_used (pg_pmm (paging s)) f ∧ frame s' f = frame s (frame_of s r va)
       ∧ refs s' (frame_of s r va) = Z.max 0 (refs s (frame_of s r va) - 1).

Lemma rejected own s r va f flags rc :
  vm_inv s own → rc ≠ RDNX_OK → mapped_result own s s r va f flags rc.
Proof. intros Hinv Hrc. exists own. split_and!; [done|done|]. by right. Qed.

(** C3. An accepted fault of a running task is a user-mode access that the entry
    of the address allows; the page is then mapped with the permissions of
    the entry, on a new page with the initial content, on the page the
    memory object has, or on a private copy of a copy-on-write page, and no
    other translation changes.  A fault that is not accepted changes no
    translation at all. *)
Theorem vm_fault_handle_correct own s t m a err :
  vm_inv s own → t_map t = Some m → map_ok (entries m) → is_root own (address_space t) →
  current_pml4_phys (paging s) = address_space t → limit_ok s → in_u64 a →
  (∀ e va, e ∈ entries m → resident_of s e va ≠ 0 → countable own s (resident_of s e va)) →
  (∀ va, frame_of s (address_space t) va ≠ 0 → view (entries m) va ≠ None →
     frame_used (pg_pmm (paging s)) (frame_of s (address_space t) va)) →
  let va := page_mask a in
  let '(rc, s') := vm_fault_handle s t a err in
  ∃ e f, mapped_result own s s' (address_space t) va f (vm_pte_flags_from_prot (e_prot e)) rc
    ∧ (rc = RDNX_OK → has_flag err 4 = true ∧ vm_map_lookup (entries m) va = Some e
                      ∧ access_allowed e err ∧ frame_origin s s' (address_space t) e va err f).
Proof.
  intros Hinv Ht Hok Hr Hcur Hl Ha Hres Hpres va. unfold vm_fault_handle. rewrite Ht. fold va.
  rewrite (proj2 (Z.eqb_neq _ 0)) by apply Hr.
  set (e0 := mk_entry 0 0 0 0 0 0).
  assert (∀ rc, rc ≠ RDNX_OK → ∃ e f, mapped_result own s s (address_space t) va f
    (vm_pte_flags_from_prot (e_prot e)) rc ∧ (rc = RDNX_OK → has_flag err 4 = true
      ∧ vm_map_lookup (entries m) va = Some e ∧ access_allowed e err
      ∧ frame_origin s s (address_space t) e va err f)) as Hrej.
  { intros rc Hrc. exists e0, 0. split; [by apply rejected|done]. }
  case_if; [by apply Hrej|]. case_if; [by apply Hrej|].
  revert Hrej. destruct (vm_map_lookup (entries m) va) as [e|] eqn:Ee; intros Hrej; [|by apply Hrej].
  destruct (lookup_some _ _ _ Ee) as [He Hin].
  do 3 (case_if; [by apply Hrej|]).
  assert (access_allowed e err) as Hacc.
  { unfold access_allowed. destruct (has_flag err 16), (has_flag err 2), (has_flag (e_prot e) VM_PROT_EXEC),
      (has_flag (e_prot e) VM_PROT_WRITE), (has_flag (e_prot e) VM_PROT_READ); cbn in *; intuition. }
  assert (has_flag err 4 = true) as H4 by (unfold has_flag; by rewrite Eif).
  assert (user_page va) as Hu.
  { pose proof (proj1 (Forall_forall _ _) (proj1 Hok) e He) as [(? & ? & ? & _) _]. destruct Hin.
    apply user_page_range; [lia|]. by apply page_round_mod. }
  assert (page_mask (paging_get_physical (paging s) va) = frame_of s (address_space t) va) as ->.
  { unfold paging_get_physical, paging_get_pml4, frame_of. rewrite Hcur.
    by rewrite (proj2 (Z.eqb_neq _ 0)) by apply Hr. }
  destruct (decide (frame_of s (address_space t) va = 0)) as [E0|E0].
  - rewrite E0. cbn [Z.eqb negb andb].
    pose proof (fault_missing_result own s t e va Hinv Hr Hu Hl (Hres e va He)) as Hf.
    destruct (fault_missing s t e va) as [rc s']. destruct Hf as (f & Hm & Ho). exists e, f.
    split; [done|]. intros Hrc. split_and!; try done. unfold frame_origin. rewrite decide_True by done. by apply Ho.
  - rewrite (proj2 (Z.eqb_neq _ 0)) by done. cbn [negb andb].
    destruct (has_flag err 2 && has_flag (e_flags e) VM_MAP_F_COW) eqn:Ec; [|by apply Hrej].
    apply andb_true_iff in Ec as [E2 Ec].
    assert (view (entries m) va ≠ None) as Hv by (apply view_some; by exists e).
    pose proof (fault_cow_result own s t e va Hinv Hr Hu Hl E0 (Hpres va E0 Hv)) as Hf.
    destruct (fault_cow s t e va _) as [rc s']. destruct Hf as (f & Hm & Ho). exists e, f.
    split; [done|]. intros Hrc. split_and!; try done. unfold frame_origin. rewrite decide_False by done.
    split_and!; try done; by apply Ho.
Qed.

End VmFault.
