(* ===== verification/VmFork.v ===== *)
(** * fork: cloning an address space

    The child gets the parent's map, its pages map the parent's frames, and
    the private writable pages that are present become read-only in both. *)

From stdpp Require Import base gmap list numbers fin_maps.
From S2P Require Import Prelude Pmm PmmFacts PmmInit Paging PagingFacts PagingProofs Vm VmMap VmFacts VmInv.
From S2P Require Import VmFault.

Module VmFork.
Import Pmm PmmFacts PmmInit Paging PagingFacts PagingProofs Vm VmMap VmFacts VmProofs VmInv VmTasks VmFault.

(** ** The maps *)
Definition cow_mark (e : vm_map_entry_t) : vm_map_entry_t :=
  if vm_entry_is_cow_candidate e then e <| e_flags ::= λ f, Z.lor f VM_MAP_F_COW |> else e.

Lemma cow_mark_bounds e :
  e_start (cow_mark e) = e_start e ∧ e_end (cow_mark e) = e_end e ∧ e_offset (cow_mark e) = e_offset e.
Proof. unfold cow_mark. by case_if. Qed.

Lemma cow_mark_ok l : map_ok l → map_ok (cow_mark <$> l).
Proof.
  intros (Hok & Hd & Hl). split_and!.
  - apply Forall_fmap. eapply Forall_impl; [exact Hok|]. intros e He. unfold entry_ok, compose.
    destruct (cow_mark_bounds e) as (-> & -> & ->). done.
  - clear Hok Hl. induction l as [|e l IH]; [done|]. destruct Hd as [Ha Hd]. split; [|by apply IH].
    apply Forall_fmap. eapply Forall_impl; [exact Ha|]. intros f Hf. unfold compose, apart.
    destruct (cow_mark_bounds e) as (-> & -> & _), (cow_mark_bounds f) as (-> & -> & _). done.
  - by rewrite length_fmap.
Qed.

(** ** Worlds: states with their page tables *)
Definition extends (own : gmap Z node) (s : vm_state) (own' : gmap Z node) (s' : vm_state) : Prop :=
  own ⊆ own' ∧ vm_inv s' own' ∧ limit_ok s'
  ∧ current_pml4_phys (paging s') = current_pml4_phys (paging s)
  ∧ ∀ g, frame_used (pg_pmm (paging s)) g → frame_used (pg_pmm (paging s')) g ∧ own' !! g = own !! g.

Lemma extends_refl own s : vm_inv s own → limit_ok s → extends own s own s.
Proof. done. Qed.

Lemma extends_trans own1 s1 own2 s2 own3 s3 :
  extends own1 s1 own2 s2 → extends own2 s2 own3 s3 → extends own1 s1 own3 s3.
Proof.
  intros (A1 & _ & _ & A4 & A5) (B1 & B2 & B3 & B4 & B5). split_and!; try done; [by etrans|congruence|].
  intros g Hg. destruct (A5 g Hg) as [U E]. destruct (B5 g U) as [? E']. split; [done|]. congruence.
Qed.

Lemma page_mask_id f : in_u64 f → f mod 4096 = 0 → page_mask f = f.
Proof.
  intros Hr Hm. change (page_mask f) with (align_down f). rewrite align_down_eq by done. lia.
Qed.

Lemma frame_used_id s f :
  pmm_inv (pg_pmm (paging s)) → limit_ok s → frame_used (pg_pmm (paging s)) f → page_mask f = f.
Proof.
  intros Hp Hl Hf. destruct (frame_used_facts s f Hp Hl Hf) as [Hm Hb].
  change (2 ^ 52) with 4503599627370496 in Hb. apply page_mask_id; [lia|done].
Qed.

(** Mapping a used frame, as a step between worlds. *)
Lemma map_extends own s r va f flags :
  vm_inv s own → is_root own r → user_page va → frame_used (pg_pmm (paging s)) f → limit_ok s →
  has_flag flags PTE_PRESENT = true →
  let '(rc, p) := paging_map_page_4kb_pml4 (paging s) r va f flags in
  ∃ own', extends own s own' (s <| paging := p |>)
    ∧ ((rc = 0 ∧ frame_of (s <| paging := p |>) r va = f
        ∧ leaf p r va = Some (Z.lor f (Z.land flags PTE_MASK))
        ∧ ∀ r' a, is_root own r' → user_page a → r' ≠ r ∨ a ≠ va → same_page (paging s) p r' a)
       ∨ rc = RDNX_E_GENERIC).
Proof.
  intros Hinv Hr Hu Hf Hl Hfl. pose proof (vm_map_step own s r va f flags Hinv Hr Hu Hf Hl Hfl) as Hm.
  pose proof (frame_used_id s f (pi_pmm _ _ (vi_pt _ _ Hinv)) Hl Hf) as Hid.
  destruct (paging_map_page_4kb_pml4 (paging s) r va f flags) as [rc p].
  destruct Hm as (own' & Hsub & I & ((Hp & Hg & Hgr) & Hcu & Hown) & Hc). exists own'. split.
  - split_and!; try done.
    + eapply limit_geometry; [right; apply Hinv|done|done|done].
    + intros g Hug. split; [by apply Hgr|by apply Hown].
  - destruct Hc as [(-> & M1 & M2 & M3)|[-> _]]; [left|by right]. split_and!; try done.
    + unfold frame_of. cbn. by rewrite M1.
    + intros r' a Hr' Ha Hn. apply M3; [done|]. destruct Hn as [?|Hn]; [by left|right].
      intros Hi. by apply Hn, user_indices.
Qed.

Lemma retain_extends own s f :
  vm_inv s own → limit_ok s → f ≠ 0 → countable own s f →
  let s' := (vm_page_ref_retain s f).2 in
  extends own s own s' ∧ same_tables s s'
  ∧ (∀ g, refs s' g = if decide (g = f) then refs s g + 1 else refs s g)
  ∧ pg_pmm (paging s') = pg_pmm (paging s).
Proof.
  intros Hinv Hl Hf (Hu & Hno & Hmax). pose proof (retain_result s own f Hinv Hf Hno Hu Hmax) as Hret.
  unfold vm_page_ref_retain. destruct (vm_page_ref_add_new s f) as [rc s']. cbn [snd].
  destruct Hret as (_ & I & ([T C] & _) & P & R). split_and!; try done. split_and!; try done.
  - unfold limit_ok. by rewrite P.
  - intros g. by rewrite P.
Qed.

(** ** One page *)
Definition page_forked (s s' : vm_state) (cp pa flags : Z) (cow : bool) (va : Z) : Prop :=
  let f := frame_of s pa va in
  if decide (f = 0) then same_page (paging s) (paging s') cp va ∧ same_page (paging s) (paging s') pa va
  else frame_of s' cp va = f ∧ leaf (paging s') cp va = Some (Z.lor f (Z.land flags PTE_MASK))
       ∧ frame_of s' pa va = f
       ∧ leaf (paging s') pa va
         = if cow then Some (Z.lor f (Z.land flags PTE_MASK)) else leaf (paging s) pa va.

(** Pages that a round of the loop leaves alone. *)
Definition others_kept (own : gmap Z node) (s s' : vm_state) (cp pa : Z) (P : Z → Prop) : Prop :=
  ∀ r a, is_root own r → user_page a → (r ≠ cp ∧ r ≠ pa) ∨ ¬ P a → same_page (paging s) (paging s') r a.

Definition fork_flags (prot : Z) (cow : bool) : Z :=
  vm_pte_flags_from_prot (if cow then Z.land prot (Z.lnot VM_PROT_WRITE) else prot).

(** The body of the loop for a present page, after the child's mapping. *)
Definition fork_one (s : vm_state) (p : paging_state) (pa va f flags : Z) (cow : bool) : vm_state :=
  let s := (vm_page_ref_retain (s <| paging := p |>) f).2 in
  if cow then s <| paging ::= λ p, (paging_map_page_4kb_pml4 p pa va f flags).2 |> else s.

Lemma fork_one_result own s cp pa va prot cow :
  vm_inv s own → limit_ok s → is_root own cp → is_root own pa → cp ≠ pa → user_page va →
  let f := frame_of s pa va in
  f ≠ 0 → countable own s f →
  let '(rc, p) := paging_map_page_4kb_pml4 (paging s) cp va f (fork_flags prot cow) in
  rc = 0 →
  let s' := fork_one s p pa va f (fork_flags prot cow) cow in
  ∃ own', extends own s own' s' ∧ page_forked s s' cp pa (fork_flags prot cow) cow va
    ∧ others_kept own s s' cp pa (λ a, a = va)
    ∧ ∀ g, refs s g ≤ refs s' g ≤ refs s g + 1.
Proof.
  intros Hinv Hl Hc Hp Hne Hu f Hf0 Hcnt. pose proof Hcnt as (Hfu & Hno & Hmax). unfold fork_flags.
  set (flags := vm_pte_flags_from_prot _).
  pose proof (map_extends own s cp va f flags Hinv Hc Hu Hfu Hl (pte_present _)) as H1.
  destruct (paging_map_page_4kb_pml4 (paging s) cp va f flags) as [rc p]. intros ->.
  destruct H1 as (own1 & X1 & [(_ & F1 & L1 & K1)|?]); [|done]. set (s1 := s <| paging := p |>) in *.
  pose proof X1 as (Sub1 & I1 & Lim1 & _ & U1). destruct (U1 f Hfu) as [Hfu1 Hno1].
  destruct (retain_extends own1 s1 f I1 Lim1 Hf0) as (X2 & T2 & R2 & P2).
  { split_and!; [done|congruence|done]. }
  unfold fork_one. fold s1. set (s2 := (vm_page_ref_retain s1 f).2) in *. cbv zeta.
  assert (∀ r a, same_page (paging s1) (paging s2) r a) as S2 by (intros; by apply same_tables_page).
  assert (∀ g, refs s g ≤ refs s2 g ≤ refs s g + 1) as Hrefs.
  { intros g. rewrite R2. change (refs s1 g) with (refs s g). case_decide; lia. }
  assert (same_page (paging s) (paging s2) pa va) as Spa.
  { eapply same_page_trans; [|apply S2]. apply K1; [done|done|by left]. }
  assert (frame_of s2 pa va = f) as F2 by (unfold frame_of; by rewrite (proj1 Spa)).
  assert (frame_of s2 cp va = f ∧ leaf (paging s2) cp va = Some (Z.lor f (Z.land flags PTE_MASK))) as [F2c L2c].
  { unfold frame_of. rewrite (proj1 (S2 cp va)), (proj2 (S2 cp va)). done. }
  destruct cow.
  2: { exists own1. split_and!; [by eapply extends_trans| | |done].
       - unfold page_forked. rewrite decide_False by done. split_and!; try done. apply Spa.
       - intros r a Hr Ha Hn. eapply same_page_trans; [|apply S2]. apply K1; [done|done|tauto]. }
  destruct X2 as (Sub2 & I2 & Lim2 & Cu2 & U2).
  pose proof (map_extends own1 s2 pa va f flags I2 (root_mono _ _ _ Sub1 Hp) Hu
    ltac:(by rewrite P2) Lim2 (pte_present _)) as H3.
  pose proof (map_present (paging s2) pa va f flags (proj2 Hp)
    ltac:(intros Hz; apply Hf0; rewrite <- F2; unfold frame_of; by rewrite Hz) (proj2 Hu)
    ltac:(apply (frame_used_facts s f); [apply Hinv|done|done])) as H4.
  assert (s2 <| paging ::= λ p, (paging_map_page_4kb_pml4 p pa va f flags).2 |>
    = s2 <| paging := (paging_map_page_4kb_pml4 (paging s2) pa va f flags).2 |>) as -> by done.
  destruct (paging_map_page_4kb_pml4 (paging s2) pa va f flags) as [rc3 p3]. destruct H4 as [-> _].
  destruct H3 as (own3 & X3 & [(_ & F3 & L3 & K3)|?]); [|done]. cbn [snd].
  exists own3. split_and!; [| | |done].
  - eapply extends_trans; [exact X1|]. eapply extends_trans; [|exact X3]. done.
  - unfold page_forked. rewrite decide_False by done.
    destruct (K3 cp va (root_mono _ _ _ Sub1 Hc) Hu (or_introl Hne)) as [Kt Kl]. split_and!; try done.
    + unfold frame_of in *. cbn. by rewrite Kt.
    + cbn. by rewrite Kl.
  - intros r a Hr Ha Hn. eapply same_page_trans; [|apply K3; [exact (root_mono _ _ _ Sub1 Hr)|done|tauto]].
    eapply same_page_trans; [|apply S2]. apply K1; [done|done|tauto].
Qed.

(** ** The pages of an entry *)
Lemma page_forked_before s s1 s' cp pa flags cow va :
  same_page (paging s) (paging s1) cp va → same_page (paging s) (paging s1) pa va →
  page_forked s1 s' cp pa flags cow va → page_forked s s' cp pa flags cow va.
Proof.
  intros Sc Sp. unfold page_forked, frame_of. rewrite (proj1 Sp), (proj2 Sp). case_decide; [|done].
  intros [? ?]. split; by eapply same_page_trans.
Qed.

Lemma page_forked_after s s1 s' cp pa flags cow va :
  page_forked s s1 cp pa flags cow va →
  same_page (paging s1) (paging s') cp va → same_page (paging s1) (paging s') pa va →
  page_forked s s' cp pa flags cow va.
Proof.
  intros Hf [Tc Lc] [Tp Lp]. unfold page_forked, frame_of in *. rewrite Tc, Lc, Tp, Lp. case_decide; [|done].
  destruct Hf as [[? ?] [? ?]]. repeat split; congruence.
Qed.

Definition fork_ready (own : gmap Z node) (s : vm_state) (cp pa budget : Z) (P : Z → Prop) : Prop :=
  vm_inv s own ∧ limit_ok s ∧ is_root own cp ∧ is_root own pa ∧ cp ≠ pa
  ∧ current_pml4_phys (paging s) = pa
  ∧ ∀ va, user_page va → P va → frame_of s pa va ≠ 0 →
      frame_used (pg_pmm (paging s)) (frame_of s pa va) ∧ own !! frame_of s pa va = None
      ∧ refs s (frame_of s pa va) + budget ≤ 4294967295.

(** The outcome of a part of the clone: the pages [P] are forked with the
    flags and mode that [m] gives, the others are kept. *)
Definition fork_done (own : gmap Z node) (s s' : vm_state) (cp pa n : Z)
    (m : Z → option (Z * bool)) : Prop :=
  ∃ own', extends own s own' s'
    ∧ (∀ va flags cow, user_page va → m va = Some (flags, cow) → page_forked s s' cp pa flags cow va)
    ∧ others_kept own s s' cp pa (λ va, m va ≠ None)
    ∧ ∀ g, refs s g ≤ refs s' g ≤ refs s g + n.

Lemma fork_done_refl own s cp pa n :
  vm_inv s own → limit_ok s → 0 ≤ n → fork_done own s s cp pa n (λ _, None).
Proof. intros ? ? ?. exists own. split_and!; try done. intros g. lia. Qed.

(** Two parts over disjoint sets of pages. *)
Lemma fork_done_trans own s s1 s' cp pa n1 n2 m1 m2 :
  is_root own cp → is_root own pa →
  fork_done own s s1 cp pa n1 m1 →
  (∀ own1, extends own s own1 s1 → others_kept own s s1 cp pa (λ va, m1 va ≠ None) →
     (∀ g, refs s1 g ≤ refs s g + n1) → fork_done own1 s1 s' cp pa n2 m2) →
  (∀ va, user_page va → m1 va = None ∨ m2 va = None) →
  fork_done own s s' cp pa (n1 + n2) (λ va, m1 va ∪ m2 va).
Proof.
  intros Hc Hp (own1 & X1 & P1 & K1 & R1) H2 Hdis. destruct (H2 own1 X1 K1 ltac:(apply R1)) as (own2 & X2 & P2 & K2 & R2).
  assert (is_root own1 cp ∧ is_root own1 pa) as [Hc1 Hp1]
    by (split; [exact (root_mono _ _ _ (proj1 X1) Hc)|exact (root_mono _ _ _ (proj1 X1) Hp)]).
  exists own2. split_and!; [by eapply extends_trans| | |].
  - intros va flags cow Hu Hm. destruct (m1 va) as [x|] eqn:E1.
    + assert (m2 va = None) as E2 by (destruct (Hdis va Hu); congruence).
      assert (¬ (λ a, m2 a ≠ None) va) as N2 by (cbn; congruence).
      rewrite E2 in Hm. injection Hm as ->.
      eapply page_forked_after; [by apply P1|apply K2; [done|done|by right]..].
    + assert (¬ (λ a, m1 a ≠ None) va) as N1 by (cbn; congruence).
      assert (m2 va = Some (flags, cow)) as E2 by (by destruct (m2 va)).
      eapply page_forked_before; [apply K1; [done|done|by right]..|by apply P2].
  - intros r a Hr Ha Hn. eapply same_page_trans; [apply K1|apply K2]; try done.
    + destruct Hn as [?|Hn]; [by left|right]. destruct (m1 a), (m2 a); naive_solver.
    + exact (root_mono _ _ _ (proj1 X1) Hr).
    + destruct Hn as [?|Hn]; [by left|right]. destruct (m1 a), (m2 a); naive_solver.
  - intros g. pose proof (R1 g). pose proof (R2 g). lia.
Qed.

Lemma fork_ready_step own s own1 s1 cp pa b k (P Q : Z → Prop) :
  fork_ready own s cp pa b P → extends own s own1 s1 → (∀ g, refs s1 g ≤ refs s g + k) →
  (∀ va, user_page va → Q va → P va ∧ same_page (paging s) (paging s1) pa va) →
  fork_ready own1 s1 cp pa (b - k) Q.
Proof.
  intros (I & L & Hc & Hp & Hne & Hcu & Hf) X Hr HQ. pose proof X as (Sub & I1 & L1 & C1 & U1).
  split_and!; try done; [exact (root_mono _ _ _ Sub Hc)|exact (root_mono _ _ _ Sub Hp)|congruence|].
  intros va Hu Hq. destruct (HQ va Hu Hq) as [HP Hs]. unfold frame_of. rewrite (proj1 Hs). fold (frame_of s pa va).
  intros Hf0. destruct (Hf va Hu HP Hf0) as (Fu & Fo & Fr). destruct (U1 _ Fu) as [Fu1 Fo1].
  split; [done|]. split; [by rewrite Fo1|]. pose proof (Hr (frame_of s pa va)). lia.
Qed.

(** [m] on the pages of a list. *)
Definition on_pages (vas : list Z) (x : Z * bool) (va : Z) : option (Z * bool) :=
  if decide (va ∈ vas) then Some x else None.

Lemma fork_done_ext own s s' cp pa n n' m m' :
  (∀ va, user_page va → m va = m' va) → n = n' → fork_done own s s' cp pa n m → fork_done own s s' cp pa n' m'.
Proof.
  intros He -> (own' & X & P & K & R). exists own'. split_and!; try done.
  - intros va flags cow Hu Hm. apply P; [done|]. by rewrite He.
  - intros r a Hr Ha Hn. apply K; [done|done|]. by rewrite He.
Qed.

Lemma on_pages_app l k x va : on_pages (l ++ k) x va = on_pages l x va ∪ on_pages k x va.
Proof.
  unfold on_pages. destruct (decide (va ∈ l ++ k)) as [Hin|Hin]; rewrite elem_of_app in Hin;
    repeat case_decide; tauto || done.
Qed.

Lemma on_pages_none l x va : on_pages l x va = None ↔ va ∉ l.
Proof. unfold on_pages. by case_decide. Qed.

Lemma fork_ready_weaken own s cp pa b b' (P Q : Z → Prop) :
  fork_ready own s cp pa b P → b' ≤ b → (∀ va, user_page va → Q va → P va) → fork_ready own s cp pa b' Q.
Proof.
  intros (I & L & Hc & Hp & Hne & Hcu & Hf) Hb HQ. split_and!; try done. intros va Hu Hq Hf0.
  destruct (Hf va Hu (HQ va Hu Hq) Hf0) as (? & ? & ?). split_and!; try done. lia.
Qed.

Lemma fork_page_result own s cp pa prot cow va :
  user_page va → fork_ready own s cp pa 1 (λ a, a = va) →
  let f := frame_of s pa va in
  let m := on_pages [va] (fork_flags prot cow, cow) in
  (f = 0 → fork_done own s s cp pa 1 m)
  ∧ (f ≠ 0 →
     let '(rc, p) := paging_map_page_4kb_pml4 (paging s) cp va f (fork_flags prot cow) in
     rc = 0 → fork_done own s (fork_one s p pa va f (fork_flags prot cow) cow) cp pa 1 m).
Proof.
  intros Hu (I & L & Hc & Hp & Hne & Hcu & Hf) f m.
  assert (∀ a y, m a = Some y → a = va ∧ y = (fork_flags prot cow, cow)) as Hm.
  { intros a y. unfold m, on_pages. case_decide as Hd; [|done]. intros [= <-].
    by apply list_elem_of_singleton in Hd. }
  assert (∀ a, m a = None → a ≠ va) as Hmn.
  { intros a Hn%on_pages_none ->. apply Hn. by apply list_elem_of_singleton. }
  split.
  - intros E0. exists own. split_and!; try done; [|intros; lia].
    intros a flags c _ Ha. destruct (Hm a _ Ha) as [-> _]. unfold page_forked. by rewrite decide_True.
  - intros E0. destruct (Hf va Hu eq_refl E0) as (Fu & Fo & Fr).
    pose proof (fork_one_result own s cp pa va prot cow I L Hc Hp Hne Hu E0
      ltac:(split_and!; [done|done|unfold f in *; lia])) as H1. fold f in H1.
    destruct (paging_map_page_4kb_pml4 _ _ _ _ _) as [rc p]. intros Hrc.
    destruct (H1 Hrc) as (own' & X & P & K & R). exists own'. split_and!; try done.
    + intros a flags c _ Ha. by destruct (Hm a _ Ha) as [-> [= -> ->]].
    + intros r a Hr Ha Hn. apply K; [done|done|]. destruct Hn as [?|Hn]; [by left|right].
      destruct (m a) eqn:Em; [by destruct Hn|]. by apply Hmn.
Qed.

Lemma fork_pages_result own s cp pa prot cow vas :
  NoDup vas → Forall user_page vas →
  fork_ready own s cp pa (Z.of_nat (length vas)) (λ va, va ∈ vas) →
  let '(ok, s') := fork_pages s cp pa prot cow vas in
  ok = true → fork_done own s s' cp pa (Z.of_nat (length vas)) (on_pages vas (fork_flags prot cow, cow)).
Proof.
  revert own s. induction vas as [|va vas IH]; intros own s Hnd Hus Hrd; cbn [fork_pages].
  { intros _. eapply fork_done_ext; [| |apply fork_done_refl; [apply Hrd|apply Hrd|]]; [|done|lia].
    intros va _. symmetry. apply on_pages_none, not_elem_of_nil. }
  apply NoDup_cons in Hnd as [Hni Hnd]. apply Forall_cons in Hus as [Hu Hus].
  pose proof Hrd as (I & L & Hc & Hp & Hne & Hcu & Hf). set (x := (fork_flags prot cow, cow)).
  assert (page_mask (paging_get_physical (paging s) va) = frame_of s pa va) as ->.
  { unfold paging_get_physical, paging_get_pml4, frame_of. rewrite Hcu.
    by rewrite (proj2 (Z.eqb_neq _ 0)) by apply Hp. }
  assert (∀ s1, fork_done own s s1 cp pa 1 (on_pages [va] x) →
    let '(ok, s') := fork_pages s1 cp pa prot cow vas in
    ok = true → fork_done own s s' cp pa (Z.of_nat (length (va :: vas))) (on_pages (va :: vas) x)) as Hgo.
  { intros s1 H1. destruct (fork_pages s1 cp pa prot cow vas) as [ok s'] eqn:Ef. intros ->.
    eapply fork_done_ext; [| |eapply (fork_done_trans own s s1); [done|done|exact H1| |]].
    - intros a _. symmetry. apply (on_pages_app [va] vas).
    - instantiate (1 := Z.of_nat (length vas)). cbn [length]. lia.
    - intros own2 X2 K2 R2. specialize (IH own2 s1 Hnd Hus). rewrite Ef in IH. apply IH; [|done].
      eapply (fork_ready_weaken _ _ _ _ _ _ (λ a, a ∈ vas)); [eapply fork_ready_step; [exact Hrd|exact X2|exact R2|]| |done].
      + intros a Ha Hin. split; [solve_in|]. apply K2; [done|done|right]. rewrite on_pages_none.
        intros Hn. apply Hn. rewrite list_elem_of_singleton. by intros ->.
      + cbn [length]. lia.
    - intros a _. rewrite !on_pages_none, list_elem_of_singleton.
      destruct (decide (a = va)) as [->|]; [by right|by left]. }
  destruct (fork_page_result own s cp pa prot cow va Hu) as [H0 H1].
  { eapply fork_ready_weaken; [exact Hrd|cbn [length]; lia|]. intros a _ ->. solve_in. }
  case_if; bool_hyps; [by apply Hgo, H0|]. specialize (H1 Eif). cbv zeta. fold (fork_flags prot cow).
  destruct (paging_map_page_4kb_pml4 _ _ _ _ _) as [rc p]. case_if; bool_hyps; [done|].
  apply Hgo. by apply H1.
Qed.

(** ** The whole map *)
Definition entry_mode (e : vm_map_entry_t) : Z * bool :=
  let cow := vm_entry_is_cow_candidate e in (fork_flags (e_prot e) cow, cow).

Definition map_mode (l : list vm_map_entry_t) (va : Z) : option (Z * bool) :=
  entry_mode <$> vm_map_lookup l va.

Definition entry_pages (e : vm_map_entry_t) : list Z := page_addrs (e_start e) (e_end e).
Definition map_pages (l : list vm_map_entry_t) : Z := foldr (λ e n, Z.of_nat (length (entry_pages e)) + n) 0 l.

Lemma map_pages_cons e l : map_pages (e :: l) = Z.of_nat (length (entry_pages e)) + map_pages l.
Proof. done. Qed.

Lemma map_pages_nonneg l : 0 ≤ map_pages l.
Proof. unfold map_pages. induction l as [|e l IH]; cbn [foldr]; lia. Qed.

Lemma entry_pages_in e va : entry_ok e → user_page va → va ∈ entry_pages e ↔ holds_addr e va.
Proof.
  intros [(_ & _ & _ & Hm & _) _] [_ Hv]. unfold entry_pages. rewrite page_addrs_in by done.
  unfold holds_addr. tauto.
Qed.

Lemma entry_pages_user e : entry_ok e → Forall user_page (entry_pages e).
Proof.
  intros [(? & ? & ? & Hm & _) _]. apply Forall_forall. intros va [Hva Hv]%page_addrs_in; [|done].
  apply user_page_range; [lia|done].
Qed.

Lemma entry_pages_nodup e : NoDup (entry_pages e).
Proof.
  unfold entry_pages, page_addrs. apply NoDup_fmap_2; [|apply NoDup_seqZ].
  intros x y. unfold PAGE_SIZE. lia.
Qed.

Lemma map_mode_cons e l va :
  entry_ok e → user_page va → map_mode (e :: l) va = on_pages (entry_pages e) (entry_mode e) va ∪ map_mode l va.
Proof.
  intros He Hu. unfold on_pages, map_mode. pose proof (entry_pages_in e va He Hu) as Hin. unfold holds_addr in Hin.
  cbn [vm_map_lookup]. case_decide as Hd.
  - apply Hin in Hd. rewrite (proj2 (Z.leb_le _ _)), (proj2 (Z.ltb_lt _ _)) by lia. cbn.
    by destruct (vm_map_lookup l va).
  - case_if; bool_hyps; [exfalso; apply Hd, Hin; lia|]. by destruct (vm_map_lookup l va).
Qed.

Lemma map_mode_none l va : map_mode l va = None ↔ view l va = None.
Proof. unfold map_mode, view. by destruct (vm_map_lookup l va). Qed.

(** The reference to the object of an entry does not matter to the pages. *)
Lemma fork_ref own s cp pa b n P m o :
  let s1 := if negb (o =? 0) then vm_object_ref s o else s in
  (fork_ready own s cp pa b P → fork_ready own s1 cp pa b P)
  ∧ ∀ s', fork_done own s1 s' cp pa n m → fork_done own s s' cp pa n m.
Proof.
  cbv zeta. destruct (o =? 0) eqn:Eo; [done|]. cbn [negb]. unfold vm_object_ref. rewrite Eo. split; [|done].
  intros (I & H). split; [|done]. by eapply (quiet_objects own s).
Qed.

Lemma fork_loop_result own s cp pa dn rest child :
  Forall entry_ok rest → disjoint_entries rest →
  Z.of_nat (length child) + Z.of_nat (length rest) ≤ VM_MAP_MAX_ENTRIES →
  fork_ready own s cp pa (map_pages rest) (λ va, view rest va ≠ None) →
  let '(rc, pl, cl, s') := fork_loop s cp pa dn rest child in
  (rc = RDNX_OK ∧ pl = dn ++ (cow_mark <$> rest) ∧ cl = child ++ (cow_mark <$> rest)
   ∧ fork_done own s s' cp pa (map_pages rest) (map_mode rest))
  ∨ (rc = RDNX_E_GENERIC ∧ ∃ k, pl = dn ++ (cow_mark <$> take k rest) ++ drop k rest).
Proof.
  revert own s dn child. induction rest as [|e rest IH]; intros own s dn child Hok Hd Hlen Hrd;
    cbn [fork_loop].
  { left. rewrite !app_nil_r. split_and!; try done.
    eapply fork_done_ext; [| |apply fork_done_refl; [apply Hrd|apply Hrd|]]; done. }
  apply Forall_cons in Hok as [He Hok]. destruct Hd as [Hap Hd]. cbn [length] in Hlen.
  rewrite (proj2 (Z.leb_gt _ _)) by lia. fold (entry_pages e) (cow_mark e).
  set (s1 := if negb (e_object e =? 0) then _ else s). set (cow := vm_entry_is_cow_candidate e).
  assert (∀ va, user_page va → va ∈ entry_pages e → view (e :: rest) va ≠ None) as Hv1.
  { intros va Hu Hin. apply view_some. exists e. split; [solve_in|]. by apply entry_pages_in. }
  pose proof (map_pages_nonneg rest) as Hnn.
  destruct (fork_ref own s cp pa (Z.of_nat (length (entry_pages e))) (Z.of_nat (length (entry_pages e)))
    (λ va, va ∈ entry_pages e) (on_pages (entry_pages e) (entry_mode e)) (e_object e)) as [R1 D1].
  pose proof (fork_pages_result own s1 cp pa (e_prot e) cow (entry_pages e) (entry_pages_nodup e)
    (entry_pages_user e He) ltac:(apply R1; eapply fork_ready_weaken; [exact Hrd|rewrite map_pages_cons; lia|exact Hv1])) as Hpg.
  destruct (fork_pages s1 cp pa (e_prot e) cow (entry_pages e)) as [ok s2]. destruct ok; cbn [negb].
  2: { right. split; [done|]. by exists 1%nat. }
  specialize (D1 s2 (Hpg eq_refl)). pose proof D1 as (own1 & X1 & _ & K1 & Rf1).
  assert (∀ own2, extends own s own2 s2 →
    fork_ready own2 s2 cp pa (map_pages rest) (λ va, view rest va ≠ None)) as Hrd2.
  { intros own2 X2. eapply (fork_ready_weaken _ _ _ _ _ _ (λ va, view rest va ≠ None));
      [eapply fork_ready_step; [exact Hrd|exact X2|apply Rf1|]|rewrite map_pages_cons; lia|done].
    intros va Hu Hin. split; [rewrite view_cons; by case_decide|]. apply K1; [apply Hrd|done|right].
    rewrite on_pages_none. intros Hn. apply Hn. rewrite entry_pages_in by done. intros Ha.
    apply view_some in Hin as (f & Hf & Haf). pose proof (proj1 (Forall_forall _ _) Hap f Hf) as Hp.
    unfold apart, holds_addr in *. lia. }
  pose proof (IH own1 s2 (dn ++ [cow_mark e]) (child ++ [cow_mark e]) Hok Hd
    ltac:(rewrite length_app; cbn [length]; lia) (Hrd2 own1 X1)) as H2.
  destruct (fork_loop s2 cp pa _ rest _) as [[[rc pl] cl] s'] eqn:El.
  destruct H2 as [(-> & -> & -> & _)|(-> & k & ->)].
  2: { right. split; [done|]. exists (S k). cbn. by rewrite <- (assoc_L app). }
  left. rewrite <- !(assoc_L app). split_and!; try done.
  eapply fork_done_ext; [| |eapply (fork_done_trans own s s2); [apply Hrd|apply Hrd|exact D1| |]].
  - intros va Hu. symmetry. by apply map_mode_cons.
  - done.
  - intros own2 X2 _ _. pose proof (IH own2 s2 (dn ++ [cow_mark e]) (child ++ [cow_mark e]) Hok Hd
      ltac:(rewrite length_app; cbn [length]; lia) (Hrd2 own2 X2)) as H2. rewrite El in H2.
    destruct H2 as [(_ & _ & _ & ?)|[? _]]; done.
  - intros va Hu. rewrite on_pages_none, entry_pages_in, map_mode_none by done.
    destruct (decide (holds_addr e va)) as [Ha|]; [right|by left]. apply view_none. intros f Hf Haf.
    pose proof (proj1 (Forall_forall _ _) Hap f Hf) as Hp. unfold apart, holds_addr in *. lia.
Qed.


End VmFork.
