(* ===== verification/VmDemo.v ===== *)
(** * Virtual memory on a concrete machine

    A machine of 24 page frames across the boundary of the two zones, with
    two empty address spaces.  The theorems of the virtual memory files are
    applied to it, and three runs show where the code does not keep the
    memory of two processes apart. *)

From stdpp Require Import base gmap list numbers fin_maps.
From S2P Require Import Prelude Pmm PmmFacts PmmInit Paging PagingFacts PagingProofs Vm VmMap VmFacts VmInv.
From S2P Require Import VmFault VmFork.

Module VmDemo.
Import Pmm PmmFacts PmmInit Paging PagingFacts PagingProofs Vm VmMap VmFacts VmProofs VmInv VmTasks
  VmFault VmFork.

Definition zone_pmm : pmm_state :=
  (pmm_init bss_pmm 16744448 16842752 2097152 (replicate 1024 57005)).2.

Lemma zone_inv : pmm_inv zone_pmm ∧ memory_start zone_pmm = 16744448 ∧ memory_end zone_pmm = 16842752.
Proof.
  pose proof (pmm_init_result bss_pmm 16744448 16842752 2097152 (replicate 1024 57005)) as H.
  unfold zone_pmm. destruct (pmm_init _ _ _ _ _) as [rc s'].
  destruct H as (_ & Hi & Hm & He & _); [done..|]. cbn [snd]. by rewrite Hm, He.
Qed.

Definition PARENT : Z := 36864.
Definition CHILD : Z := 40960.
Definition vm_own : gmap Z node := {[PARENT := Node PARENT []; CHILD := Node CHILD []]}.
Definition demo_vm : vm_state := mk_vm (mk_paging zone_pmm ∅ PARENT true) [] ∅ 1 ∅.

Lemma vm_own_cases f n : vm_own !! f = Some n → (f = PARENT ∨ f = CHILD) ∧ n = Node f [].
Proof.
  unfold vm_own. intros [[<- <-]|[? [<- <-]%lookup_singleton_Some]]%lookup_insert_Some; tauto.
Qed.

Lemma demo_words f i : entry (paging demo_vm) f i = 0.
Proof. unfold entry, demo_vm. cbn [words paging]. by rewrite lookup_total_empty. Qed.

Lemma demo_vm_inv : vm_inv demo_vm vm_own.
Proof.
  destruct zone_inv as (Hp & Hm & _). split; [|apply NoDup_nil_2|].
  - split.
    + exact Hp.
    + intros f n [[->| ->] _]%vm_own_cases; done.
    + intros f n i Ho Hi E. exfalso. revert E. apply below_window; [exact Hp|exact Hi|].
      cbn [pg_pmm paging demo_vm]. rewrite Hm. clear - Ho. apply vm_own_cases in Ho as [[->| ->] _]; done.
    + intros f n i _ _ _ Hf. rewrite demo_words in Hf. discriminate Hf.
    + intros f n i _ _ _ _ Hf. rewrite demo_words in Hf. discriminate Hf.
  - intros f r Hin. destruct (not_elem_of_nil _ Hin).
Qed.

Lemma demo_roots : is_root vm_own PARENT ∧ is_root vm_own CHILD.
Proof. done. Qed.

Lemma demo_limit : limit_ok demo_vm.
Proof. unfold limit_ok. cbn [pg_pmm paging demo_vm]. rewrite (proj2 (proj2 zone_inv)). clear. lia. Qed.

Lemma demo_unmapped r va : frame_of demo_vm r va = 0.
Proof. unfold frame_of, translate, find_pd, paging_get_pdpt. by rewrite demo_words. Qed.

(** A private writable mapping of two pages without a memory object. *)
Definition demo_mapping : vm_map_entry_t := mk_entry 1610612736 1610620928 3 11 0 0.
Definition demo_task : vm_task :=
  mk_task (Some (mk_map PARENT [demo_mapping])) PARENT 0 0 VM_DEFAULT_MMAP VM_DEFAULT_MMAP.

Lemma demo_map_ok : map_ok [demo_mapping].
Proof. split_and!; [|done|done]. apply Forall_singleton. by split. Qed.

Lemma vm_task_mmap_correct_witness :
  let r := vm_task_mmap demo_vm demo_task 0 5000 3 2 in
  r.1.1 = 1610620928 ∧ first_gap [demo_mapping] VM_DEFAULT_MMAP 8192 1610620928.
Proof.
  pose proof (vm_task_mmap_correct demo_vm demo_task (mk_map PARENT [demo_mapping]) 0 5000 3 2 eq_refl
    demo_map_ok ltac:(by split) ltac:(done) ltac:(done) ltac:(done)) as H. cbv zeta in H |- *.
  assert ((vm_task_mmap demo_vm demo_task 0 5000 3 2).1.1 = 1610620928) as Hr by (by vm_compute).
  destruct (vm_task_mmap demo_vm demo_task 0 5000 3 2) as [[r t'] s']. cbn [fst] in *. subst r.
  split; [done|]. destruct H as [(m' & _ & Hg & _)|[[? _]|[? _]]]; [exact Hg|discriminate..].
Defined.

Lemma vm_task_munmap_correct_witness :
  let r := vm_task_munmap demo_vm demo_task 1610616832 4096 in
  r.1.1 = RDNX_OK ∧ unmapped vm_own PARENT (mapped_in [demo_mapping] 1610616832 1610620928) demo_vm r.2.
Proof.
  pose proof (vm_task_munmap_correct vm_own demo_vm demo_task (mk_map PARENT [demo_mapping]) 1610616832 4096
    demo_vm_inv eq_refl demo_map_ok eq_refl (proj1 demo_roots) ltac:(done)) as H. cbv zeta in H |- *.
  assert ((vm_task_munmap demo_vm demo_task 1610616832 4096).1.1 = RDNX_OK) as Hr by (by vm_compute).
  destruct (vm_task_munmap demo_vm demo_task 1610616832 4096) as [[rc t'] s']. cbn [fst snd] in *.
  split; [done|]. subst rc. destruct H as [[? _]|(m' & _ & _ & _ & Hu & _)]; [discriminate|exact Hu].
Defined.

Lemma vm_task_destroy_terminates_witness :
  ∃ s', vm_task_destroy 1 demo_vm demo_task = Some (mk_task None PARENT 0 0 0 0, s')
    ∧ unmapped vm_own PARENT (λ va, view [demo_mapping] va ≠ None) demo_vm s'.
Proof.
  apply (vm_task_destroy_terminates vm_own demo_vm demo_task (mk_map PARENT [demo_mapping]) 1
    demo_vm_inv eq_refl demo_map_ok eq_refl (proj1 demo_roots) ltac:(done)).
Defined.

Lemma vm_fault_handle_correct_witness :
  let r := vm_fault_handle demo_vm demo_task 1610613000 6 in
  r.1 = RDNX_OK ∧ ∃ f, mapped_result vm_own demo_vm r.2 PARENT 1610612736 f 9223372036854775815 0
    ∧ frame r.2 f = zero_page.
Proof.
  pose proof (vm_fault_handle_correct vm_own demo_vm demo_task (mk_map PARENT [demo_mapping]) 1610613000 6
    demo_vm_inv eq_refl demo_map_ok (proj1 demo_roots) eq_refl demo_limit ltac:(done)) as H. cbv zeta in H |- *.
  assert ((vm_fault_handle demo_vm demo_task 1610613000 6).1 = RDNX_OK) as Hr by (by vm_compute).
  destruct (vm_fault_handle demo_vm demo_task 1610613000 6) as [rc s']. cbn [fst snd] in *. subst rc.
  split; [done|]. destruct H as (e & f & Hm & Ho).
  - intros e va He Hne. exfalso. apply list_elem_of_singleton in He as ->. by apply Hne.
  - intros va Hf _. by rewrite demo_unmapped in Hf.
  - destruct (Ho eq_refl) as (_ & He & _ & Hor). assert (e = demo_mapping) as -> by (by injection He).
    exists f. split; [exact Hm|]. unfold frame_origin in Hor. rewrite demo_unmapped, decide_True in Hor by done.
    exact (proj2 Hor).
Defined.


Lemma vm_page_ref_release_correct_witness :
  let s := (vm_pager_alloc_zero_page demo_vm).2 in
  let r := vm_page_ref_release s 16777216 in
  r.1 = RDNX_OK ∧ vm_inv r.2 vm_own ∧ refs s 16777216 = 1 ∧ refs r.2 16777216 = 0.
Proof.
  pose proof (pager_result vm_own demo_vm demo_vm_inv) as Hp. cbv zeta.
  assert (refs (vm_pager_alloc_zero_page demo_vm).2 16777216 = 1) as R1 by (by vm_compute).
  destruct (vm_pager_alloc_zero_page demo_vm) as [f s]. cbn [snd] in *. destruct Hp as ([Hi _] & _).
  pose proof (vm_page_ref_release_correct s vm_own 16777216 Hi) as H.
  destruct (vm_page_ref_release s 16777216) as [rc s']. cbn [fst snd] in *.
  destruct H as [(Hi' & _ & Hr & _) ->]. rewrite R1, Hr, decide_True, R1 by done. done.
Defined.

(** ** Runs *)
Definition run_as (pml4 : Z) (s : vm_state) : vm_state := s <| paging ::= λ p, paging_switch_pml4 p pml4 |>.

Definition empty_task : vm_task :=
  mk_task (Some (mk_map PARENT [])) PARENT 0 0 VM_DEFAULT_MMAP VM_DEFAULT_MMAP.
Definition child_task : vm_task := mk_task None CHILD 0 0 0 0.

(** A private anonymous mapping of one page, optionally written before the
    fork, as parent, child and state after the fork. *)
Definition after_fork (touch : bool) : Z * vm_task * vm_task * vm_state :=
  let '(a, parent, s) := vm_task_mmap demo_vm empty_task 0 4096 3 VM_MAP_F_PRIVATE in
  let s := if touch then (vm_fault_handle s parent a 6).2 else s in
  let '(_, parent, child, s) := vm_task_fork_clone s parent child_task CHILD in
  (a, parent, child, s).

(** The frame and the write permission that an address space has at [a]. *)
Definition frame_and_write (s : vm_state) (pml4 a : Z) : Z * bool :=
  (frame_of s pml4 a, match leaf (paging s) pml4 a with Some e => has_flag e PTE_RW | None => false end).

(** A page of a private mapping that is touched only after the fork is one
    frame, writable in both processes: the second process to fault takes the
    page that the first one left in the memory object the two maps share. *)
Theorem fork_shares_late_pages :
  let '(a, parent, child, s) := after_fork false in
  let s := (vm_fault_handle (run_as CHILD s) child a 6).2 in
  let s := (vm_fault_handle (run_as PARENT s) parent a 6).2 in
  frame_and_write s PARENT a = (16777216, true) ∧ frame_and_write s CHILD a = (16777216, true).
Proof. vm_compute. done. Qed.

(** [mprotect] with write permission makes a copy-on-write page writable in
    place, while the other process still maps the same frame. *)
Theorem mprotect_breaks_copy_on_write :
  let '(a, parent, child, s) := after_fork true in
  let '(rc, _, s') := vm_task_mprotect (run_as PARENT s) parent a 4096 3 in
  frame_and_write s PARENT a = (16777216, false) ∧ frame_and_write s CHILD a = (16777216, false)
  ∧ rc = RDNX_OK
  ∧ frame_and_write s' PARENT a = (16777216, true) ∧ frame_and_write s' CHILD a = (16777216, false).
Proof. vm_compute. done. Qed.

(** A shared file mapping at a file offset beyond its own length never
    becomes resident in its memory object, so that neither [msync] nor
    [munmap] writes the page back: the object has one page, and the page
    index includes the offset. *)
Theorem mmap_file_offset_not_resident :
  let '(a, t, s) := vm_task_mmap_file demo_vm empty_task 0 4096 3 0 8192 12288 4096 in
  let '(rc, s) := vm_fault_handle s t a 6 in
  rc = RDNX_OK ∧ (vm_task_msync s t a 4096 0).1 = RDNX_E_NOTFOUND.
Proof. vm_compute. done. Qed.

End VmDemo.
