(* ===== verification/Sched.v ===== *)
(** * Scheduler: threads, run queues and state changes
    (kernel/core/task.h, kernel/common/scheduler)

    The data of tasks and threads, the ready queues (runqueue.c), the state
    changes (state.c) and the control operations (control.c).  Threads, tasks
    and wait queues live in stores indexed by their address, 0 being [NULL],
    because queues, joiners and owners share them by pointer.

    A [TAILQ] is the list of its elements.  [TAILQ_REMOVE] of an element that
    is not on the queue would corrupt the links; [SchedInv] proves that the
    element is always on it.  The kernel runs on one processor and each
    operation runs without an interrupt in between.  Diagnostics are not
    modelled, except the record of state changes that the code reports as
    invalid ([invalid_changes]). *)

From stdpp Require Import base gmap list numbers fin_maps.
From S2P Require Import Prelude.

Module Sched.

(** ** Constants *)
Definition SCHED_CLASS_TIMESHARE : Z := 0.
Definition SCHED_CLASS_REALTIME : Z := 1.
Definition SCHED_BUCKET_BACKGROUND : Z := 0.
Definition SCHED_BUCKET_UTILITY : Z := 1.
Definition SCHED_BUCKET_DEFAULT : Z := 2.
Definition SCHED_BUCKET_INTERACTIVE : Z := 3.
Definition SCHED_BUCKET_COUNT : Z := 4.
Definition READY_QUEUE_LEVELS : Z := SCHED_BUCKET_COUNT.
Definition BOOST_THRESHOLD_TICKS : Z := 5.
Definition BOOST_MAX : Z := 32.
Definition PENALTY_MAX : Z := 32.
Definition PENALTY_STEP_TICKS : Z := 4.
Definition REALTIME_QUANTUM_TICKS : Z := 1.
Definition STARVATION_THRESHOLD_TICKS : Z := 500.
Definition SCHEDULER_DEFAULT_PRIORITY : Z := 128.
Definition SCHEDULER_TIME_SLICE_MS : Z := 10.
Definition PRIORITY_DEFAULT : Z := 128.
Definition SCHED_POLICY_FIFO : Z := 0.
Definition SCHED_POLICY_RR : Z := 1.
Definition SCHED_POLICY_PRIORITY : Z := 2.
Definition SCHED_POLICY_CFS : Z := 3.

(** ** Data *)
Inductive thread_state_t :=
| THREAD_STATE_NEW
| THREAD_STATE_READY
| THREAD_STATE_RUNNING
| THREAD_STATE_BLOCKED
| THREAD_STATE_SLEEPING
| THREAD_STATE_DEAD.

Inductive task_state_t :=
| TASK_STATE_NEW
| TASK_STATE_READY
| TASK_STATE_RUNNING
| TASK_STATE_BLOCKED
| TASK_STATE_SLEEPING
| TASK_STATE_ZOMBIE
| TASK_STATE_DEAD.

#[export] Instance thread_state_eq_dec : EqDecision thread_state_t.
Proof. solve_decision. Defined.
#[export] Instance task_state_eq_dec : EqDecision task_state_t.
Proof. solve_decision. Defined.

(** [task] and [state] of the struct are [task_of] and [thread_state];
    [context.stack_pointer] is [stack_pointer], [arg] is [entry_arg].  The links of the queues are
    the lists of the queues. *)
Record thread_t := mk_thread {
  thread_id : Z;
  task_of : Z;
  stack_pointer : Z;
  program_counter : Z;
  thread_state : thread_state_t;
  sched_class : Z;
  priority : Z;
  base_priority : Z;
  dyn_priority : Z;
  inherited_priority : Z;
  has_inherited : bool;
  inherit_stack : list Z;
  inherit_depth : Z;
  has_inherit_overflow : bool;
  sched_bucket : Z;
  sched_bucket_explicit : bool;
  sched_usage : Z;
  last_sleep_tick : Z;
  entry : Z;
  entry_arg : Z;
  stack : Z;
  stack_size : Z;
  ready_queued : bool;
  waitq_owner : Z;
  wait_deadline_tick : Z;
  wait_timeout_armed : bool;
  wait_timed_out : bool;
  joiner : Z;
  reap_queued : bool;
  reap_after_tick : Z
}.

(** The disposition of a signal. *)
Record sigaction_t := mk_sigaction {
  sa_handler : Z;
  sa_flags : Z;
  sa_restorer : Z;
  sa_mask : Z
}.

(** [task_t] without the fields of the virtual memory code, which are
    [Vm.vm_task], and without the links of the task list, which is
    [all_tasks]. *)
Record task_t := mk_task {
  task_id : Z;
  parent_task_id : Z;
  address_space : Z;
  task_state : task_state_t;
  uid : Z;
  gid : Z;
  euid : Z;
  egid : Z;
  umask : Z;
  fd_table : list Z;
  fd_flags : list Z;
  fd_kind : list Z;
  cwd : list Z;
  exit_code : Z;
  exited : bool;
  waited : bool;
  sigaction : list sigaction_t;
  sig_pending : Z;
  sig_in_handler : bool;
  abi : Z;
  tls_fs_base : Z;
  main_thread : Z;
  task_threads : list Z;
  thread_count : Z;
  ref_count : Z;
  cpu_ticks : Z;
  last_run_tick : Z
}.

Record waitq_t := mk_waitq {
  wq_threads : list Z;
  wq_count : Z
}.

Record scheduler_stats_t := mk_stats {
  total_switches : Z;
  total_tasks : Z;
  running_tasks : Z;
  ready_tasks : Z;
  blocked_tasks : Z
}.

Record scheduler_reap_stats_t := mk_reap_stats {
  queue_len : Z;
  queue_hwm : Z;
  enqueued : Z;
  reaped : Z;
  deferred : Z;
  dropped : Z;
  runs : Z
}.

(** The cache of kernel stacks of task.c: [cached] is the array [stack_cache]
    up to [stack_cache_count], [stack_words] the 64-bit words of the stacks
    by address. *)
Record stack_cache_t := mk_stacks {
  cached : list Z;
  stack_cache_hits : Z;
  stack_cache_misses : Z;
  stack_cache_retired : Z;
  stack_cache_poison_failures : Z;
  stack_words : gmap Z Z
}.

(** The variables of state.c, the task registry and the per-processor current
    task and thread of task.c (the index by identifier, a red-black tree, is
    the finite map it represents), the timeout list of waitq.c, the reap ring of reaper.c and the
    processor registers the switch writes. *)
Record sched_state := mk_sched {
  threads : gmap Z thread_t;
  tasks : gmap Z task_t;
  waitqs : gmap Z waitq_t;
  all_tasks : list Z;
  all_tasks_by_id : gmap Z Z;
  next_task_id : Z;
  next_thread_id : Z;
  current_thread : Z;
  current_task : Z;
  scheduler_initialized : bool;
  scheduler_running : bool;
  current_policy : Z;
  stats : scheduler_stats_t;
  in_scheduler : bool;
  ticks_until_preempt : Z;
  ticks_per_slice : Z;
  resched_pending : bool;
  sched_ticks : Z;
  ready_queues : gmap Z (list Z);
  bucket_last_run_tick : gmap Z Z;
  waitq_timeouts : list Z;
  reap_queue : gmap Z Z;
  reap_head : Z;
  reap_tail : Z;
  reap_stats : scheduler_reap_stats_t;
  stacks : stack_cache_t;
  tss_rsp0 : Z;
  cr3 : Z;
  scheduler_kernel_pml4 : Z;
  invalid_changes : list (Z * thread_state_t * thread_state_t)
}.

#[export] Instance thread_eta : EtaRecord thread_t :=
  λ t, mk_thread (thread_id t) (task_of t) (stack_pointer t) (program_counter t)
         (thread_state t) (sched_class t)
         (priority t) (base_priority t) (dyn_priority t) (inherited_priority t) (has_inherited t)
         (inherit_stack t) (inherit_depth t) (has_inherit_overflow t) (sched_bucket t)
         (sched_bucket_explicit t) (sched_usage t) (last_sleep_tick t) (entry t)
         (entry_arg t) (stack t) (stack_size t)
         (ready_queued t) (waitq_owner t) (wait_deadline_tick t) (wait_timeout_armed t)
         (wait_timed_out t) (joiner t) (reap_queued t) (reap_after_tick t).
#[export] Instance task_eta : EtaRecord task_t :=
  λ t, mk_task (task_id t) (parent_task_id t) (address_space t) (task_state t) (uid t) (gid t)
         (euid t) (egid t) (umask t) (fd_table t) (fd_flags t) (fd_kind t) (cwd t) (exit_code t)
         (exited t) (waited t) (sigaction t) (sig_pending t) (sig_in_handler t) (abi t)
         (tls_fs_base t) (main_thread t) (task_threads t) (thread_count t) (ref_count t)
         (cpu_ticks t) (last_run_tick t).
#[export] Instance waitq_eta : EtaRecord waitq_t := λ q, mk_waitq (wq_threads q) (wq_count q).
#[export] Instance stats_eta : EtaRecord scheduler_stats_t :=
  λ x, mk_stats (total_switches x) (total_tasks x) (running_tasks x) (ready_tasks x) (blocked_tasks x).
#[export] Instance reap_stats_eta : EtaRecord scheduler_reap_stats_t :=
  λ x, mk_reap_stats (queue_len x) (queue_hwm x) (enqueued x) (reaped x) (deferred x) (dropped x)
         (runs x).
#[export] Instance stacks_eta : EtaRecord stack_cache_t :=
  λ c, mk_stacks (cached c) (stack_cache_hits c) (stack_cache_misses c) (stack_cache_retired c)
         (stack_cache_poison_failures c) (stack_words c).
#[export] Instance sched_eta : EtaRecord sched_state :=
  λ s, mk_sched (threads s) (tasks s) (waitqs s) (all_tasks s)
         (all_tasks_by_id s) (next_task_id s) (next_thread_id s) (current_thread s) (current_task s)
         (scheduler_initialized s) (scheduler_running s) (current_policy s) (stats s)
         (in_scheduler s) (ticks_until_preempt s) (ticks_per_slice s) (resched_pending s)
         (sched_ticks s) (ready_queues s) (bucket_last_run_tick s) (waitq_timeouts s)
         (reap_queue s) (reap_head s) (reap_tail s) (reap_stats s) (stacks s) (tss_rsp0 s) (cr3 s)
         (scheduler_kernel_pml4 s) (invalid_changes s).

(** A zeroed structure, read when a pointer does not name one. *)
#[export] Instance thread_inhabited : Inhabited thread_t :=
  populate (mk_thread 0 0 0 0 THREAD_STATE_NEW 0 0 0 0 0 false (replicate 8 0) 0 false 0 false 0 0 0 0
              0 0
              false 0 0 false false 0 false 0).
#[export] Instance task_inhabited : Inhabited task_t :=
  populate (mk_task 0 0 0 TASK_STATE_NEW 0 0 0 0 0 [] [] [] [] 0 false false [] 0 false 0 0 0 []
              0 0 0 0).
#[export] Instance waitq_inhabited : Inhabited waitq_t := populate (mk_waitq [] 0).

Definition thr (s : sched_state) (t : Z) : thread_t := threads s !!! t.
Definition tsk (s : sched_state) (t : Z) : task_t := tasks s !!! t.
Definition wq (s : sched_state) (q : Z) : waitq_t := waitqs s !!! q.
Definition rq (s : sched_state) (q : Z) : list Z := ready_queues s !!! q.

Definition thr_upd (t : Z) (f : thread_t → thread_t) (s : sched_state) : sched_state :=
  s <| threads ::= alter f t |>.
Definition tsk_upd (t : Z) (f : task_t → task_t) (s : sched_state) : sched_state :=
  s <| tasks ::= alter f t |>.
Definition wq_upd (q : Z) (f : waitq_t → waitq_t) (s : sched_state) : sched_state :=
  s <| waitqs ::= alter f q |>.
Definition stats_upd (f : scheduler_stats_t → scheduler_stats_t) (s : sched_state) : sched_state :=
  s <| stats ::= f |>.

Definition tailq_remove (t : Z) (l : list Z) : list Z := filter (λ u, u ≠ t) l.

(** A value converted to a 32-bit [int]. *)
Definition s32 (z : Z) : Z :=
  if u32 z <? 2147483648 then u32 z else u32 z - 4294967296.

(** ** Kernel stacks (task.c)

    A stack that is given back is filled with a poison byte; a cached stack
    whose first or last word lost the poison is freed instead of reused.
    [fresh] is the block that [kmalloc] returns when the cache is empty. *)
Definition KERNEL_STACK_SIZE : Z := 32768.
Definition STACK_CACHE_SIZE : Z := 32.
Definition STACK_POISON_BYTE : Z := 204.

(** The word built by eight shifts of the poison byte. *)
Definition poison_word : Z :=
  foldl (λ p _, Z.lor (u64 (Z.shiftl p 8)) STACK_POISON_BYTE) 0 (seqZ 0 8).

Definition stack_has_poison (c : stack_cache_t) (st : Z) : bool :=
  negb (st =? 0) && (stack_words c !!! st =? poison_word)
  && (stack_words c !!! (st + KERNEL_STACK_SIZE - 8) =? poison_word).

Fixpoint stack_acquire_loop (c : stack_cache_t) (fuel : nat) : option (Z * stack_cache_t) :=
  match reverse (cached c) with
  | [] => Some (0, c)
  | st :: rest =>
      match fuel with
      | O => None
      | S fuel =>
          let c := c <| cached := reverse rest |> <| stack_cache_hits ::= λ n, n +₆₄ 1 |> in
          if st =? 0 then Some (0, c)
          else if negb (stack_has_poison c st) then
            stack_acquire_loop (c <| stack_cache_poison_failures ::= λ n, n +₆₄ 1 |>) fuel
          else Some (st, c)
      end
  end.

Definition task_kernel_stack_acquire (c : stack_cache_t) (fresh : Z) (fuel : nat)
    : option (Z * stack_cache_t) :=
  match stack_acquire_loop c fuel with
  | None => None
  | Some (st, c) =>
      if negb (st =? 0) then Some (st, c)
      else Some (fresh, c <| stack_cache_misses ::= λ n, n +₆₄ 1 |>)
  end.

(** [memset] of the whole stack, word by word. *)
Definition poison_stack (st : Z) (m : gmap Z Z) : gmap Z Z :=
  foldl (λ m k, <[st + 8 * k := poison_word]> m) m (seqZ 0 (KERNEL_STACK_SIZE / 8)).

Definition task_kernel_stack_retire (c : stack_cache_t) (st size : Z) : stack_cache_t :=
  if (st =? 0) || negb (size =? KERNEL_STACK_SIZE) then c
  else
    let c := c <| stack_words ::= poison_stack st |> <| stack_cache_retired ::= λ n, n +₆₄ 1 |> in
    if Z.of_nat (length (cached c)) <? STACK_CACHE_SIZE then c <| cached ::= λ l, l ++ [st] |> else c.

(** ** State changes (state.c) *)
Definition scheduler_thread_transition_valid (from to : thread_state_t) : bool :=
  bool_decide (from = to) ||
  match from, to with
  | THREAD_STATE_NEW, (THREAD_STATE_READY | THREAD_STATE_DEAD) => true
  | THREAD_STATE_READY, (THREAD_STATE_RUNNING | THREAD_STATE_BLOCKED | THREAD_STATE_DEAD) => true
  | THREAD_STATE_RUNNING, (THREAD_STATE_READY | THREAD_STATE_BLOCKED | THREAD_STATE_DEAD) => true
  | THREAD_STATE_BLOCKED, (THREAD_STATE_READY | THREAD_STATE_DEAD) => true
  | THREAD_STATE_SLEEPING, (THREAD_STATE_READY | THREAD_STATE_DEAD) => true
  | _, _ => false
  end.

Definition scheduler_thread_set_state (s : sched_state) (t : Z) (new_state : thread_state_t)
    : sched_state :=
  if t =? 0 then s
  else
    let old_state := thread_state (thr s t) in
    (thr_upd t (λ th, th <| thread_state := new_state |>) s)
      <| invalid_changes ::= λ l, if scheduler_thread_transition_valid old_state new_state then l
                                  else (t, old_state, new_state) :: l |>.

Definition scheduler_task_set_state (s : sched_state) (t : Z) (new_state : task_state_t)
    : sched_state :=
  if t =? 0 then s else tsk_upd t (λ x, x <| task_state := new_state |>) s.

Definition scheduler_set_policy (s : sched_state) (policy : Z) : Z * sched_state :=
  if SCHED_POLICY_CFS <? policy then (-1, s) else (0, s <| current_policy := policy |>).

(** ** Priorities and time slices (runqueue.c) *)
Definition clamp_dyn_priority (value base : Z) : Z :=
  let min := base - PENALTY_MAX in
  let max := base + BOOST_MAX in
  let value := if value <? min then min else value in
  let value := if max <? value then max else value in
  let value := if value <? 0 then 0 else value in
  if 255 <? value then 255 else value.

Definition thread_effective_priority (s : sched_state) (t : Z) : Z :=
  if t =? 0 then SCHEDULER_DEFAULT_PRIORITY
  else
    let th := thr s t in
    if (base_priority th =? 0) && negb (priority th =? 0) then priority th
    else
      let dyn := if 0 <=? dyn_priority th then dyn_priority th else 0 in
      if has_inherited th && (dyn <? inherited_priority th) then inherited_priority th else dyn.

(** The table [bucket_mult]. *)
Definition bucket_mult (bucket : Z) : Z :=
  if bucket =? SCHED_BUCKET_BACKGROUND then 8
  else if bucket =? SCHED_BUCKET_UTILITY then 4
  else if bucket =? SCHED_BUCKET_DEFAULT then 2
  else 1.

Definition scheduler_reset_timeslice (s : sched_state) (t : Z) : sched_state :=
  s <| ticks_until_preempt :=
    if t =? 0 then ticks_per_slice s
    else if sched_class (thr s t) =? SCHED_CLASS_REALTIME then REALTIME_QUANTUM_TICKS
    else
      let base := if ticks_per_slice s =? 0 then 1 else ticks_per_slice s in
      let bucket := sched_bucket (thr s t) in
      let bucket := if SCHED_BUCKET_COUNT <=? bucket then SCHED_BUCKET_DEFAULT else bucket in
      let ticks := base *₃₂ bucket_mult bucket in
      if ticks =? 0 then 1 else ticks |>.

Definition scheduler_update_tss (s : sched_state) (t : Z) : sched_state :=
  if (t =? 0) || (stack (thr s t) =? 0) || (stack_size (thr s t) =? 0) then s
  else s <| tss_rsp0 := stack (thr s t) +₆₄ stack_size (thr s t) -₆₄ 16 |>.

(** ** Ready queues (runqueue.c) *)
Definition ready_thread_is_queued (s : sched_state) (t : Z) : bool :=
  negb (t =? 0) && ready_queued (thr s t).

Definition ready_queue_index_for_thread (s : sched_state) (t : Z) : Z :=
  if t =? 0 then SCHED_BUCKET_DEFAULT
  else if (current_policy s =? SCHED_POLICY_RR) || (current_policy s =? SCHED_POLICY_FIFO)
  then SCHED_BUCKET_DEFAULT
  else
    let bucket := sched_bucket (thr s t) in
    if (bucket <? 0) || (READY_QUEUE_LEVELS <=? bucket) then SCHED_BUCKET_DEFAULT else bucket.

Definition ready_enqueue (s : sched_state) (t : Z) : sched_state :=
  if t =? 0 then s
  else if ready_thread_is_queued s t then s
  else
    let q := ready_queue_index_for_thread s t in
    let q := if (q <? 0) || (READY_QUEUE_LEVELS <=? q) then SCHED_BUCKET_DEFAULT else q in
    let s := s <| ready_queues ::= λ m, <[q := (m !!! q) ++ [t]]> m |> in
    let s := thr_upd t (λ th, th <| ready_queued := true |>) s in
    stats_upd (λ x, x <| ready_tasks ::= λ n, n +₆₄ 1 |>) s.

Definition dequeue_from (s : sched_state) (q : Z) : Z * sched_state :=
  match rq s q with
  | [] => (0, s)
  | t :: _ =>
      let s := s <| ready_queues ::= λ m, <[q := tailq_remove t (m !!! q)]> m |> in
      let s := thr_upd t (λ th, th <| ready_queued := false |>) s in
      let s := stats_upd (λ x, x <| ready_tasks ::= λ n, if 0 <? n then n -₆₄ 1 else n |>) s in
      (t, s <| bucket_last_run_tick ::= <[q := sched_ticks s]> |>)
  end.

Definition bucket_starving (s : sched_state) (b : Z) : bool :=
  negb (bool_decide (rq s b = [])) &&
  (STARVATION_THRESHOLD_TICKS <=? sched_ticks s -₆₄ (bucket_last_run_tick s !!! b)).

(** The first bucket of the list that waited too long. *)
Fixpoint starvation_scan (s : sched_state) (bs : list Z) : option Z :=
  match bs with
  | [] => None
  | b :: bs => if bucket_starving s b then Some b else starvation_scan s bs
  end.

Fixpoint dequeue_first (s : sched_state) (qs : list Z) : Z * sched_state :=
  match qs with
  | [] => (0, s)
  | q :: qs =>
      let '(t, s) := dequeue_from s q in
      if negb (t =? 0) then (t, s) else dequeue_first s qs
  end.

Definition ready_dequeue (s : sched_state) : Z * sched_state :=
  if (current_policy s =? SCHED_POLICY_RR) || (current_policy s =? SCHED_POLICY_FIFO)
  then dequeue_from s SCHED_BUCKET_DEFAULT
  else
    match starvation_scan s [SCHED_BUCKET_BACKGROUND; SCHED_BUCKET_UTILITY; SCHED_BUCKET_DEFAULT] with
    | Some b => dequeue_from s b
    | None => dequeue_first s [SCHED_BUCKET_INTERACTIVE; SCHED_BUCKET_DEFAULT; SCHED_BUCKET_UTILITY;
                               SCHED_BUCKET_BACKGROUND]
    end.

(** ** Adding threads (state.c) *)
Definition scheduler_add_thread (s : sched_state) (t : Z) : Z * sched_state :=
  if t =? 0 then (-1, s)
  else
    let s := scheduler_thread_set_state s t THREAD_STATE_READY in
    let s := thr_upd t (λ th, th <| base_priority := priority th |>
                                 <| dyn_priority := priority th |>
                                 <| inherited_priority := priority th |>
                                 <| has_inherited := false |>) s in
    let s := if negb (sched_bucket_explicit (thr s t))
             then thr_upd t (λ th, th <| sched_bucket := SCHED_BUCKET_DEFAULT |>) s else s in
    let s := ready_enqueue s t in
    (0, stats_upd (λ x, x <| total_tasks ::= λ n, n +₆₄ 1 |>) s).

(** ** Control (control.c) *)
Definition scheduler_yield (s : sched_state) : sched_state :=
  if negb (scheduler_running s) then s else s <| resched_pending := true |>.

Definition scheduler_block (s : sched_state) : sched_state :=
  let cur := current_thread s in
  if cur =? 0 then s
  else if in_scheduler s then s
  else
    let s := scheduler_thread_set_state s cur THREAD_STATE_BLOCKED in
    let s := thr_upd cur (λ th, th <| last_sleep_tick := sched_ticks s |>) s in
    let s := stats_upd (λ x, x <| blocked_tasks ::= λ n, n +₆₄ 1 |>) s in
    s <| resched_pending := true |>.

(** The priority boost of a thread that slept, shared by the two functions
    that wake one. *)
Definition sleep_boost (s : sched_state) (t : Z) : sched_state :=
  if sched_class (thr s t) =? SCHED_CLASS_TIMESHARE then
    let sleep_ticks := sched_ticks s -₆₄ last_sleep_tick (thr s t) in
    if BOOST_THRESHOLD_TICKS <=? sleep_ticks then
      let boost := s32 (sleep_ticks / BOOST_THRESHOLD_TICKS) in
      let boost := if BOOST_MAX <? boost then BOOST_MAX else boost in
      thr_upd t (λ th, th <| dyn_priority :=
                   clamp_dyn_priority (dyn_priority th + boost) (base_priority th) |>) s
    else s
  else s.

Definition dec_blocked (s : sched_state) : sched_state :=
  stats_upd (λ x, x <| blocked_tasks ::= λ n, if 0 <? n then n -₆₄ 1 else n |>) s.

Definition scheduler_unblock (s : sched_state) (t : Z) : sched_state :=
  if t =? 0 then s
  else if bool_decide (thread_state (thr s t) = THREAD_STATE_BLOCKED) then
    let s := sleep_boost s t in
    let s := scheduler_thread_set_state s t THREAD_STATE_READY in
    ready_enqueue (dec_blocked s) t
  else s.

Definition scheduler_wake (s : sched_state) (t : Z) : sched_state :=
  if t =? 0 then s
  else if bool_decide (thread_state (thr s t) = THREAD_STATE_BLOCKED) then
    let s := dec_blocked (sleep_boost s t) in
    let s := ready_enqueue (scheduler_thread_set_state s t THREAD_STATE_READY) t in
    s <| resched_pending := true |>
  else if negb (bool_decide (thread_state (thr s t) = THREAD_STATE_READY)) then
    let s := ready_enqueue (scheduler_thread_set_state s t THREAD_STATE_READY) t in
    s <| resched_pending := true |>
  else if negb (ready_thread_is_queued s t) && negb (t =? current_thread s) then
    (ready_enqueue s t) <| resched_pending := true |>
  else s.

Definition scheduler_set_priority (s : sched_state) (t prio : Z) : sched_state :=
  if t =? 0 then s
  else
    thr_upd t (λ th,
      let th := th <| priority := prio |> <| base_priority := prio |> <| dyn_priority := prio |> in
      if has_inherited th && (inherited_priority th <? dyn_priority th)
      then th <| inherited_priority := dyn_priority th |> else th) s.

(** [inherit_stack] has 8 elements. *)
Definition scheduler_inherit_priority (s : sched_state) (target donor : Z) : sched_state :=
  if (target =? 0) || (donor =? 0) then s
  else
    let donor_prio := thread_effective_priority s donor in
    thr_upd target (λ th,
      let th :=
        if inherit_depth th <? 8 then
          th <| inherit_stack ::= <[Z.to_nat (inherit_depth th) := inherited_priority th]> |>
             <| inherit_depth ::= λ n, n + 1 |>
        else th <| has_inherit_overflow := true |> in
      if negb (has_inherited th) || (inherited_priority th <? donor_prio)
      then th <| inherited_priority := donor_prio |> <| has_inherited := true |> else th) s.

Definition scheduler_clear_inherit (s : sched_state) (target : Z) : sched_state :=
  if target =? 0 then s
  else
    thr_upd target (λ th,
      let th :=
        if has_inherit_overflow th then
          th <| inherited_priority := base_priority th |> <| inherit_depth := 0 |>
             <| has_inherit_overflow := false |>
        else if 0 <? inherit_depth th then
          let d := inherit_depth th - 1 in
          th <| inherit_depth := d |> <| inherited_priority := inherit_stack th !!! Z.to_nat d |>
        else th <| inherited_priority := dyn_priority th |> in
      th <| has_inherited := false |>) s.

Definition scheduler_set_bucket (s : sched_state) (t bucket : Z) : sched_state :=
  if t =? 0 then s
  else if SCHED_BUCKET_COUNT <=? bucket then s
  else thr_upd t (λ th, th <| sched_bucket := u8 bucket |> <| sched_bucket_explicit := true |>) s.

End Sched.
