(* ===== verification/Waitq.v ===== *)
(** * Wait queues (kernel/common/waitq.c), the timer tick and the switch
    (scheduler/tick.c, scheduler/switch.c), thread exit and the reaper
    (scheduler/control.c, scheduler/reaper.c)

    A thread that waits runs [waitq_wait_until]; its loop blocks and raises
    the timer interrupt until the thread is off the queue.  The function is
    split where the processor is given away: [waitq_wait_begin] is the part
    before the loop, [waitq_wait_round] one round of the loop up to the
    switch, [waitq_wait_end] the part after the loop. *)

From stdpp Require Import base gmap list numbers fin_maps.
From S2P Require Import Prelude Sched.

Module Waitq.
Import Sched.

(** ** Timeouts *)
Definition waitq_disarm_timeout (s : sched_state) (t : Z) : sched_state :=
  if (t =? 0) || negb (wait_timeout_armed (thr s t)) then s
  else
    let s := s <| waitq_timeouts ::= tailq_remove t |> in
    thr_upd t (λ th, th <| wait_timeout_armed := false |> <| wait_deadline_tick := 0 |>) s.

Definition waitq_arm_timeout (s : sched_state) (t deadline_ticks : Z) : sched_state :=
  if (t =? 0) || (deadline_ticks =? 0) then s
  else
    let s := if wait_timeout_armed (thr s t) then waitq_disarm_timeout s t else s in
    let s := thr_upd t (λ th, th <| wait_deadline_tick := deadline_ticks |>) s in
    let s := s <| waitq_timeouts ::= λ l, l ++ [t] |> in
    thr_upd t (λ th, th <| wait_timeout_armed := true |>) s.

Definition waitq_deadline_from_timeout_ms (s : sched_state) (timeout_ms : Z) : Z :=
  if timeout_ms =? 0 then 0
  else
    let ticks := (timeout_ms +₆₄ (SCHEDULER_TIME_SLICE_MS - 1)) / SCHEDULER_TIME_SLICE_MS in
    let ticks := if ticks =? 0 then 1 else ticks in
    sched_ticks s +₆₄ ticks.

(** ** Queue operations *)
Definition waitq_init (s : sched_state) (q : Z) : sched_state :=
  if q =? 0 then s else s <| waitqs ::= <[q := mk_waitq [] 0]> |>.

Definition waitq_contains (s : sched_state) (q t : Z) : bool :=
  if (q =? 0) || (t =? 0) then false else waitq_owner (thr s t) =? q.

Definition waitq_enqueue (s : sched_state) (q t : Z) : Z * sched_state :=
  if (q =? 0) || (t =? 0) then (RDNX_E_INVALID, s)
  else if waitq_owner (thr s t) =? q then (RDNX_E_BUSY, s)
  else if negb (waitq_owner (thr s t) =? 0) then (RDNX_E_BUSY, s)
  else
    let s := wq_upd q (λ w, w <| wq_threads ::= λ l, l ++ [t] |>) s in
    let s := thr_upd t (λ th, th <| waitq_owner := q |>) s in
    (RDNX_OK, wq_upd q (λ w, w <| wq_count ::= λ n, n +₃₂ 1 |>) s).

Definition dec_count (s : sched_state) (q : Z) : sched_state :=
  wq_upd q (λ w, w <| wq_count ::= λ n, if 0 <? n then n -₃₂ 1 else n |>) s.

(** Unlinking a thread, shared by removal and dequeue. *)
Definition waitq_unlink (s : sched_state) (q t : Z) : sched_state :=
  let s := wq_upd q (λ w, w <| wq_threads ::= tailq_remove t |>) s in
  let s := thr_upd t (λ th, th <| waitq_owner := 0 |> <| wait_timed_out := false |>) s in
  dec_count (waitq_disarm_timeout s t) q.

Definition waitq_remove (s : sched_state) (q t : Z) : Z * sched_state :=
  if (q =? 0) || (t =? 0) then (RDNX_E_INVALID, s)
  else if negb (waitq_owner (thr s t) =? q) then (RDNX_E_NOTFOUND, s)
  else (RDNX_OK, waitq_unlink s q t).

Definition waitq_dequeue (s : sched_state) (q : Z) : Z * sched_state :=
  if q =? 0 then (0, s)
  else
    match wq_threads (wq s q) with
    | [] => (0, s)
    | t :: _ => (t, waitq_unlink s q t)
    end.

Definition waitq_wake_one (s : sched_state) (q : Z) : Z * sched_state :=
  let '(t, s) := waitq_dequeue s q in
  if t =? 0 then (0, s) else (t, scheduler_wake s t).

Fixpoint wake_all_loop (fuel : nat) (s : sched_state) (q woke : Z) : option (Z * sched_state) :=
  match fuel with
  | O => None
  | S fuel =>
      let '(t, s) := waitq_wake_one s q in
      if t =? 0 then Some (woke, s) else wake_all_loop fuel s q (woke +₃₂ 1)
  end.

Definition waitq_wake_all (fuel : nat) (s : sched_state) (q : Z) : option (Z * sched_state) :=
  if q =? 0 then Some (0, s) else wake_all_loop fuel s q 0.

Definition waitq_count (s : sched_state) (q : Z) : Z := if q =? 0 then 0 else wq_count (wq s q).
Definition waitq_timed_count (s : sched_state) : Z := u32 (Z.of_nat (length (waitq_timeouts s))).

(** ** The tick of the timeout list

    The loop saves the successor before the body, and the body removes at
    most the visited thread, so it visits the list as it was. *)
Definition timeout_step (now_ticks : Z) (s : sched_state) (it : Z) : sched_state :=
  if negb (wait_timeout_armed (thr s it)) || (wait_deadline_tick (thr s it) =? 0)
  then waitq_disarm_timeout s it
  else if now_ticks <? wait_deadline_tick (thr s it) then s
  else
    let owner := waitq_owner (thr s it) in
    let s := thr_upd it (λ th, th <| wait_timed_out := true |>) s in
    let s := waitq_disarm_timeout s it in
    let s :=
      if negb (owner =? 0) && waitq_contains s owner it then
        let s := wq_upd owner (λ w, w <| wq_threads ::= tailq_remove it |>) s in
        let s := thr_upd it (λ th, th <| waitq_owner := 0 |>) s in
        dec_count s owner
      else s in
    scheduler_wake s it.

Definition waitq_tick (s : sched_state) (now_ticks : Z) : sched_state :=
  foldl (timeout_step now_ticks) s (waitq_timeouts s).

(** ** The timer tick (tick.c) *)

(** The accounting of the running thread and its task. *)
Definition charge_current (s : sched_state) : sched_state :=
  let cur := current_thread s in
  if negb (cur =? 0) && bool_decide (thread_state (thr s cur) = THREAD_STATE_RUNNING) then
    let s := thr_upd cur (λ th, th <| sched_usage ::= λ n, (n *₃₂ 7) / 8 +₃₂ 1 |>) s in
    let s :=
      if negb (task_of (thr s cur) =? 0) then
        tsk_upd (task_of (thr s cur))
          (λ x, x <| cpu_ticks ::= λ n, n +₆₄ 1 |> <| last_run_tick := sched_ticks s |>) s
      else s in
    if (sched_class (thr s cur) =? SCHED_CLASS_TIMESHARE)
       && (sched_usage (thr s cur) mod PENALTY_STEP_TICKS =? 0) then
      thr_upd cur (λ th, th <| dyn_priority :=
                     clamp_dyn_priority (dyn_priority th - 1) (base_priority th) |>) s
    else s
  else s.

(** The time slice. *)
Definition count_down (s : sched_state) : sched_state :=
  let n := if 0 <? ticks_until_preempt s then ticks_until_preempt s - 1 else ticks_until_preempt s in
  if n =? 0 then s <| ticks_until_preempt := ticks_per_slice s |> <| resched_pending := true |>
  else s <| ticks_until_preempt := n |>.

Definition scheduler_tick (s : sched_state) : sched_state :=
  if negb (scheduler_running s) then s
  else
    let s := s <| sched_ticks ::= λ n, n +₆₄ 1 |> in
    let s := waitq_tick s (sched_ticks s) in
    count_down (charge_current s).

Definition scheduler_set_tick_rate (s : sched_state) (hz : Z) : sched_state :=
  if hz =? 0 then s
  else
    let ticks := (hz *₃₂ SCHEDULER_TIME_SLICE_MS +₃₂ 999) / 1000 in
    let ticks := if ticks =? 0 then 1 else ticks in
    let s := s <| ticks_per_slice := ticks |> in
    if ticks_per_slice s <? ticks_until_preempt s
    then s <| ticks_until_preempt := ticks_per_slice s |> else s.

(** ** The reap ring (reaper.c) *)
Definition REAP_QUEUE_SIZE : Z := 64.
Definition REAP_GRACE_TICKS : Z := 128.

Definition scheduler_reap_queue_len (s : sched_state) : Z :=
  (reap_tail s +₃₂ REAP_QUEUE_SIZE -₃₂ reap_head s) mod REAP_QUEUE_SIZE.

Definition scheduler_reap_peek (s : sched_state) : Z :=
  if reap_head s =? reap_tail s then 0 else reap_queue s !!! reap_head s.

Definition scheduler_reap_dequeue (s : sched_state) : Z * sched_state :=
  if reap_head s =? reap_tail s then (0, s)
  else
    let t := reap_queue s !!! reap_head s in
    let s := s <| reap_queue ::= <[reap_head s := 0]> |> in
    (t, s <| reap_head ::= λ h, (h +₃₂ 1) mod REAP_QUEUE_SIZE |>).

Definition reap_upd (f : scheduler_reap_stats_t → scheduler_reap_stats_t) (s : sched_state)
    : sched_state := s <| reap_stats ::= f |>.

Definition scheduler_reap_enqueue (s : sched_state) (t : Z) : outcome sched_state :=
  if (t =? 0) || reap_queued (thr s t) then Done s
  else
    let next_tail := (reap_tail s +₃₂ 1) mod REAP_QUEUE_SIZE in
    if next_tail =? reap_head s then Panic
    else
      let s := thr_upd t (λ th, th <| reap_after_tick := sched_ticks s +₆₄ REAP_GRACE_TICKS |>
                                   <| reap_queued := true |>) s in
      let s := s <| reap_queue ::= <[reap_tail s := t]> |> <| reap_tail := next_tail |> in
      let s := reap_upd (λ x, x <| enqueued ::= λ n, n +₆₄ 1 |>) s in
      let qlen := scheduler_reap_queue_len s in
      Done (reap_upd (λ x, if queue_hwm x <? qlen then x <| queue_hwm := qlen |> else x) s).

(** ** The switch (switch.c) *)
Definition scheduler_switch_address_space (s : sched_state) (next : Z) : sched_state :=
  let s := if scheduler_kernel_pml4 s =? 0 then s <| scheduler_kernel_pml4 := cr3 s |> else s in
  if next =? 0 then s
  else
    let task := task_of (thr s next) in
    let target :=
      if negb (task =? 0) && negb (address_space (tsk s task) =? 0)
      then address_space (tsk s task) else scheduler_kernel_pml4 s in
    if negb (target =? 0) && negb (cr3 s =? target) then s <| cr3 := target |> else s.

(** What both switch paths do with the thread that runs next. *)
Definition switch_to (s : sched_state) (next : Z) : sched_state :=
  let s := s <| current_thread := next |> in
  let s := if negb (task_of (thr s next) =? 0) then s <| current_task := task_of (thr s next) |> else s in
  let s := scheduler_update_tss (scheduler_switch_address_space s next) next in
  stats_upd (λ x, x <| running_tasks := 1 |> <| total_switches ::= λ n, n +₆₄ 1 |>) s.

(** [in_scheduler] is set at the entry and cleared at every exit; nothing in
    between reads it. *)
Definition scheduler_switch_from_irq (s : sched_state) (frame : Z) : outcome (Z * sched_state) :=
  if negb (scheduler_running s) || (frame =? 0) then Done (frame, s)
  else if in_scheduler s then Done (frame, s)
  else
    let cur := current_thread s in
    if negb (cur =? 0) && negb (resched_pending s) then Done (frame, s)
    else
      let s := s <| resched_pending := false |> in
      if cur =? 0 then
        let '(first, s) := ready_dequeue s in
        if first =? 0 then Panic
        else
          let s := switch_to s first in
          let s := scheduler_thread_set_state s first THREAD_STATE_RUNNING in
          let s := scheduler_reset_timeslice s first in
          Done (stack_pointer (thr s first), s)
      else
        let s := thr_upd cur (λ th, th <| stack_pointer := frame |>) s in
        let s :=
          if bool_decide (thread_state (thr s cur) = THREAD_STATE_RUNNING)
          then ready_enqueue (scheduler_thread_set_state s cur THREAD_STATE_READY) cur else s in
        let '(next, s) := ready_dequeue s in
        if (next =? 0) || (next =? cur) then
          if negb (bool_decide (thread_state (thr s cur) = THREAD_STATE_DEAD))
          then Done (frame, scheduler_thread_set_state s cur THREAD_STATE_RUNNING)
          else Panic
        else
          let s := switch_to s next in
          let s := if bool_decide (thread_state (thr s cur) = THREAD_STATE_RUNNING)
                   then scheduler_thread_set_state s cur THREAD_STATE_READY else s in
          let! s := (if bool_decide (thread_state (thr s cur) = THREAD_STATE_DEAD)
                     then scheduler_reap_enqueue s cur else Done s) in
          let s := scheduler_thread_set_state s next THREAD_STATE_RUNNING in
          let s := scheduler_reset_timeslice s next in
          Done (stack_pointer (thr s next), s).

(** The timer interrupt as [interrupt_dispatch] handles it for the
    scheduler. *)
Definition timer_interrupt (s : sched_state) (frame : Z) : outcome (Z * sched_state) :=
  scheduler_switch_from_irq (scheduler_tick s) frame.

(** ** Waiting *)
Definition waitq_wait_begin (s : sched_state) (q deadline_ticks : Z) : Z * sched_state :=
  if q =? 0 then (RDNX_E_INVALID, s)
  else
    let self := current_thread s in
    if self =? 0 then (RDNX_E_INVALID, s)
    else
      let s := thr_upd self (λ th, th <| wait_timed_out := false |>) s in
      let '(qret, s) :=
        if negb (waitq_contains s q self) then waitq_enqueue s q self else (RDNX_OK, s) in
      if negb (qret =? RDNX_OK) && negb (qret =? RDNX_E_BUSY) then (qret, s)
      else (RDNX_OK, if negb (deadline_ticks =? 0) then waitq_arm_timeout s self deadline_ticks else s).

Definition waitq_wait_round (s : sched_state) (frame : Z) : outcome (Z * sched_state) :=
  timer_interrupt (scheduler_block s) frame.

Definition waitq_wait_end (s : sched_state) : Z * sched_state :=
  let self := current_thread s in
  let ret := if wait_timed_out (thr s self) then RDNX_E_TIMEOUT else RDNX_OK in
  (ret, thr_upd self (λ th, th <| wait_timed_out := false |>) s).

(** [waitq_wait] and [scheduler_sleep] up to the loop; [sleep_q] is the address
    of [scheduler_sleep_waitq]. *)
Definition waitq_wait (s : sched_state) (q timeout_ms : Z) : Z * sched_state :=
  waitq_wait_begin s q (waitq_deadline_from_timeout_ms s timeout_ms).

Definition scheduler_sleep (s : sched_state) (sleep_q milliseconds : Z) : sched_state :=
  if current_thread s =? 0 then s
  else if milliseconds =? 0 then scheduler_yield s
  else (waitq_wait s sleep_q milliseconds).2.

(** ** Initialisation (state.c) *)
Definition scheduler_init (s : sched_state) (sleep_q : Z) : sched_state :=
  if scheduler_initialized s then s
  else
    let s := s <| current_thread := 0 |> <| current_policy := SCHED_POLICY_PRIORITY |>
               <| scheduler_running := false |> in
    let s := foldl (λ s i, s <| ready_queues ::= <[i := []]> |>
                             <| bucket_last_run_tick ::= <[i := 0]> |>)
                   s (seqZ 0 READY_QUEUE_LEVELS) in
    let s := waitq_init s sleep_q in
    let s := s <| ticks_per_slice := 1 |> <| ticks_until_preempt := 1 |>
               <| resched_pending := false |> <| sched_ticks := 0 |> in
    let s := stats_upd (λ x, x <| running_tasks := 0 |> <| ready_tasks := 0 |>
                               <| blocked_tasks := 0 |>) s in
    s <| scheduler_initialized := true |>.

(** ** Thread exit (control.c), up to the interrupt that switches away *)
Definition scheduler_exit_wake_joiner (s : sched_state) (exiting : Z) : sched_state :=
  if (exiting =? 0) || (joiner (thr s exiting) =? 0) then s
  else
    let j := joiner (thr s exiting) in
    let s := thr_upd exiting (λ th, th <| joiner := 0 |>) s in
    let s := thr_upd j (λ th, th <| priority := 220 |> <| base_priority := 220 |>
                                 <| dyn_priority := 220 |> <| inherited_priority := 220 |>
                                 <| has_inherited := false |>) s in
    scheduler_wake s j.

Definition scheduler_exit_mark (s : sched_state) : sched_state :=
  let cur := current_thread s in
  if cur =? 0 then s
  else
    let s := scheduler_exit_wake_joiner s cur in
    let s := scheduler_thread_set_state s cur THREAD_STATE_DEAD in
    let task := task_of (thr s cur) in
    let s :=
      if negb (task =? 0) && negb (bool_decide (task_state (tsk s task) = TASK_STATE_DEAD))
      then scheduler_task_set_state s task TASK_STATE_ZOMBIE else s in
    s <| resched_pending := true |>.

Definition scheduler_exit_current (s : sched_state) (frame : Z) : outcome (Z * sched_state) :=
  if current_thread s =? 0 then Done (frame, s)
  else timer_interrupt (scheduler_exit_mark s) frame.

End Waitq.
