(* ===== verification/Task.v ===== *)
(** * Tasks, threads and the reaper (kernel/common/task.c,
    kernel/common/scheduler/reaper.c)

    Creation and destruction of tasks and threads, the task registry, the
    descriptor slots of a task, and the reaper that frees dead threads.

    [kmalloc] of a structure does not clear it: the creation functions take
    the block that it returned with its old content ([blocks]), and fields
    that the code does not assign keep that content.  Freeing a structure
    removes it from its store.  The release of a task's descriptors and
    address space changes the state of other components only. *)

From stdpp Require Import base gmap list numbers fin_maps.
From S2P Require Import Prelude Sched Waitq.

Module Task.
Import Sched Waitq.

Definition TASK_MAX_FD : Z := 32.
Definition TASK_ABI_NATIVE : Z := 0.
Definition TASK_ABI_LINUX : Z := 1.
Definition TASK_CWD_MAX : Z := 256.

(** ** The registry *)

(** [addr] is the block that [kmalloc] returned, 0 when there is none, [cwd0]
    the old content of its [cwd] array and [group0] that of the CPU accounting, which the code does
    not set. *)
Definition task_create (s : sched_state) (addr : Z) (cwd0 : list Z) (group0 : Z * Z) : sched_state :=
  let x := {|
    task_id := next_task_id s; parent_task_id := 0; address_space := 0;
    task_state := TASK_STATE_NEW; uid := 0; gid := 0; euid := 0; egid := 0; umask := 18;
    fd_table := replicate 32 0; fd_flags := replicate 32 0; fd_kind := replicate 32 0;
    cwd := <[1%nat := 0]> (<[0%nat := 47]> cwd0);
    exit_code := 0; exited := false; waited := false;
    sigaction := replicate 32 (mk_sigaction 0 0 0 0); sig_pending := 0; sig_in_handler := false;
    abi := TASK_ABI_NATIVE; tls_fs_base := 0; main_thread := 0; task_threads := [];
    thread_count := 0; ref_count := 1; cpu_ticks := group0.1; last_run_tick := group0.2 |} in
  if addr =? 0 then s
  else
  s <| tasks ::= <[addr := x]> |>
    <| all_tasks ::= cons addr |>
    <| all_tasks_by_id ::= λ m, match m !! next_task_id s with
                                | Some _ => m
                                | None => <[next_task_id s := addr]> m
                                end |>
    <| next_task_id ::= λ n, n +₆₄ 1 |>.

Definition task_find_by_id (s : sched_state) (id : Z) : Z :=
  if id =? 0 then 0 else default 0 (all_tasks_by_id s !! id).

(** ** Threads *)

(** What [kmalloc] returned for the thread structure, with its old content, and
    for a stack that the cache does not have; 0 when memory is short. *)
Record blocks := mk_blocks {
  b_thread : Z;
  b_content : thread_t;
  b_stack : Z
}.

(** The 26 words of an [interrupt_frame_t], in the order of the struct. *)
Definition FRAME_WORDS : Z := 26.
Definition FR_RAX : nat := 18.
Definition FR_RIP : nat := 21.
Definition FR_CS : nat := 22.
Definition FR_RFLAGS : nat := 23.
Definition FR_RSP : nat := 24.
Definition FR_SS : nat := 25.

Definition write_frame (sp : Z) (fr : list Z) (m : gmap Z Z) : gmap Z Z :=
  foldl (λ m k, <[sp + 8 * k := fr !!! Z.to_nat k]> m) m (seqZ 0 FRAME_WORDS).

Definition frame_address (st : Z) : Z :=
  Z.land (st +₆₄ KERNEL_STACK_SIZE) (not64 15) -₆₄ 8 -₆₄ 8 * FRAME_WORDS.

(** The assignments that the two creation functions share. *)
Definition init_thread (s : sched_state) (b : thread_t) (task st sp pc entry arg : Z) : thread_t :=
  b <| thread_id := next_thread_id s |> <| task_of := task |> <| stack_pointer := sp |>
    <| program_counter := pc |> <| thread_state := THREAD_STATE_NEW |>
    <| sched_class := SCHED_CLASS_TIMESHARE |> <| priority := PRIORITY_DEFAULT |>
    <| base_priority := PRIORITY_DEFAULT |> <| dyn_priority := PRIORITY_DEFAULT |>
    <| inherited_priority := PRIORITY_DEFAULT |> <| has_inherited := false |>
    <| inherit_depth := 0 |>
    <| inherit_stack ::= λ l, foldl (λ l i, <[i := PRIORITY_DEFAULT]> l) l (seq 0 4) |>
    <| sched_usage := 0 |> <| last_sleep_tick := 0 |> <| Sched.entry := entry |>
    <| entry_arg := arg |> <| stack := st |> <| stack_size := KERNEL_STACK_SIZE |>
    <| ready_queued := false |> <| waitq_owner := 0 |> <| wait_deadline_tick := 0 |>
    <| wait_timeout_armed := false |> <| wait_timed_out := false |> <| joiner := 0 |>
    <| reap_queued := false |> <| reap_after_tick := 0 |>.

(** The tail of both creation functions: the thread enters the store and the
    list of its task. *)
Definition link_thread (s : sched_state) (task t : Z) (th : thread_t) : sched_state :=
  let s := s <| threads ::= <[t := th]> |> <| next_thread_id ::= λ n, n +₆₄ 1 |> in
  tsk_upd task (λ x,
    let x := x <| thread_count ::= λ n, n +₃₂ 1 |> <| task_threads ::= λ l, l ++ [t] |> in
    if main_thread x =? 0 then x <| main_thread := t |> else x) s.

(** [trampoline] is the address of [thread_trampoline] and [cs] the code
    segment of the caller. *)
Definition thread_create (s : sched_state) (b : blocks) (task entry arg trampoline cs : Z)
    (fuel : nat) : option (Z * sched_state) :=
  if (task =? 0) || (entry =? 0) then Some (0, s)
  else if b_thread b =? 0 then Some (0, s)
  else
    match task_kernel_stack_acquire (stacks s) (b_stack b) fuel with
    | None => None
    | Some (st, c) =>
        if st =? 0 then Some (0, s <| stacks := c |>) else
        let sp := frame_address st in
        let fr := <[FR_SS := 16]> (<[FR_RSP := st + KERNEL_STACK_SIZE - 8]>
                    (<[FR_RFLAGS := 514]> (<[FR_CS := cs]> (<[FR_RIP := trampoline]>
                       (replicate (Z.to_nat FRAME_WORDS) 0))))) in
        let s := s <| stacks := c <| stack_words ::= write_frame sp fr |> |> in
        let th := init_thread s (b_content b) task st sp trampoline entry arg in
        Some (b_thread b, link_thread s task (b_thread b) th)
    end.

(** [fr] is the frame that [frame], nonzero, points to. *)
Definition thread_create_user_clone (s : sched_state) (b : blocks) (task frame : Z) (fr : list Z)
    (fuel : nat) : option (Z * sched_state) :=
  if (task =? 0) || (frame =? 0) then Some (0, s)
  else if b_thread b =? 0 then Some (0, s)
  else
    match task_kernel_stack_acquire (stacks s) (b_stack b) fuel with
    | None => None
    | Some (st, c) =>
        if st =? 0 then Some (0, s <| stacks := c |>) else
        let sp := frame_address st in
        let s := s <| stacks := c <| stack_words ::= write_frame sp (<[FR_RAX := 0]> fr) |> |> in
        let th := init_thread s (b_content b) task st sp (fr !!! FR_RIP) 0 0 in
        Some (b_thread b, link_thread s task (b_thread b) th)
    end.

(** A thread gives its stack back, if it has one. *)
Definition retire_stack (s : sched_state) (t : Z) : sched_state :=
  s <| stacks ::= λ c, if negb (stack (thr s t) =? 0)
                       then task_kernel_stack_retire c (stack (thr s t)) (stack_size (thr s t))
                       else c |>.

Definition thread_destroy (s : sched_state) (t : Z) : sched_state :=
  if t =? 0 then s
  else
    let task := task_of (thr s t) in
    let s :=
      if negb (task =? 0) then
        tsk_upd task (λ x, x <| task_threads ::= tailq_remove t |>
                             <| thread_count ::= λ n, if 0 <? n then n -₃₂ 1 else n |>) s
      else s in
    (retire_stack s t) <| threads ::= delete t |>.

Definition task_destroy (s : sched_state) (task : Z) : sched_state :=
  if task =? 0 then s
  else
    let s := s <| all_tasks ::= tailq_remove task |>
               <| all_tasks_by_id ::= delete (task_id (tsk s task)) |> in
    let s := foldl thread_destroy s (task_threads (tsk s task)) in
    s <| tasks ::= delete task |>.

(** ** Descriptor slots and identity *)
Definition task_set_ids (s : sched_state) (task u g eu eg : Z) : sched_state :=
  if task =? 0 then s
  else tsk_upd task (λ x, x <| uid := u |> <| gid := g |> <| euid := eu |> <| egid := eg |>) s.

Definition task_set_abi (s : sched_state) (task a : Z) : sched_state :=
  if task =? 0 then s else tsk_upd task (λ x, x <| abi := u8 a |>) s.

Definition task_get_abi (s : sched_state) (task : Z) : Z :=
  if task =? 0 then TASK_ABI_NATIVE
  else if abi (tsk s task) =? TASK_ABI_LINUX then TASK_ABI_LINUX else TASK_ABI_NATIVE.

Fixpoint free_slot (l : list Z) (i : nat) : option nat :=
  match l with
  | [] => None
  | h :: l => if h =? 0 then Some i else free_slot l (S i)
  end.

Definition task_fd_alloc (s : sched_state) (task handle : Z) : Z * sched_state :=
  if (task =? 0) || (handle =? 0) then (RDNX_E_INVALID, s)
  else
    match free_slot (fd_table (tsk s task)) 0 with
    | None => (RDNX_E_BUSY, s)
    | Some i =>
        (Z.of_nat i, tsk_upd task (λ x, x <| fd_table ::= <[i := handle]> |>
                                          <| fd_flags ::= <[i := 0]> |>
                                          <| fd_kind ::= <[i := 0]> |>) s)
    end.

Definition task_fd_get (s : sched_state) (task fd : Z) : Z :=
  if (task =? 0) || (fd <? 0) || (TASK_MAX_FD <=? fd) then 0
  else fd_table (tsk s task) !!! Z.to_nat fd.

Definition task_fd_close (s : sched_state) (task fd : Z) : Z * sched_state :=
  if (task =? 0) || (fd <? 0) || (TASK_MAX_FD <=? fd) then (RDNX_E_INVALID, s)
  else if fd_table (tsk s task) !!! Z.to_nat fd =? 0 then (RDNX_E_INVALID, s)
  else
    (RDNX_OK, tsk_upd task (λ x, x <| fd_table ::= <[Z.to_nat fd := 0]> |>
                                   <| fd_flags ::= <[Z.to_nat fd := 0]> |>
                                   <| fd_kind ::= <[Z.to_nat fd := 0]> |>) s).

(** ** The reaper *)

(** What becomes of the task of a freed thread; the current task is left
    alone. *)
Definition reap_owner (s : sched_state) (owner : Z) : sched_state :=
  if negb (owner =? 0) && negb (owner =? current_task s) then
    if thread_count (tsk s owner) =? 0 then
      if parent_task_id (tsk s owner) =? 0 then
        task_destroy (scheduler_task_set_state s owner TASK_STATE_DEAD) owner
      else if waited (tsk s owner) then
        task_destroy (scheduler_task_set_state s owner TASK_STATE_DEAD) owner
      else scheduler_task_set_state s owner TASK_STATE_ZOMBIE
    else scheduler_task_set_state s owner TASK_STATE_ZOMBIE
  else s.

(** The task of the thread [dead] forgets it. *)
Definition task_forget (dead : Z) (x : task_t) : task_t :=
  let x := x <| task_threads ::= tailq_remove dead |>
             <| thread_count ::= λ n, if 0 <? n then n -₃₂ 1 else n |> in
  if main_thread x =? dead then x <| main_thread := 0 |> else x.

(** The body of the loop for the thread [dead] taken off the ring. *)
Definition reap_thread (s : sched_state) (dead : Z) : sched_state :=
  let s := thr_upd dead (λ th, th <| reap_queued := false |>) s in
  let owner := task_of (thr s dead) in
  let s := if negb (owner =? 0) then tsk_upd owner (task_forget dead) s else s in
  let s := (retire_stack s dead) <| threads ::= delete dead |> in
  let s := reap_upd (λ x, x <| reaped ::= λ n, n +₆₄ 1 |>) s in
  reap_owner s owner.

Fixpoint reap_loop (fuel : nat) (s : sched_state) : option sched_state :=
  let head := scheduler_reap_peek s in
  if head =? 0 then Some s
  else if sched_ticks s <? reap_after_tick (thr s head)
  then Some (reap_upd (λ x, x <| deferred ::= λ n, n +₆₄ 1 |>) s)
  else
    match fuel with
    | O => None
    | S fuel =>
        let '(dead, s) := scheduler_reap_dequeue s in
        if dead =? 0 then Some s else reap_loop fuel (reap_thread s dead)
    end.

Definition scheduler_reap_dead_threads (fuel : nat) (s : sched_state) : option sched_state :=
  reap_loop fuel (reap_upd (λ x, x <| runs ::= λ n, n +₆₄ 1 |>) s).

Definition scheduler_reap_finished (fuel : nat) (s : sched_state) : option sched_state :=
  match scheduler_reap_dead_threads fuel s with
  | None => None
  | Some s => Some (reap_upd (λ x, x <| queue_len := scheduler_reap_queue_len s |>) s)
  end.

(** [reaper] is the variable [reaper_thread], which the function returns; [main]
    is the address of [scheduler_reaper_main]. *)
Definition scheduler_reaper_start (s : sched_state) (reaper addr : Z) (cwd0 : list Z)
    (group0 : Z * Z) (b : blocks) (main trampoline cs : Z) (fuel : nat) : option (Z * sched_state) :=
  if negb (reaper =? 0) then Some (reaper, s)
  else if addr =? 0 then Some (0, s)
  else
    let s := task_create s addr cwd0 group0 in
    let s := scheduler_task_set_state s addr TASK_STATE_READY in
    match thread_create s b addr main 0 trampoline cs fuel with
    | None => None
    | Some (t, s) =>
        if t =? 0 then Some (0, task_destroy s addr)
        else
          let s := thr_upd t (λ th, th <| priority := 16 |>) s in
          let s := scheduler_set_bucket s t SCHED_BUCKET_BACKGROUND in
          Some (t, (scheduler_add_thread s t).2)
    end.

(** What [scheduler_start] does after the reaper started and before its
    [int $32]. *)
Definition scheduler_run (s : sched_state) : sched_state :=
  s <| scheduler_running := true |> <| ticks_until_preempt := ticks_per_slice s |>
    <| resched_pending := true |>.

(** [scheduler_start] with the interrupt that dispatches the first thread;
    [frame] is the frame of the interrupt. *)
Definition scheduler_start (s : sched_state) (sleep_q reaper addr : Z) (cwd0 : list Z)
    (group0 : Z * Z) (b : blocks) (main trampoline cs : Z) (fuel : nat) (frame : Z)
    : option (outcome (Z * sched_state)) :=
  let s := scheduler_init s sleep_q in
  match scheduler_reaper_start s reaper addr cwd0 group0 b main trampoline cs fuel with
  | None => None
  | Some (_, s) => Some (timer_interrupt (scheduler_run s) frame)
  end.

End Task.
