(* ===== verification/SchedInv.v ===== *)
(** * Lemmas on the scheduler: the stores, the ready queues and the frames

    Every operation is built from few primitive updates.  [run_frame] says
    that a step leaves what the run queues depend on unchanged, [wait_frame]
    the same for the wait queues and timeouts, [ring_frame] for the reap ring
    and [task_frame] for the tasks; the invariants of [SchedInv] are kept by
    every step inside their frame. *)

From stdpp Require Import base gmap list numbers fin_maps.
From S2P Require Import Prelude Sched Waitq Task.

Module SchedFacts.
Import Sched Waitq Task.

(** ** The store of threads *)
Definition exists_thread (s : sched_state) (t : Z) : Prop := is_Some (threads s !! t).

Lemma thr_upd_same s t f : exists_thread s t → thr (thr_upd t f s) t = f (thr s t).
Proof.
  intros [th E]. unfold thr, thr_upd, field_update. cbn.
  by rewrite !lookup_total_alt, lookup_alter_eq, E.
Qed.

Lemma thr_upd_other s t u f : t ≠ u → thr (thr_upd t f s) u = thr s u.
Proof.
  intros H. unfold thr, thr_upd, field_update. cbn. by rewrite !lookup_total_alt, lookup_alter_ne.
Qed.

(** A field that the update keeps has its old value in every thread. *)
Lemma thr_upd_keep {A} (g : thread_t → A) s t u f :
  (∀ th, g (f th) = g th) → g (thr (thr_upd t f s) u) = g (thr s u).
Proof.
  intros H. unfold thr, thr_upd, field_update. cbn. rewrite !lookup_total_alt.
  destruct (decide (t = u)) as [->|]; [|by rewrite lookup_alter_ne].
  rewrite lookup_alter_eq. destruct (threads s !! u); [apply H|done].
Qed.

Lemma exists_thr_upd s t u f : exists_thread (thr_upd t f s) u ↔ exists_thread s u.
Proof.
  unfold exists_thread, thr_upd, field_update. cbn.
  destruct (decide (t = u)) as [->|]; [rewrite lookup_alter_eq|by rewrite lookup_alter_ne].
  by rewrite fmap_is_Some.
Qed.

Lemma not_exists_thr s t : ¬ exists_thread s t → thr s t = inhabitant.
Proof.
  intros H. unfold thr. rewrite lookup_total_alt.
  destruct (threads s !! t) eqn:E; [destruct H; by exists t0|done].
Qed.

(** A thread in a queue, running, waiting or dead is in the store. *)
Lemma exists_queued s t : ready_queued (thr s t) = true → exists_thread s t.
Proof. intros H. destruct (decide (exists_thread s t)) as [|N]; [done|]. by rewrite not_exists_thr in H. Qed.
Lemma exists_state s t st : thread_state (thr s t) = st → st ≠ THREAD_STATE_NEW → exists_thread s t.
Proof. intros H N. destruct (decide (exists_thread s t)) as [|D]; [done|]. rewrite not_exists_thr in H by done. by subst st. Qed.

(** ** Threads as a finite set: lists of queued threads are short *)
Definition few_threads (s : sched_state) : Prop := Z.of_nat (size (threads s)) < 2 ^ 32.

Lemma nodup_length_size {A} (m : gmap Z A) (l : list Z) :
  NoDup l → (∀ t, t ∈ l → is_Some (m !! t)) → (length l ≤ size m)%nat.
Proof.
  intros Hn Hs.
  rewrite <- (size_list_to_set (C := gset Z) l) by done.
  rewrite <- (size_dom (D := gset Z) m). apply subseteq_size.
  intros t Ht. apply elem_of_dom, Hs. by apply elem_of_list_to_set in Ht.
Qed.

(** ** Removing an element of a queue *)
Lemma elem_tailq_remove t u l : u ∈ tailq_remove t l ↔ u ≠ t ∧ u ∈ l.
Proof. unfold tailq_remove. by rewrite list_elem_of_filter. Qed.

Lemma nodup_tailq_remove t l : NoDup l → NoDup (tailq_remove t l).
Proof. apply NoDup_filter. Qed.

Lemma tailq_remove_none t l : t ∉ l → tailq_remove t l = l.
Proof. intros H. apply list_filter_all. intros x Hx ->. done. Qed.

Lemma tailq_remove_perm t l : NoDup l → t ∈ l → l ≡ₚ t :: tailq_remove t l.
Proof.
  intros Hn Ht. apply list_elem_of_split in Ht as (l1 & l2 & ->).
  apply NoDup_app in Hn as (H1 & H2 & H3). apply NoDup_cons in H3 as [H3 H4].
  unfold tailq_remove. rewrite filter_app, filter_cons_False by (intros X; by apply X).
  fold (tailq_remove t l1) (tailq_remove t l2).
  rewrite !tailq_remove_none; [by rewrite Permutation_middle| done|].
  intros H. destruct (H2 t H). by left.
Qed.

Lemma tailq_remove_head t l : NoDup (t :: l) → tailq_remove t (t :: l) = l.
Proof.
  intros H. apply NoDup_cons in H as [H _]. unfold tailq_remove.
  rewrite filter_cons_False by (intros X; by apply X). by apply tailq_remove_none.
Qed.

Lemma length_tailq_remove t l : NoDup l → t ∈ l → length l = S (length (tailq_remove t l)).
Proof. intros H1 H2. by rewrite (Permutation_length (tailq_remove_perm t l H1 H2)). Qed.

(** ** Ready queues *)
Definition buckets : list Z := [3; 2; 1; 0].
Definition ready_list (s : sched_state) : list Z := buckets ≫= rq s.

Definition bucket_of (s : sched_state) (t : Z) : Z :=
  let q := ready_queue_index_for_thread s t in
  if (q <? 0) || (READY_QUEUE_LEVELS <=? q) then SCHED_BUCKET_DEFAULT else q.

Lemma bucket_of_in s t : bucket_of s t ∈ buckets.
Proof.
  unfold bucket_of. case_if; [unfold buckets, SCHED_BUCKET_DEFAULT; set_solver|].
  bool_hyps. set (q := ready_queue_index_for_thread s t) in *.
  unfold READY_QUEUE_LEVELS, SCHED_BUCKET_COUNT in *.
  assert (q = 3 ∨ q = 2 ∨ q = 1 ∨ q = 0) as Hq by lia. unfold buckets. set_solver.
Qed.

Lemma elem_ready_list s t : t ∈ ready_list s ↔ ∃ q, q ∈ buckets ∧ t ∈ rq s q.
Proof. unfold ready_list. rewrite list_elem_of_bind. naive_solver. Qed.

(** Changing one queue changes the list of all queued threads accordingly. *)
Lemma ready_list_insert s s' q t :
  q ∈ buckets → (∀ q', q' ≠ q → rq s' q' = rq s q') → rq s' q ≡ₚ t :: rq s q →
  ready_list s' ≡ₚ t :: ready_list s.
Proof.
  intros Hq Ho Hi. unfold ready_list, buckets in *. cbn -[rq].
  assert (q = 3 ∨ q = 2 ∨ q = 1 ∨ q = 0) as Hc by set_solver.
  destruct Hc as [-> | [-> | [-> | ->]]]; rewrite ?Hi, ?(Ho 3), ?(Ho 2), ?(Ho 1), ?(Ho 0) by done;
    solve_Permutation.
Qed.

(** ** Frames *)
Definition run_fields (th : thread_t) : bool * thread_state_t := (ready_queued th, thread_state th).
Definition wait_fields (th : thread_t) : Z * Z * bool * bool :=
  (waitq_owner th, wait_deadline_tick th, wait_timeout_armed th, wait_timed_out th).
Definition ring_fields (th : thread_t) : bool * Z := (reap_queued th, reap_after_tick th).

Record run_frame (s s' : sched_state) : Prop := {
  rf_threads : ∀ t, run_fields (thr s' t) = run_fields (thr s t);
  rf_queues : ready_queues s' = ready_queues s;
  rf_count : ready_tasks (stats s') = ready_tasks (stats s);
  rf_current : current_thread s' = current_thread s
}.

Record wait_frame (s s' : sched_state) : Prop := {
  wf_threads : ∀ t, wait_fields (thr s' t) = wait_fields (thr s t);
  wf_queues : waitqs s' = waitqs s;
  wf_timeouts : waitq_timeouts s' = waitq_timeouts s
}.

Record ring_frame (s s' : sched_state) : Prop := {
  gf_threads : ∀ t, ring_fields (thr s' t) = ring_fields (thr s t);
  gf_queue : reap_queue s' = reap_queue s;
  gf_head : reap_head s' = reap_head s;
  gf_tail : reap_tail s' = reap_tail s;
  gf_ticks : sched_ticks s' = sched_ticks s
}.

(** The store of threads keeps its domain, each thread its task, and the
    policy stays. *)
Record task_frame (s s' : sched_state) : Prop := {
  tf_threads : ∀ t, task_of (thr s' t) = task_of (thr s t);
  tf_dom : dom (threads s') = dom (threads s);
  tf_tasks : ∀ x, (task_threads (tsk s' x), thread_count (tsk s' x), task_id (tsk s' x))
                  = (task_threads (tsk s x), thread_count (tsk s x), task_id (tsk s x));
  tf_task_dom : dom (tasks s') = dom (tasks s);
  tf_all : all_tasks s' = all_tasks s;
  tf_index : all_tasks_by_id s' = all_tasks_by_id s;
  tf_next : next_task_id s' = next_task_id s;
  tf_policy : current_policy s' = current_policy s
}.

Lemma run_frame_refl s : run_frame s s. Proof. by split. Qed.
Lemma wait_frame_refl s : wait_frame s s. Proof. by split. Qed.
Lemma ring_frame_refl s : ring_frame s s. Proof. by split. Qed.
Lemma task_frame_refl s : task_frame s s. Proof. by split. Qed.
Lemma run_frame_trans s1 s2 s3 : run_frame s1 s2 → run_frame s2 s3 → run_frame s1 s3.
Proof. intros [A1 A2 A3 A4] [B1 B2 B3 B4]. split; [intros t; by rewrite B1|congruence..]. Qed.
Lemma wait_frame_trans s1 s2 s3 : wait_frame s1 s2 → wait_frame s2 s3 → wait_frame s1 s3.
Proof. intros [A1 A2 A3] [B1 B2 B3]. split; [intros t; by rewrite B1|congruence..]. Qed.
Lemma ring_frame_trans s1 s2 s3 : ring_frame s1 s2 → ring_frame s2 s3 → ring_frame s1 s3.
Proof. intros [A1 A2 A3 A4 A5] [B1 B2 B3 B4 B5]. split; [intros t; by rewrite B1|congruence..]. Qed.
Lemma task_frame_trans s1 s2 s3 : task_frame s1 s2 → task_frame s2 s3 → task_frame s1 s3.
Proof.
  intros [A1 A2 A3 A4 A5 A6 A7 A8] [B1 B2 B3 B4 B5 B6 B7 B8].
  split; [intros t; by rewrite B1|congruence|intros x; by rewrite B3|congruence..].
Qed.

#[export] Instance run_frame_preorder : PreOrder run_frame.
Proof. split; [exact run_frame_refl|exact run_frame_trans]. Qed.
#[export] Instance wait_frame_preorder : PreOrder wait_frame.
Proof. split; [exact wait_frame_refl|exact wait_frame_trans]. Qed.
#[export] Instance ring_frame_preorder : PreOrder ring_frame.
Proof. split; [exact ring_frame_refl|exact ring_frame_trans]. Qed.
#[export] Instance task_frame_preorder : PreOrder task_frame.
Proof. split; [exact task_frame_refl|exact task_frame_trans]. Qed.

Lemma dom_thr_upd s t f : dom (threads (thr_upd t f s)) = dom (threads s).
Proof. unfold thr_upd, field_update. cbn. apply dom_alter_L. Qed.

(** An update of one thread is inside every frame whose fields it keeps. *)
Lemma run_frame_thr_upd s t f : (∀ th, run_fields (f th) = run_fields th) → run_frame s (thr_upd t f s).
Proof. intros H. split; [|done..]. intros u. by apply thr_upd_keep. Qed.
Lemma wait_frame_thr_upd s t f : (∀ th, wait_fields (f th) = wait_fields th) → wait_frame s (thr_upd t f s).
Proof. intros H. split; [|done..]. intros u. by apply thr_upd_keep. Qed.
Lemma ring_frame_thr_upd s t f : (∀ th, ring_fields (f th) = ring_fields th) → ring_frame s (thr_upd t f s).
Proof. intros H. split; [|done..]. intros u. by apply thr_upd_keep. Qed.
Lemma task_frame_thr_upd s t f : (∀ th, task_of (f th) = task_of th) → task_frame s (thr_upd t f s).
Proof. intros H. split; try done; [|apply dom_thr_upd]. intros u. by apply thr_upd_keep. Qed.

(** ** The store of tasks *)
Lemma tsk_upd_keep {A} (g : task_t → A) s t u f :
  (∀ x, g (f x) = g x) → g (tsk (tsk_upd t f s) u) = g (tsk s u).
Proof.
  intros H. unfold tsk, tsk_upd, field_update. cbn. rewrite !lookup_total_alt.
  destruct (decide (t = u)) as [->|]; [|by rewrite lookup_alter_ne].
  rewrite lookup_alter_eq. destruct (tasks s !! u); [apply H|done].
Qed.

Lemma dom_tsk_upd s t f : dom (tasks (tsk_upd t f s)) = dom (tasks s).
Proof. unfold tsk_upd, field_update. cbn. apply dom_alter_L. Qed.

Definition task_fields (x : task_t) : list Z * Z * Z := (task_threads x, thread_count x, task_id x).

Lemma task_frame_tsk_upd s t f :
  (∀ x, task_fields (f x) = task_fields x) → task_frame s (tsk_upd t f s).
Proof.
  intros H. split; try done; [|apply dom_tsk_upd].
  intros u. apply (tsk_upd_keep task_fields s t u f H).
Qed.

(** [frames] proves that a composition of updates stays inside a frame: it
    peels the outermost update and looks the operations up in the hint
    database. *)
Create HintDb frames.

Ltac frame_thr_upd :=
  first [apply run_frame_thr_upd | apply wait_frame_thr_upd
        | apply ring_frame_thr_upd | apply task_frame_thr_upd].

Ltac frame_peel :=
  lazymatch goal with
  | |- ?R ?s ?s => reflexivity
  | |- ?R ?s (thr_upd ?t ?f ?s1) =>
      transitivity s1; [|by frame_thr_upd; intros; repeat (cbn; case_match)]
  | |- ?R ?s (field_update ?p ?f ?s1) => transitivity s1; [|split; done]
  | |- ?R ?s (stats_upd ?f ?s1) => transitivity s1; [|split; done]
  | |- ?R ?s (tsk_upd ?x ?f ?s1) =>
      transitivity s1; [|first [by apply task_frame_tsk_upd | split; done]]
  | |- ?R ?s (reap_upd ?f ?s1) => transitivity s1; [|split; done]
  | |- ?R ?s (wq_upd ?q ?f ?s1) => transitivity s1; [|split; done]
  | |- ?R ?s (dec_blocked ?s1) => transitivity s1; [|solve [auto with frames]]
  | |- ?R ?s (?op ?s1 ?a ?b) => transitivity s1; [|solve [auto with frames]]
  | |- ?R ?s (?op ?s1 ?a) => transitivity s1; [|solve [auto with frames]]
  | |- ?R ?s (snd (?op ?s1)) => transitivity s1; [|solve [auto with frames]]
  | |- ?R ?s (snd (?op ?s1 ?a)) => transitivity s1; [|solve [auto with frames]]
  end.
Ltac frames := repeat (cbn zeta; case_if); cbn zeta; repeat frame_peel.

Section frames_of_operations.
Context (s : sched_state).

Lemma set_state_wait t st : wait_frame s (scheduler_thread_set_state s t st).
Proof. unfold scheduler_thread_set_state. frames. Qed.
Lemma set_state_ring t st : ring_frame s (scheduler_thread_set_state s t st).
Proof. unfold scheduler_thread_set_state. frames. Qed.
Lemma set_state_task t st : task_frame s (scheduler_thread_set_state s t st).
Proof. unfold scheduler_thread_set_state. frames. Qed.

Lemma task_state_run x st : run_frame s (scheduler_task_set_state s x st).
Proof. unfold scheduler_task_set_state. frames. Qed.
Lemma task_state_wait x st : wait_frame s (scheduler_task_set_state s x st).
Proof. unfold scheduler_task_set_state. frames. Qed.
Lemma task_state_ring x st : ring_frame s (scheduler_task_set_state s x st).
Proof. unfold scheduler_task_set_state. frames. Qed.
Lemma task_state_task x st : task_frame s (scheduler_task_set_state s x st).
Proof. unfold scheduler_task_set_state. frames. Qed.

Lemma boost_run t : run_frame s (sleep_boost s t).
Proof. unfold sleep_boost. frames. Qed.
Lemma boost_wait t : wait_frame s (sleep_boost s t).
Proof. unfold sleep_boost. frames. Qed.
Lemma boost_ring t : ring_frame s (sleep_boost s t).
Proof. unfold sleep_boost. frames. Qed.
Lemma boost_task t : task_frame s (sleep_boost s t).
Proof. unfold sleep_boost. frames. Qed.

Lemma blocked_run : run_frame s (dec_blocked s).
Proof. unfold dec_blocked. frames. Qed.
Lemma blocked_wait : wait_frame s (dec_blocked s).
Proof. unfold dec_blocked. frames. Qed.
Lemma blocked_ring : ring_frame s (dec_blocked s).
Proof. unfold dec_blocked. frames. Qed.
Lemma blocked_task : task_frame s (dec_blocked s).
Proof. unfold dec_blocked. frames. Qed.

Lemma enqueue_wait t : wait_frame s (ready_enqueue s t).
Proof. unfold ready_enqueue. frames. Qed.
Lemma enqueue_ring t : ring_frame s (ready_enqueue s t).
Proof. unfold ready_enqueue. frames. Qed.
Lemma enqueue_task t : task_frame s (ready_enqueue s t).
Proof. unfold ready_enqueue. frames. Qed.

Lemma dequeue_from_wait q : wait_frame s (dequeue_from s q).2.
Proof. unfold dequeue_from. destruct (rq s q); cbn [snd]; frames. Qed.
Lemma dequeue_from_ring q : ring_frame s (dequeue_from s q).2.
Proof. unfold dequeue_from. destruct (rq s q); cbn [snd]; frames. Qed.
Lemma dequeue_from_task q : task_frame s (dequeue_from s q).2.
Proof. unfold dequeue_from. destruct (rq s q); cbn [snd]; frames. Qed.

End frames_of_operations.

#[export] Hint Resolve task_state_run task_state_wait task_state_ring task_state_task
  set_state_wait set_state_ring set_state_task boost_run boost_wait boost_ring
  boost_task blocked_run blocked_wait blocked_ring blocked_task enqueue_wait enqueue_ring
  enqueue_task dequeue_from_wait dequeue_from_ring dequeue_from_task : frames.

End SchedFacts.

(** * Invariant of the scheduler

    The parts of the invariant: the ready queues ([rq_inv]), the states of
    threads ([run_inv]), the wait queues and timeouts ([wait_inv]), the reap
    ring ([ring_inv]), dead threads ([dead_inv]) and the tasks ([task_inv]),
    each with the lemma that a step inside its frame keeps it, and the
    specification of the ready queues. *)
Module SchedInv.
Import Sched Waitq Task SchedFacts.

(** ** Ready queues *)
Definition store_ok (s : sched_state) : Prop := few_threads s ∧ ¬ exists_thread s 0.

Record rq_inv (s : sched_state) : Prop := {
  rq_nodup : NoDup (ready_list s);
  rq_mem : ∀ t, t ∈ ready_list s ↔ ready_queued (thr s t) = true;
  rq_count : ready_tasks (stats s) = Z.of_nat (length (ready_list s))
}.

Lemma run_frame_ready s s' : run_frame s s' → ready_list s' = ready_list s.
Proof. intros F. unfold ready_list, rq. by rewrite (rf_queues _ _ F). Qed.

Lemma run_frame_queued s s' t : run_frame s s' → ready_queued (thr s' t) = ready_queued (thr s t).
Proof. intros F. pose proof (rf_threads _ _ F t) as E. by injection E. Qed.

Lemma run_frame_state s s' t : run_frame s s' → thread_state (thr s' t) = thread_state (thr s t).
Proof. intros F. pose proof (rf_threads _ _ F t) as E. by injection E. Qed.

Lemma rq_inv_frame s s' : run_frame s s' → rq_inv s → rq_inv s'.
Proof.
  intros F [A B C]. pose proof (run_frame_ready _ _ F) as E. split; rewrite ?E; [done| |].
  - intros t. by rewrite (run_frame_queued s s' t F).
  - by rewrite (rf_count _ _ F).
Qed.

Lemma ready_length s :
  store_ok s → rq_inv s → Z.of_nat (length (ready_list s)) < 2 ^ 32.
Proof.
  intros [Hf _] [A B _]. unfold few_threads in Hf.
  enough (length (ready_list s) ≤ size (threads s))%nat by lia.
  apply nodup_length_size; [done|]. intros t Ht. apply exists_queued. by apply B.
Qed.

(** The threads other than [t] keep their run fields. *)
Definition only_run (s s' : sched_state) (t : Z) : Prop :=
  (∀ u, u ≠ t → run_fields (thr s' u) = run_fields (thr s u))
  ∧ current_thread s' = current_thread s.

Lemma rq_insert_other s q q' l :
  q' ≠ q → (<[q := l]> (ready_queues s)) !!! q' = rq s q'.
Proof. intros H. unfold rq. by rewrite lookup_total_insert_ne. Qed.

Lemma enqueue_spec s t :
  store_ok s → rq_inv s → exists_thread s t →
  let s' := ready_enqueue s t in
  rq_inv s' ∧ only_run s s' t
  ∧ run_fields (thr s' t) = (true, thread_state (thr s t)).
Proof.
  intros Hs Hr Ht s'. assert (t ≠ 0) as H0 by (intros ->; by destruct Hs).
  unfold s', ready_enqueue, ready_thread_is_queued. rewrite (proj2 (Z.eqb_neq t 0)) by done.
  cbn [negb andb]. destruct (ready_queued (thr s t)) eqn:Eq.
  { split; [done|]. split; [done|]. unfold run_fields. by rewrite Eq. }
  cbv zeta. fold (bucket_of s t). set (q := bucket_of s t).
  set (f := λ th : thread_t, th <| ready_queued := true |>).
  set (s1 := s <| ready_queues ::= λ m, <[q := (m !!! q) ++ [t]]> m |>).
  set (s2 := stats_upd _ _).
  assert (ready_list s2 ≡ₚ t :: ready_list s) as Hp.
  { apply (ready_list_insert s s2 q t (bucket_of_in s t)).
    - intros q' Hq. apply (rq_insert_other s q q' _ Hq).
    - unfold rq at 1. cbn. rewrite lookup_total_insert_eq.
      fold (rq s q). by rewrite Permutation_app_comm. }
  assert (∀ u, u ≠ t → thr s2 u = thr s u) as Ho.
  { intros u Hu. apply (thr_upd_other s1 t u f). done. }
  assert (thr s2 t = f (thr s t)) as Hs2 by (apply (thr_upd_same s1 t f Ht)).
  split_and!; [split|split; [|done]|]; [..|by rewrite Hs2].
  - rewrite Hp. apply NoDup_cons. split; [|apply Hr]. intros Hin. apply Hr in Hin. congruence.
  - intros u. rewrite Hp, elem_of_cons, (rq_mem _ Hr). destruct (decide (u = t)) as [->|N].
    + rewrite Hs2. cbn. tauto.
    + rewrite Ho by done. tauto.
  - rewrite Hp. cbn [length]. pose proof (ready_length s Hs Hr).
    change (ready_tasks (stats s2)) with (u64 (ready_tasks (stats s) + 1)).
    rewrite (rq_count _ Hr), u64_small by lia. lia.
  - intros u Hu. by rewrite Ho.
Qed.

Lemma head_ready s q t rest : q ∈ buckets → rq s q = t :: rest → t ∈ ready_list s.
Proof. intros Hq E. apply elem_ready_list. exists q. rewrite E. split; [done|by left]. Qed.

Lemma bucket_nodup s q : rq_inv s → q ∈ buckets → NoDup (rq s q).
Proof.
  intros [Hn _ _] Hq. revert Hn. unfold ready_list, buckets in *. cbn -[rq].
  rewrite !NoDup_app. set_solver.
Qed.

(** What [dequeue_from] does with a queue that is not empty. *)
Record dequeued (s s' : sched_state) (q t : Z) (rest : list Z) : Prop := {
  dq_inv : rq_inv s';
  dq_only : only_run s s' t;
  dq_thread : run_fields (thr s' t) = (false, thread_state (thr s t));
  dq_queue : rq s' q = rest;
  dq_others : ∀ q', q' ≠ q → rq s' q' = rq s q';
  dq_tick : bucket_last_run_tick s' = <[q := sched_ticks s]> (bucket_last_run_tick s);
  dq_policy : current_policy s' = current_policy s;
  dq_thr : ∀ u, thr s' u = if decide (u = t) then (thr s t) <| ready_queued := false |> else thr s u
}.

Lemma dequeue_from_spec s q t rest :
  store_ok s → rq_inv s → q ∈ buckets → rq s q = t :: rest →
  (dequeue_from s q).1 = t ∧ dequeued s (dequeue_from s q).2 q t rest.
Proof.
  intros Hs Hr Hq E. pose proof (head_ready s q t rest Hq E) as Hin.
  assert (exists_thread s t) as Ht by (apply exists_queued; by apply Hr).
  pose proof (bucket_nodup s q Hr Hq) as Hnd. rewrite E in Hnd.
  unfold dequeue_from. rewrite E. cbn [fst snd]. split; [done|].
  set (f := λ th : thread_t, th <| ready_queued := false |>).
  set (s1 := s <| ready_queues ::= λ m, <[q := tailq_remove t (m !!! q)]> m |>).
  set (s2 := field_update bucket_last_run_tick _ _).
  assert (rq s2 q = rest) as Hq2.
  { unfold rq. cbn. rewrite lookup_total_insert_eq. fold (rq s q). rewrite E.
    by apply tailq_remove_head. }
  assert (∀ q', q' ≠ q → rq s2 q' = rq s q') as Hqo by (intros; by apply rq_insert_other).
  assert (ready_list s ≡ₚ t :: ready_list s2) as Hp.
  { apply (ready_list_insert s2 s q t Hq); [intros; by rewrite Hqo|]. by rewrite Hq2, E. }
  assert (∀ u, u ≠ t → thr s2 u = thr s u) as Ho.
  { intros u Hu. apply (thr_upd_other s1 t u f). done. }
  assert (thr s2 t = f (thr s t)) as Ht2 by (apply (thr_upd_same s1 t f Ht)).
  pose proof (rq_nodup _ Hr) as Hn. rewrite Hp in Hn. apply NoDup_cons in Hn as [Hn1 Hn2].
  split; try done; [split| |by rewrite Ht2|]; [done|..].
  - intros u. destruct (decide (u = t)) as [->|N].
    + rewrite Ht2. cbn. split; [done|discriminate].
    + rewrite Ho by done. rewrite <- (rq_mem _ Hr), Hp, elem_of_cons. tauto.
  - pose proof (ready_length s Hs Hr) as Hl. pose proof (rq_count _ Hr) as Hc.
    rewrite Hp in Hl, Hc. cbn [length] in Hl, Hc.
    change (ready_tasks (stats s2)) with
      (if 0 <? ready_tasks (stats s) then u64 (ready_tasks (stats s) - 1) else ready_tasks (stats s)).
    rewrite Hc. rewrite (proj2 (Z.ltb_lt _ _)) by lia. rewrite u64_small by lia. lia.
  - split; [|done]. intros u Hu. by rewrite Ho.
  - intros u. case_decide as D; [by rewrite D|by apply Ho].
Qed.

(** ** The choice of the next thread *)
Definition queue_only_default (s : sched_state) : bool :=
  (current_policy s =? SCHED_POLICY_RR) || (current_policy s =? SCHED_POLICY_FIFO).

Inductive selects (s : sched_state) : Z → Prop :=
| selects_default :
    queue_only_default s = true → rq s 2 ≠ [] → selects s 2
| selects_starving b :
    queue_only_default s = false → 0 ≤ b < 3 → bucket_starving s b = true →
    (∀ b', 0 ≤ b' < b → bucket_starving s b' = false) → selects s b
| selects_best b :
    queue_only_default s = false → 0 ≤ b < 4 → rq s b ≠ [] →
    (∀ b', 0 ≤ b' < 3 → bucket_starving s b' = false) →
    (∀ b', b < b' < 4 → rq s b' = []) → selects s b.

Lemma starving_nonempty s b : bucket_starving s b = true → rq s b ≠ [].
Proof. unfold bucket_starving. intros H. by bool_hyps. Qed.

Lemma selects_bucket s q : selects s q → q ∈ buckets ∧ rq s q ≠ [].
Proof.
  assert (∀ b, 0 ≤ b < 4 → b ∈ buckets) as Hb.
  { intros b Hb. assert (b = 3 ∨ b = 2 ∨ b = 1 ∨ b = 0) as Hc by lia. unfold buckets. set_solver. }
  intros [? ?|b ? ? Hst ?|b ? ? ? ? ?]; (split; [apply Hb; lia|]); try done.
  by apply starving_nonempty.
Qed.

Lemma scan_cases s :
  match starvation_scan s [SCHED_BUCKET_BACKGROUND; SCHED_BUCKET_UTILITY; SCHED_BUCKET_DEFAULT] with
  | Some b => 0 ≤ b < 3 ∧ bucket_starving s b = true
              ∧ (∀ b', 0 ≤ b' < b → bucket_starving s b' = false)
  | None => ∀ b', 0 ≤ b' < 3 → bucket_starving s b' = false
  end.
Proof.
  unfold starvation_scan, SCHED_BUCKET_BACKGROUND, SCHED_BUCKET_UTILITY, SCHED_BUCKET_DEFAULT.
  assert (∀ b', 0 ≤ b' < 3 → b' = 0 ∨ b' = 1 ∨ b' = 2) as Hc by lia.
  destruct (bucket_starving s 0) eqn:E0; [split_and!; try done; lia|].
  destruct (bucket_starving s 1) eqn:E1.
  { split_and!; try done. intros b' Hb. by assert (b' = 0) as -> by lia. }
  destruct (bucket_starving s 2) eqn:E2.
  { split_and!; try done. intros b' Hb. by assert (b' = 0 ∨ b' = 1) as [-> | ->] by lia. }
  intros b' Hb. by destruct (Hc b' Hb) as [-> | [-> | ->]].
Qed.

Lemma first_nonempty s qs :
  store_ok s → rq_inv s → (∀ q, q ∈ qs → q ∈ buckets) →
  (dequeue_first s qs = (0, s) ∧ ∀ q, q ∈ qs → rq s q = [])
  ∨ ∃ pre q post, qs = pre ++ q :: post ∧ rq s q ≠ []
      ∧ (∀ q', q' ∈ pre → rq s q' = []) ∧ dequeue_first s qs = dequeue_from s q.
Proof.
  intros Hs Hr. induction qs as [|q qs IH]; intros Hb; [left; split; [done|set_solver]|].
  destruct (rq s q) as [|t rest] eqn:E.
  - assert (dequeue_first s (q :: qs) = dequeue_first s qs) as Hd
      by (cbn; unfold dequeue_from; by rewrite E).
    rewrite Hd. destruct IH as [[H1 H2]|(pre & q1 & post & -> & H2 & H3 & H4)]; [set_solver| |].
    + left. split; [done|]. set_solver.
    + right. exists (q :: pre), q1, post. split_and!; try done. set_solver.
  - right. exists [], q, qs. split_and!; try done; [by rewrite E|set_solver|].
    destruct (dequeue_from_spec s q t rest Hs Hr (Hb q ltac:(by left)) E) as [H1 _].
    cbn. destruct (dequeue_from s q) as [t' s1]. cbn in H1. subst t'.
    rewrite (proj2 (Z.eqb_neq t 0)); [done|]. intros ->. destruct Hs as [_ N]. apply N.
    apply exists_queued, Hr. eapply head_ready; [|exact E]. apply Hb. by left.
Qed.

Lemma ready_dequeue_result s :
  store_ok s → rq_inv s →
  let '(t, s') := ready_dequeue s in
  (∃ q rest, selects s q ∧ rq s q = t :: rest ∧ exists_thread s t ∧ t ≠ 0
     ∧ (t, s') = dequeue_from s q ∧ dequeued s s' q t rest)
  ∨ (t = 0 ∧ s' = s ∧ if queue_only_default s then rq s 2 = [] else ready_list s = []).
Proof.
  intros Hs Hr.
  assert (∀ q t s', selects s q → dequeue_from s q = (t, s') →
    ∃ q rest, selects s q ∧ rq s q = t :: rest ∧ exists_thread s t ∧ t ≠ 0
      ∧ (t, s') = dequeue_from s q ∧ dequeued s s' q t rest) as Hgo.
  { intros q t s' Hsel E. destruct (selects_bucket s q Hsel) as [Hq Hne].
    destruct (rq s q) as [|t1 rest] eqn:Eq; [done|].
    destruct (dequeue_from_spec s q t1 rest Hs Hr Hq Eq) as [H1 H2]. rewrite E in H1, H2. cbn in H1, H2.
    subst t1. assert (exists_thread s t) as Ht
      by (apply exists_queued, Hr; by eapply head_ready).
    exists q, rest. split_and!; try done. intros ->. by destruct Hs. }
  destruct (ready_dequeue s) as [t s'] eqn:E. unfold ready_dequeue in E.
  fold (queue_only_default s) in E. destruct (queue_only_default s) eqn:Ep.
  { destruct (rq s 2) eqn:E2; [right; unfold dequeue_from, SCHED_BUCKET_DEFAULT in E;
      rewrite E2 in E; by injection E as <- <-|].
    left. apply (Hgo 2); [|done]. apply selects_default; [done|by rewrite E2]. }
  pose proof (scan_cases s) as Hscan. destruct starvation_scan as [b|].
  { left. apply (Hgo b); [|done]. destruct Hscan as (? & ? & ?). by apply selects_starving. }
  destruct (first_nonempty s [3; 2; 1; 0] Hs Hr) as [[H1 H2]|(pre & q & post & H1 & H2 & H3 & H4)].
  - done.
  - unfold SCHED_BUCKET_INTERACTIVE, SCHED_BUCKET_DEFAULT, SCHED_BUCKET_UTILITY,
      SCHED_BUCKET_BACKGROUND in E. rewrite H1 in E. injection E as <- <-. right.
    split_and!; try done. unfold ready_list, buckets. cbn -[rq].
    by rewrite !H2 by (rewrite ?elem_of_cons; tauto).
  - left. apply (Hgo q); [|by rewrite <- H4].
    assert (0 ≤ q < 4 ∧ ∀ b', q < b' < 4 → b' ∈ pre) as [Hq Hpre].
    { destruct pre as [|a [|b [|c [|d [|? ?]]]]]; cbn in H1; simplify_eq; (split; [lia|]);
        intros b' Hb; rewrite ?elem_of_cons; lia. }
    apply selects_best; auto.
Qed.

End SchedInv.
