(* ===== verification/SchedFair.v ===== *)
(** * Starvation freedom of the ready queues

    A round of the dispatcher: some threads become ready, the clock advances,
    and the next thread is taken off the queues.  Under the priority policies,
    with between 1 and 100 clock ticks per round, every queued thread is
    dispatched after a bounded number of rounds, whatever becomes ready in the
    meantime.  (A switch is always preceded by a tick; the longest quantum is
    8 time slices.) *)

From stdpp Require Import base gmap list numbers fin_maps.
From S2P Require Import Prelude Sched Waitq Task SchedInv.

Module SchedFair.
Import Sched Waitq Task SchedFacts SchedInv.

Record round := mk_round { r_wakes : list Z; r_ticks : Z }.

Definition before_dequeue (s : sched_state) (r : round) : sched_state :=
  (foldl ready_enqueue s (r_wakes r)) <| sched_ticks ::= λ n, n +₆₄ r_ticks r |>.

Definition run_round (s : sched_state) (r : round) : Z * sched_state :=
  ready_dequeue (before_dequeue s r).

(** The threads dispatched by a sequence of rounds. *)
Fixpoint dispatched (s : sched_state) (rs : list round) : list Z :=
  match rs with
  | [] => []
  | r :: rs => let '(t, s) := run_round s r in t :: dispatched s rs
  end.

(** ** The state between rounds *)
Record fair (s : sched_state) : Prop := {
  fair_store : store_ok s;
  fair_rq : rq_inv s;
  fair_policy : queue_only_default s = false;
  fair_clock : ∀ b, 0 ≤ b < 4 → 0 ≤ bucket_last_run_tick s !!! b ≤ sched_ticks s
}.

Definition round_ok (s : sched_state) (r : round) : Prop :=
  (∀ t, t ∈ r_wakes r → exists_thread s t) ∧ 1 ≤ r_ticks r ≤ 100.

Lemma store_ok_dom s s' : dom (threads s') = dom (threads s) → store_ok s → store_ok s'.
Proof.
  intros Hd [Hf H0]. split.
  - unfold few_threads in *. by rewrite <- (size_dom (D := gset Z)), Hd, size_dom.
  - unfold exists_thread in *. rewrite <- elem_of_dom in *. by rewrite Hd.
Qed.

Lemma exists_dom s s' t : dom (threads s') = dom (threads s) → exists_thread s t → exists_thread s' t.
Proof. intros Hd. unfold exists_thread. rewrite <- !elem_of_dom. by rewrite Hd. Qed.

Lemma enqueue_queue s t q :
  ∃ l, rq (ready_enqueue s t) q = rq s q ++ l.
Proof.
  unfold ready_enqueue. case_if; [exists []; by rewrite app_nil_r|].
  case_if; [exists []; by rewrite app_nil_r|]. cbv zeta.
  fold (bucket_of s t). unfold rq. cbn. destruct (decide (bucket_of s t = q)) as [->|N].
  - exists [t]. by rewrite lookup_total_insert_eq.
  - exists []. by rewrite lookup_total_insert_ne, app_nil_r.
Qed.

(** What enqueueing does not touch. *)
Lemma enqueue_clock s t :
  sched_ticks (ready_enqueue s t) = sched_ticks s
  ∧ bucket_last_run_tick (ready_enqueue s t) = bucket_last_run_tick s
  ∧ current_policy (ready_enqueue s t) = current_policy s.
Proof. unfold ready_enqueue. by repeat case_if. Qed.

Lemma enqueue_all s ts :
  store_ok s → rq_inv s → (∀ t, t ∈ ts → exists_thread s t) →
  let s' := foldl ready_enqueue s ts in
  store_ok s' ∧ rq_inv s' ∧ dom (threads s') = dom (threads s)
  ∧ sched_ticks s' = sched_ticks s ∧ bucket_last_run_tick s' = bucket_last_run_tick s
  ∧ current_policy s' = current_policy s ∧ ∀ q, ∃ l, rq s' q = rq s q ++ l.
Proof.
  revert s. induction ts as [|t ts IH]; intros s Hs Hr Ht; cbn zeta.
  { split_and!; try done. intros q. exists []. by rewrite app_nil_r. }
  cbn [foldl]. destruct (enqueue_spec s t Hs Hr) as [Hr1 _]; [apply Ht; by left|].
  pose proof (tf_dom _ _ (enqueue_task s t)) as Hd.
  destruct (IH (ready_enqueue s t)) as (H1 & H2 & H3 & H4 & H5 & H6 & H7).
  - by eapply store_ok_dom.
  - done.
  - intros u Hu. eapply exists_dom; [done|]. apply Ht. by right.
  - destruct (enqueue_clock s t) as (C1 & C2 & C3). split_and!; try done; try congruence.
    intros q. destruct (H7 q) as [l Hl], (enqueue_queue s t q) as [l' Hl'].
    exists (l' ++ l). by rewrite Hl, Hl', app_assoc.
Qed.

(** The state in which the dequeue of a round happens. *)
Lemma before_fair s r :
  fair s → round_ok s r → sched_ticks s + r_ticks r < 2 ^ 64 →
  let s1 := before_dequeue s r in
  fair s1 ∧ dom (threads s1) = dom (threads s)
  ∧ sched_ticks s1 = sched_ticks s + r_ticks r
  ∧ bucket_last_run_tick s1 = bucket_last_run_tick s
  ∧ ∀ q, ∃ l, rq s1 q = rq s q ++ l.
Proof.
  intros [Hs Hr Hp Hc] [Hw Ht] Hlim s1. change (2 ^ 64) with 18446744073709551616 in Hlim.
  pose proof (Hc 0 ltac:(lia)) as Hc0.
  destruct (enqueue_all s (r_wakes r) Hs Hr Hw) as (H1 & H2 & H3 & H4 & H5 & H6 & H7).
  assert (sched_ticks s1 = sched_ticks s + r_ticks r) as Ht1.
  { unfold s1, before_dequeue, field_update. cbn. rewrite H4, u64_small; lia. }
  split_and!; try done. split; try done.
  - revert H2. apply rq_inv_frame. by split.
  - unfold queue_only_default in *. cbn. by rewrite H6.
  - intros b Hb. rewrite Ht1. cbn. rewrite H5. pose proof (Hc b Hb). lia.
Qed.

(** One round: the selected bucket loses its head to the dispatcher; other
    buckets keep their threads; new threads go to the back. *)
Lemma round_result s r b :
  fair s → round_ok s r → sched_ticks s + r_ticks r < 2 ^ 64 → 0 ≤ b < 4 → rq s b ≠ [] →
  let s1 := before_dequeue s r in
  let '(t, s') := run_round s r in
  fair s' ∧ dom (threads s') = dom (threads s) ∧ sched_ticks s' = sched_ticks s + r_ticks r
  ∧ ∃ q l, selects s1 q
      ∧ bucket_last_run_tick s' = <[q := sched_ticks s']> (bucket_last_run_tick s)
      ∧ ((q = b ∧ t :: rq s' b = rq s b ++ l) ∨ (q ≠ b ∧ rq s' b = rq s b ++ l)).
Proof.
  intros Hf Hok Hlim Hb Hne s1.
  destruct (before_fair s r Hf Hok Hlim) as ([Hs Hr Hp Hc] & Hd & Ht & Hl & Hq). fold s1 in Hs, Hr, Hp, Hc, Hd, Ht, Hl, Hq.
  unfold run_round. fold s1. pose proof (ready_dequeue_result s1 Hs Hr) as Hres.
  destruct (ready_dequeue s1) as [t s'].
  destruct Hres as [(q & rest & Hsel & E & He & H0 & Heq & D)|(_ & _ & Hnone)].
  2:{ rewrite Hp in Hnone. exfalso. destruct (Hq b) as [l El]. apply Hne.
      assert (rq s1 b = []) as Hz.
      { assert (b ∈ buckets) as Hbb by (unfold buckets; rewrite !elem_of_cons; lia).
        destruct (rq s1 b) as [|u lu] eqn:Eu; [done|].
        pose proof (head_ready s1 b u lu Hbb Eu) as Hin. rewrite Hnone in Hin. by destruct (not_elem_of_nil _ Hin). }
      rewrite Hz in El. by destruct (rq s b). }
  pose proof (dequeue_from_task s1 q) as Ft. pose proof (dequeue_from_ring s1 q) as Fr.
  rewrite <- Heq in Ft, Fr. cbn [snd] in Ft, Fr.
  pose proof (tf_dom _ _ Ft) as Hd'. pose proof (gf_ticks _ _ Fr) as Ht'.
  assert (bucket_last_run_tick s' = <[q := sched_ticks s']> (bucket_last_run_tick s)) as Hlr.
  { rewrite (dq_tick _ _ _ _ _ D), Ht'. by rewrite Hl. }
  split_and!; [split| | |].
  - by eapply store_ok_dom.
  - apply (dq_inv _ _ _ _ _ D).
  - unfold queue_only_default. by rewrite (dq_policy _ _ _ _ _ D).
  - intros b' Hb'. rewrite Hlr. destruct (decide (q = b')) as [->|N].
    + rewrite lookup_total_insert_eq, Ht'. pose proof (Hc b' Hb'). lia.
    + rewrite lookup_total_insert_ne by done. rewrite <- Hl, Ht'. by apply Hc.
  - congruence.
  - congruence.
  - destruct (Hq b) as [l El]. exists q, l. split_and!; try done.
    destruct (decide (q = b)) as [->|N].
    + left. split; [done|]. by rewrite (dq_queue _ _ _ _ _ D), <- El, E.
    + right. split; [done|]. by rewrite (dq_others _ _ _ _ _ D) by done.
Qed.

(** ** When a bucket is served *)
Definition idle_ticks (s : sched_state) (b : Z) : Z := sched_ticks s - bucket_last_run_tick s !!! b.

(** After one more tick the bucket counts as starving, or it is the
    interactive bucket. *)
Definition due (s : sched_state) (b : Z) : Prop := b = 3 ∨ 499 ≤ idle_ticks s b.

(** The bucket cannot be starving in the next [n] rounds. *)
Definition calm (s : sched_state) (b n : Z) : Prop := idle_ticks s b + 100 * n < 500.

(** Bucket [b] is served within [n] rounds: it is due, and only the buckets of
    [U] can come first, each once; or it becomes due in time. *)
Definition served_in (s : sched_state) (b n : Z) : Prop :=
  (due s b ∧ ∃ (m : Z) (U : list Z), m ≤ n ∧ m ≤ 4 ∧ Z.of_nat (length U) < m
     ∧ ∀ b', 0 ≤ b' < b → b' ∈ U ∨ calm s b' m)
  ∨ (0 ≤ b < 3 ∧ 503 - idle_ticks s b ≤ n ∧ 5 ≤ n).

Lemma served_soon s b : fair s → 0 ≤ b < 4 → served_in s b 503.
Proof.
  intros Hf Hb. pose proof (fair_clock _ Hf b Hb) as Hc.
  destruct (decide (due s b)) as [D|N].
  - left. split; [done|]. exists 4, (seqZ 0 b). rewrite length_seqZ.
    split_and!; try lia. intros b' Hb'. left. apply elem_of_seqZ. lia.
  - right. unfold due, idle_ticks in *. split_and!; lia.
Qed.

Lemma starving_idle s b :
  fair s → 0 ≤ b < 4 → sched_ticks s < 2 ^ 64 → rq s b ≠ [] →
  bucket_starving s b = bool_decide (500 ≤ idle_ticks s b).
Proof.
  intros Hf Hb Hlim Hne. change (2 ^ 64) with 18446744073709551616 in Hlim.
  pose proof (fair_clock _ Hf b Hb). unfold bucket_starving, idle_ticks, STARVATION_THRESHOLD_TICKS.
  rewrite bool_decide_eq_false_2 by done. cbn [negb andb]. rewrite u64_small by lia.
  apply eq_true_iff_eq. rewrite Z.leb_le, bool_decide_eq_true. done.
Qed.

(** Another bucket is preferred to a due one only when it starves and is
    lower. *)
Lemma preferred_starves s b q :
  fair s → 0 ≤ b < 4 → sched_ticks s < 2 ^ 64 → rq s b ≠ [] → (b = 3 ∨ 500 ≤ idle_ticks s b) →
  selects s q → q ≠ b → 0 ≤ q < b ∧ 500 ≤ idle_ticks s q.
Proof.
  intros Hf Hb Hlim Hne Hdue Hsel Hqb. destruct Hsel as [P|q P Hq Hst Hmin|q P Hq Hnq Hno Hhi].
  - by rewrite (fair_policy _ Hf) in P.
  - assert (500 ≤ idle_ticks s q) as Hi.
    { rewrite starving_idle in Hst; [by bool_hyps|done|lia|done|by apply starving_nonempty]. }
    split; [|done]. destruct Hdue as [->|Hd]; [lia|].
    assert (bucket_starving s b = true) as Hbs
      by (rewrite starving_idle by done; by apply bool_decide_eq_true).
    destruct (decide (q < b)); [lia|]. rewrite Hmin in Hbs by lia. done.
  - exfalso. destruct Hdue as [->|Hd]; [by rewrite Hhi in Hne by lia|].
    destruct (decide (b = 3)) as [->|]; [by rewrite Hhi in Hne by lia|].
    assert (bucket_starving s b = true) as Hbs
      by (rewrite starving_idle by done; by apply bool_decide_eq_true).
    by rewrite Hno in Hbs by lia.
Qed.

Lemma served_in_pos s b n : served_in s b n → 1 ≤ n.
Proof. intros [(_ & m & U & H)|H]; lia. Qed.

(** Idle time of a bucket over a round that serves [q]. *)
Lemma idle_round s s' r q b :
  round_ok s r → sched_ticks s' = sched_ticks s + r_ticks r →
  bucket_last_run_tick s' = <[q := sched_ticks s']> (bucket_last_run_tick s) →
  idle_ticks s' b = if decide (q = b) then 0 else idle_ticks s b + r_ticks r.
Proof.
  intros Hok Ht Hl. unfold idle_ticks. rewrite Hl. case_decide as D.
  - rewrite D, lookup_total_insert_eq. lia.
  - rewrite lookup_total_insert_ne by done. rewrite Ht. lia.
Qed.

Lemma served_progress s s' r b n q :
  fair s → round_ok s r → sched_ticks s + r_ticks r < 2 ^ 64 → 0 ≤ b < 4 → rq s b ≠ [] →
  sched_ticks s' = sched_ticks s + r_ticks r →
  bucket_last_run_tick s' = <[q := sched_ticks s']> (bucket_last_run_tick s) →
  selects (before_dequeue s r) q → q ≠ b → served_in s b n → served_in s' b (n - 1).
Proof.
  intros Hf Hok Hlim Hb Hne Ht Hl Hsel Hqb Hin.
  destruct (before_fair s r Hf Hok Hlim) as (Hf1 & _ & Ht1 & Hl1 & Hq1).
  set (s1 := before_dequeue s r) in *.
  assert (rq s1 b ≠ []) as Hne1 by (destruct (Hq1 b) as [l ->]; by destruct (rq s b)).
  assert (∀ b', idle_ticks s1 b' = idle_ticks s b' + r_ticks r) as Hi1
    by (intros b'; unfold idle_ticks; rewrite Hl1, Ht1; lia).
  assert (∀ b', idle_ticks s' b' = if decide (q = b') then 0 else idle_ticks s b' + r_ticks r)
    as Hi' by (intros b'; by apply (idle_round s s' r q b')).
  pose proof (Hi' b) as Hib. rewrite decide_False in Hib by done.
  destruct Hok as [_ Hticks].
  destruct Hin as [(Hdue & m & U & Hmn & Hm4 & HU & Hlow)|(Hb3 & Hn & Hn5)].
  - destruct (preferred_starves s1 b q Hf1 Hb) as [Hq Hst]; try done.
    { by rewrite Ht1. }
    { destruct Hdue as [|Hd]; [by left|right]. rewrite Hi1. lia. }
    destruct (Hlow q Hq) as [HqU|Hcalm]; [|unfold calm in Hcalm; rewrite Hi1 in Hst; lia].
    left. split; [destruct Hdue as [|]; [by left|right; lia]|].
    exists (m - 1), (filter (λ u, u ≠ q) U). split_and!; try lia.
    + assert (length (filter (λ u, u ≠ q) U) < length U)%nat; [|lia].
      apply list_elem_of_split in HqU as (l1 & l2 & ->).
      rewrite filter_app, filter_cons_False, !length_app by (intros X; by apply X). cbn [length].
      pose proof (length_filter (λ u, u ≠ q) l1). pose proof (length_filter (λ u, u ≠ q) l2). lia.
    + intros b' Hb'. destruct (decide (q = b')) as [->|N].
      * right. unfold calm. rewrite Hi', decide_True by done. lia.
      * destruct (Hlow b' Hb') as [|Hc]; [left; by apply list_elem_of_filter|right].
        unfold calm in *. rewrite Hi', decide_False by done. lia.
  - destruct (decide (due s' b)) as [D|N].
    + left. split; [done|]. exists 3, (seqZ 0 b). rewrite length_seqZ. split_and!; try lia.
      intros b' Hb'. left. apply elem_of_seqZ. lia.
    + right. unfold due in N. rewrite Hib in *. split_and!; lia.
Qed.

(** ** The bound *)
Definition rounds_ok (s : sched_state) (rs : list round) : Prop :=
  Forall (round_ok s) rs ∧ sched_ticks s + 100 * Z.of_nat (length rs) < 2 ^ 64.

Lemma rounds_ok_next s s' r rs :
  rounds_ok s (r :: rs) → dom (threads s') = dom (threads s) →
  sched_ticks s' = sched_ticks s + r_ticks r → rounds_ok s' rs.
Proof.
  intros [Hf Hl] Hd Ht. inversion Hf as [|? ? [_ Hr] Hrs]; subst. split; [|cbn [length] in Hl; lia].
  eapply Forall_impl; [exact Hrs|]. intros x [Hw Hx]. split; [|done].
  intros t Hin. eapply exists_dom; [done|]. by apply Hw.
Qed.

Lemma dispatched_in s rs b k n t l1 l2 :
  fair s → rounds_ok s rs → 0 ≤ b < 4 → rq s b = l1 ++ t :: l2 → length l1 = k →
  served_in s b n → n + 503 * Z.of_nat k ≤ Z.of_nat (length rs) → t ∈ dispatched s rs.
Proof.
  revert s k n l1 l2. induction rs as [|r rs IH]; intros s k n l1 l2 Hf Hok Hb Hq Hk Hin Hlen.
  { pose proof (served_in_pos _ _ _ Hin). cbn in Hlen. lia. }
  pose proof (served_in_pos _ _ _ Hin) as Hn.
  pose proof Hok as [HF Hlim]. pose proof (Forall_inv HF) as Hr. cbn [length] in Hlim, Hlen.
  assert (sched_ticks s + r_ticks r < 2 ^ 64) as Hlim1 by (destruct Hr as [_ ?]; lia).
  assert (rq s b ≠ []) as Hne by (rewrite Hq; by destruct l1).
  pose proof (round_result s r b Hf Hr Hlim1 Hb Hne) as Hres. cbn [dispatched].
  destruct (run_round s r) as [t1 s'].
  destruct Hres as (Hf' & Hd & Ht & q & l & Hsel & Hl & [[-> E]|[N E]]); rewrite Hq in E.
  - destruct l1 as [|u l1]; cbn in E; injection E as -> E; [by left|right].
    rewrite <- app_assoc in E.
    apply (IH s' (length l1) 503 l1 (l2 ++ l)); try done.
    + by eapply rounds_ok_next.
    + by apply served_soon.
    + cbn [length] in Hk. lia.
  - right. rewrite <- app_assoc in E. apply (IH s' k (n - 1) l1 (l2 ++ l)); try done; [..|lia].
    + by eapply rounds_ok_next.
    + by apply (served_progress s s' r b n q).
Qed.

(** C14. Starvation freedom: the thread at position [k] of any bucket is dispatched
    within [503 * (k + 1)] rounds, whatever threads become ready in between,
    when a round takes between 1 and 100 ticks. *)
Theorem queued_thread_dispatched s rs b k t :
  fair s → rounds_ok s rs → 0 ≤ b < 4 → rq s b !! k = Some t →
  503 * (Z.of_nat k + 1) ≤ Z.of_nat (length rs) → t ∈ dispatched s rs.
Proof.
  intros Hf Hok Hb Hk Hlen. apply list_elem_of_split_length in Hk as (l1 & l2 & Hq & Hl).
  apply (dispatched_in s rs b k 503 t l1 l2); try done; [by apply served_soon|lia].
Qed.

End SchedFair.
