(* ===== verification/SchedWait.v ===== *)
(** * Wait queues and wake-ups: invariants and specifications

    [run_inv] relates the state of a thread to the ready queues and the
    current thread, [wait_inv] the wait queues and the timeout list to the
    threads.  Waking, dequeueing, enqueueing and the timeout tick are
    specified against them. *)

From stdpp Require Import base gmap list numbers fin_maps.
From S2P Require Import Prelude Sched Waitq Task SchedInv.

Module SchedWait.
Import Sched Waitq Task SchedFacts SchedInv.

(** ** States of threads *)
Record run_inv (s : sched_state) : Prop := {
  run_ready : ∀ t, thread_state (thr s t) = THREAD_STATE_READY → ready_queued (thr s t) = true;
  run_running : ∀ t, thread_state (thr s t) = THREAD_STATE_RUNNING →
                  t = current_thread s ∧ ready_queued (thr s t) = false;
  run_current : current_thread s = 0 ∨ exists_thread s (current_thread s)
}.

Lemma task_frame_exists s s' t : task_frame s s' → exists_thread s' t ↔ exists_thread s t.
Proof. intros F. unfold exists_thread. rewrite <- !elem_of_dom. by rewrite (tf_dom _ _ F). Qed.

Lemma task_frame_store s s' : task_frame s s' → store_ok s → store_ok s'.
Proof.
  intros F [H1 H2]. split; [|by rewrite task_frame_exists].
  unfold few_threads in *. rewrite <- (size_dom (D := gset Z)), (tf_dom _ _ F), size_dom. done.
Qed.

Lemma run_inv_frame s s' : run_frame s s' → task_frame s s' → run_inv s → run_inv s'.
Proof.
  intros F T [A B C]. split.
  - intros t. rewrite (run_frame_state _ _ t F), (run_frame_queued _ _ t F). apply A.
  - intros t. rewrite (run_frame_state _ _ t F), (run_frame_queued _ _ t F), (rf_current _ _ F). apply B.
  - rewrite (rf_current _ _ F), (task_frame_exists _ _ _ T). done.
Qed.

(** Only the thread [t] changed, to the given run fields. *)
Definition run_set (s s' : sched_state) (t : Z) (v : bool * thread_state_t) : Prop :=
  only_run s s' t ∧ run_fields (thr s' t) = v.

Lemma run_set_state s s' t q st u :
  run_set s s' t (q, st) →
  thread_state (thr s' u) = (if decide (u = t) then st else thread_state (thr s u))
  ∧ ready_queued (thr s' u) = (if decide (u = t) then q else ready_queued (thr s u)).
Proof.
  intros [[Ho _] Ht]. case_decide as D; [subst u; by injection Ht|].
  pose proof (Ho u D) as E. by injection E.
Qed.

Lemma run_set_frame s1 s2 s3 t v : run_frame s1 s2 → run_set s2 s3 t v → run_set s1 s3 t v.
Proof.
  intros F [[Ho Hc] Ht]. split; [split|done].
  - intros u Hu. rewrite Ho by done. apply (rf_threads _ _ F).
  - by rewrite Hc, (rf_current _ _ F).
Qed.

Lemma run_set_then_frame s1 s2 s3 t v : run_set s1 s2 t v → run_frame s2 s3 → run_set s1 s3 t v.
Proof.
  intros [[Ho Hc] Ht] F. split; [split|].
  - intros u Hu. rewrite (rf_threads _ _ F). by apply Ho.
  - by rewrite (rf_current _ _ F).
  - by rewrite (rf_threads _ _ F).
Qed.

Lemma set_state_run s t st :
  exists_thread s t → t ≠ 0 →
  run_set s (scheduler_thread_set_state s t st) t (ready_queued (thr s t), st).
Proof.
  intros Ht H0. unfold scheduler_thread_set_state. rewrite (proj2 (Z.eqb_neq t 0)) by done.
  set (f := λ th : thread_t, th <| thread_state := st |>). set (s' := field_update _ _ _).
  assert (∀ u, thr s' u = thr (thr_upd t f s) u) as E by done.
  split; [split; [|done]|].
  - intros u Hu. by rewrite E, thr_upd_other.
  - by rewrite E, thr_upd_same.
Qed.

(** The ready queues do not depend on thread states. *)
Lemma set_state_rq s t st : rq_inv s → rq_inv (scheduler_thread_set_state s t st).
Proof.
  intros [A B C]. unfold scheduler_thread_set_state. case_if; [done|]. split; try done.
  intros u. change (ready_list _) with (ready_list s). rewrite B.
  unfold thr_upd, thr, field_update. cbn. rewrite !lookup_total_alt.
  destruct (decide (t = u)) as [->|]; [|by rewrite lookup_alter_ne].
  rewrite lookup_alter_eq. by destruct (threads s !! u).
Qed.

Lemma exists_nonzero s t : store_ok s → exists_thread s t → t ≠ 0.
Proof. intros [_ H] Ht ->. done. Qed.

(** Making a thread ready: state and queue change together. *)
Lemma make_ready s t :
  store_ok s → rq_inv s → run_inv s → exists_thread s t →
  let s' := ready_enqueue (scheduler_thread_set_state s t THREAD_STATE_READY) t in
  rq_inv s' ∧ run_inv s' ∧ run_set s s' t (true, THREAD_STATE_READY).
Proof.
  intros Hs Hr [A B C] Ht s'. pose proof (exists_nonzero s t Hs Ht) as H0.
  set (s1 := scheduler_thread_set_state s t THREAD_STATE_READY) in *.
  pose proof (set_state_task s t THREAD_STATE_READY) as T1. fold s1 in T1.
  pose proof (set_state_run s t THREAD_STATE_READY Ht H0) as [[O1 C1] R1]. fold s1 in O1, C1, R1.
  assert (exists_thread s1 t) as Ht1 by (by apply (task_frame_exists _ _ _ T1)).
  destruct (enqueue_spec s1 t (task_frame_store _ _ T1 Hs) (set_state_rq s t _ Hr) Ht1)
    as (Hr' & [O2 C2] & R2). fold s' in Hr', O2, C2, R2.
  assert (thread_state (thr s1 t) = THREAD_STATE_READY) as E1 by (by injection R1).
  rewrite E1 in R2.
  assert (run_set s s' t (true, THREAD_STATE_READY)) as Hset.
  { split; [split|done]; [intros u Hu; by rewrite O2, O1|congruence]. }
  split_and!; try done. split.
  - intros u. destruct (run_set_state _ _ _ _ _ u Hset) as [-> ->]. case_decide; [done|apply A].
  - intros u. destruct (run_set_state _ _ _ _ _ u Hset) as [-> ->]. case_decide; [done|].
    rewrite C2, C1. apply B.
  - rewrite C2, C1, (task_frame_exists s1 s' _ (enqueue_task s1 t)), (task_frame_exists _ _ _ T1). done.
Qed.

(** ** Waking a thread *)
Record woken (s s' : sched_state) (t : Z) : Prop := {
  wk_rq : rq_inv s';
  wk_run : run_inv s';
  wk_set : run_set s s' t (true, THREAD_STATE_READY);
  wk_wait : wait_frame s s';
  wk_ring : ring_frame s s';
  wk_task : task_frame s s'
}.

Lemma wake_wait s t : wait_frame s (scheduler_wake s t).
Proof. unfold scheduler_wake. frames. Qed.
Lemma wake_ring s t : ring_frame s (scheduler_wake s t).
Proof. unfold scheduler_wake. frames. Qed.
Lemma wake_task s t : task_frame s (scheduler_wake s t).
Proof. unfold scheduler_wake. frames. Qed.

Lemma woken_step s1 s s' t :
  run_frame s1 s → store_ok s → rq_inv s → run_inv s → exists_thread s t →
  run_frame (ready_enqueue (scheduler_thread_set_state s t THREAD_STATE_READY) t) s' →
  task_frame (ready_enqueue (scheduler_thread_set_state s t THREAD_STATE_READY) t) s' →
  rq_inv s' ∧ run_inv s' ∧ run_set s1 s' t (true, THREAD_STATE_READY).
Proof.
  intros F Hs Hr Hrun Ht F' T'. destruct (make_ready s t Hs Hr Hrun Ht) as (A & B & C).
  split_and!; [by eapply rq_inv_frame|by eapply run_inv_frame|].
  eapply run_set_then_frame; [|done]. by eapply run_set_frame.
Qed.

Lemma wake_spec s t :
  store_ok s → rq_inv s → run_inv s → exists_thread s t → woken s (scheduler_wake s t) t.
Proof.
  intros Hs Hr Hrun Ht.
  enough (rq_inv (scheduler_wake s t) ∧ run_inv (scheduler_wake s t)
          ∧ run_set s (scheduler_wake s t) t (true, THREAD_STATE_READY)) as (? & ? & ?).
  { split; try done; [apply wake_wait|apply wake_ring|apply wake_task]. }
  pose proof (exists_nonzero s t Hs Ht) as H0.
  unfold scheduler_wake. rewrite (proj2 (Z.eqb_neq t 0)) by done. cbv zeta.
  case_if; bool_hyps.
  { assert (run_frame s (dec_blocked (sleep_boost s t))) as F by frames.
    assert (task_frame s (dec_blocked (sleep_boost s t))) as T by frames.
    apply (woken_step s (dec_blocked (sleep_boost s t))); try done.
    - by eapply task_frame_store.
    - by eapply rq_inv_frame.
    - by eapply run_inv_frame.
    - by apply (task_frame_exists _ _ _ T). }
  case_if; bool_hyps; [by apply (woken_step s s)|].
  pose proof (run_ready _ Hrun t Eif0) as Hq. unfold ready_thread_is_queued.
  rewrite Hq, (proj2 (Z.eqb_neq t 0)) by done. cbn.
  split_and!; try done. split; [done|]. unfold run_fields. by rewrite Hq, Eif0.
Qed.

(** ** Wait queues *)
Definition exists_wq (s : sched_state) (q : Z) : Prop := is_Some (waitqs s !! q).

Lemma wq_upd_same s q f : exists_wq s q → wq (wq_upd q f s) q = f (wq s q).
Proof.
  intros [w E]. unfold wq, wq_upd, field_update. cbn.
  by rewrite !lookup_total_alt, lookup_alter_eq, E.
Qed.
Lemma wq_upd_other s q q' f : q ≠ q' → wq (wq_upd q f s) q' = wq s q'.
Proof.
  intros H. unfold wq, wq_upd, field_update. cbn. by rewrite !lookup_total_alt, lookup_alter_ne.
Qed.
Lemma exists_wq_upd s q q' f : exists_wq (wq_upd q f s) q' ↔ exists_wq s q'.
Proof.
  unfold exists_wq, wq_upd, field_update. cbn.
  destruct (decide (q = q')) as [->|]; [rewrite lookup_alter_eq|by rewrite lookup_alter_ne].
  by rewrite fmap_is_Some.
Qed.
Lemma waiting_exists_wq s q t : t ∈ wq_threads (wq s q) → exists_wq s q.
Proof.
  intros H. unfold exists_wq. destruct (waitqs s !! q) eqn:E; [done|].
  unfold wq in H. rewrite lookup_total_alt, E in H. by destruct (not_elem_of_nil _ H).
Qed.

Record wqs_inv (s : sched_state) : Prop := {
  wq_nodup : ∀ q, NoDup (wq_threads (wq s q));
  wq_mem : ∀ q t, t ∈ wq_threads (wq s q) ↔ q ≠ 0 ∧ waitq_owner (thr s t) = q;
  wq_len : ∀ q, wq_count (wq s q) = Z.of_nat (length (wq_threads (wq s q)))
}.

Record to_inv (s : sched_state) : Prop := {
  to_nodup : NoDup (waitq_timeouts s);
  to_mem : ∀ t, t ∈ waitq_timeouts s ↔ wait_timeout_armed (thr s t) = true;
  to_deadline : ∀ t, wait_timeout_armed (thr s t) = true → wait_deadline_tick (thr s t) ≠ 0
}.

Definition wait_inv (s : sched_state) : Prop := wqs_inv s ∧ to_inv s.

Lemma wait_frame_fields s s' t :
  wait_frame s s' →
  waitq_owner (thr s' t) = waitq_owner (thr s t)
  ∧ wait_deadline_tick (thr s' t) = wait_deadline_tick (thr s t)
  ∧ wait_timeout_armed (thr s' t) = wait_timeout_armed (thr s t).
Proof. intros F. pose proof (wf_threads _ _ F t) as E. by injection E. Qed.

Lemma wait_frame_timed_out s s' t :
  wait_frame s s' → wait_timed_out (thr s' t) = wait_timed_out (thr s t).
Proof. intros F. pose proof (wf_threads _ _ F t) as E. by injection E. Qed.

Lemma wait_frame_wq s s' q : wait_frame s s' → wq s' q = wq s q.
Proof. intros F. unfold wq. by rewrite (wf_queues _ _ F). Qed.

Lemma wqs_inv_ext s s' :
  waitqs s' = waitqs s → (∀ t, waitq_owner (thr s' t) = waitq_owner (thr s t)) →
  wqs_inv s → wqs_inv s'.
Proof.
  intros Eq Eo [A B C]. assert (∀ q, wq s' q = wq s q) as E by (intros q; unfold wq; by rewrite Eq).
  split; intros q; rewrite ?E; auto. intros t. by rewrite B, Eo.
Qed.

Lemma to_inv_ext s s' :
  waitq_timeouts s' = waitq_timeouts s →
  (∀ t, wait_timeout_armed (thr s' t) = wait_timeout_armed (thr s t)) →
  (∀ t, wait_deadline_tick (thr s' t) = wait_deadline_tick (thr s t)) →
  to_inv s → to_inv s'.
Proof.
  intros El Ea Ed [A B C]. split; [by rewrite El|intros t; by rewrite El, B, Ea|].
  intros t. rewrite Ea, Ed. apply C.
Qed.

Lemma wait_inv_frame s s' : wait_frame s s' → wait_inv s → wait_inv s'.
Proof.
  intros F [Hw Ht]. split.
  - revert Hw. apply wqs_inv_ext; [apply F|]. intros t. by destruct (wait_frame_fields _ _ t F).
  - revert Ht. apply to_inv_ext; [apply F|intros t; by destruct (wait_frame_fields _ _ t F) as (? & ? & ?)..].
Qed.

Lemma exists_armed s t : wait_timeout_armed (thr s t) = true → exists_thread s t.
Proof. intros H. destruct (decide (exists_thread s t)) as [|N]; [done|]. by rewrite not_exists_thr in H. Qed.
Lemma exists_waiting s t : waitq_owner (thr s t) ≠ 0 → exists_thread s t.
Proof. intros H. destruct (decide (exists_thread s t)) as [|N]; [done|]. by rewrite not_exists_thr in H. Qed.

Lemma waiting_length s q :
  store_ok s → wqs_inv s → Z.of_nat (length (wq_threads (wq s q))) < 2 ^ 32.
Proof.
  intros [Hf _] Hw. unfold few_threads in Hf.
  enough (length (wq_threads (wq s q)) ≤ size (threads s))%nat by lia.
  apply nodup_length_size; [apply Hw|]. intros t Ht. apply exists_waiting.
  apply (wq_mem _ Hw) in Ht as [? ->]. done.
Qed.

(** ** Disarming a timeout *)
Lemma disarm_run s t : run_frame s (waitq_disarm_timeout s t).
Proof. unfold waitq_disarm_timeout. frames. Qed.
Lemma disarm_ring s t : ring_frame s (waitq_disarm_timeout s t).
Proof. unfold waitq_disarm_timeout. frames. Qed.
Lemma disarm_task s t : task_frame s (waitq_disarm_timeout s t).
Proof. unfold waitq_disarm_timeout. frames. Qed.
Lemma dec_count_run s q : run_frame s (dec_count s q).
Proof. unfold dec_count. frames. Qed.
Lemma dec_count_ring s q : ring_frame s (dec_count s q).
Proof. unfold dec_count. frames. Qed.
Lemma dec_count_task s q : task_frame s (dec_count s q).
Proof. unfold dec_count. frames. Qed.

#[export] Hint Resolve disarm_run disarm_ring disarm_task dec_count_run dec_count_ring
  dec_count_task wake_wait wake_ring wake_task : frames.

Lemma disarm_owner s t u : waitq_owner (thr (waitq_disarm_timeout s t) u) = waitq_owner (thr s u).
Proof. unfold waitq_disarm_timeout. case_if; [done|]. cbv zeta. by rewrite thr_upd_keep. Qed.

Lemma disarm_wqs s t : waitqs (waitq_disarm_timeout s t) = waitqs s.
Proof. unfold waitq_disarm_timeout. by case_if. Qed.

Lemma disarm_timed_out s t u :
  wait_timed_out (thr (waitq_disarm_timeout s t) u) = wait_timed_out (thr s u).
Proof. unfold waitq_disarm_timeout. case_if; [done|]. cbv zeta. by rewrite thr_upd_keep. Qed.

Record disarmed (s s' : sched_state) (t : Z) : Prop := {
  da_inv : to_inv s';
  da_list : waitq_timeouts s' = tailq_remove t (waitq_timeouts s);
  da_armed : ∀ u, wait_timeout_armed (thr s' u)
                  = if decide (u = t) then false else wait_timeout_armed (thr s u);
  da_deadline : ∀ u, u ≠ t → wait_deadline_tick (thr s' u) = wait_deadline_tick (thr s u)
}.

Lemma disarm_spec s t :
  store_ok s → to_inv s → exists_thread s t → disarmed s (waitq_disarm_timeout s t) t.
Proof.
  intros Hs Hi Ht. pose proof (exists_nonzero s t Hs Ht) as H0.
  unfold waitq_disarm_timeout. rewrite (proj2 (Z.eqb_neq t 0)) by done. cbn [orb].
  destruct (wait_timeout_armed (thr s t)) eqn:Ea; cbn [negb].
  2:{ assert (t ∉ waitq_timeouts s) as Hn by (rewrite (to_mem _ Hi); congruence).
      split; try done; [by rewrite tailq_remove_none|]. intros u. case_decide; [congruence|done]. }
  set (f := λ th : thread_t, th <| wait_timeout_armed := false |> <| wait_deadline_tick := 0 |>).
  set (s1 := s <| waitq_timeouts ::= tailq_remove t |>). cbv zeta.
  assert (∀ u, u ≠ t → thr (thr_upd t f s1) u = thr s u) as Ho by (intros; by apply (thr_upd_other s1)).
  assert (thr (thr_upd t f s1) t = f (thr s t)) as Es by (by apply (thr_upd_same s1)).
  assert (∀ u, wait_timeout_armed (thr (thr_upd t f s1) u)
             = if decide (u = t) then false else wait_timeout_armed (thr s u)) as Harm.
  { intros u. case_decide as D; [subst u; by rewrite Es|by rewrite Ho]. }
  split; try done; [split|].
  - apply nodup_tailq_remove, Hi.
  - intros u. rewrite Harm. change (waitq_timeouts (thr_upd t f s1)) with (tailq_remove t (waitq_timeouts s)).
    rewrite elem_tailq_remove, (to_mem _ Hi). case_decide; intuition congruence.
  - intros u. rewrite Harm. case_decide as D; [done|]. rewrite Ho by done. apply Hi.
  - intros u Hu. by rewrite Ho.
Qed.

(** ** Leaving a wait queue *)

(** The wait queue [q] lost the thread [t]. *)
Record left_queue (s s' : sched_state) (q t : Z) : Prop := {
  lq_owner : ∀ u, waitq_owner (thr s' u) = if decide (u = t) then 0 else waitq_owner (thr s u);
  lq_other : ∀ q', q' ≠ q → wq s' q' = wq s q';
  lq_threads : wq_threads (wq s' q) = tailq_remove t (wq_threads (wq s q));
  lq_count : wq_count (wq s' q) = wq_count (wq s q) - 1
}.

Lemma left_queue_inv s s' q t :
  wqs_inv s → t ∈ wq_threads (wq s q) → left_queue s s' q t → wqs_inv s'.
Proof.
  intros [A B C] Hin [O Q T N]. split; intros q'.
  - destruct (decide (q' = q)) as [->|]; [rewrite T; by apply nodup_tailq_remove|by rewrite Q].
  - intros u. rewrite O. destruct (decide (q' = q)) as [->|Hq].
    + rewrite T, elem_tailq_remove, B. case_decide; intuition congruence.
    + rewrite Q, B by done. apply B in Hin as [? ?]. case_decide as D; [subst u|done]. split; [|intuition congruence].
      intros [? ?]. congruence.
  - destruct (decide (q' = q)) as [->|]; [|by rewrite Q].
    rewrite N, T, C, (length_tailq_remove t _ (A q) Hin). lia.
Qed.

(** The wait-queue part of the code that unlinks [t] from [q]. *)
Lemma unlink_left s0 s q t f :
  store_ok s → wqs_inv s → t ∈ wq_threads (wq s q) → exists_thread s t →
  (∀ th, waitq_owner (f th) = 0) →
  waitqs s0 = waitqs (wq_upd q (λ w, w <| wq_threads ::= tailq_remove t |>) s) →
  (∀ u, waitq_owner (thr s0 u) = waitq_owner (thr (thr_upd t f s) u)) →
  left_queue s (dec_count s0 q) q t.
Proof.
  intros Hs Hw Hin Ht Hf Eq Eo. pose proof (waiting_exists_wq s q t Hin) as Hq.
  set (g := λ w : waitq_t, w <| wq_threads ::= tailq_remove t |>) in *.
  set (d := λ w : waitq_t, w <| wq_count ::= λ n, if 0 <? n then n -₃₂ 1 else n |>).
  assert (∀ q', wq (dec_count s0 q) q' = wq (wq_upd q d (wq_upd q g s)) q') as E.
  { intros q'. unfold wq, dec_count, wq_upd, field_update in *. cbn in *. by rewrite Eq. }
  assert (wq (dec_count s0 q) q = d (g (wq s q))) as Eqq.
  { rewrite E, wq_upd_same, wq_upd_same; [done|done|by apply exists_wq_upd]. }
  split.
  - intros u. change (thr (dec_count s0 q) u) with (thr s0 u). rewrite Eo. case_decide as D.
    + subst u. by rewrite thr_upd_same.
    + by rewrite thr_upd_other.
  - intros q' Hq'. by rewrite E, !wq_upd_other by done.
  - by rewrite Eqq.
  - rewrite Eqq. cbn. pose proof (waiting_length s q Hs Hw) as Hl. rewrite (wq_len _ Hw).
    pose proof (length_tailq_remove t _ (wq_nodup _ Hw q) Hin).
    rewrite (proj2 (Z.ltb_lt _ _)) by lia. rewrite u32_small by lia. lia.
Qed.

Lemma unlink_run s q t : run_frame s (waitq_unlink s q t).
Proof. unfold waitq_unlink. frames. Qed.
Lemma unlink_ring s q t : ring_frame s (waitq_unlink s q t).
Proof. unfold waitq_unlink. frames. Qed.
Lemma unlink_task s q t : task_frame s (waitq_unlink s q t).
Proof. unfold waitq_unlink. frames. Qed.

#[export] Hint Resolve unlink_run unlink_ring unlink_task : frames.

Lemma unlink_spec s q t :
  store_ok s → wait_inv s → t ∈ wq_threads (wq s q) → exists_thread s t →
  let s' := waitq_unlink s q t in
  wait_inv s' ∧ left_queue s s' q t ∧ disarmed s s' t ∧ wait_timed_out (thr s' t) = false.
Proof.
  intros Hs [Hw Hto] Hin Ht s'. unfold s', waitq_unlink. cbv zeta.
  set (f := λ th : thread_t, th <| waitq_owner := 0 |> <| wait_timed_out := false |>).
  set (s1 := wq_upd q _ s). set (s2 := thr_upd t f s1). set (s3 := waitq_disarm_timeout s2 t).
  assert (left_queue s (dec_count s3 q) q t) as Hl.
  { apply (unlink_left s3 s q t f); try done; [exact (disarm_wqs s2 t)|]. intros u. exact (disarm_owner s2 t u). }
  assert (∀ u, wait_timeout_armed (thr s2 u) = wait_timeout_armed (thr s u)) as Ea
    by (intros; by apply (thr_upd_keep _ s1)).
  assert (∀ u, wait_deadline_tick (thr s2 u) = wait_deadline_tick (thr s u)) as Ed
    by (intros; by apply (thr_upd_keep _ s1)).
  assert (to_inv s2) as Hto2 by (by apply (to_inv_ext s s2)).
  assert (task_frame s s2) as T2 by (unfold s2, s1; frames).
  destruct (disarm_spec s2 t (task_frame_store _ _ T2 Hs) Hto2) as [D1 D2 D3 D4];
    [by apply (task_frame_exists _ _ _ T2)|]. fold s3 in D1, D2, D3, D4.
  split_and!; [split| | |].
  - by eapply left_queue_inv.
  - by apply (to_inv_ext s3).
  - done.
  - split.
    + by apply (to_inv_ext s3).
    + exact D2.
    + intros u. change (thr (dec_count s3 q) u) with (thr s3 u). by rewrite D3, Ea.
    + intros u Hu. change (thr (dec_count s3 q) u) with (thr s3 u). by rewrite D4, Ed.
  - change (thr (dec_count s3 q) t) with (thr s3 t). unfold s3. rewrite disarm_timed_out.
    unfold s2. by rewrite (thr_upd_same s1 t f Ht).
Qed.

End SchedWait.

(** * The reap ring refines a bounded queue

    [reap_list] reads the ring of reaper.c as the list of waiting threads,
    first in first out; the ring holds at most 63 of its 64 slots. *)
Module SchedRing.
Import Sched Waitq Task SchedFacts.

Definition ring_count (s : sched_state) : Z := (reap_tail s - reap_head s) mod 64.
Definition ring_slot (s : sched_state) (k : Z) : Z := reap_queue s !!! ((reap_head s + k) mod 64).
Definition reap_list (s : sched_state) : list Z := ring_slot s <$> seqZ 0 (ring_count s).

Definition ring_wf (s : sched_state) : Prop := 0 ≤ reap_head s < 64 ∧ 0 ≤ reap_tail s < 64.

Lemma ring_count_range s : 0 ≤ ring_count s < 64.
Proof. apply Z.mod_pos_bound. lia. Qed.

Lemma length_reap_list s : Z.of_nat (length (reap_list s)) = ring_count s.
Proof. unfold reap_list. rewrite length_fmap, length_seqZ. pose proof (ring_count_range s). lia. Qed.

(** The length as the code computes it. *)
Lemma reap_queue_len_eq s : ring_wf s → scheduler_reap_queue_len s = ring_count s.
Proof.
  intros [? ?]. unfold scheduler_reap_queue_len, ring_count, REAP_QUEUE_SIZE. word_simp.
  replace (reap_tail s + 64 - reap_head s) with (reap_tail s - reap_head s + 1 * 64) by lia.
  by rewrite Z.mod_add.
Qed.

Lemma ring_empty s : ring_wf s → (reap_head s = reap_tail s ↔ reap_list s = []).
Proof.
  intros [? ?]. rewrite <- length_zero_iff_nil. pose proof (length_reap_list s) as Hl.
  assert (ring_count s = 0 ↔ reap_head s = reap_tail s); [|lia].
  unfold ring_count. split; [|intros ->; by rewrite Z.sub_diag].
  intros Hm. apply Z.mod_divide in Hm as [k Hk]; lia.
Qed.

Lemma ring_next s :
  ring_wf s → reap_head s ≠ reap_tail s →
  ring_count s = (reap_tail s - (reap_head s + 1) mod 64) mod 64 + 1.
Proof. intros [? ?] ?. unfold ring_count. Z.to_euclidean_division_equations. lia. Qed.

(** Taking the head off. *)
Lemma ring_dequeue s :
  ring_wf s → reap_head s ≠ reap_tail s →
  let '(t, s') := scheduler_reap_dequeue s in
  reap_list s = t :: reap_list s' ∧ ring_wf s' ∧ scheduler_reap_peek s = t.
Proof.
  intros Hw Hne. pose proof Hw as [Hh Ht]. unfold scheduler_reap_dequeue, scheduler_reap_peek.
  rewrite (proj2 (Z.eqb_neq _ _)) by done. set (s' := field_update reap_head _ _).
  assert (reap_head s' = (reap_head s + 1) mod 64) as Eh.
  { unfold s', REAP_QUEUE_SIZE, field_update. cbn. by rewrite u32_small by lia. }
  assert (ring_count s = ring_count s' + 1) as Ec
    by (rewrite (ring_next s Hw Hne); unfold ring_count; by rewrite Eh).
  pose proof (ring_count_range s) as Hr. pose proof (ring_count_range s') as Hr'.
  split_and!; [|split; [rewrite Eh; apply Z.mod_pos_bound; lia|done]|done].
  unfold reap_list. rewrite Ec, Z.add_comm, seqZ_app by lia. rewrite fmap_app.
  change (ring_slot s <$> seqZ 0 1) with [ring_slot s 0]. change (0 + 1) with (1 + 0). cbn [app].
  unfold ring_slot at 1. rewrite Z.add_0_r, Z.mod_small by lia. f_equal.
  rewrite <- fmap_add_seqZ, <- list_fmap_compose. apply list_fmap_ext. intros i k Hk.
  apply lookup_seqZ in Hk as [-> Hk]. cbn -[Z.add Z.modulo]. unfold ring_slot. rewrite Eh.
  assert ((reap_head s + (1 + (0 + Z.of_nat i))) mod 64
          = ((reap_head s + 1) mod 64 + (0 + Z.of_nat i)) mod 64) as ->
    by (rewrite Zplus_mod_idemp_l; f_equal; lia).
  change (reap_queue s') with (<[reap_head s := 0]> (reap_queue s)).
  rewrite lookup_total_insert_ne; [done|]. rewrite Zplus_mod_idemp_l.
  intros Heq. Z.to_euclidean_division_equations. lia.
Qed.

(** Appending at the tail. *)
Lemma ring_append s s' t :
  ring_wf s → (reap_tail s +₃₂ 1) mod REAP_QUEUE_SIZE ≠ reap_head s →
  reap_queue s' = <[reap_tail s := t]> (reap_queue s) → reap_head s' = reap_head s →
  reap_tail s' = (reap_tail s +₃₂ 1) mod REAP_QUEUE_SIZE →
  reap_list s' = reap_list s ++ [t] ∧ ring_wf s'.
Proof.
  intros [Hh Ht] Hfull Eq Eh Et. unfold REAP_QUEUE_SIZE in *. rewrite u32_small in * by lia.
  assert (ring_count s' = ring_count s + 1) as Ec.
  { unfold ring_count. rewrite Et, Eh. Z.to_euclidean_division_equations. lia. }
  pose proof (ring_count_range s) as Hr. pose proof (ring_count_range s') as Hr'.
  split; [|split; [by rewrite Eh|rewrite Et; apply Z.mod_pos_bound; lia]].
  unfold reap_list. rewrite Ec, seqZ_app by lia. rewrite fmap_app. f_equal.
  - apply list_fmap_ext. intros i k Hk. apply lookup_seqZ in Hk as [-> Hk].
    unfold ring_slot. rewrite Eq, Eh. rewrite lookup_total_insert_ne; [done|].
    intros Heq. revert Heq Hk. unfold ring_count. intros.
    Z.to_euclidean_division_equations. lia.
  - change (seqZ (0 + ring_count s) 1) with [0 + ring_count s]. cbn [fmap list_fmap].
    unfold ring_slot. rewrite Eq, Eh, Z.add_0_l.
    assert ((reap_head s + ring_count s) mod 64 = reap_tail s) as ->;
      [|by rewrite lookup_total_insert_eq].
    unfold ring_count. Z.to_euclidean_division_equations. lia.
Qed.

(** The code refuses, by stopping, exactly when 63 threads wait. *)
Lemma ring_full s :
  ring_wf s → ((reap_tail s +₃₂ 1) mod REAP_QUEUE_SIZE = reap_head s ↔ length (reap_list s) = 63%nat).
Proof.
  intros [? ?]. pose proof (length_reap_list s) as Hl. unfold REAP_QUEUE_SIZE.
  rewrite u32_small by lia.
  assert ((reap_tail s + 1) mod 64 = reap_head s ↔ ring_count s = 63); [|lia].
  unfold ring_count. split; intros; Z.to_euclidean_division_equations; lia.
Qed.

Lemma ring_frame_list s s' : ring_frame s s' → reap_list s' = reap_list s.
Proof.
  intros [_ A B C _]. unfold reap_list, ring_slot, ring_count. by rewrite A, B, C.
Qed.

End SchedRing.
