(* ===== verification/SchedKernel.v ===== *)
(** * The invariant of the scheduler state and the operations that keep it

    [kernel_inv] puts the parts together.  The lemmas show that every
    operation on threads and wait queues keeps it. *)

From stdpp Require Import base gmap list numbers fin_maps sorting.
From S2P Require Import Prelude Sched Waitq Task SchedInv SchedWait.

Module SchedKernel.
Import Sched Waitq Task SchedFacts SchedInv SchedWait SchedRing.

(** ** Dead threads and the ring *)
Record ring_inv (s : sched_state) : Prop := {
  ri_wf : ring_wf s;
  ri_nodup : NoDup (reap_list s);
  ri_mem : ∀ t, t ∈ reap_list s ↔ reap_queued (thr s t) = true;
  ri_sorted : StronglySorted (λ t u, reap_after_tick (thr s t) ≤ reap_after_tick (thr s u)) (reap_list s);
  ri_bound : ∀ t, t ∈ reap_list s → reap_after_tick (thr s t) ≤ sched_ticks s + 128
}.

(** A dead thread is in no other queue; it waits for the reaper unless it is
    still the current one. *)
Record dead_inv (s : sched_state) : Prop := {
  dead_quiet : ∀ t, thread_state (thr s t) = THREAD_STATE_DEAD →
    ready_queued (thr s t) = false ∧ waitq_owner (thr s t) = 0 ∧ wait_timeout_armed (thr s t) = false;
  dead_ring : ∀ t, t ∈ reap_list s → thread_state (thr s t) = THREAD_STATE_DEAD ∧ t ≠ current_thread s;
  dead_listed : ∀ t, thread_state (thr s t) = THREAD_STATE_DEAD → t ∈ reap_list s ∨ t = current_thread s
}.

(** ** Tasks *)
Record task_inv (s : sched_state) : Prop := {
  tk_nodup : ∀ x, NoDup (task_threads (tsk s x));
  tk_mem : ∀ x t, t ∈ task_threads (tsk s x) ↔ x ≠ 0 ∧ task_of (thr s t) = x;
  tk_count : ∀ x, thread_count (tsk s x) = Z.of_nat (length (task_threads (tsk s x)));
  tk_all : ∀ x, x ∈ all_tasks s ↔ is_Some (tasks s !! x);
  tk_index : ∀ id x, all_tasks_by_id s !! id = Some x ↔ is_Some (tasks s !! x) ∧ task_id (tsk s x) = id;
  tk_next : ∀ x, is_Some (tasks s !! x) → 0 < task_id (tsk s x) < next_task_id s
}.

Record kernel_inv (s : sched_state) : Prop := {
  ki_store : store_ok s;
  ki_ticks : 0 ≤ sched_ticks s;
  ki_policy : queue_only_default s = false;
  ki_rq : rq_inv s;
  ki_run : run_inv s;
  ki_wait : wait_inv s;
  ki_ring : ring_inv s;
  ki_dead : dead_inv s;
  ki_task : task_inv s
}.

Lemma ring_frame_fields s s' t :
  ring_frame s s' →
  reap_queued (thr s' t) = reap_queued (thr s t) ∧ reap_after_tick (thr s' t) = reap_after_tick (thr s t).
Proof. intros F. pose proof (gf_threads _ _ F t) as E. by injection E. Qed.

Lemma sorted_ext (f g : Z → Z) l :
  (∀ t, f t = g t) → StronglySorted (λ t u, f t ≤ f u) l → StronglySorted (λ t u, g t ≤ g u) l.
Proof.
  intros E. induction 1 as [|x l H IH Hf]; [constructor|]. constructor; [done|].
  eapply Forall_impl; [exact Hf|]. intros u. by rewrite !E.
Qed.

Lemma ring_inv_frame s s' : ring_frame s s' → ring_inv s → ring_inv s'.
Proof.
  intros F [A B C D E]. pose proof (ring_frame_list _ _ F) as L. split; rewrite ?L; try done.
  - unfold ring_wf. by rewrite (gf_head _ _ F), (gf_tail _ _ F).
  - intros t. by rewrite C, (proj1 (ring_frame_fields _ _ t F)).
  - eapply (sorted_ext (λ t, reap_after_tick (thr s t))); [|done].
    intros t. by rewrite (proj2 (ring_frame_fields _ _ t F)).
  - intros t Ht. rewrite (proj2 (ring_frame_fields _ _ t F)), (gf_ticks _ _ F). by apply E.
Qed.

(** Time passing keeps the ring. *)
Lemma ring_inv_tick s s' :
  (∀ t, ring_fields (thr s' t) = ring_fields (thr s t)) → reap_queue s' = reap_queue s →
  reap_head s' = reap_head s → reap_tail s' = reap_tail s → sched_ticks s ≤ sched_ticks s' →
  ring_inv s → ring_inv s'.
Proof.
  intros F1 F2 F3 F4 Ht [A B C D E].
  assert (reap_list s' = reap_list s) as L
    by (unfold reap_list, ring_slot, ring_count; by rewrite F2, F3, F4).
  assert (∀ t, reap_queued (thr s' t) = reap_queued (thr s t)
               ∧ reap_after_tick (thr s' t) = reap_after_tick (thr s t)) as F
    by (intros t; pose proof (F1 t) as X; by injection X).
  split; rewrite ?L; try done.
  - unfold ring_wf. by rewrite F3, F4.
  - intros t. by rewrite C, (proj1 (F t)).
  - eapply (sorted_ext (λ t, reap_after_tick (thr s t))); [|done]. intros t. by rewrite (proj2 (F t)).
  - intros t Hin. rewrite (proj2 (F t)). pose proof (E t Hin). lia.
Qed.

Lemma task_inv_frame s s' : task_frame s s' → task_inv s → task_inv s'.
Proof.
  intros T [A B C D E G].
  assert (∀ x, task_threads (tsk s' x) = task_threads (tsk s x) ∧ thread_count (tsk s' x) = thread_count (tsk s x)
    ∧ task_id (tsk s' x) = task_id (tsk s x)) as F
    by (intros x; pose proof (tf_tasks _ _ T x) as X; by injection X).
  assert (∀ x, is_Some (tasks s' !! x) ↔ is_Some (tasks s !! x)) as Dm
    by (intros x; rewrite <- !elem_of_dom; by rewrite (tf_task_dom _ _ T)).
  split.
  - intros x. by destruct (F x) as (-> & _ & _).
  - intros x t. destruct (F x) as (-> & _ & _). by rewrite B, (tf_threads _ _ T).
  - intros x. by destruct (F x) as (-> & -> & _).
  - intros x. by rewrite (tf_all _ _ T), Dm.
  - intros id x. rewrite (tf_index _ _ T), Dm, E. by destruct (F x) as (_ & _ & ->).
  - intros x. rewrite Dm, (tf_next _ _ T). destruct (F x) as (_ & _ & ->). apply G.
Qed.

(** Dead threads over a step that changes no death and only clears queue
    membership of dead threads. *)
Lemma dead_inv_step s s' :
  reap_list s' = reap_list s → current_thread s' = current_thread s →
  (∀ u, thread_state (thr s u) = THREAD_STATE_DEAD ↔ thread_state (thr s' u) = THREAD_STATE_DEAD) →
  (∀ u, thread_state (thr s' u) = THREAD_STATE_DEAD →
     (ready_queued (thr s u) = false → ready_queued (thr s' u) = false)
     ∧ (waitq_owner (thr s u) = 0 → waitq_owner (thr s' u) = 0)
     ∧ (wait_timeout_armed (thr s u) = false → wait_timeout_armed (thr s' u) = false)) →
  dead_inv s → dead_inv s'.
Proof.
  intros L C Hst Hq [A B D]. split.
  - intros u Hu. destruct (A u) as (? & ? & ?); [by apply Hst|]. destruct (Hq u Hu) as (? & ? & ?). auto.
  - intros u. rewrite L, C. intros Hin. destruct (B u Hin) as [Hu Hc]. split; [by apply Hst|done].
  - intros u Hu. rewrite L, C. apply D. by apply Hst.
Qed.

Lemma task_frame_policy s s' :
  task_frame s s' → queue_only_default s = false → queue_only_default s' = false.
Proof. intros T. unfold queue_only_default. by rewrite (tf_policy _ _ T). Qed.

Lemma kernel_inv_frames s s' :
  run_frame s s' → wait_frame s s' → ring_frame s s' → task_frame s s' →
  kernel_inv s → kernel_inv s'.
Proof.
  intros R W G T [A0 A Ap A1 A2 A3 A4 A5 A6]. split.
  - by eapply task_frame_store.
  - by rewrite (gf_ticks _ _ G).
  - by eapply task_frame_policy.
  - by eapply rq_inv_frame.
  - by eapply run_inv_frame.
  - by eapply wait_inv_frame.
  - by eapply ring_inv_frame.
  - revert A5. apply dead_inv_step; [by apply ring_frame_list|apply R|..]; intros u.
    + by rewrite (run_frame_state _ _ u R).
    + rewrite (run_frame_queued _ _ u R). by destruct (wait_frame_fields _ _ u W) as (-> & _ & ->).
  - by eapply task_inv_frame.
Qed.

(** ** Changes of one thread's run fields *)
Lemma kernel_inv_run_set s s' t q st :
  kernel_inv s → run_set s s' t (q, st) → wait_frame s s' → ring_frame s s' → task_frame s s' →
  rq_inv s' → run_inv s' → thread_state (thr s t) ≠ THREAD_STATE_DEAD → st ≠ THREAD_STATE_DEAD →
  kernel_inv s'.
Proof.
  intros [A0 A Ap A1 A2 A3 A4 A5 A6] R W G T Hrq Hrun Ht Hst. split; try done.
  - by eapply task_frame_store.
  - by rewrite (gf_ticks _ _ G).
  - by eapply task_frame_policy.
  - by eapply wait_inv_frame.
  - by eapply ring_inv_frame.
  - revert A5. apply dead_inv_step; [by apply ring_frame_list|apply R|..]; intros u;
      destruct (run_set_state _ _ _ _ _ u R) as [Es Eq]; rewrite Es.
    + by case_decide as D; [subst u|].
    + rewrite Eq. case_decide as D; [done|]. by destruct (wait_frame_fields _ _ u W) as (-> & _ & ->).
  - by eapply task_inv_frame.
Qed.

Lemma wake_inv s t :
  kernel_inv s → exists_thread s t → thread_state (thr s t) ≠ THREAD_STATE_DEAD →
  kernel_inv (scheduler_wake s t).
Proof.
  intros K Ht Hd. destruct (wake_spec s t) as [A B C W G T]; [apply K..|done|].
  by eapply kernel_inv_run_set.
Qed.

Lemma run_inv_set s s' t st :
  run_inv s → run_set s s' t (ready_queued (thr s t), st) → task_frame s s' →
  st ≠ THREAD_STATE_READY → st ≠ THREAD_STATE_RUNNING → run_inv s'.
Proof.
  intros [A B C] R T H1 H2. split.
  - intros u. destruct (run_set_state _ _ _ _ _ u R) as [-> ->]. case_decide; [done|apply A].
  - intros u. destruct (run_set_state _ _ _ _ _ u R) as [-> ->]. case_decide; [done|].
    destruct R as [[_ ->] _]. apply B.
  - destruct R as [[_ ->] _]. by rewrite (task_frame_exists _ _ _ T).
Qed.

(** Blocking a thread that is not dead. *)
Lemma set_blocked_inv s t :
  kernel_inv s → exists_thread s t → thread_state (thr s t) ≠ THREAD_STATE_DEAD →
  kernel_inv (scheduler_thread_set_state s t THREAD_STATE_BLOCKED).
Proof.
  intros K Ht Hd. pose proof (exists_nonzero s t (ki_store _ K) Ht) as H0.
  pose proof (set_state_run s t THREAD_STATE_BLOCKED Ht H0) as R.
  apply (kernel_inv_run_set s _ t _ _ K R); auto with frames.
  - apply set_state_rq, K.
  - apply (run_inv_set s _ t _ (ki_run _ K) R); auto with frames.
Qed.

Lemma block_inv s :
  kernel_inv s → thread_state (thr s (current_thread s)) ≠ THREAD_STATE_DEAD →
  kernel_inv (scheduler_block s).
Proof.
  intros K Hd. unfold scheduler_block. case_if; [done|]. case_if; [done|]. bool_hyps. cbv zeta.
  destruct (run_current _ (ki_run _ K)) as [|Hc]; [done|].
  pose proof (set_blocked_inv s _ K Hc Hd) as K1.
  revert K1. apply kernel_inv_frames; frames.
Qed.

(** ** Wait queues *)

(** A step inside the run, ring and task frames that keeps [wait_inv] and adds
    no dead thread to a wait queue. *)
Lemma kernel_inv_wait s s' :
  kernel_inv s → run_frame s s' → ring_frame s s' → task_frame s s' → wait_inv s' →
  (∀ u, thread_state (thr s u) = THREAD_STATE_DEAD →
     (waitq_owner (thr s u) = 0 → waitq_owner (thr s' u) = 0)
     ∧ (wait_timeout_armed (thr s u) = false → wait_timeout_armed (thr s' u) = false)) →
  kernel_inv s'.
Proof.
  intros [A0 A Ap A1 A2 A3 A4 A5 A6] R G T W Hd. split; try done.
  - by eapply task_frame_store.
  - by rewrite (gf_ticks _ _ G).
  - by eapply task_frame_policy.
  - by eapply rq_inv_frame.
  - by eapply run_inv_frame.
  - by eapply ring_inv_frame.
  - revert A5. apply dead_inv_step; [by apply ring_frame_list|apply R|..]; intros u;
      rewrite (run_frame_state _ _ u R); [done|].
    rewrite (run_frame_queued _ _ u R). intros Hu. by split; [|apply Hd].
  - by eapply task_inv_frame.
Qed.

Lemma waiting_facts s q t :
  kernel_inv s → t ∈ wq_threads (wq s q) →
  q ≠ 0 ∧ exists_thread s t ∧ t ≠ 0 ∧ thread_state (thr s t) ≠ THREAD_STATE_DEAD.
Proof.
  intros K Hin. apply (wq_mem _ (proj1 (ki_wait _ K))) in Hin as [Hq Ho].
  assert (exists_thread s t) as Ht by (apply exists_waiting; congruence).
  split_and!; try done; [by eapply exists_nonzero; [apply K|]|].
  intros Hd. apply (dead_quiet _ (ki_dead _ K)) in Hd as (_ & ? & _). congruence.
Qed.

Lemma unlink_inv s q t :
  kernel_inv s → t ∈ wq_threads (wq s q) → kernel_inv (waitq_unlink s q t).
Proof.
  intros K Hin. destruct (waiting_facts s q t K Hin) as (Hq & Ht & _ & _).
  destruct (unlink_spec s q t (ki_store _ K) (ki_wait _ K) Hin Ht) as (W & L & D & _).
  apply (kernel_inv_wait s); auto with frames.
  intros u _. rewrite (lq_owner _ _ _ _ L), (da_armed _ _ _ D). by case_decide.
Qed.

(** [waitq_wake_one] wakes the thread [u] that waited longest. *)
Record woken_from (s s' : sched_state) (q u : Z) (rest : list Z) : Prop := {
  wo_inv : kernel_inv s';
  wo_run : run_set s s' u (true, THREAD_STATE_READY);
  wo_queue : wq_threads (wq s' q) = rest;
  wo_owner : ∀ v, waitq_owner (thr s' v) = if decide (v = u) then 0 else waitq_owner (thr s v);
  wo_armed : wait_timeout_armed (thr s' u) = false;
  wo_timed : wait_timed_out (thr s' u) = false;
  wo_other : ∀ q', q' ≠ q → wq s' q' = wq s q'
}.

Lemma wake_one_result s q :
  kernel_inv s → q ≠ 0 →
  let '(t, s') := waitq_wake_one s q in
  match wq_threads (wq s q) with
  | [] => t = 0 ∧ s' = s
  | u :: rest => t = u ∧ u ≠ 0 ∧ woken_from s s' q u rest
  end.
Proof.
  intros K Hq. unfold waitq_wake_one, waitq_dequeue. rewrite (proj2 (Z.eqb_neq q 0)) by done.
  destruct (wq_threads (wq s q)) as [|u rest] eqn:E; [done|].
  assert (u ∈ wq_threads (wq s q)) as Hin by (rewrite E; by left).
  destruct (waiting_facts s q u K Hin) as (_ & Ht & H0 & Hd).
  rewrite (proj2 (Z.eqb_neq u 0)) by done.
  destruct (unlink_spec s q u (ki_store _ K) (ki_wait _ K) Hin Ht) as (W & L & D & To).
  set (s1 := waitq_unlink s q u) in *.
  assert (task_frame s s1) as T1 by apply unlink_task.
  assert (run_frame s s1) as R1 by apply unlink_run.
  pose proof (unlink_inv s q u K Hin) as K1. fold s1 in K1.
  assert (exists_thread s1 u) as Ht1 by (by apply (task_frame_exists _ _ _ T1)).
  destruct (wake_spec s1 u (ki_store _ K1) (ki_rq _ K1) (ki_run _ K1) Ht1) as [_ _ C Wf _ _].
  do 2 (split; [done|]). split.
  - apply wake_inv; [done..|by rewrite (run_frame_state _ _ u R1)].
  - by eapply run_set_frame.
  - rewrite (wait_frame_wq _ _ q Wf), (lq_threads _ _ _ _ L), E. apply tailq_remove_head.
    rewrite <- E. apply (wq_nodup _ (proj1 (ki_wait _ K))).
  - intros v. destruct (wait_frame_fields _ _ v Wf) as (-> & _ & _). by rewrite (lq_owner _ _ _ _ L).
  - destruct (wait_frame_fields _ _ u Wf) as (_ & _ & ->). rewrite (da_armed _ _ _ D). by rewrite decide_True.
  - by rewrite (wait_frame_timed_out _ _ u Wf).
  - intros q' Hq'. by rewrite (wait_frame_wq _ _ q' Wf), (lq_other _ _ _ _ L).
Qed.

(** [waitq_wake_all] empties the queue: the loop ends after as many rounds as
    there are waiters. *)
Lemma wake_all_result fuel s q woke l :
  kernel_inv s → q ≠ 0 → wq_threads (wq s q) = l → (length l < fuel)%nat → 0 ≤ woke →
  woke + Z.of_nat (length l) < 2 ^ 32 →
  ∃ s', wake_all_loop fuel s q woke = Some (woke + Z.of_nat (length l), s')
    ∧ kernel_inv s' ∧ wq_threads (wq s' q) = []
    ∧ (∀ u, u ∈ l → run_fields (thr s' u) = (true, THREAD_STATE_READY) ∧ waitq_owner (thr s' u) = 0)
    ∧ (∀ u, u ∉ l → run_fields (thr s' u) = run_fields (thr s u) ∧ waitq_owner (thr s' u) = waitq_owner (thr s u))
    ∧ (∀ q', q' ≠ q → wq s' q' = wq s q') ∧ current_thread s' = current_thread s.
Proof.
  revert fuel s woke. induction l as [|u l IH]; intros fuel s woke K Hq E Hf Hw Hlim;
    (destruct fuel as [|fuel]; [cbn in Hf; lia|]); cbn [wake_all_loop];
    pose proof (wake_one_result s q K Hq) as Hone; rewrite E in Hone;
    destruct (waitq_wake_one s q) as [t s1].
  { destruct Hone as [-> ->]. exists s. rewrite Z.add_0_r. split_and!; try done. intros u Hu.
    by destruct (not_elem_of_nil _ Hu). }
  destruct Hone as (-> & H0 & [K1 R1 Q1 O1 _ _ X1]). rewrite (proj2 (Z.eqb_neq u 0)) by done.
  cbn [length] in *. rewrite u32_small by lia.
  assert (NoDup (u :: l)) as Hnd by (rewrite <- E; apply (wq_nodup _ (proj1 (ki_wait _ K)))).
  apply NoDup_cons in Hnd as [Hu _].
  destruct (IH fuel s1 (woke + 1) K1 Hq Q1) as (s' & -> & K' & Q' & In & Out & X' & C'); try lia.
  exists s'. split; [f_equal; f_equal; lia|]. split_and!; try done.
  - intros v Hv. apply elem_of_cons in Hv as [->|Hv]; [|by apply In].
    destruct (Out u Hu) as [-> ->]. rewrite O1, decide_True by done. split; [apply R1|done].
  - intros v Hv. apply not_elem_of_cons in Hv as [Hvu Hv]. destruct (Out v Hv) as [-> ->].
    rewrite O1, decide_False by done. split; [|done]. apply R1. done.
  - intros q' Hq'. by rewrite X', X1.
  - rewrite C'. apply R1.
Qed.

(** ** Entering a wait queue *)
Lemma arm_run s t d : run_frame s (waitq_arm_timeout s t d).
Proof. unfold waitq_arm_timeout. frames. Qed.
Lemma arm_ring s t d : ring_frame s (waitq_arm_timeout s t d).
Proof. unfold waitq_arm_timeout. frames. Qed.
Lemma arm_task s t d : task_frame s (waitq_arm_timeout s t d).
Proof. unfold waitq_arm_timeout. frames. Qed.
Lemma wenqueue_run s q t : run_frame s (waitq_enqueue s q t).2.
Proof. unfold waitq_enqueue. repeat case_if; cbn [snd]; frames. Qed.
Lemma wenqueue_ring s q t : ring_frame s (waitq_enqueue s q t).2.
Proof. unfold waitq_enqueue. repeat case_if; cbn [snd]; frames. Qed.
Lemma wenqueue_task s q t : task_frame s (waitq_enqueue s q t).2.
Proof. unfold waitq_enqueue. repeat case_if; cbn [snd]; frames. Qed.

#[export] Hint Resolve arm_run arm_ring arm_task wenqueue_run wenqueue_ring wenqueue_task : frames.

(** The first update of the code: an armed timeout is disarmed. *)
Definition rearm (s : sched_state) (t : Z) : sched_state :=
  if wait_timeout_armed (thr s t) then waitq_disarm_timeout s t else s.

(** A field other than the two of the timeout is kept. *)
Lemma arm_keep {A} (g : thread_t → A) s t d u :
  (∀ th v, g (th <| wait_deadline_tick := v |>) = g th) →
  (∀ th b, g (th <| wait_timeout_armed := b |>) = g th) →
  g (thr (waitq_arm_timeout s t d) u) = g (thr s u).
Proof.
  intros Hd Ha. unfold waitq_arm_timeout. case_if; [done|]. cbv zeta. fold (rearm s t).
  rewrite thr_upd_keep by auto.
  change (g (thr (thr_upd t (λ th, th <| wait_deadline_tick := d |>) (rearm s t)) u) = g (thr s u)).
  rewrite thr_upd_keep by auto. unfold rearm, waitq_disarm_timeout. repeat case_if; try done. cbv zeta.
  rewrite thr_upd_keep; [done|]. intros th. by rewrite Hd, Ha.
Qed.

Lemma arm_wqs s t d : waitqs (waitq_arm_timeout s t d) = waitqs s.
Proof.
  unfold waitq_arm_timeout. case_if; [done|]. cbv zeta. fold (rearm s t).
  change (waitqs (rearm s t) = waitqs s). unfold rearm. case_if; [apply disarm_wqs|done].
Qed.

Lemma arm_spec s t d :
  store_ok s → to_inv s → exists_thread s t → d ≠ 0 →
  let s' := waitq_arm_timeout s t d in
  to_inv s' ∧ (∀ u, wait_timeout_armed (thr s' u)
                    = if decide (u = t) then true else wait_timeout_armed (thr s u))
  ∧ wait_deadline_tick (thr s' t) = d
  ∧ (∀ u, u ≠ t → wait_deadline_tick (thr s' u) = wait_deadline_tick (thr s u)).
Proof.
  intros Hs Hto Ht Hd s'. pose proof (exists_nonzero s t Hs Ht) as H0.
  unfold s', waitq_arm_timeout. rewrite !(proj2 (Z.eqb_neq _ 0)) by done. cbn [orb].
  fold (rearm s t). set (s1 := rearm s t).
  assert (disarmed s s1 t) as [D1 D2 D3 D4].
  { unfold s1, rearm. destruct (wait_timeout_armed (thr s t)) eqn:Ea; [by apply disarm_spec|].
    split; try done; [symmetry; apply tailq_remove_none; rewrite (to_mem _ Hto); congruence|].
    intros u. by case_decide as D; [subst u|]. }
  assert (task_frame s s1) as T1 by (unfold s1, rearm; frames).
  assert (exists_thread s1 t) as Ht1 by (by apply (task_frame_exists _ _ _ T1)).
  cbv zeta. set (f := λ th : thread_t, th <| wait_deadline_tick := d |>).
  set (g := λ th : thread_t, th <| wait_timeout_armed := true |>).
  set (s2 := thr_upd t f s1). set (s3 := s2 <| waitq_timeouts ::= λ l, l ++ [t] |>).
  assert (thr (thr_upd t g s3) t = g (f (thr s1 t))) as Et.
  { rewrite thr_upd_same by (by apply exists_thr_upd). change (thr s3 t) with (thr s2 t).
    unfold s2. by rewrite thr_upd_same. }
  assert (∀ u, u ≠ t → thr (thr_upd t g s3) u = thr s1 u) as Eo.
  { intros u Hu. rewrite thr_upd_other by done. change (thr s3 u) with (thr s2 u).
    by apply thr_upd_other. }
  assert (waitq_timeouts (thr_upd t g s3) = tailq_remove t (waitq_timeouts s) ++ [t]) as El
    by (cbn; by rewrite D2).
  assert (∀ u, wait_timeout_armed (thr (thr_upd t g s3) u)
             = if decide (u = t) then true else wait_timeout_armed (thr s u)) as Ha.
  { intros u. case_decide as D; [subst u; by rewrite Et|]. by rewrite Eo, D3, decide_False. }
  split_and!; try done; [split|by rewrite Et|intros u Hu; by rewrite Eo, D4].
  - rewrite El. apply NoDup_app. split_and!; [apply nodup_tailq_remove, Hto| |apply NoDup_singleton].
    intros u Hu Hin. apply list_elem_of_singleton in Hin as ->. by apply elem_tailq_remove in Hu as [? _].
  - intros u. rewrite El, Ha, elem_of_app, elem_tailq_remove, list_elem_of_singleton, (to_mem _ Hto).
    case_decide; intuition congruence.
  - intros u. rewrite Ha. case_decide as D; [subst u; by rewrite Et|].
    rewrite Eo, D4 by done. apply Hto.
Qed.

Lemma wenqueue_spec s q t :
  store_ok s → wqs_inv s → exists_thread s t → exists_wq s q → q ≠ 0 → waitq_owner (thr s t) = 0 →
  let '(r, s') := waitq_enqueue s q t in
  r = RDNX_OK ∧ wqs_inv s'
  ∧ (∀ u, waitq_owner (thr s' u) = if decide (u = t) then q else waitq_owner (thr s u))
  ∧ wq_threads (wq s' q) = wq_threads (wq s q) ++ [t].
Proof.
  intros Hs Hw Ht Hq Hq0 Ho. pose proof (exists_nonzero s t Hs Ht) as H0.
  unfold waitq_enqueue. rewrite Ho, !(proj2 (Z.eqb_neq _ 0)), (proj2 (Z.eqb_neq 0 q)) by congruence.
  cbn [orb negb Z.eqb]. split; [done|].
  set (g := λ w : waitq_t, w <| wq_threads ::= λ l, l ++ [t] |>).
  set (d := λ w : waitq_t, w <| wq_count ::= λ n, n +₃₂ 1 |>).
  set (f := λ th : thread_t, th <| waitq_owner := q |>). cbv zeta. set (s' := wq_upd q d _).
  assert (∀ u, waitq_owner (thr s' u) = if decide (u = t) then q else waitq_owner (thr s u)) as Eo.
  { intros u. change (thr s' u) with (thr (thr_upd t f s) u).
    case_decide as D; [subst u; by rewrite thr_upd_same|by rewrite thr_upd_other]. }
  assert (∀ q', wq s' q' = wq (wq_upd q d (wq_upd q g s)) q') as E by done.
  assert (wq s' q = d (g (wq s q))) as Eq
    by (rewrite E, wq_upd_same, wq_upd_same; [done|done|by apply exists_wq_upd]).
  assert (∀ q', q' ≠ q → wq s' q' = wq s q') as En
    by (intros q' ?; rewrite E, !wq_upd_other; done).
  assert (t ∉ wq_threads (wq s q)) as Hn by (rewrite (wq_mem _ Hw); intuition congruence).
  split_and!; try done; [|by rewrite Eq]. split; intros q'.
  - destruct (decide (q' = q)) as [->|]; [|rewrite En by done; apply Hw].
    rewrite Eq. cbn. apply NoDup_app. split_and!; [apply Hw| |apply NoDup_singleton].
    intros u Hu Hin. apply list_elem_of_singleton in Hin as ->. done.
  - intros u. rewrite Eo. destruct (decide (q' = q)) as [->|Hq'].
    + rewrite Eq. cbn. rewrite elem_of_app, list_elem_of_singleton, (wq_mem _ Hw).
      case_decide; intuition congruence.
    + rewrite En, (wq_mem _ Hw) by done. case_decide as D; [subst u; intuition congruence|done].
  - destruct (decide (q' = q)) as [->|]; [|rewrite En by done; apply Hw].
    rewrite Eq. cbn. rewrite length_app, (wq_len _ Hw). cbn [length].
    pose proof (nodup_length_size (threads s) (t :: wq_threads (wq s q))) as Hl.
    cbn [length] in Hl. destruct Hs as [Hfew _]. unfold few_threads in Hfew.
    rewrite u32_small; [lia|]. split; [lia|]. change (2 ^ 32) with 4294967296 in Hfew.
    enough (S (length (wq_threads (wq s q))) ≤ size (threads s))%nat by lia.
    apply Hl; [apply NoDup_cons; split; [done|apply Hw]|].
    intros u Hu. apply elem_of_cons in Hu as [->|Hu]; [done|].
    apply exists_waiting. apply (wq_mem _ Hw) in Hu as [? ->]. done.
Qed.

(** The part of a wait before its loop. *)
Lemma wait_begin_result s q d :
  kernel_inv s → exists_wq s q → q ≠ 0 → current_thread s ≠ 0 →
  let self := current_thread s in
  thread_state (thr s self) ≠ THREAD_STATE_DEAD → waitq_owner (thr s self) = 0 →
  let '(r, s') := waitq_wait_begin s q d in
  r = RDNX_OK ∧ kernel_inv s' ∧ wq_threads (wq s' q) = wq_threads (wq s q) ++ [self]
  ∧ waitq_owner (thr s' self) = q ∧ wait_timed_out (thr s' self) = false
  ∧ (d ≠ 0 → wait_timeout_armed (thr s' self) = true ∧ wait_deadline_tick (thr s' self) = d).
Proof.
  intros K Hq Hq0 Hc self Hd Ho. destruct (run_current _ (ki_run _ K)) as [|He]; [done|].
  unfold waitq_wait_begin. rewrite !(proj2 (Z.eqb_neq _ 0)) by done. fold self. cbv zeta.
  set (f := λ th : thread_t, th <| wait_timed_out := false |>). set (s1 := thr_upd self f s).
  assert (task_frame s s1) as T1 by (unfold s1; frames).
  assert (∀ u, waitq_owner (thr s1 u) = waitq_owner (thr s u)) as O1
    by (intros; by apply thr_upd_keep).
  assert (∀ u, wait_timeout_armed (thr s1 u) = wait_timeout_armed (thr s u)) as A1
    by (intros; by apply thr_upd_keep).
  assert (wait_inv s1) as [W1 V1].
  { destruct (ki_wait _ K) as [W V]. split; [by apply (wqs_inv_ext s)|].
    apply (to_inv_ext s); try done. intros; by apply thr_upd_keep. }
  pose proof (task_frame_store _ _ T1 (ki_store _ K)) as S1.
  assert (exists_thread s1 self) as He1 by (by apply (task_frame_exists _ _ _ T1)).
  unfold waitq_contains. rewrite !(proj2 (Z.eqb_neq _ 0)), O1, Ho, (proj2 (Z.eqb_neq 0 q)) by congruence.
  cbn [orb negb]. pose proof (wenqueue_spec s1 q self S1 W1 He1 Hq Hq0) as Henq.
  ospecialize (Henq _); [by rewrite O1|].
  pose proof (wenqueue_run s1 q self) as R2. pose proof (wenqueue_ring s1 q self) as G2.
  pose proof (wenqueue_task s1 q self) as T2.
  assert (to_inv (waitq_enqueue s1 q self).2 ∧ ∀ u, wait_timeout_armed (thr (waitq_enqueue s1 q self).2 u)
    = wait_timeout_armed (thr s1 u) ∧ wait_timed_out (thr (waitq_enqueue s1 q self).2 u)
    = wait_timed_out (thr s1 u)) as [V2 A2].
  { unfold waitq_enqueue. repeat case_if; cbn [snd]; try done. cbv zeta. split.
    - apply (to_inv_ext s1); try done; intros; by apply (thr_upd_keep _ s1).
    - intros u. split; by apply (thr_upd_keep _ s1). }
  destruct (waitq_enqueue s1 q self) as [r s2]. cbn [fst snd] in *.
  destruct Henq as (-> & W2 & O2 & Q2). rewrite (proj2 (Z.eqb_neq self 0)) by done.
  change (RDNX_OK =? RDNX_OK) with true. cbn [negb andb]. split; [done|].
  set (s3 := if negb (d =? 0) then waitq_arm_timeout s2 self d else s2).
  assert (run_frame s s3) as R3 by (transitivity s2; [transitivity s1; [unfold s1; frames|done]|unfold s3; frames]).
  assert (ring_frame s s3) as G3 by (transitivity s2; [transitivity s1; [unfold s1; frames|done]|unfold s3; frames]).
  assert (task_frame s1 s2 ∧ task_frame s s3) as [_ T3]
    by (split; [done|]; transitivity s2; [by transitivity s1|unfold s3; frames]).
  assert (exists_thread s2 self) as He2 by (by apply (task_frame_exists _ _ _ T2)).
  pose proof (task_frame_store _ _ T2 S1) as S2.
  assert (∀ u, waitq_owner (thr s3 u) = waitq_owner (thr s2 u)) as O3
    by (intros u; unfold s3; case_if; [by apply arm_keep|done]).
  assert (waitqs s3 = waitqs s2) as Q3 by (unfold s3; case_if; [apply arm_wqs|done]).
  assert (wqs_inv s3) as W3 by (by apply (wqs_inv_ext s2)).
  assert (to_inv s3 ∧ (∀ u, u ≠ self → wait_timeout_armed (thr s3 u) = wait_timeout_armed (thr s2 u))
    ∧ (d ≠ 0 → wait_timeout_armed (thr s3 self) = true ∧ wait_deadline_tick (thr s3 self) = d))
    as (V3 & A3 & D3).
  { unfold s3. case_if; bool_hyps; [|done].
    destruct (arm_spec s2 self d S2 V2 He2) as (X1 & X2 & X3 & _); [done|].
    split_and!; [done| |by intros; rewrite X2, decide_True].
    intros u Hu. by rewrite X2, decide_False. }
  split_and!; try done.
  - apply (kernel_inv_wait s); try done. intros u Hu. assert (u ≠ self) as Hus by congruence.
    rewrite O3, O2, decide_False, O1, A3 by done. destruct (A2 u) as [-> _]. by rewrite A1.
  - unfold wq. rewrite Q3. exact Q2.
  - by rewrite O3, O2, decide_True.
  - assert (wait_timed_out (thr s3 self) = wait_timed_out (thr s2 self)) as ->.
    { unfold s3. case_if; [by apply arm_keep|done]. }
    destruct (A2 self) as [_ ->]. unfold s1. by rewrite thr_upd_same.
Qed.

End SchedKernel.

(** * The timer tick: expired waits and time accounting *)
Module SchedTick.
Import Sched Waitq Task SchedFacts SchedInv SchedWait SchedRing SchedKernel.

(** What the tick leaves of a thread that does not time out. *)
Definition untouched (s s' : sched_state) (t : Z) : Prop :=
  run_fields (thr s' t) = run_fields (thr s t) ∧ wait_fields (thr s' t) = wait_fields (thr s t).

(** What it makes of one that does. *)
Definition timed_out (s' : sched_state) (t : Z) : Prop :=
  run_fields (thr s' t) = (true, THREAD_STATE_READY)
  ∧ waitq_owner (thr s' t) = 0 ∧ wait_timeout_armed (thr s' t) = false ∧ wait_timed_out (thr s' t) = true.

Definition expired (s : sched_state) (now t : Z) : Prop :=
  wait_timeout_armed (thr s t) = true ∧ wait_deadline_tick (thr s t) ≤ now.

#[export] Instance expired_dec s now t : Decision (expired s now t).
Proof. unfold expired. apply _. Defined.

(** The part of the step before the wake-up. *)
Definition expire (s : sched_state) (it : Z) : sched_state :=
  let owner := waitq_owner (thr s it) in
  let s := thr_upd it (λ th, th <| wait_timed_out := true |>) s in
  let s := waitq_disarm_timeout s it in
  if negb (owner =? 0) && waitq_contains s owner it then
    let s := wq_upd owner (λ w, w <| wq_threads ::= tailq_remove it |>) s in
    let s := thr_upd it (λ th, th <| waitq_owner := 0 |>) s in
    dec_count s owner
  else s.

Lemma expire_run s it : run_frame s (expire s it).
Proof. unfold expire. frames. Qed.
Lemma expire_ring s it : ring_frame s (expire s it).
Proof. unfold expire. frames. Qed.
Lemma expire_task s it : task_frame s (expire s it).
Proof. unfold expire. frames. Qed.

Lemma timeout_step_eq now s it :
  kernel_inv s → wait_timeout_armed (thr s it) = true →
  timeout_step now s it = if now <? wait_deadline_tick (thr s it) then s else scheduler_wake (expire s it) it.
Proof.
  intros K Ha. unfold timeout_step. rewrite Ha.
  rewrite (proj2 (Z.eqb_neq _ 0)); [done|]. by apply (to_deadline _ (proj2 (ki_wait _ K))).
Qed.

(** The first two updates of [expire], and the whole of it. *)
Lemma expire_disarm s it :
  kernel_inv s → exists_thread s it →
  let s1 := waitq_disarm_timeout (thr_upd it (λ th, th <| wait_timed_out := true |>) s) it in
  disarmed s s1 it ∧ (∀ u, waitq_owner (thr s1 u) = waitq_owner (thr s u)) ∧ waitqs s1 = waitqs s
  ∧ (∀ u, wait_timed_out (thr s1 u) = if decide (u = it) then true else wait_timed_out (thr s u)).
Proof.
  intros K He. set (f := λ th : thread_t, th <| wait_timed_out := true |>).
  cbv zeta. set (s0 := thr_upd it f s).
  assert (task_frame s s0) as T0 by (unfold s0; frames).
  assert (∀ u, wait_timeout_armed (thr s0 u) = wait_timeout_armed (thr s u)) as A0 by (intros; by apply thr_upd_keep).
  assert (∀ u, wait_deadline_tick (thr s0 u) = wait_deadline_tick (thr s u)) as D0 by (intros; by apply thr_upd_keep).
  assert (to_inv s0) as V0 by (apply (to_inv_ext s); try done; apply (proj2 (ki_wait _ K))).
  destruct (disarm_spec s0 it) as [X1 X2 X3 X4]; [eapply task_frame_store; [done|apply K]|done| |].
  { by apply (task_frame_exists _ _ _ T0). }
  split_and!.
  - split; [done|exact X2| |].
    + intros u. by rewrite X3, A0.
    + intros u Hu. by rewrite X4, D0.
  - intros u. rewrite disarm_owner. by apply thr_upd_keep.
  - by rewrite disarm_wqs.
  - intros u. rewrite disarm_timed_out. unfold s0. case_decide as D; [subst u; by rewrite thr_upd_same|].
    by rewrite thr_upd_other.
Qed.

Lemma expire_spec s it :
  kernel_inv s → exists_thread s it →
  let s' := expire s it in
  wait_inv s' ∧ disarmed s s' it
  ∧ (∀ u, waitq_owner (thr s' u) = if decide (u = it) then 0 else waitq_owner (thr s u))
  ∧ (∀ u, wait_timed_out (thr s' u) = if decide (u = it) then true else wait_timed_out (thr s u)).
Proof.
  intros K He. pose proof (exists_nonzero s it (ki_store _ K) He) as H0.
  destruct (expire_disarm s it K He) as (D & O & Q & M). unfold expire. cbv zeta.
  set (s1 := waitq_disarm_timeout _ it) in *. set (owner := waitq_owner (thr s it)).
  assert (task_frame s s1) as T1 by (unfold s1; frames).
  pose proof (task_frame_store _ _ T1 (ki_store _ K)) as S1.
  assert (wqs_inv s1) as W1 by (apply (wqs_inv_ext s); [done..|apply (proj1 (ki_wait _ K))]).
  assert (exists_thread s1 it) as He1 by (by apply (task_frame_exists _ _ _ T1)).
  unfold waitq_contains. rewrite O. fold owner. rewrite (proj2 (Z.eqb_neq it 0)) by done.
  destruct (owner =? 0) eqn:E0; cbn [negb andb orb].
  { bool_hyps. split_and!; [split; [done|apply D]|done| |done].
    intros u. rewrite O. by case_decide as X; [subst u|]. }
  rewrite Z.eqb_refl. bool_hyps.
  set (f := λ th : thread_t, th <| waitq_owner := 0 |>).
  set (s2 := wq_upd owner _ s1). set (s3 := thr_upd it f s2).
  assert (it ∈ wq_threads (wq s1 owner)) as Hin by (apply (wq_mem _ W1); by rewrite O).
  assert (left_queue s1 (dec_count s3 owner) owner it) as L by (by apply (unlink_left s3 s1 owner it f)).
  assert (∀ u, wait_timeout_armed (thr s3 u) = wait_timeout_armed (thr s1 u)) as A3
    by (intros; by apply (thr_upd_keep _ s2)).
  assert (∀ u, wait_deadline_tick (thr s3 u) = wait_deadline_tick (thr s1 u)) as D3
    by (intros; by apply (thr_upd_keep _ s2)).
  assert (to_inv (dec_count s3 owner)) as V by (apply (to_inv_ext s1); try done; apply D).
  split_and!; [split; [by eapply left_queue_inv|done]| | |].
  - destruct D as [_ D2 Da Dd]. split; [done|done| |].
    + intros u. change (thr (dec_count s3 owner) u) with (thr s3 u). by rewrite A3, Da.
    + intros u Hu. change (thr (dec_count s3 owner) u) with (thr s3 u). by rewrite D3, Dd.
  - intros u. rewrite (lq_owner _ _ _ _ L), O. done.
  - intros u. change (thr (dec_count s3 owner) u) with (thr s3 u). rewrite <- M.
    by apply (thr_upd_keep _ s2).
Qed.

Lemma untouched_refl s t : untouched s s t. Proof. done. Qed.
Lemma untouched_trans s1 s2 s3 t : untouched s1 s2 t → untouched s2 s3 t → untouched s1 s3 t.
Proof. intros [A B] [C D]. split; [by rewrite C|by rewrite D]. Qed.

Lemma wait_fields_eq s s' u :
  waitq_owner (thr s' u) = waitq_owner (thr s u) →
  wait_deadline_tick (thr s' u) = wait_deadline_tick (thr s u) →
  wait_timeout_armed (thr s' u) = wait_timeout_armed (thr s u) →
  wait_timed_out (thr s' u) = wait_timed_out (thr s u) →
  wait_fields (thr s' u) = wait_fields (thr s u).
Proof. unfold wait_fields. congruence. Qed.

Lemma armed_facts s t :
  kernel_inv s → wait_timeout_armed (thr s t) = true →
  exists_thread s t ∧ thread_state (thr s t) ≠ THREAD_STATE_DEAD.
Proof.
  intros K Ha. split; [by apply exists_armed|]. intros Hd.
  apply (dead_quiet _ (ki_dead _ K)) in Hd as (_ & _ & ?). congruence.
Qed.

(** One visited thread. *)
Lemma timeout_step_spec now s it :
  kernel_inv s → wait_timeout_armed (thr s it) = true →
  let s' := timeout_step now s it in
  kernel_inv s' ∧ ring_frame s s' ∧ task_frame s s' ∧ current_thread s' = current_thread s
  ∧ (∀ u, u ≠ it → untouched s s' u)
  ∧ (if decide (wait_deadline_tick (thr s it) ≤ now) then timed_out s' it else s' = s).
Proof.
  intros K Ha. destruct (armed_facts s it K Ha) as [He Hd]. cbv zeta.
  rewrite timeout_step_eq by done. case_if; bool_hyps.
  { rewrite decide_False by lia. split_and!; try done. }
  rewrite decide_True by done. destruct (expire_spec s it K He) as (W & D & O & M).
  set (s1 := expire s it) in *.
  assert (run_frame s s1) as R1 by apply expire_run.
  assert (ring_frame s s1) as G1 by apply expire_ring.
  assert (task_frame s s1) as T1 by apply expire_task.
  assert (kernel_inv s1) as K1.
  { apply (kernel_inv_wait s); try done. intros u _. rewrite O, (da_armed _ _ _ D). by case_decide. }
  assert (exists_thread s1 it) as He1 by (by apply (task_frame_exists _ _ _ T1)).
  assert (thread_state (thr s1 it) ≠ THREAD_STATE_DEAD) as Hd1 by (by rewrite (run_frame_state _ _ it R1)).
  destruct (wake_spec s1 it (ki_store _ K1) (ki_rq _ K1) (ki_run _ K1) He1) as [_ _ C Wf Gf Tf].
  split_and!.
  - by apply wake_inv.
  - by etransitivity.
  - by etransitivity.
  - destruct C as [[_ ->] _]. apply R1.
  - intros u Hu. split; [destruct C as [[Ho _] _]; rewrite Ho by done; apply R1|].
    rewrite (wf_threads _ _ Wf). apply wait_fields_eq.
    + by rewrite O, decide_False.
    + by apply (da_deadline _ _ _ D).
    + by rewrite (da_armed _ _ _ D), decide_False.
    + by rewrite M, decide_False.
  - split; [apply C|]. destruct (wait_frame_fields _ _ it Wf) as (-> & _ & ->).
    rewrite (wait_frame_timed_out _ _ it Wf), O, M, (da_armed _ _ _ D), !decide_True by done. done.
Qed.

Lemma untouched_expired s s' now t : untouched s s' t → expired s' now t ↔ expired s now t.
Proof. intros [_ W]. unfold expired. injection W as _ -> -> _. done. Qed.

(** A thread that timed out stays as it is while others are visited. *)
Lemma untouched_timed_out s s' t : untouched s s' t → timed_out s t → timed_out s' t.
Proof. intros [R W] (A & B & C & D). injection W as E1 _ E2 E3. unfold timed_out. by rewrite R, E1, E2, E3. Qed.

Lemma waitq_tick_loop now l s :
  kernel_inv s → NoDup l → (∀ t, t ∈ l → wait_timeout_armed (thr s t) = true) →
  let s' := foldl (timeout_step now) s l in
  kernel_inv s' ∧ ring_frame s s' ∧ task_frame s s' ∧ current_thread s' = current_thread s
  ∧ ∀ t, if decide (t ∈ l ∧ expired s now t) then timed_out s' t else untouched s s' t.
Proof.
  revert s. induction l as [|it l IH]; intros s K Hn Ha; cbv zeta.
  { do 4 (split; [done|]). intros t. case_decide as X; [destruct X as [X _]; by destruct (not_elem_of_nil _ X)|done]. }
  apply NoDup_cons in Hn as [Hit Hn]. cbn [foldl].
  destruct (timeout_step_spec now s it K (Ha it ltac:(by left))) as (K1 & G1 & T1 & C1 & U1 & X1).
  set (s1 := timeout_step now s it) in *.
  assert (∀ t, t ∈ l → untouched s s1 t) as Ul by (intros t Ht; apply U1; intros ->; done).
  destruct (IH s1 K1 Hn) as (K2 & G2 & T2 & C2 & X2).
  { intros t Ht. destruct (Ul t Ht) as [_ W]. injection W as _ _ -> _. apply Ha. by right. }
  split_and!; [done|by etransitivity|by etransitivity|congruence|].
  intros t. pose proof (X2 t) as Xt. destruct (decide (t = it)) as [->|Hti].
  - rewrite decide_False in Xt by (intros [? _]; done). destruct (decide (it ∈ it :: l ∧ expired s now it)) as [X|X].
    + destruct X as [_ [_ X]]. rewrite decide_True in X1 by done. by eapply untouched_timed_out.
    + rewrite decide_False in X1; [destruct Xt as [Y1 Y2]; split; [by rewrite Y1, X1|by rewrite Y2, X1]|]. intros Hd. apply X. split; [by left|].
      split; [apply Ha; by left|done].
  - pose proof (U1 t Hti) as Ut. destruct (decide (t ∈ l ∧ expired s1 now t)) as [[Hl He]|N].
    + rewrite decide_True; [done|]. split; [by right|]. by apply (untouched_expired _ _ _ _ Ut).
    + rewrite decide_False; [by eapply untouched_trans|]. rewrite elem_of_cons. intros [[->|Hl] He]; [done|].
      apply N. split; [done|]. by apply (untouched_expired _ _ _ _ Ut).
Qed.

Lemma waitq_tick_result s now :
  kernel_inv s →
  let s' := waitq_tick s now in
  kernel_inv s' ∧ ring_frame s s' ∧ task_frame s s' ∧ current_thread s' = current_thread s
  ∧ ∀ t, if decide (expired s now t) then timed_out s' t else untouched s s' t.
Proof.
  intros K. destruct (ki_wait _ K) as [_ [Hn Hm _]].
  destruct (waitq_tick_loop now (waitq_timeouts s) s K Hn) as (K' & G & T & C & X).
  { intros t. by rewrite Hm. }
  split_and!; try done. intros t. pose proof (X t) as Xt. destruct (decide (expired s now t)) as [E|E].
  - rewrite decide_True in Xt; [done|]. split; [|done]. rewrite Hm. apply E.
  - by rewrite decide_False in Xt by tauto.
Qed.

(** The tick wakes exactly the threads whose deadline passed, reports the
    timeout to them, takes them off their wait queue and puts them on a ready
    queue; every other thread keeps its state and its place. *)
Theorem waitq_tick_correct s now :
  kernel_inv s →
  let s' := waitq_tick s now in
  kernel_inv s' ∧ ∀ t, if decide (expired s now t) then timed_out s' t else untouched s s' t.
Proof. intros K. destruct (waitq_tick_result s now K) as (A & _ & _ & _ & B). done. Qed.

(** ** The scheduler tick *)
Lemma kernel_inv_clock s n :
  kernel_inv s → sched_ticks s ≤ n → kernel_inv (s <| sched_ticks := n |>).
Proof.
  intros [A0 A Ap A1 A2 A3 A4 A5 A6] Hn. split; try done; try (cbn; lia).
  - revert A1. by apply rq_inv_frame.
  - revert A2. by apply run_inv_frame.
  - revert A3. by apply wait_inv_frame.
  - revert A4. by apply ring_inv_tick.
  - revert A5. by apply dead_inv_step.
  - revert A6. by apply task_inv_frame.
Qed.

Lemma charge_inv s : kernel_inv s → kernel_inv (charge_current s).
Proof. apply kernel_inv_frames; unfold charge_current; frames. Qed.

Lemma count_down_inv s : kernel_inv s → kernel_inv (count_down s).
Proof. apply kernel_inv_frames; unfold count_down; frames. Qed.

Lemma tick_inv s :
  kernel_inv s → sched_ticks s + 1 < 2 ^ 64 → kernel_inv (scheduler_tick s).
Proof.
  intros K Hlim. change (2 ^ 64) with 18446744073709551616 in Hlim. pose proof (ki_ticks _ K).
  unfold scheduler_tick. case_if; [done|]. cbv zeta.
  set (s0 := s <| sched_ticks ::= _ |>).
  assert (kernel_inv s0) as K0.
  { unfold s0, field_update. cbn. rewrite u64_small by lia.
    apply (kernel_inv_clock s (sched_ticks s + 1)); [done|lia]. }
  destruct (waitq_tick_result s0 (sched_ticks s0) K0) as (K1 & _).
  by apply count_down_inv, charge_inv.
Qed.

End SchedTick.
