(* ===== verification/SchedSwitch.v ===== *)
(** * The switch *)

From stdpp Require Import base gmap list numbers fin_maps sorting.
From S2P Require Import Prelude Sched Waitq Task SchedInv SchedWait SchedKernel.

Module SchedSwitch.
Import Sched Waitq Task SchedFacts SchedInv SchedWait SchedRing SchedKernel.

(** ** Handing a dead thread to the reaper *)
Lemma sorted_snoc (f : Z → Z) l t :
  StronglySorted (λ x y, f x ≤ f y) l → (∀ x, x ∈ l → f x ≤ f t) →
  StronglySorted (λ x y, f x ≤ f y) (l ++ [t]).
Proof.
  induction 1 as [|x l H IH Hx]; intros Ht; cbn; [repeat constructor|].
  constructor; [apply IH; intros; apply Ht; by right|].
  apply Forall_app. split; [done|]. constructor; [|constructor]. apply Ht. by left.
Qed.

Lemma reap_enqueue_spec s t :
  ring_inv s → exists_thread s t → t ≠ 0 → reap_queued (thr s t) = false →
  0 ≤ sched_ticks s → sched_ticks s + 128 < 2 ^ 64 →
  match scheduler_reap_enqueue s t with
  | Done s' => ring_inv s' ∧ reap_list s' = reap_list s ++ [t] ∧ run_frame s s' ∧ wait_frame s s'
               ∧ task_frame s s' ∧ sched_ticks s' = sched_ticks s
               ∧ reap_after_tick (thr s' t) = sched_ticks s + 128
               ∧ (∀ u, stack_pointer (thr s' u) = stack_pointer (thr s u))
  | Panic => length (reap_list s) = 63%nat
  end.
Proof.
  intros [Hw Hn Hm Hso Hb] Ht H0 Hq Htk Hlim. change (2 ^ 64) with 18446744073709551616 in Hlim.
  unfold scheduler_reap_enqueue. rewrite (proj2 (Z.eqb_neq t 0)), Hq by done. cbn [orb].
  case_if; bool_hyps; [by apply ring_full|].
  set (f := λ th : thread_t, th <| reap_after_tick := sched_ticks s +₆₄ REAP_GRACE_TICKS |>
                                <| reap_queued := true |>).
  cbv zeta. set (s1 := thr_upd t f s). set (s' := reap_upd _ _).
  destruct (ring_append s s' t Hw Eif) as [L W']; [done..|].
  assert (∀ u, thr s' u = thr s1 u) as E by done.
  assert (thr s1 t = f (thr s t)) as Et by (by apply thr_upd_same).
  assert (∀ u, u ≠ t → thr s1 u = thr s u) as Eo by (intros; by apply thr_upd_other).
  assert (t ∉ reap_list s) as Hnin by (rewrite Hm; congruence).
  assert (reap_after_tick (thr s' t) = sched_ticks s + 128) as Ea.
  { rewrite E, Et. cbn. unfold REAP_GRACE_TICKS. rewrite u64_small; lia. }
  assert (∀ u, u ∈ reap_list s → reap_after_tick (thr s' u) = reap_after_tick (thr s u)) as Eau
    by (intros u Hu; rewrite E, Eo; [done|congruence]).
  split_and!; try done; [split; rewrite ?L| | | |].
  - done.
  - apply NoDup_app. split_and!; [done| |apply NoDup_singleton].
    intros u Hu Hin. apply list_elem_of_singleton in Hin as ->. done.
  - intros u. rewrite elem_of_app, list_elem_of_singleton, Hm, E.
    destruct (decide (u = t)) as [->|N]; [rewrite Et; cbn; tauto|rewrite Eo by done; tauto].
  - apply (sorted_snoc (λ u, reap_after_tick (thr s' u))).
    + clear -Hso Eau. induction Hso as [|x l H IH Hx]; [constructor|].
      constructor; [apply IH; intros; apply Eau; by right|].
      rewrite Forall_forall in *. intros u Hu. rewrite !Eau by (first [by left|by right]). by apply Hx.
    + intros u Hu. rewrite Ea, Eau by done. by apply Hb.
  - intros u Hu. change (sched_ticks s') with (sched_ticks s). apply elem_of_app in Hu as [Hu|Hu].
    + rewrite Eau by done. by apply Hb.
    + apply list_elem_of_singleton in Hu as ->. lia.
  - split; try done. intros u. rewrite E. by apply thr_upd_keep.
  - split; try done. intros u. rewrite E. by apply thr_upd_keep.
  - split; try done; [intros u; rewrite E; by apply thr_upd_keep|apply dom_thr_upd].
  - intros u. rewrite E. by apply thr_upd_keep.
Qed.

(** ** The thread that runs next *)
Lemma address_space_run s t : run_frame s (scheduler_switch_address_space s t).
Proof. unfold scheduler_switch_address_space. frames. Qed.
Lemma address_space_wait s t : wait_frame s (scheduler_switch_address_space s t).
Proof. unfold scheduler_switch_address_space. frames. Qed.
Lemma address_space_ring s t : ring_frame s (scheduler_switch_address_space s t).
Proof. unfold scheduler_switch_address_space. frames. Qed.
Lemma address_space_task s t : task_frame s (scheduler_switch_address_space s t).
Proof. unfold scheduler_switch_address_space. frames. Qed.
Lemma tss_run s t : run_frame s (scheduler_update_tss s t).
Proof. unfold scheduler_update_tss. frames. Qed.
Lemma tss_wait s t : wait_frame s (scheduler_update_tss s t).
Proof. unfold scheduler_update_tss. frames. Qed.
Lemma tss_ring s t : ring_frame s (scheduler_update_tss s t).
Proof. unfold scheduler_update_tss. frames. Qed.
Lemma tss_task s t : task_frame s (scheduler_update_tss s t).
Proof. unfold scheduler_update_tss. frames. Qed.
Lemma timeslice_run s t : run_frame s (scheduler_reset_timeslice s t).
Proof. unfold scheduler_reset_timeslice. by split. Qed.
Lemma timeslice_wait s t : wait_frame s (scheduler_reset_timeslice s t).
Proof. unfold scheduler_reset_timeslice. by split. Qed.
Lemma timeslice_ring s t : ring_frame s (scheduler_reset_timeslice s t).
Proof. unfold scheduler_reset_timeslice. by split. Qed.
Lemma timeslice_task s t : task_frame s (scheduler_reset_timeslice s t).
Proof. unfold scheduler_reset_timeslice. by split. Qed.

#[export] Hint Resolve address_space_run address_space_wait address_space_ring address_space_task
  tss_run tss_wait tss_ring tss_task timeslice_run timeslice_wait timeslice_ring timeslice_task : frames.

Lemma switch_to_wait s t : wait_frame s (switch_to s t).
Proof. unfold switch_to. frames. Qed.
Lemma switch_to_ring s t : ring_frame s (switch_to s t).
Proof. unfold switch_to. frames. Qed.
Lemma switch_to_task s t : task_frame s (switch_to s t).
Proof. unfold switch_to. frames. Qed.

(** Of the run fields only the current thread changes. *)
Lemma switch_to_run s t : run_frame (s <| current_thread := t |>) (switch_to s t).
Proof. unfold switch_to. frames. Qed.

Lemma address_space_stores s t :
  let s' := scheduler_switch_address_space s t in
  threads s' = threads s ∧ tasks s' = tasks s ∧ current_task s' = current_task s.
Proof. unfold scheduler_switch_address_space. cbv zeta. by repeat case_if. Qed.

Lemma tss_stores s t :
  let s' := scheduler_update_tss s t in
  threads s' = threads s ∧ tasks s' = tasks s ∧ current_task s' = current_task s ∧ cr3 s' = cr3 s.
Proof. unfold scheduler_update_tss. cbv zeta. by case_if. Qed.

Lemma address_space_cr3 s t :
  t ≠ 0 → task_of (thr s t) ≠ 0 → address_space (tsk s (task_of (thr s t))) ≠ 0 →
  cr3 (scheduler_switch_address_space s t) = address_space (tsk s (task_of (thr s t))).
Proof.
  intros H0 Hx Ha. unfold scheduler_switch_address_space. rewrite (proj2 (Z.eqb_neq t 0)) by done.
  cbv zeta. set (s0 := if scheduler_kernel_pml4 s =? 0 then _ else s).
  assert (thr s0 t = thr s t ∧ tsk s0 = tsk s ∧ cr3 s0 = cr3 s) as (-> & -> & Ec)
    by (unfold s0; by case_if).
  rewrite (proj2 (Z.eqb_neq (task_of _) 0)) by done. set (a := address_space _) in *.
  rewrite (proj2 (Z.eqb_neq a 0)) by done. cbn [negb andb]. rewrite (proj2 (Z.eqb_neq a 0)) by done.
  cbn [negb andb]. case_if; bool_hyps; done.
Qed.

(** The threads themselves are untouched by it. *)
Lemma switch_to_threads s t : threads (switch_to s t) = threads s ∧ tasks (switch_to s t) = tasks s.
Proof.
  unfold switch_to. cbv zeta. set (s1 := if negb _ then _ else _).
  assert (threads s1 = threads s ∧ tasks s1 = tasks s) as [<- <-] by (unfold s1; by case_if).
  destruct (address_space_stores s1 t) as (<- & <- & _).
  destruct (tss_stores (scheduler_switch_address_space s1 t) t) as (<- & <- & _). done.
Qed.

(** The processor runs on the page tables and the kernel stack of the next
    thread. *)
Definition switched_cpu (s : sched_state) (next : Z) : Prop :=
  let x := task_of (thr s next) in
  (x ≠ 0 → address_space (tsk s x) ≠ 0 → cr3 s = address_space (tsk s x))
  ∧ (x ≠ 0 → current_task s = x)
  ∧ (stack (thr s next) ≠ 0 → stack_size (thr s next) ≠ 0 →
     tss_rsp0 s = stack (thr s next) +₆₄ stack_size (thr s next) -₆₄ 16).

Lemma switch_to_cpu s t : t ≠ 0 → switched_cpu (switch_to s t) t.
Proof.
  intros H0. destruct (switch_to_threads s t) as [Et Ek].
  assert (thr (switch_to s t) t = thr s t) as Eth by (unfold thr; by rewrite Et).
  assert (tsk (switch_to s t) = tsk s) as Etk by (unfold tsk; by rewrite Ek).
  unfold switched_cpu. rewrite Eth, Etk. cbv zeta.
  unfold switch_to. cbv zeta. set (s1 := if negb _ then _ else _).
  assert (threads s1 = threads s ∧ tasks s1 = tasks s
          ∧ (task_of (thr s t) ≠ 0 → current_task s1 = task_of (thr s t))) as (E1 & E2 & E3).
  { unfold s1. change (thr (s <| current_thread := t |>) t) with (thr s t).
    case_if; bool_hyps; [done|]. by split_and!. }
  assert (thr s1 t = thr s t) as E4 by (unfold thr; by rewrite E1).
  assert (tsk s1 = tsk s) as E5 by (unfold tsk; by rewrite E2).
  set (s2 := scheduler_switch_address_space s1 t).
  destruct (address_space_stores s1 t) as (F1 & _ & F3). fold s2 in F1, F3.
  destruct (tss_stores s2 t) as (_ & _ & G3 & G4).
  assert (thr s2 t = thr s t) as F4 by (unfold thr at 1; by rewrite F1).
  split_and!.
  - intros Hx Ha. change (cr3 (scheduler_update_tss s2 t) = address_space (tsk s (task_of (thr s t)))).
    rewrite G4. unfold s2. rewrite address_space_cr3; rewrite ?E4, ?E5; done.
  - intros Hx. change (current_task (scheduler_update_tss s2 t) = task_of (thr s t)).
    rewrite G3, F3. by apply E3.
  - intros Hs1 Hs2. change (tss_rsp0 (scheduler_update_tss s2 t)
      = stack (thr s t) +₆₄ stack_size (thr s t) -₆₄ 16).
    unfold scheduler_update_tss. rewrite F4, !(proj2 (Z.eqb_neq _ 0)) by done. done.
Qed.

(** ** The thread that stops running *)
Definition suspend (s : sched_state) (frame : Z) : sched_state :=
  let cur := current_thread s in
  let s := s <| resched_pending := false |> in
  let s := thr_upd cur (λ th, th <| stack_pointer := frame |>) s in
  if bool_decide (thread_state (thr s cur) = THREAD_STATE_RUNNING)
  then ready_enqueue (scheduler_thread_set_state s cur THREAD_STATE_READY) cur else s.

Record suspended (s s' : sched_state) (frame : Z) : Prop := {
  su_inv : kernel_inv s';
  su_current : current_thread s' = current_thread s;
  su_idle : ∀ t, thread_state (thr s' t) ≠ THREAD_STATE_RUNNING;
  su_thread : run_fields (thr s' (current_thread s))
    = if decide (thread_state (thr s (current_thread s)) = THREAD_STATE_RUNNING)
      then (true, THREAD_STATE_READY) else run_fields (thr s (current_thread s));
  su_others : ∀ u, u ≠ current_thread s → run_fields (thr s' u) = run_fields (thr s u);
  su_ring : ring_frame s s';
  su_policy : queue_only_default s' = queue_only_default s;
  su_queues : thread_state (thr s (current_thread s)) ≠ THREAD_STATE_RUNNING → ready_queues s' = ready_queues s;
  su_sp : ∀ u, u ≠ current_thread s → stack_pointer (thr s' u) = stack_pointer (thr s u);
  su_saved : current_thread s ≠ 0 → stack_pointer (thr s' (current_thread s)) = frame
}.

Lemma enqueue_keep {A} (g : thread_t → A) s t u :
  (∀ th b, g (th <| ready_queued := b |>) = g th) →
  g (thr (ready_enqueue s t) u) = g (thr s u).
Proof.
  intros H. unfold ready_enqueue. repeat case_if; try done; cbv zeta;
  match goal with |- g (thr (stats_upd _ (thr_upd _ ?f ?s1)) _) = _ =>
    change (g (thr (thr_upd t f s1) u) = g (thr s u)) end; by rewrite thr_upd_keep.
Qed.

Lemma set_state_keep {A} (g : thread_t → A) s t u st :
  (∀ th x, g (th <| thread_state := x |>) = g th) →
  g (thr (scheduler_thread_set_state s t st) u) = g (thr s u).
Proof.
  intros H. unfold scheduler_thread_set_state. case_if; [done|]. cbv zeta.
  change (g (thr (thr_upd t (λ th, th <| thread_state := st |>) s) u) = g (thr s u)).
  by rewrite thr_upd_keep.
Qed.

Lemma ready_policy s t st :
  current_policy (ready_enqueue (scheduler_thread_set_state s t st) t) = current_policy s.
Proof. unfold ready_enqueue, scheduler_thread_set_state. by repeat case_if. Qed.

Lemma suspend_spec s frame :
  kernel_inv s → current_thread s ≠ 0 → suspended s (suspend s frame) frame.
Proof.
  intros K Hc. destruct (run_current _ (ki_run _ K)) as [|He]; [done|]. unfold suspend.
  set (cur := current_thread s) in *. cbv zeta.
  set (f := λ th : thread_t, th <| stack_pointer := frame |>).
  set (s1 := thr_upd cur f (s <| resched_pending := false |>)).
  assert (run_frame s s1) as R by (unfold s1; frames).
  assert (wait_frame s s1) as W by (unfold s1; frames).
  assert (ring_frame s s1) as G by (unfold s1; frames).
  assert (task_frame s s1) as T by (unfold s1; frames).
  assert (kernel_inv s1) as K1 by (by eapply kernel_inv_frames).
  assert (exists_thread s1 cur) as He1 by (by apply (task_frame_exists _ _ _ T)).
  assert (∀ u, stack_pointer (thr s1 u) = if decide (u = cur) then frame else stack_pointer (thr s u)) as Sp.
  { intros u. unfold s1. case_decide as D; [subst u; by rewrite thr_upd_same|by rewrite thr_upd_other]. }
  assert (thread_state (thr s1 cur) = thread_state (thr s cur)) as Es by (apply (run_frame_state _ _ cur R)).
  rewrite Es. case_if; bool_hyps.
  - destruct (make_ready s1 cur (ki_store _ K1) (ki_rq _ K1) (ki_run _ K1) He1) as (A & B & C).
    set (s2 := ready_enqueue _ cur) in *.
    assert (wait_frame s1 s2) as W2 by (unfold s2; frames).
    assert (ring_frame s1 s2) as G2 by (unfold s2; frames).
    assert (task_frame s1 s2) as T2 by (unfold s2; frames).
    split; try done.
    + apply (kernel_inv_run_set s1 s2 cur _ _ K1 C); try done. by rewrite Es, Eif.
    + apply C.
    + intros t. destruct (run_set_state _ _ _ _ _ t C) as [-> _]. case_decide as D; [done|].
      intros Ht. apply D. by destruct (run_running _ (ki_run _ K1) t Ht).
    + fold cur. rewrite decide_True by done. apply C.
    + intros u Hu. destruct C as [[Co _] _]. rewrite Co by done. apply R.
    + by transitivity s1.
    + unfold queue_only_default, s2. by rewrite ready_policy.
    + intros u Hu. unfold s2. by rewrite enqueue_keep, set_state_keep, Sp, decide_False.
    + intros _. fold cur. unfold s2. rewrite enqueue_keep, set_state_keep, Sp by done. by rewrite decide_True.
  - split; try done.
    + intros t Ht. destruct (run_running _ (ki_run _ K1) t Ht) as [-> _].
      apply Eif. by rewrite <- Es.
    + fold cur. rewrite decide_False by done. apply R.
    + intros u _. apply R.
    + intros u Hu. by rewrite Sp, decide_False.
    + intros _. fold cur. by rewrite Sp, decide_True.
Qed.

Lemma thr_upd_missing s t f : ¬ exists_thread s t → thr_upd t f s = s.
Proof.
  intros Hn. assert (alter f t (threads s) = threads s) as E.
  { apply map_eq. intros i. destruct (decide (t = i)) as [<-|]; [|by rewrite lookup_alter_ne].
    rewrite lookup_alter_eq. unfold exists_thread in Hn.
    destruct (threads s !! t) as [th|]; [destruct Hn; by exists th|done]. }
  unfold thr_upd, field_update. cbn. rewrite E. by destruct s.
Qed.

(** Before the first switch there is no thread to suspend. *)
Lemma suspend_none s frame :
  kernel_inv s → current_thread s = 0 → suspend s frame = s <| resched_pending := false |>.
Proof.
  intros K Hc. unfold suspend. rewrite Hc. cbv zeta. destruct (ki_store _ K) as [_ Hn].
  set (s1 := s <| resched_pending := false |>).
  rewrite (thr_upd_missing s1 0) by done.
  rewrite bool_decide_eq_false_2; [done|]. rewrite not_exists_thr by done. done.
Qed.

Lemma suspend_none_spec s frame :
  kernel_inv s → current_thread s = 0 → suspended s (suspend s frame) frame.
Proof.
  intros K Hc. rewrite suspend_none by done. split; try done; rewrite ?Hc; try done.
  - revert K. apply kernel_inv_frames; by split.
  - intros t Ht. destruct (run_running _ (ki_run _ K) t Ht) as [Ht' _]. rewrite Hc in Ht'. subst t.
    by apply (exists_state s 0) in Ht; [destruct (ki_store _ K)|].
  - rewrite decide_False; [done|]. change (thr s 0) with (thr s 0).
    rewrite not_exists_thr by apply (ki_store _ K). done.
Qed.

(** ** Dispatching the chosen thread *)
Record dispatching (s0 s1 s' : sched_state) (next : Z) : Prop := {
  di_wait : wait_frame s1 s';
  di_task : task_frame s1 s';
  di_current : current_thread s' = next;
  di_queues : ready_queues s' = ready_queues s1;
  di_count : ready_tasks (stats s') = ready_tasks (stats s1);
  di_others : ∀ u, u ≠ next → run_fields (thr s' u) = run_fields (thr s1 u);
  di_next : run_fields (thr s' next) = (false, THREAD_STATE_RUNNING);
  di_ticks : sched_ticks s' = sched_ticks s1;
  di_ring : ring_inv s';
  di_list : ∀ u, u ∈ reap_list s' ↔
    u ∈ reap_list s0 ∨ (u = current_thread s0 ∧ thread_state (thr s0 u) = THREAD_STATE_DEAD)
}.

Lemma run_fields_eq s s' u :
  run_fields (thr s' u) = run_fields (thr s u) →
  thread_state (thr s' u) = thread_state (thr s u) ∧ ready_queued (thr s' u) = ready_queued (thr s u).
Proof. intros E. by injection E. Qed.

Section dispatch.
Context (s0 s1 s' : sched_state) (q next : Z) (rest : list Z).
Context (K : kernel_inv s0) (Hidle : ∀ t, thread_state (thr s0 t) ≠ THREAD_STATE_RUNNING).
Context (Hq : q ∈ buckets) (Hhead : rq s0 q = next :: rest) (D : dequeued s0 s1 q next rest).
Context (W : wait_frame s0 s1) (G : ring_frame s0 s1) (T : task_frame s0 s1).
Context (P : dispatching s0 s1 s' next).

Lemma next_queued : ready_queued (thr s0 next) = true.
Proof. apply (rq_mem _ (ki_rq _ K)). by apply (head_ready _ q next rest). Qed.

Lemma next_alive : thread_state (thr s0 next) ≠ THREAD_STATE_DEAD.
Proof.
  intros Hd. apply (dead_quiet _ (ki_dead _ K)) in Hd as (Hr & _). by rewrite next_queued in Hr.
Qed.

Lemma dispatched_state u :
  thread_state (thr s' u) = (if decide (u = next) then THREAD_STATE_RUNNING else thread_state (thr s0 u))
  ∧ ready_queued (thr s' u) = (if decide (u = next) then false else ready_queued (thr s0 u)).
Proof.
  case_decide as E.
  - subst u. by injection (di_next _ _ _ _ P).
  - destruct (run_fields_eq s1 s' u) as [-> ->]; [by apply (di_others _ _ _ _ P)|].
    apply run_fields_eq. by apply (dq_only _ _ _ _ _ D).
Qed.

Lemma dispatched_rq : rq_inv s'.
Proof.
  destruct (dq_inv _ _ _ _ _ D) as [A B C].
  assert (ready_list s' = ready_list s1) as E
    by (unfold ready_list, rq; by rewrite (di_queues _ _ _ _ P)).
  split; rewrite ?E; [done| |by rewrite (di_count _ _ _ _ P)].
  intros u. rewrite B. destruct (decide (u = next)) as [->|N].
  - injection (dq_thread _ _ _ _ _ D) as -> _. by injection (di_next _ _ _ _ P) as -> _.
  - by destruct (run_fields_eq s1 s' u (di_others _ _ _ _ P u N)) as [_ ->].
Qed.

Lemma dispatch_inv : kernel_inv s'.
Proof.
  pose proof K as [A0 A Ap A1 A2 A3 A4 A5 A6]. assert (task_frame s0 s') as T' by (transitivity s1; [done|apply P]).
  assert (wait_frame s0 s') as W' by (transitivity s1; [done|apply P]).
  split.
  - by eapply task_frame_store.
  - by rewrite (di_ticks _ _ _ _ P), (gf_ticks _ _ G).
  - by eapply task_frame_policy.
  - exact dispatched_rq.
  - split.
    + intros u. destruct (dispatched_state u) as [-> ->]. case_decide; [done|apply A2].
    + intros u. destruct (dispatched_state u) as [-> ->]. rewrite (di_current _ _ _ _ P).
      case_decide; [done|]. intros Hu. by destruct (Hidle u).
    + right. rewrite (di_current _ _ _ _ P), (task_frame_exists _ _ _ T'). apply exists_queued, next_queued.
  - by eapply wait_inv_frame.
  - apply P.
  - destruct A5 as [B1 B2 B3]. split.
    + intros u. destruct (dispatched_state u) as [-> ->]. case_decide; [done|].
      destruct (wait_frame_fields _ _ u W') as (-> & _ & ->). apply B1.
    + intros u Hu. apply (di_list _ _ _ _ P) in Hu. rewrite (di_current _ _ _ _ P).
      assert (thread_state (thr s0 u) = THREAD_STATE_DEAD) as Hd
        by (destruct Hu as [Hu|[_ Hu]]; [by apply B2|done]).
      assert (u ≠ next) as N by (intros ->; by apply next_alive).
      split; [|done]. destruct (dispatched_state u) as [-> _]. by rewrite decide_False.
    + intros u. destruct (dispatched_state u) as [-> _]. case_decide; [done|]. intros Hu. left.
      apply (di_list _ _ _ _ P). destruct (B3 u Hu) as [|Hc]; [by left|by right].
  - by eapply task_inv_frame.
Qed.

End dispatch.

Definition finish (s : sched_state) (next : Z) : sched_state :=
  scheduler_reset_timeslice (scheduler_thread_set_state s next THREAD_STATE_RUNNING) next.

Lemma set_state_rf s t st :
  ready_queues (scheduler_thread_set_state s t st) = ready_queues s
  ∧ stats (scheduler_thread_set_state s t st) = stats s.
Proof. unfold scheduler_thread_set_state. by case_if. Qed.

(** From the state after the dequeue to the end, whatever happened to the
    ring in between. *)
Lemma finish_dispatching s0 s1 s2 q next rest :
  kernel_inv s0 → q ∈ buckets → rq s0 q = next :: rest → dequeued s0 s1 q next rest →
  task_frame s0 s1 →
  run_frame (switch_to s1 next) s2 → wait_frame (switch_to s1 next) s2 →
  task_frame (switch_to s1 next) s2 → sched_ticks s2 = sched_ticks s1 → ring_inv s2 →
  (∀ u, u ∈ reap_list s2 ↔
    u ∈ reap_list s0 ∨ (u = current_thread s0 ∧ thread_state (thr s0 u) = THREAD_STATE_DEAD)) →
  dispatching s0 s1 (finish s2 next) next.
Proof.
  intros K Hq Hh D T0 R W T Htk Hri Hl.
  pose proof (next_queued s0 q next rest K Hq Hh) as Hnq. pose proof (exists_queued _ _ Hnq) as He0.
  pose proof (exists_nonzero s0 next (ki_store _ K) He0) as H0.
  assert (run_frame (s1 <| current_thread := next |>) s2) as R1
    by (transitivity (switch_to s1 next); [apply switch_to_run|done]).
  assert (task_frame s1 s2) as T1 by (transitivity (switch_to s1 next); [apply switch_to_task|done]).
  assert (wait_frame s1 s2) as W1 by (transitivity (switch_to s1 next); [apply switch_to_wait|done]).
  assert (exists_thread s2 next) as He2
    by (apply (task_frame_exists _ _ _ T1), (task_frame_exists _ _ _ T0); done).
  assert (∀ u, run_fields (thr s2 u) = run_fields (thr s1 u)) as Ef by (intros u; apply (rf_threads _ _ R1)).
  unfold finish. set (s3 := scheduler_thread_set_state s2 next THREAD_STATE_RUNNING).
  destruct (set_state_run s2 next THREAD_STATE_RUNNING He2 H0) as [[O C] E]. fold s3 in O, C, E.
  destruct (set_state_rf s2 next THREAD_STATE_RUNNING) as [Q1 Q2]. fold s3 in Q1, Q2.
  pose proof (set_state_ring s2 next THREAD_STATE_RUNNING) as G3. fold s3 in G3.
  assert (ring_frame s2 (scheduler_reset_timeslice s3 next)) as G4
    by (transitivity s3; [done|apply timeslice_ring]).
  split.
  - transitivity s2; [done|]. transitivity s3; unfold s3; auto with frames.
  - transitivity s2; [done|]. transitivity s3; unfold s3; auto with frames.
  - change (current_thread s3 = next). rewrite C. apply (rf_current _ _ R1).
  - change (ready_queues s3 = ready_queues s1). rewrite Q1. apply (rf_queues _ _ R1).
  - change (ready_tasks (stats s3) = ready_tasks (stats s1)). rewrite Q2. apply (rf_count _ _ R1).
  - intros u Hu. change (run_fields (thr s3 u) = run_fields (thr s1 u)). by rewrite O, Ef.
  - change (run_fields (thr s3 next) = (false, THREAD_STATE_RUNNING)). rewrite E.
    destruct (run_fields_eq s1 s2 next (Ef next)) as [_ ->]. by injection (dq_thread _ _ _ _ _ D) as -> _.
  - rewrite (gf_ticks _ _ G4). done.
  - by eapply ring_inv_frame.
  - intros u. rewrite (ring_frame_list _ _ G4). apply Hl.
Qed.

(** ** The result of a switch *)
Record switched (s s' : sched_state) (frame f next : Z) : Prop := {
  sw_inv : kernel_inv s';
  sw_current : current_thread s' = next;
  sw_running : thread_state (thr s' next) = THREAD_STATE_RUNNING;
  sw_frame : f = stack_pointer (thr s next);
  sw_chosen : ∃ q rest, selects (suspend s frame) q ∧ rq (suspend s frame) q = next :: rest;
  sw_others : ∀ u, u ≠ current_thread s → u ≠ next → run_fields (thr s' u) = run_fields (thr s u);
  sw_saved : current_thread s ≠ 0 → stack_pointer (thr s' (current_thread s)) = frame;
  sw_requeued : thread_state (thr s (current_thread s)) = THREAD_STATE_RUNNING →
    run_fields (thr s' (current_thread s)) = (true, THREAD_STATE_READY);
  sw_dead : thread_state (thr s (current_thread s)) = THREAD_STATE_DEAD → current_thread s ∈ reap_list s';
  sw_cpu : switched_cpu s' next
}.

Lemma finish_thr s2 next u :
  stack_pointer (thr (finish s2 next) u) = stack_pointer (thr s2 u)
  ∧ task_of (thr (finish s2 next) u) = task_of (thr s2 u)
  ∧ stack (thr (finish s2 next) u) = stack (thr s2 u)
  ∧ stack_size (thr (finish s2 next) u) = stack_size (thr s2 u).
Proof.
  unfold finish. change (thr (scheduler_reset_timeslice ?x next) u) with (thr x u).
  split_and!; by apply (set_state_keep _ s2 next u).
Qed.

Lemma finish_cpu s2 next :
  switched_cpu s2 next → switched_cpu (finish s2 next) next.
Proof.
  destruct (finish_thr s2 next next) as (_ & Et & Es & Ez). unfold switched_cpu. rewrite Et, Es, Ez.
  assert (tasks (finish s2 next) = tasks s2 ∧ cr3 (finish s2 next) = cr3 s2
    ∧ current_task (finish s2 next) = current_task s2 ∧ tss_rsp0 (finish s2 next) = tss_rsp0 s2)
    as (E1 & -> & -> & ->)
    by (unfold finish, scheduler_thread_set_state, scheduler_reset_timeslice; by case_if).
  by unfold tsk; rewrite E1.
Qed.

(** Staying with the current thread: it is the only one, or it was chosen
    again. *)
Record continued (s s' : sched_state) : Prop := {
  co_inv : kernel_inv s';
  co_current : current_thread s' = current_thread s;
  co_running : thread_state (thr s' (current_thread s)) = THREAD_STATE_RUNNING;
  co_others : ∀ u, u ≠ current_thread s → run_fields (thr s' u) = run_fields (thr s u)
}.

(** What [ready_dequeue] gives after the suspension. *)
Lemma after_suspend s frame :
  kernel_inv (suspend s frame) →
  let s0 := suspend s frame in
  let '(next, s1) := ready_dequeue s0 in
  (∃ q rest, selects s0 q ∧ q ∈ buckets ∧ rq s0 q = next :: rest ∧ next ≠ 0 ∧ dequeued s0 s1 q next rest
     ∧ wait_frame s0 s1 ∧ ring_frame s0 s1 ∧ task_frame s0 s1)
  ∨ (next = 0 ∧ s1 = s0 ∧ ready_list s0 = []).
Proof.
  intros K s0. pose proof (ready_dequeue_result s0 (ki_store _ K) (ki_rq _ K)) as Hr.
  destruct (ready_dequeue s0) as [next s1].
  destruct Hr as [(q & rest & Hs & E & _ & H0 & Eq & D)|(-> & -> & Hn)].
  - left. exists q, rest. pose proof (selects_bucket s0 q Hs) as [Hq _].
    split_and!; try done; replace s1 with (dequeue_from s0 q).2 by (by rewrite <- Eq); auto with frames.
  - right. pose proof (ki_policy _ K) as Hp. fold s0 in Hp. by rewrite Hp in Hn.
Qed.

Lemma continue_chosen s frame s1 q rest :
  let cur := current_thread s in
  let s0 := suspend s frame in
  suspended s s0 frame → cur ≠ 0 → q ∈ buckets → rq s0 q = cur :: rest → dequeued s0 s1 q cur rest →
  wait_frame s0 s1 → ring_frame s0 s1 → task_frame s0 s1 →
  continued s (scheduler_thread_set_state s1 cur THREAD_STATE_RUNNING).
Proof.
  intros cur s0 S H0 Hq Hh D W G T. pose proof (su_inv _ _ _ S) as K.
  pose proof (next_queued s0 q cur rest K Hq Hh) as Hnq.
  pose proof (next_alive s0 q cur rest K Hq Hh) as Hal.
  set (s' := scheduler_thread_set_state s1 cur THREAD_STATE_RUNNING).
  assert (exists_thread s1 cur) as He by (apply (task_frame_exists _ _ _ T), exists_queued; done).
  destruct (set_state_run s1 cur THREAD_STATE_RUNNING He H0) as [[O C] E]. fold s' in O, C, E.
  destruct (set_state_rf s1 cur THREAD_STATE_RUNNING) as [Q1 Q2]. fold s' in Q1, Q2.
  pose proof (set_state_ring s1 cur THREAD_STATE_RUNNING) as G'. fold s' in G'.
  injection (dq_thread _ _ _ _ _ D) as Ef _.
  assert (current_thread s' = cur) as Ec.
  { rewrite C. destruct (dq_only _ _ _ _ _ D) as [_ ->]. apply S. }
  assert (dispatching s0 s1 s' cur) as P.
  { split; try done; unfold s'; auto with frames.
    - fold s'. by rewrite Q2.
    - fold s'. by rewrite E, Ef.
    - fold s'. apply (gf_ticks _ _ G').
    - fold s'. eapply ring_inv_frame; [by transitivity s1|apply K].
    - fold s'. intros u. rewrite (ring_frame_list s0 s') by (by transitivity s1).
      split; [by left|]. intros [|[-> Hd]]; [done|]. rewrite (su_current _ _ _ S) in Hd. done. }
  split; try done.
  - by apply (dispatch_inv s0 s1 s' q cur rest K (su_idle _ _ _ S)).
  - by injection E.
  - intros u Hu. rewrite O by done. destruct (dq_only _ _ _ _ _ D) as [-> _]; [|done].
    by apply (su_others _ _ _ S).
Qed.

Lemma continue_alone s frame :
  let cur := current_thread s in
  let s0 := suspend s frame in
  suspended s s0 frame → cur ≠ 0 → exists_thread s0 cur → ready_list s0 = [] →
  thread_state (thr s0 cur) ≠ THREAD_STATE_DEAD →
  continued s (scheduler_thread_set_state s0 cur THREAD_STATE_RUNNING).
Proof.
  intros cur s0 S H0 He Hnil Hd. pose proof (su_inv _ _ _ S) as K.
  set (s' := scheduler_thread_set_state s0 cur THREAD_STATE_RUNNING).
  pose proof (set_state_run s0 cur THREAD_STATE_RUNNING He H0) as R. fold s' in R.
  assert (ready_queued (thr s0 cur) = false) as Hq.
  { destruct (ready_queued (thr s0 cur)) eqn:E; [|done]. apply (rq_mem _ (ki_rq _ K)) in E.
    rewrite Hnil in E. by destruct (not_elem_of_nil _ E). }
  rewrite Hq in R. pose proof R as [[O C] E].
  assert (task_frame s0 s') as T by (unfold s'; auto with frames).
  assert (current_thread s' = cur) as Ec by (rewrite C; apply S).
  split; [|done|by injection E|intros u Hu; rewrite O by done; by apply (su_others _ _ _ S)].
  apply (kernel_inv_run_set s0 s' cur _ _ K R); unfold s'; auto with frames; fold s'.
  - apply set_state_rq, K.
  - split.
    + intros u. destruct (run_set_state _ _ _ _ _ u R) as [-> ->]. case_decide; [done|]. apply (ki_run _ K).
    + intros u. destruct (run_set_state _ _ _ _ _ u R) as [-> ->]. rewrite Ec. case_decide; [done|].
      intros Hu. by destruct (su_idle _ _ _ S u).
    + right. by rewrite Ec, (task_frame_exists _ _ _ T).
Qed.

Lemma reap_enqueue_cpu s t s' n :
  scheduler_reap_enqueue s t = Done s' → switched_cpu s n → switched_cpu s' n.
Proof.
  unfold scheduler_reap_enqueue. case_if; [by injection 1 as <-|]. cbv zeta. case_if; [done|].
  injection 1 as <-. set (f := λ th : thread_t, _). set (s' := reap_upd _ _).
  assert (∀ u, thr s' u = thr (thr_upd t f s) u) as E by done.
  unfold switched_cpu. rewrite E, (thr_upd_keep task_of), (thr_upd_keep stack), (thr_upd_keep stack_size); done.
Qed.

(** Another thread was chosen: [s0] is the state after the suspension, [s1]
    after the dequeue, [s2] with the next thread installed. *)
Section chosen.
Context (s s1 : sched_state) (frame q next : Z) (rest : list Z).
Let cur := current_thread s.
Let s0 := suspend s frame.
Let s2 := switch_to s1 next.
Context (S : suspended s s0 frame) (Hnc : next ≠ cur) (Hn0 : next ≠ 0).
Context (Hsel : selects s0 q) (Hq : q ∈ buckets) (Hh : rq s0 q = next :: rest).
Context (D : dequeued s0 s1 q next rest).
Context (W : wait_frame s0 s1) (G : ring_frame s0 s1) (T : task_frame s0 s1).

Lemma chosen_threads u : thr s2 u = thr s1 u.
Proof. destruct (switch_to_threads s1 next) as [E _]. unfold thr, s2. by rewrite E. Qed.

Lemma chosen_state : thread_state (thr s2 cur) = thread_state (thr s0 cur).
Proof. rewrite chosen_threads. apply run_fields_eq. by apply (dq_only _ _ _ _ _ D). Qed.

Lemma chosen_dead :
  thread_state (thr s2 cur) = THREAD_STATE_DEAD ↔ thread_state (thr s cur) = THREAD_STATE_DEAD.
Proof.
  rewrite chosen_state. pose proof (su_thread _ _ _ S) as Es. fold cur in Es.
  case_decide as X; [rewrite X|]; by injection Es as _ ->.
Qed.

Lemma chosen_ring : ring_frame s0 s2.
Proof. transitivity s1; [done|apply switch_to_ring]. Qed.

(** The end of the switch after a step [s3] on the ring. *)
Lemma chosen_done s3 :
  run_frame s2 s3 → wait_frame s2 s3 → task_frame s2 s3 → sched_ticks s3 = sched_ticks s2 →
  ring_inv s3 → (∀ u, stack_pointer (thr s3 u) = stack_pointer (thr s2 u)) → switched_cpu s3 next →
  (∀ u, u ∈ reap_list s3 ↔ u ∈ reap_list s0 ∨ (u = cur ∧ thread_state (thr s0 u) = THREAD_STATE_DEAD)) →
  switched s (finish s3 next) frame (stack_pointer (thr (finish s3 next) next)) next.
Proof.
  intros R3 W3 T3 Htk3 Hr3 Sp3 Hcpu3 Hl3. pose proof (su_inv _ _ _ S) as K.
  assert (dispatching s0 s1 (finish s3 next) next) as P.
  { apply (finish_dispatching s0 s1 s3 q next rest); try done.
    - rewrite Htk3. apply (gf_ticks _ _ (switch_to_ring s1 next)).
    - by rewrite (su_current _ _ _ S). }
  assert (∀ u, stack_pointer (thr (finish s3 next) u) = stack_pointer (thr s0 u)) as Spf.
  { intros u. destruct (finish_thr s3 next u) as (-> & _).
    rewrite Sp3, chosen_threads, (dq_thr _ _ _ _ _ D). by case_decide as X; [subst u|]. }
  assert (∀ u, u ≠ next → run_fields (thr (finish s3 next) u) = run_fields (thr s0 u)) as Rf.
  { intros u Hu. rewrite (di_others _ _ _ _ P) by done. by apply (dq_only _ _ _ _ _ D). }
  split.
  - by apply (dispatch_inv s0 s1 _ q next rest K (su_idle _ _ _ S)).
  - apply P.
  - by injection (di_next _ _ _ _ P).
  - rewrite Spf. by apply (su_sp _ _ _ S).
  - by exists q, rest.
  - intros u Hu Hun. rewrite Rf by done. by apply (su_others _ _ _ S).
  - intros Hc0. rewrite Spf. by apply (su_saved _ _ _ S).
  - intros Hr. rewrite Rf by done. rewrite (su_thread _ _ _ S). by rewrite decide_True.
  - intros Hd. apply (di_list _ _ _ _ P). right. rewrite (su_current _ _ _ S). split; [done|].
    fold cur. rewrite <- chosen_state. by apply chosen_dead.
  - by apply finish_cpu.
Qed.

Lemma chosen_result :
  sched_ticks s + 128 < 2 ^ 64 →
  match (if bool_decide (thread_state (thr s2 cur) = THREAD_STATE_DEAD)
         then scheduler_reap_enqueue s2 cur else Done s2) with
  | Done s3 => switched s (finish s3 next) frame (stack_pointer (thr (finish s3 next) next)) next
  | Panic => thread_state (thr s cur) = THREAD_STATE_DEAD ∧ length (reap_list s) = 63%nat
  end.
Proof.
  intros Hlim. pose proof (su_inv _ _ _ S) as K. pose proof chosen_ring as G2.
  assert (ring_inv s2) as Hr2 by (by eapply ring_inv_frame; [|apply K]).
  case_if; bool_hyps.
  - assert (thread_state (thr s0 cur) = THREAD_STATE_DEAD) as Hd0 by (by rewrite <- chosen_state).
    pose proof (exists_state s0 cur _ Hd0 ltac:(done)) as He0.
    pose proof (exists_nonzero s0 cur (ki_store _ K) He0) as Hc0.
    assert (task_frame s0 s2) as T2 by (transitivity s1; [done|apply switch_to_task]).
    assert (reap_queued (thr s2 cur) = false) as Hrq.
    { destruct (ring_frame_fields _ _ cur G2) as [-> _]. destruct (reap_queued (thr s0 cur)) eqn:Er; [|done].
      apply (ri_mem _ (ki_ring _ K)), (dead_ring _ (ki_dead _ K)) in Er as [_ Hne].
      by rewrite (su_current _ _ _ S) in Hne. }
    assert (sched_ticks s2 = sched_ticks s) as Htks
      by (rewrite (gf_ticks _ _ G2); apply (gf_ticks _ _ (su_ring _ _ _ S))).
    assert (exists_thread s2 cur) as He2 by (by apply (task_frame_exists _ _ _ T2)).
    pose proof (reap_enqueue_spec s2 cur Hr2 He2 Hc0 Hrq) as Hre. rewrite Htks in Hre.
    ospecialize (Hre _ Hlim); [rewrite <- Htks, (gf_ticks _ _ G2); apply K|].
    destruct (scheduler_reap_enqueue s2 cur) as [s3|] eqn:E3.
    + destruct Hre as (H1 & H2 & H3 & H4 & H5 & H6 & _ & H8).
      apply chosen_done; try done; [congruence|by eapply reap_enqueue_cpu; [|apply switch_to_cpu]|].
      intros u. rewrite H2, (ring_frame_list _ _ G2), elem_of_app, list_elem_of_singleton.
      split; [intros [?|Hu]; [by left|right; by rewrite Hu]|]. intros [?|[Hu _]]; [by left|by right].
    + split; [by apply chosen_dead|]. rewrite (ring_frame_list _ _ G2) in Hre.
      by rewrite (ring_frame_list _ _ (su_ring _ _ _ S)) in Hre.
  - apply chosen_done; try done; [by apply switch_to_cpu|].
    intros u. rewrite (ring_frame_list _ _ G2). split; [by left|]. intros [?|[-> Hd]]; [done|].
    by rewrite chosen_state in Eif.
Qed.

End chosen.

(** ** The switch as a whole *)
Definition switch_outcome (s : sched_state) (frame : Z) (r : outcome (Z * sched_state)) : Prop :=
  let cur := current_thread s in
  match r with
  | Done (f, s') =>
      (f = frame ∧ s' = s
       ∧ (scheduler_running s = false ∨ in_scheduler s = true ∨ (cur ≠ 0 ∧ resched_pending s = false)))
      ∨ (f = frame ∧ cur ≠ 0 ∧ thread_state (thr s cur) ≠ THREAD_STATE_DEAD ∧ continued s s')
      ∨ (∃ next, next ≠ cur ∧ switched s s' frame f next)
  | Panic =>
      (cur = 0 ∨ thread_state (thr s cur) = THREAD_STATE_DEAD)
      ∧ (ready_list s = [] ∨ length (reap_list s) = 63%nat)
  end.

(** The first switch. *)
Lemma first_switch_result s frame :
  kernel_inv s → current_thread s = 0 → sched_ticks s + 128 < 2 ^ 64 →
  switch_outcome s frame
    (let '(first, s1) := ready_dequeue (s <| resched_pending := false |>) in
     if first =? 0 then Panic
     else let s2 := finish (switch_to s1 first) first in Done (stack_pointer (thr s2 first), s2)).
Proof.
  intros K Hc Hlim. rewrite <- (suspend_none s frame) by done.
  pose proof (suspend_none_spec s frame K Hc) as S.
  pose proof (after_suspend s frame (su_inv _ _ _ S)) as Hd. cbv zeta in Hd.
  destruct (ready_dequeue (suspend s frame)) as [first s1]. unfold switch_outcome.
  destruct Hd as [(q & rest & Hsel & Hq & Hh & H0 & D & W & G & T)|(-> & -> & Hnil)].
  - rewrite (proj2 (Z.eqb_neq first 0)) by done. right. right. exists first.
    rewrite Hc. split; [done|]. assert (first ≠ current_thread s) as Hne by (by rewrite Hc).
    pose proof (chosen_result s s1 frame q first rest S Hne H0 Hsel Hq Hh D W G T Hlim) as Hres.
    rewrite bool_decide_eq_false_2 in Hres; [done|].
    rewrite (chosen_dead s s1 frame q first rest S Hne D), Hc, not_exists_thr by apply (ki_store _ K). done.
  - split; [by left|left]. unfold ready_list, rq in *.
    rewrite (su_queues _ _ _ S) in Hnil; [done|]. rewrite Hc, not_exists_thr by apply (ki_store _ K). done.
Qed.

Lemma later_switch_result s frame :
  kernel_inv s → current_thread s ≠ 0 → sched_ticks s + 128 < 2 ^ 64 →
  let cur := current_thread s in
  switch_outcome s frame
    (let '(next, s1) := ready_dequeue (suspend s frame) in
     if (next =? 0) || (next =? cur) then
       if negb (bool_decide (thread_state (thr s1 cur) = THREAD_STATE_DEAD))
       then Done (frame, scheduler_thread_set_state s1 cur THREAD_STATE_RUNNING)
       else Panic
     else
       let s2 := switch_to s1 next in
       let s2 := if bool_decide (thread_state (thr s2 cur) = THREAD_STATE_RUNNING)
                then scheduler_thread_set_state s2 cur THREAD_STATE_READY else s2 in
       let! s3 := (if bool_decide (thread_state (thr s2 cur) = THREAD_STATE_DEAD)
                  then scheduler_reap_enqueue s2 cur else Done s2) in
       let s4 := finish s3 next in Done (stack_pointer (thr s4 next), s4)).
Proof.
  intros K Hc Hlim cur. pose proof (suspend_spec s frame K Hc) as S.
  pose proof (after_suspend s frame (su_inv _ _ _ S)) as Hd. cbv zeta in Hd.
  destruct (ready_dequeue (suspend s frame)) as [next s1].
  assert (thread_state (thr (suspend s frame) cur) = THREAD_STATE_DEAD ↔
          thread_state (thr s cur) = THREAD_STATE_DEAD) as Hdead.
  { pose proof (su_thread _ _ _ S) as Es. fold cur in Es. case_decide as X; [rewrite X|]; by injection Es as _ ->. }
  destruct Hd as [(q & rest & Hsel & Hq & Hh & H0 & D & W & G & T)|(-> & -> & Hnil)].
  - rewrite (proj2 (Z.eqb_neq next 0)) by done. cbn [orb]. destruct (next =? cur) eqn:En; bool_hyps.
    + subst next. pose proof (next_alive _ q cur rest (su_inv _ _ _ S) Hq Hh) as Ha.
      injection (dq_thread _ _ _ _ _ D) as _ ->. rewrite bool_decide_eq_false_2 by done. cbn.
      right. left. split_and!; try done; [by intros Hx%Hdead|].
      by apply (continue_chosen s frame s1 q rest S).
    + cbv zeta. pose proof (chosen_result s s1 frame q next rest S En H0 Hsel Hq Hh D W G T Hlim) as Hres.
      fold cur in Hres. rewrite (bool_decide_eq_false_2 (_ = THREAD_STATE_RUNNING)).
      2:{ change cur with (current_thread s). rewrite (chosen_state s s1 frame q next rest En D). apply (su_idle _ _ _ S). }
      destruct (if bool_decide _ then _ else _) as [s3|]; cbn.
      * right. right. by exists next.
      * destruct Hres as [Hres1 Hres2]. split; by right.
  - change (0 =? 0) with true. cbn [orb]. case_if; bool_hyps.
    + right. left. split_and!; try done; [by intros Hx%Hdead|].
      apply continue_alone; try done. apply (task_frame_exists s); [|by destruct (run_current _ (ki_run _ K))].
      unfold suspend. frames.
    + assert (thread_state (thr s cur) = THREAD_STATE_DEAD) as Hd by (by apply Hdead).
      split; [by right|left]. unfold ready_list, rq in *. rewrite (su_queues _ _ _ S) in Hnil; [done|].
      fold cur. by rewrite Hd.
Qed.

Lemma switch_result s frame :
  kernel_inv s → frame ≠ 0 → sched_ticks s + 128 < 2 ^ 64 →
  switch_outcome s frame (scheduler_switch_from_irq s frame).
Proof.
  intros K Hf Hlim. unfold scheduler_switch_from_irq. rewrite (proj2 (Z.eqb_neq frame 0)) by done.
  destruct (scheduler_running s) eqn:E1; [|left; split_and!; try done; by left]. cbn [negb orb].
  destruct (in_scheduler s) eqn:E2; [left; split_and!; try done; right; by left|].
  destruct (current_thread s =? 0) eqn:E3; bool_hyps; cbn [negb andb].
  - by apply first_switch_result.
  - destruct (resched_pending s) eqn:E4; cbn [negb].
    + by apply later_switch_result.
    + left. split_and!; try done. right. by right.
Qed.

End SchedSwitch.
