(* ===== verification/SchedLife.v ===== *)
(** * The life of tasks and threads: creation, start, exit, reaping

    Every operation keeps [kernel_inv]; the reaper frees exactly the dead
    threads whose grace period is over. *)

From stdpp Require Import base gmap list numbers fin_maps sorting.
From S2P Require Import Prelude Sched Waitq Task SchedInv SchedWait SchedKernel.

Module SchedLife.
Import Sched Waitq Task SchedFacts SchedInv SchedWait SchedRing SchedKernel.

(** ** Starting a thread *)

(** Enqueueing a thread that is ready. *)
Lemma enqueue_ready s t :
  store_ok s → rq_inv s → exists_thread s t → thread_state (thr s t) = THREAD_STATE_READY →
  (∀ u, u ≠ t → thread_state (thr s u) = THREAD_STATE_READY → ready_queued (thr s u) = true) →
  (∀ u, thread_state (thr s u) = THREAD_STATE_RUNNING → u = current_thread s ∧ ready_queued (thr s u) = false) →
  (current_thread s = 0 ∨ exists_thread s (current_thread s)) →
  let s' := ready_enqueue s t in
  rq_inv s' ∧ run_inv s' ∧ run_set s s' t (true, THREAD_STATE_READY).
Proof.
  intros Hs Hr Ht Est A B C s'. destruct (enqueue_spec s t Hs Hr Ht) as (Hr' & O & E). fold s' in Hr', O, E.
  rewrite Est in E. assert (run_set s s' t (true, THREAD_STATE_READY)) as R by done.
  split_and!; try done. destruct O as [_ Oc]. split.
  - intros u. destruct (run_set_state _ _ _ _ _ u R) as [-> ->]. case_decide; [done|]. by apply A.
  - intros u. destruct (run_set_state _ _ _ _ _ u R) as [-> ->]. case_decide; [done|]. rewrite Oc. apply B.
  - rewrite Oc. by rewrite (task_frame_exists s s' _ (enqueue_task s t)).
Qed.

(** The updates of [scheduler_add_thread] before the enqueue. *)
Definition prepare (s : sched_state) (t : Z) : sched_state :=
  let s := scheduler_thread_set_state s t THREAD_STATE_READY in
  let s := thr_upd t (λ th, th <| base_priority := priority th |>
                               <| dyn_priority := priority th |>
                               <| inherited_priority := priority th |>
                               <| has_inherited := false |>) s in
  if negb (sched_bucket_explicit (thr s t))
  then thr_upd t (λ th, th <| sched_bucket := SCHED_BUCKET_DEFAULT |>) s else s.

Lemma prepare_run s t :
  exists_thread s t → t ≠ 0 → run_set s (prepare s t) t (ready_queued (thr s t), THREAD_STATE_READY).
Proof.
  intros He H0. unfold prepare. cbv zeta.
  eapply run_set_then_frame; [by apply (set_state_run s t THREAD_STATE_READY)|]. frames.
Qed.

Lemma prepare_frames s t :
  wait_frame s (prepare s t) ∧ ring_frame s (prepare s t) ∧ task_frame s (prepare s t).
Proof. unfold prepare. split_and!; frames. Qed.

Lemma prepare_rq s t : rq_inv s → rq_inv (prepare s t).
Proof.
  intros Hr. apply (set_state_rq s t THREAD_STATE_READY) in Hr. unfold prepare. cbv zeta.
  revert Hr. apply rq_inv_frame. frames.
Qed.

Lemma add_thread_inv s t :
  kernel_inv s → exists_thread s t → thread_state (thr s t) ≠ THREAD_STATE_DEAD →
  thread_state (thr s t) ≠ THREAD_STATE_RUNNING → kernel_inv (scheduler_add_thread s t).2.
Proof.
  intros K He Hd Hrun. pose proof (exists_nonzero s t (ki_store _ K) He) as H0.
  unfold scheduler_add_thread. rewrite (proj2 (Z.eqb_neq t 0)) by done. cbn [snd]. cbv zeta.
  fold (prepare s t). set (s1 := prepare s t).
  destruct (prepare_frames s t) as (W & G & T). fold s1 in W, G, T.
  pose proof (prepare_run s t He H0) as R1. fold s1 in R1.
  destruct (ki_run _ K) as [A B C].
  destruct (enqueue_ready s1 t) as (Hr2 & Hrun2 & R2).
  - by eapply task_frame_store; [|apply K].
  - apply prepare_rq, K.
  - by apply (task_frame_exists _ _ _ T).
  - by injection (proj2 R1).
  - intros u Hu. destruct (run_set_state _ _ _ _ _ u R1) as [-> ->]. rewrite decide_False by done.
    rewrite decide_False by done. apply A.
  - intros u. destruct (run_set_state _ _ _ _ _ u R1) as [-> ->]. destruct R1 as [[_ ->] _].
    case_decide; [done|apply B].
  - destruct R1 as [[_ ->] _]. by rewrite (task_frame_exists _ _ _ T).
  - set (s2 := ready_enqueue s1 t) in *.
    assert (run_set s s2 t (true, THREAD_STATE_READY)) as R.
    { destruct R1 as [[O1 C1] _], R2 as [[O2 C2] E2]. split; [split|done].
      - intros u Hu. by rewrite O2, O1.
      - congruence. }
    assert (kernel_inv s2) as K2.
    { apply (kernel_inv_run_set s s2 t _ _ K R); try done.
      - transitivity s1; [done|unfold s2; auto with frames].
      - transitivity s1; [done|unfold s2; auto with frames].
      - transitivity s1; [done|unfold s2; auto with frames]. }
    revert K2. apply kernel_inv_frames; frames.
Qed.

(** ** Exit *)
Lemma set_dead_inv s t :
  kernel_inv s → t = current_thread s → t ≠ 0 → thread_state (thr s t) = THREAD_STATE_RUNNING →
  waitq_owner (thr s t) = 0 → wait_timeout_armed (thr s t) = false →
  kernel_inv (scheduler_thread_set_state s t THREAD_STATE_DEAD).
Proof.
  intros K Hc H0 Hr Ho Ha. pose proof (exists_state s t _ Hr ltac:(done)) as He.
  pose proof (set_state_run s t THREAD_STATE_DEAD He H0) as R.
  destruct (run_running _ (ki_run _ K) t Hr) as [_ Hq]. set (s' := scheduler_thread_set_state s t THREAD_STATE_DEAD) in *.
  assert (wait_frame s s') as W by (unfold s'; auto with frames).
  assert (ring_frame s s') as G by (unfold s'; auto with frames).
  assert (task_frame s s') as T by (unfold s'; auto with frames).
  pose proof K as [A0 A Ap A1 A2 A3 A4 [B1 B2 B3] A6]. split.
  - by eapply task_frame_store.
  - by rewrite (gf_ticks _ _ G).
  - by eapply task_frame_policy.
  - by apply set_state_rq.
  - by apply (run_inv_set s s' t THREAD_STATE_DEAD A2 R T).
  - by eapply wait_inv_frame.
  - by eapply ring_inv_frame.
  - split.
    + intros u. destruct (run_set_state _ _ _ _ _ u R) as [-> ->].
      destruct (wait_frame_fields _ _ u W) as (-> & _ & ->). case_decide as D; [by subst u|apply B1].
    + intros u. rewrite (ring_frame_list _ _ G). intros Hu. destruct (B2 u Hu) as [Hd Hn].
      destruct (run_set_state _ _ _ _ _ u R) as [-> _]. destruct R as [[_ ->] _]. by case_decide.
    + intros u. destruct (run_set_state _ _ _ _ _ u R) as [-> _]. destruct R as [[_ ->] _].
      rewrite (ring_frame_list _ _ G). case_decide as D; [intros _; right; by subst u|apply B3].
  - by eapply task_inv_frame.
Qed.

Definition joiner_ok (s : sched_state) (t : Z) : Prop :=
  let j := joiner (thr s t) in
  j = 0 ∨ (exists_thread s j ∧ j ≠ t ∧ thread_state (thr s j) ≠ THREAD_STATE_DEAD).

(** Waking the joiner changes the joiner only. *)
Lemma wake_joiner_inv s t :
  kernel_inv s → joiner_ok s t →
  let s' := scheduler_exit_wake_joiner s t in
  kernel_inv s' ∧ wait_frame s s' ∧ current_thread s' = current_thread s
  ∧ run_fields (thr s' t) = run_fields (thr s t).
Proof.
  intros K Hj. unfold scheduler_exit_wake_joiner. case_if; [done|]. bool_hyps. cbv zeta.
  set (j := joiner (thr s t)) in *. destruct Hj as [|(He & Hjt & Hd)]; [done|].
  set (s1 := thr_upd j _ (thr_upd t _ s)).
  assert (run_frame s s1) as R by (unfold s1; frames).
  assert (wait_frame s s1) as W by (unfold s1; frames).
  assert (ring_frame s s1) as G by (unfold s1; frames).
  assert (task_frame s s1) as T by (unfold s1; frames).
  assert (kernel_inv s1) as K1 by (by eapply kernel_inv_frames).
  assert (exists_thread s1 j) as He1 by (by apply (task_frame_exists _ _ _ T)).
  destruct (wake_spec s1 j (ki_store _ K1) (ki_rq _ K1) (ki_run _ K1) He1) as [_ _ [[O C] _] Wf _ _].
  split_and!.
  - apply wake_inv; [done..|]. by rewrite (run_frame_state _ _ j R).
  - by transitivity s1.
  - rewrite C. apply R.
  - rewrite O by done. apply R.
Qed.

Lemma exit_mark_inv s :
  let cur := current_thread s in
  kernel_inv s → thread_state (thr s cur) = THREAD_STATE_RUNNING → waitq_owner (thr s cur) = 0 →
  wait_timeout_armed (thr s cur) = false → joiner_ok s cur →
  kernel_inv (scheduler_exit_mark s)
  ∧ thread_state (thr (scheduler_exit_mark s) cur) = THREAD_STATE_DEAD
  ∧ current_thread (scheduler_exit_mark s) = cur.
Proof.
  intros cur K Hr Ho Ha Hj. unfold scheduler_exit_mark. fold cur.
  pose proof (exists_state s cur _ Hr ltac:(done)) as He.
  pose proof (exists_nonzero s cur (ki_store _ K) He) as H0.
  rewrite (proj2 (Z.eqb_neq cur 0)) by done. cbv zeta.
  destruct (wake_joiner_inv s cur K Hj) as (K1 & W1 & C1 & R1).
  set (s1 := scheduler_exit_wake_joiner s cur) in *.
  destruct (wait_frame_fields _ _ cur W1) as (Eo & _ & Ea). injection R1 as _ Es.
  assert (kernel_inv (scheduler_thread_set_state s1 cur THREAD_STATE_DEAD)) as K2
    by (apply set_dead_inv; [done|by rewrite C1|done|by rewrite Es|by rewrite Eo|by rewrite Ea]).
  assert (exists_thread s1 cur) as He1 by (eapply (exists_state s1 cur); [done|by rewrite Hr]).
  pose proof (set_state_run s1 cur THREAD_STATE_DEAD He1 H0) as [[_ C2] E2].
  set (s2 := scheduler_thread_set_state s1 cur THREAD_STATE_DEAD) in *. injection E2 as _ E2.
  match goal with |- kernel_inv ?x ∧ _ => set (s3 := x) end.
  assert (run_frame s2 s3) as R3 by (unfold s3; frames).
  split_and!.
  - revert K2. unfold s3. apply kernel_inv_frames; frames.
  - by rewrite (run_frame_state _ _ cur R3).
  - rewrite (rf_current _ _ R3). by rewrite C2, C1.
Qed.

(** ** Destroying a task that has no thread left *)
Lemma kernel_inv_task s s' :
  kernel_inv s → run_frame s s' → wait_frame s s' → ring_frame s s' →
  dom (threads s') = dom (threads s) → current_policy s' = current_policy s → task_inv s' →
  kernel_inv s'.
Proof.
  intros [A0 A Ap A1 A2 A3 A4 A5 A6] R W G Hd Hp T.
  assert (∀ t, exists_thread s' t ↔ exists_thread s t) as He
    by (intros t; unfold exists_thread; rewrite <- !elem_of_dom; by rewrite Hd).
  split; try done.
  - destruct A0 as [Hf H0]. split; [|by rewrite He]. unfold few_threads in *.
    by rewrite <- (size_dom (D := gset Z)), Hd, size_dom.
  - by rewrite (gf_ticks _ _ G).
  - unfold queue_only_default. by rewrite Hp.
  - by eapply rq_inv_frame.
  - destruct A2 as [B1 B2 B3]. split.
    + intros t. rewrite (run_frame_state _ _ t R), (run_frame_queued _ _ t R). apply B1.
    + intros t. rewrite (run_frame_state _ _ t R), (run_frame_queued _ _ t R), (rf_current _ _ R). apply B2.
    + by rewrite (rf_current _ _ R), He.
  - by eapply wait_inv_frame.
  - by eapply ring_inv_frame.
  - revert A5. apply dead_inv_step; [by apply ring_frame_list|apply R|..]; intros u.
    + by rewrite (run_frame_state _ _ u R).
    + rewrite (run_frame_queued _ _ u R). by destruct (wait_frame_fields _ _ u W) as (-> & _ & ->).
Qed.

Lemma tsk_delete s x y : (delete x (tasks s) : gmap Z task_t) !!! y = if decide (x = y) then inhabitant else tsk s y.
Proof.
  unfold tsk. rewrite !lookup_total_alt. case_decide as D; [subst y; by rewrite lookup_delete_eq|].
  by rewrite lookup_delete_ne.
Qed.

Lemma task_destroy_inv s x :
  kernel_inv s → task_threads (tsk s x) = [] → kernel_inv (task_destroy s x).
Proof.
  intros K Hnil. unfold task_destroy. case_if; [done|]. bool_hyps. cbv zeta.
  match goal with |- context [foldl thread_destroy ?y _] => set (s1 := y) end.
  change (tsk s1 x) with (tsk s x). rewrite Hnil. cbn [foldl].
  destruct (ki_task _ K) as [B1 B2 B3 B4 B5 B6].
  assert (∀ y, tsk (s1 <| tasks ::= delete x |>) y = if decide (x = y) then inhabitant else tsk s y) as Et
    by (intros y; apply (tsk_delete s x y)).
  assert (∀ y, is_Some ((delete x (tasks s) : gmap Z task_t) !! y) ↔ y ≠ x ∧ is_Some (tasks s !! y)) as Es.
  { intros y. destruct (decide (y = x)) as [->|N]; [rewrite lookup_delete_eq; split; [by intros [? ?]|tauto]|].
    rewrite lookup_delete_ne by done. tauto. }
  apply (kernel_inv_task s); try done. split.
  - intros y. rewrite Et. case_decide; [apply NoDup_nil_2|apply B1].
  - intros y t. rewrite Et. case_decide as D; [|apply B2]. subst y. change (thr _ t) with (thr s t).
    rewrite <- (B2 x t), Hnil. done.
  - intros y. rewrite Et. case_decide; [done|apply B3].
  - intros y. change (y ∈ tailq_remove x (all_tasks s) ↔ is_Some ((delete x (tasks s) : gmap Z task_t) !! y)).
    rewrite elem_tailq_remove, B4, Es. tauto.
  - intros id y. rewrite Et.
    change ((delete (task_id (tsk s x)) (all_tasks_by_id s) : gmap Z Z) !! id = Some y ↔
            is_Some ((delete x (tasks s) : gmap Z task_t) !! y)
            ∧ task_id (if decide (x = y) then inhabitant else tsk s y) = id).
    rewrite Es. destruct (decide (task_id (tsk s x) = id)) as [<-|N].
    + rewrite lookup_delete_eq. split; [done|]. intros [[Hy1 Hy2] Hid]. rewrite decide_False in Hid by congruence.
      exfalso. assert (all_tasks_by_id s !! task_id (tsk s x) = Some y) as Hi by (by apply B5).
      destruct (decide (is_Some (tasks s !! x))) as [Hx|Hx].
      * assert (all_tasks_by_id s !! task_id (tsk s x) = Some x) as Hi' by (by apply B5). congruence.
      * assert (tsk s x = inhabitant) as Ex.
        { unfold tsk. rewrite lookup_total_alt. destruct (tasks s !! x); [destruct Hx; by eexists|done]. }
        rewrite Ex in Hid. pose proof (B6 y Hy2). cbn in Hid. lia.
    + rewrite lookup_delete_ne, B5 by done. split.
      * intros [Hy Hid]. assert (y ≠ x) by congruence. by rewrite decide_False by congruence.
      * intros [[Hy1 Hy2] Hid]. by rewrite decide_False in Hid by congruence.
  - intros y. rewrite Et. change (is_Some ((delete x (tasks s) : gmap Z task_t) !! y) →
      0 < task_id (if decide (x = y) then inhabitant else tsk s y) < next_task_id s).
    rewrite Es. intros [Hy Hs]. rewrite decide_False by congruence. by apply B6.
Qed.

Lemma reap_owner_inv s x : kernel_inv s → kernel_inv (reap_owner s x).
Proof.
  intros K. unfold reap_owner. case_if; [|done].
  assert (∀ st, kernel_inv (scheduler_task_set_state s x st)) as Hst
    by (intros st; revert K; apply kernel_inv_frames; auto with frames).
  assert (∀ st, thread_count (tsk s x) = 0 →
    task_threads (tsk (scheduler_task_set_state s x st) x) = []) as Hnil.
  { intros st Hc. rewrite (tk_count _ (ki_task _ K)) in Hc.
    pose proof (tf_tasks _ _ (task_state_task s x st) x) as E. injection E as -> _ _.
    destruct (task_threads (tsk s x)); [done|cbn in Hc; lia]. }
  repeat case_if; bool_hyps; try done; apply task_destroy_inv; auto.
Qed.

(** ** Freeing a dead thread *)

(** [reap_thread] without the last step. *)
Definition reap_free (s : sched_state) (dead : Z) : sched_state :=
  let s := thr_upd dead (λ th, th <| reap_queued := false |>) s in
  let owner := task_of (thr s dead) in
  let s := if negb (owner =? 0) then tsk_upd owner (task_forget dead) s else s in
  let s := (retire_stack s dead) <| threads ::= delete dead |> in
  reap_upd (λ x, x <| reaped ::= λ n, n +₆₄ 1 |>) s.

Lemma reap_thread_eq s dead :
  reap_thread s dead = reap_owner (reap_free s dead) (task_of (thr s dead)).
Proof.
  unfold reap_thread, reap_free. cbv zeta. f_equal.
  by apply (thr_upd_keep task_of s dead dead).
Qed.

(** What it leaves of the other parts. *)
Record freed (s s' : sched_state) (dead : Z) : Prop := {
  fr_threads : threads s' = delete dead (threads s);
  fr_run : ready_queues s' = ready_queues s ∧ stats s' = stats s ∧ current_thread s' = current_thread s
           ∧ current_policy s' = current_policy s;
  fr_wait : waitqs s' = waitqs s ∧ waitq_timeouts s' = waitq_timeouts s;
  fr_ring : reap_queue s' = reap_queue s ∧ reap_head s' = reap_head s ∧ reap_tail s' = reap_tail s
            ∧ sched_ticks s' = sched_ticks s;
  fr_tasks : all_tasks s' = all_tasks s ∧ all_tasks_by_id s' = all_tasks_by_id s
             ∧ next_task_id s' = next_task_id s
}.

Lemma reap_free_fields s dead : freed s (reap_free s dead) dead.
Proof.
  unfold reap_free. cbv zeta. set (s1 := if negb _ then _ else _).
  assert (threads s1 = alter (λ th, th <| reap_queued := false |>) dead (threads s)
    ∧ ready_queues s1 = ready_queues s ∧ stats s1 = stats s ∧ current_thread s1 = current_thread s
    ∧ current_policy s1 = current_policy s ∧ waitqs s1 = waitqs s ∧ waitq_timeouts s1 = waitq_timeouts s
    ∧ reap_queue s1 = reap_queue s ∧ reap_head s1 = reap_head s ∧ reap_tail s1 = reap_tail s
    ∧ sched_ticks s1 = sched_ticks s ∧ all_tasks s1 = all_tasks s
    ∧ all_tasks_by_id s1 = all_tasks_by_id s ∧ next_task_id s1 = next_task_id s)
    as (E & ? & ? & ? & ? & ? & ? & ? & ? & ? & ? & ? & ? & ?) by (unfold s1; by case_if).
  split; try by split_and!. cbn. rewrite E. apply map_eq. intros i.
  destruct (decide (i = dead)) as [->|]; [by rewrite !lookup_delete_eq|].
  by rewrite !lookup_delete_ne, lookup_alter_ne.
Qed.

Lemma freed_thr s s' dead u :
  freed s s' dead → thr s' u = if decide (u = dead) then inhabitant else thr s u.
Proof.
  intros F. unfold thr. rewrite (fr_threads _ _ _ F), !lookup_total_alt.
  case_decide as D; [subst u; by rewrite lookup_delete_eq|by rewrite lookup_delete_ne].
Qed.

Lemma freed_exists s s' dead u : freed s s' dead → exists_thread s' u ↔ u ≠ dead ∧ exists_thread s u.
Proof.
  intros F. unfold exists_thread. rewrite (fr_threads _ _ _ F).
  destruct (decide (u = dead)) as [->|N]; [rewrite lookup_delete_eq; split; [by intros [? ?]|tauto]|].
  rewrite lookup_delete_ne by done. tauto.
Qed.

(** The task of the freed thread forgets it. *)
Lemma reap_free_tasks s dead :
  task_inv s → few_threads s → exists_thread s dead → task_inv (reap_free s dead).
Proof.
  intros [B1 B2 B3 B4 B5 B6] Hfew He. pose proof (reap_free_fields s dead) as F.
  set (owner := task_of (thr s dead)). set (s' := reap_free s dead).
  set (f := task_forget dead).
  assert (tasks s' = if negb (owner =? 0) then alter f owner (tasks s) else tasks s) as Et.
  { unfold s', reap_free, owner. cbv zeta. rewrite (thr_upd_keep task_of s dead dead) by done.
    by repeat case_if. }
  assert (∀ x, task_fields (f x) = (tailq_remove dead (task_threads x),
    (if 0 <? thread_count x then thread_count x -₃₂ 1 else thread_count x), task_id x)) as Hf
    by (intros x; unfold f, task_forget; cbv zeta; by destruct (_ =? dead)).
  assert (∀ x, is_Some (tasks s' !! x) ↔ is_Some (tasks s !! x)) as Hd.
  { intros x. rewrite Et. case_if; [|done]. rewrite <- !elem_of_dom. by rewrite dom_alter_L. }
  assert (∀ x, tsk s' x = if decide (x = owner ∧ owner ≠ 0 ∧ is_Some (tasks s !! x)) then f (tsk s x) else tsk s x) as Ek.
  { intros x. unfold tsk. rewrite Et, !lookup_total_alt. destruct (owner =? 0) eqn:E0; bool_hyps; cbn [negb].
    - by rewrite decide_False by tauto.
    - destruct (decide (x = owner)) as [->|N]; [|by rewrite lookup_alter_ne, decide_False by first [tauto|congruence]].
      rewrite lookup_alter_eq. destruct (tasks s !! owner); [by rewrite decide_True by eauto|].
      rewrite decide_False; [done|]. intros (_ & _ & [? ?]). done. }
  assert (∀ x, task_id (tsk s' x) = task_id (tsk s x)) as Eid.
  { intros x. rewrite Ek. destruct (decide (x = owner ∧ owner ≠ 0 ∧ is_Some (tasks s !! x))) as [D|D]; [|done]. pose proof (Hf (tsk s x)) as X. by injection X. }
  destruct (fr_tasks _ _ _ F) as (F1 & F2 & F3). fold s' in F, F1, F2, F3.
  split.
  - intros x. rewrite Ek. destruct (decide (x = owner ∧ owner ≠ 0 ∧ is_Some (tasks s !! x))) as [D|D]; [|apply B1]. pose proof (Hf (tsk s x)) as X. injection X as -> _ _.
    by apply nodup_tailq_remove.
  - intros x t. rewrite Ek, (freed_thr s s' dead t F).
    destruct (decide (x = owner ∧ owner ≠ 0 ∧ is_Some (tasks s !! x))) as [D|D].
    + destruct D as (-> & H0 & _). pose proof (Hf (tsk s owner)) as X. injection X as -> _ _.
      rewrite elem_tailq_remove, B2. destruct (decide (t = dead)) as [D2|D2]; [subst t; cbn|tauto]. intuition congruence.
    + rewrite B2. destruct (decide (t = dead)) as [D2|D2]; [subst t|done]. cbn. split; [|intuition congruence].
      intros [H0 Hx]. destruct D. fold owner in Hx. subst x. split_and!; try done.
      assert (dead ∈ task_threads (tsk s owner)) as Hin by (by apply B2).
      unfold tsk in Hin. rewrite lookup_total_alt in Hin.
      destruct (tasks s !! owner); [done|]. by destruct (not_elem_of_nil _ Hin).
  - intros x. rewrite Ek. destruct (decide (x = owner ∧ owner ≠ 0 ∧ is_Some (tasks s !! x))) as [D|D]; [|apply B3]. destruct D as (-> & H0 & _).
    pose proof (Hf (tsk s owner)) as X. injection X as -> -> _. rewrite B3.
    assert (dead ∈ task_threads (tsk s owner)) as Hin by (by apply B2).
    pose proof (length_tailq_remove dead _ (B1 owner) Hin) as Hl.
    assert (length (task_threads (tsk s owner)) ≤ size (threads s))%nat as Hsz.
    { apply nodup_length_size; [apply B1|]. intros t Ht. apply B2 in Ht as [Ht0 Ht].
      destruct (decide (exists_thread s t)) as [|N]; [done|]. by rewrite not_exists_thr in Ht. }
    unfold few_threads in Hfew. change (2 ^ 32) with 4294967296 in Hfew.
    rewrite (proj2 (Z.ltb_lt _ _)) by lia. rewrite u32_small by lia. lia.
  - intros x. by rewrite F1, Hd.
  - intros id x. by rewrite F2, Hd, Eid.
  - intros x. rewrite Hd, Eid, F3. apply B6.
Qed.

(** Freeing the dead thread [dead] that was just taken off the ring: [s] is
    the state before, [s1] after the ring step. *)
Section freeing.
Context (s s1 : sched_state) (dead : Z).
Context (K : kernel_inv s) (Hd : thread_state (thr s dead) = THREAD_STATE_DEAD).
Context (Hnc : dead ≠ current_thread s) (L : reap_list s = dead :: reap_list s1) (Wf : ring_wf s1).
Context (Hs1 : ∃ rq h, s1 = s <| reap_queue := rq |> <| reap_head := h |>).
Let s' := reap_free s1 dead.

Lemma freeing_thr u : thr s' u = if decide (u = dead) then inhabitant else thr s u.
Proof. destruct Hs1 as (rq & h & E). rewrite (freed_thr s1 s' dead u (reap_free_fields _ _)). by rewrite E. Qed.

Lemma freeing_list : reap_list s' = reap_list s1.
Proof.
  destruct (fr_ring _ _ _ (reap_free_fields s1 dead)) as (F1 & F2 & F3 & _).
  unfold reap_list, ring_slot, ring_count, s'. by rewrite F1, F2, F3.
Qed.

Lemma freeing_rq : rq_inv s' ∧ run_inv s'.
Proof.
  destruct Hs1 as (rqq & h & E). destruct (dead_quiet _ (ki_dead _ K) dead Hd) as (Hq & _ & _).
  destruct (fr_run _ _ _ (reap_free_fields s1 dead)) as (F1 & F2 & F3 & _). fold s' in F1, F2, F3.
  destruct (ki_rq _ K) as [A1 A2 A3], (ki_run _ K) as [B1 B2 B3].
  assert (ready_list s' = ready_list s) as El by (unfold ready_list, rq; rewrite F1; by rewrite E).
  split; split; rewrite ?El; rewrite ?F2, ?F3; rewrite ?E; try done.
  - intros u. rewrite freeing_thr. case_decide as D; [subst u|apply A2].
    rewrite A2, Hq. done.
  - intros u. rewrite freeing_thr. case_decide; [done|apply B1].
  - intros u. rewrite freeing_thr. case_decide; [done|apply B2].
  - rewrite (freed_exists s1 s' dead _ (reap_free_fields _ _)), E.
    destruct B3 as [|Hc]; [by left|right]. split; [by intros X; apply Hnc|done].
Qed.

Lemma freeing_wait : wait_inv s'.
Proof.
  destruct Hs1 as (rqq & h & E). destruct (dead_quiet _ (ki_dead _ K) dead Hd) as (_ & Ho & Ha).
  destruct (fr_wait _ _ _ (reap_free_fields s1 dead)) as (F1 & F2). fold s' in F1, F2.
  rewrite E in F1, F2. destruct (ki_wait _ K) as [Hw Ht]. split.
  - revert Hw. apply wqs_inv_ext; [done|]. intros u. rewrite freeing_thr. by case_decide as D; [subst u|].
  - destruct Ht as [B1 B2 B3]. split; [by rewrite F2|..]; intros u; rewrite freeing_thr.
    + rewrite F2. change (waitq_timeouts _) with (waitq_timeouts s). rewrite B2.
      case_decide as D; [subst u; by rewrite Ha|done].
    + case_decide; [done|apply B3].
Qed.

Lemma freeing_ring : ring_inv s'.
Proof.
  destruct Hs1 as (rqq & h & E). destruct (ki_ring _ K) as [A1 A2 A3 A4 A5].
  destruct (fr_ring _ _ _ (reap_free_fields s1 dead)) as (_ & F2 & F3 & F4). fold s' in F2, F3, F4.
  rewrite L in A2, A4. apply NoDup_cons in A2 as [Hn A2]. apply StronglySorted_inv in A4 as [A4' _].
  assert (∀ u, u ∈ reap_list s1 → thr s' u = thr s u) as Ho.
  { intros u Hu. rewrite freeing_thr. case_decide; [congruence|done]. }
  split; rewrite ?freeing_list.
  - unfold ring_wf. by rewrite F2, F3.
  - done.
  - intros u. rewrite freeing_thr. case_decide as D; [subst u; split; [done|discriminate]|].
    rewrite <- A3, L, elem_of_cons. tauto.
  - clear -A4' Ho. induction A4' as [|x l H IH Hx]; [constructor|].
    constructor; [apply IH; intros; apply Ho; by right|].
    rewrite Forall_forall in *. intros u Hu. rewrite !Ho by (first [by left|by right]). by apply Hx.
  - intros u Hu. rewrite Ho by done. rewrite F4, E. apply A5. rewrite L. by right.
Qed.

Lemma freeing_inv : kernel_inv s'.
Proof.
  destruct Hs1 as (rqq & h & E). pose proof (reap_free_fields s1 dead) as F. fold s' in F.
  pose proof (exists_state s dead _ Hd ltac:(done)) as He.
  destruct (ki_store _ K) as [Hf H0].
  destruct freeing_rq as [Hrq Hrun]. split; try done.
  - split; [|rewrite (freed_exists s1 s' dead 0 F), E; tauto].
    unfold few_threads in *. rewrite (fr_threads _ _ _ F), E. cbn.
    rewrite map_size_delete_Some by done. lia.
  - destruct (fr_ring _ _ _ F) as (_ & _ & _ & ->). rewrite E. apply (ki_ticks _ K).
  - destruct (fr_run _ _ _ F) as (_ & _ & _ & Fp). unfold queue_only_default. rewrite Fp, E. apply (ki_policy _ K).
  - exact freeing_wait.
  - exact freeing_ring.
  - destruct (ki_dead _ K) as [B1 B2 B3]. pose proof (ri_nodup _ (ki_ring _ K)) as Hnd.
    rewrite L in Hnd. apply NoDup_cons in Hnd as [Hnd _].
    destruct (fr_run _ _ _ F) as (_ & _ & Fc & _). rewrite E in Fc.
    split; intros u; rewrite freeing_thr, ?freeing_list, ?Fc.
    + case_decide; [done|apply B1].
    + intros Hu. rewrite decide_False by congruence. apply B2. rewrite L. by right.
    + case_decide as D; [done|]. intros Hu. destruct (B3 u Hu) as [Hl|]; [left|by right].
      rewrite L in Hl. by apply elem_of_cons in Hl as [|].
  - apply reap_free_tasks.
    + rewrite E. generalize (ki_task _ K). by apply task_inv_frame.
    + by rewrite E.
    + by rewrite E.
Qed.

End freeing.

(** ** The reaper loop *)
Lemma dequeue_shape s :
  ∃ rqq h, (scheduler_reap_dequeue s).2 = s <| reap_queue := rqq |> <| reap_head := h |>.
Proof.
  unfold scheduler_reap_dequeue. case_if; cbn [snd].
  - exists (reap_queue s), (reap_head s). by destruct s.
  - by eexists _, _.
Qed.

(** Threads that are not [dead] are kept by the whole body. *)
Lemma reap_owner_fields s x :
  thread_count (tsk s x) = Z.of_nat (length (task_threads (tsk s x))) →
  threads (reap_owner s x) = threads s ∧ sched_ticks (reap_owner s x) = sched_ticks s
  ∧ reap_list (reap_owner s x) = reap_list s.
Proof.
  intros Hc. unfold reap_owner. case_if; [|done].
  assert (∀ st, threads (scheduler_task_set_state s x st) = threads s
    ∧ sched_ticks (scheduler_task_set_state s x st) = sched_ticks s
    ∧ reap_list (scheduler_task_set_state s x st) = reap_list s) as Hst.
  { intros st. unfold scheduler_task_set_state. by case_if. }
  assert (∀ st, thread_count (tsk s x) = 0 →
    let s' := task_destroy (scheduler_task_set_state s x st) x in
    threads s' = threads s ∧ sched_ticks s' = sched_ticks s ∧ reap_list s' = reap_list s) as Hde.
  { intros st H0. cbv zeta. destruct (Hst st) as (E1 & E2 & E3).
    pose proof (tf_tasks _ _ (task_state_task s x st) x) as E. injection E as E _ _.
    unfold task_destroy. case_if; [done|]. cbv zeta. set (s1 := scheduler_task_set_state s x st) in *.
    match goal with |- context [foldl thread_destroy ?y _] =>
      change (task_threads (tsk y x)) with (task_threads (tsk s1 x)) end.
    rewrite E. destruct (task_threads (tsk s x)); [done|cbn in Hc; lia]. }
  repeat case_if; bool_hyps; auto.
Qed.

Lemma reap_step s :
  kernel_inv s → reap_head s ≠ reap_tail s →
  let '(dead, s1) := scheduler_reap_dequeue s in
  let s' := reap_thread s1 dead in
  dead ≠ 0 ∧ kernel_inv s' ∧ reap_list s = dead :: reap_list s' ∧ scheduler_reap_peek s = dead
  ∧ threads s' = delete dead (threads s) ∧ sched_ticks s' = sched_ticks s.
Proof.
  intros K Hne. pose proof (ring_dequeue s (ri_wf _ (ki_ring _ K)) Hne) as Hd.
  pose proof (dequeue_shape s) as Hs. destruct (scheduler_reap_dequeue s) as [dead s1].
  destruct Hd as (L & Wf & Hp). cbn [snd] in Hs.
  destruct (dead_ring _ (ki_dead _ K) dead) as [Hdd Hdc]; [rewrite L; by left|].
  pose proof (exists_state s dead _ Hdd ltac:(done)) as He.
  pose proof (freeing_inv s s1 dead K Hdd Hdc L Wf Hs) as K1. cbv zeta. rewrite reap_thread_eq.
  set (s2 := reap_free s1 dead) in *. set (x := task_of (thr s1 dead)).
  destruct (reap_owner_fields s2 x (tk_count _ (ki_task _ K1) x)) as (F1 & F2 & F3).
  pose proof (reap_free_fields s1 dead) as F. fold s2 in F. destruct Hs as (rqq & h & E).
  split_and!.
  - by apply (exists_nonzero s dead (ki_store _ K)).
  - by apply reap_owner_inv.
  - rewrite F3. unfold s2. by rewrite (freeing_list s1 dead).
  - done.
  - rewrite F1, (fr_threads _ _ _ F). by rewrite E.
  - rewrite F2. destruct (fr_ring _ _ _ F) as (_ & _ & _ & ->). by rewrite E.
Qed.

Lemma peek_head s :
  kernel_inv s →
  match reap_list s with
  | [] => scheduler_reap_peek s = 0
  | t :: _ => reap_head s ≠ reap_tail s ∧ scheduler_reap_peek s = t ∧ t ≠ 0
  end.
Proof.
  intros K. pose proof (ri_wf _ (ki_ring _ K)) as Hw. destruct (reap_list s) as [|t l] eqn:E.
  - apply ring_empty in E; [|done]. unfold scheduler_reap_peek. by rewrite E, Z.eqb_refl.
  - assert (reap_head s ≠ reap_tail s) as Hne by (intros X; apply ring_empty in X; congruence).
    pose proof (reap_step s K Hne) as Hs. destruct (scheduler_reap_dequeue s) as [dead s1].
    destruct Hs as (H0 & _ & L & Hp & _). rewrite E in L. by injection L as -> _.
Qed.

(** The loop frees, in order, the dead threads whose grace period is over and
    stops at the first one that is younger; all behind it are younger too. *)
Lemma reap_loop_result fuel s :
  kernel_inv s → (length (reap_list s) ≤ fuel)%nat →
  ∃ s' gone, reap_loop fuel s = Some s' ∧ kernel_inv s' ∧ reap_list s = gone ++ reap_list s'
    ∧ (∀ t, t ∈ gone → reap_after_tick (thr s t) ≤ sched_ticks s)
    ∧ (∀ t, t ∈ reap_list s' → sched_ticks s < reap_after_tick (thr s t))
    ∧ (∀ t, threads s' !! t = if decide (t ∈ gone) then None else threads s !! t).
Proof.
  revert s. induction fuel as [|fuel IH]; intros s K Hf; cbn [reap_loop];
    pose proof (peek_head s K) as Hp; pose proof (ri_sorted _ (ki_ring _ K)) as Hso.
  - destruct (reap_list s) as [|t l] eqn:E; [|cbn in Hf; lia]. rewrite Hp. cbn.
    exists s, []. rewrite E. split_and!; try done; intros t Ht; by destruct (not_elem_of_nil _ Ht).
  - destruct (reap_list s) as [|t l] eqn:E.
    { rewrite Hp. cbn. exists s, []. rewrite E.
      split_and!; try done; intros t Ht; by destruct (not_elem_of_nil _ Ht). }
    destruct Hp as (Hne & Hp & H0). rewrite Hp, (proj2 (Z.eqb_neq t 0)) by done. case_if; bool_hyps.
    { eexists _, []. split; [done|]. split; [revert K; apply kernel_inv_frames; by split|].
      split; [symmetry; exact E|]. split_and!; try done; [intros u Hu; by destruct (not_elem_of_nil _ Hu)|].
      intros u Hu. change (reap_list _) with (reap_list s) in Hu. rewrite E in Hu.
      apply elem_of_cons in Hu as [->|Hu]; [done|].
      apply StronglySorted_inv in Hso as [_ Hso]. rewrite Forall_forall in Hso. pose proof (Hso u Hu). lia. }
    pose proof (reap_step s K Hne) as Hs. destruct (scheduler_reap_dequeue s) as [dead s1].
    destruct Hs as (_ & K1 & L & Hp' & Ft & Fk). set (s2 := reap_thread s1 dead) in *.
    rewrite E in L. injection L as -> L. rewrite (proj2 (Z.eqb_neq dead 0)) by done.
    destruct (IH s2 K1) as (s' & gone & -> & K' & G1 & G2 & G3 & G4); [rewrite <- L; cbn in Hf; lia|].
    assert (∀ u, u ≠ dead → thr s2 u = thr s u) as Eo.
    { intros u Hu. unfold thr. rewrite Ft, !lookup_total_alt. by rewrite lookup_delete_ne. }
    assert (dead ∉ l) as Hnd by (pose proof (ri_nodup _ (ki_ring _ K)) as X; rewrite E in X; by apply NoDup_cons in X as [? _]).
    rewrite <- L in G1.
    exists s', (dead :: gone). split_and!; try done; [by rewrite G1|..].
    + intros u Hu. apply elem_of_cons in Hu as [->|Hu]; [lia|]. rewrite <- Eo, <- Fk; [by apply G2|].
      intros ->. apply Hnd. rewrite G1. apply elem_of_app. by left.
    + intros u Hu. rewrite <- Eo, <- Fk; [by apply G3|]. intros ->. apply Hnd. rewrite G1. apply elem_of_app. by right.
    + intros u. rewrite G4, Ft. destruct (decide (u = dead)) as [->|N].
      * rewrite lookup_delete_eq. destruct (decide (dead ∈ dead :: gone)) as [_|X]; [by case_decide|].
        destruct X. by left.
      * rewrite lookup_delete_ne, decide_elem_cons by done. destruct (decide (dead = u)); congruence.
Qed.

End SchedLife.
