(* ===== verification/SchedSteps.v ===== *)
(** * The kernel as a transition system

    [kstep] has one rule for each entry into the scheduler, with the
    conditions under which the rest of the kernel makes it; [kernel_inv] holds
    in every state reached from the initialised scheduler. *)

From stdpp Require Import base gmap list numbers fin_maps sorting relations.
From stdpp Require Import base gmap list numbers fin_maps.
From S2P Require Import Prelude Sched Waitq Task SchedInv SchedWait SchedKernel SchedSwitch SchedLife.

Module SchedSteps.
Import Sched Waitq Task SchedFacts SchedInv SchedWait SchedRing SchedKernel.
Import SchedTick SchedSwitch SchedLife.

(** ** Creation *)
Definition fresh_thread (th : thread_t) (task : Z) : Prop :=
  thread_state th = THREAD_STATE_NEW ∧ ready_queued th = false ∧ waitq_owner th = 0
  ∧ wait_timeout_armed th = false ∧ reap_queued th = false ∧ task_of th = task.

Lemma link_thr s task t th u :
  thr (link_thread s task t th) u = if decide (u = t) then th else thr s u.
Proof.
  unfold link_thread, thr, tsk_upd, field_update. cbn. rewrite !lookup_total_alt.
  case_decide as D; [subst u; by rewrite lookup_insert_eq|by rewrite lookup_insert_ne].
Qed.

(** A field that is the same in the new thread as in no thread. *)
Lemma link_field {A} (g : thread_t → A) s task t th u :
  ¬ exists_thread s t → g th = g inhabitant →
  g (thr (link_thread s task t th) u) = g (thr s u).
Proof.
  intros Hn Hg. rewrite link_thr. case_decide as D; [|done]. subst u. by rewrite (not_exists_thr s t).
Qed.

Lemma link_exists s task t th u :
  exists_thread (link_thread s task t th) u ↔ u = t ∨ exists_thread s u.
Proof.
  unfold exists_thread, link_thread, tsk_upd, field_update. cbn.
  destruct (decide (u = t)) as [->|N]; [rewrite lookup_insert_eq; split; [by left|by eexists]|].
  rewrite lookup_insert_ne by done. tauto.
Qed.

Definition add_to_task (t : Z) (x : task_t) : task_t :=
  let x := x <| thread_count ::= λ n, n +₃₂ 1 |> <| task_threads ::= λ l, l ++ [t] |> in
  if main_thread x =? 0 then x <| main_thread := t |> else x.

Lemma link_tsk s task t th x :
  tsk (link_thread s task t th) x
  = if decide (x = task ∧ is_Some (tasks s !! x)) then add_to_task t (tsk s x) else tsk s x.
Proof.
  unfold link_thread, tsk, tsk_upd, field_update. cbn. rewrite !lookup_total_alt.
  destruct (decide (x = task)) as [->|N].
  - rewrite lookup_alter_eq. destruct (tasks s !! task) eqn:E; cbn.
    + by rewrite decide_True by eauto.
    + rewrite decide_False; [done|]. by intros [_ [? ?]].
  - rewrite lookup_alter_ne by done. rewrite decide_False; [done|tauto].
Qed.

Lemma link_tasks s task t th :
  task_inv s → ¬ exists_thread s t → task_of th = task → is_Some (tasks s !! task) → task ≠ 0 →
  Z.of_nat (size (threads s)) + 1 < 2 ^ 32 →
  task_inv (link_thread s task t th).
Proof.
  intros [B1 B2 B3 B4 B5 B6] Hn Ht Hs H0 Hlim. change (2 ^ 32) with 4294967296 in Hlim.
  set (s' := link_thread s task t th).
  assert (∀ x, task_fields (add_to_task t x) = (task_threads x ++ [t], thread_count x +₃₂ 1, task_id x)) as Hf
    by (intros x; unfold add_to_task; cbv zeta; by destruct (_ =? 0)).
  assert (∀ x, is_Some (tasks s' !! x) ↔ is_Some (tasks s !! x)) as Hd.
  { intros x. unfold s', link_thread. rewrite <- !elem_of_dom. by rewrite dom_tsk_upd. }
  assert (∀ x, task_id (tsk s' x) = task_id (tsk s x)) as Eid.
  { intros x. unfold s'. rewrite link_tsk. case_decide; [|done].
    pose proof (Hf (tsk s x)) as X. by injection X. }
  assert (∀ x, t ∉ task_threads (tsk s x)) as Hnt.
  { intros x Hin. apply B2 in Hin as [Hx Hin]. rewrite not_exists_thr in Hin by done. by subst x. }
  split; try (intros x; rewrite ?Hd, ?Eid; auto; fail).
  - intros x. unfold s'. rewrite link_tsk. case_decide; [|apply B1].
    pose proof (Hf (tsk s x)) as X. injection X as -> _ _. apply NoDup_app.
    split_and!; [apply B1| |apply NoDup_singleton]. intros u Hu Hin.
    apply list_elem_of_singleton in Hin as ->. by apply Hnt in Hu.
  - intros x u. unfold s'. rewrite link_thr, link_tsk. destruct (decide (x = task ∧ _)) as [[-> _]|N].
    + pose proof (Hf (tsk s task)) as X. injection X as -> _ _.
      rewrite elem_of_app, list_elem_of_singleton, B2. destruct (decide (u = t)) as [->|]; [tauto|tauto].
    + rewrite B2. destruct (decide (u = t)) as [->|]; [|done].
      rewrite not_exists_thr by done. cbn. split; [intuition congruence|]. intros [Hx Hx2].
      rewrite Ht in Hx2. subst x. destruct N. by split.
  - intros x. unfold s'. rewrite link_tsk. case_decide as D; [|apply B3].
    pose proof (Hf (tsk s x)) as X. injection X as -> -> _. rewrite B3, length_app. cbn [length].
    assert (length (task_threads (tsk s x)) ≤ size (threads s))%nat.
    { apply nodup_length_size; [apply B1|]. intros u Hu. apply B2 in Hu as [Hu0 Hu].
      destruct (decide (exists_thread s u)) as [|N]; [done|]. by rewrite not_exists_thr in Hu. }
    rewrite u32_small by lia. lia.
  - intros id x. rewrite Hd, Eid. apply B5.
Qed.

Lemma link_thread_inv s task t th :
  kernel_inv s → ¬ exists_thread s t → t ≠ 0 → fresh_thread th task → is_Some (tasks s !! task) →
  task ≠ 0 → Z.of_nat (size (threads s)) + 1 < 2 ^ 32 →
  kernel_inv (link_thread s task t th).
Proof.
  intros K Hn Ht0 (E1 & E2 & E3 & E4 & E5 & E6) Hs H0 Hlim. set (s' := link_thread s task t th).
  pose proof (λ A g (H : g th = g inhabitant) u, @link_field A g s task t th u Hn H) as F. fold s' in F.
  pose proof K as [A0 A Ap A1 A2 A3 A4 A5 A6].
  assert (∀ u, thread_state (thr s' u) = thread_state (thr s u)) as Fs by (by apply F).
  assert (∀ u, ready_queued (thr s' u) = ready_queued (thr s u)) as Fq by (by apply F).
  assert (∀ u, waitq_owner (thr s' u) = waitq_owner (thr s u)) as Fo by (by apply F).
  assert (∀ u, wait_timeout_armed (thr s' u) = wait_timeout_armed (thr s u)) as Fa by (by apply F).
  assert (∀ u, reap_queued (thr s' u) = reap_queued (thr s u)) as Fr by (by apply F).
  assert (∀ u, u ≠ t → thr s' u = thr s u) as Fu
    by (intros u Hu; unfold s'; by rewrite link_thr, decide_False).
  assert (∀ u, u ∈ reap_list s → thr s' u = thr s u) as Fl.
  { intros u Hu. apply Fu. intros ->. apply (ri_mem _ A4) in Hu. by rewrite not_exists_thr in Hu. }
  split; try done.
  - split; [|unfold s'; rewrite link_exists; destruct A0; intuition congruence].
    unfold few_threads, s', link_thread. cbn. rewrite map_size_insert_None; [lia|].
    destruct (threads s !! t) eqn:X; [destruct Hn; by eexists|done].
  - destruct A1 as [B1 B2 B3]. split; try done. intros u. by rewrite Fq.
  - destruct A2 as [B1 B2 B3]. split.
    + intros u. rewrite Fs, Fq. apply B1.
    + intros u. rewrite Fs, Fq. apply B2.
    + change (current_thread s') with (current_thread s). unfold s'. rewrite link_exists. tauto.
  - destruct A3 as [Hw [B1 B2 B3]]. split; [by apply (wqs_inv_ext s)|]. split; try done.
    + intros u. by rewrite Fa.
    + intros u. rewrite Fa. intros Hu. rewrite Fu; [by apply B3|]. intros ->. by rewrite not_exists_thr in Hu.
  - destruct A4 as [B1 B2 B3 B4 B5]. split; try done.
    + intros u. by rewrite Fr.
    + change (reap_list s') with (reap_list s). clear -B4 Fl. induction B4 as [|x l H IH Hx]; [constructor|].
      constructor; [apply IH; intros; apply Fl; by right|].
      rewrite Forall_forall in *. intros u Hu. rewrite !Fl by (first [by left|by right]). by apply Hx.
    + intros u Hu. rewrite Fl by done. by apply B5.
  - revert A5. apply dead_inv_step; try done; intros u; by rewrite ?Fs, ?Fq, ?Fo, ?Fa.
  - by apply link_tasks.
Qed.

(** A state that differs in the stack cache only. *)
Lemma stacks_inv s c : kernel_inv s → kernel_inv (s <| stacks := c |>).
Proof. apply kernel_inv_frames; by split. Qed.

Definition room_for_thread (s : sched_state) (b : blocks) (task : Z) : Prop :=
  ¬ exists_thread s (b_thread b) ∧ b_thread b ≠ 0 ∧ is_Some (tasks s !! task)
  ∧ Z.of_nat (size (threads s)) + 1 < 2 ^ 32.

Lemma thread_create_inv s b task entry arg tr cs fuel t s' :
  kernel_inv s → room_for_thread s b task →
  thread_create s b task entry arg tr cs fuel = Some (t, s') → kernel_inv s'.
Proof.
  intros K (Hn & H0 & Hs & Hlim). unfold thread_create. case_if; [by injection 1 as <- <-|].
  bool_hyps. rewrite (proj2 (Z.eqb_neq _ 0)) by done.
  destruct task_kernel_stack_acquire as [[st c]|]; [|done]. cbv zeta.
  case_if; [injection 1 as <- <-; by apply stacks_inv|]. injection 1 as <- <-.
  apply link_thread_inv; try done. by apply stacks_inv.
Qed.

Lemma thread_clone_inv s b task frame fr fuel t s' :
  kernel_inv s → room_for_thread s b task →
  thread_create_user_clone s b task frame fr fuel = Some (t, s') → kernel_inv s'.
Proof.
  intros K (Hn & H0 & Hs & Hlim). unfold thread_create_user_clone. case_if; [by injection 1 as <- <-|].
  bool_hyps. rewrite (proj2 (Z.eqb_neq _ 0)) by done.
  destruct task_kernel_stack_acquire as [[st c]|]; [|done]. cbv zeta.
  case_if; [injection 1 as <- <-; by apply stacks_inv|]. injection 1 as <- <-.
  apply link_thread_inv; try done. by apply stacks_inv.
Qed.

Lemma task_create_inv s addr cwd0 g :
  kernel_inv s → tasks s !! addr = None → addr ≠ 0 → 0 < next_task_id s → next_task_id s + 1 < 2 ^ 64 →
  kernel_inv (task_create s addr cwd0 g).
Proof.
  intros K Hn H0 Hi Hlim. change (2 ^ 64) with 18446744073709551616 in Hlim.
  destruct (ki_task _ K) as [B1 B2 B3 B4 B5 B6].
  assert (tsk s addr = inhabitant) as En by (unfold tsk; by rewrite lookup_total_alt, Hn).
  assert (all_tasks_by_id s !! next_task_id s = None) as Hfree.
  { destruct (all_tasks_by_id s !! next_task_id s) as [x|] eqn:E; [|done].
    apply B5 in E as [Hx Hid]. pose proof (B6 x Hx). lia. }
  unfold task_create. cbv zeta. rewrite (proj2 (Z.eqb_neq addr 0)) by done. set (x0 := mk_task _ _ _ _ _ _ _ _ _ _ _ _ _ _ _ _ _ _ _ _ _ _ _ _ _ _ _).
  set (s' := field_update next_task_id _ _).
  assert (tasks s' = <[addr := x0]> (tasks s)) as Et by done.
  assert (all_tasks_by_id s' = <[next_task_id s := addr]> (all_tasks_by_id s)) as Ei.
  { unfold s', field_update. cbn. by rewrite Hfree. }
  assert (∀ x, tsk s' x = if decide (x = addr) then x0 else tsk s x) as Ek.
  { intros x. unfold tsk. rewrite Et, !lookup_total_alt.
    case_decide as D; [subst x; by rewrite lookup_insert_eq|by rewrite lookup_insert_ne]. }
  assert (∀ x, is_Some (tasks s' !! x) ↔ x = addr ∨ is_Some (tasks s !! x)) as Es.
  { intros x. rewrite Et. destruct (decide (x = addr)) as [->|N].
    - rewrite lookup_insert_eq. split; [by left|by eexists].
    - rewrite lookup_insert_ne by done. tauto. }
  assert (next_task_id s' = next_task_id s + 1) as Enx
    by (unfold s', field_update; cbn; rewrite u64_small; lia).
  apply (kernel_inv_task s); try done. split.
  - intros x. rewrite Ek. case_decide; [apply NoDup_nil_2|apply B1].
  - intros x u. rewrite Ek. change (thr s' u) with (thr s u). case_decide as D; [subst x|apply B2].
    rewrite <- (B2 addr u), En. done.
  - intros x. rewrite Ek. case_decide; [done|apply B3].
  - intros x. change (x ∈ addr :: all_tasks s ↔ is_Some (tasks s' !! x)).
    by rewrite elem_of_cons, B4, Es.
  - intros id x. rewrite Ei, Ek, Es. destruct (decide (id = next_task_id s)) as [->|N].
    + rewrite lookup_insert_eq. split.
      * injection 1 as <-. rewrite decide_True by done. split; [by left|done].
      * intros [Hx Hid]. case_decide as D; [by subst x|]. destruct Hx as [|Hx]; [done|].
        pose proof (B6 x Hx). lia.
    + rewrite lookup_insert_ne by done. rewrite B5. case_decide as D.
      * subst x. rewrite Hn. split; [by intros [[? ?] _]|]. intros [_ Hid]. by subst id.
      * intuition done.
  - intros x. rewrite Es, Ek, Enx. case_decide as D; [intros _; cbn; lia|].
    intros [|Hx]; [done|]. pose proof (B6 x Hx). lia.
Qed.

(** ** Operations on one thread that no queue depends on *)
Inductive tune (s : sched_state) : sched_state → Prop :=
| tune_priority t p : tune s (scheduler_set_priority s t p)
| tune_bucket t b : tune s (scheduler_set_bucket s t b)
| tune_inherit t d : tune s (scheduler_inherit_priority s t d)
| tune_clear t : tune s (scheduler_clear_inherit s t)
| tune_yield : tune s (scheduler_yield s)
| tune_rate hz : tune s (scheduler_set_tick_rate s hz)
| tune_joiner t j : tune s (thr_upd t (λ th, th <| joiner := j |>) s)
| tune_run : tune s (scheduler_run s)
| tune_task_state x st : tune s (scheduler_task_set_state s x st)
| tune_base t p : tune s (thr_upd t (λ th, th <| priority := p |>) s)
| tune_fds x f : (∀ y, task_fields (f y) = task_fields y) → tune s (tsk_upd x f s).

Lemma tune_inv s s' : kernel_inv s → tune s s' → kernel_inv s'.
Proof.
  intros K H. destruct H; revert K; apply kernel_inv_frames;
    unfold scheduler_set_priority, scheduler_set_bucket, scheduler_inherit_priority,
      scheduler_clear_inherit, scheduler_yield, scheduler_set_tick_rate, scheduler_run,
      scheduler_task_set_state;
    frames.
Qed.

(** ** Wait queues *)
Lemma waitq_init_inv s q :
  kernel_inv s → wq s q = mk_waitq [] 0 → kernel_inv (waitq_init s q).
Proof.
  intros K Hn. unfold waitq_init. case_if; [done|].
  set (s' := s <| waitqs ::= <[q := mk_waitq [] 0]> |>).
  assert (∀ q', wq s' q' = wq s q') as E.
  { intros q'. destruct (decide (q = q')) as [<-|N]; [rewrite Hn|]; unfold wq, s', field_update; cbn;
      rewrite !lookup_total_alt; [by rewrite lookup_insert_eq|by rewrite lookup_insert_ne]. }
  apply (kernel_inv_wait s); try done. destruct (ki_wait _ K) as [[B1 B2 B3] Ht]. split; [split|].
  - intros q'. by rewrite E.
  - intros q' t. by rewrite E.
  - intros q'. by rewrite E.
  - by apply (to_inv_ext s).
Qed.

Lemma waitq_remove_inv s q t : kernel_inv s → kernel_inv (waitq_remove s q t).2.
Proof.
  intros K. unfold waitq_remove. repeat case_if; bool_hyps; cbn [snd]; try done.
  apply unlink_inv; [done|]. by apply (wq_mem _ (proj1 (ki_wait _ K))).
Qed.

Lemma wait_end_inv s : kernel_inv s → kernel_inv (waitq_wait_end s).2.
Proof.
  intros K. unfold waitq_wait_end. cbn [snd]. cbv zeta. set (s' := thr_upd _ _ s).
  assert (∀ u, waitq_owner (thr s' u) = waitq_owner (thr s u)) as Eo by (intros; by apply thr_upd_keep).
  assert (∀ u, wait_timeout_armed (thr s' u) = wait_timeout_armed (thr s u)) as Ea by (intros; by apply thr_upd_keep).
  apply (kernel_inv_wait s _ K); [unfold s'; frames|unfold s'; frames|unfold s'; frames|..].
  - destruct (ki_wait _ K) as [Hw Ht]. split; [by apply (wqs_inv_ext s)|].
    apply (to_inv_ext s); try done. intros; by apply thr_upd_keep.
  - intros u _. by rewrite Eo, Ea.
Qed.

Lemma unblock_inv s t : kernel_inv s → kernel_inv (scheduler_unblock s t).
Proof.
  intros K. unfold scheduler_unblock. repeat case_if; bool_hyps; try done. cbv zeta.
  assert (exists_thread s t) as He by (by eapply exists_state).
  set (s1 := sleep_boost s t).
  assert (run_frame s s1) as R by (unfold s1; auto with frames).
  assert (task_frame s s1) as T by (unfold s1; auto with frames).
  assert (kernel_inv s1) as K1 by (revert K; unfold s1; apply kernel_inv_frames; auto with frames).
  assert (exists_thread s1 t) as He1 by (by apply (task_frame_exists _ _ _ T)).
  set (s2 := scheduler_thread_set_state s1 t THREAD_STATE_READY).
  pose proof (set_state_run s1 t THREAD_STATE_READY He1 Eif) as R2. fold s2 in R2.
  assert (run_frame s2 (dec_blocked s2)) as R3 by auto with frames.
  assert (run_set s1 (dec_blocked s2) t (ready_queued (thr s1 t), THREAD_STATE_READY)) as R4
    by (by eapply run_set_then_frame).
  destruct (ki_run _ K1) as [A B C].
  assert (task_frame s1 (dec_blocked s2)) as T2 by (unfold s2; frames).
  destruct (enqueue_ready (dec_blocked s2) t) as (Hr & Hrun & R5).
  - by eapply task_frame_store; [|apply K1].
  - eapply rq_inv_frame; [done|]. apply set_state_rq, K1.
  - by apply (task_frame_exists _ _ _ T2).
  - by injection (proj2 R4).
  - intros u Hu. destruct (run_set_state _ _ _ _ _ u R4) as [-> ->]. rewrite !decide_False by done. apply A.
  - intros u. destruct (run_set_state _ _ _ _ _ u R4) as [-> ->]. destruct R4 as [[_ ->] _]. case_decide; [done|apply B].
  - destruct R4 as [[_ ->] _]. by rewrite (task_frame_exists _ _ _ T2).
  - apply (kernel_inv_run_set s1 _ t true THREAD_STATE_READY K1); try done;
      [|unfold s2; frames..|].
    + destruct R4 as [[O1 C1] _], R5 as [[O2 C2] E2]. split; [split|done]; [|congruence].
      intros u Hu. by rewrite O2, O1.
    + by rewrite (run_frame_state _ _ t R), Eif0.
Qed.

(** ** The timer interrupt *)
Lemma switch_inv s frame f s' :
  kernel_inv s → frame ≠ 0 → sched_ticks s + 128 < 2 ^ 64 →
  scheduler_switch_from_irq s frame = Done (f, s') → kernel_inv s'.
Proof.
  intros K Hf Hlim E. pose proof (switch_result s frame K Hf Hlim) as H. rewrite E in H.
  destruct H as [(_ & -> & _)|[(_ & _ & _ & H)|(next & _ & H)]]; [done|apply H|apply H].
Qed.

Lemma count_down_ticks s : sched_ticks (count_down s) = sched_ticks s.
Proof.
  assert (ring_frame s (count_down s)) as G by (unfold count_down; frames). apply G.
Qed.

Lemma charge_ticks s : sched_ticks (charge_current s) = sched_ticks s.
Proof.
  assert (ring_frame s (charge_current s)) as G by (unfold charge_current; frames). apply G.
Qed.

Lemma tick_ticks s :
  kernel_inv s → sched_ticks s + 1 < 2 ^ 64 →
  sched_ticks s ≤ sched_ticks (scheduler_tick s) ≤ sched_ticks s + 1.
Proof.
  intros K Hlim. change (2 ^ 64) with 18446744073709551616 in Hlim. pose proof (ki_ticks _ K).
  unfold scheduler_tick. case_if; [lia|]. cbv zeta. rewrite count_down_ticks, charge_ticks.
  set (s0 := s <| sched_ticks ::= _ |>).
  assert (sched_ticks s0 = sched_ticks s + 1) as E0 by (unfold s0, field_update; cbn; rewrite u64_small; lia).
  assert (kernel_inv s0) as K0.
  { unfold s0, field_update. cbn. rewrite u64_small by lia.
    apply (kernel_inv_clock s (sched_ticks s + 1)); [done|lia]. }
  destruct (waitq_tick_result s0 (sched_ticks s0) K0) as (_ & G & _).
  rewrite (gf_ticks _ _ G), E0. lia.
Qed.

Lemma timer_inv s frame f s' :
  kernel_inv s → frame ≠ 0 → sched_ticks s + 129 < 2 ^ 64 →
  timer_interrupt s frame = Done (f, s') → kernel_inv s'.
Proof.
  intros K Hf Hlim. unfold timer_interrupt. pose proof (tick_ticks s K ltac:(lia)).
  apply switch_inv; [apply tick_inv; [done|lia]|done|lia].
Qed.

(** ** Reachable states *)
Definition alive (s : sched_state) : Prop :=
  current_thread s ≠ 0 ∧ thread_state (thr s (current_thread s)) ≠ THREAD_STATE_DEAD.

Inductive kstep (s : sched_state) : sched_state → Prop :=
| k_task_create addr cwd0 g :
    tasks s !! addr = None → addr ≠ 0 → 0 < next_task_id s → next_task_id s + 1 < 2 ^ 64 →
    kstep s (task_create s addr cwd0 g)
| k_thread_create b task entry arg tr cs fuel t s' :
    room_for_thread s b task → thread_create s b task entry arg tr cs fuel = Some (t, s') → kstep s s'
| k_thread_clone b task frame fr fuel t s' :
    room_for_thread s b task → thread_create_user_clone s b task frame fr fuel = Some (t, s') → kstep s s'
| k_add_thread t :
    exists_thread s t → thread_state (thr s t) = THREAD_STATE_NEW → kstep s (scheduler_add_thread s t).2
| k_tune s' : tune s s' → kstep s s'
| k_waitq_init q : wq s q = mk_waitq [] 0 → kstep s (waitq_init s q)
| k_wait_begin q d :
    alive s → exists_wq s q → q ≠ 0 → waitq_owner (thr s (current_thread s)) = 0 →
    kstep s (waitq_wait_begin s q d).2
| k_block : alive s → kstep s (scheduler_block s)
| k_wait_end : kstep s (waitq_wait_end s).2
| k_wake_one q : q ≠ 0 → kstep s (waitq_wake_one s q).2
| k_wake_all fuel q n s' :
    q ≠ 0 → (length (wq_threads (wq s q)) < fuel)%nat →
    waitq_wake_all fuel s q = Some (n, s') → kstep s s'
| k_waitq_remove q t : kstep s (waitq_remove s q t).2
| k_unblock t : kstep s (scheduler_unblock s t)
| k_exit :
    let cur := current_thread s in
    thread_state (thr s cur) = THREAD_STATE_RUNNING → waitq_owner (thr s cur) = 0 →
    wait_timeout_armed (thr s cur) = false → joiner_ok s cur → kstep s (scheduler_exit_mark s)
| k_timer frame f s' :
    frame ≠ 0 → sched_ticks s + 129 < 2 ^ 64 → timer_interrupt s frame = Done (f, s') → kstep s s'
| k_reap fuel s' :
    (length (reap_list s) ≤ fuel)%nat → scheduler_reap_finished fuel s = Some s' → kstep s s'
| k_task_destroy x : task_threads (tsk s x) = [] → kstep s (task_destroy s x).

Lemma kstep_inv s s' : kernel_inv s → kstep s s' → kernel_inv s'.
Proof.
  intros K H. destruct H.
  - by apply task_create_inv.
  - by eapply thread_create_inv.
  - by eapply thread_clone_inv.
  - apply add_thread_inv; [done..| |]; congruence.
  - by eapply tune_inv.
  - by apply waitq_init_inv.
  - destruct H as [Hc Hd]. pose proof (wait_begin_result s q d K H0 H1 Hc Hd H2) as Hw.
    destruct (waitq_wait_begin s q d). apply Hw.
  - destruct H as [Hc Hd]. by apply block_inv.
  - by apply wait_end_inv.
  - pose proof (wake_one_result s q K H) as Hw. destruct (waitq_wake_one s q) as [t s']. cbn [snd].
    destruct (wq_threads (wq s q)); [by destruct Hw as [_ ->]|by apply Hw].
  - unfold waitq_wake_all in H1. rewrite (proj2 (Z.eqb_neq q 0)) in H1 by done.
    destruct (wake_all_result fuel s q 0 _ K H eq_refl H0) as (s1 & E & K1 & _); [done| |].
    { apply (waiting_length s q (ki_store _ K) (proj1 (ki_wait _ K))). }
    rewrite E in H1. by injection H1 as _ <-.
  - by apply waitq_remove_inv.
  - by apply unblock_inv.
  - by apply exit_mark_inv.
  - by eapply timer_inv.
  - unfold scheduler_reap_finished, scheduler_reap_dead_threads in H0.
    set (s1 := reap_upd _ s) in H0. assert (kernel_inv s1) as K1 by (revert K; apply kernel_inv_frames; by split).
    destruct (reap_loop_result fuel s1 K1 H) as (s2 & gone & E & K2 & _). rewrite E in H0.
    injection H0 as <-. revert K2. apply kernel_inv_frames; by split.
  - by apply task_destroy_inv.
Qed.

(** ** The initialised scheduler *)
Definition boot_state : sched_state :=
  mk_sched ∅ ∅ ∅ [] ∅ 1 1 0 0 false false SCHED_POLICY_PRIORITY (mk_stats 0 0 0 0 0) false 1 1 false 0
    ∅ ∅ [] ∅ 0 0 (mk_reap_stats 0 0 0 0 0 0 0) (mk_stacks [] 0 0 0 0 ∅) 0 0 0 [].

Lemma elem_nil_iff {A} (x : A) (P : Prop) : ¬ P → x ∈ [] ↔ P.
Proof. intros HP. split; [intros H; by destruct (not_elem_of_nil _ H)|done]. Qed.

(** A scheduler without threads, tasks and waiters. *)
Record idle (s : sched_state) : Prop := {
  idle_threads : threads s = ∅;
  idle_tasks : tasks s = ∅;
  idle_waitqs : ∀ q, wq s q = mk_waitq [] 0;
  idle_ready : ready_list s = [] ∧ ready_tasks (stats s) = 0;
  idle_timeouts : waitq_timeouts s = [];
  idle_ring : reap_list s = [] ∧ ring_wf s;
  idle_registry : all_tasks s = [] ∧ all_tasks_by_id s = ∅
}.

Lemma idle_inv s :
  idle s → 0 ≤ sched_ticks s → queue_only_default s = false → current_thread s = 0 → kernel_inv s.
Proof.
  intros [E1 E2 Hw [E3 E4] E5 [E6 E7] [E8 E9]] Ht Hp Hc.
  assert (∀ t, ¬ exists_thread s t) as Hn by (intros t [? X]; by rewrite E1 in X).
  assert (∀ t, thr s t = inhabitant) as Hi by (intros t; by apply not_exists_thr).
  assert (∀ x, tsk s x = inhabitant) as Hk by (intros x; unfold tsk; by rewrite E2).
  assert (∀ x, ¬ is_Some (tasks s !! x)) as Hx by (intros x [? X]; by rewrite E2 in X).
  split; try done.
  - split; [unfold few_threads; by rewrite E1|apply Hn].
  - split; rewrite ?E3; [apply NoDup_nil_2|intros t; rewrite Hi; by apply elem_nil_iff|done].
  - split; [intros t; by rewrite Hi..|by left].
  - split; split; intros; rewrite ?Hw, ?E5; rewrite ?Hi in *; try done; try apply NoDup_nil_2;
      apply elem_nil_iff; cbn; naive_solver.
  - split; rewrite ?E6; [done|apply NoDup_nil_2|intros t; rewrite Hi; by apply elem_nil_iff|constructor|].
    intros t X. by destruct (not_elem_of_nil _ X).
  - split; intros t; rewrite ?Hi, ?E6; try done. intros X. by destruct (not_elem_of_nil _ X).
  - split; intros x; rewrite ?Hk, ?E8, ?E9; [apply NoDup_nil_2| |done|by apply elem_nil_iff| |].
    + intros t. rewrite Hi. apply elem_nil_iff. cbn. naive_solver.
    + intros y. rewrite lookup_empty. naive_solver.
    + intros X. by destruct (Hx _ X).
Qed.

Lemma scheduler_init_inv q : kernel_inv (scheduler_init boot_state q).
Proof.
  assert (∀ q', wq (scheduler_init boot_state q) q' = mk_waitq [] 0) as Hw.
  { intros q'. unfold wq, scheduler_init, waitq_init. cbn. case_if; [done|]. cbn.
    rewrite lookup_total_alt. destruct (decide (q = q')) as [->|].
    - by rewrite lookup_insert_eq.
    - by rewrite lookup_insert_ne. }
  apply idle_inv; [split; [..|done| | | |]|..]; clear Hw;
    unfold scheduler_init, waitq_init; cbn; destruct (q =? 0); by repeat split.
Qed.

Lemma reachable_inv s s' : kernel_inv s → rtc kstep s s' → kernel_inv s'.
Proof. intros K H. induction H as [|s1 s2 s3 Hs _ IH]; [done|]. by apply IH, (kstep_inv s1). Qed.

(** C1. In every state reached from the initialised scheduler by the entries of
    the kernel: every queued thread is on exactly one ready queue and marked
    so, every ready thread is queued, at most the current thread is running,
    wait queues and the timeout list hold exactly the threads that say so,
    dead threads are in no queue and wait for the reaper, the reap ring is
    ordered by deadline, and the tasks, their thread lists and the registry
    agree. *)
Theorem scheduler_invariant q s :
  rtc kstep (scheduler_init boot_state q) s → kernel_inv s.
Proof. apply reachable_inv, scheduler_init_inv. Qed.

End SchedSteps.

(** * What the scheduler guarantees

    The theorems of the scheduler, the wait queues and the reaper, stated for
    any state that satisfies [kernel_inv], and the bounded queue that the reap
    ring implements. *)
Module SchedSpec.
Import Sched Waitq Task SchedFacts SchedInv SchedWait SchedRing SchedKernel.
Import SchedTick SchedSwitch SchedLife SchedSteps.

(** ** The switch *)

(** C10. The interrupt keeps the current thread (nothing to do, or it is the best
    choice), or it saves the frame of the current thread, puts it back at the
    end of its queue if it was running or hands it to the reaper if it is
    dead, and resumes the first thread of the selected bucket with its page
    table and kernel stack.  It panics only when there is no thread to run or
    the reap ring is full. *)
Theorem scheduler_switch_from_irq_correct s frame :
  kernel_inv s → frame ≠ 0 → sched_ticks s + 128 < 2 ^ 64 →
  switch_outcome s frame (scheduler_switch_from_irq s frame).
Proof. apply switch_result. Qed.

(** The choice of the next thread: the head of the lowest starving bucket, or
    else of the highest nonempty bucket; under round robin and FIFO the head
    of the default bucket. *)
Theorem ready_dequeue_correct s :
  store_ok s → rq_inv s →
  let '(t, s') := ready_dequeue s in
  (∃ q rest, selects s q ∧ rq s q = t :: rest ∧ exists_thread s t ∧ t ≠ 0 ∧ dequeued s s' q t rest)
  ∨ (t = 0 ∧ s' = s ∧ if queue_only_default s then rq s 2 = [] else ready_list s = []).
Proof.
  intros Hs Hr. pose proof (ready_dequeue_result s Hs Hr) as H. destruct (ready_dequeue s) as [t s'].
  destruct H as [(q & rest & A & B & C & D & _ & F)|H]; [left; by exists q, rest|by right].
Qed.

(** ** Wait queues *)

(** [waitq_wake_all] ends after as many rounds as there are waiters, returns
    their number and leaves the queue empty; every waiter is ready and queued,
    and all other threads and queues are as before. *)
Theorem waitq_wake_all_correct fuel s q :
  kernel_inv s → q ≠ 0 → (length (wq_threads (wq s q)) < fuel)%nat →
  let l := wq_threads (wq s q) in
  ∃ s', waitq_wake_all fuel s q = Some (Z.of_nat (length l), s')
    ∧ kernel_inv s' ∧ wq_threads (wq s' q) = []
    ∧ (∀ u, u ∈ l → run_fields (thr s' u) = (true, THREAD_STATE_READY) ∧ waitq_owner (thr s' u) = 0)
    ∧ (∀ u, u ∉ l → run_fields (thr s' u) = run_fields (thr s u)
                    ∧ waitq_owner (thr s' u) = waitq_owner (thr s u))
    ∧ (∀ q', q' ≠ q → wq s' q' = wq s q').
Proof.
  intros K Hq Hf l. pose proof (waiting_length s q (ki_store _ K) (proj1 (ki_wait _ K))) as Hl.
  destruct (wake_all_result fuel s q 0 l K Hq eq_refl Hf) as (s' & E & K' & A & B & C & D & _); [done..|].
  exists s'. unfold waitq_wake_all. rewrite (proj2 (Z.eqb_neq q 0)) by done. by split_and!.
Qed.

Lemma block_current s :
  current_thread (scheduler_block s) = current_thread s.
Proof. unfold scheduler_block. repeat (cbn zeta; case_if); try done. unfold scheduler_thread_set_state. by case_if. Qed.

Lemma wait_begin_current s q d : current_thread (waitq_wait_begin s q d).2 = current_thread s.
Proof.
  unfold waitq_wait_begin, waitq_enqueue, waitq_arm_timeout, waitq_disarm_timeout.
  repeat (cbn zeta; case_if); by try case_match.
Qed.

Lemma block_wait_fields s t :
  wait_fields (thr (scheduler_block s) t) = wait_fields (thr s t).
Proof.
  assert (wait_frame s (scheduler_block s)) as F by (unfold scheduler_block; frames).
  apply (wf_threads _ _ F).
Qed.


(** ** The reaper *)

(** The contract of the reap ring: a queue of at most 63 threads. *)
Definition fifo_push (l : list Z) (t : Z) : option (list Z) :=
  if decide (length l < 63)%nat then Some (l ++ [t]) else None.
Definition fifo_pop (l : list Z) : Z * list Z :=
  match l with [] => (0, []) | t :: l => (t, l) end.

(** C37. The ring with its two indices implements the bounded queue: it is refused
    exactly when the queue is full. *)
Theorem reap_ring_refines s t :
  kernel_inv s → exists_thread s t → reap_queued (thr s t) = false → sched_ticks s + 128 < 2 ^ 64 →
  (let '(u, s') := scheduler_reap_dequeue s in
   fifo_pop (reap_list s) = (u, reap_list s') ∧ scheduler_reap_peek s = u)
  ∧ scheduler_reap_queue_len s = Z.of_nat (length (reap_list s))
  ∧ match scheduler_reap_enqueue s t with
    | Done s' => fifo_push (reap_list s) t = Some (reap_list s')
    | Panic => fifo_push (reap_list s) t = None
    end.
Proof.
  intros K Ht Hq Hlim. pose proof (ri_wf _ (ki_ring _ K)) as Hw. split_and!.
  - destruct (decide (reap_head s = reap_tail s)) as [E|N].
    + unfold scheduler_reap_dequeue, scheduler_reap_peek. rewrite E, Z.eqb_refl.
      by rewrite (proj1 (ring_empty s Hw) E).
    + pose proof (ring_dequeue s Hw N) as Hd. destruct (scheduler_reap_dequeue s) as [u s'].
      destruct Hd as (-> & _ & ->). done.
  - by rewrite reap_queue_len_eq, length_reap_list.
  - assert (t ≠ 0) as H0 by (intros ->; by destruct (ki_store _ K)).
    pose proof (reap_enqueue_spec s t (ki_ring _ K) Ht H0 Hq (ki_ticks _ K) Hlim) as He.
    pose proof (length_reap_list s) as Hl. pose proof (ring_count_range s).
    unfold fifo_push. destruct (scheduler_reap_enqueue s t) as [s'|].
    + destruct He as (_ & L & _). pose proof (length_reap_list s') as Hl'.
      pose proof (ring_count_range s'). rewrite L in *. rewrite length_app in Hl'. cbn [length] in Hl'.
      by rewrite decide_True by lia.
    + by rewrite decide_False by lia.
Qed.

(** [scheduler_reap_dead_threads] ends after at most as many rounds as there
    are dead threads; it frees exactly those whose grace period is over, in
    the order of their deaths, and leaves every other thread as it is. *)
Theorem scheduler_reap_dead_threads_correct fuel s :
  kernel_inv s → (length (reap_list s) ≤ fuel)%nat →
  ∃ s' gone, scheduler_reap_dead_threads fuel s = Some s' ∧ kernel_inv s'
    ∧ reap_list s = gone ++ reap_list s'
    ∧ (∀ t, t ∈ gone → reap_after_tick (thr s t) ≤ sched_ticks s)
    ∧ (∀ t, t ∈ reap_list s' → sched_ticks s < reap_after_tick (thr s t))
    ∧ (∀ t, threads s' !! t = if decide (t ∈ gone) then None else threads s !! t).
Proof.
  intros K Hf. unfold scheduler_reap_dead_threads. set (s1 := reap_upd _ s).
  assert (kernel_inv s1) as K1 by (revert K; apply kernel_inv_frames; by split).
  apply (reap_loop_result fuel s1 K1 Hf).
Qed.

End SchedSpec.
