(* ===== verification/SchedDemo.v ===== *)
(** * The scheduler on concrete states

    A boot of the scheduler with one task of two threads, step by step: the
    states are reachable, the theorems apply to them, and three sequences of
    calls show the limits of the interface. *)

From stdpp Require Import base gmap list numbers fin_maps relations.
From S2P Require Import Prelude Sched Waitq Task SchedInv SchedFair SchedWait SchedKernel SchedSwitch.
From S2P Require Import SchedLife SchedSteps.

Module SchedDemo.
Import Sched Waitq Task SchedFacts SchedInv SchedFair SchedWait SchedRing.
Import SchedKernel SchedTick SchedSwitch SchedLife SchedSteps SchedSpec.

Definition created (s : sched_state) (o : option (Z * sched_state)) : sched_state :=
  match o with Some (_, s') => s' | None => s end.
Definition after (s : sched_state) (o : outcome (Z * sched_state)) : sched_state :=
  match o with Done (_, s') => s' | Panic => s end.

(** The task is at 65536, its threads at 1000 and 2000, the sleep queue at
    4096. *)
Definition d0 : sched_state := scheduler_init boot_state 4096.
Definition d1 : sched_state := task_create d0 65536 (replicate 256 0) (0, 0).
Definition new_thread (s : sched_state) (t st : Z) : option (Z * sched_state) :=
  thread_create s (mk_blocks t inhabitant st) 65536 77 0 88 8 20.
Definition d2 : sched_state := created d1 (new_thread d1 1000 1048576).
Definition d3 : sched_state := created d2 (new_thread d2 2000 2097152).
Definition d4 : sched_state := (scheduler_add_thread d3 1000).2.
Definition d5 : sched_state := (scheduler_add_thread d4 2000).2.
Definition d6 : sched_state := scheduler_run d5.
Definition d7 : sched_state := after d6 (timer_interrupt d6 500).
Definition d8 : sched_state := (waitq_wait_begin d7 4096 50).2.
Definition d9 : sched_state := scheduler_exit_mark d7.
Definition d10 : sched_state := after d9 (timer_interrupt d9 600).

Ltac compute_decide :=
  match goal with
  | |- ?P => apply (bool_decide_eq_true_1 P); vm_compute; reflexivity
  end.

Lemma rtc_created s0 s o :
  rtc kstep s0 s → (∀ t s', o = Some (t, s') → kstep s s') → rtc kstep s0 (created s o).
Proof.
  intros H Hs. destruct o as [[t s']|] eqn:E; [|done]. apply (rtc_r _ s); [done|by eapply Hs].
Qed.

Lemma rtc_after s0 s o :
  rtc kstep s0 s → (∀ f s', o = Done (f, s') → kstep s s') → rtc kstep s0 (after s o).
Proof.
  intros H Hs. destruct o as [[f s']|] eqn:E; [|done]. apply (rtc_r _ s); [done|by eapply Hs].
Qed.

Lemma reach_d3 : rtc kstep d0 d3.
Proof.
  apply rtc_created; [apply rtc_created; [apply rtc_once|]|].
  - apply k_task_create; compute_decide.
  - intros t s'. apply k_thread_create. unfold room_for_thread, exists_thread. split_and!; compute_decide.
  - intros t s'. apply k_thread_create. unfold room_for_thread, exists_thread. split_and!; compute_decide.
Qed.

Lemma reach_d5 : rtc kstep d0 d5.
Proof.
  apply (rtc_r _ d4); [apply (rtc_r _ d3); [apply reach_d3|]|]; apply k_add_thread;
    unfold exists_thread; compute_decide.
Qed.

Lemma reach_d7 : rtc kstep d0 d7.
Proof.
  apply rtc_after; [apply (rtc_r _ d5); [apply reach_d5|apply k_tune, tune_run]|].
  intros f s'. apply k_timer; compute_decide.
Qed.

Lemma alive_d7 : alive d7.
Proof. unfold alive. split; compute_decide. Qed.

Lemma reach_d8 : rtc kstep d0 d8.
Proof.
  apply (rtc_r _ d7); [apply reach_d7|]. apply k_wait_begin; [apply alive_d7|..]; unfold exists_wq; compute_decide.
Qed.

Lemma reach_d10 : rtc kstep d0 d10.
Proof.
  apply rtc_after; [apply (rtc_r _ d7); [apply reach_d7|apply k_exit]|].
  - compute_decide.
  - compute_decide.
  - compute_decide.
  - left. compute_decide.
  - intros f s'. apply k_timer; compute_decide.
Qed.

Lemma inv_of s : rtc kstep d0 s → kernel_inv s.
Proof. apply reachable_inv, scheduler_init_inv. Qed.

(** ** The theorems at these states *)
Lemma scheduler_invariant_witness :
  rtc kstep (scheduler_init boot_state 4096) d7 ∧ kernel_inv d7.
Proof. split; [apply reach_d7|]. apply (scheduler_invariant 4096 d7), reach_d7. Defined.

Lemma scheduler_switch_from_irq_witness :
  thread_state (thr d9 1000) = THREAD_STATE_DEAD ∧ current_thread d9 = 1000
  ∧ (∃ s', scheduler_switch_from_irq d9 600 = Done (stack_pointer (thr d9 2000), s'))
  ∧ switch_outcome d9 600 (scheduler_switch_from_irq d9 600).
Proof.
  split_and!; [compute_decide..| |].
  - eexists. vm_compute. reflexivity.
  - apply (scheduler_switch_from_irq_correct d9 600); [|done|compute_decide].
    apply (kstep_inv d7); [apply inv_of, reach_d7|]. apply k_exit; [compute_decide..|]. left. compute_decide.
Defined.

Lemma ready_dequeue_witness :
  (ready_dequeue d5).1 = 1000 ∧
  (∃ q rest, selects d5 q ∧ rq d5 q = 1000 :: rest).
Proof.
  assert ((ready_dequeue d5).1 = 1000) as E by compute_decide. split; [done|].
  pose proof (ready_dequeue_correct d5 (ki_store _ (inv_of _ reach_d5)) (ki_rq _ (inv_of _ reach_d5))) as H.
  destruct (ready_dequeue d5) as [t s']. cbn in E. subst t.
  destruct H as [(q & rest & A & B & _)|(? & _)]; [by exists q, rest|done].
Defined.

(** 503 rounds of one tick each, in which nothing becomes ready. *)
Lemma queued_thread_dispatched_witness :
  rq d5 2 !! 0%nat = Some 1000 ∧ 1000 ∈ dispatched d5 (replicate 503 (mk_round [] 1)).
Proof.
  split; [compute_decide|].
  apply (queued_thread_dispatched d5 (replicate 503 (mk_round [] 1)) 2 0%nat 1000).
  - pose proof (inv_of _ reach_d5) as K. split; [apply K..|].
    intros b Hb. assert (b = 0 ∨ b = 1 ∨ b = 2 ∨ b = 3) as [-> |[-> |[-> | ->]]] by lia; compute_decide.
  - split; [|compute_decide]. apply Forall_replicate. split; [|cbn; lia].
    intros t Ht. by destruct (not_elem_of_nil _ Ht).
  - lia.
  - compute_decide.
  - compute_decide.
Defined.

Lemma waitq_tick_witness :
  expired d8 60 1000 ∧ timed_out (waitq_tick d8 60) 1000.
Proof.
  assert (expired d8 60 1000) as E by compute_decide. split; [done|].
  destruct (waitq_tick_correct d8 60 (inv_of _ reach_d8)) as [_ H]. specialize (H 1000).
  by rewrite decide_True in H.
Defined.

Lemma waitq_wake_all_witness :
  wq_threads (wq d8 4096) = [1000] ∧
  ∃ s', waitq_wake_all 2 d8 4096 = Some (1, s') ∧ wq_threads (wq s' 4096) = [].
Proof.
  assert (wq_threads (wq d8 4096) = [1000]) as E by compute_decide. split; [done|].
  destruct (waitq_wake_all_correct 2 d8 4096 (inv_of _ reach_d8)) as (s' & H1 & _ & H2 & _);
    [done|rewrite E; cbn; lia|]. rewrite E in H1.
  exists s'. split; [exact H1|exact H2].
Defined.


Lemma reap_ring_refines_witness :
  reap_list d10 = [1000] ∧
  match scheduler_reap_enqueue d10 2000 with
  | Done s' => reap_list s' = [1000; 2000]
  | Panic => False
  end.
Proof.
  assert (reap_list d10 = [1000]) as E by compute_decide. split; [done|].
  destruct (reap_ring_refines d10 2000 (inv_of _ reach_d10)) as (_ & _ & H);
    [unfold exists_thread; compute_decide|compute_decide|compute_decide|].
  rewrite E in H. change (fifo_push [1000] 2000) with (Some [1000; 2000]) in H.
  destruct (scheduler_reap_enqueue d10 2000); [by injection H|done].
Defined.

Lemma scheduler_reap_dead_threads_witness :
  reap_list d10 = [1000] ∧
  ∃ s', scheduler_reap_dead_threads 1 d10 = Some s' ∧ kernel_inv s'.
Proof.
  assert (reap_list d10 = [1000]) as E by compute_decide. split; [done|].
  destruct (scheduler_reap_dead_threads_correct 1 d10 (inv_of _ reach_d10)) as (s' & gone & A & B & _);
    [by rewrite E|]. exists s'. split; [exact A|exact B].
Defined.

(** ** Limits of the interface *)

(** Why the rule [k_exit] asks for the state RUNNING: if the running thread is
    woken between its entry in a wait queue and its block (no caller of the
    present sources does this) it is on the ready queue while it runs.  When it
    then exits it is handed to the reaper and is still queued, and two
    interrupts later the dead thread runs again. *)
Definition woken : sched_state := (waitq_wake_one d8 4096).2.
Definition exited_queued : sched_state :=
  let s := scheduler_exit_mark woken in after s (timer_interrupt s 700).
Definition run_after_death : sched_state :=
  let s := after exited_queued (timer_interrupt exited_queued 800) in
  after s (timer_interrupt s 900).

Theorem dead_thread_runs_again :
  current_thread d8 = 1000 ∧ thread_state (thr d8 1000) = THREAD_STATE_RUNNING
  ∧ thread_state (thr (scheduler_exit_mark woken) 1000) = THREAD_STATE_DEAD
  ∧ reap_list exited_queued = [1000] ∧ 1000 ∈ ready_list exited_queued
  ∧ current_thread run_after_death = 1000
  ∧ thread_state (thr run_after_death 1000) = THREAD_STATE_RUNNING
  ∧ reap_list run_after_death = [1000].
Proof. split_and!; compute_decide. Qed.

Definition donors : sched_state :=
  scheduler_set_priority (created d3 (new_thread (scheduler_set_priority d3 2000 200) 3000 3145728)) 3000 250.

(** Two donations to a thread and one return: the thread no longer runs with
    the donation that is still outstanding. *)
Theorem nested_donation_lost :
  let s := scheduler_inherit_priority donors 1000 2000 in
  let s' := scheduler_clear_inherit (scheduler_inherit_priority s 1000 3000) 1000 in
  thread_effective_priority s 1000 = 200
  ∧ inherit_depth (thr s' 1000) = 1 ∧ inherited_priority (thr s' 1000) = 200
  ∧ thread_effective_priority s' 1000 = 128.
Proof. vm_compute. done. Qed.

(** A thread of the interactive bucket is never chosen after the policy changes
    to round robin. *)
Theorem set_policy_strands :
  let s := (scheduler_add_thread (scheduler_set_bucket d3 1000 SCHED_BUCKET_INTERACTIVE) 1000).2 in
  let s' := (scheduler_set_policy s SCHED_POLICY_RR).2 in
  ready_list s' = [1000] ∧ (ready_dequeue s').1 = 0.
Proof. vm_compute. done. Qed.

End SchedDemo.
