(* ===== verification/Ipc.v ===== *)
(** * Messages and ports (kernel/common/ipc.c, kernel/common/idl_runtime.c)

    Ports, the port table, message queues and port sets.  A port and a port
    set embed their wait queue; the queue of the object at address [p] is at
    the offset of the field [waiters].  A message queue is the linked list of
    nodes that the code keeps, with its head and tail pointers.  The payload
    of a message is the list of its bytes, [None] for the pointer NULL; [push]
    copies it, so a message that is queued no longer depends on the sender.

    The results of [kmalloc] are arguments (0 or [false] when memory is
    short).  The locks exclude concurrent calls and have no other effect. *)

From stdpp Require Import base gmap list numbers fin_maps.
From S2P Require Import Prelude Sched Waitq Task.

Module Ipc.
Import Sched Waitq Task.

Definition IPC_MAX_PORTS : Z := 1024.
Definition IPC_MSG_MAX_SIZE : Z := 4096.
Definition IPC_MAX_PORTS_PER_MSG : Z := 8.
Definition RDNX_ABI_VERSION : Z := 1.
Definition PORT_RIGHT_SEND : Z := 1.
Definition PORT_RIGHT_RECEIVE : Z := 2.
Definition PORT_TYPE_NORMAL : Z := 0.
Definition PORT_TYPE_NOTIFICATION : Z := 1.
Definition PORT_TYPE_CONTROL : Z := 2.

(** [sizeof (ipc_message_t)]. *)
Definition MESSAGE_SIZE : Z := 104.

Record rdnx_abi_header_t := mk_hdr { abi_version : Z; hdr_size : Z }.

Record ipc_message_t := mk_message {
  hdr : rdnx_abi_header_t;
  msg_id : Z;
  msg_size : Z;
  port_count : Z;
  msg_ports : list Z;
  data : option (list Z);
  reply_port : Z
}.

Record ipc_msg_node_t := mk_node { node_msg : ipc_message_t; node_next : Z }.
Record ipc_queue_t := mk_queue { q_head : Z; q_tail : Z; q_count : Z }.

Record port_t := mk_port {
  port_id : Z;
  port_type : Z;
  rights : Z;
  owner : Z;
  owner_thread : Z;
  port_refs : Z;
  port_queue : Z;
  active : bool
}.

Record port_set_t := mk_port_set {
  set_id : Z;
  set_owner : Z;
  set_ports : list Z;
  set_capacity : Z
}.

(** [port_table] maps an index to an address, 0 for NULL; [all_port_sets] is
    the list linked by [next_all]. *)
Record ipc_state := mk_ipc {
  ports : gmap Z port_t;
  queues : gmap Z ipc_queue_t;
  nodes : gmap Z ipc_msg_node_t;
  port_sets : gmap Z port_set_t;
  port_table : gmap Z Z;
  ipc_initialized : bool;
  next_port_id : Z;
  next_set_id : Z;
  bootstrap_port : Z;
  all_port_sets : list Z;
  sched : sched_state
}.

#[export] Instance message_eta : EtaRecord ipc_message_t :=
  λ m, mk_message (hdr m) (msg_id m) (msg_size m) (port_count m) (msg_ports m) (data m) (reply_port m).
#[export] Instance node_eta : EtaRecord ipc_msg_node_t := λ n, mk_node (node_msg n) (node_next n).
#[export] Instance queue_eta : EtaRecord ipc_queue_t := λ q, mk_queue (q_head q) (q_tail q) (q_count q).
#[export] Instance port_eta : EtaRecord port_t :=
  λ p, mk_port (port_id p) (port_type p) (rights p) (owner p) (owner_thread p) (port_refs p)
         (port_queue p) (active p).
#[export] Instance port_set_eta : EtaRecord port_set_t :=
  λ x, mk_port_set (set_id x) (set_owner x) (set_ports x) (set_capacity x).
#[export] Instance ipc_eta : EtaRecord ipc_state :=
  λ s, mk_ipc (ports s) (queues s) (nodes s) (port_sets s) (port_table s) (ipc_initialized s)
         (next_port_id s) (next_set_id s) (bootstrap_port s) (all_port_sets s) (sched s).

#[export] Instance port_inhabited : Inhabited port_t := populate (mk_port 0 0 0 0 0 0 0 false).
#[export] Instance queue_inhabited : Inhabited ipc_queue_t := populate (mk_queue 0 0 0).
#[export] Instance port_set_inhabited : Inhabited port_set_t := populate (mk_port_set 0 0 [] 0).
#[export] Instance message_inhabited : Inhabited ipc_message_t :=
  populate (mk_message (mk_hdr 0 0) 0 0 0 (replicate 8 0) None 0).
#[export] Instance node_inhabited : Inhabited ipc_msg_node_t := populate (mk_node inhabitant 0).

Definition port (s : ipc_state) (p : Z) : port_t := ports s !!! p.
Definition queue (s : ipc_state) (q : Z) : ipc_queue_t := queues s !!! q.
Definition port_set (s : ipc_state) (x : Z) : port_set_t := port_sets s !!! x.
Definition port_upd (p : Z) (f : port_t → port_t) (s : ipc_state) : ipc_state :=
  s <| ports ::= alter f p |>.
Definition queue_upd (q : Z) (f : ipc_queue_t → ipc_queue_t) (s : ipc_state) : ipc_state :=
  s <| queues ::= alter f q |>.
Definition set_upd (x : Z) (f : port_set_t → port_set_t) (s : ipc_state) : ipc_state :=
  s <| port_sets ::= alter f x |>.

(** The embedded wait queues. *)
Definition port_waiters (p : Z) : Z := p + 40.
Definition set_waiters (x : Z) : Z := x + 32.

(** ** Message queues *)

(** What [kmalloc] returned for a node, and whether it had a block for the
    payload. *)
Record msg_blocks := mk_msg_blocks { mb_node : Z; mb_data : bool }.

Definition ipc_queue_create (s : ipc_state) (addr : Z) : ipc_state :=
  if addr =? 0 then s else s <| queues ::= <[addr := mk_queue 0 0 0]> |>.

Fixpoint destroy_nodes (fuel : nat) (s : ipc_state) (node : Z) : option ipc_state :=
  if node =? 0 then Some s
  else
    match fuel with
    | O => None
    | S fuel =>
        let next := node_next (nodes s !!! node) in
        destroy_nodes fuel (s <| nodes ::= delete node |>) next
    end.

Definition ipc_queue_destroy (fuel : nat) (s : ipc_state) (q : Z) : option ipc_state :=
  if q =? 0 then Some s
  else
    match destroy_nodes fuel s (q_head (queue s q)) with
    | None => None
    | Some s => Some (s <| queues ::= delete q |>)
    end.

(** The copy of a message in its node. *)
Definition stored_message (m : ipc_message_t) : ipc_message_t :=
  {| hdr := hdr m; msg_id := msg_id m; msg_size := msg_size m; port_count := port_count m;
     msg_ports := resize 8 0 (take (Z.to_nat (port_count m)) (msg_ports m));
     data := if 0 <? msg_size m then Some (resize (Z.to_nat (msg_size m)) 0 (default [] (data m)))
             else None;
     reply_port := reply_port m |}.

Definition link_node (s : ipc_state) (q node : Z) : ipc_state :=
  let s :=
    if q_tail (queue s q) =? 0
    then queue_upd q (λ x, x <| q_head := node |> <| q_tail := node |>) s
    else queue_upd q (λ x, x <| q_tail := node |>)
           (s <| nodes ::= alter (λ n, n <| node_next := node |>) (q_tail (queue s q)) |>) in
  queue_upd q (λ x, x <| q_count ::= λ n, n +₃₂ 1 |>) s.

Definition ipc_queue_push (s : ipc_state) (q : Z) (m : ipc_message_t) (b : msg_blocks)
    : outcome (Z * ipc_state) :=
  if q =? 0 then Done (RDNX_E_INVALID, s)
  else if negb (abi_version (hdr m) =? RDNX_ABI_VERSION) || (hdr_size (hdr m) <? MESSAGE_SIZE)
  then Done (RDNX_E_INVALID, s)
  else if (IPC_MSG_MAX_SIZE <? msg_size m) || (IPC_MAX_PORTS_PER_MSG <? port_count m) then Panic
  else if (0 <? msg_size m) && bool_decide (data m = None) then Done (RDNX_E_INVALID, s)
  else if mb_node b =? 0 then Done (RDNX_E_NOMEM, s)
  else if (0 <? msg_size m) && negb (mb_data b) then Done (RDNX_E_NOMEM, s)
  else
    let s := s <| nodes ::= <[mb_node b := mk_node (stored_message m) 0]> |> in
    Done (0, link_node s q (mb_node b)).

Definition ipc_queue_pop (s : ipc_state) (q : Z) : Z * option ipc_message_t * ipc_state :=
  if q =? 0 then (RDNX_E_INVALID, None, s)
  else
    let node := q_head (queue s q) in
    if node =? 0 then (RDNX_E_NOTFOUND, None, s)
    else
      let n := nodes s !!! node in
      let s := queue_upd q (λ x,
        let x := x <| q_head := node_next n |> in
        let x := if q_head x =? 0 then x <| q_tail := 0 |> else x in
        if 0 <? q_count x then x <| q_count ::= λ k, k -₃₂ 1 |> else x) s in
      (0, Some (node_msg n), s <| nodes ::= delete node |>).

(** ** Ports *)
Definition port_table_index (id : Z) : Z :=
  if (id =? 0) || (IPC_MAX_PORTS <? id) then -1 else id - 1.

Definition port_set_contains_port (s : ipc_state) (x p : Z) : bool :=
  if (x =? 0) || (p =? 0) then false else bool_decide (p ∈ set_ports (port_set s x)).

Definition wake_set (s : ipc_state) (x : Z) : ipc_state :=
  s <| sched ::= λ k, (waitq_wake_one k (set_waiters x)).2 |>.

Definition ipc_wake_port_sets_for_port (s : ipc_state) (p : Z) : ipc_state :=
  if p =? 0 then s
  else foldl (λ s x, if port_set_contains_port s x p then wake_set s x else s) s (all_port_sets s).

(** What [kmalloc] returned for a port and its queue. *)
Record port_blocks := mk_port_blocks { pb_port : Z; pb_queue : Z }.

(** [port_allocate] after the initialisation.  When the queue cannot be
    allocated the identifier is lost and the wait queue initialised. *)
Definition allocate (s : ipc_state) (type : Z) (b : port_blocks) : Z * ipc_state :=
  if pb_port b =? 0 then (0, s)
  else if IPC_MAX_PORTS <? next_port_id s then (0, s)
  else
    let id := next_port_id s in
    let p := mk_port id type (Z.lor PORT_RIGHT_RECEIVE PORT_RIGHT_SEND) (current_task (sched s))
               (current_thread (sched s)) 1 (pb_queue b) true in
    let s := s <| next_port_id ::= λ n, n +₆₄ 1 |>
               <| sched ::= λ k, waitq_init k (port_waiters (pb_port b)) |> in
    let s := ipc_queue_create s (pb_queue b) in
    if pb_queue b =? 0 then (0, s)
    else
      let s := s <| ports ::= <[pb_port b := p]> |> in
      (pb_port b,
       if 0 <=? port_table_index id
       then s <| port_table ::= <[port_table_index id := pb_port b]> |> else s).

(** [b] is what [kmalloc] returned for the bootstrap port. *)
Definition ipc_init (s : ipc_state) (b : port_blocks) : ipc_state :=
  if ipc_initialized s then s
  else
    let s := s <| next_port_id := 1 |> <| next_set_id := 1 |> <| port_table := ∅ |>
               <| ipc_initialized := true |> in
    let '(p, s) := allocate s PORT_TYPE_CONTROL b in
    s <| bootstrap_port := p |>.

Definition port_allocate (s : ipc_state) (type : Z) (boot b : port_blocks) : Z * ipc_state :=
  allocate (ipc_init s boot) type b.

Definition port_lookup (s : ipc_state) (id : Z) : Z :=
  let idx := port_table_index id in if idx <? 0 then 0 else port_table s !!! idx.

Definition port_deallocate (fuel : nat) (s : ipc_state) (p : Z) : option ipc_state :=
  if p =? 0 then Some s
  else if port_refs (port s p) =? 0 then Some s
  else
    let s := port_upd p (λ x, x <| port_refs ::= λ n, n -₃₂ 1 |>) s in
    if negb (port_refs (port s p) =? 0) then Some s
    else
      let s := port_upd p (λ x, x <| active := false |>) s in
      let idx := port_table_index (port_id (port s p)) in
      let s := if (0 <=? idx) && (port_table s !!! idx =? p)
               then s <| port_table ::= <[idx := 0]> |> else s in
      match waitq_wake_all fuel (sched s) (port_waiters p) with
      | None => None
      | Some (_, k) =>
          match ipc_queue_destroy fuel (s <| sched := k |>) (port_queue (port s p)) with
          | None => None
          | Some s => Some (s <| ports ::= delete p |>)
          end
      end.

Definition port_insert_send_right (s : ipc_state) (task p : Z) : Z * ipc_state :=
  if (task =? 0) || (p =? 0) then (-1, s)
  else (0, port_upd p (λ x, x <| rights ::= λ r, Z.lor r PORT_RIGHT_SEND |>
                              <| port_refs ::= λ n, n +₃₂ 1 |>) s).

Definition port_insert_receive_right (s : ipc_state) (task p : Z) : Z * ipc_state :=
  if (task =? 0) || (p =? 0) then (-1, s)
  else (0, port_upd p (λ x, x <| owner := task |> <| rights ::= λ r, Z.lor r PORT_RIGHT_RECEIVE |>
                              <| port_refs ::= λ n, n +₃₂ 1 |>) s).

(** ** Sending *)
Definition retain (p : Z) : ipc_state → ipc_state :=
  port_upd p (λ x, x <| port_refs ::= λ n, n +₃₂ 1 |>).
Definition release (s : ipc_state) (id : Z) : ipc_state :=
  let q := port_lookup s id in
  if q =? 0 then s else port_upd q (λ x, x <| port_refs ::= λ n, n -₃₂ 1 |>) s.

(** The loop over the ports of a message: [done] are the ones already
    retained; [false] when one is not a live port. *)
Fixpoint retain_ports (s : ipc_state) (todo done : list Z) : bool * list Z * ipc_state :=
  match todo with
  | [] => (true, done, s)
  | id :: todo =>
      let p := port_lookup s id in
      if (p =? 0) || negb (active (port s p)) then (false, done, s)
      else retain_ports (retain p s) todo (done ++ [id])
  end.

(** The message of the caller gets a fresh header. *)
Definition with_header (m : ipc_message_t) : ipc_message_t :=
  m <| hdr := mk_hdr RDNX_ABI_VERSION MESSAGE_SIZE |>.

Definition attached (m : ipc_message_t) : list Z := take (Z.to_nat (port_count m)) (msg_ports m).

Definition ipc_send (s : ipc_state) (p : Z) (m : ipc_message_t) (b : msg_blocks)
    : outcome (Z * ipc_state) :=
  if p =? 0 then Done (RDNX_E_INVALID, s)
  else
    let m := with_header m in
    if negb (active (port s p)) then Done (RDNX_E_NOTFOUND, s)
    else if Z.land (rights (port s p)) PORT_RIGHT_SEND =? 0 then Done (RDNX_E_DENIED, s)
    else if IPC_MSG_MAX_SIZE <? msg_size m then Done (RDNX_E_INVALID, s)
    else if IPC_MAX_PORTS_PER_MSG <? port_count m then Done (RDNX_E_INVALID, s)
    else if port_queue (port s p) =? 0 then Done (RDNX_E_INVALID, s)
    else
      let '(ok, bumped, s) := retain_ports s (attached m) [] in
      if negb ok then Done (RDNX_E_INVALID, foldl release s bumped)
      else
        let! (qrc, s) := ipc_queue_push s (port_queue (port s p)) m b in
        if negb (qrc =? 0) then Done (RDNX_E_BUSY, foldl release s bumped)
        else
          let s := s <| sched ::= λ k, (waitq_wake_one k (port_waiters p)).2 |> in
          Done (RDNX_OK, ipc_wake_port_sets_for_port s p).

(** ** Receiving *)
Definition ipc_get_deadline_ticks (s : ipc_state) (timeout_ms : Z) : Z :=
  if timeout_ms =? 0 then 0
  else
    let ticks := (timeout_ms +₆₄ (SCHEDULER_TIME_SLICE_MS - 1)) / SCHEDULER_TIME_SLICE_MS in
    let ticks := if ticks =? 0 then 1 else ticks in
    sched_ticks (sched s) +₆₄ ticks.

Definition donate (s : ipc_state) (p donor : Z) : ipc_state :=
  if negb (owner_thread (port s p) =? 0) && negb (donor =? 0)
  then s <| sched ::= λ k, scheduler_inherit_priority k (owner_thread (port s p)) donor |> else s.
Definition give_back (s : ipc_state) (p : Z) : ipc_state :=
  if negb (owner_thread (port s p) =? 0)
  then s <| sched ::= λ k, scheduler_clear_inherit k (owner_thread (port s p)) |> else s.
Definition leave (s : ipc_state) (p receiver : Z) : ipc_state :=
  if negb (receiver =? 0) && waitq_contains (sched s) (port_waiters p) receiver
  then s <| sched ::= λ k, (waitq_remove k (port_waiters p) receiver).2 |> else s.

(** A receive returns a code and perhaps a message, or it calls
    [waitq_wait_until] with the deadline. *)
Inductive received :=
| Returns (ret : Z) (m : option ipc_message_t)
| Waits (deadline : Z).

(** The loop body up to [waitq_wait_until]. *)
Definition receive_try (s : ipc_state) (p receiver deadline : Z) : received * ipc_state :=
  let '(r, m, s) := ipc_queue_pop s (port_queue (port s p)) in
  if r =? 0 then (Returns RDNX_OK m, give_back (leave s p receiver) p)
  else if receiver =? 0 then (Returns RDNX_E_INVALID None, give_back s p)
  else (Waits deadline, s).

Definition ipc_receive (s : ipc_state) (p timeout : Z) : received * ipc_state :=
  if p =? 0 then (Returns RDNX_E_INVALID None, s)
  else if negb (active (port s p)) then (Returns RDNX_E_NOTFOUND None, s)
  else if negb (owner (port s p) =? 0) && negb (current_task (sched s) =? owner (port s p))
  then (Returns RDNX_E_DENIED None, s)
  else
    let receiver := current_thread (sched s) in
    let s := donate s p receiver in
    let deadline := ipc_get_deadline_ticks s timeout in
    if port_queue (port s p) =? 0 then (Returns RDNX_E_INVALID None, give_back s p)
    else receive_try s p receiver deadline.

(** The loop body after [waitq_wait_until] returned [wret]. *)
Definition receive_resume (s : ipc_state) (p receiver deadline wret : Z) : received * ipc_state :=
  if wret =? RDNX_E_TIMEOUT then (Returns RDNX_E_TIMEOUT None, give_back s p)
  else if negb (wret =? RDNX_OK) then (Returns wret None, give_back (leave s p receiver) p)
  else receive_try s p receiver deadline.

Definition ipc_message_free (m : ipc_message_t) : ipc_message_t :=
  m <| data := None |> <| msg_size := 0 |> <| port_count := 0 |>.

(** [ipc_send_receive] up to the reply. *)
Definition ipc_send_receive (s : ipc_state) (p : Z) (m : ipc_message_t) (b : msg_blocks)
    (timeout : Z) : outcome (received * ipc_state) :=
  if p =? 0 then Done (Returns RDNX_E_INVALID None, s)
  else if reply_port m =? 0 then Done (Returns RDNX_E_INVALID None, s)
  else
    let s := donate s p (current_thread (sched s)) in
    let! (ret, s) := ipc_send s p (with_header m) b in
    if negb (ret =? 0) then Done (Returns ret None, give_back s p)
    else
      let '(r, s) := ipc_receive s (reply_port m) timeout in
      Done (match r with
            | Returns _ _ => (r, give_back s p)
            | Waits _ => (r, s)
            end).

(** ** Port sets *)
Definition port_set_create (s : ipc_state) (addr : Z) (boot : port_blocks) : Z * ipc_state :=
  let s := ipc_init s boot in
  if addr =? 0 then (0, s)
  else
    (addr,
     s <| port_sets ::= <[addr := mk_port_set (next_set_id s) (current_task (sched s)) [] 0]> |>
       <| next_set_id ::= λ n, n +₆₄ 1 |>
       <| sched ::= λ k, waitq_init k (set_waiters addr) |>
       <| all_port_sets ::= cons addr |>).

Definition port_set_destroy (fuel : nat) (s : ipc_state) (x : Z) : option ipc_state :=
  if x =? 0 then Some s
  else
    match waitq_wake_all fuel (sched s) (set_waiters x) with
    | None => None
    | Some (_, k) =>
        Some (s <| sched := k |> <| all_port_sets ::= tailq_remove x |> <| port_sets ::= delete x |>)
    end.

(** [grown] tells whether [krealloc] had a block when the array is full. *)
Definition port_set_add (s : ipc_state) (x p : Z) (grown : bool) : Z * ipc_state :=
  if (x =? 0) || (p =? 0) then (-1, s)
  else if bool_decide (p ∈ set_ports (port_set s x)) then (0, s)
  else if Z.of_nat (length (set_ports (port_set s x))) =? set_capacity (port_set s x) then
    let cap := if set_capacity (port_set s x) =? 0 then 4 else set_capacity (port_set s x) *₃₂ 2 in
    if negb grown then (-1, s)
    else (0, set_upd x (λ y, y <| set_capacity := cap |> <| set_ports ::= λ l, l ++ [p] |>) s)
  else (0, set_upd x (λ y, y <| set_ports ::= λ l, l ++ [p] |>) s).

Definition port_set_remove (s : ipc_state) (x p : Z) : Z * ipc_state :=
  if (x =? 0) || (p =? 0) then (-1, s)
  else if bool_decide (p ∈ set_ports (port_set s x))
  then (0, set_upd x (λ y, y <| set_ports ::= tailq_remove p |>) s)
  else (-1, s).

(** One pass over the ports of a set. *)
Fixpoint set_try (s : ipc_state) (l : list Z) : option ipc_message_t * ipc_state :=
  match l with
  | [] => (None, s)
  | p :: l =>
      if (p =? 0) || negb (active (port s p)) || (port_queue (port s p) =? 0) then set_try s l
      else
        let s := donate s p (current_thread (sched s)) in
        let '(r, m, s) := ipc_queue_pop s (port_queue (port s p)) in
        let s := give_back s p in
        if r =? 0 then (m, s) else set_try s l
  end.

(** [port_set_receive] up to [waitq_wait_until]. *)
Definition port_set_receive (s : ipc_state) (x timeout : Z) : received * ipc_state :=
  if x =? 0 then (Returns (-1) None, s)
  else
    let deadline := ipc_get_deadline_ticks s timeout in
    let '(m, s) := set_try s (set_ports (port_set s x)) in
    match m with
    | Some _ => (Returns 0 m, s)
    | None =>
        if negb (deadline =? 0) && (deadline <=? sched_ticks (sched s))
        then (Returns (-1) None, s) else (Waits deadline, s)
    end.

(** ** The runtime of the interface compiler (idl_runtime.c) *)

(** [idl_ipc_call] up to the reply. *)
Definition idl_ipc_call (s : ipc_state) (p id : Z) (req : option (list Z)) (req_size reply_size timeout : Z)
    (boot pb : port_blocks) (b : msg_blocks) : outcome (received * Z * ipc_state) :=
  if p =? 0 then Done (Returns (-1) None, 0, s)
  else if (IPC_MSG_MAX_SIZE <? req_size) || (IPC_MSG_MAX_SIZE <? reply_size)
  then Done (Returns (-1) None, 0, s)
  else
    let '(reply, s) := port_allocate s PORT_TYPE_CONTROL boot pb in
    if reply =? 0 then Done (Returns (-1) None, 0, s)
    else
      let m := mk_message (mk_hdr 0 0) id req_size 0 (replicate 8 0) req reply in
      let! (r, s) := ipc_send_receive s p m b timeout in
      Done (r, reply, s).

(** The rest of it, when [ipc_send_receive] returned [ret] and [m]: the code and
    the bytes copied to the caller. *)
Definition idl_ipc_finish (fuel : nat) (s : ipc_state) (reply ret : Z) (m : ipc_message_t)
    (wants : bool) (reply_size : Z) : option (Z * option (list Z) * ipc_state) :=
  match port_deallocate fuel s reply with
  | None => None
  | Some s =>
      if ret =? 0 then
        if wants && (0 <? reply_size) then
          if msg_size m <? reply_size then Some (-1, None, s)
          else Some (0, Some (resize (Z.to_nat reply_size) 0 (default [] (data m))), s)
        else Some (0, None, s)
      else Some (ret, None, s)
  end.

Definition idl_ipc_reply (s : ipc_state) (reply id : Z) (d : option (list Z)) (size : Z) (b : msg_blocks)
    : outcome (Z * ipc_state) :=
  if reply =? 0 then Done (-1, s)
  else if IPC_MSG_MAX_SIZE <? size then Done (-1, s)
  else ipc_send s reply (mk_message (mk_hdr 0 0) id size 0 (replicate 8 0) d 0) b.

End Ipc.
