(* ===== verification/IpcInv.v ===== *)
(** * Message queues as lists

    The linked queue of messages represents the list of its messages; [push]
    appends and [pop] removes the first. *)

From stdpp Require Import base gmap list numbers fin_maps.
From S2P Require Import Prelude Sched Waitq Task Ipc SchedKernel SchedSteps.

Module IpcFacts.
Import Ipc.

Notation store := (gmap Z ipc_msg_node_t).
Notation cells := (list (Z * ipc_message_t)).

(** The nodes [l] lead from the address [a] to the address [b]. *)
Fixpoint seg (N : store) (a : Z) (l : cells) (b : Z) : Prop :=
  match l with
  | [] => a = b
  | (n, m) :: l => a = n ∧ n ≠ 0 ∧ ∃ next, N !! n = Some (mk_node m next) ∧ seg N next l b
  end.

Lemma linked_app N a l1 l2 c : seg N a (l1 ++ l2) c ↔ ∃ b, seg N a l1 b ∧ seg N b l2 c.
Proof.
  revert a. induction l1 as [|[n m] l1 IH]; intros a; cbn.
  - split; [intros H; by exists a|by intros (b & -> & H)].
  - setoid_rewrite IH. naive_solver.
Qed.

Lemma linked_ext N N' a l b : (∀ n, n ∈ l.*1 → N' !! n = N !! n) → seg N a l b → seg N' a l b.
Proof.
  revert a. induction l as [|[n m] l IH]; intros a HN; cbn; [done|].
  intros (-> & H0 & next & Hn & Hl). split_and!; try done. exists next. rewrite HN by (cbn; by left).
  split; [done|]. apply IH; [intros k Hk; apply HN; cbn; by right|done].
Qed.

Lemma linked_dom N a l b n : seg N a l b → n ∈ l.*1 → is_Some (N !! n) ∧ n ≠ 0.
Proof.
  revert a. induction l as [|[k m] l IH]; intros a; cbn; [by intros _ ?%not_elem_of_nil|].
  intros (-> & H0 & next & Hn & Hl) [->|H]%elem_of_cons; [split; [by eexists|done]|by apply (IH next)].
Qed.

Record queue_rep (N : store) (Q : ipc_queue_t) (l : cells) : Prop := {
  qr_seg : seg N (q_head Q) l 0;
  qr_tail : q_tail Q = default 0 (last l.*1);
  qr_count : q_count Q = Z.of_nat (length l);
  qr_nodup : NoDup l.*1;
  qr_small : Z.of_nat (length l) < 2 ^ 32
}.

Lemma queue_rep_ext N N' Q l :
  (∀ n, n ∈ l.*1 → N' !! n = N !! n) → queue_rep N Q l → queue_rep N' Q l.
Proof. intros HN [A B C D E]. split; try done. by apply (linked_ext N). Qed.

Lemma queue_rep_nil N Q l : queue_rep N Q l → (q_head Q = 0 ↔ l = []).
Proof.
  intros [A _ _ _ _]. destruct l as [|[n m] l]; cbn in A; [done|].
  destruct A as (-> & H0 & _). naive_solver.
Qed.

Lemma queue_rep_tail N Q l : queue_rep N Q l → (q_tail Q = 0 ↔ l = []).
Proof.
  intros [A B _ _ _]. destruct (decide (l = [])) as [->|Hl]; [done|]. split; [|done]. rewrite B.
  destruct (last l.*1) as [t|] eqn:E.
  - intros Ht. cbn in Ht. subst t. apply last_Some_elem_of in E. by destruct (linked_dom _ _ _ _ _ A E).
  - apply last_None in E. by apply fmap_nil_inv in E.
Qed.

(** Following the pointers gives the messages of the list. *)
Fixpoint walk (fuel : nat) (N : store) (a : Z) : list ipc_message_t :=
  match fuel with
  | O => []
  | S fuel => match N !! a with
              | Some n => node_msg n :: walk fuel N (node_next n)
              | None => []
              end
  end.

Lemma walk_seg fuel N a l :
  N !! 0 = None → seg N a l 0 → (length l ≤ fuel)%nat → walk fuel N a = l.*2.
Proof.
  intros H0. revert a fuel. induction l as [|[n m] l IH]; intros a fuel; cbn.
  - intros -> _. destruct fuel; cbn; [done|by rewrite H0].
  - intros (-> & _ & next & Hn & Hl) Hf. destruct fuel as [|fuel]; [lia|]. cbn. rewrite Hn. cbn.
    f_equal. apply IH; [done|lia].
Qed.

Lemma cells_fit N a l b : seg N a l b → NoDup l.*1 → (length l ≤ size N)%nat.
Proof.
  intros Hs Hn. rewrite <- (length_fmap fst), <- (size_list_to_set (C := gset Z)) by done.
  rewrite <- size_dom. apply subseteq_size. intros n Hin%elem_of_list_to_set.
  apply elem_of_dom. by apply (linked_dom _ _ _ _ _ Hs).
Qed.

Lemma walk_rep N Q l : N !! 0 = None → queue_rep N Q l → walk (size N) N (q_head Q) = l.*2.
Proof. intros H0 [A B C D E]. apply walk_seg; [done..|]. by apply (cells_fit _ _ _ _ A). Qed.

(** ** Push and pop *)
Lemma push_rep N Q l node m :
  queue_rep N Q l → node ≠ 0 → N !! node = None → Z.of_nat (length l) + 1 < 2 ^ 32 →
  let N1 := <[node := mk_node m 0]> N in
  queue_rep (if q_tail Q =? 0 then N1 else alter (λ n, n <| node_next := node |>) (q_tail Q) N1)
    (mk_queue (if q_tail Q =? 0 then node else q_head Q) node (q_count Q +₃₂ 1)) (l ++ [(node, m)]).
Proof.
  intros R H0 Hn Hlim N1. change (2 ^ 32) with 4294967296 in Hlim.
  pose proof R as [A B C D E]. pose proof (queue_rep_tail _ _ _ R) as Ht.
  assert (node ∉ l.*1) as Hnin.
  { intros Hin. destruct (linked_dom _ _ _ _ _ A Hin) as [[? X] _]. congruence. }
  split; cbn [q_head q_tail q_count].
  - destruct (q_tail Q =? 0) eqn:Et; bool_hyps.
    + rewrite (proj1 Ht Et). cbn. split_and!; try done. exists 0. split; [by apply lookup_insert_eq|done].
    + destruct l as [|[t mt] l0 _] using rev_ind; [by destruct Et; apply Ht|].
      rewrite fmap_app in B. change ([(t, mt)].*1) with [t] in B. rewrite last_snoc in B. cbn in B. rewrite B in *.
      apply linked_app in A as (b & A1 & A2). destruct A2 as (-> & Ht0 & next & Hnt & ->).
      rewrite fmap_app in D, Hnin. apply NoDup_app in D as (_ & D2 & _).
      apply not_elem_of_app in Hnin as [Hnin1 Hnin2]. cbn in Hnin2. apply not_elem_of_cons in Hnin2 as [Hne _].
      rewrite <- app_assoc. apply linked_app. exists t. split.
      * apply (linked_ext N); [|done]. intros n Hin.
        assert (n ≠ t) as Hnt' by (intros ->; apply (D2 t Hin); cbn; by left).
        rewrite lookup_alter_ne by done. apply lookup_insert_ne. by intros ->.
      * cbn. split_and!; try done. exists node. unfold N1.
        rewrite lookup_alter_eq, lookup_insert_ne, Hnt by done. split; [done|]. split_and!; try done.
        exists 0. rewrite lookup_alter_ne, lookup_insert_eq by done. done.
  - rewrite fmap_app. change ([(node, m)].*1) with [node]. by rewrite last_snoc.
  - rewrite length_app, C. cbn. rewrite u32_small; lia.
  - rewrite fmap_app. apply NoDup_app. split_and!; [done| |apply NoDup_singleton].
    intros n Hin ->%list_elem_of_singleton. done.
  - rewrite length_app. cbn. change (2 ^ 32) with 4294967296. lia.
Qed.

Lemma pop_rep N Q n m l :
  queue_rep N Q ((n, m) :: l) →
  q_head Q = n ∧ n ≠ 0 ∧ ∃ next, N !! n = Some (mk_node m next)
    ∧ queue_rep (delete n N)
        (mk_queue next (if next =? 0 then 0 else q_tail Q) (if 0 <? q_count Q then q_count Q -₃₂ 1 else q_count Q)) l.
Proof.
  intros [(-> & H0 & next & Hn & Hs) B C D E]. change (2 ^ 32) with 4294967296 in E. cbn in B, C, D, E.
  apply NoDup_cons in D as [D1 D2]. split_and!; try done. exists next. split; [done|].
  assert (∀ k, k ∈ l.*1 → delete n N !! k = N !! k) as Hd.
  { intros k Hk. apply lookup_delete_ne. by intros ->. }
  split; cbn [q_head q_tail q_count].
  - by apply (linked_ext N).
  - destruct l as [|[k mk] l]; cbn in *; [by subst next|]. destruct Hs as (-> & Hk0 & _).
    by rewrite (proj2 (Z.eqb_neq k 0)).
  - rewrite C. rewrite (proj2 (Z.ltb_lt _ _)) by lia. rewrite u32_small; lia.
  - done.
  - change (2 ^ 32) with 4294967296. lia.
Qed.

End IpcFacts.

(** * The invariant of the message system

    The port table, the ports and their queues agree in every state; a queue
    holds the messages sent to its port and not yet received. *)
Module IpcInv.
Import Sched SchedKernel Ipc IpcFacts.

(** The messages of the queue at [q]. *)
Definition messages (s : ipc_state) (q : Z) : list ipc_message_t :=
  walk (size (nodes s)) (nodes s) (q_head (queue s q)).

Definition exists_queue (s : ipc_state) (q : Z) : Prop := is_Some (queues s !! q).

(** Every queue is a list, and no node is in two of them. *)
Record cells_ok (s : ipc_state) (C : Z → cells) : Prop := {
  co_rep : ∀ q Q, queues s !! q = Some Q → queue_rep (nodes s) Q (C q);
  co_disjoint : ∀ q1 q2 n, exists_queue s q1 → exists_queue s q2 →
    n ∈ (C q1).*1 → n ∈ (C q2).*1 → q1 = q2
}.

Definition port_ok (s : ipc_state) (p : Z) (x : port_t) : Prop :=
  active x = true ∧ 0 < port_refs x < 2 ^ 32 ∧ 1 ≤ port_id x < next_port_id s
  ∧ port_table s !!! (port_id x - 1) = p ∧ port_queue x ≠ 0 ∧ exists_queue s (port_queue x).

Record ipc_inv (s : ipc_state) : Prop := {
  ii_sched : kernel_inv (sched s);
  ii_null : nodes s !! 0 = None ∧ ports s !! 0 = None;
  ii_cells : ∃ C, cells_ok s C;
  ii_port : ∀ p x, ports s !! p = Some x → port_ok s p x;
  ii_table : ∀ i, port_table s !!! i ≠ 0 →
    ∃ x, ports s !! (port_table s !!! i) = Some x ∧ port_id x = i + 1;
  ii_queues : ∀ p1 p2 x1 x2, ports s !! p1 = Some x1 → ports s !! p2 = Some x2 →
    port_queue x1 = port_queue x2 → p1 = p2;
  ii_next : 1 ≤ next_port_id s ≤ 1025
}.

Lemma queue_lookup s q Q : queues s !! q = Some Q → queue s q = Q.
Proof. intros E. unfold queue. by rewrite lookup_total_alt, E. Qed.

Lemma messages_cells s C q :
  nodes s !! 0 = None → cells_ok s C → exists_queue s q → messages s q = (C q).*2.
Proof.
  intros H0 [A _] [Q E]. unfold messages. rewrite (queue_lookup _ _ _ E). by apply walk_rep, A.
Qed.

(** ** Steps that leave the ports alone *)

(** Everything but queues and nodes is the same. *)
Record ports_frame (s s' : ipc_state) : Prop := {
  pf_ports : ports s' = ports s;
  pf_sets : port_sets s' = port_sets s;
  pf_table : port_table s' = port_table s;
  pf_init : ipc_initialized s' = ipc_initialized s;
  pf_next : next_port_id s' = next_port_id s ∧ next_set_id s' = next_set_id s;
  pf_boot : bootstrap_port s' = bootstrap_port s;
  pf_all : all_port_sets s' = all_port_sets s;
  pf_sched : sched s' = sched s
}.

#[export] Instance ports_frame_preorder : PreOrder ports_frame.
Proof.
  split; [by split|].
  intros s1 s2 s3 [A1 A2 A3 A4 [A5 A5'] A6 A7 A8] [B1 B2 B3 B4 [B5 B5'] B6 B7 B8]. split; try split; congruence.
Qed.

Lemma port_ok_frame s s' p x :
  ports_frame s s' → (∀ q, exists_queue s q → exists_queue s' q) → port_ok s p x → port_ok s' p x.
Proof.
  intros F Hq (A & B & C & D & E & G). unfold port_ok.
  rewrite (pf_table _ _ F), (proj1 (pf_next _ _ F)). do 4 (split; [done|]). split; [done|by apply Hq].
Qed.

Lemma ipc_inv_frame s s' :
  ports_frame s s' → (∀ q, exists_queue s q → exists_queue s' q) → nodes s' !! 0 = None →
  (∃ C, cells_ok s' C) → ipc_inv s → ipc_inv s'.
Proof.
  intros F Hq Hn Hc [A [B1 B2] C D E G H].
  split; rewrite ?(pf_sched _ _ F), ?(pf_ports _ _ F), ?(pf_table _ _ F), ?(proj1 (pf_next _ _ F)); try done.
  intros p x Hp. apply (port_ok_frame s); try done. by apply D.
Qed.

(** A step of the scheduler. *)
Lemma ipc_inv_sched s k : kernel_inv k → ipc_inv s → ipc_inv (s <| sched := k |>).
Proof. intros K [A B C D E G H]. split; try done. destruct C as [C [C1 C2]]. exists C. by split. Qed.

(** ** Push *)
Lemma link_node_eq s q node Q :
  queues s !! q = Some Q →
  let s' := link_node s q node in
  nodes s' = (if q_tail Q =? 0 then nodes s
              else alter (λ n, n <| node_next := node |>) (q_tail Q) (nodes s))
  ∧ queues s' = <[q := mk_queue (if q_tail Q =? 0 then node else q_head Q) node (q_count Q +₃₂ 1)]> (queues s)
  ∧ ports_frame s s'.
Proof.
  intros E. unfold link_node. cbv zeta. rewrite (queue_lookup _ _ _ E).
  destruct (q_tail Q =? 0); (split_and!; [done| |by split]); unfold queue_upd, field_update; cbn;
    apply map_eq; intros k; (destruct (decide (k = q)) as [->|N];
      [by rewrite !lookup_alter_eq, lookup_insert_eq, E|by rewrite !lookup_alter_ne, lookup_insert_ne by done]).
Qed.

Definition extend (C : Z → cells) (q : Z) (l : cells) : Z → cells :=
  λ k, if decide (k = q) then l else C k.

Lemma extend_same C q l : extend C q l q = l.
Proof. unfold extend. by rewrite decide_True. Qed.
Lemma extend_other C q l k : k ≠ q → extend C q l k = C k.
Proof. intros. unfold extend. by rewrite decide_False. Qed.

Lemma push_cells s C q Q node m :
  cells_ok s C → queues s !! q = Some Q → node ≠ 0 → nodes s !! node = None →
  Z.of_nat (length (C q)) + 1 < 2 ^ 32 →
  cells_ok (link_node (s <| nodes ::= <[node := mk_node m 0]> |>) q node) (extend C q (C q ++ [(node, m)])).
Proof.
  intros [HC HD] E H0 Hn Hlim. set (s1 := s <| nodes ::= _ |>).
  destruct (link_node_eq s1 q node Q E) as (En & Eq & F). pose proof (HC q Q E) as R.
  assert (∀ k, exists_queue (link_node s1 q node) k → exists_queue s k) as Hex.
  { intros k [x Hx]. rewrite Eq in Hx. destruct (decide (k = q)) as [->|]; [by eexists|].
    rewrite lookup_insert_ne in Hx by done. by exists x. }
  assert (∀ k n, exists_queue s k → n ∈ (C k).*1 → n ≠ node) as Hnew.
  { intros k n [K HK] Hin ->. destruct (linked_dom _ _ _ _ _ (qr_seg _ _ _ (HC k K HK)) Hin) as [[? X] _].
    congruence. }
  split.
  - intros k K. rewrite Eq, En. destruct (decide (k = q)) as [->|Nk].
    + rewrite lookup_insert_eq, extend_same. intros [= <-]. by apply push_rep.
    + rewrite lookup_insert_ne, extend_other by done. intros HK.
      apply (queue_rep_ext (nodes s)); [|by apply HC]. intros n Hin.
      assert (n ≠ node) as Hnn by (apply (Hnew k); [by eexists|done]).
      assert (nodes s1 !! n = nodes s !! n) as E1 by (by apply lookup_insert_ne).
      case_if; [done|]. rewrite lookup_alter_ne; [done|]. intros <-.
      assert (q_tail Q ∈ (C q).*1) as Ht.
      { rewrite (qr_tail _ _ _ R) in *. destruct (last (C q).*1) eqn:El; [|by bool_hyps].
        by apply last_Some_elem_of. }
      destruct Nk. by eapply (HD k q); [eexists|eexists|..].
  - intros q1 q2 n H1%Hex H2%Hex I1 I2. unfold extend in I1, I2.
    assert (∀ k, n ∈ (if decide (k = q) then C q ++ [(node, m)] else C k).*1 →
                 n ∈ (C k).*1 ∨ (n = node ∧ k = q)) as Hsplit.
    { intros k. destruct (decide (k = q)) as [->|Dk]; [|by left]. rewrite fmap_app, elem_of_app. cbn.
      intros [?|?%list_elem_of_singleton]; [by left|by right]. }
    destruct (Hsplit _ I1) as [J1|[-> ->]]; destruct (Hsplit _ I2) as [J2|[J2 ->]]; try done.
    + by apply (HD q1 q2 n).
    + subst n. by destruct (Hnew q1 node).
    + by destruct (Hnew q2 node).
Qed.

(** ** Pop *)
Lemma pop_nil s q Q C :
  cells_ok s C → queues s !! q = Some Q → q ≠ 0 → C q = [] →
  ipc_queue_pop s q = (RDNX_E_NOTFOUND, None, s).
Proof.
  intros [HC _] E Hq Hl. unfold ipc_queue_pop. rewrite (proj2 (Z.eqb_neq q 0)) by done.
  rewrite (queue_lookup _ _ _ E). by rewrite (proj2 (queue_rep_nil _ _ _ (HC q Q E)) Hl).
Qed.

Lemma pop_cons s q Q C n m l :
  cells_ok s C → queues s !! q = Some Q → q ≠ 0 → C q = (n, m) :: l →
  ∃ s', ipc_queue_pop s q = (0, Some m, s') ∧ cells_ok s' (extend C q l) ∧ ports_frame s s'
    ∧ (∀ k, exists_queue s' k ↔ exists_queue s k) ∧ nodes s' = delete n (nodes s).
Proof.
  intros [HC HD] E Hq Hl. pose proof (HC q Q E) as R. rewrite Hl in R.
  apply pop_rep in R as (Eh & H0 & next & Hn & R). unfold ipc_queue_pop.
  rewrite (proj2 (Z.eqb_neq q 0)), (queue_lookup _ _ _ E), Eh by done. rewrite (proj2 (Z.eqb_neq n 0)) by done.
  rewrite (lookup_total_alt (nodes s) n), Hn. cbn [default node_msg node_next]. eexists. split; [done|].
  set (s' := field_update nodes _ _).
  assert (queues s' = <[q := mk_queue next (if next =? 0 then 0 else q_tail Q)
                               (if 0 <? q_count Q then q_count Q -₃₂ 1 else q_count Q)]> (queues s)) as Eq.
  { unfold s', queue_upd, field_update. cbn. apply map_eq. intros k.
    destruct (decide (k = q)) as [->|Nk]; [|by rewrite lookup_alter_ne, lookup_insert_ne].
    rewrite lookup_alter_eq, lookup_insert_eq, E. cbn. by destruct (next =? 0); cbn; destruct (0 <? q_count Q). }
  assert (∀ k, exists_queue s' k ↔ exists_queue s k) as Hex.
  { intros k. unfold exists_queue. rewrite Eq. destruct (decide (k = q)) as [->|Nk].
    - rewrite lookup_insert_eq, E. split; by eexists.
    - by rewrite lookup_insert_ne. }
  split_and!; [|by split|done|done]. split.
  - intros k K. rewrite Eq. destruct (decide (k = q)) as [->|Nk].
    + rewrite lookup_insert_eq, extend_same. by intros [= <-].
    + rewrite lookup_insert_ne, extend_other by done. intros HK.
      apply (queue_rep_ext (nodes s)); [|by apply HC]. intros j Hj. apply lookup_delete_ne. intros ->.
      destruct Nk. apply (HD k q j); [by eexists|by eexists|done|]. rewrite Hl. cbn. by left.
  - intros q1 q2 j H1%Hex H2%Hex I1 I2. apply (HD q1 q2 j); try done.
    + unfold extend in I1. destruct (decide (q1 = q)) as [->|]; [rewrite Hl; cbn; by right|done].
    + unfold extend in I2. destruct (decide (q2 = q)) as [->|]; [rewrite Hl; cbn; by right|done].
Qed.

End IpcInv.
