(* ===== verification/IpcSend.v ===== *)
(** * Sending

    A message is accepted exactly when its port lets the caller send, its size
    is in range, the ports attached to it are alive and memory suffices; then
    it is at the end of the queue, the attached ports are retained and a
    waiting receiver is ready.  A refused message leaves no trace. *)

From stdpp Require Import base gmap list numbers fin_maps.
From stdpp Require Import base gmap list numbers fin_maps relations.
From S2P Require Import Prelude Sched Waitq Task SchedInv SchedWait SchedKernel Ipc IpcInv SchedSteps.

Module IpcSend.
Import Sched Waitq SchedFacts SchedInv SchedWait SchedKernel Ipc IpcFacts IpcInv.

(** ** Waking *)
Lemma wake_one_inv k q : kernel_inv k → kernel_inv (waitq_wake_one k q).2.
Proof.
  intros K. destruct (decide (q = 0)) as [->|Hq]; [done|].
  pose proof (wake_one_result k q K Hq) as H. destruct (waitq_wake_one k q) as [t k'].
  destruct (wq_threads (wq k q)); [by destruct H as [_ ->]|by apply H].
Qed.

Lemma wake_one_ready k q t :
  kernel_inv k → run_fields (thr k t) = (true, THREAD_STATE_READY) →
  run_fields (thr (waitq_wake_one k q).2 t) = (true, THREAD_STATE_READY).
Proof.
  intros K Ht. destruct (decide (q = 0)) as [->|Hq]; [done|].
  pose proof (wake_one_result k q K Hq) as H. destruct (waitq_wake_one k q) as [u k'].
  destruct (wq_threads (wq k q)); [by destruct H as [_ ->]|]. destruct H as (_ & _ & W).
  destruct (run_set_state _ _ _ _ _ t (wo_run _ _ _ _ _ W)) as [E1 E2].
  injection Ht as H1 H2. unfold run_fields. cbn [snd]. rewrite E1, E2. case_decide; [done|by rewrite H1, H2].
Qed.

Definition wake_sets (s : ipc_state) (p : Z) (l : list Z) : ipc_state :=
  foldl (λ s x, if port_set_contains_port s x p then wake_set s x else s) s l.

Lemma wake_sets_spec s p l :
  ipc_inv s →
  let s' := wake_sets s p l in
  ipc_inv s' ∧ nodes s' = nodes s ∧ queues s' = queues s ∧ ports s' = ports s
  ∧ ∀ t, run_fields (thr (sched s) t) = (true, THREAD_STATE_READY) →
         run_fields (thr (sched s') t) = (true, THREAD_STATE_READY).
Proof.
  revert s. induction l as [|x l IH]; intros s K; cbn; [done|].
  destruct (port_set_contains_port s x p); [|by apply IH].
  assert (ipc_inv (wake_set s x)) as K1 by (apply ipc_inv_sched; [apply wake_one_inv, (ii_sched _ K)|done]).
  destruct (IH _ K1) as (A & B & C & D & E). split_and!; try done.
  intros t Ht. apply E. apply (wake_one_ready _ _ _ (ii_sched _ K) Ht).
Qed.

(** ** References of the attached ports *)
Definition live (s : ipc_state) (id : Z) : Prop :=
  port_lookup s id ≠ 0 ∧ active (port s (port_lookup s id)) = true.

#[export] Instance live_dec s id : Decision (live s id).
Proof. unfold live. apply _. Defined.

Definition retain_id (s : ipc_state) (id : Z) : ipc_state := retain (port_lookup s id) s.
Definition bump (s : ipc_state) (ids : list Z) : ipc_state := foldl retain_id s ids.

Lemma port_upd_keep {A} (g : port_t → A) f p q s :
  (∀ x, g (f x) = g x) → g (port (port_upd p f s) q) = g (port s q).
Proof.
  intros H. unfold port, port_upd, field_update. cbn. rewrite !lookup_total_alt.
  destruct (decide (p = q)) as [->|]; [rewrite lookup_alter_eq|by rewrite lookup_alter_ne].
  destruct (ports s !! q); cbn; [apply H|done].
Qed.

Lemma live_retain s p id : live (retain p s) id ↔ live s id.
Proof.
  unfold live. change (port_lookup (retain p s) id) with (port_lookup s id).
  unfold retain. by rewrite (port_upd_keep active).
Qed.

Lemma retain_ports_spec s todo l :
  ∃ pre ok, retain_ports s todo l = (ok, l ++ pre, bump s pre) ∧ Forall (live s) pre
    ∧ if ok then pre = todo else ¬ Forall (live s) todo.
Proof.
  revert s l. induction todo as [|id todo IH]; intros s l; cbn [retain_ports].
  { exists [], true. by rewrite app_nil_r. }
  cbv zeta. destruct ((port_lookup s id =? 0) || negb (active (port s (port_lookup s id)))) eqn:E.
  - exists [], false. rewrite app_nil_r. split_and!; [done|constructor|].
    intros [[H1 H2] _]%Forall_cons. rewrite H2, (proj2 (Z.eqb_neq _ _) H1) in E. done.
  - bool_hyps. destruct (IH (retain_id s id) (l ++ [id])) as (pre & ok & Er & Hl & Hok).
    assert (live s id) as Hid by (by split).
    assert (∀ l, Forall (live (retain_id s id)) l ↔ Forall (live s) l) as Hiff.
    { intros l0. apply Forall_iff. intros x. apply live_retain. }
    exists (id :: pre), ok. change (bump s (id :: pre)) with (bump (retain_id s id) pre).
    unfold retain_id at 1 in Er. rewrite Er, <- app_assoc. split_and!; [done|constructor; [done|by apply Hiff]|].
    destruct ok; [by subst pre|]. intros [_ Hall]%Forall_cons. by apply Hok, Hiff.
Qed.

(** Counts are in range. *)
Definition in_range (s : ipc_state) : Prop :=
  ∀ p x, ports s !! p = Some x → 0 ≤ port_refs x < 2 ^ 32.

Lemma retain_range s p : in_range s → in_range (retain p s).
Proof.
  intros H q x. unfold retain, port_upd, field_update. cbn. destruct (decide (p = q)) as [->|N].
  - rewrite lookup_alter_eq. intros (y & Hy & ->)%fmap_Some. cbn. apply Z.mod_pos_bound. done.
  - rewrite lookup_alter_ne by done. apply H.
Qed.

Lemma port_upd_comm p q f g s :
  (∀ x, f (g x) = g (f x)) → port_upd p f (port_upd q g s) = port_upd q g (port_upd p f s).
Proof.
  intros H. unfold port_upd, field_update. cbn. f_equal. apply map_eq. intros k.
  destruct (decide (p = k)) as [->|Np]; destruct (decide (q = k)) as [->|Nq];
    rewrite ?lookup_alter_eq, ?lookup_alter_ne, ?lookup_alter_eq, ?lookup_alter_ne by done; try done.
  destruct (ports s !! k); cbn; [by rewrite H|done].
Qed.

Lemma release_retain_comm s id id' : release (retain_id s id') id = retain_id (release s id) id'.
Proof.
  unfold release, retain_id, retain. change (port_lookup (port_upd ?p ?f s) id) with (port_lookup s id).
  cbv zeta. case_if; [done|]. change (port_lookup (port_upd ?p ?f s) id') with (port_lookup s id').
  apply port_upd_comm. intros x. unfold field_update. cbn. f_equal. unfold u32.
  rewrite Zminus_mod_idemp_l, Zplus_mod_idemp_l. f_equal. lia.
Qed.

Lemma release_bump_comm s id ids : release (bump s ids) id = bump (release s id) ids.
Proof.
  revert s. induction ids as [|id' ids IH]; intros s; [done|].
  change (bump s (id' :: ids)) with (bump (retain_id s id') ids). rewrite IH. by rewrite release_retain_comm.
Qed.

Lemma release_retain s id : in_range s → live s id → release (retain_id s id) id = s.
Proof.
  intros Hr [H0 _]. unfold release, retain_id, retain.
  change (port_lookup (port_upd ?p ?f s) id) with (port_lookup s id). cbv zeta.
  rewrite (proj2 (Z.eqb_neq _ 0)) by done. set (p := port_lookup s id).
  transitivity (s <| ports := ports s |>); [|by destruct s].
  unfold port_upd, field_update. cbn. f_equal. apply map_eq. intros k.
  destruct (decide (p = k)) as [<-|N]; [rewrite !lookup_alter_eq|by rewrite !lookup_alter_ne].
  destruct (ports s !! p) as [x|] eqn:Hx; [|done]. pose proof (Hr p x Hx) as Hb.
  destruct x as [a b c d e n g h]. cbn in *. do 2 f_equal.
  unfold u32. rewrite Zminus_mod_idemp_l. rewrite Z.mod_small; lia.
Qed.

(** Taking the references back restores the state. *)
Lemma release_bump s ids : in_range s → Forall (live s) ids → foldl release (bump s ids) ids = s.
Proof.
  revert s. induction ids as [|id ids IH]; intros s Hr Hl; [done|]. apply Forall_cons in Hl as [H1 H2].
  change (bump s (id :: ids)) with (bump (retain_id s id) ids). cbn [foldl].
  rewrite release_bump_comm, release_retain by done. by apply IH.
Qed.

(** The number of times the message names the port [p]. *)
Definition named (s : ipc_state) (ids : list Z) (p : Z) : Z :=
  Z.of_nat (length (filter (λ id, port_lookup s id = p) ids)).

Lemma bump_ports s ids p x :
  ports s !! p = Some x → 0 ≤ port_refs x → port_refs x + Z.of_nat (length ids) < 2 ^ 32 →
  ports (bump s ids) !! p = Some (x <| port_refs := port_refs x + named s ids p |>).
Proof.
  change (2 ^ 32) with 4294967296. revert s x. induction ids as [|id ids IH]; intros s x Hx H0 Hlim.
  { unfold named, field_update. cbn. rewrite Z.add_0_r, Hx. by destruct x. }
  change (bump s (id :: ids)) with (bump (retain_id s id) ids). cbn [length] in Hlim.
  assert (∀ q, named (retain_id s id) ids q = named s ids q) as Hn by done.
  unfold named at 1. rewrite filter_cons. destruct (decide (port_lookup s id = p)) as [E|N].
  - cbn [length]. erewrite (IH (retain_id s id) (x <| port_refs := port_refs x + 1 |>)).
    + rewrite Hn. unfold named, field_update. cbn. do 2 f_equal. lia.
    + unfold retain_id, retain, port_upd, field_update. cbn. rewrite E, lookup_alter_eq, Hx. cbn.
      by rewrite u32_small by lia.
    + cbn. lia.
    + cbn. lia.
  - fold (named s ids p). rewrite <- Hn. apply IH; [|done|lia].
    unfold retain_id, retain, port_upd, field_update. cbn. by rewrite lookup_alter_ne.
Qed.

Lemma bump_none s ids p : ports s !! p = None → ports (bump s ids) !! p = None.
Proof.
  revert s. induction ids as [|id ids IH]; intros s Hp; [done|]. apply (IH (retain_id s id)).
  unfold retain_id, retain, port_upd, field_update. cbn. destruct (decide (port_lookup s id = p)) as [->|].
  - by rewrite lookup_alter_eq, Hp.
  - by rewrite lookup_alter_ne.
Qed.

Lemma bump_rest s ids :
  queues (bump s ids) = queues s ∧ nodes (bump s ids) = nodes s ∧ port_table (bump s ids) = port_table s
  ∧ next_port_id (bump s ids) = next_port_id s ∧ sched (bump s ids) = sched s
  ∧ all_port_sets (bump s ids) = all_port_sets s ∧ port_sets (bump s ids) = port_sets s.
Proof. revert s. induction ids as [|id ids IH]; intros s; [done|]. apply (IH (retain_id s id)). Qed.

Definition few_refs (s : ipc_state) : Prop :=
  ∀ p x, ports s !! p = Some x → port_refs x + 8 < 2 ^ 32.

Lemma bump_port_inv s ids p x' :
  ipc_inv s → few_refs s → (length ids ≤ 8)%nat → ports (bump s ids) !! p = Some x' →
  ∃ x, ports s !! p = Some x ∧ x' = x <| port_refs := port_refs x + named s ids p |>
       ∧ 0 < port_refs x' < 2 ^ 32.
Proof.
  intros K Hf Hl Hx'. destruct (ports s !! p) as [x|] eqn:Hx.
  - destruct (ii_port _ K p x Hx) as (_ & [H0 _] & _). pose proof (Hf p x Hx) as Hlim.
    rewrite (bump_ports s ids p x) in Hx' by (done || lia). injection Hx' as <-.
    exists x. split_and!; try done; unfold field_update; cbn.
    + unfold named. lia.
    + pose proof (length_filter (λ id, port_lookup s id = p) ids). unfold named. lia.
  - by rewrite (bump_none s ids p) in Hx'.
Qed.

Lemma bump_inv s ids : ipc_inv s → few_refs s → (length ids ≤ 8)%nat → ipc_inv (bump s ids).
Proof.
  intros K Hf Hl. destruct (bump_rest s ids) as (E1 & E2 & E3 & E4 & E5 & E6 & E7).
  pose proof (λ p x', bump_port_inv s ids p x' K Hf Hl) as Hp.
  assert (∀ q, exists_queue (bump s ids) q ↔ exists_queue s q) as Hex by (intros q; unfold exists_queue; by rewrite E1).
  destruct K as [K1 [K2 K2'] [C [K3 K3']] K4 K5 K6 K7].
  split; rewrite ?E2, ?E3, ?E4, ?E5; try done.
  - split; [done|]. by apply bump_none.
  - exists C. split; rewrite ?E1, ?E2; [done|]. intros q1 q2 n ?%Hex ?%Hex. by apply K3'.
  - intros p x' Hx'. destruct (Hp p x' Hx') as (x & Hx & -> & Hr). destruct (K4 p x Hx) as (A & _ & B & D & E & G).
    unfold port_ok. rewrite E3, E4. do 4 (split; [done|]). split; [done|by apply Hex].
  - intros i Hi. destruct (K5 i Hi) as (x & Hx & Hid). destruct (K4 _ x Hx) as (_ & [H0 _] & _).
    pose proof (Hf _ x Hx). rewrite (bump_ports s ids _ x) by (done || lia). by eexists.
  - intros p1 p2 x1' x2' H1 H2. destruct (Hp _ _ H1) as (x1 & Hx1 & -> & _).
    destruct (Hp _ _ H2) as (x2 & Hx2 & -> & _). apply (K6 _ _ x1 x2 Hx1 Hx2).
Qed.

(** ** The theorem about sending *)
Definition storable (m : ipc_message_t) (b : msg_blocks) : Prop :=
  (0 < msg_size m → data m ≠ None ∧ mb_data b = true) ∧ mb_node b ≠ 0.

Definition accepts (s : ipc_state) (p : Z) (m : ipc_message_t) (b : msg_blocks) : Prop :=
  Z.land (rights (port s p)) PORT_RIGHT_SEND ≠ 0 ∧ msg_size m ≤ IPC_MSG_MAX_SIZE
  ∧ port_count m ≤ IPC_MAX_PORTS_PER_MSG ∧ Forall (live s) (attached m) ∧ storable m b.

Record sent (s s' : ipc_state) (p : Z) (m : ipc_message_t) : Prop := {
  se_inv : ipc_inv s';
  se_queue : messages s' (port_queue (port s p)) =
               messages s (port_queue (port s p)) ++ [stored_message (with_header m)];
  se_other : ∀ q, exists_queue s q → q ≠ port_queue (port s p) → messages s' q = messages s q;
  se_refs : ∀ q x, ports s !! q = Some x →
    ports s' !! q = Some (x <| port_refs := port_refs x + named s (attached m) q |>);
  se_woken : ∀ t rest, wq_threads (wq (sched s) (port_waiters p)) = t :: rest → port_waiters p ≠ 0 →
    run_fields (thr (sched s') t) = (true, THREAD_STATE_READY)
}.

(** A push that finds memory. *)
Lemma push_state s q m b :
  ipc_inv s → exists_queue s q → nodes s !! mb_node b = None → mb_node b ≠ 0 →
  Z.of_nat (length (messages s q)) + 1 < 2 ^ 32 →
  let s' := link_node (s <| nodes ::= <[mb_node b := mk_node (stored_message m) 0]> |>) q (mb_node b) in
  ipc_inv s' ∧ ports_frame s s' ∧ messages s' q = messages s q ++ [stored_message m]
  ∧ (∀ k, exists_queue s' k ↔ exists_queue s k)
  ∧ ∀ k, exists_queue s k → k ≠ q → messages s' k = messages s k.
Proof.
  intros K HeQ Hn H0 Hlim s'. destruct (ii_cells _ K) as [C HC]. pose proof (ii_null _ K) as [N0 _].
  rewrite (messages_cells s C q N0 HC HeQ), length_fmap in Hlim. pose proof HeQ as [Q HQ].
  pose proof (push_cells s C q Q (mb_node b) (stored_message m) HC HQ H0 Hn Hlim) as HC'. fold s' in HC'.
  set (s1 := s <| nodes ::= <[mb_node b := mk_node (stored_message m) 0]> |>) in *.
  destruct (link_node_eq s1 q (mb_node b) Q HQ) as (En & Eq & F). fold s' in En, Eq, F.
  assert (ports_frame s s') as F1 by (transitivity s1; [by split|done]).
  assert (∀ k, exists_queue s' k ↔ exists_queue s k) as Hex.
  { intros k. unfold exists_queue. rewrite Eq. destruct (decide (k = q)) as [->|].
    - rewrite lookup_insert_eq, HQ. split; by eexists.
    - by rewrite lookup_insert_ne. }
  assert (nodes s' !! 0 = None) as N0'.
  { rewrite En. assert (nodes s1 !! 0 = None) as N1 by (by apply lookup_insert_None).
    destruct (q_tail Q =? 0) eqn:Et; [done|]. bool_hyps. by rewrite lookup_alter_ne. }
  split_and!; try done.
  - apply (ipc_inv_frame s); try done; [intros k; apply Hex|by eexists].
  - rewrite (messages_cells s C q), (messages_cells s' _ q N0' HC') by (done || by apply Hex).
    by rewrite extend_same, fmap_app.
  - intros k Hk Nk. rewrite (messages_cells s C k), (messages_cells s' _ k N0' HC') by (done || by apply Hex).
    by rewrite extend_other.
Qed.

Lemma bump_messages s ids q : messages (bump s ids) q = messages s q.
Proof.
  destruct (bump_rest s ids) as (E1 & E2 & _). unfold messages, queue. by rewrite E1, E2.
Qed.

Lemma bump_queue s ids p : port_queue (port (bump s ids) p) = port_queue (port s p).
Proof.
  revert s. induction ids as [|id ids IH]; intros s; [done|]. etransitivity; [apply (IH (retain_id s id))|].
  unfold retain_id, retain. by apply (port_upd_keep port_queue).
Qed.

(** After the push: the wake-ups. *)
Lemma sent_result s s2 p m :
  ipc_inv s → (length (attached m) ≤ 8)%nat → few_refs s →
  let q := port_queue (port s p) in
  let s1 := bump s (attached m) in
  ipc_inv s2 → ports_frame s1 s2 →
  messages s2 q = messages s1 q ++ [stored_message (with_header m)] →
  (∀ k, exists_queue s1 k → k ≠ q → messages s2 k = messages s1 k) →
  sent s (ipc_wake_port_sets_for_port (s2 <| sched ::= λ k, (waitq_wake_one k (port_waiters p)).2 |>) p) p m.
Proof.
  intros K Hlen Hf q s1 K2 F Hq Ho. set (s3 := s2 <| sched ::= _ |>).
  assert (ipc_inv s3) as K3 by (apply ipc_inv_sched; [apply wake_one_inv, (ii_sched _ K2)|done]).
  assert (∃ l, ipc_wake_port_sets_for_port s3 p = wake_sets s3 p l) as [l El].
  { unfold ipc_wake_port_sets_for_port. case_if; [by exists []|by eexists]. }
  destruct (wake_sets_spec s3 p l K3) as (A & B & C & D & E). rewrite <- El in A, B, C, D, E.
  set (s' := ipc_wake_port_sets_for_port s3 p) in *.
  assert (∀ k, messages s' k = messages s2 k) as Em by (intros k; unfold messages, queue; by rewrite B, C).
  split; [done|..].
  - fold q. rewrite Em, Hq. f_equal. apply bump_messages.
  - intros k Hk Nk. rewrite Em, Ho; [apply bump_messages| |done].
    unfold exists_queue, s1. by rewrite (proj1 (bump_rest s _)).
  - intros k x Hx. rewrite D. change (ports s3) with (ports s2). rewrite (pf_ports _ _ F).
    destruct (ii_port _ K k x Hx) as (_ & [H0 _] & _). pose proof (Hf k x Hx). apply bump_ports; [done|lia|lia].
  - intros t rest Ht Hw. apply E. unfold s3, field_update. cbn [sched].
    assert (sched s2 = sched s) as Es
      by (rewrite (pf_sched _ _ F); by destruct (bump_rest s (attached m)) as (_ & _ & _ & _ & E5 & _)).
    rewrite Es.
    pose proof (wake_one_result (sched s) (port_waiters p) (ii_sched _ K) Hw) as Hr. rewrite Ht in Hr.
    destruct (waitq_wake_one (sched s) (port_waiters p)) as [u k']. destruct Hr as (_ & _ & W). cbn [snd].
    apply (wo_run _ _ _ _ _ W).
Qed.

Lemma push_result s q m b :
  q ≠ 0 → msg_size m ≤ IPC_MSG_MAX_SIZE → port_count m ≤ IPC_MAX_PORTS_PER_MSG →
  (storable m b ∧ ipc_queue_push s q (with_header m) b =
     Done (0, link_node (s <| nodes ::= <[mb_node b := mk_node (stored_message (with_header m)) 0]> |>) q (mb_node b)))
  ∨ (¬ storable m b ∧ ∃ e, e ≠ 0 ∧ ipc_queue_push s q (with_header m) b = Done (e, s)).
Proof.
  intros Hq Hs Hp. unfold ipc_queue_push, storable. rewrite (proj2 (Z.eqb_neq q 0)) by done.
  change (msg_size (with_header m)) with (msg_size m). change (port_count (with_header m)) with (port_count m).
  change (data (with_header m)) with (data m).
  change (negb (abi_version (hdr (with_header m)) =? RDNX_ABI_VERSION)
          || (hdr_size (hdr (with_header m)) <? MESSAGE_SIZE)) with false. cbv iota.
  rewrite (proj2 (Z.ltb_ge _ (msg_size m))), (proj2 (Z.ltb_ge _ (port_count m))) by done. cbn [orb].
  destruct (mb_node b =? 0) eqn:En; bool_hyps;
    [right; split; [tauto|]; case_if; by (eexists; split; [|reflexivity])|].
  destruct (0 <? msg_size m) eqn:Es; bool_hyps; cbn [andb]; [|left; split; [split; [lia|done]|done]].
  case_bool_decide as Hd; [right; split; [naive_solver|by (eexists; split; [|reflexivity])]|].
  destruct (mb_data b); [by left|right; split; [naive_solver|by (eexists; split; [|reflexivity])]].
Qed.

Lemma attached_length m : port_count m ≤ IPC_MAX_PORTS_PER_MSG → (length (attached m) ≤ 8)%nat.
Proof. unfold attached, IPC_MAX_PORTS_PER_MSG. rewrite length_take. lia. Qed.

Lemma send_result s p m b :
  ipc_inv s → is_Some (ports s !! p) → nodes s !! mb_node b = None → few_refs s →
  Z.of_nat (length (messages s (port_queue (port s p)))) + 1 < 2 ^ 32 →
  match ipc_send s p m b with
  | Done (r, s') => (accepts s p m b ∧ r = RDNX_OK ∧ sent s s' p m) ∨ (¬ accepts s p m b ∧ r ≠ RDNX_OK ∧ s' = s)
  | Panic => False
  end.
Proof.
  intros K [x Hx] Hn Hf Hlim. destruct (ii_port _ K p x Hx) as (Ha & _ & _ & _ & Hq0 & Hqe).
  assert (port s p = x) as Ep by (unfold port; by rewrite lookup_total_alt, Hx).
  assert (p ≠ 0) as Hp0 by (intros ->; rewrite (proj2 (ii_null _ K)) in Hx; done).
  assert (in_range s) as Hr by (intros k y Hy; destruct (ii_port _ K k y Hy) as (_ & [? ?] & _); lia).
  unfold ipc_send, accepts. rewrite (proj2 (Z.eqb_neq p 0)), Ep in * by done. cbv zeta. rewrite Ha. cbn [negb].
  case_if; bool_hyps; [right; by split_and!; [intros (? & _)|..]|].
  change (msg_size (with_header m)) with (msg_size m). change (port_count (with_header m)) with (port_count m).
  change (attached (with_header m)) with (attached m).
  case_if; bool_hyps; [right; split_and!; [intros (_ & ? & _); lia|done..]|].
  case_if; bool_hyps; [right; split_and!; [intros (_ & _ & ? & _); lia|done..]|].
  rewrite (proj2 (Z.eqb_neq (port_queue x) 0)) by done.
  destruct (retain_ports_spec s (attached m) []) as (pre & ok & -> & Hl & Hok). cbn [app].
  destruct ok; cbn [negb]; [subst pre|right; rewrite release_bump by done; split_and!; [tauto|done..]].
  pose proof (attached_length m ltac:(unfold IPC_MAX_PORTS_PER_MSG in *; lia)) as Hlen.
  pose proof (bump_queue s (attached m) p) as Eq. rewrite Ep in Eq. rewrite Eq.
  destruct (push_result (bump s (attached m)) (port_queue x) m b Hq0) as [[Hs ->]|(Hs & e & He & ->)];
    [done..| |]; cbn [outcome_bind].
  - change (negb (0 =? 0)) with false. cbv iota. left. split; [by split_and!|]. split; [done|].
    destruct (bump_rest s (attached m)) as (E1 & E2 & _).
    destruct (push_state (bump s (attached m)) (port_queue x) (with_header m) b) as (K2 & F & A & _ & B);
      [by apply bump_inv|unfold exists_queue; by rewrite E1|by rewrite E2|apply Hs|by rewrite bump_messages|].
    apply sent_result; rewrite ?Ep; try done.
  - rewrite (proj2 (Z.eqb_neq e 0)) by done. cbn [negb]. rewrite release_bump by done.
    right. split_and!; [tauto|done..].
Qed.

(** C13. [ipc_send] accepts a message exactly when it may be sent; then the message
    is at the end of the queue of the port, every attached port has one more
    reference for each time it is named, and the first waiting receiver is
    ready.  Otherwise the state is unchanged: the references taken for the
    ports seen before the error are given back. *)
Theorem ipc_send_correct s p m b :
  ipc_inv s → is_Some (ports s !! p) → nodes s !! mb_node b = None → few_refs s →
  Z.of_nat (length (messages s (port_queue (port s p)))) + 1 < 2 ^ 32 →
  match ipc_send s p m b with
  | Done (r, s') => (accepts s p m b ∧ r = RDNX_OK ∧ sent s s' p m) ∨ (¬ accepts s p m b ∧ r ≠ RDNX_OK ∧ s' = s)
  | Panic => False
  end.
Proof. apply send_result. Qed.

End IpcSend.

(** * Receiving, and the life of a port

    A receive takes the first message of the queue or leaves the caller to
    wait; a port is created with the next identifier and disappears with its
    queue when its last reference goes.  Every operation keeps [ipc_inv]. *)
Module IpcRecv.
Import Sched Waitq SchedFacts SchedInv SchedWait SchedKernel SchedSteps Ipc IpcFacts IpcInv IpcSend.

(** ** Steps of the scheduler only *)
Definition sched_only (s s' : ipc_state) : Prop :=
  ∃ k, s' = s <| sched := k |> ∧ (kernel_inv (sched s) → kernel_inv k).

#[export] Instance sched_only_preorder : PreOrder sched_only.
Proof.
  split; [intros s; exists (sched s); split; [by destruct s|done]|].
  intros s1 s2 s3 (k1 & -> & H1) (k2 & -> & H2). exists k2. split; [done|]. intros K. apply H2. by apply H1.
Qed.

Lemma sched_only_upd s f :
  (kernel_inv (sched s) → kernel_inv (f (sched s))) → sched_only s (s <| sched ::= f |>).
Proof. intros H. by exists (f (sched s)). Qed.

Lemma donate_step s p d : sched_only s (donate s p d).
Proof.
  unfold donate. case_if; [|reflexivity]. apply sched_only_upd. intros K. by eapply tune_inv, tune_inherit.
Qed.
Lemma give_back_step s p : sched_only s (give_back s p).
Proof.
  unfold give_back. case_if; [|reflexivity]. apply sched_only_upd. intros K. by eapply tune_inv, tune_clear.
Qed.
Lemma leave_step s p t : sched_only s (leave s p t).
Proof. unfold leave. case_if; [|reflexivity]. apply sched_only_upd. apply waitq_remove_inv. Qed.

Lemma sched_only_inv s s' : sched_only s s' → ipc_inv s → ipc_inv s'.
Proof. intros (k & -> & H) K. apply ipc_inv_sched; [apply H, (ii_sched _ K)|done]. Qed.

Lemma sched_only_same s s' :
  sched_only s s' → ports s' = ports s ∧ (∀ q, messages s' q = messages s q)
    ∧ (∀ q, exists_queue s' q ↔ exists_queue s q).
Proof. intros (k & -> & _). done. Qed.

#[export] Hint Resolve donate_step give_back_step leave_step : frames.

(** ** Receiving *)
Lemma pop_result s q :
  ipc_inv s → q ≠ 0 → exists_queue s q →
  let '(r, m, s') := ipc_queue_pop s q in
  ipc_inv s' ∧ ports_frame s s'
  ∧ match messages s q with
    | [] => r = RDNX_E_NOTFOUND ∧ m = None ∧ s' = s
    | h :: rest => r = 0 ∧ m = Some h ∧ messages s' q = rest
    end
  ∧ (∀ k, exists_queue s' k ↔ exists_queue s k)
  ∧ ∀ k, exists_queue s k → k ≠ q → messages s' k = messages s k.
Proof.
  intros K Hq HeQ. destruct (ii_cells _ K) as [C HC]. destruct (ii_null _ K) as [N0 _]. pose proof HeQ as [Q HQ].
  rewrite (messages_cells s C q N0 HC HeQ). destruct (C q) as [|[n m] l] eqn:Ec; cbn [fmap list_fmap snd].
  { rewrite (pop_nil s q Q C) by done. done. }
  destruct (pop_cons s q Q C n m l HC HQ Hq Ec) as (s' & -> & HC' & F & Hex & En).
  assert (nodes s' !! 0 = None) as N0' by (rewrite En; by apply lookup_delete_None; right).
  split_and!; try done.
  - apply (ipc_inv_frame s); try done; [intros k; apply Hex|by eexists].
  - rewrite (messages_cells s' _ q N0' HC') by (by apply Hex). by rewrite extend_same.
  - intros k Hk Nk. rewrite (messages_cells s C k), (messages_cells s' _ k N0' HC') by (done || by apply Hex).
    by rewrite extend_other.
Qed.

(** The message taken, and the state after it. *)
Record took (s s' : ipc_state) (q : Z) (rest : list ipc_message_t) : Prop := {
  tk_inv' : ipc_inv s';
  tk_queue : messages s' q = rest;
  tk_other : ∀ k, exists_queue s k → k ≠ q → messages s' k = messages s k;
  tk_ports : ports s' = ports s
}.

Lemma receive_try_result s p x receiver d :
  ipc_inv s → ports s !! p = Some x → receiver ≠ 0 →
  let q := port_queue x in
  let '(r, s') := receive_try s p receiver d in
  match messages s q with
  | [] => r = Waits d ∧ s' = s
  | m :: rest => r = Returns RDNX_OK (Some m) ∧ took s s' q rest
  end.
Proof.
  intros K Hx Hr q. destruct (ii_port _ K p x Hx) as (_ & _ & _ & _ & Hq0 & Hqe). unfold receive_try.
  assert (port s p = x) as -> by (unfold port; by rewrite lookup_total_alt, Hx). fold q.
  pose proof (pop_result s q K Hq0 Hqe) as H. destruct (ipc_queue_pop s q) as [[r m] s1].
  destruct H as (K1 & F & Hm & Hex & Ho). destruct (messages s q) as [|h rest] eqn:Em.
  - destruct Hm as (-> & -> & ->). cbn. by rewrite (proj2 (Z.eqb_neq receiver 0)).
  - destruct Hm as (-> & -> & Hrest). cbn. split; [done|].
    assert (sched_only s1 (give_back (leave s1 p receiver) p)) as S
      by (transitivity (leave s1 p receiver); auto with frames).
    destruct (sched_only_same _ _ S) as (E1 & E2 & E3).
    split; [by apply (sched_only_inv s1)|by rewrite E2| |by rewrite E1, (pf_ports _ _ F)].
    intros k Hk Nk. rewrite E2. by apply Ho.
Qed.

Lemma receive_result s p x timeout :
  ipc_inv s → ports s !! p = Some x → current_thread (sched s) ≠ 0 →
  let q := port_queue x in
  let '(r, s') := ipc_receive s p timeout in
  if decide (owner x = 0 ∨ current_task (sched s) = owner x) then
    match messages s q with
    | [] => r = Waits (ipc_get_deadline_ticks (donate s p (current_thread (sched s))) timeout)
            ∧ sched_only s s' ∧ ipc_inv s'
    | m :: rest => r = Returns RDNX_OK (Some m) ∧ took s s' q rest
    end
  else r = Returns RDNX_E_DENIED None ∧ s' = s.
Proof.
  intros K Hx Hc q. destruct (ii_port _ K p x Hx) as (Ha & _ & _ & _ & Hq0 & Hqe).
  assert (p ≠ 0) as Hp0 by (intros ->; rewrite (proj2 (ii_null _ K)) in Hx; done).
  assert (port s p = x) as Ep by (unfold port; by rewrite lookup_total_alt, Hx).
  unfold ipc_receive. rewrite (proj2 (Z.eqb_neq p 0)), Ep, Ha by done. cbn [negb].
  destruct (decide (owner x = 0 ∨ current_task (sched s) = owner x)) as [Ho|Ho].
  2:{ rewrite (proj2 (Z.eqb_neq (owner x) 0)), (proj2 (Z.eqb_neq (current_task (sched s)) _)) by tauto. done. }
  assert (negb (owner x =? 0) && negb (current_task (sched s) =? owner x) = false) as ->.
  { destruct Ho as [-> | ->]; [done|]. by rewrite Z.eqb_refl, andb_false_r. }
  cbv zeta. set (s1 := donate s p (current_thread (sched s))).
  assert (sched_only s s1) as S by apply donate_step. destruct (sched_only_same _ _ S) as (E1 & E2 & E3).
  assert (port s1 p = x) as Ep1 by (unfold port; by rewrite E1, lookup_total_alt, Hx).
  rewrite Ep1, (proj2 (Z.eqb_neq (port_queue x) 0)) by done.
  pose proof (receive_try_result s1 p x (current_thread (sched s)) (ipc_get_deadline_ticks s1 timeout)
                (sched_only_inv _ _ S K) ltac:(by rewrite E1) Hc) as H.
  cbv zeta in H. destruct (receive_try _ _ _ _) as [r s']. fold q in H. rewrite E2 in H.
  destruct (messages s q) as [|m rest]; destruct H as [-> H].
  - subst s'. split_and!; [done|done|]. by apply (sched_only_inv s).
  - split; [done|]. destruct H as [A B C D]. split; [done|done| |by rewrite D].
    intros k Hk Nk. rewrite C, E2 by (done || by apply E3). done.
Qed.

(** C38. A receive by the owner of the port takes the oldest message; on an empty
    queue it waits with the deadline of the call, and nothing changed but the
    priority donated to the owner; a task that is not the owner is refused. *)
Theorem ipc_receive_correct s p x timeout :
  ipc_inv s → ports s !! p = Some x → current_thread (sched s) ≠ 0 →
  let q := port_queue x in
  let '(r, s') := ipc_receive s p timeout in
  if decide (owner x = 0 ∨ current_task (sched s) = owner x) then
    match messages s q with
    | [] => r = Waits (ipc_get_deadline_ticks (donate s p (current_thread (sched s))) timeout)
            ∧ sched_only s s' ∧ ipc_inv s'
    | m :: rest => r = Returns RDNX_OK (Some m) ∧ took s s' q rest
    end
  else r = Returns RDNX_E_DENIED None ∧ s' = s.
Proof. apply receive_result. Qed.

End IpcRecv.
