(* ===== verification/IpcSteps.v ===== *)
(** * Ports and port sets

    Creation and destruction of ports, the port sets, and the invariant of the
    message system in every reachable state. *)

From stdpp Require Import base gmap list numbers fin_maps relations.
From S2P Require Import Prelude Sched Waitq Task SchedInv SchedWait SchedKernel SchedSteps Ipc IpcInv IpcSend.

Module IpcPorts.
Import Sched Waitq SchedFacts SchedInv SchedWait SchedKernel SchedSteps.
Import Ipc IpcFacts IpcInv IpcSend IpcRecv.

(** ** Creation *)
Definition fresh_port (s : ipc_state) (b : port_blocks) : Prop :=
  ports s !! pb_port b = None ∧ queues s !! pb_queue b = None
  ∧ (∀ p x, ports s !! p = Some x → port_queue x ≠ pb_queue b)
  ∧ wq (sched s) (port_waiters (pb_port b)) = mk_waitq [] 0.

Lemma table_free s : ipc_inv s → port_table s !!! (next_port_id s - 1) = 0.
Proof.
  intros K. destruct (decide (port_table s !!! (next_port_id s - 1) = 0)) as [|N]; [done|].
  destruct (ii_table _ K _ N) as (x & Hx & Hid). destruct (ii_port _ K _ x Hx) as (_ & _ & ? & _). lia.
Qed.

Lemma table_insert (T : gmap Z Z) i p j : <[i := p]> T !!! j = if decide (i = j) then p else T !!! j.
Proof.
  rewrite !lookup_total_alt. case_decide as D; [subst; by rewrite lookup_insert_eq|by rewrite lookup_insert_ne].
Qed.

(** The identifier counter and the wait queue of the new port. *)
Lemma next_id_inv s q :
  ipc_inv s → next_port_id s ≤ IPC_MAX_PORTS → wq (sched s) q = mk_waitq [] 0 →
  ipc_inv (s <| next_port_id ::= λ n, n +₆₄ 1 |> <| sched ::= λ k, waitq_init k q |>).
Proof.
  unfold IPC_MAX_PORTS. intros [A B C D E G H] Hlim Hw. unfold field_update. cbn.
  rewrite u64_small by lia. split; cbn; try done; try lia.
  - by apply waitq_init_inv.
  - destruct C as [C [C1 C2]]. exists C. by split.
  - intros p x Hx. destruct (D p x Hx) as (D1 & D2 & D3 & D4 & D5 & D6). unfold port_ok. cbn.
    split; [done|]. split; [done|]. split; [lia|]. split; [done|]. by split.
Qed.

Lemma queue_create_inv s q :
  ipc_inv s → queues s !! q = None → ipc_inv (ipc_queue_create s q).
Proof.
  intros K Hn. unfold ipc_queue_create. case_if; [done|]. set (s' := s <| queues ::= _ |>).
  assert (∀ k, k ≠ q → queues s' !! k = queues s !! k) as Eo by (intros; by apply lookup_insert_ne).
  destruct (ii_cells _ K) as [C [C1 C2]]. apply (ipc_inv_frame s); [by split| |apply (ii_null _ K)| |done].
  - intros k [x Hx]. destruct (decide (k = q)) as [->|]; [congruence|]. exists x. by rewrite Eo.
  - assert (∀ k n, exists_queue s' k → n ∈ (extend C q [] k).*1 → exists_queue s k ∧ n ∈ (C k).*1) as Hc.
    { intros k n [x Hx]. unfold extend. destruct (decide (k = q)) as [->|Nk]; [by intros ?%not_elem_of_nil|].
      intros Hin. split; [|done]. exists x. by rewrite <- Eo. }
    exists (extend C q []). split.
    + intros k x. destruct (decide (k = q)) as [->|].
      * unfold s', field_update. cbn. rewrite lookup_insert_eq, extend_same. intros [= <-].
        split; try done. apply NoDup_nil_2.
      * rewrite Eo, extend_other by done. apply C1.
    + intros k1 k2 n H1 H2 I1 I2. destruct (Hc k1 n H1 I1), (Hc k2 n H2 I2). by apply (C2 k1 k2 n).
Qed.

Lemma insert_port_inv s a x :
  ipc_inv s → a ≠ 0 → ports s !! a = None → port_ok (s <| port_table ::= <[port_id x - 1 := a]> |>) a x →
  port_table s !!! (port_id x - 1) = 0 → (∀ p y, ports s !! p = Some y → port_queue y ≠ port_queue x) →
  ipc_inv (s <| ports ::= <[a := x]> |> <| port_table ::= <[port_id x - 1 := a]> |>).
Proof.
  intros K H0 Hn Hok Ht Hd. destruct K as [A [B1 B2] [C [C1 C2]] D E G H].
  set (s' := _ <| port_table ::= _ |>).
  assert (∀ p, ports s' !! p = if decide (p = a) then Some x else ports s !! p) as Ep.
  { intros p. unfold s', field_update. cbn.
    case_decide as Dp; [subst; by rewrite lookup_insert_eq|by rewrite lookup_insert_ne]. }
  assert (∀ j, port_table s' !!! j = if decide (port_id x - 1 = j) then a else port_table s !!! j) as Et
    by (intros j; apply (table_insert (port_table s))).
  split; try done.
  - split; [done|]. rewrite Ep. by rewrite decide_False.
  - exists C. by split.
  - intros p y. rewrite Ep. case_decide as Dp; [subst p; by intros [= <-]|]. intros Hy.
    destruct (D p y Hy) as (D1 & D2 & D3 & D4 & D5 & D6). unfold port_ok. rewrite Et.
    do 3 (split; [done|]). split; [|by split]. case_decide as Dt; [|done].
    destruct Dp. rewrite <- D4, <- Dt, Ht in *. by rewrite B2 in Hy.
  - intros i. rewrite Et. case_decide as Di.
    + intros _. exists x. rewrite Ep, decide_True by done. split; [done|lia].
    + intros Hi. destruct (E i Hi) as (y & Hy & Hid). exists y. rewrite Ep, decide_False; [done|].
      intros Ea. rewrite Ea in Hy. congruence.
  - intros p1 p2 x1 x2. rewrite !Ep. case_decide; case_decide; subst; try done.
    + intros [= <-] Hy Hq. by destruct (Hd p2 x2 Hy).
    + intros Hy [= <-] Hq. by destruct (Hd p1 x1 Hy).
    + apply G.
Qed.

(** A new port has the next identifier, is found under it, and has an empty
    queue; no other port changes.  After 1024 identifiers none is created. *)
Lemma allocate_result s type b :
  ipc_inv s → fresh_port s b →
  let '(p, s') := allocate s type b in
  ipc_inv s' ∧
  if decide (pb_port b ≠ 0 ∧ pb_queue b ≠ 0 ∧ next_port_id s ≤ 1024) then
    p = pb_port b ∧ port_lookup s' (next_port_id s) = p ∧ messages s' (pb_queue b) = []
    ∧ (∀ q x, ports s !! q = Some x → ports s' !! q = Some x)
  else p = 0 ∧ ports s' = ports s ∧ port_table s' = port_table s.
Proof.
  intros K (F1 & F2 & F3 & F4). pose proof (ii_next _ K) as Hnx. unfold allocate.
  case_if; bool_hyps; [split; [done|]; by rewrite decide_False by tauto|].
  case_if; bool_hyps; [split; [done|]; rewrite decide_False; [done|]; unfold IPC_MAX_PORTS in *; lia|].
  cbv zeta. set (s1 := _ <| sched ::= _ |>).
  assert (ipc_inv s1) as K1 by (by apply next_id_inv).
  assert (ipc_inv (ipc_queue_create s1 (pb_queue b))) as K2 by (by apply queue_create_inv).
  case_if; bool_hyps; [split; [done|]; rewrite decide_False by tauto; rewrite Eif1; by unfold ipc_queue_create|].
  unfold IPC_MAX_PORTS in *.
  assert (port_table_index (next_port_id s) = next_port_id s - 1) as Ei.
  { unfold port_table_index, IPC_MAX_PORTS. rewrite (proj2 (Z.eqb_neq _ 0)), (proj2 (Z.ltb_ge _ _)) by lia. done. }
  rewrite Ei, (proj2 (Z.leb_le 0 _)) by lia. rewrite decide_True by done.
  set (s2 := ipc_queue_create s1 (pb_queue b)) in *. set (x := mk_port _ _ _ _ _ _ _ _). set (s3 := field_update port_table _ _).
  assert (queues s2 = <[pb_queue b := mk_queue 0 0 0]> (queues s) ∧ ports s2 = ports s
          ∧ port_table s2 = port_table s ∧ next_port_id s2 = next_port_id s + 1) as (E1 & E2 & E3 & E4).
  { unfold s2, ipc_queue_create. rewrite (proj2 (Z.eqb_neq _ 0)) by done. split_and!; try done.
    unfold s1, field_update. cbn. rewrite u64_small; lia. }
  split_and!; [|done|..].
  - apply (insert_port_inv s2 (pb_port b) x); rewrite ?E2, ?E3; try done; [|by apply table_free].
    unfold port_ok. change (next_port_id (s2 <| port_table ::= _ |>)) with (next_port_id s2). rewrite E4.
    split; [done|]. split; [done|]. split; [cbn; lia|].
    split; [unfold field_update; cbn; by rewrite table_insert, decide_True|]. split; [done|].
    unfold exists_queue. change (queues (s2 <| port_table ::= _ |>)) with (queues s2). rewrite E1. cbn.
    rewrite lookup_insert_eq. by eexists.
  - unfold port_lookup. rewrite Ei, (proj2 (Z.ltb_ge _ 0)) by lia. unfold s3, field_update. cbn.
    by rewrite table_insert, decide_True.
  - unfold messages, queue. change (queues s3) with (queues s2). rewrite E1, lookup_total_alt, lookup_insert_eq. cbn.
    apply (walk_seg _ _ 0 []); [apply (ii_null _ K2)|done|cbn; lia].
  - intros q y Hy. unfold s3, field_update. cbn. rewrite E2, lookup_insert_ne; [done|]. intros <-. congruence.
Qed.

(** ** Destruction *)
Lemma destroy_nodes_result fuel s a l :
  seg (nodes s) a l 0 → NoDup l.*1 → (length l ≤ fuel)%nat →
  ∃ s', destroy_nodes fuel s a = Some s' ∧ queues s' = queues s ∧ ports_frame s s'
    ∧ ∀ n, nodes s' !! n = if decide (n ∈ l.*1) then None else nodes s !! n.
Proof.
  revert fuel s a. induction l as [|[n m] l IH]; intros fuel s a Hs Hn Hf.
  - cbn in Hs. subst a. exists s. split_and!; [by destruct fuel|done|done|].
    intros n. rewrite decide_False; [done|]. apply not_elem_of_nil.
  - destruct Hs as (-> & H0 & next & Hl & Hs). cbn in Hn, Hf. apply NoDup_cons in Hn as [Hn1 Hn2].
    destruct fuel as [|fuel]; [lia|]. cbn [destroy_nodes]. rewrite (proj2 (Z.eqb_neq n 0)) by done.
    rewrite lookup_total_alt, Hl. cbn [default node_next].
    destruct (IH fuel (s <| nodes ::= delete n |>) next) as (s' & E & A & B & D); [|done|lia|].
    + apply (linked_ext (nodes s)); [|done]. intros k Hk. apply lookup_delete_ne. by intros ->.
    + exists s'. split_and!; [done|done|by transitivity (s <| nodes ::= delete n |>); [split|]|].
      intros k. rewrite D. unfold field_update. cbn. destruct (decide (k ∈ l.*1)) as [I|I].
      * rewrite decide_True; [done|]. by right.
      * destruct (decide (n = k)) as [->|N].
        -- rewrite lookup_delete_eq, decide_True; [done|]. by left.
        -- rewrite lookup_delete_ne, decide_False; [done| |done]. intros [?|?]%elem_of_cons; [congruence|done].
Qed.

(** The state without the port [p]. *)
Record removed (s s' : ipc_state) (p : Z) (x : port_t) (l : cells) : Prop := {
  rm_ports : ports s' = delete p (ports s);
  rm_table : port_table s' = <[port_id x - 1 := 0]> (port_table s);
  rm_queues : queues s' = delete (port_queue x) (queues s);
  rm_nodes : ∀ n, nodes s' !! n = if decide (n ∈ l.*1) then None else nodes s !! n;
  rm_next : next_port_id s' = next_port_id s;
  rm_sched : kernel_inv (sched s')
}.

Lemma removed_inv s s' p x C :
  ipc_inv s → ports s !! p = Some x → cells_ok s C → removed s s' p x (C (port_queue x)) → ipc_inv s'.
Proof.
  intros K Hx [C1 C2] [R1 R2 R3 R4 R5 R6]. destruct K as [A [B1 B2] _ D E G H].
  destruct (D p x Hx) as (_ & _ & Hid & Ht & Hq0 & Hqe).
  assert (∀ k, exists_queue s' k → exists_queue s k ∧ k ≠ port_queue x) as Hex.
  { intros k [y Hy]. rewrite R3 in Hy. apply lookup_delete_Some in Hy as [N Hy]. split; [by exists y|done]. }
  split; rewrite ?R5; try done.
  - split; [rewrite R4; by case_decide|]. rewrite R1. apply lookup_delete_None. by right.
  - exists C. split.
    + intros k Q. rewrite R3. intros [N HQ]%lookup_delete_Some. apply (queue_rep_ext (nodes s)); [|by apply C1].
      intros n Hin. rewrite R4, decide_False; [done|]. intros Hin2. destruct N.
      apply (C2 (port_queue x) k n); [done|by exists Q|done|done].
    + intros k1 k2 n [H1 _]%Hex [H2 _]%Hex. by apply C2.
  - intros k y. rewrite R1. intros [N Hy]%lookup_delete_Some. destruct (D k y Hy) as (D1 & D2 & D3 & D4 & D5 & D6).
    unfold port_ok. rewrite R2, R5, table_insert. do 3 (split; [done|]). split; [|split; [done|]].
    + rewrite decide_False; [done|]. intros Ei. destruct N. rewrite <- Ht, <- D4. by rewrite Ei.
    + unfold exists_queue. rewrite R3, lookup_delete_ne; [done|]. intros Eq. destruct N. by apply (G p k x y).
  - intros i. rewrite R2, table_insert, R1. case_decide as Di; [done|]. intros Hi.
    destruct (E i Hi) as (y & Hy & Hyi). exists y. split; [|done]. rewrite lookup_delete_ne; [done|].
    intros Ep. rewrite <- Ep, Hx in Hy. injection Hy as <-. lia.
  - intros p1 p2 x1 x2. rewrite R1. intros [_ H1]%lookup_delete_Some [_ H2]%lookup_delete_Some. by apply G.
Qed.

Lemma port_refs_inv s p f :
  (∀ x, f x = x <| rights := rights (f x) |> <| owner := owner (f x) |> <| port_refs := port_refs (f x) |>) →
  (∀ x, ports s !! p = Some x → 0 < port_refs (f x) < 2 ^ 32) →
  ipc_inv s → ipc_inv (port_upd p f s).
Proof.
  intros Hf Hr [A [B1 B2] C D E G H].
  assert (∀ k, ports (port_upd p f s) !! k = (if decide (p = k) then f <$> ports s !! k else ports s !! k)) as Ep.
  { intros k. unfold port_upd, field_update. cbn.
    case_decide as Dk; [subst; by rewrite lookup_alter_eq|by rewrite lookup_alter_ne]. }
  assert (∀ k y', ports (port_upd p f s) !! k = Some y' →
    ∃ y, ports s !! k = Some y ∧ port_id y' = port_id y ∧ port_queue y' = port_queue y ∧ active y' = active y
         ∧ 0 < port_refs y' < 2 ^ 32) as Hb.
  { intros k y'. rewrite Ep. case_decide as Dk.
    - subst k. intros (y & Hy & ->)%fmap_Some. exists y. rewrite Hf. split_and!; try done; apply (Hr y Hy).
    - intros Hy. exists y'. destruct (D k y' Hy) as (_ & ? & _). do 4 (split; [done|]). done. }
  split; try done.
  - split; [done|]. rewrite Ep. case_decide; [|done]. by rewrite B2.
  - destruct C as [C [C1 C2]]. exists C. by split.
  - intros k y' Hy'. destruct (Hb k y' Hy') as (y & Hy & E1 & E2 & E3 & E4).
    destruct (D k y Hy) as (D1 & D2 & D3 & D4 & D5 & D6). unfold port_ok. rewrite E1, E2, E3.
    do 5 (split; [done|]). done.
  - intros i Hi. destruct (E i Hi) as (y & Hy & Hyi). change (port_table (port_upd p f s)) with (port_table s).
    rewrite Ep. case_decide; [|by exists y]. exists (f y). rewrite Hy. split; [done|by rewrite Hf].
  - intros p1 p2 y1' y2' H1 H2. destruct (Hb _ _ H1) as (y1 & Hy1 & _ & -> & _).
    destruct (Hb _ _ H2) as (y2 & Hy2 & _ & -> & _). by apply G.
Qed.

Lemma lookup_removed s id p :
  1 ≤ id ≤ 1024 → port_table s = <[id - 1 := 0]> p → port_lookup s id = 0.
Proof.
  intros H E. unfold port_lookup, port_table_index, IPC_MAX_PORTS.
  rewrite (proj2 (Z.eqb_neq id 0)), (proj2 (Z.ltb_ge _ id)) by lia. cbn [orb].
  rewrite (proj2 (Z.ltb_ge _ 0)) by lia. by rewrite E, table_insert, decide_True.
Qed.

(** The wake-up and the queue of a port that goes away. *)
Lemma teardown_result fuel s p x C s1 :
  ipc_inv s → ports s !! p = Some x → cells_ok s C → port_waiters p ≠ 0 →
  (length (wq_threads (wq (sched s) (port_waiters p))) < fuel)%nat → (length (C (port_queue x)) ≤ fuel)%nat →
  nodes s1 = nodes s → queues s1 = queues s → sched s1 = sched s → next_port_id s1 = next_port_id s →
  delete p (ports s1) = delete p (ports s) → port_queue (port s1 p) = port_queue x →
  port_table s1 = <[port_id x - 1 := 0]> (port_table s) →
  ∃ k s', waitq_wake_all fuel (sched s1) (port_waiters p)
            = Some (Z.of_nat (length (wq_threads (wq (sched s) (port_waiters p)))), k)
    ∧ ipc_queue_destroy fuel (s1 <| sched := k |>) (port_queue (port s1 p)) = Some s'
    ∧ removed s (s' <| ports ::= delete p |>) p x (C (port_queue x))
    ∧ sched s' = k
    ∧ ∀ t, t ∈ wq_threads (wq (sched s) (port_waiters p)) → run_fields (thr k t) = (true, THREAD_STATE_READY).
Proof.
  intros K Hx HC Hw Hf Hl En Eq Es Enx Ep Epq Et. destruct (ii_port _ K p x Hx) as (_ & _ & _ & _ & Hq0 & [Q HQ]).
  rewrite Es. set (l := wq_threads _) in *.
  pose proof (waiting_length (sched s) (port_waiters p) (ki_store _ (ii_sched _ K)) (proj1 (ki_wait _ (ii_sched _ K)))) as Hwl.
  destruct (wake_all_result fuel (sched s) (port_waiters p) 0 l (ii_sched _ K) Hw eq_refl Hf) as (k & E & Kk & _ & R & _);
    [done..|]. exists k. unfold waitq_wake_all. rewrite (proj2 (Z.eqb_neq _ 0)), E, Epq by done.
  unfold ipc_queue_destroy. rewrite (proj2 (Z.eqb_neq _ 0)) by done.
  pose proof (co_rep _ _ HC _ _ HQ) as Rq.
  assert (queue (s1 <| sched := k |>) (port_queue x) = Q) as -> by (apply queue_lookup; cbn; by rewrite Eq).
  destruct (destroy_nodes_result fuel (s1 <| sched := k |>) (q_head Q) (C (port_queue x)))
    as (s2 & -> & Eq2 & F2 & N2); [cbn; rewrite En; apply Rq|apply Rq|done|].
  eexists. split; [done|]. split; [done|]. split_and!.
  - split; cbn; rewrite ?(pf_ports _ _ F2), ?(pf_table _ _ F2), ?(proj1 (pf_next _ _ F2)), ?(pf_sched _ _ F2), ?Eq2; cbn;
      rewrite ?Eq; try done. intros n. rewrite N2. cbn. by rewrite En.
  - cbn. by rewrite (pf_sched _ _ F2).
  - intros t Ht. by apply R.
Qed.

Lemma port_of s p x : ports s !! p = Some x → port s p = x.
Proof. intros H. unfold port. by rewrite lookup_total_alt, H. Qed.

Lemma port_upd_same s p x f : ports s !! p = Some x → ports (port_upd p f s) !! p = Some (f x).
Proof. intros H. unfold port_upd, field_update. cbn. by rewrite lookup_alter_eq, H. Qed.

Lemma deallocate_result fuel s p x :
  ipc_inv s → ports s !! p = Some x → port_waiters p ≠ 0 →
  (length (wq_threads (wq (sched s) (port_waiters p))) < fuel)%nat →
  (length (messages s (port_queue x)) ≤ fuel)%nat →
  ∃ s', port_deallocate fuel s p = Some s' ∧ ipc_inv s' ∧
    if decide (port_refs x = 1) then
      ports s' = delete p (ports s) ∧ port_lookup s' (port_id x) = 0 ∧ queues s' !! port_queue x = None
      ∧ ∀ t, t ∈ wq_threads (wq (sched s) (port_waiters p)) →
             run_fields (thr (sched s') t) = (true, THREAD_STATE_READY)
    else s' = port_upd p (λ x, x <| port_refs ::= λ n, n -₃₂ 1 |>) s.
Proof.
  intros K Hx Hw Hf Hl. destruct (ii_cells _ K) as [C HC].
  destruct (ii_port _ K p x Hx) as (_ & Hr & Hid & Ht & Hq0 & Hqe). pose proof (ii_next _ K) as Hnx.
  rewrite (messages_cells s C _ (proj1 (ii_null _ K)) HC Hqe), length_fmap in Hl.
  assert (p ≠ 0) as Hp0 by (intros ->; rewrite (proj2 (ii_null _ K)) in Hx; done).
  assert (port s p = x) as Ep by (unfold port; by rewrite lookup_total_alt, Hx).
  unfold port_deallocate. rewrite !(proj2 (Z.eqb_neq p 0)), Ep, (proj2 (Z.eqb_neq (port_refs x) 0)) by (done || lia).
  cbv zeta. set (f := λ x : port_t, x <| port_refs ::= λ n, n -₃₂ 1 |>). set (s1 := port_upd p f s).
  pose proof (port_upd_same s p x f Hx) as H1. fold s1 in H1.
  assert (port s1 p = f x) as E1 by (by apply port_of).
  rewrite E1. change (port_refs (f x)) with (port_refs x -₃₂ 1). rewrite u32_small by lia.
  destruct (decide (port_refs x = 1)) as [Hone|Hmany].
  2:{ rewrite (proj2 (Z.eqb_neq _ 0)) by lia. cbn. exists s1. split_and!; try done. apply port_refs_inv; try done.
      intros y Hy. rewrite Hx in Hy. injection Hy as <-. unfold f, field_update. cbn. rewrite u32_small; lia. }
  rewrite Hone. change (1 - 1 =? 0) with true. cbn [negb].
  set (g := λ x : port_t, x <| active := false |>). set (s2 := port_upd p g s1).
  assert (port s2 p = g (f x)) as E2 by (apply port_of; exact (port_upd_same s1 p (f x) g H1)). rewrite E2.
  change (port_id (g (f x))) with (port_id x).
  assert (port_table_index (port_id x) = port_id x - 1) as Ei.
  { unfold port_table_index, IPC_MAX_PORTS. rewrite (proj2 (Z.eqb_neq _ 0)), (proj2 (Z.ltb_ge _ _)) by lia. done. }
  rewrite Ei, (proj2 (Z.leb_le 0 _)) by lia. change (port_table s2) with (port_table s). rewrite Ht, Z.eqb_refl.
  cbn [andb]. set (s3 := s2 <| port_table ::= _ |>).
  destruct (teardown_result fuel s p x C s3) as (k & s4 & W & Dq & R & Ek & Hrun); try done.
  - change (ports s3) with (alter g p (alter f p (ports s))). apply map_eq. intros j.
    destruct (decide (p = j)) as [<-|N]; [by rewrite !lookup_delete_eq|].
    by rewrite !lookup_delete_ne, !lookup_alter_ne.
  - change (port s3 p) with (port s2 p). by rewrite E2.
  - rewrite W, Dq. eexists. split; [done|]. pose proof (removed_inv s _ p x C K Hx HC R) as K'.
    split_and!; [done|apply R| |rewrite (rm_queues _ _ _ _ _ R); apply lookup_delete_eq|].
    + apply (lookup_removed _ _ (port_table s)); [lia|apply R].
    + intros t Htin. change (sched (s4 <| ports ::= delete p |>)) with (sched s4). rewrite Ek. by apply Hrun.
Qed.

(** Dropping a reference: the last one removes the port from the table, frees
    the queue with the messages in it and makes every waiting thread ready;
    any other one only counts. *)
Theorem port_deallocate_correct fuel s p x :
  ipc_inv s → ports s !! p = Some x → port_waiters p ≠ 0 →
  (length (wq_threads (wq (sched s) (port_waiters p))) < fuel)%nat →
  (length (messages s (port_queue x)) ≤ fuel)%nat →
  ∃ s', port_deallocate fuel s p = Some s' ∧ ipc_inv s' ∧
    if decide (port_refs x = 1) then
      ports s' = delete p (ports s) ∧ port_lookup s' (port_id x) = 0 ∧ queues s' !! port_queue x = None
      ∧ ∀ t, t ∈ wq_threads (wq (sched s) (port_waiters p)) →
             run_fields (thr (sched s') t) = (true, THREAD_STATE_READY)
    else s' = port_upd p (λ x, x <| port_refs ::= λ n, n -₃₂ 1 |>) s.
Proof. apply deallocate_result. Qed.

End IpcPorts.

(** * The message system as a transition system

    Every operation keeps the invariant, so it holds in every state that the
    kernel reaches; the theorems at concrete states, and the limits of the
    identifiers. *)
Module IpcSteps.
Import Sched Waitq SchedFacts SchedInv SchedWait SchedKernel SchedSteps.
Import Ipc IpcFacts IpcInv IpcSend IpcRecv IpcPorts.

(** ** Steps that change the scheduler and the port sets only *)
Lemma ipc_inv_core s s' :
  ports s' = ports s → queues s' = queues s → nodes s' = nodes s → port_table s' = port_table s →
  next_port_id s' = next_port_id s → kernel_inv (sched s') → ipc_inv s → ipc_inv s'.
Proof.
  intros E1 E2 E3 E4 E5 K [A B C D E G H].
  split; rewrite ?E1, ?E3, ?E4, ?E5; try done.
  - destruct C as [C [C1 C2]]. exists C. split; unfold exists_queue; rewrite E2, ?E3; done.
  - intros p x Hx. destruct (D p x Hx) as (D1 & D2 & D3 & D4 & D5 & D6). unfold port_ok, exists_queue.
    rewrite E4, E5, E2. by do 5 (split; [done|]).
Qed.

Lemma set_try_inv s l : ipc_inv s → ipc_inv (set_try s l).2.
Proof.
  revert s. induction l as [|p l IH]; intros s K; cbn [set_try]; [done|].
  case_if; [by apply IH|]. bool_hyps. cbv zeta. set (s1 := donate s p _).
  assert (sched_only s s1) as S1 by apply donate_step. pose proof (sched_only_inv _ _ S1 K) as K1.
  destruct (sched_only_same _ _ S1) as (Ep & _ & Hex).
  assert (port s1 p = port s p) as E by (unfold port; by rewrite Ep).
  assert (ports s !! p = Some (port s p)) as Hp.
  { unfold port. rewrite lookup_total_alt. destruct (ports s !! p) eqn:X; [done|].
    unfold port in *. rewrite lookup_total_alt, X in *. done. }
  destruct (ii_port _ K p _ Hp) as (_ & _ & _ & _ & Hq0 & Hqe). rewrite E.
  pose proof (pop_result s1 _ K1 Hq0 (proj2 (Hex _) Hqe)) as Hpop.
  destruct (ipc_queue_pop s1 _) as [[r m] s2]. destruct Hpop as (K2 & _).
  assert (ipc_inv (give_back s2 p)) as K3 by (apply (sched_only_inv s2); [apply give_back_step|done]).
  case_if; [done|by apply IH].
Qed.

Lemma port_set_receive_inv s x t : ipc_inv s → ipc_inv (port_set_receive s x t).2.
Proof.
  intros K. unfold port_set_receive. case_if; [done|]. cbv zeta.
  pose proof (set_try_inv s (set_ports (port_set s x)) K) as H. destruct (set_try _ _) as [[m|] s1]; [done|].
  by case_if.
Qed.

Lemma wake_all_inv fuel k q n k' :
  kernel_inv k → (length (wq_threads (wq k q)) < fuel)%nat →
  waitq_wake_all fuel k q = Some (n, k') → kernel_inv k'.
Proof.
  intros K Hf. unfold waitq_wake_all. case_if; [by injection 1 as <- <-|]. bool_hyps.
  destruct (wake_all_result fuel k q 0 _ K Eif eq_refl Hf) as (k1 & -> & K1 & _); [done| |by injection 1 as <- <-].
  apply (waiting_length k q (ki_store _ K) (proj1 (ki_wait _ K))).
Qed.

Lemma receive_resume_inv s p x receiver d w :
  ipc_inv s → ports s !! p = Some x → receiver ≠ 0 → ipc_inv (receive_resume s p receiver d w).2.
Proof.
  intros K Hx Hr. unfold receive_resume.
  case_if; [apply (sched_only_inv s); [apply give_back_step|done]|].
  case_if; [apply (sched_only_inv s); [|done]; transitivity (leave s p receiver);
    [apply leave_step|apply give_back_step]|].
  pose proof (receive_try_result s p x receiver d K Hx Hr) as H. cbv zeta in H.
  destruct (receive_try s p receiver d) as [r s']. cbn [snd].
  destruct (messages s (port_queue x)); [by destruct H as [_ ->]|by destruct H as [_ []]].
Qed.

(** ** Reachable states *)
Inductive istep (s : ipc_state) : ipc_state → Prop :=
| i_sched k : kstep (sched s) k → istep s (s <| sched := k |>)
| i_allocate type boot b :
    ipc_initialized s = true → fresh_port s b → istep s (port_allocate s type boot b).2
| i_deallocate fuel p s' :
    is_Some (ports s !! p) → port_waiters p ≠ 0 →
    (length (wq_threads (wq (sched s) (port_waiters p))) < fuel)%nat →
    (length (messages s (port_queue (port s p))) ≤ fuel)%nat →
    port_deallocate fuel s p = Some s' → istep s s'
| i_send_right task p : few_refs s → istep s (port_insert_send_right s task p).2
| i_receive_right task p : few_refs s → istep s (port_insert_receive_right s task p).2
| i_send p m b r s' :
    is_Some (ports s !! p) → nodes s !! mb_node b = None → few_refs s →
    Z.of_nat (length (messages s (port_queue (port s p)))) + 1 < 2 ^ 32 →
    ipc_send s p m b = Done (r, s') → istep s s'
| i_receive p t :
    is_Some (ports s !! p) → current_thread (sched s) ≠ 0 → istep s (ipc_receive s p t).2
| i_resume p receiver d w :
    is_Some (ports s !! p) → receiver ≠ 0 → istep s (receive_resume s p receiver d w).2
| i_set_create x boot :
    ipc_initialized s = true → wq (sched s) (set_waiters x) = mk_waitq [] 0 →
    istep s (port_set_create s x boot).2
| i_set_destroy fuel x s' :
    (length (wq_threads (wq (sched s) (set_waiters x))) < fuel)%nat →
    port_set_destroy fuel s x = Some s' → istep s s'
| i_set_add x p g : istep s (port_set_add s x p g).2
| i_set_remove x p : istep s (port_set_remove s x p).2
| i_set_receive x t : istep s (port_set_receive s x t).2.

Lemma right_refs s x :
  ipc_inv s → few_refs s → ∀ p, ports s !! p = Some x → 0 < port_refs x +₃₂ 1 < 2 ^ 32.
Proof.
  intros K Hf p Hx. destruct (ii_port _ K p x Hx) as (_ & [? ?] & _). pose proof (Hf p x Hx) as Hlim.
  change (2 ^ 32) with 4294967296 in *. rewrite u32_small; lia.
Qed.

Lemma send_inv s p m b r s' :
  ipc_inv s → is_Some (ports s !! p) → nodes s !! mb_node b = None → few_refs s →
  Z.of_nat (length (messages s (port_queue (port s p)))) + 1 < 2 ^ 32 →
  ipc_send s p m b = Done (r, s') → ipc_inv s'.
Proof.
  intros K Hp Hn Hf Hl E. pose proof (send_result s p m b K Hp Hn Hf Hl) as H. rewrite E in H.
  destruct H as [(_ & _ & H)|(_ & _ & ->)]; [apply H|done].
Qed.

Lemma istep_inv s s' : ipc_inv s → istep s s' → ipc_inv s'.
Proof.
  intros K H. destruct H as [k Hk|type boot b Hi Hf|fuel p s' [x Hx] Hw H1 H2 E|task p Hf|task p Hf
    |p m b r s' Hp Hn Hf Hl E|p t [x Hx] Hc|p receiver d w [x Hx] Hr|x boot Hi Hw|fuel x s' Hl E|x p g|x p|x t].
  - apply ipc_inv_sched; [|done]. by apply (kstep_inv (sched s) k (ii_sched _ K)).
  - unfold port_allocate, ipc_init. rewrite Hi. pose proof (allocate_result s type b K Hf) as H.
    destruct (allocate s type b). apply H.
  - rewrite (port_of _ _ _ Hx) in H2. destruct (deallocate_result fuel s p x K Hx Hw H1 H2) as (s1 & E1 & K1 & _).
    rewrite E in E1. by injection E1 as ->.
  - unfold port_insert_send_right. case_if; [done|]. apply port_refs_inv; try done. intros x. by apply right_refs.
  - unfold port_insert_receive_right. case_if; [done|]. apply port_refs_inv; try done. intros x. by apply right_refs.
  - by eapply send_inv.
  - pose proof (receive_result s p x t K Hx Hc) as H. cbv zeta in H. destruct (ipc_receive s p t) as [r s'].
    case_decide; [|by destruct H as [_ ->]]. destruct (messages s (port_queue x)); [apply H|by destruct H as [_ []]].
  - by eapply receive_resume_inv.
  - unfold port_set_create, ipc_init. rewrite Hi. case_if; [done|]. apply (ipc_inv_core s); try done.
    cbn. apply waitq_init_inv; [apply (ii_sched _ K)|done].
  - unfold port_set_destroy in E. case_if; [by injection E as <-|].
    destruct (waitq_wake_all _ _ _) as [[n k]|] eqn:W; [|done]. injection E as <-.
    apply (ipc_inv_core s); try done. cbn. by eapply wake_all_inv; [apply (ii_sched _ K)|..].
  - unfold port_set_add. repeat case_if; try done; (apply (ipc_inv_core s); try done; apply (ii_sched _ K)).
  - unfold port_set_remove. repeat case_if; try done; (apply (ipc_inv_core s); try done; apply (ii_sched _ K)).
  - by apply port_set_receive_inv.
Qed.

(** ** The start *)
Definition no_ports (k : sched_state) : ipc_state := mk_ipc ∅ ∅ ∅ ∅ ∅ false 1 1 0 [] k.

Lemma ipc_init_inv k b :
  kernel_inv k → wq k (port_waiters (pb_port b)) = mk_waitq [] 0 → ipc_inv (ipc_init (no_ports k) b).
Proof.
  intros K Hw. unfold ipc_init. cbn [ipc_initialized no_ports]. set (s := _ <| ipc_initialized := true |>).
  assert (ipc_inv s) as K1.
  { split; try done. exists (λ _, []). split; [done|]. by intros q1 q2 n [Q HQ]. }
  pose proof (allocate_result s PORT_TYPE_CONTROL b K1) as H. destruct (allocate s _ b) as [p s'].
  destruct H as [K2 _]; [by split_and!|]. by apply (ipc_inv_core s'); try done; apply (ii_sched _ K2).
Qed.

(** C27. In every state reached from the initialised message system by its own
    operations and those of the scheduler: a port in the table is alive, has
    its identifier, a reference and a queue of its own; the queues are
    disjoint linked lists with the right tail and count; and the scheduler
    keeps its own invariant. *)
Theorem ipc_invariant k b s :
  kernel_inv k → wq k (port_waiters (pb_port b)) = mk_waitq [] 0 →
  rtc istep (ipc_init (no_ports k) b) s → ipc_inv s.
Proof.
  intros K Hw H. pose proof (ipc_init_inv k b K Hw) as K0. clear K Hw.
  induction H as [|s1 s2 s3 Hs _ IH]; [done|]. by apply IH, (istep_inv s1).
Qed.

End IpcSteps.
