(* ===== verification/IpcDemo.v ===== *)
(** * The message system on concrete states

    A server port on the scheduler state of [SchedDemo]; the theorems apply to
    it.  Two sequences show that identifiers run out although no port is in
    use, and that a port named in a message outlives its owner's reference. *)

From stdpp Require Import base gmap list numbers fin_maps relations.
From S2P Require Import Prelude Sched Waitq Task SchedInv SchedWait SchedKernel SchedSteps SchedDemo Ipc.
From S2P Require Import IpcInv IpcSend IpcSteps.

Module IpcDemo.
Import Sched Waitq SchedFacts SchedInv SchedWait SchedKernel SchedSteps SchedDemo.
Import Ipc IpcFacts IpcInv IpcSend IpcRecv IpcPorts IpcSteps.

(** The bootstrap port is at 10000, the server port at 20000. *)
Definition boot_blocks : port_blocks := mk_port_blocks 10000 11000.
Definition e0 : ipc_state := ipc_init (no_ports d7) boot_blocks.
Definition e1 : ipc_state := (port_allocate e0 PORT_TYPE_NORMAL boot_blocks (mk_port_blocks 20000 21000)).2.
Definition msg : ipc_message_t :=
  mk_message (mk_hdr 0 0) 7 3 1 [1; 0; 0; 0; 0; 0; 0; 0] (Some [10; 20; 30]) 0.
Definition node_block : msg_blocks := mk_msg_blocks 30000 true.
Definition sent_state (s : ipc_state) (o : outcome (Z * ipc_state)) : ipc_state :=
  match o with Done (_, s') => s' | Panic => s end.
Definition e2 : ipc_state := sent_state e1 (ipc_send e1 20000 msg node_block).

Lemma few_refs_compute s :
  bool_decide (map_Forall (λ _ x, port_refs x + 8 < 2 ^ 32) (ports s)) = true → few_refs s.
Proof. by intros H%bool_decide_eq_true_1. Qed.

Lemma fresh_server : fresh_port e0 (mk_port_blocks 20000 21000).
Proof.
  unfold fresh_port. split_and!; [compute_decide|compute_decide| |vm_compute; reflexivity].
  assert (map_Forall (λ _ x, port_queue x ≠ 21000) (ports e0)) as H by compute_decide. apply H.
Qed.

Lemma inv_e0 : ipc_inv e0.
Proof. apply ipc_init_inv; [apply inv_of, reach_d7|vm_compute; reflexivity]. Qed.

Lemma inv_e1 : ipc_inv e1.
Proof. apply (istep_inv e0); [apply inv_e0|]. apply i_allocate; [compute_decide|apply fresh_server]. Qed.

Lemma port_e1 : is_Some (ports e1 !! 20000).
Proof. compute_decide. Qed.

Lemma step_e2 : istep e1 e2.
Proof.
  unfold e2. destruct (ipc_send e1 20000 msg node_block) as [[r s']|] eqn:E.
  - eapply (i_send _ 20000 msg node_block); [apply port_e1|compute_decide|by apply few_refs_compute; vm_compute
      |compute_decide|exact E].
  - vm_compute in E. discriminate.
Qed.

Lemma ipc_invariant_witness :
  rtc istep (ipc_init (no_ports d7) boot_blocks) e2 ∧ ipc_inv e2.
Proof.
  assert (rtc istep (ipc_init (no_ports d7) boot_blocks) e2) as H.
  { apply (rtc_r _ e1); [apply rtc_once|apply step_e2]. apply i_allocate; [compute_decide|apply fresh_server]. }
  split; [exact H|].
  apply (ipc_invariant d7 boot_blocks e2); [apply inv_of, reach_d7|vm_compute; reflexivity|exact H].
Defined.

Lemma ipc_send_witness :
  (∃ s', ipc_send e1 20000 msg node_block = Done (RDNX_OK, s'))
  ∧ messages e1 21000 = [] ∧ messages e2 21000 = [stored_message (with_header msg)].
Proof.
  pose proof (ipc_send_correct e1 20000 msg node_block inv_e1 port_e1 ltac:(compute_decide)
                ltac:(apply few_refs_compute; vm_compute; reflexivity) ltac:(compute_decide)) as H.
  split_and!; [vm_compute; eexists; reflexivity|vm_compute; reflexivity|].
  unfold e2. destruct (ipc_send e1 20000 msg node_block) as [[r s']|] eqn:E; [|destruct H].
  destruct H as [(_ & _ & S)|(_ & N & _)]; [exact (se_queue _ _ _ _ S)|].
  destruct N. vm_compute in E. injection E as <- _. reflexivity.
Defined.

Lemma ipc_receive_witness :
  ∃ s', ipc_receive e2 20000 0 = (Returns RDNX_OK (Some (stored_message (with_header msg))), s')
        ∧ messages s' 21000 = [].
Proof.
  assert (ipc_inv e2) as K by (apply (istep_inv e1), step_e2; apply inv_e1).
  pose proof (ipc_receive_correct e2 20000 (port e2 20000) 0 K ltac:(vm_compute; reflexivity) ltac:(compute_decide)) as H.
  cbv zeta in H. destruct (ipc_receive e2 20000 0) as [r s'].
  rewrite decide_True in H by (right; compute_decide).
  assert (messages e2 (port_queue (port e2 20000)) = [stored_message (with_header msg)]) as E by (vm_compute; reflexivity).
  rewrite E in H. destruct H as [-> [_ Q _ _]]. exists s'. split; [reflexivity|]. exact Q.
Defined.

Lemma port_deallocate_witness :
  ∃ s', port_deallocate 1 e2 20000 = Some s' ∧ ports s' = delete 20000 (ports e2) ∧ port_lookup s' 2 = 0.
Proof.
  assert (ipc_inv e2) as K by (apply (istep_inv e1), step_e2; apply inv_e1).
  destruct (port_deallocate_correct 1 e2 20000 (port e2 20000) K) as (s' & E & _ & H);
    [vm_compute; reflexivity|compute_decide|compute_decide|compute_decide|].
  rewrite decide_True in H by compute_decide. destruct H as (A & B & _).
  exists s'. split; [exact E|]. split; [exact A|]. exact B.
Defined.

(** ** Identifiers run out *)

(** What [idl_ipc_call] does with its reply port, [n] times. *)
Fixpoint churn (n : nat) (s : ipc_state) : ipc_state :=
  match n with
  | O => s
  | S n =>
      let '(p, s) := port_allocate s PORT_TYPE_CONTROL boot_blocks (mk_port_blocks 20000 21000) in
      churn n (default s (port_deallocate 1 s p))
  end.

(** After 1023 calls no port can be created, although the bootstrap port is the
    only one there is: identifiers are never given back. *)
Theorem port_ids_exhausted :
  let s := churn 1023 e0 in
  dom (ports s) = {[10000]} ∧ (port_allocate s PORT_TYPE_CONTROL boot_blocks (mk_port_blocks 20000 21000)).1 = 0
  ∧ (port_allocate (churn 1022 e0) PORT_TYPE_CONTROL boot_blocks (mk_port_blocks 20000 21000)).1 = 20000.
Proof.
  cbv zeta. split_and!; [|vm_compute; reflexivity|vm_compute; reflexivity].
  apply (bool_decide_eq_true_1 _). vm_compute. reflexivity.
Qed.

(** A message that names a port takes a reference to it.  Receiving the message
    does not give the reference to the receiver or back: when the owner drops
    its own, the port is still there. *)
Theorem attached_port_leaks :
  let s := (ipc_receive e2 20000 0).2 in
  let s' := default s (port_deallocate 1 s 10000) in
  (ipc_receive e2 20000 0).1 = Returns RDNX_OK (Some (stored_message (with_header msg)))
  ∧ port_refs (port e1 10000) = 1 ∧ port_refs (port s 10000) = 2
  ∧ port_lookup s' 1 = 10000 ∧ port_refs (port s' 10000) = 1.
Proof. cbv zeta. split_and!; vm_compute; reflexivity. Qed.

End IpcDemo.
