(* ===== verification/PathSpec.v ===== *)
(** * Path names as lists of characters

    A C string is the list of its characters before the terminator.  A path is
    split at its slashes; the empty parts of a split are dropped.  The path
    scanners of the Unix layer (kernel/unix/fd/unix_fd.c) and of the VFS
    (kernel/fs/vfs.c) are related to this split by the components that model
    them; what they share is here. *)

From stdpp Require Import base gmap list numbers fin_maps.
From S2P Require Import Prelude.

Module PathSpec.

Definition SLASH : Z := 47.
Definition DOT : Z := 46.

(** The string in a buffer. *)
Fixpoint c_str (buf : list Z) : list Z :=
  match buf with
  | [] => []
  | c :: buf => if c =? 0 then [] else c :: c_str buf
  end.

(** [while ( *p == '/') p++;] *)
Fixpoint skip_slashes (l : list Z) : list Z :=
  match l with
  | [] => []
  | c :: l' => if c =? SLASH then skip_slashes l' else l
  end.

(** [while ( *p && *p != '/' && room > 0) ...]: the characters taken and the
    rest of the string. *)
Fixpoint scan_seg (room : nat) (l : list Z) : list Z * list Z :=
  match room, l with
  | S room, c :: l' =>
      if c =? SLASH then ([], l)
      else let '(seg, rest) := scan_seg room l' in (c :: seg, rest)
  | _, _ => ([], l)
  end.

(** ** Specification *)

(** The parts between slashes, empty ones included. *)
Fixpoint split_slash (l : list Z) : list (list Z) :=
  match l with
  | [] => [[]]
  | c :: l =>
      if c =? SLASH then [] :: split_slash l
      else match split_slash l with
           | [] => [[c]]
           | p :: ps => (c :: p) :: ps
           end
  end.

(** The components of a path. *)
Definition components (l : list Z) : list (list Z) := filter (λ p, p ≠ []) (split_slash l).

(** The absolute path with the given components. *)
Fixpoint join_slash (ps : list (list Z)) : list Z :=
  match ps with
  | [] => []
  | [p] => p
  | p :: ps => p ++ SLASH :: join_slash ps
  end.

Definition abs_path (ps : list (list Z)) : list Z := SLASH :: join_slash ps.

(** A part of a split: no slash, no terminator. *)
Definition part (p : list Z) : Prop := Forall (λ c, c ≠ SLASH) p.

(** ** Lemmas *)
Lemma split_slash_cons l : ∃ p ps, split_slash l = p :: ps.
Proof.
  destruct l as [|c l]; simpl; [eauto|].
  case_if; [eauto|]. destruct (split_slash l); eauto.
Qed.

Lemma split_slash_part l : Forall part (split_slash l).
Proof.
  unfold part. induction l as [|c l IH]; simpl; [by repeat constructor|].
  case_if; bool_hyps; [by constructor|].
  destruct (split_slash l); inversion_clear IH; repeat constructor; auto.
Qed.

Lemma components_part l : Forall (λ p, part p ∧ p ≠ []) (components l).
Proof.
  unfold components. apply Forall_forall. intros p [Hne Hin]%list_elem_of_filter.
  split; [|done]. by apply (Forall_forall part (split_slash l)); [apply split_slash_part|].
Qed.

Lemma split_slash_skip l : components (skip_slashes l) = components l.
Proof.
  induction l as [|c l IH]; simpl; [done|].
  destruct (c =? SLASH) eqn:E; [|done].
  rewrite IH. unfold components. simpl. by rewrite E.
Qed.

Lemma components_slash l : components (SLASH :: l) = components l.
Proof. done. Qed.

Lemma skip_slashes_head l c r : skip_slashes l = c :: r → c ≠ SLASH.
Proof.
  induction l as [|d l IH]; simpl; [done|].
  case_if; bool_hyps; [done|]. congruence.
Qed.

Lemma skip_slashes_length l : (length (skip_slashes l) ≤ length l)%nat.
Proof. induction l; simpl; [done|]. case_if; simpl; lia. Qed.

(** Scanning with enough room takes the first part. *)
Lemma scan_seg_split n l p ps :
  split_slash l = p :: ps → (length p ≤ n)%nat →
  (scan_seg n l).1 = p ∧
  (((scan_seg n l).2 = [] ∧ ps = []) ∨
   ∃ r, (scan_seg n l).2 = SLASH :: r ∧ split_slash r = ps).
Proof.
  revert n p ps. induction l as [|c l IH]; intros n p ps; simpl.
  - intros [= <- <-] _. destruct n; simpl; auto.
  - case_if; bool_hyps.
    + intros [= <- <-] _. subst c.
      destruct n; simpl; (split; [done|right; eauto]).
    + destruct (split_slash_cons l) as (q & qs & Hq). rewrite Hq.
      intros [= <- <-] Hn. simpl in Hn. destruct n as [|n]; [lia|].
      simpl. rewrite (proj2 (Z.eqb_neq c SLASH)) by done.
      destruct (IH n q qs Hq ltac:(lia)) as [H1 H2].
      destruct (scan_seg n l) as [seg rest]. simpl in *. by subst seg.
Qed.

Lemma scan_seg_nonempty n c l : c ≠ SLASH → (scan_seg (S n) (c :: l)).1 ≠ [].
Proof.
  intros Hc. simpl. rewrite (proj2 (Z.eqb_neq c SLASH)) by done. by destruct (scan_seg n l).
Qed.

Lemma scan_seg_length n l :
  (length (scan_seg n l).1 + length (scan_seg n l).2 = length l)%nat.
Proof.
  revert n. induction l as [|c l IH]; intros [|n]; simpl; try done.
  case_if; simpl; [done|]. specialize (IH n).
  destruct (scan_seg n l); simpl in *. lia.
Qed.

Lemma scan_seg_room n l : (length (scan_seg n l).1 ≤ n)%nat.
Proof.
  revert n. induction l as [|c l IH]; intros [|n]; simpl; try lia.
  case_if; simpl; [lia|]. specialize (IH n).
  destruct (scan_seg n l); simpl in *. lia.
Qed.

(** Splitting a joined path gives its parts back. *)
Lemma split_slash_app p l :
  part p → split_slash (p ++ SLASH :: l) = p :: split_slash l.
Proof.
  unfold part. induction p as [|c p IH]; intros Hp; [done|].
  inversion_clear Hp. simpl. rewrite (proj2 (Z.eqb_neq c SLASH)) by done.
  by rewrite IH.
Qed.

Lemma split_slash_single p : part p → split_slash p = [p].
Proof.
  unfold part. induction p as [|c p IH]; intros Hp; [done|].
  inversion_clear Hp. simpl. rewrite (proj2 (Z.eqb_neq c SLASH)) by done.
  by rewrite IH.
Qed.

Lemma join_slash_cons p q ps : join_slash (p :: q :: ps) = p ++ SLASH :: join_slash (q :: ps).
Proof. done. Qed.

Lemma components_join ps :
  Forall (λ p, part p ∧ p ≠ []) ps → components (join_slash ps) = ps.
Proof.
  unfold components. induction ps as [|p ps IH]; intros Hps; [done|].
  inversion_clear Hps as [|? ? [Hp Hne] Hps'].
  destruct ps as [|q ps].
  - simpl. rewrite split_slash_single by done. by rewrite filter_cons_True.
  - rewrite join_slash_cons, split_slash_app by done.
    rewrite filter_cons_True by done. f_equal. by apply IH.
Qed.

Lemma split_slash_cat l r : split_slash (l ++ SLASH :: r) = split_slash l ++ split_slash r.
Proof.
  induction l as [|c l IH]; [done|]. simpl. case_if; [by rewrite IH|].
  rewrite IH. by destruct (split_slash_cons l) as (p & ps & ->).
Qed.

Lemma components_cat l r : components (l ++ SLASH :: r) = components l ++ components r.
Proof. unfold components. by rewrite split_slash_cat, filter_app. Qed.

Lemma components_abs_path ps :
  Forall (λ p, part p ∧ p ≠ []) ps → components (abs_path ps) = ps.
Proof. intros. unfold abs_path. rewrite components_slash. by apply components_join. Qed.

(** Characters of the components of a path and of the separators between
    them. *)
Definition weight (ps : list (list Z)) : nat := sum_list_with (λ p, S (length p)) ps.

Lemma weight_app ps qs : weight (ps ++ qs) = (weight ps + weight qs)%nat.
Proof. unfold weight. by rewrite sum_list_with_app. Qed.

Lemma split_slash_weight l : weight (split_slash l) = S (length l).
Proof.
  induction l as [|c l IH]; [done|]. simpl.
  case_if; [unfold weight in *; simpl; lia|].
  destruct (split_slash l); unfold weight in *; simpl in *; lia.
Qed.

Lemma filter_weight (P : list Z → Prop) `{!∀ p, Decision (P p)} ps :
  (weight (filter P ps) ≤ weight ps)%nat.
Proof.
  induction ps as [|p ps IH]; [done|].
  rewrite filter_cons. case_decide; unfold weight in *; simpl; lia.
Qed.

Lemma join_slash_length ps : (length (join_slash ps) ≤ weight ps)%nat.
Proof.
  induction ps as [|p [|q ps] IH]; unfold weight in *; simpl; [done|lia|].
  rewrite length_app. simpl in *. lia.
Qed.

Lemma join_slash_weight ps : ps ≠ [] → S (length (join_slash ps)) = weight ps.
Proof.
  induction ps as [|p [|q ps] IH]; unfold weight in *; intros H; simpl; [done|lia|].
  rewrite length_app. simpl in *. specialize (IH ltac:(done)). lia.
Qed.

(** A proper absolute path is at least as long as what its components need. *)
Lemma components_weight l :
  (weight (components (SLASH :: l)) ≤ S (length l))%nat.
Proof.
  rewrite components_slash. unfold components.
  etransitivity; [apply filter_weight|]. by rewrite split_slash_weight.
Qed.

End PathSpec.
