(* ===== verification/Vfs.v ===== *)
(** * The virtual file system (kernel/fs/vfs.c)

    Nodes, the namespace they form, the path cache, mounts, and the operations
    on paths and open files.  A node is a structure at an address; the links
    [parent], [sibling] and [children] are addresses, 0 for NULL.  The inode
    of a node is allocated and freed with it and is a part of its record.  A
    string is the list of its characters ([PathSpec]).

    Results of [kmalloc] are arguments: for a node, the block and whether
    there was one for the inode ([node_blocks]); for file data, a function
    from the size asked for to the old content of the block.  A loop over a
    list of siblings or a chain of parents is bounded by the number of nodes;
    the invariant of [VfsInv] shows that the list ends before that.  A function
    whose loop may not end returns [None] in that case.

    The console, the block devices and ext2 are reached through the operations
    of [vfs_ops] on a state of their own. *)

From stdpp Require Import base gmap list numbers fin_maps.
From S2P Require Import Prelude PathSpec.

Module Vfs.
Import PathSpec.

Definition VFS_CACHE_SIZE : Z := 64.
Definition VFS_MAX_FS_DRIVERS : Z := 8.
Definition VFS_OPEN_READ : Z := 1.
Definition VFS_OPEN_WRITE : Z := 2.
Definition VFS_OPEN_CREATE : Z := 4.
Definition VFS_OPEN_TRUNC : Z := 8.
Definition VFS_INODE_CONSOLE : Z := 1.
Definition VFS_INODE_DEV_NULL : Z := 2.
Definition VFS_INODE_DEV_ZERO : Z := 4.
Definition VFS_INODE_CHARDEV : Z := 8.
Definition VFS_INODE_BLOCKDEV : Z := 16.
Definition VFS_FS_TAG_NONE : Z := 0.
Definition VFS_FS_TAG_EXT2 : Z := 1.

(** [sizeof (node->name)] and [sizeof (vfs_cache[i].path)]. *)
Definition NAME_SIZE : nat := 32.
Definition CACHE_PATH_SIZE : nat := 64.

Inductive vfs_node_type_t := VFS_NODE_FILE | VFS_NODE_DIR.

#[export] Instance node_type_eq_dec : EqDecision vfs_node_type_t.
Proof. solve_decision. Defined.

(** [i_data] is the block that [data] points to, of [i_capacity] bytes. *)
Record vfs_inode_t := mk_inode {
  i_type : vfs_node_type_t;
  i_flags : Z;
  i_fs_tag : Z;
  i_fs_aux : Z;
  i_fs_ino : Z;
  i_size : Z;
  i_capacity : Z;
  i_data : option (list Z);
  i_mmap_object : Z;
  i_node_gen : Z
}.

Record vfs_node_t := mk_vnode {
  n_name : list Z;
  n_type : vfs_node_type_t;
  n_parent : Z;
  n_sibling : Z;
  n_children : Z;
  n_inode : vfs_inode_t;
  n_ref_count : Z;
  n_unlinked : bool
}.

Record vfs_mount_t := mk_mount {
  mnt_fs_name : list Z;
  mnt_root : Z;
  mnt_mountpoint : Z
}.

Record vfs_file_t := mk_file {
  f_node : Z;
  f_pos : Z;
  f_writable : bool
}.

Record vfs_stat_t := mk_stat { st_mode : Z; st_size : Z }.

Record vfs_cache_entry_t := mk_cache_entry {
  c_path : list Z;
  c_node : Z;
  c_gen : Z;
  c_node_gen : Z
}.

(** [vfs_mounts] is the list linked by [next]; a driver is its name. *)
Record vfs_state := mk_vfs {
  nodes : gmap Z vfs_node_t;
  mounts : gmap Z vfs_mount_t;
  vfs_mounts : list Z;
  vfs_root_mount : Z;
  vfs_root : Z;
  vfs_ready : bool;
  vfs_cache_gen : Z;
  vfs_cache_rr : Z;
  vfs_cache : list vfs_cache_entry_t;
  vfs_initrd : option (list Z);
  vfs_fs_drivers : list (list Z)
}.

#[export] Instance inode_eta : EtaRecord vfs_inode_t :=
  λ i, mk_inode (i_type i) (i_flags i) (i_fs_tag i) (i_fs_aux i) (i_fs_ino i) (i_size i)
         (i_capacity i) (i_data i) (i_mmap_object i) (i_node_gen i).
#[export] Instance vnode_eta : EtaRecord vfs_node_t :=
  λ n, mk_vnode (n_name n) (n_type n) (n_parent n) (n_sibling n) (n_children n) (n_inode n)
         (n_ref_count n) (n_unlinked n).
#[export] Instance mount_eta : EtaRecord vfs_mount_t :=
  λ m, mk_mount (mnt_fs_name m) (mnt_root m) (mnt_mountpoint m).
#[export] Instance file_eta : EtaRecord vfs_file_t :=
  λ f, mk_file (f_node f) (f_pos f) (f_writable f).
#[export] Instance vfs_eta : EtaRecord vfs_state :=
  λ s, mk_vfs (nodes s) (mounts s) (vfs_mounts s) (vfs_root_mount s) (vfs_root s) (vfs_ready s)
         (vfs_cache_gen s) (vfs_cache_rr s) (vfs_cache s) (vfs_initrd s) (vfs_fs_drivers s).

(** [memset (inode, 0, sizeof)] and the type. *)
Definition fresh_inode (type : vfs_node_type_t) : vfs_inode_t := mk_inode type 0 0 0 0 0 0 None 0 0.

#[export] Instance vnode_inhabited : Inhabited vfs_node_t :=
  populate (mk_vnode [] VFS_NODE_FILE 0 0 0 (fresh_inode VFS_NODE_FILE) 0 false).
#[export] Instance mount_inhabited : Inhabited vfs_mount_t := populate (mk_mount [] 0 0).
#[export] Instance cache_entry_inhabited : Inhabited vfs_cache_entry_t :=
  populate (mk_cache_entry [] 0 0 0).

Abbreviation node_store := (gmap Z vfs_node_t).

Definition vnode (s : vfs_state) (n : Z) : vfs_node_t := nodes s !!! n.
Definition node_upd (n : Z) (f : vfs_node_t → vfs_node_t) (s : vfs_state) : vfs_state :=
  s <| nodes ::= alter f n |>.
Definition inode_upd (n : Z) (f : vfs_inode_t → vfs_inode_t) (s : vfs_state) : vfs_state :=
  node_upd n (λ x, x <| n_inode ::= f |>) s.

(** [strncpy (buf, str, size - 1); buf[size - 1] = 0;] *)
Definition strncpy_z (size : nat) (str : list Z) : list Z := take (size - 1) str.

(** ** Mount points *)
Definition vfs_find_mount_at (s : vfs_state) (n : Z) : Z :=
  default 0 (list_find (λ m, mnt_mountpoint (mounts s !!! m) = n) (vfs_mounts s) ≫= λ x, Some x.2).

(** ** The path cache *)
Definition vfs_cache_reset (s : vfs_state) : vfs_state :=
  s <| vfs_cache_gen ::= λ g, g +₃₂ 1 |>
    <| vfs_cache ::= fmap (λ e, mk_cache_entry [] 0 0 (c_node_gen e)) |>
    <| vfs_cache_rr := 0 |>.

(** The entry ends the search with its node. *)
Definition cache_hit (s : vfs_state) (path : list Z) (e : vfs_cache_entry_t) : bool :=
  (c_gen e =? vfs_cache_gen s) && negb (bool_decide (c_path e = [])) && bool_decide (c_path e = path)
  && ((c_node e =? 0) || (i_node_gen (n_inode (vnode s (c_node e))) =? c_node_gen e)).

Fixpoint cache_scan (s : vfs_state) (path : list Z) (es : list vfs_cache_entry_t) : Z :=
  match es with
  | [] => 0
  | e :: es => if cache_hit s path e then c_node e else cache_scan s path es
  end.

Definition vfs_cache_lookup (s : vfs_state) (path : list Z) : Z := cache_scan s path (vfs_cache s).

Definition vfs_cache_insert (s : vfs_state) (path : list Z) (node : Z) : vfs_state :=
  if node =? 0 then s
  else
    let slot := vfs_cache_rr s mod VFS_CACHE_SIZE in
    let e := mk_cache_entry (strncpy_z CACHE_PATH_SIZE path) node (vfs_cache_gen s)
               (i_node_gen (n_inode (vnode s node))) in
    s <| vfs_cache_rr ::= λ n, n +₃₂ 1 |> <| vfs_cache ::= <[Z.to_nat slot := e]> |>.

(** ** Nodes *)

(** The block for a node, 0 when there is none, and whether there was one for
    its inode. *)
Record node_blocks := mk_node_blocks { nb_node : Z; nb_inode : bool }.

Definition vfs_alloc_node (s : vfs_state) (b : node_blocks) (name : list Z) (type : vfs_node_type_t)
    : Z * vfs_state :=
  if nb_node b =? 0 then (0, s)
  else if negb (nb_inode b) then (0, s)
  else
    (nb_node b,
     s <| nodes ::= <[nb_node b :=
           mk_vnode (strncpy_z NAME_SIZE name) type 0 0 0 (fresh_inode type) 1 false]> |>).

Definition vfs_free_node (s : vfs_state) (node : Z) : vfs_state :=
  if node =? 0 then s else s <| nodes ::= delete node |>.

Definition vfs_node_retain (s : vfs_state) (node : Z) : vfs_state :=
  if node =? 0 then s else node_upd node (λ x, x <| n_ref_count ::= λ c, c +₃₂ 1 |>) s.

Definition vfs_node_release (s : vfs_state) (node : Z) : vfs_state :=
  if node =? 0 then s
  else if n_ref_count (vnode s node) =? 0 then s
  else
    let s := node_upd node (λ x, x <| n_ref_count ::= λ c, c -₃₂ 1 |>) s in
    if n_ref_count (vnode s node) =? 0 then vfs_free_node s node else s.

(** The nodes that [for (it = ...; it; it = it->sibling)] visits. *)
Fixpoint sibling_walk (fuel : nat) (N : node_store) (it : Z) : list Z :=
  match fuel with
  | O => []
  | S fuel => if it =? 0 then [] else it :: sibling_walk fuel N (n_sibling (N !!! it))
  end.

Definition child_list (N : node_store) (dir : Z) : list Z :=
  sibling_walk (size N) N (n_children (N !!! dir)).

Definition is_dir (N : node_store) (n : Z) : bool := bool_decide (n_type (N !!! n) = VFS_NODE_DIR).

Definition vfs_find_child (N : node_store) (dir : Z) (name : list Z) : Z :=
  if (dir =? 0) || negb (is_dir N dir) then 0
  else default 0 (list_find (λ c, n_name (N !!! c) = name) (child_list N dir) ≫= λ x, Some x.2).

Definition vfs_add_child (s : vfs_state) (dir child : Z) : Z * vfs_state :=
  if (dir =? 0) || (child =? 0) || negb (is_dir (nodes s) dir) then (-1, s)
  else
    let s := node_upd child (λ x, x <| n_parent := dir |>
                                    <| n_sibling := n_children (vnode s dir) |>) s in
    (0, node_upd dir (λ x, x <| n_children := child |>) s).

(** ** Paths *)

(** [while ( *path && *path != '/') path++;] *)
Fixpoint drop_seg (l : list Z) : list Z :=
  match l with
  | [] => []
  | c :: l' => if c =? SLASH then l else drop_seg l'
  end.

(** The component, at most [NAME_SIZE - 1] characters of it, and the rest. *)
Definition vfs_next_component (path : list Z) : option (list Z * list Z) :=
  match skip_slashes path with
  | [] => None
  | l => let '(out, rest) := scan_seg (NAME_SIZE - 1) l in Some (out, drop_seg rest)
  end.

(** The node to continue from behind [current]. *)
Definition cross_mount (s : vfs_state) (current : Z) : Z :=
  let mnt := vfs_find_mount_at s current in
  if negb (mnt =? 0) && negb (mnt_root (mounts s !!! mnt) =? 0) then mnt_root (mounts s !!! mnt)
  else current.

(** Both loops over the components take the length of the path as fuel. *)
Fixpoint resolve_parent_loop (fuel : nat) (s : vfs_state) (current : Z) (p : list Z)
    : Z * list Z :=
  match fuel with
  | O => (0, [])
  | S fuel =>
      match vfs_next_component p with
      | None => (0, [])
      | Some (comp, next) =>
          if bool_decide (skip_slashes next = []) then (current, strncpy_z NAME_SIZE comp)
          else
            let current := vfs_find_child (nodes s) current comp in
            if (current =? 0) || negb (is_dir (nodes s) current) then (0, [])
            else resolve_parent_loop fuel s (cross_mount s current) next
      end
  end.

(** The directory, 0 for NULL, and the name in it. *)
Definition vfs_resolve_parent (s : vfs_state) (path : list Z) : Z * list Z :=
  if vfs_root s =? 0 then (0, [])
  else if bool_decide (path = [SLASH]) then (0, [])
  else resolve_parent_loop (S (length path)) s (vfs_root s) path.

Fixpoint lookup_loop (fuel : nat) (s : vfs_state) (current : Z) (p : list Z) : Z :=
  match fuel with
  | O => 0
  | S fuel =>
      match vfs_next_component p with
      | None => current
      | Some (comp, next) =>
          let current := vfs_find_child (nodes s) current comp in
          if current =? 0 then 0 else lookup_loop fuel s (cross_mount s current) next
      end
  end.

Definition vfs_lookup (s : vfs_state) (path : list Z) : Z * vfs_state :=
  if vfs_root s =? 0 then (0, s)
  else if bool_decide (path = [SLASH]) then (vfs_root s, s)
  else
    let cached := vfs_cache_lookup s path in
    if negb (cached =? 0) then (cached, s)
    else
      let current := lookup_loop (S (length path)) s (vfs_root s) path in
      if current =? 0 then (0, s) else (current, vfs_cache_insert s path current).

(** ** Namespace operations *)
Definition vfs_create_node (s : vfs_state) (b : node_blocks) (parent : Z) (name : list Z)
    (type : vfs_node_type_t) : Z * vfs_state :=
  let '(node, s) := vfs_alloc_node s b name type in
  if node =? 0 then (0, s)
  else
    let '(rc, s) := vfs_add_child s parent node in
    if negb (rc =? 0) then (0, vfs_node_release s node)
    else (node, vfs_cache_reset s).

Definition is_ext2 (s : vfs_state) (n : Z) : bool :=
  i_fs_tag (n_inode (vnode s n)) =? VFS_FS_TAG_EXT2.

Definition vfs_mkdir (s : vfs_state) (b : node_blocks) (path : list Z) : Z * vfs_state :=
  if vfs_root s =? 0 then (RDNX_E_INVALID, s)
  else if bool_decide (path = [SLASH]) then (RDNX_OK, s)
  else
    let '(parent, leaf) := vfs_resolve_parent s path in
    if parent =? 0 then (RDNX_E_NOTFOUND, s)
    else if is_ext2 s parent then (RDNX_E_UNSUPPORTED, s)
    else if negb (vfs_find_child (nodes s) parent leaf =? 0) then (RDNX_OK, s)
    else
      let '(node, s) := vfs_create_node s b parent leaf VFS_NODE_DIR in
      (if negb (node =? 0) then RDNX_OK else RDNX_E_NOMEM, s).

(** The loop that takes [node] off the children of [parent]; [l] are the nodes
    that it still visits. *)
Fixpoint unlink_loop (s : vfs_state) (parent node prev : Z) (l : list Z) : vfs_state :=
  match l with
  | [] => s
  | it :: l =>
      if it =? node then
        let next := n_sibling (vnode s it) in
        if negb (prev =? 0) then node_upd prev (λ x, x <| n_sibling := next |>) s
        else node_upd parent (λ x, x <| n_children := next |>) s
      else unlink_loop s parent node it l
  end.

Definition detach (s : vfs_state) (parent node : Z) : vfs_state :=
  unlink_loop s parent node 0 (child_list (nodes s) parent).

Definition vfs_unlink (s : vfs_state) (path : list Z) : Z * vfs_state :=
  if negb (vfs_ready s) then (RDNX_E_INVALID, s)
  else
    let '(node, s) := vfs_lookup s path in
    if (node =? 0) || (node =? vfs_root s) then (RDNX_E_NOTFOUND, s)
    else if is_ext2 s node then (RDNX_E_UNSUPPORTED, s)
    else if is_dir (nodes s) node && negb (n_children (vnode s node) =? 0) then (RDNX_E_BUSY, s)
    else
      let parent := n_parent (vnode s node) in
      if parent =? 0 then (RDNX_E_INVALID, s)
      else
        let s := detach s parent node in
        let s := node_upd node (λ x, x <| n_unlinked := true |> <| n_parent := 0 |>) s in
        (RDNX_OK, vfs_node_release (vfs_cache_reset s) node).

Fixpoint ancestor_loop (fuel : nat) (N : node_store) (ancestor cur : Z) : bool :=
  match fuel with
  | O => false
  | S fuel =>
      if cur =? 0 then false
      else if cur =? ancestor then true
      else ancestor_loop fuel N ancestor (n_parent (N !!! cur))
  end.

Definition vfs_is_ancestor_dir (N : node_store) (ancestor node : Z) : bool :=
  ancestor_loop (S (size N)) N ancestor node.

Definition vfs_rename (s : vfs_state) (old_path new_path : list Z) : Z * vfs_state :=
  if negb (vfs_ready s) then (RDNX_E_INVALID, s)
  else if bool_decide (old_path = [SLASH]) || bool_decide (new_path = [SLASH])
  then (RDNX_E_DENIED, s)
  else if bool_decide (old_path = new_path) then (RDNX_OK, s)
  else
    let '(old_parent, old_leaf) := vfs_resolve_parent s old_path in
    let '(new_parent, new_leaf) := vfs_resolve_parent s new_path in
    if (old_parent =? 0) || (new_parent =? 0) || bool_decide (old_leaf = [])
       || bool_decide (new_leaf = []) then (RDNX_E_NOTFOUND, s)
    else
      let node := vfs_find_child (nodes s) old_parent old_leaf in
      if node =? 0 then (RDNX_E_NOTFOUND, s)
      else if is_ext2 s node || is_ext2 s new_parent then (RDNX_E_UNSUPPORTED, s)
      else if negb (vfs_find_child (nodes s) new_parent new_leaf =? 0) then (RDNX_E_BUSY, s)
      else if is_dir (nodes s) node && vfs_is_ancestor_dir (nodes s) node new_parent
      then (RDNX_E_INVALID, s)
      else
        let s := detach s old_parent node in
        let s := node_upd node (λ x, x <| n_sibling := n_children (vnode s new_parent) |>) s in
        let s := node_upd new_parent (λ x, x <| n_children := node |>) s in
        let s := node_upd node (λ x, x <| n_parent := new_parent |>
                                       <| n_name := strncpy_z NAME_SIZE new_leaf |>) s in
        (RDNX_OK, vfs_cache_reset s).

(** The nodes that the callback is called on. *)
Definition vfs_list_dir (s : vfs_state) (path : list Z) : Z * list Z * vfs_state :=
  if negb (vfs_ready s) then (RDNX_E_INVALID, [], s)
  else
    let '(dir, s) := vfs_lookup s path in
    if (dir =? 0) || negb (is_dir (nodes s) dir) then (RDNX_E_NOTFOUND, [], s)
    else (RDNX_OK, child_list (nodes s) dir, s).

End Vfs.
