(* ===== verification/VfsFile.v ===== *)
(** * Open files, mounts and the initial RAM disk (kernel/fs/vfs.c)

    The operations on the content of files: growing and resizing, opening,
    closing, duplicating, reading, writing and seeking; and the code that
    mounts file systems and imports the initrd image.

    A [vfs_file_t] is passed and returned by value.  A buffer that a function
    reads is the list of its bytes; for a buffer that it fills, the result has
    the bytes stored from its start.  [blk] is what [kmalloc] returns for file
    data: the old content of a block of the size asked for, or nothing. *)

From stdpp Require Import base gmap list numbers fin_maps.
From S2P Require Import Prelude PathSpec Vfs.

Module VfsFile.
Import PathSpec Vfs.

(** What the VFS calls in the console, the block devices and ext2.  A device
    is known by its name; [op_bdev_find] gives its sector size.  Reading the
    console may wait for input, which is the result [None]. *)
Record vfs_ops (D : Type) := mk_ops {
  op_console_read : D → Z → bool → option (Z * list Z * D);
  op_console_write : D → list Z → Z * D;
  op_bdev_find : D → list Z → option Z;
  op_bdev_read : D → list Z → Z → Z * list Z;
  op_bdev_write : D → list Z → Z → Z → list Z → Z * D;
  op_ext2_resize : D → vfs_inode_t → Z → Z * D;
  op_ext2_writeback : D → vfs_inode_t → Z → list Z → Z → Z * D
}.
Arguments op_console_read {D}. Arguments op_console_write {D}. Arguments op_bdev_find {D}.
Arguments op_bdev_read {D}. Arguments op_bdev_write {D}. Arguments op_ext2_resize {D}.
Arguments op_ext2_writeback {D}.

Abbreviation data_block := (Z → option (list Z)).

(** ** The data block of a file *)

(** [while (new_cap < needed) new_cap *= 2;].  After 64 rounds the product is
    0 and stays 0: [None] means that the loop does not end. *)
Fixpoint grow_cap (fuel : nat) (new_cap needed : Z) : option Z :=
  if new_cap <? needed then
    match fuel with
    | O => None
    | S fuel => grow_cap fuel (new_cap *₆₄ 2) needed
    end
  else Some new_cap.
Arguments grow_cap : simpl never.

(** The first bytes of the new block are those of the file. *)
Definition moved_data (i : vfs_inode_t) (new_buf : list Z) : list Z :=
  match i_data i with
  | Some d => if 0 <? i_size i then list_inserts 0 (take (Z.to_nat (i_size i)) d) new_buf else new_buf
  | None => new_buf
  end.

Definition vfs_grow_file (s : vfs_state) (node needed : Z) (blk : data_block)
    : option (Z * vfs_state) :=
  let i := n_inode (vnode s node) in
  if (node =? 0) || is_dir (nodes s) node then Some (-1, s)
  else if needed <=? i_capacity i then Some (0, s)
  else
    match grow_cap 64 (if negb (i_capacity i =? 0) then i_capacity i else 64) needed with
    | None => None
    | Some new_cap =>
        match blk new_cap with
        | None => Some (-1, s)
        | Some new_buf =>
            Some (0, inode_upd node (λ i, i <| i_data := Some (moved_data i new_buf) |>
                                            <| i_capacity := new_cap |>) s)
        end
    end.

(** [memset (inode->data + from, 0, to - from)] *)
Definition zero_fill (from to : Z) (d : list Z) : list Z :=
  list_inserts (Z.to_nat from) (replicate (Z.to_nat (to - from)) 0) d.

Section Devices.
Context {D : Type} (ops : vfs_ops D).

(** Both tails of [vfs_resize_file] behind the growth of the block. *)
Definition set_size (s : vfs_state) (file : vfs_file_t) (new_size : Z) : Z * vfs_file_t * vfs_state :=
  let s := inode_upd (f_node file) (λ i,
             let i := if i_size i <? new_size
                      then i <| i_data ::= fmap (zero_fill (i_size i) new_size) |> else i in
             i <| i_size := new_size |>) s in
  (RDNX_OK, if new_size <? f_pos file then file <| f_pos := new_size |> else file, s).

Definition vfs_resize_file (s : vfs_state) (dev : D) (file : vfs_file_t) (new_size : Z) (blk : data_block)
    : option (Z * vfs_file_t * vfs_state * D) :=
  let node := f_node file in
  let i := n_inode (vnode s node) in
  if (node =? 0) || is_dir (nodes s) node then Some (RDNX_E_INVALID, file, s, dev)
  else if has_flag (i_flags i) (Z.lor VFS_INODE_CONSOLE (Z.lor VFS_INODE_CHARDEV VFS_INODE_BLOCKDEV))
  then Some (RDNX_E_UNSUPPORTED, file, s, dev)
  else if i_fs_tag i =? VFS_FS_TAG_EXT2 then
    let '(rc, dev) := op_ext2_resize ops dev i new_size in
    if negb (rc =? RDNX_OK) then Some (rc, file, s, dev)
    else if bool_decide (i_data i ≠ None) && (i_capacity i <? new_size) then
      match vfs_grow_file s node new_size blk with
      | None => None
      | Some (g, s) =>
          if negb (g =? 0) then Some (RDNX_E_NOMEM, file, s, dev)
          else Some (set_size s file new_size, dev)
      end
    else Some (set_size s file new_size, dev)
  else if i_capacity i <? new_size then
    match vfs_grow_file s node new_size blk with
    | None => None
    | Some (g, s) =>
        if negb (g =? 0) then Some (RDNX_E_NOMEM, file, s, dev)
        else Some (set_size s file new_size, dev)
    end
  else Some (set_size s file new_size, dev).

(** ** Opening and closing *)
Definition no_file : vfs_file_t := mk_file 0 0 false.

(** The part of [vfs_open] behind the lookup.  [out] is the content of
    [*out_file] at the call. *)
Definition open_node (s : vfs_state) (dev : D) (node flags : Z) (out : vfs_file_t) (blk : data_block)
    : option (Z * vfs_file_t * vfs_state * D) :=
  if is_dir (nodes s) node then Some (RDNX_E_INVALID, out, s, dev)
  else
    let s := vfs_node_retain s node in
    let file := mk_file node 0 (has_flag flags VFS_OPEN_WRITE) in
    if has_flag flags VFS_OPEN_TRUNC then
      match vfs_resize_file s dev file 0 blk with
      | None => None
      | Some (trc, file, s, dev) =>
          if negb (trc =? RDNX_OK) then Some (trc, no_file, vfs_node_release s (f_node file), dev)
          else Some (RDNX_OK, file, s, dev)
      end
    else Some (RDNX_OK, file, s, dev).

Definition vfs_open (s : vfs_state) (dev : D) (b : node_blocks) (path : list Z) (flags : Z)
    (out : vfs_file_t) (blk : data_block) : option (Z * vfs_file_t * vfs_state * D) :=
  if negb (vfs_ready s) then Some (RDNX_E_INVALID, out, s, dev)
  else
    let '(node, s) := vfs_lookup s path in
    if node =? 0 then
      if negb (has_flag flags VFS_OPEN_CREATE) then Some (RDNX_E_NOTFOUND, out, s, dev)
      else
        let '(parent, leaf) := vfs_resolve_parent s path in
        if parent =? 0 then Some (RDNX_E_NOTFOUND, out, s, dev)
        else if is_ext2 s parent then Some (RDNX_E_UNSUPPORTED, out, s, dev)
        else
          let '(node, s) := vfs_create_node s b parent leaf VFS_NODE_FILE in
          if node =? 0 then Some (RDNX_E_NOMEM, out, s, dev)
          else open_node s dev node flags out blk
    else open_node s dev node flags out blk.

Definition vfs_close (s : vfs_state) (file : vfs_file_t) : Z * vfs_file_t * vfs_state :=
  (RDNX_OK, no_file, if negb (f_node file =? 0) then vfs_node_release s (f_node file) else s).

(** The copy, [dst] when there is none. *)
Definition vfs_file_dup (s : vfs_state) (src dst : vfs_file_t) : Z * vfs_file_t * vfs_state :=
  if f_node src =? 0 then (RDNX_E_INVALID, dst, s)
  else (RDNX_OK, src, vfs_node_retain s (f_node src)).

(** ** Reading and writing *)

(** The loop over sectors; [size] bytes are wanted and [out] were read.  Every
    round reads a byte at least. *)
Fixpoint bdev_read_loop (fuel : nat) (dev : D) (name : list Z) (sector pos size : Z) (out : list Z)
    : option (Z * list Z) :=
  let done := Z.of_nat (length out) in
  if done <? size then
    match fuel with
    | O => None
    | S fuel =>
        let off := pos +₆₄ done in
        let in_sector := off mod sector in
        let chunk := Z.min (size - done) (sector - in_sector) in
        let '(rc, bounce) := op_bdev_read ops dev name (off / sector) in
        if negb (rc =? RDNX_OK) then Some (rc, out)
        else bdev_read_loop fuel dev name sector pos size
               (out ++ take (Z.to_nat chunk) (drop (Z.to_nat in_sector) bounce))
    end
  else Some (RDNX_OK, out).

(** [bounce] says whether there was memory for the bounce buffer.  [None]: the
    console waits for input. *)
Definition vfs_read (s : vfs_state) (dev : D) (file : vfs_file_t) (size : Z) (bounce : bool)
    : option (Z * list Z * vfs_file_t * D) :=
  let i := n_inode (vnode s (f_node file)) in
  if f_node file =? 0 then Some (RDNX_E_INVALID, [], file, dev)
  else if has_flag (i_flags i) VFS_INODE_CONSOLE then
    match op_console_read ops dev size (f_writable file) with
    | None => None
    | Some (r, out, dev) => Some (r, out, file, dev)
    end
  else if has_flag (i_flags i) VFS_INODE_DEV_NULL then Some (0, [], file, dev)
  else if has_flag (i_flags i) VFS_INODE_DEV_ZERO
  then Some (s32 size, replicate (Z.to_nat size) 0, file, dev)
  else if has_flag (i_flags i) VFS_INODE_BLOCKDEV then
    let name := n_name (vnode s (f_node file)) in
    match op_bdev_find ops dev name with
    | None => Some (RDNX_E_NOTFOUND, [], file, dev)
    | Some sector =>
        if sector =? 0 then Some (RDNX_E_NOTFOUND, [], file, dev)
        else if size =? 0 then Some (0, [], file, dev)
        else if negb bounce then Some (RDNX_E_NOMEM, [], file, dev)
        else
          match bdev_read_loop (Z.to_nat size) dev name sector (f_pos file) size [] with
          | None => None
          | Some (rc, out) =>
              if negb (rc =? RDNX_OK) then Some (rc, out, file, dev)
              else Some (s32 size, out, file <| f_pos ::= λ p, p +₆₄ size |>, dev)
          end
    end
  else if i_size i <=? f_pos file then Some (0, [], file, dev)
  else
    let to_read := Z.min size (i_size i - f_pos file) in
    Some (s32 to_read,
          take (Z.to_nat to_read) (drop (Z.to_nat (f_pos file)) (default [] (i_data i))),
          file <| f_pos ::= λ p, p +₆₄ to_read |>, dev).

(** [memcpy (inode->data + pos, buffer, size)] *)
Definition put_data (pos : Z) (buf : list Z) (i : vfs_inode_t) : vfs_inode_t :=
  i <| i_data ::= fmap (list_inserts (Z.to_nat pos) buf) |>.

(** The branch of [vfs_write] for a file of ext2. *)
Definition write_ext2 (s : vfs_state) (dev : D) (file : vfs_file_t) (buf : list Z) (blk : data_block)
    : option (Z * vfs_file_t * vfs_state * D) :=
  let node := f_node file in
  let i := n_inode (vnode s node) in
  let size := Z.of_nat (length buf) in
  let stop := f_pos file +₆₄ size in
  let final_size := if i_size i <? stop then stop else i_size i in
  let '(wrc, dev) := op_ext2_writeback ops dev i (f_pos file) buf final_size in
  if negb (wrc =? RDNX_OK) then Some (wrc, file, s, dev)
  else
    match (if bool_decide (i_data i ≠ None) && (i_capacity i <? stop)
           then vfs_grow_file s node stop blk else Some (0, s)) with
    | None => None
    | Some (g, s) =>
        if negb (g =? 0) then Some (RDNX_E_NOMEM, file, s, dev)
        else
          let s := inode_upd node (λ i, if i_size i <? stop then i <| i_size := stop |> else i) s in
          let s := inode_upd node (λ i,
                     if 0 <? size then
                       let avail := if f_pos file <? i_size i then i_size i - f_pos file else 0 in
                       let copy := Z.min size avail in
                       if 0 <? copy then put_data (f_pos file) (take (Z.to_nat copy) buf) i else i
                     else i) s in
          Some (s32 size, file <| f_pos ::= λ p, p +₆₄ size |>, s, dev)
    end.

Definition vfs_write (s : vfs_state) (dev : D) (file : vfs_file_t) (buf : list Z) (blk : data_block)
    : option (Z * vfs_file_t * vfs_state * D) :=
  let node := f_node file in
  let i := n_inode (vnode s node) in
  let size := Z.of_nat (length buf) in
  if (node =? 0) || negb (f_writable file) then Some (RDNX_E_INVALID, file, s, dev)
  else if has_flag (i_flags i) VFS_INODE_CONSOLE then
    let '(r, dev) := op_console_write ops dev buf in Some (r, file, s, dev)
  else if has_flag (i_flags i) VFS_INODE_DEV_NULL then Some (s32 size, file, s, dev)
  else if has_flag (i_flags i) VFS_INODE_DEV_ZERO then Some (s32 size, file, s, dev)
  else if i_fs_tag i =? VFS_FS_TAG_EXT2 then write_ext2 s dev file buf blk
  else if has_flag (i_flags i) VFS_INODE_BLOCKDEV then
    let name := n_name (vnode s node) in
    match op_bdev_find ops dev name with
    | None => Some (RDNX_E_NOTFOUND, file, s, dev)
    | Some sector =>
        if sector =? 0 then Some (RDNX_E_NOTFOUND, file, s, dev)
        else if size =? 0 then Some (0, file, s, dev)
        else if negb (f_pos file mod sector =? 0) || negb (size mod sector =? 0)
        then Some (RDNX_E_INVALID, file, s, dev)
        else
          let '(rc, dev) := op_bdev_write ops dev name (f_pos file / sector) (u32 (size / sector)) buf in
          if negb (rc =? RDNX_OK) then Some (rc, file, s, dev)
          else Some (s32 size, file <| f_pos ::= λ p, p +₆₄ size |>, s, dev)
    end
  else
    let stop := f_pos file +₆₄ size in
    match vfs_grow_file s node stop blk with
    | None => None
    | Some (g, s) =>
        if negb (g =? 0) then Some (RDNX_E_NOMEM, file, s, dev)
        else
          let s := inode_upd node (put_data (f_pos file) buf) s in
          let s := inode_upd node (λ i, if i_size i <? stop then i <| i_size := stop |> else i) s in
          Some (s32 size, file <| f_pos ::= λ p, p +₆₄ size |>, s, dev)
    end.

(** The new position when there is one. *)
Definition vfs_seek (s : vfs_state) (file : vfs_file_t) (off whence : Z) : Z * Z * vfs_file_t :=
  let i := n_inode (vnode s (f_node file)) in
  if f_node file =? 0 then (RDNX_E_INVALID, 0, file)
  else if has_flag (i_flags i) VFS_INODE_CONSOLE then (RDNX_E_UNSUPPORTED, 0, file)
  else
    match (if whence =? 0 then Some 0 else if whence =? 1 then Some (f_pos file)
           else if whence =? 2 then Some (i_size i) else None) with
    | None => (RDNX_E_INVALID, 0, file)
    | Some base =>
        let next := s64 (s64 base + off) in
        if next <? 0 then (RDNX_E_INVALID, 0, file)
        else (RDNX_OK, next, file <| f_pos := next |>)
    end.

Definition vfs_truncate (s : vfs_state) (dev : D) (path : list Z) (new_size : Z) (blk : data_block)
    : option (Z * vfs_state * D) :=
  if negb (vfs_ready s) then Some (RDNX_E_INVALID, s, dev)
  else
    let '(node, s) := vfs_lookup s path in
    if (node =? 0) || is_dir (nodes s) node then Some (RDNX_E_NOTFOUND, s, dev)
    else
      match vfs_resize_file s dev (mk_file node 0 true) new_size blk with
      | None => None
      | Some (rc, _, s, dev) => Some (rc, s, dev)
      end.

Definition vfs_ftruncate (s : vfs_state) (dev : D) (file : vfs_file_t) (new_size : Z) (blk : data_block)
    : option (Z * vfs_file_t * vfs_state * D) :=
  vfs_resize_file s dev file new_size blk.

End Devices.

Definition node_stat (s : vfs_state) (node : Z) : vfs_stat_t :=
  mk_stat (if is_dir (nodes s) node then 16384 else 32768) (i_size (n_inode (vnode s node))).

Definition vfs_stat (s : vfs_state) (path : list Z) : Z * option vfs_stat_t * vfs_state :=
  if negb (vfs_ready s) then (RDNX_E_INVALID, None, s)
  else
    let '(node, s) := vfs_lookup s path in
    if node =? 0 then (RDNX_E_NOTFOUND, None, s) else (RDNX_OK, Some (node_stat s node), s).

Definition vfs_fstat (s : vfs_state) (file : vfs_file_t) : Z * option vfs_stat_t :=
  if f_node file =? 0 then (RDNX_E_INVALID, None) else (RDNX_OK, Some (node_stat s (f_node file))).

(** ** What file systems use *)
Definition vfs_fs_alloc_node := vfs_alloc_node.

Definition vfs_fs_add_child (s : vfs_state) (parent child : Z) : Z * vfs_state :=
  if (parent =? 0) || (child =? 0) then (RDNX_E_INVALID, s)
  else
    let '(rc, s) := vfs_add_child s parent child in
    (if rc =? 0 then RDNX_OK else RDNX_E_INVALID, s).

(** [data] is [None] for NULL. *)
Definition vfs_fs_set_file_data (s : vfs_state) (node : Z) (data : option (list Z)) (size : Z)
    (blk : data_block) : option (Z * vfs_state) :=
  if (node =? 0) || is_dir (nodes s) node then Some (RDNX_E_INVALID, s)
  else if (0 <? size) && bool_decide (data = None) then Some (RDNX_E_INVALID, s)
  else
    match vfs_grow_file s node size blk with
    | None => None
    | Some (g, s) =>
        if negb (g =? 0) then Some (RDNX_E_NOMEM, s)
        else
          let s := if 0 <? size
                   then inode_upd node (put_data 0 (take (Z.to_nat size) (default [] data))) s else s in
          Some (RDNX_OK, inode_upd node (λ i, i <| i_size := size |>) s)
    end.

Definition vfs_fs_free_node := vfs_node_release.

(** ** Mounting *)
Definition vfs_register_fs (s : vfs_state) (name : list Z) : Z * vfs_state :=
  if bool_decide (name ∈ vfs_fs_drivers s) && negb (bool_decide (name = [])) then (RDNX_OK, s)
  else if VFS_MAX_FS_DRIVERS <=? Z.of_nat (length (vfs_fs_drivers s)) then (RDNX_E_NOMEM, s)
  else (RDNX_OK, s <| vfs_fs_drivers ::= λ l, l ++ [name] |>).

(** [vfs_find_fs_driver (name) != NULL] *)
Definition vfs_find_fs_driver (s : vfs_state) (name : list Z) : bool :=
  if bool_decide (name = []) then false else bool_decide (name ∈ vfs_fs_drivers s).

Definition ROOT_NAME : list Z := [SLASH].

Definition vfs_ramfs_mount (s : vfs_state) (b : node_blocks) : Z * Z * vfs_state :=
  let '(root, s) := vfs_alloc_node s b ROOT_NAME VFS_NODE_DIR in
  if root =? 0 then (RDNX_E_NOMEM, 0, s) else (RDNX_OK, root, s).

(** [mount] is the function of the driver: its result, the root and the
    state; [mnt] is the block for the mount record. *)
Definition vfs_mount (s : vfs_state) (fs_name target : list Z) (mount : vfs_state → Z * Z * vfs_state)
    (mnt : Z) : Z * vfs_state :=
  if negb (vfs_ready s) then (RDNX_E_INVALID, s)
  else if negb (vfs_find_fs_driver s fs_name) then (RDNX_E_NOTFOUND, s)
  else
    let '(mountpoint, s) := vfs_lookup s target in
    if (mountpoint =? 0) || negb (is_dir (nodes s) mountpoint) then (RDNX_E_NOTFOUND, s)
    else if negb (vfs_find_mount_at s mountpoint =? 0) then (RDNX_E_BUSY, s)
    else
      let '(mrc, root, s) := mount s in
      if negb (mrc =? RDNX_OK) || (root =? 0) || negb (is_dir (nodes s) root)
      then (if mrc =? RDNX_OK then RDNX_E_GENERIC else mrc, s)
      else if mnt =? 0 then (RDNX_E_NOMEM, s)
      else
        (RDNX_OK, vfs_cache_reset (s <| mounts ::= <[mnt := mk_mount fs_name root mountpoint]> |>
                                     <| vfs_mounts ::= cons mnt |>)).

Definition RAMFS_NAME : list Z := [114; 97; 109; 102; 115].
Definition DEVFS_NAME : list Z := [100; 101; 118; 102; 115].
Definition DEV_PATH : list Z := [47; 100; 101; 118].

Definition vfs_mount_ramfs (s : vfs_state) (b : node_blocks) (path : list Z) (mnt : Z) : Z * vfs_state :=
  vfs_mount s RAMFS_NAME path (λ s, vfs_ramfs_mount s b) mnt.

Definition vfs_mount_root_ramfs (s : vfs_state) (b : node_blocks) (mnt : Z) : Z * vfs_state :=
  if negb (vfs_find_fs_driver s RAMFS_NAME) then (-1, s)
  else if mnt =? 0 then (-1, s)
  else
    let '(rc, root, s) := vfs_ramfs_mount s b in
    if negb (rc =? RDNX_OK) || (root =? 0) then (-1, s)
    else
      (0, s <| mounts ::= <[mnt := mk_mount RAMFS_NAME root 0]> |> <| vfs_mounts ::= cons mnt |>
            <| vfs_root_mount := mnt |> <| vfs_root := root |>).

Definition vfs_mount_devfs (s : vfs_state) (b : node_blocks) (mount : vfs_state → Z * Z * vfs_state)
    (mnt : Z) : Z * vfs_state :=
  if vfs_root s =? 0 then (-1, s)
  else
    let '(mkrc, s) := vfs_mkdir s b DEV_PATH in
    if negb (mkrc =? RDNX_OK) then (-1, s)
    else
      let '(mrc, s) := vfs_mount s DEVFS_NAME DEV_PATH mount mnt in
      if negb (mrc =? RDNX_OK) && negb (mrc =? RDNX_E_BUSY) then (-1, s) else (0, s).

(** ** The initrd image *)
Definition INITRD_MAGIC : Z := 1380208216.
Definition INITRD_HEADER_SIZE : Z := 8.
Definition INITRD_ENTRY_SIZE : Z := 72.

(** The little-endian word at an offset. *)
Definition le32 (d : list Z) (off : Z) : Z :=
  let b k := d !!! Z.to_nat (off + k) in
  b 0 + 256 * b 1 + 65536 * b 2 + 16777216 * b 3.

(** What [kmalloc] returns while an entry is imported: for every directory of
    its path, for the node of the file, and for its data. *)
Record import_blocks := mk_import_blocks {
  ib_dirs : nat → node_blocks;
  ib_file : node_blocks;
  ib_data : data_block
}.

(** The parents of the path: [dirbuf] up to the slash at each index [k]. *)
Definition import_dirs (s : vfs_state) (dirs : nat → node_blocks) (path : list Z) : vfs_state :=
  foldl (λ s k, if (path !!! k =? SLASH) then (vfs_mkdir s (dirs k) (take k path)).2 else s)
    s (seq 1 (length path - 1)).

Definition import_entry (s : vfs_state) (img : list Z) (b : import_blocks) (e : Z) : option vfs_state :=
  let path := c_str (drop (Z.to_nat e) img) in
  let offset := le32 img (e + 64) in
  let size := le32 img (e + 68) in
  if bool_decide (path = []) then Some s
  else if Z.of_nat (length img) <? offset + size then Some s
  else if 128 <=? Z.of_nat (length path) then Some s
  else if negb (path !!! 0%nat =? SLASH) then Some s
  else
    let s := import_dirs s (ib_dirs b) path in
    let '(parent, leaf) := vfs_resolve_parent s path in
    if parent =? 0 then Some s
    else
      let found := vfs_find_child (nodes s) parent leaf in
      let '(node, s) := if found =? 0 then vfs_create_node s (ib_file b) parent leaf VFS_NODE_FILE
                        else (found, s) in
      if node =? 0 then Some s
      else
        match vfs_grow_file s node size (ib_data b) with
        | None => None
        | Some (g, s) =>
            if negb (g =? 0) then Some s
            else
              let s := inode_upd node
                         (put_data 0 (take (Z.to_nat size) (drop (Z.to_nat offset) img))) s in
              Some (inode_upd node (λ i, i <| i_size := size |>) s)
        end.

Fixpoint import_loop (s : vfs_state) (img : list Z) (b : nat → import_blocks) (l : list nat)
    : option vfs_state :=
  match l with
  | [] => Some s
  | i :: l =>
      match import_entry s img (b i) (INITRD_HEADER_SIZE + INITRD_ENTRY_SIZE * Z.of_nat i) with
      | None => None
      | Some s => import_loop s img b l
      end
  end.

Definition vfs_import_initrd (s : vfs_state) (b : nat → import_blocks) : option (Z * vfs_state) :=
  match vfs_initrd s with
  | None => Some (0, s)
  | Some img =>
      let size := Z.of_nat (length img) in
      if (vfs_root s =? 0) || (size =? 0) then Some (0, s)
      else if size <? INITRD_HEADER_SIZE then Some (-1, s)
      else if negb (le32 img 0 =? INITRD_MAGIC) then Some (-1, s)
      else if size <? INITRD_HEADER_SIZE + le32 img 4 * INITRD_ENTRY_SIZE then Some (-1, s)
      else
        match import_loop s img b (seq 0 (Z.to_nat (le32 img 4))) with
        | None => None
        | Some s => Some (0, s)
        end
  end.

Definition vfs_set_initrd (s : vfs_state) (img : list Z) : vfs_state := s <| vfs_initrd := Some img |>.

(** [root] is the block for the new root. *)
Definition vfs_mount_initrd_root (s : vfs_state) (root : node_blocks) (b : nat → import_blocks)
    (dev : node_blocks) (mount : vfs_state → Z * Z * vfs_state) (mnt : Z) : option (Z * vfs_state) :=
  if negb (vfs_ready s) || bool_decide (default [] (vfs_initrd s) = []) then Some (-1, s)
  else if vfs_root_mount s =? 0 then Some (-1, s)
  else
    let '(new_root, s) := vfs_alloc_node s root ROOT_NAME VFS_NODE_DIR in
    if new_root =? 0 then Some (-1, s)
    else
      let s := s <| mounts ::= alter (λ m, m <| mnt_root := new_root |>) (vfs_root_mount s) |>
                 <| vfs_root := new_root |> in
      match vfs_import_initrd (vfs_cache_reset s) b with
      | None => None
      | Some (ret, s) =>
          if negb (ret =? 0) then Some (ret, s)
          else
            let '(drc, s) := vfs_mount_devfs s dev mount mnt in
            Some (if negb (drc =? 0) then -1 else 0, s)
      end.

Definition EXT2_NAME : list Z := [101; 120; 116; 50].

(** [root], [rmnt]: the blocks of the root mount; [dev], [dmnt]: those of the
    mount on [/dev]. *)
Definition vfs_init (s : vfs_state) (root : node_blocks) (rmnt : Z) (b : nat → import_blocks)
    (dev : node_blocks) (mount : vfs_state → Z * Z * vfs_state) (dmnt : Z) : option (Z * vfs_state) :=
  if vfs_ready s then Some (RDNX_OK, s)
  else
    let s := (vfs_register_fs s RAMFS_NAME).2 in
    let s := (vfs_register_fs s DEVFS_NAME).2 in
    let s := (vfs_register_fs s EXT2_NAME).2 in
    let '(rc, s) := vfs_mount_root_ramfs s root rmnt in
    if negb (rc =? 0) then Some (RDNX_E_GENERIC, s)
    else
      match vfs_import_initrd (vfs_cache_reset s) b with
      | None => None
      | Some (_, s) => Some (RDNX_OK, (vfs_mount_devfs (s <| vfs_ready := true |>) dev mount dmnt).2)
      end.

End VfsFile.
