(* ===== verification/UnixPath.v ===== *)
(** * User pointers and path names of the Unix layer
    (kernel/unix/uaccess/unix_uaccess.c, kernel/unix/fd/unix_fd.c)

    The range check on user pointers, the copy of a string from user memory,
    and the functions that make a path absolute and normal.  User memory is a
    byte store; strings are lists of characters ([PathSpec]).  The array
    [tmp] of [unix_resolve_path] is the list of the characters stored so far,
    and a store past its 256 bytes is the result [None].

    The theorems: the range check accepts exactly the ranges of user
    addresses; normalisation is the resolution of the components of the path,
    for the lengths and depths that the callers can pass; the results are
    normal paths that fit the buffer; and the inputs for which the code drops
    components or leaves its buffer. *)

From stdpp Require Import base gmap list numbers fin_maps.
From S2P Require Import Prelude PathSpec.

Module UnixPath.
Import PathSpec.

Definition UNIX_PATH_MAX : Z := 256.
Definition UNIX_USER_MIN_VA : Z := 4096.
Definition ARCH_USER_CANON_MAX : Z := 140737488355327.
Definition ARCH_KERNEL_VIRT_BASE : Z := 18446744071562067968.

Abbreviation umem := (gmap Z Z).

(** ** User access *)

(** [__builtin_add_overflow (a, b, &end)]: [None] on overflow. *)
Definition add_overflow (a b : Z) : option Z :=
  if 18446744073709551616 <=? a + b then None else Some (a + b).

Definition unix_user_range_ok (ptr len : Z) : bool :=
  if ptr =? 0 then false
  else if (ptr <? UNIX_USER_MIN_VA) || (ARCH_USER_CANON_MAX <? ptr) || (ARCH_KERNEL_VIRT_BASE <=? ptr)
  then false
  else if len =? 0 then true
  else
    match add_overflow ptr (len - 1) with
    | None => false
    | Some stop => (stop <=? ARCH_USER_CANON_MAX) && (stop <? ARCH_KERNEL_VIRT_BASE)
    end.

(** The loop over [i] with [n] bytes of [dst] left; [dst] is what was written. *)
Fixpoint copy_cstr_loop (n : nat) (m : umem) (base i : Z) (dst : list Z) : Z * list Z :=
  match n with
  | O => (RDNX_E_INVALID, take (length dst - 1) dst ++ [0])
  | S n =>
      let cur := base +₆₄ i in
      if (ARCH_USER_CANON_MAX <? cur) || (ARCH_KERNEL_VIRT_BASE <=? cur)
      then (RDNX_E_INVALID, dst)
      else
        let c := m !!! cur in
        let dst := dst ++ [c] in
        if c =? 0 then (RDNX_OK, dst) else copy_cstr_loop n m base (i + 1) dst
  end.

(** The result and the bytes written to [dst], an array. *)
Definition unix_copy_user_cstr (m : umem) (dst_size user_src : Z) : Z * list Z :=
  if (dst_size =? 0) || (user_src =? 0) then (RDNX_E_INVALID, [])
  else if (user_src <? UNIX_USER_MIN_VA) || (ARCH_USER_CANON_MAX <? user_src)
          || (ARCH_KERNEL_VIRT_BASE <=? user_src)
  then (RDNX_E_INVALID, [])
  else copy_cstr_loop (Z.to_nat dst_size) m user_src 0 [].

(** ** Paths *)
Definition unix_is_abs_path (p : list Z) : bool :=
  match p with
  | [] => false
  | c :: _ => c =? SLASH
  end.

(** What the loop does with the segment it scanned; [segs] are the first
    [seg_count] rows of the array. *)
Definition push_seg (segs : list (list Z)) (seg : list Z) : list (list Z) :=
  if bool_decide (seg = []) || bool_decide (seg = [DOT]) then segs
  else if bool_decide (seg = [DOT; DOT]) then removelast segs
  else if Z.of_nat (length segs) <? 32 then segs ++ [seg]
  else segs.

(** The loop over the rest of the string; [None] when the fuel runs out. *)
Fixpoint normalize_loop (fuel : nat) (l : list Z) (segs : list (list Z)) : option (list (list Z)) :=
  match fuel, l with
  | _, [] => Some segs
  | O, _ => None
  | S fuel, _ =>
      let '(seg, rest) := scan_seg (Z.to_nat (UNIX_PATH_MAX - 1)) l in
      normalize_loop fuel (skip_slashes rest) (push_seg segs seg)
  end.

(** [if (p + 1 < out_sz) out[p++] = c;], where [p] is the length of [out]. *)
Definition put_char (out_sz : Z) (out : list Z) (c : Z) : list Z :=
  if Z.of_nat (length out) + 1 <? out_sz then out ++ [c] else out.

Fixpoint emit_segs (out_sz : Z) (out : list Z) (segs : list (list Z)) : list Z :=
  match segs with
  | [] => out
  | [seg] => foldl (put_char out_sz) out seg
  | seg :: segs => emit_segs out_sz (put_char out_sz (foldl (put_char out_sz) out seg) SLASH) segs
  end.

(** [in_] and [out] are arrays; the result is the string left in [out]. *)
Definition unix_path_normalize (in_ : list Z) (out_sz : Z) : Z * list Z :=
  if out_sz <? 2 then (RDNX_E_INVALID, [])
  else
    match normalize_loop (length in_) (skip_slashes in_) [] with
    | None => (RDNX_E_INVALID, [])
    | Some segs => (RDNX_OK, emit_segs out_sz [SLASH] segs)
    end.

(** The characters appended to [tmp] while [p + 1 < sizeof (tmp)]. *)
Definition fill_tmp (tmp l : list Z) : list Z :=
  tmp ++ take (Z.to_nat (UNIX_PATH_MAX - 1) - length tmp) l.
Arguments fill_tmp : simpl never.

(** [cwd] is the string in the [cwd] array of the task.  [None] when the
    terminator is stored past the end of [tmp]. *)
Definition unix_resolve_path (cwd in_ : list Z) (out_sz : Z) : option (Z * list Z) :=
  if out_sz <? 2 then Some (RDNX_E_INVALID, [])
  else if unix_is_abs_path in_ then Some (unix_path_normalize in_ out_sz)
  else
    let tmp := fill_tmp [] cwd in
    let tmp := match last tmp with
               | None => tmp ++ [SLASH]
               | Some c => if c =? SLASH then tmp else tmp ++ [SLASH]
               end in
    let tmp := fill_tmp tmp in_ in
    if UNIX_PATH_MAX <=? Z.of_nat (length tmp) then None
    else Some (unix_path_normalize tmp out_sz).

(** [cwd] is the string in the [cwd] array of the current task. *)
Definition unix_resolve_user_path (m : umem) (cwd : list Z) (user_src out_sz : Z)
    : option (Z * list Z) :=
  let '(rc, in_) := unix_copy_user_cstr m UNIX_PATH_MAX user_src in
  if negb (rc =? RDNX_OK) then Some (RDNX_E_INVALID, [])
  else unix_resolve_path cwd (c_str in_) out_sz.

(** ** Specification *)

(** The components that a path names, relative to [st]: [.] stays, [..]
    leaves the innermost directory. *)
Definition resolve_step (st : list (list Z)) (c : list Z) : list (list Z) :=
  if bool_decide (c = [DOT]) then st
  else if bool_decide (c = [DOT; DOT]) then removelast st
  else st ++ [c].

Definition resolve (cs : list (list Z)) : list (list Z) := foldl resolve_step [] cs.

(** No prefix of the path is more than 32 directories deep. *)
Definition shallow (cs : list (list Z)) : Prop :=
  ∀ k, (length (resolve (take k cs)) ≤ 32)%nat.

(** Every prefix of a path of 32 components is that shallow. *)
Lemma resolve_length st cs : (length (foldl resolve_step st cs) ≤ length st + length cs)%nat.
Proof.
  revert st. induction cs as [|c cs IH]; intros st; simpl; [lia|].
  specialize (IH (resolve_step st c)). enough (length (resolve_step st c) ≤ S (length st))%nat by lia.
  unfold resolve_step. repeat case_bool_decide; [lia| |rewrite length_app; simpl; lia].
  rewrite removelast_firstn_len, length_take. lia.
Qed.

Lemma shallow_short cs : (length cs ≤ 32)%nat → shallow cs.
Proof.
  intros H k. pose proof (resolve_length [] (take k cs)). rewrite length_take in *. simpl in *.
  unfold resolve. lia.
Qed.

(** ** The range check *)
Lemma range_ok_spec ptr len :
  in_u64 ptr → in_u64 len →
  unix_user_range_ok ptr len = true ↔
  4096 ≤ ptr ≤ ARCH_USER_CANON_MAX ∧ ∀ a, ptr ≤ a < ptr + len → a ≤ ARCH_USER_CANON_MAX.
Proof.
  intros Hp Hl. unfold unix_user_range_ok, add_overflow, UNIX_USER_MIN_VA, ARCH_USER_CANON_MAX,
    ARCH_KERNEL_VIRT_BASE. split.
  - intros H. repeat (case_if; bool_hyps; try done); bool_hyps; split; intros; lia.
  - intros [H1 H2].
    rewrite (proj2 (Z.eqb_neq ptr 0)), (proj2 (Z.ltb_ge ptr 4096)), (proj2 (Z.ltb_ge _ ptr)),
      (proj2 (Z.leb_gt _ ptr)) by lia. simpl.
    case_if; [done|]. bool_hyps. specialize (H2 (ptr + (len - 1)) ltac:(lia)).
    rewrite (proj2 (Z.leb_gt _ (ptr + (len - 1)))) by lia.
    apply andb_true_iff. split; [apply Z.leb_le|apply Z.ltb_lt]; lia.
Qed.

(** ** Normalisation *)
Lemma push_seg_step st c :
  c ≠ [] → (length (resolve_step st c) ≤ 32)%nat → push_seg st c = resolve_step st c.
Proof.
  intros Hc. unfold push_seg, resolve_step.
  rewrite (bool_decide_eq_false_2 (c = [])) by done. simpl.
  repeat case_bool_decide; try done. rewrite length_app. simpl. intros Hl.
  case_if; bool_hyps; [done|lia].
Qed.

Lemma resolve_app cs ds : resolve (cs ++ ds) = foldl resolve_step (resolve cs) ds.
Proof. apply foldl_app. Qed.

Lemma shallow_tail st c cs :
  (∀ k, (length (foldl resolve_step st (take k (c :: cs))) ≤ 32)%nat) →
  (length (resolve_step st c) ≤ 32)%nat ∧
  (∀ k, (length (foldl resolve_step (resolve_step st c) (take k cs)) ≤ 32)%nat).
Proof. intros H. split; [apply (H 1%nat)|intros k; apply (H (S k))]. Qed.

(** The first component of a string that does not start with a slash, and the
    string behind it. *)
Lemma scan_component n l :
  l ≠ [] → (∀ c r, l = c :: r → c ≠ SLASH) →
  Forall (λ p, (length p ≤ n)%nat) (components l) →
  ∃ seg rest, scan_seg n l = (seg, rest) ∧ seg ≠ [] ∧
    components l = seg :: components (skip_slashes rest).
Proof.
  intros Hne Hh Hn. destruct l as [|c l]; [done|].
  specialize (Hh c l eq_refl).
  destruct (split_slash_cons l) as (p & ps & Hp).
  assert (split_slash (c :: l) = (c :: p) :: ps) as Hs.
  { simpl. rewrite (proj2 (Z.eqb_neq c SLASH)) by done. by rewrite Hp. }
  assert (components (c :: l) = (c :: p) :: filter (λ p, p ≠ []) ps) as Hc.
  { unfold components. rewrite Hs. by rewrite filter_cons_True. }
  rewrite Hc in Hn. inversion_clear Hn as [|? ? Hl _].
  destruct (scan_seg_split n (c :: l) _ _ Hs Hl) as [H1 H2].
  destruct (scan_seg n (c :: l)) as [seg rest]. simpl in H1, H2. subst seg.
  exists (c :: p), rest. split; [done|]. split; [done|].
  rewrite Hc. f_equal. rewrite split_slash_skip.
  destruct H2 as [[-> ->]|(r & -> & Hr)]; [done|].
  rewrite components_slash. unfold components. by rewrite Hr.
Qed.

Lemma scan_skip_length n l seg rest :
  scan_seg n l = (seg, rest) → seg ≠ [] → (length (skip_slashes rest) < length l)%nat.
Proof.
  intros Hs Hne. pose proof (scan_seg_length n l) as H. rewrite Hs in H. simpl in H.
  pose proof (skip_slashes_length rest). destruct seg; [done|]. simpl in H. lia.
Qed.

Lemma normalize_loop_spec fuel l st :
  (length l ≤ fuel)%nat → (∀ c r, l = c :: r → c ≠ SLASH) →
  Forall (λ p, (length p ≤ 255)%nat) (components l) →
  normalize_loop fuel l st = Some (foldl push_seg st (components l)).
Proof.
  revert l st. induction fuel as [|fuel IH]; intros l st Hf Hh Hn.
  { destruct l; [done|simpl in Hf; lia]. }
  destruct l as [|c l]; [done|].
  destruct (scan_component 255 (c :: l) ltac:(done) Hh Hn) as (seg & rest & Hs & Hne & Hc).
  cbn [normalize_loop]. change (Z.to_nat (UNIX_PATH_MAX - 1)) with 255%nat. rewrite Hs.
  rewrite Hc in Hn |- *. pose proof (scan_skip_length _ _ _ _ Hs Hne) as Hlen.
  simpl. apply IH; [simpl in *; lia| |by inversion Hn].
  intros d r Hd. by apply skip_slashes_head in Hd.
Qed.

(** While the depth stays within 32 the segments are those of the
    specification. *)
Lemma push_shallow st cs :
  Forall (λ c, c ≠ []) cs →
  (∀ k, (length (foldl resolve_step st (take k cs)) ≤ 32)%nat) →
  foldl push_seg st cs = foldl resolve_step st cs.
Proof.
  revert st. induction cs as [|c cs IH]; intros st Hne Hk; [done|].
  apply Forall_cons in Hne as [Hc Hne]. apply shallow_tail in Hk as [Hk1 Hk2].
  simpl. rewrite push_seg_step by done. by apply IH.
Qed.

(** Every string is scanned to its end. *)
Lemma normalize_loop_total fuel l st :
  (length l ≤ fuel)%nat → (∀ c r, l = c :: r → c ≠ SLASH) →
  is_Some (normalize_loop fuel l st).
Proof.
  revert l st. induction fuel as [|fuel IH]; intros l st Hf Hh.
  { destruct l; [by eexists|simpl in Hf; lia]. }
  destruct l as [|c l]; [by eexists|]. specialize (Hh c l eq_refl).
  cbn [normalize_loop]. change (Z.to_nat (UNIX_PATH_MAX - 1)) with (S 254).
  destruct (scan_seg (S 254) (c :: l)) as [seg rest] eqn:Hs.
  pose proof (scan_seg_nonempty 254 c l Hh) as Hne. rewrite Hs in Hne.
  pose proof (scan_skip_length _ _ _ _ Hs Hne) as Hlen. cbn [length] in Hf, Hlen.
  apply IH; [lia|]. intros d r Hd. by apply skip_slashes_head in Hd.
Qed.

(** ** Output *)
Lemma put_chars_fit n out p :
  Z.of_nat (length out + length p) + 1 ≤ n → foldl (put_char n) out p = out ++ p.
Proof.
  revert out. induction p as [|c p IH]; intros out Hn; simpl; [by rewrite app_nil_r|].
  simpl in Hn. unfold put_char at 2. rewrite (proj2 (Z.ltb_lt _ _)) by lia.
  rewrite IH by (rewrite length_app; simpl; lia). by rewrite <- app_assoc.
Qed.

Lemma put_char_bound n out c :
  Z.of_nat (length out) + 1 ≤ n → Z.of_nat (length (put_char n out c)) + 1 ≤ n.
Proof. intros. unfold put_char. case_if; bool_hyps; rewrite ?length_app; simpl; lia. Qed.

Lemma put_chars_bound n out p :
  Z.of_nat (length out) + 1 ≤ n → Z.of_nat (length (foldl (put_char n) out p)) + 1 ≤ n.
Proof. revert out. induction p; simpl; intros; [done|]. by apply IHp, put_char_bound. Qed.

Lemma emit_segs_bound n out segs :
  Z.of_nat (length out) + 1 ≤ n → Z.of_nat (length (emit_segs n out segs)) + 1 ≤ n.
Proof.
  revert out. induction segs as [|p [|q segs] IH]; simpl; intros out H; [done| |].
  - by apply put_chars_bound.
  - by apply IH, put_char_bound, put_chars_bound.
Qed.

Lemma emit_segs_cons n out p q segs :
  emit_segs n out (p :: q :: segs)
    = emit_segs n (put_char n (foldl (put_char n) out p) SLASH) (q :: segs).
Proof. done. Qed.

Lemma emit_segs_fit n out segs :
  Z.of_nat (length out + length (join_slash segs)) + 1 ≤ n →
  emit_segs n out segs = out ++ join_slash segs.
Proof.
  revert out. induction segs as [|p [|q segs] IH]; intros out Hn.
  - by rewrite app_nil_r.
  - by apply put_chars_fit.
  - rewrite emit_segs_cons. rewrite join_slash_cons in Hn |- *.
    rewrite length_app in Hn. cbn [length] in Hn.
    rewrite put_chars_fit by lia.
    unfold put_char. rewrite (proj2 (Z.ltb_lt _ _)) by (rewrite length_app; lia).
    rewrite IH by (rewrite !length_app; cbn [length]; lia).
    by rewrite <- !app_assoc.
Qed.

(** Resolution keeps within the weight of the components. *)
Lemma removelast_weight st : (weight (removelast st) ≤ weight st)%nat.
Proof. induction st as [|p [|q st] IH]; unfold weight in *; simpl in *; lia. Qed.

Lemma resolve_step_weight st c : (weight (resolve_step st c) ≤ weight st + S (length c))%nat.
Proof.
  unfold resolve_step. repeat case_bool_decide.
  - lia.
  - pose proof (removelast_weight st). lia.
  - rewrite weight_app. unfold weight at 2. simpl. lia.
Qed.

Lemma resolve_weight st cs : (weight (foldl resolve_step st cs) ≤ weight st + weight cs)%nat.
Proof.
  revert st. induction cs as [|c cs IH]; intros st; simpl; [lia|].
  specialize (IH (resolve_step st c)). pose proof (resolve_step_weight st c).
  unfold weight at 3. simpl. fold (weight cs). lia.
Qed.

Lemma weight_elem p ps : p ∈ ps → (length p < weight ps)%nat.
Proof.
  induction 1 as [p ps|p q ps _ IH]; unfold weight in *; simpl; lia.
Qed.

Lemma normal_path_length cs l :
  (weight cs ≤ l)%nat → (length (abs_path (resolve cs)) ≤ Nat.max 1 l)%nat.
Proof.
  intros H. pose proof (resolve_weight [] cs) as Hr. change (weight []) with 0%nat in Hr.
  unfold abs_path, resolve. cbn [length].
  destruct (foldl resolve_step [] cs) as [|p st]; [simpl; lia|].
  pose proof (join_slash_weight (p :: st) ltac:(done)). lia.
Qed.

Lemma push_seg_weight st c : (weight (push_seg st c) ≤ weight st + S (length c))%nat.
Proof.
  unfold push_seg. repeat case_if; bool_hyps; subst; try lia.
  - pose proof (removelast_weight st). lia.
  - rewrite weight_app. unfold weight at 2. simpl. lia.
Qed.

Lemma push_segs_weight st cs : (weight (foldl push_seg st cs) ≤ weight st + weight cs)%nat.
Proof.
  revert st. induction cs as [|c cs IH]; intros st; simpl; [lia|].
  specialize (IH (push_seg st c)). pose proof (push_seg_weight st c).
  unfold weight at 3. simpl. fold (weight cs). lia.
Qed.

Lemma components_nonempty l : Forall (λ c, c ≠ []) (components l).
Proof. eapply Forall_impl; [apply components_part|]. by intros p [_ ?]. Qed.

(** What normalisation computes on a string that fits a path buffer. *)
Lemma normalize_segs l n :
  (length l ≤ 254)%nat → Z.of_nat (S (length l)) < n →
  unix_path_normalize (SLASH :: l) n = (RDNX_OK, abs_path (foldl push_seg [] (components l))).
Proof.
  intros Hl Hsz. unfold unix_path_normalize.
  rewrite (proj2 (Z.ltb_ge n 2)) by lia.
  pose proof (components_weight l) as Hw. rewrite components_slash in Hw.
  set (k := skip_slashes (SLASH :: l)).
  assert (components k = components l) as Hk.
  { unfold k. rewrite split_slash_skip. apply components_slash. }
  rewrite (normalize_loop_spec _ k []).
  - rewrite Hk. f_equal. pose proof (push_segs_weight [] (components l)) as Hp.
    change (weight []) with 0%nat in Hp. unfold abs_path.
    pose proof (join_slash_length (foldl push_seg [] (components l))) as Hj.
    destruct (foldl push_seg [] (components l)) as [|p ps]; [done|].
    pose proof (join_slash_weight (p :: ps) ltac:(done)).
    rewrite emit_segs_fit; [done|]. cbn [length]. lia.
  - unfold k. pose proof (skip_slashes_length (SLASH :: l)). simpl in *. lia.
  - intros c r Hc. by apply skip_slashes_head in Hc.
  - rewrite Hk. apply Forall_forall. intros p Hp%weight_elem. lia.
Qed.

Lemma normalize_result l n :
  (length l ≤ 254)%nat → Z.of_nat (S (length l)) < n → shallow (components l) →
  unix_path_normalize (SLASH :: l) n = (RDNX_OK, abs_path (resolve (components l))).
Proof.
  intros Hl Hsz Hsh. rewrite normalize_segs by done.
  by rewrite push_shallow by (done || apply components_nonempty).
Qed.

(** A component that names an entry. *)
Definition normal (c : list Z) : Prop := part c ∧ c ≠ [] ∧ c ≠ [DOT] ∧ c ≠ [DOT; DOT].

Lemma removelast_Forall {A} (P : A → Prop) l : Forall P l → Forall P (removelast l).
Proof.
  induction l as [|x [|y l] IH]; intros Hl; [done|by constructor|].
  inversion_clear Hl. constructor; [done|]. by apply IH.
Qed.

Lemma push_seg_normal st c :
  Forall normal st → part c → Forall normal (push_seg st c).
Proof.
  intros Hst Hc. unfold push_seg. repeat case_if; bool_hyps; try done.
  - by apply removelast_Forall.
  - apply Forall_app. split; [done|]. constructor; [|done]. done.
Qed.

Lemma push_segs_normal st cs :
  Forall normal st → Forall part cs → Forall normal (foldl push_seg st cs).
Proof.
  revert st. induction cs as [|c cs IH]; intros st Hst Hcs; [done|].
  inversion_clear Hcs. apply IH; [by apply push_seg_normal|done].
Qed.

(** On components that name entries the rows fill up and stop at 32. *)
Lemma push_segs_take st cs :
  Forall normal cs → (length st ≤ 32)%nat →
  foldl push_seg st cs = st ++ take (32 - length st) cs.
Proof.
  revert st. induction cs as [|c cs IH]; intros st Hcs Hst; simpl.
  { by rewrite take_nil, app_nil_r. }
  inversion_clear Hcs as [|? ? (_ & Hc1 & Hc2 & Hc3) Hcs'].
  unfold push_seg at 2. rewrite !bool_decide_eq_false_2 by done. simpl.
  case_if; bool_hyps.
  - rewrite IH by (done || (rewrite length_app; simpl; lia)).
    rewrite length_app. simpl length.
    replace (32 - length st)%nat with (S (32 - (length st + 1))) by lia.
    simpl. by rewrite <- app_assoc.
  - rewrite IH by done. by replace (32 - length st)%nat with 0%nat by lia.
Qed.

Lemma resolve_normal st cs :
  Forall normal cs → foldl resolve_step st cs = st ++ cs.
Proof.
  revert st. induction cs as [|c cs IH]; intros st Hcs; simpl; [by rewrite app_nil_r|].
  inversion_clear Hcs as [|? ? (_ & Hc1 & Hc2 & Hc3) Hcs'].
  unfold resolve_step at 2. rewrite !bool_decide_eq_false_2 by done.
  rewrite IH by done. by rewrite <- app_assoc.
Qed.

Lemma normal_parts cs : Forall normal cs → Forall (λ p, part p ∧ p ≠ []) cs.
Proof. intros H. eapply Forall_impl; [exact H|]. intros p (? & ? & _). done. Qed.

Lemma push_segs_length st cs : (length st ≤ 32)%nat → (length (foldl push_seg st cs) ≤ 32)%nat.
Proof.
  revert st. induction cs as [|c cs IH]; intros st Hst; [done|]. simpl. apply IH.
  unfold push_seg. repeat case_if; bool_hyps; try done.
  - rewrite removelast_firstn_len, length_take. lia.
  - rewrite length_app. simpl. lia.
Qed.

(** The path that normalisation returns is its own normal form. *)
Lemma normal_path_fixed cs n :
  Forall normal cs → (length cs ≤ 32)%nat → (length (join_slash cs) ≤ 254)%nat →
  Z.of_nat (S (length (join_slash cs))) < n →
  unix_path_normalize (abs_path cs) n = (RDNX_OK, abs_path cs).
Proof.
  intros Hcs H32 Hl Hn. unfold abs_path. rewrite normalize_segs by done.
  rewrite components_join by (by apply normal_parts).
  rewrite push_segs_take by (done || simpl; lia). simpl.
  by rewrite take_ge.
Qed.

(** ** Resolution against the working directory *)
Lemma fill_tmp_fit tmp l : (length tmp + length l ≤ 255)%nat → fill_tmp tmp l = tmp ++ l.
Proof.
  intros H. unfold fill_tmp. change (Z.to_nat (UNIX_PATH_MAX - 1)) with 255%nat.
  rewrite take_ge; [done|lia].
Qed.

Lemma fill_tmp_length tmp l :
  length (fill_tmp tmp l) = (length tmp + (255 - length tmp) `min` length l)%nat.
Proof. unfold fill_tmp. by rewrite length_app, length_take. Qed.

(** The relative path appended to the working directory. *)
Lemma resolve_path_tmp cwd in_ n :
  2 ≤ n → unix_is_abs_path in_ = false → (length cwd + 1 + length in_ ≤ 255)%nat →
  unix_resolve_path cwd in_ n
    = Some (unix_path_normalize
        (match last cwd with
         | Some c => if c =? SLASH then cwd ++ in_ else cwd ++ SLASH :: in_
         | None => SLASH :: in_
         end) n).
Proof.
  intros Hn Ha Hl. unfold unix_resolve_path. rewrite (proj2 (Z.ltb_ge n 2)), Ha by lia.
  rewrite (fill_tmp_fit [] cwd) by (simpl; lia). simpl.
  destruct (last cwd) as [c|] eqn:Hc.
  - case_if; rewrite fill_tmp_fit by (rewrite ?length_app; simpl; lia);
      rewrite (proj2 (Z.leb_gt _ _)) by (rewrite !length_app; unfold UNIX_PATH_MAX; simpl; lia).
    + done.
    + by rewrite <- app_assoc.
  - apply last_None in Hc as ->. cbn [app]. rewrite fill_tmp_fit by (simpl in *; lia).
    rewrite (proj2 (Z.leb_gt _ _)) by (unfold UNIX_PATH_MAX; simpl in *; lia). done.
Qed.

Lemma last_abs_path p ps : Forall normal (p :: ps) → last (abs_path (p :: ps)) ≠ Some SLASH.
Proof.
  intros H. unfold abs_path. rewrite last_cons.
  enough (∃ c, last (join_slash (p :: ps)) = Some c ∧ c ≠ SLASH) as (c & -> & Hc).
  { by intros [= ->]. }
  revert p H. induction ps as [|q ps IH]; intros p H; inversion_clear H as [|? ? (Hp & Hne & _) H'].
  - cbn [join_slash]. unfold part in Hp. destruct (last p) as [c|] eqn:E.
    + exists c. split; [done|]. apply last_Some_elem_of in E. by apply (proj1 (Forall_forall _ p) Hp c).
    + by apply last_None in E.
  - rewrite join_slash_cons. destruct (IH q H') as (c & Hc & Hs).
    exists c. split; [|done]. by rewrite last_app, last_cons, Hc.
Qed.

(** The components of the path built from a normal working directory. *)
Lemma resolve_relative ds in_ n :
  Forall normal ds → unix_is_abs_path in_ = false →
  (length (abs_path ds) + 1 + length in_ ≤ 255)%nat → 256 ≤ n →
  ∃ l, unix_resolve_path (abs_path ds) in_ n = Some (unix_path_normalize (SLASH :: l) n) ∧
    components l = ds ++ components in_ ∧ (length l ≤ 254)%nat.
Proof.
  intros Hds Ha Hl Hn. rewrite resolve_path_tmp by (done || lia).
  destruct ds as [|p ds].
  - exists in_. split; [done|]. split; [done|]. simpl in Hl. lia.
  - pose proof (last_abs_path p ds Hds) as Hlast.
    exists (join_slash (p :: ds) ++ SLASH :: in_). repeat split.
    + destruct (last (abs_path (p :: ds))) as [c|] eqn:E; [|by apply last_None in E].
      rewrite (proj2 (Z.eqb_neq c SLASH)) by congruence. done.
    + rewrite components_cat, components_join by (by apply normal_parts). done.
    + rewrite length_app. unfold abs_path in Hl. cbn [length] in *. lia.
Qed.

(** The terminator is stored past the end of [tmp] for the working
    directories of 255 characters, and for no other. *)
Lemma resolve_path_overflows cwd in_ n :
  (length cwd ≤ 255)%nat →
  unix_resolve_path cwd in_ n = None ↔
  2 ≤ n ∧ unix_is_abs_path in_ = false ∧ length cwd = 255%nat ∧ last cwd ≠ Some SLASH.
Proof.
  intros Hl. unfold unix_resolve_path.
  case_if; bool_hyps; [split; [done|lia]|].
  destruct (unix_is_abs_path in_); [split; [done|naive_solver]|].
  rewrite (fill_tmp_fit [] cwd) by (simpl; lia). simpl.
  set (tmp := match last cwd with
              | Some c => if c =? SLASH then cwd else cwd ++ [SLASH]
              | None => cwd ++ [SLASH] end).
  assert (length tmp = if decide (last cwd = Some SLASH) then length cwd else S (length cwd)) as Ht.
  { unfold tmp. destruct (last cwd) as [c|]; [case_if; bool_hyps|];
      case_decide; rewrite ?length_app; simpl; try lia; congruence. }
  pose proof (fill_tmp_length tmp in_). unfold UNIX_PATH_MAX.
  case_decide; case_if; bool_hyps; split; try done; intros; try (naive_solver lia).
Qed.

(** ** Theorems *)

(** The range check on user pointers accepts a range exactly when it
    starts at a user address and every byte of it has a user address; a length
    that wraps around the address space is refused. *)
Theorem unix_user_range_ok_correct ptr len :
  in_u64 ptr → in_u64 len →
  unix_user_range_ok ptr len = true ↔
  4096 ≤ ptr ≤ ARCH_USER_CANON_MAX ∧ ∀ a, ptr ≤ a < ptr + len → a ≤ ARCH_USER_CANON_MAX.
Proof. apply range_ok_spec. Qed.

Lemma unix_user_range_ok_witness :
  unix_user_range_ok 8192 100 = true ∧ unix_user_range_ok 8192 18446744073709551615 = false.
Proof.
  split.
  - apply (unix_user_range_ok_correct 8192 100); [lia..|].
    unfold ARCH_USER_CANON_MAX. split; [lia|]. intros a Ha. lia.
  - reflexivity.
Defined.


(** The path [/a/./b/../c]. *)
Definition dotted_path : list Z := [97; 47; 46; 47; 98; 47; 46; 46; 47; 99].


(** A relative path is read against the working directory: the result
    has the components of the directory followed by those of the path, with
    dots resolved, when both together fit the buffer. *)
Theorem unix_resolve_path_correct ds in_ :
  Forall normal ds → unix_is_abs_path in_ = false →
  (length (abs_path ds) + 1 + length in_ ≤ 255)%nat →
  shallow (ds ++ components in_) →
  unix_resolve_path (abs_path ds) in_ 256
    = Some (RDNX_OK, abs_path (foldl resolve_step ds (components in_))).
Proof.
  intros Hds Ha Hl Hs.
  destruct (resolve_relative ds in_ 256 Hds Ha Hl ltac:(lia)) as (l & -> & Hc & Hlen).
  rewrite normalize_result; [|lia|lia|by rewrite Hc].
  rewrite Hc, resolve_app. unfold resolve. by rewrite (resolve_normal [] ds).
Qed.

Lemma unix_resolve_path_witness :
  unix_resolve_path (abs_path [[97]; [98]]) [46; 46; 47; 99] 256
    = Some (RDNX_OK, [47; 97; 47; 99]).
Proof.
  rewrite (unix_resolve_path_correct [[97]; [98]] [46; 46; 47; 99]); [reflexivity| | | |].
  - repeat constructor; done.
  - reflexivity.
  - simpl. lia.
  - apply shallow_short. simpl. lia.
Defined.

(** The path buffer of [unix_resolve_path] is overrun exactly when the
    working directory has 255 characters, does not end in a slash, and the
    path is relative: the slash takes the last byte of the buffer and the
    terminator is stored behind it. *)
Theorem unix_resolve_path_bounds cwd in_ n :
  (length cwd ≤ 255)%nat →
  unix_resolve_path cwd in_ n = None ↔
  2 ≤ n ∧ unix_is_abs_path in_ = false ∧ length cwd = 255%nat ∧ last cwd ≠ Some SLASH.
Proof. apply resolve_path_overflows. Qed.

Lemma unix_resolve_path_bounds_witness :
  unix_resolve_path (SLASH :: replicate 254 97) [98] 256 = None.
Proof.
  apply (unix_resolve_path_bounds (SLASH :: replicate 254 97) [98] 256).
  - simpl. lia.
  - split; [lia|]. split; [reflexivity|]. split; [reflexivity|]. vm_compute. congruence.
Defined.

(** Components behind the 32nd are dropped without an error, so a deep
    path is resolved to one of its ancestors. *)
Theorem unix_path_normalize_deep cs :
  Forall normal cs → (length (join_slash cs) ≤ 254)%nat →
  unix_path_normalize (abs_path cs) 256 = (RDNX_OK, abs_path (take 32 cs)).
Proof.
  intros Hcs Hl. unfold abs_path. rewrite normalize_segs by lia.
  rewrite components_join by (by apply normal_parts).
  by rewrite push_segs_take by (done || simpl; lia).
Qed.

Lemma unix_path_normalize_deep_witness :
  unix_path_normalize (abs_path (replicate 33 [97])) 256 = (RDNX_OK, abs_path (replicate 32 [97])).
Proof.
  rewrite (unix_path_normalize_deep (replicate 33 [97])); [reflexivity| |simpl; lia].
  apply Forall_replicate. repeat split; [by repeat constructor|done..].
Defined.

End UnixPath.
