(* ===== verification/VfsFacts.v ===== *)
(** * The tree of VFS nodes

    The children of a directory form the list linked by [sibling]; [sibs]
    relates the first pointer to the list, and [tree] states what holds of all
    nodes together, with the children of every directory given by a function.
    The lemmas are one for each primitive change of the links: a node enters
    the store, is attached to a directory, is detached from it, gets a new
    name, or leaves the store. *)

From stdpp Require Import base gmap list numbers fin_maps.
From S2P Require Import Prelude PathSpec Vfs.

Module VfsFacts.
Import PathSpec Vfs.

Implicit Types (N : node_store) (K : Z → list Z).

(** ** Lists of siblings *)
Fixpoint sibs N (h : Z) (l : list Z) : Prop :=
  match l with
  | [] => h = 0
  | c :: l => h = c ∧ is_Some (N !! c) ∧ sibs N (n_sibling (N !!! c)) l
  end.

Lemma sibs_walk N fuel h l :
  N !! 0 = None → sibs N h l → (length l ≤ fuel)%nat → sibling_walk fuel N h = l.
Proof.
  intros H0. revert h l. induction fuel as [|fuel IH]; intros h [|c l]; simpl; try lia; try done.
  - by intros ->.
  - intros (-> & [x Hx] & Hl) Hf. destruct (Z.eqb_spec c 0) as [->|_]; [congruence|].
    by rewrite (IH _ l) by (done || lia).
Qed.

Lemma sibs_dom N h l c : sibs N h l → c ∈ l → is_Some (N !! c).
Proof.
  revert h. induction l as [|d l IH]; intros h; simpl; [intros _ H; by apply not_elem_of_nil in H|].
  intros (_ & Hd & Hl) [->|Hc]%elem_of_cons; [done|]. by eapply IH.
Qed.

Lemma nodup_size N l : NoDup l → (∀ c, c ∈ l → is_Some (N !! c)) → (length l ≤ size N)%nat.
Proof.
  intros Hnd Hl. rewrite <- size_dom. rewrite <- (size_list_to_set (C := gset Z) l) by done.
  apply subseteq_size. intros c. rewrite elem_of_list_to_set, elem_of_dom. apply Hl.
Qed.

(** The list depends on the links of its members only. *)
Lemma sibs_ext N N' h l :
  (∀ c, c ∈ l → is_Some (N !! c) → is_Some (N' !! c) ∧ n_sibling (N' !!! c) = n_sibling (N !!! c)) →
  sibs N h l → sibs N' h l.
Proof.
  revert h. induction l as [|c l IH]; intros h Hext; simpl; [done|].
  intros (-> & Hc & Hl). destruct (Hext c ltac:(by left) Hc) as [Hc' ->].
  split; [done|]. split; [done|]. apply IH; [|done].
  intros d Hd. apply Hext. by right.
Qed.

(** ** Chains of parents *)
Fixpoint pchain N (n : Z) (l : list Z) : Prop :=
  match l with
  | [] => n = 0
  | a :: l => n = a ∧ is_Some (N !! a) ∧ pchain N (n_parent (N !!! a)) l
  end.

Definition rooted N (n : Z) : Prop := ∃ l, pchain N n l.

Lemma pchain_det N n l l' : N !! 0 = None → pchain N n l → pchain N n l' → l = l'.
Proof.
  intros H0. revert n l'. induction l as [|a l IH]; intros n [|b l']; simpl; try done.
  - intros -> (<- & [? ?] & _). congruence.
  - intros (-> & [? ?] & _) ->. congruence.
  - intros (-> & _ & Hl) (<- & _ & Hl'). f_equal. by eapply IH.
Qed.

Lemma pchain_suffix N n l a : pchain N n l → a ∈ l → ∃ l1 l2, l = l1 ++ l2 ∧ pchain N a l2.
Proof.
  revert n. induction l as [|b l IH]; intros n; [intros _ H; by apply not_elem_of_nil in H|].
  intros Hc [->|Ha]%elem_of_cons.
  - exists [], (b :: l). split; [done|]. simpl in *. naive_solver.
  - destruct Hc as (_ & _ & Hc). destruct (IH _ Hc Ha) as (l1 & l2 & -> & H2).
    by exists (b :: l1), l2.
Qed.

Lemma pchain_nodup N n l : N !! 0 = None → pchain N n l → NoDup l.
Proof.
  intros H0. revert n. induction l as [|a l IH]; intros n Hc; [constructor|].
  pose proof Hc as (-> & Ha & Hl). constructor; [|by eapply IH].
  intros Hin. destruct (pchain_suffix _ _ _ _ Hl Hin) as (l1 & l2 & -> & H2).
  pose proof (pchain_det _ _ _ _ H0 Hc H2) as E.
  apply (f_equal length) in E. simpl in E. rewrite length_app in E. lia.
Qed.

Lemma pchain_dom N n l a : pchain N n l → a ∈ l → is_Some (N !! a).
Proof.
  revert n. induction l as [|b l IH]; intros n; simpl; [intros _ H; by apply not_elem_of_nil in H|].
  intros (_ & Hb & Hl) [->|Ha]%elem_of_cons; [done|]. by eapply IH.
Qed.

(** The chain depends on the parents of its members only. *)
Lemma pchain_ext N N' n l :
  (∀ a, a ∈ l → is_Some (N !! a) → is_Some (N' !! a) ∧ n_parent (N' !!! a) = n_parent (N !!! a)) →
  pchain N n l → pchain N' n l.
Proof.
  revert n. induction l as [|a l IH]; intros n Hext; simpl; [done|].
  intros (-> & Ha & Hl). destruct (Hext a ltac:(by left) Ha) as [Ha' ->].
  split; [done|]. split; [done|]. apply IH; [|done].
  intros d Hd. apply Hext. by right.
Qed.

(** The loop of [vfs_is_ancestor_dir] decides membership in the chain. *)
Lemma ancestor_loop_spec N a fuel n l :
  N !! 0 = None → pchain N n l → (length l < fuel)%nat →
  ancestor_loop fuel N a n = bool_decide (a ∈ l).
Proof.
  intros H0. revert n l. induction fuel as [|fuel IH]; intros n l Hc Hf; [lia|].
  destruct l as [|b l]; cbn [ancestor_loop pchain length] in *.
  - subst n. by rewrite bool_decide_eq_false_2 by apply not_elem_of_nil.
  - destruct Hc as (-> & [x Hx] & Hl).
    destruct (Z.eqb_spec b 0) as [->|_]; [congruence|].
    destruct (Z.eqb_spec b a) as [->|Hne].
    + rewrite bool_decide_eq_true_2; [done|by left].
    + rewrite (IH _ l) by (done || lia). apply bool_decide_ext. rewrite elem_of_cons.
      naive_solver.
Qed.

(** ** The tree *)
Record tree N K : Prop := {
  t_zero : N !! 0 = None;
  t_kids : ∀ d x, N !! d = Some x → sibs N (n_children x) (K d);
  t_nodup : ∀ d, NoDup (K d);
  t_dir : ∀ d x, N !! d = Some x → K d ≠ [] → n_type x = VFS_NODE_DIR;
  t_out : ∀ d, N !! d = None → K d = [];
  t_child : ∀ d c, c ∈ K d → ∃ x, N !! c = Some x ∧ n_parent x = d ∧ n_unlinked x = false;
  t_parent : ∀ c x, N !! c = Some x → n_parent x ≠ 0 → c ∈ K (n_parent x);
  t_names : ∀ d c c', c ∈ K d → c' ∈ K d → n_name (N !!! c) = n_name (N !!! c') → c = c';
  t_rooted : ∀ c x, N !! c = Some x → rooted N c;
  t_unlinked : ∀ c x, N !! c = Some x → n_unlinked x = true → n_parent x = 0 ∧ K c = []
}.

Lemma tree_nonzero N K n x : tree N K → N !! n = Some x → n ≠ 0.
Proof. intros T Hn ->. rewrite (t_zero _ _ T) in Hn. done. Qed.

Lemma tree_kid N K d c : tree N K → c ∈ K d → is_Some (N !! c) ∧ n_parent (N !!! c) = d ∧ c ≠ 0.
Proof.
  intros T (x & Hx & Hp & _)%(t_child _ _ T). split; [by eexists|].
  split; [by rewrite (lookup_total_correct _ _ _ Hx)|by eapply tree_nonzero].
Qed.

Lemma tree_kid_dir N K d c : tree N K → c ∈ K d → is_Some (N !! d).
Proof.
  intros T Hc. destruct (N !! d) eqn:E; [by eexists|].
  rewrite (t_out _ _ T d E) in Hc. by apply not_elem_of_nil in Hc.
Qed.

Lemma tree_disjoint N K d d' c : tree N K → c ∈ K d → c ∈ K d' → d = d'.
Proof.
  intros T (x & Hx & <- & _)%(t_child _ _ T) (x' & Hx' & <- & _)%(t_child _ _ T). congruence.
Qed.

Lemma tree_child_list N K d : tree N K → is_Some (N !! d) → child_list N d = K d.
Proof.
  intros T [x Hx]. unfold child_list. rewrite (lookup_total_correct _ _ _ Hx).
  pose proof (t_kids _ _ T d x Hx) as Hs.
  apply sibs_walk; [apply (t_zero _ _ T)|done|].
  apply nodup_size; [apply (t_nodup _ _ T)|]. intros c. by apply (sibs_dom _ _ _ _ Hs).
Qed.

Lemma tree_children_nil N K d x : tree N K → N !! d = Some x → n_children x = 0 ↔ K d = [].
Proof.
  intros T Hx. pose proof (t_kids _ _ T d x Hx) as Hs. split; intros E.
  - destruct (K d) as [|c l]; [done|]. simpl in Hs. destruct Hs as (Hc & [y Hy] & _).
    exfalso. apply (tree_nonzero _ _ c y T Hy). congruence.
  - by rewrite E in Hs.
Qed.

(** The search for a name finds the child that has it. *)
Lemma find_child_spec N K d nm c :
  tree N K → c ≠ 0 →
  vfs_find_child N d nm = c ↔ c ∈ K d ∧ n_name (N !!! c) = nm.
Proof.
  intros T Hc. unfold vfs_find_child. split.
  - destruct ((d =? 0) || negb (is_dir N d)) eqn:E; [done|]. bool_hyps.
    destruct (decide (is_Some (N !! d))) as [Hd|Hd].
    + rewrite (tree_child_list _ _ _ T Hd).
      destruct (list_find _ (K d)) as [[i c']|] eqn:Hf; simpl; [|done]. intros ->.
      apply list_find_Some in Hf as (Hi & Hn & _).
      split; [by eapply list_elem_of_lookup_2|done].
    + rewrite <- eq_None_not_Some in Hd. unfold is_dir in *. bool_hyps.
      rewrite (lookup_total_alt (M := gmap Z)), Hd in *. done.
  - intros [Hk Hn]. destruct (tree_kid_dir _ _ _ _ T Hk) as [x Hx].
    pose proof (tree_nonzero _ _ _ _ T Hx) as Hd.
    assert (is_dir N d = true) as ->.
    { unfold is_dir. apply bool_decide_eq_true_2. rewrite (lookup_total_correct _ _ _ Hx).
      apply (t_dir _ _ T d x Hx). intros E. rewrite E in Hk. by apply not_elem_of_nil in Hk. }
    rewrite (proj2 (Z.eqb_neq d 0)) by done. simpl.
    rewrite (tree_child_list _ _ _ T) by (by eexists).
    destruct (list_find _ (K d)) as [[i c']|] eqn:Hf; simpl.
    + apply list_find_Some in Hf as (Hi & Hn' & _).
      apply (t_names _ _ T d); [by eapply list_elem_of_lookup_2|done|congruence].
    + apply list_find_None in Hf. rewrite Forall_forall in Hf. by destruct (Hf c Hk).
Qed.

Lemma find_child_none N K d nm :
  tree N K → vfs_find_child N d nm = 0 ↔ ∀ c, c ∈ K d → n_name (N !!! c) ≠ nm.
Proof.
  intros T. split.
  - intros E c Hk Hn. destruct (tree_kid _ _ _ _ T Hk) as (_ & _ & Hc).
    assert (vfs_find_child N d nm = c) by (by apply (find_child_spec _ K)). lia.
  - intros Hall. destruct (Z.eq_dec (vfs_find_child N d nm) 0) as [|Hne]; [done|].
    destruct (proj1 (find_child_spec N K d nm _ T Hne) eq_refl) as [Hk Hn].
    by destruct (Hall _ Hk).
Qed.

Lemma is_ancestor_spec N K a n :
  tree N K → is_Some (N !! n) → ∃ l, pchain N n l ∧ vfs_is_ancestor_dir N a n = bool_decide (a ∈ l).
Proof.
  intros T [x Hx]. destruct (t_rooted _ _ T n x Hx) as [l Hl]. exists l. split; [done|].
  apply ancestor_loop_spec; [apply (t_zero _ _ T)|done|].
  pose proof (nodup_size N l (pchain_nodup _ _ _ (t_zero _ _ T) Hl)) as Hs.
  enough (length l ≤ size N)%nat by lia. apply Hs. intros c. by apply (pchain_dom _ _ _ _ Hl).
Qed.

(** ** Changes that leave the links alone *)
Definition links (x : vfs_node_t) :=
  (n_name x, n_type x, n_parent x, n_sibling x, n_children x, n_unlinked x).

Definition same_links N N' : Prop := ∀ n, links <$> N' !! n = links <$> N !! n.

Lemma same_links_some N N' n x :
  same_links N N' → N !! n = Some x → ∃ x', N' !! n = Some x' ∧ links x' = links x.
Proof. intros H Hx. specialize (H n). rewrite Hx in H. by apply fmap_Some in H as (x' & ? & ?); eauto. Qed.

Lemma same_links_sym N N' : same_links N N' → same_links N' N.
Proof. intros H n. by rewrite H. Qed.

Lemma same_links_total N N' n :
  same_links N N' → links (N' !!! n) = links (N !!! n).
Proof.
  intros H. specialize (H n). rewrite !lookup_total_alt.
  destruct (N' !! n), (N !! n); simpl in *; congruence.
Qed.

Lemma same_links_is_Some N N' n : same_links N N' → is_Some (N !! n) → is_Some (N' !! n).
Proof. intros H [x Hx]. destruct (same_links_some _ _ _ _ H Hx) as (x' & ? & _). by eexists. Qed.

Lemma links_inj x y :
  links x = links y →
  n_name x = n_name y ∧ n_type x = n_type y ∧ n_parent x = n_parent y ∧
  n_sibling x = n_sibling y ∧ n_children x = n_children y ∧ n_unlinked x = n_unlinked y.
Proof. unfold links. intros [= ? ? ? ? ? ?]. done. Qed.

Lemma tree_same_links N N' K : same_links N N' → tree N K → tree N' K.
Proof.
  intros HL T. pose proof (same_links_sym _ _ HL) as HL'.
  assert (∀ n, is_Some (N !! n) → is_Some (N' !! n)) as Hdom by (intros; by eapply same_links_is_Some).
  split.
  - pose proof (HL 0) as H. rewrite (t_zero _ _ T) in H. by apply fmap_None in H.
  - intros d x' Hx'. destruct (same_links_some _ _ _ _ HL' Hx') as (x & Hx & E).
    apply links_inj in E as (_ & _ & _ & _ & <- & _).
    apply (sibs_ext N); [|by apply (t_kids _ _ T)]. intros c _ Hc. split; [auto|].
    by apply links_inj, same_links_total.
  - apply (t_nodup _ _ T).
  - intros d x' Hx'. destruct (same_links_some _ _ _ _ HL' Hx') as (x & Hx & E).
    apply links_inj in E as (_ & <- & _). by apply (t_dir _ _ T).
  - intros d Hd. apply (t_out _ _ T). pose proof (HL d) as H. rewrite Hd in H.
    symmetry in H. by apply fmap_None in H.
  - intros d c (x & Hx & Hp & Hu)%(t_child _ _ T).
    destruct (same_links_some _ _ _ _ HL Hx) as (x' & Hx' & E).
    exists x'. apply links_inj in E as (_ & _ & -> & _ & _ & ->). done.
  - intros c x' Hx'. destruct (same_links_some _ _ _ _ HL' Hx') as (x & Hx & E).
    apply links_inj in E as (_ & _ & <- & _). by apply (t_parent _ _ T).
  - intros d c c' Hc Hc'. pose proof (same_links_total _ _ c HL) as E.
    pose proof (same_links_total _ _ c' HL) as E'.
    apply links_inj in E as (-> & _). apply links_inj in E' as (-> & _).
    by apply (t_names _ _ T d).
  - intros c x' Hx'. destruct (same_links_some _ _ _ _ HL' Hx') as (x & Hx & _).
    destruct (t_rooted _ _ T c x Hx) as [l Hl]. exists l.
    apply (pchain_ext N); [|done]. intros a _ Ha. split; [auto|].
    by apply links_inj, same_links_total.
  - intros c x' Hx'. destruct (same_links_some _ _ _ _ HL' Hx') as (x & Hx & E).
    apply links_inj in E as (_ & _ & <- & _ & _ & <-). by apply (t_unlinked _ _ T).
Qed.

End VfsFacts.
