(* ===== verification/VfsTree.v ===== *)
(** * Changes of the VFS tree

    A node enters the store, is attached to a directory, is taken off it, gets
    another name, or leaves the store: each keeps [tree], with the lists of
    children that result. *)

From stdpp Require Import base gmap list numbers fin_maps.
From S2P Require Import Prelude PathSpec Vfs VfsFacts.

Module VfsTree.
Import PathSpec Vfs VfsFacts.

Implicit Types (N : node_store) (K : Z → list Z).

(** [K] with the children [l] for the directory [d]. *)
Definition kset (d : Z) (l : list Z) K : Z → list Z := λ e, if decide (e = d) then l else K e.

Lemma kset_eq d l K : kset d l K d = l.
Proof. unfold kset. by rewrite decide_True. Qed.
Lemma kset_ne d l K e : e ≠ d → kset d l K e = K e.
Proof. intros. unfold kset. by rewrite decide_False. Qed.

(** ** Lookups in a store with one node changed *)
Lemma alter_is_Some N f i n : is_Some (alter f i N !! n) ↔ is_Some (N !! n).
Proof.
  destruct (decide (i = n)) as [->|Hne]; [|by rewrite lookup_alter_ne].
  rewrite lookup_alter_eq. apply fmap_is_Some.
Qed.

Lemma alter_total_ne N f i n : i ≠ n → alter f i N !!! n = N !!! n.
Proof. intros. by rewrite !lookup_total_alt, lookup_alter_ne. Qed.

Lemma alter_total_eq N f i : is_Some (N !! i) → alter f i N !!! i = f (N !!! i).
Proof. intros [x Hx]. by rewrite !lookup_total_alt, lookup_alter_eq, Hx. Qed.

(** A projection that the change keeps. *)
Lemma alter_total_proj {A} (π : vfs_node_t → A) N f i n :
  (∀ x, π (f x) = π x) → π (alter f i N !!! n) = π (N !!! n).
Proof.
  intros Hf. destruct (decide (i = n)) as [->|Hne]; [|by rewrite alter_total_ne].
  rewrite !lookup_total_alt, lookup_alter_eq. destruct (N !! n); simpl; [apply Hf|done].
Qed.

Lemma alter_some N f i n x :
  alter f i N !! n = Some x → ∃ y, N !! n = Some y ∧ x = if decide (n = i) then f y else y.
Proof.
  destruct (decide (n = i)) as [->|Hne].
  - rewrite lookup_alter_eq. intros (y & -> & Hy)%fmap_Some. eauto.
  - rewrite lookup_alter_ne by done. eauto.
Qed.

(** ** A new node *)
Lemma tree_insert N K c x :
  tree N K → N !! c = None → c ≠ 0 → n_parent x = 0 → n_children x = 0 → n_unlinked x = false →
  tree (<[c := x]> N) K.
Proof.
  intros T Hc Hc0 Hp Hch Hu.
  assert (∀ n, is_Some (N !! n) → <[c:=x]> N !! n = N !! n ∧ <[c:=x]> N !!! n = N !!! n) as Hne.
  { intros n [y Hy]. assert (c ≠ n) by congruence. by rewrite !lookup_total_alt, lookup_insert_ne. }
  assert (∀ n, is_Some (N !! n) → is_Some (<[c:=x]> N !! n)) as Hs.
  { intros n Hn. by rewrite (proj1 (Hne n Hn)). }
  split.
  - by rewrite lookup_insert_ne, (t_zero _ _ T).
  - intros d y [[<- <-]|[Hd Hy]]%lookup_insert_Some.
    + rewrite (t_out _ _ T c Hc). done.
    + apply (sibs_ext N); [|by apply (t_kids _ _ T)].
      intros e _ He. split; [auto|]. by rewrite (proj2 (Hne e He)).
  - apply (t_nodup _ _ T).
  - intros d y [[<- <-]|[Hd Hy]]%lookup_insert_Some; [by rewrite (t_out _ _ T c Hc)|].
    by apply (t_dir _ _ T).
  - intros d [Hd Hdc]%lookup_insert_None. by apply (t_out _ _ T).
  - intros d e (y & Hy & ? & ?)%(t_child _ _ T). exists y. rewrite (proj1 (Hne e (mk_is_Some _ _ Hy))). done.
  - intros e y [[<- <-]|[Hd Hy]]%lookup_insert_Some; [done|]. by apply (t_parent _ _ T).
  - intros d e e' He He'. destruct (tree_kid _ _ _ _ T He) as [H1 _].
    destruct (tree_kid _ _ _ _ T He') as [H2 _].
    rewrite (proj2 (Hne e H1)), (proj2 (Hne e' H2)). by apply (t_names _ _ T d).
  - intros e y [[<- <-]|[Hd Hy]]%lookup_insert_Some.
    + exists [c]. simpl. rewrite lookup_insert_eq, lookup_total_insert, decide_True by done. eauto.
    + destruct (t_rooted _ _ T e y Hy) as [l Hl]. exists l. apply (pchain_ext N); [|done].
      intros a _ Ha. split; [auto|]. by rewrite (proj2 (Hne a Ha)).
  - intros e y [[<- <-]|[Hd Hy]]%lookup_insert_Some; [congruence|]. by apply (t_unlinked _ _ T).
Qed.

(** ** A node leaves the store *)
Lemma tree_delete N K c x :
  tree N K → N !! c = Some x → n_parent x = 0 → K c = [] → tree (delete c N) K.
Proof.
  intros T Hc Hp Hk.
  assert (∀ d e, e ∈ K d → e ≠ c) as Hnk.
  { intros d e He ->. destruct (tree_kid_dir _ _ _ _ T He) as [y Hy].
    destruct (t_child _ _ T d c He) as (x' & Hx' & Hd & _).
    apply (tree_nonzero _ _ _ _ T Hy). congruence. }
  assert (∀ n, n ≠ c → delete c N !! n = N !! n ∧ delete c N !!! n = N !!! n) as Hne.
  { intros n Hn. by rewrite !lookup_total_alt, lookup_delete_ne. }
  split.
  - destruct (decide (c = 0)) as [->|]; [apply lookup_delete_eq|].
    by rewrite lookup_delete_ne, (t_zero _ _ T).
  - intros d y [Hd Hy]%lookup_delete_Some.
    apply (sibs_ext N); [|by apply (t_kids _ _ T)].
    intros e He [z Hz]. destruct (Hne e (Hnk _ _ He)) as [-> ->]. eauto.
  - apply (t_nodup _ _ T).
  - intros d y [Hd Hy]%lookup_delete_Some. by apply (t_dir _ _ T).
  - intros d Hd. destruct (decide (d = c)) as [->|Hdc]; [done|].
    rewrite (proj1 (Hne d Hdc)) in Hd. by apply (t_out _ _ T).
  - intros d e He. rewrite (proj1 (Hne e (Hnk _ _ He))). by apply (t_child _ _ T).
  - intros e y [Hd Hy]%lookup_delete_Some. by apply (t_parent _ _ T).
  - intros d e e' He He'. rewrite (proj2 (Hne e (Hnk _ _ He))), (proj2 (Hne e' (Hnk _ _ He'))).
    by apply (t_names _ _ T d).
  - intros e y [Hd Hy]%lookup_delete_Some. destruct (t_rooted _ _ T e y Hy) as [l Hl].
    assert (∀ l e, e ≠ c → pchain N e l → pchain (delete c N) e l) as Hch.
    { clear - T Hc Hp Hk Hne Hnk. induction l as [|a l IH]; intros e Hec; [done|].
      intros (-> & [z Hz] & Hl). simpl. destruct (Hne a Hec) as [-> ->].
      split; [done|]. split; [eauto|]. apply IH; [|done]. intros E.
      rewrite (lookup_total_correct _ _ _ Hz) in E.
      assert (n_parent z ≠ 0) as Hz0 by (rewrite E; by eapply tree_nonzero).
      pose proof (t_parent _ _ T a z Hz Hz0) as Ha. rewrite E, Hk in Ha. by apply not_elem_of_nil in Ha. }
    exists l. by apply Hch.
  - intros e y [Hd Hy]%lookup_delete_Some. by apply (t_unlinked _ _ T).
Qed.

(** ** A node without a parent gets another name or is marked *)
Lemma tree_orphan N K c x f :
  tree N K → N !! c = Some x → n_parent x = 0 →
  n_type (f x) = n_type x → n_parent (f x) = 0 → n_sibling (f x) = n_sibling x →
  n_children (f x) = n_children x → (n_unlinked (f x) = true → K c = []) →
  tree (alter f c N) K.
Proof.
  intros T Hc Hp Ht Hp' Hs Hch Hu.
  assert (∀ d e, e ∈ K d → e ≠ c) as Hnk.
  { intros d e He ->. destruct (tree_kid_dir _ _ _ _ T He) as [y Hy].
    destruct (t_child _ _ T d c He) as (x' & Hx' & Hd & _).
    apply (tree_nonzero _ _ _ _ T Hy). congruence. }
  assert (∀ n y, alter f c N !! n = Some y → ∃ z, N !! n = Some z ∧ n_type y = n_type z ∧
    n_parent y = n_parent z ∧ n_children y = n_children z) as Hinv.
  { intros n y (z & Hz & ->)%alter_some. exists z. split; [done|].
    case_decide; [|done]. subst n. assert (z = x) as -> by congruence. by rewrite Ht, Hp', Hch. }
  split.
  - pose proof (tree_nonzero _ _ _ _ T Hc). rewrite lookup_alter_ne by done. apply (t_zero _ _ T).
  - intros d y Hy. destruct (Hinv d y Hy) as (z & Hz & _ & _ & ->).
    apply (sibs_ext N); [|by apply (t_kids _ _ T)]. intros e He Hes.
    split; [by apply alter_is_Some|]. by rewrite alter_total_ne by (symmetry; by eapply Hnk).
  - apply (t_nodup _ _ T).
  - intros d y Hy. destruct (Hinv d y Hy) as (z & Hz & -> & _). by apply (t_dir _ _ T).
  - intros d Hd. apply (t_out _ _ T). apply eq_None_not_Some. rewrite <- (alter_is_Some N f c).
    by apply eq_None_not_Some.
  - intros d e He. rewrite lookup_alter_ne by (symmetry; by eapply Hnk). by apply (t_child _ _ T).
  - intros e y Hy. destruct (Hinv e y Hy) as (z & Hz & _ & -> & _). by apply (t_parent _ _ T).
  - intros d e e' He He'. rewrite !alter_total_ne by (symmetry; by eapply Hnk). by apply (t_names _ _ T d).
  - intros e y Hy. destruct (Hinv e y Hy) as (z & Hz & _).
    destruct (t_rooted _ _ T e z Hz) as [l Hl]. exists l. apply (pchain_ext N); [|done].
    intros a _ Ha. split; [by apply alter_is_Some|].
    destruct (decide (a = c)) as [->|]; [|by rewrite alter_total_ne].
    rewrite alter_total_eq by done. rewrite (lookup_total_correct _ _ _ Hc). congruence.
  - intros e y (z & Hz & ->)%alter_some Hy. case_decide as E.
    + subst e. assert (z = x) as -> by congruence. auto.
    + by apply (t_unlinked _ _ T e).
Qed.

(** ** A node is attached to a directory *)
Definition attach (d c : Z) N : node_store :=
  alter (λ x, x <| n_children := c |>) d
    (alter (λ x, x <| n_parent := d |> <| n_sibling := n_children (N !!! d) |>) c N).

Section Attach.
Context (N : node_store) (K : Z → list Z) (d c : Z) (x y : vfs_node_t).
Hypotheses (T : tree N K) (Hc : N !! c = Some x) (Hd : N !! d = Some y).
Hypotheses (Hp : n_parent x = 0) (Hu : n_unlinked x = false).
Hypotheses (Hyd : n_type y = VFS_NODE_DIR) (Hyu : n_unlinked y = false).
Hypothesis Hnm : ∀ e, e ∈ K d → n_name (N !!! e) ≠ n_name x.
Hypothesis Hch : ∀ l, pchain N d l → c ∉ l.

Lemma attach_ne : c ≠ d.
Proof using All.
  intros ->. destruct (t_rooted _ _ T d y Hd) as [l Hl]. apply (Hch l Hl).
  destruct l as [|a l]; simpl in Hl; [|destruct Hl as (-> & _); by left].
  by destruct (tree_nonzero _ _ _ _ T Hd).
Qed.

Lemma attach_c : attach d c N !! c = Some (x <| n_parent := d |> <| n_sibling := n_children y |>).
Proof using All.
  pose proof attach_ne. unfold attach. rewrite lookup_alter_ne by done.
  by rewrite lookup_alter_eq, Hc, (lookup_total_correct _ _ _ Hd).
Qed.

Lemma attach_d : attach d c N !! d = Some (y <| n_children := c |>).
Proof using All.
  pose proof attach_ne. unfold attach. rewrite lookup_alter_eq.
  by rewrite lookup_alter_ne, Hd by done.
Qed.

Lemma attach_other n : n ≠ c → n ≠ d → attach d c N !! n = N !! n.
Proof using All. intros. unfold attach. by rewrite !lookup_alter_ne. Qed.

Lemma attach_some n z :
  attach d c N !! n = Some z → ∃ w, N !! n = Some w ∧ n_name z = n_name w ∧ n_type z = n_type w ∧
    n_unlinked z = n_unlinked w ∧ (n ≠ c → n_parent z = n_parent w ∧ n_sibling z = n_sibling w) ∧
    (n ≠ d → n_children z = n_children w).
Proof using All.
  unfold attach. intros (w1 & (w & Hw & ->)%alter_some & ->)%alter_some. exists w.
  split; [done|]. repeat case_decide; naive_solver.
Qed.

Lemma attach_total n :
  n_name (attach d c N !!! n) = n_name (N !!! n) ∧
  (n ≠ c → n_parent (attach d c N !!! n) = n_parent (N !!! n) ∧
           n_sibling (attach d c N !!! n) = n_sibling (N !!! n)).
Proof using All.
  unfold attach. split.
  - by rewrite !(alter_total_proj n_name).
  - intros Hn. rewrite (alter_total_proj n_parent), (alter_total_proj n_sibling) by done.
    by rewrite alter_total_ne.
Qed.

Lemma attach_is_Some n : is_Some (attach d c N !! n) ↔ is_Some (N !! n).
Proof using All. unfold attach. by rewrite !alter_is_Some. Qed.

Lemma not_kid e : c ∉ K e.
Proof using All.
  intros He. destruct (tree_kid_dir _ _ _ _ T He) as [z Hz].
  destruct (t_child _ _ T e c He) as (x' & Hx' & Hd' & _).
  apply (tree_nonzero _ _ _ _ T Hz). congruence.
Qed.

Lemma attach_sibs e z :
  N !! e = Some z → sibs (attach d c N) (n_children z) (K e).
Proof using All.
  intros Hz. apply (sibs_ext N); [|by apply (t_kids _ _ T)].
  intros a Ha Has. split; [by apply attach_is_Some|].
  apply attach_total. intros ->. by apply (not_kid e).
Qed.

Lemma attach_chain l : pchain N d l → pchain (attach d c N) d l.
Proof using All.
  intros Hl. apply (pchain_ext N); [|done]. intros a Ha Has.
  split; [by apply attach_is_Some|]. apply attach_total. intros ->. by apply (Hch l).
Qed.

Lemma attach_rooted l n : pchain N n l → rooted (attach d c N) n.
Proof using All.
  revert n. induction l as [|a l IH]; intros n; [intros ->; by exists []|].
  intros (-> & Ha & Hl). destruct (decide (a = c)) as [->|Hac].
  - destruct (t_rooted _ _ T d y Hd) as [l' Hl']. exists (c :: l'). simpl.
    rewrite attach_c, lookup_total_alt, attach_c. simpl.
    split; [done|]. split; [by eexists|]. by apply attach_chain.
  - destruct (IH _ Hl) as [l' Hl']. exists (a :: l'). simpl.
    destruct (proj2 (attach_total a) Hac) as [-> _].
    split; [done|]. split; [by apply attach_is_Some|done].
Qed.

Lemma attach_child e a :
  a ∈ K e → ∃ z, attach d c N !! a = Some z ∧ n_parent z = e ∧ n_unlinked z = false.
Proof using All.
  intros Ha. destruct (t_child _ _ T e a Ha) as (w & Hw & Hwp & Hwu).
  assert (a ≠ c) as Hac by (intros ->; by apply (not_kid e)).
  destruct (proj2 (attach_is_Some a) (mk_is_Some _ _ Hw)) as [z Hz]. exists z.
  destruct (attach_some a z Hz) as (w' & Hw' & _ & _ & -> & H1 & _).
  assert (w' = w) as -> by congruence. split; [done|]. by rewrite (proj1 (H1 Hac)).
Qed.

Lemma tree_attach : tree (attach d c N) (kset d (c :: K d) K).
Proof using All.
  pose proof attach_ne as Hcd. split.
  - apply eq_None_not_Some. rewrite attach_is_Some. rewrite (t_zero _ _ T). by intros [? ?].
  - intros e z Hz. destruct (decide (e = d)) as [->|He].
    + rewrite kset_eq. rewrite attach_d in Hz. injection Hz as <-. simpl.
      rewrite attach_c, lookup_total_alt, attach_c. simpl.
      split; [done|]. split; [by eexists|]. by apply attach_sibs.
    + rewrite kset_ne by done. destruct (attach_some e z Hz) as (w & Hw & _ & _ & _ & _ & ->); [|done].
      by apply attach_sibs.
  - intros e. unfold kset. case_decide; [|apply (t_nodup _ _ T)].
    constructor; [apply not_kid|apply (t_nodup _ _ T)].
  - intros e z Hz. destruct (attach_some e z Hz) as (w & Hw & _ & -> & _).
    unfold kset. case_decide; [|by apply (t_dir _ _ T)]. subst e. congruence.
  - intros e He. assert (N !! e = None) as HeN.
    { apply eq_None_not_Some. rewrite <- attach_is_Some. by apply eq_None_not_Some. }
    rewrite kset_ne; [by apply (t_out _ _ T)|congruence].
  - intros e a. unfold kset. case_decide as E; [subst e|apply attach_child].
    intros [->|Ha]%elem_of_cons; [rewrite attach_c; eauto|by apply attach_child].
  - intros e z Hz Hzp. destruct (decide (e = c)) as [->|He].
    + rewrite attach_c in Hz. injection Hz as <-. simpl. rewrite kset_eq. by left.
    + destruct (attach_some e z Hz) as (w & Hw & _ & _ & _ & H1 & _).
      destruct (H1 He) as [E _]. rewrite E in *. pose proof (t_parent _ _ T e w Hw Hzp).
      unfold kset. case_decide as E'; [right; by rewrite <- E'|done].
  - intros e a a' Ha Ha'. rewrite !(proj1 (attach_total _)).
    revert Ha Ha'. unfold kset. case_decide; [|apply (t_names _ _ T)].
    intros [->|Ha]%elem_of_cons [->|Ha']%elem_of_cons; rewrite ?(lookup_total_correct _ _ _ Hc);
      [done| | |by apply (t_names _ _ T d)]; intros E; exfalso; by eapply Hnm.
  - intros e z Hz. destruct (attach_some e z Hz) as (w & Hw & _).
    destruct (t_rooted _ _ T e w Hw) as [l Hl]. by apply (attach_rooted l).
  - intros e z Hz Hzu. destruct (attach_some e z Hz) as (w & Hw & _ & _ & E & H1 & _).
    rewrite E in Hzu. assert (e ≠ c) as Hec by congruence. assert (e ≠ d) by congruence.
    rewrite kset_ne by done. rewrite (proj1 (H1 Hec)). by apply (t_unlinked _ _ T e).
Qed.

End Attach.

(** ** A new node in a directory *)
Lemma insert_other N c x n : is_Some (N !! n) → N !! c = None →
  <[c := x]> N !! n = N !! n ∧ <[c := x]> N !!! n = N !!! n.
Proof.
  intros [y Hy] Hc. assert (c ≠ n) by congruence. by rewrite !lookup_total_alt, lookup_insert_ne.
Qed.

Lemma tree_create N K d c x y :
  tree N K → N !! c = None → c ≠ 0 → n_parent x = 0 → n_children x = 0 → n_unlinked x = false →
  N !! d = Some y → n_type y = VFS_NODE_DIR → n_unlinked y = false →
  (∀ e, e ∈ K d → n_name (N !!! e) ≠ n_name x) →
  tree (attach d c (<[c := x]> N)) (kset d (c :: K d) K).
Proof.
  intros T Hc Hc0 Hp Hch Hu Hy Hyt Hyu Hnm.
  pose proof (tree_insert _ _ _ _ T Hc Hc0 Hp Hch Hu) as T1.
  pose proof (λ n H, insert_other N c x n H Hc) as Ho.
  apply (tree_attach _ _ _ _ x y); try done.
  - by rewrite lookup_insert_eq.
  - by rewrite (proj1 (Ho d (mk_is_Some _ _ Hy))).
  - intros e He. destruct (tree_kid _ _ _ _ T He) as [Hes _].
    rewrite (proj2 (Ho e Hes)). by apply Hnm.
  - intros l Hl Hin. destruct (t_rooted _ _ T d y Hy) as [l0 Hl0].
    assert (pchain (<[c := x]> N) d l0) as Hl1.
    { apply (pchain_ext N); [|done]. intros a _ Ha. by destruct (Ho a Ha) as [-> ->]. }
    rewrite (pchain_det _ _ _ _ (t_zero _ _ T1) Hl Hl1) in Hin.
    destruct (pchain_dom _ _ _ _ Hl0 Hin). congruence.
Qed.

(** ** A node is taken off its directory *)

(** [p] is the sibling before [c], if there is one. *)
Definition skip_over (p : option Z) (d c : Z) N : node_store :=
  match p with
  | None => alter (λ x, x <| n_children := n_sibling (N !!! c) |>) d N
  | Some p => alter (λ x, x <| n_sibling := n_sibling (N !!! c) |>) p N
  end.

Lemma unlink_loop_eq s d c prev l1 l2 :
  c ∉ l1 → (∀ a, a ∈ l1 → a ≠ 0) →
  nodes (unlink_loop s d c prev (l1 ++ c :: l2))
    = skip_over (match last l1 with Some p => Some p | None => if prev =? 0 then None else Some prev end)
        d c (nodes s).
Proof.
  revert prev. induction l1 as [|a l1 IH]; intros prev Hc Hz; cbn [app unlink_loop].
  - rewrite Z.eqb_refl. simpl. by destruct (prev =? 0).
  - apply not_elem_of_cons in Hc as [Hca Hc]. rewrite (proj2 (Z.eqb_neq a c)) by done.
    rewrite IH by (done || (intros; apply Hz; by right)).
    destruct l1 as [|b l1].
    2: { rewrite last_cons_cons. destruct (last (b :: l1)) eqn:E; [done|by apply last_None in E]. }
    simpl. rewrite (proj2 (Z.eqb_neq a 0)); [done|]. apply Hz. by left.
Qed.

Lemma sibs_skip N h l0 p c l2 :
  NoDup (l0 ++ p :: c :: l2) → sibs N h (l0 ++ p :: c :: l2) →
  sibs (alter (λ x, x <| n_sibling := n_sibling (N !!! c) |>) p N) h (l0 ++ p :: l2).
Proof.
  revert h. induction l0 as [|a l0 IH]; intros h Hnd; simpl in *.
  - intros (-> & Hp & Hs & Hc & Hl). split; [done|]. split; [by apply alter_is_Some|].
    rewrite alter_total_eq by done. simpl. apply (sibs_ext N); [|done]. intros e He Hes.
    split; [by apply alter_is_Some|]. rewrite alter_total_ne; [done|].
    intros ->. apply NoDup_cons in Hnd as [Hnd _]. apply Hnd. by right.
  - intros (-> & Ha & Hl). apply NoDup_cons in Hnd as [Hn Hnd].
    split; [done|]. split; [by apply alter_is_Some|].
    rewrite alter_total_ne; [by apply IH|]. intros ->. apply Hn, elem_of_app. right. by left.
Qed.

Section Detach.
Context (N : node_store) (K : Z → list Z) (d c : Z) (l1 l2 : list Z).
Hypotheses (T : tree N K) (Hk : K d = l1 ++ c :: l2).

Let M := alter (λ x, x <| n_parent := 0 |>) c (skip_over (last l1) d c N).

Lemma detach_kid : c ∈ K d.
Proof using Hk. rewrite Hk. apply elem_of_app. right. by left. Qed.

Lemma detach_ne : c ≠ d.
Proof using T Hk.
  pose proof detach_kid as H. destruct (tree_kid_dir _ _ _ _ T H) as [y Hy]. intros ->.
  destruct (t_rooted _ _ T d y Hy) as [l Hl]. pose proof (pchain_nodup _ _ _ (t_zero _ _ T) Hl) as Hnd.
  destruct (tree_kid _ _ _ _ T H) as (_ & Hp & Hz).
  destruct l as [|a l]; simpl in Hl; [done|]. destruct Hl as (<- & _ & Hl). rewrite Hp in Hl.
  destruct l as [|b l]; simpl in Hl; [done|]. destruct Hl as (<- & _).
  apply NoDup_cons in Hnd as [Hnd _]. apply Hnd. by left.
Qed.

Lemma detach_some n z :
  M !! n = Some z → ∃ w, N !! n = Some w ∧ n_name z = n_name w ∧ n_type z = n_type w ∧
    n_unlinked z = n_unlinked w ∧ n_inode z = n_inode w ∧ n_ref_count z = n_ref_count w ∧
    n_parent z = (if decide (n = c) then 0 else n_parent w) ∧
    (n ≠ d → n_children z = n_children w).
Proof using T Hk.
  unfold M, skip_over. intros (w1 & Hw1 & ->)%alter_some.
  destruct (last l1); apply alter_some in Hw1 as (w & Hw & ->); exists w;
    (split; [done|]); repeat case_decide; naive_solver.
Qed.

Lemma detach_is_Some n : is_Some (M !! n) ↔ is_Some (N !! n).
Proof using T Hk.
  unfold M, skip_over. rewrite alter_is_Some. destruct (last l1); by rewrite alter_is_Some.
Qed.

Lemma detach_total n :
  n_name (M !!! n) = n_name (N !!! n) ∧ (n ≠ c → n_parent (M !!! n) = n_parent (N !!! n)) ∧
  (n ∉ l1 → n_sibling (M !!! n) = n_sibling (N !!! n)).
Proof using T Hk.
  unfold M, skip_over. rewrite (alter_total_proj n_name) by done. split; [|split].
  - destruct (last l1); by rewrite (alter_total_proj n_name).
  - intros Hn. rewrite alter_total_ne by done. destruct (last l1); by rewrite (alter_total_proj n_parent).
  - intros Hn. rewrite (alter_total_proj n_sibling) by done.
    destruct (last l1) as [p|] eqn:E; [|by rewrite (alter_total_proj n_sibling)].
    rewrite alter_total_ne; [done|]. intros ->. by apply Hn, last_Some_elem_of.
Qed.

Lemma detach_sibs_other e z : e ≠ d → N !! e = Some z → sibs M (n_children z) (K e).
Proof using T Hk.
  intros He Hz. apply (sibs_ext N); [|by apply (t_kids _ _ T)]. intros a Ha Has.
  split; [by apply detach_is_Some|]. apply detach_total. intros Hin. apply He.
  apply (tree_disjoint _ _ _ _ a T Ha). rewrite Hk. apply elem_of_app. by left.
Qed.

Lemma detach_sibs y z : N !! d = Some y → M !! d = Some z → sibs M (n_children z) (l1 ++ l2).
Proof using T Hk.
  intros Hy Hz. pose proof detach_ne as Hcd.
  pose proof (t_kids _ _ T d y Hy) as Hs. pose proof (t_nodup _ _ T d) as Hnd. rewrite Hk in Hs, Hnd.
  apply (sibs_ext (skip_over (last l1) d c N)).
  { intros a _ Ha. unfold M. split; [by apply alter_is_Some|]. by rewrite (alter_total_proj n_sibling). }
  unfold M in Hz. rewrite lookup_alter_ne in Hz by done. unfold skip_over in *.
  destruct l1 as [|p0 l0] using rev_ind; simpl in *.
  - rewrite lookup_alter_eq, Hy in Hz. injection Hz as <-. simpl.
    destruct Hs as (_ & _ & Hs). apply (sibs_ext N); [|done]. intros a _ Ha.
    split; [by apply alter_is_Some|]. by rewrite (alter_total_proj n_sibling).
  - rewrite last_snoc in *. rewrite <- !app_assoc in Hs, Hnd |- *. simpl in *.
    apply alter_some in Hz as (w & Hw & ->). assert (w = y) as -> by congruence.
    replace (n_children _) with (n_children y) by (by case_decide).
    by apply sibs_skip.
Qed.

Lemma detach_chain l n : pchain N n l → rooted M n.
Proof using T Hk.
  revert n. induction l as [|a l IH]; intros n; [intros ->; by exists []|].
  intros (-> & Ha & Hl). destruct (decide (a = c)) as [->|Hac].
  - exists [c]. simpl. split; [done|]. split; [by apply detach_is_Some|].
    unfold M. rewrite alter_total_eq; [done|].
    unfold skip_over. destruct (last l1); by apply alter_is_Some.
  - destruct (IH _ Hl) as [l' Hl']. exists (a :: l'). simpl.
    rewrite (proj1 (proj2 (detach_total a)) Hac).
    split; [done|]. split; [by apply detach_is_Some|done].
Qed.

Lemma detach_elem e : e ∈ l1 ++ l2 ↔ e ∈ K d ∧ e ≠ c.
Proof using T Hk.
  pose proof (t_nodup _ _ T d) as Hnd. rewrite Hk in *.
  apply NoDup_app in Hnd as (_ & Hd1 & [Hc2 _]%NoDup_cons).
  rewrite !elem_of_app, elem_of_cons. split; [|naive_solver].
  intros [H|H]; split; auto; intros ->; [by eapply Hd1; [|left]|done].
Qed.

Lemma tree_detach : tree M (kset d (l1 ++ l2) K).
Proof using T Hk.
  pose proof detach_ne as Hcd. pose proof (t_nodup _ _ T d) as Hnd. rewrite Hk in Hnd. split.
  - apply eq_None_not_Some. rewrite detach_is_Some, (t_zero _ _ T). by intros [? ?].
  - intros e z Hz. destruct (detach_some e z Hz) as (w & Hw & _ & _ & _ & _ & _ & _ & Hch).
    destruct (decide (e = d)) as [->|He]; [rewrite kset_eq; by eapply detach_sibs|].
    rewrite kset_ne, Hch by done. by apply detach_sibs_other.
  - intros e. unfold kset. case_decide; [|apply (t_nodup _ _ T)].
    rewrite <- Permutation_middle in Hnd. by apply NoDup_cons in Hnd as [_ ?].
  - intros e z Hz. destruct (detach_some e z Hz) as (w & Hw & _ & -> & _).
    unfold kset. case_decide; [|by apply (t_dir _ _ T)]. subst e. intros _.
    apply (t_dir _ _ T d w Hw). rewrite Hk. by destruct l1.
  - intros e He. assert (N !! e = None) as HeN.
    { apply eq_None_not_Some. rewrite <- detach_is_Some. by apply eq_None_not_Some. }
    pose proof (t_out _ _ T e HeN). rewrite kset_ne; [done|]. intros ->.
    rewrite Hk in *. by destruct l1.
  - intros e a Ha. assert (a ∈ K e ∧ a ≠ c) as [Hae Hac].
    { revert Ha. unfold kset. case_decide as E; [subst e; apply detach_elem|].
      intros Ha. split; [done|]. intros ->. apply E. by eapply tree_disjoint, detach_kid. }
    destruct (t_child _ _ T e a Hae) as (w & Hw & Hwp & Hwu).
    destruct (proj2 (detach_is_Some a) (mk_is_Some _ _ Hw)) as [z Hz]. exists z.
    destruct (detach_some a z Hz) as (w' & Hw' & _ & _ & -> & _ & _ & -> & _).
    rewrite decide_False by done. assert (w' = w) as -> by congruence. done.
  - intros e z Hz. destruct (detach_some e z Hz) as (w & Hw & _ & _ & _ & _ & _ & -> & _).
    case_decide as E; [done|]. intros Hp. pose proof (t_parent _ _ T e w Hw Hp) as Hkid.
    unfold kset. case_decide as E'; [|done]. apply detach_elem. by rewrite <- E'.
  - intros e a a' Ha Ha'. rewrite !(proj1 (detach_total _)).
    apply (t_names _ _ T e); (revert Ha Ha'; unfold kset; case_decide as E; [subst e|done];
      rewrite !detach_elem; naive_solver).
  - intros e z Hz. destruct (detach_some e z Hz) as (w & Hw & _).
    destruct (t_rooted _ _ T e w Hw) as [l Hl]. by apply (detach_chain l).
  - intros e z Hz. destruct (detach_some e z Hz) as (w & Hw & _ & _ & -> & _ & _ & -> & _).
    intros Hwu. destruct (t_unlinked _ _ T e w Hw Hwu) as [-> Hke]. split; [by case_decide|].
    rewrite kset_ne; [done|]. intros ->. rewrite Hk in Hke. by destruct l1.
Qed.

End Detach.

End VfsTree.

(** * Paths in the VFS

    [vfs_next_component] yields the components of a path, cut to 31
    characters; the loops of [vfs_lookup] and [vfs_resolve_parent] are walks
    along that list. *)
Module VfsPath.
Import PathSpec Vfs VfsFacts.

(** The components as the VFS sees them. *)
Definition comps (path : list Z) : list (list Z) := take 31 <$> components path.

(** The node that the components lead to from [cur], 0 when there is none. *)
Fixpoint walk (s : vfs_state) (cur : Z) (cs : list (list Z)) : Z :=
  match cs with
  | [] => cur
  | c :: cs =>
      let n := vfs_find_child (nodes s) cur c in
      if n =? 0 then 0 else walk s (cross_mount s n) cs
  end.

(** The directory in front of the last component, and that component. *)
Fixpoint walk_parent (s : vfs_state) (cur : Z) (cs : list (list Z)) : Z * list Z :=
  match cs with
  | [] => (0, [])
  | [c] => (cur, c)
  | c :: cs =>
      let n := vfs_find_child (nodes s) cur c in
      if (n =? 0) || negb (is_dir (nodes s) n) then (0, []) else walk_parent s (cross_mount s n) cs
  end.

(** ** The scanner *)
Lemma skip_slashes_nil l : skip_slashes l = [] ↔ components l = [].
Proof.
  induction l as [|c l IH]; [done|]. simpl. case_if; bool_hyps.
  - rewrite IH. subst c. by rewrite components_slash.
  - split; [done|]. unfold components. simpl. rewrite (proj2 (Z.eqb_neq c SLASH)) by done.
    destruct (split_slash_cons l) as (p & ps & ->). by rewrite filter_cons_True.
Qed.

Lemma drop_seg_split l p ps :
  split_slash l = p :: ps →
  (drop_seg l = [] ∧ ps = []) ∨ ∃ r, drop_seg l = SLASH :: r ∧ split_slash r = ps.
Proof.
  revert p ps. induction l as [|c l IH]; intros p ps; simpl.
  - intros [= <- <-]. auto.
  - case_if; bool_hyps.
    + intros [= <- <-]. subst c. right. eauto.
    + destruct (split_slash_cons l) as (q & qs & Hq). rewrite Hq. intros [= <- <-]. by apply (IH q).
Qed.

Lemma scan_seg_take n l p ps :
  split_slash l = p :: ps →
  (scan_seg n l).1 = take n p ∧ drop_seg (scan_seg n l).2 = drop_seg l.
Proof.
  revert n p ps. induction l as [|c l IH]; intros n p ps; simpl.
  - intros [= <- <-]. by destruct n.
  - case_if; bool_hyps.
    + intros [= <- <-]. subst c. by destruct n.
    + destruct (split_slash_cons l) as (q & qs & Hq). rewrite Hq. intros [= <- <-].
      destruct n as [|n]; simpl; rewrite (proj2 (Z.eqb_neq c SLASH)) by done; [done|].
      destruct (IH n q qs Hq) as [H1 H2]. destruct (scan_seg n l). simpl in *. by rewrite H1, H2.
Qed.

Lemma drop_seg_length l : (length (drop_seg l) ≤ length l)%nat.
Proof. induction l; simpl; [done|]. case_if; simpl; lia. Qed.

Lemma next_component_none p : components p = [] → vfs_next_component p = None.
Proof. intros H%skip_slashes_nil. unfold vfs_next_component. by rewrite H. Qed.

Lemma next_component_some p c cs :
  components p = c :: cs →
  ∃ rest, vfs_next_component p = Some (take 31 c, rest) ∧ components rest = cs ∧
    (length rest < length p)%nat.
Proof.
  intros Hc. unfold vfs_next_component.
  pose proof (skip_slashes_length p) as Hlen. rewrite <- split_slash_skip in Hc.
  destruct (skip_slashes p) as [|d l] eqn:Hs; [done|].
  pose proof (skip_slashes_head p d l Hs) as Hd.
  destruct (split_slash_cons l) as (q & qs & Hq).
  assert (split_slash (d :: l) = (d :: q) :: qs) as Hsp.
  { simpl. rewrite (proj2 (Z.eqb_neq d SLASH)) by done. by rewrite Hq. }
  unfold components in Hc. rewrite Hsp, filter_cons_True in Hc by done. injection Hc as <- <-.
  destruct (scan_seg_take (NAME_SIZE - 1) (d :: l) _ _ Hsp) as [H1 H2].
  destruct (scan_seg (NAME_SIZE - 1) (d :: l)) as [out rest]. simpl in H1, H2. subst out.
  exists (drop_seg rest). split; [done|]. rewrite H2.
  split.
  - rewrite (proj2 (Z.eqb_neq d SLASH)) by done.
    destruct (drop_seg_split l _ _ Hq) as [[-> ->]|(r & -> & Hr)]; [done|].
    rewrite components_slash. unfold components. by rewrite Hr.
  - rewrite (proj2 (Z.eqb_neq d SLASH)) by done. pose proof (drop_seg_length l). simpl in *. lia.
Qed.

(** ** The loops *)
Lemma lookup_loop_walk s fuel cur p :
  (length p < fuel)%nat → lookup_loop fuel s cur p = walk s cur (comps p).
Proof.
  revert cur p. induction fuel as [|fuel IH]; intros cur p Hf; [lia|].
  unfold comps. simpl lookup_loop. destruct (components p) as [|c cs] eqn:Hc.
  - by rewrite next_component_none.
  - destruct (next_component_some p c cs Hc) as (rest & -> & Hr & Hl).
    cbn [fmap list_fmap walk]. case_if; [done|].
    rewrite IH by lia. unfold comps. by rewrite Hr.
Qed.

Lemma resolve_parent_loop_walk s fuel cur p :
  (length p < fuel)%nat → resolve_parent_loop fuel s cur p = walk_parent s cur (comps p).
Proof.
  revert cur p. induction fuel as [|fuel IH]; intros cur p Hf; [lia|].
  unfold comps. simpl resolve_parent_loop. destruct (components p) as [|c cs] eqn:Hc.
  - by rewrite next_component_none.
  - destruct (next_component_some p c cs Hc) as (rest & -> & Hr & Hl).
    destruct cs as [|c' cs].
    + rewrite bool_decide_eq_true_2 by (by apply skip_slashes_nil).
      simpl. unfold strncpy_z, NAME_SIZE. simpl. by rewrite take_take.
    + rewrite bool_decide_eq_false_2 by (intros E%skip_slashes_nil; congruence).
      cbn [fmap list_fmap walk_parent]. case_if; [done|].
      rewrite IH by lia. unfold comps. by rewrite Hr.
Qed.

Lemma resolve_parent_walk s path :
  vfs_resolve_parent s path
    = if vfs_root s =? 0 then (0, []) else walk_parent s (vfs_root s) (comps path).
Proof.
  unfold vfs_resolve_parent. case_if; [done|]. case_bool_decide.
  - by subst path.
  - by rewrite resolve_parent_loop_walk by lia.
Qed.

Lemma walk_parent_spec s cur cs d leaf :
  walk_parent s cur cs = (d, leaf) → d ≠ 0 →
  ∃ cs0, cs = cs0 ++ [leaf] ∧ walk s cur cs0 = d ∧
    (cs0 ≠ [] → ∃ n e, is_dir (nodes s) n = true ∧ n ≠ 0 ∧ vfs_find_child (nodes s) e (List.last cs0 []) = n
       ∧ d = cross_mount s n).
Proof.
  revert cur. induction cs as [|c [|c' cs] IH]; intros cur; simpl walk_parent.
  - by intros [= <- <-].
  - intros [= <- <-] _. exists []. done.
  - case_if; [by intros [= <- <-]|]. bool_hyps. intros Hw Hd.
    destruct (IH _ Hw Hd) as (cs0 & E & Hwalk & Hlast). exists (c :: cs0).
    rewrite E. split; [done|]. simpl. rewrite (proj2 (Z.eqb_neq _ 0)) by done.
    split; [done|]. intros _. destruct cs0 as [|c0 cs0].
    + exists (vfs_find_child (nodes s) cur c), cur. simpl in *. done.
    + destruct (Hlast ltac:(done)) as (n & e & ?). exists n, e. done.
Qed.

Lemma walk_app s cur cs ds :
  walk s cur cs ≠ 0 → walk s cur (cs ++ ds) = walk s (walk s cur cs) ds.
Proof.
  revert cur. induction cs as [|c cs IH]; intros cur; simpl; [done|].
  case_if; [done|]. apply IH.
Qed.

(** Walking to the parent and then to the last component. *)
Lemma walk_snoc s cur cs leaf :
  walk s cur cs ≠ 0 →
  walk s cur (cs ++ [leaf])
    = let n := vfs_find_child (nodes s) (walk s cur cs) leaf in
      if n =? 0 then 0 else cross_mount s n.
Proof. intros H. by rewrite walk_app. Qed.

End VfsPath.
