(* ===== verification/VfsOps.v ===== *)
(** * The invariant of the VFS

    The tree of nodes, the roots and mount points, the reference counts and
    the path cache.  [refs n] is the number of open files on the node [n].
    Looking a path up through the cache gives the node that a walk along its
    components gives, except for paths of exactly 63 characters. *)

From stdpp Require Import base gmap list numbers fin_maps.
From S2P Require Import Prelude PathSpec Vfs VfsFacts VfsTree.

Module VfsInv.
Import PathSpec Vfs VfsFacts VfsTree VfsPath.

(** The root of a file system. *)
Definition top (s : vfs_state) (n : Z) : Prop :=
  ∃ x, nodes s !! n = Some x ∧ n_type x = VFS_NODE_DIR ∧ n_unlinked x = false ∧ n_parent x = 0.

(** What a walk can end at. *)
Definition target (s : vfs_state) (n : Z) : Prop :=
  ∃ x, nodes s !! n = Some x ∧ n_unlinked x = false ∧ (n_parent x = 0 ∨ vfs_find_mount_at s n = 0).

Definition cache_ok (s : vfs_state) (e : vfs_cache_entry_t) : Prop :=
  (length (c_path e) ≤ 63)%nat ∧
  (c_gen e = vfs_cache_gen s → c_path e ≠ [] →
  target s (c_node e) ∧ i_node_gen (n_inode (vnode s (c_node e))) = c_node_gen e ∧
  ((length (c_path e) < 63)%nat → c_node e = walk s (vfs_root s) (comps (c_path e)))).

Record mounts_ok (s : vfs_state) : Prop := {
  mo_nonzero : ∀ m, m ∈ vfs_mounts s → m ≠ 0;
  mo_root : ∀ m, m ∈ vfs_mounts s → top s (mnt_root (mounts s !!! m));
  mo_point : ∀ m, m ∈ vfs_mounts s → mnt_mountpoint (mounts s !!! m) ≠ 0 →
    ∃ x, nodes s !! mnt_mountpoint (mounts s !!! m) = Some x ∧ n_unlinked x = false;
  mo_top : vfs_root s ≠ 0 → top s (vfs_root s)
}.

Definition refs_ok (N : node_store) (refs : Z → Z) : Prop :=
  ∀ n, 0 ≤ refs n ∧
    match N !! n with
    | None => refs n = 0
    | Some x => n_ref_count x = (if n_unlinked x then 0 else 1) + refs n ∧ 0 < n_ref_count x < 4294967296
    end.

Record vfs_inv (s : vfs_state) (K : Z → list Z) (refs : Z → Z) : Prop := {
  vi_tree : tree (nodes s) K;
  vi_mounts : mounts_ok s;
  vi_refs : refs_ok (nodes s) refs;
  vi_cache_len : length (vfs_cache s) = 64%nat;
  vi_cache : Forall (cache_ok s) (vfs_cache s)
}.

(** ** Mount points *)
Lemma find_mount_at_spec s n m :
  mounts_ok s → m ≠ 0 → vfs_find_mount_at s n = m →
  m ∈ vfs_mounts s ∧ mnt_mountpoint (mounts s !!! m) = n.
Proof.
  intros M Hm. unfold vfs_find_mount_at.
  destruct (list_find _ _) as [[i m']|] eqn:Hf; simpl; [|done]. intros ->.
  apply list_find_Some in Hf as (Hi & Hn & _). split; [by eapply list_elem_of_lookup_2|done].
Qed.

Lemma find_mount_at_none s n m :
  mounts_ok s → vfs_find_mount_at s n = 0 → m ∈ vfs_mounts s → mnt_mountpoint (mounts s !!! m) ≠ n.
Proof.
  intros M. unfold vfs_find_mount_at.
  destruct (list_find _ _) as [[i m']|] eqn:Hf; simpl.
  - intros ->. apply list_find_Some in Hf as (Hi & _).
    by destruct (mo_nonzero _ M 0 (list_elem_of_lookup_2 _ _ _ Hi)).
  - intros _ Hm. apply list_find_None in Hf. rewrite Forall_forall in Hf. by apply Hf.
Qed.

Lemma cross_mount_target s n x :
  nodes s !! 0 = None → mounts_ok s → nodes s !! n = Some x → n_unlinked x = false →
  target s (cross_mount s n).
Proof.
  intros H0 M Hn Hu. unfold cross_mount.
  destruct (Z.eq_dec (vfs_find_mount_at s n) 0) as [E|E].
  - rewrite E. simpl. exists x. auto.
  - destruct (find_mount_at_spec s n _ M E eq_refl) as [Hin _].
    rewrite (proj2 (Z.eqb_neq _ 0) E). simpl.
    destruct (mo_root _ M _ Hin) as (y & Hy & Hty & Huy & Hpy).
    rewrite (proj2 (Z.eqb_neq _ 0)) by congruence. exists y. auto.
Qed.

Lemma top_target s n : top s n → target s n.
Proof. intros (x & Hx & _ & Hu & Hp). exists x. auto. Qed.

Lemma target_nonzero s n : nodes s !! 0 = None → target s n → n ≠ 0.
Proof. intros H0 (x & Hx & _) ->. congruence. Qed.

Lemma walk_target s K cur cs :
  tree (nodes s) K → mounts_ok s → target s cur → walk s cur cs ≠ 0 → target s (walk s cur cs).
Proof.
  intros T M. revert cur. induction cs as [|c cs IH]; intros cur Hcur; simpl; [done|].
  destruct (Z.eqb_spec (vfs_find_child (nodes s) cur c) 0) as [|Hne]; [done|].
  apply IH. destruct (proj1 (find_child_spec _ _ _ _ _ T Hne) eq_refl) as [Hk _].
  destruct (t_child _ _ T _ _ Hk) as (x & Hx & _ & Hu).
  by apply (cross_mount_target s _ x (t_zero _ _ T)).
Qed.

(** ** Changes outside the namespace

    The components of the state that a walk depends on are the same, and no
    node of the namespace loses its place. *)
Record namespace_frame (s s' : vfs_state) : Prop := {
  nf_root : vfs_root s' = vfs_root s;
  nf_mounts : mounts s' = mounts s;
  nf_list : vfs_mounts s' = vfs_mounts s;
  nf_find : ∀ d nm, is_Some (nodes s !! d) →
    vfs_find_child (nodes s') d nm = vfs_find_child (nodes s) d nm;
  nf_node : ∀ n x, nodes s !! n = Some x → n_unlinked x = false →
    ∃ x', nodes s' !! n = Some x' ∧ n_unlinked x' = false ∧ n_parent x' = n_parent x ∧
      n_type x' = n_type x ∧ i_node_gen (n_inode x') = i_node_gen (n_inode x)
}.

Section Frame.
Context (s s' : vfs_state) (F : namespace_frame s s').

Lemma frame_find_mount n : vfs_find_mount_at s' n = vfs_find_mount_at s n.
Proof using F. unfold vfs_find_mount_at. by rewrite (nf_list _ _ F), (nf_mounts _ _ F). Qed.

Lemma frame_cross n : cross_mount s' n = cross_mount s n.
Proof using F. unfold cross_mount. by rewrite frame_find_mount, (nf_mounts _ _ F). Qed.

Lemma frame_walk K cur cs :
  tree (nodes s) K → mounts_ok s → cur = 0 ∨ target s cur → walk s' cur cs = walk s cur cs.
Proof using F.
  intros T M. revert cur. induction cs as [|c cs IH]; intros cur Hcur; simpl; [done|].
  assert (vfs_find_child (nodes s') cur c = vfs_find_child (nodes s) cur c) as ->.
  { destruct Hcur as [->|(x & Hx & _)]; [done|]. by apply (nf_find _ _ F). }
  destruct (Z.eqb_spec (vfs_find_child (nodes s) cur c) 0) as [|Hne]; [done|].
  rewrite frame_cross. apply IH. right.
  destruct (proj1 (find_child_spec _ _ _ _ _ T Hne) eq_refl) as [Hk _].
  destruct (t_child _ _ T _ _ Hk) as (x & Hx & _ & Hu).
  by apply (cross_mount_target s _ x (t_zero _ _ T)).
Qed.

Lemma frame_root_walk K cs :
  tree (nodes s) K → mounts_ok s → walk s' (vfs_root s') cs = walk s (vfs_root s) cs.
Proof using F.
  intros T M. rewrite (nf_root _ _ F). apply (frame_walk K); [done..|].
  destruct (Z.eq_dec (vfs_root s) 0) as [->|Hr]; [by left|right]. by apply top_target, (mo_top _ M).
Qed.

Lemma frame_top n : top s n → top s' n.
Proof using F.
  intros (x & Hx & Ht & Hu & Hp). destruct (nf_node _ _ F n x Hx Hu) as (x' & Hx' & Hu' & Hp' & Ht' & _).
  exists x'. by rewrite Ht', Hp'.
Qed.

Lemma frame_target n : target s n → target s' n.
Proof using F.
  intros (x & Hx & Hu & Hp). destruct (nf_node _ _ F n x Hx Hu) as (x' & Hx' & Hu' & Hp' & _).
  exists x'. by rewrite Hp', frame_find_mount.
Qed.

Lemma frame_mounts_ok : mounts_ok s → mounts_ok s'.
Proof using F.
  intros M. split; rewrite ?(nf_list _ _ F), ?(nf_mounts _ _ F), ?(nf_root _ _ F).
  - apply (mo_nonzero _ M).
  - intros m Hm. by apply frame_top, (mo_root _ M).
  - intros m Hm Hp. destruct (mo_point _ M m Hm Hp) as (x & Hx & Hu).
    destruct (nf_node _ _ F _ x Hx Hu) as (x' & Hx' & Hu' & _). eauto.
  - intros Hr. by apply frame_top, (mo_top _ M).
Qed.

Lemma frame_cache_ok K e :
  tree (nodes s) K → mounts_ok s → vfs_cache_gen s' = vfs_cache_gen s → cache_ok s e → cache_ok s' e.
Proof using F.
  intros T M Hg [Hlen H]. split; [done|]. rewrite Hg. intros H1 H2. destruct (H H1 H2) as (Ht & Hgen & Hw).
  split; [by apply frame_target|]. split; [|by rewrite (frame_root_walk K)].
  destruct Ht as (x & Hx & Hu & _). destruct (nf_node _ _ F _ x Hx Hu) as (x' & Hx' & _ & _ & _ & E).
  unfold vnode in *. rewrite (lookup_total_correct _ _ _ Hx'), E.
  by rewrite (lookup_total_correct _ _ _ Hx) in Hgen.
Qed.

End Frame.

(** A change of the store that keeps the links, or removes nodes that are
    not part of the namespace. *)
Lemma inv_frame s s' K refs refs' :
  vfs_inv s K refs → namespace_frame s s' → tree (nodes s') K → refs_ok (nodes s') refs' →
  vfs_cache s' = vfs_cache s → vfs_cache_gen s' = vfs_cache_gen s → vfs_inv s' K refs'.
Proof.
  intros I F T R Hc Hg. split; [done|by apply (frame_mounts_ok s), I|done|rewrite Hc; apply I|].
  rewrite Hc. eapply Forall_impl; [apply I|]. intros e. apply (frame_cache_ok _ _ F K); try done; apply I.
Qed.

(** After a change of the namespace the cache is empty. *)
Lemma cache_reset_inv s K refs :
  tree (nodes s) K → mounts_ok s → refs_ok (nodes s) refs → length (vfs_cache s) = 64%nat →
  vfs_inv (vfs_cache_reset s) K refs.
Proof.
  intros T M R L. split; try done.
  - by destruct M; split.
  - unfold vfs_cache_reset. simpl. by rewrite length_fmap.
  - unfold vfs_cache_reset. simpl. apply Forall_fmap, Forall_true. intros e. split; [simpl; lia|]. done.
Qed.

(** ** Lookup through the cache *)
Lemma cache_scan_hit s path es n :
  cache_scan s path es = n → n ≠ 0 → ∃ e, e ∈ es ∧ cache_hit s path e = true ∧ c_node e = n.
Proof.
  induction es as [|e es IH]; simpl; [done|]. case_if.
  - intros <- _. exists e. split; [by left|done].
  - intros H1 H2. destruct (IH H1 H2) as (e' & Hin & ?). exists e'. split; [by right|done].
Qed.

Record lookup_frame (s s' : vfs_state) : Prop := {
  lf_nodes : nodes s' = nodes s;
  lf_mounts : mounts s' = mounts s;
  lf_list : vfs_mounts s' = vfs_mounts s;
  lf_root : vfs_root s' = vfs_root s;
  lf_ready : vfs_ready s' = vfs_ready s
}.

Lemma lookup_frame_refl s : lookup_frame s s.
Proof. by split. Qed.

Lemma lookup_namespace s s' : lookup_frame s s' → namespace_frame s s'.
Proof.
  intros F. split; try apply F.
  - intros d nm _. by rewrite (lf_nodes _ _ F).
  - intros n x Hx Hu. exists x. by rewrite (lf_nodes _ _ F).
Qed.

Lemma cache_insert_inv s K refs path n :
  vfs_inv s K refs → target s n → n = walk s (vfs_root s) (comps path) →
  vfs_inv (vfs_cache_insert s path n) K refs ∧ lookup_frame s (vfs_cache_insert s path n).
Proof.
  intros I Ht Hn. unfold vfs_cache_insert. case_if; [by split; [|apply lookup_frame_refl]|].
  set (s' := s <| vfs_cache_rr ::= _ |> <| vfs_cache ::= _ |>).
  assert (lookup_frame s s') as F by (by split). split; [|done].
  pose proof (lookup_namespace _ _ F) as NF.
  split; [apply I|by apply (frame_mounts_ok s), I|apply I| |].
  - unfold s'. simpl. rewrite length_insert. apply I.
  - unfold s' at 2. simpl. apply Forall_insert.
    + eapply Forall_impl; [apply I|]. intros e. apply (frame_cache_ok _ _ NF K); try done; apply I.
    + split; [simpl; unfold strncpy_z, CACHE_PATH_SIZE; rewrite length_take; lia|].
      intros _ _. simpl. split; [by apply (frame_target s)|]. split; [done|].
      unfold strncpy_z, CACHE_PATH_SIZE. rewrite length_take. intros Hlen.
      rewrite take_ge by lia.
      rewrite Hn. symmetry. apply (frame_root_walk _ _ NF K); apply I.
Qed.

Lemma vfs_lookup_result s K refs path n s' :
  vfs_inv s K refs → vfs_lookup s path = (n, s') →
  vfs_inv s' K refs ∧ lookup_frame s s' ∧ (n ≠ 0 → target s n) ∧
  (vfs_root s ≠ 0 → length path ≠ 63%nat → n = walk s (vfs_root s) (comps path)).
Proof.
  intros I. pose proof (vi_tree _ _ _ I) as T. pose proof (vi_mounts _ _ _ I) as M.
  unfold vfs_lookup. case_if; bool_hyps.
  { intros [= <- <-]. do 2 (split; [done || apply lookup_frame_refl|]). done. }
  pose proof (top_target _ _ (mo_top _ M Eif)) as Hroot.
  case_if; bool_hyps.
  { intros [= <- <-]. do 2 (split; [done || apply lookup_frame_refl|]).
    split; [done|]. intros _ _. by subst path. }
  case_if; bool_hyps.
  - intros [= <- <-]. do 2 (split; [done || apply lookup_frame_refl|]).
    destruct (cache_scan_hit _ _ _ _ eq_refl Eif1) as (e & He & Hhit & Hn).
    unfold cache_hit in Hhit. bool_hyps. pose proof (vi_cache _ _ _ I) as HC.
    rewrite Forall_forall in HC. destruct (HC e He) as [Hlen Hok].
    destruct (Hok ltac:(done) ltac:(done)) as (Ht & _ & Hw). unfold vfs_cache_lookup. rewrite <- Hn.
    split; [done|]. intros _ H63. subst path. apply Hw. lia.
  - rewrite lookup_loop_walk by lia. case_if; bool_hyps.
    + intros [= <- <-]. do 2 (split; [done || apply lookup_frame_refl|]). done.
    + intros [= <- <-]. pose proof (walk_target s K _ _ T M Hroot Eif2) as Ht.
      destruct (cache_insert_inv s K refs path _ I Ht eq_refl) as [I' F]. done.
Qed.

(** A path that is not found is not found by a walk either. *)
Lemma vfs_lookup_missing s path s' :
  vfs_root s ≠ 0 → vfs_lookup s path = (0, s') → walk s (vfs_root s) (comps path) = 0.
Proof.
  intros Hr. unfold vfs_lookup. rewrite (proj2 (Z.eqb_neq _ 0)) by done.
  case_if; [by intros [= E _]|]. case_if; bool_hyps; [by intros [= E _]|].
  rewrite lookup_loop_walk by lia. case_if; bool_hyps; [done|]. by intros [= E _].
Qed.

End VfsInv.

(** * The namespace operations keep the invariant

    Taking and dropping references, creating, unlinking and renaming.  The
    effect on the namespace is stated on the function from a directory and a
    name to the node with that name ([vfs_find_child]). *)
Module VfsOps.
Import PathSpec Vfs VfsFacts VfsTree VfsPath VfsInv.

Implicit Types (N : node_store) (K : Z → list Z) (refs : Z → Z).

Definition radd (n z : Z) refs : Z → Z := λ m, if decide (m = n) then refs m + z else refs m.

(** The namespace with one entry set. *)
Definition ns_set (d : Z) (nm : list Z) (c : Z) (ns : Z → list Z → Z) : Z → list Z → Z :=
  λ e nm', if decide (e = d ∧ nm' = nm) then c else ns e nm'.

(** ** The search for a name, by the children *)
Lemma find_child_is N K d nm r :
  tree N K → (r ≠ 0 → r ∈ K d ∧ n_name (N !!! r) = nm) →
  (r = 0 → ∀ c, c ∈ K d → n_name (N !!! c) ≠ nm) → vfs_find_child N d nm = r.
Proof.
  intros T H1 H2. destruct (Z.eq_dec r 0) as [->|Hr].
  - apply (find_child_none _ K); auto.
  - apply (find_child_spec _ K); auto.
Qed.

Lemma find_child_ext N N' K d nm :
  tree N K → tree N' K → (∀ c, c ∈ K d → n_name (N' !!! c) = n_name (N !!! c)) →
  vfs_find_child N' d nm = vfs_find_child N d nm.
Proof.
  intros T T' Hnm. apply (find_child_is _ K); [done| |].
  - intros Hr. destruct (proj1 (find_child_spec _ _ _ _ _ T Hr) eq_refl) as [Hk Hn].
    by rewrite Hnm.
  - intros Hr c Hc. rewrite Hnm by done. by apply (find_child_none _ K) with (c := c) in Hr.
Qed.

(** ** Changes of a node that keep its links *)
Lemma alter_links N f n : (∀ x, links (f x) = links x) → same_links N (alter f n N).
Proof.
  intros Hf m. destruct (decide (m = n)) as [->|]; [|by rewrite lookup_alter_ne].
  rewrite lookup_alter_eq. destruct (N !! n); simpl; [by rewrite Hf|done].
Qed.

Lemma links_frame s K N' :
  tree (nodes s) K → same_links (nodes s) N' →
  (∀ n, i_node_gen (n_inode (N' !!! n)) = i_node_gen (n_inode (nodes s !!! n))) →
  tree N' K ∧ namespace_frame s (s <| nodes := N' |>).
Proof.
  intros T HL Hg. pose proof (tree_same_links _ _ _ HL T) as T'. split; [done|].
  split; try done.
  - intros d nm _. apply (find_child_ext _ _ K); [done..|]. intros c _. simpl.
    by apply links_inj, same_links_total.
  - intros n x Hx Hu. destruct (same_links_some _ _ _ _ HL Hx) as (x' & Hx' & E).
    apply links_inj in E as (_ & Ht & Hp & _ & _ & Hux). exists x'. simpl.
    split; [done|]. split; [congruence|]. split; [done|]. split; [done|].
    specialize (Hg n). by rewrite (lookup_total_correct _ _ _ Hx), (lookup_total_correct _ _ _ Hx') in Hg.
Qed.

Lemma node_upd_inv s K refs refs' n f :
  vfs_inv s K refs → (∀ x, links (f x) = links x) →
  (∀ x, i_node_gen (n_inode (f x)) = i_node_gen (n_inode x)) →
  refs_ok (nodes (node_upd n f s)) refs' → vfs_inv (node_upd n f s) K refs'.
Proof.
  intros I Hl Hg R.
  destruct (links_frame s K (alter f n (nodes s)) (vi_tree _ _ _ I) (alter_links _ _ _ Hl)) as [T F].
  { intros m. apply (alter_total_proj (λ x, i_node_gen (n_inode x))). done. }
  by apply (inv_frame s _ K refs refs').
Qed.

(** Changing the content of a file. *)
Lemma inode_upd_inv s K refs n f :
  vfs_inv s K refs → (∀ i, i_node_gen (f i) = i_node_gen i) → vfs_inv (inode_upd n f s) K refs.
Proof.
  intros I Hf. apply (node_upd_inv s K refs refs); [done..|intros x; apply Hf|].
  intros m. pose proof (vi_refs _ _ _ I m) as Hm. simpl.
  destruct (decide (m = n)) as [->|]; [|by rewrite lookup_alter_ne].
  rewrite lookup_alter_eq. by destruct (nodes s !! n).
Qed.

(** ** References *)
Lemma retain_inv s K refs n x :
  vfs_inv s K refs → nodes s !! n = Some x → n_ref_count x + 1 < 4294967296 →
  vfs_inv (vfs_node_retain s n) K (radd n 1 refs).
Proof.
  intros I Hx Hb. unfold vfs_node_retain.
  rewrite (proj2 (Z.eqb_neq n 0)) by (by eapply tree_nonzero; [apply I|]).
  apply (node_upd_inv s K refs); try done. intros m. pose proof (vi_refs _ _ _ I m) as [H0 Hm].
  unfold radd. simpl. case_decide as E; [subst m|by rewrite lookup_alter_ne].
  split; [lia|]. rewrite lookup_alter_eq, Hx in *. simpl. word_simp. lia.
Qed.

Lemma release_eq s n x :
  nodes s !! n = Some x → n ≠ 0 → 0 < n_ref_count x < 4294967296 →
  vfs_node_release s n
    = if n_ref_count x =? 1 then s <| nodes ::= delete n |>
      else node_upd n (λ x, x <| n_ref_count ::= λ c, c -₃₂ 1 |>) s.
Proof.
  intros Hx Hn Hr. unfold vfs_node_release, vfs_free_node, vnode.
  rewrite (lookup_total_correct _ _ _ Hx), (proj2 (Z.eqb_neq n 0)), (proj2 (Z.eqb_neq _ 0)) by lia.
  unfold node_upd at 1. simpl. rewrite (lookup_total_correct _ _ (x <| n_ref_count ::= λ c, c -₃₂ 1 |>)).
  2: { by rewrite lookup_alter_eq, Hx. }
  simpl. word_simp.
  destruct (Z.eqb_spec (n_ref_count x) 1) as [->|Hne]; simpl.
  - unfold node_upd, field_update. simpl. by rewrite delete_alter_eq.
  - rewrite (proj2 (Z.eqb_neq _ 0)) by lia. done.
Qed.

(** Closing a file drops its reference; the node leaves the store with the
    last one when it has been unlinked. *)
Lemma release_inv s K refs n x :
  vfs_inv s K refs → nodes s !! n = Some x → 0 < refs n →
  vfs_inv (vfs_node_release s n) K (radd n (-1) refs) ∧
  (nodes (vfs_node_release s n) !! n = None ↔ n_unlinked x = true ∧ refs n = 1).
Proof.
  intros I Hx Hpos. pose proof (vi_tree _ _ _ I) as T.
  assert (n ≠ 0) as Hn by (by eapply tree_nonzero).
  pose proof (vi_refs _ _ _ I n) as [_ Hr]. rewrite Hx in Hr. destruct Hr as [Hrc Hrb].
  rewrite (release_eq s n x) by done.
  destruct (Z.eqb_spec (n_ref_count x) 1) as [E|E].
  - assert (n_unlinked x = true) as Hu by (destruct (n_unlinked x); [done|lia]).
    destruct (t_unlinked _ _ T n x Hx Hu) as [Hp Hk]. rewrite Hu in Hrc.
    pose proof (tree_delete _ _ _ _ T Hx Hp Hk) as T'. split.
    + apply (inv_frame s _ K refs); try done.
      * split; try done.
        -- intros d nm _. apply (find_child_ext _ _ K); [done..|]. intros c Hc. simpl.
           rewrite !lookup_total_alt, lookup_delete_ne; [done|]. intros ->.
           destruct (tree_kid _ _ _ _ T Hc) as (_ & Hpc & _).
           rewrite (lookup_total_correct _ _ _ Hx), Hp in Hpc. subst d.
           rewrite (t_out _ _ T 0 (t_zero _ _ T)) in Hc. by apply not_elem_of_nil in Hc.
        -- intros m y Hy Huy. exists y. simpl. rewrite lookup_delete_ne; [done|congruence].
      * intros m. pose proof (vi_refs _ _ _ I m) as [H0 Hm]. unfold radd. simpl.
        case_decide as Em; [subst m; rewrite lookup_delete_eq; lia|by rewrite lookup_delete_ne].
    + simpl. rewrite lookup_delete_eq. split; [intros _; split; [done|lia]|done].
  - split.
    + apply (node_upd_inv s K refs); try done. intros m. pose proof (vi_refs _ _ _ I m) as [H0 Hm].
      unfold radd. simpl. case_decide as Em; [subst m|by rewrite lookup_alter_ne].
      split; [lia|]. rewrite lookup_alter_eq, Hx in *. simpl. word_simp.
      destruct (n_unlinked x); lia.
    + simpl. rewrite lookup_alter_eq, Hx. simpl. split; [done|].
      intros [Hu H1]. rewrite Hu in Hrc. lia.
Qed.

(** ** What the other parts of the invariant need of a new store *)
Definition count_view (x : vfs_node_t) := (n_ref_count x, n_unlinked x).

Lemma refs_ok_view N N' refs :
  (∀ n, count_view <$> N' !! n = count_view <$> N !! n) → refs_ok N refs → refs_ok N' refs.
Proof.
  intros Hv R n. specialize (Hv n). specialize (R n). unfold count_view in Hv.
  destruct (N !! n) as [x|], (N' !! n) as [x'|]; try done.
  injection Hv as -> ->. done.
Qed.

Lemma alter_view {A} (π : vfs_node_t → A) N f i n :
  (∀ x, π (f x) = π x) → π <$> alter f i N !! n = π <$> N !! n.
Proof.
  intros Hf. destruct (decide (i = n)) as [->|]; [|by rewrite lookup_alter_ne].
  rewrite lookup_alter_eq. destruct (N !! n); simpl; [by rewrite Hf|done].
Qed.

Lemma mounts_ok_keep s s' :
  mounts_ok s → mounts s' = mounts s → vfs_mounts s' = vfs_mounts s → vfs_root s' = vfs_root s →
  (∀ n x, nodes s !! n = Some x → n_unlinked x = false →
     n_parent x = 0 ∨ (∃ m, m ∈ vfs_mounts s ∧ mnt_mountpoint (mounts s !!! m) = n) →
     ∃ x', nodes s' !! n = Some x' ∧ n_unlinked x' = false ∧
       (n_parent x = 0 → n_parent x' = 0 ∧ n_type x' = n_type x)) →
  mounts_ok s'.
Proof.
  intros M Hm Hl Hr Hkeep.
  assert (∀ n, top s n → top s' n) as Htop.
  { intros n (x & Hx & Ht & Hu & Hp). destruct (Hkeep n x Hx Hu ltac:(by left)) as (x' & Hx' & Hu' & H).
    destruct (H Hp) as [Hp' Ht']. exists x'. by rewrite Ht'. }
  split; rewrite ?Hm, ?Hl, ?Hr.
  - apply (mo_nonzero _ M).
  - intros m Hin. by apply Htop, (mo_root _ M).
  - intros m Hin Hp. destruct (mo_point _ M m Hin Hp) as (x & Hx & Hu).
    destruct (Hkeep _ x Hx Hu) as (x' & Hx' & Hu' & _); [right; eauto|]. eauto.
  - intros Hroot. by apply Htop, (mo_top _ M).
Qed.

(** ** Creation *)
Lemma strncpy_name (l : list Z) : (length l ≤ 31)%nat → strncpy_z NAME_SIZE l = l.
Proof. intros. unfold strncpy_z, NAME_SIZE. apply take_ge. simpl. lia. Qed.

(** A directory of the namespace. *)
Definition live_dir (s : vfs_state) (d : Z) : Prop :=
  ∃ y, nodes s !! d = Some y ∧ n_type y = VFS_NODE_DIR ∧ n_unlinked y = false.

(** The entries of a directory that gets the child [c]. *)
Lemma find_child_add N N' K d c nm e nm' :
  tree N K → tree N' (kset d (c :: K d) K) → c ≠ 0 → n_name (N' !!! c) = nm →
  (∀ a k, a ∈ K k → n_name (N' !!! a) = n_name (N !!! a)) →
  vfs_find_child N' e nm' = ns_set d nm c (vfs_find_child N) e nm'.
Proof.
  intros T T' Hc Hn Hold. unfold ns_set.
  assert (∀ a, a ∈ K e → a ∈ kset d (c :: K d) K e) as Hin.
  { intros a Ha. unfold kset. case_decide; [subst; by right|done]. }
  case_decide as E.
  - destruct E as [-> ->]. apply (find_child_is _ _ _ _ _ T'); [|done].
    intros _. rewrite kset_eq. split; [by left|done].
  - apply (find_child_is _ _ _ _ _ T').
    + intros Hr. destruct (proj1 (find_child_spec _ _ _ _ _ T Hr) eq_refl) as [Hk Hnm].
      split; [auto|]. by rewrite (Hold _ e).
    + intros Hr a. unfold kset. case_decide as Ed; [subst e|].
      * intros [->|Ha]%elem_of_cons; [naive_solver|]. rewrite (Hold _ d) by done.
        by apply (find_child_none _ K) with (c := a) in Hr.
      * intros Ha. rewrite (Hold _ e) by done. by apply (find_child_none _ K) with (c := a) in Hr.
Qed.

(** The state [s1] is [s] with the new node [x] at [c] in the directory [d]. *)
Section NewNode.
Context (s s1 : vfs_state) (K : Z → list Z) (refs : Z → Z) (d c : Z) (x y : vfs_node_t).
Hypotheses (I : vfs_inv s K refs) (Hy : nodes s !! d = Some y).
Hypotheses (Hyt : n_type y = VFS_NODE_DIR) (Hyu : n_unlinked y = false).
Hypotheses (Hc : nodes s !! c = None) (Hc0 : c ≠ 0).
Hypotheses (Hp : n_parent x = 0) (Hch : n_children x = 0) (Hu : n_unlinked x = false).
Hypotheses (Hr : n_ref_count x = 1) (Hnone : vfs_find_child (nodes s) d (n_name x) = 0).
Hypothesis HN : nodes s1 = attach d c (<[c := x]> (nodes s)).
Hypotheses (Hm : mounts s1 = mounts s) (Hl : vfs_mounts s1 = vfs_mounts s).
Hypothesis Hroot : vfs_root s1 = vfs_root s.

Let T : tree (nodes s) K := vi_tree _ _ _ I.

Lemma new_tree : tree (nodes s1) (kset d (c :: K d) K).
Proof using All.
  rewrite HN. apply (tree_create _ _ _ _ x y); try done. intros e He.
  by apply (find_child_none _ K) with (c := e) in Hnone.
Qed.

Lemma new_node : nodes s1 !! c = Some (x <| n_parent := d |> <| n_sibling := n_children y |>).
Proof using All.
  destruct (insert_other (nodes s) c x d (mk_is_Some _ _ Hy) Hc) as [_ Hd].
  rewrite HN. unfold attach. rewrite lookup_alter_ne by congruence.
  by rewrite lookup_alter_eq, lookup_insert_eq, Hd, (lookup_total_correct _ _ _ Hy).
Qed.

Lemma new_old n z :
  nodes s !! n = Some z → ∃ z', nodes s1 !! n = Some z' ∧ n_name z' = n_name z ∧ n_type z' = n_type z ∧
    n_parent z' = n_parent z ∧ n_unlinked z' = n_unlinked z ∧ n_inode z' = n_inode z ∧
    n_ref_count z' = n_ref_count z.
Proof using All.
  intros Hz. rewrite HN. unfold attach. destruct (decide (n = d)) as [->|Hnd].
  - rewrite lookup_alter_eq, lookup_alter_ne, lookup_insert_ne, Hz by congruence. simpl. eauto 10.
  - rewrite !lookup_alter_ne, lookup_insert_ne by congruence. eauto 10.
Qed.

Lemma new_mounts_ok : mounts_ok s1.
Proof using All.
  apply (mounts_ok_keep s); try done; [apply I|]. intros n z Hz Hzu _.
  destruct (new_old n z Hz) as (z' & Hz' & _ & Ht & Hpz & Huz & _). exists z'.
  split; [done|]. split; [congruence|]. by rewrite Hpz.
Qed.

Lemma new_refs_ok : refs_ok (nodes s1) refs.
Proof using All.
  rewrite HN. apply (refs_ok_view (<[c := x]> (nodes s))).
  { intros n. unfold attach. by rewrite !(alter_view count_view). }
  intros n. pose proof (vi_refs _ _ _ I n) as [H0 Hn].
  destruct (decide (c = n)) as [<-|]; [|by rewrite lookup_insert_ne].
  rewrite lookup_insert_eq, Hc in *. rewrite Hu, Hr. lia.
Qed.

Lemma new_find e nm :
  vfs_find_child (nodes s1) e nm = ns_set d (n_name x) c (vfs_find_child (nodes s)) e nm.
Proof using All.
  apply (find_child_add _ _ K); [done|apply new_tree|done| |].
  - by rewrite (lookup_total_correct _ _ _ new_node).
  - intros a k Ha. destruct (tree_kid _ _ _ _ T Ha) as [[z Hz] _].
    destruct (new_old a z Hz) as (z' & Hz' & Hnm & _).
    by rewrite (lookup_total_correct _ _ _ Hz), (lookup_total_correct _ _ _ Hz').
Qed.

Record added : Prop := {
  ad_tree : tree (nodes s1) (kset d (c :: K d) K);
  ad_mounts : mounts_ok s1;
  ad_refs : refs_ok (nodes s1) refs;
  ad_find : ∀ e nm, vfs_find_child (nodes s1) e nm
              = ns_set d (n_name x) c (vfs_find_child (nodes s)) e nm;
  ad_node : nodes s1 !! c = Some (x <| n_parent := d |> <| n_sibling := n_children y |>);
  ad_old : ∀ n z, nodes s !! n = Some z →
    ∃ z', nodes s1 !! n = Some z' ∧ n_name z' = n_name z ∧ n_type z' = n_type z ∧
      n_parent z' = n_parent z ∧ n_unlinked z' = n_unlinked z ∧ n_inode z' = n_inode z ∧
      n_ref_count z' = n_ref_count z
}.

Lemma new_added : added.
Proof using All.
  split; [apply new_tree|apply new_mounts_ok|apply new_refs_ok|apply new_find|apply new_node|apply new_old].
Qed.

End NewNode.

(** What [vfs_add_child] stores. *)
Lemma add_child_store s d c y :
  d ≠ 0 → c ≠ 0 → nodes s !! d = Some y → n_type y = VFS_NODE_DIR →
  ∃ s1, vfs_add_child s d c = (0, s1) ∧ nodes s1 = attach d c (nodes s) ∧
    s1 = s <| nodes := nodes s1 |>.
Proof.
  intros Hd Hc Hy Hyt. unfold vfs_add_child, is_dir, vnode.
  rewrite (lookup_total_correct _ _ _ Hy), (bool_decide_eq_true_2 _ Hyt).
  rewrite (proj2 (Z.eqb_neq d 0)), (proj2 (Z.eqb_neq c 0)) by done. simpl.
  eexists. split; [done|]. split; [|by destruct s].
  unfold attach. simpl. by rewrite (lookup_total_correct _ _ _ Hy).
Qed.

Definition new_vnode (nm : list Z) (type : vfs_node_type_t) : vfs_node_t :=
  mk_vnode nm type 0 0 0 (fresh_inode type) 1 false.

Lemma create_node_result s K refs b d nm type c s' :
  vfs_inv s K refs → live_dir s d → (length nm ≤ 31)%nat →
  vfs_find_child (nodes s) d nm = 0 →
  (nb_node b ≠ 0 → nodes s !! nb_node b = None) →
  vfs_create_node s b d nm type = (c, s') →
  (c = 0 ∧ s' = s) ∨
  (c = nb_node b ∧ c ≠ 0 ∧ nodes s !! c = None ∧
   vfs_inv s' (kset d (c :: K d) K) refs ∧
   (∀ e nm', vfs_find_child (nodes s') e nm' = ns_set d nm c (vfs_find_child (nodes s)) e nm') ∧
   (∃ y, nodes s' !! c = Some ((new_vnode nm type) <| n_parent := d |> <| n_sibling := y |>)) ∧
   (∀ n z, nodes s !! n = Some z → ∃ z', nodes s' !! n = Some z' ∧ n_inode z' = n_inode z) ∧
   mounts s' = mounts s ∧ vfs_mounts s' = vfs_mounts s ∧ vfs_root s' = vfs_root s ∧
   vfs_ready s' = vfs_ready s).
Proof.
  intros I (y & Hy & Hyt & Hyu) Hnm Hnone Hb. pose proof (vi_tree _ _ _ I) as T.
  unfold vfs_create_node, vfs_alloc_node.
  case_if; bool_hyps; [intros [= <- <-]; auto|].
  case_if; bool_hyps; [intros [= <- <-]; auto|]. specialize (Hb Eif).
  rewrite (proj2 (Z.eqb_neq _ 0)) by done.
  set (c0 := nb_node b) in *. rewrite strncpy_name by done. fold (new_vnode nm type).
  destruct (insert_other (nodes s) c0 (new_vnode nm type) d (mk_is_Some _ _ Hy) Hb) as [Hd1 _].
  destruct (add_child_store (s <| nodes ::= <[c0 := new_vnode nm type]> |>) d c0 y)
    as (s1 & -> & HN & Hs1); try done; [by eapply tree_nonzero|by rewrite <- Hy|].
  simpl in HN. simpl. intros [= <- <-]. right.
  assert (mounts s1 = mounts s ∧ vfs_mounts s1 = vfs_mounts s ∧ vfs_root s1 = vfs_root s ∧
    vfs_ready s1 = vfs_ready s ∧ vfs_cache s1 = vfs_cache s) as (Hm & Hl & Hr & Hrd & Hca)
    by (rewrite Hs1; done).
  assert (added s s1 K refs d c0 (new_vnode nm type) y) as A by (by apply new_added).
  do 3 (split; [done|]).
  split; [apply cache_reset_inv; [apply A|apply A|apply A|rewrite Hca; apply I]|].
  split; [apply A|]. split; [exists (n_children y); apply A|].
  split; [|done]. intros n z Hz. destruct (ad_old _ _ _ _ _ _ _ _ A n z Hz) as (z' & ? & ?).
  exists z'. naive_solver.
Qed.

(** ** Nodes that keep their content

    No node changes its type or its inode, and the new ones have no content. *)
Definition blank (i : vfs_inode_t) : Prop := i_size i = 0 ∧ i_capacity i = 0 ∧ i_data i = None.

Definition keeps (s s' : vfs_state) : Prop :=
  ∀ n x', nodes s' !! n = Some x' →
    match nodes s !! n with
    | Some x => n_type x' = n_type x ∧ n_inode x' = n_inode x
    | None => blank (n_inode x')
    end.

Lemma keeps_same s s' : nodes s' = nodes s → keeps s s'.
Proof. intros E n x Hx. rewrite <- E, Hx. done. Qed.

(** A step that makes no node. *)
Lemma keeps_old s s1 s2 :
  keeps s s1 →
  (∀ n z, nodes s2 !! n = Some z → ∃ y, nodes s1 !! n = Some y ∧ n_type z = n_type y ∧ n_inode z = n_inode y) →
  keeps s s2.
Proof.
  intros H Hs n z (y & Hy & Et & Ei)%Hs. specialize (H n y Hy).
  destruct (nodes s !! n); rewrite ?Et, Ei; done.
Qed.

Lemma keeps_upd s s1 n f :
  keeps s s1 → (∀ x, n_type (f x) = n_type x ∧ n_inode (f x) = n_inode x) → keeps s (node_upd n f s1).
Proof.
  intros H Hf. eapply keeps_old; [done|]. intros m z (y & Hy & ->)%alter_some.
  exists y. split; [done|]. case_decide; [apply Hf|done].
Qed.

Lemma keeps_delete s s1 n : keeps s s1 → keeps s (s1 <| nodes ::= delete n |>).
Proof.
  intros H. eapply keeps_old; [done|]. intros m z. simpl. intros [_ Hz]%lookup_delete_Some. by exists z.
Qed.

Lemma keeps_insert s n x : nodes s !! n = None → blank (n_inode x) → keeps s (s <| nodes ::= <[n := x]> |>).
Proof.
  intros Hn Hx m z. simpl. destruct (decide (n = m)) as [<-|].
  - rewrite lookup_insert_eq, Hn. by intros [= <-].
  - rewrite lookup_insert_ne by done. by intros ->.
Qed.

Lemma keeps_release s s1 n : keeps s s1 → keeps s (vfs_node_release s1 n).
Proof.
  intros H. unfold vfs_node_release, vfs_free_node. repeat case_if; try done; try apply keeps_delete;
    by apply keeps_upd.
Qed.

Lemma keeps_detach s s1 d n : keeps s s1 → keeps s (detach s1 d n).
Proof.
  intros H. unfold detach. generalize (child_list (nodes s1) d). intros l. generalize 0.
  induction l as [|a l IH]; intros prev; simpl; [done|].
  case_if; [case_if; by apply keeps_upd|apply IH].
Qed.

Lemma keeps_add_child s s1 d n : keeps s s1 → keeps s (vfs_add_child s1 d n).2.
Proof.
  intros H. unfold vfs_add_child. case_if; [done|]. simpl.
  apply keeps_upd; [apply keeps_upd|]; done.
Qed.

Lemma keeps_create s b d nm type :
  (nb_node b ≠ 0 → nodes s !! nb_node b = None) → keeps s (vfs_create_node s b d nm type).2.
Proof.
  intros Hb. unfold vfs_create_node, vfs_alloc_node.
  case_if; bool_hyps; [by apply keeps_same|]. case_if; [by apply keeps_same|].
  rewrite (proj2 (Z.eqb_neq _ 0)) by done.
  set (s1 := s <| nodes ::= _ |>).
  assert (keeps s s1) as H1 by (by apply keeps_insert; [apply Hb|]).
  pose proof (keeps_add_child s s1 d (nb_node b) H1) as H2.
  destruct (vfs_add_child s1 d (nb_node b)) as [rc s2]. simpl in *.
  case_if; [by apply keeps_release|]. done.
Qed.

End VfsOps.
