(* ===== verification/VfsNames.v ===== *)
(** * Creating, unlinking and renaming by path

    What [vfs_mkdir], [vfs_unlink] and [vfs_rename] do to the namespace, with
    the invariant of the VFS kept on every branch. *)

From stdpp Require Import base gmap list numbers fin_maps.
From S2P Require Import Prelude PathSpec Vfs VfsFacts VfsTree VfsOps VfsFile.

Module VfsNames.
Import PathSpec Vfs VfsFacts VfsTree VfsPath VfsInv VfsOps.

Implicit Types (N : node_store) (K : Z → list Z) (refs : Z → Z).

(** ** The parent of a path *)
Lemma top_live s n : top s n → live_dir s n.
Proof. intros (x & ? & ? & ? & _). by exists x. Qed.

Lemma cross_live s K n x :
  tree (nodes s) K → mounts_ok s → nodes s !! n = Some x → n_type x = VFS_NODE_DIR →
  n_unlinked x = false → live_dir s (cross_mount s n).
Proof.
  intros T M Hn Ht Hu. unfold cross_mount.
  destruct (Z.eq_dec (vfs_find_mount_at s n) 0) as [E|E].
  - rewrite E. by exists x.
  - destruct (find_mount_at_spec s n _ M E eq_refl) as [Hin _].
    rewrite (proj2 (Z.eqb_neq _ 0) E). simpl. pose proof (top_live _ _ (mo_root _ M _ Hin)) as Hl.
    destruct Hl as (y & Hy & ?). rewrite (proj2 (Z.eqb_neq _ 0)); [by exists y|].
    by eapply tree_nonzero.
Qed.

Lemma comps_bound path c : c ∈ comps path → (length c ≤ 31)%nat ∧ c ≠ [].
Proof.
  intros (p & -> & Hp)%list_elem_of_fmap.
  pose proof (components_part path) as H. rewrite Forall_forall in H. destruct (H p Hp) as [_ Hne].
  split; [rewrite length_take; lia|]. by destruct p.
Qed.

Lemma parent_result s K refs path d leaf :
  vfs_inv s K refs → vfs_resolve_parent s path = (d, leaf) → d ≠ 0 →
  live_dir s d ∧ (length leaf ≤ 31)%nat ∧ leaf ≠ [] ∧
  ∃ cs, comps path = cs ++ [leaf] ∧ walk s (vfs_root s) cs = d.
Proof.
  intros I. rewrite resolve_parent_walk. case_if; bool_hyps; [by intros [= <- _]|].
  intros Hw Hd. destruct (walk_parent_spec _ _ _ _ _ Hw Hd) as (cs & Hc & Hwalk & Hlast).
  pose proof (vi_tree _ _ _ I) as T. pose proof (vi_mounts _ _ _ I) as M. split.
  - destruct cs as [|c cs]; [simpl in Hwalk; subst d; by apply top_live, M|].
    destruct (Hlast ltac:(done)) as (n & e & Hdir & Hn & Hf & ->).
    destruct (proj1 (find_child_spec _ _ _ _ _ T Hn) Hf) as [Hk _].
    destruct (t_child _ _ T _ _ Hk) as (x & Hx & _ & Hu).
    apply (cross_live s K n x); try done. unfold is_dir in Hdir. bool_hyps.
    by rewrite (lookup_total_correct _ _ _ Hx) in Hdir.
  - assert (leaf ∈ comps path) as Hin by (rewrite Hc, elem_of_app; right; by left).
    destruct (comps_bound _ _ Hin). eauto.
Qed.

(** ** [vfs_mkdir] *)
Lemma mkdir_result s K refs b path rc s' :
  vfs_inv s K refs → (nb_node b ≠ 0 → nodes s !! nb_node b = None) →
  vfs_mkdir s b path = (rc, s') →
  (s' = s ∧ (rc = RDNX_OK → path = [SLASH] ∨ ∃ d leaf, vfs_resolve_parent s path = (d, leaf) ∧
                                vfs_find_child (nodes s) d leaf ≠ 0)) ∨
  (rc = RDNX_OK ∧ ∃ d leaf, vfs_resolve_parent s path = (d, leaf) ∧
     vfs_find_child (nodes s) d leaf = 0 ∧ nb_node b ≠ 0 ∧
     vfs_inv s' (kset d (nb_node b :: K d) K) refs ∧
     (∀ e nm, vfs_find_child (nodes s') e nm
                = ns_set d leaf (nb_node b) (vfs_find_child (nodes s)) e nm) ∧
     is_dir (nodes s') (nb_node b) = true).
Proof.
  intros I Hb. unfold vfs_mkdir.
  case_if; bool_hyps; [intros [= <- <-]; by left|].
  case_if; bool_hyps; [intros [= <- <-]; left; auto|].
  destruct (vfs_resolve_parent s path) as [d leaf] eqn:Hp.
  case_if; bool_hyps; [intros [= <- <-]; by left|].
  case_if; bool_hyps; [intros [= <- <-]; by left|].
  case_if; bool_hyps; [intros [= <- <-]; left; split; [done|]; right; eauto|].
  destruct (vfs_create_node s b d leaf VFS_NODE_DIR) as [c s1] eqn:Hc.
  destruct (parent_result _ _ _ _ _ _ I Hp Eif1) as (Hl & Hlen & Hne & _).
  destruct (create_node_result _ _ _ _ _ _ _ _ _ I Hl Hlen Eif3 Hb Hc)
    as [[-> ->]|(-> & Hc0 & _ & I' & Hns & (y & Hdir) & _)]; intros [= <- <-].
  - by left.
  - right. rewrite (proj2 (Z.eqb_neq _ 0)) by done. simpl. split; [done|].
    exists d, leaf. unfold is_dir. rewrite (lookup_total_correct _ _ _ Hdir). eauto 10.
Qed.

(** ** Removing an entry *)
Lemma find_child_remove N N' K d c l1 l2 e nm' :
  tree N K → K d = l1 ++ c :: l2 → tree N' (kset d (l1 ++ l2) K) →
  (∀ a, a ≠ c → n_name (N' !!! a) = n_name (N !!! a)) →
  vfs_find_child N' e nm' = ns_set d (n_name (N !!! c)) 0 (vfs_find_child N) e nm'.
Proof.
  intros T Hk T' Hold.
  pose proof (detach_elem N K d c l1 l2 T Hk) as Hel. pose proof (detach_kid K d c l1 l2 Hk) as Hc.
  unfold ns_set. case_decide as E.
  - destruct E as [-> ->]. apply (find_child_is _ _ _ _ _ T'); [done|].
    intros _ a. rewrite kset_eq, Hel. intros [Ha Hac]. rewrite Hold by done. intros En.
    apply Hac. by apply (t_names _ _ T d).
  - apply (find_child_is _ _ _ _ _ T').
    + intros Hr. destruct (proj1 (find_child_spec _ _ _ _ _ T Hr) eq_refl) as [Hke Hnm].
      assert (vfs_find_child N e nm' ≠ c) as Hne.
      { intros Ec. rewrite Ec in Hke, Hnm. apply E. split; [by apply (tree_disjoint N K _ _ c T)|done]. }
      rewrite Hold by done. split; [|done]. unfold kset. case_decide; [subst e; by apply Hel|done].
    + intros Hr a Ha. assert (a ∈ K e ∧ a ≠ c) as [Hae Hac].
      { revert Ha. unfold kset. case_decide as Ed; [subst e; by apply Hel|].
        intros Ha. split; [done|]. intros ->. apply Ed. by apply (tree_disjoint N K _ _ c T). }
      rewrite Hold by done. by apply (find_child_none _ K) with (c := a) in Hr.
Qed.

(** The store after the loop that takes [c] off [d], and the rest of the state. *)
Lemma detach_state s K d c l1 l2 :
  tree (nodes s) K → K d = l1 ++ c :: l2 →
  nodes (detach s d c) = skip_over (last l1) d c (nodes s) ∧
  detach s d c = s <| nodes := nodes (detach s d c) |>.
Proof.
  intros T Hk. pose proof (detach_kid K d c l1 l2 Hk) as Hc. split.
  - unfold detach. rewrite (tree_child_list _ _ _ T (tree_kid_dir _ _ _ _ T Hc)), Hk.
    pose proof (t_nodup _ _ T d) as Hnd. rewrite Hk in Hnd. apply NoDup_app in Hnd as (_ & Hd & _).
    rewrite unlink_loop_eq.
    + by destruct (last l1).
    + intros Hin. apply (Hd c Hin). by left.
    + intros a Ha. apply (tree_kid _ K d a T). rewrite Hk. apply elem_of_app. by left.
  - unfold detach. generalize (child_list (nodes s) d). intros l. generalize 0. revert s T.
    induction l as [|a l IH]; intros s T prev; simpl; [by destruct s|].
    case_if; [by case_if; destruct s|]. by apply IH.
Qed.

Lemma inv_refs_ext s K refs refs' : (∀ n, refs n = refs' n) → vfs_inv s K refs → vfs_inv s K refs'.
Proof.
  intros E I. split; try apply I. intros n. pose proof (vi_refs _ _ _ I n). by rewrite <- E.
Qed.

(** ** [vfs_unlink] *)
Definition unlink_mark (n : Z) : vfs_state → vfs_state :=
  node_upd n (λ x, x <| n_unlinked := true |> <| n_parent := 0 |>).

Section Remove.
Context (s : vfs_state) (K : Z → list Z) (refs : Z → Z) (n : Z) (x : vfs_node_t) (l1 l2 : list Z).
Hypotheses (I : vfs_inv s K refs) (Hx : nodes s !! n = Some x) (Hu : n_unlinked x = false).
Hypotheses (Hp : n_parent x ≠ 0) (Hkn : K n = []) (Hmp : vfs_find_mount_at s n = 0).
Hypothesis Hk : K (n_parent x) = l1 ++ n :: l2.

Let d := n_parent x.
Let s2 := unlink_mark n (detach s d n).
Let T : tree (nodes s) K := vi_tree _ _ _ I.

Lemma removed_store :
  nodes s2 = alter (λ x, x <| n_unlinked := true |>) n
               (alter (λ x, x <| n_parent := 0 |>) n (skip_over (last l1) d n (nodes s))).
Proof using All.
  unfold s2, unlink_mark. simpl. rewrite (proj1 (detach_state s K d n l1 l2 T Hk)).
  by rewrite alter_alter_eq.
Qed.

Lemma removed_other a y :
  nodes s2 !! a = Some y → ∃ w, nodes s !! a = Some w ∧ n_name y = n_name w ∧ n_type y = n_type w ∧
    n_ref_count y = n_ref_count w ∧ n_inode y = n_inode w ∧
    n_unlinked y = (if decide (a = n) then true else n_unlinked w) ∧
    n_parent y = (if decide (a = n) then 0 else n_parent w).
Proof using All.
  rewrite removed_store. intros (z & Hz & ->)%alter_some.
  destruct (detach_some _ K d n l1 l2 T Hk a z Hz) as (w & Hw & ? & ? & ? & ? & ? & Hpz & _).
  exists w. case_decide; naive_solver.
Qed.

Lemma removed_is_Some a : is_Some (nodes s2 !! a) ↔ is_Some (nodes s !! a).
Proof using All.
  rewrite removed_store, alter_is_Some. apply (detach_is_Some _ K d n l1 l2 T Hk).
Qed.

Lemma removed_total a :
  n_name (nodes s2 !!! a) = n_name (nodes s !!! a).
Proof using All.
  rewrite removed_store, (alter_total_proj n_name) by done.
  apply (detach_total _ K d n l1 l2 T Hk).
Qed.

Lemma removed_tree : tree (nodes s2) (kset d (l1 ++ l2) K).
Proof using All.
  rewrite removed_store. pose proof (tree_detach (nodes s) K d n l1 l2 T Hk) as TM.
  destruct (proj2 (detach_is_Some _ K d n l1 l2 T Hk n) (mk_is_Some _ _ Hx)) as [x1 Hx1].
  destruct (detach_some _ K d n l1 l2 T Hk n x1 Hx1) as (w & Hw & _ & _ & _ & _ & _ & Hp1 & _).
  rewrite decide_True in Hp1 by done.
  apply (tree_orphan _ _ n x1); try done. intros _.
  rewrite kset_ne; [done|]. exact (detach_ne _ K d n l1 l2 T Hk).
Qed.

Lemma entry_removed_inv : vfs_inv (vfs_cache_reset s2) (kset d (l1 ++ l2) K) (radd n 1 refs).
Proof using All.
  pose proof (proj2 (detach_state s K d n l1 l2 T Hk)) as Hds.
  apply cache_reset_inv; [apply removed_tree| | |].
  - apply (mounts_ok_keep s); [apply I|unfold s2, unlink_mark; rewrite Hds; done..|].
    intros a w Hw Hwu Ha.
    destruct (proj2 (removed_is_Some a) (mk_is_Some _ _ Hw)) as [y Hy]. exists y. split; [done|].
    destruct (removed_other a y Hy) as (w' & Hw' & _ & Ht & _ & _ & -> & ->).
    assert (w' = w) as -> by congruence. destruct (decide (a = n)) as [->|]; [|done].
    destruct Ha as [Ha|(m & Hm & Ha)]; [congruence|].
    by destruct (find_mount_at_none s n m (vi_mounts _ _ _ I) Hmp Hm).
  - intros a. pose proof (vi_refs _ _ _ I a) as [H0 Ha]. unfold radd. split; [case_decide; lia|].
    destruct (nodes s2 !! a) as [y|] eqn:Hy.
    + destruct (removed_other a y Hy) as (w & Hw & _ & _ & -> & _ & -> & _). rewrite Hw in Ha.
      case_decide; [|done]. subst a. assert (w = x) as -> by congruence. rewrite Hu in Ha. lia.
    + assert (nodes s !! a = None) as Hn.
      { apply eq_None_not_Some. rewrite <- removed_is_Some. by apply eq_None_not_Some. }
      rewrite Hn in Ha. case_decide; [congruence|done].
  - unfold s2, unlink_mark. rewrite Hds. apply I.
Qed.

Lemma remove_result :
  let s' := vfs_node_release (vfs_cache_reset s2) n in
  vfs_inv s' (kset d (l1 ++ l2) K) refs ∧
  (∀ e nm, vfs_find_child (nodes s') e nm
             = ns_set d (n_name x) 0 (vfs_find_child (nodes s)) e nm) ∧
  (nodes s' !! n = None ↔ refs n = 0).
Proof using All.
  intros s'. destruct (proj2 (removed_is_Some n) (mk_is_Some _ _ Hx)) as [y Hy].
  destruct (removed_other n y Hy) as (w & Hw & _ & _ & _ & _ & Hyu & _).
  rewrite decide_True in Hyu by done.
  pose proof (vi_refs _ _ _ I n) as [H0 _].
  assert (0 < radd n 1 refs n) as Hpos by (unfold radd; rewrite decide_True by done; lia).
  destruct (release_inv _ _ _ n y entry_removed_inv Hy Hpos) as [I' Hfree]. fold s' in I', Hfree.
  split; [|split].
  - eapply inv_refs_ext; [|exact I']. intros a. unfold radd. case_decide; lia.
  - intros e nm. rewrite <- (lookup_total_correct _ _ _ Hx).
    apply (find_child_remove _ _ K d n l1 l2); [done..|apply I'|].
    intros a Ha. rewrite <- removed_total. unfold s', vfs_node_release.
    assert (∀ f, nodes (node_upd n f (vfs_cache_reset s2)) !!! a = nodes s2 !!! a) as Hupd.
    { intros f. simpl. by rewrite alter_total_ne. }
    repeat case_if; try done; [|by rewrite Hupd].
    unfold vfs_free_node. case_if; [by rewrite Hupd|]. simpl.
    rewrite lookup_total_alt, lookup_delete_ne, <- lookup_total_alt by done. apply (f_equal n_name), Hupd.
  - rewrite Hfree, Hyu. unfold radd. rewrite decide_True by done. split; [lia|]. split; [done|lia].
Qed.

End Remove.

Lemma unlink_result s K refs path rc s' :
  vfs_inv s K refs → vfs_unlink s path = (rc, s') →
  (rc ≠ RDNX_OK ∧ vfs_inv s' K refs ∧ lookup_frame s s') ∨
  (rc = RDNX_OK ∧ ∃ n x K', (vfs_lookup s path).1 = n ∧ n ≠ vfs_root s ∧ nodes s !! n = Some x ∧
     K n = [] ∧ n_parent x ≠ 0 ∧ vfs_inv s' K' refs ∧
     (∀ e nm, vfs_find_child (nodes s') e nm
                = ns_set (n_parent x) (n_name x) 0 (vfs_find_child (nodes s)) e nm) ∧
     (nodes s' !! n = None ↔ refs n = 0)).
Proof.
  intros I. unfold vfs_unlink. case_if; bool_hyps.
  { intros [= <- <-]. left. by split; [|split; [|apply lookup_frame_refl]]. }
  destruct (vfs_lookup s path) as [n s1] eqn:Hl. simpl.
  destruct (vfs_lookup_result _ _ _ _ _ _ I Hl) as (I1 & F & Ht & _).
  case_if; [intros [= <- <-]; by left|]. bool_hyps. specialize (Ht ltac:(done)).
  case_if; [intros [= <- <-]; by left|].
  case_if; [intros [= <- <-]; by left|].
  case_if; [intros [= <- <-]; by left|]. bool_hyps. intros [= <- <-]. right. split; [done|].
  apply (frame_target _ _ (lookup_namespace _ _ F)) in Ht as (x & Hx & Hu & Hmp).
  unfold vnode in *. rewrite (lookup_total_correct _ _ _ Hx) in *.
  pose proof (vi_tree _ _ _ I1) as T.
  assert (K n = []) as Hkn.
  { destruct (K n) as [|a l] eqn:Ek; [done|]. exfalso. unfold is_dir in Eif1.
    rewrite (lookup_total_correct _ _ _ Hx) in Eif1.
    assert (n_type x = VFS_NODE_DIR) as Ht by (apply (t_dir _ _ T n x Hx); by rewrite Ek).
    rewrite (bool_decide_eq_true_2 _ Ht) in Eif1. simpl in Eif1. bool_hyps.
    apply (tree_children_nil _ _ _ _ T Hx) in Eif1. congruence. }
  pose proof (t_parent _ _ T n x Hx Eif2) as Hkid.
  apply list_elem_of_split in Hkid as (l1 & l2 & Hk).
  destruct (remove_result s1 K refs n x l1 l2) as (I' & Hns & Hfree); try done; [by destruct Hmp|].
  exists n, x, (kset (n_parent x) (l1 ++ l2) K).
  rewrite <- (lf_nodes _ _ F), <- (lf_root _ _ F). done.
Qed.

(** ** [vfs_rename] *)

(** The chain of parents of a directory consists of directories. *)
Lemma chain_dirs N K n l a :
  tree N K → pchain N n l → is_dir N n = true → a ∈ l → is_dir N a = true.
Proof.
  intros T. revert n. induction l as [|b l IH]; intros n Hl Hn Ha; [by apply not_elem_of_nil in Ha|].
  destruct Hl as (-> & [z Hz] & Hl). apply elem_of_cons in Ha as [->|Ha]; [done|].
  destruct l as [|p l]; [by apply not_elem_of_nil in Ha|].
  pose proof Hl as (Hp & [y Hy] & _). rewrite (lookup_total_correct _ _ _ Hz) in *.
  apply (IH (n_parent z)); [done| |done]. unfold is_dir. apply bool_decide_eq_true_2.
  assert (n_parent z ≠ 0) as H0 by (rewrite Hp; by eapply tree_nonzero).
  pose proof (t_parent _ _ T b z Hz H0) as Hk. rewrite Hp in *.
  rewrite (lookup_total_correct _ _ _ Hy). apply (t_dir _ _ T p y Hy).
  intros E. rewrite E in Hk. by apply not_elem_of_nil in Hk.
Qed.

Section Move.
Context (s : vfs_state) (K : Z → list Z) (refs : Z → Z).
Context (od nd n : Z) (x y : vfs_node_t) (nl : list Z) (l1 l2 : list Z).
Hypotheses (I : vfs_inv s K refs) (Hk : K od = l1 ++ n :: l2).
Hypotheses (Hx : nodes s !! n = Some x) (Hxu : n_unlinked x = false).
Hypotheses (Hy : nodes s !! nd = Some y) (Hyt : n_type y = VFS_NODE_DIR) (Hyu : n_unlinked y = false).
Hypotheses (Hlen : (length nl ≤ 31)%nat) (Hfree : vfs_find_child (nodes s) nd nl = 0).
Hypothesis Hanc : ∀ l, pchain (nodes s) nd l → n ∉ l.

Let T : tree (nodes s) K := vi_tree _ _ _ I.
Let M := alter (λ x, x <| n_parent := 0 |>) n (skip_over (last l1) od n (nodes s)).
Let K1 := kset od (l1 ++ l2) K.
Let B := alter (λ x, x <| n_name := nl |>) n M.

Lemma move_node_ne : n ≠ nd.
Proof using All.
  intros ->. destruct (t_rooted _ _ T nd y Hy) as [l Hl]. apply (Hanc l Hl).
  destruct l as [|a l]; [by destruct (tree_nonzero _ _ _ _ T Hy)|]. destruct Hl as (-> & _). by left.
Qed.

Lemma move_M a z :
  M !! a = Some z → ∃ w, nodes s !! a = Some w ∧ n_name z = n_name w ∧ n_type z = n_type w ∧
    n_unlinked z = n_unlinked w ∧ n_inode z = n_inode w ∧ n_ref_count z = n_ref_count w ∧
    n_parent z = (if decide (a = n) then 0 else n_parent w) ∧ (a ≠ od → n_children z = n_children w).
Proof using All. apply (detach_some _ K od n l1 l2 T Hk). Qed.

Lemma move_is_Some a : is_Some (B !! a) ↔ is_Some (nodes s !! a).
Proof using All. unfold B. rewrite alter_is_Some. apply (detach_is_Some _ K od n l1 l2 T Hk). Qed.

Lemma move_kid e a : a ∈ K1 e → a ≠ n ∧ a ∈ K e.
Proof using All.
  unfold K1, kset. case_decide as E; [subst e; rewrite (detach_elem _ K od n l1 l2 T Hk); naive_solver|].
  intros Ha. split; [|done]. intros ->. apply E.
  by apply (tree_disjoint (nodes s) K _ _ n T), (detach_kid K od n l1 l2).
Qed.

Lemma move_name a : a ≠ n → n_name (B !!! a) = n_name (nodes s !!! a).
Proof using All.
  intros Ha. unfold B. rewrite alter_total_ne by done. apply (detach_total _ K od n l1 l2 T Hk).
Qed.

Lemma move_orphan :
  tree B K1 ∧ (∃ z, B !! n = Some z ∧ n_parent z = 0 ∧ n_unlinked z = false ∧ n_name z = nl).
Proof using All.
  pose proof (tree_detach (nodes s) K od n l1 l2 T Hk) as TM. fold M K1 in TM.
  destruct (proj2 (detach_is_Some _ K od n l1 l2 T Hk n) (mk_is_Some _ _ Hx)) as [z Hz]. fold M in Hz.
  destruct (move_M n z Hz) as (w & Hw & _ & _ & Hu & _ & _ & Hp & _).
  rewrite decide_True in Hp by done. assert (w = x) as -> by congruence. split.
  - apply (tree_orphan _ _ n z); try done. simpl. congruence.
  - exists (z <| n_name := nl |>). split; [|simpl; by rewrite Hp, Hu].
    unfold B. by rewrite lookup_alter_eq, Hz.
Qed.

Lemma move_chain l : pchain B nd l → n ∉ l.
Proof using All.
  intros Hl. destruct move_orphan as [TB _]. destruct (t_rooted _ _ T nd y Hy) as [l0 Hl0].
  assert (pchain B nd l0) as Hl1.
  { apply (pchain_ext (nodes s)); [|done]. intros a Ha Has. split; [by apply move_is_Some|].
    unfold B. rewrite (alter_total_proj n_parent) by done.
    apply (detach_total _ K od n l1 l2 T Hk). intros ->. by apply (Hanc l0). }
  rewrite (pchain_det _ _ _ _ (t_zero _ _ TB) Hl Hl1). by apply Hanc.
Qed.

Lemma move_dir : ∃ w, B !! nd = Some w ∧ n_type w = VFS_NODE_DIR ∧ n_unlinked w = false.
Proof using All.
  destruct (proj2 (move_is_Some nd) (mk_is_Some _ _ Hy)) as [w Hw]. exists w. split; [done|].
  unfold B in Hw. rewrite lookup_alter_ne in Hw by exact move_node_ne.
  destruct (move_M nd w Hw) as (w' & Hw' & _ & -> & -> & _). assert (w' = y) as -> by congruence. done.
Qed.

Lemma move_tree : tree (attach nd n B) (kset nd (n :: K1 nd) K1).
Proof using All.
  destruct move_orphan as [TB (z & Hz & Hzp & Hzu & Hzn)]. destruct move_dir as (w & Hw & Hwt & Hwu).
  apply (tree_attach B K1 nd n z w); try done; [|apply move_chain].
  intros e He. destruct (move_kid nd e He) as [Hen Hek]. rewrite move_name, Hzn by done.
  by apply (find_child_none _ K) with (c := e) in Hfree.
Qed.

Lemma move_find e nm :
  vfs_find_child (attach nd n B) e nm
    = ns_set nd nl n (ns_set od (n_name x) 0 (vfs_find_child (nodes s))) e nm.
Proof using All.
  destruct move_orphan as [TB (z & Hz & Hzp & Hzu & Hzn)].
  rewrite (find_child_add B _ K1 nd n nl).
  - unfold ns_set. case_decide as E1; [done|].
    pose proof (find_child_remove (nodes s) B K od n l1 l2 e nm T Hk TB move_name) as ->.
    by rewrite (lookup_total_correct _ _ _ Hx).
  - done.
  - apply move_tree.
  - by eapply tree_nonzero.
  - unfold attach. rewrite !(alter_total_proj n_name) by done. by rewrite (lookup_total_correct _ _ _ Hz).
  - intros a k Ha. unfold attach. by rewrite !(alter_total_proj n_name).
Qed.

(** The assignments of the code, in their order. *)
Definition move_code : vfs_state :=
  let s := detach s od n in
  let s := node_upd n (λ x, x <| n_sibling := n_children (vnode s nd) |>) s in
  let s := node_upd nd (λ x, x <| n_children := n |>) s in
  node_upd n (λ x, x <| n_parent := nd |> <| n_name := strncpy_z NAME_SIZE nl |>) s.

Lemma move_code_store : nodes move_code = attach nd n B.
Proof using All.
  pose proof move_node_ne as Hne. unfold move_code, attach, B, M. simpl. unfold vnode. simpl.
  rewrite (proj1 (detach_state s K od n l1 l2 T Hk)). rewrite strncpy_name by done.
  set (S := skip_over (last l1) od n (nodes s)).
  rewrite !(alter_total_ne _ _ n nd) by done.
  rewrite (alter_alter_ne _ _ _ n nd) by done. f_equal.
  rewrite !alter_alter_eq. done.
Qed.

Lemma move_result :
  vfs_inv (vfs_cache_reset move_code) (kset nd (n :: K1 nd) K1) refs ∧
  (∀ e nm, vfs_find_child (nodes (vfs_cache_reset move_code)) e nm
     = ns_set nd nl n (ns_set od (n_name x) 0 (vfs_find_child (nodes s))) e nm).
Proof using All.
  pose proof (proj2 (detach_state s K od n l1 l2 T Hk)) as Hds. pose proof move_code_store as HN.
  split; [|intros e nm; change (nodes (vfs_cache_reset move_code)) with (nodes move_code);
           rewrite HN; apply move_find].
  assert (∀ a w, nodes s !! a = Some w → ∃ z, nodes move_code !! a = Some z ∧ n_type z = n_type w ∧
    n_unlinked z = n_unlinked w ∧ n_ref_count z = n_ref_count w ∧
    (a ≠ n → n_parent z = n_parent w)) as Hold.
  { intros a w Hw. rewrite HN. destruct (proj2 (move_is_Some a) (mk_is_Some _ _ Hw)) as [z Hz].
    assert (is_Some (attach nd n B !! a)) as [v Hv] by (unfold attach; rewrite !alter_is_Some; by eexists).
    exists v. split; [done|]. unfold attach in Hv.
    apply alter_some in Hv as (v1 & (v2 & Hv2 & ->)%alter_some & ->). unfold B in Hv2.
    apply alter_some in Hv2 as (v3 & Hv3 & ->). destruct (move_M a v3 Hv3) as (w' & Hw' & ? & ? & ? & ? & ? & Hp & _).
    assert (w' = w) as -> by congruence. repeat case_decide; naive_solver. }
  apply cache_reset_inv; [rewrite HN; apply move_tree| | |].
  - apply (mounts_ok_keep s); [apply I|unfold move_code; rewrite Hds; done..|].
    intros a w Hw Hwu Ha. destruct (Hold a w Hw) as (z & Hz & Ht & Hu & _ & Hp). exists z.
    split; [done|]. split; [congruence|]. intros Hw0. split; [|done].
    rewrite Hp; [done|]. intros ->. assert (w = x) as -> by congruence.
    destruct (tree_kid _ _ _ _ T (detach_kid K od n l1 l2 Hk)) as (_ & Hpo & _).
    rewrite (lookup_total_correct _ _ _ Hx), Hw0 in Hpo.
    pose proof (t_out _ _ T 0 (t_zero _ _ T)) as E. rewrite Hpo, Hk in E. by destruct l1.
  - intros a. pose proof (vi_refs _ _ _ I a) as [H0 Ha]. split; [done|].
    destruct (nodes s !! a) as [w|] eqn:Hw.
    + destruct (Hold a w Hw) as (z & -> & _ & -> & -> & _). done.
    + rewrite HN. assert (attach nd n B !! a = None) as ->; [|done].
      apply eq_None_not_Some. unfold attach. rewrite !alter_is_Some, move_is_Some, Hw. by intros [? ?].
  - unfold move_code. rewrite Hds. apply I.
Qed.

End Move.

Lemma rename_result s K refs old_path new_path rc s' :
  vfs_inv s K refs → vfs_rename s old_path new_path = (rc, s') →
  (s' = s ∧ (rc = RDNX_OK → old_path = new_path)) ∨
  (rc = RDNX_OK ∧ ∃ od ol nd nl n K',
     vfs_resolve_parent s old_path = (od, ol) ∧ vfs_resolve_parent s new_path = (nd, nl) ∧
     vfs_find_child (nodes s) od ol = n ∧ n ≠ 0 ∧ vfs_find_child (nodes s) nd nl = 0 ∧
     vfs_inv s' K' refs ∧
     (∀ e nm, vfs_find_child (nodes s') e nm
                = ns_set nd nl n (ns_set od ol 0 (vfs_find_child (nodes s))) e nm)).
Proof.
  intros I. pose proof (vi_tree _ _ _ I) as T. unfold vfs_rename.
  case_if; [intros [= <- <-]; by left|]. case_if; [intros [= <- <-]; by left|].
  case_if; bool_hyps; [intros [= <- <-]; by left|].
  destruct (vfs_resolve_parent s old_path) as [od ol] eqn:Ho.
  destruct (vfs_resolve_parent s new_path) as [nd nl] eqn:Hn.
  case_if; [intros [= <- <-]; by left|]. bool_hyps.
  case_if; bool_hyps; [intros [= <- <-]; by left|].
  case_if; [intros [= <- <-]; by left|]. case_if; bool_hyps; [intros [= <- <-]; by left|].
  case_if; [intros [= <- <-]; by left|]. intros [= <- <-]. right. split; [done|].
  set (n := vfs_find_child (nodes s) od ol) in *.
  destruct (proj1 (find_child_spec _ K od ol n T ltac:(done)) eq_refl) as [Hkid Hnm].
  destruct (t_child _ _ T od n Hkid) as (x & Hx & _ & Hxu).
  rewrite (lookup_total_correct _ _ _ Hx) in Hnm.
  destruct (parent_result _ _ _ _ _ _ I Hn ltac:(done)) as ((y & Hy & Hyt & Hyu) & Hlen & _).
  apply list_elem_of_split in Hkid as (l1 & l2 & Hk).
  destruct (move_result s K refs od nd n x y nl l1 l2) as [I' Hns]; try done.
  { intros l Hl Hin. destruct (is_ancestor_spec (nodes s) K n nd T (mk_is_Some _ _ Hy)) as (l0 & Hl0 & Ea).
    rewrite (pchain_det _ _ _ _ (t_zero _ _ T) Hl Hl0) in Hin.
    rewrite Ea, (bool_decide_eq_true_2 _ Hin), andb_true_r in Eif2.
    rewrite (chain_dirs _ K nd l0 n T Hl0) in Eif2; [done| |done].
    unfold is_dir. apply bool_decide_eq_true_2. by rewrite (lookup_total_correct _ _ _ Hy). }
  eexists od, ol, nd, nl, n, _. do 5 (split; [done|]). split; [exact I'|].
  intros e nm. by rewrite <- Hnm.
Qed.

End VfsNames.

(** * The content of a file

    A file kept in memory has a block of [i_capacity] bytes whose first
    [i_size] are its content.  Reading, writing within the file and resizing
    are the operations on the sequence of bytes that one expects; the loop
    that computes a capacity ends for sizes up to [2^63] and for no other. *)
Module VfsData.
Import PathSpec Vfs VfsFile.

(** A capacity: none, or 64 doubled a number of times. *)
Definition capacity_ok (c : Z) : Prop := c = 0 ∨ ∃ k, 6 ≤ k ≤ 63 ∧ c = 2 ^ k.

Definition inode_ok (i : vfs_inode_t) : Prop :=
  0 ≤ i_size i ≤ i_capacity i ∧ capacity_ok (i_capacity i) ∧
  match i_data i with
  | None => i_capacity i = 0
  | Some d => Z.of_nat (length d) = i_capacity i
  end.

Definition content (i : vfs_inode_t) : list Z := take (Z.to_nat (i_size i)) (default [] (i_data i)).

(** A file whose content is kept in memory only. *)
Definition plain (i : vfs_inode_t) : Prop :=
  i_fs_tag i ≠ VFS_FS_TAG_EXT2 ∧ has_flag (i_flags i) VFS_INODE_CONSOLE = false ∧
  has_flag (i_flags i) VFS_INODE_DEV_NULL = false ∧ has_flag (i_flags i) VFS_INODE_DEV_ZERO = false ∧
  has_flag (i_flags i) VFS_INODE_BLOCKDEV = false.

(** [kmalloc] returns a block of the size asked for. *)
Definition allocates (blk : data_block) : Prop :=
  ∀ n, 0 ≤ n → ∃ b, blk n = Some b ∧ Z.of_nat (length b) = n.

(** ** The capacity *)
Lemma grow_cap_eq fuel cap needed :
  grow_cap fuel cap needed
    = if cap <? needed then
        match fuel with O => None | S fuel => grow_cap fuel (cap *₆₄ 2) needed end
      else Some cap.
Proof. by destruct fuel. Qed.

Lemma grow_cap_enough fuel cap needed :
  0 < cap → needed ≤ 9223372036854775808 → needed ≤ cap * 2 ^ Z.of_nat fuel →
  ∃ c, grow_cap fuel cap needed = Some c ∧ needed ≤ c ∧ cap ≤ c ∧ (cap < needed → c < 18446744073709551616)
    ∧ (needed ≤ cap → c = cap).
Proof.
  revert cap. induction fuel as [|fuel IH]; intros cap Hc Hn Hf; rewrite grow_cap_eq.
  - rewrite (proj2 (Z.ltb_ge cap needed)) by (simpl in Hf; lia). exists cap. repeat split; lia.
  - case_if; bool_hyps; [|exists cap; repeat split; lia].
    rewrite u64_small by lia.
    destruct (IH (cap * 2)) as (c & -> & H1 & H2 & H3 & H4); [lia|lia| |].
    { rewrite Nat2Z.inj_succ, Z.pow_succ_r in Hf by lia. lia. }
    exists c. split; [done|]. split; [done|]. split; [lia|]. split; [|lia]. intros _.
    destruct (Z.lt_ge_cases (cap * 2) needed); [by apply H3|]. rewrite H4 by lia. lia.
Qed.

(** From a power of two, a larger size is never reached: the product becomes 0
    and stays 0. *)
Lemma grow_cap_diverges fuel cap needed :
  9223372036854775808 < needed → cap = 0 ∨ (∃ k, 0 ≤ k ≤ 63 ∧ cap = 2 ^ k) →
  grow_cap fuel cap needed = None.
Proof.
  intros Hn. revert cap. induction fuel as [|fuel IH]; intros cap Hc; rewrite grow_cap_eq.
  - rewrite (proj2 (Z.ltb_lt cap needed)); [done|].
    destruct Hc as [->|(k & Hk & ->)]; [lia|].
    pose proof (Z.pow_le_mono_r 2 k 63). change (2 ^ 63) with 9223372036854775808 in *. lia.
  - rewrite (proj2 (Z.ltb_lt cap needed)).
    + apply IH. destruct Hc as [->|(k & Hk & ->)]; [by left|].
      destruct (Z.eq_dec k 63) as [->|]; [by left|]. right. exists (k + 1). split; [lia|].
      rewrite Z.pow_add_r, Z.pow_1_r by lia. apply u64_small.
      pose proof (Z.pow_le_mono_r 2 k 62). pose proof (Z.pow_pos_nonneg 2 k).
      change (2 ^ 62) with 4611686018427387904 in *. lia.
    + destruct Hc as [->|(k & Hk & ->)]; [lia|].
      pose proof (Z.pow_le_mono_r 2 k 63). change (2 ^ 63) with 9223372036854775808 in *. lia.
Qed.

Lemma capacity_bound c : capacity_ok c → 0 ≤ c ≤ 9223372036854775808.
Proof.
  intros [->|(k & Hk & ->)]; [lia|]. change 9223372036854775808 with (2 ^ 63).
  split; [apply Z.pow_nonneg; lia|]. apply Z.pow_le_mono_r; lia.
Qed.

Lemma grow_cap_pow2 fuel cap needed c :
  0 < needed → capacity_ok cap → grow_cap fuel cap needed = Some c → capacity_ok c ∧ needed ≤ c.
Proof.
  intros Hn. revert cap. induction fuel as [|fuel IH]; intros cap Hc; rewrite grow_cap_eq;
    case_if; bool_hyps; try done; try (by intros [= <-]).
  apply IH. destruct Hc as [->|(k & Hk & ->)]; [by left|].
  destruct (Z.eq_dec k 63) as [->|]; [by left|]. right. exists (k + 1). split; [lia|].
  rewrite Z.pow_add_r, Z.pow_1_r by lia. apply u64_small.
  pose proof (Z.pow_le_mono_r 2 k 62). pose proof (Z.pow_pos_nonneg 2 k).
  change (2 ^ 62) with 4611686018427387904 in *. lia.
Qed.

(** ** Bytes put into a block *)
Lemma inserts_as_splice (p : nat) (buf d : list Z) :
  (p + length buf ≤ length d)%nat →
  list_inserts p buf d = take p d ++ buf ++ drop (p + length buf) d.
Proof.
  intros H. apply list_eq. intros k.
  destruct (decide (k < p)%nat) as [Hk|Hk].
  - rewrite list_lookup_inserts_lt by done. rewrite lookup_app_l, lookup_take_lt; [done|lia|].
    rewrite length_take. lia.
  - rewrite lookup_app_r by (rewrite length_take; lia). rewrite length_take, Nat.min_l by lia.
    destruct (decide (k < p + length buf)%nat) as [Hk2|Hk2].
    + rewrite list_lookup_inserts by lia. by rewrite lookup_app_l by lia.
    + rewrite list_lookup_inserts_ge by lia. rewrite lookup_app_r, lookup_drop by lia. f_equal. lia.
Qed.

Lemma inserts_length (p : nat) (buf d : list Z) : length (list_inserts p buf d) = length d.
Proof. apply length_inserts. Qed.

(** ** The state with another inode *)
Lemma inode_upd_const s n x f :
  nodes s !! n = Some x → inode_upd n f s = inode_upd n (λ _, f (n_inode x)) s.
Proof.
  intros Hx. unfold inode_upd, node_upd, field_update. simpl. f_equal. apply map_eq. intros k.
  destruct (decide (n = k)) as [<-|]; [|by rewrite !lookup_alter_ne].
  by rewrite !lookup_alter_eq, Hx.
Qed.

Lemma inode_upd_twice s n f i : inode_upd n f (inode_upd n (λ _, i) s) = inode_upd n (λ _, f i) s.
Proof.
  unfold inode_upd, node_upd, field_update. simpl. f_equal. apply map_eq. intros k.
  destruct (decide (n = k)) as [<-|]; [|by rewrite !lookup_alter_ne].
  rewrite !lookup_alter_eq. by destruct (nodes s !! n).
Qed.

Lemma inode_upd_same s n x : nodes s !! n = Some x → inode_upd n (λ _, n_inode x) s = s.
Proof.
  intros Hx. destruct s as [N ?]. unfold inode_upd, node_upd, field_update. simpl in *. f_equal.
  apply map_eq. intros k. destruct (decide (n = k)) as [<-|]; [|by rewrite lookup_alter_ne].
  rewrite lookup_alter_eq, Hx. simpl. by destruct x.
Qed.

Lemma inode_upd_lookup s n x f :
  nodes s !! n = Some x → nodes (inode_upd n f s) !! n = Some (x <| n_inode ::= f |>).
Proof. intros Hx. simpl. by rewrite lookup_alter_eq, Hx. Qed.

(** ** Growing *)
Definition grown (i : vfs_inode_t) (b : list Z) (c : Z) : vfs_inode_t :=
  i <| i_data := Some (moved_data i b) |> <| i_capacity := c |>.

Lemma moved_take i b :
  inode_ok i → i_size i ≤ Z.of_nat (length b) →
  take (Z.to_nat (i_size i)) (moved_data i b) = content i ∧ length (moved_data i b) = length b.
Proof.
  intros (Hs & _ & Hd) Hb. unfold moved_data, content. destruct (i_data i) as [d|]; simpl.
  - case_if; bool_hyps.
    + rewrite inserts_length. split; [|done]. rewrite inserts_as_splice.
      * simpl. rewrite take_app_le, take_take by (rewrite length_take; lia). f_equal. lia.
      * rewrite length_take. lia.
    + replace (Z.to_nat (i_size i)) with 0%nat by lia. done.
  - replace (Z.to_nat (i_size i)) with 0%nat by lia. done.
Qed.

Lemma grow_result s node x needed blk :
  nodes s !! node = Some x → node ≠ 0 → n_type x = VFS_NODE_FILE → inode_ok (n_inode x) →
  0 ≤ needed ≤ 9223372036854775808 → allocates blk →
  ∃ i', vfs_grow_file s node needed blk = Some (0, inode_upd node (λ _, i') s) ∧
    inode_ok i' ∧ content i' = content (n_inode x) ∧ i_size i' = i_size (n_inode x) ∧
    needed ≤ i_capacity i' ∧ i_flags i' = i_flags (n_inode x) ∧ i_fs_tag i' = i_fs_tag (n_inode x) ∧
    i_node_gen i' = i_node_gen (n_inode x) ∧
    (i_data i' = i_data (n_inode x) ∨ ∃ b, i_data i' = Some (moved_data (n_inode x) b) ∧
       blk (i_capacity i') = Some b).
Proof.
  intros Hx Hn Ht Hok Hneed Hblk. unfold vfs_grow_file, vnode, is_dir.
  rewrite (lookup_total_correct _ _ _ Hx), (proj2 (Z.eqb_neq node 0)) by done.
  rewrite (bool_decide_eq_false_2 (n_type x = _)) by congruence. simpl.
  destruct (Z.leb_spec needed (i_capacity (n_inode x))) as [Hc|Hc].
  - exists (n_inode x). rewrite (inode_upd_same s node x Hx). split; [done|].
    split_and!; try done. by left.
  - pose proof Hok as (Hs & Hcap & Hd).
    set (c0 := if negb (i_capacity (n_inode x) =? 0) then i_capacity (n_inode x) else 64).
    assert (0 < c0) by (unfold c0; case_if; bool_hyps; lia).
    assert (capacity_ok c0) as Hc0.
    { unfold c0. case_if; bool_hyps; [done|right; exists 6; done || lia]. }
    destruct (grow_cap_enough 64 c0 needed) as (c & Hgc & H1 & _); [done|lia| |].
    { change (2 ^ Z.of_nat 64) with 18446744073709551616. lia. }
    destruct (grow_cap_pow2 64 c0 needed c ltac:(lia) Hc0 Hgc) as [Hcok _]. rewrite Hgc.
    assert (i_size (n_inode x) ≤ c) by lia.
    destruct (Hblk c ltac:(lia)) as (b & Hbc & Hb). rewrite Hbc.
    destruct (moved_take (n_inode x) b) as [Hm1 Hm2]; [done|lia|].
    exists (grown (n_inode x) b c). split; [by rewrite (inode_upd_const s node x)|].
    unfold inode_ok, content, grown. simpl. split_and!; try done; try lia.
    right. by exists b.
Qed.

(** ** Writing *)
Definition wrote (pos stop : Z) (buf : list Z) (i : vfs_inode_t) : vfs_inode_t :=
  let j := put_data pos buf i in if i_size j <? stop then j <| i_size := stop |> else j.

Lemma wrote_fields pos stop buf i :
  let j := wrote pos stop buf i in
  i_data j = list_inserts (Z.to_nat pos) buf <$> i_data i ∧ i_size j = Z.max (i_size i) stop ∧
  i_capacity j = i_capacity i ∧ i_flags j = i_flags i ∧ i_fs_tag j = i_fs_tag i ∧
  i_node_gen j = i_node_gen i.
Proof. unfold wrote. simpl. case_if; bool_hyps; simpl; split_and!; done || lia. Qed.

(** The content after a write that starts within the file, and after one that
    starts behind its end. *)
Lemma splice_content g i pos buf :
  inode_ok g → 0 ≤ pos → pos + Z.of_nat (length buf) ≤ i_capacity g →
  i_size i = Z.max (i_size g) (pos + Z.of_nat (length buf)) →
  i_data i = list_inserts (Z.to_nat pos) buf <$> i_data g →
  (pos ≤ i_size g →
   content i = take (Z.to_nat pos) (content g) ++ buf ++
               drop (Z.to_nat pos + length buf) (content g)) ∧
  (i_size g ≤ pos →
   content i = content g ++
     take (Z.to_nat (pos - i_size g)) (drop (Z.to_nat (i_size g)) (default [] (i_data g))) ++ buf).
Proof.
  intros (G1 & G2 & G3) Hpos Hcap Hs Hd. unfold content. rewrite Hs, Hd.
  destruct (i_data g) as [d|]; simpl.
  - rewrite inserts_as_splice by lia. set (p := Z.to_nat pos).
    split; intros Hle.
    + rewrite take_take, Nat.min_l, skipn_firstn_comm by lia.
      rewrite take_app_ge by (rewrite length_take; lia). f_equal. rewrite length_take.
      rewrite take_app_ge by lia. f_equal. f_equal. lia.
    + rewrite !app_assoc, take_take_drop.
      replace (Z.to_nat (i_size g) + Z.to_nat (pos - i_size g))%nat with p by lia.
      rewrite take_app_le by (rewrite length_app, length_take; lia).
      apply take_ge. rewrite length_app, length_take. lia.
  - assert (buf = []) as -> by (apply length_zero_iff_nil; lia).
    split; intros _; repeat (rewrite take_nil || rewrite drop_nil); done.
Qed.

Section WithDevices.
Context {D : Type} (ops : vfs_ops D).

(** A write grows the block if it must, puts the bytes at the position and
    moves the position behind them. *)
Lemma write_result s dev file x buf blk :
  nodes s !! f_node file = Some x → f_node file ≠ 0 → n_type x = VFS_NODE_FILE →
  plain (n_inode x) → inode_ok (n_inode x) → f_writable file = true → 0 ≤ f_pos file →
  f_pos file + Z.of_nat (length buf) ≤ 9223372036854775808 → allocates blk →
  ∃ i g, vfs_write ops s dev file buf blk
         = Some (s32 (Z.of_nat (length buf)), file <| f_pos := f_pos file + Z.of_nat (length buf) |>,
                 inode_upd (f_node file) (λ _, i) s, dev) ∧
    inode_ok i ∧ plain i ∧ i_node_gen i = i_node_gen (n_inode x) ∧
    i_size i = Z.max (i_size (n_inode x)) (f_pos file + Z.of_nat (length buf)) ∧
    i_data i = list_inserts (Z.to_nat (f_pos file)) buf <$> i_data g ∧
    inode_ok g ∧ content g = content (n_inode x) ∧ i_size g = i_size (n_inode x) ∧
    f_pos file + Z.of_nat (length buf) ≤ i_capacity g ∧
    (i_data g = i_data (n_inode x) ∨ ∃ b, i_data g = Some (moved_data (n_inode x) b) ∧
       blk (i_capacity g) = Some b).
Proof.
  intros Hx Hn Ht Hp Hok Hw Hpos Hlen Hblk.
  destruct (grow_result s (f_node file) x (f_pos file + Z.of_nat (length buf)) blk)
    as (g & Hg & Hgok & Hgc & Hgs & Hgcap & Hgf & Hgt & Hgg & Hgd); try done; [lia|].
  unfold vfs_write, vnode. rewrite (lookup_total_correct _ _ _ Hx), (proj2 (Z.eqb_neq _ 0)), Hw by done.
  pose proof Hp as (Hp1 & -> & -> & -> & ->). rewrite (proj2 (Z.eqb_neq _ _)) by done. simpl.
  rewrite u64_small by lia. rewrite Hg. simpl.
  rewrite (inode_upd_twice s (f_node file)), (inode_upd_twice s (f_node file)).
  set (stop := f_pos file + Z.of_nat (length buf)) in *.
  destruct (wrote_fields (f_pos file) stop buf g) as (Hjd & Hjs & Hj1 & Hj2 & Hj3 & Hj4).
  exists (wrote (f_pos file) stop buf g), g.
  split; [unfold field_update; simpl; by rewrite u64_small by lia|].
  set (j := wrote _ _ _ _) in *.
  rewrite Hjs, Hgs. split; [|split].
  - destruct Hgok as (G1 & G2 & G3). unfold inode_ok. rewrite Hj1, Hjs, Hjd, Hgs.
    destruct (i_data g); simpl; rewrite ?inserts_length; repeat split; try done; lia.
  - unfold plain in *. by rewrite Hj2, Hj3, Hgf, Hgt.
  - split_and!; try done; try lia; try congruence.
Qed.

(** ** Reading *)
Lemma read_result s dev file x n bounce :
  nodes s !! f_node file = Some x → f_node file ≠ 0 → plain (n_inode x) → inode_ok (n_inode x) →
  0 ≤ f_pos file → 0 ≤ n →
  ∃ out, vfs_read ops s dev file n bounce
         = Some (s32 (Z.of_nat (length out)), out,
                 file <| f_pos := f_pos file + Z.of_nat (length out) |>, dev) ∧
    out = take (Z.to_nat n) (drop (Z.to_nat (f_pos file)) (content (n_inode x))).
Proof.
  intros Hx Hn Hp (Hs & Hcap & Hd) Hpos Hsz. pose proof (capacity_bound _ Hcap).
  eexists. split; [|done].
  unfold vfs_read, vnode. rewrite (lookup_total_correct _ _ _ Hx), (proj2 (Z.eqb_neq _ 0)) by done.
  destruct Hp as (_ & -> & -> & -> & ->). set (i := n_inode x) in *.
  assert (Z.of_nat (length (content i)) = i_size i) as Hlen.
  { unfold content. rewrite length_take. destruct (i_data i); simpl; lia. }
  destruct (Z.leb_spec (i_size i) (f_pos file)) as [Hle|Hlt].
  - rewrite drop_ge, take_nil by lia. simpl. unfold field_update. simpl. rewrite Z.add_0_r.
    by destruct file.
  - set (k := Z.min n (i_size i - f_pos file)).
    assert (take (Z.to_nat n) (drop (Z.to_nat (f_pos file)) (content i))
            = take (Z.to_nat k) (drop (Z.to_nat (f_pos file)) (default [] (i_data i)))) as ->.
    { unfold content. rewrite skipn_firstn_comm, take_take. f_equal. lia. }
    assert (Z.of_nat (length (take (Z.to_nat k) (drop (Z.to_nat (f_pos file)) (default [] (i_data i))))) = k)
      as ->.
    { rewrite length_take, length_drop. destruct (i_data i); simpl; lia. }
    unfold field_update. simpl. by rewrite u64_small by lia.
Qed.

End WithDevices.

End VfsData.
