(* ===== verification/VfsMount.v ===== *)
(** * The device file system (kernel/fs/devfs.c)

    The tree of device nodes that is mounted on [/dev], and the registration
    of block devices before and after the mount.  The blocks for the nodes are
    given by number: the root, the four console names, [null], [zero], and
    the block devices that were registered before. *)

From stdpp Require Import base gmap list numbers fin_maps.
From S2P Require Import Prelude PathSpec Vfs VfsFile VfsFacts VfsTree VfsOps.

Module Devfs.
Import PathSpec Vfs VfsFile.

Record devfs_state := mk_devfs {
  g_devfs_root : Z;
  g_pending_blocks : list (list Z)
}.

#[export] Instance devfs_eta : EtaRecord devfs_state :=
  λ v, mk_devfs (g_devfs_root v) (g_pending_blocks v).

Definition MAX_PENDING : Z := 16.

Definition CONSOLE_NAME : list Z := [99; 111; 110; 115; 111; 108; 101].
Definition STDIN_NAME : list Z := [115; 116; 100; 105; 110].
Definition STDOUT_NAME : list Z := [115; 116; 100; 111; 117; 116].
Definition STDERR_NAME : list Z := [115; 116; 100; 101; 114; 114].
Definition NULL_NAME : list Z := [110; 117; 108; 108].
Definition ZERO_NAME : list Z := [122; 101; 114; 111].

(** The names in the order of creation, with the flags beside
    [VFS_INODE_CHARDEV]. *)
Definition char_devices : list (list Z * Z) :=
  [(CONSOLE_NAME, VFS_INODE_CONSOLE); (STDIN_NAME, VFS_INODE_CONSOLE);
   (STDOUT_NAME, VFS_INODE_CONSOLE); (STDERR_NAME, VFS_INODE_CONSOLE);
   (NULL_NAME, VFS_INODE_DEV_NULL); (ZERO_NAME, VFS_INODE_DEV_ZERO)].

Definition devfs_find_child := vfs_find_child.

(** A node with the given flags in the directory [root]. *)
Definition add_device (s : vfs_state) (b : node_blocks) (root : Z) (name : list Z) (flags : Z)
    : Z * vfs_state :=
  let '(node, s) := vfs_fs_alloc_node s b name VFS_NODE_FILE in
  if node =? 0 then (RDNX_E_NOMEM, s)
  else
    let s := inode_upd node (λ i, i <| i_flags ::= λ f, Z.lor f flags |>) s in
    let '(rc, s) := vfs_fs_add_child s root node in
    if negb (rc =? RDNX_OK) then (rc, vfs_fs_free_node s node) else (RDNX_OK, s).

Definition devfs_add_chardev (s : vfs_state) (b : node_blocks) (root : Z) (name : list Z) (extra : Z)
    : Z * vfs_state := add_device s b root name (Z.lor VFS_INODE_CHARDEV extra).

Definition devfs_add_blockdev (s : vfs_state) (b : node_blocks) (root : Z) (name : list Z)
    : Z * vfs_state :=
  if (root =? 0) || bool_decide (name = []) then (RDNX_E_INVALID, s)
  else if negb (devfs_find_child (nodes s) root name =? 0) then (RDNX_OK, s)
  else add_device s b root name VFS_INODE_BLOCKDEV.

(** The loops over the names stop at the first failure. *)
Fixpoint add_chardevs (s : vfs_state) (b : nat → node_blocks) (root : Z) (k : nat)
    (l : list (list Z * Z)) : Z * vfs_state :=
  match l with
  | [] => (RDNX_OK, s)
  | (name, extra) :: l =>
      let '(rc, s) := devfs_add_chardev s (b k) root name extra in
      if negb (rc =? RDNX_OK) then (rc, s) else add_chardevs s b root (S k) l
  end.

Fixpoint add_blockdevs (s : vfs_state) (b : nat → node_blocks) (root : Z) (k : nat)
    (l : list (list Z)) : Z * vfs_state :=
  match l with
  | [] => (RDNX_OK, s)
  | name :: l =>
      let '(rc, s) := devfs_add_blockdev s (b k) root name in
      if negb (rc =? RDNX_OK) then (RDNX_E_NOMEM, s) else add_blockdevs s b root (S k) l
  end.

(** A failure for [null] or [zero] is reported as [RDNX_E_NOMEM], which is also
    what the creation of a node can fail with.  The result, the root and the
    state of both components. *)
Definition devfs_mount (v : devfs_state) (s : vfs_state) (b : nat → node_blocks)
    : Z * Z * vfs_state * devfs_state :=
  let '(root, s) := vfs_fs_alloc_node s (b 0%nat) ROOT_NAME VFS_NODE_DIR in
  if root =? 0 then (RDNX_E_NOMEM, 0, s, v)
  else
    let '(rc, s) := add_chardevs s b root 1 (take 4 char_devices) in
    if negb (rc =? RDNX_OK) then (rc, 0, s, v)
    else
      let '(rc, s) := add_chardevs s b root 5 (drop 4 char_devices) in
      if negb (rc =? RDNX_OK) then (RDNX_E_NOMEM, 0, s, v)
      else
        let '(rc, s) := add_blockdevs s b root 7 (g_pending_blocks v) in
        if negb (rc =? RDNX_OK) then (rc, 0, s, v)
        else (RDNX_OK, root, s, v <| g_devfs_root := root |>).

Definition devfs_fs_init (s : vfs_state) : Z * vfs_state := vfs_register_fs s DEVFS_NAME.

Definition devfs_register_blockdev (v : devfs_state) (s : vfs_state) (b : node_blocks) (name : list Z)
    : Z * vfs_state * devfs_state :=
  if bool_decide (name = []) then (RDNX_E_INVALID, s, v)
  else if bool_decide (name ∈ g_pending_blocks v) then (RDNX_OK, s, v)
  else if negb (g_devfs_root v =? 0) then
    let '(rc, s) := devfs_add_blockdev s b (g_devfs_root v) name in (rc, s, v)
  else if MAX_PENDING <=? Z.of_nat (length (g_pending_blocks v)) then (RDNX_E_BUSY, s, v)
  else (RDNX_OK, s, v <| g_pending_blocks ::= λ l, l ++ [strncpy_z NAME_SIZE name] |>).

End Devfs.

(** * Mounting

    [FsDriver] states what the VFS relies on when it calls the mount function
    of a driver: the tree stays well formed, the namespace that exists is not
    touched, and the root that is returned is the root of a new tree.  The RAM
    file system and the device file system keep that promise, and mounting is
    proved against the interface. *)
Module VfsMount.
Import PathSpec Vfs VfsFile Devfs VfsFacts VfsTree VfsPath VfsInv VfsOps.

Implicit Types (K : Z → list Z) (refs : Z → Z).

(** The namespace of [s] is as it was, in a state with more nodes. *)
Record extends (s s' : vfs_state) : Prop := {
  ex_frame : namespace_frame s s';
  ex_cache : vfs_cache s' = vfs_cache s;
  ex_gen : vfs_cache_gen s' = vfs_cache_gen s;
  ex_ready : vfs_ready s' = vfs_ready s;
  ex_keeps : keeps s s'
}.

Class FsDriver (mount : vfs_state → Z * Z * vfs_state) (pre : node_store → Prop) : Prop :=
  fs_mount : ∀ s K refs rc root s',
    vfs_inv s K refs → pre (nodes s) → mount s = (rc, root, s') →
    ∃ K', vfs_inv s' K' refs ∧ extends s s' ∧ (rc = RDNX_OK → root ≠ 0 → top s' root).

Lemma vfs_extends_refl s : extends s s.
Proof. split; [|done..|by apply keeps_same]. split; try done. intros n x Hx Hu. by exists x. Qed.

(** A state that extends another has its cache entries. *)
Lemma extends_inv s s' K K' refs :
  vfs_inv s K refs → extends s s' → tree (nodes s') K' → mounts_ok s' → refs_ok (nodes s') refs →
  vfs_inv s' K' refs.
Proof.
  intros I E T M R. split; try done; rewrite (ex_cache _ _ E); [apply I|].
  eapply Forall_impl; [apply I|]. intros e.
  apply (frame_cache_ok _ _ (ex_frame _ _ E) K); [apply I|apply I|apply (ex_gen _ _ E)].
Qed.

(** ** A new root *)
Lemma alloc_root s K refs b root s' nm :
  vfs_inv s K refs → (nb_node b ≠ 0 → nodes s !! nb_node b = None) → (length nm ≤ 31)%nat →
  vfs_alloc_node s b nm VFS_NODE_DIR = (root, s') →
  (root = 0 ∧ s' = s) ∨
  (root = nb_node b ∧ root ≠ 0 ∧ nodes s !! root = None ∧ vfs_inv s' K refs ∧ extends s s' ∧
   K root = [] ∧ nodes s' = <[root := new_vnode nm VFS_NODE_DIR]> (nodes s)).
Proof.
  intros I Hb Hnm. unfold vfs_alloc_node.
  case_if; bool_hyps; [intros [= <- <-]; auto|]. case_if; bool_hyps; [intros [= <- <-]; auto|].
  rewrite strncpy_name by done. intros [= <- <-]. right. specialize (Hb Eif).
  pose proof (vi_tree _ _ _ I) as T. set (c := nb_node b) in *.
  assert (tree (<[c := new_vnode nm VFS_NODE_DIR]> (nodes s)) K) as T' by (by apply tree_insert).
  pose proof (λ n H, insert_other (nodes s) c (new_vnode nm VFS_NODE_DIR) n H Hb) as Ho.
  set (s1 := s <| nodes ::= _ |>).
  assert (nodes s1 = <[c := new_vnode nm VFS_NODE_DIR]> (nodes s)) as HN by done.
  assert (extends s s1) as E.
  { split; [|done..|by apply keeps_insert]. split; try done.
    - intros e nm' [z Hz]. apply (find_child_ext _ _ K); [done..|]. intros a Ha. rewrite HN.
      by rewrite (proj2 (Ho a (proj1 (tree_kid _ _ _ _ T Ha)))).
    - intros n z Hz Hu. exists z. rewrite HN.
      by rewrite (proj1 (Ho n (mk_is_Some _ _ Hz))). }
  split; [done|]. split; [done|]. split; [done|]. split; [|split; [done|split; [|done]]].
  - apply (extends_inv s s1 K); try done.
    + apply (frame_mounts_ok s); [apply E|apply I].
    + intros n. pose proof (vi_refs _ _ _ I n) as [H0 Hn]. rewrite HN.
      destruct (decide (c = n)) as [<-|]; [|by rewrite lookup_insert_ne].
      rewrite lookup_insert_eq, Hb in *. simpl. lia.
  - by apply (t_out _ _ T).
Qed.

#[export] Instance ramfs_driver b :
  FsDriver (λ s, vfs_ramfs_mount s b) (λ N, nb_node b ≠ 0 → N !! nb_node b = None).
Proof.
  intros s K refs rc root s' I Hb. unfold vfs_ramfs_mount.
  destruct (vfs_alloc_node s b ROOT_NAME VFS_NODE_DIR) as [r s1] eqn:Ha.
  assert (length ROOT_NAME ≤ 31)%nat as Hlen by (simpl; lia).
  destruct (alloc_root _ _ _ _ _ _ _ I Hb Hlen Ha)
    as [[-> ->]|(-> & Hr & _ & I' & E & _ & HN)].
  - intros [= <- <- <-]. exists K. split; [done|]. split; [apply vfs_extends_refl|done].
  - rewrite (proj2 (Z.eqb_neq _ 0)) by done. intros [= <- <- <-]. exists K.
    split; [done|]. split; [done|]. intros _ _. eexists. rewrite HN, lookup_insert_eq. done.
Qed.

(** ** Device nodes

    While [root] is filled it is not a part of the namespace of [s0]. *)
Record filling (s0 s : vfs_state) K refs (root : Z) (names : list (list Z)) : Prop := {
  fi_base : ∃ K0, vfs_inv s0 K0 refs;
  fi_inv : vfs_inv s K refs;
  fi_ext : extends s0 s;
  fi_root : top s root;
  fi_new : nodes s0 !! root = None;
  fi_names : ∀ c, c ∈ K root → n_name (nodes s !!! c) ∈ names
}.

Lemma add_device_result s0 s K refs root names b nm flags rc s' :
  filling s0 s K refs root names → (nb_node b ≠ 0 → nodes s !! nb_node b = None) →
  (nb_node b ≠ 0 → nodes s0 !! nb_node b = None) →
  (length nm ≤ 31)%nat → vfs_find_child (nodes s) root nm = 0 →
  add_device s b root nm flags = (rc, s') →
  (rc ≠ RDNX_OK ∧ s' = s) ∨
  (rc = RDNX_OK ∧ ∃ K', filling s0 s' K' refs root (nm :: names) ∧
     (∀ n, n ≠ nb_node b → is_Some (nodes s' !! n) → is_Some (nodes s !! n))).
Proof.
  intros Fi Hb Hb0 Hnm Hnone. unfold add_device, vfs_fs_alloc_node, vfs_alloc_node.
  case_if; bool_hyps; [intros [= <- <-]; by left|].
  case_if; bool_hyps; [intros [= <- <-]; by left|].
  rewrite (proj2 (Z.eqb_neq _ 0)), strncpy_name by done. specialize (Hb Eif). specialize (Hb0 Eif).
  set (c := nb_node b) in *. pose proof (fi_inv _ _ _ _ _ _ Fi) as I.
  pose proof (vi_tree _ _ _ I) as T. destruct (fi_root _ _ _ _ _ _ Fi) as (y & Hy & Hyt & Hyu & Hyp).
  set (x := (new_vnode nm VFS_NODE_FILE) <| n_inode ::= λ i, i <| i_flags ::= λ f, Z.lor f flags |> |>).
  set (s1 := inode_upd c _ _).
  assert (nodes s1 = <[c := x]> (nodes s)) as HN1.
  { unfold s1. simpl. by rewrite alter_insert_eq. }
  assert (nodes s1 !! root = Some y) as Hy1 by (rewrite HN1, lookup_insert_ne; congruence).
  assert (root ≠ 0) as Hr0 by (by eapply tree_nonzero).
  destruct (add_child_store s1 root c y Hr0 Eif Hy1 Hyt) as (s2 & Hadd & HN2 & Hs2).
  unfold vfs_fs_add_child. rewrite (proj2 (Z.eqb_neq root 0)), (proj2 (Z.eqb_neq c 0)), Hadd by done.
  simpl. intros [= <- <-]. right. split; [done|]. rewrite HN1 in HN2.
  assert (mounts s2 = mounts s ∧ vfs_mounts s2 = vfs_mounts s ∧ vfs_root s2 = vfs_root s ∧
    vfs_ready s2 = vfs_ready s ∧ vfs_cache s2 = vfs_cache s ∧ vfs_cache_gen s2 = vfs_cache_gen s)
    as (Hm & Hl & Hr & Hrd & Hca & Hg) by (rewrite Hs2; done).
  assert (added s s2 K refs root c x y) as A by (by apply new_added).
  assert (extends s0 s2) as E.
  { pose proof (fi_ext _ _ _ _ _ _ Fi) as E0.
    split; [|by rewrite Hca; apply E0|by rewrite Hg; apply E0|by rewrite Hrd; apply E0|].
    2: { intros n z. rewrite HN2. unfold attach.
         intros (z1 & (z2 & Hz2 & ->)%alter_some & ->)%alter_some.
         assert (match nodes s0 !! n with
           | Some x => n_type z2 = n_type x ∧ n_inode z2 = n_inode x
           | None => blank (n_inode z2) end) as Hk; [|by repeat case_decide].
         apply lookup_insert_Some in Hz2 as [[<- <-]|[_ Hz2]]; [by rewrite Hb0|].
         by apply (ex_keeps _ _ E0). }
    pose proof (ex_frame _ _ E0) as F. split.
    - by rewrite Hr, (nf_root _ _ F).
    - by rewrite Hm, (nf_mounts _ _ F).
    - by rewrite Hl, (nf_list _ _ F).
    - intros e nm' He. rewrite (ad_find _ _ _ _ _ _ _ _ A). unfold ns_set.
      rewrite decide_False; [by apply (nf_find _ _ F)|]. intros [-> _].
      rewrite (fi_new _ _ _ _ _ _ Fi) in He. by destruct He.
    - intros n z Hz Hu. destruct (nf_node _ _ F n z Hz Hu) as (z1 & Hz1 & Hu1 & Hp1 & Ht1 & Hg1).
      destruct (ad_old _ _ _ _ _ _ _ _ A n z1 Hz1) as (z2 & Hz2 & _ & Ht2 & Hp2 & Hu2 & Hi2 & _).
      exists z2. split; [done|]. rewrite Ht2, Hp2, Hu2, Hi2. done. }
  exists (kset root (c :: K root) K). split; [split|].
  - apply (fi_base _ _ _ _ _ _ Fi).
  - destruct (fi_base _ _ _ _ _ _ Fi) as [K0 I0]. by apply (extends_inv s0 s2 K0); try done; apply A.
  - done.
  - destruct (ad_old _ _ _ _ _ _ _ _ A root y Hy) as (z & Hz & _ & Ht & Hp & Hu & _).
    exists z. by rewrite Ht, Hp, Hu.
  - apply (fi_new _ _ _ _ _ _ Fi).
  - intros e. rewrite kset_eq. intros [->|He]%elem_of_cons.
    + rewrite (lookup_total_correct _ _ _ (ad_node _ _ _ _ _ _ _ _ A)). by left.
    + destruct (tree_kid _ _ _ _ T He) as [[z Hz] _].
      destruct (ad_old _ _ _ _ _ _ _ _ A e z Hz) as (z' & Hz' & Hn & _). right.
      rewrite (lookup_total_correct _ _ _ Hz'), Hn, <- (lookup_total_correct _ _ _ Hz).
      by apply (fi_names _ _ _ _ _ _ Fi).
  - intros n Hn. rewrite HN2. unfold attach. rewrite !alter_is_Some.
    by rewrite lookup_insert_ne.
Qed.

(** The blocks of the device nodes are new and distinct. *)
Definition blocks_new (b : nat → node_blocks) (N : node_store) : Prop :=
  (∀ k, nb_node (b k) ≠ 0 → N !! nb_node (b k) = None) ∧
  (∀ j k, nb_node (b j) = nb_node (b k) → nb_node (b j) ≠ 0 → j = k).

(** The nodes of [s] beside those of [s0] come from the blocks before [k]. *)
Definition used_before (b : nat → node_blocks) (k : nat) (s0 s : vfs_state) : Prop :=
  ∀ n, is_Some (nodes s !! n) → is_Some (nodes s0 !! n) ∨ ∃ j, (j < k)%nat ∧ n = nb_node (b j).

Lemma used_fresh b k s0 s :
  blocks_new b (nodes s0) → used_before b k s0 s → nb_node (b k) ≠ 0 → nodes s !! nb_node (b k) = None.
Proof.
  intros [Hn Hd] Hu Hk. apply eq_None_not_Some. intros [[z Hz]|(j & Hj & E)]%Hu.
  - rewrite (Hn k Hk) in Hz. done.
  - apply Hd in E; [lia|done].
Qed.

Lemma used_step b k s0 s s' :
  used_before b k s0 s → (∀ n, n ≠ nb_node (b k) → is_Some (nodes s' !! n) → is_Some (nodes s !! n)) →
  used_before b (S k) s0 s'.
Proof.
  intros Hu H n Hn. destruct (decide (n = nb_node (b k))) as [->|Hne]; [right; exists k; split; [lia|done]|].
  destruct (Hu n (H n Hne Hn)) as [?|(j & ? & ?)]; [by left|right; exists j; split; [lia|done]].
Qed.

Lemma used_mono b j k s0 s : (j ≤ k)%nat → used_before b j s0 s → used_before b k s0 s.
Proof. intros H Hu n Hn. destruct (Hu n Hn) as [?|(i & ? & ?)]; [by left|right; exists i; split; [lia|done]]. Qed.

(** A filled directory is as good as one that is being filled. *)
Definition filled (s0 s : vfs_state) refs (root : Z) : Prop := ∃ K names, filling s0 s K refs root names.

Lemma add_chardevs_result b s0 s K refs root names k l rc s' :
  blocks_new b (nodes s0) → filling s0 s K refs root names → used_before b k s0 s →
  Forall (λ x, (length x.1 ≤ 31)%nat ∧ x.1 ∉ names) l → NoDup l.*1 →
  add_chardevs s b root k l = (rc, s') →
  ∃ K' names', filling s0 s' K' refs root names' ∧ used_before b (k + length l) s0 s' ∧
    names' ⊆ (l.*1 ++ names).
Proof.
  intros Hb. revert s K names k. induction l as [|[nm extra] l IH]; intros s K names k Fi Hu Hl Hnd; simpl.
  { intros [= <- <-]. exists K, names. rewrite Nat.add_0_r. split; [done|]. split; [done|]. done. }
  apply Forall_cons in Hl as [[Hlen Hnew] Hl]. apply NoDup_cons in Hnd as [Hnin Hnd]. simpl in *.
  assert (vfs_find_child (nodes s) root nm = 0) as Hnone.
  { apply (find_child_none _ K); [apply Fi|]. intros e He <-. by apply Hnew, (fi_names _ _ _ _ _ _ Fi). }
  unfold devfs_add_chardev. destruct (add_device s (b k) root nm _) as [rc1 s1] eqn:Ha.
  destruct (add_device_result _ _ _ _ _ _ _ _ _ _ _ Fi (used_fresh b k s0 s Hb Hu)
              (proj1 Hb k) Hlen Hnone Ha) as [[Hrc ->]|(-> & K' & Fi' & Hst)].
  - rewrite (proj2 (Z.eqb_neq _ _)) by done. simpl. intros [= <- <-].
    exists K, names. split; [done|]. split; [apply (used_mono b k); [lia|done]|set_solver].
  - simpl. intros Hr.
    destruct (IH s1 K' (nm :: names) (S k) Fi' (used_step _ _ _ _ _ Hu Hst)) as (K2 & n2 & F2 & U2 & S2);
      [|done|done|].
    + apply Forall_forall. intros [nm' e'] Hin. rewrite Forall_forall in Hl.
      destruct (Hl _ Hin) as [Hlen' Hn']. simpl in *. split; [done|]. intros [->|?]%elem_of_cons; [|done]. apply Hnin.
      apply list_elem_of_fmap. by exists (nm, e').
    + exists K2, n2. split; [done|]. split; [by replace (k + S (length l))%nat with (S k + length l)%nat by lia|].
      intros x Hx. apply S2 in Hx. revert Hx. rewrite !elem_of_app, !elem_of_cons, elem_of_app. tauto.
Qed.

Lemma add_blockdevs_result b s0 s K refs root names k l rc s' :
  blocks_new b (nodes s0) → filling s0 s K refs root names → used_before b k s0 s →
  Forall (λ nm, (length nm ≤ 31)%nat) l →
  add_blockdevs s b root k l = (rc, s') →
  ∃ K' names', filling s0 s' K' refs root names'.
Proof.
  intros Hb. revert s K names k. induction l as [|nm l IH]; intros s K names k Fi Hu Hl; simpl.
  { intros [= <- <-]. eauto. }
  apply Forall_cons in Hl as [Hlen Hl]. unfold devfs_add_blockdev.
  case_if; [simpl; intros [= <- <-]; eauto|]. bool_hyps.
  destruct (Z.eqb_spec (devfs_find_child (nodes s) root nm) 0) as [Hnone|Hsome]; simpl.
  2: { apply (IH s K names (S k)); try done. by apply (used_mono b k); [lia|]. }
  - destruct (add_device s (b k) root nm _) as [rc1 s1] eqn:Ha.
    destruct (add_device_result _ _ _ _ _ _ _ _ _ _ _ Fi (used_fresh b k s0 s Hb Hu)
                (proj1 Hb k) Hlen Hnone Ha) as [[Hrc ->]|(-> & K' & Fi' & Hst)].
    + rewrite (proj2 (Z.eqb_neq _ _)) by done. simpl. intros [= <- <-]. eauto.
    + simpl. apply (IH s1 K' (nm :: names) (S k)); try done. by apply (used_step b k s0 s).
Qed.

Lemma char_devices_ok : Forall (λ x, (length x.1 ≤ 31)%nat) char_devices ∧ NoDup char_devices.*1.
Proof.
  split.
  - repeat constructor; simpl; lia.
  - apply (bool_decide_eq_true_1 _). vm_compute. reflexivity.
Qed.

#[export] Instance devfs_driver v b :
  Forall (λ nm, (length nm ≤ 31)%nat) (g_pending_blocks v) →
  FsDriver (λ s, (devfs_mount v s b).1) (blocks_new b).
Proof.
  intros Hpend s K refs rc root s' I Hb. unfold devfs_mount, vfs_fs_alloc_node.
  destruct (vfs_alloc_node s (b 0%nat) ROOT_NAME VFS_NODE_DIR) as [r s1] eqn:Ha.
  assert (length ROOT_NAME ≤ 31)%nat as Hlen by (simpl; lia).
  destruct (alloc_root _ _ _ _ _ _ _ I (proj1 Hb 0%nat) Hlen Ha)
    as [[-> ->]|(Hrb & Hr & Hr0 & I1 & E1 & Hk & HN)].
  { intros [= <- <- <-]. exists K. split; [done|]. split; [apply vfs_extends_refl|done]. }
  rewrite (proj2 (Z.eqb_neq r 0)) by done.
  assert (filling s s1 K refs r []) as F1.
  { split; try done; [by exists K| |].
    - eexists. rewrite HN, lookup_insert_eq. done.
    - intros c. rewrite Hk. intros H. by apply not_elem_of_nil in H. }
  assert (used_before b 1 s s1) as U1.
  { intros n. rewrite HN. destruct (decide (r = n)) as [<-|]; [intros _; right; exists 0%nat; split; [lia|done]|].
    rewrite lookup_insert_ne by done. by left. }
  destruct char_devices_ok as [Hcl Hcn].
  rewrite <- (take_drop 4 char_devices) in Hcl, Hcn. apply Forall_app in Hcl as [Hcl1 Hcl2].
  rewrite fmap_app in Hcn. apply NoDup_app in Hcn as (Hcn1 & Hdisj & Hcn2).
  destruct (add_chardevs s1 b r 1 (take 4 char_devices)) as [rc2 s2] eqn:H2.
  destruct (add_chardevs_result b s s1 K refs r [] 1 (take 4 char_devices) rc2 s2 Hb F1 U1) as (K2 & n2 & F2 & U2 & S2); [|done..|].
  { eapply Forall_impl; [exact Hcl1|]. intros x Hx. split; [done|]. apply not_elem_of_nil. }
  assert (∀ rcx, rcx ≠ RDNX_OK → ∃ K', vfs_inv s2 K' refs ∧ extends s s2 ∧
            (rcx = RDNX_OK → 0 ≠ 0 → top s2 0)) as Hfail2.
  { intros rcx Hx. exists K2. split; [apply F2|]. split; [apply F2|done]. }
  case_if; bool_hyps; [intros [= <- <- <-]; by apply Hfail2|].
  destruct (add_chardevs s2 b r 5 (drop 4 char_devices)) as [rc3 s3] eqn:H3.
  destruct (add_chardevs_result b s s2 K2 refs r n2 5 (drop 4 char_devices) rc3 s3 Hb F2 U2) as (K3 & n3 & F3 & U3 & _); [|done..|].
  { apply Forall_forall. intros x Hx. rewrite Forall_forall in Hcl2. split; [by apply Hcl2|].
    intros Hin%S2. rewrite app_nil_r in Hin. apply (Hdisj _ Hin). by apply list_elem_of_fmap_2. }
  case_if; bool_hyps.
  { intros [= <- <- <-]. exists K3. split; [apply F3|]. split; [apply F3|done]. }
  destruct (add_blockdevs s3 b r 7 (g_pending_blocks v)) as [rc4 s4] eqn:H4.
  destruct (add_blockdevs_result b s s3 K3 refs r n3 7 _ rc4 s4 Hb F3 U3 Hpend H4) as (K4 & n4 & F4).
  case_if; bool_hyps; intros [= <- <- <-]; exists K4; (split; [apply F4|]); (split; [apply F4|]); [done|].
  intros _ _. apply F4.
Qed.

(** ** [vfs_mount] *)
Lemma mount_result mount pre s K refs fs_name path mnt rc s' :
  FsDriver mount pre → vfs_inv s K refs → pre (nodes s) → mnt ∉ vfs_mounts s →
  vfs_mount s fs_name path mount mnt = (rc, s') →
  ∃ K', vfs_inv s' K' refs ∧ keeps s s' ∧
    (rc = RDNX_OK → ∃ mp root, (vfs_lookup s path).1 = mp ∧ mp ≠ 0 ∧ cross_mount s' mp = root ∧ top s' root).
Proof.
  intros Hdrv I Hpre Hmnt. unfold vfs_mount.
  case_if; [intros [= <- <-]; exists K; by split; [|split; [apply keeps_same|]]|].
  case_if; [intros [= <- <-]; exists K; by split; [|split; [apply keeps_same|]]|].
  destruct (vfs_lookup s path) as [mp s1] eqn:Hl. simpl.
  destruct (vfs_lookup_result _ _ _ _ _ _ I Hl) as (I1 & F & Ht & _).
  pose proof (keeps_same s s1 (lf_nodes _ _ F)) as H1.
  case_if; [intros [= <- <-]; by exists K|]. bool_hyps. specialize (Ht ltac:(done)).
  case_if; bool_hyps; [intros [= <- <-]; by exists K|].
  destruct (mount s1) as [[mrc root] s2] eqn:Hm.
  rewrite <- (lf_nodes _ _ F) in Hpre.
  destruct (Hdrv s1 K refs mrc root s2 I1 Hpre Hm) as (K2 & I2 & E2 & Htop).
  assert (keeps s s2) as H2.
  { intros n z Hz. rewrite <- (lf_nodes _ _ F). by apply (ex_keeps _ _ E2). }
  case_if; bool_hyps.
  { intros [= <- <-]. exists K2. split; [done|]. split; [done|]. intros Hrc.
    exfalso. revert Hrc. case_if; bool_hyps; done. }
  case_if; bool_hyps; [intros [= <- <-]; by exists K2|]. intros [= <- <-].
  specialize (Htop ltac:(done) ltac:(done)). exists K2.
  set (s3 := s2 <| mounts ::= _ |> <| vfs_mounts ::= _ |>).
  assert (vfs_mounts s2 = vfs_mounts s) as Hlist.
  { by rewrite (nf_list _ _ (ex_frame _ _ E2)), (lf_list _ _ F). }
  assert (mounts s3 !!! mnt = mk_mount fs_name root mp) as Hnew by (unfold s3; simpl; by rewrite lookup_total_insert_eq).
  assert (∀ m, m ∈ vfs_mounts s2 → mounts s3 !!! m = mounts s2 !!! m) as Hmo.
  { intros m Hin. unfold s3. simpl. rewrite lookup_total_insert_ne; [done|]. intros ->. by rewrite Hlist in Hin. }
  pose proof (vi_mounts _ _ _ I2) as M2. split; [|split; [done|]].
  - apply cache_reset_inv; [apply I2| |apply I2|apply I2]. split.
    + intros m [->|Hin]%elem_of_cons; [done|]. by apply (mo_nonzero _ M2).
    + intros m [->|Hin]%elem_of_cons; [by rewrite Hnew|]. rewrite Hmo by done. by apply (mo_root _ M2).
    + intros m [->|Hin]%elem_of_cons; [|rewrite Hmo by done; by apply (mo_point _ M2)].
      rewrite Hnew. intros _. simpl.
      apply (frame_target _ _ (lookup_namespace _ _ F)), (frame_target _ _ (ex_frame _ _ E2)) in Ht.
      destruct Ht as (x & Hx & Hu & _). by exists x.
    + apply (mo_top _ M2).
  - intros _. exists mp, root. split; [done|]. split; [done|]. split; [|done].
    unfold cross_mount, vfs_find_mount_at.
    change (vfs_mounts (vfs_cache_reset s3)) with (mnt :: vfs_mounts s2).
    change (mounts (vfs_cache_reset s3)) with (mounts s3).
    assert (list_find (λ m, mnt_mountpoint (mounts s3 !!! m) = mp) (mnt :: vfs_mounts s2) = Some (0%nat, mnt)) as ->.
    { apply list_find_Some. split; [done|]. split; [by rewrite Hnew|]. intros. lia. }
    change (default 0 (Some (0%nat, mnt) ≫= λ x, Some x.2)) with mnt. rewrite Hnew.
    cbn [mnt_root].
    rewrite (proj2 (Z.eqb_neq mnt 0)), (proj2 (Z.eqb_neq root 0)) by done. done.
Qed.

End VfsMount.
