(* ===== verification/VfsSteps.v ===== *)
(** * The VFS as a state machine

    A state is that of the VFS with the list of open files; a step is one call
    of an operation.  The invariant holds in every reachable state: the
    reference count of a node is the number of open files on it, plus one while
    it has a name, so that no open file refers to a freed node; and the content
    of a file in memory lies within its block. *)

From stdpp Require Import base gmap list numbers fin_maps relations.
From S2P Require Import Prelude PathSpec Vfs VfsFile VfsFacts VfsTree VfsOps VfsNames VfsMount.

Module VfsSteps.
Import PathSpec Vfs VfsFile VfsFacts VfsTree VfsPath VfsInv VfsOps VfsNames VfsMount VfsData.

Definition refs_of (fs : list vfs_file_t) (n : Z) : Z :=
  Z.of_nat (length (filter (λ f, f_node f = n) fs)).

Definition data_ok (N : node_store) : Prop :=
  ∀ n x, N !! n = Some x → plain (n_inode x) → inode_ok (n_inode x).

Definition file_ok (s : vfs_state) (f : vfs_file_t) : Prop :=
  n_type (vnode s (f_node f)) = VFS_NODE_FILE ∧
  (plain (n_inode (vnode s (f_node f))) → 0 ≤ f_pos f ≤ 9223372036854775808).

Record vsys_inv (s : vfs_state) (fs : list vfs_file_t) : Prop := {
  vs_inv : ∃ K, vfs_inv s K (refs_of fs);
  vs_data : data_ok (nodes s);
  vs_files : Forall (file_ok s) fs
}.

(** [kmalloc] returns blocks of the size asked for, if any. *)
Definition block_ok (blk : data_block) : Prop := ∀ n b, blk n = Some b → Z.of_nat (length b) = n.

(** ** Counting *)
Lemma refs_of_cons f fs n : refs_of (f :: fs) n = radd (f_node f) 1 (refs_of fs) n.
Proof.
  unfold refs_of, radd. rewrite filter_cons. repeat case_decide; simpl; try lia; congruence.
Qed.

Lemma refs_of_middle fs1 f fs2 n : refs_of (fs1 ++ f :: fs2) n = radd (f_node f) 1 (refs_of (fs1 ++ fs2)) n.
Proof.
  rewrite <- refs_of_cons. unfold refs_of. f_equal. apply Permutation_length.
  by rewrite <- Permutation_middle.
Qed.

Lemma refs_of_pos fs f : f ∈ fs → 0 < refs_of fs (f_node f).
Proof.
  intros (fs1 & fs2 & ->)%list_elem_of_split. rewrite refs_of_middle. unfold radd.
  rewrite decide_True by done. unfold refs_of. lia.
Qed.

Lemma open_node_live s K fs f :
  vfs_inv s K (refs_of fs) → f ∈ fs → ∃ x, nodes s !! f_node f = Some x ∧ f_node f ≠ 0.
Proof.
  intros I Hf. pose proof (refs_of_pos fs f Hf) as Hp. pose proof (vi_refs _ _ _ I (f_node f)) as [_ H].
  destruct (nodes s !! f_node f) as [x|] eqn:Hx; [|lia]. exists x. split; [done|].
  by eapply tree_nonzero; [apply I|].
Qed.

(** ** The content in general *)
(** The fields that no operation on the content changes. *)
Definition fixed (i : vfs_inode_t) := (i_flags i, i_fs_tag i, i_node_gen i).

Lemma fixed_plain i j : fixed i = fixed j → plain i ↔ plain j.
Proof. unfold fixed, plain. intros [= -> -> _]. done. Qed.

Lemma grow_any s node x needed blk rc s' :
  nodes s !! node = Some x → block_ok blk → in_u64 needed →
  vfs_grow_file s node needed blk = Some (rc, s') →
  ∃ i, s' = inode_upd node (λ _, i) s ∧ fixed i = fixed (n_inode x) ∧ i_size i = i_size (n_inode x) ∧
    (inode_ok (n_inode x) → inode_ok i ∧ (rc = 0 → needed ≤ i_capacity i)).
Proof.
  intros Hx Hb Hn. unfold vfs_grow_file, vnode. rewrite (lookup_total_correct _ _ _ Hx).
  pose proof (inode_upd_same s node x Hx) as Hsame.
  case_if; [intros [= <- <-]; exists (n_inode x); rewrite Hsame; done|].
  case_if; bool_hyps; [intros [= <- <-]; exists (n_inode x); rewrite Hsame; done|].
  set (c0 := if negb (i_capacity (n_inode x) =? 0) then i_capacity (n_inode x) else 64).
  destruct (grow_cap 64 c0 needed) as [c|] eqn:Hc; [|done].
  destruct (blk c) as [b|] eqn:Hbc.
  - intros [= <- <-]. exists (grown (n_inode x) b c).
    split; [by rewrite (inode_upd_const s node x)|]. split; [done|]. split; [done|].
    intros Hok. pose proof Hok as (Hs & Hcap & _).
    assert (capacity_ok c0) as Hc0.
    { unfold c0. destruct (Z.eqb_spec (i_capacity (n_inode x)) 0); simpl; [right; by exists 6|done]. }
    destruct (grow_cap_pow2 64 c0 needed c ltac:(lia) Hc0 Hc) as [H1 H2].
    pose proof (Hb c b Hbc) as Hlen. destruct (moved_take (n_inode x) b Hok ltac:(lia)) as [_ Hm].
    unfold inode_ok, grown. simpl. split_and!; done || lia.
  - intros [= <- <-]. exists (n_inode x). rewrite Hsame. done.
Qed.

Definition resized (new_size : Z) (i : vfs_inode_t) : vfs_inode_t :=
  (if i_size i <? new_size then i <| i_data ::= fmap (zero_fill (i_size i) new_size) |> else i)
    <| i_size := new_size |>.

Lemma resized_ok new_size i :
  inode_ok i → 0 ≤ new_size ≤ i_capacity i → inode_ok (resized new_size i) ∧ fixed (resized new_size i) = fixed i.
Proof.
  intros (H1 & H2 & H3) Hn. unfold resized, inode_ok. split; [|by case_if].
  case_if; simpl; (split; [lia|]); (split; [done|]);
    destruct (i_data i); simpl; unfold zero_fill; rewrite ?inserts_length; lia.
Qed.

Lemma resized_fixed new_size i : fixed (resized new_size i) = fixed i.
Proof. unfold resized. by case_if. Qed.

Section System.
Context {D : Type} (ops : vfs_ops D).

Lemma set_size_eq s file new_size rc f' s' :
  set_size s file new_size = (rc, f', s') →
  s' = inode_upd (f_node file) (resized new_size) s ∧ f_node f' = f_node file ∧
  (0 ≤ new_size → 0 ≤ f_pos file ≤ 9223372036854775808 → 0 ≤ f_pos f' ≤ 9223372036854775808).
Proof.
  unfold set_size. intros [= _ <- <-]. split; [done|]. case_if; bool_hyps; simpl; split; done || lia.
Qed.

(** What a change of one file's content does to the system. *)
Record content_step (s s' : vfs_state) (n : Z) : Prop := {
  cs_state : ∃ x i, nodes s !! n = Some x ∧ s' = inode_upd n (λ _, i) s ∧ fixed i = fixed (n_inode x);
  cs_data : data_ok (nodes s) → data_ok (nodes s')
}.

Lemma content_step_of s n x i :
  nodes s !! n = Some x → fixed i = fixed (n_inode x) →
  (plain (n_inode x) → inode_ok (n_inode x) → inode_ok i) →
  content_step s (inode_upd n (λ _, i) s) n.
Proof.
  intros Hx Hf Hok. split.
  - by exists x, i.
  - intros Hd m y. simpl. intros (z & Hz & ->)%alter_some. case_decide as E; [|by apply (Hd m)].
    subst m. assert (z = x) as -> by congruence. simpl. intros Hp. apply (fixed_plain _ _ Hf) in Hp.
    apply Hok; [done|]. by apply (Hd n).
Qed.

Lemma resize_any s dev file x new_size blk rc f' s' dev' :
  nodes s !! f_node file = Some x → block_ok blk → in_u64 new_size →
  vfs_resize_file ops s dev file new_size blk = Some (rc, f', s', dev') →
  content_step s s' (f_node file) ∧ f_node f' = f_node file ∧
  (0 ≤ f_pos file ≤ 9223372036854775808 → 0 ≤ f_pos f' ≤ 9223372036854775808).
Proof.
  intros Hx Hb Hn. unfold vfs_resize_file, vnode. rewrite (lookup_total_correct _ _ _ Hx).
  assert (content_step s s (f_node file)) as Hid.
  { rewrite <- (inode_upd_same s _ x Hx) at 2. by apply (content_step_of s _ x). }
  assert (∀ sz rc f' s', i_fs_tag (n_inode x) = VFS_FS_TAG_EXT2 ∨ new_size ≤ i_capacity (n_inode x) →
    set_size s sz new_size = (rc, f', s') → f_node sz = f_node file → content_step s s' (f_node file)) as Hset.
  { intros sz rc0 f0 s0 Hcase (-> & _ & _)%set_size_eq E. rewrite E, (inode_upd_const s _ x) by done.
    apply (content_step_of s _ x); [done|apply resized_fixed|]. intros Hp Hok.
    destruct Hcase as [Ht|Hle]; [by destruct Hp|]. by apply resized_ok; [|lia]. }
  assert (∀ g s1 rc f' s', vfs_grow_file s (f_node file) new_size blk = Some (g, s1) → g = 0 →
    set_size s1 file new_size = (rc, f', s') → content_step s s' (f_node file)) as Hgrow.
  { intros g s1 rc0 f0 s0 Hg Eg (-> & _ & _)%set_size_eq.
    destruct (grow_any _ _ _ _ _ _ _ Hx Hb Hn Hg) as (i & -> & Hf & Hs & Hok).
    rewrite inode_upd_twice. apply (content_step_of s _ x); [done|by rewrite resized_fixed|].
    intros _ Ho. destruct (Hok Ho) as [Hi Hc]. by apply resized_ok; [|specialize (Hc Eg); lia]. }
  assert (∀ g s1, vfs_grow_file s (f_node file) new_size blk = Some (g, s1) →
    content_step s s1 (f_node file)) as Hgrow0.
  { intros g s1 Hg. destruct (grow_any _ _ _ _ _ _ _ Hx Hb Hn Hg) as (i & -> & Hf & _ & Hok).
    apply (content_step_of s _ x); [done..|]. intros _ Ho. by apply Hok. }
  assert (∀ s1 rc f' s', set_size s1 file new_size = (rc, f', s') → f_node f' = f_node file ∧
    (0 ≤ f_pos file ≤ 9223372036854775808 → 0 ≤ f_pos f' ≤ 9223372036854775808)) as Hfile.
  { intros s1 rc0 f0 s0 (_ & ? & Hp)%set_size_eq. split; [done|]. apply Hp. lia. }
  (* the growth of the block and the assignments behind it *)
  assert (∀ dv, (match vfs_grow_file s (f_node file) new_size blk with
    | None => None
    | Some (g, s) => if negb (g =? 0) then Some (RDNX_E_NOMEM, file, s, dv)
                     else Some (set_size s file new_size, dv)
    end = Some (rc, f', s', dev') → content_step s s' (f_node file) ∧ f_node f' = f_node file ∧
    (0 ≤ f_pos file ≤ 9223372036854775808 → 0 ≤ f_pos f' ≤ 9223372036854775808))) as Htail.
  { intros dv. destruct (vfs_grow_file s (f_node file) new_size blk) as [[g s1]|] eqn:Hg; [|done].
    case_if; bool_hyps; [intros [= <- <- <- <-]; split; [by eapply Hgrow0|done]|].
    intros Hss. assert (set_size s1 file new_size = (rc, f', s')) as E by congruence.
    split; [by apply (Hgrow g s1 rc f' s')|]. by eapply Hfile. }
  assert (∀ dv, i_fs_tag (n_inode x) = VFS_FS_TAG_EXT2 ∨ new_size ≤ i_capacity (n_inode x) →
    Some (set_size s file new_size, dv) = Some (rc, f', s', dev') →
    content_step s s' (f_node file) ∧ f_node f' = f_node file ∧
    (0 ≤ f_pos file ≤ 9223372036854775808 → 0 ≤ f_pos f' ≤ 9223372036854775808)) as Hplain.
  { intros dv Hcase Hss. assert (set_size s file new_size = (rc, f', s')) as E by congruence.
    split; [by eapply Hset|]. by eapply Hfile. }
  case_if; [by intros [= <- <- <- <-]|]. case_if; [by intros [= <- <- <- <-]|].
  destruct (Z.eqb_spec (i_fs_tag (n_inode x)) VFS_FS_TAG_EXT2) as [Et|Et].
  - destruct (op_ext2_resize ops dev (n_inode x) new_size) as [rc1 dev1].
    case_if; [by intros [= <- <- <- <-]|]. case_if; [apply Htail|]. apply Hplain. by left.
  - destruct (Z.ltb_spec (i_capacity (n_inode x)) new_size); [apply Htail|]. apply Hplain. right. lia.
Qed.

Lemma write_ext2_any s dev file x buf blk rc f' s' dev' :
  nodes s !! f_node file = Some x → block_ok blk → i_fs_tag (n_inode x) = VFS_FS_TAG_EXT2 →
  write_ext2 ops s dev file buf blk = Some (rc, f', s', dev') →
  content_step s s' (f_node file) ∧ f_node f' = f_node file.
Proof.
  intros Hx Hb Ht. unfold write_ext2, vnode. rewrite (lookup_total_correct _ _ _ Hx).
  assert (∀ i, fixed i = fixed (n_inode x) → content_step s (inode_upd (f_node file) (λ _, i) s) (f_node file))
    as Hst.
  { intros i Hi. apply (content_step_of s _ x); [done..|]. intros Hp. by destruct Hp. }
  pose proof (Hst (n_inode x) eq_refl) as Hid. rewrite (inode_upd_same s _ x Hx) in Hid.
  destruct (op_ext2_writeback ops dev (n_inode x) _ buf _) as [wrc dev1].
  case_if; [by intros [= <- <- <- <-]|].
  match goal with |- match ?g with _ => _ end = _ → _ => set (grow := g) end.
  destruct grow as [[g s1]|] eqn:Hg; [|done].
  assert (∃ i, s1 = inode_upd (f_node file) (λ _, i) s ∧ fixed i = fixed (n_inode x)) as (i & -> & Hi).
  { unfold grow in Hg. case_if.
    - destruct (grow_any _ _ _ _ _ _ _ Hx Hb (u64_range _) Hg) as (i & ? & ? & _). by exists i.
    - injection Hg as _ <-. exists (n_inode x). by rewrite (inode_upd_same s _ x Hx). }
  case_if; [intros [= <- <- <- <-]; split; [by apply Hst|done]|].
  intros [= <- <- <- <-]. split; [|done].
  rewrite (inode_upd_twice s (f_node file)), (inode_upd_twice s (f_node file)). apply Hst.
  rewrite <- Hi. by repeat case_if.
Qed.

Lemma write_any s dev file x buf blk rc f' s' dev' :
  nodes s !! f_node file = Some x → block_ok blk →
  Z.of_nat (length buf) < 9223372036854775808 →
  (plain (n_inode x) → 0 ≤ f_pos file ≤ 9223372036854775808) → 
  vfs_write ops s dev file buf blk = Some (rc, f', s', dev') →
  content_step s s' (f_node file) ∧ f_node f' = f_node file ∧
  (plain (n_inode x) → inode_ok (n_inode x) → 0 ≤ f_pos f' ≤ 9223372036854775808).
Proof.
  intros Hx Hb Hlen Hpos. unfold vfs_write, vnode. rewrite (lookup_total_correct _ _ _ Hx).
  assert (content_step s s (f_node file)) as Hid.
  { rewrite <- (inode_upd_same s _ x Hx) at 2. by apply (content_step_of s _ x). }
  assert (content_step s s (f_node file) ∧ f_node file = f_node file ∧
    (plain (n_inode x) → inode_ok (n_inode x) → 0 ≤ f_pos file ≤ 9223372036854775808)) as Hdone by auto.
  case_if; [by intros [= <- <- <- <-]|].
  destruct (has_flag _ VFS_INODE_CONSOLE) eqn:E1.
  { destruct (op_console_write ops dev buf). by intros [= <- <- <- <-]. }
  destruct (has_flag _ VFS_INODE_DEV_NULL) eqn:E2; [by intros [= <- <- <- <-]|].
  destruct (has_flag _ VFS_INODE_DEV_ZERO) eqn:E3; [by intros [= <- <- <- <-]|].
  destruct (Z.eqb_spec (i_fs_tag (n_inode x)) VFS_FS_TAG_EXT2) as [Et|Et].
  { intros Hw. destruct (write_ext2_any _ _ _ _ _ _ _ _ _ _ Hx Hb Et Hw). split; [done|]. split; [done|].
    intros Hp. by destruct Hp. }
  destruct (has_flag _ VFS_INODE_BLOCKDEV) eqn:E4.
  { destruct (op_bdev_find _ _ _) as [sector|]; [|by intros [= <- <- <- <-]].
    case_if; [by intros [= <- <- <- <-]|]. case_if; [by intros [= <- <- <- <-]|].
    case_if; [by intros [= <- <- <- <-]|]. destruct (op_bdev_write _ _ _ _ _ _).
    case_if; [by intros [= <- <- <- <-]|]. intros [= <- <- <- <-]. split; [done|]. split; [done|].
    intros (_ & _ & _ & _ & Hp). congruence. }
  assert (plain (n_inode x)) as Hp by done. specialize (Hpos Hp).
  rewrite u64_small by lia.
  assert (∃ stop, stop = f_pos file + Z.of_nat (length buf)) as [stop Hstop] by eauto.
  rewrite <- Hstop. assert (in_u64 stop) as Hst by lia.
  destruct (vfs_grow_file s (f_node file) stop blk) as [[g s1]|] eqn:Hg; [|done].
  destruct (grow_any _ _ _ _ _ _ _ Hx Hb Hst Hg) as (i & -> & Hf & Hs & Hok).
  case_if; bool_hyps.
  - intros [= <- <- <- <-]. split; [|done]. apply (content_step_of s _ x); [done..|].
    intros _ Ho. by apply Hok.
  - intros [= <- <- <- <-]. rewrite (inode_upd_twice s (f_node file)), (inode_upd_twice s (f_node file)).
    fold (wrote (f_pos file) stop buf i).
    destruct (wrote_fields (f_pos file) stop buf i) as (W1 & W2 & W3 & W4 & W5 & W6).
    split; [|split; [done|]].
    + apply (content_step_of s _ x); [done|rewrite <- Hf; unfold fixed; congruence|].
      intros _ Ho. destruct (Hok Ho) as [(O1 & O2 & O3) Hcap]. specialize (Hcap Eif0).
      unfold inode_ok. rewrite W1, W2, W3. split; [lia|]. split; [done|].
      destruct (i_data i); simpl; rewrite ?inserts_length; done.
    + intros _ Ho. destruct (Hok Ho) as [(O1 & O2 & O3) Hcap]. specialize (Hcap Eif0).
      pose proof (capacity_bound _ O2). unfold field_update. simpl. rewrite u64_small by lia. lia.
Qed.

(** ** Reading and seeking *)
Lemma read_any s dev file size bounce rc out f' dev' :
  vfs_read ops s dev file size bounce = Some (rc, out, f', dev') → 0 ≤ size →
  f_node f' = f_node file ∧
  (plain (n_inode (vnode s (f_node file))) → inode_ok (n_inode (vnode s (f_node file))) →
   0 ≤ f_pos file ≤ 9223372036854775808 → 0 ≤ f_pos f' ≤ 9223372036854775808).
Proof.
  set (i := n_inode (vnode s (f_node file))). intros H Hsz. revert H. unfold vfs_read. fold i.
  assert (f_node file = f_node file ∧ (plain i → inode_ok i → 0 ≤ f_pos file ≤ 9223372036854775808 →
    0 ≤ f_pos file ≤ 9223372036854775808)) as Hdone by done.
  case_if; [by intros [= <- <- <- <-]|].
  destruct (has_flag (i_flags i) VFS_INODE_CONSOLE) eqn:E1.
  { destruct (op_console_read _ _ _ _) as [[[r o] d]|]; [by intros [= <- <- <- <-]|done]. }
  destruct (has_flag (i_flags i) VFS_INODE_DEV_NULL) eqn:E2; [by intros [= <- <- <- <-]|].
  destruct (has_flag (i_flags i) VFS_INODE_DEV_ZERO) eqn:E3; [by intros [= <- <- <- <-]|].
  destruct (has_flag (i_flags i) VFS_INODE_BLOCKDEV) eqn:E4.
  { destruct (op_bdev_find _ _ _) as [sector|]; [|by intros [= <- <- <- <-]].
    do 3 (case_if; [by intros [= <- <- <- <-]|]).
    destruct (bdev_read_loop _ _ _ _ _ _ _) as [[rc1 o]|]; [|done].
    case_if; [by intros [= <- <- <- <-]|]. intros [= <- <- <- <-]. split; [done|].
    intros (_ & _ & _ & _ & Hp). congruence. }
  case_if; bool_hyps; [by intros [= <- <- <- <-]|]. intros [= <- <- <- <-]. split; [done|].
  intros _ (Hs & Hcap & _) Hpos. pose proof (capacity_bound _ Hcap).
  unfold field_update. simpl. rewrite u64_small by lia. lia.
Qed.

Lemma seek_any s file off whence rc next f' :
  vfs_seek s file off whence = (rc, next, f') →
  f_node f' = f_node file ∧
  (0 ≤ f_pos file ≤ 9223372036854775808 → 0 ≤ f_pos f' ≤ 9223372036854775808).
Proof.
  unfold vfs_seek.
  case_if; [by intros [= <- <- <-]|]. case_if; [by intros [= <- <- <-]|].
  match goal with |- match ?b with _ => _ end = _ → _ => destruct b as [base|] end;
    [|by intros [= <- <- <-]].
  case_if; bool_hyps; [by intros [= <- <- <-]|]. intros [= <- <- <-]. split; [done|].
  simpl. match goal with |- context [s64 ?z] => pose proof (s64_range z) end. lia.
Qed.

(** ** The operations on the system *)
Lemma vsys_keeps s fs s' K' fs' :
  vsys_inv s fs → vfs_inv s' K' (refs_of fs') → keeps s s' →
  (∀ f, f ∈ fs' → file_ok s f ∧ is_Some (nodes s !! f_node f)) → vsys_inv s' fs'.
Proof.
  intros [_ Hd _] I' Hk Hf. split; [by exists K'| |].
  - intros n x Hx Hp. specialize (Hk n x Hx). destruct (nodes s !! n) as [y|] eqn:Hy.
    + destruct Hk as [_ E]. rewrite E in *. by apply (Hd n).
    + destruct Hk as (H1 & H2 & H3). unfold inode_ok. rewrite H1, H2, H3. split; [lia|]. split; [by left|done].
  - apply Forall_forall. intros f Hin. destruct (Hf f Hin) as [Hok [x Hx]].
    destruct (open_node_live _ _ _ _ I' Hin) as (x' & Hx' & _).
    specialize (Hk _ _ Hx'). rewrite Hx in Hk. destruct Hk as [Et Ei]. unfold file_ok, vnode in *.
    rewrite (lookup_total_correct _ _ _ Hx) in Hok. by rewrite (lookup_total_correct _ _ _ Hx'), Et, Ei.
Qed.

Lemma vsys_live s fs f : vsys_inv s fs → f ∈ fs → file_ok s f ∧ is_Some (nodes s !! f_node f).
Proof.
  intros [[K I] _ Hf] Hin. rewrite Forall_forall in Hf. split; [by apply Hf|].
  destruct (open_node_live _ _ _ _ I Hin) as (x & -> & _). by eexists.
Qed.

(** An operation on names. *)
Lemma vsys_names s fs s' K' :
  vsys_inv s fs → vfs_inv s' K' (refs_of fs) → keeps s s' → vsys_inv s' fs.
Proof. intros V I' Hk. apply (vsys_keeps s fs s' K'); try done. intros f. by apply vsys_live. Qed.

Lemma content_step_inv s s' n K refs : content_step s s' n → vfs_inv s K refs → vfs_inv s' K refs.
Proof.
  intros [(x & i & Hx & -> & Hf) _] I.
  pose proof (inode_upd_const s n x (λ j, i <| i_node_gen := i_node_gen j |>) Hx) as E.
  assert (i <| i_node_gen := i_node_gen (n_inode x) |> = i) as Ei by (injection Hf as _ _ <-; by destruct i).
  cbn beta in E. rewrite Ei in E.
  rewrite <- E. by apply inode_upd_inv.
Qed.

Lemma file_ok_content s s' n f x :
  content_step s s' n → nodes s !! f_node f = Some x → file_ok s f → file_ok s' f.
Proof.
  intros [(y & i & Hy & -> & Hf) _] Hx. unfold file_ok, vnode. simpl.
  rewrite (lookup_total_correct _ _ _ Hx). destruct (decide (n = f_node f)) as [->|Hne].
  - rewrite (lookup_total_correct _ _ (x <| n_inode := i |>)) by (by rewrite lookup_alter_eq, Hx).
    assert (y = x) as -> by congruence. simpl. by rewrite (fixed_plain _ _ Hf).
  - by rewrite (lookup_total_correct _ _ x) by (by rewrite lookup_alter_ne).
Qed.

(** A call that changes the content of the node [n] and the position of one
    open file. *)
Lemma vsys_content s s' n fs1 f f' fs2 :
  vsys_inv s (fs1 ++ f :: fs2) → content_step s s' n → f_node f' = f_node f →
  (plain (n_inode (vnode s (f_node f))) → 0 ≤ f_pos f' ≤ 9223372036854775808) →
  vsys_inv s' (fs1 ++ f' :: fs2).
Proof.
  intros [[K I] Hd Hf] C En Hp. rewrite Forall_forall in Hf.
  assert (Forall (file_ok s') (fs1 ++ f :: fs2)) as Hf'.
  { apply Forall_forall. intros g Hg. destruct (open_node_live _ _ _ _ I Hg) as (x & Hx & _).
    by apply (file_ok_content s s' n g x); [..|apply Hf]. }
  assert (f ∈ fs1 ++ f :: fs2) as Hin by (apply elem_of_app; right; left).
  destruct (open_node_live _ _ _ _ I Hin) as (x & Hx & _). specialize (Hf f Hin).
  assert (file_ok s f') as Hf1.
  { destruct Hf as [Ht _]. split; rewrite En; done. }
  split.
  - exists K. apply (inv_refs_ext _ _ (refs_of (fs1 ++ f :: fs2))).
    + intros m. by rewrite !refs_of_middle, En.
    + by apply (content_step_inv s s' n).
  - by apply (cs_data _ _ _ C).
  - apply Forall_app in Hf' as [F1 F2]. apply Forall_cons in F2 as [_ F2].
    apply Forall_app. split; [done|]. apply Forall_cons. split; [|done].
    rewrite <- En in Hx. by apply (file_ok_content s s' n f' x).
Qed.

(** One that changes no content. *)
Lemma vsys_position s fs1 f f' fs2 :
  vsys_inv s (fs1 ++ f :: fs2) → f_node f' = f_node f →
  (plain (n_inode (vnode s (f_node f))) → 0 ≤ f_pos f' ≤ 9223372036854775808) →
  vsys_inv s (fs1 ++ f' :: fs2).
Proof.
  intros V En Hp. pose proof (vs_inv _ _ V) as [K I].
  assert (f ∈ fs1 ++ f :: fs2) as Hin by (apply elem_of_app; right; left).
  destruct (open_node_live _ _ _ _ I Hin) as (x & Hx & _).
  apply (vsys_content s s (f_node f) fs1 f); try done.
  rewrite <- (inode_upd_same s _ x Hx) at 2. by apply (content_step_of s _ x).
Qed.

(** A new open file, and the end of one. *)
Lemma vsys_retain s fs f :
  vsys_inv s fs → file_ok s f → is_Some (nodes s !! f_node f) → Z.of_nat (length fs) < 4294967294 →
  vsys_inv (vfs_node_retain s (f_node f)) (f :: fs).
Proof.
  intros V Hf [x Hx] Hlen. pose proof V as [[K I] _ _].
  pose proof (vi_refs _ _ _ I (f_node f)) as [_ Hr]. rewrite Hx in Hr. destruct Hr as [Hr _].
  assert (refs_of fs (f_node f) ≤ Z.of_nat (length fs)) as Hle.
  { unfold refs_of. apply Nat2Z.inj_le, length_filter. }
  assert (n_ref_count x + 1 < 4294967296) as Hb by (destruct (n_unlinked x); lia).
  apply (vsys_keeps s fs _ K); [done| | |].
  - eapply inv_refs_ext; [|exact (retain_inv s K _ _ x I Hx Hb)]. intros m. by rewrite refs_of_cons.
  - unfold vfs_node_retain. case_if; [by apply keeps_same|]. by apply keeps_upd; [apply keeps_same|].
  - intros g [->|Hg]%elem_of_cons; [split; [done|by eexists]|by apply (vsys_live s fs)].
Qed.

Lemma vsys_release s fs1 f fs2 :
  vsys_inv s (fs1 ++ f :: fs2) → vsys_inv (vfs_node_release s (f_node f)) (fs1 ++ fs2).
Proof.
  intros V. pose proof V as [[K I] _ _].
  assert (f ∈ fs1 ++ f :: fs2) as Hin by (apply elem_of_app; right; left).
  destruct (open_node_live _ _ _ _ I Hin) as (x & Hx & _).
  destruct (release_inv s K _ (f_node f) x I Hx (refs_of_pos _ _ Hin)) as [I' _].
  apply (vsys_keeps s (fs1 ++ f :: fs2) _ K); [done| |by apply keeps_release, keeps_same|].
  - eapply inv_refs_ext; [|exact I']. intros m. unfold radd at 1. rewrite refs_of_middle. unfold radd.
    case_decide; lia.
  - intros g Hg. apply (vsys_live _ _ _ V). set_solver.
Qed.

(** The outcome of an open: one more open file, or an error. *)
Definition opened (fs : list vfs_file_t) (rc : Z) (f' : vfs_file_t) (s' : vfs_state) : Prop :=
  vsys_inv s' (if rc =? RDNX_OK then f' :: fs else fs).

Lemma open_node_any s dev node flags out blk fs rc f' s' dev' :
  vsys_inv s fs → is_Some (nodes s !! node) → Z.of_nat (length fs) < 4294967294 → block_ok blk →
  open_node ops s dev node flags out blk = Some (rc, f', s', dev') → opened fs rc f' s'.
Proof.
  intros V Hn Hlen Hb. unfold open_node. case_if; [by intros [= <- <- <- <-]|].
  set (file := mk_file node 0 _).
  assert (file_ok s file) as Hf.
  { unfold is_dir in Eif. bool_hyps. split; [|simpl; lia]. unfold vnode. simpl.
    by destruct (n_type (nodes s !!! node)). }
  pose proof (vsys_retain s fs file V Hf Hn Hlen) as V1. change (f_node file) with node in V1.
  case_if; [|by intros [= <- <- <- <-]].
  destruct (vfs_resize_file ops _ dev file 0 blk) as [[[[trc f1] s1] d1]|] eqn:Hr; [|done].
  destruct (vsys_live _ _ file V1 ltac:(left)) as [_ [x Hx]].
  destruct (resize_any _ dev file x 0 blk trc f1 s1 d1 Hx Hb ltac:(lia) Hr) as (C & En & Hp).
  assert (vsys_inv s1 (f1 :: fs)) as V2.
  { apply (vsys_content _ s1 (f_node file) [] file f1 fs V1 C En). intros _. apply Hp. simpl. lia. }
  case_if; bool_hyps; intros [= <- <- <- <-]; unfold opened.
  - rewrite (proj2 (Z.eqb_neq _ _)) by done. by apply (vsys_release s1 [] f1 fs).
  - done.
Qed.

Lemma parent_root s path d leaf : vfs_resolve_parent s path = (d, leaf) → d ≠ 0 → vfs_root s ≠ 0.
Proof.
  rewrite resolve_parent_walk. intros H Hd. revert H. case_if; bool_hyps; [by intros [= <- _]|done].
Qed.

(** The entry for a path that was looked up in vain is free. *)
Lemma lookup_missing_leaf s K refs path s1 d leaf cs :
  vfs_inv s1 K refs → vfs_lookup s path = (0, s1) → lookup_frame s s1 → d ≠ 0 → vfs_root s1 ≠ 0 →
  comps path = cs ++ [leaf] → walk s1 (vfs_root s1) cs = d → vfs_find_child (nodes s1) d leaf = 0.
Proof.
  intros I Hl F Hd Hr Hc Hw. rewrite (lf_root _ _ F) in Hr, Hw.
  pose proof (vi_tree _ _ _ I) as T. pose proof (vi_mounts _ _ _ I) as M.
  pose proof (vfs_lookup_missing _ _ _ Hr Hl) as Hm. rewrite Hc in Hm.
  assert (lookup_frame s1 s) as F' by (by destruct F).
  pose proof (lookup_namespace _ _ F') as NF.
  assert (walk s1 (vfs_root s1) (cs ++ [leaf]) = 0) as Hm1.
  { by rewrite <- (frame_root_walk _ _ NF K (cs ++ [leaf]) T M). }
  rewrite walk_snoc in Hm1; rewrite (lf_root _ _ F), Hw in *; [|done]. simpl in Hm1.
  destruct (Z.eqb_spec (vfs_find_child (nodes s1) d leaf) 0) as [|Hne]; [done|].
  destruct (proj1 (find_child_spec _ _ _ _ _ T Hne) eq_refl) as [Hk _].
  destruct (t_child _ _ T _ _ Hk) as (x & Hx & _ & Hu).
  by destruct (target_nonzero s1 _ (t_zero _ _ T) (cross_mount_target s1 _ x (t_zero _ _ T) M Hx Hu)).
Qed.

Lemma open_any s dev b path flags out blk fs rc f' s' dev' :
  vsys_inv s fs → (nb_node b ≠ 0 → nodes s !! nb_node b = None) →
  Z.of_nat (length fs) < 4294967294 → block_ok blk →
  vfs_open ops s dev b path flags out blk = Some (rc, f', s', dev') → opened fs rc f' s'.
Proof.
  intros V Hnb Hlen Hb. unfold vfs_open. case_if; [by intros [= <- <- <- <-]|].
  destruct (vfs_lookup s path) as [n s1] eqn:Hl. pose proof (vs_inv _ _ V) as [K I].
  destruct (vfs_lookup_result _ _ _ _ _ _ I Hl) as (I1 & F & Ht & _).
  pose proof (vsys_names s fs s1 K V I1 (keeps_same s s1 (lf_nodes _ _ F))) as V1.
  destruct (Z.eqb_spec n 0) as [->|Hn].
  2: { intros Ho. eapply open_node_any; [done| |done|done|exact Ho]. rewrite (lf_nodes _ _ F). destruct (Ht Hn) as (x & -> & _). by eexists. }
  case_if; [by intros [= <- <- <- <-]|].
  destruct (vfs_resolve_parent s1 path) as [d leaf] eqn:Hp.
  case_if; bool_hyps; [by intros [= <- <- <- <-]|]. case_if; [by intros [= <- <- <- <-]|].
  destruct (vfs_create_node s1 b d leaf VFS_NODE_FILE) as [c s2] eqn:Hc.
  destruct (parent_result _ _ _ _ _ _ I1 Hp ltac:(done)) as (Hd & Hll & _ & cs & Hcs & Hw).
  rewrite <- (lf_nodes _ _ F) in Hnb. pose proof (keeps_create s1 b d leaf VFS_NODE_FILE Hnb) as Hk.
  rewrite Hc in Hk. simpl in Hk.
  assert (vfs_find_child (nodes s1) d leaf = 0) as Hfree.
  { apply (lookup_missing_leaf s K _ path s1 d leaf cs I1 Hl F); try done. by eapply parent_root. }
  destruct (create_node_result _ _ _ _ _ _ _ _ _ I1 Hd Hll Hfree Hnb Hc)
    as [[-> ->]|(-> & Hc0 & _ & I2 & _ & (y & Hy) & _)].
  - rewrite Z.eqb_refl. by intros [= <- <- <- <-].
  - rewrite (proj2 (Z.eqb_neq _ 0)) by done.
    intros Ho. eapply open_node_any; [|by rewrite Hy; eexists|done|done|exact Ho].
    by apply (vsys_names s1 fs s2 (kset d (nb_node b :: K d) K)).
Qed.

Lemma truncate_any s dev path new_size blk fs rc s' dev' :
  vsys_inv s fs → block_ok blk → in_u64 new_size →
  vfs_truncate ops s dev path new_size blk = Some (rc, s', dev') → vsys_inv s' fs.
Proof.
  intros V Hb Hn. unfold vfs_truncate. case_if; [by intros [= <- <- <-]|].
  destruct (vfs_lookup s path) as [n s1] eqn:Hl. pose proof (vs_inv _ _ V) as [K I].
  destruct (vfs_lookup_result _ _ _ _ _ _ I Hl) as (I1 & F & Ht & _).
  pose proof (vsys_names s fs s1 K V I1 (keeps_same s s1 (lf_nodes _ _ F))) as V1.
  case_if; bool_hyps; [by intros [= <- <- <-]|].
  destruct (vfs_resize_file ops s1 dev (mk_file n 0 true) new_size blk) as [[[[r f1] s2] d1]|] eqn:Hr; [|done].
  intros [= <- <- <-]. destruct (Ht ltac:(done)) as (x & Hx & _). rewrite <- (lf_nodes _ _ F) in Hx.
  destruct (resize_any s1 dev (mk_file n 0 true) x new_size blk r f1 s2 d1 Hx Hb Hn Hr) as (C & _).
  destruct V1 as [[K1 I2] Hd Hf]. split.
  - exists K1. by apply (content_step_inv s1 s2 n).
  - by apply (cs_data _ _ _ C).
  - apply Forall_forall. intros g Hg. destruct (open_node_live _ _ _ _ I2 Hg) as (z & Hz & _).
    rewrite Forall_forall in Hf. by apply (file_ok_content s1 s2 n g z); [..|apply Hf].
Qed.

(** ** The steps *)
Definition vsys : Type := vfs_state * list vfs_file_t * D.

(** Blocks that [kmalloc] returns are not in use. *)
Definition fresh_node (b : node_blocks) (s : vfs_state) : Prop :=
  nb_node b ≠ 0 → nodes s !! nb_node b = None.

Inductive vstep : vsys → vsys → Prop :=
| vs_open s dev fs b path flags out blk rc f s' dev' :
    fresh_node b s → block_ok blk → Z.of_nat (length fs) < 4294967294 →
    vfs_open ops s dev b path flags out blk = Some (rc, f, s', dev') →
    vstep (s, fs, dev) (s', if rc =? RDNX_OK then f :: fs else fs, dev')
| vs_close s dev fs1 f fs2 rc f' s' :
    vfs_close s f = (rc, f', s') → vstep (s, fs1 ++ f :: fs2, dev) (s', fs1 ++ fs2, dev)
| vs_dup s dev fs f dst rc f' s' :
    f ∈ fs → Z.of_nat (length fs) < 4294967294 → vfs_file_dup s f dst = (rc, f', s') →
    vstep (s, fs, dev) (s', f' :: fs, dev)
| vs_read s dev fs1 f fs2 size bounce rc out f' dev' :
    0 ≤ size → vfs_read ops s dev f size bounce = Some (rc, out, f', dev') →
    vstep (s, fs1 ++ f :: fs2, dev) (s, fs1 ++ f' :: fs2, dev')
| vs_write s dev fs1 f fs2 buf blk rc f' s' dev' :
    block_ok blk → Z.of_nat (length buf) < 9223372036854775808 →
    vfs_write ops s dev f buf blk = Some (rc, f', s', dev') →
    vstep (s, fs1 ++ f :: fs2, dev) (s', fs1 ++ f' :: fs2, dev')
| vs_seek s dev fs1 f fs2 off whence rc next f' :
    vfs_seek s f off whence = (rc, next, f') →
    vstep (s, fs1 ++ f :: fs2, dev) (s, fs1 ++ f' :: fs2, dev)
| vs_ftruncate s dev fs1 f fs2 new_size blk rc f' s' dev' :
    block_ok blk → in_u64 new_size →
    vfs_ftruncate ops s dev f new_size blk = Some (rc, f', s', dev') →
    vstep (s, fs1 ++ f :: fs2, dev) (s', fs1 ++ f' :: fs2, dev')
| vs_truncate s dev fs path new_size blk rc s' dev' :
    block_ok blk → in_u64 new_size →
    vfs_truncate ops s dev path new_size blk = Some (rc, s', dev') → vstep (s, fs, dev) (s', fs, dev')
| vs_mkdir s dev fs b path rc s' :
    fresh_node b s → vfs_mkdir s b path = (rc, s') → vstep (s, fs, dev) (s', fs, dev)
| vs_unlink s dev fs path rc s' :
    vfs_unlink s path = (rc, s') → vstep (s, fs, dev) (s', fs, dev)
| vs_rename s dev fs old_path new_path rc s' :
    vfs_rename s old_path new_path = (rc, s') → vstep (s, fs, dev) (s', fs, dev)
| vs_stat s dev fs path rc st s' :
    vfs_stat s path = (rc, st, s') → vstep (s, fs, dev) (s', fs, dev)
| vs_list_dir s dev fs path rc l s' :
    vfs_list_dir s path = (rc, l, s') → vstep (s, fs, dev) (s', fs, dev)
| vs_mount s dev fs fs_name path mount pre mnt rc s' :
    FsDriver mount pre → pre (nodes s) → mnt ∉ vfs_mounts s →
    vfs_mount s fs_name path mount mnt = (rc, s') → vstep (s, fs, dev) (s', fs, dev).

Definition vsys_ok (x : vsys) : Prop := vsys_inv x.1.1 x.1.2.

(** The calls that only look a path up. *)
Lemma vsys_lookup s fs path n s1 : vsys_inv s fs → vfs_lookup s path = (n, s1) → vsys_inv s1 fs.
Proof.
  intros V Hl. pose proof (vs_inv _ _ V) as [K I].
  destruct (vfs_lookup_result _ _ _ _ _ _ I Hl) as (I1 & F & _).
  exact (vsys_names s fs s1 K V I1 (keeps_same s s1 (lf_nodes _ _ F))).
Qed.

Lemma mkdir_keeps s b path : fresh_node b s → keeps s (vfs_mkdir s b path).2.
Proof.
  intros Hb. unfold vfs_mkdir. repeat (case_if; [by apply keeps_same|]).
  destruct (vfs_resolve_parent s path) as [d leaf]. repeat (case_if; [by apply keeps_same|]).
  pose proof (keeps_create s b d leaf VFS_NODE_DIR Hb) as H.
  by destruct (vfs_create_node s b d leaf VFS_NODE_DIR).
Qed.

Lemma unlink_keeps s path : nodes (vfs_lookup s path).2 = nodes s → keeps s (vfs_unlink s path).2.
Proof.
  intros Hn. unfold vfs_unlink. case_if; [by apply keeps_same|].
  destruct (vfs_lookup s path) as [n s1]. simpl in Hn. pose proof (keeps_same s s1 Hn) as H1.
  repeat (case_if; [done|]). simpl. apply keeps_release.
  set (s2 := node_upd _ _ _). assert (keeps s s2) as H2; [|exact H2].
  apply keeps_upd; [|done]. by apply keeps_detach.
Qed.

Lemma rename_keeps s old_path new_path : keeps s (vfs_rename s old_path new_path).2.
Proof.
  unfold vfs_rename. repeat (case_if; [by apply keeps_same|]).
  destruct (vfs_resolve_parent s old_path) as [od ol], (vfs_resolve_parent s new_path) as [nd nl].
  repeat (case_if; [by apply keeps_same|]). simpl. set (s2 := node_upd _ _ _).
  assert (keeps s s2) as H2; [|exact H2].
  do 3 (apply keeps_upd; [|done]). by apply keeps_detach, keeps_same.
Qed.

Lemma names_step s b path fs rc s' :
  vsys_inv s fs →
  (fresh_node b s ∧ vfs_mkdir s b path = (rc, s')) ∨ vfs_unlink s path = (rc, s') ∨
  (∃ new_path, vfs_rename s path new_path = (rc, s')) → vsys_inv s' fs.
Proof.
  intros V H. pose proof (vs_inv _ _ V) as [K I]. destruct H as [[Hb H]|[H|[new_path H]]].
  - pose proof (mkdir_keeps s b path Hb) as Hk. rewrite H in Hk.
    destruct (mkdir_result _ _ _ _ _ _ _ I Hb H) as [[-> _]|(_ & d & leaf & _ & _ & _ & I' & _)]; [done|].
    by eapply vsys_names.
  - pose proof (unlink_keeps s path) as Hk. rewrite H in Hk.
    assert (keeps s s') as Hk'.
    { apply Hk. destruct (vfs_lookup s path) as [n s1] eqn:Hl.
      destruct (vfs_lookup_result _ _ _ _ _ _ I Hl) as (_ & F & _). apply (lf_nodes _ _ F). }
    destruct (unlink_result _ _ _ _ _ _ I H) as [(_ & I' & _)|(_ & n & x & K' & _ & _ & _ & _ & _ & I' & _)];
      by eapply vsys_names.
  - pose proof (rename_keeps s path new_path) as Hk. rewrite H in Hk.
    destruct (rename_result _ _ _ _ _ _ _ I H)
      as [[-> _]|(_ & od & ol & nd & nl & n & K' & _ & _ & _ & _ & _ & I' & _)]; [done|].
    by eapply vsys_names.
Qed.

(** The file of a call is one of the open ones. *)
Lemma vsys_member s fs1 f fs2 :
  vsys_inv s (fs1 ++ f :: fs2) → ∃ x, nodes s !! f_node f = Some x ∧
    (plain (n_inode x) → inode_ok (n_inode x)) ∧ (plain (n_inode x) → 0 ≤ f_pos f ≤ 9223372036854775808).
Proof.
  intros V. destruct (vsys_live s _ f V) as [[_ Hp] [x Hx]]; [apply elem_of_app; right; left|].
  exists x. unfold vnode in Hp. rewrite (lookup_total_correct _ _ _ Hx) in Hp.
  split; [done|]. split; [|done]. by apply (vs_data _ _ V (f_node f)).
Qed.

Lemma vstep_ok x y : vsys_ok x → vstep x y → vsys_ok y.
Proof.
  unfold vsys_ok. intros V H. destruct H; cbn [fst snd] in *.
  - by eapply open_any.
  - destruct (vsys_member _ _ _ _ V) as (x & Hx & _). pose proof (vs_inv _ _ V) as [K I].
    unfold vfs_close in H. rewrite (proj2 (Z.eqb_neq _ 0)) in H by (by eapply tree_nonzero; [apply I|]).
    injection H as _ _ <-. by apply (vsys_release s fs1 f fs2).
  - destruct (vsys_live _ _ _ V H) as [Hf Hl]. pose proof (vs_inv _ _ V) as [K I].
    destruct Hl as [x Hx]. unfold vfs_file_dup in H1.
    rewrite (proj2 (Z.eqb_neq _ 0)) in H1 by (by eapply tree_nonzero; [apply I|]).
    injection H1 as _ <- <-. by apply vsys_retain; [..|by eexists|].
  - destruct (vsys_member _ _ _ _ V) as (x & Hx & Hok & Hp).
    destruct (read_any _ _ _ _ _ _ _ _ _ H0 H) as [En Hr]. revert Hr. unfold vnode.
    rewrite (lookup_total_correct _ _ _ Hx). intros Hr. apply (vsys_position s fs1 f); try done.
    unfold vnode. rewrite (lookup_total_correct _ _ _ Hx). auto.
  - destruct (vsys_member _ _ _ _ V) as (x & Hx & Hok & Hp).
    destruct (write_any _ _ _ _ _ _ _ _ _ _ Hx H H0 Hp H1) as (C & En & Hr).
    apply (vsys_content s s' (f_node f) fs1 f); try done.
    unfold vnode. rewrite (lookup_total_correct _ _ _ Hx). auto.
  - destruct (vsys_member _ _ _ _ V) as (x & Hx & _ & Hp). destruct (seek_any _ _ _ _ _ _ _ H) as [En Hr].
    apply (vsys_position s fs1 f); try done. unfold vnode. rewrite (lookup_total_correct _ _ _ Hx). auto.
  - destruct (vsys_member _ _ _ _ V) as (x & Hx & _ & Hp).
    destruct (resize_any _ _ _ _ _ _ _ _ _ _ Hx H H0 H1) as (C & En & Hr).
    apply (vsys_content s s' (f_node f) fs1 f); try done.
    unfold vnode. rewrite (lookup_total_correct _ _ _ Hx). auto.
  - by eapply truncate_any.
  - eapply (names_step s b path); eauto.
  - eapply (names_step s (mk_node_blocks 0 false) path); eauto.
  - eapply (names_step s (mk_node_blocks 0 false) old_path); eauto.
  - unfold vfs_stat in H. destruct (negb (vfs_ready s)); [by injection H as _ _ <-|].
    destruct (vfs_lookup s path) as [n s1] eqn:Hl. apply (vsys_lookup _ fs _ _ _ V) in Hl.
    destruct (n =? 0); by injection H as _ _ <-.
  - unfold vfs_list_dir in H. destruct (negb (vfs_ready s)); [by injection H as _ _ <-|].
    destruct (vfs_lookup s path) as [n s1] eqn:Hl. apply (vsys_lookup _ fs _ _ _ V) in Hl.
    destruct (_ || _); by injection H as _ _ <-.
  - pose proof (vs_inv _ _ V) as [K I].
    destruct (mount_result _ _ _ _ _ _ _ _ _ _ H I H0 H1 H2) as (K' & I' & Hk & _).
    by eapply vsys_names.
Qed.

Lemma vsteps_ok x y : vsys_ok x → rtc vstep x y → vsys_ok y.
Proof. intros Hx H. induction H as [|x y z Hxy _ IH]; [done|]. apply IH. by eapply vstep_ok. Qed.

Lemma vsteps_inv s fs d s' fs' d' :
  vsys_inv s fs → rtc vstep (s, fs, d) (s', fs', d') → vsys_inv s' fs'.
Proof. intros V. exact (vsteps_ok (s, fs, d) (s', fs', d') V). Qed.

End System.
End VfsSteps.
