(* ===== verification/VfsSpec.v ===== *)
(** * The VFS at boot

    [vfs_init] from the state that the kernel starts in: the root mount, the
    import of the initrd image and the mount of the device file system end in
    a state that satisfies the invariant.  Every block that [kmalloc] returns
    on the way is a new one. *)

From stdpp Require Import base gmap list numbers fin_maps relations.
From S2P Require Import Prelude PathSpec Vfs VfsFile VfsFacts VfsTree VfsOps VfsNames VfsMount VfsSteps.

Module VfsBoot.
Import PathSpec Vfs VfsFile VfsFacts VfsTree VfsPath VfsInv VfsOps VfsNames VfsMount VfsData VfsSteps.

(** The variables of [vfs.c] as they are linked, with the image of the boot
    loader. *)
Definition boot_vfs (initrd : option (list Z)) : vfs_state :=
  mk_vfs ∅ ∅ [] 0 0 false 1 0 (replicate 64 (mk_cache_entry [] 0 0 0)) initrd [].

(** ** Which nodes there are *)
Definition within (s : vfs_state) (U : Z → Prop) : Prop := ∀ n, is_Some (nodes s !! n) → U n.

Lemma within_mono s (U U' : Z → Prop) : (∀ n, U n → U' n) → within s U → within s U'.
Proof. intros H W n Hn. auto. Qed.

Lemma within_fresh s U b : within s U → (nb_node b ≠ 0 → ¬ U (nb_node b)) → fresh_node b s.
Proof. intros W H Hb. apply eq_None_not_Some. intros Hn. by apply (H Hb), W. Qed.

Lemma within_upd s U n f : within s U → within (node_upd n f s) U.
Proof. intros W m. simpl. rewrite alter_is_Some. apply W. Qed.

Lemma within_release s U n : within s U → within (vfs_node_release s n) U.
Proof.
  intros W. unfold vfs_node_release, vfs_free_node. repeat case_if; try done; try by apply within_upd.
  intros m. cbn. intros [x [_ (y & Hy & _)%alter_some]%lookup_delete_Some]. apply W. by eexists.
Qed.

Lemma within_create s U b d nm type :
  within s U → within (vfs_create_node s b d nm type).2 (λ n, U n ∨ n ≠ 0 ∧ n = nb_node b).
Proof.
  intros W. assert (within s (λ n, U n ∨ n ≠ 0 ∧ n = nb_node b)) as W0 by (eapply within_mono; [|done]; auto).
  unfold vfs_create_node, vfs_alloc_node. case_if; bool_hyps; [done|]. case_if; [done|].
  rewrite (proj2 (Z.eqb_neq _ 0)) by done. set (s1 := s <| nodes ::= _ |>).
  assert (within s1 (λ n, U n ∨ n ≠ 0 ∧ n = nb_node b)) as W1.
  { intros n [x Hx]. unfold s1 in Hx. simpl in Hx.
    apply lookup_insert_Some in Hx as [[<- _]|[_ Hx]]; [auto|]. apply W0. by eexists. }
  unfold vfs_add_child. case_if; simpl; [by apply within_release|]. intros n Hn.
  apply (within_upd _ _ d _ (within_upd _ _ (nb_node b) _ W1) n Hn).
Qed.

Lemma within_mkdir s U b path :
  within s U → within (vfs_mkdir s b path).2 (λ n, U n ∨ n ≠ 0 ∧ n = nb_node b).
Proof.
  intros W. assert (within s (λ n, U n ∨ n ≠ 0 ∧ n = nb_node b)) as W0 by (eapply within_mono; [|done]; auto).
  unfold vfs_mkdir. repeat (case_if; [done|]). destruct (vfs_resolve_parent s path) as [d leaf].
  repeat (case_if; [done|]). pose proof (within_create s U b d leaf VFS_NODE_DIR W) as H.
  by destruct (vfs_create_node s b d leaf VFS_NODE_DIR).
Qed.

(** While the image is imported no file is open and every node has its content
    in memory. *)
Record boot_inv (L : list Z) (s : vfs_state) : Prop := {
  bi_mounts : vfs_mounts s = L;
  bi_sys : vsys_inv s [];
  bi_data : ∀ n x, nodes s !! n = Some x → inode_ok (n_inode x)
}.

Lemma boot_keeps L s s' :
  boot_inv L s → vfs_mounts s' = vfs_mounts s → vsys_inv s' [] → keeps s s' → boot_inv L s'.
Proof.
  intros [<- _ Hd] Hm V Hk. split; [done|done|]. intros n x Hx. specialize (Hk n x Hx).
  destruct (nodes s !! n) as [y|] eqn:Hy.
  - destruct Hk as [_ ->]. by eapply Hd.
  - destruct Hk as (H1 & H2 & H3). unfold inode_ok. rewrite H1, H2, H3. split; [lia|]. split; [by left|done].
Qed.

Lemma create_mounts s b d nm type : vfs_mounts (vfs_create_node s b d nm type).2 = vfs_mounts s.
Proof.
  unfold vfs_create_node, vfs_alloc_node, vfs_add_child, vfs_node_release, vfs_free_node.
  by repeat case_if.
Qed.

Lemma mkdir_mounts s b path : vfs_mounts (vfs_mkdir s b path).2 = vfs_mounts s.
Proof.
  unfold vfs_mkdir. do 2 (case_if; [done|]). destruct (vfs_resolve_parent s path) as [d leaf].
  do 3 (case_if; [done|]). pose proof (create_mounts s b d leaf VFS_NODE_DIR) as H.
  by destruct (vfs_create_node s b d leaf VFS_NODE_DIR).
Qed.

Lemma mkdir_ok L s b path : boot_inv L s → fresh_node b s → boot_inv L (vfs_mkdir s b path).2.
Proof.
  intros B Hb. pose proof (mkdir_keeps s b path Hb) as Hk.
  pose proof (mkdir_mounts s b path) as Hm.
  destruct (vfs_mkdir s b path) as [rc s'] eqn:H. apply (boot_keeps L s); [done|done| |done].
  eapply (names_step s b path); [apply B|eauto].
Qed.

(** ** The import *)

(** The blocks of an entry, new and distinct. *)
Definition owns (b : import_blocks) (n : Z) : Prop :=
  n ≠ 0 ∧ (n = nb_node (ib_file b) ∨ ∃ k, n = nb_node (ib_dirs b k)).

Record entry_blocks (b : import_blocks) (U : Z → Prop) : Prop := {
  eb_new : ∀ n, owns b n → ¬ U n;
  eb_dirs : ∀ j k, nb_node (ib_dirs b j) = nb_node (ib_dirs b k) → nb_node (ib_dirs b j) ≠ 0 → j = k;
  eb_file : ∀ k, nb_node (ib_file b) = nb_node (ib_dirs b k) → nb_node (ib_file b) = 0;
  eb_data : block_ok (ib_data b)
}.

Lemma import_dirs_ok L b U path l s :
  entry_blocks b U → NoDup l → boot_inv L s →
  within s (λ n, U n ∨ n ≠ 0 ∧ ∃ k, k ∉ l ∧ n = nb_node (ib_dirs b k)) →
  let s' := foldl (λ s k, if path !!! k =? SLASH then (vfs_mkdir s (ib_dirs b k) (take k path)).2 else s) s l in
  boot_inv L s' ∧ within s' (λ n, U n ∨ n ≠ 0 ∧ ∃ k, n = nb_node (ib_dirs b k)).
Proof.
  intros E. revert s. induction l as [|k l IH]; intros s Hnd V W.
  { simpl. split; [done|]. eapply within_mono; [|exact W]. naive_solver. }
  apply NoDup_cons in Hnd as [Hk Hnd]. cbn [foldl].
  assert (within s (λ n, U n ∨ n ≠ 0 ∧ ∃ j, j ∉ l ∧ n = nb_node (ib_dirs b j))) as W1.
  { eapply within_mono; [|exact W]. intros n [?|(? & j & Hj & ?)]; [by left|right]. split; [done|].
    exists j. split; [|done]. set_solver. }
  case_if; [|by apply IH].
  assert (fresh_node (ib_dirs b k) s) as Hf.
  { apply (within_fresh _ _ _ W). intros H0 [Hu|(_ & j & Hj & Ej)].
    - apply (eb_new _ _ E (nb_node (ib_dirs b k))); [|done]. split; [done|]. right. eauto.
    - apply (eb_dirs _ _ E) in Ej; [|done]. subst j. apply Hj. by left. }
  apply IH; [done|by apply mkdir_ok|].
  eapply within_mono; [|apply (within_mkdir _ _ _ _ W1)].
  intros n [[?|(? & j & Hj & ?)]|[? ->]]; eauto 10.
Qed.

Lemma content_ok L s n j :
  boot_inv L s → inode_ok j → ∀ m x, nodes (inode_upd n (λ _, j) s) !! m = Some x → inode_ok (n_inode x).
Proof.
  intros B Hj m x. simpl. intros (y & Hy & ->)%alter_some. case_decide; [done|]. by eapply (bi_data _ _ B).
Qed.

Lemma boot_content L s s' n : boot_inv L s → content_step s s' n → vsys_inv s' [].
Proof.
  intros [_ [[K I] Hd _] _] C. split; [exists K; by eapply content_step_inv|by apply (cs_data _ _ _ C)|done].
Qed.

(** A content that is put into a file that is large enough. *)
Lemma import_content L s n x size buf i :
  boot_inv L s → nodes s !! n = Some x → fixed i = fixed (n_inode x) → inode_ok i → 0 ≤ size ≤ i_capacity i →
  boot_inv L (inode_upd n (λ i, i <| i_size := size |>) (inode_upd n (put_data 0 buf) (inode_upd n (λ _, i) s))).
Proof.
  intros B Hx Hf Hok Hs. rewrite !inode_upd_twice. set (j := put_data 0 buf i <| i_size := size |>).
  assert (inode_ok j) as Hj.
  { destruct Hok as (H1 & H2 & H3). unfold j, inode_ok, put_data. simpl.
    split; [lia|]. split; [done|]. destruct (i_data i); simpl; [by rewrite inserts_length|done]. }
  split; [apply B| |by apply (content_ok L s n)].
  apply (boot_content L s _ n B), (content_step_of s n x); done.
Qed.

Lemma grow_returns s n x needed blk :
  nodes s !! n = Some x → inode_ok (n_inode x) → 0 ≤ needed ≤ 9223372036854775808 →
  vfs_grow_file s n needed blk ≠ None.
Proof.
  intros Hx (Hs & Hc & _) Hn. unfold vfs_grow_file, vnode. rewrite (lookup_total_correct _ _ _ Hx).
  case_if; [done|]. case_if; bool_hyps; [done|].
  set (c0 := if negb (i_capacity (n_inode x) =? 0) then i_capacity (n_inode x) else 64).
  assert (64 ≤ c0) as Hc0.
  { unfold c0. destruct (Z.eqb_spec (i_capacity (n_inode x)) 0) as [|Hne]; simpl; [lia|].
    destruct Hc as [?|(k & Hk & ->)]; [done|]. by apply (Z.pow_le_mono_r 2 6 k); lia. }
  destruct (grow_cap_enough 64 c0 needed ltac:(lia) ltac:(lia)) as (c & -> & _); [|by destruct (blk c)].
  etrans; [apply Hn|]. change (2 ^ Z.of_nat 64) with 18446744073709551616. lia.
Qed.

Lemma le32_nonneg img off : Forall (λ z, in_u8 z) img → 0 ≤ le32 img off.
Proof.
  intros Hb. assert (∀ k, 0 ≤ img !!! k) as H.
  { intros k. rewrite list_lookup_total_alt. destruct (img !! k) as [z|] eqn:Hz; [|done].
    rewrite Forall_forall in Hb. apply list_elem_of_lookup_2, Hb in Hz. simpl. lia. }
  unfold le32. pose proof (H (Z.to_nat (off + 0))). pose proof (H (Z.to_nat (off + 1))).
  pose proof (H (Z.to_nat (off + 2))). pose proof (H (Z.to_nat (off + 3))). lia.
Qed.

(** The growth and the copy at the end of an entry. *)
Lemma import_fill L s n x size buf blk :
  boot_inv L s → nodes s !! n = Some x → 0 ≤ size ≤ 9223372036854775808 → block_ok blk →
  ∃ s', match vfs_grow_file s n size blk with
        | None => None
        | Some (g, s) =>
            if negb (g =? 0) then Some s
            else Some (inode_upd n (λ i, i <| i_size := size |>) (inode_upd n (put_data 0 buf) s))
        end = Some s' ∧ boot_inv L s' ∧ (∀ U, within s U → within s' U).
Proof.
  intros B Hx Hs Hb. pose proof (bi_data _ _ B n x Hx) as Hok.
  destruct (vfs_grow_file s n size blk) as [[g s1]|] eqn:Hg; [|by destruct (grow_returns s n x size blk)].
  destruct (grow_any s n x size blk g s1 Hx Hb ltac:(lia) Hg) as (i & -> & Hf & _ & Hi).
  destruct (Hi Hok) as [Hiok Hcap]. case_if; bool_hyps; eexists; (split; [done|]).
  - split; [|intros U W; by apply within_upd]. split; [apply B| |by apply (content_ok L s n)].
    apply (boot_content L s _ n B), (content_step_of s n x); done.
  - split; [|intros U W; by do 3 apply within_upd]. apply (import_content L s n x); try done. specialize (Hcap Eif). lia.
Qed.

Lemma import_entry_ok L s img b e U :
  boot_inv L s → within s U → entry_blocks b U → Z.of_nat (length img) ≤ 9223372036854775808 →
  Forall (λ z, in_u8 z) img →
  ∃ s', import_entry s img b e = Some s' ∧ boot_inv L s' ∧ within s' (λ n, U n ∨ owns b n).
Proof.
  intros B W E Himg Hbytes. unfold import_entry.
  assert (within s (λ n, U n ∨ owns b n)) as W0 by (eapply within_mono; [|done]; auto).
  set (path := c_str _). set (size := le32 img (e + 68)).
  pose proof (le32_nonneg img (e + 64) Hbytes). pose proof (le32_nonneg img (e + 68) Hbytes).
  case_if; [by exists s|]. case_if; bool_hyps; [by exists s|]. case_if; [by exists s|]. case_if; [by exists s|].
  destruct (import_dirs_ok L b U path (seq 1 (length path - 1)) s E (NoDup_seq _ _) B) as [B1 W1].
  { eapply within_mono; [|exact W]. auto. }
  fold (import_dirs s (ib_dirs b) path) in B1, W1. set (s1 := import_dirs s (ib_dirs b) path) in *.
  assert (within s1 (λ n, U n ∨ owns b n)) as W2.
  { eapply within_mono; [|exact W1]. unfold owns. naive_solver. }
  destruct (vfs_resolve_parent s1 path) as [d leaf] eqn:Hp.
  case_if; bool_hyps; [by exists s1|]. pose proof (vs_inv _ _ (bi_sys _ _ B1)) as [K I].
  destruct (parent_result _ _ _ _ _ _ I Hp ltac:(done)) as (Hd & Hll & _).
  destruct (Z.eqb_spec (vfs_find_child (nodes s1) d leaf) 0) as [Hfree|Hfound].
  - assert (fresh_node (ib_file b) s1) as Hf.
    { apply (within_fresh _ _ _ W1). intros Hz [Hu|(_ & k & Ek)].
      - apply (eb_new _ _ E (nb_node (ib_file b))); [|done]. split; [done|by left].
      - by apply Hz, (eb_file _ _ E k). }
    pose proof (keeps_create s1 (ib_file b) d leaf VFS_NODE_FILE Hf) as Hk.
    pose proof (within_create s1 _ (ib_file b) d leaf VFS_NODE_FILE W2) as W3.
    destruct (vfs_create_node s1 (ib_file b) d leaf VFS_NODE_FILE) as [c s2] eqn:Hc. simpl in Hk, W3.
    assert (within s2 (λ n, U n ∨ owns b n)) as W4 by (eapply within_mono; [|exact W3]; unfold owns; naive_solver).
    destruct (create_node_result _ _ _ _ _ _ _ _ _ I Hd Hll Hfree Hf Hc)
      as [[-> ->]|(-> & Hc0 & _ & I2 & _ & (y & Hy) & _)]; [rewrite Z.eqb_refl; by exists s1|].
    rewrite (proj2 (Z.eqb_neq _ 0)) by done.
    pose proof (create_mounts s1 (ib_file b) d leaf VFS_NODE_FILE) as Hmo. rewrite Hc in Hmo.
    assert (boot_inv L s2) as B2 by (apply (boot_keeps L s1); [done|done| |done]; eapply vsys_names; [apply B1|done..]).
    destruct (import_fill L s2 _ _ size (take (Z.to_nat size) (drop (Z.to_nat (le32 img (e + 64))) img))
                (ib_data b) B2 Hy ltac:(lia) (eb_data _ _ E)) as (s' & Hs' & B' & W'); eauto.
  - rewrite (proj2 (Z.eqb_neq _ 0)) by done.
    destruct (proj1 (find_child_spec _ _ _ _ _ (vi_tree _ _ _ I) Hfound) eq_refl) as [Hkid _].
    destruct (t_child _ _ (vi_tree _ _ _ I) _ _ Hkid) as (x & Hx & _).
    destruct (import_fill L s1 _ _ size (take (Z.to_nat size) (drop (Z.to_nat (le32 img (e + 64))) img))
                (ib_data b) B1 Hx ltac:(lia) (eb_data _ _ E)) as (s' & Hs' & B' & W'); eauto.
Qed.

(** The blocks of all entries. *)
Record image_blocks (b : nat → import_blocks) (U : Z → Prop) : Prop := {
  im_entry : ∀ i, entry_blocks (b i) U;
  im_disj : ∀ i j n, owns (b i) n → owns (b j) n → i = j
}.

Lemma import_loop_ok L img b U l s :
  image_blocks b U → NoDup l → boot_inv L s →
  within s (λ n, U n ∨ ∃ i, i ∉ l ∧ owns (b i) n) → Z.of_nat (length img) ≤ 9223372036854775808 →
  Forall (λ z, in_u8 z) img →
  ∃ s', import_loop s img b l = Some s' ∧ boot_inv L s' ∧ within s' (λ n, U n ∨ ∃ i, owns (b i) n).
Proof.
  intros E Hnd B W Himg Hb. revert s Hnd B W. induction l as [|i l IH]; intros s Hnd B W; simpl.
  { exists s. split; [done|]. split; [done|]. eapply within_mono; [|exact W]. naive_solver. }
  apply NoDup_cons in Hnd as [Hi Hnd].
  destruct (import_entry_ok L s img (b i) (INITRD_HEADER_SIZE + INITRD_ENTRY_SIZE * Z.of_nat i) _ B W)
    as (s1 & -> & B1 & W1); [|done..|].
  - destruct (im_entry _ _ E i) as [E1 E2 E3 E4]. split; [|done..].
    intros n Hn [Hu|(j & Hj & Hn')]; [by apply (E1 n)|].
    rewrite (im_disj _ _ E i j n Hn Hn') in Hj. apply Hj. left.
  - apply IH; [done..|]. eapply within_mono; [|exact W1].
    intros n [[?|(j & Hj & ?)]|?]; [by left|right; exists j; split; [set_solver|done]|right; eauto].
Qed.

Lemma import_ok L b U s :
  image_blocks b U → boot_inv L s → within s U →
  (∀ img, vfs_initrd s = Some img →
     Z.of_nat (length img) ≤ 9223372036854775808 ∧ Forall (λ z, in_u8 z) img) →
  ∃ rc s', vfs_import_initrd s b = Some (rc, s') ∧ boot_inv L s' ∧ within s' (λ n, U n ∨ ∃ i, owns (b i) n).
Proof.
  intros E B W Himg. unfold vfs_import_initrd.
  assert (within s (λ n, U n ∨ ∃ i, owns (b i) n)) as W0 by (eapply within_mono; [|done]; auto).
  destruct (vfs_initrd s) as [img|]; [|by exists 0, s]. destruct (Himg img eq_refl) as [Hl Hb].
  case_if; [by exists 0, s|]. do 3 (case_if; [by exists (-1), s|]).
  destruct (import_loop_ok L img b U (seq 0 (Z.to_nat (le32 img 4))) s E (NoDup_seq _ _) B) as (s' & -> & ? & ?);
    [|done..|by exists 0, s'].
  eapply within_mono; [|exact W]. auto.
Qed.

(** ** The root mount *)
Lemma register_frame s name :
  let s' := (vfs_register_fs s name).2 in
  nodes s' = nodes s ∧ vfs_mounts s' = vfs_mounts s ∧ vfs_root s' = vfs_root s ∧
  vfs_cache s' = vfs_cache s ∧ vfs_initrd s' = vfs_initrd s.
Proof. unfold vfs_register_fs. by repeat case_if. Qed.

Lemma tree_empty : tree ∅ (λ _, []).
Proof. split; try done; try (intros; by set_solver). intros _. apply NoDup_nil_2. Qed.

(** The root alone. *)
Lemma root_mounted s root rmnt fs_name :
  nodes s = <[root := new_vnode ROOT_NAME VFS_NODE_DIR]> ∅ → root ≠ 0 → rmnt ≠ 0 →
  vfs_root s = root → vfs_mounts s = [rmnt] → mounts s !!! rmnt = mk_mount fs_name root 0 →
  length (vfs_cache s) = 64%nat → boot_inv [rmnt] (vfs_cache_reset s).
Proof.
  intros HN Hr Hm Hroot Hl Hmo Hc.
  assert (top s root) as Htop by (eexists; rewrite HN, lookup_insert_eq; done).
  split; [done|split|].
  - exists (λ _, []). apply cache_reset_inv; [|split|..|done].
    + rewrite HN. by apply tree_insert, tree_empty || (apply tree_insert; [apply tree_empty|done..]).
    + intros m. rewrite Hl. intros ->%list_elem_of_singleton. done.
    + intros m. rewrite Hl. intros ->%list_elem_of_singleton. by rewrite Hmo.
    + intros m. rewrite Hl. intros ->%list_elem_of_singleton. by rewrite Hmo.
    + by rewrite Hroot.
    + intros n. rewrite HN. unfold refs_of. simpl. split; [done|].
      destruct (decide (root = n)) as [<-|]; [by rewrite lookup_insert_eq|].
      by rewrite lookup_insert_ne.
  - intros n x. change (nodes (vfs_cache_reset s)) with (nodes s). rewrite HN.
    intros [[<- <-]|[_ H]]%lookup_insert_Some _; [|done]. split; [simpl; lia|]. split; [by left|done].
  - done.
  - intros n x. change (nodes (vfs_cache_reset s)) with (nodes s). rewrite HN.
    intros [[<- <-]|[_ H]]%lookup_insert_Some; [|done]. split; [simpl; lia|]. split; [by left|done].
Qed.

Lemma mount_root_eq s root rmnt :
  vfs_find_fs_driver s RAMFS_NAME = true → rmnt ≠ 0 → nb_node root ≠ 0 → nb_inode root = true →
  vfs_mount_root_ramfs s root rmnt
    = (0, s <| nodes ::= <[nb_node root := new_vnode ROOT_NAME VFS_NODE_DIR]> |>
            <| mounts ::= <[rmnt := mk_mount RAMFS_NAME (nb_node root) 0]> |> <| vfs_mounts ::= cons rmnt |>
            <| vfs_root_mount := rmnt |> <| vfs_root := nb_node root |>).
Proof.
  intros Hd Hr Hn Hi. apply Z.eqb_neq in Hr, Hn.
  unfold vfs_mount_root_ramfs, vfs_ramfs_mount, vfs_alloc_node. rewrite Hd, Hr, Hn, Hi. cbn [negb]. by rewrite Hn, Z.eqb_refl, Hn.
Qed.

(** ** [vfs_mount_devfs] *)
Lemma mount_devfs_ok mount pre L s b mnt U :
  FsDriver mount pre → boot_inv L s → within s U → (nb_node b ≠ 0 → ¬ U (nb_node b)) →
  (∀ N, (∀ n, is_Some (N !! n) → U n ∨ n ≠ 0 ∧ n = nb_node b) → pre N) → mnt ∉ L →
  vsys_inv (vfs_mount_devfs s b mount mnt).2 [].
Proof.
  intros Hdrv B W Hb Hpre Hm. unfold vfs_mount_devfs. case_if; [apply B|].
  pose proof (mkdir_ok L s b DEV_PATH B (within_fresh _ _ _ W Hb)) as B1.
  pose proof (within_mkdir s U b DEV_PATH W) as W1.
  destruct (vfs_mkdir s b DEV_PATH) as [rc s1]. simpl in *. case_if; [apply B1|].
  destruct (vfs_mount s1 DEVFS_NAME DEV_PATH mount mnt) as [mrc s2] eqn:Hmt.
  pose proof (vs_inv _ _ (bi_sys _ _ B1)) as [K I]. rewrite <- (bi_mounts _ _ B1) in Hm.
  destruct (mount_result _ _ _ _ _ _ _ _ _ _ Hdrv I (Hpre _ W1) Hm Hmt) as (K' & I' & Hk & _).
  assert (vsys_inv s2 []) by (eapply vsys_names; [apply B1|done..]). by case_if.
Qed.

(** ** [vfs_init] *)
Section Init.
Context (initrd : option (list Z)) (root dev : node_blocks) (rmnt dmnt : Z) (b : nat → import_blocks).
Context (mount : vfs_state → Z * Z * vfs_state) (pre : node_store → Prop) `{!FsDriver mount pre}.

Definition root_block (n : Z) : Prop := n ≠ 0 ∧ n = nb_node root.
Definition boot_block (n : Z) : Prop := root_block n ∨ ∃ i, owns (b i) n.

(** The blocks that the heap hands out are new, and the image is one that fits
    in memory. *)
Record boot_blocks : Prop := {
  bb_image : image_blocks b root_block;
  bb_dev : nb_node dev ≠ 0 → ¬ boot_block (nb_node dev);
  bb_mount : ∀ N, (∀ n, is_Some (N !! n) → boot_block n ∨ n ≠ 0 ∧ n = nb_node dev) → pre N;
  bb_records : dmnt ≠ rmnt;
  bb_initrd : ∀ img, initrd = Some img →
    Z.of_nat (length img) ≤ 9223372036854775808 ∧ Forall (λ z, in_u8 z) img
}.

Lemma init_result :
  boot_blocks → rmnt ≠ 0 → nb_node root ≠ 0 → nb_inode root = true →
  ∃ s', vfs_init (boot_vfs initrd) root rmnt b dev mount dmnt = Some (RDNX_OK, s') ∧ vsys_inv s' [].
Proof using All.
  intros [E1 E2 E3 E4 E5] Hr Hn Hi. unfold vfs_init. cbn [vfs_ready boot_vfs].
  set (s0 := (vfs_register_fs _ EXT2_NAME).2).
  assert (s0 = (boot_vfs initrd) <| vfs_fs_drivers := [RAMFS_NAME; DEVFS_NAME; EXT2_NAME] |>) as -> by reflexivity.
  rewrite (mount_root_eq _ root rmnt) by (reflexivity || done). rewrite Z.eqb_refl. cbn [negb].
  match goal with |- context [vfs_cache_reset ?s] => set (s1 := s) end.
  assert (boot_inv [rmnt] (vfs_cache_reset s1)) as B.
  { apply (root_mounted s1 (nb_node root) rmnt RAMFS_NAME); try done. by apply lookup_total_insert_eq. }
  assert (within (vfs_cache_reset s1) root_block) as W.
  { intros n. change (nodes (vfs_cache_reset s1)) with (<[nb_node root := new_vnode ROOT_NAME VFS_NODE_DIR]> (∅ : node_store)).
    intros [x [[<- _]|[_ H]]%lookup_insert_Some]; [by split|done]. }
  destruct (import_ok [rmnt] b root_block _ E1 B W E5) as (rc & s2 & -> & B2 & W2).
  eexists. split; [done|]. apply (mount_devfs_ok mount pre [rmnt] _ dev dmnt boot_block); try done.
  - destruct B2 as [M2 [[K I2] D2 _] A2]. split; [done| |done]. split; [|done|done].
    exists K. apply (inv_frame s2 _ K (refs_of [])); try done; [|apply I2|apply I2].
    split; try done. intros n x Hx Hu. by exists x.
  - by intros ->%list_elem_of_singleton.
Qed.
End Init.

End VfsBoot.

(** * What the VFS promises

    The theorems on the operations in terms of the abstract file system: the
    namespace is the function [vfs_find_child] from a directory and a name to a
    node, a path is looked up by walking along its components, and a file is
    the sequence of its bytes. *)
Module VfsSpec.
Import PathSpec Vfs VfsFile VfsFacts VfsTree VfsPath VfsInv VfsOps VfsNames VfsMount VfsData VfsSteps.
Import VfsBoot.

(** The node that a name stands for in a directory, 0 for none. *)
Abbreviation namespace s := (vfs_find_child (nodes s)).

Lemma vsys_tree s fs : vsys_inv s fs → ∃ K, vfs_inv s K (refs_of fs) ∧ tree (nodes s) K.
Proof. intros [[K I] _ _]. exists K. split; [done|apply I]. Qed.

Lemma refs_of_none fs n : refs_of fs n = 0 ↔ ∀ f, f ∈ fs → f_node f ≠ n.
Proof.
  split.
  - intros H0 f Hf <-. pose proof (refs_of_pos fs f Hf). lia.
  - induction fs as [|f fs IH]; intros Hf; [done|]. rewrite refs_of_cons. unfold radd.
    rewrite decide_False by (intros E; apply (Hf f); [left|done]). apply IH. intros g Hg. apply Hf. by right.
Qed.

(** ** Reachable states *)


(** ** Paths *)

(** C17. Looking a path up through the cache finds the node that a walk along the
    components of the path finds (no component of the path is longer than 31
    characters in effect), for every path but those of 63 characters; nothing
    but the cache changes. *)
Theorem vfs_lookup_correct s fs path :
  vsys_inv s fs → vfs_root s ≠ 0 → length path ≠ 63%nat →
  (vfs_lookup s path).1 = walk s (vfs_root s) (comps path) ∧
  nodes (vfs_lookup s path).2 = nodes s ∧ vsys_inv (vfs_lookup s path).2 fs.
Proof.
  intros V Hr Hl. destruct (vsys_tree _ _ V) as (K & I & _).
  destruct (vfs_lookup s path) as [n s1] eqn:H.
  destruct (vfs_lookup_result _ _ _ _ _ _ I H) as (_ & F & _ & Hw). simpl.
  split; [auto|]. split; [apply (lf_nodes _ _ F)|]. by eapply vsys_lookup.
Qed.

(** ** Names *)

(** [vfs_mkdir] adds one entry, a directory, or changes nothing; it succeeds
    without a change when the name is there. *)
Theorem vfs_mkdir_correct s fs b path rc s' :
  vsys_inv s fs → fresh_node b s → vfs_mkdir s b path = (rc, s') →
  vsys_inv s' fs ∧
  ((s' = s ∧ (rc = RDNX_OK → path = [SLASH] ∨
      ∃ d leaf, vfs_resolve_parent s path = (d, leaf) ∧ namespace s d leaf ≠ 0)) ∨
   (rc = RDNX_OK ∧ ∃ d leaf, vfs_resolve_parent s path = (d, leaf) ∧ namespace s d leaf = 0 ∧
      (∀ e nm, namespace s' e nm = ns_set d leaf (nb_node b) (namespace s) e nm) ∧
      is_dir (nodes s') (nb_node b) = true)).
Proof.
  intros V Hb H. split; [eapply (names_step s b path); eauto|].
  destruct (vsys_tree _ _ V) as (K & I & _).
  destruct (mkdir_result _ _ _ _ _ _ _ I Hb H)
    as [?|(-> & d & leaf & Hp & Hf & _ & _ & Hns & Hd)]; [by left|right]. eauto 10.
Qed.

(** C34. [vfs_unlink] takes the entry of the node that the path stands for out of
    the namespace and changes no other; the node has no children, and it is
    freed at once exactly when no file is open on it.  A call that fails
    changes nothing. *)
Theorem vfs_unlink_correct s fs path rc s' :
  vsys_inv s fs → vfs_unlink s path = (rc, s') →
  vsys_inv s' fs ∧
  (rc ≠ RDNX_OK → nodes s' = nodes s) ∧
  (rc = RDNX_OK → ∃ n d nm, (vfs_lookup s path).1 = n ∧ n ≠ vfs_root s ∧ namespace s d nm = n ∧ n ≠ 0 ∧
     (∀ c, namespace s n c = 0) ∧
     (∀ e nm', namespace s' e nm' = ns_set d nm 0 (namespace s) e nm') ∧
     (nodes s' !! n = None ↔ ∀ f, f ∈ fs → f_node f ≠ n)).
Proof.
  intros V H. split; [eapply (names_step s (mk_node_blocks 0 false) path); eauto|].
  destruct (vsys_tree _ _ V) as (K & I & T).
  destruct (unlink_result _ _ _ _ _ _ I H)
    as [(Hrc & _ & F)|(-> & n & x & K' & Hl & Hr & Hx & Hk & Hp & _ & Hns & Hfree)].
  { split; [by intros _; apply F|done]. }
  split; [done|]. intros _. exists n, (n_parent x), (n_name x).
  assert (n ≠ 0) as Hn by (by eapply tree_nonzero).
  split; [done|]. split; [done|]. split; [|split; [done|]; split; [|split; [done|]]].
  - apply (find_child_spec _ K); [done|done|]. split; [by apply (t_parent _ _ T)|].
    by rewrite (lookup_total_correct _ _ _ Hx).
  - intros c. apply (find_child_none _ K); [done|]. rewrite Hk. intros e He. by apply not_elem_of_nil in He.
  - by rewrite Hfree, refs_of_none.
Qed.

(** C11. [vfs_rename] moves one entry to a name that was free, and the node under it
    keeps its own entries; a call that fails changes nothing. *)
Theorem vfs_rename_correct s fs old_path new_path rc s' :
  vsys_inv s fs → vfs_rename s old_path new_path = (rc, s') →
  vsys_inv s' fs ∧
  ((s' = s ∧ (rc = RDNX_OK → old_path = new_path)) ∨
   (rc = RDNX_OK ∧ ∃ od ol nd nl n,
      vfs_resolve_parent s old_path = (od, ol) ∧ vfs_resolve_parent s new_path = (nd, nl) ∧
      namespace s od ol = n ∧ n ≠ 0 ∧ namespace s nd nl = 0 ∧
      ∀ e nm, namespace s' e nm = ns_set nd nl n (ns_set od ol 0 (namespace s)) e nm)).
Proof.
  intros V H. split; [eapply (names_step s (mk_node_blocks 0 false) old_path); eauto|].
  destruct (vsys_tree _ _ V) as (K & I & _).
  destruct (rename_result _ _ _ _ _ _ _ I H)
    as [?|(-> & od & ol & nd & nl & n & K' & Ho & Hn & Hf & Hn0 & Hfree & _ & Hns)]; [by left|right].
  split; [done|]. exists od, ol, nd, nl, n. done.
Qed.

(** ** Content *)
Section Content.
Context {D : Type} (ops : vfs_ops D).

(** The file of an open handle that is kept in memory. *)
Record open_plain (s : vfs_state) (fs : list vfs_file_t) (f : vfs_file_t) : Prop := {
  op_sys : vsys_inv s fs;
  op_open : f ∈ fs;
  op_plain : plain (n_inode (vnode s (f_node f)))
}.

Definition bytes_of (s : vfs_state) (f : vfs_file_t) : list Z := content (n_inode (vnode s (f_node f))).

Lemma open_plain_node s fs f :
  open_plain s fs f → ∃ x, nodes s !! f_node f = Some x ∧ f_node f ≠ 0 ∧ n_type x = VFS_NODE_FILE ∧
    plain (n_inode x) ∧ inode_ok (n_inode x) ∧ 0 ≤ f_pos f ≤ 9223372036854775808 ∧
    bytes_of s f = content (n_inode x).
Proof.
  intros [V Hin Hp]. destruct (vsys_live s fs f V Hin) as [[Ht Hpos] [x Hx]].
  destruct (vsys_tree _ _ V) as (K & I & T). exists x. unfold bytes_of, vnode in *.
  rewrite (lookup_total_correct _ _ _ Hx) in *. split; [done|].
  split; [by eapply tree_nonzero|]. split; [done|]. split; [done|].
  split; [by apply (vs_data _ _ V (f_node f))|]. auto.
Qed.

(** [vfs_read] returns the bytes at the position, as many as are asked for and
    there are, and moves the position behind them. *)
Theorem vfs_read_correct s fs f dev n bounce :
  open_plain s fs f → 0 ≤ n →
  ∃ out, vfs_read ops s dev f n bounce
         = Some (s32 (Z.of_nat (length out)), out, f <| f_pos := f_pos f + Z.of_nat (length out) |>, dev) ∧
    out = take (Z.to_nat n) (drop (Z.to_nat (f_pos f)) (bytes_of s f)).
Proof.
  intros O Hn. destruct (open_plain_node _ _ _ O) as (x & Hx & H0 & Ht & Hp & Hok & Hpos & ->).
  apply read_result; try done. lia.
Qed.

Lemma write_bytes s fs f dev buf blk :
  open_plain s fs f → f_writable f = true → allocates blk →
  f_pos f ≤ Z.of_nat (length (bytes_of s f)) →
  f_pos f + Z.of_nat (length buf) ≤ 9223372036854775808 →
  ∃ x i, nodes s !! f_node f = Some x ∧
    vfs_write ops s dev f buf blk
      = Some (s32 (Z.of_nat (length buf)), f <| f_pos := f_pos f + Z.of_nat (length buf) |>,
              inode_upd (f_node f) (λ _, i) s, dev) ∧
    content i = take (Z.to_nat (f_pos f)) (bytes_of s f) ++ buf
                ++ drop (Z.to_nat (f_pos f) + length buf) (bytes_of s f) ∧
    plain i ∧ inode_ok i.
Proof.
  intros O Hw Hb Hle Hlen. destruct (open_plain_node _ _ _ O) as (x & Hx & H0 & Ht & Hp & Hok & Hpos & E).
  destruct (write_result ops s dev f x buf blk)
    as (i & g & Heq & Hiok & Hpi & _ & Hs & Hd & Hgok & Hgc & Hgs & Hcap & _); try done; [lia|].
  exists x, i. split; [done|]. split; [done|]. split; [|done].
  rewrite E, <- Hgc in *. unfold content in Hle. rewrite length_take in Hle. pose proof (proj1 Hgok).
  apply (splice_content g i (f_pos f) buf); try done; [lia|by rewrite Hgs|lia].
Qed.

(** [vfs_write] within the file or at its end replaces the bytes at the
    position and appends the rest, whatever it takes to make room; no other
    file and no name changes. *)
Theorem vfs_write_correct s fs f dev buf blk :
  open_plain s fs f → f_writable f = true → allocates blk →
  f_pos f ≤ Z.of_nat (length (bytes_of s f)) →
  f_pos f + Z.of_nat (length buf) ≤ 9223372036854775808 →
  ∃ s', vfs_write ops s dev f buf blk
        = Some (s32 (Z.of_nat (length buf)), f <| f_pos := f_pos f + Z.of_nat (length buf) |>, s', dev) ∧
    bytes_of s' f = take (Z.to_nat (f_pos f)) (bytes_of s f) ++ buf
                    ++ drop (Z.to_nat (f_pos f) + length buf) (bytes_of s f) ∧
    (∀ m, m ≠ f_node f → nodes s' !! m = nodes s !! m) ∧ (∀ d nm, namespace s' d nm = namespace s d nm).
Proof.
  intros O Hw Hb Hle Hlen. destruct (write_bytes s fs f dev buf blk) as (x & i & Hx & Heq & Hc & _); try done.
  destruct (vsys_tree _ _ (op_sys _ _ _ O)) as (K & I & T).
  eexists. split; [exact Heq|]. unfold bytes_of at 1, vnode. simpl.
  rewrite (lookup_total_correct _ _ (x <| n_inode := i |>)) by (by rewrite lookup_alter_eq, Hx).
  split; [exact Hc|]. split.
  - intros m Hm. by rewrite lookup_alter_ne.
  - intros d nm. apply (find_child_ext _ _ K); [done| |].
    + apply (tree_same_links (nodes s)); [|done]. by apply alter_links.
    + intros c _. by apply (alter_total_proj n_name).
Qed.


(** The calls on names leave the open files as they are: what is read from a
    file does not depend on whether its name was moved or removed. *)
Theorem open_files_keep_content s fs f b path rc s' dev n bounce :
  open_plain s fs f →
  (fresh_node b s ∧ vfs_mkdir s b path = (rc, s')) ∨ vfs_unlink s path = (rc, s') ∨
  (∃ new_path, vfs_rename s path new_path = (rc, s')) →
  open_plain s' fs f ∧ bytes_of s' f = bytes_of s f ∧
  vfs_read ops s' dev f n bounce = vfs_read ops s dev f n bounce.
Proof.
  intros O H. pose proof (names_step s b path fs rc s' (op_sys _ _ _ O) H) as V'.
  assert (keeps s s') as Hk.
  { destruct (vsys_tree _ _ (op_sys _ _ _ O)) as (K & I & _). destruct H as [[Hb H]|[H|[new_path H]]].
    - pose proof (mkdir_keeps s b path Hb) as Hk. by rewrite H in Hk.
    - pose proof (unlink_keeps s path) as Hk. rewrite H in Hk. apply Hk.
      destruct (vfs_lookup s path) as [k s1] eqn:Hl.
      destruct (vfs_lookup_result _ _ _ _ _ _ I Hl) as (_ & F & _). apply (lf_nodes _ _ F).
    - pose proof (rename_keeps s path new_path) as Hk. by rewrite H in Hk. }
  destruct (open_plain_node _ _ _ O) as (x & Hx & H0 & _ & Hp & _ & _ & E).
  destruct (vsys_live _ _ _ V' (op_open _ _ _ O)) as [_ [x' Hx']].
  pose proof (Hk _ _ Hx') as Hk'. rewrite Hx in Hk'. destruct Hk' as [Et Ei].
  unfold bytes_of, vnode in *.
  assert (n_inode (nodes s' !!! f_node f) = n_inode (nodes s !!! f_node f)) as En.
  { by rewrite (lookup_total_correct _ _ _ Hx), (lookup_total_correct _ _ _ Hx'). }
  split; [split; [done|apply O|by unfold vnode; rewrite En; apply O]|]. split; [by rewrite En|].
  unfold vfs_read, vnode. rewrite En, (lookup_total_correct _ _ _ Hx).
  destruct Hp as (_ & -> & -> & -> & ->). done.
Qed.

(** C35. The block of a file is found in finite time for sizes up to 2^63; the loop
    that doubles the capacity never ends for a larger one. *)
Theorem vfs_grow_file_terminates s n x needed blk :
  nodes s !! n = Some x → n_type x = VFS_NODE_FILE → n ≠ 0 → inode_ok (n_inode x) → in_u64 needed →
  ((∃ r, vfs_grow_file s n needed blk = Some r) ↔ needed ≤ 9223372036854775808) ∧
  (9223372036854775808 < needed →
   ∀ fuel, grow_cap fuel (if negb (i_capacity (n_inode x) =? 0) then i_capacity (n_inode x) else 64) needed = None).
Proof.
  intros Hx Ht Hn Hok Hneed.
  set (c0 := if negb (i_capacity (n_inode x) =? 0) then i_capacity (n_inode x) else 64).
  assert (c0 = 0 ∨ ∃ k, 0 ≤ k ≤ 63 ∧ c0 = 2 ^ k) as Hc0.
  { right. unfold c0. destruct (Z.eqb_spec (i_capacity (n_inode x)) 0) as [|Hne]; simpl; [by exists 6|].
    destruct Hok as (_ & [?|(k & Hk & ->)] & _); [done|]. exists k. split; [lia|done]. }
  split; [|intros Hbig fuel; by apply grow_cap_diverges].
  split.
  - intros [r Hr]. destruct (Z.le_gt_cases needed 9223372036854775808) as [|Hbig]; [done|]. exfalso.
    revert Hr. unfold vfs_grow_file, vnode, is_dir. rewrite (lookup_total_correct _ _ _ Hx).
    rewrite (proj2 (Z.eqb_neq n 0)), bool_decide_eq_false_2 by congruence. simpl.
    pose proof (capacity_bound _ (proj1 (proj2 Hok))).
    rewrite (proj2 (Z.leb_gt needed _)) by lia. fold c0. by rewrite grow_cap_diverges.
  - intros Hle. pose proof (grow_returns s n x needed blk Hx Hok ltac:(lia)) as H.
    destruct (vfs_grow_file s n needed blk); [by eexists|done].
Qed.

End Content.

End VfsSpec.
