(* ===== verification/VfsDemo.v ===== *)
(** * The VFS on concrete states

    A boot without an image, a few calls, and the theorems applied there.  The
    last part are behaviours of the code that its callers do not expect. *)

From stdpp Require Import base gmap list numbers fin_maps relations.
From S2P Require Import Prelude PathSpec Vfs VfsFile VfsMount VfsFacts VfsTree VfsOps VfsNames VfsSteps.
From S2P Require Import VfsSpec.

Module VfsDemo.
Import PathSpec Vfs VfsFile Devfs VfsFacts VfsTree VfsPath VfsInv VfsOps VfsNames VfsMount VfsData VfsSteps.
Import VfsBoot VfsSpec.

(** ** A boot *)

(** No device answers. *)
Definition ops : vfs_ops unit :=
  mk_ops unit (λ d _ _, Some (0, [], d)) (λ d buf, (Z.of_nat (length buf), d)) (λ _ _, None)
    (λ _ _ _, (RDNX_E_GENERIC, [])) (λ d _ _ _ _, (RDNX_E_GENERIC, d)) (λ d _ _, (RDNX_E_GENERIC, d))
    (λ d _ _ _ _, (RDNX_E_GENERIC, d)).

Definition nb (a : Z) : node_blocks := mk_node_blocks a true.
Definition no_blocks (_ : nat) : import_blocks :=
  mk_import_blocks (λ _, mk_node_blocks 0 false) (mk_node_blocks 0 false) (λ _, None).
Definition dev_blocks (k : nat) : node_blocks := nb (2000 + Z.of_nat k).
Definition devfs : vfs_state → Z * Z * vfs_state := λ s, (devfs_mount (mk_devfs 0 []) s dev_blocks).1.

(** The heap has any block; it holds old bytes. *)
Definition heap_block : data_block := λ n, if 0 <=? n then Some (replicate (Z.to_nat n) 165) else None.

Lemma heap_allocates : allocates heap_block.
Proof.
  intros n Hn. unfold heap_block. rewrite (proj2 (Z.leb_le 0 n)) by done. eexists. split; [done|].
  rewrite length_replicate. lia.
Qed.

Lemma heap_ok : block_ok heap_block.
Proof.
  intros n b. unfold heap_block. case_if; bool_hyps; [|done]. intros [= <-]. rewrite length_replicate. lia.
Qed.

Definition booted : vfs_state :=
  match vfs_init (boot_vfs None) (nb 1000) 3000 no_blocks (nb 1001) devfs 3001 with
  | Some (_, s) => s
  | None => boot_vfs None
  end.

#[export] Instance devfs_promise : FsDriver devfs (blocks_new dev_blocks).
Proof. by apply devfs_driver. Qed.

Lemma boot_blocks_new : boot_blocks None (nb 1000) (nb 1001) 3000 3001 no_blocks (blocks_new dev_blocks).
Proof.
  assert (∀ i n, ¬ owns (no_blocks i) n) as Ho.
  { intros i n [Hn [->|[k ->]]]; done. }
  split.
  - split; [|intros i j n Hi; by destruct (Ho i n)]. intros i. split; try done.
    intros n Hn. by destruct (Ho i n).
  - intros _ [[_ ?]|[i Hi]]; [done|by destruct (Ho i 1001)].
  - intros N HN. split.
    + intros k _. apply eq_None_not_Some. intros Hs. unfold dev_blocks in Hs. cbn in Hs.
      destruct (HN _ Hs) as [[[_ H]|[i Hi]]|[_ H]]; [cbn in H; lia|by eapply Ho|cbn in H; lia].
    + unfold dev_blocks. cbn. lia.
  - done.
  - done.
Qed.

(** ** Calls *)
Definition opened_file (r : option (Z * vfs_file_t * vfs_state * unit)) : vfs_file_t :=
  match r with Some (_, f, _, _) => f | None => no_file end.
Definition opened_state (r : option (Z * vfs_file_t * vfs_state * unit)) : vfs_state :=
  match r with Some (_, _, s, _) => s | None => boot_vfs None end.

Definition M_PATH : list Z := [47; 109].
Definition F_PATH : list Z := [47; 109; 47; 102].
Definition G_PATH : list Z := [47; 103].

Definition s_dir : vfs_state := (vfs_mkdir booted (nb 1100) M_PATH).2.
Definition CREATE : Z := Z.lor VFS_OPEN_CREATE VFS_OPEN_WRITE.
Definition open_f := vfs_open ops s_dir tt (nb 1101) F_PATH CREATE no_file heap_block.
Definition file_f : vfs_file_t := opened_file open_f.
Definition s_file : vfs_state := opened_state open_f.
Definition write_f := vfs_write ops s_file tt file_f [1; 2; 3] heap_block.
Definition file_w : vfs_file_t := opened_file write_f.
Definition s_written : vfs_state := opened_state write_f.

Lemma reach_file : rtc (vstep ops) (booted, [], tt) (s_file, [file_f], tt).
Proof.
  apply (rtc_l _ _ (s_dir, [], tt)).
  { apply (vs_mkdir ops _ _ _ (nb 1100) M_PATH RDNX_OK); [intros _; vm_compute; reflexivity|].
    vm_compute. reflexivity. }
  apply rtc_once.
  apply (vs_open ops s_dir tt [] (nb 1101) F_PATH CREATE no_file heap_block RDNX_OK file_f s_file tt).
  - intros _. vm_compute. reflexivity.
  - apply heap_ok.
  - vm_compute. reflexivity.
  - vm_compute. reflexivity.
Qed.

Lemma some_pair {A B} (a : A) (b c : B) : Some (a, b) = Some (a, c) → b = c.
Proof. congruence. Qed.

Lemma booted_result :
  vfs_init (boot_vfs None) (nb 1000) 3000 no_blocks (nb 1001) devfs 3001 = Some (RDNX_OK, booted).
Proof. vm_compute. reflexivity. Qed.

Lemma inv_booted : vsys_inv booted [].
Proof.
  destruct (init_result None (nb 1000) (nb 1001) 3000 3001 no_blocks devfs (blocks_new dev_blocks)
              boot_blocks_new ltac:(done) ltac:(done) eq_refl) as (s0 & H0 & H).
  rewrite booted_result in H0. apply some_pair in H0. by rewrite H0.
Qed.

Lemma inv_file : vsys_inv s_file [file_f].
Proof. exact (vsteps_inv ops _ _ _ _ _ _ inv_booted reach_file). Qed.

Lemma inv_dir : vsys_inv s_dir [].
Proof.
  apply (names_step booted (nb 1100) M_PATH [] RDNX_OK); [apply inv_booted|left].
  split; [intros _|]; vm_compute; reflexivity.
Qed.

Lemma plain_file : open_plain s_file [file_f] file_f.
Proof. split; [apply inv_file|left|]. vm_compute. repeat split; discriminate. Qed.


Lemma vfs_lookup_witness :
  (vfs_lookup s_file F_PATH).1 = 1101 ∧ walk s_file (vfs_root s_file) (comps F_PATH) = 1101.
Proof.
  destruct (vfs_lookup_correct s_file [file_f] F_PATH inv_file) as [H _]; [vm_compute; discriminate..|].
  rewrite H. split; vm_compute; reflexivity.
Defined.

Lemma vfs_mkdir_witness : namespace booted 1000 [109] = 0 ∧ namespace s_dir 1000 [109] = 1100.
Proof.
  destruct (vfs_mkdir_correct booted [] (nb 1100) M_PATH RDNX_OK s_dir inv_booted) as [_ [[H _]|H]].
  - intros _. vm_compute. reflexivity.
  - vm_compute. reflexivity.
  - apply (f_equal (λ s, namespace s 1000 [109])) in H. vm_compute in H. discriminate.
  - destruct H as (_ & d & leaf & Hp & H0 & Hns & _). vm_compute in Hp. injection Hp as <- <-.
    split; [exact H0|]. rewrite Hns. reflexivity.
Defined.

Definition s_unlinked : vfs_state := (vfs_unlink s_file F_PATH).2.

Lemma vfs_unlink_witness : namespace s_unlinked 1100 [102] = 0 ∧ is_Some (nodes s_unlinked !! 1101).
Proof.
  destruct (vfs_unlink_correct s_file [file_f] F_PATH RDNX_OK s_unlinked inv_file) as (_ & _ & H);
    [vm_compute; reflexivity|].
  destruct (H eq_refl) as (n & d & nm & Hl & _ & _ & _ & _ & _ & Hfree). vm_compute in Hl. subst n.
  split; [vm_compute; reflexivity|]. apply not_eq_None_Some. intros E. apply (proj1 Hfree E file_f); [left|].
  vm_compute. reflexivity.
Defined.

Definition s_moved : vfs_state := (vfs_rename s_file F_PATH G_PATH).2.

Lemma vfs_rename_witness : namespace s_moved 1100 [102] = 0 ∧ namespace s_moved 1000 [103] = 1101.
Proof.
  destruct (vfs_rename_correct s_file [file_f] F_PATH G_PATH RDNX_OK s_moved inv_file) as [_ [[_ H]|H]].
  - vm_compute. reflexivity.
  - specialize (H eq_refl). discriminate.
  - destruct H as (_ & od & ol & nd & nl & n & Ho & Hn & Hf & _ & _ & Hns).
    vm_compute in Ho, Hn. injection Ho as <- <-. injection Hn as <- <-. vm_compute in Hf. subst n.
    rewrite !Hns. split; reflexivity.
Defined.

Lemma vfs_write_witness :
  bytes_of s_file file_f = [] ∧ bytes_of s_written file_f = [1; 2; 3].
Proof.
  destruct (vfs_write_correct ops s_file [file_f] file_f tt [1; 2; 3] heap_block plain_file)
    as (s' & Hw & Hb & _); [vm_compute; reflexivity|apply heap_allocates|vm_compute; discriminate..|].
  assert (s' = s_written) as -> by (unfold s_written, write_f; by rewrite Hw).
  rewrite Hb. split; vm_compute; reflexivity.
Defined.

Lemma vfs_read_witness :
  ∃ out, vfs_read ops s_file tt file_f 5 true = Some (0, out, file_f, tt) ∧ out = [].
Proof.
  destruct (vfs_read_correct ops s_file [file_f] file_f tt 5 true plain_file) as (out & Hr & Ho); [lia|].
  assert (out = []) as -> by (rewrite Ho; vm_compute; reflexivity). exists []. split; [|reflexivity].
  rewrite Hr. vm_compute. reflexivity.
Defined.


Lemma open_files_keep_witness :
  bytes_of s_unlinked file_f = bytes_of s_file file_f ∧ open_plain s_unlinked [file_f] file_f.
Proof.
  destruct (open_files_keep_content ops s_file [file_f] file_f (nb 1) F_PATH RDNX_OK s_unlinked tt 5 true
              plain_file) as (H1 & H2 & _); [right; left; vm_compute; reflexivity|]. split; [exact H2|exact H1].
Defined.

Lemma vfs_grow_file_witness :
  (∃ r, vfs_grow_file s_file 1101 4096 heap_block = Some r) ∧
  ∀ fuel, grow_cap fuel 64 9223372036854775809 = None.
Proof.
  destruct (open_plain_node _ _ _ plain_file) as (x & Hx & H0 & Ht & _ & Hok & _).
  assert (x = nodes s_file !!! 1101) as -> by (symmetry; by apply lookup_total_correct).
  split.
  - apply (vfs_grow_file_terminates s_file 1101 _ 4096 heap_block Hx Ht H0 Hok); lia.
  - intros fuel.
    exact (proj2 (vfs_grow_file_terminates s_file 1101 _ 9223372036854775809 heap_block Hx Ht H0 Hok
                    ltac:(lia)) ltac:(lia) fuel).
Defined.

(** ** Surprises *)

(** The paths [/d.../e.../a...] with components of 20 characters, and with one
    more in the last. *)
Definition part20 (c : Z) : list Z := replicate 20 c.
Definition DIR1 : list Z := SLASH :: part20 100.
Definition DIR2 : list Z := DIR1 ++ SLASH :: part20 101.
Definition PATH63 : list Z := DIR2 ++ SLASH :: part20 97.
Definition PATH64 : list Z := PATH63 ++ [97].

Definition s_long : vfs_state :=
  let s := (vfs_mkdir booted (nb 1200) DIR1).2 in
  let s := (vfs_mkdir s (nb 1201) DIR2).2 in
  let s := opened_state (vfs_open ops s tt (nb 1202) PATH63 CREATE no_file heap_block) in
  opened_state (vfs_open ops s tt (nb 1203) PATH64 CREATE no_file heap_block).

(** The cache keeps the first 63 characters of a path: once the longer path was
    looked up, its node is what the shorter one stands for. *)
Theorem cache_answers_for_prefix :
  length PATH63 = 63%nat ∧ walk s_long (vfs_root s_long) (comps PATH63) = 1202 ∧
  let s := (vfs_lookup s_long PATH64).2 in
  (vfs_lookup s_long PATH63).1 = 1202 ∧ (vfs_lookup s PATH63).1 = 1203 ∧
  walk s (vfs_root s) (comps PATH63) = 1202.
Proof. vm_compute. repeat split. Qed.

(** Writing behind the end of a file leaves what the heap block held before in
    the gap, and it is read back. *)
Theorem write_gap_shows_heap :
  ∃ f1 s1 f2, vfs_seek s_file file_f 4 0 = (RDNX_OK, 4, f1) ∧
    vfs_write ops s_file tt f1 [9] heap_block = Some (1, f2, s1, tt) ∧
    bytes_of s1 file_f = [165; 165; 165; 165; 9].
Proof. do 3 eexists. split; [vm_compute; reflexivity|]. split; [vm_compute; reflexivity|]. vm_compute. reflexivity. Qed.

(** A second mount on a directory succeeds, and lookups still end in the first
    one. *)
Theorem second_mount_without_effect :
  ∃ s1 s2, vfs_mount_ramfs s_dir (nb 1300) M_PATH 3002 = (RDNX_OK, s1) ∧
    (vfs_lookup s1 M_PATH).1 = 1300 ∧
    vfs_mount_ramfs s1 (nb 1301) M_PATH 3003 = (RDNX_OK, s2) ∧ (vfs_lookup s2 M_PATH).1 = 1300.
Proof.
  do 2 eexists. split; [vm_compute; reflexivity|]. split; [vm_compute; reflexivity|].
  split; [vm_compute; reflexivity|]. vm_compute. reflexivity.
Qed.

Definition A_PATH : list Z := [47; 97].
Definition AM_PATH : list Z := [47; 97; 47; 109].
Definition AMX_PATH : list Z := [47; 97; 47; 109; 47; 120].
Definition s_below : vfs_state :=
  let s := (vfs_mkdir booted (nb 1400) A_PATH).2 in
  let s := (vfs_mkdir s (nb 1401) AM_PATH).2 in
  (vfs_mount_ramfs s (nb 1402) AM_PATH 3004).2.

(** A directory can be moved into a file system that is mounted below it: the
    search for an ancestor ends at the root of the mount.  Nothing below it can
    be reached then. *)
Theorem rename_into_own_mount :
  ∃ s', vfs_rename s_below A_PATH AMX_PATH = (RDNX_OK, s') ∧
    (vfs_lookup s_below AM_PATH).1 = 1402 ∧ (vfs_lookup s' A_PATH).1 = 0 ∧
    (vfs_lookup s' AMX_PATH).1 = 0 ∧ is_Some (nodes s' !! 1400).
Proof.
  eexists. split; [vm_compute; reflexivity|]. split; [vm_compute; reflexivity|].
  split; [vm_compute; reflexivity|]. split; [vm_compute; reflexivity|]. vm_compute. by eexists.
Qed.

End VfsDemo.



