(* ===== verification/UnixPipe.v ===== *)
(** * Pipes (kernel/unix/fd/unix_fd.c)

    The ring buffer of a pipe with its counts of readers and writers.  A read
    or write of several bytes takes the lock once per byte; between two bytes
    other threads may run.  [pipe_read_loop] and [pipe_write_loop] are calls
    that run without interference up to their end or to the first
    [scheduler_yield]; [pstep] is the interleaving of any number of calls, byte
    by byte.  Both are related to a queue of at most 4096 bytes. *)

From stdpp Require Import base list numbers relations.
From S2P Require Import Prelude.

Module UnixPipe.

Definition UNIX_PIPE_CAP : Z := 4096.
Definition UNIX_PIPE_MAGIC : Z := 1346981957.
Definition UNIX_FD_KIND_NONE : Z := 0.
Definition UNIX_FD_KIND_VFS : Z := 1.
Definition UNIX_FD_KIND_PIPE_R : Z := 2.
Definition UNIX_FD_KIND_PIPE_W : Z := 3.
Definition UNIX_FD_KIND_SOCKET : Z := 4.

Record unix_pipe_t := mk_pipe {
  p_magic : Z;
  p_readers : Z;
  p_writers : Z;
  p_head : Z;
  p_tail : Z;
  p_count : Z;
  p_data : list Z
}.

#[export] Instance pipe_eta : EtaRecord unix_pipe_t :=
  λ p, mk_pipe (p_magic p) (p_readers p) (p_writers p) (p_head p) (p_tail p) (p_count p) (p_data p).
#[export] Instance pipe_inhabited : Inhabited unix_pipe_t := populate (mk_pipe 0 0 0 0 0 0 []).

(** The fields that [unix_fs_pipe] sets; [data] is the old content of the
    block. *)
Definition new_pipe (data : list Z) : unix_pipe_t := mk_pipe UNIX_PIPE_MAGIC 1 1 0 0 0 data.

Definition unix_pipe_retain (p : unix_pipe_t) (kind : Z) : unix_pipe_t :=
  if negb (p_magic p =? UNIX_PIPE_MAGIC) then p
  else if kind =? UNIX_FD_KIND_PIPE_R then p <| p_readers ::= λ n, n +₃₂ 1 |>
  else if kind =? UNIX_FD_KIND_PIPE_W then p <| p_writers ::= λ n, n +₃₂ 1 |>
  else p.

(** [None]: the pipe is freed. *)
Definition unix_pipe_release (p : unix_pipe_t) (kind : Z) : option unix_pipe_t :=
  if negb (p_magic p =? UNIX_PIPE_MAGIC) then Some p
  else
    let p := if kind =? UNIX_FD_KIND_PIPE_R then
               (if 0 <? p_readers p then p <| p_readers ::= λ n, n - 1 |> else p)
             else if kind =? UNIX_FD_KIND_PIPE_W then
               (if 0 <? p_writers p then p <| p_writers ::= λ n, n - 1 |> else p)
             else p in
    if (p_readers p =? 0) && (p_writers p =? 0) then None else Some p.

(** ** One byte *)

(** The critical section of a read: the byte, if there is one. *)
Definition pipe_take (p : unix_pipe_t) : option Z * unix_pipe_t :=
  if 0 <? p_count p then
    (Some (p_data p !!! Z.to_nat (p_tail p)),
     p <| p_tail ::= λ t, (t +₃₂ 1) mod UNIX_PIPE_CAP |> <| p_count ::= λ c, c - 1 |>)
  else (None, p).

(** That of a write: whether the byte was stored. *)
Definition pipe_put (p : unix_pipe_t) (ch : Z) : bool * unix_pipe_t :=
  if (0 <? p_readers p) && (p_count p <? UNIX_PIPE_CAP) then
    (true, p <| p_data ::= <[Z.to_nat (p_head p) := ch]> |>
             <| p_head ::= λ h, (h +₃₂ 1) mod UNIX_PIPE_CAP |> <| p_count ::= λ c, c +₃₂ 1 |>)
  else (false, p).

(** What a call does behind the critical section. *)
Inductive io_next :=
| IoMore
| IoReturn (r : Z)
| IoYield.

Definition read_next (writers : Z) (got : option Z) (done : Z) : io_next :=
  match got with
  | Some _ => IoMore
  | None => if writers =? 0 then IoReturn done else if 0 <? done then IoReturn done else IoYield
  end.

Definition write_next (readers : Z) (pushed : bool) (done : Z) : io_next :=
  if readers =? 0 then IoReturn (if 0 <? done then done else u64 RDNX_E_INVALID)
  else if pushed then IoMore
  else if 0 <? done then IoReturn done
  else IoYield.

(** ** Whole calls

    [n] bytes of the buffer are left, [out] were read.  [None]: the call
    yields; nothing was read then, and it goes on from its start. *)
Fixpoint pipe_read_loop (n : nat) (p : unix_pipe_t) (out : list Z) : option (list Z) * unix_pipe_t :=
  match n with
  | O => (Some out, p)
  | S n =>
      let writers := p_writers p in
      let '(got, p) := pipe_take p in
      match read_next writers got (Z.of_nat (length out)), got with
      | IoMore, Some ch => pipe_read_loop n p (out ++ [ch])
      | IoYield, _ => (None, p)
      | _, _ => (Some out, p)
      end
  end.

(** The result is that of the call. *)
Fixpoint pipe_write_loop (l : list Z) (p : unix_pipe_t) (done : Z) : option Z * unix_pipe_t :=
  match l with
  | [] => (Some done, p)
  | ch :: l =>
      let readers := p_readers p in
      let '(pushed, p) := pipe_put p ch in
      match write_next readers pushed done with
      | IoMore => pipe_write_loop l p (done + 1)
      | IoYield => (None, p)
      | IoReturn r => (Some r, p)
      end
  end.

(** ** The queue *)

(** The bytes in the pipe, the oldest first. *)
Definition pipe_bytes (p : unix_pipe_t) : list Z :=
  (λ k, p_data p !!! Z.to_nat ((p_tail p + Z.of_nat k) mod UNIX_PIPE_CAP)) <$> seq 0 (Z.to_nat (p_count p)).

Record pipe_ok (p : unix_pipe_t) : Prop := {
  po_magic : p_magic p = UNIX_PIPE_MAGIC;
  po_count : 0 ≤ p_count p ≤ UNIX_PIPE_CAP;
  po_tail : 0 ≤ p_tail p < UNIX_PIPE_CAP;
  po_head : p_head p = (p_tail p + p_count p) mod UNIX_PIPE_CAP;
  po_data : length (p_data p) = Z.to_nat UNIX_PIPE_CAP;
  po_readers : in_u32 (p_readers p);
  po_writers : in_u32 (p_writers p)
}.

Lemma new_pipe_ok data : length data = Z.to_nat UNIX_PIPE_CAP → pipe_ok (new_pipe data) ∧ pipe_bytes (new_pipe data) = [].
Proof. intros Hl. split; [|done]. split; unfold new_pipe, UNIX_PIPE_CAP; simpl; done || lia. Qed.

Lemma pipe_bytes_length p : pipe_ok p → Z.of_nat (length (pipe_bytes p)) = p_count p.
Proof. intros K. unfold pipe_bytes. rewrite length_fmap, length_seq. pose proof (po_count _ K). lia. Qed.

Lemma ring_step t : 0 ≤ t < UNIX_PIPE_CAP → (t +₃₂ 1) mod UNIX_PIPE_CAP = (t + 1) mod UNIX_PIPE_CAP.
Proof. intros H. unfold UNIX_PIPE_CAP in *. by rewrite u32_small by lia. Qed.

Lemma pipe_take_ok p :
  pipe_ok p →
  match pipe_bytes p with
  | [] => p_count p = 0 ∧ pipe_take p = (None, p)
  | ch :: l => ∃ p', pipe_take p = (Some ch, p') ∧ pipe_ok p' ∧ pipe_bytes p' = l ∧
                     p_readers p' = p_readers p ∧ p_writers p' = p_writers p
  end.
Proof.
  intros K. pose proof K as [Km Kc Kt Kh Kd Kr Kw]. pose proof (pipe_bytes_length p K) as Hl.
  unfold pipe_take. destruct (pipe_bytes p) as [|ch l] eqn:Hb.
  - simpl in Hl. rewrite <- Hl. done.
  - simpl in Hl. rewrite (proj2 (Z.ltb_lt 0 (p_count p))) by lia.
    unfold field_update. simpl. rewrite ring_step by done.
    unfold pipe_bytes in Hb. destruct (Z.to_nat (p_count p)) as [|c] eqn:Ec; [done|]. simpl in Hb.
    injection Hb as Hch Hbl.
    eexists. split.
    { do 2 f_equal. rewrite <- Hch, Z.add_0_r, Z.mod_small by done. done. }
    assert (p_count p = Z.of_nat c + 1) as Hcc by lia. split; [split|split; [|done]].
    all: try done; simpl.
    + lia.
    + unfold UNIX_PIPE_CAP in *. apply Z.mod_pos_bound. lia.
    + rewrite Kh. unfold UNIX_PIPE_CAP. rewrite Zplus_mod_idemp_l. f_equal. lia.
    + unfold pipe_bytes. simpl. replace (Z.to_nat (p_count p - 1)) with c by lia. rewrite <- Hbl.
      rewrite <- fmap_S_seq, <- list_fmap_compose. apply list_fmap_ext. intros k j _. simpl.
      unfold UNIX_PIPE_CAP. rewrite Zplus_mod_idemp_l. do 3 f_equal. lia.
Qed.

Lemma pipe_put_ok p ch :
  pipe_ok p →
  if bool_decide (p_readers p ≠ 0 ∧ p_count p < UNIX_PIPE_CAP) then
    ∃ p', pipe_put p ch = (true, p') ∧ pipe_ok p' ∧ pipe_bytes p' = pipe_bytes p ++ [ch] ∧
          p_readers p' = p_readers p ∧ p_writers p' = p_writers p ∧ p_count p' = p_count p + 1
  else pipe_put p ch = (false, p).
Proof.
  intros K. pose proof K as [Km Kc Kt Kh Kd Kr Kw]. unfold pipe_put.
  case_bool_decide as E.
  2: { case_if; bool_hyps; [|done]. destruct E. lia. }
  destruct E as [E1 E2]. rewrite (proj2 (Z.ltb_lt 0 _)), (proj2 (Z.ltb_lt (p_count p) _)) by lia. cbn [andb].
  assert (0 ≤ p_head p < UNIX_PIPE_CAP) as Hh.
  { rewrite Kh. unfold UNIX_PIPE_CAP in *. apply Z.mod_pos_bound. lia. }
  unfold field_update. simpl. rewrite ring_step, u32_small by (unfold UNIX_PIPE_CAP in *; lia).
  eexists. split; [done|]. split; [split|split; [|done]]; try done; simpl.
  - lia.
  - rewrite Kh. unfold UNIX_PIPE_CAP. rewrite Zplus_mod_idemp_l. f_equal. lia.
  - by rewrite length_insert.
  - unfold pipe_bytes. simpl. replace (Z.to_nat (p_count p + 1)) with (Z.to_nat (p_count p) + 1)%nat by lia.
    rewrite seq_app, fmap_app. f_equal.
    + apply list_fmap_ext. intros k j Hj. apply lookup_seq in Hj as [-> Hj]. simpl.
      rewrite !list_lookup_total_alt, list_lookup_insert_ne; [done|]. rewrite Kh.
      unfold UNIX_PIPE_CAP in *.
      intros Eq. apply Z2Nat.inj in Eq; [|apply Z.mod_pos_bound; lia..].
      assert (p_count p - Z.of_nat k = 4096 * ((p_count p - Z.of_nat k) / 4096)) as Hd.
      { rewrite <- Z_div_exact_full_2; [done|lia|].
        replace (p_count p - Z.of_nat k) with ((p_tail p + p_count p) - (p_tail p + Z.of_nat k)) by lia.
        rewrite Zminus_mod, Eq, Z.sub_diag. done. }
      assert ((p_count p - Z.of_nat k) / 4096 = 0) by (apply Z.div_small; lia). lia.
    + simpl. f_equal. rewrite Z2Nat.id by lia. rewrite <- Kh.
      rewrite list_lookup_total_alt, list_lookup_insert_eq; [done|].
      rewrite Kd. unfold UNIX_PIPE_CAP in *. lia.
Qed.

(** ** Whole calls *)
Lemma pipe_read_run n p out :
  pipe_ok p →
  ∃ p', pipe_ok p' ∧ p_readers p' = p_readers p ∧ p_writers p' = p_writers p ∧
    pipe_bytes p' = drop n (pipe_bytes p) ∧
    pipe_read_loop n p out =
      (if bool_decide (n ≠ 0%nat ∧ pipe_bytes p = [] ∧ out = [] ∧ p_writers p ≠ 0) then None
       else Some (out ++ take n (pipe_bytes p)), p').
Proof.
  revert p out. induction n as [|n IH]; intros p out K.
  { exists p. rewrite bool_decide_eq_false_2 by naive_solver. simpl. by rewrite app_nil_r. }
  pose proof (pipe_take_ok p K) as Ht. simpl. destruct (pipe_bytes p) as [|ch l] eqn:Hb.
  - destruct Ht as [_ ->]. exists p. rewrite Hb, app_nil_r. split_and!; try done. simpl.
    destruct (Z.eqb_spec (p_writers p) 0) as [E|E]; [by rewrite bool_decide_eq_false_2 by naive_solver|].
    destruct out as [|o out]; [by rewrite bool_decide_eq_true_2|].
    rewrite bool_decide_eq_false_2 by naive_solver. by rewrite (proj2 (Z.ltb_lt 0 _)) by (simpl; lia).
  - destruct Ht as (p1 & -> & K1 & Hb1 & Hr & Hw). simpl.
    destruct (IH p1 (out ++ [ch]) K1) as (p2 & K2 & Hr2 & Hw2 & Hb2 & ->).
    exists p2. rewrite Hr2, Hw2, Hb2, Hb1, Hr, Hw. split_and!; try done.
    rewrite bool_decide_eq_false_2; [by rewrite <- app_assoc|].
    intros (_ & _ & H & _). by apply app_eq_nil in H as [_ H].
Qed.

(** The bytes that fit. *)
Definition pipe_room (p : unix_pipe_t) : nat := Z.to_nat (UNIX_PIPE_CAP - p_count p).

Lemma pipe_write_run l p done :
  pipe_ok p → p_readers p ≠ 0 → 0 ≤ done →
  ∃ p', pipe_ok p' ∧ p_readers p' = p_readers p ∧ p_writers p' = p_writers p ∧
    pipe_bytes p' = pipe_bytes p ++ take (pipe_room p) l ∧
    pipe_write_loop l p done =
      (if bool_decide (l ≠ [] ∧ pipe_room p = 0%nat ∧ done = 0) then None
       else Some (done + Z.of_nat (length (take (pipe_room p) l))), p').
Proof.
  revert p done. induction l as [|ch l IH]; intros p dn K Hr Hd.
  { exists p. rewrite bool_decide_eq_false_2 by naive_solver. rewrite take_nil, app_nil_r. simpl.
    by rewrite Z.add_0_r. }
  pose proof (pipe_put_ok p ch K) as Hp. simpl. pose proof (po_count _ K) as Hc.
  case_bool_decide as E.
  - destruct E as [_ E]. destruct Hp as (p1 & -> & K1 & Hb1 & Hr1 & Hw1 & Hc1).
    unfold write_next. rewrite (proj2 (Z.eqb_neq _ 0)) by done.
    destruct (IH p1 (dn + 1) K1 ltac:(congruence) ltac:(lia)) as (p2 & K2 & Hr2 & Hw2 & Hb2 & ->).
    exists p2. rewrite Hr2, Hw2, Hb2, Hb1, Hr1, Hw1. split_and!; try done.
    + assert (pipe_room p = S (pipe_room p1)) as -> by (unfold pipe_room; rewrite Hc1; lia).
      by rewrite <- app_assoc.
    + assert (pipe_room p = S (pipe_room p1)) as -> by (unfold pipe_room; rewrite Hc1; lia).
      rewrite !bool_decide_eq_false_2; [|naive_solver|lia]. simpl. do 2 f_equal. lia.
  - rewrite Hp. assert (pipe_room p = 0%nat) as -> by (unfold pipe_room, UNIX_PIPE_CAP in *; lia).
    exists p. rewrite app_nil_r. split_and!; try done. unfold write_next.
    rewrite (proj2 (Z.eqb_neq _ 0)) by done. destruct (Z.ltb_spec 0 dn).
    + rewrite bool_decide_eq_false_2 by lia. simpl. by rewrite Z.add_0_r.
    + rewrite bool_decide_eq_true_2; [done|]. split_and!; [done|done|lia].
Qed.

Lemma pipe_write_broken l p :
  pipe_ok p → p_readers p = 0 →
  pipe_write_loop l p 0 = (Some (if bool_decide (l = []) then 0 else u64 RDNX_E_INVALID), p).
Proof.
  intros K Hr. destruct l as [|ch l]; [done|]. simpl. pose proof (pipe_put_ok p ch K) as Hp.
  rewrite bool_decide_eq_false_2 in Hp by naive_solver. rewrite Hp, Hr. done.
Qed.

(** ** Calls that interleave

    A read that wants [left] more bytes, a write that has stored the first
    [k] bytes of [buf], and a call that has returned. *)
Inductive pcall :=
| PReader (left : nat) (got : list Z)
| PWriter (buf : list Z) (k : nat)
| PReturned (result : Z) (got : list Z).

(** The pipe, the calls, and all bytes that were ever stored and taken. *)
Record psys := mk_psys {
  ps_pipe : unix_pipe_t;
  ps_calls : list pcall;
  ps_in : list Z;
  ps_out : list Z
}.

Inductive pstep : psys → psys → Prop :=
| p_read_call p cs i o n : pstep (mk_psys p cs i o) (mk_psys p (cs ++ [PReader n []]) i o)
| p_write_call p cs i o buf : pstep (mk_psys p cs i o) (mk_psys p (cs ++ [PWriter buf 0]) i o)
| p_read_byte p cs i o c n got ch p' :
    cs !! c = Some (PReader (S n) got) → pipe_take p = (Some ch, p') →
    read_next (p_writers p) (Some ch) (Z.of_nat (length got)) = IoMore →
    pstep (mk_psys p cs i o) (mk_psys p' (<[c := PReader n (got ++ [ch])]> cs) i (o ++ [ch]))
| p_read_end p cs i o c n got got' p' r :
    cs !! c = Some (PReader (S n) got) → pipe_take p = (got', p') →
    read_next (p_writers p) got' (Z.of_nat (length got)) = IoReturn r →
    pstep (mk_psys p cs i o) (mk_psys p' (<[c := PReturned r got]> cs) i o)
| p_read_full p cs i o c got :
    cs !! c = Some (PReader 0 got) →
    pstep (mk_psys p cs i o) (mk_psys p (<[c := PReturned (Z.of_nat (length got)) got]> cs) i o)
| p_write_byte p cs i o c buf k ch p' :
    cs !! c = Some (PWriter buf k) → buf !! k = Some ch → pipe_put p ch = (true, p') →
    write_next (p_readers p) true (Z.of_nat k) = IoMore →
    pstep (mk_psys p cs i o) (mk_psys p' (<[c := PWriter buf (S k)]> cs) (i ++ [ch]) o)
| p_write_end p cs i o c buf k ch pushed p' r :
    cs !! c = Some (PWriter buf k) → buf !! k = Some ch → pipe_put p ch = (pushed, p') →
    write_next (p_readers p) pushed (Z.of_nat k) = IoReturn r →
    pstep (mk_psys p cs i o) (mk_psys p' (<[c := PReturned r []]> cs) i o)
| p_write_full p cs i o c buf k :
    cs !! c = Some (PWriter buf k) → buf !! k = None →
    pstep (mk_psys p cs i o) (mk_psys p (<[c := PReturned (Z.of_nat k) []]> cs) i o)
| p_retain p cs i o kind :
    p_readers p < 4294967295 → p_writers p < 4294967295 →
    pstep (mk_psys p cs i o) (mk_psys (unix_pipe_retain p kind) cs i o)
| p_release p cs i o kind p' :
    unix_pipe_release p kind = Some p' → pstep (mk_psys p cs i o) (mk_psys p' cs i o).

(** A call has read a part of what was taken, and stored what its buffer starts
    with. *)
Definition call_ok (i o : list Z) (c : pcall) : Prop :=
  match c with
  | PReader _ got | PReturned _ got => got `sublist_of` o
  | PWriter buf k => take k buf `sublist_of` i ∧ (k ≤ length buf)%nat
  end.

(** What was taken and what is in the pipe is what was stored, in order. *)
Record psys_ok (x : psys) : Prop := {
  px_pipe : pipe_ok (ps_pipe x);
  px_fifo : ps_in x = ps_out x ++ pipe_bytes (ps_pipe x);
  px_calls : Forall (call_ok (ps_in x) (ps_out x)) (ps_calls x)
}.

Lemma retain_pipe_ok p kind :
  pipe_ok p → p_readers p < 4294967295 → p_writers p < 4294967295 →
  pipe_ok (unix_pipe_retain p kind) ∧ pipe_bytes (unix_pipe_retain p kind) = pipe_bytes p.
Proof.
  intros [Km Kc Kt Kh Kd Kr Kw] H1 H2. unfold unix_pipe_retain.
  repeat case_if; (split; [split; try done|done]); unfold field_update; simpl; rewrite u32_small; lia.
Qed.

Lemma release_pipe_ok p kind p' :
  pipe_ok p → unix_pipe_release p kind = Some p' → pipe_ok p' ∧ pipe_bytes p' = pipe_bytes p.
Proof.
  intros [Km Kc Kt Kh Kd Kr Kw]. unfold unix_pipe_release.
  repeat case_if; intros [= <-]; (split; [split; try done|done]); bool_hyps; unfold field_update; simpl; lia.
Qed.

Lemma read_next_end w got k r : read_next w got k = IoReturn r → got = None.
Proof. by destruct got. Qed.

Lemma calls_mono i o a b cs :
  Forall (call_ok i o) cs → Forall (call_ok (i ++ a) (o ++ b)) cs.
Proof.
  intros Hcs. eapply Forall_impl; [exact Hcs|]. intros [n got|buf k|r got]; simpl.
  - intros H. by apply sublist_inserts_r.
  - intros [H ?]. split; [by apply sublist_inserts_r|done].
  - intros H. by apply sublist_inserts_r.
Qed.

Lemma call_at i o cs c a : Forall (call_ok i o) cs → cs !! c = Some a → call_ok i o a.
Proof. intros H Hc. rewrite Forall_forall in H. by eapply H, list_elem_of_lookup_2. Qed.

Lemma pstep_ok x y : psys_ok x → pstep x y → psys_ok y.
Proof.
  intros [K F R] H. destruct H; simpl in *.
  - split; simpl; try done. apply Forall_app. split; [done|]. constructor; [apply sublist_nil_l|done].
  - split; simpl; try done. apply Forall_app. split; [done|]. constructor; [|done].
    split; [apply sublist_nil_l|lia].
  - pose proof (pipe_take_ok p K) as Ht. destruct (pipe_bytes p) as [|b l]; [destruct Ht; congruence|].
    destruct Ht as (p1 & Ht & K1 & Hb & _). rewrite Ht in H0. injection H0 as -> ->.
    split; simpl; [done|by rewrite F, Hb, <- app_assoc|].
    pose proof (calls_mono i o [] [ch] cs R) as R'. rewrite app_nil_r in R'.
    apply Forall_insert; [done|]. pose proof (call_at _ _ _ _ _ R H) as Hc. simpl in *. by apply sublist_app.
  - apply read_next_end in H1 as ->. pose proof (pipe_take_ok p K) as Ht.
    destruct (pipe_bytes p) as [|b l] eqn:Hb; [|destruct Ht as (? & ? & _); congruence].
    destruct Ht as [_ Ht]. rewrite Ht in H0. injection H0 as <-. split; simpl; [done|by rewrite Hb|].
    apply Forall_insert; [done|]. exact (call_at _ _ _ _ _ R H).
  - split; simpl; try done. apply Forall_insert; [done|]. exact (call_at _ _ _ _ _ R H).
  - pose proof (pipe_put_ok p ch K) as Hp. case_bool_decide; [|congruence].
    destruct Hp as (p1 & Hp & K1 & Hb & _). rewrite Hp in H1. injection H1 as ->.
    split; simpl; [done|by rewrite F, Hb, app_assoc|].
    pose proof (calls_mono i o [ch] [] cs R) as R'. rewrite app_nil_r in R'.
    apply Forall_insert; [done|]. pose proof (call_at _ _ _ _ _ R H) as [Hc _]. simpl.
    rewrite (take_S_r _ _ _ H0). split; [by apply sublist_app|]. apply lookup_lt_Some in H0. lia.
  - assert (p' = p) as ->.
    { pose proof (pipe_put_ok p ch K) as Hp. case_bool_decide as E; [|congruence]. exfalso.
      destruct Hp as (p1 & Hp & _). rewrite Hp in H1. injection H1 as <- _.
      unfold write_next in H2. destruct (Z.eqb_spec (p_readers p) 0); [|done]. by destruct E. }
    split; simpl; try done. apply Forall_insert; [done|]. apply sublist_nil_l.
  - split; simpl; try done. apply Forall_insert; [done|]. apply sublist_nil_l.
  - destruct (retain_pipe_ok p kind K H H0) as [K' Hb]. split; simpl; [done|by rewrite Hb|done].
  - destruct (release_pipe_ok p kind p' K H) as [K' Hb]. split; simpl; [done|by rewrite Hb|done].
Qed.

(** C12. A pipe is a queue of at most 4096 bytes, whatever the calls of its readers
    and writers and their interleaving: the bytes that were taken and those in
    the pipe are the ones that were stored, in their order, and every call read
    some of them in that order, or stored a prefix of its buffer in order. *)
Theorem pipe_fifo data x :
  length data = Z.to_nat UNIX_PIPE_CAP → rtc pstep (mk_psys (new_pipe data) [] [] []) x →
  ps_in x = ps_out x ++ pipe_bytes (ps_pipe x) ∧
  (length (pipe_bytes (ps_pipe x)) ≤ Z.to_nat UNIX_PIPE_CAP)%nat ∧
  Forall (call_ok (ps_in x) (ps_out x)) (ps_calls x).
Proof.
  intros Hd H. assert (psys_ok x) as [K F R].
  { assert (psys_ok (mk_psys (new_pipe data) [] [] [])) as H0.
    { destruct (new_pipe_ok data Hd) as [K Hb]. split; simpl; [done|by rewrite Hb|done]. }
    clear Hd. induction H; [done|]. apply IHrtc. by eapply pstep_ok. }
  split; [done|]. split; [|done]. pose proof (pipe_bytes_length _ K). pose proof (po_count _ K). lia.
Qed.

(** A read that is not disturbed returns as many bytes as it can without
    waiting, the oldest ones, and leaves the rest; it yields exactly when it
    wants a byte, there is none and a writer is left. *)
Theorem pipe_read_correct n p :
  pipe_ok p →
  let '(r, p') := pipe_read_loop n p [] in
  pipe_ok p' ∧ pipe_bytes p' = drop n (pipe_bytes p) ∧
  (r = None ↔ n ≠ 0%nat ∧ pipe_bytes p = [] ∧ p_writers p ≠ 0) ∧
  (∀ out, r = Some out → out = take n (pipe_bytes p)).
Proof.
  intros K. destruct (pipe_read_run n p [] K) as (p' & K' & _ & _ & Hb & ->).
  split; [done|]. split; [done|]. case_bool_decide; naive_solver.
Qed.

(** A write that is not disturbed stores as much of the buffer as fits behind
    what is there and returns its length; without a reader it fails, and it
    yields exactly when nothing fits. *)
Theorem pipe_write_correct l p :
  pipe_ok p → l ≠ [] →
  let '(r, p') := pipe_write_loop l p 0 in
  pipe_ok p' ∧
  (if p_readers p =? 0 then r = Some (u64 RDNX_E_INVALID) ∧ p' = p
   else pipe_bytes p' = pipe_bytes p ++ take (pipe_room p) l ∧
        (r = None ↔ pipe_room p = 0%nat) ∧
        (∀ k, r = Some k → k = Z.of_nat (Nat.min (pipe_room p) (length l)))).
Proof.
  intros K Hl. destruct (Z.eqb_spec (p_readers p) 0) as [E|E].
  - rewrite (pipe_write_broken l p K E), bool_decide_eq_false_2 by done. done.
  - destruct (pipe_write_run l p 0 K E) as (p' & K' & _ & _ & Hb & ->); [done|].
    split; [done|]. split; [done|]. rewrite <- length_take. case_bool_decide; naive_solver.
Qed.

End UnixPipe.
