(* ===== verification/UnixFd.v ===== *)
(** * Descriptors of the Unix layer (kernel/unix/fd/unix_fd.c)

    Allocation, duplication and release of descriptors, the copy of a
    descriptor table for a new process, pipes and sockets.  The state joins that of
    the scheduler, whose tasks hold the tables, with the VFS, the blocks of the
    open files, the pipes, the address maps and the user memory of the current
    task, the frames and saved registers of signals, and the futexes.  What
    [kmalloc] returns is an argument, 0 for NULL.

    A system call returns a 64-bit word ([SysRet]); it may wait ([SysWait]),
    and goes on where it was when its thread runs again; it may end its thread,
    which the next interrupt switches away from ([SysExit]); or it leaves what
    the model covers ([SysUndef]): a path that overruns its buffer, or the loop
    for the size of a file that never ends. *)

From stdpp Require Import base gmap list numbers fin_maps.
From S2P Require Import Prelude Sched Task PathSpec Vfs VfsFile UnixPath UnixPipe Vm VmMap.

Module UnixFd.
Import Sched Task PathSpec Vfs VfsFile UnixPath UnixPipe.

Definition UNIX_F_GETFD : Z := 1.
Definition UNIX_F_SETFD : Z := 2.
Definition UNIX_FD_CLOEXEC : Z := 1.
Definition UNIX_O_NONBLOCK : Z := 4.
Definition UNIX_O_CLOEXEC : Z := 1048576.

(** What the Unix layer calls in the network stack and the terminal. *)
Record net_ops (D : Type) := mk_net_ops {
  op_socket_create : D → Z → Z → Z → Z * D;
  op_socket_close : D → Z → D;
  op_socket_bind : D → Z → list Z → Z * D;
  op_socket_connect : D → Z → list Z → Z * D;
  op_socket_sendto : D → Z → list Z → list Z → Z * D;
  op_socket_recvfrom : D → Z → Z → Z → Z * list Z * list Z * D;
  op_tty_lflag : D → Z;
  op_tty_cc : D → Z → Z;
  op_tty_set_lflag : D → Z → D;
  op_tty_set_cc : D → Z → Z → D;
  op_tty_readable : D → bool * D
}.
Arguments op_socket_create {D}. Arguments op_socket_close {D}. Arguments op_socket_bind {D}.
Arguments op_socket_connect {D}. Arguments op_socket_sendto {D}. Arguments op_socket_recvfrom {D}.
Arguments op_tty_lflag {D}. Arguments op_tty_cc {D}. Arguments op_tty_set_lflag {D}.
Arguments op_tty_set_cc {D}. Arguments op_tty_readable {D}.

(** A slot of the futex table. *)
Record unix_futex_slot_t := mk_futex {
  fx_addr : Z;
  fx_waiters : Z;
  fx_gen : Z
}.
#[export] Instance futex_eta : EtaRecord unix_futex_slot_t := λ x, mk_futex (fx_addr x) (fx_waiters x) (fx_gen x).
#[export] Instance futex_inhabited : Inhabited unix_futex_slot_t := populate (mk_futex 0 0 0).

(** [us_files] are the blocks of the open files; a task without an entry in
    [us_maps] has no address map.  [us_arch] is [arch_specific] of the threads
    where it is not NULL, the address of a frame in the words of the kernel
    stacks; [us_saved] is [sig_saved] of the tasks. *)
Record unix_state (D : Type) := mk_unix {
  us_sched : sched_state;
  us_vfs : vfs_state;
  us_dev : D;
  us_files : gmap Z vfs_file_t;
  us_pipes : gmap Z unix_pipe_t;
  us_maps : gmap Z Vm.vm_map_t;
  us_mem : umem;
  us_arch : gmap Z Z;
  us_saved : gmap Z (list Z);
  us_futex : list unix_futex_slot_t
}.
Arguments mk_unix {D}. Arguments us_sched {D}. Arguments us_vfs {D}. Arguments us_dev {D}.
Arguments us_files {D}. Arguments us_pipes {D}. Arguments us_maps {D}. Arguments us_mem {D}.
Arguments us_arch {D}. Arguments us_saved {D}. Arguments us_futex {D}.

#[export] Instance unix_eta D : EtaRecord (unix_state D) :=
  λ u, mk_unix (us_sched u) (us_vfs u) (us_dev u) (us_files u) (us_pipes u) (us_maps u) (us_mem u)
         (us_arch u) (us_saved u) (us_futex u).

Inductive sysres (D : Type) :=
| SysRet (r : Z) (u : unix_state D)
| SysWait (u : unix_state D)
| SysExit (u : unix_state D)
| SysUndef.
Arguments SysRet {D}. Arguments SysWait {D}. Arguments SysExit {D}. Arguments SysUndef {D}.

#[export] Instance file_inhabited : Inhabited vfs_file_t := populate no_file.

Section Fd.
Context {D : Type} (ops : vfs_ops D) (net : net_ops D).
Implicit Types u : unix_state D.

(** [return (uint64_t)rc;] *)
Definition ret (rc : Z) (u : unix_state D) : sysres D := SysRet (u64 rc) u.

Definition utask (u : unix_state D) : Z := current_task (us_sched u).
Definition fd_handle (u : unix_state D) (task fd : Z) : Z := fd_table (tsk (us_sched u) task) !!! Z.to_nat fd.
Definition fd_kind_of (u : unix_state D) (task fd : Z) : Z := fd_kind (tsk (us_sched u) task) !!! Z.to_nat fd.
Definition fd_flags_of (u : unix_state D) (task fd : Z) : Z := fd_flags (tsk (us_sched u) task) !!! Z.to_nat fd.

Definition bad_fd (fd : Z) : bool := (fd <? 0) || (TASK_MAX_FD <=? fd).

(** The three assignments to a slot. *)
Definition set_slot (task fd handle kind flags : Z) (u : unix_state D) : unix_state D :=
  u <| us_sched ::= tsk_upd task (λ x, x <| fd_table ::= <[Z.to_nat fd := handle]> |>
                                         <| fd_kind ::= <[Z.to_nat fd := kind]> |>
                                         <| fd_flags ::= <[Z.to_nat fd := flags]> |>) |>.
Definition set_kind (task fd kind : Z) (u : unix_state D) : unix_state D :=
  u <| us_sched ::= tsk_upd task (λ x, x <| fd_kind ::= <[Z.to_nat fd := kind]> |>) |>.
Definition set_flags (task fd flags : Z) (u : unix_state D) : unix_state D :=
  u <| us_sched ::= tsk_upd task (λ x, x <| fd_flags ::= <[Z.to_nat fd := flags]> |>) |>.

(** [vfs_close (file); kfree (file);] *)
Definition close_file (h : Z) (u : unix_state D) : unix_state D :=
  let '(_, _, s) := vfs_close (us_vfs u) (us_files u !!! h) in
  u <| us_vfs := s |> <| us_files ::= delete h |>.

Definition unix_fd_release (u : unix_state D) (task fd : Z) : unix_state D :=
  if (task =? 0) || bad_fd fd || (fd_handle u task fd =? 0) then u
  else
    let kind := fd_kind_of u task fd in
    let h := fd_handle u task fd in
    let u :=
      if kind =? UNIX_FD_KIND_VFS then close_file h u
      else if (kind =? UNIX_FD_KIND_PIPE_R) || (kind =? UNIX_FD_KIND_PIPE_W) then
        match unix_pipe_release (us_pipes u !!! h) kind with
        | None => u <| us_pipes ::= delete h |>
        | Some p => u <| us_pipes ::= alter (λ _, p) h |>
        end
      else if kind =? UNIX_FD_KIND_SOCKET then u <| us_dev ::= λ d, op_socket_close net d h |>
      else u in
    u <| us_sched ::= λ s, (task_fd_close s task fd).2 |>.

(** The part of [unix_fd_dup_into] and of [unix_clone_fds_for_spawn] for an open
    file: [h] is copied into the block [blk], which goes to the slot. *)
Definition dup_file (u : unix_state D) (h blk task fd flags : Z) : Z * unix_state D :=
  if blk =? 0 then (RDNX_E_NOMEM, u)
  else
    let '(rc, copy, s) := vfs_file_dup (us_vfs u) (us_files u !!! h) no_file in
    if negb (rc =? RDNX_OK) then (RDNX_E_INVALID, u)
    else (RDNX_OK, set_slot task fd blk UNIX_FD_KIND_VFS flags
                     (u <| us_vfs := s |> <| us_files ::= <[blk := copy]> |>)).

(** The same for an end of a pipe. *)
Definition dup_pipe (u : unix_state D) (h kind task fd flags : Z) : Z * unix_state D :=
  if negb (p_magic (us_pipes u !!! h) =? UNIX_PIPE_MAGIC) then (RDNX_E_INVALID, u)
  else (RDNX_OK, set_slot task fd h kind flags (u <| us_pipes ::= alter (λ p, unix_pipe_retain p kind) h |>)).

Definition unix_fd_dup_into (u : unix_state D) (task oldfd newfd blk : Z) : Z * unix_state D :=
  if (task =? 0) || bad_fd oldfd || bad_fd newfd then (RDNX_E_INVALID, u)
  else if fd_handle u task oldfd =? 0 then (RDNX_E_INVALID, u)
  else
    let kind := fd_kind_of u task oldfd in
    let h := fd_handle u task oldfd in
    if kind =? UNIX_FD_KIND_VFS then dup_file u h blk task newfd 0
    else if (kind =? UNIX_FD_KIND_PIPE_R) || (kind =? UNIX_FD_KIND_PIPE_W)
    then dup_pipe u h kind task newfd 0
    else (RDNX_E_UNSUPPORTED, u).

Definition CONSOLE_PATH : list Z := [47; 100; 101; 118; 47; 99; 111; 110; 115; 111; 108; 101].

(** [None]: see [vfs_open].  [b] and [data] are the blocks that [vfs_open] may
    allocate. *)
Definition unix_bind_fd_to_console (u : unix_state D) (task fd open_flags blk : Z) (b : node_blocks)
    (data : data_block) : option (Z * unix_state D) :=
  if (task =? 0) || bad_fd fd then Some (RDNX_E_INVALID, u)
  else
    let u := if negb (fd_handle u task fd =? 0) then unix_fd_release u task fd else u in
    if blk =? 0 then Some (RDNX_E_NOMEM, u)
    else
      match vfs_open ops (us_vfs u) (us_dev u) b CONSOLE_PATH open_flags no_file data with
      | None => None
      | Some (rc, f, s, d) =>
          let u := u <| us_vfs := s |> <| us_dev := d |> in
          if negb (rc =? RDNX_OK) then Some (RDNX_E_NOTFOUND, u)
          else Some (RDNX_OK, set_slot task fd blk UNIX_FD_KIND_VFS 0 (u <| us_files ::= <[blk := f]> |>))
      end.

Definition unix_bind_stdio_to_console (u : unix_state D) (task : Z) (blk : Z → Z) (b : Z → node_blocks)
    (data : Z → data_block) : option (Z * unix_state D) :=
  let bind fd flags u := unix_bind_fd_to_console u task fd flags (blk fd) (b fd) (data fd) in
  match bind 0 (Z.lor VFS_OPEN_READ VFS_OPEN_WRITE) u with
  | None => None
  | Some (rc, u) =>
      if negb (rc =? RDNX_OK) then Some (rc, u)
      else
        match bind 1 VFS_OPEN_WRITE u with
        | None => None
        | Some (rc, u) => if negb (rc =? RDNX_OK) then Some (rc, u) else bind 2 VFS_OPEN_WRITE u
        end
  end.

(** [for (fd = 0; fd < TASK_MAX_FD; fd++)] *)
Definition all_fds : list Z := Z.of_nat <$> seq 0 (Z.to_nat TASK_MAX_FD).

(** [if (task->fd_table[i]) unix_fd_release (task, i);] for every slot. *)
Definition release_all (task : Z) (u : unix_state D) : unix_state D :=
  foldl (λ u fd, unix_fd_release u task fd) u all_fds.

(** One round of the loop of [unix_clone_fds_for_spawn]. *)
Definition clone_fd (u : unix_state D) (parent child fd blk : Z) : Z * unix_state D :=
  let src := fd_handle u parent fd in
  let kind := fd_kind_of u parent fd in
  let flags := fd_flags_of u parent fd in
  if src =? 0 then (RDNX_OK, set_slot child fd 0 UNIX_FD_KIND_NONE 0 u)
  else if kind =? UNIX_FD_KIND_VFS then dup_file u src blk child fd flags
  else if (kind =? UNIX_FD_KIND_PIPE_R) || (kind =? UNIX_FD_KIND_PIPE_W)
  then dup_pipe u src kind child fd flags
  else if kind =? UNIX_FD_KIND_SOCKET then (RDNX_OK, set_slot child fd 0 UNIX_FD_KIND_NONE 0 u)
  else (RDNX_E_UNSUPPORTED, u).

Fixpoint clone_loop (u : unix_state D) (parent child : Z) (blk : Z → Z) (l : list Z) : Z * unix_state D :=
  match l with
  | [] => (RDNX_OK, u)
  | fd :: l =>
      let '(rc, u) := clone_fd u parent child fd (blk fd) in
      if rc =? RDNX_OK then clone_loop u parent child blk l else (rc, release_all child u)
  end.

Definition unix_clone_fds_for_spawn (u : unix_state D) (parent child : Z) (blk : Z → Z) : Z * unix_state D :=
  if (parent =? 0) || (child =? 0) then (RDNX_E_INVALID, u)
  else clone_loop u parent child blk all_fds.

Definition unix_apply_cloexec (u : unix_state D) (task : Z) : unix_state D :=
  if task =? 0 then u
  else foldl (λ u fd, if has_flag (fd_flags_of u task fd) UNIX_FD_CLOEXEC
                      then unix_fd_release u task fd else u) u all_fds.

(** ** System calls *)
Definition unix_fs_dup (u : unix_state D) (oldfd blk : Z) : sysres D :=
  let task := utask u in
  let oldi := s32 oldfd in
  if (task =? 0) || bad_fd oldi || (fd_handle u task oldi =? 0) then ret RDNX_E_INVALID u
  else
    match free_slot (fd_table (tsk (us_sched u) task)) 0 with
    | None => ret RDNX_E_BUSY u
    | Some i =>
        let '(rc, u) := unix_fd_dup_into u task oldi (Z.of_nat i) blk in
        if negb (rc =? RDNX_OK) then ret rc u else ret (Z.of_nat i) u
    end.

(** The release of [newi] and the copy, in [unix_fs_dup2] and [unix_fs_dup3]. *)
Definition replace_fd (u : unix_state D) (task oldi newi blk : Z) : Z * unix_state D :=
  let u := if negb (fd_handle u task newi =? 0) then unix_fd_release u task newi else u in
  unix_fd_dup_into u task oldi newi blk.

Definition unix_fs_dup2 (u : unix_state D) (oldfd newfd blk : Z) : sysres D :=
  let task := utask u in
  let oldi := s32 oldfd in
  let newi := s32 newfd in
  if (task =? 0) || bad_fd oldi || bad_fd newi || (fd_handle u task oldi =? 0) then ret RDNX_E_INVALID u
  else if oldi =? newi then ret newi u
  else
    let '(rc, u) := replace_fd u task oldi newi blk in
    if negb (rc =? RDNX_OK) then ret rc u else ret newi u.

Definition unix_fs_dup3 (u : unix_state D) (oldfd newfd flags blk : Z) : sysres D :=
  let task := utask u in
  let oldi := s32 oldfd in
  let newi := s32 newfd in
  let uflags := u32 flags in
  if (task =? 0) || bad_fd oldi || bad_fd newi || (fd_handle u task oldi =? 0) then ret RDNX_E_INVALID u
  else if oldi =? newi then ret RDNX_E_INVALID u
  else if negb (Z.ldiff uflags UNIX_O_CLOEXEC =? 0) then ret RDNX_E_UNSUPPORTED u
  else
    let '(rc, u) := replace_fd u task oldi newi blk in
    if negb (rc =? RDNX_OK) then ret rc u
    else
      ret newi (if has_flag uflags UNIX_O_CLOEXEC
                then set_flags task newi (Z.lor (fd_flags_of u task newi) UNIX_FD_CLOEXEC) u else u).

Definition unix_fs_close (u : unix_state D) (fd : Z) : sysres D :=
  let task := utask u in
  if task =? 0 then ret RDNX_E_INVALID u
  else if task_fd_get (us_sched u) task (s32 fd) =? 0 then ret RDNX_E_INVALID u
  else ret RDNX_OK (unix_fd_release u task (s32 fd)).

Definition unix_fs_fcntl (u : unix_state D) (fd cmd arg : Z) : sysres D :=
  let task := utask u in
  let fdi := s32 fd in
  if (task =? 0) || bad_fd fdi || (fd_handle u task fdi =? 0) then ret RDNX_E_INVALID u
  else if s32 cmd =? UNIX_F_GETFD then ret (Z.land (fd_flags_of u task fdi) UNIX_FD_CLOEXEC) u
  else if s32 cmd =? UNIX_F_SETFD
  then ret RDNX_OK (set_flags task fdi (Z.land (u8 arg) UNIX_FD_CLOEXEC) u)
  else ret RDNX_E_UNSUPPORTED u.

End Fd.

End UnixFd.
