(* ===== verification/UnixIo.v ===== *)
(** * System calls on files and descriptors (kernel/unix/fd/unix_fd.c,
      kernel/unix/fs/unix_fs.c)

    Opening, reading and writing, the calls on paths, status, terminals, pipes,
    sockets, [poll] and [select], and the listing of directories. *)

From stdpp Require Import base gmap list numbers fin_maps.
From S2P Require Import Prelude Bytes Sched Task PathSpec Vfs VfsFile UnixPath UnixPipe UnixFd Vm VmMap.

Module UnixIo.
Import Sched Task PathSpec Vfs VfsFile UnixPath UnixPipe UnixFd.

(** ** User memory *)
Fixpoint ustore (m : umem) (a : Z) (l : list Z) : umem :=
  match l with
  | [] => m
  | b :: l => ustore (<[a := b]> m) (a + 1) l
  end.
Definition uload (m : umem) (a : Z) (n : nat) : list Z := (λ k, m !!! (a + Z.of_nat k)) <$> seq 0 n.

Definition uword (m : umem) (a : Z) (n : nat) : Z := le_value (uload m a n).

(** The loop over the entries of the address map; [None] when the fuel ends. *)
Fixpoint range_mapped_loop (fuel : nat) (l : list Vm.vm_map_entry_t) (cur stop : Z) (need_write : bool)
    : option bool :=
  if stop <? cur then Some true
  else
    match fuel with
    | O => None
    | S fuel =>
        match VmMap.vm_map_lookup l cur with
        | None => Some false
        | Some e =>
            if Z.land (Vm.e_prot e) Vm.VM_PROT_READ =? 0 then Some false
            else if need_write && (Z.land (Vm.e_prot e) Vm.VM_PROT_WRITE =? 0) then Some false
            else if Vm.e_end e <=? cur then Some false
            else range_mapped_loop fuel l (Vm.e_end e) stop need_write
        end
    end.

Section Io.
Context {D : Type} (ops : vfs_ops D) (net : net_ops D).

(** Every round takes another entry, so the number of entries is enough. *)
Definition unix_user_io_range_mapped (u : unix_state D) (task ptr len : Z) (need_write : bool) : bool :=
  if (task =? 0) || (ptr =? 0) then false
  else if len =? 0 then true
  else
    match us_maps u !! task with
    | None => false
    | Some m =>
        match add_overflow ptr (len - 1) with
        | None => false
        | Some stop =>
            default false (range_mapped_loop (S (length (Vm.entries m))) (Vm.entries m) ptr stop need_write)
        end
    end.

(** The path that a call takes from user memory: [None] when its buffer is
    overrun, an error otherwise. *)
Definition user_path (u : unix_state D) (ptr : Z) : option (Z * list Z) :=
  if utask u =? 0 then Some (RDNX_E_INVALID, [])
  else unix_resolve_user_path (us_mem u) (c_str (cwd (tsk (us_sched u) (utask u)))) ptr UNIX_PATH_MAX.

(** [if (unix_resolve_user_path (ptr, path, sizeof (path)) != RDNX_OK) return
    RDNX_E_INVALID;] *)
Definition with_path (u : unix_state D) (ptr : Z) (k : list Z → sysres D) : sysres D :=
  match user_path u ptr with
  | None => SysUndef
  | Some (rc, path) => if negb (rc =? RDNX_OK) then ret RDNX_E_INVALID u else k path
  end.

Definition vset (u : unix_state D) (s : vfs_state) : unix_state D := u <| us_vfs := s |>.

(** ** Files *)
Definition unix_fs_open (u : unix_state D) (ptr flags blk : Z) (b : node_blocks) (data : data_block)
    : sysres D :=
  with_path u ptr (λ path,
    if blk =? 0 then ret RDNX_E_NOMEM u
    else
      match vfs_open ops (us_vfs u) (us_dev u) b path (s32 flags) no_file data with
      | None => SysUndef
      | Some (orc, f, s, d) =>
          let u := u <| us_vfs := s |> <| us_dev := d |> in
          if negb (orc =? RDNX_OK) then ret orc u
          else
            let u := u <| us_files ::= <[blk := f]> |> in
            let task := utask u in
            let '(fd, s) := task_fd_alloc (us_sched u) task blk in
            let u := u <| us_sched := s |> in
            if fd <? 0 then ret RDNX_E_BUSY (close_file blk u)
            else ret fd (set_kind task fd UNIX_FD_KIND_VFS u)
      end).

(** A read: the file of a descriptor, or a pipe. *)
Definition unix_fs_read (u : unix_state D) (fd buf n : Z) (bounce : bool) : sysres D :=
  let task := utask u in
  let fdi := s32 fd in
  if task =? 0 then ret RDNX_E_INVALID u
  else if negb (unix_user_range_ok buf n) then ret RDNX_E_INVALID u
  else
    let h := task_fd_get (us_sched u) task fdi in
    if h =? 0 then ret RDNX_E_INVALID u
    else if fd_kind_of u task fdi =? UNIX_FD_KIND_VFS then
      match vfs_read ops (us_vfs u) (us_dev u) (us_files u !!! h) n bounce with
      | None => SysWait u
      | Some (r, out, f, d) =>
          ret r (u <| us_dev := d |> <| us_files ::= <[h := f]> |> <| us_mem ::= λ m, ustore m buf out |>)
      end
    else if fd_kind_of u task fdi =? UNIX_FD_KIND_PIPE_R then
      let p := us_pipes u !!! h in
      if negb (p_magic p =? UNIX_PIPE_MAGIC) then ret RDNX_E_INVALID u
      else
        match pipe_read_loop (Z.to_nat n) p [] with
        | (None, p) => SysWait (u <| us_pipes ::= alter (λ _, p) h |>)
        | (Some out, p) =>
            ret (Z.of_nat (length out))
              (u <| us_pipes ::= alter (λ _, p) h |> <| us_mem ::= λ m, ustore m buf out |>)
        end
    else ret RDNX_E_INVALID u.

Definition unix_fs_write (u : unix_state D) (fd buf n : Z) (data : data_block) : sysres D :=
  let task := utask u in
  let fdi := s32 fd in
  if task =? 0 then ret RDNX_E_INVALID u
  else if negb (unix_user_range_ok buf n) then ret RDNX_E_INVALID u
  else if negb (unix_user_io_range_mapped u task buf n false) then ret RDNX_E_INVALID u
  else
    let h := task_fd_get (us_sched u) task fdi in
    let bytes := uload (us_mem u) buf (Z.to_nat n) in
    if h =? 0 then ret RDNX_E_INVALID u
    else if fd_kind_of u task fdi =? UNIX_FD_KIND_VFS then
      match vfs_write ops (us_vfs u) (us_dev u) (us_files u !!! h) bytes data with
      | None => SysUndef
      | Some (r, f, s, d) => ret r (u <| us_vfs := s |> <| us_dev := d |> <| us_files ::= <[h := f]> |>)
      end
    else if fd_kind_of u task fdi =? UNIX_FD_KIND_PIPE_W then
      let p := us_pipes u !!! h in
      if negb (p_magic p =? UNIX_PIPE_MAGIC) then ret RDNX_E_INVALID u
      else
        match pipe_write_loop bytes p 0 with
        | (None, p) => SysWait (u <| us_pipes ::= alter (λ _, p) h |>)
        | (Some r, p) => SysRet r (u <| us_pipes ::= alter (λ _, p) h |>)
        end
    else ret RDNX_E_INVALID u.

(** The open file of a descriptor, 0 if it is none. *)
Definition vfs_handle (u : unix_state D) (task fdi : Z) : Z :=
  if bad_fd fdi then 0
  else if negb (fd_kind_of u task fdi =? UNIX_FD_KIND_VFS) then 0
  else task_fd_get (us_sched u) task fdi.

Definition unix_fs_lseek (u : unix_state D) (fd off whence : Z) : sysres D :=
  let task := utask u in
  if task =? 0 then ret RDNX_E_INVALID u
  else
    let h := vfs_handle u task (s32 fd) in
    if h =? 0 then ret RDNX_E_INVALID u
    else
      let '(rc, pos, f) := vfs_seek (us_vfs u) (us_files u !!! h) (s64 off) (s32 whence) in
      if negb (rc =? RDNX_OK) then ret rc u
      else SysRet pos (u <| us_files ::= <[h := f]> |>).

Definition unix_fs_truncate (u : unix_state D) (ptr size : Z) (data : data_block) : sysres D :=
  with_path u ptr (λ path,
    match vfs_truncate ops (us_vfs u) (us_dev u) path size data with
    | None => SysUndef
    | Some (rc, s, d) => ret rc (u <| us_vfs := s |> <| us_dev := d |>)
    end).

Definition unix_fs_ftruncate (u : unix_state D) (fd size : Z) (data : data_block) : sysres D :=
  let task := utask u in
  let fdi := s32 fd in
  if task =? 0 then ret RDNX_E_INVALID u
  else if bad_fd fdi || negb (fd_kind_of u task fdi =? UNIX_FD_KIND_VFS) then ret RDNX_E_INVALID u
  else
    let h := task_fd_get (us_sched u) task fdi in
    if (h =? 0) || negb (f_writable (us_files u !!! h)) then ret RDNX_E_DENIED u
    else
      match vfs_ftruncate ops (us_vfs u) (us_dev u) (us_files u !!! h) size data with
      | None => SysUndef
      | Some (rc, f, s, d) => ret rc (u <| us_vfs := s |> <| us_dev := d |> <| us_files ::= <[h := f]> |>)
      end.

(** ** Paths *)
Definition S_IFDIR : Z := 16384.

Definition unix_fs_chdir (u : unix_state D) (ptr : Z) : sysres D :=
  let task := utask u in
  if task =? 0 then ret RDNX_E_INVALID u
  else
    with_path u ptr (λ path,
      let '(rc, st, s) := vfs_stat (us_vfs u) path in
      let u := vset u s in
      match st with
      | Some st =>
          if negb (rc =? RDNX_OK) || negb (has_flag (st_mode st) S_IFDIR) then ret RDNX_E_NOTFOUND u
          else
            ret RDNX_OK
              (u <| us_sched ::= tsk_upd task (λ x, x <| cwd := take 255 (path ++ replicate 255 0) ++ [0] |>) |>)
      | None => ret RDNX_E_NOTFOUND u
      end).

Definition unix_fs_getcwd (u : unix_state D) (ptr n : Z) : sysres D :=
  let task := utask u in
  if (task =? 0) || (ptr =? 0) || (n =? 0) then ret RDNX_E_INVALID u
  else
    let dir := c_str (cwd (tsk (us_sched u) task)) in
    if (n <? Z.of_nat (length dir) + 1) || negb (unix_user_range_ok ptr n) then ret RDNX_E_INVALID u
    else ret RDNX_OK (u <| us_mem ::= λ m, ustore m ptr (dir ++ [0]) |>).

Definition unix_fs_mkdir (u : unix_state D) (ptr : Z) (b : node_blocks) : sysres D :=
  with_path u ptr (λ path, let '(rc, s) := vfs_mkdir (us_vfs u) b path in ret rc (vset u s)).

Definition unix_fs_unlink (u : unix_state D) (ptr : Z) : sysres D :=
  with_path u ptr (λ path,
    let '(rc, st, s) := vfs_stat (us_vfs u) path in
    match st with
    | Some st =>
        if negb (rc =? RDNX_OK) then ret RDNX_E_NOTFOUND (vset u s)
        else if has_flag (st_mode st) S_IFDIR then ret RDNX_E_INVALID (vset u s)
        else let '(rc, s) := vfs_unlink s path in ret rc (vset u s)
    | None => ret RDNX_E_NOTFOUND (vset u s)
    end).

Definition unix_fs_rmdir (u : unix_state D) (ptr : Z) : sysres D :=
  with_path u ptr (λ path,
    if bool_decide (path = [SLASH]) then ret RDNX_E_DENIED u
    else
      let '(rc, st, s) := vfs_stat (us_vfs u) path in
      match st with
      | Some st =>
          if negb (rc =? RDNX_OK) then ret RDNX_E_NOTFOUND (vset u s)
          else if negb (has_flag (st_mode st) S_IFDIR) then ret RDNX_E_INVALID (vset u s)
          else let '(rc, s) := vfs_unlink s path in ret rc (vset u s)
      | None => ret RDNX_E_NOTFOUND (vset u s)
      end).

Definition unix_fs_rename (u : unix_state D) (old_ptr new_ptr : Z) : sysres D :=
  with_path u old_ptr (λ old_path,
    with_path u new_ptr (λ new_path,
      let '(rc, s) := vfs_rename (us_vfs u) old_path new_path in ret rc (vset u s))).

(** ** Status *)

(** The two assignments to a [unix_stat_u_t]. *)
Definition store_stat (u : unix_state D) (ptr : Z) (st : vfs_stat_t) : unix_state D :=
  u <| us_mem ::= λ m, ustore (ustore m ptr (le_bytes 4 (st_mode st))) (ptr + 8) (le_bytes 8 (st_size st)) |>.

Definition UNIX_STAT_SIZE : Z := 16.

Definition unix_fs_stat (u : unix_state D) (ptr stat_ptr : Z) : sysres D :=
  if negb (unix_user_range_ok stat_ptr UNIX_STAT_SIZE) then ret RDNX_E_INVALID u
  else
    with_path u ptr (λ path,
      let '(rc, st, s) := vfs_stat (us_vfs u) path in
      match st with
      | Some st => if negb (rc =? RDNX_OK) then ret rc (vset u s)
                   else ret RDNX_OK (store_stat (vset u s) stat_ptr st)
      | None => ret rc (vset u s)
      end).

Definition unix_fs_fstat (u : unix_state D) (fd stat_ptr : Z) : sysres D :=
  let task := utask u in
  if task =? 0 then ret RDNX_E_INVALID u
  else if negb (unix_user_range_ok stat_ptr UNIX_STAT_SIZE) then ret RDNX_E_INVALID u
  else
    let h := vfs_handle u task (s32 fd) in
    if h =? 0 then ret RDNX_E_INVALID u
    else
      let '(rc, st) := vfs_fstat (us_vfs u) (us_files u !!! h) in
      match st with
      | Some st => if negb (rc =? RDNX_OK) then ret rc u else ret RDNX_OK (store_stat u stat_ptr st)
      | None => ret rc u
      end.

(** ** Terminals *)
Definition UNIX_TTY_IOCTL_ISATTY : Z := 29697.
Definition UNIX_TTY_IOCTL_GETATTR : Z := 29698.
Definition UNIX_TTY_IOCTL_SETATTR : Z := 29699.
Definition UNIX_TERMIOS_SIZE : Z := 44.

(** The [unix_termios_u_t] of the terminal: only [c_lflag] and [c_cc] are not
    zero. *)
Definition termios_bytes (d : D) : list Z :=
  replicate 12 0 ++ le_bytes 4 (op_tty_lflag net d) ++ (op_tty_cc net d <$> (Z.of_nat <$> seq 0 20)) ++ replicate 8 0.

Definition unix_fs_ioctl (u : unix_state D) (fd request arg : Z) : sysres D :=
  let task := utask u in
  let fdi := s32 fd in
  if (task =? 0) || bad_fd fdi || negb (fd_kind_of u task fdi =? UNIX_FD_KIND_VFS) then ret RDNX_E_INVALID u
  else
    let h := task_fd_get (us_sched u) task fdi in
    let node := f_node (us_files u !!! h) in
    if (h =? 0) || (node =? 0) then ret RDNX_E_INVALID u
    else if negb (has_flag (i_flags (n_inode (vnode (us_vfs u) node))) VFS_INODE_CONSOLE)
    then ret RDNX_E_UNSUPPORTED u
    else if u32 request =? UNIX_TTY_IOCTL_ISATTY then SysRet 1 u
    else if u32 request =? UNIX_TTY_IOCTL_GETATTR then
      if (arg =? 0) || negb (unix_user_range_ok arg UNIX_TERMIOS_SIZE) then ret RDNX_E_INVALID u
      else ret RDNX_OK (u <| us_mem ::= λ m, ustore m arg (termios_bytes (us_dev u)) |>)
    else if u32 request =? UNIX_TTY_IOCTL_SETATTR then
      if (arg =? 0) || negb (unix_user_range_ok arg UNIX_TERMIOS_SIZE) then ret RDNX_E_INVALID u
      else
        let d := op_tty_set_lflag net (us_dev u) (uword (us_mem u) (arg + 12) 4) in
        ret RDNX_OK
          (u <| us_dev := foldl (λ d i, op_tty_set_cc net d (Z.of_nat i) (uword (us_mem u) (arg + 16 + Z.of_nat i) 1))
                            d (seq 0 20) |>)
    else ret RDNX_E_UNSUPPORTED u.

(** ** Waiting for descriptors *)
Definition UNIX_POLLIN : Z := 1.
Definition UNIX_POLLOUT : Z := 4.
Definition UNIX_POLLERR : Z := 8.
Definition UNIX_POLLHUP : Z := 16.
Definition UNIX_POLLNVAL : Z := 32.

Definition flag_if (b : bool) (f : Z) : Z := if b then f else 0.

(** [revents]; the result of the function is whether it is not 0.  The state
    changes when the terminal takes characters in. *)
Definition unix_poll_one (u : unix_state D) (task fdi events : Z) : Z * unix_state D :=
  if task =? 0 then (0, u)
  else if bad_fd fdi || (fd_handle u task fdi =? 0) then (UNIX_POLLNVAL, u)
  else
    let kind := fd_kind_of u task fdi in
    let h := fd_handle u task fdi in
    if kind =? UNIX_FD_KIND_VFS then
      let file := us_files u !!! h in
      if f_node file =? 0 then (UNIX_POLLNVAL, u)
      else if has_flag (i_flags (n_inode (vnode (us_vfs u) (f_node file)))) VFS_INODE_CONSOLE then
        let '(readable, d) := if has_flag events UNIX_POLLIN then op_tty_readable net (us_dev u)
                              else (false, us_dev u) in
        (Z.lor (flag_if readable UNIX_POLLIN) (flag_if (has_flag events UNIX_POLLOUT) UNIX_POLLOUT),
         u <| us_dev := d |>)
      else
        (Z.lor (flag_if (has_flag events UNIX_POLLIN) UNIX_POLLIN)
               (flag_if (has_flag events UNIX_POLLOUT && f_writable file) UNIX_POLLOUT), u)
    else if kind =? UNIX_FD_KIND_PIPE_R then
      let p := us_pipes u !!! h in
      if negb (p_magic p =? UNIX_PIPE_MAGIC) then (UNIX_POLLNVAL, u)
      else
        (Z.lor (flag_if (has_flag events UNIX_POLLIN && ((0 <? p_count p) || (p_writers p =? 0))) UNIX_POLLIN)
               (flag_if (p_writers p =? 0) UNIX_POLLHUP), u)
    else if kind =? UNIX_FD_KIND_PIPE_W then
      let p := us_pipes u !!! h in
      if negb (p_magic p =? UNIX_PIPE_MAGIC) then (UNIX_POLLNVAL, u)
      else
        (Z.lor (flag_if (has_flag events UNIX_POLLOUT && (0 <? p_readers p) && (p_count p <? UNIX_PIPE_CAP))
                  UNIX_POLLOUT)
               (flag_if (p_readers p =? 0) (Z.lor UNIX_POLLHUP UNIX_POLLERR)), u)
    else (UNIX_POLLNVAL, u).

(** The round over the array at [pfds]: how many are ready. *)
Fixpoint poll_round (u : unix_state D) (task pfds : Z) (l : list nat) (ready : Z) : Z * unix_state D :=
  match l with
  | [] => (ready, u)
  | i :: l =>
      let a := pfds + 8 * Z.of_nat i in
      let '(rev, u) := unix_poll_one u task (s32 (uword (us_mem u) a 4)) (uword (us_mem u) (a + 4) 2) in
      poll_round (u <| us_mem ::= λ m, ustore m (a + 6) (le_bytes 2 rev) |>) task pfds l
        (ready + (if rev =? 0 then 0 else 1))
  end.

(** The tick at which a call with a timeout gives up. *)
Definition poll_deadline (u : unix_state D) (timeout_ms : Z) : Z :=
  if 0 <=? timeout_ms then
    sched_ticks (us_sched u)
      +₆₄ (u64 timeout_ms +₆₄ (SCHEDULER_TIME_SLICE_MS - 1)) / SCHEDULER_TIME_SLICE_MS
  else 0.

(** What the calls do behind a round. *)
Definition poll_verdict (u : unix_state D) (ready timeout_ms deadline : Z) : sysres D :=
  if 0 <? ready then SysRet ready u
  else if timeout_ms =? 0 then SysRet 0 u
  else if (0 <? timeout_ms) && (deadline <=? sched_ticks (us_sched u)) then SysRet 0 u
  else SysWait u.

(** [unix_fs_poll] up to its first [scheduler_yield]; behind it the loop goes on
    with [poll_again]. *)
Definition poll_again (u : unix_state D) (pfds nfds timeout_ms deadline : Z) : sysres D :=
  let '(ready, u) := poll_round u (utask u) pfds (seq 0 (Z.to_nat nfds)) 0 in
  poll_verdict u ready timeout_ms deadline.

Definition unix_fs_poll (u : unix_state D) (pfds nfds timeout_ms : Z) : sysres D :=
  if utask u =? 0 then ret RDNX_E_INVALID u
  else if TASK_MAX_FD <? nfds then ret RDNX_E_INVALID u
  else if (0 <? nfds) && ((pfds =? 0) || negb (unix_user_range_ok pfds (nfds * 8))) then ret RDNX_E_INVALID u
  else poll_again u pfds nfds timeout_ms (poll_deadline u timeout_ms).

(** The sets of [select], as words. *)
Definition unix_fdset_test (s fd : Z) : bool := if 32 <=? fd then false else negb (Z.land s (Z.shiftl 1 fd) =? 0).
Definition unix_fdset_set (s fd : Z) : Z := if 32 <=? fd then s else Z.lor s (Z.shiftl 1 fd).

(** The sets that were asked for and those that are ready. *)
Record fd_sets := mk_sets { set_r : Z; set_w : Z; set_e : Z }.

(** One descriptor of the round: the sets with it and whether it is ready. *)
Definition select_one (u : unix_state D) (task : Z) (wanted : fd_sets) (fd : Z) (out : fd_sets)
    : fd_sets * Z * unix_state D :=
  let want_r := unix_fdset_test (set_r wanted) fd in
  let want_w := unix_fdset_test (set_w wanted) fd in
  let want_e := unix_fdset_test (set_e wanted) fd in
  if negb want_r && negb want_w && negb want_e then (out, 0, u)
  else
    let events := Z.lor (flag_if want_r UNIX_POLLIN)
                    (Z.lor (flag_if want_w UNIX_POLLOUT) (flag_if want_e UNIX_POLLERR)) in
    let '(rev, u) := unix_poll_one u task fd events in
    let r := want_r && has_flag rev (Z.lor UNIX_POLLIN UNIX_POLLHUP) in
    let w := want_w && has_flag rev UNIX_POLLOUT in
    let e := want_e && has_flag rev (Z.lor UNIX_POLLERR UNIX_POLLNVAL) in
    (mk_sets (if r then unix_fdset_set (set_r out) fd else set_r out)
             (if w then unix_fdset_set (set_w out) fd else set_w out)
             (if e then unix_fdset_set (set_e out) fd else set_e out),
     if r || w || e then 1 else 0, u).

Fixpoint select_round (u : unix_state D) (task : Z) (wanted : fd_sets) (l : list Z) (out : fd_sets) (ready : Z)
    : fd_sets * Z * unix_state D :=
  match l with
  | [] => (out, ready, u)
  | fd :: l =>
      let '(out, k, u) := select_one u task wanted fd out in
      select_round u task wanted l out (ready + k)
  end.

(** [if (user_r) *user_r = out_r;] and so on. *)
Definition store_set (ptr s : Z) (u : unix_state D) : unix_state D :=
  if ptr =? 0 then u else u <| us_mem ::= λ m, ustore m ptr (le_bytes 4 s) |>.

Definition select_again (u : unix_state D) (nfds : Z) (wanted : fd_sets) (pr pw pe timeout_ms deadline : Z)
    : sysres D :=
  let '(out, ready, u) :=
    select_round u (utask u) wanted (Z.of_nat <$> seq 0 (Z.to_nat nfds)) (mk_sets 0 0 0) 0 in
  let u := store_set pe (set_e out) (store_set pw (set_w out) (store_set pr (set_r out) u)) in
  poll_verdict u ready timeout_ms deadline.

(** A set that is read from user memory, empty for NULL. *)
Definition load_set (u : unix_state D) (ptr : Z) : option Z :=
  if ptr =? 0 then Some 0
  else if unix_user_range_ok ptr 4 then Some (uword (us_mem u) ptr 4) else None.

(** The timeout in milliseconds; [None] for a bad one. *)
Definition load_timeout (u : unix_state D) (ptr : Z) : option Z :=
  if ptr =? 0 then Some (-1)
  else if negb (unix_user_range_ok ptr 16) then None
  else
    let sec := s64 (uword (us_mem u) ptr 8) in
    let usec := s64 (uword (us_mem u) (ptr + 8) 8) in
    if (sec <? 0) || (usec <? 0) || (1000000 <=? usec) then None
    else Some (s64 (u64 (sec * 1000) +₆₄ (usec + 999) / 1000)).

Definition unix_fs_select (u : unix_state D) (nfds pr pw pe pt : Z) : sysres D :=
  if utask u =? 0 then ret RDNX_E_INVALID u
  else if TASK_MAX_FD <? nfds then ret RDNX_E_INVALID u
  else
    match load_set u pr, load_set u pw, load_set u pe, load_timeout u pt with
    | Some r, Some w, Some e, Some timeout_ms =>
        select_again u nfds (mk_sets r w e) pr pw pe timeout_ms (poll_deadline u timeout_ms)
    | _, _, _, _ => ret RDNX_E_INVALID u
    end.

(** ** Pipes *)

(** The two ends of a new pipe in the block [blk]: the result and, if it is
    [RDNX_OK], the descriptors.  [data] is the old content of its buffer. *)
Definition make_pipe (u : unix_state D) (blk : Z) (data : list Z) : Z * Z * Z * unix_state D :=
  let task := utask u in
  if blk =? 0 then (RDNX_E_NOMEM, 0, 0, u)
  else
    let '(fd_r, s) := task_fd_alloc (us_sched u) task blk in
    if fd_r <? 0 then (RDNX_E_BUSY, 0, 0, u <| us_sched := s |>)
    else
      let u := set_kind task fd_r UNIX_FD_KIND_PIPE_R
                 (u <| us_sched := s |> <| us_pipes ::= <[blk := new_pipe data]> |>) in
      let '(fd_w, s) := task_fd_alloc (us_sched u) task blk in
      let u := u <| us_sched := s |> in
      if fd_w <? 0 then (RDNX_E_BUSY, 0, 0, unix_fd_release net u task fd_r)
      else (RDNX_OK, fd_r, fd_w, set_kind task fd_w UNIX_FD_KIND_PIPE_W u).

Definition unix_fs_pipe (u : unix_state D) (ptr blk : Z) (data : list Z) : sysres D :=
  if (utask u =? 0) || negb (unix_user_range_ok ptr 8) then ret RDNX_E_INVALID u
  else
    let '(rc, fd_r, fd_w, u) := make_pipe u blk data in
    if negb (rc =? RDNX_OK) then ret rc u
    else ret RDNX_OK (u <| us_mem ::= λ m, ustore m ptr (le_bytes 4 fd_r ++ le_bytes 4 fd_w) |>).

(** [if (fd >= 0 && fd < TASK_MAX_FD && task->fd_table[fd]) ...] *)
Definition set_cloexec (task fd : Z) (u : unix_state D) : unix_state D :=
  if bad_fd fd || (fd_handle u task fd =? 0) then u
  else set_flags task fd (Z.lor (fd_flags_of u task fd) UNIX_FD_CLOEXEC) u.

Definition unix_fs_pipe2 (u : unix_state D) (ptr flags blk : Z) (data : list Z) : sysres D :=
  let uflags := u32 flags in
  if negb (Z.ldiff uflags (Z.lor UNIX_O_CLOEXEC UNIX_O_NONBLOCK) =? 0) then ret RDNX_E_UNSUPPORTED u
  else
    match unix_fs_pipe u ptr blk data with
    | SysRet rc u =>
        if negb (rc =? RDNX_OK) then SysRet rc u
        else if negb (has_flag uflags UNIX_O_CLOEXEC) then ret RDNX_OK u
        else
          let task := utask u in
          if (task =? 0) || (ptr =? 0) || negb (unix_user_range_ok ptr 8) then ret RDNX_E_INVALID u
          else
            let fd_r := s32 (uword (us_mem u) ptr 4) in
            let fd_w := s32 (uword (us_mem u) (ptr + 4) 4) in
            ret RDNX_OK (set_cloexec task fd_w (set_cloexec task fd_r u))
    | r => r
    end.

(** ** Sockets *)
Definition unix_fs_socket (u : unix_state D) (domain type protocol : Z) : sysres D :=
  let task := utask u in
  if task =? 0 then ret RDNX_E_INVALID u
  else
    let '(sock, d) := op_socket_create net (us_dev u) (s32 domain) (s32 type) (s32 protocol) in
    let u := u <| us_dev := d |> in
    if sock =? 0 then ret RDNX_E_INVALID u
    else
      let '(fd, s) := task_fd_alloc (us_sched u) task sock in
      let u := u <| us_sched := s |> in
      if fd <? 0 then ret RDNX_E_BUSY (u <| us_dev ::= λ d, op_socket_close net d sock |>)
      else ret fd (set_flags task fd 0 (set_kind task fd UNIX_FD_KIND_SOCKET u)).

(** The socket of a descriptor, 0 if it is none. *)
Definition socket_handle (u : unix_state D) (fdi : Z) : Z :=
  let task := utask u in
  if (task =? 0) || bad_fd fdi || negb (fd_kind_of u task fdi =? UNIX_FD_KIND_SOCKET) then 0
  else task_fd_get (us_sched u) task fdi.

Definition SOCKADDR_SIZE : Z := 8.

(** [unix_fs_bind] and [unix_fs_connect], which differ in what they call. *)
Definition socket_address (op : D → Z → list Z → Z * D) (u : unix_state D) (fd addr : Z) : sysres D :=
  let sock := socket_handle u (s32 fd) in
  if sock =? 0 then ret RDNX_E_INVALID u
  else if (addr =? 0) || negb (unix_user_range_ok addr SOCKADDR_SIZE) then ret RDNX_E_INVALID u
  else
    let '(rc, d) := op (us_dev u) sock (uload (us_mem u) addr 8) in
    ret (if rc =? 0 then RDNX_OK else RDNX_E_INVALID) (u <| us_dev := d |>).

Definition unix_fs_bind := socket_address (op_socket_bind net).
Definition unix_fs_connect := socket_address (op_socket_connect net).

Definition unix_fs_sendto (u : unix_state D) (fd buf n dst dst_len : Z) : sysres D :=
  let sock := socket_handle u (s32 fd) in
  if sock =? 0 then ret RDNX_E_INVALID u
  else if (buf =? 0) || (n =? 0) || negb (unix_user_range_ok buf n) then ret RDNX_E_INVALID u
  else if negb (unix_user_io_range_mapped u (utask u) buf n false) then ret RDNX_E_INVALID u
  else if (dst =? 0) || (dst_len <? SOCKADDR_SIZE) || negb (unix_user_range_ok dst SOCKADDR_SIZE)
  then ret RDNX_E_INVALID u
  else
    let '(rc, d) := op_socket_sendto net (us_dev u) sock (uload (us_mem u) buf (Z.to_nat n))
                      (uload (us_mem u) dst 8) in
    ret (if rc <? 0 then RDNX_E_INVALID else rc) (u <| us_dev := d |>).

(** The bytes received and the address of the sender go to user memory. *)
Definition unix_fs_recvfrom (u : unix_state D) (fd buf n src timeout_ms : Z) : sysres D :=
  let sock := socket_handle u (s32 fd) in
  if sock =? 0 then ret RDNX_E_INVALID u
  else if (buf =? 0) || (n =? 0) || negb (unix_user_range_ok buf n) then ret RDNX_E_INVALID u
  else if negb (unix_user_io_range_mapped u (utask u) buf n true) then ret RDNX_E_INVALID u
  else if negb (src =? 0) && negb (unix_user_range_ok src SOCKADDR_SIZE) then ret RDNX_E_INVALID u
  else
    let '(rc, out, from, d) := op_socket_recvfrom net (us_dev u) sock n timeout_ms in
    let u := u <| us_dev := d |> <| us_mem ::= λ m, ustore m buf out |>
               <| us_mem ::= λ m, if src =? 0 then m else ustore m src from |> in
    ret (if rc <? 0 then RDNX_E_NOTFOUND else rc) u.

(** ** Directories *)
Definition UNIX_DT_CHR : Z := 2.
Definition UNIX_DT_DIR : Z := 4.
Definition UNIX_DT_BLK : Z := 6.
Definition UNIX_DT_REG : Z := 8.
Definition DIRENT_SIZE : nat := 272.

Definition dirent_type (x : vfs_node_t) : Z :=
  match n_type x with
  | VFS_NODE_DIR => UNIX_DT_DIR
  | VFS_NODE_FILE =>
      if has_flag (i_flags (n_inode x)) VFS_INODE_BLOCKDEV then UNIX_DT_BLK
      else if has_flag (i_flags (n_inode x)) VFS_INODE_CHARDEV then UNIX_DT_CHR
      else UNIX_DT_REG
  end.

(** A [unix_dirent_u_t]: number, length, type, length of the name, name. *)
Definition dirent_bytes (ino : Z) (x : vfs_node_t) : list Z :=
  let name := take 255 (n_name x) in
  le_bytes 8 ino ++ le_bytes 2 (Z.of_nat DIRENT_SIZE) ++ [dirent_type x; Z.of_nat (length name)]
  ++ name ++ replicate (260 - length name) 0.

(** The buffer so far and the next number. *)
Definition unix_readdir_cb (s : vfs_state) (cap : Z) (acc : list Z * Z) (n : Z) : list Z * Z :=
  let '(out, ino) := acc in
  if cap <? Z.of_nat (length out + DIRENT_SIZE) then (out, ino)
  else (out ++ dirent_bytes ino (vnode s n), ino +₆₄ 1).

Definition unix_fs_readdir (u : unix_state D) (ptr entries n : Z) : sysres D :=
  if n <? Z.of_nat DIRENT_SIZE then ret RDNX_E_INVALID u
  else if negb (unix_user_range_ok entries n) then ret RDNX_E_INVALID u
  else
    with_path u ptr (λ path,
      let '(rc, l, s) := vfs_list_dir (us_vfs u) path in
      let u := vset u s in
      let out := (foldl (unix_readdir_cb s n) ([], 1) l).1 in
      let u := u <| us_mem ::= λ m, ustore m entries out |> in
      if negb (rc =? RDNX_OK) then ret rc u else ret (Z.of_nat (length out)) u).

End Io.

End UnixIo.
