(* ===== verification/UnixRes.v ===== *)
(** * What descriptors refer to

    The resources behind a multiset of descriptor slots (handle and kind): the
    blocks of open files, each with one slot, as the VFS counts them; and the
    pipes, whose counts of readers and writers are the numbers of slots of
    their two ends.  A resource exists exactly as long as a slot refers to it. *)

From stdpp Require Import base gmap list numbers fin_maps.
From S2P Require Import Prelude Vfs VfsFile VfsFacts VfsTree VfsOps VfsNames VfsSteps UnixPipe UnixFd Sched.
From S2P Require Import Task.

Module UnixRes.
Import Vfs VfsFile VfsFacts VfsTree VfsInv VfsOps VfsNames VfsData VfsSteps UnixPipe UnixFd.

Abbreviation slot := (Z * Z)%type.

Definition file_slots (L : list slot) : list Z :=
  (filter (λ x : slot, x.1 ≠ 0 ∧ x.2 = UNIX_FD_KIND_VFS) L).*1.
Definition ends (L : list slot) (h k : Z) : Z := Z.of_nat (length (filter (λ x : slot, x = (h, k)) L)).
Definition pipe_kind (k : Z) : Prop := k = UNIX_FD_KIND_PIPE_R ∨ k = UNIX_FD_KIND_PIPE_W.

Record res_ok (L : list slot) (files : gmap Z vfs_file_t) (pipes : gmap Z unix_pipe_t) (s : vfs_state)
    : Prop := {
  ro_nodup : NoDup (file_slots L);
  ro_files : ∀ h, h ∈ file_slots L ↔ is_Some (files !! h);
  ro_vfs : vsys_inv s ((files !!!.) <$> file_slots L);
  ro_pipes : ∀ h p, pipes !! h = Some p →
    h ≠ 0 ∧ pipe_ok p ∧ p_readers p = ends L h UNIX_FD_KIND_PIPE_R ∧ p_writers p = ends L h UNIX_FD_KIND_PIPE_W ∧
    0 < p_readers p + p_writers p;
  ro_ends : ∀ h k, (h, k) ∈ L → h ≠ 0 → pipe_kind k → is_Some (pipes !! h);
  ro_kinds : ∀ h k, (h, k) ∈ L → h ≠ 0 → k = UNIX_FD_KIND_VFS ∨ pipe_kind k ∨ k = UNIX_FD_KIND_SOCKET
}.

(** ** Order does not matter *)
Lemma vsys_perm s fs fs' : fs ≡ₚ fs' → vsys_inv s fs → vsys_inv s fs'.
Proof.
  intros P [[K I] Hd Hf]. split; [|done|by rewrite <- P].
  exists K. eapply inv_refs_ext; [|exact I]. intros n. unfold refs_of. by rewrite P.
Qed.

#[export] Instance vsys_inv_perm : Proper ((=) ==> (≡ₚ) ==> iff) vsys_inv.
Proof. intros s _ <- fs fs' P. split; apply vsys_perm; [exact P|symmetry; exact P]. Qed.

#[export] Instance file_slots_perm : Proper ((≡ₚ) ==> (≡ₚ)) file_slots.
Proof. intros L L' P. unfold file_slots. by rewrite P. Qed.

#[export] Instance ends_perm : Proper ((≡ₚ) ==> (=) ==> (=) ==> (=)) ends.
Proof. intros L L' P h _ <- k _ <-. unfold ends. by rewrite P. Qed.

Lemma res_perm L L' files pipes s : L ≡ₚ L' → res_ok L files pipes s → res_ok L' files pipes s.
Proof.
  intros P [R1 R2 R3 R4 R5 R6]. split.
  - by rewrite <- P.
  - intros h. by rewrite <- P.
  - eapply vsys_perm; [|exact R3]. by rewrite P.
  - intros h p Hp. by rewrite <- P; apply R4.
  - intros h k. rewrite <- P. apply R5.
  - intros h k. rewrite <- P. apply R6.
Qed.

#[export] Instance res_ok_perm : Proper ((≡ₚ) ==> (=) ==> (=) ==> (=) ==> iff) res_ok.
Proof.
  intros L L' P f _ <- p _ <- s _ <-. split; apply res_perm; [exact P|symmetry; exact P].
Qed.

(** ** One slot more *)
Lemma file_slots_cons h k L :
  file_slots ((h, k) :: L)
    = if decide (h ≠ 0 ∧ k = UNIX_FD_KIND_VFS) then h :: file_slots L else file_slots L.
Proof. unfold file_slots. rewrite filter_cons. simpl. by repeat case_decide. Qed.

Lemma ends_cons h k L h' k' :
  ends ((h, k) :: L) h' k' = (if decide (h = h' ∧ k = k') then 1 else 0) + ends L h' k'.
Proof.
  unfold ends. rewrite filter_cons. repeat case_decide; simpl; lia || (exfalso; naive_solver).
Qed.

Lemma ends_pos L h k : (h, k) ∈ L → 0 < ends L h k.
Proof.
  intros H. unfold ends. assert ((h, k) ∈ filter (λ x : slot, x = (h, k)) L) as Hf.
  { by apply list_elem_of_filter. }
  destruct (filter _ L); [by apply not_elem_of_nil in Hf|simpl; lia].
Qed.

Lemma ends_none L h k : (h, k) ∉ L → ends L h k = 0.
Proof.
  intros H. unfold ends. induction L as [|x L IH]; [done|]. rewrite filter_cons.
  apply not_elem_of_cons in H as [H1 H2]. rewrite decide_False by congruence. auto.
Qed.

(** A slot that is empty or holds a socket. *)
Lemma res_other h k L files pipes s :
  h = 0 ∨ k = UNIX_FD_KIND_SOCKET → res_ok ((h, k) :: L) files pipes s ↔ res_ok L files pipes s.
Proof.
  intros H. assert (file_slots ((h, k) :: L) = file_slots L) as Ef.
  { rewrite file_slots_cons, decide_False; [done|]. intros [? ->]. by destruct H. }
  assert (∀ h' k', h' ≠ 0 → pipe_kind k' → ends ((h, k) :: L) h' k' = ends L h' k') as Ee.
  { intros h' k' Hh Hk. rewrite ends_cons, decide_False; [lia|]. intros [-> ->].
    destruct H as [?|H]; [done|]. rewrite H in Hk. by destruct Hk. }
  split; intros [R1 R2 R3 R4 R5 R6].
  - rewrite Ef in *. split; try done.
    + intros h' p Hp. destruct (R4 h' p Hp) as (Hh & Ho & Hr & Hw & Hn).
      rewrite Ee in Hr, Hw by (done || (by left) || (by right)). done.
    + intros h' k' Hin. apply R5. by right.
    + intros h' k' Hin. apply R6. by right.
  - rewrite <- Ef in *. split; try done.
    + intros h' p Hp. destruct (R4 h' p Hp) as (Hh & Ho & Hr & Hw & Hn).
      by rewrite !Ee by (done || (by left) || (by right)).
    + intros h' k' [[= -> ->]|Hin]%elem_of_cons; [|by apply R5]. intros Hh Hk.
      destruct H as [?|H]; [done|]. rewrite H in Hk. by destruct Hk.
    + intros h' k' [[= -> ->]|Hin]%elem_of_cons; [|by apply R6]. intros Hh.
      destruct H as [?|H]; [done|]. auto.
Qed.

(** ** Open files *)
Lemma fmap_insert_fresh (files : gmap Z vfs_file_t) h f (l : list Z) :
  h ∉ l → ((<[h := f]> files) !!!.) <$> l = (files !!!.) <$> l.
Proof.
  intros H. apply list_fmap_ext. intros i x Hx. apply lookup_total_insert_ne.
  intros ->. by apply H, (list_elem_of_lookup_2 _ i).
Qed.

Lemma fmap_delete_fresh (files : gmap Z vfs_file_t) h (l : list Z) :
  h ∉ l → ((delete h files) !!!.) <$> l = (files !!!.) <$> l.
Proof.
  intros H. apply list_fmap_ext. intros i x Hx. apply lookup_total_delete_ne.
  intros ->. by apply H, (list_elem_of_lookup_2 _ i).
Qed.

(** A slot of a file has no part in the pipes. *)
Lemma ends_file h L h' k' : pipe_kind k' → ends ((h, UNIX_FD_KIND_VFS) :: L) h' k' = ends L h' k'.
Proof.
  intros Hk. rewrite ends_cons, decide_False; [lia|]. intros [_ <-]. by destruct Hk.
Qed.

Lemma res_add_file h f L files pipes s s' :
  res_ok L files pipes s → h ≠ 0 → files !! h = None →
  vsys_inv s' (f :: ((files !!!.) <$> file_slots L)) →
  res_ok ((h, UNIX_FD_KIND_VFS) :: L) (<[h := f]> files) pipes s'.
Proof.
  intros [R1 R2 R3 R4 R5 R6] Hh Hf V.
  assert (h ∉ file_slots L) as Hn. { rewrite R2, Hf. by intros [? ?]. }
  assert (file_slots ((h, UNIX_FD_KIND_VFS) :: L) = h :: file_slots L) as Ef.
  { by rewrite file_slots_cons, decide_True. }
  split; rewrite ?Ef.
  - by apply NoDup_cons.
  - intros h'. rewrite elem_of_cons, R2. destruct (decide (h = h')) as [<-|Hne].
    + rewrite lookup_insert_eq. naive_solver.
    + rewrite lookup_insert_ne by done. naive_solver.
  - rewrite fmap_cons, fmap_insert_fresh, lookup_total_insert_eq by done. done.
  - intros h' p Hp. rewrite !ends_file by ((by left) || (by right)). by apply R4.
  - intros h' k' [[= -> ->]|Hin]%elem_of_cons; [|by apply R5]. by intros _ [?|?].
  - intros h' k' [[= -> ->]|Hin]%elem_of_cons; [|by apply R6]. auto.
Qed.

Lemma res_del_file h L files pipes s :
  res_ok ((h, UNIX_FD_KIND_VFS) :: L) files pipes s → h ≠ 0 →
  res_ok L (delete h files) pipes (vfs_node_release s (f_node (files !!! h))).
Proof.
  intros [R1 R2 R3 R4 R5 R6] Hh.
  assert (file_slots ((h, UNIX_FD_KIND_VFS) :: L) = h :: file_slots L) as Ef.
  { by rewrite file_slots_cons, decide_True. }
  rewrite Ef in *. apply NoDup_cons in R1 as [Hn R1]. split.
  - done.
  - intros h'. specialize (R2 h'). rewrite elem_of_cons in R2. destruct (decide (h = h')) as [<-|Hne].
    + rewrite lookup_delete_eq. split; [done|by intros [? ?]].
    + rewrite lookup_delete_ne by done. rewrite <- R2. naive_solver.
  - rewrite fmap_delete_fresh by done. rewrite fmap_cons in R3.
    exact (vsys_release s [] _ _ R3).
  - intros h' p Hp. destruct (R4 h' p Hp) as (? & ? & Hr & Hw & ?).
    rewrite ends_file in Hr, Hw by ((by left) || (by right)). done.
  - intros h' k' Hin. apply R5. by right.
  - intros h' k' Hin. apply R6. by right.
Qed.

(** A call on an open file. *)
Lemma res_upd_file h f L files pipes s s' :
  res_ok L files pipes s → is_Some (files !! h) →
  (∀ fs, (files !!!.) <$> file_slots L ≡ₚ (files !!! h) :: fs → vsys_inv s ((files !!! h) :: fs) →
         vsys_inv s' (f :: fs)) →
  res_ok L (<[h := f]> files) pipes s'.
Proof.
  intros [R1 R2 R3 R4 R5 R6] Hh Hv. pose proof (proj2 (R2 h) Hh) as Hin.
  apply elem_of_Permutation in Hin as [l Hl]. split; try done.
  - intros h'. rewrite R2. destruct (decide (h = h')) as [<-|]; [|by rewrite lookup_insert_ne].
    rewrite lookup_insert_eq. naive_solver.
  - assert (h ∉ l) as Hn by (rewrite Hl in R1; by apply NoDup_cons in R1 as [? _]).
    rewrite Hl in R3. rewrite Hl, fmap_cons, fmap_insert_fresh, lookup_total_insert_eq by done.
    apply Hv; [by rewrite Hl|done].
Qed.

(** A call on the namespace, or one that changes nothing here. *)
Lemma res_vfs L files pipes s s' :
  res_ok L files pipes s → (∀ fs, vsys_inv s fs → vsys_inv s' fs) → res_ok L files pipes s'.
Proof. intros [R1 R2 R3 R4 R5 R6] Hv. split; auto. Qed.

(** ** Pipes *)
Lemma alter_has {A} (m : gmap Z A) f i j : is_Some (alter f i m !! j) ↔ is_Some (m !! j).
Proof.
  destruct (decide (i = j)) as [<-|]; [|by rewrite lookup_alter_ne].
  rewrite lookup_alter_eq. apply fmap_is_Some.
Qed.

Lemma file_slots_pipe h k L : pipe_kind k → file_slots ((h, k) :: L) = file_slots L.
Proof. intros Hk. rewrite file_slots_cons, decide_False; [done|]. intros [_ ->]. by destruct Hk. Qed.

(** The counts of the ends, as an end of the pipe is added. *)
Definition count_end (k : Z) (p : unix_pipe_t) : Z :=
  if decide (k = UNIX_FD_KIND_PIPE_R) then p_readers p else p_writers p.

Lemma ro_count L files pipes s h p k :
  res_ok L files pipes s → pipes !! h = Some p → pipe_kind k → count_end k p = ends L h k.
Proof.
  intros R Hp Hk. destruct (ro_pipes _ _ _ _ R h p Hp) as (_ & _ & Hr & Hw & _). unfold count_end.
  destruct Hk as [-> | ->]; [by rewrite decide_True|by rewrite decide_False].
Qed.

(** 1 for the end itself. *)
Definition one_if (k k' : Z) : Z := if decide (k = k') then 1 else 0.

Lemma retain_counts p k :
  pipe_ok p → pipe_kind k → count_end k p < 4294967295 →
  pipe_ok (unix_pipe_retain p k) ∧
  p_readers (unix_pipe_retain p k) = p_readers p + one_if k UNIX_FD_KIND_PIPE_R ∧
  p_writers (unix_pipe_retain p k) = p_writers p + one_if k UNIX_FD_KIND_PIPE_W.
Proof.
  intros [Km Kc Kt Kh Kd Kr Kw] Hk. unfold count_end, unix_pipe_retain, one_if.
  rewrite (proj2 (Z.eqb_eq _ _) Km).
  destruct Hk as [-> | ->]; simpl; intros Hb; unfold field_update; simpl; rewrite u32_small by lia;
    (split; [split; done || (simpl; lia)|]); simpl; lia.
Qed.

Lemma release_counts p k :
  pipe_ok p → pipe_kind k → 0 < count_end k p →
  match unix_pipe_release p k with
  | None => p_readers p + p_writers p = 1
  | Some p' => pipe_ok p' ∧ p_readers p' = p_readers p - one_if k UNIX_FD_KIND_PIPE_R ∧
               p_writers p' = p_writers p - one_if k UNIX_FD_KIND_PIPE_W ∧ 0 < p_readers p' + p_writers p'
  end.
Proof.
  intros [Km Kc Kt Kh Kd Kr Kw] Hk. unfold count_end, unix_pipe_release, one_if.
  rewrite (proj2 (Z.eqb_eq _ _) Km).
  destruct Hk as [-> | ->]; simpl; intros Hb; rewrite (proj2 (Z.ltb_lt 0 _)) by done;
    unfold field_update; simpl; case_if; bool_hyps; simpl in *; try lia;
    (split; [split; done || (simpl; lia)|]); simpl;
    destruct (Z.eqb_spec (p_readers p) 0), (Z.eqb_spec (p_writers p) 0); simpl in *; lia.
Qed.

Lemma ends_one h k L h' k' :
  ends ((h, k) :: L) h' k' = (if decide (h = h') then one_if k k' else 0) + ends L h' k'.
Proof. rewrite ends_cons. unfold one_if. repeat case_decide; lia || (exfalso; naive_solver). Qed.

Lemma res_retain_pipe h k L files pipes s :
  res_ok L files pipes s → is_Some (pipes !! h) → pipe_kind k → ends L h k < 4294967295 →
  res_ok ((h, k) :: L) files (alter (λ p, unix_pipe_retain p k) h pipes) s.
Proof.
  intros R [p Hp] Hk Hb. pose proof (ro_count _ _ _ _ _ _ _ R Hp Hk) as Hc.
  destruct R as [R1 R2 R3 R4 R5 R6]. split; rewrite ?(file_slots_pipe h k L Hk); try done.
  - intros h' p'. rewrite !ends_one. destruct (decide (h = h')) as [<-|Hne].
    + rewrite lookup_alter_eq, Hp. intros [= <-]. destruct (R4 h p Hp) as (Hh & Ho & Hr & Hw & Hn).
      destruct (retain_counts p k Ho Hk) as (Ho' & -> & ->); [lia|]. split; [done|]. split; [done|].
      unfold one_if in *. repeat case_decide; lia.
    + rewrite lookup_alter_ne by done. by apply R4.
  - intros h' k' Hin Hh Hk'. rewrite alter_has. apply elem_of_cons in Hin as [[= -> ->]|Hin];
      [by eexists|by eapply R5].
  - intros h' k' [[= -> ->]|Hin]%elem_of_cons; [auto|by apply R6].
Qed.

(** The pipes after the release of an end. *)
Definition drop_end (h k : Z) (pipes : gmap Z unix_pipe_t) : gmap Z unix_pipe_t :=
  match unix_pipe_release (pipes !!! h) k with
  | None => delete h pipes
  | Some p => alter (λ _, p) h pipes
  end.

Lemma res_release_pipe h k L files pipes s :
  res_ok ((h, k) :: L) files pipes s → h ≠ 0 → pipe_kind k → res_ok L files (drop_end h k pipes) s.
Proof.
  intros R Hh Hk. destruct (ro_ends _ _ _ _ R h k) as [p Hp]; [by left|done|done|].
  pose proof (ro_count _ _ _ _ _ _ _ R Hp Hk) as Hc.
  pose proof (ends_pos ((h, k) :: L) h k ltac:(by left)) as Hpos.
  destruct R as [R1 R2 R3 R4 R5 R6]. rewrite file_slots_pipe in R1, R3 by done.
  setoid_rewrite file_slots_pipe in R2; [|done].
  destruct (R4 h p Hp) as (_ & Ho & Hr & Hw & Hn). rewrite ends_one, decide_True in Hr, Hw by done.
  pose proof (release_counts p k Ho Hk ltac:(lia)) as Hrel.
  unfold drop_end. rewrite (lookup_total_correct _ _ _ Hp).
  destruct (unix_pipe_release p k) as [p'|].
  - destruct Hrel as (Ho' & Hr' & Hw' & Hn'). split; try done.
    + intros h' q. destruct (decide (h = h')) as [<-|Hne].
      * rewrite lookup_alter_eq, Hp. intros [= <-]. split; [done|]. split; [done|]. lia.
      * rewrite lookup_alter_ne by done. intros Hq. destruct (R4 h' q Hq) as (? & ? & Hr2 & Hw2 & ?).
        by rewrite ends_one, decide_False in Hr2, Hw2.
    + intros h' k' Hin Hh' Hk'. rewrite alter_has. apply (R5 h' k'); [by right|done|done].
    + intros h' k' Hin. apply R6. by right.
  - assert (ends L h UNIX_FD_KIND_PIPE_R = 0 ∧ ends L h UNIX_FD_KIND_PIPE_W = 0) as [E1 E2].
    { unfold ends in *. unfold one_if in *. destruct Hk as [-> | ->]; simpl in *; lia. }
    split; try done.
    + intros h' q [Hne Hq]%lookup_delete_Some. destruct (R4 h' q Hq) as (? & ? & Hr2 & Hw2 & ?).
      by rewrite ends_one, decide_False in Hr2, Hw2.
    + intros h' k' Hin Hh' Hk'. rewrite lookup_delete_ne; [by apply (R5 h' k'); [right|..]|].
      intros <-. apply ends_pos in Hin. destruct Hk' as [-> | ->]; lia.
    + intros h' k' Hin. apply R6. by right.
Qed.

(** A new pipe with both ends. *)
Lemma res_new_pipe h data L files pipes s :
  res_ok L files pipes s → h ≠ 0 → (∀ k, (h, k) ∉ L) → length data = Z.to_nat UNIX_PIPE_CAP →
  res_ok ((h, UNIX_FD_KIND_PIPE_R) :: (h, UNIX_FD_KIND_PIPE_W) :: L) files (<[h := new_pipe data]> pipes) s.
Proof.
  intros R Hh Hn Hd. destruct (new_pipe_ok data Hd) as [Ho _].
  destruct R as [R1 R2 R3 R4 R5 R6].
  split; rewrite ?(file_slots_pipe _ _ _ (or_introl eq_refl)), ?(file_slots_pipe _ _ _ (or_intror eq_refl)); try done.
  - intros h' p. rewrite !ends_one. destruct (decide (h = h')) as [<-|Hne].
    + rewrite lookup_insert_eq. intros [= <-]. rewrite !ends_none by apply Hn. done.
    + rewrite lookup_insert_ne by done. apply R4.
  - intros h' k' Hin Hh' Hk'. destruct (decide (h = h')) as [<-|Hne]; [by rewrite lookup_insert_eq; eexists|].
    rewrite lookup_insert_ne by done.
    apply elem_of_cons in Hin as [[= -> _]|[[= -> _]|Hin]%elem_of_cons]; [done..|]. by eapply R5.
  - intros h' k' [[= -> ->]|[[= -> ->]|Hin]%elem_of_cons]%elem_of_cons; [|unfold pipe_kind; auto..|].
    + unfold pipe_kind. auto.
    + by apply R6.
Qed.

(** Bytes that go through a pipe. *)
Lemma res_upd_pipe h p p' L files pipes s :
  res_ok L files pipes s → pipes !! h = Some p → pipe_ok p' → p_readers p' = p_readers p →
  p_writers p' = p_writers p → res_ok L files (alter (λ _, p') h pipes) s.
Proof.
  intros [R1 R2 R3 R4 R5 R6] Hp Ho Hr Hw. split; try done.
  - intros h' q. destruct (decide (h = h')) as [<-|]; [|rewrite lookup_alter_ne by done; apply R4].
    rewrite lookup_alter_eq, Hp. intros [= <-]. rewrite Hr, Hw. destruct (R4 h p Hp) as (? & ? & ?). done.
  - intros h' k' Hin Hh Hk. rewrite alter_has. by eapply R5.
Qed.

End UnixRes.

(** * Descriptor tables

    The slots of all tasks as one multiset, and what a change of one slot does
    to it. *)
Module UnixSlots.
Import Sched Task Vfs VfsFile UnixPipe UnixFd UnixRes.

Definition task_slots (x : task_t) : list slot := zip (fd_table x) (fd_kind x).

(** The slots of all tasks, and with them the references [lost] that no slot
    holds any more. *)
Definition slots (lost : list slot) (s : sched_state) : list slot :=
  (map_to_list (tasks s) ≫= λ tx, task_slots tx.2) ++ lost.

Definition table_ok (x : task_t) : Prop :=
  length (fd_table x) = 32%nat ∧ length (fd_kind x) = 32%nat ∧ length (fd_flags x) = 32%nat.

(** All tables have their size, and NULL is no task. *)
Record tables_ok (s : sched_state) : Prop := {
  to_zero : tasks s !! 0 = None;
  to_shape : ∀ t x, tasks s !! t = Some x → table_ok x
}.

(** The slot [i] of [x] becomes [(h, k)]. *)
Definition slot_set (i : nat) (h k : Z) (x x' : task_t) : Prop :=
  table_ok x' ∧ fd_table x' = <[i := h]> (fd_table x) ∧ fd_kind x' = <[i := k]> (fd_kind x).

Lemma task_slots_set i h k x x' :
  table_ok x → (i < 32)%nat → slot_set i h k x x' →
  ∃ R, task_slots x ≡ₚ (fd_table x !!! i, fd_kind x !!! i) :: R ∧ task_slots x' ≡ₚ (h, k) :: R.
Proof.
  intros (H1 & H2 & _) Hi (_ & E1 & E2). unfold task_slots. rewrite E1, E2.
  destruct (lookup_lt_is_Some_2 (fd_table x) i ltac:(lia)) as [a Ha].
  destruct (lookup_lt_is_Some_2 (fd_kind x) i ltac:(lia)) as [c Hc].
  rewrite (list_lookup_total_correct _ _ _ Ha), (list_lookup_total_correct _ _ _ Hc).
  assert (zip (fd_table x) (fd_kind x) !! i = Some (a, c)) as Hz.
  { by apply lookup_zip_with_Some; eauto. }
  assert (zip (<[i := h]> (fd_table x)) (<[i := k]> (fd_kind x)) = <[i := (h, k)]> (zip (fd_table x) (fd_kind x))) as ->.
  { symmetry. apply insert_zip_with. }
  set (z := zip (fd_table x) (fd_kind x)) in *. exists (take i z ++ drop (S i) z). split.
  - rewrite <- (take_drop_middle z i (a, c) Hz) at 1. by rewrite Permutation_middle.
  - rewrite insert_take_drop by (by eapply lookup_lt_Some). by rewrite Permutation_middle.
Qed.

Section Slots.
Context (lost : list slot).
Local Notation slots := (slots lost).

Lemma slots_task s t x : tasks s !! t = Some x →
  slots s ≡ₚ task_slots x ++ (map_to_list (delete t (tasks s)) ≫= λ tx, task_slots tx.2) ++ lost.
Proof. intros Hx. unfold UnixSlots.slots. rewrite <- (map_to_list_delete (tasks s) t x Hx). simpl. by rewrite <- (assoc_L (++)). Qed.

Lemma slots_set s t x i h k f :
  tables_ok s → tasks s !! t = Some x → (i < 32)%nat → slot_set i h k x (f x) →
  tables_ok (tsk_upd t f s) ∧
  ∃ R, slots s ≡ₚ (fd_table x !!! i, fd_kind x !!! i) :: R ∧ slots (tsk_upd t f s) ≡ₚ (h, k) :: R.
Proof.
  intros T Hx Hi Hf. pose proof (to_shape _ T t x Hx) as Hs. split.
  - split.
    + simpl. rewrite lookup_alter_ne; [apply T|]. intros ->. rewrite (to_zero _ T) in Hx. done.
    + intros t' y. simpl. destruct (decide (t = t')) as [<-|]; [|rewrite lookup_alter_ne by done; apply T].
      rewrite lookup_alter_eq, Hx. intros [= <-]. apply Hf.
  - destruct (task_slots_set i h k x (f x) Hs Hi Hf) as (R & E1 & E2).
    exists (R ++ (map_to_list (delete t (tasks s)) ≫= λ tx, task_slots tx.2) ++ lost).
    rewrite (slots_task s t x Hx), E1.
    assert (tasks (tsk_upd t f s) !! t = Some (f x)) as Hx' by (simpl; by rewrite lookup_alter_eq, Hx).
    rewrite (slots_task _ t (f x) Hx'), E2. simpl. by rewrite delete_alter_eq.
Qed.

(** Flags and other fields do not matter. *)
Lemma slots_same s t f :
  tables_ok s → (∀ x, task_slots (f x) = task_slots x) → (∀ x, table_ok x → table_ok (f x)) →
  tables_ok (tsk_upd t f s) ∧ slots (tsk_upd t f s) ≡ₚ slots s.
Proof.
  intros T Hf Ho. destruct (tasks s !! t) as [x|] eqn:Hx.
  - split.
    + split.
      * simpl. rewrite lookup_alter_ne; [apply T|]. intros ->. rewrite (to_zero _ T) in Hx. done.
      * intros t' y. simpl. destruct (decide (t = t')) as [<-|]; [|rewrite lookup_alter_ne by done; apply T].
        rewrite lookup_alter_eq, Hx. intros [= <-]. by apply Ho, (to_shape _ T t).
    + assert (tasks (tsk_upd t f s) !! t = Some (f x)) as Hx' by (simpl; by rewrite lookup_alter_eq, Hx).
      rewrite (slots_task _ t (f x) Hx'), (slots_task s t x Hx), Hf. simpl. by rewrite delete_alter_eq.
  - assert (tasks (tsk_upd t f s) = tasks s) as E.
    { simpl. apply map_eq. intros i. destruct (decide (t = i)) as [<-|]; [|by rewrite lookup_alter_ne].
      by rewrite lookup_alter_eq, Hx. }
    split; [split; rewrite E; apply T|]. unfold UnixSlots.slots. by rewrite E.
Qed.

Lemma slot_in s t x i :
  tables_ok s → tasks s !! t = Some x → (i < 32)%nat → (fd_table x !!! i, fd_kind x !!! i) ∈ slots s.
Proof.
  intros T Hx Hi. destruct (to_shape _ T t x Hx) as (H1 & H2 & _). rewrite (slots_task s t x Hx).
  apply elem_of_app. left. unfold task_slots.
  destruct (lookup_lt_is_Some_2 (fd_table x) i ltac:(lia)) as [a Ha].
  destruct (lookup_lt_is_Some_2 (fd_kind x) i ltac:(lia)) as [c Hc].
  rewrite (list_lookup_total_correct _ _ _ Ha), (list_lookup_total_correct _ _ _ Hc).
  apply (list_elem_of_lookup_2 _ i). by apply lookup_zip_with_Some; eauto.
Qed.

(** ** The descriptor invariant *)
Context {D : Type} (net : net_ops D).
Implicit Types u : unix_state D.

Record fd_inv (u : unix_state D) : Prop := {
  fv_tables : tables_ok (us_sched u);
  fv_res : res_ok (slots (us_sched u)) (us_files u) (us_pipes u) (us_vfs u)
}.

(** The tasks that exist, the current one and the clock are those of [s], and
    so are the other slots. *)
Record other_slots (s s' : sched_state) (t fd : Z) : Prop := {
  os_task : current_task s' = current_task s;
  os_ticks : sched_ticks s' = sched_ticks s;
  os_tasks : ∀ t', is_Some (tasks s' !! t') ↔ is_Some (tasks s !! t');
  os_slot : ∀ t' fd', (t', Z.to_nat fd') ≠ (t, Z.to_nat fd) →
    fd_table (tsk s' t') !!! Z.to_nat fd' = fd_table (tsk s t') !!! Z.to_nat fd' ∧
    fd_kind (tsk s' t') !!! Z.to_nat fd' = fd_kind (tsk s t') !!! Z.to_nat fd' ∧
    fd_flags (tsk s' t') !!! Z.to_nat fd' = fd_flags (tsk s t') !!! Z.to_nat fd'
}.

Lemma other_refl s t fd : other_slots s s t fd.
Proof. by split. Qed.

Lemma other_trans s s1 s2 t fd : other_slots s s1 t fd → other_slots s1 s2 t fd → other_slots s s2 t fd.
Proof.
  intros [A1 B1 C1 D1] [A2 B2 C2 D2]. split; [congruence|congruence|intros t'; by rewrite C2, C1|].
  intros t' fd' Hne.
  destruct (D2 t' fd' Hne) as (-> & -> & ->). auto.
Qed.

Lemma other_upd s t fd h k fl f :
  (∀ x, fd_table (f x) = <[Z.to_nat fd := h]> (fd_table x) ∧ fd_kind (f x) = <[Z.to_nat fd := k]> (fd_kind x) ∧
        fd_flags (f x) = <[Z.to_nat fd := fl]> (fd_flags x)) →
  other_slots s (tsk_upd t f s) t fd.
Proof.
  intros Hf. split; try done.
  - intros t'. simpl. destruct (decide (t = t')) as [<-|]; [|by rewrite lookup_alter_ne].
    rewrite lookup_alter_eq. apply fmap_is_Some.
  - intros t' fd' Hne. unfold tsk. simpl. destruct (decide (t = t')) as [<-|Ht].
    + rewrite !lookup_total_alt, lookup_alter_eq. destruct (tasks s !! t) as [x|]; [|done]. simpl.
      destruct (Hf x) as (-> & -> & ->).
      rewrite !list_lookup_total_alt, !list_lookup_insert_ne by congruence. done.
    + by rewrite lookup_total_alter_ne.
Qed.

End Slots.

Arguments fv_res {lost D}. Arguments fv_tables {lost D}. Arguments fd_inv lost {D} u.

End UnixSlots.
