(* ===== verification/UnixFdInv.v ===== *)
(** * The descriptor invariant

    Every operation of the descriptor layer keeps the tables and what they
    refer to in step: no open file or pipe is freed while a descriptor refers
    to it, and none stays behind without one. *)

From stdpp Require Import base gmap list numbers fin_maps.
From S2P Require Import Prelude Sched Task Vfs VfsFile VfsFacts VfsTree VfsOps VfsNames VfsSteps UnixPipe.
From S2P Require Import UnixFd UnixRes.

Module UnixFdInv.
Import Sched Task Vfs VfsFile VfsFacts VfsTree VfsInv VfsOps VfsNames VfsData VfsSteps.
Import UnixPipe UnixFd UnixRes UnixSlots.

Section Inv.
Context {D : Type} (ops : vfs_ops D) (net : net_ops D).
Context {lost : list slot}.
Implicit Types u : unix_state D.
Local Notation slots := (slots lost).
Local Notation fd_inv := (fd_inv lost).

Lemma bad_fd_false fd : bad_fd fd = false → 0 ≤ fd < 32.
Proof. unfold bad_fd, TASK_MAX_FD. intros. bool_hyps. lia. Qed.

(** ** Releasing a descriptor *)
Lemma close_file_eq h u :
  close_file h u = u <| us_vfs := vfs_node_release (us_vfs u) (f_node (us_files u !!! h)) |>
                     <| us_files ::= delete h |>.
Proof.
  unfold close_file, vfs_close. case_if; bool_hyps; [done|]. rewrite Eif. done.
Qed.

(** The resources after the release of the slot [(h, k)]. *)
Definition let_go (h k : Z) (u : unix_state D) : unix_state D :=
  if k =? UNIX_FD_KIND_VFS then close_file h u
  else if (k =? UNIX_FD_KIND_PIPE_R) || (k =? UNIX_FD_KIND_PIPE_W) then u <| us_pipes ::= drop_end h k |>
  else if k =? UNIX_FD_KIND_SOCKET then u <| us_dev ::= λ d, op_socket_close net d h |>
  else u.

Definition empty_slot (fd : Z) (x : task_t) : task_t :=
  x <| fd_table ::= <[Z.to_nat fd := 0]> |> <| fd_flags ::= <[Z.to_nat fd := 0]> |>
    <| fd_kind ::= <[Z.to_nat fd := 0]> |>.

Lemma let_go_sched h k u : us_sched (let_go h k u) = us_sched u.
Proof.
  unfold let_go. rewrite close_file_eq. by repeat case_if.
Qed.

Lemma fd_release_eq u t fd :
  t ≠ 0 → bad_fd fd = false → fd_handle u t fd ≠ 0 →
  unix_fd_release net u t fd
    = (let_go (fd_handle u t fd) (fd_kind_of u t fd) u) <| us_sched ::= tsk_upd t (empty_slot fd) |>.
Proof.
  intros Ht Hfd Hh. unfold unix_fd_release. rewrite (proj2 (Z.eqb_neq t 0)), Hfd, (proj2 (Z.eqb_neq _ 0)) by done.
  cbn [orb]. set (h := fd_handle u t fd) in *. set (k := fd_kind_of u t fd).
  match goal with |- ?a <| us_sched ::= _ |> = _ => assert (a = let_go h k u) as -> end.
  { unfold let_go. repeat case_if; try done. unfold field_update, drop_end. simpl.
    by destruct (unix_pipe_release (us_pipes u !!! h) k). }
  unfold field_update. f_equal. rewrite let_go_sched. unfold task_fd_close.
  rewrite (proj2 (Z.eqb_neq t 0)) by done. unfold bad_fd in Hfd. cbn [orb]. rewrite Hfd.
  fold (fd_handle u t fd). by rewrite (proj2 (Z.eqb_neq _ 0)).
Qed.

Lemma let_go_res h k R u :
  res_ok ((h, k) :: R) (us_files u) (us_pipes u) (us_vfs u) → h ≠ 0 →
  res_ok R (us_files (let_go h k u)) (us_pipes (let_go h k u)) (us_vfs (let_go h k u)).
Proof.
  intros Hr Hh. unfold let_go. destruct (ro_kinds _ _ _ _ Hr h k ltac:(left) Hh) as [-> | [[-> | ->] | ->]].
  - rewrite close_file_eq. by apply res_del_file.
  - simpl. apply res_release_pipe; [done..|by left].
  - simpl. apply res_release_pipe; [done..|by right].
  - simpl. by apply (res_other h UNIX_FD_KIND_SOCKET R); [right|].
Qed.

Lemma fd_release_inv u t fd :
  fd_inv u → is_Some (tasks (us_sched u) !! t) →
  fd_inv (unix_fd_release net u t fd) ∧
  other_slots (us_sched u) (us_sched (unix_fd_release net u t fd)) t fd ∧
  (bad_fd fd = false → fd_handle (unix_fd_release net u t fd) t fd = 0).
Proof.
  intros [T R] [x Hx]. assert (t ≠ 0) as Ht by (intros ->; rewrite (to_zero _ T) in Hx; done).
  destruct (bad_fd fd) eqn:Hfd.
  { unfold unix_fd_release. rewrite Hfd, orb_true_r. split; [done|]. split; [apply other_refl|done]. }
  pose proof (bad_fd_false fd Hfd) as Hr.
  destruct (Z.eq_dec (fd_handle u t fd) 0) as [Hz|Hz].
  { unfold unix_fd_release. rewrite Hz, Z.eqb_refl, !orb_true_r. split; [done|]. split; [apply other_refl|done]. }
  rewrite (fd_release_eq u t fd Ht Hfd Hz).
  assert (slot_set (Z.to_nat fd) 0 0 x (empty_slot fd x)) as Hs.
  { destruct (to_shape _ T t x Hx) as (H1 & H2 & H3). split; [|done].
    unfold table_ok, empty_slot. simpl. by rewrite !length_insert. }
  destruct (slots_set lost (us_sched u) t x (Z.to_nat fd) 0 0 (empty_slot fd) T Hx ltac:(lia) Hs) as (T' & R0 & E1 & E2).
  unfold fd_handle, fd_kind_of, tsk in *. rewrite (lookup_total_correct _ _ _ Hx) in *.
  split; [split|split].
  - simpl. by rewrite let_go_sched.
  - simpl. rewrite let_go_sched, E2. apply res_other; [by left|]. apply let_go_res; [by rewrite <- E1|done].
  - simpl. rewrite let_go_sched. by apply (other_upd _ t fd 0 0 0).
  - intros _. simpl. rewrite let_go_sched. unfold tsk_upd, field_update. simpl.
    rewrite lookup_total_alt, lookup_alter_eq, Hx. simpl.
    destruct (to_shape _ T t x Hx) as (H1 & _). rewrite list_lookup_total_alt, list_lookup_insert_eq by lia. done.
Qed.

(** Releasing closes files and opens none. *)
Lemma release_files u t fd : us_files (unix_fd_release net u t fd) ⊆ us_files u.
Proof.
  unfold unix_fd_release. case_if; [done|]. simpl. rewrite close_file_eq. repeat case_if; try done.
  - simpl. apply delete_subseteq.
  - by destruct (unix_pipe_release _ _).
Qed.

(** ** Filling a descriptor *)

(** There are fewer descriptors than a count can hold. *)
Definition few (u : unix_state D) : Prop := Z.of_nat (length (slots (us_sched u))) < 4294967294.

Lemma file_slots_length L : (length (file_slots L) ≤ length L)%nat.
Proof. unfold file_slots. rewrite length_fmap. apply length_filter. Qed.

Lemma ends_length L h k : ends L h k ≤ Z.of_nat (length L).
Proof. unfold ends. apply Nat2Z.inj_le, length_filter. Qed.

Definition fill (fd h k fl : Z) (x : task_t) : task_t :=
  x <| fd_table ::= <[Z.to_nat fd := h]> |> <| fd_kind ::= <[Z.to_nat fd := k]> |>
    <| fd_flags ::= <[Z.to_nat fd := fl]> |>.

Lemma fill_set fd h k fl x : table_ok x → slot_set (Z.to_nat fd) h k x (fill fd h k fl x).
Proof.
  intros (H1 & H2 & H3). split; [|done]. unfold table_ok, fill. simpl. by rewrite !length_insert.
Qed.

Lemma set_slot_eq t fd h k fl u : set_slot t fd h k fl u = u <| us_sched ::= tsk_upd t (fill fd h k fl) |>.
Proof. done. Qed.

(** A slot after it was filled. *)
Definition slot_is (u : unix_state D) (t fd h k fl : Z) : Prop :=
  fd_handle u t fd = h ∧ fd_kind_of u t fd = k ∧ fd_flags_of u t fd = fl.

Lemma fill_slot_is u t x fd h k fl :
  tasks (us_sched u) !! t = Some x → table_ok x → 0 ≤ fd < 32 → slot_is (set_slot t fd h k fl u) t fd h k fl.
Proof.
  intros Hx (H1 & H2 & H3) Hfd. unfold slot_is, fd_handle, fd_kind_of, fd_flags_of, tsk. rewrite set_slot_eq.
  unfold field_update. simpl. rewrite !lookup_total_alt, lookup_alter_eq, Hx. simpl.
  rewrite !list_lookup_total_alt, !list_lookup_insert_eq by lia. done.
Qed.

(** The slot [fd] of [t], which is free, takes a new reference. *)
Lemma fill_inv u u' t fd h k fl :
  fd_inv u → is_Some (tasks (us_sched u) !! t) → bad_fd fd = false → fd_handle u t fd = 0 →
  us_sched u' = us_sched u →
  (∀ R, res_ok R (us_files u) (us_pipes u) (us_vfs u) → slots (us_sched u) ≡ₚ (0, fd_kind_of u t fd) :: R →
        res_ok ((h, k) :: R) (us_files u') (us_pipes u') (us_vfs u')) →
  fd_inv (set_slot t fd h k fl u') ∧ other_slots (us_sched u) (us_sched (set_slot t fd h k fl u')) t fd ∧
  slot_is (set_slot t fd h k fl u') t fd h k fl.
Proof.
  intros [T R] [x Hx] Hfd Hz Es Hres. pose proof (bad_fd_false fd Hfd) as Hr.
  pose proof (to_shape _ T t x Hx) as Hs.
  destruct (slots_set lost (us_sched u) t x (Z.to_nat fd) h k (fill fd h k fl) T Hx ltac:(lia) (fill_set fd h k fl x Hs))
    as (T' & R0 & E1 & E2).
  unfold fd_handle, fd_kind_of, tsk in Hz, Hres. rewrite (lookup_total_correct _ _ _ Hx) in Hz, Hres.
  rewrite Hz in E1. split; [split|split].
  - rewrite set_slot_eq. simpl. by rewrite Es.
  - rewrite set_slot_eq. simpl. rewrite Es, E2. apply Hres; [|done].
    rewrite E1 in R. apply res_other in R; [done|by left].
  - rewrite set_slot_eq. simpl. rewrite Es. by apply (other_upd _ t fd h k fl).
  - apply (fill_slot_is u' t x); [by rewrite Es|done|done].
Qed.

(** The blocks that [kmalloc] returns are new. *)
Definition fresh_file (blk : Z) (u : unix_state D) : Prop := blk ≠ 0 → us_files u !! blk = None.

(** What a duplication leaves: the slot refers to a copy of the open file, with
    its own position from then on, or to the same pipe. *)
Definition duplicated (u u' : unix_state D) (h k t fd fl blk : Z) : Prop :=
  (k = UNIX_FD_KIND_VFS → slot_is u' t fd blk k fl ∧ us_files u' !! blk = us_files u !! h ∧
     us_files u' !! h = us_files u !! h) ∧
  (pipe_kind k → slot_is u' t fd h k fl ∧ ∃ p p', us_pipes u !! h = Some p ∧ us_pipes u' !! h = Some p' ∧
     pipe_bytes p' = pipe_bytes p).

Lemma open_file u h :
  fd_inv u → (h, UNIX_FD_KIND_VFS) ∈ slots (us_sched u) → h ≠ 0 →
  h ∈ file_slots (slots (us_sched u)) ∧ ∃ f, us_files u !! h = Some f ∧ f_node f ≠ 0 ∧
    f ∈ ((us_files u !!!.) <$> file_slots (slots (us_sched u))).
Proof.
  intros [T R] Hin Hh. assert (h ∈ file_slots (slots (us_sched u))) as Hf.
  { unfold file_slots. apply list_elem_of_fmap. exists (h, UNIX_FD_KIND_VFS). split; [done|].
    by apply list_elem_of_filter. }
  split; [done|]. destruct (proj1 (ro_files _ _ _ _ R h) Hf) as [f Hfile]. exists f. split; [done|].
  assert (f ∈ ((us_files u !!!.) <$> file_slots (slots (us_sched u)))) as Hl.
  { apply list_elem_of_fmap. exists h. split; [|done]. symmetry. by apply lookup_total_correct. }
  split; [|done]. destruct (vs_inv _ _ (ro_vfs _ _ _ _ R)) as [K I].
  by destruct (open_node_live _ _ _ _ I Hl) as (x & _ & ?).
Qed.

Lemma dup_file_inv u h blk t fd fl rc u' :
  fd_inv u → few u → (h, UNIX_FD_KIND_VFS) ∈ slots (us_sched u) → h ≠ 0 → fresh_file blk u →
  is_Some (tasks (us_sched u) !! t) → bad_fd fd = false → fd_handle u t fd = 0 →
  dup_file u h blk t fd fl = (rc, u') →
  fd_inv u' ∧ other_slots (us_sched u) (us_sched u') t fd ∧
  (rc ≠ RDNX_OK → u' = u ∧ blk = 0) ∧ (rc = RDNX_OK → duplicated u u' h UNIX_FD_KIND_VFS t fd fl blk).
Proof.
  intros V Hfew Hin Hh Hfr Ht Hfd Hz. unfold dup_file.
  case_if; bool_hyps; [intros [= <- <-]; split; [done|]; split; [apply other_refl|done]|].
  destruct (open_file u h V Hin Hh) as (Hfs & f & Hf & Hn & Hl).
  rewrite (lookup_total_correct _ _ _ Hf). unfold vfs_file_dup. rewrite (proj2 (Z.eqb_neq _ 0)) by done.
  simpl. intros [= <- <-]. specialize (Hfr Eif).
  set (u1 := u <| us_vfs := _ |> <| us_files ::= _ |>).
  destruct (fill_inv u u1 t fd blk UNIX_FD_KIND_VFS fl V Ht Hfd Hz eq_refl) as (V' & O & S).
  { intros R Hr E. unfold u1. simpl. apply (res_add_file blk f R _ _ (us_vfs u)); try done.
    assert (file_slots (slots (us_sched u)) ≡ₚ file_slots R) as Ef.
    { by rewrite E, file_slots_cons, decide_False by (by intros [? _]). }
    pose proof (ro_vfs _ _ _ _ Hr) as Vr.
    assert (f ∈ ((us_files u !!!.) <$> file_slots R)) as Hl' by (by rewrite <- Ef).
    destruct (vsys_live _ _ _ Vr Hl') as [Hok Hlive]. apply vsys_retain; try done.
    rewrite length_fmap, <- Ef. pose proof (file_slots_length (slots (us_sched u))). unfold few in Hfew. lia. }
  split; [done|]. split; [done|]. split; [done|]. intros _. split; [|by intros [?|?]].
  intros _. split; [done|]. rewrite Hf. unfold u1. simpl. rewrite lookup_insert_eq. split; [done|].
  rewrite lookup_insert_ne by congruence. done.
Qed.

Lemma dup_pipe_inv u h k t fd fl rc u' :
  fd_inv u → few u → (h, k) ∈ slots (us_sched u) → h ≠ 0 → pipe_kind k →
  is_Some (tasks (us_sched u) !! t) → bad_fd fd = false → fd_handle u t fd = 0 →
  dup_pipe u h k t fd fl = (rc, u') →
  fd_inv u' ∧ other_slots (us_sched u) (us_sched u') t fd ∧ rc = RDNX_OK ∧
  duplicated u u' h k t fd fl 0.
Proof.
  intros V Hfew Hin Hh Hk Ht Hfd Hz. unfold dup_pipe.
  destruct (ro_ends _ _ _ _ (fv_res _ V) h k Hin Hh Hk) as [p Hp].
  destruct (ro_pipes _ _ _ _ (fv_res _ V) h p Hp) as (_ & Ho & _).
  rewrite (lookup_total_correct _ _ _ Hp), (po_magic _ Ho). simpl. intros [= <- <-].
  set (u1 := u <| us_pipes ::= _ |>).
  assert (count_end k p < 4294967295) as Hc.
  { rewrite (ro_count _ _ _ _ _ _ _ (fv_res _ V) Hp Hk).
    pose proof (ends_length (slots (us_sched u)) h k). unfold few in Hfew. lia. }
  destruct (fill_inv u u1 t fd h k fl V Ht Hfd Hz eq_refl) as (V' & O & S).
  { intros R Hr E. apply res_retain_pipe; [done|by eexists|done|].
    rewrite (ro_count _ _ _ _ _ _ _ Hr Hp Hk) in Hc. done. }
  split; [done|]. split; [done|]. split; [done|]. split; [intros ->; by destruct Hk|]. intros _.
  split; [done|]. exists p, (unix_pipe_retain p k). split; [done|]. unfold u1. simpl.
  rewrite lookup_alter_eq, Hp. split; [done|]. unfold unix_pipe_retain. by repeat case_if.
Qed.

(** The number of slots is that of the tasks. *)
Lemma slots_length s : tables_ok s → length (slots s) = (32 * size (tasks s) + length lost)%nat.
Proof.
  intros T. unfold UnixSlots.slots. rewrite <- length_map_to_list, length_app. f_equal.
  assert (Forall (λ tx, length (task_slots tx.2) = 32%nat) (map_to_list (tasks s))) as H.
  { apply Forall_forall. intros [t x] Hin%elem_of_map_to_list. destruct (to_shape _ T t x Hin) as (H1 & H2 & _).
    unfold task_slots. simpl. rewrite length_zip_with. lia. }
  induction H as [|tx l Hx _ IH]; [done|]. rewrite bind_cons, length_app, Hx, IH. simpl. lia.
Qed.

Lemma few_other u u' t fd :
  fd_inv u → fd_inv u' → other_slots (us_sched u) (us_sched u') t fd → few u → few u'.
Proof.
  intros [T _] [T' _] O. unfold few. rewrite !slots_length by done.
  assert (dom (tasks (us_sched u')) = dom (tasks (us_sched u))) as E.
  { apply set_eq. intros x. rewrite !elem_of_dom. apply (os_tasks _ _ _ _ O). }
  by rewrite <- !size_dom, E.
Qed.

(** ** Duplication *)
Lemma handle_in u t fd :
  fd_inv u → is_Some (tasks (us_sched u) !! t) → bad_fd fd = false →
  (fd_handle u t fd, fd_kind_of u t fd) ∈ slots (us_sched u).
Proof.
  intros [T _] [x Hx] Hfd%bad_fd_false. unfold fd_handle, fd_kind_of, tsk.
  rewrite (lookup_total_correct _ _ _ Hx). apply (slot_in lost _ t); [done|done|lia].
Qed.

Lemma dup_into_inv u t oldfd newfd blk rc u' :
  fd_inv u → few u → fresh_file blk u → is_Some (tasks (us_sched u) !! t) →
  (bad_fd newfd = false → fd_handle u t newfd = 0) →
  unix_fd_dup_into u t oldfd newfd blk = (rc, u') →
  fd_inv u' ∧ other_slots (us_sched u) (us_sched u') t newfd ∧ (rc ≠ RDNX_OK → u' = u) ∧
  (rc = RDNX_OK → (fd_kind_of u t oldfd = UNIX_FD_KIND_VFS ∨ pipe_kind (fd_kind_of u t oldfd)) ∧
     duplicated u u' (fd_handle u t oldfd) (fd_kind_of u t oldfd) t newfd 0 blk).
Proof.
  intros V Hfew Hfr Ht Hz. assert (fd_inv u ∧ other_slots (us_sched u) (us_sched u) t newfd) as Hid.
  { split; [done|apply other_refl]. }
  unfold unix_fd_dup_into. destruct (t =? 0); [intros [= <- <-]; naive_solver|].
  destruct (bad_fd oldfd) eqn:Hold; [intros [= <- <-]; naive_solver|].
  destruct (bad_fd newfd) eqn:Hnew; [intros [= <- <-]; naive_solver|]. cbn [orb].
  destruct (Z.eqb_spec (fd_handle u t oldfd) 0) as [|Hh]; [intros [= <- <-]; naive_solver|].
  pose proof (handle_in u t oldfd V Ht Hold) as Hin. specialize (Hz eq_refl).
  set (h := fd_handle u t oldfd) in *. set (k := fd_kind_of u t oldfd) in *.
  destruct (Z.eqb_spec k UNIX_FD_KIND_VFS) as [Ek|Ek].
  { rewrite Ek in *. intros Hd.
    destruct (dup_file_inv u h blk t newfd 0 rc u') as (V' & O & H1 & H2); try done.
    split; [done|]. split; [done|]. split; [intros Hrc; by apply H1|]. auto. }
  destruct ((k =? UNIX_FD_KIND_PIPE_R) || (k =? UNIX_FD_KIND_PIPE_W)) eqn:Hkb; [|intros [= <- <-]; naive_solver].
  assert (pipe_kind k) as Hk by (apply orb_true_iff in Hkb as [?|?]; [left|right]; by apply Z.eqb_eq).
  intros Hd. destruct (dup_pipe_inv u h k t newfd 0 rc u') as (V' & O & -> & Hdup); try done.
  split; [done|]. split; [done|]. split; [done|]. intros _. split; [by right|].
  destruct Hdup as [_ Hdup]. split; [done|]. intros Hk'. by apply Hdup.
Qed.

End Inv.

End UnixFdInv.

(** * Copies of descriptor tables

    [unix_clone_fds_for_spawn] gives a new process the files and pipes of its
    parent; when it fails, the child has no descriptors and everything else is
    as it was.  [unix_apply_cloexec] closes the marked descriptors. *)
Module UnixClone.
Import Sched Task Vfs VfsFile VfsFacts VfsTree VfsInv VfsOps VfsNames VfsData VfsSteps.
Import UnixPipe UnixFd UnixRes UnixSlots UnixFdInv.

Section Clone.
Context {D : Type} (net : net_ops D).
Context {lost : list slot}.
Implicit Types u : unix_state D.
Local Notation slots := (slots lost).
Local Notation fd_inv := (fd_inv lost).
Local Notation few := (few (lost := lost)).

(** ** Releasing many descriptors *)

(** Only descriptors of [t] in [l] change, and those are closed. *)
Record closed (u u' : unix_state D) (t : Z) (l : list Z) : Prop := {
  cl_inv : fd_inv u';
  cl_task : current_task (us_sched u') = current_task (us_sched u);
  cl_tasks : ∀ t', is_Some (tasks (us_sched u') !! t') ↔ is_Some (tasks (us_sched u) !! t');
  cl_slots : ∀ t' fd, 0 ≤ fd → t' ≠ t ∨ fd ∉ l →
    fd_handle u' t' fd = fd_handle u t' fd ∧ fd_kind_of u' t' fd = fd_kind_of u t' fd ∧
    fd_flags_of u' t' fd = fd_flags_of u t' fd;
  cl_closed : ∀ fd, fd ∈ l → bad_fd fd = false → fd_handle u' t fd = 0
}.

Lemma release_fold u t (P : unix_state D → Z → bool) l :
  fd_inv u → is_Some (tasks (us_sched u) !! t) → Forall (λ fd, 0 ≤ fd) l →
  let u' := foldl (λ u fd, if P u fd then unix_fd_release net u t fd else u) u l in
  fd_inv u' ∧ current_task (us_sched u') = current_task (us_sched u) ∧
  (∀ t', is_Some (tasks (us_sched u') !! t') ↔ is_Some (tasks (us_sched u) !! t')) ∧
  (∀ t' fd, 0 ≤ fd → t' ≠ t ∨ fd ∉ l →
     fd_handle u' t' fd = fd_handle u t' fd ∧ fd_kind_of u' t' fd = fd_kind_of u t' fd ∧
     fd_flags_of u' t' fd = fd_flags_of u t' fd).
Proof.
  revert u. induction l as [|fd l IH]; intros u V Ht Hl; simpl; [done|].
  apply Forall_cons in Hl as [Hfd Hl].
  destruct (fd_release_inv net u t fd V Ht) as (V1 & O & _).
  set (u1 := if P u fd then unix_fd_release net u t fd else u).
  assert (fd_inv u1 ∧ other_slots (us_sched u) (us_sched u1) t fd) as [V2 O2].
  { unfold u1. case_if; [done|]. split; [done|apply other_refl]. }
  destruct (IH u1 V2) as (V' & H1 & H2 & H3); [by apply (os_tasks _ _ _ _ O2)|done|].
  split; [done|]. split; [by rewrite H1, (os_task _ _ _ _ O2)|].
  split; [intros t'; by rewrite H2, (os_tasks _ _ _ _ O2)|].
  intros t' fd' Hf Hne. rewrite not_elem_of_cons in Hne.
  destruct (H3 t' fd' Hf ltac:(naive_solver)) as (-> & -> & ->).
  apply (os_slot _ _ _ _ O2 t' fd'). intros [= -> E]. apply Z2Nat.inj in E; [|done..]. naive_solver.
Qed.

Lemma fold_release_closed u t l fd :
  fd_inv u → is_Some (tasks (us_sched u) !! t) → Forall (λ fd, 0 ≤ fd) l → fd ∈ l → bad_fd fd = false →
  fd_handle (foldl (λ u fd, unix_fd_release net u t fd) u l) t fd = 0.
Proof.
  revert u. induction l as [|fd0 l IH]; intros u V Ht Hl Hin Hfd; [by apply not_elem_of_nil in Hin|]. simpl.
  apply Forall_cons in Hl as [Hfd0 Hl].
  destruct (fd_release_inv net u t fd0 V Ht) as (V1 & O & Hz).
  assert (is_Some (tasks (us_sched (unix_fd_release net u t fd0)) !! t)) as Ht1 by (by apply (os_tasks _ _ _ _ O)).
  destruct (decide (fd ∈ l)) as [Hl'|Hl']; [by apply IH|].
  apply elem_of_cons in Hin as [->|]; [|done].
  destruct (release_fold _ t (λ _ _, true) l V1 Ht1 Hl) as (_ & _ & _ & H3).
  destruct (H3 t fd0 Hfd0 (or_intror Hl')) as (-> & _). auto.
Qed.

Lemma all_fds_nonneg : Forall (λ fd, 0 ≤ fd) all_fds.
Proof. apply Forall_forall. intros fd (k & -> & _)%list_elem_of_fmap. lia. Qed.

Lemma all_fds_elem fd : fd ∈ all_fds ↔ bad_fd fd = false.
Proof.
  unfold all_fds. rewrite list_elem_of_fmap. split.
  - intros (k & -> & Hk%elem_of_seq). unfold bad_fd, TASK_MAX_FD in *.
    rewrite (proj2 (Z.ltb_ge _ _)), (proj2 (Z.leb_gt _ _)); [done|simpl in Hk; lia|lia].
  - intros Hfd%bad_fd_false. exists (Z.to_nat fd). split; [lia|]. apply elem_of_seq. unfold TASK_MAX_FD. simpl. lia.
Qed.

Lemma all_fds_nodup : NoDup all_fds.
Proof. unfold all_fds. apply NoDup_fmap_2; [intros ??; lia|apply NoDup_seq]. Qed.

Lemma release_all_closed u t :
  fd_inv u → is_Some (tasks (us_sched u) !! t) → closed u (release_all net t u) t all_fds.
Proof.
  intros V Ht. unfold release_all.
  destruct (release_fold u t (λ _ _, true) all_fds V Ht all_fds_nonneg) as (V' & H1 & H2 & H3).
  split; try done. intros fd Hin Hfd. apply fold_release_closed; try done. apply all_fds_nonneg.
Qed.

Lemma release_all_files t u : us_files (release_all net t u) ⊆ us_files u.
Proof.
  unfold release_all. generalize all_fds. intros l. revert u. induction l as [|fd l IH]; intros u; simpl; [done|].
  etrans; [apply IH|]. apply release_files.
Qed.

(** ** The table of a new process *)

(** What the child gets for the descriptor [fd] of its parent. *)
Definition inherited (u u' : unix_state D) (parent child fd blk : Z) : Prop :=
  let h := fd_handle u parent fd in
  let k := fd_kind_of u parent fd in
  let fl := fd_flags_of u parent fd in
  (h = 0 ∨ k = UNIX_FD_KIND_SOCKET → slot_is u' child fd 0 UNIX_FD_KIND_NONE 0) ∧
  (h ≠ 0 → k = UNIX_FD_KIND_VFS → slot_is u' child fd blk k fl ∧ us_files u' !! blk = us_files u !! h) ∧
  (h ≠ 0 → pipe_kind k → slot_is u' child fd h k fl).

Lemma clone_fd_inv u parent child fd blk rc u' :
  fd_inv u → few u → fresh_file blk u → is_Some (tasks (us_sched u) !! parent) →
  is_Some (tasks (us_sched u) !! child) → bad_fd fd = false → fd_handle u child fd = 0 →
  clone_fd u parent child fd blk = (rc, u') →
  fd_inv u' ∧ other_slots (us_sched u) (us_sched u') child fd ∧
  (rc = RDNX_OK → us_files u ⊆ us_files u' ∧ (∀ h, us_files u !! h = None → h ≠ blk ∨ blk = 0 → us_files u' !! h = None) ∧
     inherited u u' parent child fd blk) ∧
  (rc ≠ RDNX_OK → u' = u).
Proof.
  intros V Hfew Hfr Hp Hc Hfd Hz. pose proof (handle_in u parent fd V Hp Hfd) as Hin.
  unfold clone_fd, inherited.
  set (h := fd_handle u parent fd) in *. set (k := fd_kind_of u parent fd) in *. set (fl := fd_flags_of u parent fd).
  destruct (fill_inv u u child fd 0 UNIX_FD_KIND_NONE 0 V Hc Hfd Hz eq_refl) as (V0 & O0 & S0).
  { intros R Hr _. apply res_other; [by left|done]. }
  destruct (Z.eqb_spec h 0) as [Eh|Hh].
  { intros [= <- <-]. split; [done|]. split; [done|]. split; [|done]. intros _. by do 4 (split; [done|]). }
  destruct (ro_kinds _ _ _ _ (fv_res _ V) h k Hin Hh) as [Ek | [Ek | Ek]].
  - rewrite Ek in *. simpl. intros Hd. destruct (dup_file_inv (lost := lost) u h blk child fd fl rc u') as (V' & O & H1 & H2); try done.
    split; [done|]. split; [done|]. split; [|intros Hr; by apply H1]. intros ->.
    revert Hd. unfold dup_file. case_if; [done|]. bool_hyps.
    destruct (vfs_file_dup _ _ _) as [[r c] s]. case_if; [done|]. intros [= <-].
    destruct (H2 eq_refl) as [H3 _]. destruct (H3 eq_refl) as (S & E1 & _). simpl. simpl in E1. rewrite E1.
    split; [apply insert_subseteq, Hfr, Eif|]. split; [intros h' Hn [Hne|?]; [by rewrite lookup_insert_ne|done]|].
    split; [intros [?|?]; done|]. split; [done|]. by intros _ [?|?].
  - assert ((k =? UNIX_FD_KIND_VFS) = false) as -> by (by destruct Ek as [-> | ->]).
    assert ((k =? UNIX_FD_KIND_PIPE_R) || (k =? UNIX_FD_KIND_PIPE_W) = true) as -> by (by destruct Ek as [-> | ->]).
    intros Hd. destruct (dup_pipe_inv (lost := lost) u h k child fd fl rc u') as (V' & O & -> & _ & H2); try done.
    split; [done|]. split; [done|]. split; [|done]. intros _. revert Hd. unfold dup_pipe. case_if; [done|].
    intros [= <-]. split; [done|]. split; [done|]. split; [intros [?|E]; [done|]; rewrite E in Ek; by destruct Ek|].
    split; [intros _ E; rewrite E in Ek; by destruct Ek|]. intros _ Hk. by destruct (H2 Hk).
  - rewrite Ek. simpl. intros [= <- <-]. split; [done|]. split; [done|]. split; [|done]. intros _.
    do 4 (split; [done|]). by intros _ [?|?].
Qed.

(** The slots of [u], apart from those of [t] in [l], are in [u'] as they were. *)
Record rest_same (u u' : unix_state D) (t : Z) (l : list Z) : Prop := {
  rs_task : current_task (us_sched u') = current_task (us_sched u);
  rs_tasks : ∀ t', is_Some (tasks (us_sched u') !! t') ↔ is_Some (tasks (us_sched u) !! t');
  rs_slots : ∀ t' fd, 0 ≤ fd → t' ≠ t ∨ fd ∉ l →
    slot_is u' t' fd (fd_handle u t' fd) (fd_kind_of u t' fd) (fd_flags_of u t' fd)
}.

Lemma rest_other u u' t fd l :
  0 ≤ fd → other_slots (us_sched u) (us_sched u') t fd → rest_same u u' t (fd :: l).
Proof.
  intros Hfd O. split; [apply O|apply O|]. intros t' fd' Hf Hne. apply (os_slot _ _ _ _ O t' fd').
  rewrite not_elem_of_cons in Hne. intros [= -> E]. apply Z2Nat.inj in E; [|done..]. naive_solver.
Qed.

Lemma rest_trans u u1 u2 t l : rest_same u u1 t l → rest_same u1 u2 t l → rest_same u u2 t l.
Proof.
  intros [A1 B1 C1] [A2 B2 C2]. split; [congruence|intros t'; by rewrite B2, B1|].
  intros t' fd Hf Hne. destruct (C1 t' fd Hf Hne) as (E1 & E2 & E3). rewrite <- E1, <- E2, <- E3. auto.
Qed.

Lemma rest_weaken u u' t l l' : (∀ fd, fd ∈ l → fd ∈ l') → rest_same u u' t l → rest_same u u' t l'.
Proof. intros Hl [A B C]. split; [done|done|]. intros t' fd Hf Hne. apply C; [done|]. naive_solver. Qed.

(** Files of other processes are not touched by the copies and their release. *)
Lemma files_survive u1 u' t fd :
  fd_inv u' → us_files u' ⊆ us_files u1 → is_Some (tasks (us_sched u') !! t) → bad_fd fd = false →
  fd_handle u' t fd ≠ 0 → fd_kind_of u' t fd = UNIX_FD_KIND_VFS →
  us_files u' !! fd_handle u' t fd = us_files u1 !! fd_handle u' t fd.
Proof.
  intros V Hs Ht Hfd Hh Hk. pose proof (handle_in u' t fd V Ht Hfd) as Hin. rewrite Hk in Hin.
  destruct (open_file u' _ V Hin Hh) as (_ & f & Hf & _). rewrite Hf. symmetry. by apply (lookup_weaken (us_files u')).
Qed.

(** The files of the tasks other than [t] are open in both states, with the
    same position. *)
Definition same_files (u u' : unix_state D) (t : Z) : Prop :=
  ∀ t' fd, t' ≠ t → is_Some (tasks (us_sched u) !! t') → bad_fd fd = false → fd_handle u t' fd ≠ 0 →
    fd_kind_of u t' fd = UNIX_FD_KIND_VFS →
    us_files u' !! fd_handle u t' fd = us_files u !! fd_handle u t' fd.

Lemma same_files_grow u u' t : fd_inv u → us_files u ⊆ us_files u' → same_files u u' t.
Proof.
  intros V Hs t' fd _ Ht Hfd Hh Hk. pose proof (handle_in u t' fd V Ht Hfd) as Hin. rewrite Hk in Hin.
  destruct (open_file u _ V Hin Hh) as (_ & f & Hf & _). rewrite Hf. by apply (lookup_weaken (us_files u)).
Qed.

(** The release of all descriptors of [t] after files were added. *)
Lemma release_all_same u u1 t :
  fd_inv u1 → is_Some (tasks (us_sched u1) !! t) → same_files u u1 t → rest_same u u1 t all_fds →
  fd_inv (release_all net t u1) ∧ rest_same u (release_all net t u1) t all_fds ∧
  same_files u (release_all net t u1) t ∧ (∀ fd, bad_fd fd = false → fd_handle (release_all net t u1) t fd = 0).
Proof.
  intros V1 Ht Hs Hr. destruct (release_all_closed u1 t V1 Ht) as [V' A B C Hc].
  assert (rest_same u (release_all net t u1) t all_fds) as Hr'.
  { apply (rest_trans u u1); [done|]. split; [done|done|]. intros t' fd Hf Hne. by apply C. }
  split; [done|]. split; [done|]. split; [|intros fd Hfd; apply Hc; [by apply all_fds_elem|done]].
  intros t' fd Hne Ht' Hfd Hh Hk. pose proof (bad_fd_false fd Hfd).
  destruct (rs_slots _ _ _ _ Hr' t' fd ltac:(lia) (or_introl Hne)) as (E1 & E2 & _).
  rewrite <- E1. rewrite (files_survive u1).
  - rewrite E1. by apply Hs.
  - done.
  - apply release_all_files.
  - by apply (rs_tasks _ _ _ _ Hr').
  - done.
  - congruence.
  - congruence.
Qed.

Lemma same_files_trans u u1 u2 t :
  rest_same u u1 t all_fds → same_files u u1 t → same_files u1 u2 t → same_files u u2 t.
Proof.
  intros Hr H1 H2 t' fd Hne Ht Hfd Hh Hk. pose proof (bad_fd_false fd Hfd).
  destruct (rs_slots _ _ _ _ Hr t' fd ltac:(lia) (or_introl Hne)) as (E1 & E2 & _).
  rewrite <- (H1 t' fd), <- E1 by done. apply H2; try done; [by apply (rs_tasks _ _ _ _ Hr)|congruence..].
Qed.

(** The copy of [fd] stays when the rest of the table is copied, and depends on
    the parent's slot only. *)
Lemma inherited_later u u1 u' parent child fd blk l :
  fd_inv u → is_Some (tasks (us_sched u) !! parent) → bad_fd fd = false → fd ∉ l →
  inherited u u1 parent child fd blk → rest_same u1 u' child l → us_files u1 ⊆ us_files u' →
  inherited u u' parent child fd blk.
Proof.
  intros V Hp Hfd Hl (H1 & H2 & H3) Hr Hs. pose proof (bad_fd_false fd Hfd).
  assert (∀ h k fl, slot_is u1 child fd h k fl → slot_is u' child fd h k fl) as Hslot.
  { intros h k fl (<- & <- & <-). apply (rs_slots _ _ _ _ Hr); [lia|by right]. }
  split; [auto|]. split; [|auto]. intros Hh Hk. destruct (H2 Hh Hk) as [S E]. split; [by apply Hslot|].
  pose proof (handle_in u parent fd V Hp Hfd) as Hin. rewrite Hk in Hin.
  destruct (open_file u _ V Hin Hh) as (_ & f & Hf & _). rewrite Hf in *. by apply (lookup_weaken (us_files u1)).
Qed.

Lemma inherited_earlier u u1 u' parent child fd blk l :
  fd_inv u → is_Some (tasks (us_sched u) !! parent) → bad_fd fd = false → parent ≠ child →
  rest_same u u1 child l → us_files u ⊆ us_files u1 →
  inherited u1 u' parent child fd blk → inherited u u' parent child fd blk.
Proof.
  intros V Hp Hfd Hne Hr Hs (H1 & H2 & H3). pose proof (bad_fd_false fd Hfd).
  destruct (rs_slots _ _ _ _ Hr parent fd ltac:(lia) (or_introl Hne)) as (E1 & E2 & E3).
  rewrite E1, E2, ?E3 in *. split; [done|]. split; [|done]. intros Hh Hk. destruct (H2 Hh Hk) as [S E].
  split; [done|]. rewrite E. by apply (same_files_grow u u1 child V Hs).
Qed.

Lemma few_rest u u' t l : fd_inv u → fd_inv u' → rest_same u u' t l → few u → few u'.
Proof.
  intros [T _] [T' _] Hr. unfold few. rewrite !slots_length by done.
  assert (dom (tasks (us_sched u')) = dom (tasks (us_sched u))) as E.
  { apply set_eq. intros x. rewrite !elem_of_dom. apply (rs_tasks _ _ _ _ Hr). }
  by rewrite <- !size_dom, E.
Qed.

(** The blocks for the copies are new and different. *)
Definition fresh_files (blk : Z → Z) (l : list Z) (u : unix_state D) : Prop :=
  (∀ fd, fd ∈ l → fresh_file (blk fd) u) ∧
  (∀ fd fd', fd ∈ l → fd' ∈ l → fd ≠ fd' → blk fd ≠ 0 → blk fd ≠ blk fd').

Definition cloned (u u' : unix_state D) (rc parent child : Z) (blk : Z → Z) (l : list Z) : Prop :=
  fd_inv u' ∧ same_files u u' child ∧
  (rc = RDNX_OK → rest_same u u' child l ∧ us_files u ⊆ us_files u' ∧
     ∀ fd, fd ∈ l → inherited u u' parent child fd (blk fd)) ∧
  (rc ≠ RDNX_OK → rest_same u u' child all_fds ∧ ∀ fd, bad_fd fd = false → fd_handle u' child fd = 0).

Lemma clone_loop_inv u parent child blk l rc u' :
  fd_inv u → few u → parent ≠ child → is_Some (tasks (us_sched u) !! parent) →
  is_Some (tasks (us_sched u) !! child) → NoDup l →
  (∀ fd, fd ∈ l → bad_fd fd = false ∧ fd_handle u child fd = 0) → fresh_files blk l u →
  clone_loop net u parent child blk l = (rc, u') → cloned u u' rc parent child blk l.
Proof.
  revert u. induction l as [|fd l IH]; intros u V Hfew Hne Hp Hc Hnd Hl Hfr; simpl.
  { intros [= <- <-]. split; [done|]. split; [by apply same_files_grow|]. split; [|done]. intros _.
    split; [by split|]. split; [done|]. by intros fd ?%not_elem_of_nil. }
  destruct (clone_fd u parent child fd (blk fd)) as [r u1] eqn:E1.
  apply NoDup_cons in Hnd as [Hnin Hnd]. destruct (Hl fd ltac:(left)) as [Hfd Hz].
  pose proof (bad_fd_false fd Hfd) as Hb. destruct Hfr as [Hf1 Hf2].
  destruct (clone_fd_inv u parent child fd (blk fd) r u1 V Hfew (Hf1 fd ltac:(left)) Hp Hc Hfd Hz E1)
    as (V1 & O & Hok & Hfail).
  assert (∀ l, rest_same u u1 child (fd :: l)) as R1 by (intros ?; apply rest_other; [lia|done]).
  assert (rest_same u u1 child all_fds) as R2.
  { apply (rest_weaken _ _ _ [fd]); [|done]. intros fd' ->%list_elem_of_singleton. by apply all_fds_elem. }
  assert (is_Some (tasks (us_sched u1) !! child)) as Hc1 by (by apply (os_tasks _ _ _ _ O)).
  destruct (Z.eqb_spec r RDNX_OK) as [->|Hr].
  - destruct (Hok eq_refl) as (Hs & Hnew & Hin). intros HL.
    pose proof (same_files_grow u u1 child V Hs) as S1.
    destruct (IH u1) as (V' & S' & A & B); try done.
    + by apply (few_rest u u1 child [fd]).
    + by apply (os_tasks _ _ _ _ O).
    + intros fd' Hin'. destruct (Hl fd' ltac:(by right)) as [Hb' Hz']. split; [done|]. rewrite <- Hz'.
      pose proof (bad_fd_false fd' Hb'). apply (rs_slots _ _ _ _ (R1 [])); [lia|right].
      intros ->%list_elem_of_singleton. done.
    + split; [|intros; apply Hf2; [by right..|done|done]]. intros fd' Hin' Hne'. apply Hnew; [apply Hf1; [by right|done]|].
      left. apply not_eq_sym. destruct (Z.eq_dec (blk fd) 0) as [->|Hb0]; [done|].
      apply Hf2; [left|by right| |done]. intros ->. done.
    + split; [done|]. split; [by apply (same_files_trans u u1)|]. split.
      * intros Hrc. destruct (A Hrc) as (R3 & Hs' & Hall). split; [|split].
        -- apply (rest_trans u u1); [done|]. apply (rest_weaken _ _ _ l); [by right|done].
        -- by etrans.
        -- intros fd' [-> | Hin']%elem_of_cons; [by apply (inherited_later u u1 u' _ _ _ _ l)|].
           apply (inherited_earlier u u1 u' _ _ _ _ all_fds); try done; [|by apply Hall]. by apply Hl; right.
      * intros Hrc. destruct (B Hrc) as [R3 Hall]. split; [by apply (rest_trans u u1)|done].
  - intros [= <- <-]. rewrite (Hfail Hr) in *.
    destruct (release_all_same u u child V Hc (same_files_grow u u child V ltac:(done)) R2) as (V' & R' & S' & Hall).
    split; [done|]. split; [done|]. split; [done|]. done.
Qed.

(** ** Descriptors closed by [exec] *)
Definition marked (u : unix_state D) (t fd : Z) : bool := has_flag (fd_flags_of u t fd) UNIX_FD_CLOEXEC.

Lemma release_marked_fold u t l :
  fd_inv u → is_Some (tasks (us_sched u) !! t) → Forall (λ fd, 0 ≤ fd) l → NoDup l →
  let u' := foldl (λ u fd, if marked u t fd then unix_fd_release net u t fd else u) u l in
  fd_inv u' ∧ rest_same u u' t l ∧
  (∀ fd, fd ∈ l → bad_fd fd = false →
     if marked u t fd then fd_handle u' t fd = 0
     else slot_is u' t fd (fd_handle u t fd) (fd_kind_of u t fd) (fd_flags_of u t fd)).
Proof.
  revert u. induction l as [|fd l IH]; intros u V Ht Hl Hnd; simpl.
  { split; [done|]. split; [by split|]. by intros fd ?%not_elem_of_nil. }
  apply Forall_cons in Hl as [Hfd Hl]. apply NoDup_cons in Hnd as [Hnin Hnd].
  destruct (fd_release_inv net u t fd V Ht) as (V1 & O & Hz).
  set (u1 := if marked u t fd then unix_fd_release net u t fd else u).
  assert (fd_inv u1 ∧ ∀ l, rest_same u u1 t (fd :: l)) as [V2 R2].
  { unfold u1. case_if; split; try done. intros l'. by apply rest_other. }
  destruct (IH u1 V2) as (V' & R' & Hall); [by apply (rs_tasks _ _ _ _ (R2 []))|done|done|].
  split; [done|]. split.
  { apply (rest_trans u u1); [done|]. apply (rest_weaken _ _ _ l); [by right|done]. }
  intros fd' Hin Hb. pose proof (bad_fd_false fd' Hb). destruct (decide (fd' ∈ l)) as [Hin'|Hnin'].
  - specialize (Hall fd' Hin' Hb).
    destruct (rs_slots _ _ _ _ (R2 []) t fd' ltac:(lia)) as (E1 & E2 & E3).
    { right. intros ->%list_elem_of_singleton. done. }
    unfold marked in *. rewrite E1, E2, E3 in Hall. done.
  - apply elem_of_cons in Hin as [->|]; [|done].
    destruct (rs_slots _ _ _ _ R' t fd ltac:(lia) (or_intror Hnin')) as (E1 & E2 & E3).
    unfold u1 in *. destruct (marked u t fd); [rewrite E1; auto|done].
Qed.

Lemma cloexec_inv u t :
  fd_inv u → is_Some (tasks (us_sched u) !! t) →
  let u' := unix_apply_cloexec net u t in
  fd_inv u' ∧ rest_same u u' t all_fds ∧
  (∀ fd, bad_fd fd = false →
     if marked u t fd then fd_handle u' t fd = 0
     else slot_is u' t fd (fd_handle u t fd) (fd_kind_of u t fd) (fd_flags_of u t fd)).
Proof.
  intros V Ht. unfold unix_apply_cloexec.
  assert ((t =? 0) = false) as ->.
  { apply Z.eqb_neq. intros ->. destruct Ht as [x Hx]. by rewrite (to_zero _ (fv_tables _ V)) in Hx. }
  destruct (release_marked_fold u t all_fds V Ht all_fds_nonneg all_fds_nodup) as (V' & R' & Hall).
  split; [done|]. split; [done|]. intros fd Hb. apply Hall; [by apply all_fds_elem|done].
Qed.

End Clone.

End UnixClone.
