(* ===== verification/UnixCalls.v ===== *)
(** * The descriptor calls keep the invariant

    Each system call of the descriptor layer, from a state in which the tables
    and the resources agree, leaves such a state. *)

From stdpp Require Import base gmap list numbers fin_maps.
From S2P Require Import Prelude Sched Task PathSpec Vfs VfsFile VfsFacts VfsTree VfsOps VfsNames VfsSteps.
From S2P Require Import UnixPath UnixPipe UnixFd UnixIo UnixRes UnixFdInv.

Module UnixCalls.
Import Sched Task PathSpec Vfs VfsFile VfsFacts VfsTree VfsInv VfsOps VfsNames VfsData VfsSteps.
Import UnixPath UnixPipe UnixFd UnixIo UnixRes UnixSlots UnixFdInv.

(** From a guard [(task == NULL) || ...] that does not hold. *)
Ltac not_null E := repeat (apply orb_false_iff in E as [E ?]); apply Z.eqb_neq in E.

Section Calls.
Context {D : Type} (ops : vfs_ops D) (net : net_ops D).
Implicit Types u : unix_state D.

(** A call that does not run into undefined behaviour leaves a state of [P]. *)
Definition leaves (P : unix_state D → Prop) (r : sysres D) : Prop :=
  match r with
  | SysRet _ u => P u
  | SysWait u => P u
  | SysExit u => P u
  | SysUndef => True
  end.

Section Lost.
Context {lost : list slot}.
Local Notation fd_inv := (fd_inv lost).
Local Notation few := (few (lost := lost)).

(** The current task exists. *)
Definition has_task (u : unix_state D) : Prop := utask u = 0 ∨ is_Some (tasks (us_sched u) !! utask u).

Lemma task_live u : has_task u → utask u ≠ 0 → is_Some (tasks (us_sched u) !! utask u).
Proof. by intros [|]. Qed.

(** ** Slots *)
Lemma free_slot_some l i j : free_slot l i = Some j → ∃ k, j = (i + k)%nat ∧ l !! k = Some 0.
Proof.
  revert i. induction l as [|h l IH]; intros i; simpl; [done|].
  destruct (Z.eqb_spec h 0) as [->|]; [intros [= <-]; exists 0%nat; split; [lia|done]|].
  intros (k & -> & Hk)%IH. exists (S k). split; [lia|done].
Qed.

Lemma free_slot_free u t i :
  fd_inv u → is_Some (tasks (us_sched u) !! t) → free_slot (fd_table (tsk (us_sched u) t)) 0 = Some i →
  bad_fd (Z.of_nat i) = false ∧ fd_handle u t (Z.of_nat i) = 0.
Proof.
  intros V [x Hx]. unfold fd_handle, tsk. rewrite (lookup_total_correct _ _ _ Hx).
  intros (k & -> & Hk)%free_slot_some. simpl. destruct (to_shape _ (fv_tables _ V) t x Hx) as (H1 & _).
  pose proof (lookup_lt_Some _ _ _ Hk). rewrite Nat2Z.id, (list_lookup_total_correct _ _ _ Hk). split; [|done].
  unfold bad_fd, TASK_MAX_FD. rewrite (proj2 (Z.ltb_ge _ _)), (proj2 (Z.leb_gt _ _)) by lia. done.
Qed.

(** [task_fd_alloc] and the assignment of the kind fill a free slot. *)
Lemma alloc_fills u u1 t h fd s :
  fd_inv u → is_Some (tasks (us_sched u) !! t) → h ≠ 0 → us_sched u1 = us_sched u →
  task_fd_alloc (us_sched u) t h = (fd, s) →
  (fd < 0 ∧ s = us_sched u) ∨
  (bad_fd fd = false ∧ fd_handle u t fd = 0 ∧
   ∀ k, set_kind t fd k (u1 <| us_sched := s |>) = set_slot t fd h k 0 u1).
Proof.
  intros V Ht Hh E. unfold task_fd_alloc.
  assert ((t =? 0) = false) as ->.
  { apply Z.eqb_neq. intros ->. destruct Ht as [x Hx]. by rewrite (to_zero _ (fv_tables _ V)) in Hx. }
  rewrite (proj2 (Z.eqb_neq h 0)) by done. cbn [orb].
  destruct (free_slot _ 0) as [i|] eqn:Hi; intros [= <- <-]; [right|left; by split].
  destruct (free_slot_free u t i V Ht Hi) as [Hb Hz]. split; [done|]. split; [done|]. intros k.
  unfold set_kind, set_slot, field_update, tsk_upd, field_update. simpl. rewrite E. f_equal. f_equal.
  rewrite alter_alter_eq. apply alter_ext. intros x _. simpl. rewrite Nat2Z.id, list_insert_insert_eq. done.
Qed.

(** ** Duplication *)
Lemma replace_inv u t oldi newi blk rc u' :
  fd_inv u → few u → is_Some (tasks (us_sched u) !! t) → fresh_file blk u →
  bad_fd oldi = false → bad_fd newi = false → oldi ≠ newi → fd_handle u t oldi ≠ 0 →
  replace_fd net u t oldi newi blk = (rc, u') →
  fd_inv u' ∧ other_slots (us_sched u) (us_sched u') t newi ∧
  (rc ≠ RDNX_OK → fd_handle u' t newi = 0) ∧
  (rc = RDNX_OK → (fd_kind_of u t oldi = UNIX_FD_KIND_VFS ∨ pipe_kind (fd_kind_of u t oldi)) ∧
    let u1 := unix_fd_release net u t newi in
    duplicated u1 u' (fd_handle u t oldi) (fd_kind_of u t oldi) t newi 0 blk).
Proof.
  intros V Hfew Ht Hfr Hold Hnew Hne Hh. unfold replace_fd.
  destruct (fd_release_inv net u t newi V Ht) as (V1 & O & Hz). specialize (Hz Hnew).
  set (u1 := unix_fd_release net u t newi) in *.
  assert ((if negb (fd_handle u t newi =? 0) then u1 else u) = u1) as ->.
  { destruct (Z.eqb_spec (fd_handle u t newi) 0) as [E|]; [|done]. unfold u1, unix_fd_release.
    rewrite E, Z.eqb_refl, orb_true_r. done. }
  assert (fd_handle u1 t oldi = fd_handle u t oldi ∧ fd_kind_of u1 t oldi = fd_kind_of u t oldi) as [E1 E2].
  { pose proof (bad_fd_false oldi Hold). pose proof (bad_fd_false newi Hnew).
    destruct (os_slot _ _ _ _ O t oldi) as (? & ? & _); [|done]. intros [= E]. lia. }
  intros Hd. destruct (dup_into_inv (lost := lost) u1 t oldi newi blk rc u') as (V' & O' & Hf & Hok); try done.
  - by apply (few_other u u1 t newi).
  - intros Hb. specialize (Hfr Hb). pose proof (release_files net u t newi) as Hs.
    destruct (us_files u1 !! blk) eqn:Eb; [|done]. rewrite (lookup_weaken _ _ _ _ Eb Hs) in Hfr. done.
  - by apply (os_tasks _ _ _ _ O).
  - rewrite E1, E2 in Hok. split; [done|]. split; [by apply (other_trans (us_sched u) (us_sched u1))|].
    split; [|done]. intros Hrc. by rewrite (Hf Hrc).
Qed.

(** ** Flags *)
Lemma set_flags_inv u t fd fl : fd_inv u → fd_inv (set_flags t fd fl u).
Proof.
  intros [T R]. destruct (slots_same lost (us_sched u) t (λ x, x <| fd_flags ::= <[Z.to_nat fd := fl]> |>) T) as [T' E].
  - done.
  - intros x (H1 & H2 & H3). unfold table_ok. simpl. by rewrite length_insert.
  - split; [done|]. unfold set_flags. simpl. by rewrite E.
Qed.

(** ** The calls on descriptors *)
Lemma dup_keeps u oldfd blk :
  fd_inv u → few u → has_task u → fresh_file blk u → leaves fd_inv (unix_fs_dup u oldfd blk).
Proof.
  intros V Hfew Ht Hfr. unfold unix_fs_dup. case_if; [done|].
  not_null Eif. pose proof (task_live u Ht Eif) as Hl.
  destruct (free_slot _ 0) as [i|] eqn:Hi; [|done]. destruct (free_slot_free u (utask u) i V Hl Hi) as [Hb Hz].
  destruct (unix_fd_dup_into u (utask u) (s32 oldfd) (Z.of_nat i) blk) as [rc u'] eqn:Hd.
  destruct (dup_into_inv (lost := lost) u (utask u) (s32 oldfd) (Z.of_nat i) blk rc u') as (V' & _); try done.
  by case_if.
Qed.

Lemma dup2_keeps u oldfd newfd blk :
  fd_inv u → few u → has_task u → fresh_file blk u → leaves fd_inv (unix_fs_dup2 net u oldfd newfd blk).
Proof.
  intros V Hfew Ht Hfr. unfold unix_fs_dup2. case_if; [done|]. not_null Eif. apply Z.eqb_neq in H.
  pose proof (task_live u Ht Eif) as Hl. case_if; [done|]. apply Z.eqb_neq in Eif0.
  destruct (replace_fd net u (utask u) (s32 oldfd) (s32 newfd) blk) as [rc u'] eqn:Hd.
  destruct (replace_inv u (utask u) (s32 oldfd) (s32 newfd) blk rc u') as (V' & _); try done. by case_if.
Qed.

Lemma dup3_keeps u oldfd newfd flags blk :
  fd_inv u → few u → has_task u → fresh_file blk u → leaves fd_inv (unix_fs_dup3 net u oldfd newfd flags blk).
Proof.
  intros V Hfew Ht Hfr. unfold unix_fs_dup3. case_if; [done|]. not_null Eif. apply Z.eqb_neq in H.
  pose proof (task_live u Ht Eif) as Hl. case_if; [done|]. apply Z.eqb_neq in Eif0. case_if; [done|].
  destruct (replace_fd net u (utask u) (s32 oldfd) (s32 newfd) blk) as [rc u'] eqn:Hd.
  destruct (replace_inv u (utask u) (s32 oldfd) (s32 newfd) blk rc u') as (V' & _); try done. case_if; [done|].
  simpl. case_if; [by apply set_flags_inv|done].
Qed.

Lemma close_keeps u fd : fd_inv u → has_task u → leaves fd_inv (unix_fs_close net u fd).
Proof.
  intros V Ht. unfold unix_fs_close. case_if; [done|]. apply Z.eqb_neq in Eif. case_if; [done|].
  simpl. by apply fd_release_inv, task_live.
Qed.

Lemma fcntl_keeps u fd cmd arg : fd_inv u → leaves fd_inv (unix_fs_fcntl u fd cmd arg).
Proof. intros V. unfold unix_fs_fcntl. repeat case_if; try done. by apply set_flags_inv. Qed.

(** ** Files *)

(** The handle that a call finds for a descriptor of kind [k]. *)
Lemma get_handle u fd h :
  fd_inv u → has_task u → utask u ≠ 0 → task_fd_get (us_sched u) (utask u) fd = h → h ≠ 0 →
  bad_fd fd = false ∧ (h, fd_kind_of u (utask u) fd) ∈ slots lost (us_sched u).
Proof.
  intros V Ht Ht0. unfold task_fd_get. rewrite (proj2 (Z.eqb_neq _ _) Ht0). cbn [orb].
  destruct ((fd <? 0) || (TASK_MAX_FD <=? fd)) eqn:Hb; [congruence|]. intros <- _. split; [done|].
  by apply handle_in, Hb; [|apply task_live].
Qed.

Lemma get_file u fd h :
  fd_inv u → has_task u → utask u ≠ 0 → task_fd_get (us_sched u) (utask u) fd = h → h ≠ 0 →
  fd_kind_of u (utask u) fd = UNIX_FD_KIND_VFS → is_Some (us_files u !! h).
Proof.
  intros V Ht Ht0 Hg Hh Hk. destruct (get_handle u fd h V Ht Ht0 Hg Hh) as [_ Hin]. rewrite Hk in Hin.
  destruct (open_file u h V Hin Hh) as (_ & f & Hf & _). by exists f.
Qed.

(** A change of one open file and of the file system. *)
Lemma upd_file_inv u u' h f :
  fd_inv u → is_Some (us_files u !! h) → us_sched u' = us_sched u → us_pipes u' = us_pipes u →
  us_files u' = <[h := f]> (us_files u) →
  (∀ fs, vsys_inv (us_vfs u) ((us_files u !!! h) :: fs) → vsys_inv (us_vfs u') (f :: fs)) → fd_inv u'.
Proof.
  intros [T R] Hh E1 E2 E3 Hs. split; [by rewrite E1|]. rewrite E1, E2, E3.
  apply (res_upd_file h f _ _ _ (us_vfs u)); auto.
Qed.

(** A change of the file system that keeps the open files. *)
Lemma upd_vfs_inv u u' :
  fd_inv u → us_sched u' = us_sched u → us_pipes u' = us_pipes u → us_files u' = us_files u →
  (∀ fs, vsys_inv (us_vfs u) fs → vsys_inv (us_vfs u') fs) → fd_inv u'.
Proof.
  intros [T R] E1 E2 E3 Hs. split; [by rewrite E1|]. rewrite E1, E2, E3. by apply (res_vfs _ _ _ (us_vfs u)).
Qed.

(** Devices, address maps and user memory do not matter. *)
Lemma upd_none_inv u u' :
  fd_inv u → us_sched u' = us_sched u → us_pipes u' = us_pipes u → us_files u' = us_files u →
  us_vfs u' = us_vfs u → fd_inv u'.
Proof. intros V E1 E2 E3 E4. apply (upd_vfs_inv u); try done. by rewrite E4. Qed.

(** The same from a step of the file system. *)
Lemma file_step_inv u u' h f :
  fd_inv u → is_Some (us_files u !! h) → us_sched u' = us_sched u → us_pipes u' = us_pipes u →
  us_files u' = <[h := f]> (us_files u) →
  (∀ fs, vstep ops (us_vfs u, [] ++ (us_files u !!! h) :: fs, us_dev u) (us_vfs u', [] ++ f :: fs, us_dev u')) → fd_inv u'.
Proof.
  intros V Hh E1 E2 E3 Hs. apply (upd_file_inv u u' h f); try done. intros fs Hv.
  exact (vstep_ok ops (us_vfs u, (us_files u !!! h) :: fs, us_dev u) (us_vfs u', f :: fs, us_dev u') Hv (Hs fs)).
Qed.

Lemma vfs_step_inv u u' :
  fd_inv u → us_sched u' = us_sched u → us_pipes u' = us_pipes u → us_files u' = us_files u →
  (∀ fs, vstep ops (us_vfs u, fs, us_dev u) (us_vfs u', fs, us_dev u')) → fd_inv u'.
Proof.
  intros V E1 E2 E3 Hs. apply (upd_vfs_inv u u'); try done. intros fs Hv.
  exact (vstep_ok ops (us_vfs u, fs, us_dev u) (us_vfs u', fs, us_dev u') Hv (Hs fs)).
Qed.

(** A change of one pipe by a reader or a writer. *)
Lemma upd_pipe_inv u u' h p p' :
  fd_inv u → us_pipes u !! h = Some p → us_sched u' = us_sched u → us_vfs u' = us_vfs u →
  us_files u' = us_files u → us_pipes u' = alter (λ _, p') h (us_pipes u) →
  pipe_ok p' → p_readers p' = p_readers p → p_writers p' = p_writers p → fd_inv u'.
Proof.
  intros [T R] Hp E1 E2 E3 E4 H1 H2 H3. split; [by rewrite E1|]. rewrite E1, E2, E3, E4. by apply (res_upd_pipe h p).
Qed.

Lemma get_pipe u fd h :
  fd_inv u → has_task u → utask u ≠ 0 → task_fd_get (us_sched u) (utask u) fd = h → h ≠ 0 →
  pipe_kind (fd_kind_of u (utask u) fd) →
  ∃ p, us_pipes u !! h = Some p ∧ pipe_ok p ∧ 0 < count_end (fd_kind_of u (utask u) fd) p.
Proof.
  intros V Ht Ht0 Hg Hh Hk. destruct (get_handle u fd h V Ht Ht0 Hg Hh) as [_ Hin].
  destruct (ro_ends _ _ _ _ (fv_res _ V) h _ Hin Hh Hk) as [p Hp]. exists p. split; [done|].
  destruct (ro_pipes _ _ _ _ (fv_res _ V) h p Hp) as (_ & Ho & _). split; [done|].
  rewrite (ro_count _ _ _ _ _ _ _ (fv_res _ V) Hp Hk). by apply ends_pos.
Qed.

Lemma range_ok_small ptr n :
  in_u64 ptr → in_u64 n → unix_user_range_ok ptr n = true → n < 9223372036854775808.
Proof.
  intros Hp Hn Hr%range_ok_spec; [|done..]. destruct Hr as [H1 H2]. unfold ARCH_USER_CANON_MAX in *.
  destruct (Z.eq_dec n 0); [lia|]. specialize (H2 (ptr + n - 1)). lia.
Qed.

Lemma read_keeps u fd buf n bounce :
  fd_inv u → has_task u → in_u64 n → leaves fd_inv (unix_fs_read ops u fd buf n bounce).
Proof.
  intros V Ht Hn. unfold unix_fs_read. case_if; [done|]. apply Z.eqb_neq in Eif. case_if; [done|].
  set (h := task_fd_get _ _ _). destruct (Z.eqb_spec h 0) as [|Hh]; [done|].
  destruct (Z.eqb_spec (fd_kind_of u (utask u) (s32 fd)) UNIX_FD_KIND_VFS) as [Hk|_].
  { pose proof (get_file u (s32 fd) h V Ht Eif eq_refl Hh Hk) as Hf.
    destruct (vfs_read _ _ _ _ _ _) as [[[[r out] f] d]|] eqn:Hr; [|done].
    apply (file_step_inv u _ h f); try done. intros fs. eapply vs_read; [|exact Hr]. lia. }
  destruct (Z.eqb_spec (fd_kind_of u (utask u) (s32 fd)) UNIX_FD_KIND_PIPE_R) as [Hk|_]; [|done].
  destruct (get_pipe u (s32 fd) h V Ht Eif eq_refl Hh) as (p & Hp & Ho & _); [by left|].
  rewrite (lookup_total_correct _ _ _ Hp). case_if; [done|].
  destruct (pipe_read_run (Z.to_nat n) p [] Ho) as (p' & Ho' & H1 & H2 & _ & ->).
  case_bool_decide; by apply (upd_pipe_inv u _ h p p').
Qed.

Lemma write_keeps u fd buf n data :
  fd_inv u → has_task u → in_u64 buf → in_u64 n → block_ok data → leaves fd_inv (unix_fs_write ops u fd buf n data).
Proof.
  intros V Ht Hb Hn Hd. unfold unix_fs_write. case_if; [done|]. apply Z.eqb_neq in Eif. case_if; [done|].
  apply negb_false_iff in Eif0. pose proof (range_ok_small buf n Hb Hn Eif0) as Hsmall. case_if; [done|].
  set (h := task_fd_get _ _ _). set (bytes := uload _ _ _).
  assert (length bytes = Z.to_nat n) as Hlen by (unfold bytes, uload; by rewrite length_fmap, length_seq).
  destruct (Z.eqb_spec h 0) as [|Hh]; [done|].
  destruct (Z.eqb_spec (fd_kind_of u (utask u) (s32 fd)) UNIX_FD_KIND_VFS) as [Hk|_].
  { pose proof (get_file u (s32 fd) h V Ht Eif eq_refl Hh Hk) as Hf.
    destruct (vfs_write _ _ _ _ _ _) as [[[[r f] s] d]|] eqn:Hr; [|done].
    apply (file_step_inv u _ h f); try done. intros fs. eapply vs_write; [done| |exact Hr]. lia. }
  destruct (Z.eqb_spec (fd_kind_of u (utask u) (s32 fd)) UNIX_FD_KIND_PIPE_W) as [Hk|_]; [|done].
  destruct (get_pipe u (s32 fd) h V Ht Eif eq_refl Hh) as (p & Hp & Ho & _); [by right|].
  rewrite (lookup_total_correct _ _ _ Hp). case_if; [done|].
  destruct (Z.eq_dec (p_readers p) 0) as [Hr0|Hr0].
  { rewrite (pipe_write_broken bytes p Ho Hr0). by apply (upd_pipe_inv u _ h p p). }
  destruct (pipe_write_run bytes p 0 Ho Hr0) as (p' & Ho' & H1 & H2 & _ & ->); [lia|].
  case_bool_decide; by apply (upd_pipe_inv u _ h p p').
Qed.

Lemma vfs_handle_file u fd h :
  fd_inv u → has_task u → utask u ≠ 0 → vfs_handle u (utask u) fd = h → h ≠ 0 → is_Some (us_files u !! h).
Proof.
  intros V Ht Ht0. unfold vfs_handle. case_if; [congruence|].
  destruct (Z.eqb_spec (fd_kind_of u (utask u) fd) UNIX_FD_KIND_VFS) as [Hk|]; [|simpl; congruence].
  simpl. intros Hg Hh. by apply (get_file u fd).
Qed.

Lemma lseek_keeps u fd off whence : fd_inv u → has_task u → leaves fd_inv (unix_fs_lseek u fd off whence).
Proof.
  intros V Ht. unfold unix_fs_lseek. case_if; [done|]. apply Z.eqb_neq in Eif.
  set (h := vfs_handle _ _ _). destruct (Z.eqb_spec h 0) as [|Hh]; [done|].
  pose proof (vfs_handle_file u (s32 fd) h V Ht Eif eq_refl Hh) as Hf.
  destruct (vfs_seek _ _ _ _) as [[rc pos] f] eqn:Hs. case_if; [done|].
  apply (file_step_inv u _ h f); try done. intros fs. by eapply vs_seek.
Qed.

Lemma ftruncate_keeps u fd size data :
  fd_inv u → has_task u → in_u64 size → block_ok data → leaves fd_inv (unix_fs_ftruncate ops u fd size data).
Proof.
  intros V Ht Hn Hd. unfold unix_fs_ftruncate. case_if; [done|]. apply Z.eqb_neq in Eif. case_if; [done|].
  apply orb_false_iff in Eif0 as [_ Hk%negb_false_iff%Z.eqb_eq].
  set (h := task_fd_get _ _ _). destruct (Z.eqb_spec h 0) as [|Hh]; [done|]. simpl. case_if; [done|].
  pose proof (get_file u (s32 fd) h V Ht Eif eq_refl Hh Hk) as Hf.
  destruct (vfs_ftruncate _ _ _ _ _ _) as [[[[rc f] s] d]|] eqn:Hr; [|done].
  apply (file_step_inv u _ h f); try done. intros fs. by eapply vs_ftruncate.
Qed.

(** ** Calls on paths *)
Lemma with_path_leaves (P : unix_state D → Prop) u ptr k :
  P u → (∀ path, leaves P (k path)) → leaves P (with_path u ptr k).
Proof. intros Hu Hk. unfold with_path. destruct (user_path u ptr) as [[rc path]|]; [by case_if|done]. Qed.

Lemma stat_inv u path rc st s : fd_inv u → vfs_stat (us_vfs u) path = (rc, st, s) → fd_inv (vset u s).
Proof. intros V H. apply (vfs_step_inv u); try done. intros fs. by eapply vs_stat. Qed.

Lemma truncate_keeps u ptr size data :
  fd_inv u → in_u64 size → block_ok data → leaves fd_inv (unix_fs_truncate ops u ptr size data).
Proof.
  intros V Hn Hd. apply with_path_leaves; [done|]. intros path.
  destruct (vfs_truncate _ _ _ _ _ _) as [[[rc s] d]|] eqn:Hr; [|done].
  apply (vfs_step_inv u); try done. intros fs. by eapply vs_truncate.
Qed.

Lemma mkdir_keeps_fd u ptr b : fd_inv u → fresh_node b (us_vfs u) → leaves fd_inv (unix_fs_mkdir u ptr b).
Proof.
  intros V Hb. apply with_path_leaves; [done|]. intros path. destruct (vfs_mkdir _ _ _) as [rc s] eqn:Hr.
  apply (vfs_step_inv u); try done. intros fs. by eapply vs_mkdir.
Qed.

Lemma unlink_after_stat u path rc st s rc' s' :
  fd_inv u → vfs_stat (us_vfs u) path = (rc, st, s) → vfs_unlink s path = (rc', s') → fd_inv (vset u s').
Proof.
  intros V Hs Hr. apply (vfs_step_inv (vset u s)); try done; [by eapply stat_inv|]. intros fs. by eapply vs_unlink.
Qed.

Lemma unlink_keeps_fd u ptr : fd_inv u → leaves fd_inv (unix_fs_unlink u ptr).
Proof.
  intros V. apply with_path_leaves; [done|]. intros path.
  destruct (vfs_stat (us_vfs u) path) as [[rc st] s] eqn:Hs. pose proof (stat_inv _ _ _ _ _ V Hs) as V1.
  destruct st as [st|]; [|done]. repeat (case_if; [done|]).
  destruct (vfs_unlink s path) as [rc' s'] eqn:Hr. by eapply unlink_after_stat.
Qed.

Lemma rmdir_keeps u ptr : fd_inv u → leaves fd_inv (unix_fs_rmdir u ptr).
Proof.
  intros V. apply with_path_leaves; [done|]. intros path. case_bool_decide; [done|].
  destruct (vfs_stat (us_vfs u) path) as [[rc st] s] eqn:Hs. pose proof (stat_inv _ _ _ _ _ V Hs) as V1.
  destruct st as [st|]; [|done]. repeat (case_if; [done|]).
  destruct (vfs_unlink s path) as [rc' s'] eqn:Hr. by eapply unlink_after_stat.
Qed.

Lemma rename_keeps_fd u old_ptr new_ptr : fd_inv u → leaves fd_inv (unix_fs_rename u old_ptr new_ptr).
Proof.
  intros V. apply with_path_leaves; [done|]. intros old_path. apply with_path_leaves; [done|]. intros new_path.
  destruct (vfs_rename _ _ _) as [rc s] eqn:Hr. apply (vfs_step_inv u); try done. intros fs. by eapply vs_rename.
Qed.

(** A change of a task that is not one of its slots. *)
Lemma upd_task_inv u t f :
  fd_inv u → (∀ x, fd_table (f x) = fd_table x ∧ fd_kind (f x) = fd_kind x ∧ fd_flags (f x) = fd_flags x) →
  fd_inv (u <| us_sched ::= tsk_upd t f |>).
Proof.
  intros [T R] Hf. destruct (slots_same lost (us_sched u) t f T) as [T' E].
  - intros x. unfold task_slots. by destruct (Hf x) as (-> & -> & _).
  - intros x. unfold table_ok. by destruct (Hf x) as (-> & -> & ->).
  - split; [done|]. simpl. by rewrite E.
Qed.

Lemma chdir_keeps u ptr : fd_inv u → leaves fd_inv (unix_fs_chdir u ptr).
Proof.
  intros V. unfold unix_fs_chdir. case_if; [done|]. apply with_path_leaves; [done|]. intros path.
  destruct (vfs_stat (us_vfs u) path) as [[rc st] s] eqn:Hs. pose proof (stat_inv _ _ _ _ _ V Hs) as V1.
  destruct st as [st|]; [|done]. case_if; [done|]. by apply upd_task_inv.
Qed.

Lemma getcwd_keeps u ptr n : fd_inv u → leaves fd_inv (unix_fs_getcwd u ptr n).
Proof. intros V. unfold unix_fs_getcwd. repeat case_if; try done. by apply (upd_none_inv u). Qed.

Lemma stat_keeps u ptr stat_ptr : fd_inv u → leaves fd_inv (unix_fs_stat u ptr stat_ptr).
Proof.
  intros V. unfold unix_fs_stat. case_if; [done|]. apply with_path_leaves; [done|]. intros path.
  destruct (vfs_stat (us_vfs u) path) as [[rc st] s] eqn:Hs. pose proof (stat_inv _ _ _ _ _ V Hs) as V1.
  destruct st as [st|]; [|done]. case_if; [done|]. by apply (upd_none_inv (vset u s)).
Qed.

Lemma fstat_keeps u fd stat_ptr : fd_inv u → leaves fd_inv (unix_fs_fstat u fd stat_ptr).
Proof.
  intros V. unfold unix_fs_fstat. repeat (case_if; [done|]). destruct (vfs_fstat _ _) as [rc [st|]]; [|done].
  case_if; [done|]. by apply (upd_none_inv u).
Qed.

Lemma ioctl_keeps u fd request arg : fd_inv u → leaves fd_inv (unix_fs_ioctl net u fd request arg).
Proof. intros V. unfold unix_fs_ioctl. repeat case_if; try done; by apply (upd_none_inv u). Qed.

Lemma readdir_keeps u ptr entries n : fd_inv u → leaves fd_inv (unix_fs_readdir u ptr entries n).
Proof.
  intros V. unfold unix_fs_readdir. repeat (case_if; [done|]). apply with_path_leaves; [done|]. intros path.
  destruct (vfs_list_dir (us_vfs u) path) as [[rc l] s] eqn:Hl.
  assert (fd_inv (vset u s)) as V1 by (apply (vfs_step_inv u); try done; intros fs; by eapply vs_list_dir).
  case_if; by apply (upd_none_inv (vset u s)).
Qed.

(** ** Opening *)

(** An open file that [vfs_open] made goes to a free slot. *)
Lemma bind_file u u1 t fd blk f :
  fd_inv u → is_Some (tasks (us_sched u) !! t) → bad_fd fd = false → fd_handle u t fd = 0 → blk ≠ 0 →
  us_files u !! blk = None → us_sched u1 = us_sched u → us_pipes u1 = us_pipes u →
  us_files u1 = <[blk := f]> (us_files u) →
  (∀ fs, Z.of_nat (length fs) < 4294967294 → vsys_inv (us_vfs u) fs → vsys_inv (us_vfs u1) (f :: fs)) → few u →
  fd_inv (set_slot t fd blk UNIX_FD_KIND_VFS 0 u1) ∧
  other_slots (us_sched u) (us_sched (set_slot t fd blk UNIX_FD_KIND_VFS 0 u1)) t fd ∧
  slot_is (set_slot t fd blk UNIX_FD_KIND_VFS 0 u1) t fd blk UNIX_FD_KIND_VFS 0.
Proof.
  intros V Ht Hfd Hz Hb Hfr E1 E2 E3 Hs Hfew. apply fill_inv; try done. intros R Hr E. rewrite E2, E3.
  apply (res_add_file blk f R _ _ (us_vfs u)); try done. apply Hs; [|apply Hr].
  rewrite length_fmap. pose proof (file_slots_length R). unfold UnixFdInv.few in Hfew. rewrite E in Hfew. simpl in Hfew. lia.
Qed.

Lemma vfs_open_step u b path flags data rc f s d fs :
  fresh_node b (us_vfs u) → block_ok data →
  vfs_open ops (us_vfs u) (us_dev u) b path flags no_file data = Some (rc, f, s, d) →
  Z.of_nat (length fs) < 4294967294 → vsys_inv (us_vfs u) fs → vsys_inv s (if rc =? RDNX_OK then f :: fs else fs).
Proof. intros Hb Hd Ho Hl Hv. exact (open_any ops _ _ b path flags no_file data fs rc f s d Hv Hb Hl Hd Ho). Qed.

(** The open files are fewer than their counts can hold. *)
Lemma few_files u : few u → Z.of_nat (length ((us_files u !!!.) <$> file_slots (slots lost (us_sched u)))) < 4294967294.
Proof.
  intros Hfew. rewrite length_fmap. pose proof (file_slots_length (slots lost (us_sched u))).
  unfold UnixFdInv.few in Hfew. lia.
Qed.

Lemma open_failed u b path flags data rc f s d :
  fd_inv u → few u → fresh_node b (us_vfs u) → block_ok data →
  vfs_open ops (us_vfs u) (us_dev u) b path flags no_file data = Some (rc, f, s, d) → (rc =? RDNX_OK) = false →
  fd_inv (u <| us_vfs := s |> <| us_dev := d |>).
Proof.
  intros [T R] Hfew Hb Hd Ho Hrc. split; [done|]. simpl.
  pose proof (vfs_open_step u b path flags data rc f s d _ Hb Hd Ho (few_files u Hfew) (ro_vfs _ _ _ _ R)) as H.
  destruct R. split; try done.
  by rewrite Hrc in H.
Qed.

Lemma open_keeps u ptr flags blk b data :
  fd_inv u → few u → has_task u → fresh_file blk u → fresh_node b (us_vfs u) → block_ok data →
  leaves fd_inv (unix_fs_open ops u ptr flags blk b data).
Proof.
  intros V Hfew Ht Hfr Hb Hd. unfold unix_fs_open, with_path, user_path.
  destruct (Z.eqb_spec (utask u) 0) as [|Ht0]; [done|]. pose proof (task_live u Ht Ht0) as Hl.
  destruct (unix_resolve_user_path _ _ _ _) as [[rc0 path]|]; [|done]. case_if; [done|].
  destruct (Z.eqb_spec blk 0) as [|Hb0]; [done|]. specialize (Hfr Hb0).
  destruct (vfs_open _ _ _ _ _ _ _ _) as [[[[rc f] s] d]|] eqn:Ho; [|done].
  destruct (rc =? RDNX_OK) eqn:Hrc; simpl; [|by apply (open_failed u b path (s32 flags) data rc f s d)].
  change (utask (u <| us_vfs := s |> <| us_dev := d |> <| us_files ::= <[blk := f]> |>)) with (utask u).
  assert (∀ fs, Z.of_nat (length fs) < 4294967294 → vsys_inv (us_vfs u) fs → vsys_inv s (f :: fs)) as Hs.
  { intros fs Hlen Hv. pose proof (vfs_open_step u b path (s32 flags) data rc f s d fs Hb Hd Ho Hlen Hv) as H.
    by rewrite Hrc in H. }
  set (u1 := u <| us_vfs := s |> <| us_dev := d |> <| us_files ::= <[blk := f]> |>).
  destruct (task_fd_alloc (us_sched u) (utask u) blk) as [fd s'] eqn:Ha.
  destruct (alloc_fills u u1 (utask u) blk fd s' V Hl Hb0 eq_refl Ha) as [[Hneg ->]|(Hbad & Hz & Hset)].
  - rewrite (proj2 (Z.ltb_lt _ _) Hneg). simpl. rewrite close_file_eq. unfold u1, field_update. simpl.
    rewrite lookup_total_insert_eq, delete_insert_id by done. split; [apply V|]. simpl.
    pose proof (fv_res _ V) as R. destruct (fv_res _ V). split; try done. apply (vsys_release s [] f).
    apply Hs; [by apply few_files|apply R].
  - pose proof (bad_fd_false fd Hbad). rewrite (proj2 (Z.ltb_ge _ _)) by lia. simpl. unfold u1 in Hset. simpl in Hset.
    rewrite Hset. by eapply proj1, (bind_file u u1).
Qed.

(** ** The console *)
Lemma release_node_none s n m : nodes s !! m = None → nodes (vfs_node_release s n) !! m = None.
Proof.
  intros Hm. unfold vfs_node_release, vfs_free_node. repeat case_if; try done; simpl.
  - apply lookup_delete_None. right. apply lookup_alter_None. done.
  - apply lookup_alter_None. done.
Qed.

Lemma release_fd_node u t fd m :
  nodes (us_vfs u) !! m = None → nodes (us_vfs (unix_fd_release net u t fd)) !! m = None.
Proof.
  intros Hm. unfold unix_fd_release. case_if; [done|]. simpl. rewrite close_file_eq. repeat case_if; try done.
  - by apply release_node_none.
  - by destruct (unix_pipe_release _ _).
Qed.

Lemma bind_console_inv u t fd flags blk b data rc u' :
  fd_inv u → few u → is_Some (tasks (us_sched u) !! t) → fresh_file blk u → fresh_node b (us_vfs u) → block_ok data →
  unix_bind_fd_to_console ops net u t fd flags blk b data = Some (rc, u') →
  fd_inv u' ∧ other_slots (us_sched u) (us_sched u') t fd ∧
  (rc = RDNX_OK → slot_is u' t fd blk UNIX_FD_KIND_VFS 0 ∧ is_Some (us_files u' !! blk)).
Proof.
  intros V Hfew Ht Hfr Hb Hd. unfold unix_bind_fd_to_console. case_if.
  { intros [= <- <-]. split; [done|]. split; [apply other_refl|done]. }
  apply orb_false_iff in Eif as [_ Hfd]. destruct (fd_release_inv net u t fd V Ht) as (V1 & O1 & Hz). specialize (Hz Hfd).
  set (u1 := unix_fd_release net u t fd) in *.
  assert ((if negb (fd_handle u t fd =? 0) then u1 else u) = u1) as ->.
  { destruct (Z.eqb_spec (fd_handle u t fd) 0) as [E|]; [|done]. unfold u1, unix_fd_release.
    by rewrite E, Z.eqb_refl, orb_true_r. }
  assert (few u1) as Hfew1 by (by apply (few_other u u1 t fd)).
  assert (fresh_node b (us_vfs u1)) as Hb1 by (intros Hn; apply release_fd_node; auto).
  case_if; [intros [= <- <-]; done|]. apply Z.eqb_neq in Eif. specialize (Hfr Eif).
  assert (us_files u1 !! blk = None) as Hfr1.
  { pose proof (release_files net u t fd) as Hs. destruct (us_files u1 !! blk) eqn:E; [|done].
    by rewrite (lookup_weaken _ _ _ _ E Hs) in Hfr. }
  destruct (vfs_open _ _ _ _ _ _ _ _) as [[[[orc f] s] d]|] eqn:Ho; [|done].
  pose proof (λ fs, vfs_open_step u1 b CONSOLE_PATH flags data orc f s d fs Hb1 Hd Ho) as Hs.
  destruct (orc =? RDNX_OK) eqn:Hrc; simpl; intros [= <- <-].
  - set (u2 := u1 <| us_vfs := s |> <| us_dev := d |> <| us_files ::= <[blk := f]> |>).
    destruct (bind_file u1 u2 t fd blk f) as (V' & O' & S'); try done; [by apply (os_tasks _ _ _ _ O1)|].
    split; [done|]. split; [by apply (other_trans _ (us_sched u1))|]. intros _. split; [done|].
    unfold u2. simpl. rewrite lookup_insert_eq. by eexists.
  - split; [by apply (open_failed u1 b CONSOLE_PATH flags data orc f s d)|]. split; [exact O1|done].
Qed.

(** ** Pipes *)
Lemma slots_cons x s : slots (x :: lost) s ≡ₚ x :: slots lost s.
Proof. unfold slots. by rewrite Permutation_middle. Qed.

(** The block of a new pipe is not in use. *)
Definition fresh_pipe (blk : Z) (u : unix_state D) : Prop := blk ≠ 0 → ∀ k, (blk, k) ∉ slots lost (us_sched u).

(** The read end: the reference of the write end is not in a slot yet. *)
Lemma first_end u t fd blk data :
  fd_inv u → is_Some (tasks (us_sched u) !! t) → bad_fd fd = false → fd_handle u t fd = 0 → blk ≠ 0 →
  fresh_pipe blk u → length data = Z.to_nat UNIX_PIPE_CAP →
  UnixSlots.fd_inv ((blk, UNIX_FD_KIND_PIPE_W) :: lost)
    (set_slot t fd blk UNIX_FD_KIND_PIPE_R 0 (u <| us_pipes ::= <[blk := new_pipe data]> |>)).
Proof.
  intros [T R] [x Hx] Hfd Hz Hb Hfr Hlen. pose proof (bad_fd_false fd Hfd) as Hr. specialize (Hfr Hb).
  destruct (slots_set lost (us_sched u) t x (Z.to_nat fd) blk UNIX_FD_KIND_PIPE_R (fill fd blk UNIX_FD_KIND_PIPE_R 0) T Hx
              ltac:(lia) (fill_set _ _ _ _ x (to_shape _ T t x Hx))) as (T' & R0 & E1 & E2).
  unfold fd_handle, tsk in Hz. rewrite (lookup_total_correct _ _ _ Hx) in Hz. rewrite Hz in E1.
  rewrite set_slot_eq. split; [done|]. simpl. rewrite slots_cons, E2.
  rewrite E1 in R. apply res_other in R; [|by left]. rewrite (Permutation_swap (blk, UNIX_FD_KIND_PIPE_R)).
  apply res_new_pipe; try done. intros k Hk. apply (Hfr k). rewrite E1. by right.
Qed.

(** The reference gets its slot. *)
Lemma second_end u t fd h k fl :
  UnixSlots.fd_inv ((h, k) :: lost) u → is_Some (tasks (us_sched u) !! t) → bad_fd fd = false → fd_handle u t fd = 0 →
  fd_inv (set_slot t fd h k fl u).
Proof.
  intros [T R] [x Hx] Hfd Hz. pose proof (bad_fd_false fd Hfd) as Hr.
  destruct (slots_set lost (us_sched u) t x (Z.to_nat fd) h k (fill fd h k fl) T Hx
              ltac:(lia) (fill_set _ _ _ _ x (to_shape _ T t x Hx))) as (T' & R0 & E1 & E2).
  unfold fd_handle, tsk in Hz. rewrite (lookup_total_correct _ _ _ Hx) in Hz. rewrite Hz in E1.
  rewrite set_slot_eq. split; [done|]. simpl. rewrite E2. rewrite slots_cons, E1, Permutation_swap in R.
  apply res_other in R; [done|by left].
Qed.

Lemma slot_is_other u t fd h k fl t' fd' h' k' fl' :
  0 ≤ fd → 0 ≤ fd' → (t', fd') ≠ (t, fd) → slot_is u t' fd' h' k' fl' →
  slot_is (set_slot t fd h k fl u) t' fd' h' k' fl'.
Proof.
  intros Hf Hf' Hne (<- & <- & <-). destruct (other_upd (us_sched u) t fd h k fl (fill fd h k fl)) as [_ _ _ H]; [done|].
  apply (H t' fd'). intros [= -> E]. apply Z2Nat.inj in E; [|done..]. congruence.
Qed.

Lemma unix_fd_release_task u t fd : utask (unix_fd_release net u t fd) = utask u.
Proof.
  unfold unix_fd_release. case_if; [done|]. unfold utask. simpl. unfold task_fd_close.
  rewrite close_file_eq. repeat case_if; try done; by destruct (unix_pipe_release _ _).
Qed.

End Lost.

(** What [make_pipe] does: with two free slots they become the ends of an empty
    pipe; with one, that slot is free again and the pipe stays behind. *)
Lemma make_pipe_inv {lost} u blk data rc r w u' :
  fd_inv lost u → has_task u → utask u ≠ 0 → fresh_pipe (lost := lost) blk u →
  length data = Z.to_nat UNIX_PIPE_CAP → make_pipe net u blk data = (rc, r, w, u') →
  utask u' = utask u ∧
  ((rc = RDNX_OK ∧ fd_inv lost u' ∧ r ≠ w ∧ bad_fd r = false ∧ bad_fd w = false ∧ fd_handle u (utask u) r = 0 ∧
    fd_handle u (utask u) w = 0 ∧ us_pipes u' = <[blk := new_pipe data]> (us_pipes u) ∧
    slot_is u' (utask u) r blk UNIX_FD_KIND_PIPE_R 0 ∧ slot_is u' (utask u) w blk UNIX_FD_KIND_PIPE_W 0 ∧
    ∀ t fd, 0 ≤ fd → (t, fd) ≠ (utask u, r) → (t, fd) ≠ (utask u, w) →
      slot_is u' t fd (fd_handle u t fd) (fd_kind_of u t fd) (fd_flags_of u t fd)) ∨
   (rc ≠ RDNX_OK ∧ (u' = u ∨ blk ≠ 0 ∧ fd_inv ((blk, UNIX_FD_KIND_PIPE_W) :: lost) u'))).
Proof.
  intros V Ht Ht0 Hfr Hlen. pose proof (task_live u Ht Ht0) as Hl. unfold make_pipe.
  destruct (Z.eqb_spec blk 0) as [|Hb0]; [intros [= <- <- <- <-]; split; [done|right; by auto]|].
  destruct (task_fd_alloc (us_sched u) (utask u) blk) as [fr s1] eqn:Ha1.
  set (u0 := u <| us_pipes ::= <[blk := new_pipe data]> |>).
  destruct (alloc_fills u u0 (utask u) blk fr s1 V Hl Hb0 eq_refl Ha1) as [[Hneg ->]|(Hbad1 & Hz1 & Hset1)].
  { rewrite (proj2 (Z.ltb_lt _ _) Hneg). intros [= <- <- <- <-]. split; [done|]. right. split; [done|].
    left. by destruct u. }
  pose proof (bad_fd_false fr Hbad1) as Hr1. rewrite (proj2 (Z.ltb_ge fr 0)) by lia.
  change (u <| us_sched := s1 |> <| us_pipes ::= <[blk := new_pipe data]> |>) with (u0 <| us_sched := s1 |>).
  rewrite Hset1. pose proof (first_end u (utask u) fr blk data V Hl Hbad1 Hz1 Hb0 Hfr Hlen) as V1.
  set (u1 := set_slot (utask u) fr blk UNIX_FD_KIND_PIPE_R 0 u0) in *.
  assert (is_Some (tasks (us_sched u1) !! utask u)) as Hl1 by (by apply alter_has).
  destruct (task_fd_alloc (us_sched u1) (utask u) blk) as [fw s2] eqn:Ha2.
  destruct (alloc_fills u1 u1 (utask u) blk fw s2 V1 Hl1 Hb0 eq_refl Ha2) as [[Hneg ->]|(Hbad2 & Hz2 & Hset2)].
  { rewrite (proj2 (Z.ltb_lt _ _) Hneg).
    assert (u1 <| us_sched := us_sched u1 |> = u1) as Eu by (by destruct u1). rewrite Eu. intros [= <- <- <- <-].
    split; [by rewrite unix_fd_release_task|]. right. split; [done|]. right. split; [done|]. by apply fd_release_inv. }
  pose proof (bad_fd_false fw Hbad2) as Hr2. rewrite (proj2 (Z.ltb_ge fw 0)) by lia. rewrite Hset2.
  intros [= <- <- <- <-]. split; [done|]. left. destruct Hl as [x Hx].
  assert (slot_is u1 (utask u) fr blk UNIX_FD_KIND_PIPE_R 0) as S1
    by (by apply (fill_slot_is u0 (utask u) x); [|apply (to_shape _ (fv_tables _ V) (utask u))|]).
  assert (fr ≠ fw) as Hne by (intros ->; destruct S1 as [S1 _]; congruence).
  destruct Hl1 as [x1 Hx1].
  split; [done|]. split; [by apply second_end|]. do 3 (split; [done|]). split; [done|].
  assert (∀ t fd, 0 ≤ fd → (t, fd) ≠ (utask u, fr) →
            slot_is u1 t fd (fd_handle u t fd) (fd_kind_of u t fd) (fd_flags_of u t fd)) as Hsame
    by (intros t fd Hf Hne'; apply slot_is_other; [lia|done|done|done]).
  split; [destruct (Hsame (utask u) fw) as [<- _]; [lia|congruence|done]|]. split; [done|]. split; [|split].
  - apply slot_is_other; [lia|lia|congruence|done].
  - by apply (fill_slot_is u1 (utask u) x1); [|apply (to_shape _ (fv_tables _ V1) (utask u))|].
  - intros t fd Hf Hn1 Hn2. apply slot_is_other; [lia|lia|done|]. by apply Hsame.
Qed.

(** The invariant with the references [lost], or with one more for a pipe that
    had no second descriptor. *)
Definition maybe_lost (lost : list slot) (blk : Z) (u : unix_state D) : Prop :=
  fd_inv lost u ∨ blk ≠ 0 ∧ fd_inv ((blk, UNIX_FD_KIND_PIPE_W) :: lost) u.

Lemma pipe_keeps {lost} u ptr blk data :
  fd_inv lost u → has_task u → fresh_pipe (lost := lost) blk u → length data = Z.to_nat UNIX_PIPE_CAP →
  leaves (maybe_lost lost blk) (unix_fs_pipe net u ptr blk data).
Proof.
  intros V Ht Hfr Hlen. unfold unix_fs_pipe. case_if; [by left|]. not_null Eif.
  destruct (make_pipe net u blk data) as [[[rc r] w] u'] eqn:Hm.
  destruct (make_pipe_inv u blk data rc r w u' V Ht Eif Hfr Hlen Hm) as [_ [(-> & V' & _)|(Hrc & [-> | [Hb V']])]].
  - left. by apply (upd_none_inv u').
  - rewrite (proj2 (Z.eqb_neq _ _) Hrc). by left.
  - rewrite (proj2 (Z.eqb_neq _ _) Hrc). by right.
Qed.

Lemma set_cloexec_inv {lost} u t fd : fd_inv lost u → fd_inv lost (set_cloexec t fd u).
Proof. intros V. unfold set_cloexec. case_if; [done|]. by apply set_flags_inv. Qed.

Lemma pipe2_keeps {lost} u ptr flags blk data :
  fd_inv lost u → has_task u → fresh_pipe (lost := lost) blk u → length data = Z.to_nat UNIX_PIPE_CAP →
  leaves (maybe_lost lost blk) (unix_fs_pipe2 net u ptr flags blk data).
Proof.
  intros V Ht Hfr Hlen. unfold unix_fs_pipe2. case_if; [by left|].
  pose proof (pipe_keeps u ptr blk data V Ht Hfr Hlen) as H.
  destruct (unix_fs_pipe net u ptr blk data); try done. repeat (case_if; [done|]). simpl in *.
  destruct H as [H|[Hb H]]; [left|right; split; [done|]]; by apply set_cloexec_inv, set_cloexec_inv.
Qed.

(** ** Waiting and sockets *)
Section Lost2.
Context {lost : list slot}.
Local Notation fd_inv := (fd_inv lost).

Lemma upd_dev_inv u d : fd_inv u → fd_inv (u <| us_dev := d |>).
Proof. intros V. by apply (upd_none_inv u). Qed.

Lemma upd_mem_inv u f : fd_inv u → fd_inv (u <| us_mem ::= f |>).
Proof. intros V. by apply (upd_none_inv u). Qed.

Lemma poll_one_inv u t fd events : fd_inv u → fd_inv (unix_poll_one net u t fd events).2.
Proof.
  intros V. unfold unix_poll_one. repeat case_if; try done. all: simpl.
  all: try destruct (op_tty_readable net (us_dev u)); by apply upd_dev_inv.
Qed.

Lemma poll_round_inv l u t pfds ready : fd_inv u → fd_inv (poll_round net u t pfds l ready).2.
Proof.
  revert u ready. induction l as [|i l IH]; intros u ready V; simpl; [done|].
  pose proof (poll_one_inv u t (s32 (uword (us_mem u) (pfds + 8 * Z.of_nat i) 4))
    (uword (us_mem u) (pfds + 8 * Z.of_nat i + 4) 2) V) as V1.
  destruct (unix_poll_one _ _ _ _ _) as [rev u1]. by apply IH, upd_mem_inv.
Qed.

Lemma poll_verdict_leaves u ready timeout_ms deadline : fd_inv u → leaves fd_inv (poll_verdict u ready timeout_ms deadline).
Proof. intros V. unfold poll_verdict. by repeat case_if. Qed.

Lemma poll_again_keeps u pfds nfds timeout_ms deadline :
  fd_inv u → leaves fd_inv (poll_again net u pfds nfds timeout_ms deadline).
Proof.
  intros V. unfold poll_again. pose proof (poll_round_inv (seq 0 (Z.to_nat nfds)) u (utask u) pfds 0 V) as V1.
  destruct (poll_round _ _ _ _ _ _) as [ready u1]. by apply poll_verdict_leaves.
Qed.

Lemma poll_keeps u pfds nfds timeout_ms : fd_inv u → leaves fd_inv (unix_fs_poll net u pfds nfds timeout_ms).
Proof. intros V. unfold unix_fs_poll. repeat (case_if; [done|]). by apply poll_again_keeps. Qed.

Lemma select_round_inv l u t wanted out ready : fd_inv u → fd_inv (select_round net u t wanted l out ready).2.
Proof.
  revert u out ready. induction l as [|fd l IH]; intros u out ready V; simpl; [done|].
  unfold select_one. case_if; [by apply IH|].
  match goal with |- context [unix_poll_one net u t fd ?e] => pose proof (poll_one_inv u t fd e V) as V1;
    destruct (unix_poll_one net u t fd e) as [rev u1] end. by apply IH.
Qed.

Lemma store_set_inv ptr x u : fd_inv u → fd_inv (store_set ptr x u).
Proof. intros V. unfold store_set. case_if; [done|by apply upd_mem_inv]. Qed.

Lemma select_again_keeps u nfds wanted pr pw pe timeout_ms deadline :
  fd_inv u → leaves fd_inv (select_again net u nfds wanted pr pw pe timeout_ms deadline).
Proof.
  intros V. unfold select_again.
  pose proof (select_round_inv (Z.of_nat <$> seq 0 (Z.to_nat nfds)) u (utask u) wanted (mk_sets 0 0 0) 0 V) as V1.
  destruct (select_round _ _ _ _ _ _ _) as [[out ready] u1]. apply poll_verdict_leaves. by repeat apply store_set_inv.
Qed.

Lemma select_keeps u nfds pr pw pe pt : fd_inv u → leaves fd_inv (unix_fs_select net u nfds pr pw pe pt).
Proof.
  intros V. unfold unix_fs_select. repeat (case_if; [done|]).
  destruct (load_set u pr), (load_set u pw), (load_set u pe), (load_timeout u pt); try done.
  by apply select_again_keeps.
Qed.

Lemma socket_keeps u domain type protocol :
  fd_inv u → has_task u → leaves fd_inv (unix_fs_socket net u domain type protocol).
Proof.
  intros V Ht. unfold unix_fs_socket. case_if; [done|]. apply Z.eqb_neq in Eif.
  destruct (op_socket_create net _ _ _ _) as [sock d]. pose proof (upd_dev_inv u d V) as V1.
  destruct (Z.eqb_spec sock 0) as [|Hs]; [done|]. simpl. pose proof (task_live u Ht Eif) as Hl.
  set (u1 := u <| us_dev := d |>) in *. destruct (task_fd_alloc (us_sched u1) (utask u) sock) as [fd s] eqn:Ha.
  change (us_sched u1) with (us_sched u) in Ha. rewrite Ha.
  destruct (alloc_fills u u1 (utask u) sock fd s V Hl Hs eq_refl Ha) as [[Hneg ->]|(Hbad & Hz & Hset)].
  - rewrite (proj2 (Z.ltb_lt _ _) Hneg). by apply (upd_none_inv u1).
  - pose proof (bad_fd_false fd Hbad). rewrite (proj2 (Z.ltb_ge _ _)) by lia. rewrite Hset. simpl.
    apply set_flags_inv. apply (fill_inv u1 u1); try done. intros R Hr _. apply res_other; [by right|done].
Qed.

Lemma socket_address_keeps op u fd addr : fd_inv u → leaves fd_inv (socket_address op u fd addr).
Proof.
  intros V. unfold socket_address. repeat (case_if; [done|]). destruct (op _ _ _) as [rc d]. by apply upd_dev_inv.
Qed.

Lemma sendto_keeps u fd buf n dst dst_len : fd_inv u → leaves fd_inv (unix_fs_sendto net u fd buf n dst dst_len).
Proof.
  intros V. unfold unix_fs_sendto. repeat (case_if; [done|]). destruct (op_socket_sendto _ _ _ _ _) as [rc d].
  by apply upd_dev_inv.
Qed.

Lemma recvfrom_keeps u fd buf n src timeout_ms :
  fd_inv u → leaves fd_inv (unix_fs_recvfrom net u fd buf n src timeout_ms).
Proof.
  intros V. unfold unix_fs_recvfrom. repeat (case_if; [done|]).
  destruct (op_socket_recvfrom _ _ _ _ _) as [[[rc out] from] d]. by apply upd_mem_inv, upd_mem_inv, upd_dev_inv.
Qed.

End Lost2.

End Calls.

End UnixCalls.
