(* ===== verification/UnixProc.v ===== *)
(** * Processes of the Unix layer (kernel/unix/process/unix_process.c)

    Exit and [waitpid], signals, [fork], [nanosleep] and the identity calls of
    posix_sys_ids.c.  The frame that a thread came in with is in the words of the
    kernel stacks, at the address that [us_arch] gives. *)

From stdpp Require Import base gmap list numbers fin_maps.
From S2P Require Import Prelude Bytes Sched Waitq Task PathSpec Vfs VfsFile UnixPath UnixPipe UnixFd UnixIo.
From S2P Require Import Paging Vm VmMap VfsOps VfsSteps UnixRes UnixFdInv UnixCalls.

Module UnixProc.
Import Sched Waitq Task PathSpec Vfs VfsFile UnixPath UnixPipe UnixFd UnixIo.

Definition UNIX_SIG_DFL : Z := 0.
Definition UNIX_SIG_IGN : Z := 1.
Definition UNIX_SIG_MAX : Z := 31.
Definition UNIX_SIGKILL : Z := 9.

(** The words of a frame in the order of [sig_saved]: rip, rsp, rflags, rax,
    rbx, rcx, rdx, rsi, rdi, rbp, r8 to r15. *)
Definition SAVED_WORDS : list nat :=
  [FR_RIP; FR_RSP; FR_RFLAGS; FR_RAX; 17; 16; 15; 14; 13; 12; 11; 10; 9; 8; 7; 6; 5; 4]%nat.
Definition FR_RDI : nat := 13.

Definition frame_word (s : sched_state) (p : Z) (k : nat) : Z := stack_words (stacks s) !!! (p + 8 * Z.of_nat k).
Definition set_frame_word (p : Z) (k : nat) (v : Z) (s : sched_state) : sched_state :=
  s <| stacks ::= λ c, c <| stack_words ::= <[p + 8 * Z.of_nat k := v]> |> |>.

Section Proc.
Context {D : Type} (ops : vfs_ops D) (net : net_ops D).

(** [thr->arch_specific] *)
Definition arch_frame (u : unix_state D) (thread : Z) : Z := default 0 (us_arch u !! thread).

(** ** Signals *)
Definition unix_signal_save_frame (u : unix_state D) (task frame : Z) : unix_state D :=
  u <| us_saved ::= <[task := frame_word (us_sched u) frame <$> SAVED_WORDS]> |>.

Definition restore_words (frame : Z) (saved : list Z) (s : sched_state) : sched_state :=
  foldl (λ s kv, set_frame_word frame kv.1 kv.2 s) s (zip SAVED_WORDS saved).

Definition unix_signal_restore_frame (u : unix_state D) (task frame : Z) : Z * unix_state D :=
  if (task =? 0) || (frame =? 0) || negb (sig_in_handler (tsk (us_sched u) task))
  then (u64 RDNX_E_INVALID, u)
  else
    let u := u <| us_sched ::= restore_words frame (us_saved u !!! task) |>
               <| us_sched ::= tsk_upd task (λ x, x <| sig_in_handler := false |> <| sig_pending := 0 |>) |> in
    (frame_word (us_sched u) frame FR_RAX, u).

Definition unix_signal_may_send (s : sched_state) (sender target : Z) : bool :=
  if (sender =? 0) || (target =? 0) then false
  else if sender =? target then true
  else if euid (tsk s sender) =? 0 then true
  else uid (tsk s sender) =? uid (tsk s target).

(** ** Exit *)
Definition unix_proc_close_fds (task : Z) (u : unix_state D) : unix_state D :=
  if task =? 0 then u else release_all net task u.

Definition mark_exited (status : Z) (x : task_t) : task_t :=
  x <| exit_code := s32 status |> <| exited := true |> <| task_state := TASK_STATE_ZOMBIE |>.

Definition unix_proc_exit (u : unix_state D) (status : Z) : sysres D :=
  let task := utask u in
  let u := if task =? 0 then u
           else (unix_proc_close_fds task u) <| us_sched ::= tsk_upd task (mark_exited status) |> in
  if current_thread (us_sched u) =? 0 then SysRet 0 u else SysExit (u <| us_sched ::= scheduler_exit_mark |>).

(** The frame of a handler: the return address is the restorer, [rdi] the
    signal. *)
Definition enter_handler (u : unix_state D) (task frame sig handler restorer : Z) : unix_state D :=
  let new_rsp := frame_word (us_sched u) frame FR_RSP -₆₄ 8 in
  let u := unix_signal_save_frame u task frame in
  u <| us_mem ::= λ m, ustore m new_rsp (le_bytes 8 restorer) |>
    <| us_sched ::= set_frame_word frame FR_RSP new_rsp |>
    <| us_sched ::= set_frame_word frame FR_RIP handler |>
    <| us_sched ::= set_frame_word frame FR_RDI sig |>
    <| us_sched ::= tsk_upd task (λ x, x <| sig_in_handler := true |> <| sig_pending := 0 |>) |>.

(** [SysRet]: the function returned. *)
Definition unix_proc_signal_checkpoint (u : unix_state D) : sysres D :=
  let task := utask u in
  let x := tsk (us_sched u) task in
  let thr := current_thread (us_sched u) in
  if (task =? 0) || (thr =? 0) then SysRet 0 u
  else if (sig_pending x =? 0) || (UNIX_SIG_MAX <? sig_pending x) || sig_in_handler x then SysRet 0 u
  else
    let sig := sig_pending x in
    let act := default (mk_sigaction 0 0 0 0) (Sched.sigaction x !! Z.to_nat sig) in
    let frame := arch_frame u thr in
    if frame =? 0 then SysRet 0 u
    else if sa_handler act =? UNIX_SIG_IGN
    then SysRet 0 (u <| us_sched ::= tsk_upd task (λ x, x <| sig_pending := 0 |>) |>)
    else if (sa_handler act <=? UNIX_SIG_DFL) || (sig =? UNIX_SIGKILL) then unix_proc_exit u (128 + sig)
    else if sa_restorer act =? 0 then unix_proc_exit u (128 + sig)
    else if negb (unix_user_range_ok (frame_word (us_sched u) frame FR_RSP -₆₄ 8) 8)
    then unix_proc_exit u (128 + sig)
    else SysRet 0 (enter_handler u task frame sig (sa_handler act) (sa_restorer act)).

Definition unix_proc_kill (u : unix_state D) (pid signum : Z) : sysres D :=
  let self := utask u in
  let sig := s32 signum in
  if (self =? 0) || (pid =? 0) || (sig <? 0) || (UNIX_SIG_MAX <? sig) then ret RDNX_E_INVALID u
  else
    let target := task_find_by_id (us_sched u) pid in
    if target =? 0 then ret RDNX_E_NOTFOUND u
    else if negb (unix_signal_may_send (us_sched u) self target) then ret RDNX_E_DENIED u
    else if sig =? 0 then ret RDNX_OK u
    else
      let u := u <| us_sched ::= tsk_upd target (λ x, x <| sig_pending := sig |>) |> in
      if target =? self then
        match unix_proc_signal_checkpoint u with
        | SysRet _ u => ret RDNX_OK u
        | r => r
        end
      else ret RDNX_OK u.

Definition SIGACTION_SIZE : Z := 32.

Definition store_sigaction (ptr : Z) (a : sigaction_t) (m : umem) : umem :=
  ustore m ptr (le_bytes 8 (sa_handler a) ++ le_bytes 8 (sa_flags a) ++ le_bytes 8 (sa_restorer a)
                ++ le_bytes 8 (sa_mask a)).
Definition load_sigaction (m : umem) (ptr : Z) : sigaction_t :=
  mk_sigaction (uword m ptr 8) (uword m (ptr + 8) 8) (uword m (ptr + 16) 8) (uword m (ptr + 24) 8).

Definition unix_proc_sigaction (u : unix_state D) (signum act_ptr oldact_ptr : Z) : sysres D :=
  let task := utask u in
  let sig := s32 signum in
  if (task =? 0) || (sig <=? 0) || (UNIX_SIG_MAX <? sig) || (sig =? UNIX_SIGKILL) then ret RDNX_E_INVALID u
  else if negb (oldact_ptr =? 0) && negb (unix_user_range_ok oldact_ptr SIGACTION_SIZE) then ret RDNX_E_INVALID u
  else
    let old := default (mk_sigaction 0 0 0 0) (Sched.sigaction (tsk (us_sched u) task) !! Z.to_nat sig) in
    let u := if oldact_ptr =? 0 then u else u <| us_mem ::= store_sigaction oldact_ptr old |> in
    if negb (act_ptr =? 0) && negb (unix_user_range_ok act_ptr SIGACTION_SIZE) then ret RDNX_E_INVALID u
    else if act_ptr =? 0 then ret RDNX_OK u
    else
      ret RDNX_OK
        (u <| us_sched ::= tsk_upd task
                (λ x, x <| Sched.sigaction ::= <[Z.to_nat sig := load_sigaction (us_mem u) act_ptr]> |>) |>).

Definition unix_proc_sigreturn (u : unix_state D) : sysres D :=
  let task := utask u in
  let thr := current_thread (us_sched u) in
  let frame := if thr =? 0 then 0 else arch_frame u thr in
  if (task =? 0) || (frame =? 0) then ret RDNX_E_INVALID u
  else let '(r, u) := unix_signal_restore_frame u task frame in SysRet r u.

(** ** Waiting for a child *)

(** [task_destroy]: the descriptors go before the structure. *)
Definition destroy_task (task : Z) (u : unix_state D) : unix_state D :=
  if task =? 0 then u
  else (release_all net task u) <| us_sched ::= λ s, task_destroy s task |>
         <| us_maps ::= delete task |> <| us_saved ::= delete task |>.

Definition unix_proc_waitpid (u : unix_state D) (pid status_ptr : Z) : sysres D :=
  let self := utask u in
  if (self =? 0) || (pid =? 0) then ret RDNX_E_INVALID u
  else if negb (status_ptr =? 0) && negb (unix_user_range_ok status_ptr 4) then ret RDNX_E_INVALID u
  else
    let child := task_find_by_id (us_sched u) pid in
    let x := tsk (us_sched u) child in
    if child =? 0 then ret RDNX_E_NOTFOUND u
    else if negb (parent_task_id x =? task_id (tsk (us_sched u) self)) then ret RDNX_E_DENIED u
    else if negb (exited x || bool_decide (task_state x = TASK_STATE_ZOMBIE)
                  || bool_decide (task_state x = TASK_STATE_DEAD)) then ret RDNX_E_BUSY u
    else if waited x then ret RDNX_E_NOTFOUND u
    else
      let u := u <| us_sched ::= tsk_upd child (λ x, x <| waited := true |>) |> in
      let u := if status_ptr =? 0 then u
               else u <| us_mem ::= λ m, ustore m status_ptr (le_bytes 4 (u32 (exit_code x))) |> in
      SysRet pid
        (if thread_count x =? 0
         then destroy_task child (u <| us_sched ::= tsk_upd child (λ x, x <| task_state := TASK_STATE_DEAD |>) |>)
         else u).

(** ** Sleeping *)

(** A [timespec] in milliseconds, rounded up; [None] for a bad one. *)
Definition timespec_ms (m : umem) (ptr : Z) : option Z :=
  let sec := s64 (uword m ptr 8) in
  let nsec := s64 (uword m (ptr + 8) 8) in
  if (sec <? 0) || (nsec <? 0) || (1000000000 <=? nsec) then None
  else
    let ms := u64 (sec * 1000) +₆₄ nsec / 1000000 in
    Some (if nsec mod 1000000 =? 0 then ms else ms +₆₄ 1).

(** The two halves of [unix_time_nanosleep]: up to the sleep, and behind it. *)
Definition unix_time_nanosleep (u : unix_state D) (sleep_q req_ptr rem_ptr : Z) : sysres D :=
  if (req_ptr =? 0) || negb (unix_user_range_ok req_ptr 16) then ret RDNX_E_INVALID u
  else if negb (rem_ptr =? 0) && negb (unix_user_range_ok rem_ptr 16) then ret RDNX_E_INVALID u
  else
    match timespec_ms (us_mem u) req_ptr with
    | None => ret RDNX_E_INVALID u
    | Some ms => SysWait (u <| us_sched ::= λ s, if 0 <? ms then scheduler_sleep s sleep_q ms else scheduler_yield s |>)
    end.
Definition nanosleep_done (u : unix_state D) (rem_ptr : Z) : sysres D :=
  ret RDNX_OK (if rem_ptr =? 0 then u else u <| us_mem ::= λ m, ustore m rem_ptr (replicate 16 0) |>).

(** ** Identity (posix_sys_ids.c, security.c) *)
Definition security_check_euid (s : sched_state) (required_uid : Z) : bool :=
  let task := current_task s in
  if task =? 0 then false
  else (euid (tsk s task) =? 0) || (euid (tsk s task) =? required_uid).

(** The calls that read and those that set one of the numbers. *)
Definition posix_get_id (f : task_t → Z) (u : unix_state D) : sysres D :=
  SysRet (if utask u =? 0 then 0 else f (tsk (us_sched u) (utask u))) u.

Definition posix_set_id (f : task_t → Z * Z * Z * Z) (u : unix_state D) : sysres D :=
  if negb (security_check_euid (us_sched u) 0) then ret RDNX_E_DENIED u
  else if utask u =? 0 then ret RDNX_E_INVALID u
  else
    let '(a, b, c, d) := f (tsk (us_sched u) (utask u)) in
    ret RDNX_OK (u <| us_sched ::= λ s, task_set_ids s (utask u) a b c d |>).

Definition posix_getpid := posix_get_id task_id.
Definition posix_getuid := posix_get_id uid.
Definition posix_geteuid := posix_get_id euid.
Definition posix_getgid := posix_get_id gid.
Definition posix_getegid := posix_get_id egid.
Definition posix_setuid (a : Z) := posix_set_id (λ x, (u32 a, gid x, euid x, egid x)).
Definition posix_seteuid (a : Z) := posix_set_id (λ x, (uid x, gid x, u32 a, egid x)).
Definition posix_setgid (a : Z) := posix_set_id (λ x, (uid x, u32 a, euid x, egid x)).
Definition posix_setegid (a : Z) := posix_set_id (λ x, (uid x, gid x, euid x, u32 a)).

End Proc.

End UnixProc.

(** * fork (unix_proc_fork in kernel/unix/process/unix_process.c)

    A new process from the task, descriptor, memory and thread layers: the
    descriptors are copied, the address space is cloned copy-on-write, and a
    thread starts from the frame of the caller with 0 in [rax]. *)
Module UnixFork.
Import Sched Waitq Task PathSpec Vfs VfsFile VfsInv VfsSteps UnixPath UnixPipe UnixFd UnixIo UnixProc.
Import UnixRes UnixSlots UnixFdInv UnixClone UnixCalls.

#[local] Existing Instance Vm.task_eta.
#[local] Existing Instance Vm.vm_eta.

Definition FRAME_SIZE : Z := 208.

Definition unix_frame_on_thread_stack (s : sched_state) (t frame : Z) : bool :=
  if (t =? 0) || (stack (thr s t) =? 0) || (stack_size (thr s t) <? FRAME_SIZE) || (frame =? 0) then false
  else (stack (thr s t) <=? frame) && (frame +₆₄ FRAME_SIZE <=? stack (thr s t) +₆₄ stack_size (thr s t)).

(** The words of the frame at [p]. *)
Definition frame_at (s : sched_state) (p : Z) : list Z := frame_word s p <$> seq 0 26.

(** What [kmalloc] returned for the task, with the old content of its [cwd]
    and counters, for the copies of open files and for the thread. *)
Record fork_blocks := mk_fork_blocks {
  fb_task : Z;
  fb_cwd : list Z;
  fb_group : Z * Z;
  fb_file : Z → Z;
  fb_thread : blocks
}.

Section Fork.
Context {D : Type} (net : net_ops D).

(** The result, the state of the Unix layer, the memory, the memory fields of
    the parent and those of the child.  The outer [option] is [None] when the
    fuel of a loop below ends. *)
Definition fork_out : Type := Z * unix_state D * Vm.vm_state * Vm.vm_task * option Vm.vm_task.

Definition copy_cwd (l : list Z) : list Z := take 255 (c_str l ++ replicate 255 0) ++ [0].

(** The fields of the child that come from its parent. *)
Definition init_child (parent child : Z) (s : sched_state) : sched_state :=
  let x := tsk s parent in
  let s := tsk_upd child (λ c, c <| task_state := TASK_STATE_READY |> <| parent_task_id := task_id x |>) s in
  let s := task_set_ids s child (uid x) (gid x) (euid x) (egid x) in
  let s := task_set_abi s child (task_get_abi s parent) in
  tsk_upd child (λ c, c <| tls_fs_base := Sched.tls_fs_base x |> <| umask := Sched.umask x |>
                        <| cwd := copy_cwd (cwd x) |>) s.

(** [task_destroy (child); return rc;] *)
Definition fork_undo (rc : Z) (u : unix_state D) (v : Vm.vm_state) (pt ct : Vm.vm_task) (child : Z)
    : option fork_out :=
  let fuel := S (length (from_option Vm.entries [] (Vm.t_map ct))) in
  match VmMap.vm_task_destroy fuel v ct with
  | None => None
  | Some (_, v) => Some (u64 rc, destroy_task net child u, v, pt, None)
  end.

(** The thread of the child and its entry into the ready queue. *)
Definition start_child (u : unix_state D) (v : Vm.vm_state) (pt ct : Vm.vm_task) (self child frame : Z)
    (b : blocks) (fuel : nat) : option fork_out :=
  match thread_create_user_clone (us_sched u) b child frame (frame_at (us_sched u) frame) fuel with
  | None => None
  | Some (t, s) =>
      let u := u <| us_sched := s |> in
      if t =? 0 then fork_undo RDNX_E_NOMEM u v pt ct child
      else
        let x := thr s self in
        let s := thr_upd t (λ y, y <| priority := priority x |> <| base_priority := base_priority x |>
                                   <| dyn_priority := dyn_priority x |>) s in
        let s := (scheduler_add_thread s t).2 in
        Some (task_id (tsk s child), u <| us_sched := s |>, v, pt, Some ct)
  end.

Definition set_map (t : Z) (o : option Vm.vm_map_t) (m : gmap Z Vm.vm_map_t) : gmap Z Vm.vm_map_t :=
  match o with
  | Some x => <[t := x]> m
  | None => m
  end.

(** The address space of the child. *)
Definition fork_memory (u : unix_state D) (v : Vm.vm_state) (pt : Vm.vm_task) (parent child : Z)
    (k : unix_state D → Vm.vm_state → Vm.vm_task → Vm.vm_task → option fork_out) : option fork_out :=
  let ct := Vm.mk_task None 0 0 0 0 0 in
  let '(pml4, p) := Paging.paging_create_user_pml4 (Vm.paging v) in
  let v := v <| Vm.paging := p |> in
  if pml4 =? 0 then fork_undo RDNX_E_NOMEM u v pt ct child
  else
    let u := u <| us_sched ::= tsk_upd child (λ x, x <| Sched.address_space := pml4 |>) |> in
    let ct := ct <| Vm.address_space := pml4 |> in
    let '(rc, pt, ct, v) := VmMap.vm_task_fork_clone v pt ct pml4 in
    let u := u <| us_maps ::= set_map parent (Vm.t_map pt) |> in
    if negb (rc =? RDNX_OK) then fork_undo RDNX_E_GENERIC u v pt ct child
    else k (u <| us_maps ::= set_map child (Vm.t_map ct) |>) v pt ct.

Definition unix_proc_fork (u : unix_state D) (v : Vm.vm_state) (pt : Vm.vm_task) (b : fork_blocks) (fuel : nat)
    : option fork_out :=
  let parent := utask u in
  let self := current_thread (us_sched u) in
  if (parent =? 0) || (self =? 0) || (Sched.address_space (tsk (us_sched u) parent) =? 0)
  then Some (u64 RDNX_E_INVALID, u, v, pt, None)
  else
    let frame := if unix_frame_on_thread_stack (us_sched u) self (arch_frame u self) then arch_frame u self
                 else stack_pointer (thr (us_sched u) self) in
    if negb (unix_frame_on_thread_stack (us_sched u) self frame) then Some (u64 RDNX_E_GENERIC, u, v, pt, None)
    else if fb_task b =? 0 then Some (u64 RDNX_E_NOMEM, u, v, pt, None)
    else
      let child := fb_task b in
      let u := u <| us_sched ::= λ s, init_child parent child (task_create s child (fb_cwd b) (fb_group b)) |> in
      let '(rc, u) := unix_clone_fds_for_spawn net u parent child (fb_file b) in
      if negb (rc =? RDNX_OK) then fork_undo RDNX_E_GENERIC u v pt (Vm.mk_task None 0 0 0 0 0) child
      else fork_memory u v pt parent child (λ u v pt ct, start_child u v pt ct self child frame (fb_thread b) fuel).

End Fork.

End UnixFork.
