(* ===== verification/UnixFutex.v ===== *)
(** * Futexes (unix_proc_futex in kernel/unix/process/unix_process.c)

    The table of addresses with waiting calls.  A call that waits polls the
    generation of its slot; the wake call moves the generation on.  The calls run
    interleaved, and each access to the table is one step. *)

From stdpp Require Import base gmap list numbers fin_maps.
From S2P Require Import Prelude Sched Task UnixPath UnixFd UnixIo UnixProc.

Module UnixFutex.
Import Sched Task UnixPath UnixFd UnixIo UnixProc.

Definition UNIX_FUTEX_WAIT : Z := 0.
Definition UNIX_FUTEX_WAKE : Z := 1.
Definition UNIX_FUTEX_MAX_SLOTS : nat := 64.

(** ** The table *)
Notation futex_table := (list unix_futex_slot_t).

Definition unix_futex_find_slot (T : futex_table) (addr : Z) : option nat :=
  fst <$> list_find (λ x, fx_addr x = addr) T.

Definition unix_futex_alloc_slot (T : futex_table) (addr : Z) : option (nat * futex_table) :=
  match list_find (λ x, fx_addr x = 0) T with
  | None => None
  | Some (i, _) => Some (i, <[i := mk_futex addr 0 1]> T)
  end.

(** The first critical section of a wait: the slot, its generation and the
    table with one more waiter; [None] when the table is full. *)
Definition futex_enter (T : futex_table) (addr : Z) : option (nat * Z * futex_table) :=
  match (match unix_futex_find_slot T addr with
         | Some i => Some (i, T)
         | None => unix_futex_alloc_slot T addr
         end) with
  | None => None
  | Some (i, T) => Some (i, fx_gen (T !!! i), alter (λ x, x <| fx_waiters ::= λ n, n +₃₂ 1 |>) i T)
  end.

(** The last one. *)
Definition futex_leave (T : futex_table) (i : nat) : futex_table :=
  if (i <? UNIX_FUTEX_MAX_SLOTS)%nat && (0 <? fx_waiters (T !!! i)) then
    alter (λ x, let x := x <| fx_waiters ::= λ n, n -₃₂ 1 |> in
                if fx_waiters x =? 0 then x <| fx_addr := 0 |> <| fx_gen := 0 |> else x) i T
  else T.

(** What a waiting call keeps in its variables. *)
Record futex_call := mk_call {
  fc_addr : Z;
  fc_slot : nat;
  fc_gen : Z;
  fc_expected : Z;
  fc_timeout : Z;
  fc_deadline : Z
}.

(** One round of its loop, with the value of the word and the clock: the
    result, or [None] when it yields. *)
Definition futex_check (T : futex_table) (c : futex_call) (value now : Z) : option Z :=
  if negb (value =? fc_expected c) then Some RDNX_E_BUSY
  else if negb (fx_gen (T !!! fc_slot c) =? fc_gen c) then Some RDNX_OK
  else if fc_timeout c =? 0 then Some RDNX_E_TIMEOUT
  else if (0 <? fc_timeout c) && (fc_deadline c <=? now) then Some RDNX_E_TIMEOUT
  else None.

Definition futex_wake (T : futex_table) (addr n : Z) : Z * futex_table :=
  match unix_futex_find_slot T addr with
  | None => (0, T)
  | Some i =>
      let waiters := fx_waiters (T !!! i) in
      (if n <? waiters then n else waiters,
       if 0 <? waiters then alter (λ x, x <| fx_gen ::= λ g, g +₃₂ 1 |>) i T else T)
  end.

(** ** The system call *)
Section Call.
Context {D : Type}.

(** The loop of a wait, up to its next yield. *)
Definition futex_again (u : unix_state D) (c : futex_call) : sysres D :=
  match futex_check (us_futex u) c (s32 (uword (us_mem u) (fc_addr c) 4)) (sched_ticks (us_sched u)) with
  | None => SysWait (u <| us_sched ::= scheduler_yield |>)
  | Some rc => ret rc (u <| us_futex ::= λ T, futex_leave T (fc_slot c) |>)
  end.

(** [timeout_ms], -1 without a timeout; [None] for a bad one. *)
Definition futex_timeout (u : unix_state D) (ptr : Z) : option Z :=
  if ptr =? 0 then Some (-1)
  else if negb (unix_user_range_ok ptr 16) then None
  else s64 <$> timespec_ms (us_mem u) ptr.

Definition unix_proc_futex (u : unix_state D) (uaddr op val timeout_ptr : Z) : sysres D :=
  if (uaddr =? 0) || negb (unix_user_range_ok uaddr 4) then ret RDNX_E_INVALID u
  else if u32 op =? UNIX_FUTEX_WAIT then
    if negb (s32 (uword (us_mem u) uaddr 4) =? s32 val) then ret RDNX_E_BUSY u
    else
      match futex_timeout u timeout_ptr with
      | None => ret RDNX_E_INVALID u
      | Some timeout_ms =>
          match futex_enter (us_futex u) uaddr with
          | None => ret RDNX_E_BUSY u
          | Some (i, g, T) =>
              futex_again (u <| us_futex := T |>)
                (mk_call uaddr i g (s32 val) timeout_ms (poll_deadline u timeout_ms))
          end
      end
  else if u32 op =? UNIX_FUTEX_WAKE then
    if u32 val =? 0 then SysRet 0 u
    else let '(r, T) := futex_wake (us_futex u) uaddr (u32 val) in SysRet r (u <| us_futex := T |>)
  else ret RDNX_E_UNSUPPORTED u.

End Call.

(** ** Interleaved calls *)

(** The table and the calls that wait. *)
Definition fsys : Type := futex_table * list futex_call.

Inductive fstep : fsys → fsys → Prop :=
| f_wait T cs addr i g T' expected timeout deadline :
    addr ≠ 0 → Z.of_nat (length cs) < 4294967295 → futex_enter T addr = Some (i, g, T') →
    fstep (T, cs) (T', cs ++ [mk_call addr i g expected timeout deadline])
| f_return T cs1 c cs2 value now rc :
    futex_check T c value now = Some rc → fstep (T, cs1 ++ c :: cs2) (futex_leave T (fc_slot c), cs1 ++ cs2)
| f_wake T cs addr n r T' :
    addr ≠ 0 → 0 < n < 4294967296 → futex_wake T addr n = (r, T') → fstep (T, cs) (T', cs).

(** The calls in the slot [i]. *)
Definition in_slot (cs : list futex_call) (i : nat) : Z := Z.of_nat (length (filter (λ c, fc_slot c = i) cs)).

Record futex_inv (x : fsys) : Prop := {
  fi_size : length x.1 = UNIX_FUTEX_MAX_SLOTS;
  fi_slots : ∀ i s, x.1 !! i = Some s →
    fx_waiters s = in_slot x.2 i ∧ (fx_addr s = 0 ↔ fx_waiters s = 0) ∧ 0 ≤ fx_waiters s < 4294967296 ∧
    0 ≤ fx_gen s < 4294967296;
  fi_calls : ∀ c, c ∈ x.2 → ∃ s, x.1 !! fc_slot c = Some s ∧ fx_addr s = fc_addr c ∧ fc_addr c ≠ 0;
  fi_distinct : ∀ i j s s', x.1 !! i = Some s → x.1 !! j = Some s' → fx_addr s = fx_addr s' → fx_addr s ≠ 0 → i = j
}.

(** ** Lemmas *)
Lemma find_slot_some T addr i :
  unix_futex_find_slot T addr = Some i → ∃ s, T !! i = Some s ∧ fx_addr s = addr.
Proof.
  unfold unix_futex_find_slot. intros ((j, s) & (H1 & H2 & _)%list_find_Some & ->)%fmap_Some. by exists s.
Qed.

Lemma find_slot_none T addr i s : unix_futex_find_slot T addr = None → T !! i = Some s → fx_addr s ≠ addr.
Proof.
  unfold unix_futex_find_slot. intros H%fmap_None Hi Ha. rewrite list_find_None, Forall_forall in H.
  by apply (H s); [eapply list_elem_of_lookup_2|].
Qed.

Lemma in_slot_cons c cs i : in_slot (c :: cs) i = (if decide (fc_slot c = i) then 1 else 0) + in_slot cs i.
Proof. unfold in_slot. rewrite filter_cons. case_decide; simpl; lia. Qed.

Lemma in_slot_middle cs1 c cs2 i : in_slot (cs1 ++ c :: cs2) i = in_slot (c :: cs1 ++ cs2) i.
Proof. unfold in_slot. by rewrite <- Permutation_middle. Qed.

Lemma in_slot_le cs i : in_slot cs i ≤ Z.of_nat (length cs).
Proof. unfold in_slot. apply Nat2Z.inj_le, length_filter. Qed.

Lemma in_slot_pos cs c : c ∈ cs → 0 < in_slot cs (fc_slot c).
Proof.
  intros Hin. unfold in_slot. assert (c ∈ filter (λ c', fc_slot c' = fc_slot c) cs) as H by (by apply list_elem_of_filter).
  destruct (filter _ cs); [by apply not_elem_of_nil in H|]. simpl. lia.
Qed.

(** The slot that a wait enters: the one of its address, or a free one when
    there is none. *)
Lemma futex_enter_spec T cs addr i g T' :
  futex_inv (T, cs) → Z.of_nat (length cs) < 4294967295 → futex_enter T addr = Some (i, g, T') →
  ∃ s, T !! i = Some s ∧ T' = <[i := mk_futex addr (fx_waiters s + 1) g]> T ∧ 0 ≤ g < 4294967296 ∧
    (fx_addr s = addr ∧ g = fx_gen s ∨
     fx_addr s = 0 ∧ g = 1 ∧ ∀ j s', T !! j = Some s' → fx_addr s' ≠ addr).
Proof.
  intros I Hlen. unfold futex_enter.
  assert (∀ s, T !! i = Some s → fx_waiters s +₃₂ 1 = fx_waiters s + 1) as Hw.
  { intros s Hs. destruct (fi_slots _ I i s Hs) as (E & _). pose proof (in_slot_le cs i). simpl in *.
    assert (0 ≤ in_slot cs i) by (unfold in_slot; lia). apply u32_small. lia. }
  destruct (unix_futex_find_slot T addr) as [j|] eqn:Hf.
  - intros [= -> <- <-]. destruct (find_slot_some _ _ _ Hf) as (s & Hs & Ha). exists s. split; [done|].
    rewrite (list_lookup_total_correct _ _ _ Hs). destruct (fi_slots _ I i s Hs) as (_ & _ & _ & Hg).
    split; [|by auto]. apply list_eq. intros k. destruct (decide (k = i)) as [->|Hne].
    + rewrite list_lookup_alter_eq, list_lookup_insert_eq by (by eapply lookup_lt_Some). rewrite Hs. simpl.
      unfold field_update. simpl. by rewrite Hw, <- Ha.
    + by rewrite list_lookup_alter_ne, list_lookup_insert_ne.
  - unfold unix_futex_alloc_slot. destruct (list_find _ T) as [[j s]|] eqn:Hz; [|done].
    apply list_find_Some in Hz as (Hs & Ha & _). intros [= -> <- <-]. exists s. split; [done|].
    pose proof (lookup_lt_Some _ _ _ Hs). rewrite list_lookup_total_alt, list_lookup_insert_eq by done. simpl.
    destruct (fi_slots _ I i s Hs) as (_ & Hz & _). apply Hz in Ha as Hw0. split.
    + apply list_eq. intros k. destruct (decide (k = i)) as [->|Hne].
      * rewrite list_lookup_alter_eq, !list_lookup_insert_eq by done. simpl. unfold field_update. simpl. by rewrite Hw0.
      * by rewrite list_lookup_alter_ne, !list_lookup_insert_ne.
    + split; [lia|]. right. split; [done|]. split; [done|]. intros k s'. by apply find_slot_none.
Qed.

Lemma enter_inv T cs addr i g T' expected timeout deadline :
  futex_inv (T, cs) → addr ≠ 0 → Z.of_nat (length cs) < 4294967295 → futex_enter T addr = Some (i, g, T') →
  futex_inv (T', cs ++ [mk_call addr i g expected timeout deadline]).
Proof.
  intros I Ha Hlen He. destruct (futex_enter_spec T cs addr i g T' I Hlen He) as (s & Hs & -> & Hg & Hcase).
  pose proof (lookup_lt_Some _ _ _ Hs) as Hi. pose proof (fi_slots _ I i s Hs) as (Ew & Ez & Hb & _). simpl in *.
  set (c := mk_call addr i g expected timeout deadline).
  assert (∀ k, in_slot (cs ++ [c]) k = (if decide (i = k) then 1 else 0) + in_slot cs k) as Hin.
  { intros k. rewrite in_slot_middle, app_nil_r, in_slot_cons. done. }
  split; simpl.
  - rewrite length_insert. apply I.
  - intros k s'. rewrite Hin. destruct (decide (i = k)) as [<-|Hne].
    + rewrite list_lookup_insert_eq by done. intros [= <-]. simpl. pose proof (in_slot_le cs i). repeat split; lia.
    + rewrite list_lookup_insert_ne by done. intros Hk. destruct (fi_slots _ I k s' Hk) as (-> & ?). done.
  - intros c' [Hc | ->%list_elem_of_singleton]%elem_of_app.
    + destruct (fi_calls _ I c' Hc) as (s' & Hs' & Ha' & Hn). simpl in *. destruct (decide (i = fc_slot c')) as [->|Hne].
      * rewrite list_lookup_insert_eq by done. eexists. split; [done|]. simpl. rewrite Hs in Hs'. injection Hs' as ->.
        destruct Hcase as [[<- _]|[Hz _]]; [done|congruence].
      * rewrite list_lookup_insert_ne by done. by exists s'.
    + simpl. rewrite list_lookup_insert_eq by done. by eexists.
  - intros k1 k2 s1 s2 H1 H2 He1 Hn1.
    assert (∀ k s', T !! k = Some s' → fx_addr s' = addr → k = i) as Hu.
    { intros k s' Hk Hk'. destruct Hcase as [[Hsa _]|(_ & _ & Hno)]; [|by destruct (Hno k s')].
      apply (fi_distinct _ I k i s' s); simpl; congruence. }
    destruct (decide (i = k1)) as [<-|Hn1'], (decide (i = k2)) as [<-|Hn2'];
      [done| | |].
    + rewrite list_lookup_insert_eq in H1 by done. rewrite list_lookup_insert_ne in H2 by done. injection H1 as <-. symmetry. by apply (Hu k2 s2).
    + rewrite list_lookup_insert_ne in H1 by done. rewrite list_lookup_insert_eq in H2 by done. injection H2 as <-.
      by apply (Hu k1 s1).
    + rewrite list_lookup_insert_ne in H1, H2 by done. by apply (fi_distinct _ I k1 k2 s1 s2).
Qed.

Lemma leave_inv T cs1 c cs2 : futex_inv (T, cs1 ++ c :: cs2) → futex_inv (futex_leave T (fc_slot c), cs1 ++ cs2).
Proof.
  intros I. destruct (fi_calls _ I c) as (s & Hs & Ha & Hn); [apply elem_of_app; right; left|]. simpl in *.
  pose proof (lookup_lt_Some _ _ _ Hs) as Hi. pose proof (fi_slots _ I _ s Hs) as (Ew & Ez & Hb & Hg).
  pose proof (fi_size _ I) as Hsz. simpl in *.
  assert (∀ k, in_slot (cs1 ++ c :: cs2) k = (if decide (fc_slot c = k) then 1 else 0) + in_slot (cs1 ++ cs2) k) as Hin
    by (intros k; by rewrite in_slot_middle, in_slot_cons).
  rewrite Hin, decide_True in Ew by done.
  assert (0 ≤ in_slot (cs1 ++ cs2) (fc_slot c)) as Hpos by (unfold in_slot; lia).
  unfold futex_leave. rewrite (proj2 (Nat.ltb_lt _ _)) by lia. rewrite (list_lookup_total_correct _ _ _ Hs).
  rewrite (proj2 (Z.ltb_lt _ _)) by lia. simpl.
  set (f := λ x, _). assert (∀ k, k ≠ fc_slot c → alter f (fc_slot c) T !! k = T !! k) as Hne
    by (intros; by apply list_lookup_alter_ne).
  assert (alter f (fc_slot c) T !! fc_slot c = Some (f s)) as Heq by (by rewrite list_lookup_alter_eq, Hs).
  assert (fx_waiters s -₃₂ 1 = fx_waiters s - 1) as Hw by (apply u32_small; lia).
  assert (fx_waiters (f s) = fx_waiters s - 1 ∧ 0 ≤ fx_gen (f s) < 4294967296 ∧
          fx_addr (f s) = if fx_waiters s =? 1 then 0 else fx_addr s) as (F1 & F2 & F3).
  { unfold f, field_update. simpl. rewrite Hw. replace (fx_waiters s =? 1) with (fx_waiters s - 1 =? 0) by lia.
    case_if; simpl; repeat split; lia. }
  clearbody f. split; simpl.
  - by rewrite length_alter.
  - intros k s'. destruct (decide (k = fc_slot c)) as [->|Hk].
    + rewrite Heq. intros [= <-]. rewrite F1, F3. split; [lia|]. split; [|lia]. case_if; bool_hyps; lia.
    + rewrite Hne by done. intros Hk'. destruct (fi_slots _ I k s' Hk') as (E & ?). simpl in E.
      by rewrite Hin, decide_False in E by done.
  - intros c' Hc'. destruct (fi_calls _ I c') as (s' & Hs' & Ha' & Hn').
    { simpl. apply elem_of_app. apply elem_of_app in Hc' as [?|?]; [by left|right; by right]. }
    simpl in *. destruct (decide (fc_slot c' = fc_slot c)) as [E|Hk]; [|rewrite Hne by done; by exists s'].
    rewrite E in *. rewrite Heq. exists (f s). split; [done|]. rewrite Hs in Hs'. injection Hs' as <-.
    pose proof (in_slot_pos _ _ Hc') as Hp. rewrite E in Hp. rewrite F3, (proj2 (Z.eqb_neq _ 1)) by lia. done.
  - intros k1 k2 s1 s2 H1 H2 He1 Hn1.
    assert (∀ k s', alter f (fc_slot c) T !! k = Some s' → fx_addr s' ≠ 0 →
              ∃ s'', T !! k = Some s'' ∧ fx_addr s'' = fx_addr s') as Hold.
    { intros k s' Hk Hk'. destruct (decide (k = fc_slot c)) as [->|Hk1]; [|rewrite Hne in Hk by done; by exists s'].
      rewrite Heq in Hk. injection Hk as <-. exists s. split; [done|]. rewrite F3 in *. by case_if. }
    destruct (Hold k1 s1 H1 Hn1) as (t1 & T1 & E1). destruct (Hold k2 s2 H2 ltac:(congruence)) as (t2 & T2 & E2).
    apply (fi_distinct _ I k1 k2 t1 t2); simpl; congruence.
Qed.

(** The calls that wait on an address. *)
Definition waiting (cs : list futex_call) (addr : Z) : Z := Z.of_nat (length (filter (λ c, fc_addr c = addr) cs)).

Lemma waiting_slot T cs addr i s :
  futex_inv (T, cs) → T !! i = Some s → fx_addr s = addr → addr ≠ 0 → waiting cs addr = in_slot cs i.
Proof.
  intros I Hs Ha Hn. unfold waiting, in_slot. do 2 f_equal. apply list_filter_ext_in. intros c Hc.
  destruct (fi_calls _ I c Hc) as (s' & Hs' & Ha' & _). simpl in *. split.
  - intros E. apply (fi_distinct _ I _ _ s' s); simpl; congruence.
  - intros <-. congruence.
Qed.

Lemma waiting_none T cs addr :
  futex_inv (T, cs) → unix_futex_find_slot T addr = None → ∀ c, c ∈ cs → fc_addr c ≠ addr.
Proof.
  intros I Hf c Hc. destruct (fi_calls _ I c Hc) as (s & Hs & <- & _). by apply (find_slot_none T addr (fc_slot c)).
Qed.

(** A wake moves the generation of the slot of its address, and nothing else. *)
Lemma futex_wake_spec T cs addr n r T' :
  futex_inv (T, cs) → addr ≠ 0 → 0 < n → futex_wake T addr n = (r, T') →
  r = Z.min n (waiting cs addr) ∧ futex_inv (T', cs) ∧
  ∀ c, c ∈ cs → fx_gen (T' !!! fc_slot c)
                  = if decide (fc_addr c = addr) then fx_gen (T !!! fc_slot c) +₃₂ 1 else fx_gen (T !!! fc_slot c).
Proof.
  intros I Ha Hn. unfold futex_wake. destruct (unix_futex_find_slot T addr) as [i|] eqn:Hf.
  - destruct (find_slot_some _ _ _ Hf) as (s & Hs & Hsa). rewrite (list_lookup_total_correct _ _ _ Hs).
    pose proof (fi_slots _ I i s Hs) as (Ew & Ez & Hb & Hg). simpl in Ew.
    rewrite (waiting_slot T cs addr i s I Hs Hsa Ha), <- Ew.
    rewrite (proj2 (Z.ltb_lt 0 _)) by lia. intros [= <- <-]. split; [case_if; bool_hyps; lia|].
    set (f := λ x, _). assert (∀ k, alter f i T !! k = if decide (k = i) then Some (f s) else T !! k) as Hk.
    { intros k. case_decide as E; [by rewrite E, list_lookup_alter_eq, Hs|by apply list_lookup_alter_ne]. }
    assert (fx_addr (f s) = fx_addr s ∧ fx_waiters (f s) = fx_waiters s ∧ fx_gen (f s) = fx_gen s +₃₂ 1) as (F1 & F2 & F3)
      by done. clearbody f. split; [split; simpl|].
    + rewrite length_alter. apply I.
    + intros k s'. rewrite Hk. case_decide as E; [|apply (fi_slots _ I k)]. rewrite E. intros [= <-]. rewrite F1, F2, F3.
      repeat split; try apply Ez; try lia; apply u32_range.
    + intros c Hc. destruct (fi_calls _ I c Hc) as (s' & Hs' & Ha' & Hn'). simpl in *. rewrite Hk.
      case_decide as E; [|by exists s']. rewrite E, Hs in Hs'. injection Hs' as <-. exists (f s). by rewrite F1.
    + intros k1 k2 s1 s2. rewrite !Hk. intros H1 H2 E N.
      assert (∀ k s', (if decide (k = i) then Some (f s) else T !! k) = Some s' →
                ∃ t, T !! k = Some t ∧ fx_addr t = fx_addr s') as Hold.
      { intros k s'. destruct (decide (k = i)) as [D1|D1]; [|intros; by exists s']. rewrite D1. intros [= <-]. exists s. by rewrite F1. }
      destruct (Hold k1 s1 H1) as (t1 & T1 & E1). destruct (Hold k2 s2 H2) as (t2 & T2 & E2).
      apply (fi_distinct _ I k1 k2 t1 t2); simpl; congruence.
    + intros c Hc. destruct (fi_calls _ I c Hc) as (s' & Hs' & Ha' & Hn'). simpl in *.
      rewrite !list_lookup_total_alt, Hk, Hs'. case_decide as E.
      * rewrite E, Hs in Hs'. injection Hs' as <-. rewrite decide_True by congruence. simpl. by rewrite F3.
      * rewrite decide_False; [done|]. intros E'. apply E. apply (fi_distinct _ I _ _ s' s); simpl; congruence.
  - intros [= <- <-]. pose proof (waiting_none T cs addr I Hf) as Hno. split; [|split; [done|]].
    + assert (waiting cs addr = 0) as ->; [|lia]. unfold waiting.
      by rewrite list_filter_none.
    + intros c Hc. by rewrite decide_False by auto.
Qed.

Lemma fstep_inv x y : futex_inv x → fstep x y → futex_inv y.
Proof.
  intros I H. destruct H; [by eapply enter_inv|by apply leave_inv|].
  eapply (futex_wake_spec T cs addr n r T'); try done. lia.
Qed.

Lemma fsteps_inv x y : futex_inv x → rtc fstep x y → futex_inv y.
Proof. intros I H. induction H as [|x y z Hxy _ IH]; [done|]. apply IH. by eapply fstep_inv. Qed.

(** The table at boot. *)
Definition no_futexes : futex_table := replicate UNIX_FUTEX_MAX_SLOTS (mk_futex 0 0 0).

Lemma no_futexes_inv : futex_inv (no_futexes, []).
Proof.
  split; simpl.
  - done.
  - intros i s (-> & _)%(lookup_replicate_1 UNIX_FUTEX_MAX_SLOTS). simpl. unfold in_slot. simpl. repeat split; lia.
  - by intros c ?%not_elem_of_nil.
  - intros i j s s' (-> & _)%(lookup_replicate_1 UNIX_FUTEX_MAX_SLOTS) _ _ H. by simpl in H.
Qed.

(** ** Theorems *)

(** However the calls on futexes are interleaved, every slot counts the calls
    that wait on its address, a slot without an address has no waiters, the
    slot of every waiting call holds its address until it returns, and no
    address has two slots. *)
Theorem futex_invariant T cs :
  rtc fstep (no_futexes, []) (T, cs) →
  length T = UNIX_FUTEX_MAX_SLOTS ∧
  (∀ i s, T !! i = Some s → fx_addr s ≠ 0 → fx_waiters s = waiting cs (fx_addr s) ∧ 0 < fx_waiters s) ∧
  (∀ i s, T !! i = Some s → fx_addr s = 0 → fx_waiters s = 0) ∧
  (∀ c, c ∈ cs → ∃ s, T !! fc_slot c = Some s ∧ fx_addr s = fc_addr c) ∧
  (∀ i j s s', T !! i = Some s → T !! j = Some s' → fx_addr s = fx_addr s' → fx_addr s ≠ 0 → i = j).
Proof.
  intros H. pose proof (fsteps_inv _ _ no_futexes_inv H) as I. split; [apply I|]. split; [|split; [|split]].
  - intros i s Hs Hn. destruct (fi_slots _ I i s Hs) as (E & Ez & Hb & _). simpl in E.
    rewrite (waiting_slot T cs (fx_addr s) i s) by done. split; [done|]. lia.
  - intros i s Hs Hz. destruct (fi_slots _ I i s Hs) as (_ & Ez & _). by apply Ez.
  - intros c Hc. destruct (fi_calls _ I c Hc) as (s & Hs & Ha & _). by exists s.
  - intros i j s s'. apply (fi_distinct _ I).
Qed.

(** C32. A wake returns the smaller of its argument and the number of calls that
    wait on the address.  Every call that began to wait at the present
    generation of its slot returns [RDNX_OK] in its next round if its word did
    not change: all that wait on the address, however few were asked for.  Calls
    on other addresses go on as before. *)
Theorem futex_wake_correct T cs addr n r T' :
  rtc fstep (no_futexes, []) (T, cs) → addr ≠ 0 → 0 < n → futex_wake T addr n = (r, T') →
  r = Z.min n (waiting cs addr) ∧
  ∀ c now, c ∈ cs →
    if decide (fc_addr c = addr)
    then fc_gen c = fx_gen (T !!! fc_slot c) → futex_check T' c (fc_expected c) now = Some RDNX_OK
    else ∀ value, futex_check T' c value now = futex_check T c value now.
Proof.
  intros H Ha Hn Hw. pose proof (fsteps_inv _ _ no_futexes_inv H) as I.
  destruct (futex_wake_spec T cs addr n r T' I Ha Hn Hw) as (-> & _ & Hg). split; [done|]. intros c now Hc.
  specialize (Hg c Hc). destruct (fi_calls _ I c Hc) as (s & Hs & _). destruct (fi_slots _ I _ s Hs) as (_ & _ & _ & Hb).
  unfold futex_check. rewrite Hg. case_decide as E.
  - intros ->. rewrite Z.eqb_refl. simpl. rewrite (list_lookup_total_correct _ _ _ Hs).
    destruct (Z.eqb_spec (fx_gen s +₃₂ 1) (fx_gen s)) as [E'|]; [|done]. exfalso. unfold u32 in E'.
    destruct (Z.eq_dec (fx_gen s) 4294967295) as [E1|]; [rewrite E1 in E'; done|]. rewrite Z.mod_small in E' by lia. lia.
  - done.
Qed.

(** Two threads wait on a word, and one is to be woken. *)
Definition two_waiters : fsys :=
  (<[0%nat := mk_futex 8192 2 1]> no_futexes, [mk_call 8192 0 1 7 (-1) 0; mk_call 8192 0 1 7 (-1) 0]).

Lemma two_waiters_reached : rtc fstep (no_futexes, []) two_waiters.
Proof.
  eapply rtc_l; [apply (f_wait no_futexes [] 8192 0 1 (<[0%nat := mk_futex 8192 1 1]> no_futexes) 7 (-1) 0); done|].
  eapply rtc_l; [|apply rtc_refl].
  apply (f_wait (<[0%nat := mk_futex 8192 1 1]> no_futexes) [mk_call 8192 0 1 7 (-1) 0] 8192 0 1 two_waiters.1 7 (-1) 0); done.
Qed.

Lemma futex_invariant_witness : rtc fstep (no_futexes, []) two_waiters ∧ fx_waiters (two_waiters.1 !!! 0%nat) = 2.
Proof.
  split; [apply two_waiters_reached|].
  destruct (futex_invariant two_waiters.1 two_waiters.2 two_waiters_reached) as (_ & H & _).
  destruct (H 0%nat (mk_futex 8192 2 1)) as [-> _]; [done|done|]. reflexivity.
Defined.

Lemma futex_wake_witness :
  ∃ T', futex_wake two_waiters.1 8192 1 = (1, T') ∧
    Forall (λ c, futex_check T' c 7 0 = Some RDNX_OK) two_waiters.2.
Proof.
  eexists. split; [reflexivity|]. apply Forall_forall. intros c Hc.
  pose proof (futex_wake_correct two_waiters.1 two_waiters.2 8192 1 1 _ two_waiters_reached ltac:(done) ltac:(done) eq_refl) as [_ H].
  specialize (H c 0 Hc). apply elem_of_cons in Hc as [-> | ->%list_elem_of_singleton]; by apply H.
Defined.

End UnixFutex.
