(* ===== verification/UnixProcInv.v ===== *)
(** * Processes keep the descriptor invariant

    The scheduler and the signal code do not touch descriptor tables; exit
    empties the table of its task, and a task that is destroyed has an empty
    one. *)

From stdpp Require Import base gmap list numbers fin_maps.
From S2P Require Import Prelude Sched Waitq Task PathSpec Vfs VfsFile VfsOps VfsSteps UnixPath UnixPipe.
From S2P Require Import UnixFd UnixIo UnixProc UnixRes UnixFdInv UnixCalls UnixFutex Paging Vm VmMap.

Module UnixProcInv.
Import Sched Waitq Task PathSpec Vfs VfsFile VfsInv VfsSteps UnixPath UnixPipe UnixFd UnixIo UnixProc.
Import UnixRes UnixSlots UnixFdInv UnixClone UnixCalls UnixFutex UnixFork.

(** ** States with the same tables *)
Definition table_of (x : task_t) : list Z * list Z * list Z := (fd_table x, fd_kind x, fd_flags x).
Definition tables (s : sched_state) : gmap Z (list Z * list Z * list Z) := table_of <$> tasks s.

Record fd_same (s s' : sched_state) : Prop := {
  fs_task : current_task s' = current_task s;
  fs_tables : tables s' = tables s
}.

#[export] Instance fd_same_preorder : PreOrder fd_same.
Proof.
  split; [by intros s; split|]. intros s1 s2 s3 [A B] [A' B']. split; congruence.
Qed.

Lemma same_of s s' : current_task s' = current_task s → tasks s' = tasks s → fd_same s s'.
Proof. intros H1 H2. split; [done|]. unfold tables. by rewrite H2. Qed.

Lemma same_tsk_upd t f s : (∀ x, table_of (f x) = table_of x) → fd_same s (tsk_upd t f s).
Proof.
  intros Hf. split; [done|]. unfold tables. simpl. apply map_eq. intros i. rewrite !lookup_fmap.
  destruct (decide (t = i)) as [<-|]; [|by rewrite lookup_alter_ne].
  rewrite lookup_alter_eq. destruct (tasks s !! t); simpl; [by rewrite Hf|done].
Qed.

Lemma same_enqueue s t : fd_same s (ready_enqueue s t).
Proof. unfold ready_enqueue. repeat case_if; by apply same_of. Qed.

Lemma same_thread_state s t st : fd_same s (scheduler_thread_set_state s t st).
Proof. unfold scheduler_thread_set_state. case_if; by apply same_of. Qed.

Lemma same_task_state s t st : fd_same s (scheduler_task_set_state s t st).
Proof. unfold scheduler_task_set_state. case_if; [done|by apply same_tsk_upd]. Qed.

Lemma same_wake s t : fd_same s (scheduler_wake s t).
Proof.
  assert (∀ s' b, fd_same s s' → fd_same s (s' <| resched_pending := b |>)) as Hr.
  { intros s' b [H1 H2]. by split. }
  unfold scheduler_wake. repeat case_if; try done; apply Hr.
  - etrans; [|etrans; [apply same_thread_state|apply same_enqueue]]. unfold dec_blocked, sleep_boost.
    repeat case_if; by apply same_of.
  - etrans; [apply same_thread_state|apply same_enqueue].
  - apply same_enqueue.
Qed.

Lemma same_exit_mark s : fd_same s (scheduler_exit_mark s).
Proof.
  assert (∀ s1 s2 b, fd_same s1 s2 → fd_same s1 (s2 <| resched_pending := b |>)) as Hr.
  { intros s1 s2 b [H1 H2]. by split. }
  unfold scheduler_exit_mark. case_if; [done|]. apply Hr.
  set (s1 := scheduler_thread_set_state _ _ _). assert (fd_same s s1) as H1.
  { unfold s1. etrans; [|apply same_thread_state]. unfold scheduler_exit_wake_joiner. case_if; [done|].
    etrans; [|apply same_wake]. by apply same_of. }
  case_if; [|done]. etrans; [done|apply same_task_state].
Qed.

Lemma same_wait s q ms : fd_same s (waitq_wait s q ms).2.
Proof.
  unfold waitq_wait, waitq_wait_begin. case_if; [done|]. case_if; [done|].
  set (s0 := thr_upd _ _ s). assert (fd_same s s0) as H0 by (by apply same_of).
  assert (fd_same s0 (if negb (waitq_contains s0 q (current_thread s)) then waitq_enqueue s0 q (current_thread s)
                      else (RDNX_OK, s0)).2) as H1.
  { case_if; [|done]. unfold waitq_enqueue. repeat case_if; by apply same_of. }
  destruct (if negb _ then waitq_enqueue s0 q (current_thread s) else _) as [qret s1]. simpl in H1.
  assert (fd_same s s1) as H2 by (by etrans). case_if; [done|]. simpl. case_if; [|done]. etrans; [exact H2|].
  unfold waitq_arm_timeout, waitq_disarm_timeout. repeat case_if; by apply same_of.
Qed.

Lemma same_fold {A} (f : sched_state → A → sched_state) l s : (∀ s a, fd_same s (f s a)) → fd_same s (foldl f s l).
Proof. intros Hf. revert s. induction l as [|a l IH]; intros s; simpl; [done|]. etrans; [apply Hf|apply IH]. Qed.

Lemma same_thread_destroy s t : fd_same s (thread_destroy s t).
Proof.
  unfold thread_destroy. case_if; [done|].
  match goal with |- fd_same s ((retire_stack ?s1 t) <| threads ::= _ |>) => etrans; [|apply (same_of s1); done] end.
  case_if; [by apply same_tsk_upd|done].
Qed.

Lemma same_restore frame saved s : fd_same s (restore_words frame saved s).
Proof. unfold restore_words. apply same_fold. intros s' kv. by apply same_of. Qed.

(** ** The invariant depends on the tables only *)
Lemma slots_tables lost s :
  slots lost s = (map_to_list (tables s) ≫= λ tx, zip tx.2.1.1 tx.2.1.2) ++ lost.
Proof.
  unfold slots, tables. f_equal. rewrite map_to_list_fmap. induction (map_to_list (tasks s)) as [|[t x] l IH]; [done|].
  cbn [fmap list_fmap]. rewrite !bind_cons, IH. done.
Qed.

Lemma tables_lookup s t x : tasks s !! t = Some x → tables s !! t = Some (table_of x).
Proof. intros Hx. unfold tables. by rewrite lookup_fmap, Hx. Qed.

Lemma same_has s s' t : fd_same s s' → is_Some (tasks s' !! t) ↔ is_Some (tasks s !! t).
Proof.
  intros [_ E]. assert (∀ s, is_Some (tasks s !! t) ↔ is_Some (tables s !! t)) as H.
  { intros s0. unfold tables. rewrite lookup_fmap. by rewrite fmap_is_Some. }
  by rewrite !H, E.
Qed.

Lemma same_tables_ok s s' : fd_same s s' → tables_ok s → tables_ok s'.
Proof.
  intros H T. split.
  - destruct (tasks s' !! 0) as [x|] eqn:Hx; [|done]. destruct (proj1 (same_has s s' 0 H) ltac:(by eexists)) as [y Hy].
    by rewrite (to_zero _ T) in Hy.
  - intros t x Hx. destruct (proj1 (same_has s s' t H) ltac:(by eexists)) as [y Hy].
    pose proof (to_shape _ T t y Hy) as Hs. pose proof (fs_tables _ _ H) as E.
    apply tables_lookup in Hx, Hy. rewrite E, Hy in Hx. injection Hx as E1 E2 E3.
    unfold table_ok in *. by rewrite <- E1, <- E2, <- E3.
Qed.

Section Inv.
Context {D : Type} (ops : vfs_ops D) (net : net_ops D).
Implicit Types u : unix_state D.

Lemma same_inv {lost} u u' :
  fd_inv lost u → fd_same (us_sched u) (us_sched u') → us_files u' = us_files u → us_pipes u' = us_pipes u →
  us_vfs u' = us_vfs u → fd_inv lost u'.
Proof.
  intros [T R] H E1 E2 E3. split; [by apply (same_tables_ok (us_sched u))|].
  rewrite E1, E2, E3, slots_tables, (fs_tables _ _ H), <- slots_tables. done.
Qed.

Lemma sched_inv {lost} u f :
  fd_inv lost u → (∀ s, fd_same s (f s)) → fd_inv lost (u <| us_sched ::= f |>).
Proof. intros V Hf. by apply (same_inv u). Qed.

(** A task that does not exist has nothing to release. *)
Lemma absent_handle u t fd : tasks (us_sched u) !! t = None → fd_handle u t fd = 0.
Proof. intros Hx. unfold fd_handle, tsk. by rewrite lookup_total_alt, Hx. Qed.

Lemma release_absent u t l :
  tasks (us_sched u) !! t = None → foldl (λ u fd, unix_fd_release net u t fd) u l = u.
Proof.
  intros Hx. induction l as [|fd l IH]; [done|]. simpl. rewrite <- IH at 2. f_equal. unfold unix_fd_release.
  by rewrite absent_handle, Z.eqb_refl, orb_true_r.
Qed.

Lemma release_all_inv {lost} u t : fd_inv lost u → fd_inv lost (release_all net t u).
Proof.
  intros V. destruct (tasks (us_sched u) !! t) as [x|] eqn:Hx; [by apply release_all_closed; [|eexists]|].
  unfold release_all. by rewrite release_absent.
Qed.

(** ** Exit *)
Lemma exit_keeps {lost} u status : fd_inv lost u → leaves (fd_inv lost) (unix_proc_exit net u status).
Proof.
  intros V. unfold unix_proc_exit.
  set (u1 := if utask u =? 0 then u else _). assert (fd_inv lost u1) as V1.
  { unfold u1. destruct (Z.eqb_spec (utask u) 0) as [|Ht0]; [done|]. apply sched_inv; [|intros; by apply same_tsk_upd].
    unfold unix_proc_close_fds. rewrite (proj2 (Z.eqb_neq _ _) Ht0). by apply release_all_inv. }
  case_if; [done|]. simpl. apply sched_inv; [done|]. apply same_exit_mark.
Qed.

Lemma enter_handler_inv {lost} u task frame sig handler restorer :
  fd_inv lost u → fd_inv lost (enter_handler u task frame sig handler restorer).
Proof.
  intros V. unfold enter_handler. apply sched_inv; [|intros; by apply same_tsk_upd].
  by apply (same_inv u); [|apply same_of..| | |].
Qed.

Lemma checkpoint_keeps {lost} u :
  fd_inv lost u → leaves (fd_inv lost) (unix_proc_signal_checkpoint net u).
Proof.
  intros V. unfold unix_proc_signal_checkpoint. repeat (case_if; try done); try by apply exit_keeps.
  - apply sched_inv; [done|]. intros s. by apply same_tsk_upd.
  - by apply enter_handler_inv.
Qed.

Lemma kill_keeps {lost} u pid signum : fd_inv lost u → leaves (fd_inv lost) (unix_proc_kill net u pid signum).
Proof.
  intros V. unfold unix_proc_kill. repeat (case_if; [done|]).
  set (u1 := u <| us_sched ::= _ |>). assert (fd_inv lost u1) as V1.
  { apply sched_inv; [done|]. intros s. by apply same_tsk_upd. }
  case_if; [|done]. pose proof (checkpoint_keeps u1 V1). by destruct (unix_proc_signal_checkpoint net u1).
Qed.

Lemma sigaction_keeps {lost} u signum act oldact : fd_inv lost u → leaves (fd_inv lost) (unix_proc_sigaction u signum act oldact).
Proof.
  intros V. unfold unix_proc_sigaction. repeat (case_if; [done|]).
  set (u1 := if oldact =? 0 then u else _).
  assert (fd_inv lost u1) as V1 by (unfold u1; case_if; [done|by apply upd_mem_inv]).
  repeat (case_if; [done|]). simpl. apply sched_inv; [done|]. intros s. by apply same_tsk_upd.
Qed.

Lemma sigreturn_keeps {lost} u : fd_inv lost u → leaves (fd_inv lost) (unix_proc_sigreturn u).
Proof.
  intros V. unfold unix_proc_sigreturn. set (fr := if current_thread _ =? 0 then _ else _). case_if; [done|]. unfold unix_signal_restore_frame. case_if; [done|]. simpl.
  apply sched_inv; [|intros; by apply same_tsk_upd]. apply sched_inv; [done|]. intros s. apply same_restore.
Qed.

(** ** Tasks come and go with empty tables *)
Lemma res_zero L R files pipes s :
  Forall (λ x : slot, x.1 = 0) L → res_ok (L ++ R) files pipes s ↔ res_ok R files pipes s.
Proof.
  induction 1 as [|[h k] L Hh _ IH]; [done|]. simpl in *. rewrite res_other by (by left). done.
Qed.

Lemma zero_slots x : (∀ fd, bad_fd fd = false → fd_table x !!! Z.to_nat fd = 0) → table_ok x → Forall (λ x : slot, x.1 = 0) (task_slots x).
Proof.
  intros Hz (H1 & H2 & _). apply Forall_forall. intros [h k] Hin. simpl. unfold task_slots in Hin.
  apply list_elem_of_lookup in Hin as [i Hi]. apply lookup_zip_with_Some in Hi as (a & c & [= -> ->] & Ha & Hc).
  pose proof (lookup_lt_Some _ _ _ Ha). rewrite <- (Hz (Z.of_nat i)).
  - rewrite Nat2Z.id. symmetry. by apply list_lookup_total_correct.
  - unfold bad_fd, TASK_MAX_FD. rewrite (proj2 (Z.ltb_ge _ _)), (proj2 (Z.leb_gt _ _)) by lia. done.
Qed.

Lemma delete_inv {lost} u u' t :
  fd_inv lost u → (∀ fd, bad_fd fd = false → fd_handle u t fd = 0) → us_files u' = us_files u →
  us_pipes u' = us_pipes u → us_vfs u' = us_vfs u → tables (us_sched u') = delete t (tables (us_sched u)) →
  fd_inv lost u'.
Proof.
  intros [T R] Hz E1 E2 E3 E4.
  assert (fd_same ((us_sched u) <| tasks ::= delete t |> <| current_task := current_task (us_sched u') |>) (us_sched u')) as Hs.
  { split; [done|]. rewrite E4. unfold tables. simpl. by rewrite fmap_delete. }
  assert (fd_inv lost (u <| us_sched ::= λ s, s <| tasks ::= delete t |> <| current_task := current_task (us_sched u') |> |>)) as V.
  { split.
    - split; simpl; [apply lookup_delete_None; right; apply T|]. intros t' x. rewrite lookup_delete_Some. intros [_ Hx].
      by apply (to_shape _ T t').
    - simpl. destruct (tasks (us_sched u) !! t) as [x|] eqn:Hx.
      + unfold slots. simpl. rewrite (slots_task lost _ t x Hx) in R. apply res_zero in R; [done|].
        apply zero_slots; [|by apply (to_shape _ T t)]. intros fd Hfd. specialize (Hz fd Hfd). unfold fd_handle, tsk in Hz.
        by rewrite (lookup_total_correct _ _ _ Hx) in Hz.
      + unfold slots. simpl. by rewrite delete_id. }
  by apply (same_inv _ u' V).
Qed.

Lemma same_task_destroy s t : t ≠ 0 → tables (task_destroy s t) = delete t (tables s).
Proof.
  intros Ht. unfold task_destroy. rewrite (proj2 (Z.eqb_neq _ _) Ht).
  set (s1 := s <| all_tasks ::= _ |> <| all_tasks_by_id ::= _ |>).
  assert (fd_same s1 (foldl thread_destroy s1 (task_threads (tsk s1 t)))) as [_ E] by apply same_fold, same_thread_destroy.
  unfold tables in *. simpl. rewrite fmap_delete. f_equal. exact E.
Qed.

Lemma destroy_inv {lost} u t :
  fd_inv lost u → is_Some (tasks (us_sched u) !! t) →
  fd_inv lost (destroy_task net t u) ∧
  tables (us_sched (destroy_task net t u)) = delete t (tables (us_sched (release_all net t u))).
Proof.
  intros V Ht. assert (t ≠ 0) as Ht0.
  { intros ->. destruct Ht as [x Hx]. by rewrite (to_zero _ (fv_tables _ V)) in Hx. }
  destruct (release_all_closed net u t V Ht) as [V1 _ _ _ Hz]. unfold destroy_task. rewrite (proj2 (Z.eqb_neq _ _) Ht0).
  assert (tables (task_destroy (us_sched (release_all net t u)) t) = delete t (tables (us_sched (release_all net t u)))) as E
    by (by apply same_task_destroy).
  split; [|done]. apply (delete_inv (release_all net t u) _ t); try done.
  intros fd Hfd. apply Hz; [by apply all_fds_elem|done].
Qed.

Lemma destroy_any {lost} u t : fd_inv lost u → fd_inv lost (destroy_task net t u).
Proof.
  intros V. destruct (tasks (us_sched u) !! t) as [x|] eqn:Hx; [by apply destroy_inv; [|eexists]|].
  unfold destroy_task. destruct (Z.eqb_spec t 0) as [|Ht]; [done|].
  unfold release_all. rewrite release_absent by done.
  apply (delete_inv u _ t); try done; [intros; by apply absent_handle|]. by apply same_task_destroy.
Qed.

Lemma waitpid_keeps {lost} u pid ptr : fd_inv lost u → leaves (fd_inv lost) (unix_proc_waitpid net u pid ptr).
Proof.
  intros V. unfold unix_proc_waitpid. repeat (case_if; [done|]). simpl.
  set (u1 := if ptr =? 0 then _ else _). assert (fd_inv lost u1) as V1.
  { unfold u1. case_if; [|apply upd_mem_inv]; apply sched_inv; try done; intros; by apply same_tsk_upd. }
  case_if; [|done]. apply destroy_any. apply sched_inv; [done|]. intros; by apply same_tsk_upd.
Qed.

Lemma nanosleep_keeps {lost} u sleep_q req rem : fd_inv lost u → leaves (fd_inv lost) (unix_time_nanosleep u sleep_q req rem).
Proof.
  intros V. unfold unix_time_nanosleep. repeat (case_if; [done|]). destruct (timespec_ms _ _) as [ms|]; [|done].
  apply sched_inv; [done|]. intros s. unfold scheduler_sleep.
  assert (fd_same s (scheduler_yield s)) as Hy by (unfold scheduler_yield; case_if; by apply same_of).
  repeat case_if; try done. apply same_wait.
Qed.

Lemma set_id_keeps {lost} u f : fd_inv lost u → leaves (fd_inv lost) (posix_set_id f u).
Proof.
  intros V. unfold posix_set_id. repeat (case_if; [done|]). destruct (f _) as [[[a b] c] d]. simpl.
  apply sched_inv; [done|]. intros s. unfold task_set_ids. case_if; [done|by apply same_tsk_upd].
Qed.

Lemma futex_again_keeps {lost} u c : fd_inv lost u → leaves (fd_inv lost) (futex_again u c).
Proof.
  intros V. unfold futex_again. destruct (futex_check _ _ _ _); [by apply (upd_none_inv u)|].
  apply sched_inv; [done|]. intros s. unfold scheduler_yield. case_if; by apply same_of.
Qed.

Lemma futex_keeps {lost} u uaddr op val timeout : fd_inv lost u → leaves (fd_inv lost) (unix_proc_futex u uaddr op val timeout).
Proof.
  intros V. unfold unix_proc_futex. repeat (case_if; try done).
  - destruct (futex_timeout _ _) as [ms|]; [|done]. destruct (futex_enter _ _) as [[[i g] T]|]; [|done].
    apply futex_again_keeps. by apply (upd_none_inv u).
  - destruct (futex_wake _ _ _) as [r T]. by apply (upd_none_inv u).
Qed.

(** ** fork *)
Lemma new_task_inv {lost} u t cwd0 group0 :
  fd_inv lost u → t ≠ 0 → tasks (us_sched u) !! t = None →
  let u' := u <| us_sched ::= λ s, task_create s t cwd0 group0 |> in
  fd_inv lost u' ∧ is_Some (tasks (us_sched u') !! t) ∧ utask u' = utask u ∧
  (∀ t', t' ≠ t → tasks (us_sched u') !! t' = tasks (us_sched u) !! t') ∧
  (∀ fd, bad_fd fd = false → fd_handle u' t fd = 0).
Proof.
  intros [T R] Ht Hn u'. assert (us_sched u' = task_create (us_sched u) t cwd0 group0) as E by done.
  unfold task_create in E. rewrite (proj2 (Z.eqb_neq _ _) Ht) in E.
  match type of E with _ = (_ <| tasks ::= <[t := ?y]> |> <| all_tasks ::= _ |> <| all_tasks_by_id ::= _ |> <| next_task_id ::= _ |>) =>
    set (x := y) in E end.
  assert (tasks (us_sched u') = <[t := x]> (tasks (us_sched u))) as Et by (by rewrite E).
  assert (table_ok x) as Hx by done.
  assert (∀ fd, bad_fd fd = false → fd_table x !!! Z.to_nat fd = 0) as Hz.
  { intros fd Hfd%bad_fd_false. change (fd_table x) with (replicate 32 0). apply list_lookup_total_correct.
    apply (lookup_replicate_2 32). lia. }
  split; [split|split; [|split; [by unfold utask; rewrite E|split]]].
  - rewrite E. split; simpl; [by rewrite lookup_insert_ne by done; apply T|]. intros t' y.
    destruct (decide (t = t')) as [<-|]; [by rewrite lookup_insert_eq; intros [= <-]|].
    rewrite lookup_insert_ne by done. apply (to_shape _ T).
  - change (us_files u') with (us_files u). change (us_pipes u') with (us_pipes u). change (us_vfs u') with (us_vfs u).
    rewrite (slots_task lost _ t x) by (by rewrite Et, lookup_insert_eq).
    rewrite Et, delete_insert_id by done. apply res_zero; [by apply zero_slots|done].
  - rewrite Et, lookup_insert_eq. by eexists.
  - intros t' Hne. by rewrite Et, lookup_insert_ne.
  - intros fd Hfd. unfold fd_handle, tsk. rewrite Et, lookup_total_insert_eq. auto.
Qed.

Lemma same_slot u u' t fd :
  fd_same (us_sched u) (us_sched u') → slot_is u' t fd (fd_handle u t fd) (fd_kind_of u t fd) (fd_flags_of u t fd).
Proof.
  intros [_ E]. unfold slot_is, fd_handle, fd_kind_of, fd_flags_of, tsk. rewrite !lookup_total_alt.
  assert (tables (us_sched u') !! t = tables (us_sched u) !! t) as Et by (by rewrite E).
  unfold tables in Et. rewrite !lookup_fmap in Et.
  destruct (tasks (us_sched u') !! t) as [x|], (tasks (us_sched u) !! t) as [y|]; simpl in *; try done.
  injection Et as E1 E2 E3. by rewrite E1, E2, E3.
Qed.

Lemma same_rest u u' t l : fd_same (us_sched u) (us_sched u') → rest_same u u' t l.
Proof.
  intros H. split; [apply H|intros t'; by apply same_has|]. intros. by apply same_slot.
Qed.

(** The state [u'] is [u] without the task [t]. *)
Record task_gone (u u' : unix_state D) (t : Z) : Prop := {
  tg_task : utask u' = utask u;
  tg_none : tasks (us_sched u') !! t = None;
  tg_tasks : ∀ t', t' ≠ t → is_Some (tasks (us_sched u') !! t') ↔ is_Some (tasks (us_sched u) !! t');
  tg_slots : ∀ t' fd, t' ≠ t → bad_fd fd = false →
    slot_is u' t' fd (fd_handle u t' fd) (fd_kind_of u t' fd) (fd_flags_of u t' fd);
  tg_files : same_files u u' t
}.

Lemma task_destroy_current s t : current_task (task_destroy s t) = current_task s.
Proof.
  unfold task_destroy. case_if; [done|]. simpl.
  match goal with |- current_task (foldl _ ?s1 ?l) = _ =>
    destruct (same_fold thread_destroy l s1 same_thread_destroy) as [E _]; exact E end.
Qed.

Lemma destroy_gone {lost} u u2 t :
  fd_inv lost u2 → is_Some (tasks (us_sched u2) !! t) → same_files u u2 t → rest_same u u2 t all_fds →
  fd_inv lost (destroy_task net t u2) ∧ task_gone u (destroy_task net t u2) t.
Proof.
  intros V Ht Hs Hr. destruct (destroy_inv u2 t V Ht) as [V' E]. split; [done|].
  assert (t ≠ 0) as Ht0.
  { intros ->. destruct Ht as [x Hx]. by rewrite (to_zero _ (fv_tables _ V)) in Hx. }
  destruct (release_all_same net u u2 t V Ht Hs Hr) as (V3 & R3 & S3 & _). set (u3 := release_all net t u2) in *.
  assert (us_sched (destroy_task net t u2) = task_destroy (us_sched u3) t) as Es
    by (unfold destroy_task; by rewrite (proj2 (Z.eqb_neq _ _) Ht0)).
  assert (∀ t', t' ≠ t → tables (us_sched (destroy_task net t u2)) !! t' = tables (us_sched u3) !! t') as Hl
    by (intros; by rewrite E, lookup_delete_ne).
  split.
  - unfold utask. rewrite Es, task_destroy_current. apply R3.
  - assert (tables (us_sched (destroy_task net t u2)) !! t = None) as Hn by (by rewrite E, lookup_delete_eq).
    unfold tables in Hn. by rewrite lookup_fmap, fmap_None in Hn.
  - intros t' Hne. rewrite <- (rs_tasks _ _ _ _ R3). specialize (Hl t' Hne). unfold tables in Hl.
    rewrite !lookup_fmap in Hl. rewrite <- (fmap_is_Some table_of), Hl, fmap_is_Some. done.
  - intros t' fd Hne Hfd. pose proof (bad_fd_false fd Hfd).
    destruct (rs_slots _ _ _ _ R3 t' fd ltac:(lia) (or_introl Hne)) as (<- & <- & <-).
    specialize (Hl t' Hne). unfold slot_is, fd_handle, fd_kind_of, fd_flags_of, tsk. rewrite !lookup_total_alt.
    unfold tables in Hl. rewrite !lookup_fmap in Hl.
    destruct (tasks (us_sched (destroy_task net t u2)) !! t'), (tasks (us_sched u3) !! t'); simpl in *; try done.
    injection Hl as E1 E2 E3. by rewrite E1, E2, E3.
  - intros t' fd Hne Ht' Hfd Hh Hk. rewrite <- (S3 t' fd) by done.
    unfold destroy_task. rewrite (proj2 (Z.eqb_neq _ _) Ht0). done.
Qed.

Lemma undo_gone {lost} u u2 t rc v pt ct r u' v' pt' oc :
  fd_inv lost u2 → is_Some (tasks (us_sched u2) !! t) → same_files u u2 t → rest_same u u2 t all_fds →
  fork_undo net rc u2 v pt ct t = Some (r, u', v', pt', oc) →
  r = u64 rc ∧ oc = None ∧ fd_inv lost u' ∧ task_gone u u' t.
Proof.
  intros V Ht Hs Hr. unfold fork_undo. destruct (VmMap.vm_task_destroy _ _ _) as [[? v1]|]; [|done].
  intros [= <- <- <- <- <-]. split; [done|]. split; [done|]. by apply destroy_gone.
Qed.

Lemma same_user_clone s b task frame fr fuel t s' :
  thread_create_user_clone s b task frame fr fuel = Some (t, s') → fd_same s s'.
Proof.
  unfold thread_create_user_clone. repeat (case_if; [intros [= <- <-]; done|]).
  destruct (task_kernel_stack_acquire _ _ _) as [[st c]|]; [|done]. case_if; [intros [= <- <-]; by apply same_of|].
  intros [= <- <-]. unfold link_thread. etrans; [|apply same_tsk_upd]; [by apply same_of|].
  intros x. cbv zeta. by case_if.
Qed.

Lemma same_add_thread s t : fd_same s (scheduler_add_thread s t).2.
Proof.
  unfold scheduler_add_thread. case_if; [done|]. simpl.
  assert (∀ s1 s2 f, fd_same s1 s2 → fd_same s1 (stats_upd f s2)) as Hst by (intros s1 s2 f [A B]; by split).
  apply Hst. etrans; [|apply same_enqueue]. etrans; [apply (same_thread_state s t THREAD_STATE_READY)|].
  case_if; by apply same_of.
Qed.

Lemma same_init_child parent child s : fd_same s (init_child parent child s).
Proof.
  unfold init_child, task_set_ids, task_set_abi. etrans; [|apply same_tsk_upd; done].
  repeat case_if; by repeat (etrans; [|apply same_tsk_upd; done]).
Qed.

(** What a successful fork leaves, relative to the state [u1] with the new task. *)
Definition forked (u1 u' : unix_state D) (parent child : Z) (blk : Z → Z) : Prop :=
  rest_same u1 u' child all_fds ∧ us_files u1 ⊆ us_files u' ∧
  ∀ fd, bad_fd fd = false → inherited u1 u' parent child fd (blk fd).

Lemma forked_same u1 u2 u' parent child blk :
  forked u1 u2 parent child blk → fd_same (us_sched u2) (us_sched u') → us_files u' = us_files u2 →
  forked u1 u' parent child blk.
Proof.
  intros (R & S & H) Hs E. split; [|split].
  - apply (rest_trans u1 u2); [done|]. by apply same_rest.
  - by rewrite E.
  - intros fd Hfd. destruct (H fd Hfd) as (A & B & C).
    assert (∀ h k fl, slot_is u2 child fd h k fl → slot_is u' child fd h k fl) as Hk.
    { intros h k fl (<- & <- & <-). by apply same_slot. }
    split; [auto|]. rewrite E. split; [|auto]. intros H1 H2. destruct (B H1 H2). auto.
Qed.

(** *** Identity

    Number, parent, user and directory of the tasks. *)
Definition ident (x : task_t) := (task_id x, parent_task_id x, (uid x, gid x, euid x, egid x), cwd x).
Definition ids_same (s s' : sched_state) : Prop := ident <$> tasks s' = ident <$> tasks s.

#[local] Instance ids_preorder : PreOrder ids_same.
Proof. split; [done|]. unfold ids_same. intros s1 s2 s3 A B. congruence. Qed.

Lemma ids_of s s' : tasks s' = tasks s → ids_same s s'.
Proof. unfold ids_same. by intros ->. Qed.

Lemma ids_upd t f s : (∀ x, ident (f x) = ident x) → ids_same s (tsk_upd t f s).
Proof.
  intros Hf. unfold ids_same. simpl. apply map_eq. intros i. rewrite !lookup_fmap.
  destruct (decide (t = i)) as [<-|]; [|by rewrite lookup_alter_ne].
  rewrite lookup_alter_eq. destruct (tasks s !! t); simpl; [by rewrite Hf|done].
Qed.

(** Only the tasks change, and not their identity. *)
Definition only_slots (s s' : sched_state) : Prop := s' = s <| tasks := tasks s' |> ∧ ids_same s s'.

#[local] Instance only_preorder : PreOrder only_slots.
Proof.
  split; [intros s; split; [by destruct s|done]|]. intros s1 s2 s3 [A1 B1] [A2 B2]. split; [|by etrans].
  rewrite A2, A1. by destruct s1.
Qed.

Lemma only_upd t f s : (∀ x, ident (f x) = ident x) → only_slots s (tsk_upd t f s).
Proof. intros Hf. split; [by destruct s|by apply ids_upd]. Qed.

Lemma only_release u t fd : only_slots (us_sched u) (us_sched (unix_fd_release net u t fd)).
Proof.
  unfold unix_fd_release. case_if; [done|]. simpl.
  match goal with |- only_slots _ (task_fd_close (us_sched ?u1) t fd).2 => assert (us_sched u1 = us_sched u) as -> end.
  { rewrite close_file_eq. repeat case_if; try done. by destruct (unix_pipe_release _ _). }
  unfold task_fd_close. repeat case_if; try done. by apply only_upd.
Qed.

Lemma only_release_all t u : only_slots (us_sched u) (us_sched (release_all net t u)).
Proof.
  unfold release_all. generalize all_fds. intros l. revert u. induction l as [|fd l IH]; intros u; simpl; [done|].
  etrans; [apply only_release|apply IH].
Qed.

Lemma only_clone_fd u parent child fd blk : only_slots (us_sched u) (us_sched (clone_fd u parent child fd blk).2).
Proof.
  assert (∀ u0 h k fl, us_sched u0 = us_sched u → only_slots (us_sched u) (us_sched (set_slot child fd h k fl u0))) as Hs.
  { intros u0 h k fl E. unfold set_slot. simpl. rewrite E. by apply only_upd. }
  unfold clone_fd, dup_file, dup_pipe. repeat case_if; try done; try by apply Hs.
  destruct (vfs_file_dup _ _ _) as [[rc c] s]. case_if; [done|]. by apply Hs.
Qed.

Lemma only_clone u parent child blk l : only_slots (us_sched u) (us_sched (clone_loop net u parent child blk l).2).
Proof.
  revert u. induction l as [|fd l IH]; intros u; simpl; [done|]. pose proof (only_clone_fd u parent child fd (blk fd)) as H.
  destruct (clone_fd u parent child fd (blk fd)) as [rc u1]. simpl in H. case_if; [by etrans|].
  etrans; [exact H|apply only_release_all].
Qed.

Lemma ids_lookup s s' t : ids_same s s' → is_Some (tasks s !! t) → ident (tsk s' t) = ident (tsk s t).
Proof.
  unfold ids_same, tsk. intros E [x Hx]. rewrite !lookup_total_alt, Hx. simpl.
  assert ((ident <$> tasks s') !! t = (ident <$> tasks s) !! t) as Et by (by rewrite E).
  rewrite !lookup_fmap, Hx in Et. destruct (tasks s' !! t) as [y|]; simpl in *; [congruence|done].
Qed.

Lemma ids_user_clone s b task frame fr fuel t s' :
  thread_create_user_clone s b task frame fr fuel = Some (t, s') → ids_same s s'.
Proof.
  unfold thread_create_user_clone. repeat (case_if; [intros [= <- <-]; done|]).
  destruct (task_kernel_stack_acquire _ _ _) as [[st c]|]; [|done]. case_if; [intros [= <- <-]; by apply ids_of|].
  intros [= <- <-]. unfold link_thread. etrans; [|apply ids_upd]; [by apply ids_of|].
  intros x. cbv zeta. by case_if.
Qed.

Lemma ids_add_thread s t : ids_same s (scheduler_add_thread s t).2.
Proof.
  apply ids_of. unfold scheduler_add_thread, ready_enqueue, scheduler_thread_set_state.
  case_if; [done|]. simpl. by repeat case_if.
Qed.

End Inv.

End UnixProcInv.
