(* ===== verification/UnixForkSpec.v ===== *)
(** * What fork promises

    The child of a successful [fork] has a number of its own, the identity and
    the directory of its parent, the open files and pipes of its parent, the
    cloned address space, and a ready thread that starts where the parent called
    with 0 as its result.  A [fork] that fails leaves no task and changes no
    descriptor. *)

From stdpp Require Import base gmap list numbers fin_maps.
From S2P Require Import Prelude Sched Waitq Task PathSpec Vfs VfsFile VfsOps VfsSteps UnixPath UnixPipe.
From S2P Require Import UnixFd UnixIo UnixProc UnixRes UnixFdInv UnixCalls UnixFutex UnixProcInv Paging Vm.
From S2P Require Import VmMap VmFacts VmFork VmInv.

Module UnixForkSpec.
Import Sched Waitq Task PathSpec Vfs VfsFile VfsInv VfsSteps UnixPath UnixPipe UnixFd UnixIo UnixProc.
Import UnixRes UnixSlots UnixFdInv UnixClone UnixCalls UnixFutex UnixFork UnixProcInv.
#[local] Existing Instance Vm.task_eta.
#[local] Existing Instance Vm.vm_eta.
#[local] Existing Instance ids_preorder.
#[local] Existing Instance only_preorder.

(** ** The frame of the new thread *)
Lemma foldl_insert_other (sp : Z) (f : Z → Z) l (m : gmap Z Z) a :
  (∀ k, k ∈ l → a ≠ sp + 8 * k) → foldl (λ m k, <[sp + 8 * k := f k]> m) m l !! a = m !! a.
Proof.
  revert m. induction l as [|k l IH]; intros m Hl; [done|]. simpl. rewrite IH by (intros; apply Hl; by right).
  apply lookup_insert_ne. intros E. by apply (Hl k ltac:(left)).
Qed.

Lemma foldl_insert_at (sp : Z) (f : Z → Z) l (m : gmap Z Z) k :
  NoDup l → k ∈ l → foldl (λ m k, <[sp + 8 * k := f k]> m) m l !! (sp + 8 * k) = Some (f k).
Proof.
  revert m. induction l as [|k0 l IH]; intros m Hnd Hk; [by apply not_elem_of_nil in Hk|]. simpl.
  apply NoDup_cons in Hnd as [Hn Hnd]. destruct (decide (k ∈ l)) as [Hin|Hin]; [by apply IH|].
  apply elem_of_cons in Hk as [->|]; [|done].
  rewrite foldl_insert_other by (intros k' Hk' E; assert (k' = k0) as -> by lia; done). apply lookup_insert_eq.
Qed.

Lemma frame_written s sp fr :
  length fr = 26%nat → frame_at (s <| stacks ::= λ c, c <| stack_words ::= write_frame sp fr |> |>) sp = fr.
Proof.
  intros Hlen. apply list_eq. intros i. unfold frame_at. rewrite list_lookup_fmap.
  destruct (decide (i < 26)%nat) as [Hi|Hi].
  - rewrite lookup_seq_lt by done. simpl. unfold frame_word. simpl. unfold write_frame.
    rewrite (lookup_total_correct _ _ (fr !!! i)).
    + symmetry. apply list_lookup_lookup_total_lt. lia.
    + rewrite (foldl_insert_at sp (λ k, fr !!! Z.to_nat k)); [by rewrite Nat2Z.id|apply NoDup_seqZ|].
      apply elem_of_seqZ. unfold FRAME_WORDS. lia.
  - rewrite lookup_seq_ge by lia. symmetry. apply lookup_ge_None_2. lia.
Qed.

Section Spec.
Context {D : Type} (net : net_ops D).
Implicit Types u : unix_state D.

(** A ready thread of [child] that starts from the frame [fr]. *)
Definition thread_starts (s : sched_state) (t child : Z) (fr : list Z) : Prop :=
  ∃ th, threads s !! t = Some th ∧ task_of th = child ∧ thread_state th = THREAD_STATE_READY ∧
    (∃ q, t ∈ rq s q) ∧ frame_at s (stack_pointer th) = fr.

Lemma add_thread_starts s t th child fr :
  t ≠ 0 → threads s !! t = Some th → ready_queued th = false → task_of th = child →
  frame_at s (stack_pointer th) = fr → thread_starts (scheduler_add_thread s t).2 t child fr.
Proof.
  intros Ht Hth Hq Hc Hfr. unfold scheduler_add_thread. rewrite (proj2 (Z.eqb_neq _ _) Ht). simpl.
  set (s1 := thr_upd t _ (scheduler_thread_set_state s t THREAD_STATE_READY)).
  set (s2 := if negb (sched_bucket_explicit (thr s1 t)) then _ else _).
  assert (∃ th2, threads s2 !! t = Some th2 ∧ thread_state th2 = THREAD_STATE_READY ∧ task_of th2 = task_of th ∧
            stack_pointer th2 = stack_pointer th ∧ ready_queued th2 = false ∧ stacks s2 = stacks s) as (th2 & H2 & A & B & C & Q & S).
  { assert (∃ th1, threads s1 !! t = Some th1 ∧ thread_state th1 = THREAD_STATE_READY ∧ task_of th1 = task_of th ∧
        stack_pointer th1 = stack_pointer th ∧ ready_queued th1 = false ∧ stacks s1 = stacks s) as (th1 & H1 & A1).
    { unfold s1, scheduler_thread_set_state. rewrite (proj2 (Z.eqb_neq _ _) Ht). simpl.
      rewrite !lookup_alter_eq, Hth. by eexists. }
    unfold s2. clear s2. clearbody s1. destruct (negb _); [|by exists th1]. simpl. rewrite lookup_alter_eq, H1. by eexists. }
  unfold ready_enqueue. rewrite (proj2 (Z.eqb_neq _ _) Ht).
  assert (ready_thread_is_queued s2 t = false) as ->.
  { unfold ready_thread_is_queued, thr. by rewrite (proj2 (Z.eqb_neq _ _) Ht), (lookup_total_correct _ _ _ H2). }
  set (q := if _ || _ then _ else _). exists (th2 <| ready_queued := true |>). simpl. rewrite lookup_alter_eq, H2.
  split; [done|]. split; [by rewrite <- Hc|]. split; [done|]. split.
  - exists q. unfold rq. simpl. rewrite lookup_total_insert_eq. apply elem_of_app. right. left.
  - rewrite <- Hfr. unfold frame_at, frame_word. simpl. by rewrite S, C.
Qed.

Lemma user_clone_thread s b child frame fr fuel t s' :
  thread_create_user_clone s b child frame fr fuel = Some (t, s') → t ≠ 0 → length fr = 26%nat →
  t = b_thread b ∧ ∃ th, threads s' !! t = Some th ∧ ready_queued th = false ∧ task_of th = child ∧
    frame_at s' (stack_pointer th) = <[FR_RAX := 0]> fr.
Proof.
  intros H Ht Hlen. revert H. unfold thread_create_user_clone. repeat (case_if; [intros [= <- <-]; done|]).
  destruct (task_kernel_stack_acquire _ _ _) as [[st c]|]; [|done]. case_if; [intros [= <- <-]; done|].
  intros [= <- <-]. split; [done|]. simpl. rewrite lookup_insert_eq. eexists. split; [done|]. split; [done|].
  split; [done|].
  pose proof (frame_written (s <| stacks := c |>) (frame_address st) (<[FR_RAX := 0]> fr)) as Hw.
  rewrite length_insert in Hw. exact (Hw Hlen).
Qed.

Lemma start_child_spec {lost} u1 u2 v pt ct self child frame b fuel r u' v' pt' oc :
  fd_inv lost u2 → is_Some (tasks (us_sched u2) !! child) → same_files u1 u2 child → rest_same u1 u2 child all_fds →
  start_child net u2 v pt ct self child frame b fuel = Some (r, u', v', pt', oc) →
  match oc with
  | None => r = u64 RDNX_E_NOMEM ∧ fd_inv lost u' ∧ task_gone u1 u' child
  | Some ct' =>
      ct' = ct ∧ v' = v ∧ pt' = pt ∧ r = task_id (tsk (us_sched u') child) ∧ fd_inv lost u' ∧
      fd_same (us_sched u2) (us_sched u') ∧ ids_same (us_sched u2) (us_sched u') ∧ us_files u' = us_files u2 ∧
      thread_starts (us_sched u') (b_thread b) child (<[FR_RAX := 0]> (frame_at (us_sched u2) frame))
  end.
Proof.
  intros V Hc Hs Hr. unfold start_child.
  destruct (thread_create_user_clone _ _ _ _ _ _) as [[t s]|] eqn:Ht; [|done].
  pose proof (same_user_clone _ _ _ _ _ _ _ _ Ht) as Hsame. pose proof (ids_user_clone _ _ _ _ _ _ _ _ Ht) as Hids.
  assert (fd_inv lost (u2 <| us_sched := s |>)) as V1 by (by apply (same_inv u2)).
  destruct (Z.eqb_spec t 0) as [|Ht0].
  - intros Hu. destruct (undo_gone (lost := lost) net u1 (u2 <| us_sched := s |>) child RDNX_E_NOMEM v pt ct r u' v' pt' oc) as (-> & -> & V' & G); try done.
    + by apply (same_has (us_sched u2) s).
    + apply (rest_trans u1 u2); [done|by apply same_rest].
  - destruct (user_clone_thread _ _ _ _ _ _ _ _ Ht Ht0) as (-> & th & Hth & Hq & Htask & Hfr).
    { unfold frame_at. by rewrite length_fmap, length_seq. }
    set (x := thr s self). set (s1 := thr_upd (b_thread b) _ s). intros [= <- <- <- <- <-].
    assert (fd_same s s1 ∧ ids_same s s1) as [H1 I1] by (split; [by apply same_of|by apply ids_of]).
    pose proof (same_add_thread s1 (b_thread b)) as H2. pose proof (ids_add_thread s1 (b_thread b)) as I2.
    assert (fd_same (us_sched u2) (scheduler_add_thread s1 (b_thread b)).2) as H3 by (etrans; [exact Hsame|by etrans]).
    do 4 (split; [done|]). split; [by apply (same_inv u2)|]. split; [done|].
    split; [simpl; etrans; [exact Hids|by etrans]|]. split; [done|]. simpl.
    assert (threads s1 !! b_thread b
              = Some (th <| priority := priority x |> <| base_priority := base_priority x |> <| dyn_priority := dyn_priority x |>)) as H4
      by (unfold s1; simpl; by rewrite lookup_alter_eq, Hth).
    by eapply add_thread_starts.
Qed.

(** ** The memory of the child *)
Definition cloned_memory (v v' : Vm.vm_state) (pt pt' ct : Vm.vm_task) : Prop :=
  ∃ pml4 p, Paging.paging_create_user_pml4 (Vm.paging v) = (pml4, p) ∧ pml4 ≠ 0 ∧
    VmMap.vm_task_fork_clone (v <| Vm.paging := p |>) pt (Vm.mk_task None pml4 0 0 0 0) pml4
      = (RDNX_OK, pt', ct, v').

(** What the child of [parent] gets, in a state [u] before the call and [u']
    behind it. *)
Record child_of (u u' : unix_state D) (b : fork_blocks) (frame r : Z) : Prop := {
  co_id : r = next_task_id (us_sched u);
  co_ident : let x := tsk (us_sched u) (utask u) in
    ident (tsk (us_sched u') (fb_task b)) = (r, task_id x, (uid x, gid x, euid x, egid x), copy_cwd (cwd x));
  co_fds : ∀ fd, bad_fd fd = false → inherited u u' (utask u) (fb_task b) fd (fb_file b fd);
  co_tasks : ∀ t, is_Some (tasks (us_sched u') !! t) ↔ t = fb_task b ∨ is_Some (tasks (us_sched u) !! t);
  co_others : ∀ t fd, t ≠ fb_task b → bad_fd fd = false →
    slot_is u' t fd (fd_handle u t fd) (fd_kind_of u t fd) (fd_flags_of u t fd);
  co_files : us_files u ⊆ us_files u';
  co_thread : thread_starts (us_sched u') (b_thread (fb_thread b)) (fb_task b) (<[FR_RAX := 0]> (frame_at (us_sched u) frame))
}.

(** The part behind the copy of the descriptors. *)
Lemma fork_memory_spec {lost} u1 u2 v pt parent self child frame b fuel r u' v' pt' oc :
  fd_inv lost u2 → is_Some (tasks (us_sched u2) !! child) → same_files u1 u2 child → rest_same u1 u2 child all_fds →
  fork_memory net u2 v pt parent child (λ u v pt ct, start_child net u v pt ct self child frame b fuel)
    = Some (r, u', v', pt', oc) →
  match oc with
  | None => fd_inv lost u' ∧ task_gone u1 u' child
  | Some ct =>
      cloned_memory v v' pt pt' ct ∧ r = task_id (tsk (us_sched u') child) ∧ fd_inv lost u' ∧
      fd_same (us_sched u2) (us_sched u') ∧ ids_same (us_sched u2) (us_sched u') ∧ us_files u' = us_files u2 ∧
      thread_starts (us_sched u') (b_thread b) child (<[FR_RAX := 0]> (frame_at (us_sched u2) frame))
  end.
Proof.
  intros V Hc Hs Hr. unfold fork_memory. destruct (Paging.paging_create_user_pml4 (Vm.paging v)) as [pml4 p] eqn:Hp.
  destruct (Z.eqb_spec pml4 0) as [|Hp0].
  { intros Hu. destruct (undo_gone (lost := lost) net u1 _ _ _ _ _ _ _ _ _ _ _ V Hc Hs Hr Hu) as (_ & -> & V' & G). done. }
  set (u3 := u2 <| us_sched ::= _ |>).
  assert (fd_same (us_sched u2) (us_sched u3)) as S3 by (by apply same_tsk_upd).
  assert (ids_same (us_sched u2) (us_sched u3)) as I3 by (by apply ids_upd).
  change (Vm.mk_task None 0 0 0 0 0) <| Vm.address_space := pml4 |> with (Vm.mk_task None pml4 0 0 0 0).
  destruct (VmMap.vm_task_fork_clone _ _ _ _) as [[[rc pt1] ct1] v1] eqn:Hf.
  set (u4 := u3 <| us_maps ::= _ |>).
  assert (∀ u5, us_sched u5 = us_sched u3 → us_files u5 = us_files u2 → us_pipes u5 = us_pipes u2 → us_vfs u5 = us_vfs u2 →
    fd_inv lost u5 ∧ is_Some (tasks (us_sched u5) !! child) ∧ same_files u1 u5 child ∧ rest_same u1 u5 child all_fds) as H5.
  { intros u5 E1 E2 E3 E4. rewrite E1. assert (fd_same (us_sched u2) (us_sched u5)) as S5 by (by rewrite E1).
    split; [by apply (same_inv u2)|]. split; [by apply (same_has (us_sched u2) (us_sched u3))|].
    split; [intros t' fd; rewrite E2; apply Hs|]. apply (rest_trans u1 u2); [done|by apply same_rest]. }
  destruct (Z.eqb_spec rc RDNX_OK) as [->|_]; simpl.
  - set (u5 := u4 <| us_maps ::= _ |>). destruct (H5 u5) as (V5 & C5 & F5 & R5); [done..|]. intros Hst.
    pose proof (start_child_spec u1 u5 v1 pt1 ct1 self child frame b fuel r u' v' pt' oc V5 C5 F5 R5 Hst) as H.
    destruct oc as [ct|]; [|by destruct H as (_ & ? & ?)]. destruct H as (-> & -> & -> & -> & V' & S' & I' & E' & T').
    split; [by exists pml4, p|]. split; [done|]. split; [done|]. split; [by etrans|]. split; [by etrans|].
    split; [done|]. done.
  - destruct (H5 u4) as (V5 & C5 & F5 & R5); [done..|]. intros Hu.
    destruct (undo_gone (lost := lost) net u1 _ _ _ _ _ _ _ _ _ _ _ V5 C5 F5 R5 Hu) as (_ & -> & V' & G). done.
Qed.

(** ** The new task *)
Lemma init_child_ident parent child c0 s :
  tasks s !! child = Some c0 → child ≠ 0 → parent ≠ child →
  let x := tsk s parent in
  ident (tsk (init_child parent child s) child) = (task_id c0, task_id x, (uid x, gid x, euid x, egid x), copy_cwd (cwd x)).
Proof.
  intros Hc Hn Hne x. unfold init_child, task_set_ids, task_set_abi. rewrite (proj2 (Z.eqb_neq _ _) Hn).
  unfold tsk. simpl. rewrite lookup_total_alt, !lookup_alter_eq, Hc. done.
Qed.

Lemma new_task {lost} u b :
  fd_inv lost u → has_task u → utask u ≠ 0 → fb_task b ≠ 0 → tasks (us_sched u) !! fb_task b = None →
  let u1 := u <| us_sched ::= λ s, init_child (utask u) (fb_task b) (task_create s (fb_task b) (fb_cwd b) (fb_group b)) |> in
  let x := tsk (us_sched u) (utask u) in
  fd_inv lost u1 ∧ is_Some (tasks (us_sched u1) !! fb_task b) ∧ utask u1 = utask u ∧
  (∀ fd, bad_fd fd = false → fd_handle u1 (fb_task b) fd = 0) ∧
  (∀ t, t ≠ fb_task b → is_Some (tasks (us_sched u1) !! t) ↔ is_Some (tasks (us_sched u) !! t)) ∧
  (∀ t fd, t ≠ fb_task b → slot_is u1 t fd (fd_handle u t fd) (fd_kind_of u t fd) (fd_flags_of u t fd)) ∧
  stacks (us_sched u1) = stacks (us_sched u) ∧
  ident (tsk (us_sched u1) (fb_task b))
    = (next_task_id (us_sched u), task_id x, (uid x, gid x, euid x, egid x), copy_cwd (cwd x)).
Proof.
  intros V Ht Ht0 Hb Hn u1 x. set (child := fb_task b) in *.
  destruct (new_task_inv u child (fb_cwd b) (fb_group b) V Hb Hn) as (V0 & L0 & T0 & O0 & Z0).
  set (u0 := u <| us_sched ::= λ s, task_create s child (fb_cwd b) (fb_group b) |>) in *.
  assert (us_sched u1 = init_child (utask u) child (us_sched u0)) as E1 by done.
  assert (fd_same (us_sched u0) (us_sched u1)) as S1 by (rewrite E1; apply same_init_child).
  pose proof (task_live u Ht Ht0) as Hl.
  assert (utask u ≠ child) as Hne by (intros E; destruct Hl as [y Hy]; congruence).
  split; [by apply (same_inv u0)|]. split; [by apply (same_has (us_sched u0) (us_sched u1))|].
  split; [unfold utask; rewrite (fs_task _ _ S1); done|].
  split; [intros fd Hfd; destruct (same_slot u0 u1 child fd S1) as [-> _]; auto|].
  split; [intros t Hnt; by rewrite (same_has (us_sched u0) (us_sched u1)), O0|].
  split.
  { intros t fd Hnt. destruct (same_slot u0 u1 t fd S1) as (A & B & C).
    assert (tsk (us_sched u0) t = tsk (us_sched u) t) as E by (unfold tsk; by rewrite !lookup_total_alt, O0).
    unfold slot_is. rewrite A, B, C. unfold fd_handle, fd_kind_of, fd_flags_of. by rewrite E. }
  assert (stacks (us_sched u0) = stacks (us_sched u)) as Es by (simpl; unfold task_create; by case_if).
  split; [rewrite E1; unfold init_child, task_set_ids, task_set_abi; by rewrite (proj2 (Z.eqb_neq _ _) Hb)|].
  destruct (tasks (us_sched u0) !! child) as [c0|] eqn:Hc; [|by destruct L0].
  rewrite E1, (init_child_ident (utask u) child c0) by done.
  assert (tsk (us_sched u0) (utask u) = x) as -> by (unfold tsk, x; by rewrite !lookup_total_alt, O0).
  do 3 f_equal. simpl in Hc. unfold task_create in Hc. rewrite (proj2 (Z.eqb_neq _ _) Hb) in Hc. simpl in Hc.
  rewrite lookup_insert_eq in Hc. by injection Hc as <-.
Qed.

Lemma gone_before {lost} u b u' :
  fd_inv lost u → has_task u → utask u ≠ 0 → fb_task b ≠ 0 → tasks (us_sched u) !! fb_task b = None →
  task_gone (u <| us_sched ::= λ s, init_child (utask u) (fb_task b) (task_create s (fb_task b) (fb_cwd b) (fb_group b)) |>)
    u' (fb_task b) →
  task_gone u u' (fb_task b).
Proof.
  intros V Ht Ht0 Hb Hn [A B C E F]. destruct (new_task u b V Ht Ht0 Hb Hn) as (_ & _ & T1 & _ & X1 & S1 & _ & _).
  split; [by rewrite A, T1|done|intros t Hne; by rewrite C, X1| |].
  - intros t fd Hne Hfd. destruct (S1 t fd Hne) as (<- & <- & <-). by apply E.
  - intros t fd Hne Hl Hfd Hh Hk. destruct (S1 t fd Hne) as (E1 & E2 & _). rewrite <- E1.
    apply F; [done|by apply X1|done|congruence|congruence].
Qed.

Lemma gone_refl {lost} u t : fd_inv lost u → (t ≠ 0 → tasks (us_sched u) !! t = None) → task_gone u u t.
Proof.
  intros V Ht. assert (tasks (us_sched u) !! t = None) as Hn.
  { destruct (Z.eq_dec t 0) as [->|]; [apply (fv_tables _ V)|auto]. }
  split; try done.
Qed.

(** The descriptors of the child, seen from the state before the call. *)
Lemma inherited_before u u1 u' parent child fd blk :
  slot_is u1 parent fd (fd_handle u parent fd) (fd_kind_of u parent fd) (fd_flags_of u parent fd) →
  us_files u1 = us_files u → inherited u1 u' parent child fd blk → inherited u u' parent child fd blk.
Proof. intros (E1 & E2 & E3) E4. unfold inherited. by rewrite E1, E2, E3, E4. Qed.

(** The state with the new task. *)
Definition with_child (b : fork_blocks) (u : unix_state D) : unix_state D :=
  u <| us_sched ::= λ s, init_child (utask u) (fb_task b) (task_create s (fb_task b) (fb_cwd b) (fb_group b)) |>.

Lemma with_child_size u b :
  tasks (us_sched u) !! fb_task b = None → is_Some (tasks (us_sched (with_child b u)) !! fb_task b) →
  (∀ t, t ≠ fb_task b → is_Some (tasks (us_sched (with_child b u)) !! t) ↔ is_Some (tasks (us_sched u) !! t)) →
  size (tasks (us_sched (with_child b u))) = S (size (tasks (us_sched u))).
Proof.
  intros Hn L X. assert (dom (tasks (us_sched (with_child b u))) = {[fb_task b]} ∪ dom (tasks (us_sched u))) as Ed.
  { apply set_eq. intros t. rewrite elem_of_union, elem_of_singleton, !elem_of_dom.
    destruct (decide (t = fb_task b)) as [->|Hnt]; [naive_solver|]. rewrite X by done. naive_solver. }
  rewrite <- !size_dom, Ed, size_union, size_singleton; [done|]. rewrite disjoint_singleton_l, elem_of_dom, Hn.
  by intros [? ?].
Qed.

Lemma clone_new {lost} u b rc u2 :
  fd_inv lost u → has_task u → utask u ≠ 0 → Z.of_nat (length (slots lost (us_sched u)) + 32) < 4294967294 →
  fb_task b ≠ 0 → tasks (us_sched u) !! fb_task b = None → fresh_files (fb_file b) all_fds u →
  unix_clone_fds_for_spawn net (with_child b u) (utask u) (fb_task b) (fb_file b) = (rc, u2) →
  cloned (lost := lost) (with_child b u) u2 rc (utask u) (fb_task b) (fb_file b) all_fds ∧
  only_slots (us_sched (with_child b u)) (us_sched u2).
Proof.
  intros V Ht Ht0 Hfew Hb Hn Hblk Hclone. unfold unix_clone_fds_for_spawn in Hclone.
  rewrite (proj2 (Z.eqb_neq _ _) Ht0), (proj2 (Z.eqb_neq _ _) Hb) in Hclone. cbn [orb] in Hclone.
  destruct (new_task u b V Ht Ht0 Hb Hn) as (V1 & L1 & _ & Z1 & X1 & _). fold (with_child b u) in V1, L1, Z1, X1.
  pose proof (task_live u Ht Ht0) as Hl.
  assert (utask u ≠ fb_task b) as Hne by (intros E; rewrite E, Hn in Hl; by destruct Hl).
  split.
  - apply (clone_loop_inv net (with_child b u) _ _ _ _ rc u2); try done.
    + unfold few. rewrite slots_length by apply V1. rewrite slots_length in Hfew by apply V.
      rewrite with_child_size by done. lia.
    + by apply X1.
    + apply all_fds_nodup.
    + intros fd Hin%all_fds_elem. auto.
  - pose proof (only_clone net (with_child b u) (utask u) (fb_task b) (fb_file b) all_fds) as H. by rewrite Hclone in H.
Qed.

(** The child of a fork that succeeds. *)
Lemma child_result {lost} u b u2 u' frame :
  fd_inv lost u → has_task u → utask u ≠ 0 → fb_task b ≠ 0 → tasks (us_sched u) !! fb_task b = None →
  cloned (lost := lost) (with_child b u) u2 RDNX_OK (utask u) (fb_task b) (fb_file b) all_fds →
  only_slots (us_sched (with_child b u)) (us_sched u2) →
  fd_same (us_sched u2) (us_sched u') → ids_same (us_sched u2) (us_sched u') → us_files u' = us_files u2 →
  thread_starts (us_sched u') (b_thread (fb_thread b)) (fb_task b) (<[FR_RAX := 0]> (frame_at (us_sched u2) frame)) →
  child_of u u' b frame (task_id (tsk (us_sched u') (fb_task b))).
Proof.
  intros V Ht Ht0 Hb Hn (V2 & _ & Hok & _) [Honly Hids] S' I' E' T'. destruct (Hok eq_refl) as (R2 & Fs2 & Hinh).
  destruct (new_task u b V Ht Ht0 Hb Hn) as (_ & L1 & _ & _ & X1 & S1 & K1 & I1).
  fold (with_child b u) in L1, X1, S1, K1, I1. set (u1 := with_child b u) in *.
  assert (forked u1 u' (utask u) (fb_task b) (fb_file b)) as (R' & Fs' & Hinh').
  { apply (forked_same u1 u2); [|done|done]. split; [done|]. split; [done|]. intros fd Hfd. by apply Hinh, all_fds_elem. }
  assert (ids_same (us_sched u1) (us_sched u')) as I2 by (by etrans).
  assert (ident (tsk (us_sched u') (fb_task b)) = ident (tsk (us_sched u1) (fb_task b))) as Ei by (by apply ids_lookup).
  rewrite I1 in Ei. pose proof (task_live u Ht Ht0) as Hl.
  assert (utask u ≠ fb_task b) as Hne by (intros E; rewrite E, Hn in Hl; by destruct Hl).
  assert (task_id (tsk (us_sched u') (fb_task b)) = next_task_id (us_sched u)) as Er by (by injection Ei).
  split.
  - done.
  - by rewrite Er.
  - intros fd Hfd. apply (inherited_before u u1); [by apply S1|done|]. by apply Hinh'.
  - intros t. rewrite (rs_tasks _ _ _ _ R'). destruct (decide (t = fb_task b)) as [->|Hnt]; [naive_solver|].
    rewrite X1 by done. naive_solver.
  - intros t fd Hnt Hfd. pose proof (bad_fd_false fd Hfd). destruct (S1 t fd Hnt) as (<- & <- & <-).
    apply (rs_slots _ _ _ _ R'); [lia|by left].
  - done.
  - assert (frame_at (us_sched u2) frame = frame_at (us_sched u) frame) as <-; [|done].
    assert (stacks (us_sched u2) = stacks (us_sched u)) as Ek by (rewrite Honly; exact K1).
    unfold frame_at, frame_word. by rewrite Ek.
Qed.

Lemma fork_result {lost} u v pt b fuel r u' v' pt' oc :
  fd_inv lost u → has_task u → Z.of_nat (length (slots lost (us_sched u)) + 32) < 4294967294 →
  (fb_task b ≠ 0 → tasks (us_sched u) !! fb_task b = None) → fresh_files (fb_file b) all_fds u →
  unix_proc_fork net u v pt b fuel = Some (r, u', v', pt', oc) →
  fd_inv lost u' ∧
  match oc with
  | Some ct =>
      (∃ frame, unix_frame_on_thread_stack (us_sched u) (current_thread (us_sched u)) frame = true ∧ child_of u u' b frame r) ∧
      cloned_memory v v' pt pt' ct
  | None => task_gone u u' (fb_task b)
  end.
Proof.
  intros V Ht Hfew Hfresh Hblk. unfold unix_proc_fork.
  assert (fd_inv lost u ∧ task_gone u u (fb_task b)) as Hsame by (split; [done|by apply (gone_refl (lost := lost))]).
  case_if; [by intros [= <- <- <- <- <-]|]. not_null Eif. set (fr := if unix_frame_on_thread_stack _ _ _ then _ else _).
  destruct (unix_frame_on_thread_stack (us_sched u) (current_thread (us_sched u)) fr) eqn:Hfr;
    simpl; [|by intros [= <- <- <- <- <-]].
  destruct (Z.eqb_spec (fb_task b) 0) as [|Hb]; [by intros [= <- <- <- <- <-]|]. specialize (Hfresh Hb).
  fold (with_child b u). pose proof (λ w, gone_before u b w V Ht Eif Hb Hfresh) as Hgone. fold (with_child b u) in Hgone.
  destruct (unix_clone_fds_for_spawn net (with_child b u) (utask u) (fb_task b) (fb_file b)) as [rc u2] eqn:Hclone.
  destruct (clone_new u b rc u2 V Ht Eif Hfew Hb Hfresh Hblk Hclone) as [Hcl Honly].
  pose proof Hcl as (V2 & F2 & Hok & Hfail).
  assert (rest_same (with_child b u) u2 (fb_task b) all_fds) as R2
    by (destruct (Z.eq_dec rc RDNX_OK) as [E|E]; [by destruct (Hok E)|by destruct (Hfail E)]).
  assert (is_Some (tasks (us_sched u2) !! fb_task b)) as L2
    by (destruct (new_task u b V Ht Eif Hb Hfresh) as (_ & L1 & _); by apply (rs_tasks _ _ _ _ R2)).
  destruct (Z.eqb_spec rc RDNX_OK) as [->|Erc]; simpl; intros Hm.
  - pose proof (fork_memory_spec _ u2 v pt _ _ _ fr (fb_thread b) fuel r u' v' pt' oc V2 L2 F2 R2 Hm) as Hspec.
    destruct oc as [ct|]; [|destruct Hspec as [V' G]; split; [done|]; by apply Hgone].
    destruct Hspec as (Hmem & -> & V' & S' & I' & E' & T'). split; [done|]. split; [|done]. exists fr. split; [done|].
    by apply (child_result (lost := lost) u b u2 u').
  - destruct (undo_gone net (with_child b u) u2 _ _ _ _ _ _ _ _ _ _ V2 L2 F2 R2 Hm) as (_ & -> & V' & G).
    split; [done|]. by apply Hgone.
Qed.

(** ** Fork returns

    The loops below [fork] end: the search of the stack cache takes a stack off
    the cache in each round, and the teardown of the memory an entry off the
    map. *)
Lemma stack_acquire_total c fuel :
  (length (cached c) ≤ fuel)%nat → is_Some (stack_acquire_loop c fuel).
Proof.
  revert c. induction fuel as [|fuel IH]; intros c Hl; simpl.
  - destruct (cached c); [by eexists|simpl in Hl; lia].
  - pose proof (length_reverse (cached c)) as E. destruct (reverse (cached c)) as [|st rest]; [by eexists|].
    repeat case_if; try by eexists. apply IH. simpl in *. rewrite length_reverse. lia.
Qed.

Lemma user_clone_total s b task frame fr fuel :
  (length (cached (stacks s)) ≤ fuel)%nat → is_Some (thread_create_user_clone s b task frame fr fuel).
Proof.
  intros Hl. unfold thread_create_user_clone, task_kernel_stack_acquire. repeat (case_if; [by eexists|]).
  destruct (stack_acquire_total (stacks s) fuel Hl) as [[st c] ->]. repeat case_if; by eexists.
Qed.

Lemma destroy_loop_total fuel v m pml4 :
  VmFacts.map_ok (Vm.entries m) → (length (Vm.entries m) ≤ fuel)%nat → is_Some (VmMap.destroy_loop fuel v m pml4).
Proof.
  revert v m. induction fuel as [|fuel IH]; intros v m Hok Hl; simpl.
  { destruct (Vm.entries m); [by eexists|simpl in Hl; lia]. }
  destruct (Vm.entries m) as [|e l] eqn:E; [by eexists|].
  pose proof (VmTasks.remove_first v m e l pml4 ltac:(by rewrite E) E) as H1.
  destruct (VmMap.vm_map_remove v m _ _ pml4) as [[rc m1] v1]. simpl in H1. injection H1 as -> ->.
  apply IH; [|simpl in *; lia]. destruct Hok as (? & [? ?] & Hlen). split_and!; [by eapply Forall_cons|done|simpl in *; lia].
Qed.

Definition task_map_ok (ct : Vm.vm_task) : Prop := ∀ m, Vm.t_map ct = Some m → VmFacts.map_ok (Vm.entries m).

Lemma undo_total rc u v pt ct child : task_map_ok ct → is_Some (fork_undo net rc u v pt ct child).
Proof.
  intros Hc. unfold fork_undo, VmMap.vm_task_destroy. destruct (Vm.t_map ct) as [m|] eqn:Hm; [|by eexists]. cbn [from_option].
  destruct (destroy_loop_total (S (length (Vm.entries m))) v m (Vm.address_space ct)) as [[m' v'] ->]; [by apply Hc|lia|].
  by eexists.
Qed.

Lemma fork_loop_entries v cp pas dn rest child pl cl v' :
  VmMap.fork_loop v cp pas dn rest child = (RDNX_OK, pl, cl, v') → cl = child ++ (VmFork.cow_mark <$> rest).
Proof.
  revert v dn child. induction rest as [|e rest IH]; intros v dn child; simpl.
  { intros [= _ <- _]. by rewrite app_nil_r. }
  case_if; [done|]. destruct (VmMap.fork_pages _ _ _ _ _ _) as [ok v1]. destruct ok; [|done]. simpl.
  intros H%IH. rewrite H, <- app_assoc. done.
Qed.

Lemma clone_map_ok v pt ct cp rc pt' ct' v' :
  VmMap.vm_task_fork_clone v pt ct cp = (rc, pt', ct', v') → task_map_ok pt → task_map_ok ct → task_map_ok ct'.
Proof.
  intros H Hp Hc. unfold VmMap.vm_task_fork_clone in H. destruct (Vm.t_map pt) as [pm|] eqn:Hm; [|by simplify_eq].
  case_if; [by simplify_eq|]. destruct (VmMap.fork_loop _ _ _ _ _ _) as [[[rc0 pl] cl] v0] eqn:Hl.
  destruct (Z.eqb_spec rc0 RDNX_OK) as [->|]; simpl in H; [|by simplify_eq].
  apply fork_loop_entries in Hl. simpl in Hl. injection H as _ _ <- _. intros m. simpl. intros [= <-]. simpl.
  rewrite Hl. by apply VmFork.cow_mark_ok, Hp.
Qed.

Lemma fork_total u v pt b fuel :
  task_map_ok pt → (length (cached (stacks (us_sched u))) ≤ fuel)%nat →
  is_Some (unix_proc_fork net u v pt b fuel).
Proof.
  intros Hm Hl. assert (task_map_ok (Vm.mk_task None 0 0 0 0 0)) as H0 by done. unfold unix_proc_fork.
  case_if; [by eexists|]. set (fr := if unix_frame_on_thread_stack _ _ _ then _ else _). clearbody fr.
  repeat (case_if; [by eexists|]). fold (with_child b u).
  destruct (unix_clone_fds_for_spawn net (with_child b u) (utask u) (fb_task b) (fb_file b)) as [rc u2] eqn:Hc.
  assert (stacks (us_sched u2) = stacks (us_sched u)) as E2.
  { transitivity (stacks (us_sched (with_child b u))).
    - unfold unix_clone_fds_for_spawn in Hc. case_if; [by injection Hc as _ <-|].
      pose proof (only_clone net (with_child b u) (utask u) (fb_task b) (fb_file b) all_fds) as [E _].
      rewrite Hc in E. simpl in E. by rewrite E.
    - unfold with_child, init_child, task_create, task_set_ids, task_set_abi. simpl. by repeat case_if. }
  case_if; [by apply undo_total|]. unfold fork_memory. destruct (Paging.paging_create_user_pml4 _) as [pml4 p].
  case_if; [by apply undo_total|]. destruct (VmMap.vm_task_fork_clone _ _ _ _) as [[[rc' pt'] ct] v'] eqn:Hcl.
  apply clone_map_ok in Hcl; [|done|done]. case_if; [by apply undo_total|]. unfold start_child. simpl.
  match goal with |- context [thread_create_user_clone ?s ?b ?t ?f ?fr ?n] =>
    destruct (user_clone_total s b t f fr n) as [[t' s'] ->] end; [simpl; by rewrite E2|].
  case_if; [by apply undo_total|by eexists].
Qed.

End Spec.

End UnixForkSpec.
