(* ===== verification/Posix.v ===== *)
(** * System call entry (kernel/posix, kernel/common/syscall.c,
      kernel/arch/x86_64/syscall_fast.c)

    The table of the POSIX calls, the dispatch with its check for signals, the
    legacy calls, and the entry that takes number and arguments from the frame of
    the caller and stores the result there.

    The handlers over parts that are not modelled (posix_sys_info.c, program
    loading, memory mappings, the Linux table) are the arguments [others] and
    [linux].  [fork] needs the memory of the parent and is [UnixFork]. *)

From stdpp Require Import base gmap list numbers fin_maps.
From S2P Require Import Prelude Sched Waitq Task Vfs VfsFile UnixPath UnixPipe UnixFd UnixIo UnixProc.
From S2P Require Import UnixFutex.

Module Posix.
Import Sched Waitq Task Vfs VfsFile UnixPath UnixPipe UnixFd UnixIo UnixProc UnixFutex.

Definition POSIX_SYSCALL_MAX : Z := 128.
Definition POSIX_SYS_GETPID : Z := 1.
Definition POSIX_SYS_SIGRETURN : Z := 48.
Definition SYSCALL_MAX : Z := 128.
Definition SYS_NOP : Z := 0.
Definition SYS_TEST_SLEEP : Z := 120.
Definition SYS_WRITE : Z := 121.

Record sys_args := mk_args { a1 : Z; a2 : Z; a3 : Z; a4 : Z; a5 : Z; a6 : Z }.

(** What the allocations of a call return: a block for a file or a pipe, with
    its old content, the blocks of a node and of file data; and the address of
    the sleep queue. *)
Record sys_env := mk_env {
  e_blk : Z;
  e_old : list Z;
  e_node : node_blocks;
  e_data : data_block;
  e_bounce : bool;
  e_sleep_q : Z
}.

Section Posix.
Context {D : Type} (ops : vfs_ops D) (net : net_ops D).

Definition handler : Type := sys_env → sys_args → unix_state D → sysres D.

(** ** Handlers (posix_sys_ids.c, posix_sys_file.c, posix_sys_proc.c) *)
Definition posix_nosys : handler := λ _ _ u, ret RDNX_E_UNSUPPORTED u.
Definition posix_open : handler := λ e a u, unix_fs_open ops u (a1 a) (a2 a) (e_blk e) (e_node e) (e_data e).
Definition posix_close : handler := λ _ a u, unix_fs_close net u (a1 a).
Definition posix_pipe : handler := λ e a u, unix_fs_pipe net u (a1 a) (e_blk e) (e_old e).
Definition posix_pipe2 : handler := λ e a u, unix_fs_pipe2 net u (a1 a) (a2 a) (e_blk e) (e_old e).
Definition posix_socket : handler := λ _ a u, unix_fs_socket net u (a1 a) (a2 a) (a3 a).
Definition posix_bind : handler := λ _ a u, unix_fs_bind net u (a1 a) (a2 a).
Definition posix_connect : handler := λ _ a u, unix_fs_connect net u (a1 a) (a2 a).
Definition posix_sendto : handler := λ _ a u, unix_fs_sendto net u (a1 a) (a2 a) (a3 a) (a5 a) (a6 a).
Definition posix_recvfrom : handler := λ _ a u, unix_fs_recvfrom net u (a1 a) (a2 a) (a3 a) (a5 a) (a6 a).
Definition posix_poll : handler := λ _ a u, unix_fs_poll net u (a1 a) (a2 a) (s64 (a3 a)).
Definition posix_select : handler := λ _ a u, unix_fs_select net u (a1 a) (a2 a) (a3 a) (a4 a) (a5 a).
Definition posix_dup : handler := λ e a u, unix_fs_dup u (a1 a) (e_blk e).
Definition posix_dup2 : handler := λ e a u, unix_fs_dup2 net u (a1 a) (a2 a) (e_blk e).
Definition posix_dup3 : handler := λ e a u, unix_fs_dup3 net u (a1 a) (a2 a) (a3 a) (e_blk e).
Definition posix_chdir : handler := λ _ a u, unix_fs_chdir u (a1 a).
Definition posix_getcwd : handler := λ _ a u, unix_fs_getcwd u (a1 a) (a2 a).
Definition posix_mkdir : handler := λ e a u, unix_fs_mkdir u (a1 a) (e_node e).
Definition posix_unlink : handler := λ _ a u, unix_fs_unlink u (a1 a).
Definition posix_rmdir : handler := λ _ a u, unix_fs_rmdir u (a1 a).
Definition posix_rename : handler := λ _ a u, unix_fs_rename u (a1 a) (a2 a).
Definition posix_fcntl : handler := λ _ a u, unix_fs_fcntl u (a1 a) (a2 a) (a3 a).
Definition posix_ioctl : handler := λ _ a u, unix_fs_ioctl net u (a1 a) (a2 a) (a3 a).
Definition posix_stat : handler := λ _ a u, unix_fs_stat u (a1 a) (a2 a).
Definition posix_fstat : handler := λ _ a u, unix_fs_fstat u (a1 a) (a2 a).
Definition posix_lseek : handler := λ _ a u,
  if 2 <? a3 a then ret RDNX_E_INVALID u else unix_fs_lseek u (a1 a) (a2 a) (a3 a).
Definition posix_truncate : handler := λ e a u, unix_fs_truncate ops u (a1 a) (a2 a) (e_data e).
Definition posix_ftruncate : handler := λ e a u, unix_fs_ftruncate ops u (a1 a) (a2 a) (e_data e).
Definition posix_read : handler := λ e a u, unix_fs_read ops u (a1 a) (a2 a) (a3 a) (e_bounce e).
Definition posix_write : handler := λ e a u, unix_fs_write ops u (a1 a) (a2 a) (a3 a) (e_data e).
Definition posix_readdir : handler := λ _ a u, unix_fs_readdir u (a1 a) (a2 a) (a3 a).
Definition posix_exit : handler := λ _ a u, unix_proc_exit net u (a1 a).
Definition posix_waitpid : handler := λ _ a u, unix_proc_waitpid net u (a1 a) (a2 a).
Definition posix_kill : handler := λ _ a u, unix_proc_kill net u (a1 a) (a2 a).
Definition posix_sigaction : handler := λ _ a u, unix_proc_sigaction u (a1 a) (a2 a) (a3 a).
Definition posix_sigreturn : handler := λ _ _ u, unix_proc_sigreturn u.
Definition posix_futex : handler := λ _ a u, unix_proc_futex u (a1 a) (a2 a) (a3 a) (a4 a).
Definition posix_nanosleep : handler := λ e a u, unix_time_nanosleep u (e_sleep_q e) (a1 a) (a2 a).

(** ** The table (posix_sysent.inc) *)
Definition posix_table (others : Z → option handler) (num : Z) : option handler :=
  match num with
  | 0 => Some posix_nosys
  | 1 => Some (λ _ _, posix_getpid)
  | 2 => Some (λ _ _, posix_getuid)
  | 3 => Some (λ _ _, posix_geteuid)
  | 4 => Some (λ _ _, posix_getgid)
  | 5 => Some (λ _ _, posix_getegid)
  | 6 => Some (λ _ a, posix_setuid (a1 a))
  | 7 => Some (λ _ a, posix_seteuid (a1 a))
  | 8 => Some (λ _ a, posix_setgid (a1 a))
  | 9 => Some (λ _ a, posix_setegid (a1 a))
  | 10 => Some posix_open
  | 11 => Some posix_close
  | 12 => Some posix_read
  | 13 => Some posix_write
  | 15 => Some posix_exit
  | 18 => Some posix_waitpid
  | 19 => Some posix_readdir
  | 20 => Some posix_fcntl
  | 31 => Some posix_stat
  | 32 => Some posix_fstat
  | 33 => Some posix_lseek
  | 35 => Some posix_pipe
  | 36 => Some posix_dup
  | 37 => Some posix_dup2
  | 38 => Some posix_chdir
  | 39 => Some posix_getcwd
  | 40 => Some posix_mkdir
  | 41 => Some posix_unlink
  | 42 => Some posix_rmdir
  | 43 => Some posix_rename
  | 44 => Some posix_ioctl
  | 45 => Some posix_nanosleep
  | 46 => Some posix_kill
  | 47 => Some posix_sigaction
  | 48 => Some posix_sigreturn
  | 55 => Some posix_truncate
  | 56 => Some posix_ftruncate
  | 57 => Some posix_poll
  | 58 => Some posix_select
  | 59 => Some posix_dup3
  | 60 => Some posix_pipe2
  | 61 => Some posix_futex
  | 63 => Some posix_socket
  | 64 => Some posix_bind
  | 65 => Some posix_connect
  | 66 => Some posix_sendto
  | 67 => Some posix_recvfrom
  | _ => others num
  end.

(** ** Dispatch *)
Section Dispatch.
Context (others : Z → option handler) (linux : Z → handler) (kputc : D → Z → D).

Definition posix_syscall_dispatch (e : sys_env) (num : Z) (a : sys_args) (u : unix_state D) : sysres D :=
  if POSIX_SYSCALL_MAX <=? num then ret RDNX_E_UNSUPPORTED u
  else
    match posix_table others num with
    | None => ret RDNX_E_UNSUPPORTED u
    | Some h =>
        match h e a u with
        | SysRet r u =>
            if num =? POSIX_SYS_SIGRETURN then SysRet r u
            else
              match unix_proc_signal_checkpoint net u with
              | SysRet _ u => SysRet r u
              | x => x
              end
        | x => x
        end
    end.

(** *** The legacy calls *)
Definition sys_nop : handler := λ _ _ u, ret RDNX_OK (u <| us_sched ::= scheduler_yield |>).

Definition sys_write : handler := λ _ a u,
  if a1 a =? 0 then ret RDNX_E_INVALID u
  else
    let len := if 4096 <? a2 a then 4096 else a2 a in
    SysRet len (u <| us_dev := foldl kputc (us_dev u) (uload (us_mem u) (a1 a) (Z.to_nat len)) |>).

Definition sys_test_sleep : handler := λ e a u,
  SysWait (u <| us_sched ::= λ s, scheduler_sleep s (e_sleep_q e) (if a1 a =? 0 then 1 else a1 a) |>).

Definition syscall_table (num : Z) : option handler :=
  if num =? SYS_NOP then Some sys_nop
  else if num =? SYS_TEST_SLEEP then Some sys_test_sleep
  else if num =? SYS_WRITE then Some sys_write
  else None.

Definition syscall_dispatch (e : sys_env) (num : Z) (a : sys_args) (u : unix_state D) : sysres D :=
  if task_get_abi (us_sched u) (utask u) =? TASK_ABI_LINUX then linux num e a u
  else if num =? SYS_NOP then sys_nop e a u
  else
    match posix_syscall_dispatch e num a u with
    | SysRet r u =>
        if negb (r =? u64 RDNX_E_UNSUPPORTED) then SysRet r u
        else
          match (if num <? SYSCALL_MAX then syscall_table num else None) with
          | Some h => h e a u
          | None => ret RDNX_E_UNSUPPORTED u
          end
    | x => x
    end.

(** *** The entry *)
Definition FR_RSI : nat := 14.
Definition FR_RDX : nat := 15.
Definition FR_R10 : nat := 9.
Definition FR_R9 : nat := 10.
Definition FR_R8 : nat := 11.

Definition frame_args (s : sched_state) (frame : Z) : sys_args :=
  mk_args (frame_word s frame FR_RDI) (frame_word s frame FR_RSI) (frame_word s frame FR_RDX)
          (frame_word s frame FR_R10) (frame_word s frame FR_R8) (frame_word s frame FR_R9).

Definition set_arch (t : Z) (p : option Z) (u : unix_state D) : unix_state D :=
  if t =? 0 then u else u <| us_arch ::= partial_alter (λ _, p) t |>.

(** The counters of the entries are left out. *)
Definition x86_64_syscall_dispatch_frame (e : sys_env) (u : unix_state D) (frame : Z) : sysres D :=
  if frame =? 0 then SysRet (u64 (-2)) u
  else
    let cur := current_thread (us_sched u) in
    let prev := us_arch u !! cur in
    match syscall_dispatch e (frame_word (us_sched u) frame FR_RAX) (frame_args (us_sched u) frame)
            (set_arch cur (Some frame) u) with
    | SysRet r u => SysRet r ((set_arch cur prev u) <| us_sched ::= set_frame_word frame FR_RAX r |>)
    | x => x
    end.

End Dispatch.

End Posix.

End Posix.
