(* ===== verification/UnixSteps.v ===== *)
(** * The Unix layer as a transition system

    System calls of any task in any order, forks, the closing of descriptors by
    [exec], and whatever the scheduler, the devices and the programs do in
    between.  Every reachable state keeps the descriptor tables and the objects
    behind them in step. *)

From stdpp Require Import base gmap list numbers fin_maps.
From S2P Require Import Prelude Sched Waitq Task PathSpec Vfs VfsFile VfsFacts VfsTree VfsOps VfsNames.
From S2P Require Import VfsSteps UnixPath UnixPipe UnixFd UnixIo UnixProc UnixFutex UnixRes UnixFdInv.
From S2P Require Import UnixCalls UnixProcInv UnixForkSpec Posix Paging Vm VmMap.

Module UnixSteps.
Import Sched Waitq Task PathSpec Vfs VfsFile VfsFacts VfsTree VfsInv VfsOps VfsNames VfsData VfsSteps.
Import UnixPath UnixPipe UnixFd UnixIo UnixProc UnixFutex UnixRes UnixSlots UnixFdInv UnixClone UnixCalls.
Import UnixFork UnixProcInv UnixForkSpec Posix.

Section Steps.
Context {D : Type} (ops : vfs_ops D) (net : net_ops D).
Context (others : Z → option (handler (D := D))) (linux : Z → handler (D := D)) (kputc : D → Z → D).
Implicit Types u : unix_state D.

(** ** What the allocations promise *)

(** A block from [kmalloc] is no open file, no pipe and no socket. *)
Definition fresh_block (blk : Z) (u : unix_state D) : Prop :=
  blk ≠ 0 → us_files u !! blk = None ∧ us_pipes u !! blk = None ∧
            ∀ k, (blk, k) ∉ slots [] (us_sched u).

Record env_ok (e : sys_env) (u : unix_state D) : Prop := {
  eo_blk : fresh_block (e_blk e) u;
  eo_old : length (e_old e) = Z.to_nat UNIX_PIPE_CAP;
  eo_node : fresh_node (e_node e) (us_vfs u);
  eo_data : block_ok (e_data e)
}.

Record args_ok (a : sys_args) : Prop := {
  ao_1 : in_u64 (a1 a); ao_2 : in_u64 (a2 a); ao_3 : in_u64 (a3 a);
  ao_4 : in_u64 (a4 a); ao_5 : in_u64 (a5 a); ao_6 : in_u64 (a6 a)
}.

(** Descriptors and pipes are fewer than a 32-bit count can hold. *)
Definition room (u : unix_state D) : Prop :=
  Z.of_nat (32 * S (size (tasks (us_sched u))) + size (us_pipes u)) < 4294967294.

(** ** The invariant: [lost] are the write ends that failed [pipe] calls left *)
Definition lost_ok (lost : list slot) : Prop := NoDup lost ∧ Forall (λ x, x.1 ≠ 0 ∧ x.2 = UNIX_FD_KIND_PIPE_W) lost.

Definition unix_inv (u : unix_state D) : Prop := ∃ lost, lost_ok lost ∧ fd_inv lost u.

Lemma slots_split lost s x : x ∈ slots lost s ↔ x ∈ slots [] s ∨ x ∈ lost.
Proof. unfold slots. rewrite app_nil_r, elem_of_app. done. Qed.

Lemma lost_pipe lost u h : lost_ok lost → fd_inv lost u → (h, UNIX_FD_KIND_PIPE_W) ∈ lost → is_Some (us_pipes u !! h).
Proof.
  intros [_ Hl] V Hin. rewrite Forall_forall in Hl. destruct (Hl _ Hin) as [Hh _]. simpl in Hh.
  apply (ro_ends _ _ _ _ (fv_res _ V) h UNIX_FD_KIND_PIPE_W); [|done|by right]. apply slots_split. by right.
Qed.

Lemma lost_length lost u : lost_ok lost → fd_inv lost u → (length lost ≤ size (us_pipes u))%nat.
Proof.
  intros Hl V. assert (NoDup lost.*1) as Hnd.
  { destruct Hl as [Hnd Hl]. apply NoDup_fmap_2_strong; [|done]. rewrite Forall_forall in Hl.
    intros [h k] [h' k'] H1 H2 E. simpl in E. destruct (Hl _ H1) as [_ E1], (Hl _ H2) as [_ E2]. simpl in *. congruence. }
  rewrite <- (length_fmap fst lost), <- (size_list_to_set (C := gset Z)) by done. rewrite <- size_dom.
  apply subseteq_size. intros h. rewrite elem_of_list_to_set, elem_of_dom, list_elem_of_fmap.
  intros ([h' k] & -> & Hin). simpl. destruct Hl as [? Hf]. pose proof Hf as Hf'. rewrite Forall_forall in Hf'.
  destruct (Hf' _ Hin) as [_ E]. simpl in E. rewrite E in Hin. by apply (lost_pipe lost).
Qed.

Lemma room_few lost u : lost_ok lost → fd_inv lost u → room u → few (lost := lost) u ∧
  Z.of_nat (length (slots lost (us_sched u)) + 32) < 4294967294.
Proof.
  intros Hl V Hr. pose proof (lost_length lost u Hl V). unfold room in Hr. unfold few.
  rewrite slots_length by apply V. split; lia.
Qed.

Lemma fresh_pipe_block lost u blk :
  lost_ok lost → fd_inv lost u → fresh_block blk u → fresh_pipe (lost := lost) blk u ∧ fresh_file blk u.
Proof.
  intros Hl V Hf. split; [|intros Hb; by apply Hf]. intros Hb k Hin. destruct (Hf Hb) as (_ & Hp & Hs).
  apply slots_split in Hin as [Hin|Hin]; [by apply (Hs k)|].
  destruct Hl as [? Hl]. pose proof Hl as Hl'. rewrite Forall_forall in Hl'. destruct (Hl' _ Hin) as [_ E]. simpl in E.
  rewrite E in Hin. destruct (lost_pipe lost u blk) as [p Hp']; [done..|]. congruence.
Qed.

Lemma lost_more lost u blk :
  lost_ok lost → fd_inv lost u → blk ≠ 0 → fresh_block blk u → lost_ok ((blk, UNIX_FD_KIND_PIPE_W) :: lost).
Proof.
  intros Hl V Hb Hf. split.
  - apply NoDup_cons. split; [|apply Hl]. intros Hin. destruct (lost_pipe lost u blk Hl V Hin) as [p Hp].
    destruct (Hf Hb) as (_ & Hp' & _). congruence.
  - apply Forall_cons. split; [done|apply Hl].
Qed.

(** ** Handlers *)
Definition keeps_inv (h : handler (D := D)) : Prop :=
  ∀ e a u, unix_inv u → has_task u → env_ok e u → args_ok a → room u → leaves unix_inv (h e a u).

Lemma leaves_mono (P Q : unix_state D → Prop) r : (∀ u, P u → Q u) → leaves P r → leaves Q r.
Proof. intros H. destruct r; simpl; auto. Qed.

Lemma keeps_of (h : handler (D := D)) :
  (∀ lost e a u, lost_ok lost → fd_inv lost u → has_task u → env_ok e u → args_ok a → few (lost := lost) u →
     fresh_file (e_blk e) u → leaves (fd_inv lost) (h e a u)) → keeps_inv h.
Proof.
  intros H e a u (lost & Hl & V) Ht He Ha Hr. destruct (room_few lost u Hl V Hr) as [Hfew _].
  destruct (fresh_pipe_block lost u (e_blk e) Hl V (eo_blk _ _ He)) as [_ Hf].
  apply (leaves_mono (fd_inv lost)); [intros u' V'; by exists lost|]. by apply H.
Qed.

Lemma keeps_pipe_of (h : handler (D := D)) :
  (∀ lost e a u, fd_inv lost u → has_task u → env_ok e u → fresh_pipe (lost := lost) (e_blk e) u →
     leaves (maybe_lost lost (e_blk e)) (h e a u)) → keeps_inv h.
Proof.
  intros H e a u (lost & Hl & V) Ht He Ha Hr.
  destruct (fresh_pipe_block lost u (e_blk e) Hl V (eo_blk _ _ He)) as [Hf _].
  apply (leaves_mono (maybe_lost lost (e_blk e))); [|by apply H].
  intros u' [V'|[Hb V']]; [by exists lost|]. exists ((e_blk e, UNIX_FD_KIND_PIPE_W) :: lost). split; [|done].
  apply (lost_more lost u); try done. apply He.
Qed.

Hypothesis others_keep : ∀ num h, others num = Some h → keeps_inv h.

(** Every handler of the table. *)
Create HintDb unix_calls.
#[local] Hint Resolve close_keeps dup_keeps dup2_keeps dup3_keeps fcntl_keeps open_keeps read_keeps write_keeps lseek_keeps
  truncate_keeps ftruncate_keeps mkdir_keeps_fd unlink_keeps_fd rmdir_keeps rename_keeps_fd chdir_keeps getcwd_keeps
  stat_keeps fstat_keeps ioctl_keeps readdir_keeps poll_keeps select_keeps socket_keeps socket_address_keeps
  sendto_keeps recvfrom_keeps pipe_keeps pipe2_keeps exit_keeps waitpid_keeps kill_keeps sigaction_keeps
  sigreturn_keeps futex_keeps nanosleep_keeps set_id_keeps eo_old eo_node eo_data ao_1 ao_2 ao_3 : unix_calls.

(** One handler: unfold it and look its lemma up. *)
Ltac solve_handler :=
  first
    [ by eapply others_keep
    | apply keeps_of; intros lost e a u Hl V Ht He Ha Hfew Hf; solve [exact V | repeat case_if; eauto with unix_calls]
    | apply keeps_pipe_of; intros lost e a u V Ht He Hf; eauto with unix_calls ].

Lemma table_keeps num h : posix_table ops net others num = Some h → keeps_inv h.
Proof.
  unfold posix_table. intros H.
  repeat match type of H with
  | match ?x with _ => _ end = _ => destruct x
  end; first [injection H as <- | idtac]; try by eapply others_keep.
  all: unfold posix_nosys, posix_getpid, posix_getuid, posix_geteuid, posix_getgid, posix_getegid, posix_get_id, posix_setuid,
    posix_seteuid, posix_setgid, posix_setegid, posix_open, posix_close, posix_read, posix_write, posix_exit,
    posix_waitpid, posix_readdir, posix_fcntl, posix_stat, posix_fstat, posix_lseek, posix_pipe, posix_dup, posix_dup2,
    posix_chdir, posix_getcwd, posix_mkdir, posix_unlink, posix_rmdir, posix_rename, posix_ioctl, posix_nanosleep,
    posix_kill, posix_sigaction, posix_sigreturn, posix_truncate, posix_ftruncate, posix_poll, posix_select, posix_dup3,
    posix_pipe2, posix_futex, posix_socket, posix_bind, posix_connect, unix_fs_bind, unix_fs_connect, posix_sendto,
    posix_recvfrom.
  all: solve_handler.
Qed.

(** ** Dispatch *)
Lemma posix_dispatch_keeps e num a u :
  unix_inv u → has_task u → env_ok e u → args_ok a → room u →
  leaves unix_inv (posix_syscall_dispatch ops net others e num a u).
Proof.
  intros I Ht He Ha Hr. unfold posix_syscall_dispatch. case_if; [done|].
  destruct (posix_table ops net others num) as [h|] eqn:Hh; [|done].
  pose proof (table_keeps num h Hh e a u I Ht He Ha Hr) as Hk. destruct (h e a u) as [r u'| | |]; try done. simpl in Hk.
  case_if; [done|]. destruct Hk as (lost & Hl & V').
  pose proof (checkpoint_keeps net u' V') as Hc. apply (leaves_mono _ unix_inv) in Hc; [|intros w Hw; by exists lost].
  by destruct (unix_proc_signal_checkpoint net u').
Qed.

Hypothesis linux_keeps : ∀ num, keeps_inv (linux num).

Lemma leaves_sched f u : unix_inv u → (∀ s, fd_same s (f s)) → unix_inv (u <| us_sched ::= f |>).
Proof. intros (lost & Hl & V) Hf. exists lost. split; [done|by apply sched_inv]. Qed.

Lemma inv_same u u' :
  unix_inv u → us_sched u' = us_sched u → us_files u' = us_files u → us_pipes u' = us_pipes u → us_vfs u' = us_vfs u → unix_inv u'.
Proof. intros (lost & Hl & V) E1 E2 E3 E4. exists lost. split; [done|]. by apply (upd_none_inv u). Qed.

Lemma same_yield s : fd_same s (scheduler_yield s).
Proof. unfold scheduler_yield. case_if; by apply same_of. Qed.

Lemma same_sleep s q ms : fd_same s (scheduler_sleep s q ms).
Proof. unfold scheduler_sleep. repeat case_if; [done|apply same_yield|apply same_wait]. Qed.

Lemma syscall_keeps e num a u :
  unix_inv u → has_task u → env_ok e u → args_ok a → room u →
  leaves unix_inv (syscall_dispatch ops net others linux kputc e num a u).
Proof.
  intros I Ht He Ha Hr. unfold syscall_dispatch. case_if; [by apply linux_keeps|]. case_if.
  { unfold sys_nop. apply leaves_sched; [done|apply same_yield]. }
  pose proof (posix_dispatch_keeps e num a u I Ht He Ha Hr) as Hk.
  destruct (posix_syscall_dispatch ops net others e num a u) as [r u'| | |]; try done. simpl in Hk. case_if; [done|].
  case_if; [|done]. unfold syscall_table. repeat case_if; try done; simpl.
  - apply leaves_sched; [done|]. intros s. apply same_sleep.
  - unfold sys_write. case_if; [done|]. by apply (inv_same u').
Qed.

Lemma set_arch_inv t p u : unix_inv u → unix_inv (set_arch t p u).
Proof. intros I. unfold set_arch. case_if; [done|]. by apply (inv_same u). Qed.

Lemma entry_keeps e u frame :
  unix_inv u → has_task u → env_ok e u → args_ok (frame_args (us_sched u) frame) → room u →
  leaves unix_inv (x86_64_syscall_dispatch_frame ops net others linux kputc e u frame).
Proof.
  intros I Ht He Ha Hr. unfold x86_64_syscall_dispatch_frame. case_if; [done|].
  set (cur := current_thread (us_sched u)). set (u1 := set_arch cur (Some frame) u).
  assert (unix_inv u1 ∧ has_task u1 ∧ env_ok e u1 ∧ room u1) as (I1 & T1 & E1 & R1).
  { split; [by apply set_arch_inv|]. unfold u1, set_arch. case_if; [done|]. destruct He. done. }
  pose proof (syscall_keeps e (frame_word (us_sched u) frame FR_RAX) (frame_args (us_sched u) frame) u1 I1 T1 E1 Ha R1) as Hk.
  destruct (syscall_dispatch _ _ _ _ _ _ _ _ _) as [r u'| | |]; try done. simpl in *.
  apply leaves_sched; [by apply set_arch_inv|]. intros s. by apply same_of.
Qed.

(** ** The system *)
Definition left_state (r : sysres D) : option (unix_state D) :=
  match r with
  | SysRet _ u | SysWait u | SysExit u => Some u
  | SysUndef => None
  end.

Inductive ustep : unix_state D → unix_state D → Prop :=
| st_call e u frame u' :
    has_task u → env_ok e u → args_ok (frame_args (us_sched u) frame) → room u →
    left_state (x86_64_syscall_dispatch_frame ops net others linux kputc e u frame) = Some u' → ustep u u'
| st_poll u pfds nfds timeout deadline u' :
    left_state (poll_again net u pfds nfds timeout deadline) = Some u' → ustep u u'
| st_select u nfds wanted pr pw pe timeout deadline u' :
    left_state (select_again net u nfds wanted pr pw pe timeout deadline) = Some u' → ustep u u'
| st_futex u c u' : left_state (futex_again u c) = Some u' → ustep u u'
| st_sleep u ptr u' : left_state (nanosleep_done u ptr) = Some u' → ustep u u'
| st_fork u v pt b fuel r u' v' pt' oc :
    has_task u → room u → (fb_task b ≠ 0 → tasks (us_sched u) !! fb_task b = None) → fresh_files (fb_file b) all_fds u →
    unix_proc_fork net u v pt b fuel = Some (r, u', v', pt', oc) → ustep u u'
| st_exec u t : is_Some (tasks (us_sched u) !! t) → ustep u (unix_apply_cloexec net u t)
| st_console u t fd flags blk b data rc u' :
    is_Some (tasks (us_sched u) !! t) → room u → fresh_block blk u → fresh_node b (us_vfs u) → block_ok data →
    unix_bind_fd_to_console ops net u t fd flags blk b data = Some (rc, u') → ustep u u'
| st_sched u s : tables s = tables (us_sched u) → ustep u (u <| us_sched := s |>)
| st_program u m : ustep u (u <| us_mem := m |>)
| st_device u d : ustep u (u <| us_dev := d |>)
| st_maps u m : ustep u (u <| us_maps := m |>).

Lemma left_inv r u' : leaves unix_inv r → left_state r = Some u' → unix_inv u'.
Proof. destruct r; simpl; intros H [= <-]; done. Qed.

Lemma ustep_inv u u' : unix_inv u → ustep u u' → unix_inv u'.
Proof.
  intros I H. pose proof I as (lost & Hl & V). assert (∀ r, leaves (fd_inv lost) r → leaves unix_inv r) as Hm.
  { intros r. apply leaves_mono. intros w Hw. by exists lost. }
  destruct H.
  - eapply left_inv; [|eassumption]. by apply entry_keeps.
  - eapply left_inv; [|eassumption]. by apply Hm, poll_again_keeps.
  - eapply left_inv; [|eassumption]. by apply Hm, select_again_keeps.
  - eapply left_inv; [|eassumption]. by apply Hm, futex_again_keeps.
  - eapply left_inv; [|eassumption]. unfold nanosleep_done. simpl. case_if; [done|by apply (inv_same u)].
  - destruct (room_few lost u Hl V H0) as [_ Hfew]. exists lost. split; [done|].
    by destruct (fork_result net u v pt b fuel r u' v' pt' oc V H Hfew H1 H2 H3).
  - exists lost. split; [done|]. by apply cloexec_inv.
  - destruct (room_few lost u Hl V H0) as [Hfew _]. destruct (fresh_pipe_block lost u blk Hl V H1) as [_ Hf].
    exists lost. split; [done|]. by destruct (bind_console_inv ops net u t fd flags blk b data rc u' V Hfew H Hf H2 H3 H4).
  - exists lost. split; [done|]. destruct V as [T R].
    assert (fd_same ((us_sched u) <| current_task := current_task s |>) s) as S by (split; done).
    split; [apply (same_tables_ok _ _ S); by destruct T|]. simpl. by rewrite slots_tables, H, <- slots_tables.
  - by apply (inv_same u).
  - by apply (inv_same u).
  - by apply (inv_same u).
Qed.

Lemma usteps_inv u u' : unix_inv u → rtc ustep u u' → unix_inv u'.
Proof. intros I H. induction H as [|x y z Hxy _ IH]; [done|]. apply IH. by eapply ustep_inv. Qed.

(** ** Theorems *)

(** A state in which no task has a descriptor. *)
Record unix_idle (u : unix_state D) : Prop := {
  ui_tables : tables_ok (us_sched u);
  ui_slots : Forall (λ x : slot, x.1 = 0) (slots [] (us_sched u));
  ui_files : us_files u = ∅;
  ui_pipes : us_pipes u = ∅;
  ui_vfs : vsys_inv (us_vfs u) []
}.

Lemma res_empty s : vsys_inv s [] → res_ok [] ∅ ∅ s.
Proof.
  intros Hv. split; simpl.
  - apply NoDup_nil. done.
  - intros h. rewrite lookup_empty. split; [by intros ?%not_elem_of_nil|by intros [? ?]].
  - done.
  - intros h p. by rewrite lookup_empty.
  - by intros h k ?%not_elem_of_nil.
  - by intros h k ?%not_elem_of_nil.
Qed.

Lemma unix_idle_inv u : unix_idle u → unix_inv u.
Proof.
  intros [T S F P Hv]. exists []. split; [by split; [apply NoDup_nil|apply Forall_nil]|]. split; [done|].
  rewrite F, P. rewrite <- (app_nil_r (slots [] (us_sched u))). apply res_zero; [done|by apply res_empty].
Qed.

Lemma lost_files lost s : lost_ok lost → file_slots (slots lost s) = file_slots (slots [] s).
Proof.
  intros [_ Hl]. unfold slots. rewrite app_nil_r. unfold file_slots. rewrite filter_app, fmap_app.
  assert (filter (λ x : slot, x.1 ≠ 0 ∧ x.2 = UNIX_FD_KIND_VFS) lost = []) as ->; [|apply app_nil_r].
  induction Hl as [|x l [_ E] _ IH]; [done|]. rewrite filter_cons, decide_False, IH; [done|]. rewrite E. by intros [_ ?].
Qed.

Lemma lost_ends lost s h k :
  lost_ok lost → ends (slots lost s) h k = ends (slots [] s) h k ∨
                 k = UNIX_FD_KIND_PIPE_W ∧ ends (slots lost s) h k = ends (slots [] s) h k + 1.
Proof.
  intros [Hnd Hl]. unfold slots. rewrite app_nil_r. unfold ends. rewrite filter_app, length_app.
  assert (filter (λ x : slot, x = (h, k)) lost = [] ∨ k = UNIX_FD_KIND_PIPE_W ∧ filter (λ x : slot, x = (h, k)) lost = [(h, k)]) as [-> | [-> ->]].
  { induction Hl as [|x l [_ E] _ IH]; [by left|]. apply NoDup_cons in Hnd as [Hn Hnd]. rewrite filter_cons.
    case_decide as Ex; [|by apply IH]. right. rewrite Ex in *. simpl in E. split; [done|]. f_equal.
    apply list_filter_none. by intros y Hy ->. }
  - left. simpl. lia.
  - right. split; [done|]. simpl. lia.
Qed.

End Steps.

End UnixSteps.
