(* ===== verification/UnixSpec.v ===== *)
(** * What the Unix layer promises

    The theorems on descriptors, pipes, processes and signals, over the states
    that system calls reach. *)

From stdpp Require Import base gmap list numbers fin_maps.
From S2P Require Import Prelude Sched Waitq Task PathSpec Vfs VfsFile VfsFacts VfsTree VfsOps VfsNames.
From S2P Require Import VfsSteps UnixPath UnixPipe UnixFd UnixIo UnixProc UnixFutex UnixRes UnixFdInv.
From S2P Require Import UnixCalls UnixProcInv UnixForkSpec Posix UnixSteps Paging Vm VmMap VmFacts Bytes.
From S2P Require Import SchedInv.

Module UnixSpec.
Import Sched Waitq Task PathSpec Vfs VfsFile VfsFacts VfsTree VfsInv VfsOps VfsNames VfsData VfsSteps.
Import UnixPath UnixPipe UnixFd UnixIo UnixProc UnixFutex UnixRes UnixSlots UnixFdInv UnixClone UnixCalls.
Import UnixFork UnixProcInv UnixForkSpec Posix UnixSteps.

Section Spec.
Context {D : Type} (ops : vfs_ops D) (net : net_ops D).
Implicit Types u : unix_state D.

(** ** Descriptors *)


(** C5. [fork] gives the child a new number, the identity and directory of its
    parent, a copy of each of its files and the same pipes, a clone of its
    memory, and a ready thread that goes on where the parent called, with 0 in
    [rax]; the parent gets the number, and the descriptors of no other task
    change.  When it fails, the child does not exist and the files, pipes and
    descriptors of all tasks are as before. *)
Theorem unix_proc_fork_correct u v pt b fuel :
  fd_inv [] u → has_task u → room u → (fb_task b ≠ 0 → tasks (us_sched u) !! fb_task b = None) →
  fresh_files (fb_file b) all_fds u → task_map_ok pt → (length (cached (stacks (us_sched u))) ≤ fuel)%nat →
  ∃ r u' v' pt' oc, unix_proc_fork net u v pt b fuel = Some (r, u', v', pt', oc) ∧ fd_inv [] u' ∧
  match oc with
  | Some ct =>
      (∃ frame, unix_frame_on_thread_stack (us_sched u) (current_thread (us_sched u)) frame = true ∧ child_of u u' b frame r) ∧
      cloned_memory v v' pt pt' ct
  | None => task_gone u u' (fb_task b)
  end.
Proof.
  intros V Ht Hr Hn Hb Hm Hl. destruct (fork_total net u v pt b fuel Hm Hl) as [[[[[r u'] v'] pt'] oc] Hf].
  exists r, u', v', pt', oc. split; [done|]. eapply fork_result; try done.
  apply (room_few [] u); [by split; [apply NoDup_nil|apply Forall_nil]|done|done].
Qed.

(** C36. [dup2] of a descriptor onto another one closes the other one first.  Then it
    becomes a second descriptor of the same pipe end, or of a copy of the open
    file with a position of its own, without the close-on-exec flag.  For a
    socket, or without memory, the call fails and the other descriptor stays
    closed.  No other descriptor changes. *)
Theorem unix_fs_dup2_correct u oldfd newfd blk :
  fd_inv [] u → has_task u → room u → fresh_file blk u →
  let t := utask u in
  let o := s32 oldfd in
  let n := s32 newfd in
  if (t =? 0) || bad_fd o || bad_fd n || (fd_handle u t o =? 0) then unix_fs_dup2 net u oldfd newfd blk = ret RDNX_E_INVALID u
  else if o =? n then unix_fs_dup2 net u oldfd newfd blk = ret n u
  else ∃ rc u', unix_fs_dup2 net u oldfd newfd blk = ret rc u' ∧ fd_inv [] u' ∧
    other_slots (us_sched u) (us_sched u') t n ∧
    (rc = n ∧ (fd_kind_of u t o = UNIX_FD_KIND_VFS ∨ pipe_kind (fd_kind_of u t o)) ∧
       duplicated (unix_fd_release net u t n) u' (fd_handle u t o) (fd_kind_of u t o) t n 0 blk ∨
     rc < 0 ∧ fd_handle u' t n = 0).
Proof.
  intros V Ht Hr Hf t o n. unfold unix_fs_dup2. fold t o n. case_if; [done|]. not_null Eif. apply Z.eqb_neq in H.
  case_if; [done|]. apply Z.eqb_neq in Eif0. destruct (replace_fd net u t o n blk) as [rc u'] eqn:Hd.
  destruct (room_few [] u ltac:(by split; [apply NoDup_nil|apply Forall_nil]) V Hr) as [Hfew _].
  destruct (replace_inv net u t o n blk rc u' V Hfew (task_live u Ht Eif) Hf) as (V' & O & Hfail & Hok); try done.
  destruct (Z.eqb_spec rc RDNX_OK) as [->|Hrc]; simpl.
  - exists n, u'. split; [done|]. split; [done|]. split; [done|]. left. split; [done|]. by apply Hok.
  - exists rc, u'. split; [done|]. split; [done|]. split; [done|]. right. split; [|by apply Hfail].
    revert Hd Hrc. unfold replace_fd, unix_fd_dup_into, dup_file, dup_pipe. clear. intros Hd Hrc.
    repeat (case_if; [injection Hd as <- _; done|]); repeat case_if; simplify_eq; try done.
    all: destruct (vfs_file_dup _ _ _) as [[rc' c] s]; case_if; simplify_eq; done.
Qed.

End Spec.

End UnixSpec.

(** * Reading, writing and waiting

    The check of user buffers against the address map, reads of pipes seen from
    the descriptors, and the agreement of [poll] with what a read or a write
    would do. *)
Module UnixIoSpec.
Import Sched Waitq Task PathSpec Vfs VfsFile VfsInv VfsOps VfsNames VfsData VfsSteps.
Import UnixPath UnixPipe UnixFd UnixIo UnixRes UnixSlots UnixFdInv UnixCalls.

(** ** User buffers *)

(** The entries that a walk from [cur] may still meet. *)
Definition ahead (l : list Vm.vm_map_entry_t) (cur : Z) : nat := length (filter (λ e, cur < Vm.e_end e) l).

Lemma ahead_less l cur e : e ∈ l → cur < Vm.e_end e → (ahead l (Vm.e_end e) < ahead l cur)%nat.
Proof.
  intros Hin Hlt. unfold ahead.
  assert (filter (λ x, Vm.e_end e < Vm.e_end x) l = filter (λ x, Vm.e_end e < Vm.e_end x) (filter (λ x, cur < Vm.e_end x) l)) as ->.
  { rewrite list_filter_filter. apply list_filter_ext_in. intros x _. lia. }
  assert (e ∈ filter (λ x, cur < Vm.e_end x) l) as He by (by apply list_elem_of_filter).
  revert He. generalize (filter (λ x, cur < Vm.e_end x) l). intros k Hk.
  apply list_elem_of_split in Hk as (k1 & k2 & ->). rewrite filter_app, filter_cons, decide_False by lia.
  rewrite !length_app. simpl. pose proof (length_filter (λ x, Vm.e_end e < Vm.e_end x) k1).
  pose proof (length_filter (λ x, Vm.e_end e < Vm.e_end x) k2). lia.
Qed.

(** The access that the check asks of the entry of an address. *)
Definition accessible (l : list Vm.vm_map_entry_t) (need_write : bool) (a : Z) : Prop :=
  ∃ e, VmMap.vm_map_lookup l a = Some e ∧ Z.land (Vm.e_prot e) Vm.VM_PROT_READ ≠ 0 ∧
       (need_write = true → Z.land (Vm.e_prot e) Vm.VM_PROT_WRITE ≠ 0).

Lemma range_mapped_spec fuel l cur stop w :
  VmFacts.disjoint_entries l → (ahead l cur < fuel)%nat →
  ∃ r, range_mapped_loop fuel l cur stop w = Some r ∧ (r = true ↔ ∀ a, cur ≤ a ≤ stop → accessible l w a).
Proof.
  intros Hd. revert cur. induction fuel as [|fuel IH]; intros cur Hf; [lia|]. cbn [range_mapped_loop].
  destruct (Z.ltb_spec stop cur) as [Hlt|Hle]; [exists true; split; [done|]; split; [intros _ a Ha; lia|done]|].
  destruct (VmMap.vm_map_lookup l cur) as [e|] eqn:He.
  2: { exists false. split; [done|]. split; [done|]. intros Ha. destruct (Ha cur ltac:(lia)) as (e & He' & _). congruence. }
  destruct (VmFacts.lookup_some l cur e He) as [Hin Hh]. unfold VmFacts.holds_addr in Hh.
  assert (∀ b : bool, (b = false → accessible l w cur → False) → (b = true → accessible l w cur) →
    ∃ r, (if b then range_mapped_loop fuel l (Vm.e_end e) stop w else Some false) = Some r ∧
         (r = true ↔ ∀ a, cur ≤ a ≤ stop → accessible l w a)) as Hcase.
  { intros b Hb1 Hb2. destruct b.
    - destruct (IH (Vm.e_end e)) as (r & -> & Hr); [pose proof (ahead_less l cur e Hin ltac:(lia)); lia|].
      exists r. split; [done|]. rewrite Hr. split; [|intros Ha a Ha'; apply Ha; lia]. intros Ha a Ha'.
      destruct (Z.lt_ge_cases a (Vm.e_end e)) as [Hlt|Hge]; [|apply Ha; lia].
      destruct (Hb2 eq_refl) as (e' & He' & Hp). rewrite He in He'. injection He' as <-. exists e. split; [|done].
      apply VmFacts.lookup_unique; [done|done|]. unfold VmFacts.holds_addr. lia.
    - exists false. split; [done|]. split; [done|]. intros Ha. destruct (Hb1 eq_refl). apply Ha. lia. }
  destruct (Z.eqb_spec (Z.land (Vm.e_prot e) Vm.VM_PROT_READ) 0) as [Er|Er].
  { apply (Hcase false); [|done]. intros _ (e' & He' & Hr & _). rewrite He in He'. congruence. }
  destruct (w && (Z.land (Vm.e_prot e) Vm.VM_PROT_WRITE =? 0)) eqn:Ew.
  { apply (Hcase false); [|done]. intros _ (e' & He' & _ & Hw). rewrite He in He'. injection He' as <-.
    apply andb_true_iff in Ew as [-> Ew]. apply Z.eqb_eq in Ew. by apply Hw. }
  rewrite (proj2 (Z.leb_gt _ _)) by lia. apply (Hcase true); [done|]. intros _. exists e. split; [done|]. split; [done|].
  intros ->. simpl in Ew. by apply Z.eqb_neq in Ew.
Qed.

Section Io.
Context {D : Type} (ops : vfs_ops D) (net : net_ops D).
Implicit Types u : unix_state D.

(** C29. The check of a user buffer accepts it if and only if every byte of it lies
    in an entry of the address map that can be read, and written if the kernel is
    to write. *)
Theorem unix_user_io_range_mapped_correct u task m ptr len w :
  task ≠ 0 → us_maps u !! task = Some m → VmFacts.disjoint_entries (Vm.entries m) → 0 < ptr → 0 < len →
  ptr + len ≤ 18446744073709551616 →
  unix_user_io_range_mapped u task ptr len w = true ↔
  ∀ a, ptr ≤ a < ptr + len → accessible (Vm.entries m) w a.
Proof.
  intros Ht Hm Hd Hp Hl Hsum. unfold unix_user_io_range_mapped.
  rewrite (proj2 (Z.eqb_neq task 0)), (proj2 (Z.eqb_neq ptr 0)), (proj2 (Z.eqb_neq len 0)), Hm by lia. cbn [orb].
  unfold add_overflow. rewrite (proj2 (Z.leb_gt _ _)) by lia.
  destruct (range_mapped_spec (S (length (Vm.entries m))) (Vm.entries m) ptr (ptr + (len - 1)) w Hd) as (r & -> & Hr).
  { pose proof (length_filter (λ e, ptr < Vm.e_end e) (Vm.entries m)). unfold ahead. lia. }
  simpl. rewrite Hr. split; intros H a Ha; apply H; lia.
Qed.

(** ** Pipes *)

(** The read end that a call finds. *)
Lemma read_pipe_eq u fd buf n bounce p :
  utask u ≠ 0 → unix_user_range_ok buf n = true → fd_kind_of u (utask u) (s32 fd) = UNIX_FD_KIND_PIPE_R →
  let h := task_fd_get (us_sched u) (utask u) (s32 fd) in
  h ≠ 0 → us_pipes u !! h = Some p → pipe_ok p →
  ∃ p', pipe_ok p' ∧ pipe_bytes p' = drop (Z.to_nat n) (pipe_bytes p) ∧
    unix_fs_read ops u fd buf n bounce =
      if bool_decide (Z.to_nat n ≠ 0%nat ∧ pipe_bytes p = [] ∧ p_writers p ≠ 0)
      then SysWait (u <| us_pipes ::= alter (λ _, p') h |>)
      else ret (Z.of_nat (length (take (Z.to_nat n) (pipe_bytes p))))
             (u <| us_pipes ::= alter (λ _, p') h |> <| us_mem ::= λ m, ustore m buf (take (Z.to_nat n) (pipe_bytes p)) |>).
Proof.
  intros Ht Hr Hk h Hh Hp Ho. unfold unix_fs_read. rewrite (proj2 (Z.eqb_neq _ _) Ht), Hr. fold h.
  rewrite (proj2 (Z.eqb_neq _ _) Hh), Hk. simpl. rewrite (lookup_total_correct _ _ _ Hp), (po_magic _ Ho). simpl.
  destruct (pipe_read_run (Z.to_nat n) p [] Ho) as (p' & Ho' & _ & _ & Hb & ->). exists p'. split; [done|]. split; [done|].
  simpl. case_bool_decide as H1; case_bool_decide as H2; naive_solver.
Qed.

(** A read from a pipe takes the bytes that were written first and are still
    there, at most as many as it asks for.  When there are none, it waits as long
    as some descriptor of some task is a write end of the pipe, and returns 0
    when there is none. *)
Theorem unix_pipe_read_correct u fd buf n bounce :
  fd_inv [] u → has_task u → utask u ≠ 0 → unix_user_range_ok buf n = true → 0 < n →
  fd_kind_of u (utask u) (s32 fd) = UNIX_FD_KIND_PIPE_R →
  let h := task_fd_get (us_sched u) (utask u) (s32 fd) in
  h ≠ 0 →
  ∃ p, us_pipes u !! h = Some p ∧
    match pipe_bytes p with
    | [] =>
        if ends (slots [] (us_sched u)) h UNIX_FD_KIND_PIPE_W =? 0
        then ∃ u', unix_fs_read ops u fd buf n bounce = ret 0 u' ∧ us_mem u' = us_mem u
        else ∃ u', unix_fs_read ops u fd buf n bounce = SysWait u' ∧ us_mem u' = us_mem u
    | l => ∃ u' p', unix_fs_read ops u fd buf n bounce = ret (Z.min n (Z.of_nat (length l))) u' ∧
             us_mem u' = ustore (us_mem u) buf (take (Z.to_nat n) l) ∧ us_pipes u' !! h = Some p' ∧
             pipe_bytes p' = drop (Z.to_nat n) l
    end.
Proof.
  intros V Ht Ht0 Hr Hn Hk h Hh. destruct (get_pipe u (s32 fd) h V Ht Ht0 eq_refl Hh) as (p & Hp & Ho & _); [by left|].
  exists p. split; [done|]. destruct (read_pipe_eq u fd buf n bounce p Ht0 Hr Hk Hh Hp Ho) as (p' & Ho' & Hb & ->).
  destruct (ro_pipes _ _ _ _ (fv_res _ V) h p Hp) as (_ & _ & _ & Ew & _). rewrite <- Ew.
  destruct (pipe_bytes p) as [|b l].
  - rewrite take_nil. simpl. destruct (Z.eqb_spec (p_writers p) 0) as [Ez|Ez].
    + rewrite bool_decide_false by naive_solver. by eexists.
    + rewrite bool_decide_true by (split; [lia|done]). by eexists.
  - rewrite bool_decide_false by naive_solver. rewrite length_take. eexists _, p'. split; [f_equal; simpl; lia|].
    split; [done|]. fold h. simpl. rewrite lookup_alter_eq, Hp. done.
Qed.

(** ** Readiness *)
Lemma flag_or x y f : has_flag (Z.lor x y) f = has_flag x f || has_flag y f.
Proof. unfold has_flag. rewrite Z.land_lor_distr_l. destruct (Z.eqb_spec (Z.lor (Z.land x f) (Z.land y f)) 0) as [E|E].
  - apply Z.lor_eq_0_iff in E as [-> ->]. done.
  - destruct (Z.eqb_spec (Z.land x f) 0) as [Ex|]; [|done]. destruct (Z.eqb_spec (Z.land y f) 0) as [Ey|]; [|done].
    rewrite Ex, Ey in E. done.
Qed.

Lemma flag_if_flag (b : bool) f g : has_flag (flag_if b f) g = b && has_flag f g.
Proof. by destruct b. Qed.

(** The handle that [poll] reads from the table. *)
Lemma handle_get u fd : utask u ≠ 0 → task_fd_get (us_sched u) (utask u) fd ≠ 0 →
  bad_fd fd = false ∧ fd_handle u (utask u) fd = task_fd_get (us_sched u) (utask u) fd.
Proof.
  intros Ht. unfold task_fd_get, bad_fd, fd_handle. rewrite (proj2 (Z.eqb_neq _ _) Ht). cbn [orb].
  destruct ((fd <? 0) || (TASK_MAX_FD <=? fd)); done.
Qed.

Lemma poll_read_end u fd events p :
  utask u ≠ 0 → let h := task_fd_get (us_sched u) (utask u) fd in
  h ≠ 0 → fd_kind_of u (utask u) fd = UNIX_FD_KIND_PIPE_R → us_pipes u !! h = Some p → pipe_ok p →
  has_flag events UNIX_POLLIN = true →
  has_flag (unix_poll_one net u (utask u) fd events).1 UNIX_POLLIN = (0 <? p_count p) || (p_writers p =? 0).
Proof.
  intros Ht h Hh Hk Hp Ho He. destruct (handle_get u fd Ht Hh) as [Hb E]. unfold unix_poll_one.
  rewrite (proj2 (Z.eqb_neq _ _) Ht), Hb, E, Hk. fold h. rewrite (proj2 (Z.eqb_neq _ _) Hh). simpl.
  rewrite (lookup_total_correct _ _ _ Hp), (po_magic _ Ho), He. simpl.
  rewrite flag_or, !flag_if_flag. change (has_flag UNIX_POLLIN UNIX_POLLIN) with true.
  change (has_flag UNIX_POLLHUP UNIX_POLLIN) with false. by rewrite andb_true_r, andb_false_r, orb_false_r.
Qed.

Lemma poll_write_end u fd events p :
  utask u ≠ 0 → let h := task_fd_get (us_sched u) (utask u) fd in
  h ≠ 0 → fd_kind_of u (utask u) fd = UNIX_FD_KIND_PIPE_W → us_pipes u !! h = Some p → pipe_ok p →
  has_flag events UNIX_POLLOUT = true →
  has_flag (unix_poll_one net u (utask u) fd events).1 (Z.lor UNIX_POLLOUT UNIX_POLLERR)
    = ((0 <? p_readers p) && (p_count p <? UNIX_PIPE_CAP)) || (p_readers p =? 0).
Proof.
  intros Ht h Hh Hk Hp Ho He. destruct (handle_get u fd Ht Hh) as [Hb E]. unfold unix_poll_one.
  rewrite (proj2 (Z.eqb_neq _ _) Ht), Hb, E, Hk. fold h. rewrite (proj2 (Z.eqb_neq _ _) Hh). simpl.
  rewrite (lookup_total_correct _ _ _ Hp), (po_magic _ Ho), He. simpl.
  rewrite flag_or, !flag_if_flag. change (has_flag UNIX_POLLOUT 12) with true.
  change (has_flag (Z.lor UNIX_POLLHUP UNIX_POLLERR) 12) with true. by rewrite !andb_true_r.
Qed.

(** The write end that a call finds. *)
Lemma write_pipe_waits u fd buf n data p :
  utask u ≠ 0 → unix_user_range_ok buf n = true → unix_user_io_range_mapped u (utask u) buf n false = true → 0 < n →
  fd_kind_of u (utask u) (s32 fd) = UNIX_FD_KIND_PIPE_W →
  let h := task_fd_get (us_sched u) (utask u) (s32 fd) in
  h ≠ 0 → us_pipes u !! h = Some p → pipe_ok p →
  (∃ w, unix_fs_write ops u fd buf n data = SysWait w) ↔ p_readers p ≠ 0 ∧ pipe_room p = 0%nat.
Proof.
  intros Ht Hr Hm Hn Hk h Hh Hp Ho. unfold unix_fs_write. rewrite (proj2 (Z.eqb_neq _ _) Ht), Hr, Hm. fold h.
  rewrite (proj2 (Z.eqb_neq _ _) Hh), Hk. cbn [negb Z.eqb Pos.eqb UNIX_FD_KIND_PIPE_W UNIX_FD_KIND_VFS].
  rewrite (lookup_total_correct _ _ _ Hp), (po_magic _ Ho), Z.eqb_refl. cbn [negb].
  set (bytes := uload _ _ _). assert (bytes ≠ []) as Hb.
  { intros E. apply (f_equal length) in E. unfold bytes, uload in E. rewrite length_fmap, length_seq in E. simpl in E. lia. }
  destruct (Z.eq_dec (p_readers p) 0) as [Hr0|Hr0].
  - rewrite (pipe_write_broken bytes p Ho Hr0). split; [by intros [w ?]|naive_solver].
  - destruct (pipe_write_run bytes p 0 Ho Hr0) as (p' & _ & _ & _ & _ & ->); [lia|].
    case_bool_decide as Hc; [split; [naive_solver|by eexists]|]. split; [by intros [w ?]|naive_solver].
Qed.

(** C16. [poll] and the calls agree on pipes.  It reports a read end as ready to read
    exactly when a read would not wait, and a write end as writable or broken
    exactly when a write would not wait. *)
Theorem unix_poll_pipe_correct u fd buf n bounce data events :
  fd_inv [] u → has_task u → utask u ≠ 0 → unix_user_range_ok buf n = true → 0 < n →
  unix_user_io_range_mapped u (utask u) buf n false = true →
  let fdi := s32 fd in
  let k := fd_kind_of u (utask u) fdi in
  task_fd_get (us_sched u) (utask u) fdi ≠ 0 →
  let rev := (unix_poll_one net u (utask u) fdi events).1 in
  (k = UNIX_FD_KIND_PIPE_R → has_flag events UNIX_POLLIN = true →
     has_flag rev UNIX_POLLIN = true ↔ ∀ w, unix_fs_read ops u fd buf n bounce ≠ SysWait w) ∧
  (k = UNIX_FD_KIND_PIPE_W → has_flag events UNIX_POLLOUT = true →
     has_flag rev (Z.lor UNIX_POLLOUT UNIX_POLLERR) = true ↔ ∀ w, unix_fs_write ops u fd buf n data ≠ SysWait w).
Proof.
  intros V Ht Ht0 Hr Hn Hm fdi k Hh rev. split; intros Hk He.
  - destruct (get_pipe u fdi _ V Ht Ht0 eq_refl Hh) as (p & Hp & Ho & _); [by left|]. unfold rev.
    rewrite (poll_read_end u fdi events p) by done.
    destruct (read_pipe_eq u fd buf n bounce p Ht0 Hr Hk Hh Hp Ho) as (p' & _ & _ & ->).
    pose proof (pipe_bytes_length p Ho) as Hlen. rewrite orb_true_iff, Z.ltb_lt, Z.eqb_eq.
    case_bool_decide as Hc; [split; [|by intros Hw; destruct (Hw _ eq_refl)]|split; [by intros _ w|]].
    + destruct Hc as (_ & Hb & Hw). rewrite Hb in Hlen. simpl in Hlen. lia.
    + intros _. destruct (pipe_bytes p); simpl in Hlen; [right|left; lia].
      destruct (Z.eq_dec (p_writers p) 0); [done|]. destruct Hc. split; [lia|done].
  - destruct (get_pipe u fdi _ V Ht Ht0 eq_refl Hh) as (p & Hp & Ho & _); [by right|]. unfold rev.
    rewrite (poll_write_end u fdi events p) by done.
    pose proof (write_pipe_waits u fd buf n data p Ht0 Hr Hm Hn Hk Hh Hp Ho) as Hw.
    rewrite orb_true_iff, andb_true_iff, !Z.ltb_lt, Z.eqb_eq.
    assert (0 ≤ p_readers p) by (pose proof (po_readers _ Ho); lia).
    transitivity (¬ (p_readers p ≠ 0 ∧ pipe_room p = 0%nat)).
    + unfold pipe_room. split; [lia|]. intros Hx. destruct (Z.eq_dec (p_readers p) 0); [by right|left]. lia.
    + rewrite <- Hw. split; [intros Hx w E; apply Hx; by exists w|]. intros Hx [w E]. by apply (Hx w).
Qed.

End Io.

End UnixIoSpec.

(** * Signals, exit and waiting

    A handler gets its frame and gives the interrupted registers back; an exit
    closes what its task had open and leaves the status to the parent. *)
Module UnixProcSpec.
Import Sched SchedFacts Waitq Task PathSpec Vfs VfsFile VfsInv VfsSteps UnixPath UnixPipe UnixFd UnixIo UnixProc.
Import UnixRes UnixSlots UnixFdInv UnixClone UnixCalls UnixFutex UnixFork UnixProcInv.

(** ** Frames *)
Lemma frame_word_set s p k v k' :
  frame_word (set_frame_word p k v s) p k' = if decide (k = k') then v else frame_word s p k'.
Proof.
  unfold frame_word, set_frame_word. simpl. case_decide as E; [rewrite E; apply lookup_total_insert_eq|].
  apply lookup_total_insert_ne. lia.
Qed.

Lemma frame_word_tsk s t f p k : frame_word (tsk_upd t f s) p k = frame_word s p k.
Proof. done. Qed.

Lemma tsk_upd_at s t f : is_Some (tasks s !! t) → tsk (tsk_upd t f s) t = f (tsk s t).
Proof. intros [x Hx]. unfold tsk. simpl. by rewrite !lookup_total_alt, lookup_alter_eq, Hx. Qed.

Lemma restore_other frame (l : list (nat * Z)) s k :
  (∀ kv, kv ∈ l → kv.1 ≠ k) →
  frame_word (foldl (λ s kv, set_frame_word frame kv.1 kv.2 s) s l) frame k = frame_word s frame k.
Proof.
  revert s. induction l as [|kv l IH]; intros s Hl; [done|]. simpl. rewrite IH by (intros; apply Hl; by right).
  rewrite frame_word_set, decide_False; [done|]. apply Hl. left.
Qed.

Lemma restore_at frame (l : list (nat * Z)) s k v :
  NoDup l.*1 → (k, v) ∈ l → frame_word (foldl (λ s kv, set_frame_word frame kv.1 kv.2 s) s l) frame k = v.
Proof.
  revert s. induction l as [|[k0 v0] l IH]; intros s Hnd Hin; [by apply not_elem_of_nil in Hin|]. simpl in *.
  apply NoDup_cons in Hnd as [Hn Hnd]. apply elem_of_cons in Hin as [[= -> ->]|Hin]; [|by apply IH].
  rewrite restore_other; [by rewrite frame_word_set, decide_True|]. intros kv Hkv E. apply Hn, list_elem_of_fmap.
  by exists kv.
Qed.

(** All words that were saved come back. *)
Lemma restore_saved frame (f : nat → Z) s k :
  k ∈ SAVED_WORDS → frame_word (restore_words frame (f <$> SAVED_WORDS) s) frame k = f k.
Proof.
  intros Hk. unfold restore_words. apply restore_at; [by vm_compute; repeat constructor; set_solver|].
  apply list_elem_of_lookup in Hk as [i Hi]. apply (list_elem_of_lookup_2 _ i). apply lookup_zip_with_Some.
  exists k, (f k). split; [done|]. split; [done|]. by rewrite list_lookup_fmap, Hi.
Qed.

Section Proc.
Context {D : Type} (net : net_ops D).
Implicit Types u : unix_state D.

(** ** Signals *)

(** C20. What the check for signals does before a thread returns to its program. *)
Theorem unix_proc_signal_checkpoint_correct u :
  let task := utask u in
  let x := tsk (us_sched u) task in
  let frame := arch_frame u (current_thread (us_sched u)) in
  let sig := sig_pending x in
  let act := default (mk_sigaction 0 0 0 0) (Sched.sigaction x !! Z.to_nat sig) in
  let sp := frame_word (us_sched u) frame FR_RSP -₆₄ 8 in
  task ≠ 0 → current_thread (us_sched u) ≠ 0 → is_Some (tasks (us_sched u) !! task) → frame ≠ 0 →
  0 < sig ≤ UNIX_SIG_MAX → sig_in_handler x = false → 0 ≤ sa_handler act →
  if sa_handler act =? UNIX_SIG_IGN then
    ∃ u', unix_proc_signal_checkpoint net u = SysRet 0 u' ∧ sig_pending (tsk (us_sched u') task) = 0
  else if (sa_handler act =? UNIX_SIG_DFL) || (sig =? UNIX_SIGKILL) || (sa_restorer act =? 0) || negb (unix_user_range_ok sp 8)
  then unix_proc_signal_checkpoint net u = unix_proc_exit net u (128 + sig)
  else
    ∃ u', unix_proc_signal_checkpoint net u = SysRet 0 u' ∧
      frame_word (us_sched u') frame FR_RIP = sa_handler act ∧ frame_word (us_sched u') frame FR_RDI = sig ∧
      frame_word (us_sched u') frame FR_RSP = sp ∧ us_mem u' = ustore (us_mem u) sp (le_bytes 8 (sa_restorer act)) ∧
      sig_in_handler (tsk (us_sched u') task) = true ∧ sig_pending (tsk (us_sched u') task) = 0 ∧
      us_saved u' !! task = Some (frame_word (us_sched u) frame <$> SAVED_WORDS).
Proof.
  intros task x frame sig act sp Ht Hc Hy Hf Hs Hin Hh. unfold unix_proc_signal_checkpoint.
  fold task. fold x. fold sig. fold act. fold frame.
  rewrite (proj2 (Z.eqb_neq _ _) Ht), (proj2 (Z.eqb_neq _ _) Hc). cbn [orb].
  rewrite (proj2 (Z.eqb_neq sig 0)), (proj2 (Z.ltb_ge UNIX_SIG_MAX sig)), Hin, (proj2 (Z.eqb_neq _ _) Hf) by lia. cbn [orb].
  case_if.
  { eexists. split; [done|]. simpl. by rewrite tsk_upd_at. }
  assert ((sa_handler act <=? UNIX_SIG_DFL) = (sa_handler act =? UNIX_SIG_DFL)) as ->
    by (unfold UNIX_SIG_DFL; destruct (Z.leb_spec (sa_handler act) 0), (Z.eqb_spec (sa_handler act) 0); lia).
  destruct ((sa_handler act =? UNIX_SIG_DFL) || (sig =? UNIX_SIGKILL)); [done|]. cbn [orb].
  destruct (sa_restorer act =? 0); [done|]. cbn [orb]. fold sp. destruct (unix_user_range_ok sp 8); [|done]. cbn [negb].
  eexists. split; [done|]. unfold enter_handler. fold sp. simpl. rewrite !frame_word_tsk, !frame_word_set.
  split; [done|]. split; [done|]. split; [done|]. split; [done|]. rewrite lookup_insert_eq.
  by rewrite tsk_upd_at.
Qed.

(** C19. The registers survive a handler: whatever it and the calls it makes do to
    the frame of the thread, [sigreturn] brings back the eighteen registers that
    were saved when the signal arrived, and returns the value of [rax] then. *)
Theorem signal_roundtrip u u2 task frame sig handler restorer :
  let u1 := enter_handler u task frame sig handler restorer in
  utask u2 = task → task ≠ 0 → current_thread (us_sched u2) ≠ 0 → arch_frame u2 (current_thread (us_sched u2)) = frame →
  frame ≠ 0 → us_saved u2 !! task = us_saved u1 !! task → sig_in_handler (tsk (us_sched u2) task) = true →
  ∃ u3, unix_proc_sigreturn u2 = SysRet (frame_word (us_sched u) frame FR_RAX) u3 ∧
    (∀ k, k ∈ SAVED_WORDS → frame_word (us_sched u3) frame k = frame_word (us_sched u) frame k) ∧
    sig_in_handler (tsk (us_sched u3) task) = false.
Proof.
  intros u1 Ht Ht0 Hc Ha Hf Hs Hin. unfold unix_proc_sigreturn. rewrite Ht, (proj2 (Z.eqb_neq _ _) Hc), Ha.
  rewrite (proj2 (Z.eqb_neq _ _) Ht0), (proj2 (Z.eqb_neq _ _) Hf). cbn [orb].
  unfold unix_signal_restore_frame. rewrite (proj2 (Z.eqb_neq _ _) Ht0), (proj2 (Z.eqb_neq _ _) Hf), Hin. cbn [orb negb].
  assert (us_saved u2 !!! task = frame_word (us_sched u) frame <$> SAVED_WORDS) as ->.
  { rewrite lookup_total_alt, Hs. unfold u1, enter_handler. simpl. by rewrite lookup_insert_eq. }
  eexists. split; [|split].
  - f_equal. simpl. rewrite frame_word_tsk. apply restore_saved. unfold SAVED_WORDS. set_solver.
  - intros k Hk. simpl. rewrite frame_word_tsk. by apply restore_saved.
  - simpl. rewrite tsk_upd_at; [done|]. apply (same_has (us_sched u2)); [apply same_restore|].
    unfold tsk in Hin. rewrite lookup_total_alt in Hin. by destruct (tasks (us_sched u2) !! task).
Qed.

(** ** Exit *)
Lemma enqueue_tasks s t : tasks (ready_enqueue s t) = tasks s.
Proof. unfold ready_enqueue. by repeat case_if. Qed.

Lemma thread_state_tasks s t st : tasks (scheduler_thread_set_state s t st) = tasks s.
Proof. unfold scheduler_thread_set_state. by case_if. Qed.

Lemma wake_tasks s t : tasks (scheduler_wake s t) = tasks s.
Proof.
  unfold scheduler_wake. repeat case_if; try done; simpl; rewrite enqueue_tasks, ?thread_state_tasks; try done.
  unfold dec_blocked, sleep_boost. by repeat case_if.
Qed.

Lemma exit_mark_at {A} (g : task_t → A) s t :
  (∀ x st, g (x <| task_state := st |>) = g x) → g (tsk (scheduler_exit_mark s) t) = g (tsk s t).
Proof.
  intros Hg. unfold scheduler_exit_mark. case_if; [done|].
  set (s1 := scheduler_thread_set_state _ _ _). assert (tasks s1 = tasks s) as E.
  { unfold s1. rewrite thread_state_tasks. unfold scheduler_exit_wake_joiner. case_if; [done|]. by rewrite wake_tasks. }
  clearbody s1. assert (g (tsk s1 t) = g (tsk s t)) as E1 by (unfold tsk; by rewrite E).
  unfold scheduler_task_set_state. repeat case_if; try done.
  rewrite <- E1. apply (tsk_upd_keep g s1). intros x. apply Hg.
Qed.

(** C21. The exit of a process: all its descriptors are closed, the other processes
    keep theirs with their positions, and the status is there for the parent. *)
Theorem unix_proc_exit_correct {lost} u status :
  fd_inv lost u → is_Some (tasks (us_sched u) !! utask u) → current_thread (us_sched u) ≠ 0 →
  ∃ u', unix_proc_exit net u status = SysExit u' ∧ fd_inv lost u' ∧
    (∀ fd, bad_fd fd = false → fd_handle u' (utask u) fd = 0) ∧
    rest_same u u' (utask u) all_fds ∧ same_files u u' (utask u) ∧
    exited (tsk (us_sched u') (utask u)) = true ∧ exit_code (tsk (us_sched u') (utask u)) = s32 status.
Proof.
  intros V Ht Hc. set (t := utask u) in *. assert (t ≠ 0) as Ht0.
  { intros E. rewrite E in Ht. destruct Ht as [x Hx]. by rewrite (to_zero _ (fv_tables _ V)) in Hx. }
  destruct (release_all_same net u u t V Ht) as (V1 & R1 & S1 & Z1).
  { exact (same_files_grow u u t V ltac:(done)). }
  { by apply same_rest. }
  unfold unix_proc_exit, unix_proc_close_fds. fold t. rewrite (proj2 (Z.eqb_neq _ _) Ht0).
  destruct (only_release_all net t u) as [E1 _].
  set (u1 := release_all net t u) in *. set (u2 := u1 <| us_sched ::= tsk_upd t (mark_exited status) |>).
  assert (fd_same (us_sched u1) (us_sched u2)) as Hs by (by apply same_tsk_upd).
  assert (current_thread (us_sched u2) = current_thread (us_sched u)) as -> by (simpl; by rewrite E1).
  rewrite (proj2 (Z.eqb_neq _ _) Hc). set (u3 := u2 <| us_sched ::= scheduler_exit_mark |>).
  assert (fd_same (us_sched u1) (us_sched u3)) as Hs3 by (etrans; [exact Hs|apply same_exit_mark]).
  assert (is_Some (tasks (us_sched u1) !! t)) as Ht1 by (by apply (rs_tasks _ _ _ _ R1)).
  exists u3. split; [done|]. split; [by apply (same_inv u1)|]. split.
  { intros fd Hfd. rewrite <- (Z1 fd Hfd). by apply same_slot. }
  split; [apply (rest_trans u u1); [done|]; by apply same_rest|]. split; [exact S1|].
  unfold u3, u2. simpl. rewrite (exit_mark_at exited), (exit_mark_at exit_code) by done. by rewrite tsk_upd_at.
Qed.

(** ** Waiting for a child *)
Lemma mem_release u t fd : us_mem (unix_fd_release net u t fd) = us_mem u.
Proof.
  unfold unix_fd_release. case_if; [done|]. simpl. rewrite close_file_eq.
  repeat case_if; try done. by destruct (unix_pipe_release _ _).
Qed.

Lemma mem_release_all t u : us_mem (release_all net t u) = us_mem u.
Proof.
  unfold release_all. generalize all_fds. intros l. revert u. induction l as [|fd l IH]; intros u; simpl; [done|].
  by rewrite IH, mem_release.
Qed.

Lemma ids_destroyed s t : all_tasks_by_id (foldl thread_destroy s t) = all_tasks_by_id s.
Proof.
  revert s. induction t as [|th t IH]; intros s; [done|]. simpl. rewrite IH. unfold thread_destroy. case_if; [done|].
  simpl. by case_if.
Qed.

Lemma destroyed_id u t pid :
  t ≠ 0 → task_id (tsk (us_sched u) t) = pid → task_find_by_id (us_sched (destroy_task net t u)) pid = 0.
Proof.
  intros Ht Hid. unfold task_find_by_id. case_if; [done|]. unfold destroy_task, task_destroy.
  rewrite (proj2 (Z.eqb_neq _ _) Ht). simpl. rewrite ids_destroyed. simpl.
  destruct (only_release_all net t u) as [_ H].
  assert (task_id (tsk (us_sched (release_all net t u)) t) = pid) as ->; [|by rewrite lookup_delete_eq].
  rewrite <- Hid. destruct (tasks (us_sched u) !! t) as [y|] eqn:Hy; [|unfold release_all; by rewrite release_absent].
  pose proof (ids_lookup _ _ t H ltac:(by eexists)) as E. by injection E.
Qed.

(** C22. [waitpid] gives the status of a child that has exited, once: to its parent
    only, with the descriptors the child may have left closed and the task gone
    when no thread of it is left. *)
Theorem unix_proc_waitpid_correct {lost} u pid ptr :
  let child := task_find_by_id (us_sched u) pid in
  let x := tsk (us_sched u) child in
  fd_inv lost u → utask u ≠ 0 → pid ≠ 0 → (ptr = 0 ∨ unix_user_range_ok ptr 4 = true) →
  (child ≠ 0 → is_Some (tasks (us_sched u) !! child) ∧ task_id x = pid) →
  if (child =? 0) then unix_proc_waitpid net u pid ptr = ret RDNX_E_NOTFOUND u
  else if negb (parent_task_id x =? task_id (tsk (us_sched u) (utask u))) then unix_proc_waitpid net u pid ptr = ret RDNX_E_DENIED u
  else if negb (exited x || bool_decide (task_state x = TASK_STATE_ZOMBIE)
                || bool_decide (task_state x = TASK_STATE_DEAD)) then unix_proc_waitpid net u pid ptr = ret RDNX_E_BUSY u
  else if waited x then unix_proc_waitpid net u pid ptr = ret RDNX_E_NOTFOUND u
  else
    ∃ u', unix_proc_waitpid net u pid ptr = SysRet pid u' ∧ fd_inv lost u' ∧
      us_mem u' = (if ptr =? 0 then us_mem u else ustore (us_mem u) ptr (le_bytes 4 (u32 (exit_code x)))) ∧
      (if thread_count x =? 0 then task_gone u u' child else rest_same u u' child []) ∧
      unix_proc_waitpid net u' pid ptr = ret RDNX_E_NOTFOUND u'.
Proof.
  intros child x V Hs Hp Hptr Hc. unfold unix_proc_waitpid at 1 2 3 4 5. fold child. fold x.
  rewrite (proj2 (Z.eqb_neq _ _) Hs), (proj2 (Z.eqb_neq _ _) Hp). cbn [orb].
  assert (negb (ptr =? 0) && negb (unix_user_range_ok ptr 4) = false) as Hr.
  { destruct Hptr as [->| ->]; [done|]. by rewrite andb_false_r. }
  rewrite Hr. destruct (Z.eqb_spec child 0) as [|Hc0]; [done|]. destruct (Hc Hc0) as [Hx Hid].
  destruct (negb (parent_task_id x =? _)) eqn:Epar; [done|].
  destruct (negb (exited x || _ || _)) eqn:Eex; [done|]. destruct (waited x) eqn:Ew; [done|].
  set (u1 := if ptr =? 0 then _ else _).
  assert (fd_same (us_sched u) (us_sched u1)) as S1 by (unfold u1; case_if; by apply same_tsk_upd).
  assert (us_sched u1 = tsk_upd child (λ x, x <| waited := true |>) (us_sched u)) as Es by (unfold u1; by case_if).
  assert (fd_inv lost u1) as V1 by (apply (same_inv u); try done; unfold u1; by case_if).
  assert (us_files u1 = us_files u) as Ef by (unfold u1; by case_if).
  eexists. split; [done|].
  assert (us_mem u1 = if ptr =? 0 then us_mem u else ustore (us_mem u) ptr (le_bytes 4 (u32 (exit_code x)))) as <-
    by (unfold u1; by case_if).
  clearbody u1. destruct (thread_count x =? 0) eqn:En.
  - set (u2 := u1 <| us_sched ::= _ |>).
    assert (fd_same (us_sched u) (us_sched u2)) as S2 by (etrans; [exact S1|by apply same_tsk_upd]).
    assert (fd_inv lost u2) as V2 by (apply (same_inv u1); try done; by apply same_tsk_upd).
    destruct (destroy_gone net u u2 child V2) as [V3 G].
    + by apply (same_has (us_sched u)).
    + intros t' fd _ _ _ _ _. simpl. by rewrite Ef.
    + by apply same_rest.
    + split; [done|]. split.
      { unfold destroy_task. rewrite (proj2 (Z.eqb_neq _ _) Hc0). simpl. by rewrite mem_release_all. }
      split; [done|]. unfold unix_proc_waitpid. rewrite (tg_task _ _ _ G), (proj2 (Z.eqb_neq _ _) Hs), (proj2 (Z.eqb_neq _ _) Hp), Hr.
      cbn [orb]. rewrite destroyed_id; [done|done|]. rewrite <- Hid. unfold u2. simpl. rewrite Es.
      rewrite (tsk_upd_keep task_id) by done. by rewrite (tsk_upd_keep task_id).
  - split; [done|]. split; [done|]. split; [by apply same_rest|]. unfold unix_proc_waitpid.
    assert (utask u1 = utask u) as -> by apply S1. rewrite (proj2 (Z.eqb_neq _ _) Hs), (proj2 (Z.eqb_neq _ _) Hp), Hr. cbn [orb].
    assert (task_find_by_id (us_sched u1) pid = child) as -> by (by rewrite Es).
    rewrite (proj2 (Z.eqb_neq _ _) Hc0), Es. rewrite (tsk_upd_at _ child) by done. cbn -[tsk_upd].
    rewrite (tsk_upd_keep task_id) by done. fold x. rewrite Epar, Eex. done.
Qed.

End Proc.

End UnixProcSpec.
