(* ===== verification/UnixDemo.v ===== *)
(** * The Unix layer on concrete states

    A booted file system and a running task; the theorems of the Unix layer
    applied there, and calls whose outcome their callers do not expect. *)

From stdpp Require Import base gmap list numbers fin_maps relations.
From S2P Require Import Prelude Sched Waitq Task SchedDemo PathSpec Vfs VfsFile VfsFacts VfsTree VfsOps.
From S2P Require Import VfsSteps VfsDemo UnixPath UnixPipe UnixFd UnixIo UnixProc UnixFutex UnixRes UnixFdInv.
From S2P Require Import UnixCalls UnixProcInv UnixForkSpec Posix UnixSteps UnixSpec Paging Vm VmMap VmFacts.
From S2P Require Import VmDemo.

Module UnixDemo.
Import Sched Waitq Task PathSpec Vfs VfsFile VfsInv VfsSteps.
Import UnixPath UnixPipe UnixFd UnixIo UnixProc UnixFutex UnixRes UnixSlots UnixFdInv UnixClone UnixCalls.
Import UnixFork UnixProcInv UnixForkSpec Posix UnixSteps UnixSpec UnixIoSpec UnixProcSpec.

Definition ops : vfs_ops unit := VfsDemo.ops.

(** No network, and a terminal without input. *)
Definition net : net_ops unit :=
  mk_net_ops unit (λ d _ _ _, (0, d)) (λ d _, d) (λ d _ _, (RDNX_E_GENERIC, d)) (λ d _ _, (RDNX_E_GENERIC, d))
    (λ d _ _ _, (RDNX_E_GENERIC, d)) (λ d _ _ _, (RDNX_E_GENERIC, [], [], d)) (λ _, 0) (λ _ _, 0) (λ d _, d)
    (λ d _ _, d) (λ d, (false, d)).

(** The task at 65536 runs its thread at 1000; its frame is at [FRAME], on the
    stack of the thread. *)
Definition TASK : Z := 65536.
Definition FRAME : Z := 1048576 + 1024.
Definition running : sched_state := SchedDemo.d7 <| current_task := TASK |>
  <| Sched.tasks ::= alter (λ x, x <| Sched.address_space := VmDemo.PARENT |>) TASK |>.

Definition user_map : Vm.vm_map_t := Vm.mk_map VmDemo.PARENT [Vm.mk_entry 1610612736 1610620928 3 11 0 0].
Definition idle : unix_state unit :=
  mk_unix running VfsDemo.booted tt ∅ ∅ {[TASK := user_map]} ∅ {[1000 := FRAME]} ∅ [].
Definition BUF : Z := 1610612736.

(** ** Calls through the entry *)
Definition others (_ : Z) : option (@handler unit) := None.
Definition linux (_ : Z) : @handler unit := λ _ _ u, ret RDNX_E_UNSUPPORTED u.
Definition kputc (d : unit) (_ : Z) : unit := d.
Definition env (blk node : Z) : sys_env :=
  mk_env blk (replicate (Z.to_nat UNIX_PIPE_CAP) 0) (VfsDemo.nb node) VfsDemo.heap_block true 4096.

(** The registers of the program for a call. *)
Definition regs (num x y z : Z) (s : sched_state) : sched_state :=
  set_frame_word FRAME FR_RDX z (set_frame_word FRAME FR_RSI y (set_frame_word FRAME FR_RDI x (set_frame_word FRAME FR_RAX num s))).
Definition enter (e : sys_env) (num x y z : Z) (u : unix_state unit) : sysres unit :=
  x86_64_syscall_dispatch_frame ops net others linux kputc e (u <| us_sched ::= regs num x y z |>) FRAME.
Definition call (e : sys_env) (num x y z : Z) (u : unix_state unit) : unix_state unit :=
  default u (left_state (enter e num x y z u)).
Definition result (u : unix_state unit) : Z := frame_word (us_sched u) FRAME FR_RAX.

Definition with_pipe : unix_state unit := call (env 700 1200) 35 BUF 0 0 idle.

Abbreviation step := (ustep ops net others linux kputc).

Lemma others_keep num h : others num = Some h → keeps_inv h.
Proof. done. Qed.

Lemma linux_keeps num : keeps_inv (linux num).
Proof. by intros e a u I. Qed.

(** A program sets its registers and calls. *)
Lemma reach_call e num x y z u :
  let u1 := u <| us_sched ::= regs num x y z |> in
  has_task u1 → env_ok e u1 → args_ok (frame_args (us_sched u1) FRAME) → room u1 →
  rtc step u (call e num x y z u).
Proof.
  intros u1 Ht He Ha Hr. unfold call, enter. fold u1. destruct (left_state _) as [u'|] eqn:E; [|done]. cbn [default].
  apply (rtc_l _ _ u1); [by apply st_sched|]. apply rtc_once.
  exact (st_call ops net others linux kputc e u1 FRAME u' Ht He Ha Hr E).
Qed.

Lemma one_task : tasks running = {[TASK := tsk running TASK]}.
Proof. vm_compute. reflexivity. Qed.

Lemma idle_idle : unix_idle idle.
Proof.
  assert (table_ok (tsk running TASK)) as Hok by (vm_compute; done).
  assert (Forall (λ x : slot, x.1 = 0) (task_slots (tsk running TASK))) as Hz by SchedDemo.compute_decide.
  split; [split|..]; change (us_sched idle) with running.
  - vm_compute. reflexivity.
  - intros t x. rewrite one_task. intros [<- <-]%lookup_singleton_Some. exact Hok.
  - unfold slots. rewrite one_task, map_to_list_singleton, app_nil_r. cbn [mbind list_bind]. rewrite app_nil_r. exact Hz.
  - done.
  - done.
  - exact VfsDemo.inv_booted.
Qed.

(** The value of the first condition of [H]. *)
Ltac known H :=
  match type of H with
  | if ?c then _ else _ => 
      let b := eval vm_compute in c in
      let Hc := fresh in assert (c = b) as Hc by (vm_compute; reflexivity); rewrite Hc in H; clear Hc
  end.

(** ** A pipe *)
Lemma slots_regs num x y z (u : unix_state unit) :
  slots [] (us_sched (u <| us_sched ::= regs num x y z |>)) = slots [] (us_sched u).
Proof. done. Qed.

Lemma fresh_idle h k : h ≠ 0 → (h, k) ∉ slots [] (us_sched idle).
Proof.
  intros Hh Hin. destruct idle_idle as [_ Hz _ _ _]. rewrite Forall_forall in Hz. exact (Hh (Hz (h, k) Hin)).
Qed.

Lemma reach_pipe : rtc step idle with_pipe.
Proof.
  apply (reach_call (env 700 1200)).
  - right. vm_compute. by eexists.
  - split.
    + intros _. split; [reflexivity|]. split; [reflexivity|]. intros k. rewrite slots_regs. by apply fresh_idle.
    + apply length_replicate.
    + intros _. vm_compute. reflexivity.
    + exact VfsDemo.heap_ok.
  - split; vm_compute; split; discriminate || reflexivity.
  - vm_compute. reflexivity.
Qed.

(** No write end is lost when every pipe counts its write ends. *)
Lemma none_lost (u : unix_state unit) :
  unix_inv u → (∀ h p, us_pipes u !! h = Some p → p_writers p = ends (slots [] (us_sched u)) h UNIX_FD_KIND_PIPE_W) →
  fd_inv [] u.
Proof.
  intros (lost & [Hnd Hl] & V) Hw. destruct lost as [|[h k] lost]; [done|]. exfalso.
  apply Forall_cons in Hl as [[Hh Hk] _]. simpl in Hh, Hk. subst k.
  pose proof (fv_res _ V) as R. destruct (ro_ends _ _ _ _ R h UNIX_FD_KIND_PIPE_W) as [p Hp]; [|done|by right|].
  { unfold slots. apply elem_of_app. right. left. }
  destruct (ro_pipes _ _ _ _ R h p Hp) as (_ & _ & _ & Ew & _). specialize (Hw h p Hp).
  rewrite Ew in Hw. unfold slots, ends in Hw. rewrite !filter_app, !length_app, filter_cons, decide_True in Hw by done.
  simpl in Hw. lia.
Qed.

Lemma inv_with_pipe : fd_inv [] with_pipe.
Proof.
  apply none_lost; [exact (usteps_inv _ _ _ _ _ others_keep linux_keeps _ _ (unix_idle_inv _ idle_idle) reach_pipe)|].
  intros h p. assert (us_pipes with_pipe = {[700 := new_pipe (replicate (Z.to_nat UNIX_PIPE_CAP) 0)]}) as -> by (vm_compute; reflexivity).
  intros [<- <-]%lookup_singleton_Some. vm_compute. reflexivity.
Qed.


Lemma live_with_pipe : has_task with_pipe.
Proof. right. vm_compute. by eexists. Qed.

Lemma room_with_pipe : room with_pipe.
Proof. vm_compute. reflexivity. Qed.

(** A read from the empty pipe waits, since the task holds the write end. *)
Lemma unix_pipe_read_witness :
  ∃ u', unix_fs_read ops with_pipe 0 BUF 4 true = SysWait u' ∧ us_mem u' = us_mem with_pipe.
Proof.
  destruct (unix_pipe_read_correct ops with_pipe 0 BUF 4 true inv_with_pipe live_with_pipe) as (p & Hp & H);
    [vm_compute; (discriminate || reflexivity)..|].
  assert (pipe_bytes <$> us_pipes with_pipe !! 700 = Some []) as Hb by (vm_compute; reflexivity).
  assert (task_fd_get (us_sched with_pipe) (utask with_pipe) (s32 0) = 700) as Ht by (vm_compute; reflexivity).
  rewrite Ht in Hp, H. rewrite Hp in Hb. injection Hb as Hb. rewrite Hb in H.
  assert (ends (slots [] (us_sched with_pipe)) 700 UNIX_FD_KIND_PIPE_W = 1) as Ee by (vm_compute; reflexivity).
  rewrite Ee in H. exact H.
Defined.

(** The empty pipe is writable and not readable. *)
Lemma unix_poll_pipe_witness :
  (unix_poll_one net with_pipe (utask with_pipe) 1 UNIX_POLLOUT).1 = UNIX_POLLOUT ∧
  ∀ w, unix_fs_write ops with_pipe 1 BUF 3 VfsDemo.heap_block ≠ SysWait w.
Proof.
  destruct (unix_poll_pipe_correct ops net with_pipe 1 BUF 3 true VfsDemo.heap_block UNIX_POLLOUT inv_with_pipe live_with_pipe)
    as [_ H]; [vm_compute; (discriminate || reflexivity)..|].
  split; [vm_compute; reflexivity|]. apply H; vm_compute; reflexivity.
Defined.

Lemma unix_user_io_range_mapped_witness : unix_user_io_range_mapped idle TASK BUF 8 true = true.
Proof.
  assert (us_maps idle !! TASK = Some user_map) as Hm by (vm_compute; reflexivity).
  destruct (unix_user_io_range_mapped_correct idle TASK user_map BUF 8 true ltac:(discriminate) Hm
              ltac:(by split; [apply Forall_nil|]) ltac:(reflexivity) ltac:(reflexivity) ltac:(discriminate)) as [_ H].
  apply H. intros a Ha. exists (Vm.mk_entry 1610612736 1610620928 3 11 0 0). unfold BUF in Ha.
  split; [|split; [discriminate|intros _; discriminate]].
  simpl. rewrite (proj2 (Z.leb_le _ _)), (proj2 (Z.ltb_lt _ _)) by lia. reflexivity.
Defined.

(** The read end becomes descriptor 5 as well. *)
Lemma unix_fs_dup2_witness :
  ∃ u', unix_fs_dup2 net with_pipe 0 5 0 = ret 5 u' ∧ fd_inv [] u' ∧ other_slots (us_sched with_pipe) (us_sched u') TASK 5.
Proof.
  pose proof (unix_fs_dup2_correct net with_pipe 0 5 0 inv_with_pipe live_with_pipe room_with_pipe ltac:(by intros ?)) as H.
  cbv zeta in H. do 2 known H. destruct H as (rc & u' & E & V & O & [[-> _]|[_ Hz]]).
  - exists u'. split; [exact E|]. split; [exact V|exact O].
  - exfalso. apply (f_equal (λ r, match r with SysRet _ u => fd_handle u (utask with_pipe) (s32 5) | _ => 0 end)) in E.
    cbn [ret] in E. rewrite Hz in E. vm_compute in E. discriminate.
Defined.

(** ** A child *)
Definition CHILD : Z := 131072.
Definition fork_mem : fork_blocks :=
  mk_fork_blocks CHILD (replicate 256 0) (0, 0) (λ fd, 5000 + fd) (mk_blocks 3000 inhabitant 3145728).

Lemma fork_files : fresh_files (fb_file fork_mem) all_fds with_pipe.
Proof.
  assert (us_files with_pipe = ∅) as E by (vm_compute; reflexivity). split; [|cbn; lia].
  intros fd Hfd _. by rewrite E, lookup_empty.
Qed.

Abbreviation forked := (unix_proc_fork net with_pipe VmDemo.demo_vm VmDemo.demo_task fork_mem 4).

Lemma unix_proc_fork_witness :
  ∃ r u' v' pt' ct, forked = Some (r, u', v', pt', Some ct) ∧ r = 2 ∧
    fd_handle u' CHILD 0 = 700 ∧ fd_kind_of u' CHILD 0 = UNIX_FD_KIND_PIPE_R ∧ cloned_memory VmDemo.demo_vm v' VmDemo.demo_task pt' ct.
Proof.
  destruct (unix_proc_fork_correct net with_pipe VmDemo.demo_vm VmDemo.demo_task fork_mem 4 inv_with_pipe live_with_pipe
              room_with_pipe) as (r & u' & v' & pt' & oc & Hf & V & H).
  - intros _. vm_compute. reflexivity.
  - exact fork_files.
  - intros m [= <-]. exact VmDemo.demo_map_ok.
  - vm_compute. lia.
  - destruct oc as [ct|].
    + exists r, u', v', pt', ct. split; [exact Hf|]. destruct H as [(frame & _ & Hc) Hm].
      split; [rewrite (co_id _ _ _ _ _ Hc); vm_compute; reflexivity|].
      destruct (co_fds _ _ _ _ _ Hc 0 eq_refl) as (_ & _ & Hp).
      destruct Hp as (E1 & E2 & _); [vm_compute; discriminate|left; vm_compute; reflexivity|].
      change CHILD with (fb_task fork_mem). rewrite E1, E2.
      split; [vm_compute; reflexivity|]. split; [vm_compute; reflexivity|exact Hm].
    + exfalso. apply (f_equal (λ o, match o with Some (_, _, _, _, None) => 1 | _ => 0 end)) in Hf. vm_compute in Hf. discriminate.
Defined.

(** ** Exit and wait *)
Lemma unix_proc_exit_witness :
  ∃ u', unix_proc_exit net with_pipe 3 = SysExit u' ∧ fd_handle u' TASK 0 = 0 ∧ exit_code (tsk (us_sched u') TASK) = 3.
Proof.
  destruct (unix_proc_exit_correct net with_pipe 3 inv_with_pipe) as (u' & E & _ & Hz & _ & _ & _ & Hc).
  - vm_compute. by eexists.
  - vm_compute. discriminate.
  - exists u'. split; [exact E|]. split; [exact (Hz 0 eq_refl)|exact Hc].
Defined.

(** The child has exited with 3 and its thread is gone. *)
Definition fork_state (o : option (@fork_out unit)) : unix_state unit :=
  match o with Some (_, u', _, _, _) => u' | None => with_pipe end.
Definition after_fork : unix_state unit := fork_state forked.
Definition child_dead : unix_state unit :=
  after_fork <| us_sched ::= tsk_upd CHILD (λ x, (mark_exited 3 x) <| thread_count := 0 |> <| task_threads := [] |>) |>.

Lemma inv_child_dead : fd_inv [] child_dead.
Proof.
  apply sched_inv; [|intros; by apply same_tsk_upd]. unfold after_fork, fork_state.
  destruct forked as [[[[[r u'] v'] pt'] oc]|] eqn:Hf; [|exact inv_with_pipe].
  destruct (fork_result net with_pipe VmDemo.demo_vm VmDemo.demo_task fork_mem 4 r u' v' pt' oc inv_with_pipe live_with_pipe ltac:(vm_compute; reflexivity)
              ltac:(intros _; vm_compute; reflexivity) fork_files Hf) as [V _]. exact V.
Qed.

Lemma unix_proc_waitpid_witness :
  ∃ u', unix_proc_waitpid net child_dead 2 BUF = SysRet 2 u' ∧ uload (us_mem u') BUF 4 = [3; 0; 0; 0] ∧
    tasks (us_sched u') !! CHILD = None ∧ unix_proc_waitpid net u' 2 BUF = ret RDNX_E_NOTFOUND u'.
Proof.
  pose proof (unix_proc_waitpid_correct net child_dead 2 BUF inv_child_dead ltac:(vm_compute; discriminate) ltac:(discriminate)
    ltac:(right; vm_compute; reflexivity) ltac:(intros _; split; [vm_compute; by eexists|vm_compute; reflexivity])) as H.
  cbv zeta in H. do 4 known H. destruct H as (u' & E & _ & Em & G & E2). known G.
  exists u'. split; [exact E|]. split; [rewrite Em; vm_compute; reflexivity|]. split; [|exact E2].
  exact (tg_none _ _ _ G).
Defined.

(** ** Signals *)
Definition HANDLER : Z := 1610616832.
Definition signalled : unix_state unit :=
  idle <| us_sched ::= set_frame_word FRAME FR_RSP (BUF + 4096) |> <| us_sched ::= regs 1 7 0 0 |>
       <| us_sched ::= tsk_upd TASK (λ x, x <| sig_pending := 15 |>
                                           <| Sched.sigaction ::= <[15%nat := mk_sigaction HANDLER 0 (HANDLER + 64) 0]> |>) |>.

Lemma unix_proc_signal_checkpoint_witness :
  ∃ u', unix_proc_signal_checkpoint net signalled = SysRet 0 u' ∧ frame_word (us_sched u') FRAME FR_RIP = HANDLER ∧
    frame_word (us_sched u') FRAME FR_RDI = 15.
Proof.
  pose proof (unix_proc_signal_checkpoint_correct net signalled ltac:(vm_compute; discriminate) ltac:(vm_compute; discriminate)
    ltac:(vm_compute; by eexists) ltac:(vm_compute; discriminate) ltac:(vm_compute; split; [reflexivity|discriminate])
    ltac:(vm_compute; reflexivity) ltac:(vm_compute; discriminate)) as H.
  cbv zeta in H. do 2 known H. destruct H as (u' & E & H1 & H2 & _). exists u'. split; [exact E|].
  split; [exact H1|exact H2].
Defined.

Lemma signal_roundtrip_witness :
  let u1 := enter_handler signalled TASK FRAME 15 HANDLER (HANDLER + 64) in
  frame_word (us_sched u1) FRAME FR_RDI = 15 ∧
  ∃ u3, unix_proc_sigreturn u1 = SysRet 1 u3 ∧ frame_word (us_sched u3) FRAME FR_RDI = 7.
Proof.
  intros u1. split; [vm_compute; reflexivity|].
  destruct (signal_roundtrip signalled u1 TASK FRAME 15 HANDLER (HANDLER + 64)) as (u3 & E & Hw & _);
    [vm_compute; (reflexivity || discriminate)..|].
  exists u3. split; [rewrite E; vm_compute; reflexivity|].
  rewrite (Hw FR_RDI ltac:(SchedDemo.compute_decide)). vm_compute. reflexivity.
Defined.

(** ** Pipes *)
Definition zeros : list Z := replicate (Z.to_nat UNIX_PIPE_CAP) 0.
Definition written_pipe : unix_pipe_t := (pipe_write_loop [5; 6; 7] (new_pipe zeros) 0).2.

Lemma written_ok : pipe_ok written_pipe ∧ pipe_bytes written_pipe = [5; 6; 7].
Proof.
  destruct (new_pipe_ok zeros ltac:(apply length_replicate)) as [K Hb].
  destruct (pipe_write_run [5; 6; 7] (new_pipe zeros) 0 K ltac:(discriminate)) as (p' & K' & _ & _ & Hb' & E); [lia|].
  unfold written_pipe. rewrite E. split; [exact K'|]. simpl. rewrite Hb', Hb. vm_compute. reflexivity.
Qed.

Lemma pipe_write_witness :
  let '(r, p') := pipe_write_loop [5; 6; 7] (new_pipe zeros) 0 in pipe_bytes p' = [5; 6; 7] ∧ r ≠ None.
Proof.
  destruct (new_pipe_ok zeros ltac:(apply length_replicate)) as [K Hb].
  pose proof (pipe_write_correct [5; 6; 7] (new_pipe zeros) K ltac:(discriminate)) as H.
  destruct (pipe_write_loop [5; 6; 7] (new_pipe zeros) 0) as [r p']. destruct H as [_ H]. known H.
  destruct H as (E & Hr & _). rewrite E, Hb. split; [vm_compute; reflexivity|]. intros Hn%Hr. vm_compute in Hn. discriminate.
Defined.

Lemma pipe_read_witness :
  let '(r, p') := pipe_read_loop 2 written_pipe [] in pipe_bytes p' = [7] ∧ (∀ out, r = Some out → out = [5; 6]).
Proof.
  destruct written_ok as [K Hb]. pose proof (pipe_read_correct 2 written_pipe K) as H.
  destruct (pipe_read_loop 2 written_pipe []) as [r p']. destruct H as (_ & E & _ & Ho). rewrite Hb in E, Ho.
  split; [exact E|exact Ho].
Defined.

Lemma pipe_fifo_witness :
  let x := mk_psys (new_pipe zeros) [PWriter [5] 0] [] [] in
  ps_in x = ps_out x ++ pipe_bytes (ps_pipe x) ∧ Forall (call_ok (ps_in x) (ps_out x)) (ps_calls x).
Proof.
  intros x. destruct (pipe_fifo zeros x ltac:(apply length_replicate)) as (H1 & _ & H2).
  - apply rtc_once. exact (p_write_call (new_pipe zeros) [] [] [] [5]).
  - split; [exact H1|exact H2].
Defined.

(** ** Behaviours that callers do not expect *)

(** A task with one free descriptor. *)
Definition one_left : unix_state unit :=
  idle <| us_sched ::= tsk_upd TASK (λ x, x <| fd_table := replicate 31 900 ++ [0] |>
                                           <| fd_kind := replicate 31 UNIX_FD_KIND_SOCKET ++ [0] |>) |>.

(** [pipe] for that task fails after it took the slot for the read end.  It gives
    back the read end only: the pipe stays, with one writer that no descriptor
    is, and is never freed. *)
Theorem pipe_leaks_with_one_slot :
  ∃ u' p, unix_fs_pipe net one_left BUF 700 zeros = ret RDNX_E_BUSY u' ∧ us_pipes u' !! 700 = Some p ∧
    p_writers p = 1 ∧ p_readers p = 0 ∧ ends (slots [] (us_sched u')) 700 UNIX_FD_KIND_PIPE_W = 0.
Proof.
  eexists _, _. split; [vm_compute; reflexivity|]. split; [vm_compute; reflexivity|].
  split; [reflexivity|]. split; [reflexivity|]. vm_compute. reflexivity.
Qed.

(** A signal that arrives at the end of a call takes its result away: the
    program calls [getuid], the handler runs and returns, and the program finds
    the number of the call in [rax] instead of its user. *)
Theorem signal_replaces_result :
  result (call (env 0 0) 2 0 0 0 idle) = 0 ∧
  let u := call (env 0 0) 2 0 0 0 signalled in
  frame_word (us_sched u) FRAME FR_RIP = HANDLER ∧
  result (call (env 0 0) POSIX_SYS_SIGRETURN 0 0 0 u) = 2.
Proof. split; [|split]; vm_compute; reflexivity. Qed.

(** A signal sent while a handler runs is dropped when the handler returns. *)
Theorem sigreturn_drops_signal :
  let u := enter_handler signalled TASK FRAME 15 HANDLER (HANDLER + 64) in
  ∃ u1 u2, unix_proc_kill net u 1 10 = ret RDNX_OK u1 ∧ sig_pending (tsk (us_sched u1) TASK) = 10 ∧
    unix_proc_sigreturn u1 = SysRet 1 u2 ∧ sig_pending (tsk (us_sched u2) TASK) = 0.
Proof.
  eexists _, _. split; [vm_compute; reflexivity|]. split; [vm_compute; reflexivity|].
  split; [vm_compute; reflexivity|]. vm_compute. reflexivity.
Qed.

(** The call 121 prints the bytes at an address that is not one of the user. *)
Theorem sys_write_reads_kernel :
  unix_user_range_ok ARCH_KERNEL_VIRT_BASE 16 = false ∧
  result (call (env 0 0) SYS_WRITE ARCH_KERNEL_VIRT_BASE 16 0 idle) = 16.
Proof. split; vm_compute; reflexivity. Qed.

End UnixDemo.
