(* ===== verification/BlockDev.v ===== *)
(** * The block device service (kernel/fabric/service/block_service.c)

    The registry of block devices and the checked access to their sectors.  A
    device is a structure at an address; what its driver does is the interface
    [disk_ops], with the promises of a disk in [DiskDriver]: a sector that is
    read has the bytes of the disk, a sector that is written has the bytes of
    the buffer, and nothing else changes. *)

From stdpp Require Import base gmap list numbers fin_maps.
From S2P Require Import Prelude Bytes PathSpec Vfs VfsFile VfsMount Ipc.

Module BlockDev.
Import PathSpec Vfs VfsFile Devfs.

Definition FABRIC_BLOCKDEV_MAX : Z := 16.
Definition FABRIC_BLOCKDEV_F_READONLY : Z := 1.
(** [sizeof (fabric_blockdev_t)] *)
Definition BLOCKDEV_SIZE : Z := 56.

(** [bd_name] is [None] for NULL; [bd_ops], [bd_read_op] and [bd_write_op] say
    whether the pointers to the operations are there. *)
Record fabric_blockdev_t := mk_blockdev {
  bd_abi : Z;
  bd_hdr_size : Z;
  bd_name : option (list Z);
  bd_sector_size : Z;
  bd_sector_count : Z;
  bd_flags : Z;
  bd_ops : bool;
  bd_read_op : bool;
  bd_write_op : bool
}.

(** What a driver does with the sectors of the device at an address: the
    result, the bytes read, and the state of the hardware. *)
Record disk_ops (D : Type) := mk_disk_ops {
  read_sectors : Z → D → Z → Z → Z * list Z * D;
  write_sectors : Z → D → Z → Z → list Z → Z * D
}.
Arguments mk_disk_ops {D}. Arguments read_sectors {D}. Arguments write_sectors {D}.

Record block_state := mk_block_state {
  g_block_inited : bool;
  g_blockdevs : list Z;
  bd_store : gmap Z fabric_blockdev_t
}.
#[export] Instance block_eta : EtaRecord block_state :=
  λ b, mk_block_state (g_block_inited b) (g_blockdevs b) (bd_store b).

#[export] Instance blockdev_inhabited : Inhabited fabric_blockdev_t :=
  populate (mk_blockdev 0 0 None 0 0 0 false false false).

Definition bdev (b : block_state) (dev : Z) : fabric_blockdev_t := bd_store b !!! dev.

(** [published] is what the publication of the service returned. *)
Definition fabric_block_service_init (b : block_state) (published : Z) : Z * block_state :=
  if g_block_inited b then (RDNX_OK, b)
  else
    let b := b <| g_blockdevs := [] |> in
    if negb (published =? RDNX_OK) then (RDNX_E_GENERIC, b)
    else (RDNX_OK, b <| g_block_inited := true |>).

(** The device of the name, if one is registered: the first of the list. *)
Fixpoint find_name (b : block_state) (name : list Z) (l : list Z) : Z :=
  match l with
  | [] => 0
  | dev :: l => if negb (dev =? 0) && bool_decide (bd_name (bdev b dev) = Some name) then dev else find_name b name l
  end.

Definition fabric_blockdev_register (b : block_state) (v : devfs_state) (s : vfs_state) (nb : node_blocks) (dev : Z)
    : Z * block_state * vfs_state * devfs_state :=
  let x := bdev b dev in
  if negb (g_block_inited b) || (dev =? 0) || negb (bd_ops x) || negb (bd_read_op x) then (RDNX_E_INVALID, b, s, v)
  else
    match bd_name x with
    | None => (RDNX_E_INVALID, b, s, v)
    | Some name =>
        if negb (bd_abi x =? Ipc.RDNX_ABI_VERSION) || (bd_hdr_size x <? BLOCKDEV_SIZE)
           || (bd_sector_size x =? 0) || (bd_sector_count x =? 0) then (RDNX_E_INVALID, b, s, v)
        else if FABRIC_BLOCKDEV_MAX <=? Z.of_nat (length (g_blockdevs b)) then (RDNX_E_BUSY, b, s, v)
        else if negb (find_name b name (g_blockdevs b) =? 0) then (RDNX_E_BUSY, b, s, v)
        else
          let b := b <| g_blockdevs ::= λ l, l ++ [dev] |> in
          let '(_, s, v) := devfs_register_blockdev v s nb name in
          (RDNX_OK, b, s, v)
    end.

Definition fabric_blockdev_count (b : block_state) : Z := Z.of_nat (length (g_blockdevs b)).

Definition fabric_blockdev_get (b : block_state) (index : Z) : Z :=
  if index <? fabric_blockdev_count b then g_blockdevs b !!! Z.to_nat index else 0.

Definition fabric_blockdev_find (b : block_state) (name : list Z) : Z :=
  if bool_decide (name = []) then 0 else find_name b name (g_blockdevs b).

Section Access.
Context {D : Type} (ops : disk_ops D).

(** [out] is a buffer of the caller. *)
Definition fabric_blockdev_read (b : block_state) (d : D) (dev lba count : Z) : Z * list Z * D :=
  let x := bdev b dev in
  if (dev =? 0) || negb (bd_ops x) || negb (bd_read_op x) || (count =? 0) then (RDNX_E_INVALID, [], d)
  else if (bd_sector_count x <=? lba) || (bd_sector_count x - lba <? count) then (RDNX_E_INVALID, [], d)
  else read_sectors ops dev d lba count.

Definition fabric_blockdev_write (b : block_state) (d : D) (dev lba count : Z) (buf : list Z) : Z * D :=
  let x := bdev b dev in
  if (dev =? 0) || negb (bd_ops x) || (count =? 0) then (RDNX_E_INVALID, d)
  else if has_flag (bd_flags x) FABRIC_BLOCKDEV_F_READONLY then (RDNX_E_DENIED, d)
  else if negb (bd_write_op x) then (RDNX_E_UNSUPPORTED, d)
  else if (bd_sector_count x <=? lba) || (bd_sector_count x - lba <? count) then (RDNX_E_INVALID, d)
  else write_sectors ops dev d lba count buf.

(** The name, the sector size, the number of sectors and the flags. *)
Definition fabric_blockdev_get_info (b : block_state) (index : Z) : Z * option (list Z * Z * Z * Z) :=
  let dev := fabric_blockdev_get b index in
  match (if dev =? 0 then None else bd_name (bdev b dev)) with
  | None => (RDNX_E_NOTFOUND, None)
  | Some name =>
      (RDNX_OK, Some (take 15 name, bd_sector_size (bdev b dev), bd_sector_count (bdev b dev), bd_flags (bdev b dev)))
  end.

(** ** What a driver promises

    [disk dev d] are the bytes of the device [dev] in the state [d].  A
    transfer that fails leaves the other sectors as they are. *)
Class DiskDriver (ss : Z) (disk : Z → D → Z → Z) : Prop := {
  dd_read : ∀ dev d lba n rc buf d', read_sectors ops dev d lba n = (rc, buf, d') →
    (∀ a, disk dev d' a = disk dev d a) ∧ (rc = RDNX_OK → buf = area (disk dev d) (lba * ss) (n * ss));
  dd_write : ∀ dev d lba n buf rc d', write_sectors ops dev d lba n buf = (rc, d') →
    (∀ a, ¬ (lba * ss ≤ a < (lba + n) * ss) → disk dev d' a = disk dev d a) ∧
    (rc = RDNX_OK → Z.of_nat (length buf) = n * ss → ∀ a, disk dev d' a = store_at (lba * ss) buf (disk dev d) a)
}.

(** A disk without errors. *)
Class ReliableDisk : Prop := {
  rd_read : ∀ dev d lba n, (read_sectors ops dev d lba n).1.1 = RDNX_OK;
  rd_write : ∀ dev d lba n buf, (write_sectors ops dev d lba n buf).1 = RDNX_OK
}.

(** ** Registered devices *)

(** The registered devices are distinct and have different names. *)
Definition block_inv (b : block_state) : Prop :=
  Z.of_nat (length (g_blockdevs b)) ≤ FABRIC_BLOCKDEV_MAX ∧ NoDup (g_blockdevs b) ∧
  (∀ dev, dev ∈ g_blockdevs b → dev ≠ 0 ∧ 0 < bd_sector_count (bdev b dev) ∧ is_Some (bd_name (bdev b dev))) ∧
  NoDup ((λ dev, bd_name (bdev b dev)) <$> g_blockdevs b).

Lemma find_name_spec b name l :
  (∀ dev, dev ∈ l → dev ≠ 0) → NoDup ((λ dev, bd_name (bdev b dev)) <$> l) →
  ∀ dev, find_name b name l = dev →
    if decide (dev = 0) then ∀ x, x ∈ l → bd_name (bdev b x) ≠ Some name
    else dev ∈ l ∧ bd_name (bdev b dev) = Some name.
Proof.
  induction l as [|x l IH]; intros Hz Hnd dev; simpl.
  { intros <-. rewrite decide_True by done. intros x Hx. by apply not_elem_of_nil in Hx. }
  apply NoDup_cons in Hnd as [Hx Hnd]. rewrite (proj2 (Z.eqb_neq x 0)) by (apply Hz; left). simpl.
  case_bool_decide as Hn.
  - intros <-. rewrite decide_False by (apply Hz; left). split; [left|done].
  - intros Hd. specialize (IH ltac:(intros; apply Hz; by right) Hnd dev Hd). case_decide.
    + intros y [->|Hy]%elem_of_cons; [done|auto].
    + destruct IH. split; [by right|done].
Qed.

Lemma find_name_app b name l k :
  find_name b name (l ++ k) = if find_name b name l =? 0 then find_name b name k else find_name b name l.
Proof.
  induction l as [|x l IH]; simpl; [done|]. case_if; [|done]. bool_hyps. by rewrite (proj2 (Z.eqb_neq x 0)).
Qed.

(** The devices stay distinct with names of their own; a registered device is
    found by its name from then on, and the others are still found. *)
Theorem fabric_blockdev_register_correct b v s nb dev rc b' s' v' :
  block_inv b → 0 ≤ bd_sector_count (bdev b dev) →
  fabric_blockdev_register b v s nb dev = (rc, b', s', v') →
  block_inv b' ∧
  (rc = RDNX_OK → ∃ name, bd_name (bdev b dev) = Some name ∧ (name ≠ [] → fabric_blockdev_find b' name = dev) ∧
     g_blockdevs b' = g_blockdevs b ++ [dev]) ∧
  (rc ≠ RDNX_OK → b' = b) ∧
  (∀ other, fabric_blockdev_find b other ≠ 0 → fabric_blockdev_find b' other = fabric_blockdev_find b other).
Proof.
  intros (Hlen & Hnd & Hall & Hnames) Hc. unfold fabric_blockdev_register.
  assert (block_inv b) as I by done. assert (∀ rc0, rc0 ≠ RDNX_OK → (rc0, b, s, v) = (rc, b', s', v') →
    block_inv b' ∧ (rc = RDNX_OK → ∃ name, bd_name (bdev b dev) = Some name ∧ (name ≠ [] → fabric_blockdev_find b' name = dev) ∧
      g_blockdevs b' = g_blockdevs b ++ [dev]) ∧ (rc ≠ RDNX_OK → b' = b) ∧
    (∀ other, fabric_blockdev_find b other ≠ 0 → fabric_blockdev_find b' other = fabric_blockdev_find b other)) as Hfail.
  { intros rc0 Hrc [= <- <- <- <-]. by split_and!. }
  case_if; [by apply Hfail|]. destruct (bd_name (bdev b dev)) as [name|] eqn:Hname; [|by apply Hfail].
  do 3 (case_if; [by apply Hfail|]). bool_hyps. destruct (devfs_register_blockdev v s nb name) as [[r s1] v1].
  intros [= <- <- <- <-]. pose proof (find_name_spec b name (g_blockdevs b) (λ x Hx, proj1 (Hall x Hx)) Hnames 0) as Hno.
  rewrite decide_True in Hno by done. specialize (Hno ltac:(done)).
  set (b1 := b <| g_blockdevs ::= λ l, l ++ [dev] |>). assert (∀ nm l, find_name b1 nm l = find_name b nm l) as Ef.
  { intros nm l. induction l as [|x l IH]; [done|]. simpl. by rewrite IH. }
  split; [|split; [|split; [done|]]].
  - split_and!; simpl.
    + rewrite length_app. simpl. lia.
    + apply NoDup_app. split; [done|]. split; [|apply NoDup_singleton]. intros x Hx ->%list_elem_of_singleton.
      by apply (Hno dev Hx).
    + intros x [Hx| ->%list_elem_of_singleton]%elem_of_app; [by apply Hall|]. change (bdev b1 dev) with (bdev b dev).
      rewrite Hname. split; [done|]. split; [lia|by eexists].
    + rewrite fmap_app. apply NoDup_app. split; [done|]. split; [|apply NoDup_singleton].
      intros x Hx%list_elem_of_fmap ->%list_elem_of_singleton. destruct Hx as (y & Hy & Hin).
      change (bdev b1) with (bdev b) in Hy. apply (Hno y Hin). congruence.
  - intros _. exists name. split; [done|]. split; [|done]. intros Hne. unfold fabric_blockdev_find.
    rewrite bool_decide_false by done. simpl. rewrite Ef, find_name_app. rewrite (proj2 (Z.eqb_eq _ _)) by done. simpl.
    rewrite (proj2 (Z.eqb_neq dev 0)), bool_decide_true by done. done.
  - intros other. unfold fabric_blockdev_find. case_bool_decide; [done|]. simpl. rewrite Ef, find_name_app. intros Hf.
    by rewrite (proj2 (Z.eqb_neq _ _)).
Qed.

End Access.

End BlockDev.
