(* ===== verification/Ext2.v ===== *)
(** * The ext2 file system (kernel/fs/ext2.c)

    The structures of the disk are packed: superblock, group descriptors and
    inodes are the lists of their bytes, and a field is read and written at its
    offset.  The functions run in a monad over the mount context, the state of
    the disk, the inode that the caller passes by reference, and, while a file
    system is mounted, the VFS.  A function that fails has the error code of
    the source and the state it leaves; an access outside of an array, or a
    shift by more than the width, is [Undefined].

    A [kmalloc] of a nonzero size returns a block or stops the kernel
    ([HeapProofs.kmalloc_correct]), so a null result of one is left out.  The
    block size of a mount is never 0; the group descriptors of size 0 are the
    empty list, which stands for NULL. *)

From stdpp Require Import base gmap list numbers fin_maps.
From S2P Require Import Prelude Bytes PathSpec Vfs VfsFile BlockDev.

Module Ext2.
Import PathSpec Vfs VfsFile BlockDev.

Definition EXT2_MAGIC : Z := 61267.
Definition EXT2_ROOT_INO : Z := 2.
Definition EXT2_S_IFDIR : Z := 16384.
Definition EXT2_S_IFREG : Z := 32768.
Definition EXT2_NDIR_BLOCKS : Z := 12.
Definition EXT2_MAX_BLOCK_SIZE : Z := 4096.
Definition EXT2_MAX_INODE_SIZE : Z := 512.
Definition EXT2_MAX_TREE_DEPTH : nat := 4.
Definition EXT2_MAX_TREE_NODES : Z := 2048.
Definition EXT2_MAX_FILE_BYTES : Z := 67108864.
Definition EXT2_FEATURE_INCOMPAT_SUPP : Z := 2.

(** ** Structures of the disk *)
Abbreviation ext2_superblock_t := (list Z).
Abbreviation ext2_group_desc_t := (list Z).
Abbreviation ext2_inode_t := (list Z).

Definition SUPERBLOCK_SIZE : Z := 104.
Definition GROUP_DESC_SIZE : Z := 32.
Definition INODE_STRUCT_SIZE : Z := 128.
Definition DIRENT_HDR_SIZE : Z := 8.

Definition blocks_count (sb : ext2_superblock_t) : Z := get32 4 sb.
Definition sb_free_blocks (sb : ext2_superblock_t) : Z := get32 12 sb.
Definition first_data_block (sb : ext2_superblock_t) : Z := get32 20 sb.
Definition log_block_size (sb : ext2_superblock_t) : Z := get32 24 sb.
Definition blocks_per_group (sb : ext2_superblock_t) : Z := get32 32 sb.
Definition inodes_per_group (sb : ext2_superblock_t) : Z := get32 40 sb.
Definition sb_magic (sb : ext2_superblock_t) : Z := get16 56 sb.
Definition rev_level (sb : ext2_superblock_t) : Z := get32 76 sb.
Definition sb_inode_size (sb : ext2_superblock_t) : Z := get16 88 sb.
Definition feature_incompat (sb : ext2_superblock_t) : Z := get32 96 sb.
Definition set_sb_free_blocks (v : Z) (sb : ext2_superblock_t) : ext2_superblock_t := put32 12 v sb.

Definition block_bitmap (gd : ext2_group_desc_t) : Z := get32 0 gd.
Definition inode_table (gd : ext2_group_desc_t) : Z := get32 8 gd.
Definition gd_free_blocks (gd : ext2_group_desc_t) : Z := get16 12 gd.
Definition set_gd_free_blocks (v : Z) (gd : ext2_group_desc_t) : ext2_group_desc_t := put16 12 v gd.

Definition i_mode (ino : ext2_inode_t) : Z := get16 0 ino.
Definition size_lo (ino : ext2_inode_t) : Z := get32 4 ino.
Definition i_blocks (ino : ext2_inode_t) : Z := get32 28 ino.
Definition i_block (ino : ext2_inode_t) (k : Z) : Z := get32 (40 + 4 * k) ino.
Definition size_high (ino : ext2_inode_t) : Z := get32 108 ino.
Definition set_i_blocks (v : Z) (ino : ext2_inode_t) : ext2_inode_t := put32 28 v ino.
Definition set_i_block (k v : Z) (ino : ext2_inode_t) : ext2_inode_t := put32 (40 + 4 * k) v ino.
Definition set_ino_size (v : Z) (ino : ext2_inode_t) : ext2_inode_t :=
  put32 108 (u32 (v / 4294967296)) (put32 4 (u32 v) ino).

Definition ext2_inode_size_bytes (ino : ext2_inode_t) : Z :=
  let sz := size_lo ino + 4294967296 * size_high ino in
  if 1099511627776 <? sz then size_lo ino else sz.

Definition ext2_is_dir (ino : ext2_inode_t) : bool := Z.land (i_mode ino) 61440 =? EXT2_S_IFDIR.
Definition ext2_is_reg (ino : ext2_inode_t) : bool := Z.land (i_mode ino) 61440 =? EXT2_S_IFREG.

(** The entry [k] of a table of block numbers. *)
Definition table_get (k : Z) (table : list Z) : Z := get32 (4 * k) table.
Definition table_set (k v : Z) (table : list Z) : list Z := put32 (4 * k) v table.

(** ** State *)
Record ext2_mount_ctx_t := mk_ctx {
  c_bdev : Z;
  c_sb : ext2_superblock_t;
  c_gdt : list ext2_group_desc_t;
  c_group_count : Z;
  c_block_size : Z;
  c_inode_size : Z;
  c_sector_size : Z;
  c_node_budget : Z
}.
#[export] Instance ctx_eta : EtaRecord ext2_mount_ctx_t :=
  λ c, mk_ctx (c_bdev c) (c_sb c) (c_gdt c) (c_group_count c) (c_block_size c) (c_inode_size c)
         (c_sector_size c) (c_node_budget c).

(** [e_ino] and [e_dirty] are the inode and the flag that the caller passes by
    reference; [e_next] counts the nodes that were asked for. *)
Record e2state (D : Type) := mk_e2 {
  e_ctx : ext2_mount_ctx_t;
  e_dev : D;
  e_ino : ext2_inode_t;
  e_dirty : bool;
  e_vfs : vfs_state;
  e_next : nat
}.
Arguments mk_e2 {D}. Arguments e_ctx {D}. Arguments e_dev {D}. Arguments e_ino {D}.
Arguments e_dirty {D}. Arguments e_vfs {D}. Arguments e_next {D}.
#[export] Instance e2_eta D : EtaRecord (e2state D) :=
  λ s, mk_e2 (e_ctx s) (e_dev s) (e_ino s) (e_dirty s) (e_vfs s) (e_next s).

(** [Diverges] is a loop that used up its fuel. *)
Inductive failure := Err (rc : Z) | Undefined | Diverges.

Definition E (D A : Type) : Type := e2state D → (failure + A) * e2state D.

#[export] Instance E_ret D : MRet (E D) := λ A a s, (inr a, s).
#[export] Instance E_bind D : MBind (E D) := λ A B k m s,
  match m s with
  | (inl e, s) => (inl e, s)
  | (inr a, s) => k a s
  end.

Definition throw {D A} (e : failure) : E D A := λ s, (inl e, s).
Definition err {D A} (rc : Z) : E D A := throw (Err rc).
Definition asks {D A} (f : e2state D → A) : E D A := λ s, (inr (f s), s).
Definition modify {D} (f : e2state D → e2state D) : E D unit := λ s, (inr tt, f s).
(** A call whose result code is looked at. *)
Definition attempt {D A} (m : E D A) : E D (Z + A) := λ s,
  match m s with
  | (inl (Err rc), s) => (inr (inl rc), s)
  | (inl e, s) => (inl e, s)
  | (inr a, s) => (inr (inr a), s)
  end.
(** A call whose result code is dropped. *)
Definition ignore {D A} (m : E D A) : E D unit := attempt m ;; mret tt.
(** The element of an array. *)
Definition at_index {D A} (l : list A) (k : Z) : E D A :=
  match (if k <? 0 then None else l !! Z.to_nat k) with
  | Some x => mret x
  | None => throw Undefined
  end.
Fixpoint foldE {D A} (f : A → Z → E D A) (a : A) (l : list Z) : E D A :=
  match l with
  | [] => mret a
  | k :: l => a ← f a k; foldE f a l
  end.

Definition no_gdt (c : ext2_mount_ctx_t) : bool := bool_decide (c_gdt c = []).

Section Ext2.
Context {D : Type} (ops : disk_ops D) (bs : block_state).

Definition ctx : E D ext2_mount_ctx_t := asks e_ctx.
Definition set_ctx (f : ext2_mount_ctx_t → ext2_mount_ctx_t) : E D unit := modify (λ s, s <| e_ctx ::= f |>).
Definition set_ino (f : ext2_inode_t → ext2_inode_t) : E D unit := modify (λ s, s <| e_ino ::= f |>).

(** ** Bytes *)
Definition read_sector (dev sec : Z) : E D (list Z) := λ s,
  let '(rc, buf, d) := fabric_blockdev_read ops bs (e_dev s) dev sec 1 in
  let s := s <| e_dev := d |> in
  if rc =? RDNX_OK then (inr buf, s) else (inl (Err rc), s).
Definition write_sector (dev sec : Z) (buf : list Z) : E D unit := λ s,
  let '(rc, d) := fabric_blockdev_write ops bs (e_dev s) dev sec 1 buf in
  let s := s <| e_dev := d |> in
  if rc =? RDNX_OK then (inr tt, s) else (inl (Err rc), s).

(** Every round moves at least one byte, so that [left] is enough fuel. *)
Fixpoint read_loop (fuel : nat) (dev ss cur left : Z) : E D (list Z) :=
  if left <=? 0 then mret []
  else
    match fuel with
    | O => throw Diverges
    | S fuel =>
        let sec_off := cur mod ss in
        let chunk := Z.min (ss - sec_off) left in
        secbuf ← read_sector dev (cur / ss);
        rest ← read_loop fuel dev ss (cur +₆₄ chunk) (left - chunk);
        mret (bslice sec_off chunk secbuf ++ rest)
    end.

Definition ext2_read_bytes (offset len : Z) : E D (list Z) :=
  c ← ctx;
  if (c_bdev c =? 0) || (len =? 0) || (c_sector_size c =? 0) then err RDNX_E_INVALID
  else if 512 <? c_sector_size c then err RDNX_E_UNSUPPORTED
  else read_loop (Z.to_nat len) (c_bdev c) (c_sector_size c) offset len.

(** A sector that is written in part is read first. *)
Fixpoint write_loop (fuel : nat) (dev ss cur : Z) (src : list Z) : E D unit :=
  if bool_decide (src = []) then mret tt
  else
    match fuel with
    | O => throw Diverges
    | S fuel =>
        let sec_off := cur mod ss in
        let chunk := Z.min (ss - sec_off) (Z.of_nat (length src)) in
        secbuf ← (if negb (chunk =? ss) then read_sector dev (cur / ss) else mret (zeros ss));
        write_sector dev (cur / ss) (bput sec_off (take (Z.to_nat chunk) src) secbuf) ;;
        write_loop fuel dev ss (cur +₆₄ chunk) (drop (Z.to_nat chunk) src)
    end.

Definition ext2_write_bytes (offset : Z) (buf : list Z) : E D unit :=
  c ← ctx;
  if (c_bdev c =? 0) || bool_decide (buf = []) || (c_sector_size c =? 0) then err RDNX_E_INVALID
  else if 512 <? c_sector_size c then err RDNX_E_UNSUPPORTED
  else write_loop (length buf) (c_bdev c) (c_sector_size c) offset buf.

Definition ext2_read_block (block_no : Z) : E D (list Z) :=
  c ← ctx;
  if c_block_size c =? 0 then err RDNX_E_INVALID
  else ext2_read_bytes (block_no * c_block_size c) (c_block_size c).

Definition ext2_write_block (block_no : Z) (buf : list Z) : E D unit :=
  c ← ctx;
  if c_block_size c =? 0 then err RDNX_E_INVALID
  else ext2_write_bytes (block_no * c_block_size c) buf.

Definition gdt_offset (c : ext2_mount_ctx_t) : Z := u32 (first_data_block (c_sb c) + 1) * c_block_size c.

(** [gdt_size] bytes of the array are written. *)
Definition ext2_sync_super_and_gdt : E D unit :=
  c ← ctx;
  if no_gdt c || (c_group_count c =? 0) then err RDNX_E_INVALID
  else
    ext2_write_bytes 1024 (c_sb c) ;;
    ext2_write_bytes (gdt_offset c) (take (Z.to_nat (u32 (c_group_count c * GROUP_DESC_SIZE))) (concat (c_gdt c))).

(** ** Inodes *)

(** The place of an inode on the disk. *)
Definition inode_offset (c : ext2_mount_ctx_t) (ino_num : Z) : E D Z :=
  if no_gdt c || (ino_num =? 0) || (c_inode_size c =? 0) then err RDNX_E_INVALID
  else if inodes_per_group (c_sb c) =? 0 then throw Undefined
  else
    let group := (ino_num - 1) / inodes_per_group (c_sb c) in
    let index := (ino_num - 1) mod inodes_per_group (c_sb c) in
    if c_group_count c <=? group then err RDNX_E_INVALID
    else
      gd ← at_index (c_gdt c) group;
      if inode_table gd =? 0 then err RDNX_E_INVALID
      else if EXT2_MAX_INODE_SIZE <? c_inode_size c then err RDNX_E_UNSUPPORTED
      else mret (inode_table gd * c_block_size c + index * c_inode_size c).

Definition ext2_read_inode (ino_num : Z) : E D ext2_inode_t :=
  c ← ctx;
  off ← inode_offset c ino_num;
  raw ← ext2_read_bytes off (c_inode_size c);
  mret (bput 0 (take (Z.to_nat INODE_STRUCT_SIZE) raw) (zeros INODE_STRUCT_SIZE)).

Definition ext2_write_inode (ino_num : Z) (ino : ext2_inode_t) : E D unit :=
  c ← ctx;
  off ← inode_offset c ino_num;
  raw ← ext2_read_bytes off (c_inode_size c);
  ext2_write_bytes off (bput 0 (take (Z.to_nat (Z.min (c_inode_size c) INODE_STRUCT_SIZE)) ino) raw).

(** ** Blocks *)
Definition bit_of (bmap : list Z) (bi : Z) : E D bool :=
  b ← at_index bmap (Z.shiftr bi 3);
  mret (has_flag b (Z.shiftl 1 (Z.land bi 7))).
Definition set_bit (bmap : list Z) (bi : Z) : list Z :=
  alter (λ b, Z.lor b (Z.shiftl 1 (Z.land bi 7))) (Z.to_nat (Z.shiftr bi 3)) bmap.
Definition clear_bit (bmap : list Z) (bi : Z) : list Z :=
  alter (λ b, Z.land b (Z.lnot (Z.shiftl 1 (Z.land bi 7)))) (Z.to_nat (Z.shiftr bi 3)) bmap.

(** The first bit from [bi] on, of [n], that is clear. *)
Fixpoint find_clear (n : nat) (bmap : list Z) (bi : Z) : E D (option Z) :=
  match n with
  | O => mret None
  | S n =>
      used ← bit_of bmap bi;
      if negb used then mret (Some bi) else find_clear n bmap (bi + 1)
  end.

Definition set_gd (g : Z) (f : ext2_group_desc_t → ext2_group_desc_t) (c : ext2_mount_ctx_t) : ext2_mount_ctx_t :=
  c <| c_gdt ::= alter f (Z.to_nat g) |>.

(** The bitmap of the group is written, then the counters of free blocks are
    changed and written. *)
Definition put_bitmap (g bitmap : Z) (bmap : list Z) (fgd : ext2_group_desc_t → ext2_group_desc_t)
    (fsb : ext2_superblock_t → ext2_superblock_t) : E D unit :=
  ext2_write_block bitmap bmap ;;
  set_ctx (set_gd g fgd) ;;
  set_ctx (λ c, c <| c_sb ::= fsb |>) ;;
  ext2_sync_super_and_gdt.

(** The block at bit [bi] of the group is taken. *)
Definition take_block (g gbase bi : Z) (gd : ext2_group_desc_t) (bmap : list Z) : E D Z :=
  put_bitmap g (block_bitmap gd) (set_bit bmap bi)
    (λ gd, if 0 <? gd_free_blocks gd then set_gd_free_blocks (gd_free_blocks gd - 1) gd else gd)
    (λ sb, if 0 <? sb_free_blocks sb then set_sb_free_blocks (sb_free_blocks sb - 1) sb else sb) ;;
  c ← ctx;
  mret (u32 (first_data_block (c_sb c) + gbase + bi)).

Fixpoint alloc_groups (total : Z) (gs : list Z) : E D Z :=
  match gs with
  | [] => err RDNX_E_GENERIC
  | g :: gs =>
      c ← ctx;
      gd ← at_index (c_gdt c) g;
      let gbase := u32 (g * blocks_per_group (c_sb c)) in
      if (gd_free_blocks gd =? 0) || (block_bitmap gd =? 0) then alloc_groups total gs
      else if total <=? gbase then alloc_groups total gs
      else
        bmap ← ext2_read_block (block_bitmap gd);
        o ← find_clear (Z.to_nat (Z.min (total - gbase) (blocks_per_group (c_sb c)))) bmap 0;
        match o with
        | None => alloc_groups total gs
        | Some bi => take_block g gbase bi gd bmap
        end
  end.

Definition ext2_alloc_block : E D Z :=
  c ← ctx;
  if no_gdt c || (c_block_size c =? 0) then err RDNX_E_INVALID
  else if sb_free_blocks (c_sb c) =? 0 then err RDNX_E_GENERIC
  else alloc_groups (blocks_count (c_sb c) -₃₂ first_data_block (c_sb c)) (seqZ 0 (c_group_count c)).

Definition ext2_free_block (blk : Z) : E D unit :=
  c ← ctx;
  let sb := c_sb c in
  if no_gdt c || (c_block_size c =? 0) then err RDNX_E_INVALID
  else if (blk <? first_data_block sb) || (blocks_count sb <=? blk) then err RDNX_E_INVALID
  else
    let rel := blk - first_data_block sb in
    if (blocks_count sb -₃₂ first_data_block sb <=? rel) || (blocks_per_group sb =? 0) then err RDNX_E_INVALID
    else
      let g := rel / blocks_per_group sb in
      let bi := rel mod blocks_per_group sb in
      if c_group_count c <=? g then err RDNX_E_INVALID
      else
        gd ← at_index (c_gdt c) g;
        if block_bitmap gd =? 0 then err RDNX_E_INVALID
        else
          bmap ← ext2_read_block (block_bitmap gd);
          used ← bit_of bmap bi;
          if negb used then mret tt
          else
            put_bitmap g (block_bitmap gd) (clear_bit bmap bi)
              (λ gd, if negb (gd_free_blocks gd =? 65535) then set_gd_free_blocks (gd_free_blocks gd + 1) gd else gd)
              (λ sb, if negb (sb_free_blocks sb =? 4294967295) then set_sb_free_blocks (sb_free_blocks sb + 1) sb else sb).

Definition ext2_zero_block (block_no : Z) : E D unit :=
  c ← ctx;
  if block_no =? 0 then err RDNX_E_INVALID
  else ext2_write_block block_no (zeros (c_block_size c)).

(** ** The blocks of a file *)
Definition ext2_inode_get_block (ino : ext2_inode_t) (lbn : Z) : E D Z :=
  c ← ctx;
  let per_block := c_block_size c / 4 in
  let idx := lbn - EXT2_NDIR_BLOCKS in
  if lbn <? EXT2_NDIR_BLOCKS then mret (i_block ino lbn)
  else if idx <? per_block then
    if i_block ino 12 =? 0 then mret 0
    else
      ibuf ← ext2_read_block (i_block ino 12);
      mret (table_get idx ibuf)
  else
    let idx := idx - per_block in
    if idx <? per_block * per_block then
      if i_block ino 13 =? 0 then mret 0
      else
        ibuf ← ext2_read_block (i_block ino 13);
        let di_blk := table_get (idx / per_block) ibuf in
        if di_blk =? 0 then mret 0
        else
          ibuf ← ext2_read_block di_blk;
          mret (table_get (idx mod per_block) ibuf)
    else err RDNX_E_UNSUPPORTED.

(** A new block full of zeroes. *)
Definition new_block : E D Z :=
  blk ← ext2_alloc_block;
  ext2_zero_block blk ;;
  mret blk.

(** [ino->blocks += sectors_per_block;], and the inode is written. *)
Definition count_block (ino_num : Z) : E D unit :=
  c ← ctx;
  set_ino (λ ino, set_i_blocks (i_blocks ino +₃₂ c_block_size c / 512) ino) ;;
  modify (λ s, s <| e_dirty := true |>) ;;
  ino ← asks e_ino;
  ext2_write_inode ino_num ino.

(** The block number in slot [k] of the inode, which gets a block if it has
    none and [alloc] is set. *)
Definition inode_slot (ino_num : Z) (alloc : bool) (k : Z) : E D Z :=
  ino ← asks e_ino;
  if (i_block ino k =? 0) && alloc then
    blk ← new_block;
    set_ino (set_i_block k blk) ;;
    count_block ino_num ;;
    mret blk
  else mret (i_block ino k).

(** The block number in entry [k] of the table in block [tbl]. *)
Definition table_slot (ino_num : Z) (alloc : bool) (tbl k : Z) : E D Z :=
  ibuf ← ext2_read_block tbl;
  if (table_get k ibuf =? 0) && alloc then
    blk ← new_block;
    ext2_write_block tbl (table_set k blk ibuf) ;;
    count_block ino_num ;;
    mret blk
  else mret (table_get k ibuf).

Definition ext2_inode_get_or_alloc_block (ino_num lbn : Z) (alloc : bool) : E D Z :=
  c ← ctx;
  if c_block_size c / 512 =? 0 then err RDNX_E_UNSUPPORTED
  else if lbn <? EXT2_NDIR_BLOCKS then inode_slot ino_num alloc lbn
  else
    let per_block := c_block_size c / 4 in
    let idx := lbn - EXT2_NDIR_BLOCKS in
    if idx <? per_block then
      ind ← inode_slot ino_num alloc 12;
      if ind =? 0 then mret 0 else table_slot ino_num alloc ind idx
    else
      let idx2 := idx - per_block in
      if per_block * per_block <=? idx2 then err RDNX_E_UNSUPPORTED
      else
        dind ← inode_slot ino_num alloc 13;
        if dind =? 0 then mret 0
        else
          si ← table_slot ino_num alloc dind (idx2 / per_block);
          if si =? 0 then mret 0 else table_slot ino_num alloc si (idx2 mod per_block).

(** The number of blocks that a table and its entries take. *)
Definition used_entries (per_block : Z) (table : list Z) : list Z :=
  filter (λ b, b ≠ 0) ((λ k, table_get k table) <$> seqZ 0 per_block).

Definition ext2_count_allocated_blocks (ino : ext2_inode_t) : E D Z :=
  c ← ctx;
  let per_block := c_block_size c / 4 in
  let direct := Z.of_nat (length (filter (λ b, b ≠ 0) (i_block ino <$> seqZ 0 EXT2_NDIR_BLOCKS))) in
  single ← (if i_block ino 12 =? 0 then mret 0
            else
              r ← attempt (ext2_read_block (i_block ino 12));
              mret (match r with
                    | inr ibuf => 1 + Z.of_nat (length (used_entries per_block ibuf))
                    | inl _ => 1
                    end));
  double ← (if i_block ino 13 =? 0 then mret 0
            else
              r ← attempt (ext2_read_block (i_block ino 13));
              match r with
              | inl _ => mret 1
              | inr di =>
                  foldE (λ n si,
                    r ← attempt (ext2_read_block si);
                    mret (match r with
                          | inr sibuf => n + 1 + Z.of_nat (length (used_entries per_block sibuf))
                          | inl _ => n + 1
                          end)) 1 (used_entries per_block di)
              end);
  mret (u32 (direct + single + double)).

(** *** Giving blocks back *)

(** The entries [k] of a table that are not kept are freed, in the order of
    [ks]; the table and whether it changed. *)
Definition trim_table (keep : Z) (ks : list Z) (table : list Z) : E D (list Z * bool) :=
  foldE (λ '(table, dirty) k,
    if k <? keep then mret (table, dirty)
    else
      let blk := table_get k table in
      if blk =? 0 then mret (table, dirty)
      else
        ext2_free_block blk ;;
        mret (table_set k 0 table, true)) (table, false) ks.

Definition trim_direct (keep : Z) : E D unit :=
  foldE (λ _ k,
    ino ← asks e_ino;
    if k <? keep then mret tt
    else if i_block ino k =? 0 then mret tt
    else
      ext2_free_block (i_block ino k) ;;
      set_ino (set_i_block k 0)) tt (reverse (seqZ 0 EXT2_NDIR_BLOCKS)).

(** The end of the two parts: a table without entries is freed, one that
    changed is written. *)
Definition finish_table (k per_block : Z) (table : list Z) (dirty : bool) : E D unit :=
  ino ← asks e_ino;
  if bool_decide (used_entries per_block table = []) then
    set_ino (set_i_block k 0) ;;
    ext2_free_block (i_block ino k)
  else if dirty then ext2_write_block (i_block ino k) table else mret tt.

Definition trim_single (per_block target : Z) : E D unit :=
  ino ← asks e_ino;
  if i_block ino 12 =? 0 then mret tt
  else
    ibuf ← ext2_read_block (i_block ino 12);
    let keep := if EXT2_NDIR_BLOCKS <? target then Z.min (target - EXT2_NDIR_BLOCKS) per_block else 0 in
    r ← trim_table keep (reverse (seqZ 0 per_block)) ibuf;
    finish_table 12 per_block r.1 r.2.

(** One entry of the table of tables. *)
Definition trim_sub (per_block keep : Z) (acc : list Z * bool) (di : Z) : E D (list Z * bool) :=
  let si_blk := table_get di acc.1 in
  let di_base := di * per_block in
  if si_blk =? 0 then mret acc
  else if keep <=? di_base then
    r ← attempt (ext2_read_block si_blk);
    match r with
    | inl _ => mret tt
    | inr sibuf => trim_table 0 (seqZ 0 per_block) sibuf ;; mret tt
    end ;;
    ext2_free_block si_blk ;;
    mret (table_set di 0 acc.1, true)
  else if keep <? di_base + per_block then
    sibuf ← ext2_read_block si_blk;
    r ← trim_table (keep - di_base) (reverse (seqZ 0 per_block)) sibuf;
    (if (r.2 : bool) then ext2_write_block si_blk r.1 else mret tt) ;;
    mret acc
  else mret acc.

Definition trim_double (per_block target : Z) : E D unit :=
  ino ← asks e_ino;
  if i_block ino 13 =? 0 then mret tt
  else
    let keep := if EXT2_NDIR_BLOCKS + per_block <? target then target - EXT2_NDIR_BLOCKS - per_block else 0 in
    di ← ext2_read_block (i_block ino 13);
    r ← foldE (trim_sub per_block keep) (di, false) (reverse (seqZ 0 per_block));
    finish_table 13 per_block r.1 r.2.

Definition ext2_trim_inode_blocks (ino_num target : Z) : E D unit :=
  c ← ctx;
  let per_block := c_block_size c / 4 in
  trim_direct (if target <? EXT2_NDIR_BLOCKS then target else EXT2_NDIR_BLOCKS) ;;
  trim_single per_block target ;;
  trim_double per_block target ;;
  ino ← asks e_ino;
  n ← ext2_count_allocated_blocks ino;
  set_ino (set_i_blocks (u32 (n * (c_block_size c / 512)))) ;;
  ino ← asks e_ino;
  ext2_write_inode ino_num ino.

(** ** Mounting

    What [kmalloc] returns for the nodes and for the data of the files; the
    index counts the nodes. *)
Record mount_blocks := mk_mount_blocks {
  mb_node : nat → node_blocks;
  mb_data : nat → data_block
}.

Section Mount.
Context (mb : mount_blocks).

Definition set_vfs (f : vfs_state → vfs_state) : E D unit := modify (λ s, s <| e_vfs ::= f |>).

Definition ext2_mark_node (node ino_num : Z) : E D unit :=
  set_vfs (λ v, if node =? 0 then v
                else inode_upd node (λ i, i <| i_fs_tag := VFS_FS_TAG_EXT2 |> <| i_fs_ino := ino_num |>) v).

(** The content of a block of the file; a block that is not there reads as
    zeroes. *)
Definition load_block (ino : ext2_inode_t) (lbn : Z) : E D (list Z) :=
  c ← ctx;
  pblk ← ext2_inode_get_block ino lbn;
  if pblk =? 0 then mret (zeros (c_block_size c)) else ext2_read_block pblk.

Fixpoint load_loop (fuel : nat) (ino : ext2_inode_t) (fsize done lbn : Z) : E D (list Z) :=
  if fsize <=? done then mret []
  else
    match fuel with
    | O => throw Diverges
    | S fuel =>
        c ← ctx;
        blk ← load_block ino lbn;
        let chunk := Z.min (c_block_size c) (fsize - done) in
        rest ← load_loop fuel ino fsize (done + chunk) (lbn + 1);
        mret (take (Z.to_nat chunk) blk ++ rest)
    end.

(** [vfs_fs_set_file_data] with a block for the data of the newest node, and
    the mark of the file system. *)
Definition set_data (node ino_num : Z) (data : option (list Z)) (size : Z) : E D unit :=
  v ← asks e_vfs;
  k ← asks e_next;
  match vfs_fs_set_file_data v node data size (mb_data mb k) with
  | None => throw Diverges
  | Some (rc, v) =>
      set_vfs (λ _, v) ;;
      if rc =? RDNX_OK then ext2_mark_node node ino_num else err rc
  end.

Definition ext2_load_file (ino_num : Z) (ino : ext2_inode_t) (node : Z) : E D unit :=
  c ← ctx;
  let fsize := Z.min (Z.min (ext2_inode_size_bytes ino) 4294967295) EXT2_MAX_FILE_BYTES in
  if node =? 0 then err RDNX_E_INVALID
  else if fsize =? 0 then set_data node ino_num None 0
  else
    data ← load_loop (Z.to_nat (fsize / c_block_size c + 1)) ino fsize 0 0;
    set_data node ino_num (Some data) fsize.

(** *** Directories *)
Definition DOT : Z := 46.

Definition de_inode (blk : list Z) (pos : Z) : Z := get32 pos blk.
Definition de_rec_len (blk : list Z) (pos : Z) : Z := get16 (pos + 4) blk.
Definition de_name_len (blk : list Z) (pos : Z) : Z := blk !!! Z.to_nat (pos + 6).

(** The bytes of the name that fit into [char name[32]]. *)
Definition de_name (blk : list Z) (pos : Z) : list Z :=
  bslice (pos + DIRENT_HDR_SIZE) (Z.min (de_name_len blk pos) 31) blk.

(** The entry is in use and its name, by an 8-bit length, is inside of it. *)
Definition de_named (blk : list Z) (pos : Z) : bool :=
  negb (de_inode blk pos =? 0) && (0 <? de_name_len blk pos)
  && (de_name_len blk pos <=? u8 (de_rec_len blk pos - DIRENT_HDR_SIZE)).

Definition dot_name (name : list Z) : bool :=
  bool_decide (name = [DOT]) || bool_decide (name = [DOT; DOT]).

Definition next_node (name : list Z) (nt : vfs_node_type_t) : E D Z :=
  v ← asks e_vfs;
  k ← asks e_next;
  let '(child, v) := vfs_fs_alloc_node v (mb_node mb k) (c_str name) nt in
  set_vfs (λ _, v) ;;
  modify (λ s, s <| e_next ::= S |>) ;;
  mret child.

Section Directory.
(** The call for a subdirectory. *)
Context (build : Z → ext2_inode_t → E D unit).

(** The child of an entry is made, linked and filled. *)
Definition add_entry (parent child_num : Z) (name : list Z) : E D unit :=
  r ← attempt (ext2_read_inode child_num);
  match r with
  | inl _ => mret tt
  | inr child_ino =>
      let nt := if ext2_is_dir child_ino then VFS_NODE_DIR else VFS_NODE_FILE in
      child ← next_node name nt;
      if child =? 0 then mret tt
      else
        v ← asks e_vfs;
        let '(rc, v) := vfs_fs_add_child v parent child in
        set_vfs (λ _, v) ;;
        if negb (rc =? RDNX_OK) then mret tt
        else
          ext2_mark_node child child_num ;;
          set_ctx (λ c, c <| c_node_budget ::= λ n, n - 1 |>) ;;
          if ext2_is_dir child_ino then ignore (build child child_ino)
          else if ext2_is_reg child_ino then ignore (ext2_load_file child_num child_ino child)
          else mret tt
  end.

(** The entries of a block from [pos] on; whether the budget of nodes is used
    up, which ends the directory. *)
Fixpoint scan_block (fuel : nat) (parent : Z) (blk : list Z) (pos : Z) : E D bool :=
  c ← ctx;
  if negb (pos + DIRENT_HDR_SIZE <=? c_block_size c) then mret false
  else if (de_rec_len blk pos <? DIRENT_HDR_SIZE) || (c_block_size c <? pos + de_rec_len blk pos) then mret false
  else
    match fuel with
    | O => throw Diverges
    | S fuel =>
        let name := de_name blk pos in
        if de_named blk pos && negb (dot_name name) then
          if c_node_budget c =? 0 then mret true
          else
            add_entry parent (de_inode blk pos) name ;;
            scan_block fuel parent blk (pos + de_rec_len blk pos)
        else scan_block fuel parent blk (pos + de_rec_len blk pos)
    end.

Fixpoint scan_dir (fuel : nat) (parent : Z) (dir_ino : ext2_inode_t) (scanned lbn : Z) : E D unit :=
  if negb (scanned <? ext2_inode_size_bytes dir_ino) then mret tt
  else
    match fuel with
    | O => throw Diverges
    | S fuel =>
        c ← ctx;
        pblk ← ext2_inode_get_block dir_ino lbn;
        if pblk =? 0 then mret tt
        else
          blk ← ext2_read_block pblk;
          stop ← scan_block (Z.to_nat (c_block_size c)) parent blk 0;
          if (stop : bool) then mret tt
          else scan_dir fuel parent dir_ino (scanned +₃₂ c_block_size c) (lbn +₃₂ 1)
    end.
End Directory.

(** The number of blocks that an inode can name, and one more: a directory is
    not longer than that. *)
Definition dir_fuel (c : ext2_mount_ctx_t) : nat :=
  let per_block := c_block_size c / 4 in
  Z.to_nat (EXT2_NDIR_BLOCKS + per_block + per_block * per_block + 1).

(** [levels] is [EXT2_MAX_TREE_DEPTH + 1 - depth]. *)
Fixpoint ext2_build_dir (levels : nat) (parent : Z) (dir_ino : ext2_inode_t) : E D unit :=
  if (parent =? 0) || negb (ext2_is_dir dir_ino) then err RDNX_E_INVALID
  else
    match levels with
    | O => mret tt
    | S levels =>
        c ← ctx;
        scan_dir (ext2_build_dir levels) (dir_fuel c) parent dir_ino 0 0
    end.

(** *** ext2_mount *)
Definition require (b : bool) (rc : Z) : E D unit := if b then mret tt else err rc.

(** The superblock is read and the sizes of the mount are set. *)
Definition mount_super : E D unit :=
  sb ← ext2_read_bytes 1024 SUPERBLOCK_SIZE;
  set_ctx (λ c, c <| c_sb := sb |>) ;;
  require (sb_magic sb =? EXT2_MAGIC) RDNX_E_INVALID ;;
  require (Z.land (feature_incompat sb) (Z.lnot EXT2_FEATURE_INCOMPAT_SUPP) =? 0) RDNX_E_UNSUPPORTED ;;
  require (negb ((blocks_per_group sb =? 0) || (inodes_per_group sb =? 0))) RDNX_E_INVALID ;;
  (if 32 <=? log_block_size sb then throw Undefined else mret tt) ;;
  let block_size := u32 (Z.shiftl 1024 (log_block_size sb)) in
  set_ctx (λ c, c <| c_block_size := block_size |>) ;;
  require (negb ((block_size <? 1024) || (EXT2_MAX_BLOCK_SIZE <? block_size))) RDNX_E_UNSUPPORTED ;;
  let inode_size := if rev_level sb =? 0 then 128
                    else if sb_inode_size sb =? 0 then 128 else sb_inode_size sb in
  set_ctx (λ c, c <| c_inode_size := inode_size |>) ;;
  require (negb ((inode_size <? 128) || (EXT2_MAX_INODE_SIZE <? inode_size))) RDNX_E_UNSUPPORTED.

(** The group descriptors in the bytes of the table. *)
Definition split_gdt (raw : list Z) : list ext2_group_desc_t :=
  (λ k, bslice (k * GROUP_DESC_SIZE) GROUP_DESC_SIZE raw) <$> seqZ 0 (Z.of_nat (length raw) / GROUP_DESC_SIZE).

Definition mount_groups : E D unit :=
  c ← ctx;
  let sb := c_sb c in
  let blocks_for_groups := blocks_count sb -₃₂ first_data_block sb in
  let group_count := (blocks_for_groups +₃₂ blocks_per_group sb -₃₂ 1) / blocks_per_group sb in
  set_ctx (λ c, c <| c_group_count := group_count |>) ;;
  require (negb (group_count =? 0)) RDNX_E_INVALID ;;
  let gdt_size := u32 (group_count * GROUP_DESC_SIZE) in
  require (negb (gdt_size =? 0)) RDNX_E_NOMEM ;;
  raw ← ext2_read_bytes (gdt_offset c) gdt_size;
  set_ctx (λ c, c <| c_gdt := split_gdt raw |>).

(** The root directory and the tree below it; the root. *)
Definition mount_tree : E D Z :=
  root_ino ← ext2_read_inode EXT2_ROOT_INO;
  require (ext2_is_dir root_ino) RDNX_E_INVALID ;;
  root ← next_node ROOT_NAME VFS_NODE_DIR;
  require (negb (root =? 0)) RDNX_E_NOMEM ;;
  set_ctx (λ c, c <| c_node_budget := EXT2_MAX_TREE_NODES |>) ;;
  ignore (ext2_build_dir (S EXT2_MAX_TREE_DEPTH) root root_ino) ;;
  ext2_mark_node root EXT2_ROOT_INO ;;
  mret root.

End Mount.

End Ext2.

(** ** The mounted file system *)
Definition no_ctx : ext2_mount_ctx_t := mk_ctx 0 (zeros SUPERBLOCK_SIZE) [] 0 0 0 0 0.

Record ext2_state (D : Type) := mk_ext2 {
  g_ext2_live : ext2_mount_ctx_t;
  g_ext2_live_ready : bool;
  g_disk : D
}.
Arguments mk_ext2 {D}. Arguments g_ext2_live {D}. Arguments g_ext2_live_ready {D}. Arguments g_disk {D}.
#[export] Instance ext2_eta D : EtaRecord (ext2_state D) :=
  λ x, mk_ext2 (g_ext2_live x) (g_ext2_live_ready x) (g_disk x).

Definition no_vfs : vfs_state := mk_vfs ∅ ∅ [] 0 0 false 0 0 [] None [].

Section Live.
Context {D : Type} (ops : disk_ops D) (bs : block_state).

Definition DISK0 : list Z := [100; 105; 115; 107; 48].

(** [source] is [None] for NULL.  The result is the error or the root, with
    the VFS and ext2 after the call. *)
Definition ext2_mount (mb : mount_blocks) (x : ext2_state D) (v : vfs_state) (source : option (list Z))
    : (failure + Z) * vfs_state * ext2_state D :=
  let disk_name := match source with Some (ch :: name) => ch :: name | _ => DISK0 end in
  let dev := fabric_blockdev_find bs disk_name in
  if dev =? 0 then (inl (Err RDNX_E_NOTFOUND), v, x)
  else
    let ss := bd_sector_size (bdev bs dev) in
    if (ss =? 0) || (512 <? ss) then (inl (Err RDNX_E_UNSUPPORTED), v, x)
    else
      let c := no_ctx <| c_bdev := dev |> <| c_sector_size := ss |> in
      let '(r, s) := (mount_super ops bs ;; mount_groups ops bs ;; mount_tree ops bs mb)
                       (mk_e2 c (g_disk x) (zeros INODE_STRUCT_SIZE) false v 0%nat) in
      let x := x <| g_disk := e_dev s |> in
      match r with
      | inl e => (inl e, e_vfs s, x)
      | inr root => (inr root, e_vfs s, x <| g_ext2_live := e_ctx s |> <| g_ext2_live_ready := true |>)
      end.

(** A call on the live context, for a file with the inode [i]. *)
Definition on_live (x : ext2_state D) (m : E D unit) : (failure + unit) * ext2_state D :=
  let '(r, s) := m (mk_e2 (g_ext2_live x) (g_disk x) (zeros INODE_STRUCT_SIZE) false no_vfs 0%nat) in
  (r, x <| g_ext2_live := e_ctx s |> <| g_disk := e_dev s |>).

Definition not_live (x : ext2_state D) : bool :=
  negb (g_ext2_live_ready x) || (c_bdev (g_ext2_live x) =? 0) || no_gdt (g_ext2_live x).

(** The inode of a regular file is read into the caller's variable. *)
Definition load_ino (ino_num : Z) : E D unit :=
  ino ← ext2_read_inode ops bs ino_num;
  set_ino (λ _, ino) ;;
  if negb (ext2_is_reg ino) then err RDNX_E_UNSUPPORTED else mret tt.

(** One round: the part of [src] that goes into one block. *)
Definition write_chunk (ino_num abs : Z) (src : list Z) : E D unit :=
  c ← ctx;
  let lbn := u32 (abs / c_block_size c) in
  let boff := abs mod c_block_size c in
  r ← attempt (ext2_inode_get_or_alloc_block ops bs ino_num lbn true);
  match r with
  | inl _ => err RDNX_E_UNSUPPORTED
  | inr pblk =>
      if pblk =? 0 then err RDNX_E_UNSUPPORTED
      else
        blk ← (if (Z.of_nat (length src) =? c_block_size c) && (boff =? 0)
               then mret (zeros (c_block_size c)) else ext2_read_block ops bs pblk);
        ext2_write_bytes ops bs (pblk * c_block_size c) (bput boff src blk)
  end.

Fixpoint writeback_loop (fuel : nat) (ino_num abs : Z) (src : list Z) : E D unit :=
  if bool_decide (src = []) then mret tt
  else
    match fuel with
    | O => throw Diverges
    | S fuel =>
        c ← ctx;
        let room := c_block_size c - abs mod c_block_size c in
        let chunk := Z.min (Z.of_nat (length src)) room in
        write_chunk ino_num abs (take (Z.to_nat chunk) src) ;;
        writeback_loop fuel ino_num (abs +₆₄ chunk) (drop (Z.to_nat chunk) src)
    end.

Definition writeback (ino_num off : Z) (data : list Z) (final_size : Z) : E D unit :=
  load_ino ino_num ;;
  ino ← asks e_ino;
  let disk_size := ext2_inode_size_bytes ino in
  if final_size <? off +₆₄ Z.of_nat (length data) then err RDNX_E_UNSUPPORTED
  else
    writeback_loop (length data) ino_num off data ;;
    (if disk_size <? final_size
     then set_ino (set_ino_size final_size) ;; modify (λ s, s <| e_dirty := true |>) else mret tt) ;;
    dirty ← asks e_dirty;
    ino ← asks e_ino;
    if (dirty : bool) then ext2_write_inode ops bs ino_num ino else mret tt.

(** [i] is the inode of the node. *)
Definition ext2_writeback_file (x : ext2_state D) (i : vfs_inode_t) (off : Z) (data : list Z) (final_size : Z)
    : (failure + unit) * ext2_state D :=
  if not_live x then (inl (Err RDNX_E_UNSUPPORTED), x)
  else if negb (i_fs_tag i =? VFS_FS_TAG_EXT2) || (i_fs_ino i =? 0) then (inl (Err RDNX_E_UNSUPPORTED), x)
  else if bool_decide (data = []) then (inr tt, x)
  else on_live x (writeback (u32 (i_fs_ino i)) off data final_size).

(** [write_in_place], [write_extend] and [truncate]. *)
Definition ext2_query_caps : Z * Z * Z := (1, 1, 1).

(** The blocks from [old_blocks] to [new_blocks] are allocated; after a failure
    those of the file behind [old_blocks] are given back. *)
Definition extend_blocks (ino_num old_blocks new_blocks : Z) : E D unit :=
  foldE (λ _ lbn,
    r ← attempt (ext2_inode_get_or_alloc_block ops bs ino_num lbn true);
    match r with
    | inr pblk =>
        if pblk =? 0 then ignore (ext2_trim_inode_blocks ops bs ino_num old_blocks) ;; err RDNX_E_UNSUPPORTED
        else mret tt
    | inl rc => ignore (ext2_trim_inode_blocks ops bs ino_num old_blocks) ;; err rc
    end) tt (seqZ old_blocks (new_blocks - old_blocks)).

Definition resize (ino_num new_size : Z) : E D unit :=
  load_ino ino_num ;;
  c ← ctx;
  ino ← asks e_ino;
  let disk_size := ext2_inode_size_bytes ino in
  let old_blocks := u32 ((disk_size +₆₄ c_block_size c -₆₄ 1) / c_block_size c) in
  let new_blocks := u32 ((new_size +₆₄ c_block_size c -₆₄ 1) / c_block_size c) in
  if new_size =? disk_size then mret tt
  else if disk_size <? new_size then
    extend_blocks ino_num old_blocks new_blocks ;;
    set_ino (set_ino_size new_size) ;;
    ino ← asks e_ino;
    n ← ext2_count_allocated_blocks ops bs ino;
    set_ino (set_i_blocks (u32 (n * (c_block_size c / 512)))) ;;
    ino ← asks e_ino;
    ext2_write_inode ops bs ino_num ino
  else
    set_ino (set_ino_size new_size) ;;
    ino ← asks e_ino;
    ext2_write_inode ops bs ino_num ino ;;
    ext2_trim_inode_blocks ops bs ino_num new_blocks.

Definition ext2_resize_file (x : ext2_state D) (i : vfs_inode_t) (new_size : Z) : (failure + unit) * ext2_state D :=
  if not_live x then (inl (Err RDNX_E_UNSUPPORTED), x)
  else if negb (i_fs_tag i =? VFS_FS_TAG_EXT2) || (i_fs_ino i =? 0) then (inl (Err RDNX_E_UNSUPPORTED), x)
  else on_live x (resize (u32 (i_fs_ino i)) new_size).

End Live.

(** The driver is known to the VFS by its name. *)
Definition ext2_fs_init (v : vfs_state) : Z * vfs_state := vfs_register_fs v EXT2_NAME.

End Ext2.
