(* ===== verification/Ext2Io.v ===== *)
(** * ext2: reading and writing bytes

    The weakest precondition of the monad, and what the transfers do on a disk
    that works: [ext2_read_bytes] returns the bytes of the disk and
    [ext2_write_bytes] stores them, whatever the place and the length are. *)

From Stdlib Require Import FunctionalExtensionality.
From stdpp Require Import base gmap list numbers fin_maps.
From S2P Require Import Prelude Bytes PathSpec Vfs VfsFile BlockDev Ext2.

Module Ext2Io.
Import PathSpec Vfs VfsFile BlockDev Ext2.

(** ** Weakest preconditions *)
Definition wp {D A} (m : E D A) (X : failure → e2state D → Prop) (Q : A → e2state D → Prop) (s : e2state D) : Prop :=
  match m s with
  | (inr a, s') => Q a s'
  | (inl e, s') => X e s'
  end.

(** No failure. *)
Definition never {D} : failure → e2state D → Prop := λ _ _, False.

Section Wp.
Context {D : Type}.
Implicit Types (s : e2state D) (X : failure → e2state D → Prop).

Lemma wp_ret {A} (a : A) X Q s : Q a s → wp (mret a) X Q s.
Proof. done. Qed.

Lemma wp_bind {A B} (m : E D A) (k : A → E D B) X Q s :
  wp m X (λ a s, wp (k a) X Q s) s → wp (m ≫= k) X Q s.
Proof. unfold wp, mbind, E_bind. by destruct (m s) as [[e|a] s']. Qed.

Lemma wp_mono {A} (m : E D A) (X X' : failure → e2state D → Prop) (Q Q' : A → e2state D → Prop) s :
  wp m X Q s → (∀ e s', X e s' → X' e s') → (∀ a s', Q a s' → Q' a s') → wp m X' Q' s.
Proof. unfold wp. destruct (m s) as [[e|a] s']; auto. Qed.

Lemma wp_throw {A} e X (Q : A → e2state D → Prop) s : X e s → wp (throw e) X Q s.
Proof. done. Qed.
Lemma wp_asks {A} (f : e2state D → A) X Q s : Q (f s) s → wp (asks f) X Q s.
Proof. done. Qed.
Lemma wp_modify f X (Q : unit → e2state D → Prop) s : Q tt (f s) → wp (modify f) X Q s.
Proof. done. Qed.

Lemma wp_attempt {A} (m : E D A) X (Q : Z + A → e2state D → Prop) s :
  wp m (λ e s', match e with Err rc => Q (inl rc) s' | _ => X e s' end) (λ a s', Q (inr a) s') s →
  wp (attempt m) X Q s.
Proof. unfold wp, attempt. by destruct (m s) as [[[rc| |]|a] s']. Qed.

Lemma wp_at_index {A} (l : list A) k x X Q s :
  0 ≤ k → l !! Z.to_nat k = Some x → Q x s → wp (at_index l k) X Q s.
Proof. intros Hk Hl HQ. unfold at_index. rewrite (proj2 (Z.ltb_ge k 0)) by lia. by rewrite Hl. Qed.

(** A loop over numbers keeps its invariant. *)
Lemma wp_foldE {A} (f : A → Z → E D A) (I : list Z → A → e2state D → Prop) X ks s a :
  I ks a s →
  (∀ k ks a s, I (k :: ks) a s → wp (f a k) X (λ a s, I ks a s) s) →
  wp (foldE f a ks) X (λ a s, I [] a s) s.
Proof.
  intros HI Hf. revert a s HI. induction ks as [|k ks IH]; intros a s HI; [done|].
  simpl. apply wp_bind. eapply wp_mono; [by apply Hf|done|]. auto.
Qed.

Lemma wp_total {A} (m : E D A) (Q : A → e2state D → Prop) s :
  wp m never Q s → ∃ a s', m s = (inr a, s') ∧ Q a s'.
Proof. unfold wp. destruct (m s) as [[e|a] s']; [done|]. eauto. Qed.
End Wp.

(** One step of a program in [wp]. *)
Ltac wp_step :=
  lazymatch goal with
  | |- wp (mbind _ _) _ _ _ => apply wp_bind
  | |- wp (mret _) _ _ _ => apply wp_ret
  | |- wp (asks _) _ _ _ => apply wp_asks
  | |- wp ctx _ _ _ => apply wp_asks
  | |- wp (modify _) _ _ _ => apply wp_modify
  | |- wp (set_ctx _) _ _ _ => apply wp_modify
  | |- wp (set_ino _) _ _ _ => apply wp_modify
  | |- wp (throw _) _ _ _ => apply wp_throw
  | |- wp (err _) _ _ _ => apply wp_throw
  | |- wp (attempt _) _ _ _ => apply wp_attempt
  end.

Section Disk.
Context {D : Type} (ops : disk_ops D) (bs : block_state) (disk : Z → D → Z → Z).

(** The bytes of the mounted device. *)
Definition dsk (s : e2state D) : Z → Z := disk (c_bdev (e_ctx s)) (e_dev s).

(** The capacity of the mounted device in bytes. *)
Definition capacity (c : ext2_mount_ctx_t) : Z := bd_sector_count (bdev bs (c_bdev c)) * c_sector_size c.

(** The device can be read and written, in sectors of at most 512 bytes. *)
Record dev_ok (c : ext2_mount_ctx_t) : Prop := {
  do_dev : c_bdev c ≠ 0;
  do_ops : bd_ops (bdev bs (c_bdev c)) = true;
  do_read : bd_read_op (bdev bs (c_bdev c)) = true;
  do_write : bd_write_op (bdev bs (c_bdev c)) = true;
  do_rw : has_flag (bd_flags (bdev bs (c_bdev c))) FABRIC_BLOCKDEV_F_READONLY = false;
  do_sector : 0 < c_sector_size c ≤ 512;
  do_count : 0 ≤ bd_sector_count (bdev bs (c_bdev c));
  do_capacity : capacity c < 2 ^ 64
}.

(** The state after a transfer: everything but the disk is as before. *)
Definition with_disk (F : Z → Z) (s s' : e2state D) : Prop :=
  e_ctx s' = e_ctx s ∧ e_ino s' = e_ino s ∧ e_dirty s' = e_dirty s ∧ e_vfs s' = e_vfs s ∧
  e_next s' = e_next s ∧ dsk s' = F.

Lemma with_disk_refl s : with_disk (dsk s) s s.
Proof. by split_and!. Qed.

Lemma with_disk_trans F G s1 s2 s3 : with_disk F s1 s2 → with_disk G s2 s3 → with_disk G s1 s3.
Proof. intros (?&?&?&?&?&?) (?&?&?&?&?&?). split_and!; congruence. Qed.

Section Reliable.
Context (ss : Z) `{!DiskDriver ops ss disk, !ReliableDisk ops}.

Lemma read_sector_wp dev sec s :
  dev_ok (e_ctx s) → dev = c_bdev (e_ctx s) → ss = c_sector_size (e_ctx s) →
  0 ≤ sec < bd_sector_count (bdev bs dev) →
  wp (read_sector ops bs dev sec) never
    (λ buf s', buf = area (dsk s) (sec * ss) ss ∧ with_disk (dsk s) s s') s.
Proof.
  intros [] Hdev Hss Hsec. subst dev. unfold wp, read_sector, fabric_blockdev_read.
  rewrite (proj2 (Z.eqb_neq _ 0)), do_ops0, do_read0 by done. simpl.
  rewrite (proj2 (Z.leb_gt _ _)), (proj2 (Z.ltb_ge _ _)) by lia. simpl.
  destruct (read_sectors ops (c_bdev (e_ctx s)) (e_dev s) sec 1) as [[rc buf] d'] eqn:Er.
  pose proof (rd_read ops (c_bdev (e_ctx s)) (e_dev s) sec 1) as Hrc. rewrite Er in Hrc. simpl in Hrc. subst rc.
  destruct (dd_read ops _ _ _ _ _ _ _ Er) as [Hd Hb]. simpl. split.
  - rewrite (Hb eq_refl). by rewrite Z.mul_1_l.
  - split_and!; try done. extensionality a. apply Hd.
Qed.

Lemma write_sector_wp dev sec buf s :
  dev_ok (e_ctx s) → dev = c_bdev (e_ctx s) → ss = c_sector_size (e_ctx s) →
  0 ≤ sec < bd_sector_count (bdev bs dev) → Z.of_nat (length buf) = ss →
  wp (write_sector ops bs dev sec buf) never (λ _ s', with_disk (store_at (sec * ss) buf (dsk s)) s s') s.
Proof.
  intros [] Hdev Hss Hsec Hlen. subst dev. unfold wp, write_sector, fabric_blockdev_write.
  rewrite (proj2 (Z.eqb_neq _ 0)), do_ops0, do_rw0, do_write0 by done. simpl.
  rewrite (proj2 (Z.leb_gt _ _)), (proj2 (Z.ltb_ge _ _)) by lia. simpl.
  destruct (write_sectors ops (c_bdev (e_ctx s)) (e_dev s) sec 1 buf) as [rc d'] eqn:Er.
  pose proof (rd_write ops (c_bdev (e_ctx s)) (e_dev s) sec 1 buf) as Hrc. rewrite Er in Hrc. simpl in Hrc. subst rc.
  destruct (dd_write ops _ _ _ _ _ _ _ Er) as [_ Hb]. simpl.
  split_and!; try done. extensionality a. apply Hb; [done|lia].
Qed.

(** The part of a transfer that is in one sector. *)
Lemma sector_part cur left n :
  0 < ss → 0 ≤ cur → 0 < left → cur + left ≤ n * ss →
  let chunk := Z.min (ss - cur mod ss) left in
  0 ≤ cur / ss < n ∧ 0 < chunk ≤ left ∧ 0 ≤ cur mod ss ∧ cur mod ss + chunk ≤ ss ∧ cur / ss * ss + cur mod ss = cur.
Proof.
  intros Hss Hc Hl Hn chunk. pose proof (Z.mod_pos_bound cur ss Hss). pose proof (Z.div_mod cur ss ltac:(lia)).
  pose proof (Z.div_pos cur ss Hc Hss). assert (cur / ss < n) by (apply Z.div_lt_upper_bound; lia). subst chunk. lia.
Qed.

Lemma read_loop_wp fuel dev cur left s :
  dev_ok (e_ctx s) → dev = c_bdev (e_ctx s) → ss = c_sector_size (e_ctx s) →
  0 ≤ cur → 0 ≤ left ≤ Z.of_nat fuel → cur + left ≤ capacity (e_ctx s) →
  wp (read_loop ops bs fuel dev ss cur left) never
    (λ buf s', buf = area (dsk s) cur left ∧ with_disk (dsk s) s s') s.
Proof.
  revert cur left s. induction fuel as [|fuel IH]; intros cur left s Hok Hdev Hss Hc Hl Hcap; simpl;
    destruct (Z.leb_spec left 0) as [Hle|Hgt]; try lia.
  1,2: (apply wp_ret; replace left with 0 by lia; split; [done|apply with_disk_refl]).
  pose proof (do_sector _ Hok) as Hpos. rewrite <- Hss in Hpos. unfold capacity in Hcap. rewrite <- Hss in Hcap.
  destruct (sector_part cur left (bd_sector_count (bdev bs (c_bdev (e_ctx s)))) ltac:(lia) Hc Hgt Hcap)
    as (Hsec & Hch & Hoff & Hfit & Hcur).
  set (chunk := Z.min (ss - cur mod ss) left) in *.
  wp_step. eapply wp_mono; [apply read_sector_wp; by subst|done|]. intros buf s1 [-> Hw1].
  wp_step. pose proof Hw1 as (Ec & _). pose proof (do_capacity _ Hok) as Hmax. unfold capacity in Hmax. rewrite <- Hss in Hmax.
  rewrite (u64_small (cur + chunk)) by (split; [lia|]; change (2 ^ 64) with 18446744073709551616 in *; lia).
  eapply wp_mono; [apply IH; rewrite ?Ec; unfold capacity; rewrite <- ?Hss; try done; lia|done|].
  intros rest s2 [-> Hw2]. wp_step. pose proof Hw1 as (_&_&_&_&_&Ed). rewrite Ed in *.
  split; [|by eapply with_disk_trans]. rewrite area_bslice by lia. rewrite Hcur.
  rewrite area_app by lia. f_equal. lia.
Qed.

(** Two stores next to each other are one store. *)
Lemma store_at_app a l1 l2 f :
  store_at (a + Z.of_nat (length l1)) l2 (store_at a l1 f) = store_at a (l1 ++ l2) f.
Proof. extensionality x. apply store_at_app_at. Qed.

(** A sector that is stored with a part replaced is a store of the part. *)
Lemma store_at_part a n off l f buf :
  0 ≤ n → 0 ≤ off → off + Z.of_nat (length l) ≤ n → Z.of_nat (length buf) = n →
  (Z.of_nat (length l) = n ∨ buf = area f a n) →
  store_at a (bput off l buf) f = store_at (a + off) l f.
Proof.
  intros Hn Ho Hl Hb Hor. extensionality x. unfold store_at. rewrite length_bput, Hb.
  destruct (decide (a ≤ x < a + n)) as [Hx|Hx]; [|by rewrite decide_False by lia].
  case_decide as Hi.
  - apply list_lookup_total_correct. unfold bput. rewrite list_lookup_inserts by lia.
    rewrite list_lookup_lookup_total_lt by lia. do 2 f_equal. lia.
  - destruct Hor as [?| ->]; [lia|]. apply list_lookup_total_correct. unfold bput.
    destruct (decide (x < a + off)).
    + rewrite list_lookup_inserts_lt, area_lookup by lia. do 2 f_equal. lia.
    + rewrite list_lookup_inserts_ge, area_lookup by lia. do 2 f_equal. lia.
Qed.

Lemma length_zeros n : 0 ≤ n → Z.of_nat (length (zeros n)) = n.
Proof. intros. unfold zeros. rewrite length_replicate. lia. Qed.

Lemma write_loop_wp fuel dev cur src s :
  dev_ok (e_ctx s) → dev = c_bdev (e_ctx s) → ss = c_sector_size (e_ctx s) →
  0 ≤ cur → (length src ≤ fuel)%nat → cur + Z.of_nat (length src) ≤ capacity (e_ctx s) →
  wp (write_loop ops bs fuel dev ss cur src) never (λ _ s', with_disk (store_at cur src (dsk s)) s s') s.
Proof.
  revert cur src s. induction fuel as [|fuel IH]; intros cur src s Hok Hdev Hss Hc Hl Hcap; simpl;
    case_bool_decide as He.
  1,3: (apply wp_ret; subst src; replace (store_at cur [] (dsk s)) with (dsk s);
        [apply with_disk_refl|extensionality x; unfold store_at; rewrite decide_False by (simpl; lia); done]).
  { destruct src; [done|simpl in *; lia]. }
  assert (0 < Z.of_nat (length src)) as Hgt by (destruct src; [done|simpl; lia]).
  pose proof (do_sector _ Hok) as Hpos. rewrite <- Hss in Hpos. unfold capacity in Hcap. rewrite <- Hss in Hcap.
  destruct (sector_part cur _ (bd_sector_count (bdev bs (c_bdev (e_ctx s)))) ltac:(lia) Hc Hgt Hcap)
    as (Hsec & Hch & Hoff & Hfit & Hcur).
  set (chunk := Z.min (ss - cur mod ss) (Z.of_nat (length src))) in *.
  assert (Z.of_nat (length (take (Z.to_nat chunk) src)) = chunk) as Htk by (rewrite length_take; lia).
  wp_step. eapply (wp_mono _ never _ (λ buf s', Z.of_nat (length buf) = ss ∧
     (chunk = ss ∨ buf = area (dsk s) (cur / ss * ss) ss) ∧ with_disk (dsk s) s s')); [|done|].
  { case_if; bool_hyps.
    - eapply wp_mono; [apply read_sector_wp; by subst|done|]. intros buf s1 [-> Hw]. rewrite length_area.
      split; [lia|]. auto.
    - wp_step. rewrite length_zeros by lia. split; [done|]. split; [auto|apply with_disk_refl]. }
  intros buf s1 (Hbl & Hor & Hw1). pose proof Hw1 as (Ec & _ & _ & _ & _ & Ed). simpl.
  wp_step. eapply wp_mono; [apply write_sector_wp; rewrite ?Ec; try done; rewrite ?length_bput; by subst|done|].
  intros [] s2 Hw2. pose proof (with_disk_trans _ _ _ _ _ Hw1 Hw2) as Hw.
  rewrite Ed, (store_at_part _ ss) in Hw by (rewrite ?Htk; auto; lia). rewrite Hcur in Hw. pose proof Hw as (Ec2 & _ & _ & _ & _ & Ed2).
  pose proof (do_capacity _ Hok) as Hmax. unfold capacity in Hmax. rewrite <- Hss in Hmax.
  rewrite (u64_small (cur + chunk)) by (split; [lia|]; change (2 ^ 64) with 18446744073709551616 in *; lia).
  eapply wp_mono; [apply IH; rewrite ?Ec2, ?length_drop; unfold capacity; rewrite <- ?Hss; try done; lia|done|].
  intros [] s3 Hw3. pose proof (with_disk_trans _ _ _ _ _ Hw Hw3) as H. rewrite Ed2 in H.
  rewrite <- Htk in H at 1. by rewrite store_at_app, take_drop in H.
Qed.

Lemma read_bytes_wp off len s :
  dev_ok (e_ctx s) → ss = c_sector_size (e_ctx s) → 0 ≤ off → 0 < len → off + len ≤ capacity (e_ctx s) →
  wp (ext2_read_bytes ops bs off len) never (λ buf s', buf = area (dsk s) off len ∧ with_disk (dsk s) s s') s.
Proof.
  intros Hok Hss Ho Hl Hcap. unfold ext2_read_bytes. wp_step. wp_step. pose proof (do_sector _ Hok).
  rewrite (proj2 (Z.eqb_neq _ 0)) by apply Hok. rewrite !(proj2 (Z.eqb_neq _ 0)), (proj2 (Z.ltb_ge _ _)) by lia. simpl.
  rewrite <- Hss. apply read_loop_wp; try done; lia.
Qed.

Lemma write_bytes_wp off buf s :
  dev_ok (e_ctx s) → ss = c_sector_size (e_ctx s) → 0 ≤ off → buf ≠ [] →
  off + Z.of_nat (length buf) ≤ capacity (e_ctx s) →
  wp (ext2_write_bytes ops bs off buf) never (λ _ s', with_disk (store_at off buf (dsk s)) s s') s.
Proof.
  intros Hok Hss Ho Hl Hcap. unfold ext2_write_bytes. wp_step. wp_step. pose proof (do_sector _ Hok).
  rewrite (proj2 (Z.eqb_neq _ 0)) by apply Hok. rewrite bool_decide_false by done.
  rewrite !(proj2 (Z.eqb_neq _ 0)), (proj2 (Z.ltb_ge _ _)) by lia. simpl.
  rewrite <- Hss. apply write_loop_wp; try done; lia.
Qed.

Lemma read_block_wp b s :
  dev_ok (e_ctx s) → ss = c_sector_size (e_ctx s) → 0 < c_block_size (e_ctx s) → 0 ≤ b →
  (b + 1) * c_block_size (e_ctx s) ≤ capacity (e_ctx s) →
  wp (ext2_read_block ops bs b) never
    (λ buf s', buf = area (dsk s) (b * c_block_size (e_ctx s)) (c_block_size (e_ctx s)) ∧ with_disk (dsk s) s s') s.
Proof.
  intros. unfold ext2_read_block. wp_step. wp_step. rewrite (proj2 (Z.eqb_neq _ 0)) by lia.
  apply read_bytes_wp; try done; nia.
Qed.

Lemma write_block_wp b buf s :
  dev_ok (e_ctx s) → ss = c_sector_size (e_ctx s) → 0 < c_block_size (e_ctx s) → 0 ≤ b →
  Z.of_nat (length buf) = c_block_size (e_ctx s) → (b + 1) * c_block_size (e_ctx s) ≤ capacity (e_ctx s) →
  wp (ext2_write_block ops bs b buf) never
    (λ _ s', with_disk (store_at (b * c_block_size (e_ctx s)) buf (dsk s)) s s') s.
Proof.
  intros Hok Hss Hbs Hb Hl Hcap. unfold ext2_write_block. wp_step. wp_step. rewrite (proj2 (Z.eqb_neq _ 0)) by lia.
  apply write_bytes_wp; try done; [nia| |nia]. intros ->. simpl in Hl. lia.
Qed.

End Reliable.
End Disk.
End Ext2Io.

(** * ext2: the layout of the disk and its block bitmap

    The part of the mount context that never changes is the [layout]; the
    regions of the disk that hold metadata are given by it, and a block is used
    when its bit is set.  [ext2_alloc_block] takes a block that was not used and
    [ext2_free_block] gives one back, and nothing but metadata changes. *)
Module Ext2Layout.
Import PathSpec Vfs VfsFile BlockDev Ext2 Ext2Io.

(** ** Bits *)
Lemma has_flag_bit w k : 0 ≤ k → has_flag w (Z.shiftl 1 k) = Z.testbit w k.
Proof.
  intros Hk. unfold has_flag. rewrite Z.shiftl_1_l. destruct (Z.testbit w k) eqn:E.
  - apply negb_true_iff, Z.eqb_neq. intros H0. assert (Z.testbit (Z.land w (2 ^ k)) k = true) as H1.
    { rewrite Z.land_spec, E, Z.pow2_bits_true by done. done. }
    rewrite H0, Z.bits_0 in H1. done.
  - apply negb_false_iff, Z.eqb_eq. apply Z.bits_inj'. intros n Hn. rewrite Z.land_spec, Z.bits_0.
    destruct (decide (n = k)) as [->|]; [by rewrite E|]. rewrite Z.pow2_bits_false by lia. apply andb_false_r.
Qed.

Lemma lor_bit w k n : 0 ≤ k → Z.testbit (Z.lor w (Z.shiftl 1 k)) n = (k =? n) || Z.testbit w n.
Proof. intros. rewrite Z.shiftl_1_l. rewrite <- (Z.setbit_spec' w k). apply Z.setbit_eqb. done. Qed.

Lemma ldiff_bit w k n : 0 ≤ k → Z.testbit (Z.land w (Z.lnot (Z.shiftl 1 k))) n = Z.testbit w n && negb (k =? n).
Proof. intros. rewrite Z.shiftl_1_l, <- Z.ldiff_land. rewrite <- (Z.clearbit_spec' w k). apply Z.clearbit_eqb. Qed.

Lemma bit_index bi : 0 ≤ bi → Z.shiftr bi 3 = bi / 8 ∧ Z.land bi 7 = bi mod 8.
Proof. intros. split; [by rewrite Z.shiftr_div_pow2|]. by apply (Z.land_ones bi 3). Qed.

(** Storing an area with one byte changed is storing the byte. *)
Lemma store_at_alter f k F a n :
  (k < Z.to_nat n)%nat →
  store_at a (alter f k (area F a n)) F = store_at (a + Z.of_nat k) [f (F (a + Z.of_nat k))] F.
Proof.
  intros Hk. extensionality x. unfold store_at. rewrite length_alter, length_area. simpl.
  destruct (decide (a + Z.of_nat k ≤ x < a + Z.of_nat k + 1)) as [Hx|Hx].
  - rewrite decide_True by lia. replace (Z.to_nat (x - a)) with k by lia.
    rewrite (list_lookup_total_correct _ k (f (F (a + Z.of_nat k)))); [|by rewrite list_lookup_alter, decide_True, area_lookup].
    rewrite decide_True by lia. by replace (Z.to_nat (x - (a + Z.of_nat k))) with 0%nat by lia.
  - rewrite (decide_False (P := a + Z.of_nat k ≤ x < _)) by lia. case_decide; [|done]. apply list_lookup_total_correct.
    rewrite list_lookup_alter_ne, area_lookup by lia. do 2 f_equal. lia.
Qed.

(** ** Layout *)
Record layout := mk_layout {
  l_bdev : Z;
  l_ss : Z;
  l_bs : Z;
  l_isz : Z;
  l_gc : Z;
  l_fdb : Z;
  l_bc : Z;
  l_bpg : Z;
  l_ipg : Z;
  l_bitmaps : list Z;
  l_tables : list Z
}.

Definition layout_of (c : ext2_mount_ctx_t) : layout :=
  mk_layout (c_bdev c) (c_sector_size c) (c_block_size c) (c_inode_size c) (c_group_count c)
    (first_data_block (c_sb c)) (blocks_count (c_sb c)) (blocks_per_group (c_sb c)) (inodes_per_group (c_sb c))
    (block_bitmap <$> c_gdt c) (inode_table <$> c_gdt c).

(** The structures have their sizes. *)
Definition ctx_wf (c : ext2_mount_ctx_t) : Prop :=
  Z.of_nat (length (c_sb c)) = SUPERBLOCK_SIZE ∧ Z.of_nat (length (c_gdt c)) = c_group_count c ∧
  Forall (λ gd, Z.of_nat (length gd) = GROUP_DESC_SIZE) (c_gdt c).

(** The regions of metadata. *)
Inductive region := RSuper | RGdt | RBitmap (g : Z) | RTable (g : Z).

Section Layout.
Context (L : layout).

Definition rvalid (r : region) : Prop :=
  match r with
  | RSuper | RGdt => True
  | RBitmap g | RTable g => 0 ≤ g < l_gc L
  end.
Definition rstart (r : region) : Z :=
  match r with
  | RSuper => 1024
  | RGdt => (l_fdb L + 1) * l_bs L
  | RBitmap g => l_bitmaps L !!! Z.to_nat g * l_bs L
  | RTable g => l_tables L !!! Z.to_nat g * l_bs L
  end.
Definition rlen (r : region) : Z :=
  match r with
  | RSuper => SUPERBLOCK_SIZE
  | RGdt => GROUP_DESC_SIZE * l_gc L
  | RBitmap _ => l_bs L
  | RTable _ => l_ipg L * l_isz L
  end.
Definition in_region (r : region) (a : Z) : Prop := rstart r ≤ a < rstart r + rlen r.
Definition meta (a : Z) : Prop := ∃ r, rvalid r ∧ in_region r a.

(** A block of data. *)
Definition in_range (b : Z) : Prop := l_fdb L ≤ b < l_bc L.
Definition in_block (b a : Z) : Prop := b * l_bs L ≤ a < (b + 1) * l_bs L.
Definition plain (b : Z) : Prop := ∀ a, in_block b a → ¬ meta a.

Definition group_of (b : Z) : Z := (b - l_fdb L) / l_bpg L.
Definition bit_no (b : Z) : Z := (b - l_fdb L) mod l_bpg L.
Definition bit_addr (b : Z) : Z := rstart (RBitmap (group_of b)) + bit_no b / 8.

(** The bit of the block is set. *)
Definition used (F : Z → Z) (b : Z) : Prop := Z.testbit (F (bit_addr b)) (bit_no b mod 8) = true.

(** The blocks of the metadata are used. *)
Definition meta_used (F : Z → Z) : Prop := ∀ b, in_range b → ¬ plain b → used F b.

(** A file system whose parts are on the device and do not overlap. *)
Record geom (cap : Z) : Prop := {
  ge_bs : l_bs L = 1024 ∨ l_bs L = 2048 ∨ l_bs L = 4096;
  ge_isz : 128 ≤ l_isz L ≤ 512;
  ge_first : l_bs L = 1024 → 0 < l_fdb L;
  ge_blocks : 0 ≤ l_fdb L < l_bc L ∧ l_bc L < 2 ^ 32;
  ge_cap : l_bc L * l_bs L ≤ cap;
  ge_bpg : 0 < l_bpg L ≤ 8 * l_bs L;
  ge_ipg : 0 < l_ipg L;
  ge_groups : (l_gc L - 1) * l_bpg L < l_bc L - l_fdb L ≤ l_gc L * l_bpg L;
  ge_gc : 0 < l_gc L ∧ l_gc L * GROUP_DESC_SIZE < 2 ^ 32;
  ge_bitmaps : Z.of_nat (length (l_bitmaps L)) = l_gc L ∧ Forall (λ b, 0 < b) (l_bitmaps L);
  ge_tables : Z.of_nat (length (l_tables L)) = l_gc L ∧ Forall (λ b, 0 < b) (l_tables L);
  ge_regions : ∀ r, rvalid r → rstart r + rlen r ≤ cap;
  ge_disjoint : ∀ r1 r2 a, rvalid r1 → rvalid r2 → in_region r1 a → in_region r2 a → r1 = r2
}.

Section Geometry.
Context (cap : Z) (G : geom cap).

Lemma bs_pos : 1024 ≤ l_bs L.
Proof. destruct (ge_bs _ G) as [|[|]]; lia. Qed.

Lemma group_of_range b : in_range b → 0 ≤ group_of b < l_gc L ∧ 0 ≤ bit_no b < l_bpg L.
Proof.
  intros [Hb1 Hb2]. pose proof (ge_bpg _ G). pose proof (ge_groups _ G). unfold group_of, bit_no.
  split; [|apply Z.mod_pos_bound; lia]. split; [apply Z.div_pos; lia|]. apply Z.div_lt_upper_bound; lia.
Qed.

Lemma bit_addr_region b : in_range b → rvalid (RBitmap (group_of b)) ∧ in_region (RBitmap (group_of b)) (bit_addr b).
Proof.
  intros Hb. destruct (group_of_range b Hb) as [Hg Hn]. pose proof (ge_bpg _ G). split; [done|].
  unfold in_region, bit_addr. simpl rlen. assert (0 ≤ bit_no b / 8 < l_bs L); [|lia].
  split; [apply Z.div_pos; lia|apply Z.div_lt_upper_bound; lia].
Qed.

Lemma group_bit b g bi :
  0 ≤ bi < l_bpg L → b = l_fdb L + g * l_bpg L + bi → group_of b = g ∧ bit_no b = bi.
Proof.
  intros Hbi ->. unfold group_of, bit_no. replace (l_fdb L + g * l_bpg L + bi - l_fdb L) with (bi + g * l_bpg L) by lia.
  rewrite Z.div_add, Z.mod_add by lia. rewrite Z.div_small, Z.mod_small by lia. lia.
Qed.

Lemma block_of b : b = l_fdb L + group_of b * l_bpg L + bit_no b.
Proof. pose proof (ge_bpg _ G). unfold group_of, bit_no. pose proof (Z.div_mod (b - l_fdb L) (l_bpg L)). lia. Qed.

(** Different blocks have different bits. *)
Lemma bit_addr_inj b b' :
  in_range b → in_range b' → bit_addr b = bit_addr b' → bit_no b mod 8 = bit_no b' mod 8 → b = b'.
Proof.
  intros Hb Hb' Ha Hm. destruct (bit_addr_region b Hb) as [Hv Hr], (bit_addr_region b' Hb') as [Hv' Hr'].
  rewrite Ha in Hr. pose proof (ge_disjoint _ G _ _ _ Hv Hv' Hr Hr') as [= Eg].
  assert (bit_no b / 8 = bit_no b' / 8) as Ed by (unfold bit_addr in Ha; rewrite Eg in Ha; lia).
  pose proof (Z.div_mod (bit_no b) 8 ltac:(lia)). pose proof (Z.div_mod (bit_no b') 8 ltac:(lia)).
  rewrite (block_of b), (block_of b'), Eg. lia.
Qed.

(** Blocks do not overlap. *)
Lemma in_block_inj b b' a : in_block b a → in_block b' a → b = b'.
Proof. pose proof bs_pos. unfold in_block. nia. Qed.

Lemma block_cap b : in_range b → 0 ≤ b ∧ (b + 1) * l_bs L ≤ cap.
Proof. intros [? ?]. pose proof bs_pos. pose proof (ge_blocks _ G). pose proof (ge_cap _ G). split; nia. Qed.

(** The bits are metadata of one group: a change elsewhere keeps them. *)
Lemma used_frame F F' b :
  in_range b → (∀ a, in_region (RBitmap (group_of b)) a → F' a = F a) → used F' b ↔ used F b.
Proof. intros Hb HF. unfold used. rewrite HF; [done|]. by apply bit_addr_region. Qed.

(** A bit that is set or cleared. *)
Lemma used_store F b v w :
  in_range b → (∀ n, Z.testbit v n = if decide (n = bit_no b mod 8) then w else Z.testbit (F (bit_addr b)) n) →
  ∀ b', in_range b' → used (store_at (bit_addr b) [v] F) b' ↔ if decide (b' = b) then w = true else used F b'.
Proof.
  intros Hb Hv b' Hb'. unfold used. destruct (decide (bit_addr b' = bit_addr b)) as [Ea|Ea].
  - rewrite store_at_in by (simpl; lia). replace (Z.to_nat (bit_addr b' - bit_addr b)) with 0%nat by lia. simpl.
    rewrite Hv. destruct (decide (b' = b)) as [->|Hne]; [by rewrite decide_True|].
    rewrite decide_False, Ea; [done|]. intros Hm. apply Hne. by apply bit_addr_inj.
  - rewrite store_at_out by (simpl; lia). rewrite decide_False; [done|]. by intros ->.
Qed.

End Geometry.
End Layout.

End Ext2Layout.
