(* ===== verification/Ext2Alloc.v ===== *)
(** * ext2: allocation of blocks

    On a disk that works, [ext2_alloc_block] changes nothing when it finds no
    free block; otherwise the block it returns was free and is used from then
    on.  [ext2_free_block] frees a block.  Both change only the
    superblock, the group descriptors and one bit of a bitmap. *)

From Stdlib Require Import FunctionalExtensionality.
From stdpp Require Import base gmap list numbers fin_maps.
From S2P Require Import Prelude Bytes PathSpec Vfs VfsFile BlockDev Ext2 Ext2Io.

Module Ext2Alloc.
Import PathSpec Vfs VfsFile BlockDev Ext2 Ext2Io Ext2Layout.

(** ** Changes of the counters *)
Lemma get32_put16_other off off' v l :
  0 ≤ off → 0 ≤ off' → off' + 4 ≤ off ∨ off + 2 ≤ off' → get32 off' (put16 off v l) = get32 off' l.
Proof.
  intros. unfold get32, put16. rewrite bslice_put_other; [done|done|done|]. rewrite length_le_bytes. simpl. lia.
Qed.

Lemma fmap_alter_same {A B} (p : A → B) (f : A → A) (i : nat) (l : list A) :
  (∀ x, p (f x) = p x) → p <$> alter f i l = p <$> l.
Proof.
  intros Hp. apply list_eq. intros k. rewrite !list_lookup_fmap. destruct (decide (k = i)) as [->|].
  - rewrite list_lookup_alter, decide_True by done. destruct (l !! i); simpl; [by rewrite Hp|done].
  - by rewrite list_lookup_alter_ne.
Qed.

(** A change of the descriptors that keeps the places of the bitmap and the
    inodes keeps the layout. *)
Lemma set_gd_layout g f c :
  (∀ gd, block_bitmap (f gd) = block_bitmap gd ∧ inode_table (f gd) = inode_table gd ∧ length (f gd) = length gd) →
  layout_of (set_gd g f c) = layout_of c ∧ (ctx_wf c → ctx_wf (set_gd g f c)).
Proof.
  intros Hf. split.
  - unfold layout_of, set_gd. simpl. rewrite !fmap_alter_same by (intros; apply Hf). done.
  - intros (Hsb & Hl & Hall). unfold ctx_wf, set_gd. simpl. rewrite length_alter. split; [done|]. split; [done|].
    apply Forall_alter; [done|]. intros x Hx H. by rewrite (proj2 (proj2 (Hf x))).
Qed.

Lemma set_sb_layout f c :
  (∀ sb, first_data_block (f sb) = first_data_block sb ∧ blocks_count (f sb) = blocks_count sb ∧
     blocks_per_group (f sb) = blocks_per_group sb ∧ inodes_per_group (f sb) = inodes_per_group sb ∧
     length (f sb) = length sb) →
  layout_of (c <| c_sb ::= f |>) = layout_of c ∧ (ctx_wf c → ctx_wf (c <| c_sb ::= f |>)).
Proof.
  intros Hf. destruct (Hf (c_sb c)) as (E1 & E2 & E3 & E4 & E5). split.
  - unfold layout_of. simpl. by rewrite E1, E2, E3, E4.
  - intros (Hsb & Hl & Hall). unfold ctx_wf. simpl. by rewrite E5.
Qed.

Lemma gd_count_ok (b : bool) v gd :
  let gd' := if b then set_gd_free_blocks v gd else gd in
  block_bitmap gd' = block_bitmap gd ∧ inode_table gd' = inode_table gd ∧ length gd' = length gd.
Proof.
  destruct b; simpl; [|done]. unfold set_gd_free_blocks, block_bitmap, inode_table.
  rewrite !get32_put16_other by lia. unfold put16. by rewrite length_bput.
Qed.

Lemma sb_count_ok (b : bool) v sb :
  let sb' := if b then set_sb_free_blocks v sb else sb in
  first_data_block sb' = first_data_block sb ∧ blocks_count sb' = blocks_count sb ∧
  blocks_per_group sb' = blocks_per_group sb ∧ inodes_per_group sb' = inodes_per_group sb ∧ length sb' = length sb.
Proof.
  destruct b; simpl; [|done].
  unfold set_sb_free_blocks, first_data_block, blocks_count, blocks_per_group, inodes_per_group.
  rewrite !get32_put32_other by lia. unfold put32. by rewrite length_bput.
Qed.

Section Alloc.
Context {D : Type} (ops : disk_ops D) (B : block_state) (disk : Z → D → Z → Z).
Context (ss : Z) `{!DiskDriver ops ss disk, !ReliableDisk ops}.
Context (L : layout) (cap : Z) (G : geom L cap).

Abbreviation dsk := (dsk disk).
Abbreviation with_disk := (with_disk disk).

(** The file system is mounted with the layout. *)
Definition mounted_ctx (c : ext2_mount_ctx_t) : Prop :=
  layout_of c = L ∧ ctx_wf c ∧ dev_ok B c ∧ c_sector_size c = ss ∧ capacity B c = cap.
Definition mounted (s : e2state D) : Prop := mounted_ctx (e_ctx s).

(** The state after a change of the disk and of the counters. *)
Definition becomes (F : Z → Z) (s s' : e2state D) : Prop :=
  mounted s' ∧ e_ino s' = e_ino s ∧ e_dirty s' = e_dirty s ∧ dsk s' = F.

Lemma with_becomes F s s' : mounted s → with_disk F s s' → becomes F s s'.
Proof. intros Hm (Ec & Ei & Ed & _ & _ & EF). unfold becomes, mounted. by rewrite Ec. Qed.

Lemma becomes_trans F1 F2 s1 s2 s3 : becomes F1 s1 s2 → becomes F2 s2 s3 → becomes F2 s1 s3.
Proof. intros (_ & ? & ? & _) (? & ? & ? & ?). split_and!; congruence. Qed.

Lemma layout_fields s :
  mounted s →
  c_block_size (e_ctx s) = l_bs L ∧ c_inode_size (e_ctx s) = l_isz L ∧ c_group_count (e_ctx s) = l_gc L ∧
  first_data_block (c_sb (e_ctx s)) = l_fdb L ∧ blocks_count (c_sb (e_ctx s)) = l_bc L ∧
  blocks_per_group (c_sb (e_ctx s)) = l_bpg L ∧ inodes_per_group (c_sb (e_ctx s)) = l_ipg L ∧
  c_gdt (e_ctx s) ≠ [] ∧ no_gdt (e_ctx s) = false.
Proof.
  intros (E & (_ & Hl & _) & _). assert (c_gdt (e_ctx s) ≠ []).
  { intros E0. rewrite E0 in Hl. simpl in Hl. pose proof (ge_gc _ _ G). rewrite <- E in H. simpl in H. lia. }
  rewrite <- E. split_and!; try done. unfold no_gdt. by rewrite bool_decide_false.
Qed.

(** The descriptor of a group. *)
Lemma gdt_lookup s g :
  mounted s → 0 ≤ g < l_gc L →
  ∃ gd, c_gdt (e_ctx s) !! Z.to_nat g = Some gd ∧ block_bitmap gd = l_bitmaps L !!! Z.to_nat g ∧
    inode_table gd = l_tables L !!! Z.to_nat g ∧ 0 < block_bitmap gd ∧ 0 < inode_table gd.
Proof.
  intros (E & (_ & Hl & _) & _) Hg. pose proof (f_equal l_gc E) as Eg. simpl in Eg.
  destruct (lookup_lt_is_Some_2 (c_gdt (e_ctx s)) (Z.to_nat g)) as [gd Hgd]; [lia|].
  exists gd. assert (l_bitmaps L !! Z.to_nat g = Some (block_bitmap gd)) as Hb
    by (rewrite <- E; simpl; by rewrite list_lookup_fmap, Hgd).
  assert (l_tables L !! Z.to_nat g = Some (inode_table gd)) as Ht
    by (rewrite <- E; simpl; by rewrite list_lookup_fmap, Hgd).
  rewrite (list_lookup_total_correct _ _ _ Hb), (list_lookup_total_correct _ _ _ Ht). split_and!; try done.
  - by eapply (Forall_lookup_1 (λ b, 0 < b)), Hb; apply G.
  - by eapply (Forall_lookup_1 (λ b, 0 < b)), Ht; apply G.
Qed.

Lemma mounted_read_block b s :
  mounted s → 0 ≤ b → (b + 1) * l_bs L ≤ cap →
  wp (ext2_read_block ops B b) never
    (λ buf s', buf = area (dsk s) (b * l_bs L) (l_bs L) ∧ with_disk (dsk s) s s') s.
Proof.
  intros Hm Hb Hc. destruct (layout_fields s Hm) as (Eb & _). pose proof Hm as (E & _ & Hok & Hss & Hcap).
  pose proof (bs_pos _ _ G). rewrite <- Eb in *. apply (read_block_wp ops B disk ss); try done; [lia|by rewrite Hcap].
Qed.

Lemma mounted_write_block b buf s :
  mounted s → 0 ≤ b → (b + 1) * l_bs L ≤ cap → Z.of_nat (length buf) = l_bs L →
  wp (ext2_write_block ops B b buf) never (λ _ s', with_disk (store_at (b * l_bs L) buf (dsk s)) s s') s.
Proof.
  intros Hm Hb Hc Hl. destruct (layout_fields s Hm) as (Eb & _). pose proof Hm as (E & _ & Hok & Hss & Hcap).
  pose proof (bs_pos _ _ G). rewrite <- Eb in *. apply (write_block_wp ops B disk ss); try done; [lia|by rewrite Hcap].
Qed.

Lemma region_bytes r buf s :
  mounted s → rvalid L r → Z.of_nat (length buf) = rlen L r → buf ≠ [] → 0 ≤ rstart L r →
  wp (ext2_write_bytes ops B (rstart L r) buf) never
    (λ _ s', ∃ F, with_disk F s s' ∧ ∀ a, ¬ in_region L r a → F a = dsk s a) s.
Proof.
  intros Hm Hv Hl Hne H0. pose proof Hm as (E & _ & Hok & Hss & Hcap).
  eapply wp_mono; [apply (write_bytes_wp ops B disk ss); try done|done|].
  - rewrite Hcap, Hl. by apply G.
  - intros [] s' Hw. eexists. split; [exact Hw|]. intros a Ha. apply store_at_out. unfold in_region in Ha. by rewrite Hl.
Qed.

Lemma length_concat_gdt (l : list (list Z)) :
  Forall (λ gd, Z.of_nat (length gd) = GROUP_DESC_SIZE) l →
  Z.of_nat (length (concat l)) = GROUP_DESC_SIZE * Z.of_nat (length l).
Proof. induction 1; simpl; [done|]. rewrite length_app. lia. Qed.

(** The superblock and the descriptors are written. *)
Lemma sync_wp s :
  mounted s →
  wp (ext2_sync_super_and_gdt ops B) never
    (λ _ s', ∃ F, with_disk F s s' ∧ ∀ a, ¬ in_region L RSuper a → ¬ in_region L RGdt a → F a = dsk s a) s.
Proof.
  intros Hm. destruct (layout_fields s Hm) as (Eb & _ & Eg & Ef & _ & _ & _ & _ & Hgdt).
  pose proof Hm as (E & (Hsb & Hl & Hall) & _). pose proof (ge_gc _ _ G) as Hgc. pose proof (ge_blocks _ _ G) as Hbl.
  pose proof (bs_pos _ _ G) as Hbs. unfold ext2_sync_super_and_gdt. wp_step. wp_step.
  rewrite Hgdt, (proj2 (Z.eqb_neq _ 0)) by lia. simpl. wp_step.
  eapply wp_mono; [apply (region_bytes RSuper); try done|done|]; [by intros E0; rewrite E0 in Hsb|].
  intros [] s1 (F1 & Hw1 & HF1). pose proof Hw1 as (Ec1 & _ & _ & _ & _ & Ed1).
  assert (mounted s1) as Hm1 by (unfold mounted; by rewrite Ec1).
  pose proof (length_concat_gdt _ Hall) as Hcl. unfold gdt_offset. rewrite Ef, Eb, Eg.
  rewrite u32_small by (change (2 ^ 32) with 4294967296 in *; lia).
  rewrite u32_small by (change (2 ^ 32) with 4294967296 in *; unfold GROUP_DESC_SIZE in *; lia).
  rewrite take_ge by lia.
  eapply wp_mono; [apply (region_bytes RGdt); try done|done|]; simpl; [lia| |nia|].
  - intros E0. rewrite E0 in Hcl. simpl in Hcl. unfold GROUP_DESC_SIZE in Hcl. lia.
  - intros [] s2 (F2 & Hw2 & HF2). exists F2. split; [by eapply with_disk_trans|]. intros a H1 H2.
    rewrite HF2, Ed1, HF1 by done. done.
Qed.

(** Nothing but the superblock, the descriptors and the bitmaps differs. *)
Definition alloc_frame (F F' : Z → Z) : Prop :=
  ∀ a, ¬ in_region L RSuper a → ¬ in_region L RGdt a →
    (∀ g, rvalid L (RBitmap g) → ¬ in_region L (RBitmap g) a) → F' a = F a.

(** The bit of [b] is [w], the others are as before. *)
Definition used_change (F F' : Z → Z) (b : Z) (w : bool) : Prop :=
  ∀ b', in_range L b' → used L F' b' ↔ if decide (b' = b) then w = true else used L F b'.

Lemma bitmap_block g :
  0 ≤ g < l_gc L → 0 ≤ l_bitmaps L !!! Z.to_nat g ∧ (l_bitmaps L !!! Z.to_nat g + 1) * l_bs L ≤ cap.
Proof.
  intros Hg. pose proof (ge_regions _ _ G (RBitmap g) Hg) as H. simpl in H.
  destruct (ge_bitmaps _ _ G) as [Hl Hall]. split; [|lia].
  destruct (lookup_lt_is_Some_2 (l_bitmaps L) (Z.to_nat g)) as [b Hb]; [lia|].
  rewrite (list_lookup_total_correct _ _ _ Hb). pose proof (Forall_lookup_1 _ _ _ _ Hall Hb). simpl in *. lia.
Qed.

Lemma keeps_mounted f c :
  (layout_of (f c) = layout_of c ∧ (ctx_wf c → ctx_wf (f c))) → mounted_ctx c → mounted_ctx (f c).
Proof.
  intros [El Hwf] (E & W & Hok & Hss & Hcap). pose proof (f_equal l_bdev El) as E1. pose proof (f_equal l_ss El) as E2.
  simpl in E1, E2. unfold mounted_ctx, capacity in *. rewrite El, E1, E2. split_and!; auto.
  destruct Hok. split; unfold capacity in *; rewrite ?E1, ?E2; done.
Qed.

Lemma put_bitmap_wp b f w fgd fsb s :
  mounted s → in_range L b →
  (∀ n, Z.testbit (f (dsk s (bit_addr L b))) n
        = if decide (n = bit_no L b mod 8) then w else Z.testbit (dsk s (bit_addr L b)) n) →
  (∀ gd, block_bitmap (fgd gd) = block_bitmap gd ∧ inode_table (fgd gd) = inode_table gd ∧ length (fgd gd) = length gd) →
  (∀ sb, first_data_block (fsb sb) = first_data_block sb ∧ blocks_count (fsb sb) = blocks_count sb ∧
     blocks_per_group (fsb sb) = blocks_per_group sb ∧ inodes_per_group (fsb sb) = inodes_per_group sb ∧
     length (fsb sb) = length sb) →
  wp (put_bitmap ops B (group_of L b) (l_bitmaps L !!! Z.to_nat (group_of L b))
        (alter f (Z.to_nat (bit_no L b / 8)) (area (dsk s) (rstart L (RBitmap (group_of L b))) (l_bs L))) fgd fsb) never
    (λ _ s', ∃ F', becomes F' s s' ∧ alloc_frame (dsk s) F' ∧ used_change (dsk s) F' b w) s.
Proof.
  intros Hm Hb Hbits Hgd Hsb. destruct (group_of_range _ _ G b Hb) as [Hg Hn]. pose proof (ge_bpg _ _ G) as Hbpg.
  assert (0 ≤ bit_no L b / 8 < l_bs L) as Hk by (split; [apply Z.div_pos; lia|apply Z.div_lt_upper_bound; lia]).
  destruct (bitmap_block _ Hg) as [Hb0 Hbc]. unfold put_bitmap. wp_step.
  eapply wp_mono; [apply mounted_write_block; try done|done|]; [rewrite length_alter, length_area; lia|].
  intros [] s1 Hw1. change (l_bitmaps L !!! _ * l_bs L) with (rstart L (RBitmap (group_of L b))) in Hw1.
  rewrite store_at_alter, Z2Nat.id in Hw1 by lia. fold (bit_addr L b) in Hw1.
  pose proof (with_becomes _ _ _ Hm Hw1) as (Hm1 & Ei1 & Ed1 & EF1). wp_step. wp_step. wp_step. wp_step.
  set (s2 := s1 <| e_ctx ::= set_gd (group_of L b) fgd |> <| e_ctx ::= λ c, c <| c_sb ::= fsb |> |>).
  assert (mounted s2) as Hm2.
  { apply (keeps_mounted (λ c, c <| c_sb ::= fsb |>)); [by apply set_sb_layout|].
    apply (keeps_mounted (set_gd _ fgd)); [by apply set_gd_layout|done]. }
  eapply wp_mono; [by apply sync_wp|done|]. intros [] s3 (F3 & Hw3 & HF3).
  change (dsk s2) with (dsk s1) in HF3. rewrite EF1 in HF3. exists F3.
  pose proof (with_becomes _ _ _ Hm2 Hw3) as (Hm3 & Ei3 & Ed3 & EF3).
  destruct (bit_addr_region _ _ G b Hb) as [Hv Hr]. split; [exact (conj Hm3 (conj (eq_trans Ei3 Ei1) (conj (eq_trans Ed3 Ed1) EF3)))|]. split.
  - intros a Ha1 Ha2 Ha3. rewrite HF3 by done. apply store_at_out. simpl. intros Hx.
    apply (Ha3 (group_of L b) Hv). by replace a with (bit_addr L b) by lia.
  - intros b' Hb'. destruct (bit_addr_region _ _ G b' Hb') as [Hv' _]. etrans; [|by apply (used_store L cap G)].
    apply (used_frame L cap G); [done|]. intros a Ha.
    apply HF3; intros Hx; [pose proof (ge_disjoint _ _ G _ RSuper _ Hv' I Ha Hx)|pose proof (ge_disjoint _ _ G _ RGdt _ Hv' I Ha Hx)]; done.
Qed.

(** The search for a clear bit in a bitmap. *)
Lemma find_clear_wp n F base bi (s : e2state D) :
  0 ≤ bi → bi + Z.of_nat n ≤ 8 * l_bs L →
  wp (find_clear n (area F base (l_bs L)) bi) never
    (λ o s', s' = s ∧
       match o with
       | Some k => bi ≤ k < bi + Z.of_nat n ∧ Z.testbit (F (base + k / 8)) (k mod 8) = false
       | None => ∀ k, bi ≤ k < bi + Z.of_nat n → Z.testbit (F (base + k / 8)) (k mod 8) = true
       end) s.
Proof.
  revert bi. induction n as [|n IH]; intros bi H0 Hle; simpl.
  { wp_step. split; [done|]. intros. lia. }
  destruct (bit_index bi H0) as [E1 E2]. assert (0 ≤ bi / 8 < l_bs L) as Hk by (split; [apply Z.div_pos; lia|apply Z.div_lt_upper_bound; lia]).
  wp_step. unfold bit_of. rewrite E1, E2. wp_step. eapply (wp_at_index _ _ (F (base + bi / 8))); [lia| |].
  { rewrite area_lookup by lia. do 2 f_equal. lia. }
  wp_step. rewrite has_flag_bit by (apply Z.mod_pos_bound; lia). destruct (Z.testbit _ _) eqn:Eb; simpl.
  - eapply wp_mono; [apply IH; lia|done|]. intros [k|] s' [-> Hs]; (split; [done|]); [destruct Hs; split; [lia|done]|].
    intros k Hk'. destruct (decide (k = bi)) as [->|]; [done|]. apply Hs. lia.
  - wp_step. split; [done|]. split; [lia|done].
Qed.

(** The bit of a block, by its group. *)
Lemma used_bit F g bi b :
  0 ≤ bi < l_bpg L → b = l_fdb L + g * l_bpg L + bi →
  used L F b ↔ Z.testbit (F (rstart L (RBitmap g) + bi / 8)) (bi mod 8) = true.
Proof. intros Hbi Hb. destruct (group_bit L b g bi Hbi Hb) as [E1 E2]. unfold used, bit_addr. by rewrite E1, E2. Qed.

(** What a successful allocation does. *)
Definition allocated (s : e2state D) (blk : Z) (s' : e2state D) : Prop :=
  in_range L blk ∧ ¬ used L (dsk s) blk ∧
  ∃ F', becomes F' s s' ∧ alloc_frame (dsk s) F' ∧ used_change (dsk s) F' blk true.

Lemma allocated_after s s1 blk s2 : with_disk (dsk s) s s1 → allocated s1 blk s2 → allocated s blk s2.
Proof.
  intros (Ec & Ei & Ed & _ & _ & EF) (Hir & Hnu & F' & Hbec & Hfr & Hch). rewrite EF in *. split; [done|]. split; [done|].
  exists F'. split; [|done]. destruct Hbec as (? & ? & ? & ?). split; [done|]. split_and!; congruence.
Qed.

Lemma take_block_wp g bi gd s :
  mounted s → 0 ≤ g < l_gc L → 0 ≤ bi < l_bpg L → g * l_bpg L + bi < l_bc L - l_fdb L →
  block_bitmap gd = l_bitmaps L !!! Z.to_nat g →
  ¬ used L (dsk s) (l_fdb L + g * l_bpg L + bi) →
  wp (take_block ops B g (g * l_bpg L) bi gd (area (dsk s) (rstart L (RBitmap g)) (l_bs L))) never (allocated s) s.
Proof.
  intros Hm Hg Hbi Hlt Hgd Hu. set (b := l_fdb L + g * l_bpg L + bi) in *. pose proof (ge_blocks _ _ G) as Hbl.
  assert (in_range L b) as Hb by (unfold in_range; nia). destruct (group_bit L b g bi Hbi eq_refl) as [Eg Ebi].
  destruct (bit_index bi ltac:(lia)) as [E1 E2]. unfold take_block. wp_step. unfold set_bit. rewrite E1, E2, Hgd.
  rewrite <- Eg, <- Ebi. eapply wp_mono; [apply (put_bitmap_wp b _ true); try done|done|].
  - intros n. rewrite lor_bit by (apply Z.mod_pos_bound; lia). case_decide as En.
    + by rewrite (proj2 (Z.eqb_eq _ _)).
    + by rewrite (proj2 (Z.eqb_neq _ _)) by congruence.
  - intros gd0. apply gd_count_ok.
  - intros sb0. apply sb_count_ok.
  - intros [] s1 (F' & Hbec & Hfr & Hch). wp_step. wp_step. wp_step. pose proof Hbec as (Hm1 & _).
    destruct (layout_fields s1 Hm1) as (_ & _ & _ & Ef & _). rewrite Ef, Eg, Ebi. fold b. destruct Hb.
    rewrite u32_small by (change (2 ^ 32) with 4294967296 in *; lia). split; [done|]. split; [done|]. by exists F'.
Qed.

(** Whatever order the groups come in, the search ends with a free block, or
    with no change. *)
Lemma alloc_groups_wp gs s :
  mounted s → Forall (λ g, 0 ≤ g < l_gc L) gs →
  wp (alloc_groups ops B (l_bc L - l_fdb L) gs)
    (λ e s', e = Err RDNX_E_GENERIC ∧ with_disk (dsk s) s s') (allocated s) s.
Proof.
  intros Hm Hgs. revert s Hm. induction Hgs as [|g gs Hg _ IH]; intros s Hm.
  { apply wp_throw. split; [done|apply with_disk_refl]. }
  pose proof (ge_bpg _ _ G) as Hbpg. pose proof (ge_groups _ _ G) as Hgr. pose proof (ge_blocks _ _ G) as Hbl.
  cbn [alloc_groups]. wp_step. wp_step. wp_step. destruct (gdt_lookup s g Hm Hg) as (gd & Hgd & Eb & _ & Hpos & _).
  eapply wp_at_index; [lia|done|]. destruct (layout_fields s Hm) as (_ & _ & _ & _ & _ & Ebpg & _). rewrite Ebpg.
  assert (g * l_bpg L < l_bc L - l_fdb L) as Hin by nia.
  rewrite (u32_small (g * l_bpg L)) by (change (2 ^ 32) with 4294967296 in *; nia). case_if; [by apply IH|].
  rewrite (proj2 (Z.leb_gt _ _)) by lia. destruct (bitmap_block g Hg) as [Hb0 Hbc]. rewrite Eb. wp_step.
  eapply wp_mono; [by apply mounted_read_block|done|]. intros buf s1 [-> Hw1]. simpl.
  pose proof (with_becomes _ _ _ Hm Hw1) as (Hm1 & Ei1 & Ed1 & EF1). wp_step.
  eapply wp_mono; [apply find_clear_wp; lia|done|]. intros [bi|] s2 [-> Hs].
  - destruct Hs as [Hr Ht]. rewrite <- EF1. eapply wp_mono; [apply take_block_wp; try done; try lia|done|].
    + rewrite (used_bit _ g bi) by (try done; lia). rewrite EF1. simpl. by rewrite Ht.
    + intros blk s3. by apply allocated_after.
  - eapply wp_mono; [by apply IH| |].
    + intros e s3 [-> Hw]. rewrite EF1 in Hw. split; [done|]. by eapply with_disk_trans.
    + intros blk s3. by apply allocated_after.
Qed.

Lemma alloc_block_wp s :
  mounted s →
  wp (ext2_alloc_block ops B) (λ e s', e = Err RDNX_E_GENERIC ∧ with_disk (dsk s) s s') (allocated s) s.
Proof.
  intros Hm. destruct (layout_fields s Hm) as (Eb & _ & Eg & Ef & Ec & _ & _ & _ & Hgdt). pose proof (bs_pos _ _ G).
  pose proof (ge_blocks _ _ G) as Hbl. unfold ext2_alloc_block. wp_step. wp_step. rewrite Hgdt, (proj2 (Z.eqb_neq _ 0)) by lia.
  cbn [orb]. case_if. { wp_step. split; [done|apply with_disk_refl]. }
  rewrite Ec, Ef, Eg. rewrite (u32_small (l_bc L - l_fdb L)) by (change (2 ^ 32) with 4294967296 in *; lia).
  apply alloc_groups_wp; [done|]. apply Forall_forall. intros g. rewrite elem_of_seqZ. lia.
Qed.

(** What freeing a block does. *)
Definition freed (s : e2state D) (blk : Z) (s' : e2state D) : Prop :=
  ∃ F', becomes F' s s' ∧ alloc_frame (dsk s) F' ∧ used_change (dsk s) F' blk false.

Lemma free_block_wp blk s :
  mounted s → in_range L blk → wp (ext2_free_block ops B blk) never (λ _ s', freed s blk s') s.
Proof.
  intros Hm Hb. destruct (layout_fields s Hm) as (Eb & _ & Eg & Ef & Ec & Ep & _ & _ & Hgdt). pose proof (bs_pos _ _ G) as Hbs.
  pose proof (ge_blocks _ _ G) as Hbl. pose proof (ge_bpg _ _ G) as Hbpg. destruct (group_of_range _ _ G blk Hb) as [Hg Hn].
  destruct (Hb) as [Hb1 Hb2]. unfold ext2_free_block. wp_step. wp_step. rewrite Hgdt, (proj2 (Z.eqb_neq _ 0)) by lia.
  cbn [orb]. rewrite Ef, Ec, Ep, Eg. rewrite (proj2 (Z.ltb_ge _ _)), (proj2 (Z.leb_gt _ blk)) by lia. cbn [orb].
  rewrite (u32_small (l_bc L - l_fdb L)) by (change (2 ^ 32) with 4294967296 in *; lia).
  rewrite (proj2 (Z.leb_gt _ (blk - l_fdb L))), (proj2 (Z.eqb_neq (l_bpg L) 0)) by lia. cbn [orb].
  fold (group_of L blk) (bit_no L blk). rewrite (proj2 (Z.leb_gt _ (group_of L blk))) by lia.
  destruct (gdt_lookup s _ Hm Hg) as (gd & Hgd & Eb' & _ & Hpos & _). wp_step. eapply wp_at_index; [lia|done|].
  rewrite (proj2 (Z.eqb_neq (block_bitmap gd) 0)) by lia. rewrite Eb'. destruct (bitmap_block _ Hg) as [Hb0 Hbc].
  wp_step. eapply wp_mono; [by apply mounted_read_block|done|]. intros buf s1 [-> Hw1]. simpl.
  pose proof (with_becomes _ _ _ Hm Hw1) as (Hm1 & Ei1 & Ed1 & EF1). wp_step. unfold bit_of.
  destruct (bit_index (bit_no L blk) ltac:(lia)) as [E1 E2]. rewrite E1, E2.
  assert (0 ≤ bit_no L blk / 8 < l_bs L) as Hk by (split; [apply Z.div_pos; lia|apply Z.div_lt_upper_bound; lia]).
  wp_step. eapply (wp_at_index _ _ (dsk s (bit_addr L blk))); [lia| |].
  { rewrite area_lookup by lia. unfold bit_addr. simpl. do 2 f_equal. lia. }
  wp_step. rewrite has_flag_bit by (apply Z.mod_pos_bound; lia).
  destruct (Z.testbit _ _) eqn:Eu; cbn [negb].
  - unfold clear_bit. rewrite E1, E2. rewrite <- EF1 in Eu |- *.
    change (l_bitmaps L !!! _ * l_bs L) with (rstart L (RBitmap (group_of L blk))).
    eapply wp_mono; [apply (put_bitmap_wp blk _ false); try done|done|].
    + intros n. rewrite ldiff_bit by (apply Z.mod_pos_bound; lia). case_decide as En.
      * rewrite (proj2 (Z.eqb_eq _ _)) by done. apply andb_false_r.
      * rewrite (proj2 (Z.eqb_neq _ _)) by congruence. apply andb_true_r.
    + intros gd0. apply gd_count_ok.
    + intros sb0. apply sb_count_ok.
    + intros [] s2 (F' & Hbec & Hfr & Hch). rewrite EF1 in Hfr, Hch. exists F'. split_and!; try done.
      eapply becomes_trans; [|done]. by split_and!.
  - wp_step. exists (dsk s). split; [by apply with_becomes|]. split; [done|]. intros b' Hb'. case_decide as Ex; [|done].
    subst b'. unfold used. by rewrite Eu.
Qed.

(** A block of zeroes. *)
Lemma zero_block_wp blk s :
  mounted s → in_range L blk → 0 < blk →
  wp (ext2_zero_block ops B blk) never
    (λ _ s', with_disk (store_at (blk * l_bs L) (zeros (l_bs L)) (dsk s)) s s') s.
Proof.
  intros Hm Hb Hpos. destruct (layout_fields s Hm) as (Eb & _). destruct (block_cap _ _ G blk Hb). pose proof (bs_pos _ _ G).
  unfold ext2_zero_block. wp_step. wp_step. rewrite (proj2 (Z.eqb_neq _ 0)) by lia. rewrite Eb.
  apply mounted_write_block; try done. apply length_zeros. lia.
Qed.

End Alloc.
End Ext2Alloc.

(** * ext2: inodes and the blocks of a file

    A file is its inode and the blocks that the inode names, directly or
    through tables.  Every place that holds a block number is a [slot]; the
    blocks of a well-formed file are used, hold no metadata, and are in one slot
    each.  The content of the file is [fbyte]: a block that is not there reads
    as zeroes. *)
Module Ext2File.
Import PathSpec Vfs VfsFile BlockDev Ext2 Ext2Io Ext2Layout Ext2Alloc.

(** ** Fields of the inode *)
Lemma i_block_set k v ino j :
  Z.of_nat (length ino) = 128 → 0 ≤ k ≤ 13 → 0 ≤ j ≤ 13 → in_u32 v →
  i_block (set_i_block k v ino) j = if decide (j = k) then v else i_block ino j.
Proof.
  intros Hl Hk Hj Hv. unfold i_block, set_i_block. case_decide as E.
  - subst j. apply get32_put32; [lia|lia|done].
  - apply get32_put32_other; lia.
Qed.

Lemma i_block_blocks v ino j : 0 ≤ j ≤ 13 → i_block (set_i_blocks v ino) j = i_block ino j.
Proof. intros. unfold i_block, set_i_blocks. apply get32_put32_other; lia. Qed.

Lemma i_block_size v ino j : 0 ≤ j ≤ 13 → i_block (set_ino_size v ino) j = i_block ino j.
Proof. intros. unfold i_block, set_ino_size. rewrite !get32_put32_other by lia. done. Qed.

Lemma length_set_i_block k v ino : length (set_i_block k v ino) = length ino.
Proof. apply length_bput. Qed.
Lemma length_set_i_blocks v ino : length (set_i_blocks v ino) = length ino.
Proof. apply length_bput. Qed.
Lemma length_set_ino_size v ino : length (set_ino_size v ino) = length ino.
Proof. unfold set_ino_size, put32. by rewrite !length_bput. Qed.

(** The type and the size of a file. *)
Definition same_kind (ino ino' : ext2_inode_t) : Prop :=
  i_mode ino' = i_mode ino ∧ size_lo ino' = size_lo ino ∧ size_high ino' = size_high ino.

Lemma same_kind_refl ino : same_kind ino ino.
Proof. done. Qed.
Lemma same_kind_trans a b c : same_kind a b → same_kind b c → same_kind a c.
Proof. intros (?&?&?) (?&?&?). split_and!; congruence. Qed.
Lemma same_kind_blocks v ino : same_kind ino (set_i_blocks v ino).
Proof.
  unfold same_kind, i_mode, size_lo, size_high, set_i_blocks. rewrite get16_put32_other, !get32_put32_other by lia. done.
Qed.
Lemma same_kind_block k v ino : 0 ≤ k ≤ 13 → same_kind ino (set_i_block k v ino).
Proof.
  intros. unfold same_kind, i_mode, size_lo, size_high, set_i_block. rewrite get16_put32_other, !get32_put32_other by lia. done.
Qed.
Lemma same_kind_size ino ino' : same_kind ino ino' → ext2_inode_size_bytes ino' = ext2_inode_size_bytes ino.
Proof. intros (_ & E1 & E2). unfold ext2_inode_size_bytes. by rewrite E1, E2. Qed.

(** ** Slots *)
Inductive slot := SIno (k : Z) | SOne (k : Z) | STwo (k : Z) | SSub (k j : Z).

#[export] Instance slot_eq_dec : EqDecision slot.
Proof. solve_decision. Defined.

(** The slot of the table that holds the slot, and the index in the table. *)
Definition sparent (sl : slot) : option slot :=
  match sl with
  | SIno _ => None
  | SOne _ => Some (SIno 12)
  | STwo _ => Some (SIno 13)
  | SSub k _ => Some (STwo k)
  end.
Definition sindex (sl : slot) : Z := match sl with SIno k | SOne k | STwo k => k | SSub _ j => j end.

Lemma sparent_ne sl : sparent sl ≠ Some sl.
Proof. by destruct sl. Qed.

Section File.
Context (L : layout).

Definition per_block : Z := l_bs L / 4.
Definition svalid (sl : slot) : Prop :=
  match sl with
  | SIno k => 0 ≤ k ≤ 13
  | SOne k | STwo k => 0 ≤ k < per_block
  | SSub k j => 0 ≤ k < per_block ∧ 0 ≤ j < per_block
  end.

(** Entry [k] of the table in block [t]. *)
Definition ptr (F : Z → Z) (t k : Z) : Z := word32 F (t * l_bs L + 4 * k).
Definition through (F : Z → Z) (t k : Z) : Z := if t =? 0 then 0 else ptr F t k.

Definition slot_val (F : Z → Z) (ino : ext2_inode_t) (sl : slot) : Z :=
  match sl with
  | SIno k => i_block ino k
  | SOne k => through F (i_block ino 12) k
  | STwo k => through F (i_block ino 13) k
  | SSub k j => through F (through F (i_block ino 13) k) j
  end.

Lemma slot_val_parent F ino sl p : sparent sl = Some p → slot_val F ino sl = through F (slot_val F ino p) (sindex sl).
Proof. by destruct sl; intros [= <-]. Qed.

Lemma svalid_parent sl p : svalid sl → sparent sl = Some p → svalid p ∧ 0 ≤ sindex sl < per_block.
Proof. destruct sl; intros Hv [= <-]; simpl in *; lia. Qed.

Lemma sindex_inj sl sl' p : sparent sl = Some p → sparent sl' = Some p → sindex sl = sindex sl' → sl = sl'.
Proof. destruct sl, sl'; simpl; intros; simplify_eq; done. Qed.

(** The slot of a logical block, and the number of logical blocks. *)
Definition max_blocks : Z := EXT2_NDIR_BLOCKS + per_block + per_block * per_block.
Definition slot_of (lbn : Z) : slot :=
  let idx := lbn - EXT2_NDIR_BLOCKS in
  let idx2 := idx - per_block in
  if lbn <? EXT2_NDIR_BLOCKS then SIno lbn
  else if idx <? per_block then SOne idx
  else SSub (idx2 / per_block) (idx2 mod per_block).

(** The byte of a file at a position. *)
Definition fbyte (F : Z → Z) (ino : ext2_inode_t) (p : Z) : Z :=
  let b := slot_val F ino (slot_of (p / l_bs L)) in
  if b =? 0 then 0 else F (b * l_bs L + p mod l_bs L).

(** A well-formed file. *)
Record file_ok (F : Z → Z) (ino : ext2_inode_t) : Prop := {
  fo_len : Z.of_nat (length ino) = INODE_STRUCT_SIZE;
  fo_blk : ∀ sl, svalid sl → slot_val F ino sl ≠ 0 →
    in_range L (slot_val F ino sl) ∧ used L F (slot_val F ino sl) ∧ plain L (slot_val F ino sl);
  fo_inj : ∀ sl sl', svalid sl → svalid sl' → slot_val F ino sl ≠ 0 → slot_val F ino sl = slot_val F ino sl' → sl = sl'
}.

(** A block of another file. *)
Definition foreign (F : Z → Z) (ino : ext2_inode_t) (b : Z) : Prop :=
  in_range L b ∧ used L F b ∧ plain L b ∧ ∀ sl, svalid sl → slot_val F ino sl ≠ b.

Section Geometry.
Context (cap : Z) (G : geom L cap).

Lemma per_block_bs : l_bs L = 4 * per_block ∧ 256 ≤ per_block ≤ 1024.
Proof. unfold per_block. destruct (ge_bs _ _ G) as [->|[->| ->]]; vm_compute; split; try done; split; done. Qed.

Lemma slot_of_valid lbn : 0 ≤ lbn < max_blocks → svalid (slot_of lbn) ∧ slot_of lbn ≠ SIno 12 ∧ slot_of lbn ≠ SIno 13
  ∧ ∀ k, slot_of lbn ≠ STwo k.
Proof.
  destruct per_block_bs as [_ Hpb]. unfold max_blocks, slot_of, EXT2_NDIR_BLOCKS. intros Hl.
  destruct (Z.ltb_spec lbn 12); [|destruct (Z.ltb_spec (lbn - 12) per_block)]; simpl.
  - split_and!; try done; try lia; intros [=]; lia.
  - split_and!; try done; lia.
  - split_and!; try done; [apply Z.div_pos; lia|apply Z.div_lt_upper_bound; lia|apply Z.mod_pos_bound; lia..].
Qed.

(** A slot of the content is no table. *)
Lemma slot_of_leaf lbn sl : 0 ≤ lbn < max_blocks → sparent sl ≠ Some (slot_of lbn).
Proof.
  intros Hl Hp. destruct (slot_of_valid lbn Hl) as (_ & H12 & H13 & Htwo). destruct sl; simplify_eq/=; try done.
  by apply (Htwo k).
Qed.

Lemma slot_of_inj lbn lbn' : 0 ≤ lbn < max_blocks → 0 ≤ lbn' < max_blocks → slot_of lbn = slot_of lbn' → lbn = lbn'.
Proof.
  destruct per_block_bs as [_ Hpb]. unfold max_blocks, slot_of, EXT2_NDIR_BLOCKS. intros Hl Hl'.
  destruct (Z.ltb_spec lbn 12), (Z.ltb_spec lbn' 12); try (by intros [=]);
  destruct (Z.ltb_spec (lbn - 12) per_block), (Z.ltb_spec (lbn' - 12) per_block); intros [=]; try lia.
  pose proof (Z.div_mod (lbn - 12 - per_block) per_block ltac:(lia)).
  pose proof (Z.div_mod (lbn' - 12 - per_block) per_block ltac:(lia)). lia.
Qed.

(** ** Giving a slot a block *)

(** [F'] and [ino'] have the new block [blk] in the slot [sl]. *)
Record linked (F : Z → Z) (ino : ext2_inode_t) (sl : slot) (blk : Z) (F' : Z → Z) (ino' : ext2_inode_t) : Prop := {
  lk_ino : ∀ k, 0 ≤ k ≤ 13 → i_block ino' k = if decide (SIno k = sl) then blk else i_block ino k;
  lk_ptr : ∀ sl' p, svalid sl' → sparent sl' = Some p → slot_val F ino p ≠ 0 →
    ptr F' (slot_val F ino p) (sindex sl') = if decide (sl' = sl) then blk else ptr F (slot_val F ino p) (sindex sl');
  lk_zero : ∀ a, in_block L blk a → F' a = 0;
  lk_keep : ∀ b, plain L b → b ≠ blk → (∀ p, sparent sl = Some p → slot_val F ino p ≠ b) →
    ∀ a, in_block L b a → F' a = F a;
  lk_used : ∀ b, in_range L b → used L F' b ↔ if decide (b = blk) then true = true else used L F b;
  lk_len : length ino' = length ino
}.

Section Linked.
Context (F : Z → Z) (ino : ext2_inode_t) (sl : slot) (blk : Z) (F' : Z → Z) (ino' : ext2_inode_t).
Context (K : linked F ino sl blk F' ino') (OK : file_ok F ino).
Context (Hsl : svalid sl) (Hnone : slot_val F ino sl = 0) (Hpar : ∀ p, sparent sl = Some p → slot_val F ino p ≠ 0).
Context (Hblk : blk ≠ 0) (Hr : in_range L blk) (Hfree : ¬ used L F blk) (Hplain : plain L blk).

Lemma zero_ptr k : 0 ≤ k < per_block → ptr F' blk k = 0.
Proof.
  intros Hk. destruct per_block_bs as [Eb _]. unfold ptr, word32.
  rewrite (area_ext F' (λ _, 0)); [done|]. intros j Hj. apply (lk_zero _ _ _ _ _ _ K). unfold in_block. lia.
Qed.

Lemma linked_below sl' p :
  svalid sl' → sparent sl' = Some p →
  slot_val F' ino' p = (if decide (p = sl) then blk else slot_val F ino p) →
  slot_val F' ino' sl' = if decide (sl' = sl) then blk else slot_val F ino sl'.
Proof.
  intros Hv Hp Ep. destruct (svalid_parent _ _ Hv Hp) as [Hvp Hi]. rewrite (slot_val_parent _ _ _ _ Hp), Ep.
  case_decide as Eq.
  - subst p. rewrite decide_False by (intros ->; by apply (sparent_ne sl)). rewrite (slot_val_parent F _ _ _ Hp), Hnone. simpl.
    unfold through. rewrite (proj2 (Z.eqb_neq _ _)) by done. by apply zero_ptr.
  - rewrite (slot_val_parent F _ _ _ Hp). unfold through. destruct (Z.eqb_spec (slot_val F ino p) 0) as [E0|E0].
    + rewrite decide_False; [done|]. intros ->. by apply (Hpar p).
    + by apply K.
Qed.

Lemma linked_val sl' : svalid sl' → slot_val F' ino' sl' = if decide (sl' = sl) then blk else slot_val F ino sl'.
Proof.
  assert (∀ k, 0 ≤ k ≤ 13 → slot_val F' ino' (SIno k) = if decide (SIno k = sl) then blk else slot_val F ino (SIno k)) as HI.
  { intros k Hk. by apply K. }
  assert (∀ k, 0 ≤ k < per_block → slot_val F' ino' (STwo k) = if decide (STwo k = sl) then blk else slot_val F ino (STwo k)) as HT.
  { intros k Hk. eapply linked_below; [done|done|]. apply HI. lia. }
  intros Hv. destruct sl' as [k|k|k|k j]; simpl in Hv.
  - by apply HI.
  - eapply linked_below; [done|done|]. apply HI. lia.
  - by apply HT.
  - eapply linked_below; [done|done|]. apply HT; lia.
Qed.

Lemma linked_ok : file_ok F' ino'.
Proof.
  split.
  - rewrite (lk_len _ _ _ _ _ _ K). apply OK.
  - intros sl' Hv. rewrite linked_val by done. case_decide as E.
    + intros _. split; [done|]. split; [|done]. apply (lk_used _ _ _ _ _ _ K); [done|]. by rewrite decide_True.
    + intros H0. destruct (fo_blk _ _ OK sl' Hv H0) as (H1 & H2 & H3). split; [done|]. split; [|done].
      apply (lk_used _ _ _ _ _ _ K); [done|]. case_decide; done.
  - intros s1 s2 H1 H2. rewrite !linked_val by done.
    assert (∀ s3, svalid s3 → slot_val F ino s3 ≠ blk) as Hne.
    { intros s3 H3 E3. apply Hfree. rewrite <- E3. apply (fo_blk _ _ OK s3 H3). by rewrite E3. }
    repeat case_decide; subst; try done.
    + intros _ E. symmetry in E. by apply Hne in E.
    + intros _ E. by apply Hne in E.
    + by apply OK.
Qed.

Lemma linked_foreign b : foreign F ino b → foreign F' ino' b ∧ ∀ a, in_block L b a → F' a = F a.
Proof.
  intros (Hb & Hu & Hp & Ho). assert (b ≠ blk) as Hne by (by intros ->).
  split; [split_and!; try done|].
  - apply (lk_used _ _ _ _ _ _ K); [done|]. by rewrite decide_False.
  - intros s1 H1. rewrite linked_val by done. case_decide; [congruence|by apply Ho].
  - apply (lk_keep _ _ _ _ _ _ K); try done. intros p Hq. apply Ho. by apply (svalid_parent _ _ Hsl Hq).
Qed.

Lemma linked_fbyte p : 0 ≤ p / l_bs L < max_blocks → fbyte F' ino' p = fbyte F ino p.
Proof.
  intros Hp. destruct (slot_of_valid _ Hp) as (Hv & _). pose proof (bs_pos _ _ G) as Hbs.
  pose proof (Z.mod_pos_bound p (l_bs L) ltac:(lia)) as Hm. unfold fbyte. rewrite linked_val by done. case_decide as E.
  - rewrite E, Hnone. simpl. rewrite (proj2 (Z.eqb_neq _ _)) by done. apply (lk_zero _ _ _ _ _ _ K). unfold in_block. lia.
  - destruct (Z.eqb_spec (slot_val F ino (slot_of (p / l_bs L))) 0) as [E0|E0]; [done|].
    destruct (fo_blk _ _ OK _ Hv E0) as (H1 & H2 & H3). apply (lk_keep _ _ _ _ _ _ K _ H3); [by intros E1; rewrite E1 in H2| |].
    + intros q Hq Eq. destruct (svalid_parent _ _ Hsl Hq) as [Hvq _]. apply (slot_of_leaf _ sl Hp). rewrite Hq. f_equal.
      apply (fo_inj _ _ OK); try done. by rewrite Eq.
    + unfold in_block. lia.
Qed.

End Linked.
End Geometry.
End File.
End Ext2File.
