(* ===== verification/Ext2Write.v ===== *)
(** * ext2: writing a file

    A block that is allocated for a file changes neither the content of the
    file nor the blocks and inodes of the others, and
    [ext2_writeback_file] replaces exactly the bytes it is given. *)

From Stdlib Require Import FunctionalExtensionality.
From stdpp Require Import base gmap list numbers fin_maps.
From S2P Require Import Prelude Bytes PathSpec Vfs VfsFile BlockDev Ext2 Ext2Io Ext2Alloc.

Module Ext2Write.
Import PathSpec Vfs VfsFile BlockDev Ext2 Ext2Io Ext2Layout Ext2Alloc Ext2File.

Lemma word32_ext F F' a : (∀ j, 0 ≤ j < 4 → F' (a + j) = F (a + j)) → word32 F' a = word32 F a.
Proof. intros H. unfold word32. f_equal. by apply area_ext. Qed.

Lemma word32_store F a v : in_u32 v → word32 (store_at a (le_bytes 4 v) F) a = v.
Proof.
  intros Hv. unfold word32. pose proof (area_store_same a (le_bytes 4 v) F) as E. rewrite length_le_bytes in E.
  change (Z.of_nat 4) with 4 in E. rewrite E. apply le_value_bytes. simpl. lia.
Qed.

Lemma bput_whole d l : length d = length l → bput 0 d l = d.
Proof.
  intros Hl. apply list_eq. intros k. unfold bput. destruct (decide (k < length d)%nat).
  - rewrite list_lookup_inserts by lia. f_equal. lia.
  - rewrite list_lookup_inserts_ge by lia. rewrite !lookup_ge_None_2 by lia. done.
Qed.

Section Places.
Context (L : layout) (cap : Z) (G : geom L cap).

(** The place of an inode. *)
Definition ino_group (n : Z) : Z := (n - 1) / l_ipg L.
Definition ino_place (n : Z) : Z := rstart L (RTable (ino_group n)) + (n - 1) mod l_ipg L * l_isz L.
Definition ino_valid (n : Z) : Prop := 1 ≤ n ∧ ino_group n < l_gc L.
Definition inode_at (F : Z → Z) (n : Z) : ext2_inode_t := area F (ino_place n) INODE_STRUCT_SIZE.

Lemma ino_region n a :
  ino_valid n → ino_place n ≤ a < ino_place n + l_isz L →
  rvalid L (RTable (ino_group n)) ∧ in_region L (RTable (ino_group n)) a.
Proof.
  intros [Hn Hg] Ha. pose proof (ge_ipg _ _ G). pose proof (ge_isz _ _ G).
  assert (0 ≤ ino_group n) by (apply Z.div_pos; lia). split; [simpl; lia|].
  pose proof (Z.mod_pos_bound (n - 1) (l_ipg L) ltac:(lia)). unfold in_region, ino_place in *. simpl rlen. nia.
Qed.

Lemma ino_meta n a : ino_valid n → ino_place n ≤ a < ino_place n + l_isz L → meta L a.
Proof. intros Hn Ha. exists (RTable (ino_group n)). by apply ino_region. Qed.

(** The inodes do not overlap. *)
Lemma ino_disjoint n m a :
  ino_valid n → ino_valid m → ino_place n ≤ a < ino_place n + l_isz L → ino_place m ≤ a < ino_place m + l_isz L → n = m.
Proof.
  intros Hn Hm Ha Hb. destruct (ino_region n a Hn Ha) as [V1 R1], (ino_region m a Hm Hb) as [V2 R2].
  pose proof (ge_disjoint _ _ G _ _ _ V1 V2 R1 R2) as [= Eg]. pose proof (ge_ipg _ _ G). pose proof (ge_isz _ _ G).
  unfold ino_place in *. rewrite Eg in Ha. assert ((n - 1) mod l_ipg L = (m - 1) mod l_ipg L) as Em by nia.
  unfold ino_group in Eg. pose proof (Z.div_mod (n - 1) (l_ipg L) ltac:(lia)).
  pose proof (Z.div_mod (m - 1) (l_ipg L) ltac:(lia)). rewrite Eg, Em in *. lia.
Qed.

Lemma inode_at_frame F F' n : (∀ a, ino_place n ≤ a < ino_place n + l_isz L → F' a = F a) → inode_at F' n = inode_at F n.
Proof. intros H. pose proof (ge_isz _ _ G). unfold inode_at. apply area_ext. intros k Hk. apply H. unfold INODE_STRUCT_SIZE in Hk. lia. Qed.

(** Storing an inode. *)
Lemma inode_at_store F n ino m :
  ino_valid n → ino_valid m → Z.of_nat (length ino) = INODE_STRUCT_SIZE →
  inode_at (store_at (ino_place n) ino F) m = if decide (m = n) then ino else inode_at F m.
Proof.
  intros Hn Hm Hl. pose proof (ge_isz _ _ G). case_decide as E.
  - subst m. unfold inode_at. rewrite <- Hl. apply area_store_same.
  - apply inode_at_frame. intros a Ha. apply store_at_out. intros Hx. apply E. rewrite Hl in Hx. unfold INODE_STRUCT_SIZE in Hx.
    apply (ino_disjoint m n a); try done. lia.
Qed.

(** A store of an inode keeps the blocks without metadata, and the bits. *)
Lemma store_ino_plain F n ino a :
  ino_valid n → Z.of_nat (length ino) = INODE_STRUCT_SIZE → ¬ meta L a → store_at (ino_place n) ino F a = F a.
Proof.
  intros Hn Hl Ha. apply store_at_out. intros Hx. apply Ha. apply (ino_meta n); [done|]. pose proof (ge_isz _ _ G).
  rewrite Hl in Hx. unfold INODE_STRUCT_SIZE in Hx. lia.
Qed.

Lemma store_ino_used F n ino b :
  ino_valid n → Z.of_nat (length ino) = INODE_STRUCT_SIZE → in_range L b →
  used L (store_at (ino_place n) ino F) b ↔ used L F b.
Proof.
  intros Hn Hl Hb. apply (used_frame L cap G); [done|]. intros a Ha. apply store_at_out. intros Hx.
  pose proof (ge_isz _ _ G). rewrite Hl in Hx. unfold INODE_STRUCT_SIZE in Hx.
  destruct (ino_region n a Hn ltac:(lia)) as [V R]. destruct (bit_addr_region _ _ G b Hb) as [V' _].
  by pose proof (ge_disjoint _ _ G _ _ _ V V' R Ha).
Qed.

(** A store in a block without metadata keeps the bits and the inodes. *)
Lemma store_plain_meta F b l off :
  plain L b → 0 ≤ off → off + Z.of_nat (length l) ≤ l_bs L → ∀ a, meta L a → store_at (b * l_bs L + off) l F a = F a.
Proof. intros Hp Ho Hl a Ha. apply store_at_out. intros Hx. apply (Hp a); [|done]. unfold in_block. lia. Qed.

(** ** What an operation on a file leaves alone *)
Record preserved (n : Z) (F : Z → Z) (ino : ext2_inode_t) (F' : Z → Z) (ino' : ext2_inode_t) : Prop := {
  pv_foreign : ∀ b, foreign L F ino b → foreign L F' ino' b ∧ ∀ a, in_block L b a → F' a = F a;
  pv_inodes : ∀ m, ino_valid m → m ≠ n → inode_at F' m = inode_at F m
}.

Lemma preserved_refl n F ino : preserved n F ino F ino.
Proof. by split. Qed.

Lemma preserved_trans n F1 i1 F2 i2 F3 i3 :
  preserved n F1 i1 F2 i2 → preserved n F2 i2 F3 i3 → preserved n F1 i1 F3 i3.
Proof.
  intros [P1 Q1] [P2 Q2]. split.
  - intros b Hb. destruct (P1 b Hb) as [Hb2 E1], (P2 b Hb2) as [Hb3 E2]. split; [done|]. intros a Ha. by rewrite E2, E1.
  - intros m Hm Hne. by rewrite Q2, Q1.
Qed.

Definition same_content (F : Z → Z) (ino : ext2_inode_t) (F' : Z → Z) (ino' : ext2_inode_t) : Prop :=
  ∀ p, 0 ≤ p / l_bs L < max_blocks L → fbyte L F' ino' p = fbyte L F ino p.

End Places.

Section Write.
Context {D : Type} (ops : disk_ops D) (B : block_state) (disk : Z → D → Z → Z).
Context (ss : Z) `{!DiskDriver ops ss disk, !ReliableDisk ops}.
Context (L : layout) (cap : Z) (G : geom L cap).
Implicit Types s : e2state D.

Abbreviation dsk := (dsk disk).
Abbreviation with_disk := (with_disk disk).
Abbreviation mounted := (mounted B ss L cap).
Abbreviation becomes := (becomes B disk ss L cap).

(** ** Inodes *)
Lemma inode_offset_wp n s :
  mounted s → ino_valid L n →
  wp (inode_offset (e_ctx s) n) never (λ off s', off = ino_place L n ∧ s' = s) s.
Proof.
  intros Hm [Hn Hg]. destruct (layout_fields B ss L cap G s Hm) as (Eb & Ei & Eg & _ & _ & _ & Ep & _ & Hgdt).
  pose proof (ge_isz _ _ G). pose proof (ge_ipg _ _ G). assert (0 ≤ ino_group L n) as Hgn by (apply Z.div_pos; lia).
  unfold inode_offset. rewrite Hgdt, Ei, Ep, Eg, Eb. rewrite !(proj2 (Z.eqb_neq _ 0)) by lia. cbn [orb].
  fold (ino_group L n). rewrite (proj2 (Z.leb_gt _ _)) by lia.
  destruct (gdt_lookup B ss L cap G s (ino_group L n) Hm ltac:(lia)) as (gd & Hgd & _ & Et & _ & Hpos).
  wp_step. eapply wp_at_index; [lia|done|]. rewrite (proj2 (Z.eqb_neq _ 0)) by lia.
  rewrite (proj2 (Z.ltb_ge _ _)) by (unfold EXT2_MAX_INODE_SIZE; lia). wp_step. split; [|done].
  by rewrite Et.
Qed.

Lemma inode_bytes n s :
  mounted s → ino_valid L n → 0 ≤ ino_place L n ∧ ino_place L n + l_isz L ≤ capacity B (e_ctx s).
Proof.
  intros Hm Hn. pose proof Hm as (_ & _ & _ & _ & ->). pose proof (ge_isz _ _ G). pose proof (ge_ipg _ _ G).
  destruct (ino_region L cap G n (ino_place L n + l_isz L - 1) Hn ltac:(lia)) as [V R].
  pose proof (ge_regions _ _ G _ V). unfold in_region in R. split; [|lia].
  destruct Hn as [Hn Hg]. unfold ino_place. pose proof (Z.mod_pos_bound (n - 1) (l_ipg L) ltac:(lia)).
  destruct (ge_tables _ _ G) as [Hl Hall]. simpl in V.
  destruct (lookup_lt_is_Some_2 (l_tables L) (Z.to_nat (ino_group L n))) as [t Ht]; [lia|].
  pose proof (Forall_lookup_1 _ _ _ _ Hall Ht). simpl. rewrite (list_lookup_total_correct _ _ _ Ht).
  pose proof (bs_pos _ _ G). simpl in *. nia.
Qed.

Lemma read_inode_wp n s :
  mounted s → ino_valid L n →
  wp (ext2_read_inode ops B n) never (λ ino s', ino = inode_at L (dsk s) n ∧ with_disk (dsk s) s s') s.
Proof.
  intros Hm Hn. destruct (layout_fields B ss L cap G s Hm) as (_ & Ei & _). pose proof Hm as (_ & _ & Hok & Hss & _).
  destruct (inode_bytes n s Hm Hn) as [H0 Hc]. pose proof (ge_isz _ _ G). unfold ext2_read_inode. wp_step. wp_step. wp_step.
  eapply wp_mono; [by apply inode_offset_wp|done|]. intros off s' [-> ->]. wp_step. rewrite Ei.
  eapply wp_mono; [apply (read_bytes_wp ops B disk ss); try done; lia|done|]. intros raw s1 [-> Hw]. wp_step. split; [|done].
  assert (take (Z.to_nat INODE_STRUCT_SIZE) (area (dsk s) (ino_place L n) (l_isz L)) = inode_at L (dsk s) n) as ->.
  { pose proof (area_bslice (dsk s) (ino_place L n) (l_isz L) 0 INODE_STRUCT_SIZE) as E. unfold bslice in E.
    change (drop (Z.to_nat 0) ?l) with l in E. rewrite E by (unfold INODE_STRUCT_SIZE; lia). unfold inode_at. f_equal. lia. }
  apply bput_whole. unfold inode_at. rewrite length_area. unfold zeros. by rewrite length_replicate.
Qed.

Lemma write_inode_wp n ino s :
  mounted s → ino_valid L n → Z.of_nat (length ino) = INODE_STRUCT_SIZE →
  wp (ext2_write_inode ops B n ino) never (λ _ s', with_disk (store_at (ino_place L n) ino (dsk s)) s s') s.
Proof.
  intros Hm Hn Hl. destruct (layout_fields B ss L cap G s Hm) as (_ & Ei & _). pose proof Hm as (_ & _ & Hok & Hss & _).
  destruct (inode_bytes n s Hm Hn) as [H0 Hc]. pose proof (ge_isz _ _ G). unfold ext2_write_inode. wp_step. wp_step. wp_step.
  eapply wp_mono; [by apply inode_offset_wp|done|]. intros off s' [-> ->]. wp_step. rewrite Ei.
  eapply wp_mono; [apply (read_bytes_wp ops B disk ss); try done; lia|done|]. intros raw s1 [-> Hw].
  pose proof Hw as (Ec & _ & _ & _ & _ & EF). rewrite take_ge by (unfold INODE_STRUCT_SIZE in *; lia).
  eapply wp_mono; [apply (write_bytes_wp ops B disk ss); rewrite ?Ec, ?length_bput, ?length_area; try done|done|].
  - intros E0. apply (f_equal length) in E0. rewrite length_bput, length_area in E0. simpl in E0. lia.
  - lia.
  - intros [] s2 Hw2. rewrite EF, (store_at_part _ (l_isz L)) in Hw2; [|lia|lia|unfold INODE_STRUCT_SIZE in Hl; lia|rewrite length_area; lia|by right].
    rewrite Z.add_0_r in Hw2. by eapply with_disk_trans.
Qed.

(** ** New blocks *)

(** The regions that an allocation changes. *)
Definition counters (a : Z) : Prop :=
  in_region L RSuper a ∨ in_region L RGdt a ∨ ∃ g, rvalid L (RBitmap g) ∧ in_region L (RBitmap g) a.

Lemma counters_meta a : counters a → meta L a.
Proof. intros [H|[H|(g & Hv & H)]]; [by exists RSuper|by exists RGdt|by exists (RBitmap g)]. Qed.

Lemma counters_table g a : rvalid L (RTable g) → in_region L (RTable g) a → ¬ counters a.
Proof.
  intros V R [H|[H|(g' & Hv & H)]]; [pose proof (ge_disjoint _ _ G _ RSuper _ V I R H)|
    pose proof (ge_disjoint _ _ G _ RGdt _ V I R H)|pose proof (ge_disjoint _ _ G _ _ _ V Hv R H)]; done.
Qed.

(** A block that is not used holds no metadata and is not block 0. *)
Lemma free_plain F b : meta_used L F → in_range L b → ¬ used L F b → plain L b ∧ b ≠ 0.
Proof.
  intros Hmu Hb Hu. assert (plain L b) as Hp.
  { intros a Ha Hm. apply Hu, Hmu; [done|]. intros Hp. by apply (Hp a). }
  split; [done|]. intros ->. apply (Hp 1024); [|exists RSuper; split; [done|unfold in_region; simpl; unfold SUPERBLOCK_SIZE; lia]].
  destruct Hb. pose proof (ge_first _ _ G). unfold in_block. destruct (ge_bs _ _ G) as [|[|]]; lia.
Qed.

(** The disk with a new block of zeroes. *)
Record with_new (F : Z → Z) (blk : Z) (F' : Z → Z) : Prop := {
  wn_range : in_range L blk;
  wn_free : ¬ used L F blk;
  wn_plain : plain L blk;
  wn_pos : blk ≠ 0;
  wn_zero : ∀ a, in_block L blk a → F' a = 0;
  wn_keep : ∀ a, ¬ in_block L blk a → ¬ counters a → F' a = F a;
  wn_used : ∀ b, in_range L b → used L F' b ↔ if decide (b = blk) then true = true else used L F b
}.

Lemma new_block_wp s :
  mounted s → meta_used L (dsk s) →
  wp (new_block ops B) (λ e s', e = Err RDNX_E_GENERIC ∧ with_disk (dsk s) s s')
    (λ blk s', ∃ F', becomes F' s s' ∧ with_new (dsk s) blk F') s.
Proof.
  intros Hm Hmu. unfold new_block. wp_step. eapply wp_mono; [by apply (alloc_block_wp ops B disk ss L cap G)|done|].
  intros blk s1 (Hr & Hu & F1 & Hb1 & Hfr & Hch). destruct (free_plain _ _ Hmu Hr Hu) as [Hp Hne].
  pose proof Hb1 as (Hm1 & _ & _ & EF1). pose proof (ge_blocks _ _ G) as Hbl. wp_step.
  eapply wp_mono; [apply (zero_block_wp ops B disk ss L cap G); try done; destruct Hr; lia|done|].
  intros [] s2 Hw2. wp_step. rewrite EF1 in Hw2. pose proof (bs_pos _ _ G) as Hbs.
  assert (∀ a, ¬ in_block L blk a → store_at (blk * l_bs L) (zeros (l_bs L)) F1 a = F1 a) as Hout.
  { intros a Ha. apply store_at_out. rewrite length_zeros by lia. unfold in_block in Ha. lia. }
  eexists. split; [eapply becomes_trans; [done|by apply with_becomes]|]. split; try done.
  - intros a Ha. unfold in_block in Ha. rewrite store_at_in by (rewrite length_zeros; lia). apply list_lookup_total_correct.
    unfold zeros. apply lookup_replicate. split; [done|]. lia.
  - intros a Ha Hc. rewrite Hout by done. apply Hfr; intros; intros Hx; apply Hc; [by left|by right; left|right; right; eauto].
  - intros b Hb. rewrite <- (Hch b Hb). apply (used_frame L cap G); [done|]. intros a Ha. apply Hout. intros Hx.
    apply (Hp a Hx). exists (RBitmap (group_of L b)). split; [|done]. by apply (bit_addr_region _ _ G).
Qed.

(** ** The file being written *)

(** The state in the middle of an operation on the inode [n]. *)
Record editing (n : Z) (s : e2state D) : Prop := {
  ed_mounted : mounted s;
  ed_meta : meta_used L (dsk s);
  ed_file : file_ok L (dsk s) (e_ino s);
  ed_disk : inode_at L (dsk s) n = e_ino s
}.

(** A step that keeps the content. *)
Definition quiet (n : Z) (s s' : e2state D) : Prop :=
  editing n s' ∧ preserved L n (dsk s) (e_ino s) (dsk s') (e_ino s') ∧
  same_content L (dsk s) (e_ino s) (dsk s') (e_ino s') ∧ same_kind (e_ino s) (e_ino s').

Lemma quietly_trans n s1 s2 s3 : quiet n s1 s2 → quiet n s2 s3 → quiet n s1 s3.
Proof.
  intros (_ & P1 & C1 & K1) (E & P2 & C2 & K2). split; [done|]. split; [by eapply preserved_trans|].
  split; [|by eapply same_kind_trans]. intros p Hp. by rewrite C2, C1.
Qed.

Lemma with_disk_quiet n s s' : editing n s → with_disk (dsk s) s s' → quiet n s s'.
Proof.
  intros [] (Ec & Ei & _ & _ & _ & EF). unfold quiet, same_content. rewrite EF, Ei.
  split; [|split; [apply preserved_refl|split; [done|apply same_kind_refl]]].
  split; rewrite ?EF, ?Ei; try done. unfold Ext2Alloc.mounted. by rewrite Ec.
Qed.

(** [count_block]: the inode is changed and written. *)
Lemma count_block_wp n s :
  mounted s → ino_valid L n → Z.of_nat (length (e_ino s)) = INODE_STRUCT_SIZE →
  wp (count_block ops B n) never
    (λ _ s', ∃ v, mounted s' ∧ e_ino s' = set_i_blocks v (e_ino s) ∧
       dsk s' = store_at (ino_place L n) (set_i_blocks v (e_ino s)) (dsk s)) s.
Proof.
  intros Hm Hn Hl. unfold count_block. do 8 wp_step.
  set (s1 := s <| e_ino ::= _ |> <| e_dirty := true |>).
  assert (mounted s1) as Hm1 by done.
  eapply wp_mono; [apply write_inode_wp; try done; simpl; by rewrite length_set_i_blocks|done|].
  intros [] s2 (Ec & Ei & _ & _ & _ & EF). eexists. split; [unfold Ext2Alloc.mounted; by rewrite Ec|]. split; [exact Ei|exact EF].
Qed.

Lemma with_new_plain F blk F1 b a : with_new F blk F1 → plain L b → b ≠ blk → in_block L b a → F1 a = F a.
Proof.
  intros W Hp Hne Ha. apply (wn_keep _ _ _ W).
  - intros Hx. apply Hne. by eapply (in_block_inj L cap G).
  - intros Hc. apply (Hp a Ha). by apply counters_meta.
Qed.

Lemma with_new_inode F blk F1 m : with_new F blk F1 → ino_valid L m → inode_at L F1 m = inode_at L F m.
Proof.
  intros W Hm. apply (inode_at_frame L cap G). intros a Ha. destruct (ino_region L cap G m a Hm Ha) as [V R].
  apply (wn_keep _ _ _ W); [|by eapply counters_table]. intros Hx. apply (wn_plain _ _ _ W a Hx). by exists (RTable (ino_group L m)).
Qed.

Lemma with_new_u32 F blk F1 : with_new F blk F1 → in_u32 blk.
Proof. intros W. destruct (wn_range _ _ _ W). pose proof (ge_blocks _ _ G). change (2 ^ 32) with 4294967296 in *. lia. Qed.

Lemma ptr_frame F F' t k :
  0 ≤ k < per_block L → (∀ a, in_block L t a → F' a = F a) → ptr L F' t k = ptr L F t k.
Proof.
  intros Hk HF. destruct (per_block_bs L cap G) as [Eb _]. apply word32_ext. intros j Hj. apply HF. unfold in_block. lia.
Qed.

(** The block of a table. *)
Lemma table_block F ino sl p blk F1 :
  file_ok L F ino → with_new F blk F1 → svalid L sl → sparent sl = Some p → slot_val L F ino p ≠ 0 →
  in_range L (slot_val L F ino p) ∧ plain L (slot_val L F ino p) ∧ slot_val L F ino p ≠ blk ∧ svalid L p ∧
  0 ≤ sindex sl < per_block L.
Proof.
  intros OK W Hv Hp H0. destruct (svalid_parent L _ _ Hv Hp) as [Hvp Hi]. destruct (fo_blk _ _ _ OK p Hvp H0) as (Hr & Hu & Hpl).
  split_and!; try done; try lia. intros E. rewrite E in Hu. by apply (wn_free _ _ _ W).
Qed.

(** Writing the inode keeps what was linked. *)
Lemma store_ino_linked n F ino sl blk F1 F2 ino2 :
  ino_valid L n → Z.of_nat (length ino2) = INODE_STRUCT_SIZE → file_ok L F ino → with_new F blk F1 →
  linked L F ino sl blk F2 ino2 → linked L F ino sl blk (store_at (ino_place L n) ino2 F2) ino2.
Proof.
  intros Hn Hl OK W K. assert (∀ b a, plain L b → in_block L b a → store_at (ino_place L n) ino2 F2 a = F2 a) as Hst.
  { intros b a Hp Ha. apply (store_ino_plain L cap G); try done. by apply Hp. }
  split; try apply K.
  - intros sl' p Hv Hp H0. destruct (table_block _ _ _ _ _ _ OK W Hv Hp H0) as (_ & Hpl & _ & _ & Hi).
    rewrite <- (lk_ptr _ _ _ _ _ _ _ K sl' p Hv Hp H0). apply ptr_frame; [done|]. intros a Ha. by apply (Hst _ _ Hpl).
  - intros a Ha. rewrite (Hst blk) by (try done; apply W). by apply K.
  - intros b Hp Hne Hq a Ha. rewrite (Hst b) by done. by eapply (lk_keep _ _ _ _ _ _ _ K).
  - intros b Hb. rewrite (store_ino_used L cap G) by done. by apply K.
Qed.

(** A slot of the inode gets the block. *)
Lemma linked_ino F ino k blk F1 v :
  file_ok L F ino → with_new F blk F1 → 0 ≤ k ≤ 13 →
  linked L F ino (SIno k) blk F1 (set_i_blocks v (set_i_block k blk ino)).
Proof.
  intros OK W Hk. split; try apply W.
  - intros j Hj. rewrite i_block_blocks by done. rewrite i_block_set; [|apply OK|done|done|by eapply with_new_u32].
    repeat case_decide; simplify_eq; done.
  - intros sl' p Hv Hp H0. destruct (table_block _ _ _ _ _ _ OK W Hv Hp H0) as (_ & Hpl & Hne & _ & Hi).
    rewrite decide_False by (intros ->; done). apply ptr_frame; [done|]. intros a Ha. by eapply with_new_plain.
  - intros b Hp Hne _ a Ha. by eapply with_new_plain.
  - by rewrite length_set_i_blocks, length_set_i_block.
Qed.

(** An entry of a table gets the block. *)
Lemma linked_table F ino sl p blk F1 v :
  file_ok L F ino → with_new F blk F1 → svalid L sl → sparent sl = Some p → slot_val L F ino p ≠ 0 →
  linked L F ino sl blk (store_at (slot_val L F ino p * l_bs L + 4 * sindex sl) (le_bytes 4 blk) F1) (set_i_blocks v ino).
Proof.
  intros OK W Hv Hp H0. destruct (table_block _ _ _ _ _ _ OK W Hv Hp H0) as (Hr & Hpl & Hne & Hvp & Hi).
  destruct (per_block_bs L cap G) as [Eb _]. set (t := slot_val L F ino p) in *. set (F2 := store_at _ _ F1).
  assert (∀ a, ¬ in_block L t a → F2 a = F1 a) as Hout.
  { intros a Ha. apply store_at_out. rewrite length_le_bytes. unfold in_block in Ha. lia. }
  assert (∀ b a, plain L b → b ≠ blk → b ≠ t → in_block L b a → F2 a = F a) as Hkeep.
  { intros b a Hb Hnb Hnt Ha. rewrite Hout; [by eapply with_new_plain|]. intros Hx. apply Hnt. by eapply (in_block_inj L cap G). }
  split.
  - intros k Hk. rewrite i_block_blocks, decide_False by (done || (intros <-; done)). done.
  - intros sl' p' Hv' Hp' H0'. destruct (table_block _ _ _ _ _ _ OK W Hv' Hp' H0') as (_ & Hpl' & Hne' & Hvp' & Hi').
    destruct (decide (p' = p)) as [->|Hpp].
    + fold t in Hne' |- *. case_decide as Es.
      * subst sl'. apply word32_store. by eapply with_new_u32.
      * assert (sindex sl' ≠ sindex sl) as Hidx by (intros Ei; apply Es; by eapply sindex_inj).
        apply word32_ext. intros j Hj. unfold F2. rewrite store_at_out by (rewrite length_le_bytes; lia).
        eapply with_new_plain; [done|done|done|]. unfold in_block. lia.
    + rewrite decide_False by (intros ->; simplify_eq). apply ptr_frame; [done|]. intros a Ha. eapply Hkeep; try done.
      intros Et. apply Hpp. by apply (fo_inj _ _ _ OK).
  - intros a Ha. rewrite Hout; [by apply W|]. intros Hx. apply Hne. by eapply (in_block_inj L cap G).
  - intros b Hb Hnb Hnp a Ha. eapply Hkeep; try done. intros ->. by apply (Hnp p).
  - intros b Hb. rewrite <- (wn_used _ _ _ W b Hb). apply (used_frame L cap G); [done|]. intros a Ha. apply Hout. intros Hx.
    apply (Hpl a Hx). exists (RBitmap (group_of L b)). split; [|done]. by apply (bit_addr_region _ _ G).
  - apply length_set_i_blocks.
Qed.

(** The step as a whole. *)
Lemma linked_quiet n s s' sl blk F1 :
  editing n s → svalid L sl → slot_val L (dsk s) (e_ino s) sl = 0 →
  (∀ p, sparent sl = Some p → slot_val L (dsk s) (e_ino s) p ≠ 0) →
  with_new (dsk s) blk F1 → linked L (dsk s) (e_ino s) sl blk (dsk s') (e_ino s') →
  mounted s' → (∀ m, ino_valid L m → inode_at L (dsk s') m = if decide (m = n) then e_ino s' else inode_at L (dsk s) m) →
  ino_valid L n → same_kind (e_ino s) (e_ino s') →
  quiet n s s' ∧ slot_val L (dsk s') (e_ino s') sl = blk.
Proof.
  intros [Hm Hmu OK Hd] Hv H0 Hp W K Hm' Hin Hn Hk. destruct W.
  split; [|erewrite linked_val by done; by rewrite decide_True]. split; [|split; [|split; [|done]]].
  - split; [done| |by eapply linked_ok|by rewrite Hin, decide_True].
    intros b Hb Hnp. apply (lk_used _ _ _ _ _ _ _ K); [done|]. case_decide; [done|]. by apply Hmu.
  - split; [intros b Hb; by eapply linked_foreign|]. intros m Hvm Hne. by rewrite Hin, decide_False.
  - intros q Hq. by eapply linked_fbyte.
Qed.

(** ** [ext2_inode_get_or_alloc_block] *)

(** The slot has a block, and the content is the same. *)
Definition slot_filled (n : Z) (sl : slot) (s : e2state D) (blk : Z) (s' : e2state D) : Prop :=
  quiet n s s' ∧ blk ≠ 0 ∧ slot_val L (dsk s') (e_ino s') sl = blk.

Definition disk_full (n : Z) (s : e2state D) (e : failure) (s' : e2state D) : Prop :=
  e = Err RDNX_E_GENERIC ∧ quiet n s s'.

Lemma quietly_refl n s : editing n s → quiet n s s.
Proof. intros E. apply with_disk_quiet; [done|apply with_disk_refl]. Qed.

Lemma inode_slot_wp n k s :
  editing n s → ino_valid L n → 0 ≤ k ≤ 13 →
  wp (inode_slot ops B n true k) (disk_full n s) (slot_filled n (SIno k) s) s.
Proof.
  intros E Hn Hk. pose proof E as [Hm Hmu OK Hd]. unfold inode_slot. wp_step. wp_step. rewrite andb_true_r.
  destruct (Z.eqb_spec (i_block (e_ino s) k) 0) as [H0|H0].
  2: { wp_step. split; [by apply quietly_refl|done]. }
  wp_step. eapply wp_mono; [by apply new_block_wp| |].
  { intros e s' [-> Hw]. split; [done|by apply with_disk_quiet]. }
  intros blk s1 (F1 & (Hm1 & Ei1 & _ & EF1) & W). wp_step. wp_step. set (s2 := s1 <| e_ino ::= set_i_block k blk |>).
  wp_step. eapply wp_mono; [apply (count_block_wp n s2); try done|done|].
  { unfold s2. simpl. rewrite length_set_i_block, Ei1. apply OK. }
  intros [] s3 (v & Hm3 & Ei3 & EF3). wp_step. change (dsk s2) with (dsk s1) in EF3.
  change (e_ino s2) with (set_i_block k blk (e_ino s1)) in *. rewrite EF1 in EF3. rewrite Ei1 in *.
  assert (Z.of_nat (length (set_i_blocks v (set_i_block k blk (e_ino s)))) = INODE_STRUCT_SIZE) as Hl.
  { rewrite length_set_i_blocks, length_set_i_block. apply OK. }
  destruct (linked_quiet n s s3 (SIno k) blk F1) as [Hq Hv]; try done.
  - rewrite Ei3, EF3. eapply store_ino_linked; try done. by apply linked_ino.
  - intros m Hvm. rewrite Ei3, EF3. rewrite (inode_at_store L cap G) by done. case_decide; [done|]. by eapply with_new_inode.
  - rewrite Ei3. eapply same_kind_trans; [by apply (same_kind_block k blk)|apply same_kind_blocks].
  - split; [done|]. split; [apply W|done].
Qed.

Lemma table_slot_wp n sl p tbl s :
  editing n s → ino_valid L n → svalid L sl → sparent sl = Some p →
  slot_val L (dsk s) (e_ino s) p = tbl → tbl ≠ 0 →
  wp (table_slot ops B n true tbl (sindex sl)) (disk_full n s) (slot_filled n sl s) s.
Proof.
  intros E Hn Hv Hp Et Ht. pose proof E as [Hm Hmu OK Hd]. destruct (svalid_parent L _ _ Hv Hp) as [Hvp Hi].
  assert (slot_val L (dsk s) (e_ino s) p ≠ 0) as Hp0 by (by rewrite Et).
  destruct (fo_blk _ _ _ OK p Hvp Hp0) as (Hr & Hu & Hpl). rewrite Et in Hr, Hu, Hpl.
  destruct (block_cap _ _ G tbl Hr) as [Hb0 Hbc]. destruct (per_block_bs L cap G) as [Eb _].
  unfold table_slot. wp_step. eapply wp_mono; [by apply (mounted_read_block ops B disk ss L cap G)|done|].
  intros ibuf s1 [-> Hw1]. pose proof (with_disk_quiet n s s1 E Hw1) as Hq1. pose proof Hw1 as (_ & Ei1 & _ & _ & _ & EF1).
  pose proof Hq1 as (E1 & _). rewrite andb_true_r. unfold table_get.
  rewrite (get32_area _ _ _ (4 * sindex sl)) by lia. fold (ptr L (dsk s) tbl (sindex sl)).
  assert (slot_val L (dsk s) (e_ino s) sl = ptr L (dsk s) tbl (sindex sl)) as Esl.
  { rewrite (slot_val_parent L _ _ _ _ Hp), Et. unfold through. by rewrite (proj2 (Z.eqb_neq _ _)). }
  destruct (Z.eqb_spec (ptr L (dsk s) tbl (sindex sl)) 0) as [H0|H0].
  2: { wp_step. split; [done|]. split; [done|]. by rewrite EF1, Ei1, Esl. }
  wp_step. eapply wp_mono; [apply new_block_wp; apply E1| |].
  { intros e s' [-> Hw]. split; [done|]. eapply quietly_trans; [done|by apply with_disk_quiet]. }
  intros blk s2 (F2 & (Hm2 & Ei2 & _ & EF2) & W). rewrite EF1 in W. rewrite Ei1 in Ei2.
  assert (tbl ≠ blk) as Hne by (intros ->; by apply (wn_free _ _ _ W)).
  wp_step. eapply wp_mono; [apply (mounted_write_block ops B disk ss L cap G); try done|done|].
  { unfold table_set, put32. rewrite length_bput, length_area. lia. }
  intros [] s3 Hw3. pose proof (with_becomes B disk ss L cap _ _ _ Hm2 Hw3) as (Hm3 & Ei3 & _ & EF3).
  unfold table_set, put32 in EF3. rewrite EF2, (store_at_part _ (l_bs L)) in EF3;
    [|lia|lia|rewrite length_le_bytes; lia|rewrite length_area; lia|].
  2: { right. apply area_ext. intros j Hj. symmetry. eapply with_new_plain; [done|exact Hpl|done|]. unfold in_block. lia. }
  rewrite Ei2 in Ei3. wp_step. eapply wp_mono; [apply (count_block_wp n s3); try done; rewrite Ei3; apply OK|done|].
  intros [] s4 (v & Hm4 & Ei4 & EF4). wp_step. rewrite Ei3 in *. rewrite EF3 in EF4.
  assert (Z.of_nat (length (set_i_blocks v (e_ino s))) = INODE_STRUCT_SIZE) as Hl by (rewrite length_set_i_blocks; apply OK).
  destruct (linked_quiet n s s4 sl blk F2) as [Hq Hval]; try done.
  - by rewrite Esl.
  - intros q Hq. by simplify_eq.
  - rewrite Ei4, EF4. eapply store_ino_linked; try done. rewrite <- Et. by eapply linked_table.
  - intros m Hvm. rewrite Ei4, EF4. rewrite (inode_at_store L cap G) by done. case_decide; [done|].
    rewrite <- (with_new_inode _ _ _ m W Hvm). apply (inode_at_frame L cap G). intros a Ha.
    apply (store_plain_meta L _ tbl); try done; [lia|rewrite length_le_bytes; lia|]. by apply (ino_meta L cap G m).
  - rewrite Ei4. apply same_kind_blocks.
  - split; [done|]. split; [apply W|done].
Qed.

Lemma slot_then {A} n s s1 (m : E D A) Q :
  quiet n s s1 → (editing n s1 → wp m (disk_full n s1) (λ a s', Q a s') s1) → wp m (disk_full n s) (λ a s', Q a s') s1.
Proof.
  intros Hq Hm. eapply wp_mono; [apply Hm, Hq| |done]. intros e s' [-> Hq']. split; [done|by eapply quietly_trans].
Qed.

Lemma get_or_alloc_wp n lbn s :
  editing n s → ino_valid L n → 0 ≤ lbn < max_blocks L →
  wp (ext2_inode_get_or_alloc_block ops B n lbn true) (disk_full n s) (slot_filled n (slot_of L lbn) s) s.
Proof.
  intros E Hn Hl. destruct (slot_of_valid L cap G lbn Hl) as [Hv _]. destruct (per_block_bs L cap G) as [Eb Hpb].
  destruct (layout_fields B ss L cap G s (ed_mounted _ _ E)) as (Ebs & _).
  unfold ext2_inode_get_or_alloc_block, max_blocks in *. wp_step. wp_step. rewrite Ebs.
  rewrite (proj2 (Z.eqb_neq _ 0)) by (intros H0%Z.div_small_iff; lia). fold (per_block L). unfold slot_of in *.
  destruct (Z.ltb_spec lbn EXT2_NDIR_BLOCKS); [apply inode_slot_wp; try done; unfold EXT2_NDIR_BLOCKS in *; lia|].
  assert (∀ s1 blk sl s', quiet n s s1 → slot_filled n sl s1 blk s' → slot_filled n sl s blk s') as Htr.
  { intros s1 blk sl s' Hq (Hq' & ?). split; [by eapply quietly_trans|done]. }
  destruct (Z.ltb_spec (lbn - EXT2_NDIR_BLOCKS) (per_block L)).
  - wp_step. eapply wp_mono; [apply (inode_slot_wp n 12); try done|done|]. intros ind s1 (Hq1 & Hne & Ev).
    rewrite (proj2 (Z.eqb_neq _ 0)) by done. apply (slot_then _ _ _ _ _ Hq1). intros E1.
    eapply wp_mono; [apply (table_slot_wp n (SOne (lbn - EXT2_NDIR_BLOCKS)) (SIno 12)); try done|done|]. intros blk s'. by apply Htr.
  - set (idx2 := lbn - EXT2_NDIR_BLOCKS - per_block L) in *. rewrite (proj2 (Z.leb_gt _ _)) by lia. destruct Hv as [Hk Hj].
    wp_step. eapply wp_mono; [apply (inode_slot_wp n 13); try done|done|]. intros dind s1 (Hq1 & Hne1 & Ev1).
    rewrite (proj2 (Z.eqb_neq _ 0)) by done. apply (slot_then _ _ _ _ _ Hq1). intros E1.
    wp_step. eapply wp_mono; [apply (table_slot_wp n (STwo (idx2 / per_block L)) (SIno 13)); try done|done|].
    intros si s2 (Hq2 & Hne2 & Ev2). rewrite (proj2 (Z.eqb_neq _ 0)) by done. apply (slot_then _ _ _ _ _ Hq2). intros E2.
    eapply wp_mono; [apply (table_slot_wp n (SSub (idx2 / per_block L) (idx2 mod per_block L)) (STwo (idx2 / per_block L))); try done|done|].
    intros blk s'. apply Htr. by eapply quietly_trans.
Qed.

(** ** Writing data *)

(** The bytes from [abs] on are [src], the others are as before. *)
Definition spliced (abs : Z) (src : list Z) (F : Z → Z) (ino : ext2_inode_t) (F' : Z → Z) (ino' : ext2_inode_t) : Prop :=
  ∀ p, 0 ≤ p / l_bs L < max_blocks L → fbyte L F' ino' p = store_at abs src (fbyte L F ino) p.

(** The state after a write. *)
Definition wrote (n abs : Z) (src : list Z) (s s' : e2state D) : Prop :=
  editing n s' ∧ preserved L n (dsk s) (e_ino s) (dsk s') (e_ino s') ∧
  spliced abs src (dsk s) (e_ino s) (dsk s') (e_ino s') ∧ same_kind (e_ino s) (e_ino s').

Lemma slot_val_frame F F' ino sl :
  file_ok L F ino → svalid L sl →
  (∀ sl' p a, svalid L sl' → sparent sl' = Some p → slot_val L F ino p ≠ 0 → in_block L (slot_val L F ino p) a → F' a = F a) →
  slot_val L F' ino sl = slot_val L F ino sl.
Proof.
  intros OK Hv HF. destruct (per_block_bs L cap G) as [_ Hpb].
  assert (∀ p k sl', svalid L sl' → sparent sl' = Some p → 0 ≤ k < per_block L →
    through L F' (slot_val L F ino p) k = through L F (slot_val L F ino p) k) as Ht.
  { intros p k sl' Hvs Hp Hk. unfold through. case_if; [done|]. bool_hyps. apply ptr_frame; [done|]. intros a. by eapply HF. }
  destruct sl as [k|k|k|k j]; simpl in *; [done|by apply (Ht (SIno 12) k (SOne k))|by apply (Ht (SIno 13) k (STwo k))|].
  destruct Hv as [Hk Hj]. pose proof (Ht (SIno 13) k (STwo k) Hk eq_refl Hk) as Et. simpl in Et. rewrite Et.
  by apply (Ht (STwo k) j (SSub k j)).
Qed.

(** A store inside a block of the content. *)
Lemma store_content n lbn boff src s s' :
  editing n s → ino_valid L n → 0 ≤ lbn < max_blocks L → 0 ≤ boff → boff + Z.of_nat (length src) ≤ l_bs L →
  slot_val L (dsk s) (e_ino s) (slot_of L lbn) ≠ 0 →
  with_disk (store_at (slot_val L (dsk s) (e_ino s) (slot_of L lbn) * l_bs L + boff) src (dsk s)) s s' →
  wrote n (lbn * l_bs L + boff) src s s'.
Proof.
  intros [Hm Hmu OK Hd] Hn Hl Hb Hlen H0 (Ec & Ei & _ & _ & _ & EF). destruct (slot_of_valid L cap G lbn Hl) as [Hv _].
  set (b := slot_val L (dsk s) (e_ino s) (slot_of L lbn)) in *. destruct (fo_blk _ _ _ OK _ Hv H0) as (Hr & Hu & Hpl). fold b in Hr, Hu, Hpl.
  assert (∀ a, ¬ in_block L b a → dsk s' a = dsk s a) as Hout.
  { intros a Ha. rewrite EF. apply store_at_out. unfold in_block in Ha. lia. }
  assert (∀ a, meta L a → dsk s' a = dsk s a) as Hmeta by (intros a Ha; apply Hout; intros Hx; by apply (Hpl a)).
  assert (∀ c, in_range L c → used L (dsk s') c ↔ used L (dsk s) c) as Hused.
  { intros c Hc. apply (used_frame L cap G); [done|]. intros a Ha. apply Hmeta. exists (RBitmap (group_of L c)).
    split; [|done]. by apply (bit_addr_region _ _ G). }
  assert (∀ sl, svalid L sl → slot_val L (dsk s') (e_ino s') sl = slot_val L (dsk s) (e_ino s) sl) as Hval.
  { intros sl Hs. rewrite Ei. apply slot_val_frame; [done|done|]. intros sl' p a Hvs Hp _ Ha. apply Hout. intros Hx.
    apply (slot_of_leaf L cap G _ sl' Hl). rewrite Hp. f_equal. destruct (svalid_parent L _ _ Hvs Hp) as [Hvp _].
    pose proof (in_block_inj L cap G _ _ _ Ha Hx) as Eb. apply (fo_inj _ _ _ OK); try done. by rewrite Eb. }
  split; [split|split; [split|split]].
  - unfold Ext2Alloc.mounted. by rewrite Ec.
  - intros c Hc Hnp. apply Hused; [done|]. by apply Hmu.
  - split; [rewrite Ei; apply OK| |]; intros sl; [intros Hs|intros sl2 Hs Hs2]; rewrite !Hval by done.
    + intros Hne. destruct (fo_blk _ _ _ OK sl Hs Hne) as (? & ? & ?). split_and!; try done. by apply Hused.
    + by apply OK.
  - rewrite Ei, <- Hd. apply (inode_at_frame L cap G). intros a Ha. apply Hmeta. by apply (ino_meta L cap G n).
  - intros c (Hc & Huc & Hpc & Hoc). split; [split_and!; try done; [by apply Hused|intros sl Hs; rewrite Hval by done; by apply Hoc]|].
    intros a Ha. apply Hout. intros Hx. apply (Hoc _ Hv). fold b. by eapply (in_block_inj L cap G).
  - intros m Hvm Hne. apply (inode_at_frame L cap G). intros a Ha. apply Hmeta. by apply (ino_meta L cap G m).
  - intros p Hp. destruct (slot_of_valid L cap G _ Hp) as [Hvp _]. pose proof (bs_pos _ _ G) as Hbs.
    pose proof (Z.mod_pos_bound p (l_bs L) ltac:(lia)) as Hmod. pose proof (Z.div_mod p (l_bs L) ltac:(lia)) as Hdm.
    unfold fbyte at 1. rewrite Hval by done. unfold store_at at 1.
    destruct (decide (p / l_bs L = lbn)) as [El|El].
    + rewrite El. fold b. rewrite (proj2 (Z.eqb_neq b 0)) by done. rewrite EF. unfold store_at.
      destruct (decide (lbn * l_bs L + boff ≤ p < _)) as [Hi|Hi].
      * rewrite decide_True by lia. f_equal. lia.
      * rewrite decide_False by lia. unfold fbyte. rewrite El. fold b. by rewrite (proj2 (Z.eqb_neq b 0)).
    + rewrite decide_False by nia. unfold fbyte. case_if; [done|]. bool_hyps. apply Hout. intros Hx. apply El.
      apply (slot_of_inj L cap G); try done. apply (fo_inj _ _ _ OK); try done. fold b.
      eapply (in_block_inj L cap G); [|done]. unfold in_block. lia.
  - rewrite Ei. apply same_kind_refl.
Qed.

End Write.
End Ext2Write.
