(* ===== verification/Ext2Spec.v ===== *)
(** * ext2: what writing a file does

    [ext2_writeback_file] on a mounted file system: the bytes are in the file,
    and no other file and no other block of this one changes. *)

From Stdlib Require Import FunctionalExtensionality.
From stdpp Require Import base gmap list numbers fin_maps.
From S2P Require Import Prelude Bytes PathSpec Vfs VfsFile BlockDev Ext2 Ext2Io Ext2Alloc Ext2Write VfsNames.

Module Ext2Spec.
Import PathSpec Vfs VfsFile BlockDev Ext2 Ext2Io Ext2Layout Ext2Alloc Ext2File Ext2Write.

Lemma store_at_ext a l f g p : f p = g p → store_at a l f p = store_at a l g p.
Proof. intros E. unfold store_at. by case_decide. Qed.

Section Spec.
Context {D : Type} (ops : disk_ops D) (B : block_state) (disk : Z → D → Z → Z).
Context (ss : Z) `{!DiskDriver ops ss disk, !ReliableDisk ops}.
Context (L : layout) (cap : Z) (G : geom L cap).
Implicit Types s : e2state D.

Abbreviation dsk := (dsk disk).
Abbreviation with_disk := (with_disk disk).
Abbreviation mounted := (mounted B ss L cap).
Abbreviation editing := (editing B disk ss L cap).
Abbreviation quiet := (quiet B disk ss L cap).
Abbreviation wrote := (wrote B disk ss L cap).
Abbreviation spliced := (spliced L).

(** The largest file. *)
Definition max_file : Z := max_blocks L * l_bs L.

Lemma max_file_bound : max_blocks L < 2 ^ 21 ∧ max_file < 2 ^ 33.
Proof.
  destruct (per_block_bs L cap G) as [Eb Hpb]. unfold max_file, max_blocks, EXT2_NDIR_BLOCKS. rewrite Eb.
  change (2 ^ 21) with 2097152. change (2 ^ 33) with 8589934592. nia.
Qed.

Lemma position p : 0 ≤ p < max_file → 0 ≤ p / l_bs L < max_blocks L.
Proof. pose proof (bs_pos _ _ G). unfold max_file. intros Hp. split; [apply Z.div_pos; lia|apply Z.div_lt_upper_bound; lia]. Qed.

(** ** Writing *)
Lemma quiet_wrote n abs src s1 s2 s3 : quiet n s1 s2 → wrote n abs src s2 s3 → wrote n abs src s1 s3.
Proof.
  intros (_ & P1 & C1 & K1) (E & P2 & C2 & K2). split; [done|]. split; [by eapply preserved_trans|].
  split; [|by eapply same_kind_trans]. intros p Hp. rewrite C2 by done. apply store_at_ext. by apply C1.
Qed.

Lemma wrote_app n abs l1 l2 s1 s2 s3 :
  wrote n abs l1 s1 s2 → wrote n (abs + Z.of_nat (length l1)) l2 s2 s3 → wrote n abs (l1 ++ l2) s1 s3.
Proof.
  intros (_ & P1 & C1 & K1) (E & P2 & C2 & K2). split; [done|]. split; [by eapply preserved_trans|].
  split; [|by eapply same_kind_trans]. intros p Hp. rewrite C2 by done. rewrite <- store_at_app. apply store_at_ext. by apply C1.
Qed.

Lemma wrote_nil n abs s s' : quiet n s s' → wrote n abs [] s s'.
Proof.
  intros (E & P & C & K). split; [done|]. split; [done|]. split; [|done]. intros p Hp.
  rewrite store_at_out by (simpl; lia). by apply C.
Qed.

Lemma write_chunk_wp n abs src s :
  editing n s → ino_valid L n → 0 ≤ abs → src ≠ [] → abs mod l_bs L + Z.of_nat (length src) ≤ l_bs L →
  abs + Z.of_nat (length src) ≤ max_file →
  wp (write_chunk ops B n abs src) (λ e s', e = Err RDNX_E_UNSUPPORTED ∧ quiet n s s') (λ _ s', wrote n abs src s s') s.
Proof.
  intros E Hn Ha Hne Hfit Hmax. pose proof (bs_pos _ _ G) as Hbs. pose proof max_file_bound as [Hmb _].
  assert (0 < Z.of_nat (length src)) by (destruct src; [done|simpl; lia]).
  pose proof (position abs ltac:(lia)) as Hp. pose proof (Z.mod_pos_bound abs (l_bs L) ltac:(lia)) as Hmod.
  pose proof (Z.div_mod abs (l_bs L) ltac:(lia)) as Hdm.
  destruct (layout_fields B ss L cap G s (ed_mounted _ _ _ _ _ _ _ E)) as (Ebs & _). pose proof E as [_ _ _ _].
  unfold write_chunk. wp_step. wp_step. rewrite Ebs. rewrite u32_small by (change (2 ^ 21) with 2097152 in *; lia).
  wp_step. wp_step. eapply wp_mono; [by apply (get_or_alloc_wp ops B disk ss L cap G)| |].
  { intros e s' [-> Hq]. by wp_step. }
  intros blk s1 (Hq1 & Hb0 & Ev). pose proof Hq1 as (E1 & _). pose proof E1 as [Hm1 _ OK1 _].
  destruct (slot_of_valid L cap G _ Hp) as [Hv _].
  assert (slot_val L (dsk s1) (e_ino s1) (slot_of L (abs / l_bs L)) ≠ 0) as Hv0 by (by rewrite Ev).
  destruct (fo_blk _ _ _ OK1 _ Hv Hv0) as (Hr & _ & _). rewrite Ev in Hr. destruct (block_cap _ _ G blk Hr) as [Hb Hbc].
  rewrite (proj2 (Z.eqb_neq blk 0)) by done. wp_step.
  eapply (wp_mono _ never _ (λ buf s2, Z.of_nat (length buf) = l_bs L ∧ with_disk (dsk s1) s1 s2 ∧
    (Z.of_nat (length src) = l_bs L ∨ buf = area (dsk s1) (blk * l_bs L) (l_bs L)))); [|done|].
  { case_if; bool_hyps.
    - wp_step. split; [apply length_zeros; lia|]. split; [apply with_disk_refl|by left].
    - eapply wp_mono; [by apply (mounted_read_block ops B disk ss L cap G)|done|]. intros buf s2 [-> Hw].
      rewrite length_area. split; [lia|]. auto. }
  intros buf s2 (Hbl & Hw2 & Hor). pose proof Hw2 as (Ec2 & _ & _ & _ & _ & EF2).
  pose proof Hm1 as (_ & _ & Hok & Hss & Hcap).
  eapply wp_mono; [apply (write_bytes_wp ops B disk ss); rewrite ?Ec2, ?length_bput, ?Hcap; try done; try lia|done|].
  { intros E0. apply (f_equal length) in E0. rewrite length_bput in E0. simpl in E0. lia. }
  intros [] s3 Hw3. rewrite EF2, (store_at_part _ (l_bs L)) in Hw3 by (done || lia).
  pose proof (with_disk_trans _ _ _ _ _ _ Hw2 Hw3) as Hw. eapply quiet_wrote; [done|].
  replace abs with (abs / l_bs L * l_bs L + abs mod l_bs L) at 1 by lia.
  apply (store_content B disk ss L cap G); try done; try lia. by rewrite Ev.
Qed.

Lemma writeback_loop_wp fuel n abs src s :
  editing n s → ino_valid L n → 0 ≤ abs → (length src ≤ fuel)%nat → abs + Z.of_nat (length src) ≤ max_file →
  wp (writeback_loop ops B fuel n abs src)
    (λ e s', e = Err RDNX_E_UNSUPPORTED ∧ ∃ k, (k < length src)%nat ∧ wrote n abs (take k src) s s')
    (λ _ s', wrote n abs src s s') s.
Proof.
  revert abs src s. induction fuel as [|fuel IH]; intros abs src s E Hn Ha Hl Hmax; simpl; case_bool_decide as He.
  1,3: (wp_step; subst src; apply wrote_nil; by apply (quietly_refl B disk ss L cap)).
  { destruct src; [done|simpl in *; lia]. }
  assert (0 < Z.of_nat (length src)) by (destruct src; [done|simpl; lia]).
  pose proof (bs_pos _ _ G) as Hbs. pose proof (Z.mod_pos_bound abs (l_bs L) ltac:(lia)) as Hmod. pose proof max_file_bound as [_ Hmf].
  destruct (layout_fields B ss L cap G s (ed_mounted _ _ _ _ _ _ _ E)) as (Ebs & _). wp_step. wp_step. rewrite Ebs.
  set (chunk := Z.min _ _). assert (0 < chunk ≤ Z.of_nat (length src) ∧ abs mod l_bs L + chunk ≤ l_bs L) as Hch by lia.
  assert (length (take (Z.to_nat chunk) src) = Z.to_nat chunk) as Htk by (rewrite length_take; lia).
  wp_step. eapply wp_mono; [apply write_chunk_wp; try done; try (rewrite Htk; lia)| |].
  { intros E0. rewrite E0 in Htk. simpl in Htk. lia. }
  { intros e s' [-> Hq]. split; [done|]. exists 0%nat. split; [lia|]. by apply wrote_nil. }
  intros [] s1 Hw1. pose proof Hw1 as (E1 & _). rewrite u64_small by (change (2 ^ 33) with 8589934592 in *; lia).
  eapply wp_mono; [apply IH; rewrite ?length_drop; try done; lia| |].
  - intros e s' (-> & k & Hk & Hw2). split; [done|]. exists (Z.to_nat chunk + k)%nat. rewrite length_drop in Hk. split; [lia|].
    rewrite <- take_take_drop. eapply wrote_app; [done|]. rewrite Htk. by rewrite Z2Nat.id by lia.
  - intros [] s' Hw2. rewrite <- (take_drop (Z.to_nat chunk) src). eapply wrote_app; [done|]. rewrite Htk. by rewrite Z2Nat.id by lia.
Qed.

(** *** The inode at the end *)
Lemma size_set v ino : Z.of_nat (length ino) = INODE_STRUCT_SIZE → 0 ≤ v ≤ 2 ^ 40 → ext2_inode_size_bytes (set_ino_size v ino) = v.
Proof.
  intros Hl Hv. change (2 ^ 40) with 1099511627776 in Hv. unfold INODE_STRUCT_SIZE in Hl.
  assert (0 ≤ v / 4294967296 < 4294967296) as Hd by (split; [apply Z.div_pos; lia|apply Z.div_lt_upper_bound; lia]).
  assert (size_lo (set_ino_size v ino) = u32 v) as E1.
  { unfold size_lo, set_ino_size. rewrite get32_put32_other by lia. apply get32_put32; [lia|lia|apply u32_range]. }
  assert (size_high (set_ino_size v ino) = v / 4294967296) as E2.
  { unfold size_high, set_ino_size. rewrite u32_small by lia. apply get32_put32; [lia|unfold put32; rewrite length_bput; lia|lia]. }
  unfold ext2_inode_size_bytes. rewrite E1, E2. unfold u32. pose proof (Z.div_mod v 4294967296 ltac:(lia)) as Hm.
  replace (v mod 4294967296 + 4294967296 * (v / 4294967296)) with v by lia. by rewrite (proj2 (Z.ltb_ge _ _)) by lia.
Qed.

Lemma mode_set v ino : i_mode (set_ino_size v ino) = i_mode ino.
Proof. unfold i_mode, set_ino_size. by rewrite !get16_put32_other by lia. Qed.

Lemma slot_val_inode F ino ino' sl :
  (∀ k, 0 ≤ k ≤ 13 → i_block ino' k = i_block ino k) → svalid L sl → slot_val L F ino' sl = slot_val L F ino sl.
Proof. intros Hi Hv. destruct sl; simpl in *; rewrite ?Hi by lia; done. Qed.

(** An inode with the same blocks is written. *)
Lemma rewrite_inode n s s' :
  editing n s → ino_valid L n → mounted s' → (∀ k, 0 ≤ k ≤ 13 → i_block (e_ino s') k = i_block (e_ino s) k) →
  Z.of_nat (length (e_ino s')) = INODE_STRUCT_SIZE → dsk s' = store_at (ino_place L n) (e_ino s') (dsk s) →
  editing n s' ∧ preserved L n (dsk s) (e_ino s) (dsk s') (e_ino s') ∧
  same_content L (dsk s) (e_ino s) (dsk s') (e_ino s').
Proof.
  intros [Hm Hmu OK Hd] Hn Hm' Hi Hl EF.
  assert (∀ b a, plain L b → in_block L b a → dsk s' a = dsk s a) as Hpl.
  { intros b a Hp Ha. rewrite EF. apply (store_ino_plain L cap G); try done. by apply Hp. }
  assert (∀ b, in_range L b → used L (dsk s') b ↔ used L (dsk s) b) as Hus.
  { intros b Hb. rewrite EF. by apply (store_ino_used L cap G). }
  assert (∀ sl, svalid L sl → slot_val L (dsk s') (e_ino s') sl = slot_val L (dsk s) (e_ino s) sl) as Hval.
  { intros sl Hv. rewrite (slot_val_inode _ (e_ino s)) by done. apply (slot_val_frame L cap G); [done|done|].
    intros sl' p a Hv' Hp E0 Ha. by apply (Hpl _ _ (proj2 (proj2 (fo_blk _ _ _ OK p (proj1 (svalid_parent L _ _ Hv' Hp)) E0)))). }
  split; [split|split; [split|]].
  - done.
  - intros b Hb Hnp. apply Hus; [done|]. by apply Hmu.
  - split; [done| |]; intros sl; [intros Hs|intros sl2 Hs Hs2]; rewrite !Hval by done; [|by apply OK].
    intros Hne. destruct (fo_blk _ _ _ OK sl Hs Hne) as (? & ? & ?). split_and!; try done. by apply Hus.
  - rewrite EF, (inode_at_store L cap G) by done. by rewrite decide_True.
  - intros b (Hb & Hu & Hp & Ho). split; [|intros a Ha; by apply (Hpl b)]. split_and!; try done; [by apply Hus|].
    intros sl Hs. rewrite Hval by done. by apply Ho.
  - intros m Hvm Hne. rewrite EF, (inode_at_store L cap G) by done. by rewrite decide_False.
  - intros p Hp. destruct (slot_of_valid L cap G _ Hp) as [Hv _]. unfold fbyte. rewrite Hval by done. case_if; [done|]. bool_hyps.
    destruct (fo_blk _ _ _ OK _ Hv ltac:(done)) as (_ & _ & Hpb). apply (Hpl _ _ Hpb). pose proof (bs_pos _ _ G).
    pose proof (Z.mod_pos_bound p (l_bs L) ltac:(lia)). unfold in_block. lia.
Qed.

(** *** The whole operation *)

(** The state while an operation begins: the inode of a well-formed regular
    file is on the disk. *)
Record file_on_disk (n : Z) (F : Z → Z) : Prop := {
  fd_valid : ino_valid L n;
  fd_meta : meta_used L F;
  fd_file : file_ok L F (inode_at L F n);
  fd_reg : ext2_is_reg (inode_at L F n) = true
}.

Lemma load_ino_wp n s :
  mounted s → file_on_disk n (dsk s) →
  wp (load_ino ops B n) never (λ _ s', editing n s' ∧ e_ino s' = inode_at L (dsk s) n ∧ dsk s' = dsk s ∧ e_dirty s' = e_dirty s) s.
Proof.
  intros Hm []. unfold load_ino. wp_step. eapply wp_mono; [by apply (read_inode_wp ops B disk ss L cap G)|done|].
  intros ino s1 [-> (Ec & _ & Ed & _ & _ & EF)]. wp_step. wp_step. rewrite fd_reg0. cbn [negb]. wp_step.
  change (dsk (s1 <| e_ino ::= _ |>)) with (dsk s1). rewrite EF. split; [|done].
  split; change (dsk (s1 <| e_ino ::= _ |>)) with (dsk s1); rewrite ?EF; try done. unfold Ext2Alloc.mounted. simpl. by rewrite Ec.
Qed.

(** The size of the file after a write that leaves it with [final] bytes. *)
Definition grown (disk_size final : Z) : Z := if disk_size <? final then final else disk_size.

(** The state after the operation, by its state [s] before it. *)
Definition written (n off : Z) (data : list Z) (size : Z) (s s' : e2state D) : Prop :=
  editing n s' ∧ preserved L n (dsk s) (inode_at L (dsk s) n) (dsk s') (e_ino s') ∧
  spliced off data (dsk s) (inode_at L (dsk s) n) (dsk s') (e_ino s') ∧
  i_mode (e_ino s') = i_mode (inode_at L (dsk s) n) ∧ ext2_inode_size_bytes (e_ino s') = size.

(** The inode that is written at the end. *)
Definition final_ino (disk_size final : Z) (ino : ext2_inode_t) : ext2_inode_t :=
  if disk_size <? final then set_ino_size final ino else ino.

Lemma written_end n off data final s1 s2 s' :
  ino_valid L n → 0 ≤ final ≤ 2 ^ 40 → inode_at L (dsk s1) n = e_ino s1 → wrote n off data s1 s2 → mounted s' →
  e_ino s' = final_ino (ext2_inode_size_bytes (e_ino s1)) final (e_ino s2) →
  dsk s' = store_at (ino_place L n) (e_ino s') (dsk s2) ∨ (dsk s' = dsk s2 ∧ e_ino s' = e_ino s2) →
  written n off data (grown (ext2_inode_size_bytes (e_ino s1)) final) s1 s'.
Proof.
  intros Hn Hfin Hi1 (E2 & P & C & K) Hm' Ei' Hor. pose proof (ed_file _ _ _ _ _ _ _ E2) as OK2.
  set (size := ext2_inode_size_bytes (e_ino s1)) in *. unfold final_ino, grown in *.
  assert (editing n s' ∧ preserved L n (dsk s2) (e_ino s2) (dsk s') (e_ino s') ∧
          same_content L (dsk s2) (e_ino s2) (dsk s') (e_ino s')) as (E' & P' & C').
  { destruct Hor as [EF'|[EF' Ei2]].
    - apply rewrite_inode; try done; rewrite Ei'; case_if; rewrite ?length_set_ino_size; try apply OK2; try done.
      intros k Hk. by apply i_block_size.
    - rewrite EF', Ei2. split; [|split; [apply preserved_refl|done]]. destruct E2. split; rewrite ?EF', ?Ei2; done. }
  unfold written. rewrite Hi1. split; [done|]. split; [by eapply preserved_trans|].
  split; [intros p Hp; rewrite C' by done; by apply C|]. rewrite Ei'. case_if; bool_hyps.
  - rewrite mode_set, size_set by (try apply OK2; lia). split; [apply K|done].
  - split; [apply K|]. by apply same_kind_size.
Qed.

Lemma writeback_wp n off data final s :
  mounted s → file_on_disk n (dsk s) → 0 ≤ off → off + Z.of_nat (length data) ≤ max_file →
  off + Z.of_nat (length data) ≤ final ≤ 2 ^ 40 →
  let size := ext2_inode_size_bytes (inode_at L (dsk s) n) in
  wp (writeback ops B n off data final)
    (λ e s', e = Err RDNX_E_UNSUPPORTED ∧ ∃ k, (k < length data)%nat ∧ written n off (take k data) size s s')
    (λ _ s', written n off data (grown size final) s s') s.
Proof.
  intros Hm Hd Ho Hmax Hfin size. pose proof max_file_bound as [_ Hmf]. pose proof (fd_valid _ _ Hd) as Hn.
  unfold writeback. wp_step. eapply wp_mono; [by apply load_ino_wp|done|]. intros [] s1 (E1 & Ei1 & EF1 & _). wp_step. wp_step.
  rewrite u64_small by (change (2 ^ 33) with 8589934592 in *; lia). rewrite (proj2 (Z.ltb_ge _ _)) by lia. wp_step.
  assert (∀ data sz s', written n off data sz s1 s' → written n off data sz s s') as Htr.
  { intros data' sz s'. unfold written. by rewrite EF1. }
  eapply wp_mono; [by apply writeback_loop_wp|..].
  { intros e s' (-> & k & Hk & E & P & C & K). split; [done|]. exists k. split; [done|]. apply Htr. unfold written.
    rewrite EF1 in P, C |- *. unfold size. rewrite <- Ei1. split; [done|]. split; [done|]. split; [done|].
    split; [apply K|by apply same_kind_size]. }
  intros [] s2 Hw. pose proof Hw as (E2 & _). pose proof (ed_mounted _ _ _ _ _ _ _ E2) as Hm2.
  assert (∀ s', mounted s' → e_ino s' = final_ino size final (e_ino s2) →
    dsk s' = store_at (ino_place L n) (e_ino s') (dsk s2) ∨ (dsk s' = dsk s2 ∧ e_ino s' = e_ino s2) →
    written n off data (grown size final) s s') as Hend.
  { intros s' Hm' Ei' Hor. apply Htr. unfold size in *. rewrite <- Ei1 in *. apply (written_end n off data final s1 s2); try done; [lia|].
    by rewrite EF1. }
  rewrite Ei1. fold size. unfold final_ino in Hend. wp_step.
  destruct (size <? final) eqn:Es; repeat wp_step.
  - simpl. set (s3 := s2 <| e_ino ::= _ |> <| e_dirty := true |>).
    eapply wp_mono; [apply (write_inode_wp ops B disk ss L cap G n _ s3); try done; simpl|done|].
    { rewrite length_set_ino_size. apply E2. }
    intros [] s4 (Ec & Ei & _ & _ & _ & EF). apply Hend; [unfold Ext2Alloc.mounted; by rewrite Ec|exact Ei|]. left. by rewrite EF, Ei.
  - destruct (e_dirty s2); [|wp_step; apply Hend; auto].
    eapply wp_mono; [apply (write_inode_wp ops B disk ss L cap G); try done; apply E2|done|].
    intros [] s4 (Ec & Ei & _ & _ & _ & EF). apply Hend; [unfold Ext2Alloc.mounted; by rewrite Ec|exact Ei|]. left. by rewrite EF, Ei.
Qed.

(** ** On the mounted file system *)
Definition disk_of (x : ext2_state D) : Z → Z := disk (c_bdev (g_ext2_live x)) (g_disk x).

Definition live_ok (x : ext2_state D) : Prop :=
  g_ext2_live_ready x = true ∧ mounted_ctx B ss L cap (g_ext2_live x).

Lemma live_not x : live_ok x → not_live x = false.
Proof.
  intros [Hr Hm]. set (s := mk_e2 (g_ext2_live x) (g_disk x) [] false no_vfs 0%nat).
  destruct (layout_fields B ss L cap G s Hm) as (_ & _ & _ & _ & _ & _ & _ & _ & Hg). simpl in Hg.
  unfold not_live. rewrite Hr, Hg. pose proof Hm as (_ & _ & Hok & _). by rewrite (proj2 (Z.eqb_neq _ 0)) by apply Hok.
Qed.

Lemma writeback_file_result x i off data final :
  live_ok x → i_fs_tag i = VFS_FS_TAG_EXT2 → in_u32 (i_fs_ino i) → file_on_disk (i_fs_ino i) (disk_of x) →
  data ≠ [] → 0 ≤ off → off + Z.of_nat (length data) ≤ max_file → off + Z.of_nat (length data) ≤ final ≤ 2 ^ 40 →
  ∃ r x', ext2_writeback_file ops B x i off data final = (r, x') ∧
    let n := i_fs_ino i in
    let F := disk_of x in let ino := inode_at L F n in
    let F' := disk_of x' in let ino' := inode_at L F' n in
    live_ok x' ∧ file_on_disk n F' ∧ preserved L n F ino F' ino' ∧
    match r with
    | inr _ => spliced off data F ino F' ino' ∧
               ext2_inode_size_bytes ino' = Z.max (ext2_inode_size_bytes ino) final
    | inl e => e = Err RDNX_E_UNSUPPORTED ∧ ext2_inode_size_bytes ino' = ext2_inode_size_bytes ino ∧
               ∃ k, (k < length data)%nat ∧ spliced off (take k data) F ino F' ino'
    end.
Proof.
  intros Hx Ht Hn Hd Hne Ho Hmax Hfin. unfold ext2_writeback_file. rewrite (live_not x Hx), Ht. simpl.
  pose proof (fd_valid _ _ Hd) as [Hn1 _]. rewrite (proj2 (Z.eqb_neq _ 0)), bool_decide_false by (done || lia).
  rewrite u32_small by done. unfold on_live. set (s := mk_e2 _ _ _ _ _ _). set (n := i_fs_ino i) in *. destruct Hx as [Hr Hm].
  pose proof (writeback_wp n off data final s Hm Hd Ho Hmax Hfin) as Hwp. simpl in Hwp. unfold wp in Hwp.
  assert (∀ l sz s', written n off l sz s s' →
    live_ok (x <| g_ext2_live := e_ctx s' |> <| g_disk := e_dev s' |>) ∧ file_on_disk n (dsk s') ∧
    preserved L n (dsk s) (inode_at L (dsk s) n) (dsk s') (inode_at L (dsk s') n) ∧
    spliced off l (dsk s) (inode_at L (dsk s) n) (dsk s') (inode_at L (dsk s') n) ∧
    ext2_inode_size_bytes (inode_at L (dsk s') n) = sz) as Hfin'.
  { intros l sz s' (E & P & C & K & Hs). destruct E as [Hm' Hmu OK Hi]. rewrite Hi. split; [done|].
    split; [|done]. split; rewrite ?Hi; try done; [apply Hd|]. unfold ext2_is_reg. rewrite K. apply Hd. }
  destruct (writeback ops B n off data final s) as [[e|[]] s'].
  - destruct Hwp as (-> & k & Hk & Hw). destruct (Hfin' _ _ _ Hw) as (H1 & H2 & H3 & H4 & H5).
    eexists _, _. split; [done|]. split; [done|]. split; [exact H2|]. split; [exact H3|]. split; [done|]. split; [exact H5|].
    exists k. split; [done|exact H4].
  - destruct (Hfin' _ _ _ Hwp) as (H1 & H2 & H3 & H4 & H5).
    eexists _, _. split; [done|]. split; [done|]. split; [exact H2|]. split; [exact H3|]. split; [exact H4|].
    etrans; [exact H5|]. unfold grown. change (disk_of x) with (dsk s). case_if; bool_hyps; lia.
Qed.


(** ** Loading *)

(** A block number as the source looks it up. *)
Lemma get_block_wp ino lbn s :
  mounted s → file_ok L (dsk s) ino → 0 ≤ lbn < max_blocks L →
  wp (ext2_inode_get_block ops B ino lbn) never
    (λ b s', b = slot_val L (dsk s) ino (slot_of L lbn) ∧ with_disk (dsk s) s s') s.
Proof.
  intros Hm OK Hl. destruct (per_block_bs L cap G) as [Eb Hpb]. destruct (layout_fields B ss L cap G s Hm) as (Ebs & _).
  destruct (slot_of_valid L cap G lbn Hl) as [Hv _].
  assert (∀ p t k s1, with_disk (dsk s) s s1 → svalid L p → slot_val L (dsk s) ino p = t → t ≠ 0 → 0 ≤ k < per_block L →
    wp (ext2_read_block ops B t) never
      (λ ibuf s', table_get k ibuf = ptr L (dsk s) t k ∧ with_disk (dsk s) s s') s1) as Hread.
  { intros p t k s1 Hw Hvp Et H0 Hk. pose proof Hw as (Ec & _ & _ & _ & _ & EF).
    destruct (fo_blk _ _ _ OK p Hvp ltac:(by rewrite Et)) as (Hr & _). rewrite Et in Hr. destruct (block_cap _ _ G t Hr).
    eapply wp_mono; [apply (mounted_read_block ops B disk ss L cap G); try done; unfold Ext2Alloc.mounted; by rewrite Ec|done|].
    intros ibuf s2 [-> Hw2]. rewrite EF in *. split; [|by eapply with_disk_trans]. unfold table_get. by rewrite get32_area by lia. }
  unfold ext2_inode_get_block, slot_of, max_blocks in *. wp_step. wp_step. rewrite Ebs. fold (per_block L).
  destruct (Z.ltb_spec lbn EXT2_NDIR_BLOCKS); [wp_step; split; [done|apply with_disk_refl]|].
  destruct (Z.ltb_spec (lbn - EXT2_NDIR_BLOCKS) (per_block L)).
  - simpl slot_val. unfold through. destruct (Z.eqb_spec (i_block ino 12) 0) as [E|E]; [wp_step; split; [done|apply with_disk_refl]|].
    wp_step. eapply wp_mono; [apply (Hread (SIno 12) _ (lbn - EXT2_NDIR_BLOCKS)); try done; apply with_disk_refl|done|].
    intros ibuf s1 [E1 Hw1]. by wp_step.
  - set (idx := lbn - EXT2_NDIR_BLOCKS - per_block L) in *. rewrite (proj2 (Z.ltb_lt idx _)) by lia. destruct Hv as [Hk Hj].
    simpl slot_val. unfold through at 2. destruct (Z.eqb_spec (i_block ino 13) 0) as [E|E]; [wp_step; split; [done|apply with_disk_refl]|].
    wp_step. eapply wp_mono; [apply (Hread (SIno 13) _ (idx / per_block L)); try done; apply with_disk_refl|done|].
    intros ibuf s1 [E1 Hw1]. rewrite E1. unfold through. case_if; bool_hyps; [by wp_step|].
    wp_step. eapply wp_mono; [apply (Hread (STwo (idx / per_block L)) _ (idx mod per_block L)); try done|done|].
    + simpl. unfold through. by rewrite (proj2 (Z.eqb_neq (i_block ino 13) 0)).
    + intros ibuf2 s2 [E2 Hw2]. by wp_step.
Qed.

End Spec.
End Ext2Spec.

(** * ext2: loading a file

    [ext2_load_file] gives a node of the VFS the content that the file has on
    the disk, up to the limit of the loader; together with
    [ext2_writeback_file], what was written is what is loaded. *)
Module Ext2Load.
Import PathSpec Vfs VfsFile BlockDev Ext2 Ext2Io Ext2Layout Ext2Alloc Ext2File Ext2Write Ext2Spec.

(** The bytes of a file that are loaded. *)
Definition loaded_size (ino : ext2_inode_t) : Z :=
  Z.min (Z.min (ext2_inode_size_bytes ino) 4294967295) EXT2_MAX_FILE_BYTES.

Section Load.
Context {D : Type} (ops : disk_ops D) (B : block_state) (disk : Z → D → Z → Z).
Context (ss : Z) `{!DiskDriver ops ss disk, !ReliableDisk ops}.
Context (L : layout) (cap : Z) (G : geom L cap) (mb : mount_blocks).
Implicit Types s : e2state D.

Abbreviation dsk := (dsk disk).
Abbreviation with_disk := (with_disk disk).
Abbreviation mounted := (mounted B ss L cap).

Lemma with_disk_mounted F s s' : mounted s → with_disk F s s' → mounted s'.
Proof. intros Hm (Ec & _). unfold Ext2Alloc.mounted. by rewrite Ec. Qed.

Lemma load_block_wp ino lbn s :
  mounted s → file_ok L (dsk s) ino → 0 ≤ lbn < max_blocks L →
  wp (load_block ops B ino lbn) never
    (λ blk s', blk = area (fbyte L (dsk s) ino) (lbn * l_bs L) (l_bs L) ∧ with_disk (dsk s) s s') s.
Proof.
  intros Hm OK Hl. pose proof (bs_pos _ _ G) as Hbs. destruct (layout_fields B ss L cap G s Hm) as (Ebs & _).
  destruct (slot_of_valid L cap G lbn Hl) as [Hv _].
  assert (∀ f, (∀ k, 0 ≤ k < l_bs L → f (lbn * l_bs L + k) =
      (if slot_val L (dsk s) ino (slot_of L lbn) =? 0 then 0 else dsk s (slot_val L (dsk s) ino (slot_of L lbn) * l_bs L + k))) →
      area (fbyte L (dsk s) ino) (lbn * l_bs L) (l_bs L) = area f (lbn * l_bs L) (l_bs L)) as Ha.
  { intros f Hf. apply area_ext. intros k Hk. rewrite Hf by done. unfold fbyte.
    rewrite Z.div_add_l, Z.div_small, Z.add_0_r by lia. rewrite (Z.add_comm (lbn * l_bs L) k), Z.mod_add, Z.mod_small by lia. done. }
  unfold load_block. wp_step. wp_step. wp_step. eapply wp_mono; [by apply (get_block_wp ops B disk ss L cap G)|done|].
  intros b s1 [-> Hw1]. destruct (Z.eqb_spec (slot_val L (dsk s) ino (slot_of L lbn)) 0) as [E0|E0].
  - wp_step. split; [|done]. rewrite Ebs, (Ha (λ _, 0)) by done. unfold zeros, area. apply list_eq. intros k.
    rewrite list_lookup_fmap. destruct (decide (k < Z.to_nat (l_bs L))%nat).
    + rewrite lookup_seqZ_lt by lia. by rewrite lookup_replicate_2.
    + rewrite lookup_seqZ_ge by lia. by apply lookup_ge_None_2; rewrite length_replicate; lia.
  - destruct (fo_blk _ _ _ OK _ Hv E0) as (Hr & _). destruct (block_cap _ _ G _ Hr).
    eapply wp_mono; [apply (mounted_read_block ops B disk ss L cap G); try done; by eapply with_disk_mounted|done|].
    intros blk s2 [-> Hw2]. pose proof Hw1 as (_ & _ & _ & _ & _ & EF1). rewrite EF1 in *. split; [|by eapply with_disk_trans].
    rewrite (Ha (λ a, dsk s (slot_val L (dsk s) ino (slot_of L lbn) * l_bs L + (a - lbn * l_bs L)))).
    + unfold area. apply list_fmap_ext. intros i k _. f_equal. lia.
    + intros k Hk. f_equal. lia.
Qed.

Lemma load_loop_wp fuel ino fsize lbn s :
  mounted s → file_ok L (dsk s) ino → 0 ≤ lbn → fsize ≤ max_file L → fsize - lbn * l_bs L ≤ Z.of_nat fuel * l_bs L →
  wp (load_loop ops B fuel ino fsize (Z.min fsize (lbn * l_bs L)) lbn) never
    (λ data s', data = area (fbyte L (dsk s) ino) (lbn * l_bs L) (fsize - lbn * l_bs L) ∧ with_disk (dsk s) s s') s.
Proof.
  pose proof (bs_pos _ _ G) as Hbs. revert lbn s. induction fuel as [|fuel IH]; intros lbn s Hm OK Hl Hmax Hf; simpl;
    destruct (Z.leb_spec fsize (Z.min fsize (lbn * l_bs L))) as [Hle|Hgt]; try (exfalso; lia).
  1,2: (wp_step; split; [|apply with_disk_refl]; unfold area; rewrite seqZ_nil by lia; done).
  destruct (layout_fields B ss L cap G s Hm) as (Ebs & _). wp_step. wp_step. wp_step.
  eapply wp_mono; [apply load_block_wp; try done; split; [done|unfold max_file in Hmax; nia]|done|].
  intros blk s1 [-> Hw1]. wp_step. pose proof Hw1 as (_ & _ & _ & _ & _ & EF1). rewrite Ebs.
  set (chunk := Z.min (l_bs L) _). replace (Z.min fsize (lbn * l_bs L) + chunk) with (Z.min fsize ((lbn + 1) * l_bs L)) by lia.
  eapply wp_mono; [apply IH; rewrite ?EF1; try done; [by eapply with_disk_mounted|lia|lia]|done|].
  intros rest s2 [-> Hw2]. wp_step. rewrite EF1 in *. split; [|by eapply with_disk_trans].
  assert (take (Z.to_nat chunk) (area (fbyte L (dsk s) ino) (lbn * l_bs L) (l_bs L)) = area (fbyte L (dsk s) ino) (lbn * l_bs L) chunk) as ->.
  { pose proof (area_bslice (fbyte L (dsk s) ino) (lbn * l_bs L) (l_bs L) 0 chunk) as E. unfold bslice in E.
    change (drop (Z.to_nat 0) ?l) with l in E. rewrite E by lia. f_equal. lia. }
  destruct (Z.le_gt_cases (l_bs L) (fsize - lbn * l_bs L)) as [Hc|Hc].
  - replace ((lbn + 1) * l_bs L) with (lbn * l_bs L + chunk) by lia. rewrite area_app by lia. f_equal. lia.
  - unfold area at 2. rewrite seqZ_nil by lia. simpl. rewrite app_nil_r. f_equal. lia.
Qed.

(** *** The node *)

Lemma inode_upd_at n f v : nodes (inode_upd n f v) !! n = (λ x, x <| n_inode ::= f |>) <$> nodes v !! n.
Proof. unfold inode_upd, node_upd. simpl. apply lookup_alter_eq. Qed.

(** [vfs_fs_set_file_data] with the bytes of a file. *)
Lemma set_file_data_result v node x data blk :
  nodes v !! node = Some x → node ≠ 0 → n_type x = VFS_NODE_FILE → VfsData.inode_ok (n_inode x) → i_size (n_inode x) = 0 →
  Z.of_nat (length data) ≤ 9223372036854775808 → VfsData.allocates blk →
  ∃ v' x', vfs_fs_set_file_data v node (Some data) (Z.of_nat (length data)) blk = Some (RDNX_OK, v') ∧
    nodes v' !! node = Some x' ∧ i_size (n_inode x') = Z.of_nat (length data) ∧ VfsData.content (n_inode x') = data.
Proof.
  intros Hx Hn Ht Hok Hs Hl Hb. destruct (VfsData.grow_result v node x (Z.of_nat (length data)) blk Hx Hn Ht Hok ltac:(lia) Hb)
    as (i' & Hg & Hok' & _ & Hs' & Hc & _). unfold vfs_fs_set_file_data, is_dir.
  rewrite (lookup_total_correct _ _ _ Hx), (proj2 (Z.eqb_neq node 0)) by done.
  rewrite (bool_decide_eq_false_2 (n_type x = _)) by congruence. rewrite (bool_decide_eq_false_2 (Some data = None)) by done.
  rewrite andb_false_r. cbn [orb]. rewrite Hg. cbn [negb Z.eqb]. change (default [] (Some data)) with data. rewrite Nat2Z.id, take_ge by lia.
  set (v1 := inode_upd node (λ _, i') v). assert (nodes v1 !! node = Some (x <| n_inode := i' |>)) as Hx1.
  { unfold v1. by rewrite inode_upd_at, Hx. }
  rewrite Hs in Hs'. destruct Hok' as (_ & _ & Hd). destruct (Z.ltb_spec 0 (Z.of_nat (length data))) as [Hpos|Hpos].
  - eexists _, _. split; [done|]. rewrite !inode_upd_at, Hx1. split; [done|]. split; [done|].
    destruct (i_data i') as [d|] eqn:Ed; [|lia]. unfold VfsData.content. simpl. rewrite Ed. simpl.
    rewrite Nat2Z.id. apply list_eq. intros k. destruct (decide (k < length data)%nat).
    + rewrite lookup_take_lt by done. rewrite list_lookup_inserts by lia. f_equal. lia.
    + rewrite !lookup_ge_None_2; [done|lia|rewrite length_take; lia].
  - eexists _, _. split; [done|]. rewrite inode_upd_at, Hx1. split; [done|]. split; [done|].
    destruct data; [done|simpl in Hpos; lia].
Qed.

Lemma loaded_small ino : loaded_size ino ≤ max_file L.
Proof.
  destruct (per_block_bs L cap G) as [Eb Hpb]. unfold loaded_size, max_file, max_blocks, EXT2_MAX_FILE_BYTES, EXT2_NDIR_BLOCKS.
  rewrite Eb. nia.
Qed.

(** The node of a file that was just made. *)
Definition new_file (v : vfs_state) (node : Z) : Prop :=
  node ≠ 0 ∧ ∃ x, nodes v !! node = Some x ∧ n_type x = VFS_NODE_FILE ∧ VfsData.inode_ok (n_inode x) ∧ i_size (n_inode x) = 0.

(** The node holds the content [data] of the inode [ino_num]. *)
Definition holds (v : vfs_state) (node ino_num : Z) (data : list Z) : Prop :=
  ∃ x, nodes v !! node = Some x ∧ VfsData.content (n_inode x) = data ∧ i_size (n_inode x) = Z.of_nat (length data) ∧
    i_fs_tag (n_inode x) = VFS_FS_TAG_EXT2 ∧ i_fs_ino (n_inode x) = ino_num.

(** The end of the loader, with the bytes of the file. *)
Lemma set_data_wp node ino_num data od s :
  new_file (e_vfs s) node → VfsData.allocates (mb_data mb (e_next s)) → Z.of_nat (length data) ≤ 9223372036854775808 →
  od = (if bool_decide (data = []) then None else Some data) →
  wp (set_data mb node ino_num od (Z.of_nat (length data))) never
    (λ _ s', holds (e_vfs s') node ino_num data ∧ dsk s' = dsk s ∧ e_ctx s' = e_ctx s) s.
Proof.
  intros (Hn & x & Hx & Ht & Hok & Hs) Hb Hl ->. unfold set_data. do 4 wp_step.
  destruct (set_file_data_result _ _ _ data _ Hx Hn Ht Hok Hs Hl Hb) as (v' & x' & Hset & Hx' & Hsz & Hc).
  assert (vfs_fs_set_file_data (e_vfs s) node (if bool_decide (data = []) then None else Some data) (Z.of_nat (length data))
            (mb_data mb (e_next s)) = Some (RDNX_OK, v')) as ->.
  { case_bool_decide as E; [|done]. rewrite <- Hset, E. done. }
  wp_step. unfold set_vfs. wp_step. change (RDNX_OK =? RDNX_OK) with true. cbn iota. unfold ext2_mark_node, set_vfs. wp_step.
  split; [|done]. simpl. rewrite (proj2 (Z.eqb_neq node 0)) by done. eexists. rewrite inode_upd_at, Hx'. split; [done|]. by split_and!.
Qed.

Lemma load_file_wp n ino node s :
  mounted s → file_ok L (dsk s) ino → 0 ≤ ext2_inode_size_bytes ino →
  new_file (e_vfs s) node → VfsData.allocates (mb_data mb (e_next s)) →
  wp (ext2_load_file ops B mb n ino node) never
    (λ _ s', holds (e_vfs s') node n (area (fbyte L (dsk s) ino) 0 (loaded_size ino)) ∧ dsk s' = dsk s ∧ e_ctx s' = e_ctx s) s.
Proof.
  intros Hm OK H0 Hf Hb. pose proof (loaded_small ino) as Hmax. pose proof (max_file_bound L cap G) as [_ Hmf].
  pose proof (bs_pos _ _ G) as Hbs. destruct (layout_fields B ss L cap G s Hm) as (Ebs & _).
  set (data := area (fbyte L (dsk s) ino) 0 (loaded_size ino)).
  assert (0 ≤ loaded_size ino) as Hp by (unfold loaded_size, EXT2_MAX_FILE_BYTES; lia).
  assert (Z.of_nat (length data) = loaded_size ino) as Hl by (unfold data; rewrite length_area; lia).
  change (2 ^ 33) with 8589934592 in Hmf. unfold ext2_load_file. wp_step. wp_step. fold (loaded_size ino).
  rewrite (proj2 (Z.eqb_neq node 0)) by apply Hf. destruct (Z.eqb_spec (loaded_size ino) 0) as [Ez|Ez].
  - assert (data = []) as Ed by (apply length_zero_iff_nil; lia). rewrite Ed.
    apply (set_data_wp node n []); try done.
  - wp_step. rewrite Ebs.
    pose proof (load_loop_wp (Z.to_nat (loaded_size ino / l_bs L + 1)) ino (loaded_size ino) 0 s Hm OK ltac:(lia) Hmax) as Hload.
    rewrite Z.mul_0_l, Z.min_r in Hload by lia. eapply wp_mono; [apply Hload|done|].
    { rewrite Z2Nat.id by (pose proof (Z.div_pos (loaded_size ino) (l_bs L)); lia).
      pose proof (Z.div_mod (loaded_size ino) (l_bs L) ltac:(lia)). pose proof (Z.mod_pos_bound (loaded_size ino) (l_bs L) ltac:(lia)). lia. }
    intros d s1 [-> Hw]. rewrite Z.sub_0_r. fold data. pose proof Hw as (Ec & _ & _ & Ev & En & EF).
    rewrite <- Hl. eapply wp_mono; [apply (set_data_wp node n data); rewrite ?Ev, ?En; try done; [lia|]|done|].
    + rewrite bool_decide_false; [done|]. intros E. rewrite E in Hl. simpl in Hl. lia.
    + intros [] s2 (H1 & H2 & H3). split; [done|]. split; congruence.
Qed.

(** The node of a loaded file holds the bytes that the file has on the disk. *)
Theorem ext2_load_file_correct n ino node s :
  mounted s → file_ok L (dsk s) ino → 0 ≤ ext2_inode_size_bytes ino →
  new_file (e_vfs s) node → VfsData.allocates (mb_data mb (e_next s)) →
  ∃ s', ext2_load_file ops B mb n ino node s = (inr tt, s') ∧ dsk s' = dsk s ∧
    holds (e_vfs s') node n (area (fbyte L (dsk s) ino) 0 (loaded_size ino)).
Proof.
  intros Hm OK H0 Hf Hb. destruct (wp_total _ _ _ (load_file_wp n ino node s Hm OK H0 Hf Hb)) as ([] & s' & E & H1 & H2 & _).
  by exists s'.
Qed.


End Load.
End Ext2Load.
