(* ===== verification/Ext2Mount.v ===== *)
(** * ext2: mounting ends

    Whatever bytes are on the disk, and whatever the driver of the disk
    returns, [ext2_mount] ends: the loops over the sectors, over the entries of
    a directory block, over the blocks of a directory and of a file, and the
    descent into directories stop within their fuel. *)

From stdpp Require Import base gmap list numbers fin_maps.
From S2P Require Import Prelude Bytes PathSpec Vfs VfsFile VfsNames BlockDev Ext2 Ext2Io.

Module Ext2Mount.
Import PathSpec Vfs VfsFile BlockDev Ext2 Ext2Io.

Section Ends.
Context {D : Type} (ops : disk_ops D) (B : block_state) (mb : mount_blocks).
Implicit Types s : e2state D.

(** [m] ends, and keeps the property [P] of the context and the VFS. *)
Definition ends {A} (P : ext2_mount_ctx_t → vfs_state → Prop) (m : E D A) : Prop :=
  ∀ s, P (e_ctx s) (e_vfs s) →
    wp m (λ e s', e ≠ Diverges ∧ P (e_ctx s') (e_vfs s')) (λ _ s', P (e_ctx s') (e_vfs s')) s.

Section Rules.
Context (P : ext2_mount_ctx_t → vfs_state → Prop).

Lemma ends_ret {A} (a : A) : ends P (mret a).
Proof. by intros s Hs. Qed.
Lemma ends_err {A} rc : ends P (err (A := A) rc).
Proof. by intros s Hs. Qed.
Lemma ends_undefined {A} : ends P (throw (A := A) Undefined).
Proof. by intros s Hs. Qed.
Lemma ends_asks {A} (f : e2state D → A) : ends P (asks f).
Proof. by intros s Hs. Qed.
Lemma ends_ctx : ends P ctx.
Proof. by intros s Hs. Qed.
Lemma ends_set_ctx f : (∀ c v, P c v → P (f c) v) → ends P (set_ctx f).
Proof. intros Hf s Hs. by apply wp_modify, Hf. Qed.
Lemma ends_set_vfs f : (∀ c v, P c v → P c (f v)) → ends P (set_vfs f).
Proof. intros Hf s Hs. by apply wp_modify, Hf. Qed.
Lemma ends_next : ends P (modify (λ s, s <| e_next ::= S |>)).
Proof. by intros s Hs. Qed.
Lemma ends_bind {A B'} (m : E D A) (k : A → E D B') : ends P m → (∀ a, ends P (k a)) → ends P (m ≫= k).
Proof. intros Hm Hk s Hs. apply wp_bind. eapply wp_mono; [by apply Hm|done|]. intros a s' Hs'. by apply Hk. Qed.
Lemma ends_attempt {A} (m : E D A) : ends P m → ends P (attempt m).
Proof. intros Hm s Hs. apply wp_attempt. eapply wp_mono; [by apply Hm| |done]. by intros [rc| |] s' [He Hs']. Qed.
Lemma ends_ignore {A} (m : E D A) : ends P m → ends P (ignore m).
Proof. intros Hm. apply ends_bind; [by apply ends_attempt|]. intros. apply ends_ret. Qed.
Lemma ends_require b rc : ends P (require b rc).
Proof. unfold require. destruct b; [apply ends_ret|apply ends_err]. Qed.
Lemma ends_at_index {A} (l : list A) k : ends P (at_index l k).
Proof. unfold at_index. case_match; [apply ends_ret|apply ends_undefined]. Qed.
Lemma ends_if {A} (b : bool) (m1 m2 : E D A) : (b = true → ends P m1) → (b = false → ends P m2) → ends P (if b then m1 else m2).
Proof. destruct b; auto. Qed.
(** The context that is read satisfies the property. *)
Lemma ends_bind_ctx {A} (k : ext2_mount_ctx_t → E D A) : (∀ c v, P c v → ends P (k c)) → ends P (c ← ctx; k c).
Proof. intros Hk s Hs. do 2 wp_step. by eapply Hk. Qed.
End Rules.

Create HintDb ends.
Hint Resolve ends_ret ends_err ends_undefined ends_asks ends_ctx ends_next ends_attempt ends_ignore ends_require ends_at_index : ends.

(** One construct of a program. *)
Ltac ends_step :=
  lazymatch goal with
  | |- ends _ (mbind _ ctx) => apply ends_bind_ctx; intros ? ? ?
  | |- ends _ (mbind _ _) => apply ends_bind; [|intros ?]
  | |- ends _ (if _ then _ else _) => apply ends_if; intros ?
  | |- ends _ _ => solve [eauto with ends]
  end.

Section Sectors.
Context (P : ext2_mount_ctx_t → vfs_state → Prop) (HP : ∀ c v, P c v → 0 < c_sector_size c).

Lemma ends_read_sector dev sec : ends P (read_sector ops B dev sec).
Proof.
  intros s Hs. unfold wp, read_sector. destruct (fabric_blockdev_read ops B (e_dev s) dev sec 1) as [[rc buf] d]. by case_if.
Qed.
Hint Resolve ends_read_sector : ends.

Lemma ends_read_loop fuel dev ss cur left : 0 < ss → left ≤ Z.of_nat fuel → ends P (read_loop ops B fuel dev ss cur left).
Proof.
  intros Hss. revert cur left. induction fuel as [|fuel IH]; intros cur left Hl; simpl; ends_step; try (bool_hyps; lia); try by ends_step.
  ends_step; [ends_step|]. ends_step; [|ends_step]. apply IH. bool_hyps. pose proof (Z.mod_pos_bound cur ss Hss). lia.
Qed.

Lemma ends_read_bytes off len : ends P (ext2_read_bytes ops B off len).
Proof.
  unfold ext2_read_bytes. ends_step. repeat (ends_step; [by ends_step|]). apply ends_read_loop; [by eapply HP|].
  bool_hyps. destruct (Z.le_gt_cases 0 len); lia.
Qed.
Hint Resolve ends_read_bytes : ends.

Lemma ends_read_block b : ends P (ext2_read_block ops B b).
Proof. unfold ext2_read_block. repeat ends_step. Qed.
Hint Resolve ends_read_block : ends.

Lemma ends_read_inode n : ends P (ext2_read_inode ops B n).
Proof. unfold ext2_read_inode, inode_offset. repeat ends_step. Qed.

Lemma ends_get_block ino lbn : ends P (ext2_inode_get_block ops B ino lbn).
Proof. unfold ext2_inode_get_block. repeat ends_step. Qed.
End Sectors.

(** ** The tree *)
Section Tree.
Context (b : Z) (Hb : 1024 ≤ b ≤ 4096).

(** The block size is [b], and the VFS has the property [V]. *)
Definition sized (V : vfs_state → Prop) (c : ext2_mount_ctx_t) (v : vfs_state) : Prop :=
  0 < c_sector_size c ∧ c_block_size c = b ∧ V v.

Lemma sized_sector V c v : sized V c v → 0 < c_sector_size c.
Proof. by intros []. Qed.

Hint Resolve sized_sector : ends.
Hint Resolve ends_read_block ends_read_inode ends_get_block : ends.

Section Load.
Context (V : vfs_state → Prop).

Lemma ends_load_block ino lbn : ends (sized V) (load_block ops B ino lbn).
Proof. unfold load_block. repeat ends_step. Qed.

Lemma ends_load_loop fuel ino fsize done lbn :
  fsize - done ≤ Z.of_nat fuel * b → ends (sized V) (load_loop ops B fuel ino fsize done lbn).
Proof.
  revert done lbn. induction fuel as [|fuel IH]; intros done lbn Hf; simpl; ends_step; bool_hyps; try (exfalso; lia); try by ends_step.
  ends_step. ends_step; [apply ends_load_block|]. ends_step; [|ends_step]. destruct H0 as (_ & -> & _). apply IH. lia.
Qed.
End Load.

Abbreviation any_vfs := (sized (λ _, True)).

(** A file whose node has no data yet gets its data. *)
Definition no_data (node : Z) (v : vfs_state) : Prop := i_capacity (n_inode (vnode v node)) = 0.

Lemma set_file_data_returns v node data size blk :
  no_data node v → size ≤ EXT2_MAX_FILE_BYTES → vfs_fs_set_file_data v node data size blk ≠ None.
Proof.
  intros Hn Hs. unfold no_data in Hn. unfold vfs_fs_set_file_data, vfs_grow_file. rewrite Hn.
  change (negb (0 =? 0)) with false. cbn iota. case_if; [done|]. case_if; [done|].
  destruct (VfsData.grow_cap_enough 64 64 size) as (c & Hc & _); [lia|unfold EXT2_MAX_FILE_BYTES in Hs; lia| |].
  { change (2 ^ Z.of_nat 64) with 18446744073709551616. unfold EXT2_MAX_FILE_BYTES in Hs. lia. }
  rewrite Hc. destruct (size <=? 0); [done|]. destruct (blk c); done.
Qed.

(** The rest of a program may forget what was known of the VFS. *)
Definition closes {A} (V : vfs_state → Prop) (m : E D A) : Prop :=
  ∀ s, sized V (e_ctx s) (e_vfs s) →
    wp m (λ e s', e ≠ Diverges ∧ any_vfs (e_ctx s') (e_vfs s')) (λ _ s', any_vfs (e_ctx s') (e_vfs s')) s.

Lemma sized_any V c v : sized V c v → any_vfs c v.
Proof. by intros (? & ? & _). Qed.

Lemma closes_bind {A B'} V (m : E D A) (k : A → E D B') : ends (sized V) m → (∀ a, closes V (k a)) → closes V (m ≫= k).
Proof.
  intros Hm Hk s Hs. apply wp_bind. eapply wp_mono; [by apply Hm| |].
  - intros e s' [? ?]. split; [done|]. by eapply sized_any.
  - intros a s' Hs'. by apply Hk.
Qed.

Lemma closes_ends {A} V (m : E D A) : ends any_vfs m → closes V m.
Proof. intros Hm s Hs. apply Hm. by eapply sized_any. Qed.

Lemma closes_set_data node n data size : size ≤ EXT2_MAX_FILE_BYTES → closes (no_data node) (set_data mb node n data size).
Proof.
  intros Hsz s Hs. unfold set_data. do 4 wp_step. pose proof (sized_any _ _ _ Hs) as Ha. destruct Hs as (_ & _ & Hn).
  pose proof (set_file_data_returns (e_vfs s) node data size (mb_data mb (e_next s)) Hn Hsz) as Hr.
  destruct (vfs_fs_set_file_data _ _ _ _ _) as [[rc v]|]; [|done]. unfold set_vfs, ext2_mark_node. wp_step. wp_step.
  destruct (rc =? RDNX_OK); [|wp_step; done]. unfold set_vfs. by wp_step.
Qed.

Lemma closes_bind_ctx {A} V (k : ext2_mount_ctx_t → E D A) : (∀ c v, sized V c v → closes V (k c)) → closes V (c ← ctx; k c).
Proof. intros Hk s Hs. do 2 wp_step. by eapply Hk. Qed.

Lemma closes_load_file n ino node : closes (no_data node) (ext2_load_file ops B mb n ino node).
Proof.
  unfold ext2_load_file. apply closes_bind_ctx. intros c v (_ & Eb & _). rewrite Eb. set (fsize := Z.min _ EXT2_MAX_FILE_BYTES).
  assert (fsize ≤ EXT2_MAX_FILE_BYTES) as Hm by lia. case_if; [apply closes_ends; ends_step|].
  case_if; [apply closes_set_data; unfold EXT2_MAX_FILE_BYTES; lia|].
  apply closes_bind; [|intros data; by apply closes_set_data]. apply ends_load_loop.
  pose proof (Z.div_mod fsize b ltac:(lia)). pose proof (Z.mod_pos_bound fsize b ltac:(lia)).
  destruct (Z.le_gt_cases 0 fsize); [rewrite Z2Nat.id by (pose proof (Z.div_pos fsize b); lia)|]; lia.
Qed.

(** *** Nodes *)
Lemma node_upd_capacity n m f v :
  (∀ x, i_capacity (n_inode (f x)) = i_capacity (n_inode x)) → no_data n v → no_data n (node_upd m f v).
Proof.
  intros Hf. unfold no_data, vnode, node_upd. simpl. rewrite !lookup_total_alt. destruct (decide (m = n)) as [->|].
  - rewrite lookup_alter_eq. destruct (nodes v !! n) as [x|]; simpl; [by rewrite Hf|done].
  - by rewrite lookup_alter_ne.
Qed.

Lemma add_child_no_data n v parent child : no_data n v → no_data n (vfs_fs_add_child v parent child).2.
Proof.
  intros Hn. unfold vfs_fs_add_child, vfs_add_child. case_if; [done|]. case_if; [done|]. simpl.
  by apply node_upd_capacity, node_upd_capacity.
Qed.

Lemma next_node_wp name nt s :
  any_vfs (e_ctx s) (e_vfs s) →
  wp (next_node mb name nt) (λ _ _, False) (λ child s', sized (λ v, child ≠ 0 → no_data child v) (e_ctx s') (e_vfs s')) s.
Proof.
  intros (H1 & H2 & _). unfold next_node, set_vfs. do 4 wp_step. unfold vfs_fs_alloc_node, vfs_alloc_node.
  case_if; bool_hyps; [|case_if]; cbn iota beta; wp_step; wp_step; wp_step; wp_step; wp_step; split_and!; try done.
  intros _. unfold no_data, vnode. simpl. by rewrite lookup_total_insert_eq.
Qed.

(** *** Directories *)
Section Directory.
Context (build : Z → ext2_inode_t → E D unit) (Hbuild : ∀ n ino, ends any_vfs (build n ino)).

Lemma ends_add_entry parent n name : ends any_vfs (add_entry ops B mb build parent n name).
Proof.
  unfold add_entry. apply ends_bind; [ends_step|]. intros [rc|e]; [ends_step|]. intros s Hs. wp_step.
  eapply wp_mono; [by apply next_node_wp|done|]. intros child s1 Hs1. case_if; [wp_step; exact (sized_any _ _ _ Hs1)|]. bool_hyps.
  assert (sized (no_data child) (e_ctx s1) (e_vfs s1)) as Hs2 by (destruct Hs1 as (? & ? & ?); split; [done|split; [done|auto]]).
  clear Hs1. wp_step. wp_step. destruct (vfs_fs_add_child (e_vfs s1) parent child) as [rc v] eqn:Ea.
  assert (no_data child v) as Hv by (replace v with (vfs_fs_add_child (e_vfs s1) parent child).2 by (by rewrite Ea); apply add_child_no_data, Hs2).
  unfold set_vfs at 1. wp_step. wp_step. set (s2 := s1 <| e_vfs ::= _ |>).
  assert (sized (no_data child) (e_ctx s2) (e_vfs s2)) as Hs3 by (destruct Hs2 as (? & ? & ?); split; [done|split; done]).
  case_if; [wp_step; exact (sized_any _ _ _ Hs3)|].
  assert (closes (no_data child) (ext2_mark_node child n ;; set_ctx (λ c, c <| c_node_budget ::= λ k, k - 1 |>) ;;
    if ext2_is_dir e then ignore (build child e) else if ext2_is_reg e then ignore (ext2_load_file ops B mb n e child) else mret tt)) as Hc.
  { apply closes_bind.
    - apply ends_set_vfs. intros c v0 (? & ? & Hn). split_and!; try done. case_if; [done|]. by apply node_upd_capacity.
    - intros _. apply closes_bind; [by apply ends_set_ctx|]. intros _. case_if; [apply closes_ends; ends_step|].
      case_if; [|apply closes_ends; ends_step]. intros s3 Hs4. unfold ignore. wp_step. wp_step.
      eapply wp_mono; [by apply closes_load_file| |]; [intros [rc'| |] s' [? ?]; try done|intros [] s' ?; by wp_step]. }
  apply Hc, Hs3.
Qed.

Lemma ends_scan_block fuel parent blk pos :
  b - pos ≤ Z.of_nat fuel → ends any_vfs (scan_block ops B mb build fuel parent blk pos).
Proof.
  revert pos. induction fuel as [|fuel IH]; intros pos Hf; simpl; ends_step; ends_step; try by ends_step; bool_hyps.
  - ends_step; [ends_step|]. bool_hyps. destruct H as (_ & E & _). rewrite E in *. unfold DIRENT_HDR_SIZE in *. lia.
  - ends_step; [ends_step|]. bool_hyps. unfold DIRENT_HDR_SIZE in *.
    assert (ends any_vfs (scan_block ops B mb build fuel parent blk (pos + de_rec_len blk pos))) as Hrec by (apply IH; lia).
    ends_step; [|done]. ends_step; [ends_step|]. ends_step; [apply ends_add_entry|done].
Qed.

(** Behind the last block that an inode can name, the lookup fails. *)
Lemma get_block_behind dir lbn s :
  any_vfs (e_ctx s) (e_vfs s) → EXT2_NDIR_BLOCKS + b / 4 + b / 4 * (b / 4) ≤ lbn →
  ext2_inode_get_block ops B dir lbn s = (inl (Err RDNX_E_UNSUPPORTED), s).
Proof.
  intros (_ & Eb & _) Hl. assert (256 ≤ b / 4) as Hq by (apply Z.div_le_lower_bound; lia).
  unfold ext2_inode_get_block, mbind, E_bind, ctx, asks. rewrite Eb.
  rewrite !(proj2 (Z.ltb_ge _ _)) by (unfold EXT2_NDIR_BLOCKS in *; nia). done.
Qed.

Lemma ends_scan_dir fuel parent dir scanned lbn :
  0 ≤ lbn → EXT2_NDIR_BLOCKS + b / 4 + b / 4 * (b / 4) + 1 - lbn ≤ Z.of_nat fuel → 0 < Z.of_nat fuel →
  lbn ≤ EXT2_NDIR_BLOCKS + b / 4 + b / 4 * (b / 4) →
  ends any_vfs (scan_dir ops B mb build fuel parent dir scanned lbn).
Proof.
  revert scanned lbn. induction fuel as [|fuel IH]; intros scanned lbn H0 Hf Hpos Hl; [lia|].
  assert (b / 4 ≤ 1024) as Hq by (apply Z.div_le_upper_bound; lia). pose proof (Z.div_pos b 4 ltac:(lia) ltac:(lia)).
  simpl. ends_step; [ends_step|]. intros s Hs. do 3 wp_step. pose proof Hs as (_ & Eb & _). rewrite Eb.
  destruct (Z.le_gt_cases (EXT2_NDIR_BLOCKS + b / 4 + b / 4 * (b / 4)) lbn) as [Hlast|Hmore].
  { unfold wp. rewrite get_block_behind by done. done. }
  eapply wp_mono; [apply (ends_get_block any_vfs); [apply sized_sector|done]|done|]. intros pblk s1 Hs1. revert s1 Hs1.
  change (ends any_vfs (if pblk =? 0 then mret tt else
    blk ← ext2_read_block ops B pblk;
    stop ← scan_block ops B mb build (Z.to_nat b) parent blk 0;
    if (stop : bool) then mret tt else scan_dir ops B mb build fuel parent dir (scanned +₃₂ b) (lbn +₃₂ 1))).
  ends_step; [ends_step|]. ends_step; [ends_step|]. ends_step; [apply ends_scan_block; lia|]. ends_step; [ends_step|].
  rewrite (u32_small (lbn + 1)) by (unfold EXT2_NDIR_BLOCKS in *; nia). apply IH; lia.
Qed.
End Directory.

Lemma ends_build_dir levels parent dir : ends any_vfs (ext2_build_dir ops B mb levels parent dir).
Proof.
  revert parent dir. induction levels as [|levels IH]; intros parent dir; simpl; ends_step; try by ends_step.
  ends_step. destruct H0 as (_ & Eb & _). unfold dir_fuel. rewrite Eb. pose proof (Z.div_pos b 4 ltac:(lia) ltac:(lia)).
  assert (0 ≤ b / 4 * (b / 4)) by nia. unfold EXT2_NDIR_BLOCKS. apply ends_scan_dir; try done; unfold EXT2_NDIR_BLOCKS; lia.
Qed.

Lemma ends_mount_groups : ends any_vfs (mount_groups ops B).
Proof.
  unfold mount_groups. ends_step. repeat (ends_step; [first [by apply ends_set_ctx|ends_step|apply ends_read_bytes, sized_sector]|]).
  by apply ends_set_ctx.
Qed.

Lemma ends_mount_tree : ends any_vfs (mount_tree ops B mb).
Proof.
  unfold mount_tree. ends_step; [ends_step|]. ends_step; [ends_step|]. ends_step.
  { intros s Hs. eapply wp_mono; [by apply next_node_wp|done|]. intros child s1 Hs1. exact (sized_any _ _ _ Hs1). }
  ends_step; [ends_step|]. ends_step; [by apply ends_set_ctx|]. ends_step; [apply ends_ignore, ends_build_dir|].
  ends_step; [|ends_step]. unfold ext2_mark_node. by apply ends_set_vfs.
Qed.
End Tree.

(** The superblock gives a block size between 1024 and 4096. *)
Lemma mount_super_wp s :
  0 < c_sector_size (e_ctx s) →
  wp (mount_super ops B) (λ e _, e ≠ Diverges)
    (λ _ s', ∃ b, 1024 ≤ b ≤ 4096 ∧ sized b (λ _, True) (e_ctx s') (e_vfs s')) s.
Proof.
  intros Hs. unfold mount_super. wp_step. eapply wp_mono; [apply (ends_read_bytes (λ c _, 0 < c_sector_size c)); done| |].
  { by intros e s' [? _]. }
  intros sb s1 Hs1. unfold require. do 3 wp_step. case_if; [|by wp_step]. do 2 wp_step. case_if; [|by wp_step].
  do 2 wp_step. case_if; [|by wp_step]. do 2 wp_step. case_if; [by wp_step|]. do 4 wp_step. case_if; [|by wp_step].
  do 3 wp_step. set (bsz := u32 _) in *. bool_hyps. unfold EXT2_MAX_BLOCK_SIZE in *.
  match goal with |- wp (if ?c then _ else _) _ _ _ => destruct c end; [|by wp_step]. wp_step.
  exists bsz. split; [lia|]. by split_and!.
Qed.

End Ends.

(** C31. Mounting ends with a root or an error, or with an access outside of an
    array, for every disk and every driver. *)
Theorem ext2_mount_terminates {D} (ops : disk_ops D) (B : block_state) mb x v source :
  (∀ dev, 0 ≤ bd_sector_size (bdev B dev)) →
  (ext2_mount ops B mb x v source).1.1 ≠ inl Diverges.
Proof.
  intros Hss. unfold ext2_mount. set (dev := fabric_blockdev_find _ _). case_if; [done|]. case_if; [done|]. bool_hyps.
  pose proof (Hss dev). set (s0 := mk_e2 _ _ _ _ _ _).
  assert (wp (mount_super ops B ;; mount_groups ops B ;; mount_tree ops B mb) (λ e _, e ≠ Diverges) (λ _ _, True) s0) as Hwp.
  { wp_step. eapply wp_mono; [apply mount_super_wp; simpl; lia|done|]. intros [] s1 (b & Hb & Hs1).
    assert (ends (sized b (λ _, True)) (mount_groups ops B ;; mount_tree ops B mb)) as He.
    { apply ends_bind; [by apply ends_mount_groups|]. intros. by apply ends_mount_tree. }
    eapply wp_mono; [by apply He| |done]. by intros e s' [? _]. }
  unfold wp in Hwp. destruct ((mount_super ops B ;; _) s0) as [[e|root] s1]; [|done]. simpl. congruence.
Qed.

End Ext2Mount.
