(* ===== verification/Ext2Demo.v ===== *)
(** * ext2: a file system on a RAM disk

    A disk of 64 blocks of 1024 bytes with a root directory and one file, and
    the theorems about ext2 applied to it. *)

From stdpp Require Import base gmap list numbers fin_maps.
From S2P Require Import Prelude Bytes PathSpec Vfs VfsFile VfsNames BlockDev Ext2 Ext2Io Ext2Alloc Ext2Write.
From S2P Require Import Ext2Spec Ext2Mount.

Module Ext2Demo.
Import PathSpec Vfs VfsFile BlockDev Ext2 Ext2Io Ext2Layout Ext2Alloc Ext2File Ext2Write Ext2Spec Ext2Load Ext2Mount.

(** ** The disk *)
Definition ram_disk : disk_ops (Z → Z) :=
  mk_disk_ops (λ _ d lba n, (RDNX_OK, area d (lba * 512) (n * 512), d))
    (λ _ d lba n buf, (RDNX_OK, if Z.of_nat (length buf) =? n * 512 then store_at (lba * 512) buf d else d)).
Definition bytes_of (_ : Z) (d : Z → Z) : Z → Z := d.

#[export] Instance ram_driver : DiskDriver ram_disk 512 bytes_of.
Proof.
  split.
  - intros dev d lba n rc buf d' [= <- <- <-]. done.
  - intros dev d lba n buf rc d' [= <- <-]. unfold bytes_of. case_if; bool_hyps; split; try done.
    intros a Ha. apply store_at_out. lia.
Qed.
#[export] Instance ram_reliable : ReliableDisk ram_disk.
Proof. by split. Qed.

Definition DISK : Z := 100.
Definition the_dev : fabric_blockdev_t := mk_blockdev 1 56 (Some DISK0) 512 128 0 true true true.
Definition devs : block_state := mk_block_state true [DISK] {[ DISK := the_dev ]}.

(** The superblock, the descriptor of the only group, and the inodes. *)
Definition the_sb : list Z :=
  put16 88 128 (put32 76 1 (put16 56 EXT2_MAGIC (put32 40 8 (put32 32 64 (put32 20 1 (put32 12 56 (put32 4 64 (zeros 104)))))))).
Definition the_gd : list Z := put16 12 56 (put32 8 5 (put32 0 3 (zeros 32))).
Definition ino_of (mode size blk : Z) : list Z := put32 40 blk (put32 28 2 (put32 4 size (put16 0 mode (zeros 128)))).
Definition dirent (ino rec_len : Z) (name : list Z) : list Z :=
  le_bytes 4 ino ++ le_bytes 2 rec_len ++ [Z.of_nat (length name); 0] ++ name ++ zeros (rec_len - 8 - Z.of_nat (length name)).

(** Block 6 is the root directory and block 7 the file [a] of 5 bytes. *)
Definition image (dir : list Z) : Z → Z :=
  store_at (7 * 1024) [10; 20; 30; 40; 50] (store_at (6 * 1024) dir
    (store_at (5 * 1024 + 128) (ino_of 16877 1024 6 ++ ino_of 33188 5 7)
      (store_at (3 * 1024) [127] (store_at (2 * 1024) the_gd (store_at 1024 the_sb (λ _, 0)))))).
Definition NAME_A : list Z := [97].
Definition the_dir : list Z := dirent 2 12 [DOT] ++ dirent 2 12 [DOT; DOT] ++ dirent 3 1000 NAME_A.
Definition the_disk : Z → Z := image the_dir.

Definition the_ctx : ext2_mount_ctx_t := mk_ctx DISK the_sb [the_gd] 1 1024 128 512 0.
Definition live : ext2_state (Z → Z) := mk_ext2 the_ctx true the_disk.
Definition L : layout := mk_layout DISK 512 1024 128 1 1 64 64 8 [3] [5].

Lemma only_group g : 0 ≤ g < 1 → g = 0.
Proof. lia. Qed.

Ltac regions :=
  repeat match goal with
  | r : region |- _ => destruct r
  | H : rvalid _ _ |- _ => simpl in H
  | H : 0 ≤ ?g < 1 |- _ => apply only_group in H; subst g
  end.

Lemma L_geom : geom L 65536.
Proof.
  split; simpl; try lia; try done.
  - split; [done|]. by repeat constructor.
  - split; [done|]. by repeat constructor.
  - intros r Hr. regions; vm_compute; done.
  - intros r1 r2 a H1 H2 R1 R2. regions; unfold in_region in *; simpl in *; unfold SUPERBLOCK_SIZE, GROUP_DESC_SIZE in *; try done; exfalso; lia.
Qed.

Lemma L_mounted : mounted_ctx devs 512 L 65536 the_ctx.
Proof.
  split; [vm_compute; reflexivity|]. split; [split; [vm_compute; reflexivity|split; [vm_compute; reflexivity|by repeat constructor]]|].
  split; [|split; [done|vm_compute; reflexivity]]. by split; try (vm_compute; done).
Qed.

Lemma live_is_ok : live_ok devs 512 L 65536 live.
Proof. split; [done|exact L_mounted]. Qed.

(** ** The file *)
Lemma data_plain b : 6 ≤ b → plain L b.
Proof.
  intros Hb a Ha (r & Hr & Hin). unfold in_block in Ha. simpl in Ha.
  regions; unfold in_region in Hin; simpl in Hin; unfold SUPERBLOCK_SIZE, GROUP_DESC_SIZE in Hin; lia.
Qed.

Lemma low_used b : 1 ≤ b ≤ 7 → used L the_disk b.
Proof.
  intros Hb. assert (b = 1 ∨ b = 2 ∨ b = 3 ∨ b = 4 ∨ b = 5 ∨ b = 6 ∨ b = 7) as Hc by lia.
  repeat destruct Hc as [->|Hc]; [..|subst b]; vm_compute; done.
Qed.

Abbreviation the_ino := (inode_at L the_disk 3).

Lemma ino_blocks k : k ∈ seqZ 0 14 → i_block the_ino k = if k =? 0 then 7 else 0.
Proof.
  intros Hk. revert k Hk. apply Forall_forall. change (seqZ 0 14) with [0; 1; 2; 3; 4; 5; 6; 7; 8; 9; 10; 11; 12; 13].
  repeat constructor; vm_compute; reflexivity.
Qed.

Lemma ino_block k : 0 ≤ k ≤ 13 → i_block the_ino k = if k =? 0 then 7 else 0.
Proof. intros. apply ino_blocks, elem_of_seqZ. lia. Qed.

(** Block 7 is the only block of the file. *)
Lemma only_slot sl : svalid L sl → slot_val L the_disk the_ino sl ≠ 0 → sl = SIno 0.
Proof.
  intros Hv. destruct sl as [k|k|k|k j]; cbn [slot_val svalid] in *; rewrite ?ino_block by lia.
  - case_if; bool_hyps; [by subst|done].
  - done.
  - done.
  - done.
Qed.

Lemma the_file : file_on_disk L 3 the_disk.
Proof.
  split.
  - split; vm_compute; done.
  - intros b [H1 H2] Hp. apply low_used. simpl in *. destruct (Z.le_gt_cases b 7); [lia|]. exfalso. apply Hp, data_plain. lia.
  - split; [vm_compute; done| |].
    + intros sl Hv H0. rewrite (only_slot sl Hv H0). cbn [slot_val]. rewrite ino_block by lia. simpl.
      split; [done|]. split; [apply low_used; lia|apply data_plain; lia].
    + intros sl sl' Hv Hv' H0 E. rewrite (only_slot sl Hv H0). symmetry. apply only_slot; [done|]. by rewrite <- E.
  - vm_compute. done.
Qed.

Definition the_inode : vfs_inode_t := mk_inode VFS_NODE_FILE 0 VFS_FS_TAG_EXT2 0 3 5 64 None 0 0.

Lemma the_sizes off len : 0 ≤ off → off + len ≤ 1000 → off + len ≤ max_file L.
Proof. intros. change (max_file L) with 67383296. lia. Qed.


Definition demo_heap : data_block := λ n, if 0 <=? n then Some (replicate (Z.to_nat n) 165) else None.
Lemma demo_allocates : VfsData.allocates demo_heap.
Proof.
  intros n Hn. unfold demo_heap. rewrite (proj2 (Z.leb_le 0 n)) by done. eexists. split; [done|]. rewrite length_replicate. lia.
Qed.
Definition demo_blocks : mount_blocks := mk_mount_blocks (λ k, mk_node_blocks (2000 + Z.of_nat k) true) (λ _, demo_heap).

(** A VFS with an empty file at 50. *)
Definition demo_vfs : vfs_state :=
  no_vfs <| nodes := {[ 50 := mk_vnode NAME_A VFS_NODE_FILE 0 0 0 (fresh_inode VFS_NODE_FILE) 1 false ]} |>.

Lemma demo_new_file : new_file demo_vfs 50.
Proof.
  split; [done|]. eexists. split; [vm_compute; reflexivity|]. split; [done|]. split; [|done]. split; [simpl; lia|]. split; [by left|done].
Qed.

Abbreviation after_write := (ext2_writeback_file ram_disk devs live the_inode 1 [1; 2; 3] 5).2.

Lemma write_succeeds : (ext2_writeback_file ram_disk devs live the_inode 1 [1; 2; 3] 5).1 = inr tt.
Proof. vm_compute. reflexivity. Qed.

Lemma result_of {A B} (r : A * B) a : r.1 = a → r = (a, r.2).
Proof. destruct r. simpl. by intros ->. Qed.


Definition live_state : e2state (Z → Z) := mk_e2 the_ctx the_disk (zeros INODE_STRUCT_SIZE) false demo_vfs 0%nat.

Lemma ext2_load_file_witness :
  ∃ s', ext2_load_file ram_disk devs demo_blocks 3 the_ino 50 live_state = (inr tt, s') ∧
    holds (e_vfs s') 50 3 (area (fbyte L the_disk the_ino) 0 (loaded_size the_ino)).
Proof.
  destruct (ext2_load_file_correct ram_disk devs bytes_of 512 L 65536 L_geom demo_blocks 3 the_ino 50 live_state
    L_mounted (fd_file _ _ _ the_file) ltac:(vm_compute; done) demo_new_file demo_allocates) as (s' & Es & _ & Hs).
  exists s'. split; [exact Es|exact Hs].
Defined.

(** ** Mounting *)
Definition unmounted (dir : list Z) : ext2_state (Z → Z) := mk_ext2 no_ctx false (image dir).
Definition mounted_vfs (dir : list Z) : vfs_state := (ext2_mount ram_disk devs demo_blocks (unmounted dir) no_vfs None).1.2.

Lemma ext2_mount_witness : (ext2_mount ram_disk devs demo_blocks (unmounted the_dir) no_vfs None).1.1 ≠ inl Diverges.
Proof.
  apply ext2_mount_terminates. intros dev. unfold bdev, devs. simpl. destruct (decide (dev = DISK)) as [->|Hne].
  - by rewrite lookup_total_singleton.
  - by rewrite lookup_total_singleton_ne.
Defined.

(** The file [a] is in the root, with its content. *)
Lemma mount_finds_file :
  vfs_find_child (nodes (mounted_vfs the_dir)) 2000 NAME_A = 2001 ∧
  VfsData.content (n_inode (vnode (mounted_vfs the_dir) 2001)) = [10; 20; 30; 40; 50].
Proof. split; vm_compute; reflexivity. Qed.

(** The length of a record is cut to 8 bits before the name is compared with
    it: an entry of 264 bytes, followed by another one, is skipped. *)
Definition long_dir : list Z :=
  dirent 2 12 [DOT] ++ dirent 2 12 [DOT; DOT] ++ dirent 3 264 NAME_A ++ dirent 3 736 [98].
Theorem mount_skips_entry :
  vfs_find_child (nodes (mounted_vfs long_dir)) 2000 NAME_A = 0 ∧
  vfs_find_child (nodes (mounted_vfs long_dir)) 2000 [98] = 2001.
Proof. split; vm_compute; reflexivity. Qed.

(** Names are cut to 31 characters and may then be the same: of two files, one
    can be reached. *)
Definition long_name (c : Z) : list Z := replicate 31 120 ++ [c].
Definition twin_dir : list Z :=
  dirent 2 12 [DOT] ++ dirent 2 12 [DOT; DOT] ++ dirent 3 40 (long_name 97) ++ dirent 3 960 (long_name 98).
Theorem mount_cuts_names :
  n_name (vnode (mounted_vfs twin_dir) 2001) = replicate 31 120 ∧
  n_name (vnode (mounted_vfs twin_dir) 2002) = replicate 31 120 ∧
  vfs_find_child (nodes (mounted_vfs twin_dir)) 2000 (replicate 31 120) = 2002.
Proof. split_and!; vm_compute; reflexivity. Qed.

End Ext2Demo.
