(* ===== verification/Loader.v ===== *)
(** * The program loader (kernel/common/loader.c)

    A program is an ELF file, the list of its bytes.  The functions that build
    the new address space run in a monad over the memory ([Vm.vm_state]) with
    two kinds of failure: an error code, and [None] for a read outside of the
    file or of an argument array.  Entering the program does not return; [loader_execve_ex] then
    ends with the registers of the program.

    A [kmalloc] of a nonzero size returns a block or stops the kernel
    ([HeapProofs.kmalloc_correct]), so a null result of one is left out. *)

From stdpp Require Import base gmap list numbers fin_maps.
From S2P Require Import Prelude Bytes Pmm Paging Vm Task.

Module Loader.
#[local] Existing Instance Vm.vm_eta.

Definition USER_STACK_TOP : Z := 2147483648.
Definition USER_PAGE_SIZE : Z := 4096.
Definition LOADER_ARG_MAX : Z := 16.
Definition LOADER_ENV_MAX : Z := 32.
Definition LOADER_ARG_STR_MAX : Z := 128.
Definition LOADER_ENV_STR_MAX : Z := 128.
Definition LOADER_USER_STACK_PAGES : Z := 4.
Definition LOADER_MAX_SEGMENTS : Z := 16.
Definition ELFOSABI_LINUX : Z := 3.
Definition ELF_MAGIC : Z := 1179403647.
Definition ELFCLASS64 : Z := 2.
Definition ELFDATA2LSB : Z := 1.
Definition ET_EXEC : Z := 2.
Definition EM_X86_64 : Z := 62.
Definition PT_LOAD : Z := 1.
Definition PF_X : Z := 1.
Definition PF_W : Z := 2.
Definition EHDR_SIZE : Z := 64.
Definition PHDR_SIZE : Z := 56.

(** ** ELF *)
Definition get8 (off : Z) (l : list Z) : Z := l !!! Z.to_nat off.
Definition get64 (off : Z) (l : list Z) : Z := le_value (bslice off 8 l).

(** The fields of the two headers that the loader reads, in the order of the
    file. *)
Record elf64_ehdr_t := mk_ehdr {
  e_magic : Z;
  e_class : Z;
  e_data : Z;
  e_osabi : Z;
  e_type : Z;
  e_machine : Z;
  e_entry : Z;
  e_phoff : Z;
  e_phentsize : Z;
  e_phnum : Z
}.

Definition ehdr_of (image : list Z) : elf64_ehdr_t :=
  mk_ehdr (get32 0 image) (get8 4 image) (get8 5 image) (get8 7 image) (get16 16 image) (get16 18 image)
    (get64 24 image) (get64 32 image) (get16 54 image) (get16 56 image).

Record elf64_phdr_t := mk_phdr {
  p_type : Z;
  p_flags : Z;
  p_offset : Z;
  p_vaddr : Z;
  p_filesz : Z;
  p_memsz : Z
}.

(** The bytes of the file from [off] on, if they are inside of it. *)
Definition file_bytes (image : list Z) (off n : Z) : option (list Z) :=
  if u64 off + n <=? Z.of_nat (length image) then Some (bslice (u64 off) n image) else None.

Definition phdr_of (image : list Z) (off : Z) : option elf64_phdr_t :=
  b ← file_bytes image off PHDR_SIZE;
  Some (mk_phdr (get32 0 b) (get32 4 b) (get64 8 b) (get64 16 b) (get64 32 b) (get64 40 b)).

(** ** State *)
Record loader_segment_t := mk_segment {
  sg_start : Z;
  sg_end : Z;
  sg_prot : Z
}.

(** [segs] has [seg_count] elements. *)
Record loader_image_t := mk_image {
  im_pml4 : Z;
  im_entry : Z;
  im_user_stack : Z;
  im_stack_bottom : Z;
  im_stack_phys : list Z;
  im_segs : list loader_segment_t;
  im_brk_base : Z;
  im_abi : Z
}.
#[export] Instance image_eta : EtaRecord loader_image_t :=
  λ i, mk_image (im_pml4 i) (im_entry i) (im_user_stack i) (im_stack_bottom i) (im_stack_phys i) (im_segs i)
         (im_brk_base i) (im_abi i).

Definition K (A : Type) : Type := Vm.vm_state → (option Z + A) * Vm.vm_state.

#[export] Instance K_ret : MRet K := λ A a v, (inr a, v).
#[export] Instance K_bind : MBind K := λ A B k m v,
  match m v with
  | (inl e, v) => (inl e, v)
  | (inr a, v) => k a v
  end.
Definition fail {A} (rc : Z) : K A := λ v, (inl (Some rc), v).
Definition outside {A} : K A := λ v, (inl None, v).
Definition from_file {A} (o : option A) : K A := match o with Some a => mret a | None => outside end.

(** ** Calls of the memory management *)
Definition alloc_page : K Z := λ v,
  let '(phys, p) := Pmm.pmm_alloc_page_in_zone (Paging.pg_pmm (Vm.paging v)) Pmm.PMM_ZONE_NORMAL in
  (inr phys, Vm.with_pmm (λ _, p) v).
Definition free_page (phys : Z) : K unit := λ v, (inr tt, Vm.with_pmm (λ p, Pmm.pmm_free_page p phys) v).
Definition map_page (pml4 va phys flags : Z) : K Z := λ v,
  let '(rc, p) := Paging.paging_map_page_4kb_pml4 (Vm.paging v) pml4 va phys flags in
  (inr rc, v <| Vm.paging := p |>).
Definition unmap_page (pml4 va : Z) : K unit := λ v,
  (inr tt, v <| Vm.paging := (Paging.paging_unmap_page_pml4 (Vm.paging v) pml4 va).2 |>).
Definition create_pml4 : K Z := λ v,
  let '(pml4, p) := Paging.paging_create_user_pml4 (Vm.paging v) in
  (inr pml4, v <| Vm.paging := p |>).
(** [memset (dst, 0, USER_PAGE_SIZE);], with [bytes] stored at [off] then. *)
Definition fill_page (phys off : Z) (bytes : list Z) : K unit := λ v,
  (inr tt, Vm.set_frame phys (bput off bytes zero_page) v).
Definition write_page (phys off : Z) (bytes : list Z) : K unit := λ v,
  (inr tt, Vm.set_frame phys (bput off bytes (Vm.frame v phys)) v).

(** ** Segments *)
Definition segment_flags (ph : elf64_phdr_t) : Z :=
  let flags := Z.lor Paging.PTE_PRESENT Paging.PTE_USER in
  let flags := if has_flag (p_flags ph) PF_W then Z.lor flags Paging.PTE_RW else flags in
  if negb (has_flag (p_flags ph) PF_X) then Z.lor flags Paging.PTE_NX else flags.

(** Where in the page at [va] bytes of the file go, and which. *)
Definition page_part (image : list Z) (ph : elf64_phdr_t) (va : Z) : option (Z * list Z) :=
  if va <? p_vaddr ph then
    let skip := p_vaddr ph - va in
    let avail := USER_PAGE_SIZE - skip in
    let copy := if p_filesz ph <? avail then p_filesz ph else avail in
    if 0 <? copy then b ← file_bytes image (p_offset ph) copy; Some (skip, b) else Some (0, [])
  else
    let seg_off := va - p_vaddr ph in
    if seg_off <? p_filesz ph then
      let copy := Z.min (p_filesz ph - seg_off) USER_PAGE_SIZE in
      b ← file_bytes image (p_offset ph + seg_off) copy; Some (0, b)
    else Some (0, []).

Definition load_page (pml4 : Z) (image : list Z) (ph : elf64_phdr_t) (va : Z) : K unit :=
  phys ← alloc_page;
  if phys =? 0 then fail RDNX_E_NOMEM
  else
    rc ← map_page pml4 va phys (segment_flags ph);
    if negb (rc =? RDNX_OK) then fail RDNX_E_GENERIC
    else
      part ← from_file (page_part image ph va);
      fill_page phys part.1 part.2.

Fixpoint load_pages (n : nat) (pml4 : Z) (image : list Z) (ph : elf64_phdr_t) (va : Z) : K unit :=
  match n with
  | O => mret tt
  | S n => load_page pml4 image ph va ;; load_pages n pml4 image ph (va + USER_PAGE_SIZE)
  end.

Definition segment_prot (ph : elf64_phdr_t) : Z :=
  Z.lor (Z.lor Vm.VM_PROT_READ (if has_flag (p_flags ph) PF_W then Vm.VM_PROT_WRITE else 0))
    (if has_flag (p_flags ph) PF_X then Vm.VM_PROT_EXEC else 0).

(** The loop [for (va = page_start; va < page_end; va += USER_PAGE_SIZE)] has
    this many rounds; [va] does not wrap, as it stays below [page_end]. *)
Definition segment_pages (page_start page_end : Z) : nat := Z.to_nat ((page_end - page_start) / USER_PAGE_SIZE).

Definition loader_map_segment (pml4 : Z) (image : list Z) (ph : elf64_phdr_t) (img : loader_image_t) : K loader_image_t :=
  if p_memsz ph =? 0 then mret img
  else if Z.of_nat (length image) <? p_offset ph +₆₄ p_filesz ph then fail RDNX_E_INVALID
  else
    let page_start := align_down (p_vaddr ph) in
    let page_end := align_up (p_vaddr ph +₆₄ p_memsz ph) in
    load_pages (segment_pages page_start page_end) pml4 image ph page_start ;;
    mret (if Z.of_nat (length (im_segs img)) <? LOADER_MAX_SEGMENTS
          then img <| im_segs ::= λ l, l ++ [mk_segment page_start page_end (segment_prot ph)] |> else img).

(** ** The stack *)

(** The pages that are mapped already are given back. *)
Definition rollback (pml4 bottom : Z) (done : list Z) : K unit := λ v,
  (inr tt, foldl (λ v '(j, phys), ((unmap_page pml4 (bottom + Z.of_nat j * USER_PAGE_SIZE) ;; free_page phys) v).2)
             v (imap pair done)).

(** Pages [length done] to 3; [done] are the frames so far. *)
Fixpoint map_stack_loop (n : nat) (pml4 bottom : Z) (done : list Z) : K (list Z) :=
  match n with
  | O => mret done
  | S n =>
      phys ← alloc_page;
      if phys =? 0 then rollback pml4 bottom done ;; fail RDNX_E_NOMEM
      else
        rc ← map_page pml4 (bottom + Z.of_nat (length done) * USER_PAGE_SIZE) phys
               (Z.lor (Z.lor Paging.PTE_PRESENT Paging.PTE_USER) Paging.PTE_RW);
        if negb (rc =? RDNX_OK) then free_page phys ;; rollback pml4 bottom done ;; fail RDNX_E_GENERIC
        else
          fill_page phys 0 [] ;;
          map_stack_loop n pml4 bottom (done ++ [phys])
  end.

Definition STACK_BOTTOM : Z := USER_STACK_TOP - LOADER_USER_STACK_PAGES * USER_PAGE_SIZE.

Definition loader_map_stack (pml4 : Z) (img : loader_image_t) : K loader_image_t :=
  pages ← map_stack_loop (Z.to_nat LOADER_USER_STACK_PAGES) pml4 STACK_BOTTOM [];
  mret (img <| im_stack_bottom := STACK_BOTTOM |> <| im_stack_phys := pages |>
            <| im_user_stack := USER_STACK_TOP - 16 |>).

(** Every round writes at least one byte. *)
Fixpoint stack_write_loop (fuel : nat) (img : loader_image_t) (cur : Z) (src : list Z) : K unit :=
  match fuel with
  | O => mret tt
  | S fuel =>
      if bool_decide (src = []) then mret tt
      else
        let page_off := cur -₆₄ im_stack_bottom img in
        let page_idx := u32 (page_off / USER_PAGE_SIZE) in
        let in_page := page_off mod USER_PAGE_SIZE in
        if LOADER_USER_STACK_PAGES <=? page_idx then fail RDNX_E_INVALID
        else
          let chunk := Z.min (USER_PAGE_SIZE - in_page) (Z.of_nat (length src)) in
          write_page (im_stack_phys img !!! Z.to_nat page_idx) in_page (take (Z.to_nat chunk) src) ;;
          stack_write_loop fuel img (cur +₆₄ chunk) (drop (Z.to_nat chunk) src)
  end.

Definition loader_stack_write (img : loader_image_t) (user_va : Z) (src : list Z) : K unit :=
  if bool_decide (src = []) then fail RDNX_E_INVALID
  else if (user_va <? im_stack_bottom img) || (USER_STACK_TOP <? user_va +₆₄ Z.of_nat (length src))
  then fail RDNX_E_INVALID
  else stack_write_loop (length src) img user_va src.

(** ** Arguments *)

(** A string is the list of its bytes before the terminating 0.  [slen + 1]
    bytes of it are copied, where the length is counted up to [max - 1]. *)
Definition str_bytes (max : Z) (str : list Z) : list Z :=
  let slen := Nat.min (length str) (Z.to_nat (max - 1)) in
  take (slen + 1) (str ++ [0]).

(** The strings are pushed from the last to the first; the stack pointer and
    where they are. *)
Fixpoint push_strings (img : loader_image_t) (max : Z) (l : list (list Z)) (sp : Z) : K (Z * list Z) :=
  match l with
  | [] => mret (sp, [])
  | str :: l =>
      r ← push_strings img max l sp;
      let sp := r.1 -₆₄ Z.of_nat (length (str_bytes max str)) in
      if sp <? im_stack_bottom img then fail RDNX_E_NOMEM
      else
        loader_stack_write img sp (str_bytes max str) ;;
        mret (sp, sp :: r.2)
  end.

Fixpoint write_words (img : loader_image_t) (va : Z) (l : list Z) : K unit :=
  match l with
  | [] => mret tt
  | w :: l => loader_stack_write img va (le_bytes 8 w) ;; write_words img (va +₆₄ 8) l
  end.

Definition is_linux (img : loader_image_t) : bool := im_abi img =? Task.TASK_ABI_LINUX.

(** The pointers below the strings: those of the environment with its end, and
    the end of the auxiliary vector for the guest, then those of the arguments. *)
Definition push_pointers (img : loader_image_t) (sp : Z) (ptrs : list Z) (ends : nat) : K Z :=
  let sp := Z.land sp (not64 7) -₆₄ (Z.of_nat (length ptrs + ends)) * 8 in
  if sp <? im_stack_bottom img then fail RDNX_E_NOMEM
  else
    write_words img sp (ptrs ++ replicate ends 0) ;;
    mret sp.

(** [argv] is [None] for NULL, or the pointers of the array; a null pointer in
    it stands for the empty string.  [None] when [argc] is more than the array
    has elements. *)
Definition arg_strings (argc : Z) (argv : option (list (option (list Z)))) : option (list (list Z)) :=
  match argv with
  | None => Some (replicate (Z.to_nat argc) [])
  | Some l => if argc <=? Z.of_nat (length l) then Some (default [] <$> take (Z.to_nat argc) l) else None
  end.

(** The number of arguments, which the guest finds on the stack, and the stack
    pointer. *)
Definition finish_args (img : loader_image_t) (argc sp envp_ptr : Z) : K (loader_image_t * Z * Z) :=
  if is_linux img then
    let sp := Z.land sp (not64 7) in
    if sp <? im_stack_bottom img +₆₄ 8 then fail RDNX_E_NOMEM
    else
      let sp := sp -₆₄ 8 in
      loader_stack_write img sp (le_bytes 8 argc) ;;
      mret (img <| im_user_stack := sp |>, sp +₆₄ 8, envp_ptr)
  else mret (img <| im_user_stack := Z.land sp (not64 15) |>, sp, envp_ptr).

(** The image with the new stack pointer, [argv] and [envp].  The parameter
    [envp] has the strings before the null pointer; NULL is the empty list. *)
Definition loader_prepare_user_args (img : loader_image_t) (argc : Z) (argv : option (list (option (list Z))))
    (envp : list (list Z)) : K (loader_image_t * Z * Z) :=
  let env := take (Z.to_nat LOADER_ENV_MAX) envp in
  let argc := Z.max 0 (Z.min argc LOADER_ARG_MAX) in
  e ← push_strings img LOADER_ENV_STR_MAX env (im_user_stack img);
  args ← from_file (arg_strings argc argv);
  a ← push_strings img LOADER_ARG_STR_MAX args e.1;
  envp_ptr ← push_pointers img a.1 e.2 (if is_linux img then 3 else 1)%nat;
  sp ← push_pointers img envp_ptr a.2 1%nat;
  finish_args img argc sp envp_ptr.

(** ** Loading *)
Definition valid_header (eh : elf64_ehdr_t) : bool :=
  (e_magic eh =? ELF_MAGIC) && (e_class eh =? ELFCLASS64) && (e_data eh =? ELFDATA2LSB)
  && (e_type eh =? ET_EXEC) && (e_machine eh =? EM_X86_64).

(** One program header. *)
Definition load_phdr (pml4 : Z) (image : list Z) (img : loader_image_t) (off : Z) : K loader_image_t :=
  ty ← from_file (file_bytes image off 4);
  if negb (le_value ty =? PT_LOAD) then mret img
  else
  ph ← from_file (phdr_of image off);
  if Vm.ARCH_KERNEL_VIRT_BASE <=? p_vaddr ph then fail RDNX_E_INVALID
  else
    img ← loader_map_segment pml4 image ph img;
    let seg_end := align_up (p_vaddr ph +₆₄ p_memsz ph) in
    mret (if im_brk_base img <? seg_end then img <| im_brk_base := seg_end |> else img).

Fixpoint load_phdrs (n : nat) (pml4 : Z) (image : list Z) (img : loader_image_t) (off : Z) : K loader_image_t :=
  match n with
  | O => mret img
  | S n => img ← load_phdr pml4 image img off; load_phdrs n pml4 image img (off + PHDR_SIZE)
  end.

Definition no_image : loader_image_t := mk_image 0 0 0 0 [] [] 0 0.

Definition loader_load_elf (image : list Z) : K loader_image_t :=
  let size := Z.of_nat (length image) in
  let eh := ehdr_of image in
  if size <? EHDR_SIZE then fail RDNX_E_INVALID
  else if negb (valid_header eh) then fail RDNX_E_INVALID
  else if size <? e_phoff eh +₆₄ e_phnum eh * e_phentsize eh then fail RDNX_E_INVALID
  else
    pml4 ← create_pml4;
    if pml4 =? 0 then fail RDNX_E_NOMEM
    else
      img ← load_phdrs (Z.to_nat (e_phnum eh)) pml4 image no_image (e_phoff eh);
      loader_map_stack pml4
        (img <| im_pml4 := pml4 |> <| im_entry := e_entry eh |>
             <| im_abi := if e_osabi eh =? ELFOSABI_LINUX then Task.TASK_ABI_LINUX else Task.TASK_ABI_NATIVE |>).

End Loader.
