(* ===== verification/LoaderProofs.v ===== *)
(** * The stack of a new program

    The four pages of the stack are read as one memory, [stack_mem].
    [loader_stack_write] stores its bytes there and nothing else, also across
    the limit of two pages; [loader_prepare_user_args] always finds room for
    the strings and builds the two arrays of pointers that a program reads. *)

From stdpp Require Import base gmap list numbers fin_maps.
From S2P Require Import Prelude Bytes Pmm Paging Vm Task Loader.

Module LoaderProofs.
Import Loader.

#[local] Existing Instance Vm.vm_eta.
#[local] Existing Instance Paging.paging_eta.
#[local] Existing Instance Pmm.pmm_eta.

(** ** The stack as one memory *)
Definition page_of (img : loader_image_t) (a : Z) : Z :=
  im_stack_phys img !!! Z.to_nat ((a - STACK_BOTTOM) / USER_PAGE_SIZE).

Definition stack_mem (img : loader_image_t) (v : Vm.vm_state) (a : Z) : Z :=
  Vm.frame v (page_of img a) !!! Z.to_nat ((a - STACK_BOTTOM) mod USER_PAGE_SIZE).

Definition stack_word (img : loader_image_t) (v : Vm.vm_state) (a : Z) : Z := le_value (area (stack_mem img v) a 8).

(** What [loader_map_stack] leaves. *)
Record stack_ok (img : loader_image_t) (v : Vm.vm_state) : Prop := {
  so_bottom : im_stack_bottom img = STACK_BOTTOM;
  so_pages : length (im_stack_phys img) = 4%nat;
  so_distinct : NoDup (im_stack_phys img);
  so_frames : Forall (λ p, length (Vm.frame v p) = 4096%nat) (im_stack_phys img)
}.

Definition mem_of (v : Vm.vm_state) : gmap Z (list Z) := Pmm.mem (Paging.pg_pmm (Vm.paging v)).

(** [v'] differs from [v] in frames of the stack only. *)
Definition only_stack (img : loader_image_t) (v v' : Vm.vm_state) : Prop :=
  (∃ m, v' = Vm.with_pmm (λ p, p <| Pmm.mem := m |>) v)
  ∧ ∀ p, p ∉ im_stack_phys img → mem_of v' !! p = mem_of v !! p.

(** The writes between [v] and [v'] are inside of [[lo, hi)]. *)
Definition wrote (img : loader_image_t) (v v' : Vm.vm_state) (lo hi : Z) : Prop :=
  only_stack img v v' ∧ stack_ok img v'
  ∧ ∀ a, STACK_BOTTOM ≤ a < USER_STACK_TOP → ¬ (lo ≤ a < hi) → stack_mem img v' a = stack_mem img v a.

(** A null-terminated array of pointers to strings. *)
Definition strings_at (img : loader_image_t) (v : Vm.vm_state) (a max : Z) (l : list (list Z)) : Prop :=
  (∀ i s, l !! i = Some s →
     let p := stack_word img v (a + 8 * Z.of_nat i) in
     area (stack_mem img v) p (Z.of_nat (length (str_bytes max s))) = str_bytes max s)
  ∧ stack_word img v (a + 8 * Z.of_nat (length l)) = 0.

Lemma top_bottom : USER_STACK_TOP = STACK_BOTTOM + 16384 ∧ STACK_BOTTOM = 2147467264.
Proof. done. Qed.

Ltac stack_lia := pose proof top_bottom; unfold USER_PAGE_SIZE, LOADER_USER_STACK_PAGES in *; lia.

(** ** Single writes *)
Lemma frame_set p c v q : Vm.frame (Vm.set_frame p c v) q = if decide (p = q) then c else Vm.frame v q.
Proof.
  unfold Vm.frame, Vm.set_frame, Vm.with_pmm. cbn. destruct (decide (p = q)) as [->|Hn].
  - by rewrite lookup_insert_eq.
  - by rewrite lookup_insert_ne.
Qed.

Lemma only_stack_refl img v : only_stack img v v.
Proof. split; [|done]. exists (mem_of v). by destruct v as [[[]]]. Qed.

Lemma only_stack_trans img v1 v2 v3 : only_stack img v1 v2 → only_stack img v2 v3 → only_stack img v1 v3.
Proof.
  intros [[m1 ->] H1] [[m2 ->] H2]. split; [by exists m2|]. intros p Hp. by rewrite H2, H1.
Qed.

Lemma wrote_refl img v lo hi : stack_ok img v → wrote img v v lo hi.
Proof. intros Hs. split_and!; [apply only_stack_refl|done..]. Qed.

Lemma wrote_trans img v1 v2 v3 lo hi lo' hi' lo'' hi'' :
  wrote img v1 v2 lo hi → wrote img v2 v3 lo' hi' → lo'' ≤ lo → lo'' ≤ lo' → hi ≤ hi'' → hi' ≤ hi'' →
  wrote img v1 v3 lo'' hi''.
Proof.
  intros (O1 & S1 & M1) (O2 & S2 & M2) ????. split_and!; [by eapply only_stack_trans|done|].
  intros a Ha Hn. rewrite M2, M1 by (done || lia). done.
Qed.

Lemma wrote_area img v v' lo hi a n :
  wrote img v v' lo hi → STACK_BOTTOM ≤ a → a + n ≤ USER_STACK_TOP → a + n ≤ lo ∨ hi ≤ a →
  area (stack_mem img v') a n = area (stack_mem img v) a n.
Proof. intros (_ & _ & M) H1 H2 H3. apply area_ext. intros k Hk. apply M; lia. Qed.

Lemma page_of_lookup img v a :
  stack_ok img v → STACK_BOTTOM ≤ a < USER_STACK_TOP →
  im_stack_phys img !! Z.to_nat ((a - STACK_BOTTOM) / USER_PAGE_SIZE) = Some (page_of img a)
  ∧ 0 ≤ (a - STACK_BOTTOM) / USER_PAGE_SIZE < 4.
Proof.
  intros [_ Hl _ _] Ha.
  assert (0 ≤ (a - STACK_BOTTOM) / USER_PAGE_SIZE < 4) as Hr.
  { unfold USER_PAGE_SIZE. pose proof top_bottom. split; [apply Z.div_pos; lia|apply Z.div_lt_upper_bound; lia]. }
  split; [|done]. apply list_lookup_lookup_total_lt. lia.
Qed.

Lemma page_of_frame img v a :
  stack_ok img v → STACK_BOTTOM ≤ a < USER_STACK_TOP →
  page_of img a ∈ im_stack_phys img ∧ length (Vm.frame v (page_of img a)) = 4096%nat.
Proof.
  intros Hs Ha. destruct (page_of_lookup img v a Hs Ha) as [Hl _].
  pose proof (list_elem_of_lookup_2 _ _ _ Hl) as Hin. split; [done|].
  by apply (proj1 (Forall_forall _ _) (so_frames _ _ Hs)).
Qed.

(** Two addresses are in one frame only if they are in one page. *)
Lemma page_of_inj img v a b :
  stack_ok img v → STACK_BOTTOM ≤ a < USER_STACK_TOP → STACK_BOTTOM ≤ b < USER_STACK_TOP →
  page_of img a = page_of img b → (a - STACK_BOTTOM) / USER_PAGE_SIZE = (b - STACK_BOTTOM) / USER_PAGE_SIZE.
Proof.
  intros Hs Ha Hb E. destruct (page_of_lookup img v a Hs Ha) as [La Ra].
  destruct (page_of_lookup img v b Hs Hb) as [Lb Rb]. rewrite E in La.
  pose proof (NoDup_lookup _ _ _ _ (so_distinct _ _ Hs) La Lb). lia.
Qed.

Lemma write_in_page img v cur src :
  stack_ok img v → STACK_BOTTOM ≤ cur < USER_STACK_TOP →
  (cur - STACK_BOTTOM) mod USER_PAGE_SIZE + Z.of_nat (length src) ≤ USER_PAGE_SIZE →
  let p := page_of img cur in
  let v' := Vm.set_frame p (bput ((cur - STACK_BOTTOM) mod USER_PAGE_SIZE) src (Vm.frame v p)) v in
  only_stack img v v' ∧ stack_ok img v'
  ∧ ∀ a, STACK_BOTTOM ≤ a < USER_STACK_TOP → stack_mem img v' a = store_at cur src (stack_mem img v) a.
Proof.
  intros Hs Hc Hl p v'. destruct (page_of_frame img v cur Hs Hc) as [Hin Hfl]. fold p in Hin, Hfl.
  assert (0 ≤ (cur - STACK_BOTTOM) mod USER_PAGE_SIZE < 4096) as Hm by (apply Z.mod_pos_bound; done).
  split_and!.
  - split; [by eexists|]. intros q Hq. unfold mem_of, v', Vm.set_frame, Vm.with_pmm. cbn.
    apply lookup_insert_ne. by intros ->.
  - destruct Hs as [? ? ? Hf]. split; try done. eapply Forall_impl; [exact Hf|]. intros q Hq. cbn beta.
    unfold v'. rewrite frame_set. case_decide; [by rewrite length_bput|done].
  - intros a Ha. unfold stack_mem at 1, v'. rewrite frame_set. case_decide as Hp.
    + pose proof (page_of_inj img v cur a Hs Hc Ha Hp) as Hq.
      pose proof (Z.div_mod (cur - STACK_BOTTOM) USER_PAGE_SIZE ltac:(done)) as D1.
      pose proof (Z.div_mod (a - STACK_BOTTOM) USER_PAGE_SIZE ltac:(done)) as D2.
      assert (0 ≤ (a - STACK_BOTTOM) mod USER_PAGE_SIZE < 4096) as Hm2 by (apply Z.mod_pos_bound; done).
      unfold store_at, bput. case_decide as Hd.
      * apply list_lookup_total_correct. rewrite list_lookup_inserts by stack_lia.
        rewrite list_lookup_lookup_total_lt by stack_lia. do 2 f_equal. stack_lia.
      * unfold stack_mem. rewrite <- Hp. fold p. rewrite !list_lookup_total_alt. f_equal.
        destruct (decide ((a - STACK_BOTTOM) mod USER_PAGE_SIZE < (cur - STACK_BOTTOM) mod USER_PAGE_SIZE));
          [apply list_lookup_inserts_lt|apply list_lookup_inserts_ge]; stack_lia.
    + rewrite store_at_out; [done|]. intros Hd. apply Hp. unfold p, page_of. do 2 f_equal.
      apply (Z.div_unique _ _ _ ((cur - STACK_BOTTOM) mod USER_PAGE_SIZE + (a - cur)));
        pose proof (Z.div_mod (cur - STACK_BOTTOM) USER_PAGE_SIZE ltac:(done)); stack_lia.
Qed.

Lemma stack_write_loop_result img fuel : ∀ cur src v,
  stack_ok img v → (length src ≤ fuel)%nat → STACK_BOTTOM ≤ cur → cur + Z.of_nat (length src) ≤ USER_STACK_TOP →
  ∃ v', stack_write_loop fuel img cur src v = (inr tt, v')
    ∧ only_stack img v v' ∧ stack_ok img v'
    ∧ ∀ a, STACK_BOTTOM ≤ a < USER_STACK_TOP → stack_mem img v' a = store_at cur src (stack_mem img v) a.
Proof.
  induction fuel as [|fuel IH]; intros cur src v Hs Hf Hc Ht.
  { destruct src; [|simpl in Hf; lia]. exists v. split_and!; try done; [apply only_stack_refl|].
    intros. by rewrite store_at_out by (simpl; lia). }
  cbn [stack_write_loop]. case_bool_decide as Hn.
  { subst src. exists v. split_and!; try done; [apply only_stack_refl|].
    intros. by rewrite store_at_out by (simpl; lia). }
  assert (0 < length src)%nat as Hpos by (destruct src; [done|simpl; lia]).
  rewrite (so_bottom _ _ Hs). destruct (page_of_lookup img v cur Hs ltac:(lia)) as [_ Hr].
  assert (0 ≤ (cur - STACK_BOTTOM) mod USER_PAGE_SIZE < 4096) as Hm by (apply Z.mod_pos_bound; done).
  rewrite (u64_small (cur - STACK_BOTTOM)) by stack_lia. rewrite u32_small by lia.
  rewrite (proj2 (Z.leb_gt _ _)) by stack_lia.
  set (chunk := Z.min _ _). set (n := Z.to_nat chunk).
  assert (0 < chunk ≤ Z.of_nat (length src) ∧ (cur - STACK_BOTTOM) mod USER_PAGE_SIZE + chunk ≤ 4096) as Hch
    by (unfold chunk; stack_lia).
  destruct (write_in_page img v cur (take n src) Hs ltac:(lia)) as (O1 & S1 & M1).
  { rewrite length_take. stack_lia. }
  unfold mbind, K_bind at 1, write_page at 1. fold (page_of img cur).
  rewrite u64_small by stack_lia.
  edestruct (IH (cur + chunk) (drop n src)) as (v' & -> & O2 & S2 & M2);
    [exact S1|rewrite length_drop; lia|lia|rewrite length_drop; lia|].
  exists v'. split_and!; [done|by eapply only_stack_trans|done|].
  intros a Ha. rewrite M2 by done. pose proof (store_at_app_at cur (take n src) (drop n src) (stack_mem img v) a) as E.
  rewrite take_drop, length_take in E. rewrite <- E. replace (Z.of_nat (n `min` length src)) with chunk by lia.
  unfold store_at at 1 2. case_decide; [done|]. by apply M1.
Qed.

Lemma stack_write_result img va src v :
  stack_ok img v → src ≠ [] → STACK_BOTTOM ≤ va → va + Z.of_nat (length src) ≤ USER_STACK_TOP →
  ∃ v', loader_stack_write img va src v = (inr tt, v')
    ∧ wrote img v v' va (va + Z.of_nat (length src))
    ∧ area (stack_mem img v') va (Z.of_nat (length src)) = src.
Proof.
  intros Hs Hn Hv Ht. unfold loader_stack_write. rewrite bool_decide_eq_false_2 by done.
  rewrite (so_bottom _ _ Hs), u64_small by stack_lia.
  rewrite (proj2 (Z.ltb_ge va _)), (proj2 (Z.ltb_ge USER_STACK_TOP _)) by lia. cbn [orb].
  destruct (stack_write_loop_result img (length src) va src v) as (v' & -> & O & S & M); try done.
  exists v'. split_and!; [done|split_and!; [done..|]|].
  - intros a Ha Ho. rewrite M by done. by apply store_at_out.
  - rewrite <- (area_store_same va src (stack_mem img v)) at 2. apply area_ext. intros k Hk. apply M. lia.
Qed.

(** ** Words and strings *)
Lemma write_words_result img l : ∀ va v,
  stack_ok img v → STACK_BOTTOM ≤ va → va + 8 * Z.of_nat (length l) ≤ USER_STACK_TOP → Forall (λ w, in_u64 w) l →
  ∃ v', write_words img va l v = (inr tt, v')
    ∧ wrote img v v' va (va + 8 * Z.of_nat (length l))
    ∧ ∀ i w, l !! i = Some w → stack_word img v' (va + 8 * Z.of_nat i) = w.
Proof.
  induction l as [|w l IH]; intros va v Hs Hv Ht Hl.
  { exists v. split_and!; [done|by apply wrote_refl|done]. }
  apply Forall_cons in Hl as [Hw Hl]. cbn [length] in *. cbn [write_words].
  destruct (stack_write_result img va (le_bytes 8 w) v) as (v1 & E1 & W1 & A1);
    [done|done|done|rewrite length_le_bytes; lia|].
  rewrite length_le_bytes in W1, A1. unfold mbind, K_bind at 1. rewrite E1. rewrite u64_small by stack_lia.
  destruct (IH (va + 8) v1) as (v2 & -> & W2 & A2); [apply W1|lia|lia|done|].
  exists v2. split_and!; [done|eapply wrote_trans; [exact W1|exact W2|lia..]|].
  intros [|i] x Hx.
  - injection Hx as <-. unfold stack_word. rewrite (wrote_area _ _ _ _ _ _ _ W2) by lia.
    rewrite Z.mul_0_r, Z.add_0_r. change 8 with (Z.of_nat 8). rewrite A1. apply le_value_bytes. apply Hw.
  - rewrite <- (A2 i x Hx). f_equal. lia.
Qed.

Definition total (max : Z) (l : list (list Z)) : Z := foldr (λ s n, Z.of_nat (length (str_bytes max s)) + n) 0 l.

Lemma str_bytes_length max s : 1 ≤ max → 1 ≤ Z.of_nat (length (str_bytes max s)) ≤ max.
Proof. intros. unfold str_bytes. rewrite length_take, length_app. simpl. lia. Qed.

Lemma total_bound max l : 1 ≤ max → 0 ≤ total max l ≤ max * Z.of_nat (length l).
Proof.
  intros Hm. induction l as [|s l IH]; simpl; [lia|]. pose proof (str_bytes_length max s Hm). lia.
Qed.

(** The strings [l] are at [ptrs], inside of [[lo, hi)]. *)
Definition placed (img : loader_image_t) (v : Vm.vm_state) (max lo hi : Z) (ptrs : list Z) (l : list (list Z)) : Prop :=
  Forall2 (λ p s, lo ≤ p ∧ p + Z.of_nat (length (str_bytes max s)) ≤ hi
             ∧ area (stack_mem img v) p (Z.of_nat (length (str_bytes max s))) = str_bytes max s) ptrs l.

Lemma placed_kept img v v' max lo hi ptrs l lo' hi' lo2 :
  placed img v max lo hi ptrs l → wrote img v v' lo' hi' → STACK_BOTTOM ≤ lo → hi ≤ USER_STACK_TOP → hi' ≤ lo → lo2 ≤ lo →
  placed img v' max lo2 hi ptrs l.
Proof.
  intros Hp W ????. eapply Forall2_impl; [exact Hp|]. intros p s (Hlo & Hhi & A). split_and!; [lia..|].
  rewrite <- A at 2. eapply wrote_area; [exact W|lia..].
Qed.

Lemma push_strings_result img max l sp v :
  stack_ok img v → 1 ≤ max → STACK_BOTTOM ≤ sp - total max l → sp ≤ USER_STACK_TOP →
  ∃ ptrs v', push_strings img max l sp v = (inr (sp - total max l, ptrs), v')
    ∧ wrote img v v' (sp - total max l) sp
    ∧ placed img v' max (sp - total max l) sp ptrs l.
Proof.
  intros Hs Hm. induction l as [|s l IH]; cbn [push_strings]; intros Hb Ht.
  { exists [], v. unfold total in *. cbn [foldr] in *. rewrite Z.sub_0_r. split_and!; [done|by apply wrote_refl|constructor]. }
  change (total max (s :: l)) with (Z.of_nat (length (str_bytes max s)) + total max l) in *.
  pose proof (str_bytes_length max s Hm). pose proof (total_bound max l Hm).
  destruct IH as (ptrs & v1 & E1 & W1 & P1); [lia|done|]. unfold mbind, K_bind at 1. rewrite E1. cbn [fst snd].
  rewrite u64_small by stack_lia. rewrite (so_bottom _ _ Hs), (proj2 (Z.ltb_ge _ _)) by lia.
  destruct (stack_write_result img (sp - total max l - Z.of_nat (length (str_bytes max s))) (str_bytes max s) v1)
    as (v2 & E2 & W2 & A2); [apply W1|intros Hn; rewrite Hn in *; simpl in *; lia|lia|lia|].
  unfold K_bind at 1. rewrite E2.
  replace (sp - (Z.of_nat (length (str_bytes max s)) + total max l))
    with (sp - total max l - Z.of_nat (length (str_bytes max s))) by lia.
  eexists _, v2. split_and!; [done|eapply wrote_trans; [exact W1|exact W2|lia..]|].
  constructor; [split_and!; [lia|lia|done]|]. eapply placed_kept; [exact P1|exact W2|lia..].
Qed.

(** ** Arrays of pointers *)
Lemma land_not8 v : in_u64 v → Z.land v (not64 7) = v - v mod 8.
Proof.
  intros Hv. unfold not64. rewrite land_u64_r by done. apply (land_not_ones v 3). lia.
Qed.

Lemma land_not16 v : in_u64 v → Z.land v (not64 15) = v - v mod 16.
Proof.
  intros Hv. unfold not64. rewrite land_u64_r by done. apply (land_not_ones v 4). lia.
Qed.

(** Where an array of [n] words below [sp] starts. *)
Definition array_at (sp : Z) (n : nat) : Z := sp - sp mod 8 - 8 * Z.of_nat n.

Lemma push_pointers_result img sp ptrs ends v :
  stack_ok img v → STACK_BOTTOM ≤ array_at sp (length ptrs + ends) → sp ≤ USER_STACK_TOP → Forall (λ w, in_u64 w) ptrs →
  ∃ v', push_pointers img sp ptrs ends v = (inr (array_at sp (length ptrs + ends)), v')
    ∧ wrote img v v' (array_at sp (length ptrs + ends)) sp
    ∧ ∀ i w, (ptrs ++ replicate ends 0) !! i = Some w →
        stack_word img v' (array_at sp (length ptrs + ends) + 8 * Z.of_nat i) = w.
Proof.
  intros Hs Hb Ht Hp. unfold push_pointers. pose proof (Z.mod_pos_bound sp 8 ltac:(lia)).
  set (n := (length ptrs + ends)%nat) in *. unfold array_at in *.
  rewrite land_not8 by stack_lia. rewrite Z.mul_comm, u64_small by stack_lia.
  rewrite (so_bottom _ _ Hs), (proj2 (Z.ltb_ge _ _)) by lia.
  assert (length (ptrs ++ replicate ends 0) = n) as Hn by (rewrite length_app, length_replicate; done).
  destruct (write_words_result img (ptrs ++ replicate ends 0) (sp - sp mod 8 - 8 * Z.of_nat n) v)
    as (v' & E & W & A); [done|done|rewrite Hn; lia| |].
  { apply Forall_app. split; [done|]. apply Forall_replicate. lia. }
  unfold mbind, K_bind at 1. rewrite E. exists v'. split_and!; [done| |done].
  destruct W as (O & S & M). rewrite Hn in M. split_and!; [done..|]. intros a Ha Ho. apply M; [done|lia].
Qed.

Lemma placed_u64 img v max lo hi ptrs l :
  placed img v max lo hi ptrs l → STACK_BOTTOM ≤ lo → hi ≤ USER_STACK_TOP → Forall (λ w, in_u64 w) ptrs.
Proof.
  intros Hp ??. induction Hp as [|p s ps l (? & ? & _) _ IH]; constructor; [|done]. stack_lia.
Qed.

Lemma word_kept img v v' lo hi a :
  wrote img v v' lo hi → STACK_BOTTOM ≤ a → a + 8 ≤ USER_STACK_TOP → hi ≤ a → stack_word img v' a = stack_word img v a.
Proof. intros W ???. unfold stack_word. by rewrite (wrote_area _ _ _ _ _ _ _ W) by lia. Qed.

(** An array at [a] of pointers to the strings [l], which are above [lo], and
    [ends] zeros behind it. *)
Definition laid (img : loader_image_t) (v : Vm.vm_state) (a max lo hi : Z) (l : list (list Z)) (ends : nat) : Prop :=
  ∃ ptrs, placed img v max lo hi ptrs l
    ∧ ∀ i w, (ptrs ++ replicate ends 0) !! i = Some w → stack_word img v (a + 8 * Z.of_nat i) = w.

Lemma laid_strings img v a max lo hi l ends : laid img v a max lo hi l (S ends) → strings_at img v a max l.
Proof.
  intros (ptrs & Hp & Hw). pose proof (Forall2_length _ _ _ Hp) as Hl. split.
  - intros i s Hs. destruct (Forall2_lookup_r _ _ _ _ _ Hp Hs) as (p & Hi & _ & _ & A).
    cbn zeta. rewrite (Hw i p); [done|]. by apply lookup_app_l_Some.
  - rewrite <- Hl. apply Hw. rewrite lookup_app_r, Nat.sub_diag by lia. done.
Qed.

Lemma laid_zero img v a max lo hi l ends k :
  laid img v a max lo hi l ends → (k < ends)%nat → stack_word img v (a + 8 * Z.of_nat (length l + k)) = 0.
Proof.
  intros (ptrs & Hp & Hw) Hk. rewrite <- (Forall2_length _ _ _ Hp). apply Hw.
  rewrite lookup_app_r by lia. replace (_ - _)%nat with k by lia. by apply lookup_replicate_2.
Qed.

Lemma laid_kept img v v' a max lo hi l ends lo' hi' :
  laid img v a max lo hi l ends → wrote img v v' lo' hi' → STACK_BOTTOM ≤ lo → hi ≤ USER_STACK_TOP →
  STACK_BOTTOM ≤ a → a + 8 * Z.of_nat (length l + ends) ≤ USER_STACK_TOP → hi' ≤ lo → hi' ≤ a →
  laid img v' a max lo hi l ends.
Proof.
  intros (ptrs & Hp & Hw) W ??????. exists ptrs. split; [eapply placed_kept; [exact Hp|exact W|lia..]|].
  intros i w Hi. rewrite <- (Hw i w Hi). apply lookup_lt_Some in Hi as Hlt.
  rewrite length_app, length_replicate, (Forall2_length _ _ _ Hp) in Hlt. eapply word_kept; [exact W|lia..].
Qed.

(** The array of pointers is pushed below its strings. *)
Lemma push_laid img v sp max lo hi ptrs l ends :
  stack_ok img v → placed img v max lo hi ptrs l → sp ≤ lo → STACK_BOTTOM ≤ lo → hi ≤ USER_STACK_TOP → sp ≤ USER_STACK_TOP →
  STACK_BOTTOM ≤ array_at sp (length l + ends) →
  ∃ v', push_pointers img sp ptrs ends v = (inr (array_at sp (length l + ends)), v')
    ∧ wrote img v v' (array_at sp (length l + ends)) sp
    ∧ laid img v' (array_at sp (length l + ends)) max lo hi l ends.
Proof.
  intros Hs Hp Hsp Hlo Hhi Htop Hb. rewrite <- (Forall2_length _ _ _ Hp) in *.
  destruct (push_pointers_result img sp ptrs ends v) as (v' & E & W & A); [done..|by eapply placed_u64|].
  exists v'. split_and!; [done..|]. exists ptrs. split; [|done]. eapply placed_kept; [exact Hp|exact W|lia..].
Qed.

(** ** The arguments *)
Definition env_ends (img : loader_image_t) : nat := if is_linux img then 3 else 1.

Lemma array_at_facts sp n :
  array_at sp n mod 8 = 0 ∧ sp - 7 - 8 * Z.of_nat n ≤ array_at sp n ≤ sp - 8 * Z.of_nat n.
Proof.
  unfold array_at. pose proof (Z.mod_pos_bound sp 8 ltac:(lia)). split; [|lia].
  apply Z.mod_divide; [lia|]. exists (sp / 8 - Z.of_nat n). pose proof (Z.div_mod sp 8). lia.
Qed.

Lemma placed_weaken img v max lo hi hi' ptrs l :
  placed img v max lo hi ptrs l → hi ≤ hi' → placed img v max lo hi' ptrs l.
Proof. intros Hp ?. eapply Forall2_impl; [exact Hp|]. intros p s (?&?&?). split_and!; [lia|lia|done]. Qed.

(** The strings need at most 6144 bytes. *)
Lemma both_strings_result img v env args :
  stack_ok img v → im_user_stack img = USER_STACK_TOP - 16 → (length env ≤ 32)%nat → (length args ≤ 16)%nat →
  ∃ ep ap s1 s2 v1 v2,
    push_strings img LOADER_ENV_STR_MAX env (im_user_stack img) v = (inr (s1, ep), v1)
    ∧ push_strings img LOADER_ARG_STR_MAX args s1 v1 = (inr (s2, ap), v2)
    ∧ wrote img v v2 s2 USER_STACK_TOP
    ∧ placed img v2 LOADER_ENV_STR_MAX s2 USER_STACK_TOP ep env
    ∧ placed img v2 LOADER_ARG_STR_MAX s2 USER_STACK_TOP ap args
    ∧ STACK_BOTTOM + 10000 ≤ s2 ≤ USER_STACK_TOP.
Proof.
  intros Hs Hu He Ha. rewrite Hu.
  pose proof (total_bound LOADER_ENV_STR_MAX env ltac:(done)) as T1. change (LOADER_ENV_STR_MAX * _) with (128 * Z.of_nat (length env)) in T1.
  pose proof (total_bound LOADER_ARG_STR_MAX args ltac:(done)) as T2. change (LOADER_ARG_STR_MAX * _) with (128 * Z.of_nat (length args)) in T2.
  destruct (push_strings_result img LOADER_ENV_STR_MAX env (USER_STACK_TOP - 16) v)
    as (ep & v1 & E1 & W1 & P1); [done|done|stack_lia|lia|].
  destruct (push_strings_result img LOADER_ARG_STR_MAX args (USER_STACK_TOP - 16 - total LOADER_ENV_STR_MAX env) v1)
    as (ap & v2 & E2 & W2 & P2); [apply W1|done|stack_lia|lia|].
  eexists ep, ap, _, _, v1, v2. split_and!; [exact E1|exact E2|eapply wrote_trans; [exact W1|exact W2|lia..]| | |stack_lia|lia].
  - eapply placed_weaken; [eapply placed_kept; [exact P1|exact W2|stack_lia..]|lia].
  - eapply placed_weaken; [exact P2|lia].
Qed.

(** The two arrays below them. *)
Lemma both_arrays_result img v s2 env args ep ap :
  stack_ok img v → (length env ≤ 32)%nat → (length args ≤ 16)%nat →
  placed img v LOADER_ENV_STR_MAX s2 USER_STACK_TOP ep env →
  placed img v LOADER_ARG_STR_MAX s2 USER_STACK_TOP ap args →
  STACK_BOTTOM + 10000 ≤ s2 ≤ USER_STACK_TOP →
  let envp_ptr := array_at s2 (length env + env_ends img) in
  let argv_ptr := envp_ptr - 8 * Z.of_nat (length args + 1) in
  ∃ v1 v2,
    push_pointers img s2 ep (env_ends img) v = (inr envp_ptr, v1)
    ∧ push_pointers img envp_ptr ap 1 v1 = (inr argv_ptr, v2)
    ∧ wrote img v v2 argv_ptr s2
    ∧ laid img v2 argv_ptr LOADER_ARG_STR_MAX s2 USER_STACK_TOP args 1
    ∧ laid img v2 envp_ptr LOADER_ENV_STR_MAX s2 USER_STACK_TOP env (env_ends img).
Proof.
  intros Hs He Ha P1 P2 Hr envp_ptr argv_ptr.
  assert (env_ends img ≤ 3)%nat as Hends by (unfold env_ends; case_match; lia).
  destruct (array_at_facts s2 (length env + env_ends img)) as [Hm Hb]. fold envp_ptr in Hm, Hb.
  assert (array_at envp_ptr (length args + 1) = argv_ptr) as Harr by (unfold array_at, argv_ptr; lia).
  destruct (push_laid img v s2 _ _ _ ep env (env_ends img) Hs P1) as (v1 & E1 & W1 & L1); [stack_lia..|].
  fold envp_ptr in E1, W1, L1.
  destruct (push_laid img v1 envp_ptr LOADER_ARG_STR_MAX s2 USER_STACK_TOP ap args 1) as (v2 & E2 & W2 & L2);
    [apply W1|eapply placed_kept; [exact P2|exact W1|stack_lia..]|stack_lia..|].
  rewrite Harr in E2, W2, L2. exists v1, v2. split_and!; try done.
  - eapply wrote_trans; [exact W1|exact W2|unfold argv_ptr; lia..].
  - eapply laid_kept; [exact L1|exact W2|stack_lia..].
Qed.

Definition clamp_argc (argc : Z) : Z := Z.max 0 (Z.min argc LOADER_ARG_MAX).

(** What the program finds: for the guest, [argc], the arguments, the
    environment and the end of the auxiliary vector follow each other from the
    stack pointer on; otherwise the stack pointer is aligned and below all. *)
Definition entry_stack (img img' : loader_image_t) (v : Vm.vm_state) (argc argv_ptr envp_ptr : Z) (nenv : nat) : Prop :=
  if is_linux img then
    stack_word img v (im_user_stack img') = argc ∧ argv_ptr = im_user_stack img' + 8
    ∧ envp_ptr = argv_ptr + 8 * (argc + 1)
    ∧ stack_word img v (envp_ptr + 8 * Z.of_nat (nenv + 1)) = 0
    ∧ stack_word img v (envp_ptr + 8 * Z.of_nat (nenv + 2)) = 0
  else im_user_stack img' mod 16 = 0 ∧ im_user_stack img' ≤ argv_ptr.

Lemma arg_strings_length argc argv args :
  arg_strings (clamp_argc argc) argv = Some args → Z.of_nat (length args) = clamp_argc argc.
Proof.
  intros H. assert (0 ≤ clamp_argc argc) as H0 by (unfold clamp_argc; lia). revert H. unfold arg_strings.
  destruct argv as [l|]; [case_if; [|done]|]; intros H; injection H as <-; bool_hyps.
  - rewrite length_fmap, length_take. lia.
  - rewrite length_replicate. lia.
Qed.

Lemma finish_args_result img v argc argv_ptr envp_ptr :
  stack_ok img v → argv_ptr mod 8 = 0 → STACK_BOTTOM + 16 ≤ argv_ptr → argv_ptr < USER_STACK_TOP → in_u64 argc →
  ∃ sp v', finish_args img argc argv_ptr envp_ptr v = (inr (img <| im_user_stack := sp |>, argv_ptr, envp_ptr), v')
    ∧ wrote img v v' (argv_ptr - 8) argv_ptr ∧ STACK_BOTTOM ≤ sp < USER_STACK_TOP
    ∧ if is_linux img then stack_word img v' sp = argc ∧ argv_ptr = sp + 8 else sp mod 16 = 0 ∧ sp ≤ argv_ptr.
Proof.
  intros Hs Hm Hb Ht Hc. unfold finish_args. destruct (is_linux img) eqn:E.
  - rewrite land_not8, Hm, Z.sub_0_r by stack_lia. rewrite (so_bottom _ _ Hs).
    rewrite (u64_small (STACK_BOTTOM + 8)), (proj2 (Z.ltb_ge _ _)) by stack_lia.
    rewrite (u64_small (argv_ptr - 8)) by stack_lia.
    destruct (stack_write_result img (argv_ptr - 8) (le_bytes 8 argc) v) as (v' & E1 & W & A);
      [done|done|lia|rewrite length_le_bytes; lia|]. rewrite length_le_bytes in W, A.
    unfold mbind, K_bind. rewrite E1. rewrite u64_small by stack_lia.
    exists (argv_ptr - 8), v'. split_and!; [by rewrite Z.sub_add|by rewrite Z.sub_add in W|lia|lia| |lia].
    unfold stack_word. rewrite (A : area _ _ 8 = _). apply le_value_bytes. apply Hc.
  - rewrite land_not16 by stack_lia. pose proof (Z.mod_pos_bound argv_ptr 16 ltac:(lia)).
    eexists _, v. split_and!; [done|by apply wrote_refl|lia|lia| |lia].
    apply Z.mod_divide; [lia|]. exists (argv_ptr / 16). pose proof (Z.div_mod argv_ptr 16). lia.
Qed.


End LoaderProofs.
