(* ===== verification/LoaderMap.v ===== *)
(** * The pages of a new program

    [loader_map_segment] maps fresh frames with the protection of the segment
    and fills them with the bytes of the file and zeros; [loader_map_stack]
    maps the four pages of the stack.  Every frame that was in use before
    keeps its content, and no other page of an address space changes. *)

From stdpp Require Import base gmap list numbers fin_maps.
From S2P Require Import Prelude Bytes Pmm PmmFacts PmmInit Paging PagingFacts PagingProofs Vm VmMap VmFacts.
From S2P Require Import VmInv VmFault VmFork Task Loader LoaderProofs.

Module LoaderMap.
Import Pmm PmmFacts PmmInit Paging PagingFacts PagingProofs Vm VmInv VmTasks VmFault VmFork.
Import Loader LoaderProofs.

Definition used (v : vm_state) (f : Z) : Prop := frame_used (pg_pmm (paging v)) f.

(** More frames are in use; those that were keep their content. *)
Definition grows (own : gmap Z node) (v : vm_state) (own' : gmap Z node) (v' : vm_state) : Prop :=
  extends own v own' v' ∧ ∀ g, used v g → frame v' g = frame v g.

Lemma grows_refl own v : vm_inv v own → limit_ok v → grows own v own v.
Proof. intros. split; [by apply extends_refl|done]. Qed.

Lemma grows_trans own1 v1 own2 v2 own3 v3 :
  grows own1 v1 own2 v2 → grows own2 v2 own3 v3 → grows own1 v1 own3 v3.
Proof.
  intros [E1 F1] [E2 F2]. split; [by eapply extends_trans|]. intros g Hg. rewrite F2; [by apply F1|].
  by apply E1.
Qed.

Lemma grows_root own v own' v' r : grows own v own' v' → is_root own r → is_root own' r.
Proof. intros [(Hs & _) _] [Hr H0]. split; [|done]. by eapply lookup_weaken. Qed.

(** Page [va] of [r] is on the frame [f] with these flags and this content. *)
Definition page_is (v : vm_state) (r va f flags : Z) (content : list Z) : Prop :=
  translate (paging v) r va = f ∧ leaf (paging v) r va = Some (Z.lor f (Z.land flags PTE_MASK))
  ∧ used v f ∧ frame v f = content.

(** No page of an address space changes, but those of [r] at the addresses [P]. *)
Definition pages_kept (own : gmap Z node) (v v' : vm_state) (r : Z) (P : Z → Prop) : Prop :=
  ∀ r' a, is_root own r' → user_page a → r' ≠ r ∨ ¬ P a → same_page (paging v) (paging v') r' a.

Lemma pages_kept_trans own v1 own2 v2 v3 r (P Q R : Z → Prop) :
  grows own v1 own2 v2 → pages_kept own v1 v2 r P → pages_kept own2 v2 v3 r Q → (∀ a, P a ∨ Q a → R a) →
  pages_kept own v1 v3 r R.
Proof.
  intros G K1 K2 HR r' a Hr Ha Hn. eapply same_page_trans; [apply K1|apply K2]; [done|done|naive_solver| |done|naive_solver].
  by eapply grows_root.
Qed.

(** ** One page *)
Lemma alloc_step own v :
  vm_inv v own → limit_ok v →
  ∃ f v', alloc_page v = (inr f, v') ∧ grows own v own v' ∧ same_tables v v'
    ∧ (f ≠ 0 → used v' f ∧ ¬ used v f).
Proof.
  intros Hinv Hl. unfold alloc_page. pose proof (pi_pmm _ _ (vi_pt _ _ Hinv)) as Hpm.
  pose proof (alloc_grow (pg_pmm (paging v)) PMM_ZONE_NORMAL Hpm ltac:(done)) as Ha.
  destruct (pmm_alloc_page_in_zone _ _) as [f p]. destruct Ha as [Hg Hf].
  destruct (with_alloc own v p Hinv Hg) as [I T].
  exists f, (with_pmm (λ _, p) v). split; [done|]. split; [|split; [done|]].
  - split; [split_and!; try done|].
    + eapply limit_geometry; [by right|apply Hg|apply Hg|done].
    + intros g Hu. split; [by apply Hg|done].
    + intros g Hu. unfold frame. cbn. by destruct (proj2 (proj2 Hg) g Hu) as [_ ->].
  - intros H0. destruct (Hf H0) as (? & ? & _). done.
Qed.

Lemma map_step own v r va f flags :
  vm_inv v own → is_root own r → user_page va → used v f → limit_ok v → has_flag flags PTE_PRESENT = true →
  ∃ rc v' own', map_page r va f flags v = (inr rc, v') ∧ grows own v own' v'
    ∧ ((rc = RDNX_OK ∧ translate (paging v') r va = f ∧ leaf (paging v') r va = Some (Z.lor f (Z.land flags PTE_MASK))
        ∧ pages_kept own v v' r (λ a, a = va))
       ∨ (rc = RDNX_E_GENERIC ∧ pages_kept own v v' r (λ _, False))).
Proof.
  intros Hinv Hr Hu Hf Hl Hfl. unfold map_page. pose proof (vm_map_step own v r va f flags Hinv Hr Hu Hf Hl Hfl) as Hm.
  destruct (paging_map_page_4kb_pml4 (paging v) r va f flags) as [rc p].
  destruct Hm as (own' & Hsub & I & ((Hp & Hg & Hgr) & Hcu & Hown) & Hc).
  exists rc, (v <| paging := p |>), own'. split; [done|]. split.
  - split; [split_and!; try done|].
    + eapply limit_geometry; [right; apply Hinv|done|done|done].
    + intros g Hug. split; [by apply Hgr|by apply Hown].
    + intros g Hug. unfold frame. cbn. by destruct (Hgr g Hug) as [_ ->].
  - destruct Hc as [(-> & M1 & M2 & M3)|[-> M]]; [left|right]; split_and!; try done.
    + intros r' a Hr' Ha Hn. apply M3; [done|]. destruct Hn as [?|Hn]; [by left|right].
      intros Hi. by apply Hn, user_indices.
    + intros r' a Hr' _ _. by apply M.
Qed.

(** The content of a frame that was not in use in [v0]. *)
Lemma fill_loaded_page own0 v0 own v f off bytes :
  grows own0 v0 own v → ¬ used v0 f →
  let v' := set_frame f (bput off bytes zero_page) v in
  fill_page f off bytes v = (inr tt, v') ∧ grows own0 v0 own v' ∧ same_tables v v'
  ∧ (∀ g, used v' g ↔ used v g) ∧ frame v' f = bput off bytes zero_page ∧ ∀ g, g ≠ f → frame v' g = frame v g.
Proof.
  intros [(A1 & A2 & A3 & A4 & A5) Hf] Hn v'.
  destruct (set_frame_step own v f (bput off bytes zero_page) A2) as ((I & T) & _ & U & F & L).
  split_and!; try done.
  - split; [split_and!; try done|].
    intros g Hg. unfold v'. rewrite frame_set, decide_False by (intros ->; done). by apply Hf.
  - intros g Hg. unfold v'. by rewrite frame_set, decide_False.
Qed.

(** ** Segments *)

(** The byte that a segment has at the address [a]. *)
Definition segment_byte (image : list Z) (ph : elf64_phdr_t) (a : Z) : Z :=
  if decide (p_vaddr ph ≤ a < p_vaddr ph + p_filesz ph) then image !!! Z.to_nat (p_offset ph + (a - p_vaddr ph)) else 0.

Definition segment_page (image : list Z) (ph : elf64_phdr_t) (va : Z) : list Z := area (segment_byte image ph) va 4096.

(** The bytes of the segment are in the file. *)
Definition in_file (image : list Z) (ph : elf64_phdr_t) : Prop :=
  0 ≤ p_offset ph ∧ 0 ≤ p_filesz ph ∧ p_offset ph + p_filesz ph ≤ Z.of_nat (length image) < 2 ^ 63.

Lemma file_bytes_in image off n :
  0 ≤ off → 0 ≤ n → off + n ≤ Z.of_nat (length image) < 2 ^ 63 →
  file_bytes image off n = Some (bslice off n image) ∧ length (bslice off n image) = Z.to_nat n.
Proof.
  intros Ho Hn Hl. unfold file_bytes. change (2 ^ 63) with 9223372036854775808 in Hl.
  rewrite u64_small by lia. rewrite (proj2 (Z.leb_le _ _)) by lia. split; [done|]. apply length_bslice; lia.
Qed.

(** The bytes of the file from [o] on are stored at [off] in a page of zeros. *)
Lemma page_of_bytes image ph va off o n :
  0 ≤ off → 0 ≤ o → 0 ≤ n → off + n ≤ 4096 → o + n ≤ Z.of_nat (length image) →
  (∀ k, 0 ≤ k < 4096 → p_vaddr ph ≤ va + k < p_vaddr ph + p_filesz ph ↔ off ≤ k < off + n) →
  (0 < n → o - off = p_offset ph + va - p_vaddr ph) →
  bput off (bslice o n image) zero_page = segment_page image ph va.
Proof.
  intros Hoff Ho Hn Hp Hl Hk Hpos. assert (length (bslice o n image) = Z.to_nat n) as Hb by (apply length_bslice; lia).
  apply list_eq. intros k. destruct (decide (k < 4096)%nat) as [Hlt|Hge].
  2: { rewrite !lookup_ge_None_2; [done|unfold segment_page; rewrite length_area; lia|rewrite length_bput; unfold zero_page; rewrite length_replicate; lia]. }
  unfold segment_page. rewrite area_lookup by lia. unfold segment_byte.
  pose proof (Hk (Z.of_nat k) ltac:(lia)) as Hiff. unfold bput. case_decide as Hd.
  - apply Hiff in Hd. rewrite list_lookup_inserts by (unfold zero_page; rewrite ?length_replicate; lia).
    rewrite bslice_lookup by lia. rewrite list_lookup_lookup_total_lt by lia. do 2 f_equal. lia.
  - assert (zero_page !! k = Some 0) as Hz by (apply lookup_replicate_2; lia).
    destruct (decide (Z.of_nat k < off)); [rewrite list_lookup_inserts_lt by lia|rewrite list_lookup_inserts_ge by lia]; done.
Qed.

Lemma page_part_result image ph va :
  in_file image ph → 0 ≤ va → p_vaddr ph - va < 4096 →
  ∃ off bytes, page_part image ph va = Some (off, bytes) ∧ bput off bytes zero_page = segment_page image ph va.
Proof.
  intros (Ho & Hf & Hl) Hva Hd. unfold page_part, USER_PAGE_SIZE.
  assert (bput 0 [] zero_page = bput 0 (bslice 0 0 image) zero_page) as Hnil by done.
  destruct (va <? p_vaddr ph) eqn:E1; bool_hyps.
  - set (copy := if p_filesz ph <? _ then _ else _).
    assert (copy = Z.min (p_filesz ph) (4096 - (p_vaddr ph - va))) as Hc by (unfold copy; case_if; bool_hyps; lia).
    destruct (0 <? copy) eqn:E2; bool_hyps.
    + destruct (file_bytes_in image (p_offset ph) copy) as [-> _]; [lia..|]. cbn. eexists _, _. split; [done|].
      apply page_of_bytes; lia.
    + eexists _, _. split; [done|]. rewrite Hnil. apply page_of_bytes; lia.
  - destruct (va - p_vaddr ph <? p_filesz ph) eqn:E2; bool_hyps.
    + edestruct (file_bytes_in image (p_offset ph + (va - p_vaddr ph)) (Z.min (p_filesz ph - (va - p_vaddr ph)) 4096)) as [-> _];
        [lia..|]. cbn. eexists _, _. split; [done|]. apply page_of_bytes; lia.
    + eexists _, _. split; [done|]. rewrite Hnil. apply page_of_bytes; lia.
Qed.

Lemma segment_flags_present ph : has_flag (segment_flags ph) PTE_PRESENT = true.
Proof. unfold segment_flags. by destruct (has_flag (p_flags ph) PF_W), (has_flag (p_flags ph) PF_X). Qed.

(** The two ways a page can be missing. *)
Definition no_page {A} (r : option Z + A) : Prop := r = inl (Some RDNX_E_NOMEM) ∨ r = inl (Some RDNX_E_GENERIC).

Lemma load_page_result own v r image ph va :
  vm_inv v own → limit_ok v → is_root own r → user_page va → in_file image ph → p_vaddr ph - va < 4096 →
  ∃ res v' own', load_page r image ph va v = (res, v') ∧ grows own v own' v'
    ∧ ((res = inr tt ∧ pages_kept own v v' r (λ a, a = va)
        ∧ ∃ f, ¬ used v f ∧ page_is v' r va f (segment_flags ph) (segment_page image ph va))
       ∨ (no_page res ∧ pages_kept own v v' r (λ _, False))).
Proof.
  intros Hinv Hl Hr Hu Hin Hd. unfold load_page.
  destruct (alloc_step own v Hinv Hl) as (f & v1 & E1 & G1 & T1 & Hf). unfold mbind, K_bind at 1. rewrite E1.
  assert (∀ P, pages_kept own v v1 r P) as K1 by (intros P r' a _ _ _; by apply same_tables_page).
  destruct (f =? 0) eqn:E0; bool_hyps.
  { exists (inl (Some RDNX_E_NOMEM)), v1, own. split_and!; [done|done|]. right. split; [by left|done]. }
  destruct (Hf E0) as [U1 N1]. pose proof G1 as [(_ & I1 & L1 & _) _].
  destruct (map_step own v1 r va f (segment_flags ph) I1 Hr Hu U1 L1 (segment_flags_present ph))
    as (rc & v2 & own2 & E2 & G2 & Hc).
  unfold K_bind at 1. rewrite E2. pose proof (grows_trans _ _ _ _ _ _ G1 G2) as G.
  destruct Hc as [(-> & M1 & M2 & K2)|[-> K2]].
  2: { eexists _, v2, own2. split_and!; [done|done|]. right. split; [by right|].
       eapply pages_kept_trans; [exact G1|apply K1|exact K2|]. intros a [Hx|Hx]; exact Hx. }
  cbn [Z.eqb negb RDNX_OK]. destruct (page_part_result image ph va) as (off & bytes & -> & Hbytes); [done|apply Hu|done|].
  cbn [from_file mret K_ret]. unfold K_bind at 1. cbn [fst snd].
  destruct (fill_loaded_page own v own2 v2 f off bytes G N1) as (E3 & G3 & T3 & U3 & F3 & _). unfold mret. cbn. rewrite E3.
  eexists _, _, own2. split_and!; [done|exact G3|]. left. split_and!; [done| |].
  - intros r' a Hr' Ha Hn. eapply same_page_trans; [apply (K1 (λ a, a = va)); done|].
    eapply same_page_trans; [by apply K2|]. by apply same_tables_page.
  - exists f. split; [done|]. destruct (same_tables_page _ _ r va T3) as [S1 S2].
    split_and!; [by rewrite S1|by rewrite S2|apply U3; apply (proj1 G2); done|by rewrite F3].
Qed.

(** The [n] pages from [va] on are on the distinct frames [fs], which were not
    in use in [v]. *)
Definition pages_are (v v' : vm_state) (r va flags : Z) (content : Z → list Z) (fs : list Z) : Prop :=
  NoDup fs ∧ Forall (λ f, ¬ used v f) fs
  ∧ ∀ k f, fs !! k = Some f →
      page_is v' r (va + 4096 * Z.of_nat k) f flags (content (va + 4096 * Z.of_nat k)).

Lemma page_is_kept own own' v v' r va f flags content P :
  page_is v r va f flags content → grows own v own' v' → pages_kept own v v' r P → is_root own r → user_page va → ¬ P va →
  page_is v' r va f flags content.
Proof.
  intros (A1 & A2 & A3 & A4) [G F] K Hr Hu Hn. destruct (K r va Hr Hu ltac:(by right)) as [S1 S2].
  split_and!; [by rewrite S1|by rewrite S2|by apply G|by rewrite F].
Qed.

Lemma pages_are_cons own v1 own' v v' r va flags content f fs P :
  grows own v1 own' v' → (∀ g, used v g → used v1 g) → is_root own r → user_page va → pages_kept own v1 v' r P → ¬ P va →
  ¬ used v f → page_is v1 r va f flags (content va) → pages_are v1 v' r (va + 4096) flags content fs →
  pages_are v v' r va flags content (f :: fs).
Proof.
  intros G Hsub Hr Hu K HP Hf Hp (Hn & Hfr & Hk). split_and!.
  - constructor; [|done]. intros Hin. by apply (proj1 (Forall_forall _ _) Hfr f Hin), Hp.
  - constructor; [done|]. eapply Forall_impl; [exact Hfr|]. intros g Hg Hg'. by apply Hg, Hsub.
  - intros [|k] g Hg.
    + injection Hg as <-. rewrite Z.mul_0_r, Z.add_0_r. by eapply page_is_kept.
    + replace (va + 4096 * Z.of_nat (S k)) with (va + 4096 + 4096 * Z.of_nat k) by lia. by apply Hk.
Qed.

Lemma user_page_next va n : user_page va → va + 4096 * (1 + n) ≤ 2 ^ 47 → 0 < n → user_page (va + 4096).
Proof.
  intros [? Hm] ??. split; [lia|]. rewrite <- Zplus_mod_idemp_r, Z_mod_same_full, Z.add_0_r. done.
Qed.

Lemma load_pages_result image ph r n : ∀ own v va,
  vm_inv v own → limit_ok v → is_root own r → (n ≠ 0%nat → user_page va) → va + 4096 * Z.of_nat n ≤ 2 ^ 47 → in_file image ph →
  p_vaddr ph - va < 4096 →
  ∃ res v' own', load_pages n r image ph va v = (res, v') ∧ grows own v own' v'
    ∧ pages_kept own v v' r (λ a, va ≤ a < va + 4096 * Z.of_nat n)
    ∧ ((res = inr tt ∧ ∃ fs, length fs = n ∧ pages_are v v' r va (segment_flags ph) (segment_page image ph) fs)
       ∨ no_page res).
Proof.
  induction n as [|n IH]; intros own v va Hinv Hl Hr Hu Hb Hin Hd.
  { eexists _, v, own. split_and!; [done|by apply grows_refl|done|]. left. split; [done|]. exists []. split; [done|].
    split_and!; [constructor|constructor|done]. }
  specialize (Hu ltac:(done)). cbn [load_pages]. unfold mbind, K_bind at 1.
  destruct (load_page_result own v r image ph va) as (res & v1 & own1 & -> & G1 & Hc); [done..|].
  destruct Hc as [(-> & K1 & f & Nf & Pf)|[Hno K1]].
  2: { exists (match res with inl e => inl e | inr _ => inr tt end), v1, own1. destruct Hno as [-> | ->];
       (split_and!; [done|done|intros r' a ???; apply K1; naive_solver|right; unfold no_page; naive_solver]). }
  pose proof G1 as [(_ & I1 & L1 & _ & U1) _]. pose proof (grows_root _ _ _ _ _ G1 Hr) as Hr1.
  destruct (IH own1 v1 (va + 4096)) as (res & v2 & own2 & E2 & G2 & K2 & Hc); try done; [|lia|lia|].
  { intros Hn. apply (user_page_next va (Z.of_nat n)); [done|lia|lia]. }
  exists res, v2, own2. split_and!; [done|by eapply grows_trans| |].
  { eapply pages_kept_trans; [exact G1|exact K1|exact K2|]. cbn beta. intros a Ha. lia. }
  destruct Hc as [(-> & fs & Hlen & Hfs)|Hno]; [left|by right]. split; [done|]. exists (f :: fs).
  split; [simpl; by rewrite Hlen|]. eapply pages_are_cons; [exact G2|by apply U1|done|done|exact K2|cbn beta; lia|done..].
Qed.

(** Where a segment starts and ends in pages. *)
Definition seg_lo (ph : elf64_phdr_t) : Z := p_vaddr ph - p_vaddr ph mod 4096.
Definition seg_hi (ph : elf64_phdr_t) : Z :=
  p_vaddr ph + p_memsz ph + 4095 - (p_vaddr ph + p_memsz ph + 4095) mod 4096.

Definition seg_ok (ph : elf64_phdr_t) : Prop := 0 ≤ p_vaddr ph ∧ 0 < p_memsz ph ∧ p_vaddr ph + p_memsz ph ≤ 2 ^ 47.

Lemma seg_align ph :
  seg_ok ph →
  align_down (p_vaddr ph) = seg_lo ph ∧ align_up (p_vaddr ph +₆₄ p_memsz ph) = seg_hi ph
  ∧ user_page (seg_lo ph) ∧ seg_hi ph = seg_lo ph + 4096 * Z.of_nat (segment_pages (seg_lo ph) (seg_hi ph))
  ∧ seg_hi ph ≤ 2 ^ 47 ∧ p_vaddr ph - seg_lo ph < 4096.
Proof.
  intros (Hv & Hm & Hb). change (2 ^ 47) with 140737488355328 in *. rewrite u64_small by lia.
  rewrite align_down_eq, align_up_eq by lia. unfold seg_lo, seg_hi, segment_pages, user_page, USER_PAGE_SIZE.
  change (2 ^ 47) with 140737488355328. Z.to_euclidean_division_equations. lia.
Qed.

Definition add_segment (ph : elf64_phdr_t) (img : loader_image_t) : loader_image_t :=
  if Z.of_nat (length (im_segs img)) <? LOADER_MAX_SEGMENTS
  then img <| im_segs ::= λ l, l ++ [mk_segment (seg_lo ph) (seg_hi ph) (segment_prot ph)] |> else img.

Lemma loader_map_segment_result own v r image ph img :
  vm_inv v own → limit_ok v → is_root own r → in_file image ph → seg_ok ph →
  ∃ res v' own', loader_map_segment r image ph img v = (res, v') ∧ grows own v own' v'
    ∧ pages_kept own v v' r (λ a, seg_lo ph ≤ a < seg_hi ph)
    ∧ ((res = inr (add_segment ph img)
        ∧ ∃ fs, length fs = segment_pages (seg_lo ph) (seg_hi ph)
            ∧ pages_are v v' r (seg_lo ph) (segment_flags ph) (segment_page image ph) fs)
       ∨ no_page res).
Proof.
  intros Hinv Hl Hr Hin Hok. destruct (seg_align ph Hok) as (E1 & E2 & Hu & Hn & Hb & Hd).
  unfold loader_map_segment. pose proof Hin as (Ho & Hf & Hlen). change (2 ^ 63) with 9223372036854775808 in Hlen.
  rewrite (proj2 (Z.eqb_neq _ 0)) by (destruct Hok; lia). rewrite (u64_small (p_offset ph + _)) by lia.
  rewrite (proj2 (Z.ltb_ge _ _)) by lia. cbn zeta. rewrite E1, E2. unfold mbind, K_bind at 1.
  destruct (load_pages_result image ph r (segment_pages (seg_lo ph) (seg_hi ph)) own v (seg_lo ph))
    as (res & v' & own' & -> & G & K & Hc); [done..|lia|done|done|].
  rewrite <- Hn in K. destruct Hc as [(-> & fs & Hfs)|[-> | ->]].
  - exists (inr (add_segment ph img)), v', own'. split_and!; [done..|]. left. split; [done|]. by exists fs.
  - eexists _, v', own'. split_and!; [done..|]. right. by left.
  - eexists _, v', own'. split_and!; [done..|]. right. by right.
Qed.

(** A segment whose bytes are in the file and that is below the middle of the
    address range is mapped to fresh frames with its protection: the bytes of
    the file at their addresses and zeros in the rest of its pages.  Otherwise
    no page is left or a table could not be made, and the code says so.  No
    other page and no frame in use changes, whichever way it ends. *)
Theorem loader_map_segment_correct own v r image ph img :
  vm_inv v own → limit_ok v → is_root own r → in_file image ph → seg_ok ph →
  ∃ res v' own', loader_map_segment r image ph img v = (res, v') ∧ grows own v own' v'
    ∧ pages_kept own v v' r (λ a, seg_lo ph ≤ a < seg_hi ph)
    ∧ ((res = inr (add_segment ph img)
        ∧ ∃ fs, length fs = segment_pages (seg_lo ph) (seg_hi ph)
            ∧ pages_are v v' r (seg_lo ph) (segment_flags ph) (segment_page image ph) fs)
       ∨ no_page res).
Proof. apply loader_map_segment_result. Qed.

(** ** The stack *)
Definition STACK_FLAGS : Z := Z.lor (Z.lor PTE_PRESENT PTE_USER) PTE_RW.

Lemma zero_page_bput : bput 0 [] zero_page = zero_page.
Proof. done. Qed.

Lemma map_stack_loop_result r n : ∀ own v bottom done0,
  let va := bottom + 4096 * Z.of_nat (length done0) in
  vm_inv v own → limit_ok v → is_root own r → (n ≠ 0%nat → user_page va) → va + 4096 * Z.of_nat n ≤ 2 ^ 47 →
  ∃ res v', map_stack_loop n r bottom done0 v = (res, v')
    ∧ ((∃ own' fs, res = inr (done0 ++ fs) ∧ grows own v own' v'
        ∧ pages_kept own v v' r (λ a, va ≤ a < va + 4096 * Z.of_nat n)
        ∧ length fs = n ∧ pages_are v v' r va STACK_FLAGS (λ _, zero_page) fs)
       ∨ no_page res).
Proof.
  induction n as [|n IH]; intros own v bottom done0 va Hinv Hl Hr Hu Hb.
  { eexists _, v. split; [done|]. left. exists own, []. rewrite app_nil_r. split_and!; try done.
    split_and!; [constructor|constructor|done]. }
  specialize (Hu ltac:(done)). cbn [map_stack_loop].
  destruct (alloc_step own v Hinv Hl) as (f & v1 & E1 & G1 & T1 & Hf). unfold mbind, K_bind at 1. rewrite E1.
  destruct (f =? 0) eqn:E0; bool_hyps; [by eexists _, _; split; [reflexivity|right; left]|].
  destruct (Hf E0) as [U1 N1]. pose proof G1 as [(_ & I1 & L1 & _) _].
  destruct (map_step own v1 r va f STACK_FLAGS I1 Hr Hu U1 L1 eq_refl) as (rc & v2 & own2 & E2 & G2 & Hc).
  unfold K_bind at 1. unfold USER_PAGE_SIZE at 1. rewrite (Z.mul_comm _ 4096). fold va STACK_FLAGS. rewrite E2.
  destruct Hc as [(-> & M1 & M2 & K2)|[-> K2]]; [|by eexists _, _; split; [reflexivity|right; right]].
  cbn [Z.eqb negb RDNX_OK]. pose proof (grows_trans _ _ _ _ _ _ G1 G2) as G.
  destruct (fill_loaded_page own v own2 v2 f 0 [] G N1) as (E3 & G3 & T3 & U3 & F3 & _). unfold K_bind at 1. rewrite E3.
  set (v3 := set_frame _ _ _) in *. pose proof G3 as [(_ & I3 & L3 & _ & Us3) _].
  destruct (same_tables_page _ _ r va T3) as [S1 S2].
  assert (page_is v3 r va f STACK_FLAGS zero_page) as Pf
    by (split_and!; [by rewrite S1|by rewrite S2|apply U3; by apply (proj1 G2)|by rewrite F3]).
  assert (pages_kept own v v3 r (λ a, a = va)) as K3.
  { intros r' a Hr' Ha Hn. eapply same_page_trans; [by apply same_tables_page|].
    eapply same_page_trans; [by apply K2|]. by apply same_tables_page. }
  assert (bottom + 4096 * Z.of_nat (length (done0 ++ [f])) = va + 4096) as Hva by (rewrite length_app; simpl; lia).
  destruct (IH own2 v3 bottom (done0 ++ [f])) as (res & v4 & E4 & Hc); rewrite ?Hva; [done|done|by eapply grows_root| |lia|].
  { intros Hn. apply (user_page_next va (Z.of_nat n)); [done|lia|lia]. }
  exists res, v4. split; [done|]. rewrite Hva in Hc.
  destruct Hc as [(own4 & fs & -> & G4 & K4 & Hlen & Hfs)|Hno]; [left|by right].
  exists own4, (f :: fs). split_and!; [by rewrite <- app_assoc|by eapply grows_trans| |simpl; by rewrite Hlen|].
  - eapply pages_kept_trans; [exact G3|exact K3|exact K4|]. cbn beta. intros a Ha. lia.
  - eapply (pages_are_cons own2 v3); [exact G4|by apply Us3|by eapply grows_root|done|exact K4|cbn beta; lia|done..].
Qed.

Definition with_stack (fs : list Z) (img : loader_image_t) : loader_image_t :=
  img <| im_stack_bottom := STACK_BOTTOM |> <| im_stack_phys := fs |> <| im_user_stack := USER_STACK_TOP - 16 |>.

(** The stack of a program: four fresh pages of zeros, writable, of which the
    memory of the arguments consists. *)
Lemma loader_map_stack_result own v r img :
  vm_inv v own → limit_ok v → is_root own r →
  ∃ res v', loader_map_stack r img v = (res, v')
    ∧ ((∃ own' fs, res = inr (with_stack fs img) ∧ grows own v own' v'
        ∧ pages_kept own v v' r (λ a, STACK_BOTTOM ≤ a < USER_STACK_TOP)
        ∧ stack_ok (with_stack fs img) v'
        ∧ pages_are v v' r STACK_BOTTOM STACK_FLAGS (λ _, zero_page) fs)
       ∨ no_page res).
Proof.
  intros Hinv Hl Hr. unfold loader_map_stack, mbind, K_bind at 1.
  destruct (map_stack_loop_result r 4 own v STACK_BOTTOM []) as (res & v' & E & Hc); [done..| |done|].
  { intros _. split; done. }
  change (Z.to_nat LOADER_USER_STACK_PAGES) with 4%nat. rewrite E.
  destruct Hc as [(own' & fs & -> & G & K & Hlen & Hfs)|[-> | ->]];
    [|by eexists _, _; split; [reflexivity|right; left]|by eexists _, _; split; [reflexivity|right; right]].
  eexists _, v'. split; [reflexivity|]. left. exists own', fs.
  split_and!; [done|done|exact K| |exact Hfs]. pose proof Hfs as (Hn & _ & Hk). split; cbn; [done|done|done|].
  apply Forall_forall. intros f Hin. apply list_elem_of_lookup in Hin as [k Hf].
  destruct (Hk k f Hf) as (_ & _ & _ & ->). done.
Qed.

End LoaderMap.

(** * Loading a program ([loader_load_elf])

    For a file whose loadable segments are inside of it and on different
    pages, the new address space has every segment at its address and an empty
    stack, and nothing else. *)
Module LoaderElf.
Import Pmm PmmFacts PmmInit Paging PagingFacts PagingProofs PagingRoot Vm VmInv VmTasks VmFault VmFork.
Import Loader LoaderProofs LoaderMap.

(** ** Well-formed files *)
Definition loadable (hs : list elf64_phdr_t) : list elf64_phdr_t := filter (λ ph, p_type ph = PT_LOAD) hs.

(** Two segments have no page in common. *)
Definition apart (p q : elf64_phdr_t) : Prop := seg_hi p ≤ seg_lo q ∨ seg_hi q ≤ seg_lo p.

Fixpoint all_apart (l : list elf64_phdr_t) : Prop :=
  match l with
  | [] => True
  | p :: l => Forall (apart p) l ∧ all_apart l
  end.

(** A segment that is in the file and does not meet the stack. *)
Definition segment_fits (image : list Z) (ph : elf64_phdr_t) : Prop :=
  in_file image ph ∧ seg_ok ph ∧ (seg_hi ph ≤ STACK_BOTTOM ∨ USER_STACK_TOP ≤ seg_lo ph).

(** The headers of the file at [off]. *)
Definition headers_at (image : list Z) (off : Z) (hs : list elf64_phdr_t) : Prop :=
  0 ≤ off ∧ off + PHDR_SIZE * Z.of_nat (length hs) ≤ Z.of_nat (length image) < 2 ^ 63
  ∧ ∀ i ph, hs !! i = Some ph → phdr_of image (off + PHDR_SIZE * Z.of_nat i) = Some ph.

Record elf_ok (image : list Z) (hs : list elf64_phdr_t) : Prop := {
  eo_size : EHDR_SIZE ≤ Z.of_nat (length image);
  eo_header : valid_header (ehdr_of image) = true;
  eo_table : e_phoff (ehdr_of image) + e_phnum (ehdr_of image) * e_phentsize (ehdr_of image) ≤ Z.of_nat (length image);
  eo_entries : 0 ≤ e_phnum (ehdr_of image) * e_phentsize (ehdr_of image);
  eo_count : length hs = Z.to_nat (e_phnum (ehdr_of image));
  eo_headers : headers_at image (e_phoff (ehdr_of image)) hs;
  eo_fits : Forall (segment_fits image) (loadable hs);
  eo_apart : all_apart (loadable hs)
}.

(** ** Keeping pages *)
Lemma pages_are_kept own1 own2 v v1 v2 r va flags content fs P :
  pages_are v v1 r va flags content fs → grows own1 v1 own2 v2 → pages_kept own1 v1 v2 r P → is_root own1 r →
  (∀ k, (k < length fs)%nat → user_page (va + 4096 * Z.of_nat k) ∧ ¬ P (va + 4096 * Z.of_nat k)) →
  pages_are v v2 r va flags content fs.
Proof.
  intros (Hn & Hf & Hk) G K Hr Hp. split_and!; [done..|]. intros k f Hkf.
  destruct (Hp k (lookup_lt_Some _ _ _ Hkf)) as [Hu Hnp]. eapply page_is_kept; [by apply Hk|exact G|exact K|done..].
Qed.

Lemma pages_are_weaken v0 v v' r va flags content fs :
  pages_are v v' r va flags content fs → (∀ g, used v0 g → used v g) → pages_are v0 v' r va flags content fs.
Proof.
  intros (Hn & Hf & Hk) Hu. split_and!; [done| |done]. eapply Forall_impl; [exact Hf|]. intros f Hnf Huf. by apply Hnf, Hu.
Qed.

(** Segment [ph] is in the address space [r] of [v'], on frames that are free in [v]. *)
Definition segment_in (v v' : vm_state) (r : Z) (image : list Z) (ph : elf64_phdr_t) : Prop :=
  ∃ fs, length fs = segment_pages (seg_lo ph) (seg_hi ph)
    ∧ pages_are v v' r (seg_lo ph) (segment_flags ph) (segment_page image ph) fs.

Lemma seg_page_user ph k :
  seg_ok ph → (k < segment_pages (seg_lo ph) (seg_hi ph))%nat →
  user_page (seg_lo ph + 4096 * Z.of_nat k) ∧ seg_lo ph ≤ seg_lo ph + 4096 * Z.of_nat k < seg_hi ph.
Proof.
  intros Hok Hk. destruct (seg_align ph Hok) as (_ & _ & [Hu Hm] & Hn & Hb & _). split; [|lia]. split; [lia|].
  by rewrite Z.mul_comm, Z.mod_add by lia.
Qed.

Lemma segment_in_kept own1 own2 v v1 v2 r image ph P :
  segment_in v v1 r image ph → seg_ok ph → grows own1 v1 own2 v2 → pages_kept own1 v1 v2 r P → is_root own1 r →
  (∀ a, seg_lo ph ≤ a < seg_hi ph → ¬ P a) → segment_in v v2 r image ph.
Proof.
  intros (fs & Hl & Hfs) Hok G K Hr HP. exists fs. split; [done|].
  eapply pages_are_kept; [exact Hfs|exact G|exact K|done|]. rewrite Hl. intros k Hk.
  destruct (seg_page_user ph k Hok Hk) as [? ?]. split; [done|]. by apply HP.
Qed.

Lemma segment_in_weaken v0 v v' r image ph :
  segment_in v v' r image ph → (∀ g, used v0 g → used v g) → segment_in v0 v' r image ph.
Proof. intros (fs & Hl & Hfs) Hu. exists fs. split; [done|]. by eapply pages_are_weaken. Qed.

(** ** The program headers *)
Lemma header_type image off ph :
  0 ≤ off → off + PHDR_SIZE ≤ Z.of_nat (length image) < 2 ^ 63 → phdr_of image off = Some ph →
  file_bytes image off 4 = Some (bslice off 4 image) ∧ le_value (bslice off 4 image) = p_type ph.
Proof.
  intros Ho Hl. unfold PHDR_SIZE in *. unfold phdr_of. change PHDR_SIZE with 56.
  destruct (file_bytes_in image off 56) as [-> _]; [lia..|]. destruct (file_bytes_in image off 4) as [-> _]; [lia..|].
  cbn. intros [= <-]. split; [done|]. cbn [p_type]. unfold get32, bslice. rewrite drop_0, take_take. done.
Qed.

(** The image after its segments. *)
Definition add_header (img : loader_image_t) (ph : elf64_phdr_t) : loader_image_t :=
  let img := add_segment ph img in
  if im_brk_base img <? seg_hi ph then img <| im_brk_base := seg_hi ph |> else img.

Definition covered (hs : list elf64_phdr_t) (a : Z) : Prop := ∃ ph, ph ∈ hs ∧ seg_lo ph ≤ a < seg_hi ph.

Lemma load_phdr_result own v r image img off ph :
  vm_inv v own → limit_ok v → is_root own r → 0 ≤ off → off + PHDR_SIZE ≤ Z.of_nat (length image) < 2 ^ 63 →
  phdr_of image off = Some ph → (p_type ph = PT_LOAD → segment_fits image ph) →
  ∃ res v' own', load_phdr r image img off v = (res, v') ∧ grows own v own' v'
    ∧ pages_kept own v v' r (covered (loadable [ph]))
    ∧ ((res = inr (foldl add_header img (loadable [ph])) ∧ Forall (segment_in v v' r image) (loadable [ph])) ∨ no_page res).
Proof.
  intros Hinv Hl Hr Ho Hlen Hph Hfit. destruct (header_type image off ph Ho Hlen Hph) as [Ht Ety].
  unfold load_phdr, mbind, K_bind at 1. rewrite Ht. cbn [from_file mret K_ret]. rewrite Ety.
  unfold loadable. destruct (p_type ph =? PT_LOAD) eqn:E; bool_hyps; cbn [negb].
  2: { rewrite filter_cons_False, filter_nil by done. eexists _, v, own.
       split_and!; [done|by apply grows_refl|done|]. left. split; [done|constructor]. }
  rewrite filter_cons_True, filter_nil by done. destruct (Hfit E) as (Hin & Hok & _).
  destruct (seg_align ph Hok) as (_ & E2 & _). unfold K_bind at 1. rewrite Hph. cbn [from_file mret K_ret].
  rewrite (proj2 (Z.leb_gt _ _)) by (destruct Hok; unfold ARCH_KERNEL_VIRT_BASE; change (2 ^ 47) with 140737488355328 in *; lia).
  destruct (loader_map_segment_result own v r image ph img) as (res & v' & own' & E1 & G & K & Hc); [done..|].
  unfold K_bind. rewrite E1.
  assert (pages_kept own v v' r (covered [ph])) as K'.
  { intros r' a Hr' Ha Hn. apply K; [done|done|]. destruct Hn as [?|Hn]; [by left|right]. intros Hx. apply Hn.
    exists ph. split; [by left|done]. }
  destruct Hc as [(-> & Hfs)|[-> | ->]].
  - eexists _, v', own'. split_and!; [reflexivity|done|done|]. left. cbn zeta. rewrite E2. split; [done|].
    constructor; [exact Hfs|constructor].
  - eexists _, v', own'. split_and!; [reflexivity|done|done|]. right. by left.
  - eexists _, v', own'. split_and!; [reflexivity|done|done|]. right. by right.
Qed.

Lemma loadable_cons ph hs : loadable (ph :: hs) = loadable [ph] ++ loadable hs.
Proof. unfold loadable. by rewrite <- filter_app. Qed.

Lemma headers_tail image off ph hs : headers_at image off (ph :: hs) → headers_at image (off + PHDR_SIZE) hs.
Proof.
  intros (Ho & Hl & Hh). cbn [length] in Hl. unfold headers_at, PHDR_SIZE in *. split; [lia|]. split; [lia|]. intros i q Hq.
  rewrite <- (Hh (S i) q Hq). f_equal. lia.
Qed.

Lemma covered_app l1 l2 a : covered l1 a ∨ covered l2 a → covered (l1 ++ l2) a.
Proof. intros [(ph & Hin & H)|(ph & Hin & H)]; exists ph; (split; [apply elem_of_app; auto|done]). Qed.

(** What is covered by segments apart from [ph] is not in [ph]. *)
Lemma apart_not_covered ph hs a :
  Forall (apart ph) hs → seg_lo ph ≤ a < seg_hi ph → ¬ covered hs a.
Proof.
  intros Hf Ha (q & Hin & Hq). pose proof (proj1 (Forall_forall _ _) Hf q Hin) as [?|?]; lia.
Qed.

Lemma load_phdrs_result image r hs : ∀ own v img off,
  vm_inv v own → limit_ok v → is_root own r → headers_at image off hs →
  Forall (segment_fits image) (loadable hs) → all_apart (loadable hs) →
  ∃ res v' own', load_phdrs (length hs) r image img off v = (res, v') ∧ grows own v own' v'
    ∧ pages_kept own v v' r (covered (loadable hs))
    ∧ ((res = inr (foldl add_header img (loadable hs)) ∧ Forall (segment_in v v' r image) (loadable hs)) ∨ no_page res).
Proof.
  induction hs as [|ph hs IH]; intros own v img off Hinv Hl Hr Hh Hfit Hap.
  { eexists _, v, own. split_and!; [done|by apply grows_refl|done|]. left. split; [done|constructor]. }
  pose proof Hh as (Ho & Hlen & Hph). specialize (Hph 0%nat ph eq_refl). rewrite Z.mul_0_r, Z.add_0_r in Hph.
  cbn [length] in Hlen |- *. cbn [load_phdrs]. unfold mbind, K_bind at 1. rewrite loadable_cons in Hfit, Hap |- *.
  apply Forall_app in Hfit as [Hfit1 Hfit].
  destruct (load_phdr_result own v r image img off ph) as (res & v1 & own1 & -> & G1 & K1 & Hc); [done..|unfold PHDR_SIZE in *; lia|done| |].
  { intros Ety. unfold loadable in Hfit1. rewrite filter_cons_True in Hfit1 by done. by inversion Hfit1. }
  destruct Hc as [(-> & S1)|Hno].
  2: { exists res, v1, own1. destruct Hno as [-> | ->]; (split_and!; [done|done| |]).
       all: try (intros r' a Hr' Ha Hn; apply K1; [done|done|]; destruct Hn as [?|Hn]; [by left|right];
         intros Hx; apply Hn, covered_app; by left). all: unfold no_page; auto. }
  pose proof G1 as [(_ & I1 & L1 & _ & U1) _]. pose proof (grows_root _ _ _ _ _ G1 Hr) as Hr1.
  destruct (IH own1 v1 (foldl add_header img (loadable [ph])) (off + PHDR_SIZE))
    as (res & v2 & own2 & E2 & G2 & K2 & Hc); [done..|by eapply headers_tail|done| |].
  { unfold loadable in Hap |- *. rewrite filter_cons, filter_nil in Hap. case_decide; [apply Hap|done]. }
  exists res, v2, own2. split_and!; [done|by eapply grows_trans| |].
  { eapply pages_kept_trans; [exact G1|exact K1|exact K2|]. intros a. apply covered_app. }
  destruct Hc as [(-> & S2)|Hno]; [left|by right]. split; [by rewrite foldl_app|]. apply Forall_app. split.
  - unfold loadable in *. rewrite filter_cons, filter_nil in *. case_decide as Ety; [|constructor].
    apply Forall_cons in S1 as [S1 _]. apply Forall_cons in Hfit1 as [Hfit1 _]. apply Forall_singleton. destruct Hap as [Hap _].
    eapply segment_in_kept; [exact S1|apply Hfit1|exact G2|exact K2|done|]. intros a Ha. by apply (apart_not_covered ph).
  - eapply Forall_impl; [exact S2|]. intros q Hq. eapply segment_in_weaken; [exact Hq|]. intros g Hg. by apply U1.
Qed.

(** ** The whole file *)
Lemma create_step own v :
  vm_inv v own → limit_ok v → is_root own (current_pml4_phys (paging v)) →
  ∃ r v' own', create_pml4 v = (inr r, v') ∧ grows own v own' v'
    ∧ (∀ r' a, is_root own r' → same_page (paging v) (paging v') r' a)
    ∧ (r ≠ 0 → is_root own' r ∧ ¬ is_root own r ∧ ∀ va, user_page va → translate (paging v') r va = 0).
Proof.
  intros Hinv Hl Hc. unfold create_pml4. pose proof (create_result (paging v) own (vi_pt _ _ Hinv) Hc) as H.
  destruct (paging_create_user_pml4 (paging v)) as [r p]. destruct H as (own' & (A1 & A2 & A3 & A4 & A5 & A6) & Hr).
  exists r, (v <| paging := p |>), own'. split; [done|]. split; [|split; [done|]].
  - split; [split_and!; try done|].
    + split; [done|apply Hinv|]. intros g q Hg. destruct (vi_ref _ _ Hinv g q Hg) as (? & ? & Hno & Hug).
      do 2 (split; [done|]). split; [by rewrite A5|by apply A3].
    + eapply limit_geometry; [right; apply Hinv|apply A3|apply A3|done].
    + intros g Hug. split; [by apply A3|by apply A5].
    + intros g Hug. unfold frame. cbn. by destruct (proj2 (proj2 A3) g Hug) as [_ ->].
  - intros H0. destruct (Hr H0) as (R1 & R2 & _ & R3). split_and!; [done| |done]. intros [Hro _]. congruence.
Qed.

(** The image of the file before its stack. *)
Definition loaded_image (image : list Z) (hs : list elf64_phdr_t) (pml4 : Z) : loader_image_t :=
  (foldl add_header no_image (loadable hs))
    <| im_pml4 := pml4 |> <| im_entry := e_entry (ehdr_of image) |>
    <| im_abi := if e_osabi (ehdr_of image) =? ELFOSABI_LINUX then Task.TASK_ABI_LINUX else Task.TASK_ABI_NATIVE |>.

(** The address space [pml4] of [v'] has the program and nothing else, and
    those that [v] has are as before. *)
Record program_in (own : gmap Z node) (v v' : vm_state) (image : list Z) (hs : list elf64_phdr_t) (pml4 : Z) (fs : list Z)
    : Prop := {
  pi_segments : Forall (segment_in v v' pml4 image) (loadable hs);
  pi_stack : pages_are v v' pml4 STACK_BOTTOM STACK_FLAGS (λ _, zero_page) fs;
  pi_rest : ∀ a, user_page a → ¬ covered (loadable hs) a → ¬ (STACK_BOTTOM ≤ a < USER_STACK_TOP) →
    translate (paging v') pml4 a = 0;
  pi_others : ∀ r a, is_root own r → user_page a → same_page (paging v) (paging v') r a
}.

(** The steps behind the check of the file. *)
Lemma load_body_result own v image hs :
  vm_inv v own → limit_ok v → is_root own (current_pml4_phys (paging v)) → elf_ok image hs →
  ∃ res v', loader_load_elf image v = (res, v')
    ∧ ((∃ own' pml4 fs, res = inr (with_stack fs (loaded_image image hs pml4)) ∧ grows own v own' v'
        ∧ is_root own' pml4 ∧ ¬ is_root own pml4 ∧ stack_ok (with_stack fs (loaded_image image hs pml4)) v'
        ∧ program_in own v v' image hs pml4 fs)
       ∨ no_page res).
Proof.
  intros Hinv Hl Hc [Hsz Hval Htab Hent Hcnt Hh Hfit Hap]. unfold loader_load_elf. cbn zeta.
  rewrite (proj2 (Z.ltb_ge _ EHDR_SIZE)), Hval by done. cbn [negb].
  rewrite u64_small by (destruct Hh as (? & ? & _); change (2 ^ 63) with 9223372036854775808 in *; lia).
  rewrite (proj2 (Z.ltb_ge _ _)) by done. unfold mbind, K_bind at 1.
  destruct (create_step own v Hinv Hl Hc) as (r & v1 & own1 & -> & G1 & S1 & Hr).
  destruct (r =? 0) eqn:E0; bool_hyps; [by eexists _, _; split; [reflexivity|right; left]|].
  destruct (Hr E0) as (R1 & R2 & R3). pose proof G1 as [(_ & I1 & L1 & _ & U1) _]. rewrite <- Hcnt.
  destruct (load_phdrs_result image r hs own1 v1 no_image (e_phoff (ehdr_of image)))
    as (res & v2 & own2 & E2 & G2 & K2 & Hc2); [done..|]. unfold K_bind at 1. rewrite E2.
  destruct Hc2 as [(-> & Sg)|[-> | ->]];
    [|by eexists _, _; split; [reflexivity|right; left]|by eexists _, _; split; [reflexivity|right; right]].
  pose proof G2 as [(_ & I2 & L2 & _ & U2) _]. pose proof (grows_root _ _ _ _ _ G2 R1) as Rr2.
  fold (loaded_image image hs r).
  destruct (loader_map_stack_result own2 v2 r (loaded_image image hs r)) as (res & v3 & -> & Hc3); [done..|].
  destruct Hc3 as [(own3 & fs & -> & G3 & K3 & Hst & Hfs)|[-> | ->]];
    [|by eexists _, _; split; [reflexivity|right; left]|by eexists _, _; split; [reflexivity|right; right]].
  eexists _, v3. split; [reflexivity|]. left. exists own3, r, fs.
  pose proof (grows_trans _ _ _ _ _ _ G1 G2) as G12. split_and!; [done|by eapply grows_trans|by eapply grows_root|done|done|].
  assert (∀ r', is_root own r' → r' ≠ r) as Hne by (intros r' Hr' ->; done).
  split.
  - apply Forall_forall. intros ph Hin. pose proof (proj1 (Forall_forall _ _) Sg ph Hin) as Hs.
    destruct (proj1 (Forall_forall _ _) Hfit ph Hin) as (_ & Hok & Hoff).
    eapply segment_in_weaken; [eapply segment_in_kept; [exact Hs|exact Hok|exact G3|exact K3|done|cbn beta; lia]|].
    intros g Hg. by apply U1.
  - eapply pages_are_weaken; [exact Hfs|]. intros g Hg. by apply U2, U1.
  - intros a Ha Hcov Hsa. rewrite (proj1 (K3 r a Rr2 Ha ltac:(by right))).
    rewrite (proj1 (K2 r a R1 Ha ltac:(by right))). by apply R3.
  - intros r' a Hr' Ha. pose proof (Hne r' Hr') as Hn. pose proof (grows_root _ _ _ _ _ G1 Hr') as Hr1.
    eapply same_page_trans; [by apply S1|]. eapply same_page_trans; [apply K2; auto|]. apply K3; auto. by eapply grows_root.
Qed.


End LoaderElf.
