(* ===== verification/Exec.v ===== *)
(** * Starting programs (loader_execve_ex in kernel/common/loader.c, and
    kernel/unix/exec/unix_exec.c)

    [exec] replaces the program of the calling process, [spawn] starts one in
    a new process.  The memory of the process is [Vm.vm_state] with the fields
    [Vm.vm_task] of its task; [us_mem] is the memory of the address space that
    is in use at the call.

    A [kmalloc] of a nonzero size returns a block or stops the kernel, so the
    branches for a null result are left out except for those of the task. *)

From stdpp Require Import base gmap list numbers fin_maps.
From S2P Require Import Prelude Bytes Paging Vm VmMap Sched Waitq Task PathSpec Vfs VfsFile UnixPath UnixPipe.
From S2P Require Import UnixFd UnixIo UnixProc Loader.

Module Exec.
Import Sched Waitq Task PathSpec Vfs VfsFile UnixPath UnixPipe UnixFd UnixIo UnixProc UnixFork.
Import Loader.

#[local] Existing Instance Vm.task_eta.
#[local] Existing Instance Vm.vm_eta.

Definition UNIX_ARG_MAX : Z := 16.
Definition UNIX_ENV_MAX : Z := 32.
Definition BUSYBOX : list Z := [47; 98; 105; 110; 47; 98; 117; 115; 121; 98; 111; 120].

(** What [usermode_enter] is called with. *)
Record user_entry := mk_entry {
  ue_entry : Z;
  ue_stack : Z;
  ue_rsp0 : Z;
  ue_args : Z * Z * Z
}.

Section Exec.
Context {D : Type} (ops : vfs_ops D) (net : net_ops D).

(** A call that returns, one that enters the program, one whose thread ends,
    and one that leaves the defined behaviour. *)
Inductive exec_res :=
| ExRet (rc : Z) (u : unix_state D) (v : Vm.vm_state) (t : Vm.vm_task)
| ExEnter (e : user_entry) (u : unix_state D) (v : Vm.vm_state) (t : Vm.vm_task)
| ExExit (u : unix_state D) (v : Vm.vm_state) (t : Vm.vm_task)
| ExUndef.

(** ** Reading the file *)

(** [buf] is the block of [size_hint] bytes, of which [len] are read.  Every
    round reads at least one. *)
Fixpoint read_file_loop (fuel : nat) (s : vfs_state) (dev : D) (file : vfs_file_t) (size_hint len : Z) (buf : list Z)
    : option (list Z * vfs_file_t * D) :=
  match fuel with
  | O => Some (take (Z.to_nat len) buf, file, dev)
  | S fuel =>
      let chunk := Z.min (size_hint - len) 1024 in
      if chunk =? 0 then Some (take (Z.to_nat len) buf, file, dev)
      else
        match vfs_read ops s dev file chunk true with
        | None => None
        | Some (r, out, file, dev) =>
            if r <=? 0 then Some (take (Z.to_nat len) buf, file, dev)
            else read_file_loop fuel s dev file size_hint (len + r) (bput len out buf)
        end
  end.

(** The file is opened for reading, so no node is made and no block for data is
    asked for.  [heap n] is what the block of [n] bytes holds that [kmalloc] returns. *)
Definition loader_read_file (u : unix_state D) (path : list Z) (heap : Z → list Z) : option (Z * list Z * unix_state D) :=
  match vfs_open ops (us_vfs u) (us_dev u) (mk_node_blocks 0 false) path VFS_OPEN_READ no_file (λ _, None) with
  | None => None
  | Some (rc, file, s, dev) =>
      let u := u <| us_vfs := s |> <| us_dev := dev |> in
      if negb (rc =? 0) then Some (RDNX_E_NOTFOUND, [], u)
      else
        let size := if negb (f_node file =? 0) then i_size (n_inode (vnode s (f_node file))) else 0 in
        let size_hint := if size =? 0 then 4096 else size in
        match read_file_loop (Z.to_nat size_hint) s dev file size_hint 0 (heap size_hint) with
        | None => None
        | Some (image, file, dev) =>
            let '(_, _, s) := vfs_close s file in
            Some (RDNX_OK, image, u <| us_vfs := s |> <| us_dev := dev |>)
        end
  end.

(** ** The new program takes the place of the old one *)
Definition map_fixed (v : Vm.vm_state) (t : Vm.vm_task) (start len prot flags : Z) : Vm.vm_state * Vm.vm_task :=
  let '(_, t, v) := VmMap.vm_task_map_fixed v t start len prot flags in (v, t).

Definition map_segments (img : loader_image_t) (v : Vm.vm_state) (t : Vm.vm_task) : Vm.vm_state * Vm.vm_task :=
  foldl (λ '(v, t) s, map_fixed v t (sg_start s) (sg_end s -₆₄ sg_start s) (sg_prot s) Vm.VM_MAP_F_PRIVATE)
    (v, t) (im_segs img).

(** The part for a thread that has a task. *)
Definition commit_task (img : loader_image_t) (task : Z) (u : unix_state D) (v : Vm.vm_state) (t : Vm.vm_task)
    : unix_state D * Vm.vm_state * Vm.vm_task :=
  let u := u <| us_sched ::= λ s, task_set_abi (tsk_upd task (λ x, x <| Sched.address_space := im_pml4 img |>) s)
                                    task (im_abi img) |> in
  let t := t <| Vm.address_space := im_pml4 img |> in
  let '(rc, t, v) := VmMap.vm_task_prepare_exec v t (im_pml4 img) in
  if rc =? RDNX_OK then
    let '(v, t) := map_segments img v t in
    let '(v, t) := map_fixed v t (im_stack_bottom img) (LOADER_USER_STACK_PAGES * USER_PAGE_SIZE)
                     (Z.lor Vm.VM_PROT_READ Vm.VM_PROT_WRITE) (Z.lor Vm.VM_MAP_F_STACK Vm.VM_MAP_F_PRIVATE) in
    let t := (VmMap.vm_task_set_brk_base t (im_brk_base img)).2 in
    (u <| us_maps ::= set_map task (Vm.t_map t) |>, v, t)
  else (u, v, t).

(** From [usermode_set_pml4] on; the address space is switched when the
    program is entered. *)
Definition commit (img : loader_image_t) (rsp0 argc argv_ptr envp_ptr : Z) (u : unix_state D) (v : Vm.vm_state)
    (t : Vm.vm_task) : exec_res :=
  let task := task_of (thr (us_sched u) (current_thread (us_sched u))) in
  let '(u, v, t) := if negb (task =? 0) then commit_task img task u v t else (u, v, t) in
  let v := v <| Vm.paging ::= λ p, Paging.paging_switch_pml4 p (im_pml4 img) |> in
  ExEnter (mk_entry (im_entry img) (im_user_stack img) rsp0 (Z.max 0 argc, argv_ptr, envp_ptr)) u v t.

(** The top of the kernel stack of the current thread, 0 without one. *)
Definition kernel_stack_top (s : sched_state) : Z :=
  let cur := current_thread s in
  if negb (cur =? 0) && negb (stack (thr s cur) =? 0)
  then stack (thr s cur) +₆₄ stack_size (thr s cur) -₆₄ 16 else 0.

(** [argv] as for [loader_prepare_user_args]. *)
Definition loader_execve_ex (u : unix_state D) (v : Vm.vm_state) (t : Vm.vm_task) (path : list Z) (argc : Z)
    (argv : option (list (option (list Z)))) (envp : list (list Z))
    (pre_commit : option (unix_state D → Z * unix_state D)) (heap : Z → list Z) : exec_res :=
  match loader_read_file u path heap with
  | None => ExUndef
  | Some (rc, image, u) =>
      if negb (rc =? RDNX_OK) then ExRet rc u v t
      else
        match loader_load_elf image v with
        | (inl None, _) => ExUndef
        | (inl (Some rc), v) => ExRet rc u v t
        | (inr img, v) =>
            let img := if bool_decide (take 12 path = BUSYBOX) then img <| im_abi := TASK_ABI_LINUX |> else img in
            let rsp0 := kernel_stack_top (us_sched u) in
            if rsp0 =? 0 then ExRet RDNX_E_INVALID u v t
            else
              match loader_prepare_user_args img argc argv envp v with
              | (inl None, _) => ExUndef
              | (inl (Some rc), v) => ExRet rc u v t
              | (inr (img, argv_ptr, envp_ptr), v) =>
                  let '(rc, u) := match pre_commit with Some f => f u | None => (RDNX_OK, u) end in
                  if negb (rc =? RDNX_OK) then ExRet rc u v t
                  else commit img rsp0 argc argv_ptr envp_ptr u v t
              end
        end
  end.

Definition loader_execve (u : unix_state D) (v : Vm.vm_state) (t : Vm.vm_task) (path : list Z) (argc : Z)
    (argv : option (list (option (list Z)))) (envp : list (list Z)) (heap : Z → list Z) : exec_res :=
  loader_execve_ex u v t path argc argv envp None heap.

Definition loader_exec (u : unix_state D) (v : Vm.vm_state) (t : Vm.vm_task) (path : list Z) (heap : Z → list Z) : exec_res :=
  loader_execve u v t path 0 None [] heap.

(** ** unix_exec.c *)
Definition unix_exec_apply_cloexec (task : Z) (u : unix_state D) : Z * unix_state D :=
  if task =? 0 then (RDNX_E_INVALID, u) else (RDNX_OK, unix_apply_cloexec net u task).

(** Elements [i] to [i + n - 1] of the array at [vec], up to the null pointer. *)
Fixpoint copy_strv_loop (n : nat) (m : umem) (vec i : Z) : option (list (list Z)) :=
  match n with
  | O => Some []
  | S n =>
      let slot := vec +₆₄ i * 8 in
      if negb (unix_user_range_ok slot 8) then None
      else
        let uptr := uword m slot 8 in
        if uptr =? 0 then Some []
        else
          let '(rc, str) := unix_copy_user_cstr m UNIX_PATH_MAX uptr in
          if negb (rc =? RDNX_OK) then None
          else cons (c_str str) <$> copy_strv_loop n m vec (i + 1)
  end.

(** The strings before the null pointer of [local_vec]; [fallback] is the path
    that is used when there is none. *)
Definition unix_copy_user_strv (m : umem) (vec max_count : Z) (fallback : option (list Z)) : Z * list (list Z) :=
  let none := match fallback with Some p => [p] | None => [] end in
  if max_count <=? 0 then (RDNX_E_INVALID, [])
  else if (vec =? 0) || negb (unix_user_range_ok vec 8) then (RDNX_OK, none)
  else
    match copy_strv_loop (Z.to_nat max_count) m vec 0 with
    | None => (RDNX_E_INVALID, [])
    | Some [] => (RDNX_OK, none)
    | Some l => (RDNX_OK, l)
    end.

Definition unix_fs_exec (u : unix_state D) (v : Vm.vm_state) (t : Vm.vm_task) (path_ptr argv_ptr envp_ptr : Z)
    (heap : Z → list Z) : exec_res :=
  match user_path u path_ptr with
  | None => ExUndef
  | Some (rc, path) =>
      if negb (rc =? RDNX_OK) then ExRet (u64 RDNX_E_INVALID) u v t
      else
        let '(rc, argv) := unix_copy_user_strv (us_mem u) argv_ptr UNIX_ARG_MAX (Some path) in
        if negb (rc =? RDNX_OK) then ExRet (u64 rc) u v t
        else
          let '(rc, envp) := unix_copy_user_strv (us_mem u) envp_ptr UNIX_ENV_MAX None in
          if negb (rc =? RDNX_OK) then ExRet (u64 rc) u v t
          else
            match loader_execve_ex u v t path (Z.of_nat (length argv)) (Some (Some <$> argv)) envp
                    (Some (unix_exec_apply_cloexec (utask u))) heap with
            | ExRet rc u v t => ExRet (u64 rc) u v t
            | r => r
            end
  end.

(** *** spawn *)

(** [unix_spawn_args_t], with the [argc] strings of [argv]. *)
Record unix_spawn_args_t := mk_spawn_args {
  sa_path : list Z;
  sa_argv : list (list Z)
}.

(** [scheduler_exit_current] in the thread of the program. *)
Definition exit_thread (u : unix_state D) : unix_state D :=
  if current_thread (us_sched u) =? 0 then u else u <| us_sched ::= scheduler_exit_mark |>.

(** The end of the thread when no program was entered. *)
Definition spawn_failed (rc : Z) (u : unix_state D) : unix_state D :=
  let task := utask u in
  let u := if task =? 0 then u
           else (unix_proc_close_fds net task u)
                  <| us_sched ::= tsk_upd task (mark_exited (if rc =? RDNX_OK then 0 else 127)) |> in
  exit_thread u.

Definition unix_spawn_thread (u : unix_state D) (v : Vm.vm_state) (t : Vm.vm_task) (sa : unix_spawn_args_t)
    (heap : Z → list Z) : exec_res :=
  let path := take 255 (sa_path sa) in
  let argv := take (Z.to_nat UNIX_ARG_MAX) (sa_argv sa) in
  if bool_decide (path = []) then ExExit (exit_thread u) v t
  else
    match loader_execve_ex u v t path (Z.of_nat (length argv)) (Some (Some <$> argv)) []
            (Some (unix_exec_apply_cloexec (utask u))) heap with
    | ExRet rc u v t => ExExit (spawn_failed rc u) v t
    | r => r
    end.

(** [while (len > 1 && path_buf[len - 1] == '/')] from the end. *)
Fixpoint strip_slashes (n : nat) (p : list Z) : list Z :=
  match n with
  | O => p
  | S n => if (1 <? Z.of_nat (length p)) && bool_decide (last p = Some SLASH) then strip_slashes n (removelast p) else p
  end.

(** The loop over the arguments: [None] when one of them is not readable. *)
Fixpoint spawn_argv_loop (n : nat) (m : umem) (vec argc : Z) : option (list (list Z)) :=
  match n with
  | O => Some []
  | S n =>
      let slot := vec +₆₄ argc * 8 in
      if negb (unix_user_range_ok slot 8) then None
      else
        let uptr := uword m slot 8 in
        if uptr =? 0 then Some []
        else if negb (unix_user_range_ok uptr 1) then None
        else
          let '(rc, tmp) := unix_copy_user_cstr m UNIX_PATH_MAX uptr in
          if negb (rc =? RDNX_OK) then None
          else cons (c_str tmp) <$> spawn_argv_loop n m vec (argc + 1)
  end.

(** The path is the only argument when there are none or one is not readable. *)
Definition spawn_argv (m : umem) (vec : Z) (path : list Z) : list (list Z) :=
  if (vec =? 0) || negb (unix_user_range_ok vec 8) then [path]
  else
    match spawn_argv_loop (Z.to_nat UNIX_ARG_MAX) m vec 0 with
    | None | Some [] => [path]
    | Some l => l
    end.

(** What [kmalloc] returned for the task, the copies of open files and the
    thread, for the console, and the block of the arguments. *)
Record spawn_blocks := mk_spawn_blocks {
  sb_fork : fork_blocks;
  sb_console : Z → Z;
  sb_node : Z → node_blocks;
  sb_data : Z → data_block;
  sb_args : Z
}.

(** The addresses of [unix_spawn_thread] and of [thread_trampoline] and the
    code segment of the caller. *)
Record spawn_code := mk_spawn_code {
  sc_entry : Z;
  sc_trampoline : Z;
  sc_cs : Z
}.

(** The fields of the child that come from its parent. *)
Definition spawn_child (parent child : Z) (s : sched_state) : sched_state :=
  let x := tsk s parent in
  let s := tsk_upd child (λ c, c <| task_state := TASK_STATE_READY |> <| parent_task_id := task_id x |>) s in
  let s := task_set_ids s child (uid x) (gid x) (euid x) (egid x) in
  tsk_upd child (λ c, c <| cwd := copy_cwd (cwd x) |>) s.

(** Whether the descriptors 0, 1 and 2 are open. *)
Definition stdio_slots (u : unix_state D) (task : Z) : list bool :=
  (λ fd, negb (fd_handle u task fd =? 0)) <$> [0; 1; 2].

(** The descriptors of the child: [None] when a loop below does not end. *)
Definition spawn_fds (u : unix_state D) (parent child : Z) (b : spawn_blocks) : option (bool * unix_state D) :=
  let '(rc, u) := unix_clone_fds_for_spawn net u parent child (fb_file (sb_fork b)) in
  if negb (rc =? RDNX_OK) then Some (false, u)
  else
    match (if existsb id (stdio_slots u child) then Some (RDNX_OK, u)
           else unix_bind_stdio_to_console ops net u child (sb_console b) (sb_node b) (sb_data b)) with
    | None => None
    | Some (_, u) => Some (forallb id (stdio_slots u child), u)
    end.

(** The result, the state and what the new thread is called with.  A task that
    is given up has no map, so [vm_task_destroy] does nothing. *)
Definition unix_proc_spawn (u : unix_state D) (path_ptr argv_ptr : Z) (b : spawn_blocks) (c : spawn_code) (fuel : nat)
    : option (Z * unix_state D * option unix_spawn_args_t) :=
  let parent := utask u in
  let child := fb_task (sb_fork b) in
  if parent =? 0 then Some (u64 RDNX_E_INVALID, u, None)
  else
    match user_path u path_ptr with
    | None => None
    | Some (rc, path) =>
        if negb (rc =? RDNX_OK) || bool_decide (path = []) then Some (u64 RDNX_E_INVALID, u, None)
        else
          let path := strip_slashes (length path) path in
          if child =? 0 then Some (u64 RDNX_E_NOMEM, u, None)
          else
            let u := u <| us_sched ::= λ s, spawn_child parent child
                             (task_create s child (fb_cwd (sb_fork b)) (fb_group (sb_fork b))) |> in
            match spawn_fds u parent child b with
            | None => None
            | Some (false, u) => Some (u64 RDNX_E_GENERIC, destroy_task net child u, None)
            | Some (true, u) =>
                let sa := mk_spawn_args path (spawn_argv (us_mem u) argv_ptr path) in
                match thread_create (us_sched u) (fb_thread (sb_fork b)) child (sc_entry c) (sb_args b)
                        (sc_trampoline c) (sc_cs c) fuel with
                | None => None
                | Some (th, s) =>
                    let u := u <| us_sched := s |> in
                    if th =? 0 then Some (u64 RDNX_E_NOMEM, destroy_task net child u, None)
                    else
                      let s := thr_upd th (λ y, y <| priority := 200 |>) s in
                      let s := (scheduler_add_thread s th).2 in
                      Some (task_id (tsk s child), u <| us_sched := s |>, Some sa)
                end
            end
    end.

End Exec.

Arguments ExRet {D}. Arguments ExEnter {D}. Arguments ExExit {D}. Arguments ExUndef {D}.

End Exec.
