(* ===== verification/ExecProofs.v ===== *)
(** * exec takes effect entirely or not at all

    Everything that can fail comes before the first change of the process: an
    [exec] that returns has an error code and leaves the process as it was; one
    that enters the program has closed the marked descriptors, kept the others
    and taken the new address space. *)

From stdpp Require Import base gmap list numbers fin_maps.
From S2P Require Import Prelude Bytes Pmm Paging Vm VmMap Sched Waitq Task PathSpec Vfs VfsFile VfsOps.
From S2P Require Import VfsNames VfsSteps UnixPath UnixPipe UnixFd UnixIo UnixRes UnixFdInv UnixCalls.
From S2P Require Import UnixProc UnixProcInv Loader Exec.

Module ExecProofs.
Import Sched Waitq Task PathSpec Vfs VfsFile VfsInv VfsOps VfsNames VfsData VfsSteps.
Import UnixPath UnixPipe UnixFd UnixIo UnixRes UnixSlots UnixFdInv UnixClone UnixCalls UnixProc UnixFork.
Import UnixProcInv Loader Exec.

#[local] Existing Instance Vm.task_eta.
#[local] Existing Instance Vm.vm_eta.

(** ** Error codes *)
Definition error_code (rc : Z) : Prop := -100 ≤ rc < 0.

Lemma error_u64 rc : error_code rc → u64 rc ≠ 0.
Proof.
  unfold error_code, u64. intros H. rewrite <- (Z.mod_add rc 1) by done. rewrite Z.mod_small by lia. lia.
Qed.

Definition errs {A} (m : K A) : Prop := ∀ v rc v', m v = (inl (Some rc), v') → error_code rc.

Create HintDb errs.

Lemma errs_ret {A} (a : A) : errs (mret a).
Proof. by intros v rc v'. Qed.
Lemma errs_fail {A} rc : error_code rc → errs (A := A) (fail rc).
Proof. intros H v rc' v' [= <- _]. done. Qed.
Lemma errs_file {A} (o : option A) : errs (from_file o).
Proof. destruct o; by intros v rc v'. Qed.
Lemma errs_bind {A B} (m : K A) (k : A → K B) : errs m → (∀ a, errs (k a)) → errs (m ≫= k).
Proof.
  intros Hm Hk v rc v'. unfold mbind, K_bind. destruct (m v) as [[e|a] v1] eqn:E.
  - intros [= -> ->]. by eapply Hm.
  - apply Hk.
Qed.
Lemma errs_pure {A} (m : K A) : (∀ v, ∃ a v', m v = (inr a, v')) → errs m.
Proof. intros H v rc v' E. destruct (H v) as (a & v1 & E1). congruence. Qed.

Lemma errs_alloc : errs alloc_page.
Proof. apply errs_pure. intros v. unfold alloc_page. destruct (Pmm.pmm_alloc_page_in_zone _ _). eauto. Qed.
Lemma errs_map r va f fl : errs (map_page r va f fl).
Proof. apply errs_pure. intros v. unfold map_page. destruct (Paging.paging_map_page_4kb_pml4 _ _ _ _ _). eauto. Qed.
Lemma errs_create : errs create_pml4.
Proof. apply errs_pure. intros v. unfold create_pml4. destruct (Paging.paging_create_user_pml4 _). eauto. Qed.
Lemma errs_free f : errs (free_page f).
Proof. apply errs_pure. unfold free_page. eauto. Qed.
Lemma errs_fill f off b : errs (fill_page f off b).
Proof. apply errs_pure. unfold fill_page. eauto. Qed.
Lemma errs_write f off b : errs (write_page f off b).
Proof. apply errs_pure. unfold write_page. eauto. Qed.
Lemma errs_rollback r b l : errs (rollback r b l).
Proof. apply errs_pure. unfold rollback. eauto. Qed.

#[local] Hint Resolve errs_ret errs_file errs_alloc errs_map errs_create errs_free errs_fill errs_write errs_rollback : errs.

(** One step through the body of a function. *)
Ltac errs_step :=
  match goal with
  | |- errs (fail _) => apply errs_fail; by split
  | |- errs (_ ≫= _) => apply errs_bind; [|intros ?]
  | |- errs (if _ then _ else _) => case_match
  | |- errs _ => solve [auto with errs]
  end.
Ltac errs_auto := repeat errs_step.

Lemma errs_load_pages n r image ph va : errs (load_pages n r image ph va).
Proof. revert va. induction n; intros va; cbn [load_pages]; unfold load_page; errs_auto; auto. Qed.
Lemma errs_stack_loop n r b l : errs (map_stack_loop n r b l).
Proof. revert l. induction n; intros l; cbn [map_stack_loop]; errs_auto; auto. Qed.
Lemma errs_write_loop n img cur src : errs (stack_write_loop n img cur src).
Proof. revert cur src. induction n; intros cur src; cbn [stack_write_loop]; errs_auto; auto. Qed.
Lemma errs_stack_write img va src : errs (loader_stack_write img va src).
Proof. unfold loader_stack_write. errs_auto. apply errs_write_loop. Qed.
#[local] Hint Resolve errs_load_pages errs_stack_loop errs_stack_write : errs.
Lemma errs_push_strings img max l sp : errs (push_strings img max l sp).
Proof. induction l; cbn [push_strings]; errs_auto; auto. Qed.
Lemma errs_write_words img va l : errs (write_words img va l).
Proof. revert va. induction l; intros va; cbn [write_words]; errs_auto; auto. Qed.
#[local] Hint Resolve errs_push_strings errs_write_words : errs.

Lemma errs_prepare img argc argv envp : errs (loader_prepare_user_args img argc argv envp).
Proof. unfold loader_prepare_user_args, push_pointers, finish_args. errs_auto. Qed.

Lemma errs_segment r image ph img : errs (loader_map_segment r image ph img).
Proof. unfold loader_map_segment. errs_auto. Qed.
#[local] Hint Resolve errs_segment : errs.

Lemma errs_phdrs n r image img off : errs (load_phdrs n r image img off).
Proof. revert img off. induction n; intros img off; cbn [load_phdrs]; unfold load_phdr; errs_auto; auto. Qed.
#[local] Hint Resolve errs_phdrs : errs.

Lemma errs_load_elf image : errs (loader_load_elf image).
Proof. unfold loader_load_elf, loader_map_stack. errs_auto. Qed.

(** ** Successful runs *)
Lemma bind_inv {A B} (m : K A) (k : A → K B) v b v' :
  (m ≫= k) v = (inr b, v') → ∃ a v1, m v = (inr a, v1) ∧ k a v1 = (inr b, v').
Proof. unfold mbind, K_bind. destruct (m v) as [[e|a] v1]; [done|]. eauto. Qed.

Lemma fail_inv {A} rc v (a : A) v' : fail rc v = (inr a, v') → False.
Proof. done. Qed.

Lemma load_elf_image image v img v' :
  loader_load_elf image v = (inr img, v') → im_pml4 img ≠ 0 ∧ im_entry img = e_entry (ehdr_of image).
Proof.
  unfold loader_load_elf. repeat (case_if; [by intros ?%fail_inv|]).
  intros (pml4 & v1 & _ & H)%bind_inv. destruct (pml4 =? 0) eqn:E0; bool_hyps; [by apply fail_inv in H|].
  apply bind_inv in H as (img1 & v2 & _ & H). apply bind_inv in H as (pages & v3 & _ & H). injection H as <- _. done.
Qed.

Lemma prepare_image img argc argv envp v img' a e v' :
  loader_prepare_user_args img argc argv envp v = (inr (img', a, e), v') →
  im_pml4 img' = im_pml4 img ∧ im_entry img' = im_entry img ∧ im_abi img' = im_abi img.
Proof.
  unfold loader_prepare_user_args. intros H. do 5 (apply bind_inv in H as (? & ? & _ & H)).
  unfold finish_args in H. case_if.
  - case_if; [done|]. apply bind_inv in H as (? & ? & _ & H). by injection H as <- _ _ _.
  - by injection H as <- _ _ _.
Qed.

(** The image of a file that was loaded in [v]. *)
Definition loaded_from (v : Vm.vm_state) (img : loader_image_t) : Prop :=
  ∃ image img0 v1, loader_load_elf image v = (inr img0, v1) ∧ im_pml4 img = im_pml4 img0 ∧ im_pml4 img ≠ 0
    ∧ im_entry img = e_entry (ehdr_of image).

(** ** Maps *)

(** The task runs in the address space [p] and has a map of it. *)
Definition runs_in (p : Z) (t : Vm.vm_task) : Prop :=
  Vm.address_space t = p ∧ ∃ m, Vm.t_map t = Some m ∧ Vm.pml4_phys m = p.

Lemma map_fixed_runs p v t start len prot flags : runs_in p t → runs_in p (map_fixed v t start len prot flags).2.
Proof.
  intros (Ha & m & Hm & Hp). unfold map_fixed, VmMap.vm_task_map_fixed. rewrite Hm.
  destruct (VmMap.vm_map_add _ _ _ _ _ _ _ _) as [[rc m'] v'] eqn:E. split; [done|]. exists m'. split; [done|].
  revert E. unfold VmMap.vm_map_add. repeat case_if; by intros [= <- <- <-].
Qed.

Lemma map_segments_runs p img v t : runs_in p t → runs_in p (map_segments img v t).2.
Proof.
  unfold map_segments. generalize (im_segs img). intros l. revert v t. induction l as [|s l IH]; intros v t Ht; [done|].
  cbn [foldl]. pose proof (map_fixed_runs p v t (sg_start s) (sg_end s -₆₄ sg_start s) (sg_prot s) Vm.VM_MAP_F_PRIVATE Ht) as H.
  destruct (map_fixed _ _ _ _ _ _) as [v1 t1]. by apply IH.
Qed.

Section Exec.
Context {D : Type} (ops : vfs_ops D) (net : net_ops D) {lost : list slot}.
Implicit Types u : unix_state D.

(** ** The file *)

(** Nothing but the file system is touched. *)
Record same_process (u u' : unix_state D) : Prop := {
  sp_sched : us_sched u' = us_sched u;
  sp_files : us_files u' = us_files u;
  sp_pipes : us_pipes u' = us_pipes u;
  sp_maps : us_maps u' = us_maps u;
  sp_mem : us_mem u' = us_mem u;
  sp_arch : us_arch u' = us_arch u;
  sp_saved : us_saved u' = us_saved u;
  sp_futex : us_futex u' = us_futex u
}.

Lemma vfs_read_node s dev f n b r out f' dev' :
  vfs_read ops s dev f n b = Some (r, out, f', dev') → f_node f' = f_node f.
Proof.
  unfold vfs_read. intros H. repeat (case_match; simplify_eq; try done).
Qed.

Lemma read_loop_node n s : ∀ dev f hint len buf image f' dev',
  read_file_loop ops n s dev f hint len buf = Some (image, f', dev') → f_node f' = f_node f.
Proof.
  induction n as [|n IH]; intros dev f hint len buf image f' dev'; cbn [read_file_loop]; [by intros [= _ <- _]|].
  case_if; [by intros [= _ <- _]|]. destruct (vfs_read _ _ _ _ _ _) as [[[[r out] f1] d1]|] eqn:E; [|done].
  apply vfs_read_node in E. case_if; [by intros [= _ <- _]|]. intros H%IH. congruence.
Qed.

Lemma read_file_keeps u path heap rc image u' :
  fd_inv lost u → few (lost := lost) u → loader_read_file ops u path heap = Some (rc, image, u') →
  same_process u u' ∧ fd_inv lost u'.
Proof.
  intros V Hfew. unfold loader_read_file.
  destruct (vfs_open _ _ _ _ _ _ _ _) as [[[[orc f] s] d]|] eqn:Ho; [|done].
  assert (fresh_node (mk_node_blocks 0 false) (us_vfs u)) as Hb by (intros Hn; by destruct Hn).
  assert (block_ok (λ _, None)) as Hd by done. destruct (orc =? 0) eqn:Hrc; cbn [negb].
  2: { intros [= _ _ <-]. split; [done|]. by eapply (open_failed ops). }
  destruct (read_file_loop _ _ _ _ _ _ _ _) as [[[im f'] d']|] eqn:Hr; [|done]. apply read_loop_node in Hr.
  unfold vfs_close. intros [= _ _ <-]. split; [done|]. pose proof V as [T R]. split; [done|]. simpl.
  pose proof (vfs_open_step ops u _ path _ _ orc f s d _ Hb Hd Ho (few_files u Hfew) (ro_vfs _ _ _ _ R)) as H.
  change (orc =? RDNX_OK) with (orc =? 0) in H. rewrite Hrc in H. destruct R. split; try done. rewrite Hr.
  apply (vsys_release s [] f) in H. destruct (f_node f =? 0) eqn:E0; cbn [negb]; [|exact H].
  unfold vfs_node_release in H. by rewrite E0 in H.
Qed.

Lemma read_file_error u path heap rc image u' :
  loader_read_file ops u path heap = Some (rc, image, u') → rc = RDNX_OK ∨ error_code rc.
Proof.
  unfold loader_read_file. destruct (vfs_open _ _ _ _ _ _ _ _) as [[[[orc f] s] d]|]; [|done].
  case_if; [by intros [= <- _ _]; right|]. destruct (read_file_loop _ _ _ _ _ _ _ _) as [[[im f'] d']|]; [|done].
  unfold vfs_close. intros [= <- _ _]. by left.
Qed.

(** ** The process behind the call *)

(** The process [task] of [u] runs the program of [img]. *)
Record entered (u u' : unix_state D) (task : Z) (img : loader_image_t) (v' : Vm.vm_state) (t' : Vm.vm_task) : Prop := {
  en_inv : fd_inv lost u';
  en_fds : ∀ fd, bad_fd fd = false →
    if marked u task fd then fd_handle u' task fd = 0
    else slot_is u' task fd (fd_handle u task fd) (fd_kind_of u task fd) (fd_flags_of u task fd);
  en_others : ∀ t fd, 0 ≤ fd → t ≠ task →
    slot_is u' t fd (fd_handle u t fd) (fd_kind_of u t fd) (fd_flags_of u t fd);
  en_ident : ident (tsk (us_sched u') task) = ident (tsk (us_sched u) task);
  en_space : Sched.address_space (tsk (us_sched u') task) = im_pml4 img;
  en_abi : abi (tsk (us_sched u') task) = u8 (im_abi img);
  en_runs : runs_in (im_pml4 img) t';
  en_cr3 : Paging.current_pml4_phys (Vm.paging v') = im_pml4 img;
  en_map : us_maps u' !! task = Vm.t_map t'
}.

Lemma commit_task_result img task u v t :
  im_pml4 img ≠ 0 →
  ∃ u' v' t' f, commit_task img task u v t = (u', v', t') ∧ runs_in (im_pml4 img) t'
    ∧ u' = u <| us_sched := f (us_sched u) |> <| us_maps := us_maps u' |> ∧ us_maps u' !! task = Vm.t_map t'
    ∧ f = (λ s, task_set_abi (tsk_upd task (λ x, x <| Sched.address_space := im_pml4 img |>) s) task (im_abi img)).
Proof.
  intros H0. unfold commit_task, VmMap.vm_task_prepare_exec. rewrite (proj2 (Z.eqb_neq _ 0)) by done.
  cbn [Z.eqb RDNX_OK]. set (t1 := _ <| Vm.vm_mmap_hint := _ |>). set (v1 := match _ with Some _ => _ | None => _ end).
  assert (runs_in (im_pml4 img) t1) as R1 by (split; [done|by eexists]).
  pose proof (map_segments_runs (im_pml4 img) img v1 t1 R1) as R2. destruct (map_segments img v1 t1) as [v2 t2].
  pose proof (map_fixed_runs (im_pml4 img) v2 t2 (im_stack_bottom img) (LOADER_USER_STACK_PAGES * USER_PAGE_SIZE)
    (Z.lor Vm.VM_PROT_READ Vm.VM_PROT_WRITE) (Z.lor Vm.VM_MAP_F_STACK Vm.VM_MAP_F_PRIVATE) R2) as R3.
  destruct (map_fixed v2 t2 _ _ _ _) as [v3 t3]. destruct R3 as (Ra & m & Rm & Rp).
  eexists _, _, _, _. split; [reflexivity|]. split_and!; [split; [done|by exists m]|reflexivity| |reflexivity].
  cbn in *. rewrite Rm. cbn. apply lookup_insert_eq.
Qed.

Lemma only_cloexec u task : only_slots (us_sched u) (us_sched (unix_apply_cloexec net u task)).
Proof.
  unfold unix_apply_cloexec. case_if; [by split; [destruct (us_sched u)|]|].
  generalize all_fds. intros l. revert u. induction l as [|fd l IH]; intros u; cbn [foldl]; [by split; [destruct (us_sched u)|]|].
  destruct (has_flag _ _); [|apply IH]. destruct (only_release net u task fd) as [A1 B1].
  destruct (IH (unix_fd_release net u task fd)) as [A2 B2]. split; [|unfold ids_same in *; congruence].
  rewrite A2, A1. by destruct (us_sched u).
Qed.

(** The two fields of the task that the new program sets. *)
Definition set_program (img : loader_image_t) (task : Z) (s : sched_state) : sched_state :=
  task_set_abi (tsk_upd task (λ x, x <| Sched.address_space := im_pml4 img |>) s) task (im_abi img).

Lemma set_program_result img task s :
  task ≠ 0 → is_Some (tasks s !! task) →
  fd_same s (set_program img task s) ∧ ident (tsk (set_program img task s) task) = ident (tsk s task)
  ∧ Sched.address_space (tsk (set_program img task s) task) = im_pml4 img
  ∧ abi (tsk (set_program img task s) task) = u8 (im_abi img).
Proof.
  intros H0 [x Hx]. unfold set_program, task_set_abi. rewrite (proj2 (Z.eqb_neq task 0)) by done. split.
  - destruct (same_tsk_upd task (λ x, x <| Sched.address_space := im_pml4 img |>) s) as [C1 T1]; [done|].
    destruct (same_tsk_upd task (λ x, x <| abi := u8 (im_abi img) |>)
      (tsk_upd task (λ x, x <| Sched.address_space := im_pml4 img |>) s)) as [C2 T2]; [done|]. split; congruence.
  - unfold tsk, tsk_upd. cbn. rewrite !lookup_total_alt, !lookup_alter_eq, Hx. done.
Qed.

Lemma commit_result img rsp0 argc a e u v t task :
  fd_inv lost u → is_Some (tasks (us_sched u) !! task) → task ≠ 0 → im_pml4 img ≠ 0 →
  task_of (thr (us_sched u) (current_thread (us_sched u))) = task →
  ∃ e' u' v' t', commit img rsp0 argc a e (unix_apply_cloexec net u task) v t = ExEnter e' u' v' t'
    ∧ ue_entry e' = im_entry img ∧ ue_stack e' = im_user_stack img ∧ ue_args e' = (Z.max 0 argc, a, e)
    ∧ entered u u' task img v' t'.
Proof.
  intros V Hl H0 Hp Ht. destruct (cloexec_inv net u task V Hl) as (V1 & R1 & F1).
  destruct (only_cloexec u task) as [A1 B1]. set (u1 := unix_apply_cloexec net u task) in *. unfold commit.
  assert (task_of (thr (us_sched u1) (current_thread (us_sched u1))) = task) as -> by (rewrite A1; exact Ht).
  rewrite (proj2 (Z.eqb_neq task 0)) by done. cbn [negb].
  destruct (commit_task_result img task u1 v t Hp) as (u' & v' & t' & f & -> & Hrun & Hu & Hm & ->).
  fold (set_program img task) in Hu.
  assert (is_Some (tasks (us_sched u1) !! task)) as Hl1 by (by apply (rs_tasks _ _ _ _ R1)).
  destruct (set_program_result img task (us_sched u1) H0 Hl1) as (Hs & Hi & Ha & Hb).
  assert (us_sched u' = set_program img task (us_sched u1)) as Es by (by rewrite Hu).
  rewrite <- Es in Hs, Hi, Ha, Hb.
  eexists _, _, _, _. split; [reflexivity|]. split_and!; [done..|]. split; try done.
  - apply (same_inv u1); [done|done|by rewrite Hu..].
  - intros fd Hfd. specialize (F1 fd Hfd). destruct (marked u task fd).
    + by rewrite (proj1 (same_slot _ u' task fd Hs)).
    + destruct F1 as (<- & <- & <-). by apply same_slot.
  - intros t0 fd Hfd Hne. destruct (rs_slots _ _ _ _ R1 t0 fd Hfd (or_introl Hne)) as (<- & <- & <-). by apply same_slot.
  - rewrite Hi. by apply ids_lookup.
  - unfold Paging.paging_switch_pml4. cbn. by rewrite (proj2 (Z.eqb_neq (im_pml4 img) 0)).
Qed.

Lemma strv_error m vec n fb rc l :
  unix_copy_user_strv m vec n fb = (rc, l) → negb (rc =? RDNX_OK) = true → error_code rc.
Proof.
  unfold unix_copy_user_strv. intros H Hrc. repeat (case_match; simplify_eq; try done).
Qed.

Lemma same_process_fds u u' task :
  same_process u u' →
  tsk (us_sched u') task = tsk (us_sched u) task
  ∧ ∀ img v t u2, entered u' u2 task img v t → entered u u2 task img v t.
Proof.
  intros S. split; [by rewrite (sp_sched _ _ S)|]. intros img v t u2 [A B C E F G H I J]. destruct S as [Es _ _ _ _ _ _ _].
  unfold marked, fd_handle, fd_kind_of, fd_flags_of in *. rewrite Es in *. by split.
Qed.

(** The part of [exec] behind the copies of the arguments. *)
Lemma execve_result u v t path argc argv envp heap :
  fd_inv lost u → few (lost := lost) u → utask u ≠ 0 → is_Some (tasks (us_sched u) !! utask u) →
  task_of (thr (us_sched u) (current_thread (us_sched u))) = utask u →
  match loader_execve_ex ops u v t path argc argv envp (Some (unix_exec_apply_cloexec net (utask u))) heap with
  | ExRet rc u' _ t' => error_code rc ∧ same_process u u' ∧ fd_inv lost u' ∧ t' = t
  | ExEnter e u' v' t' => ∃ img, loaded_from v img ∧ ue_entry e = im_entry img ∧ ue_stack e = im_user_stack img
                                 ∧ entered u u' (utask u) img v' t'
  | ExExit _ _ _ => False
  | ExUndef => True
  end.
Proof.
  intros V Hfew H0 Hl Ht. unfold loader_execve_ex.
  destruct (loader_read_file ops u path heap) as [[[rc image] u1]|] eqn:Er; [|done].
  destruct (read_file_keeps u path heap rc image u1 V Hfew Er) as [S1 V1].
  destruct (rc =? RDNX_OK) eqn:Erc; cbn [negb]; [|destruct (read_file_error _ _ _ _ _ _ Er) as [->|?]; done].
  destruct (loader_load_elf image v) as [[[rc1|]|img] v1] eqn:El; [by split_and!; [eapply errs_load_elf|..]|done|].
  destruct (load_elf_image _ _ _ _ El) as [Hp He]. set (img1 := if bool_decide _ then _ else _).
  assert (im_pml4 img1 = im_pml4 img ∧ im_entry img1 = im_entry img) as [Hp1 He1] by (unfold img1; by case_match).
  case_if; [done|].
  destruct (loader_prepare_user_args img1 argc argv envp v1) as [[[rc2|]|[[img2 a] e]] v2] eqn:Ep;
    [by split_and!; [eapply errs_prepare|..]|done|].
  destruct (prepare_image _ _ _ _ _ _ _ _ _ Ep) as (P1 & P2 & _). unfold unix_exec_apply_cloexec.
  rewrite (proj2 (Z.eqb_neq _ 0)) by done. cbn [negb Z.eqb RDNX_OK].
  assert (us_sched u1 = us_sched u) as Es by apply S1.
  destruct (commit_result img2 (kernel_stack_top (us_sched u1)) argc a e u1 v2 t (utask u))
    as (e' & u' & v' & t' & -> & E1 & E2 & _ & En); [done|by rewrite Es|done|congruence|by rewrite Es|].
  exists img2. split_and!; [exists image, img, v1; split_and!; congruence|done|done|]. by apply (same_process_fds u u1).
Qed.


End Exec.

End ExecProofs.
