(* ===== verification/ExecDemo.v ===== *)
(** * Programs on a concrete machine

    A program of two pages is loaded on the machine of [VmDemo], and started by
    a process of [UnixDemo].  Four runs show files and arguments that the
    loader does not treat as their author expects. *)

From stdpp Require Import base gmap list numbers fin_maps.
From stdpp Require Import base gmap list numbers fin_maps relations.
From S2P Require Import Prelude Bytes Pmm PmmFacts PmmInit Paging PagingFacts PagingProofs Vm VmMap VmFacts.
From S2P Require Import VmInv VmFault VmFork VmDemo Task Loader LoaderProofs LoaderMap Sched Waitq SchedDemo.
From S2P Require Import PathSpec Vfs VfsFile VfsFacts VfsTree VfsOps VfsSteps VfsDemo UnixPath UnixPipe.
From S2P Require Import UnixFd UnixIo UnixProc UnixFutex UnixRes UnixFdInv UnixCalls UnixProcInv UnixForkSpec.
From S2P Require Import Posix UnixSteps UnixSpec UnixDemo Exec ExecProofs.

Module LoaderDemo.
Import Pmm PmmFacts PmmInit Paging PagingFacts PagingProofs PagingRoot Vm VmInv VmTasks VmFault VmFork VmDemo.
Import Loader LoaderProofs LoaderMap LoaderElf.

(** ** Files *)
Definition elf_header (entry phnum : Z) : list Z :=
  [127; 69; 76; 70; 2; 1; 1; 0] ++ replicate 8 0 ++ le_bytes 2 2 ++ le_bytes 2 62 ++ le_bytes 4 1
  ++ le_bytes 8 entry ++ le_bytes 8 64 ++ le_bytes 8 0 ++ le_bytes 4 0 ++ le_bytes 2 64 ++ le_bytes 2 56
  ++ le_bytes 2 phnum ++ replicate 6 0.

Definition header_bytes (ph : elf64_phdr_t) : list Z :=
  le_bytes 4 (p_type ph) ++ le_bytes 4 (p_flags ph) ++ le_bytes 8 (p_offset ph) ++ le_bytes 8 (p_vaddr ph)
  ++ le_bytes 8 0 ++ le_bytes 8 (p_filesz ph) ++ le_bytes 8 (p_memsz ph) ++ le_bytes 8 4096.

Definition elf_file (entry : Z) (hs : list elf64_phdr_t) (code : list Z) : list Z :=
  elf_header entry (Z.of_nat (length hs)) ++ concat (header_bytes <$> hs) ++ code.

(** Code at 4194480, with zeros up to a second page, and a note. *)
Definition code_header : elf64_phdr_t := mk_phdr PT_LOAD 5 176 4194480 4 5000.
Definition note_header : elf64_phdr_t := mk_phdr 4 4 0 0 0 0.
Definition prog : list Z := elf_file 4194480 [note_header; code_header] [15; 5; 235; 254].

Lemma prog_headers : headers_at prog 64 [note_header; code_header].
Proof.
  split; [done|]. split; [vm_compute; done|]. intros [|[|i]] ph Hi; [..|done]; injection Hi as <-; vm_compute; reflexivity.
Qed.

Lemma code_fits : segment_fits prog code_header.
Proof. split_and!; [vm_compute; done..|by left]. Qed.

Lemma prog_loadable : loadable [note_header; code_header] = [code_header].
Proof. done. Qed.

Lemma prog_ok : elf_ok prog [note_header; code_header].
Proof.
  split; [vm_compute; done|vm_compute; done|vm_compute; done|vm_compute; done|vm_compute; done|..].
  - assert (e_phoff (ehdr_of prog) = 64) as -> by (vm_compute; reflexivity). exact prog_headers.
  - rewrite prog_loadable. constructor; [exact code_fits|constructor].
  - rewrite prog_loadable. split; [constructor|done].
Qed.


Definition loaded : (option Z + loader_image_t) * vm_state := loader_load_elf prog demo_vm.
Definition image_of (r : (option Z + loader_image_t) * vm_state) : loader_image_t :=
  match r.1 with inr i => i | inl _ => no_image end.

(** The program is there: its code and its stack are mapped. *)
Lemma prog_loaded :
  let i := image_of loaded in
  im_entry i = 4194480 ∧ im_brk_base i = 4202496 ∧ im_segs i = [mk_segment 4194304 4202496 5]
  ∧ bslice 176 4 (frame loaded.2 (translate (paging loaded.2) (im_pml4 i) 4194304)) = [15; 5; 235; 254].
Proof. vm_compute. done. Qed.

Lemma loader_map_segment_witness :
  ∃ res v' own', loader_map_segment PARENT prog code_header no_image demo_vm = (res, v') ∧ grows vm_own demo_vm own' v'
    ∧ pages_kept vm_own demo_vm v' PARENT (λ a, seg_lo code_header ≤ a < seg_hi code_header)
    ∧ ((res = inr (add_segment code_header no_image)
        ∧ ∃ fs, length fs = segment_pages (seg_lo code_header) (seg_hi code_header)
            ∧ pages_are demo_vm v' PARENT (seg_lo code_header) (segment_flags code_header) (segment_page prog code_header) fs)
       ∨ no_page res).
Proof.
  apply loader_map_segment_correct; [exact demo_vm_inv|exact demo_limit|apply demo_roots|apply code_fits|apply code_fits].
Defined.

Lemma paging_create_user_pml4_witness :
  let '(r, s') := paging_create_user_pml4 (paging demo_vm) in
  ∃ own', grown (paging demo_vm) vm_own s' own'
    ∧ (r ≠ 0 → is_root own' r ∧ vm_own !! r = None ∧ ¬ frame_used (pg_pmm (paging demo_vm)) r
       ∧ ∀ va, user_page va → translate s' r va = 0).
Proof. apply paging_create_user_pml4_correct; [exact (vi_pt _ _ demo_vm_inv)|apply demo_roots]. Defined.

(** ** Arguments *)
Definition img0 : loader_image_t := image_of loaded.

Lemma stack_loaded : stack_ok img0 loaded.2.
Proof.
  split; [vm_compute; reflexivity..| |].
  - apply (bool_decide_unpack (NoDup (im_stack_phys img0))). vm_compute. exact I.
  - apply (bool_decide_unpack (Forall (λ p, length (frame loaded.2 p) = 4096%nat) (im_stack_phys img0))). vm_compute. exact I.
Qed.

(** [prog -v] with one string of the environment. *)
Definition two_args : option (list (option (list Z))) := Some [Some [112; 114; 111; 103]; Some [45; 118]].


(** ** What the loader does not check *)

(** The first argument of a call with these arguments, up to [n] bytes. *)
Definition first_arg (argv : list (list Z)) (n : Z) : list Z :=
  match loader_prepare_user_args img0 (Z.of_nat (length argv)) (Some (Some <$> argv)) [] loaded.2 with
  | (inr (_, argv_ptr, _), v) => area (stack_mem img0 v) (stack_word img0 v argv_ptr) n
  | _ => []
  end.

(** An argument of 128 bytes or more has no end: the program reads the next one
    as a part of it. *)
Theorem long_argument_runs_on :
  first_arg [replicate 200 65; [66]] 130 = replicate 128 65 ++ [66; 0].
Proof. vm_compute. reflexivity. Qed.

(** The byte at [va] in the address space of the program of a file. *)
Definition program_byte (image : list Z) (va : Z) : option Z :=
  match loader_load_elf image demo_vm with
  | (inr i, v) => Some (frame v (translate (paging v) (im_pml4 i) (align_down va)) !!! Z.to_nat (va mod 4096))
  | _ => None
  end.

Definition low_half : elf64_phdr_t := mk_phdr PT_LOAD 5 176 4194304 4 4.
Definition high_half : elf64_phdr_t := mk_phdr PT_LOAD 6 176 4196352 4 4.

(** Two segments on one page: the second one takes a new frame, and the bytes
    of the first are gone. *)
Theorem shared_page_loses_segment :
  program_byte (elf_file 4194304 [low_half; high_half] [15; 5; 235; 254]) 4194304 = Some 0
  ∧ program_byte (elf_file 4194304 [low_half] (replicate 56 0 ++ [15; 5; 235; 254])) 4194304 = Some 15.
Proof. vm_compute. done. Qed.

(** The check [p_offset + p_filesz > image_size] wraps: the bytes of the
    segment are read outside of the file. *)
Theorem wrapped_offset_leaves_file :
  (loader_load_elf (elf_file 0 [mk_phdr PT_LOAD 5 18446744073709551612 4194304 4 4] []) demo_vm).1 = inl None.
Proof. vm_compute. reflexivity. Qed.

(** A kernel page, mapped for the kernel only, of which the current address
    space and new ones have the tables in common. *)
Definition KERNEL_PAGE : Z := ARCH_KERNEL_VIRT_BASE.
Definition with_kernel : vm_state :=
  demo_vm <| paging ::= λ p, (paging_map_page_4kb_pml4 p PARENT KERNEL_PAGE 2097152 (Z.lor PTE_PRESENT PTE_RW)).2 |>.

(** Only the start of a segment is compared with the kernel base.  One that
    starts below it and ends above replaces the page of the kernel, also in
    the address space of the caller.  This small machine has no page left for
    the stack then, so the load fails, but the page of the kernel is gone. *)
Theorem segment_replaces_kernel_page :
  let file := elf_file 0 [mk_phdr PT_LOAD 7 120 (KERNEL_PAGE - 4096) 4 8192] [1; 2; 3; 4] in
  let r := loader_load_elf file with_kernel in
  translate (paging with_kernel) PARENT KERNEL_PAGE = 2097152
  ∧ translate (paging r.2) PARENT KERNEL_PAGE ≠ 2097152
  ∧ translate (paging r.2) PARENT KERNEL_PAGE ≠ 0.
Proof. vm_compute. split_and!; [reflexivity|discriminate|discriminate]. Qed.

End LoaderDemo.

(** * exec on a concrete state

    A process with a pipe, whose read end is marked, starts the program of
    [LoaderDemo] from a file. *)
Module ExecDemo.
Import Sched Waitq Task PathSpec Vfs VfsFile VfsInv VfsSteps.
Import UnixPath UnixPipe UnixFd UnixIo UnixProc UnixRes UnixSlots UnixFdInv UnixClone UnixCalls UnixFork UnixProcInv UnixDemo.
Import Loader Exec ExecProofs.

(** ** The file *)
Definition P_PATH : list Z := [47; 112].
Definition open_p := vfs_open ops VfsDemo.booted tt (VfsDemo.nb 1101) P_PATH VfsDemo.CREATE no_file VfsDemo.heap_block.
Definition file_p : vfs_file_t := VfsDemo.opened_file open_p.
Definition s_open : vfs_state := VfsDemo.opened_state open_p.
Definition write_p := vfs_write ops s_open tt file_p LoaderDemo.prog VfsDemo.heap_block.
Definition file_w : vfs_file_t := VfsDemo.opened_file write_p.
Definition s_full : vfs_state := VfsDemo.opened_state write_p.
Definition s_prog : vfs_state := (vfs_close s_full file_w).2.

Lemma inv_prog : vsys_inv s_prog [].
Proof.
  apply (vsteps_inv ops VfsDemo.booted [] tt s_prog [] tt VfsDemo.inv_booted).
  apply (rtc_l _ _ (s_open, [file_p], tt)).
  { apply (vs_open ops VfsDemo.booted tt [] (VfsDemo.nb 1101) P_PATH VfsDemo.CREATE no_file VfsDemo.heap_block RDNX_OK file_p s_open tt);
      [intros _; vm_compute; reflexivity|apply VfsDemo.heap_ok|vm_compute; reflexivity..]. }
  apply (rtc_l _ _ (s_full, [file_w], tt)).
  { apply (vs_write ops s_open tt [] file_p [] LoaderDemo.prog VfsDemo.heap_block (Z.of_nat (length LoaderDemo.prog)) file_w s_full tt);
      [apply VfsDemo.heap_ok|vm_compute; reflexivity..]. }
  apply rtc_once. apply (vs_close ops s_full tt [] file_w [] RDNX_OK no_file). vm_compute. reflexivity.
Qed.

(** ** The process *)
Definition caller : unix_state unit :=
  (set_flags TASK 0 UNIX_FD_CLOEXEC with_pipe) <| us_vfs := s_prog |> <| us_mem := ustore ∅ BUF [47; 112; 0] |>.
Definition heap (n : Z) : list Z := replicate (Z.to_nat n) 165.

(** Without open files, another file system and memory do. *)
Lemma other_vfs_inv (u : unix_state unit) s m :
  fd_inv [] u → file_slots (slots [] (us_sched u)) = [] → vsys_inv s [] → fd_inv [] (u <| us_vfs := s |> <| us_mem := m |>).
Proof.
  intros [T R] Hn Hv. split; [exact T|]. destruct R as [R1 R2 _ R4 R5 R6]. split; try assumption. cbn. by rewrite Hn.
Qed.

Lemma inv_caller : fd_inv [] caller.
Proof.
  unfold caller. apply other_vfs_inv; [|vm_compute; reflexivity|exact inv_prog].
  exact (set_flags_inv with_pipe TASK 0 UNIX_FD_CLOEXEC inv_with_pipe).
Qed.


(** The program is entered: its read end of the pipe is closed, the write end
    is open, and its map has the code and the stack. *)
Lemma exec_enters :
  match unix_fs_exec ops net caller VmDemo.demo_vm VmDemo.demo_task BUF 0 0 heap with
  | ExEnter e u' v' t' =>
      ue_entry e = 4194480 ∧ fd_handle u' TASK 0 = 0 ∧ fd_handle u' TASK 1 = 700
      ∧ (Vm.entries <$> Vm.t_map t') =
          Some [Vm.mk_entry 4194304 4202496 5 (Z.lor Vm.VM_MAP_F_PRIVATE Vm.VM_MAP_F_FIXED) 0 0;
                Vm.mk_entry STACK_BOTTOM USER_STACK_TOP 3
                  (Z.lor (Z.lor Vm.VM_MAP_F_STACK Vm.VM_MAP_F_PRIVATE) Vm.VM_MAP_F_FIXED) 0 0]
  | _ => False
  end.
Proof. vm_compute. done. Qed.

End ExecDemo.
